(* ===== verification/_CoqProject ===== *)
-Q . S2P
Prelude.v
Errors.v
Agents.v
Permissions.v
Store.v
QueueDao.v
Utf8.v
Envelope.v
Timestamps.v
AuditWriter.v
QueueSpec.v
QueueSession.v
AuditSpec.v
Lookups.v
KillSwitch.v
QueueService.v
Delivery.v
DeliveryProgress.v
SourceScope.v
Arbitration.v
Template.v
Routes.v
RoutingWorker.v
RoutingFrame.v
RoutingClaims.v
RoutesService.v
Regex.v
Redaction.v
Classifier.v
Debounce.v
Session.v
Tables.v
LogDao.v
Json.v
EventsDao.v
Tower.v
FollowSessions.v
EventsReader.v
EventsReaderSpec.v
EventsReaderSafety.v
TowerInvariant.v
EventsReaderClaims.v
RegistryDao.v
Validation.v
JsonParse.v
Desk.v
AgentsService.v
InTx.v
RegistrySpec.v
AgentsServiceSpec.v
AgentsClaims.v
PipePane.v
LogPaths.v
LogService.v
LogServiceSpec.v
LogClaims.v
TmuxAdapter.v
Orphans.v
PaneReconcile.v
PaneService.v
PaneScanSpec.v
PaneClaims.v
DockerAdapter.v
ContainerDiscovery.v
ContainerClaims.v
TowerHistory.v
AppContract.v
AppCursor.v
AppScans.v
AppDaemon.v
AppMutations.v
AppReads.v
AppDashboard.v
AppClaims.v
SocketMethods.v
SocketServer.v
SocketClaims.v
DaemonProcess.v
DaemonClaims.v
ConfigDoctor.v
