(* ===== verification/Prelude.v ===== *)
(** * AgentTower

    AgentTower is a daemon that lets coding agents in containers work together.  It finds bench
    containers and their tmux panes, registers the agents in them, records what their panes print,
    turns those logs into events, queues the prompts agents send each other and pastes them into
    panes, and routes events to agents as new prompts.  Operators and agents reach it over a Unix
    socket, a desktop application over a contract of its own on the same socket.

    This library models the daemon, under src/src/agenttower/, and proves what makes it correct.

    ** How the code is represented

    A Python function that only computes is a Rocq function; one that can raise returns an
    [outcome] (Errors.v).  Stateful code is a program of the monad [M S A := S → outcome A * S]
    (Store.v).  [catch] and [except] are Python's [try]; [SystemExit] stands for the process dying
    and passes through [except].  The state of the daemon has these parts:
    - [conn] (Store.v): the connection of the queue and its tables [message_queue], [routes],
      [daemon_state] and the audit's [events]; [world] (AuditWriter.v) adds the clock,
      [events.jsonl], the audit buffer, the kill-switch cache and tmux; [router] (Routes.v) adds the
      memory of the routing worker;
    - [session] (Session.v) on [tower_db] (Tables.v): the tables of containers, panes, agents, log
      attachments and durable events; [tower] (Tower.v) adds log files, [events.jsonl] and the
      lifecycle log; [desk] (Desk.v) adds the clock, random tokens and docker;
    - [daemon] (AppDaemon.v): desk, router and the memory of the application contract; [control]
      (SocketMethods.v): the daemon with follow sessions, as the socket sees it;
    - [host] (DaemonProcess.v): paths, inodes, locks and sockets, shared by processes that are
      programs of system calls.
    The tables of [conn] and of [tower_db] live in one SQLite file; they are kept apart because no
    transaction touches both, and the queue sees the registry of agents through the class
    [AgentsLookup], whose values change between its reads.  The durable events of [tower_db] are the
    rows that the routing worker reads as [events]; each side is verified on its own view.

    What the surroundings do is data of the initial state: answers of the SQL engine (errors, the
    process dying at a statement), commits of other writers whenever the lock is taken, failures of
    appends, outcomes of docker and tmux, clocks, random ids.  A theorem about all states covers
    every schedule of them.  Strings are their UTF-8 bytes, which order like SQLite's BINARY
    collation; where the code counts characters the model counts code points.  A table keyed by a
    text id is a [gmap]; tables whose order shows are lists.

    ** Files

    Shared: Prelude.v (text and sorting lemmas, automation), Errors.v (routing/errors.py,
    route_errors.py), Utf8.v (the strict codec), Json.v and JsonParse.v ([json.dumps], [json.loads]
    and that one reads the other back), Regex.v (regular expressions as [re] runs them),
    Timestamps.v (routing/timestamps.py).

    The message queue:
    - Agents.v: state/agents.py, agents/identifiers.py, routing/target_resolver.py, behind the class
      [AgentsLookup] with its laws; Permissions.v: routing/permissions.py; Lookups.v: the container
      and pane lookups of routing/daemon_adapters.py behind their classes;
    - Store.v: the monad, tables and constraints of state/schema.py, transactions, weakest
      preconditions; QueueDao.v: routing/dao.py, every method;
    - Envelope.v: routing/envelope.py and routing/excerpt.py; AuditWriter.v: routing/audit_writer.py;
    - QueueSpec.v: the life of a message as a state machine and that the DAO implements it;
      QueueSession.v: any session of calls refines it; AuditSpec.v: what the audit conserves;
    - KillSwitch.v: routing/kill_switch.py; QueueService.v: routing/service.py;
    - Delivery.v, DeliveryProgress.v: routing/delivery.py.

    Routing:
    - SourceScope.v, Arbitration.v, Template.v: the modules of these names;
    - Routes.v: routing/routes_dao.py, routes_audit.py, skip_counter.py and the worker's event scan;
    - RoutingWorker.v, RoutingFrame.v, RoutingClaims.v: routing/worker.py;
    - RoutesService.v: routing/routes_service.py and routing/heartbeat.py.

    Events:
    - Redaction.v: logs/redaction.py; Classifier.v: events/classifier.py and its rules; Debounce.v:
      events/debounce.py;
    - Session.v, Tables.v, LogDao.v, EventsDao.v: the session, tables and DAOs of state/schema.py,
      state/log_attachments.py, state/log_offsets.py, events/dao.py; Tower.v: logs/lifecycle.py,
      logs/audit.py and logs/reader_recovery.py; FollowSessions.v: events/session_registry.py;
    - EventsReader.v, EventsReaderSpec.v, EventsReaderSafety.v, TowerInvariant.v,
      EventsReaderClaims.v: events/reader.py.

    Agents, logs and discovery:
    - RegistryDao.v, Validation.v, Desk.v, AgentsService.v, InTx.v, RegistrySpec.v,
      AgentsServiceSpec.v, AgentsClaims.v: agents/ and state/;
    - PipePane.v, LogPaths.v, LogService.v, LogServiceSpec.v, LogClaims.v: logs/;
    - TmuxAdapter.v, PaneReconcile.v, PaneService.v, PaneScanSpec.v, PaneClaims.v: tmux/ and the
      panes of discovery/; Orphans.v: logs/orphan_recovery.py;
    - DockerAdapter.v, ContainerDiscovery.v, ContainerClaims.v: docker/ and the containers of
      discovery/; TowerHistory.v: histories of all these services on one database.

    The application contract (app_contract/): AppContract.v (sessions, gate, envelopes, replay),
    AppCursor.v, AppScans.v, AppDaemon.v, AppMutations.v, AppReads.v, AppDashboard.v, and
    AppClaims.v over the whole dispatch table.

    The process: SocketMethods.v (socket_api/methods.py), SocketServer.v (server.py, client.py),
    SocketClaims.v; DaemonProcess.v (daemon.py, socket_api/lifecycle.py), DaemonClaims.v;
    ConfigDoctor.v (config_doctor/, the client's own diagnosis).

    ** What is proved

    Queue: a session of DAO calls, under any engine faults, any interference that respects the
    lifecycle, and a crash at any statement, refines the state machine of messages.  No message is
    pasted twice over any history of turns, requests, crashes and restarts; the attempt is stamped
    before tmux is asked anything; without faults a ready message is delivered; recovery leaves
    nothing in flight.  An accepted request makes exactly the row the gate prescribes.  Draining the
    audit loses no line.

    Routing: at most one message per route and event over any life of the worker; an event that is
    done with has its cursor past it and either a row or a reason.

    Events: redaction leaves no secret of its patterns; classification is the first rule that
    matches; activity events are exact summaries of windows; a cycle of the reader commits the
    events and the offset they were read up to together or not at all, each record once; the tables
    keep their constraints whatever fails.

    Agents, logs, discovery: every request is one step of the registry specification or none;
    masters are only made by confirmed requests; an active agent sits on an active pane; an attach
    is atomic and leaves one live attachment; a shell reads the pipe command as the words intended,
    and log paths stay below the mount that proves them; scans commit exactly what they saw, in one
    step; the search for orphans only reports.

    Application: a repeated request is answered from the replay store and changes nothing; pages
    enumerate a listing; the registry of scans keeps its caps; cursors round-trip.

    Process: every connection gets one answer of the closed set, requests and answers survive the
    wire, callers act only in their own name, containers learn nothing of the application's methods,
    followers miss nothing; however daemons are started, interleaved and killed at most one listens,
    foreign files survive, a second daemon is refused, and after any history of crashes the next one
    comes up; the doctor's report cannot be forged and its exit code is what it found.

    Where the code departs from its documentation an example or theorem says so: a lock conflict
    during routing consumes the event, rotation of a log is never detected by its inode, the exit
    code in the daemon's log is always zero, a Kubernetes container is taken for its class of
    service, and others.

    ** Bounds and termination

    Loops over lists recurse on the list.  [drain_loop] takes the length of the buffer as fuel, and
    [drain_completes] shows that this is enough; following symbolic links stops after
    [MAXSYMLINKS], as the kernel does; reading in chunks takes the length of the stream; the JSON
    reader recurses on fuel given by the length of the text, and its round trip shows that this is
    enough; the regular expressions are star-bounded by the text.  Waiting recurses on the clock
    readings that arrive before the deadline, retries on their delays, a loop that ends with a
    signal on the list of its waits.  Numbers are not machine words in this program; the bounds that
    matter (excerpts, bodies, pages, buffers, request lines, report rows) are stated as such.

    ** What is idealised

    Code outside the repository is a parameter: SHA-256, [str.lower] and the digit and word tables
    beyond ASCII, [float()], [repr] of nested values, [datetime.fromisoformat] and differences of
    instants, the text of an event cursor, template fields with conversions or format
    specifications, and the subprocesses, whose outcomes are inputs.  Monotonic clocks are integers.
    A handler runs to its end before the next one: the locks that ensure it are not modelled, and
    interference is that of other connections.  The nesting of JSON is not limited, and integers of
    the database are not cut at 64 bits.  The prose of error messages is left out except where it is
    printed or audited.  Audit lines of the application are kept in a list of their own.  A server
    object that is dropped with an exception closes its socket.

    ** What is not modelled

    The command line (cli.py, routing/cli_routes.py, agents/client_resolve.py), which parses
    arguments and prints around the client; the statements of schema migrations, of which the
    resulting tables and constraints are modelled; the construction of services from paths and
    configuration, of which the containers block is read; clocks and adapters that stand in for the
    real ones in tests. *)

From stdpp Require Export prelude strings list gmap sorting.
From Stdlib Require Import Ascii.

(** ** Text helpers

A Python [str] is represented by the Rocq [string] holding its UTF-8 bytes;
equality, concatenation, ASCII prefixes and ordering agree with Python's, and
with SQLite's BINARY collation.  Where the code counts characters the model
uses lists of code points instead (see [Utf8]). *)

Declare Scope tower_scope.
Delimit Scope tower_scope with tower.

Module Text.

(** [s.startswith(p)] *)
Definition startswith (p s : string) : bool := String.prefix p s.

(** [s[n:]] *)
Fixpoint drop (n : nat) (s : string) : string :=
  match n, s with
  | 0, _ => s
  | S n', String _ s' => drop n' s'
  | S _, EmptyString => EmptyString
  end.

(** [sub in s] *)
Fixpoint contains (sub s : string) : bool :=
  startswith sub s ||
  match s with
  | EmptyString => false
  | String _ s' => contains sub s'
  end.

Definition lower_ascii (c : ascii) : ascii :=
  let n := nat_of_ascii c in
  if (65 <=? n) && (n <=? 90) then ascii_of_nat (n + 32) else c.

(** [s.lower()] on the ASCII range. *)
Fixpoint lower (s : string) : string :=
  match s with
  | EmptyString => EmptyString
  | String c s' => String (lower_ascii c) (lower s')
  end.

(** [s.split(sep)] for a one-character separator: always at least one part. *)
Fixpoint split (sep : ascii) (s : string) : list string :=
  match s with
  | EmptyString => [EmptyString]
  | String c s' =>
      if bool_decide (c = sep) then EmptyString :: split sep s'
      else match split sep s' with
           | [] => [String c EmptyString]
           | part :: rest => String c part :: rest
           end
  end.

Fixpoint all (p : ascii -> bool) (s : string) : bool :=
  match s with
  | EmptyString => true
  | String c s' => p c && all p s'
  end.

Lemma app_empty_r s : s +:+ EmptyString = s.
Proof.
  induction s as [|c s IH]; [done|].
  change (String c (s +:+ EmptyString) = String c s). by rewrite IH.
Qed.

Lemma prefix_app p s : String.prefix p (p +:+ s) = true.
Proof.
  induction p as [|c p IH]; [by destruct s|].
  change (String c p +:+ s) with (String c (p +:+ s)). simpl.
  destruct (ascii_dec c c); [apply IH|done].
Qed.

Lemma drop_app p s : drop (String.length p) (p +:+ s) = s.
Proof. induction p as [|c p IH]; [done|]. apply IH. Qed.

Lemma prefix_drop p s :
  startswith p s = true → s = p +:+ drop (String.length p) s.
Proof.
  unfold startswith. revert s. induction p as [|c p IH]; intros s H; [done|].
  destruct s as [|c' s]; [done|]. simpl in H.
  destruct (ascii_dec c c') as [->|]; [|done].
  change (String c' p +:+ ?x) with (String c' (p +:+ x)). simpl.
  f_equal. by apply IH.
Qed.

Lemma split_nonempty sep s : split sep s ≠ [].
Proof.
  destruct s; simpl; [done|]. case_bool_decide; [done|].
  by destruct (split sep s).
Qed.

(** A string without the separator is its own single part. *)
Lemma split_none sep s :
  all (λ c, negb (bool_decide (c = sep))) s = true → split sep s = [s].
Proof.
  induction s as [|c s IH]; simpl; [done|].
  intros [Hc Hs]%andb_true_iff. apply negb_true_iff in Hc. rewrite Hc.
  by rewrite (IH Hs).
Qed.

Lemma split_app sep s1 s2 :
  all (λ c, negb (bool_decide (c = sep))) s1 = true →
  split sep (s1 +:+ String sep s2) = s1 :: split sep s2.
Proof.
  induction s1 as [|c s1 IH]; intros H.
  - change ("" +:+ ?x) with x. simpl. by rewrite bool_decide_true.
  - simpl in H. apply andb_true_iff in H as [Hc Hs].
    change (String c s1 +:+ ?x) with (String c (s1 +:+ x)). simpl.
    apply negb_true_iff in Hc. rewrite Hc. by rewrite (IH Hs).
Qed.

End Text.

(** ** Sorting

[sorted(xs, key=...)[0]] and [ORDER BY ... LIMIT n]: [merge_sort] with a
decidable total preorder. *)

Section SortHead.
Context {A : Type} (R : relation A).
Context `{!∀ x y, Decision (R x y), !Total R, !Transitive R}.

Lemma merge_sort_elem_of (l : list A) x : x ∈ merge_sort R l ↔ x ∈ l.
Proof. by rewrite (merge_sort_Permutation R l). Qed.

Lemma merge_sort_head_None (l : list A) : head (merge_sort R l) = None ↔ l = [].
Proof.
  pose proof (merge_sort_Permutation R l) as HP. split.
  - destruct (merge_sort R l) as [|y k]; [|done].
    intros _. by apply Permutation_nil_l in HP.
  - by intros ->.
Qed.

Lemma merge_sort_head_Some (l : list A) x :
  head (merge_sort R l) = Some x → x ∈ l ∧ ∀ y, y ∈ l → R x y.
Proof.
  intros Hh. pose proof (merge_sort_elem_of l) as Hin.
  pose proof (StronglySorted_merge_sort R l) as Hs.
  destruct (merge_sort R l) as [|z k]; [done|]. simplify_eq/=.
  split; [apply Hin; by left|]. intros y Hy. apply Hin in Hy.
  apply elem_of_cons in Hy as [->|Hy]; [by destruct (total R x x)|].
  inversion Hs as [|? ? ? Hall]; subst. by eapply Forall_forall in Hall.
Qed.
End SortHead.

(** Order induced by a string key. *)
Definition key_le {A} (key : A → string) : relation A :=
  λ a b, String.le (key a) (key b).

#[export] Instance key_le_dec {A} (key : A → string) a b : Decision (key_le key a b).
Proof. unfold key_le. apply _. Defined.

#[export] Instance key_le_total {A} (key : A → string) : Total (key_le key).
Proof. intros a b. apply (total String.le). Qed.

#[export] Instance key_le_trans {A} (key : A → string) : Transitive (key_le key).
Proof. intros a b c. apply (transitivity (R := String.le)). Qed.

(** ** Lists *)

Lemma forallb_false_elem {A} (p : A → bool) (l : list A) :
  forallb p l = false → ∃ x, x ∈ l ∧ p x = false.
Proof.
  induction l as [|x l IH]; simpl; [done|]. intros [H|H]%andb_false_iff.
  - exists x. split; [by left|done].
  - destruct (IH H) as (y & ? & ?). exists y. split; [by right|done].
Qed.

Lemma filter_id_Forall {A} (P : A → Prop) `{∀ x, Decision (P x)} (l : list A) :
  Forall P l → filter P l = l.
Proof. induction 1; [done|]. rewrite filter_cons_True by done. by f_equal. Qed.

Lemma filter_nil_Forall {A} (P : A → Prop) `{∀ x, Decision (P x)} (l : list A) :
  Forall (λ x, ¬ P x) l → filter P l = [].
Proof. induction 1; [done|]. by rewrite filter_cons_False. Qed.

(** ** Automation *)

Create HintDb tower.

(** Split boolean conjunctions and equations between decided propositions. *)
Ltac bool_simp :=
  repeat match goal with
  | H : _ && _ = true |- _ => apply andb_true_iff in H; destruct H
  | H : _ || _ = false |- _ => apply orb_false_iff in H; destruct H
  | H : negb _ = true |- _ => apply negb_true_iff in H
  | H : negb _ = false |- _ => apply negb_false_iff in H
  | H : bool_decide _ = true |- _ => apply bool_decide_eq_true in H
  | H : bool_decide _ = false |- _ => apply bool_decide_eq_false in H
  end.

(** Case on every [match] or [if] of the goal, simplifying as it goes. *)
Ltac cases_goal :=
  repeat (case_match; simplify_eq/=; try done); simplify_eq/=; try done.
