(* ===== verification/Errors.v ===== *)
(** Exceptions and closed code sets of the routing subsystem
    (src/src/agenttower/routing/errors.py, routing/route_errors.py and the
    codes of socket_api/errors.py they re-export), and the outcome of a
    fallible Python function. *)

From S2P Require Import Prelude.

(** ** Exceptions

One constructor per exception class the routing code raises or catches; the
free-text message is dropped except for [sqlite3.OperationalError], whose
message the code inspects. *)

(** The subclasses of [QueueServiceError] the handlers tell apart. *)
Inductive qse_class :=
| QSE                 (* QueueServiceError itself *)
| TargetResolve       (* TargetResolveError *)
| BodyValidation      (* BodyValidationError *)
| LockConflict        (* SqliteLockConflict, a TmuxDeliveryError *)
| OperatorPane.       (* OperatorPaneInactive *)

Inductive exn :=
| QueueServiceError (cls : qse_class) (code : string)
| TmuxError (failure_reason : option string)
| OperationalError (msg : string)
| IntegrityError
| RouteError (code : string)
| RoutingTransientError (code : string)
| RouteTemplateRenderError (sub_reason : string)
| RegistrationError (code : string) (* agents/errors.py *)
| AdapterError (code message : string) (* DockerError and TmuxError of a scan *)
| PyError (class_name : string)   (* any other subclass of Exception *)
| SystemExit.                     (* BaseException: the process goes down *)

#[export] Instance qse_class_eq_dec : EqDecision qse_class.
Proof. solve_decision. Defined.
#[export] Instance exn_eq_dec : EqDecision exn.
Proof. solve_decision. Defined.

(** [isinstance(e, Exception)]: what a bare [except Exception] catches. *)
Definition is_exception (e : exn) : bool :=
  match e with SystemExit => false | _ => true end.

Definition is_queue_service_error (e : exn) : bool :=
  match e with QueueServiceError _ _ => true | _ => false end.

(** [SqliteLockConflict.__init__] fixes the code. *)
Definition sqlite_lock_conflict : exn :=
  QueueServiceError LockConflict "sqlite_lock_conflict".

Definition is_lock_conflict (e : exn) : bool :=
  match e with QueueServiceError LockConflict _ => true | _ => false end.

(** ** Outcome of a call *)

Inductive outcome (A : Type) := Ok (a : A) | Raise (e : exn).
Arguments Ok {A} a.
Arguments Raise {A} e.

Definition obind {A B} (m : outcome A) (k : A → outcome B) : outcome B :=
  match m with Ok a => k a | Raise e => Raise e end.

Definition is_ok {A} (m : outcome A) : bool :=
  match m with Ok _ => true | Raise _ => false end.

(** ** Closed sets *)

Definition FAILURE_REASONS : list string :=
  ["attempt_interrupted"; "tmux_paste_failed"; "docker_exec_failed";
   "tmux_send_keys_failed"; "pane_disappeared_mid_attempt";
   "sqlite_lock_conflict"].

(** [SKIP_REASONS] of route_errors.py. *)
Definition SKIP_REASONS : list string :=
  ["no_eligible_master"; "master_inactive"; "master_not_found";
   "target_not_found"; "target_role_not_permitted"; "target_not_active";
   "target_pane_missing"; "target_container_inactive"; "no_eligible_target";
   "template_render_error"].

(** [TEMPLATE_SUB_REASONS] of route_errors.py. *)
Definition TEMPLATE_SUB_REASONS : list string :=
  ["missing_field"; "body_empty"; "body_invalid_chars";
   "body_invalid_encoding"; "body_too_large"; "redactor_failure"].

Definition CLI_EXIT_CODE_MAP : list (string * nat) :=
  [("delivery_wait_timeout", 1); ("routing_disabled", 2);
   ("sender_not_in_pane", 3); ("sender_role_not_permitted", 4);
   ("agent_not_found", 5); ("target_label_ambiguous", 6);
   ("target_not_active", 7); ("target_role_not_permitted", 8);
   ("target_container_inactive", 9); ("target_pane_missing", 10);
   ("body_empty", 11); ("body_invalid_encoding", 11);
   ("body_invalid_chars", 11); ("body_too_large", 11);
   ("daemon_unavailable", 12); ("daemon_shutting_down", 12);
   ("tmux_paste_failed", 13); ("docker_exec_failed", 13);
   ("tmux_send_keys_failed", 13); ("pane_disappeared_mid_attempt", 13);
   ("sqlite_lock_conflict", 13); ("attempt_interrupted", 13);
   ("since_invalid_format", 14); ("terminal_state_cannot_change", 15);
   ("delivery_in_progress", 16); ("approval_not_applicable", 17);
   ("delay_not_applicable", 18); ("routing_toggle_host_only", 19);
   ("message_id_not_found", 20); ("operator_pane_inactive", 21);
   ("bad_request", 64); ("unknown_method", 64)].

(** [CLI_EXIT_CODE_MAP.get(string_code, 1)] *)
Definition cli_exit_code (string_code : string) : nat :=
  match list_find (λ kv, kv.1 = string_code) CLI_EXIT_CODE_MAP with
  | Some (_, (_, n)) => n
  | None => 1
  end.
