(* ===== verification/Agents.v ===== *)
(** The agent registry as the routing code sees it
    (src/src/agenttower/state/agents.py, agents/identifiers.py), the
    [AgentsLookup] protocol, its registry adapter (routing/daemon_adapters.py)
    and the [--target] resolver (routing/target_resolver.py). *)

From S2P Require Import Prelude Errors.
From Stdlib Require Import Ascii.

(** ** Agent records *)

Record AgentRecord := mkAgent {
  agent_id : string;
  container_id : string;
  tmux_socket_path : string;
  tmux_session_name : string;
  tmux_window_index : Z;
  tmux_pane_index : Z;
  tmux_pane_id : string;
  role : string;
  capability : string;
  label : string;
  project_path : string;
  parent_agent_id : option string;
  effective_permissions : string;   (* the JSON text of the column *)
  created_at : string;
  last_registered_at : string;
  last_seen_at : option string;
  active : bool
}.

#[export] Instance AgentRecord_eq_dec : EqDecision AgentRecord.
Proof. solve_decision. Defined.

(** ** Identifiers *)

Definition is_hex_lower (c : ascii) : bool :=
  let n := nat_of_ascii c in
  ((48 <=? n) && (n <=? 57)) || ((97 <=? n) && (n <=? 102)).

Definition newline : ascii := "010"%char.

(** [AGENT_ID_RE.match]: [^agt_[0-9a-f]{12}$].  Python's [$] also matches just
    before one final newline. *)
Definition AGENT_ID_RE_match (s : string) : bool :=
  Text.startswith "agt_" s &&
  (let rest := Text.drop 4 s in
   let hex := String.substring 0 12 rest in
   let tail := Text.drop 12 rest in
   (String.length hex =? 12) && Text.all is_hex_lower hex &&
   (bool_decide (tail = EmptyString) ||
    bool_decide (tail = String newline EmptyString))).

Definition HOST_OPERATOR_SENTINEL : string := "host-operator".

Definition validate_agent_id_shape (value : string) : outcome string :=
  if bool_decide (value = HOST_OPERATOR_SENTINEL)
  then Raise (RegistrationError "value_out_of_set")
  else if negb (AGENT_ID_RE_match value)
  then Raise (RegistrationError "value_out_of_set")
  else Ok value.

(** ** The agents table *)

Definition select_agent_by_id (table : list AgentRecord) (id : string)
  : option AgentRecord :=
  snd <$> list_find (λ r, agent_id r = id) table.

(** [prefix[:-1] + chr(ord(prefix[-1]) + 1)]; an IndexError on the empty
    string.  Container ids are ASCII. *)
Fixpoint next_lex_prefix (prefix : string) : option string :=
  match prefix with
  | EmptyString => None
  | String c EmptyString =>
      Some (String (ascii_of_nat (nat_of_ascii c + 1)) EmptyString)
  | String c rest => String c <$> next_lex_prefix rest
  end.

(** The container filter of [list_agents]: exact on 64 characters, else the
    half-open range scan. *)
Definition container_matches (filter_id row_id : string) : outcome bool :=
  if String.length filter_id =? 64 then Ok (bool_decide (row_id = filter_id))
  else match next_lex_prefix filter_id with
       | None => Raise (PyError "IndexError")
       | Some upper =>
           Ok (bool_decide (String.le filter_id row_id) &&
               negb (bool_decide (String.le upper row_id)))
       end.

(** [ORDER BY active DESC, container_id, parent_agent_id, label, agent_id],
    NULL parents first. *)
Definition opt_key (o : option string) : string :=
  match o with None => EmptyString | Some s => String "001"%char s end.

Fixpoint keys_le (ks1 ks2 : list string) : Prop :=
  match ks1, ks2 with
  | [], _ => True
  | _ :: _, [] => False
  | k1 :: r1, k2 :: r2 =>
      if decide (k1 = k2) then keys_le r1 r2 else String.le k1 k2
  end.

#[export] Instance keys_le_dec : RelDecision keys_le.
Proof.
  intros ks1. induction ks1 as [|k1 r1 IH]; intros [|k2 r2]; simpl; try apply _.
  destruct (decide (k1 = k2)); [apply IH|apply _].
Defined.

Definition list_order_keys (r : AgentRecord) : list string :=
  [if active r then "0" else "1"; container_id r; opt_key (parent_agent_id r);
   label r; agent_id r].

Definition list_order (r1 r2 : AgentRecord) : Prop :=
  keys_le (list_order_keys r1) (list_order_keys r2).

#[export] Instance list_order_dec r1 r2 : Decision (list_order r1 r2).
Proof. unfold list_order. apply _. Defined.

(** [list_agents] with its AND-composed filters; [role] is the list of the
    [IN] clause ([] and NULL both mean no role filter). *)
Definition list_agents (table : list AgentRecord) (roles : list string)
    (container : option string) (active_only : bool)
    (parent : option string) : outcome (list AgentRecord) :=
  let keep r :=
    (negb active_only || active r) &&
    (bool_decide (roles = []) || bool_decide (role r ∈ roles)) &&
    match parent with
    | None => true
    | Some p => bool_decide (parent_agent_id r = Some p)
    end in
  match container with
  | None => Ok (merge_sort list_order (filter (λ r, keep r = true) table))
  | Some c =>
      match container_matches c EmptyString with
      | Raise e => Raise e
      | Ok _ =>
          let in_c r := match container_matches c (container_id r) with
                        | Ok b => b | Raise _ => false end in
          Ok (merge_sort list_order
                (filter (λ r, (keep r && in_c r) = true) table))
      end
  end.

(** ** The lookup protocol and its registry adapter *)

Class AgentsLookup := {
  get_agent_by_id : string → option AgentRecord;
  find_agents_by_label : string → bool → list AgentRecord
}.

(** What the callers of the protocol rely on. *)
Class AgentsLookupLaws (L : AgentsLookup) : Prop := {
  get_agent_by_id_id id r : get_agent_by_id id = Some r → agent_id r = id;
  find_by_label_sound l r :
    r ∈ find_agents_by_label l true → label r = l ∧ active r = true;
  find_by_label_NoDup l : NoDup (agent_id <$> find_agents_by_label l true)
}.

(** [RegistryAgentsLookup] (and the same two methods of
    [RoutingAgentsAdapter]) over the agents table. *)
Definition RegistryAgentsLookup (table : list AgentRecord) : AgentsLookup := {|
  get_agent_by_id id := select_agent_by_id table id;
  find_agents_by_label l only_active :=
    match list_agents table [] None only_active None with
    | Ok rows => filter (λ r, label r = l) rows
    | Raise _ => []
    end
|}.

(** The two other methods of [RoutingAgentsAdapter]. *)
Definition list_active_masters (table : list AgentRecord) : list AgentRecord :=
  match list_agents table ["master"] None true None with
  | Ok rows => rows | Raise _ => [] end.

Definition list_active_by_role (table : list AgentRecord) (r : string)
    (cap : option string) : list AgentRecord :=
  match list_agents table [r] None true None with
  | Ok rows =>
      match cap with
      | None => rows
      | Some c => filter (λ a, capability a = c) rows
      end
  | Raise _ => []
  end.

(** ** Target resolution *)

Definition resolve_target `{L : AgentsLookup} (input_str : string)
  : outcome AgentRecord :=
  if AGENT_ID_RE_match input_str then
    match get_agent_by_id input_str with
    | None => Raise (QueueServiceError TargetResolve "agent_not_found")
    | Some record => Ok record
    end
  else
    match find_agents_by_label input_str true with
    | [] => Raise (QueueServiceError TargetResolve "agent_not_found")
    | [m] => Ok m
    | _ :: _ :: _ =>
        Raise (QueueServiceError TargetResolve "target_label_ambiguous")
    end.

(** ** Lemmas *)

Lemma le_String_cons a s b t :
  String.le (String a s) (String b t) ↔
  (N_of_ascii a < N_of_ascii b)%N ∨ a = b ∧ String.le s t.
Proof.
  unfold String.le, String.leb. simpl. unfold Ascii.compare.
  destruct (N.compare_spec (N_of_ascii a) (N_of_ascii b)) as [E|E|E]; simpl.
  - assert (a = b) as ->.
    { rewrite <- (ascii_N_embedding a), <- (ascii_N_embedding b). by rewrite E. }
    split; [by right|]. by intros [?|[_ ?]]; [lia|].
  - split; [by left|done].
  - split; [done|]. intros [?|[-> _]]; lia.
Qed.

Lemma le_empty_l s : String.le EmptyString s.
Proof. by destruct s. Qed.

Lemma le_cons_empty a s : ¬ String.le (String a s) EmptyString.
Proof. intros H. exact H. Qed.

Fixpoint last_ascii (s : string) : nat :=
  match s with
  | EmptyString => 0
  | String c EmptyString => nat_of_ascii c
  | String _ rest => last_ascii rest
  end.

Lemma prefix_cons a p b s :
  String.prefix (String a p) (String b s) = true ↔ a = b ∧ String.prefix p s = true.
Proof. simpl. destruct (ascii_dec a b); naive_solver. Qed.

(** The half-open range [p, next p) is exactly the set of extensions of [p]. *)
Lemma prefix_range p upper s :
  next_lex_prefix p = Some upper → last_ascii p < 255 →
  (String.le p s ∧ ¬ String.le upper s) ↔ String.prefix p s = true.
Proof.
  revert upper s. induction p as [|c p IH]; intros upper s Hn Hl; [done|].
  destruct p as [|c' p'].
  - simpl in Hn. simplify_eq. simpl in Hl.
    destruct s as [|d s]; [split; [intros [H _]; by apply le_cons_empty in H|done]|].
    rewrite !le_String_cons, prefix_cons.
    assert (Hc : N_of_ascii (ascii_of_nat (nat_of_ascii c + 1)) = (N_of_ascii c + 1)%N).
    { unfold ascii_of_nat, nat_of_ascii in *. rewrite N_ascii_embedding; lia. }
    rewrite Hc. split.
    + intros [[Hlt|[-> _]] Hnot]; [|by destruct s].
      exfalso. apply Hnot. destruct (decide (N_of_ascii c + 1 = N_of_ascii d)%N) as [E|E].
      * right. split; [|apply le_empty_l].
        rewrite <- (ascii_N_embedding d), <- E, <- Hc. by rewrite ascii_N_embedding.
      * left. lia.
    + intros [-> _]. split; [right; split; [done|apply le_empty_l]|].
      intros [?|[E _]]; [lia|]. rewrite <- E in Hc at 2. lia.
  - change (next_lex_prefix (String c (String c' p'))) with
      (String c <$> next_lex_prefix (String c' p')) in Hn.
    destruct (next_lex_prefix (String c' p')) as [u|] eqn:Hu; [|done].
    simplify_eq/=. destruct s as [|d s].
    { split; [intros [H _]; by apply le_cons_empty in H|done]. }
    rewrite !le_String_cons, prefix_cons. rewrite <- (IH u s eq_refl Hl).
    destruct (decide (c = d)) as [->|Hne]; [naive_solver lia|].
    split; [|naive_solver]. intros [[?|[? _]] Hnot]; [|done]. exfalso. apply Hnot. by left.
Qed.

Lemma select_agent_by_id_Some table id r :
  select_agent_by_id table id = Some r → agent_id r = id ∧ r ∈ table.
Proof.
  unfold select_agent_by_id. destruct (list_find _ _) as [[i x]|] eqn:E; [|done].
  simpl. intros. simplify_eq. apply list_find_Some in E as (? & ? & _).
  split; [done|]. by eapply list_elem_of_lookup_2.
Qed.

Lemma list_agents_no_container table roles active_only parent rows r :
  list_agents table roles None active_only parent = Ok rows → r ∈ rows →
  r ∈ table ∧ (active_only = true → active r = true) ∧ (roles ≠ [] → role r ∈ roles).
Proof.
  unfold list_agents. intros Hl Hin. injection Hl as <-.
  rewrite (merge_sort_Permutation list_order) in Hin.
  apply list_elem_of_filter in Hin as [Hk Ht].
  apply andb_true_iff in Hk as [[Hk1 Hk2]%andb_true_iff _].
  split_and!; [done| |].
  - intros ->. done.
  - intros Hne. apply orb_true_iff in Hk2 as [Hk2|Hk2]; by apply bool_decide_eq_true in Hk2.
Qed.

Lemma NoDup_map_filter {A B} (f : A → B) (P : A → Prop) `{!∀ x, Decision (P x)} l :
  NoDup (f <$> l) → NoDup (f <$> filter P l).
Proof.
  induction l as [|x l IH]; [done|]. rewrite fmap_cons, NoDup_cons. intros [Hx Hl].
  rewrite filter_cons. case_decide; [|auto].
  rewrite fmap_cons, NoDup_cons. split; [|auto].
  intros (y & Hy & [_ Hyl]%list_elem_of_filter)%list_elem_of_fmap. apply Hx. rewrite Hy.
  by apply list_elem_of_fmap_2.
Qed.

(** The registry adapter keeps the protocol's promises. *)
#[export] Instance RegistryAgentsLookup_laws table :
  NoDup (agent_id <$> table) → AgentsLookupLaws (RegistryAgentsLookup table).
Proof.
  intros Hnd. split.
  - intros id r Hr. by apply select_agent_by_id_Some in Hr as [].
  - intros l r. unfold find_agents_by_label, RegistryAgentsLookup.
    destruct (list_agents _ _ _ _ _) as [rows|] eqn:E.
    + intros [Hl Hr]%list_elem_of_filter. split; [done|].
      eapply list_agents_no_container in E as (_ & Ha & _); [|done]. by apply Ha.
    + by intros ?%not_elem_of_nil.
  - intros l. unfold find_agents_by_label, RegistryAgentsLookup. simpl.
    apply NoDup_map_filter. rewrite (merge_sort_Permutation list_order).
    by apply NoDup_map_filter.
Qed.

Lemma substring_drop n s : String.substring 0 n s +:+ Text.drop n s = s.
Proof.
  revert s. induction n as [|n IH]; intros [|c s]; try done.
  change (String c (String.substring 0 n s +:+ Text.drop n s) = String c s).
  by rewrite IH.
Qed.

Lemma substring_app h t : String.substring 0 (String.length h) (h +:+ t) = h.
Proof.
  induction h as [|c h IH]; [by destruct t|].
  change (String c (String.substring 0 (String.length h) (h +:+ t)) = String c h).
  by rewrite IH.
Qed.

(** The exact language of [AGENT_ID_RE.match]. *)
Lemma AGENT_ID_RE_match_spec s :
  AGENT_ID_RE_match s = true ↔
  ∃ h, String.length h = 12 ∧ Text.all is_hex_lower h = true ∧
       (s = "agt_" +:+ h ∨ s = "agt_" +:+ (h +:+ String newline EmptyString)).
Proof.
  unfold AGENT_ID_RE_match. split.
  - intros [Hp H]%andb_true_iff. apply Text.prefix_drop in Hp.
    change (String.length "agt_") with 4 in Hp.
    set (rest := Text.drop 4 s) in *. cbv zeta in H.
    apply andb_true_iff in H as [[Hl Ha]%andb_true_iff Ht].
    apply Nat.eqb_eq in Hl. exists (String.substring 0 12 rest). split_and!; [done..|].
    rewrite <- (substring_drop 12 rest) in Hp.
    apply orb_true_iff in Ht as [Ht|Ht]; apply bool_decide_eq_true in Ht; rewrite Ht in Hp.
    + left. by rewrite Text.app_empty_r in Hp.
    + by right.
  - intros (h & Hl & Ha & Hs).
    assert (∃ t, s = "agt_" +:+ (h +:+ t) ∧ (t = EmptyString ∨ t = String newline EmptyString))
      as (t & -> & Ht).
    { destruct Hs as [->| ->]; [exists EmptyString|eauto].
      split; [by rewrite Text.app_empty_r|by left]. }
    unfold Text.startswith. rewrite Text.prefix_app, andb_true_l.
    change (Text.drop 4 ("agt_" +:+ (h +:+ t))) with (h +:+ t). cbv zeta.
    rewrite <- Hl, substring_app, Text.drop_app, Hl, Ha, Nat.eqb_refl.
    destruct Ht as [->| ->]; reflexivity.
Qed.

(** ** Properties *)

(** A successful [resolve_target] either answers an id-shaped argument with
    the agent of that very id, or answers a label with the one active agent that
    carries it; nothing else is ever returned. *)
Theorem resolve_target_sound `{L : AgentsLookup} `{!AgentsLookupLaws L} input r :
  resolve_target input = Ok r →
  (AGENT_ID_RE_match input = true ∧ agent_id r = input) ∨
  (AGENT_ID_RE_match input = false ∧ label r = input ∧ active r = true ∧
   find_agents_by_label input true = [r]).
Proof.
  unfold resolve_target. destruct (AGENT_ID_RE_match input) eqn:E.
  - destruct (get_agent_by_id input) eqn:Hg; [|done]. intros. simplify_eq.
    left. split; [done|]. by apply get_agent_by_id_id.
  - destruct (find_agents_by_label input true) as [|m [|m' k]] eqn:Hf; [done| |done].
    intros. simplify_eq. right.
    destruct (find_by_label_sound input r) as [-> ->]; [rewrite Hf; by left|]. done.
Qed.

(** The index-friendly half-open range scan of [list_agents] selects exactly
    the rows whose container id starts with the given short prefix. *)
Theorem container_prefix_scan p row_id :
  p ≠ EmptyString → String.length p ≠ 64 → last_ascii p < 255 →
  container_matches p row_id = Ok (Text.startswith p row_id).
Proof.
  intros Hne Hlen Hlast. unfold container_matches.
  rewrite (proj2 (Nat.eqb_neq _ _) Hlen).
  assert (∃ u, next_lex_prefix p = Some u) as [u Hu].
  { clear -Hne. induction p as [|c p IH]; [done|]. destruct p as [|c' p]; [eauto|].
    destruct IH as [u Hu]; [done|]. exists (String c u).
    change (String c <$> next_lex_prefix (String c' p) = Some (String c u)). by rewrite Hu. }
  rewrite Hu. f_equal. pose proof (prefix_range p u row_id Hu Hlast) as HR.
  apply eq_true_iff_eq. unfold Text.startswith. rewrite <- HR.
  by rewrite andb_true_iff, negb_true_iff, bool_decide_eq_true, bool_decide_eq_false.
Qed.

(** [validate_agent_id_shape] accepts exactly [agt_] followed by twelve
    lowercase hexadecimal digits, optionally with one trailing newline (the
    regular expression ends in [$] and is used with [match]), and returns its
    argument unchanged; the host-operator sentinel is refused. *)
Theorem validate_agent_id_shape_spec v v' :
  validate_agent_id_shape v = Ok v' ↔
  v' = v ∧ ∃ h, String.length h = 12 ∧ Text.all is_hex_lower h = true ∧
    (v = "agt_" +:+ h ∨ v = "agt_" +:+ (h +:+ String newline EmptyString)).
Proof.
  rewrite <- AGENT_ID_RE_match_spec. unfold validate_agent_id_shape.
  case_bool_decide as Hs.
  - split; [done|]. rewrite Hs. by intros [_ ?].
  - destruct (AGENT_ID_RE_match v) eqn:E; simpl; naive_solver.
Qed.

(** ** Witnesses *)

Definition demo_agent (id lbl r : string) (act : bool) : AgentRecord :=
  mkAgent id "c0ffee000000" "/tmp/tmux-1000/default" "main" 0 0 "%1" r "codex"
    lbl "/work" None "{}" "2026-05-11T00:00:00.000Z" "2026-05-11T00:00:00.000Z"
    None act.

Lemma resolve_target_sound_witness :
  let table := [demo_agent "agt_0123456789ab" "builder" "slave" true] in
  label (demo_agent "agt_0123456789ab" "builder" "slave" true) = "builder".
Proof.
  intros table.
  assert (HL : AgentsLookupLaws (RegistryAgentsLookup table)).
  { apply RegistryAgentsLookup_laws. apply NoDup_singleton. }
  destruct (resolve_target_sound (L := RegistryAgentsLookup table)
              "builder" (demo_agent "agt_0123456789ab" "builder" "slave" true) eq_refl)
    as [[H _]|(_ & H & _)]; [discriminate H|exact H].
Defined.

Lemma container_prefix_scan_witness :
  container_matches "c0ffee" "c0ffee1234" = Ok true.
Proof. apply (container_prefix_scan "c0ffee" "c0ffee1234"); [done|done|by apply Nat.ltb_lt]. Defined.
