(* ===== verification/Permissions.v ===== *)
(** The permission gate (src/src/agenttower/routing/permissions.py): the
    six-step precedence at enqueue time and the target-only re-check before a
    paste. *)

From S2P Require Import Prelude Errors Agents.

(** The closed set of [message_queue.block_reason] values. *)
Inductive BlockReason :=
| sender_role_not_permitted
| target_role_not_permitted
| target_not_active
| target_pane_missing
| target_container_inactive
| kill_switch_off
| operator_delayed.

#[export] Instance BlockReason_eq_dec : EqDecision BlockReason.
Proof. solve_decision. Defined.

Definition block_reason_code (b : BlockReason) : string :=
  match b with
  | sender_role_not_permitted => "sender_role_not_permitted"
  | target_role_not_permitted => "target_role_not_permitted"
  | target_not_active => "target_not_active"
  | target_pane_missing => "target_pane_missing"
  | target_container_inactive => "target_container_inactive"
  | kill_switch_off => "kill_switch_off"
  | operator_delayed => "operator_delayed"
  end.

Definition PERMITTED_SENDER_ROLES : list string := ["master"].
Definition PERMITTED_TARGET_ROLES : list string := ["slave"; "swarm"].

(** [Decision(ok, block_reason)]; the dataclass admits every combination. *)
Record Decision' := mkDecision { ok : bool; block_reason_of : option BlockReason }.

Definition allow : Decision' := mkDecision true None.
Definition block (r : BlockReason) : Decision' := mkDecision false (Some r).

Definition evaluate_enqueue_permissions (sender target : AgentRecord)
    (routing_enabled target_container_active target_pane_resolvable : bool)
  : Decision' :=
  if negb routing_enabled then block kill_switch_off
  else if bool_decide (role sender ∉ PERMITTED_SENDER_ROLES) || negb (active sender)
  then block sender_role_not_permitted
  else if negb (active target) then block target_not_active
  else if bool_decide (role target ∉ PERMITTED_TARGET_ROLES)
  then block target_role_not_permitted
  else if negb target_container_active then block target_container_inactive
  else if negb target_pane_resolvable then block target_pane_missing
  else allow.

Definition recheck_target_only (target : AgentRecord)
    (routing_enabled target_container_active target_pane_resolvable : bool)
  : Decision' :=
  if negb routing_enabled then block kill_switch_off
  else if negb (active target) then block target_not_active
  else if negb target_container_active then block target_container_inactive
  else if negb target_pane_resolvable then block target_pane_missing
  else allow.

(** ** The precedence, stated independently of the code

A gate is a list of named checks; the reference decision is the first check
that fails. *)

Definition first_failing (gate : list (bool * BlockReason)) : Decision' :=
  match list_find (λ c, c.1 = false) gate with
  | Some (_, (_, r)) => block r
  | None => allow
  end.

Definition enqueue_gate (sender target : AgentRecord) (re ca pr : bool)
  : list (bool * BlockReason) :=
  [(re, kill_switch_off);
   (bool_decide (role sender = "master") && active sender, sender_role_not_permitted);
   (active target, target_not_active);
   (bool_decide (role target = "slave") || bool_decide (role target = "swarm"),
    target_role_not_permitted);
   (ca, target_container_inactive);
   (pr, target_pane_missing)].

(** The re-check evaluates steps 1, 3, 5 and 6 of the enqueue gate. *)
Definition recheck_gate (target : AgentRecord) (re ca pr : bool)
  : list (bool * BlockReason) :=
  [(re, kill_switch_off); (active target, target_not_active);
   (ca, target_container_inactive); (pr, target_pane_missing)].

Lemma first_failing_cons_true r gate : first_failing ((true, r) :: gate) = first_failing gate.
Proof.
  unfold first_failing. simpl. by destruct (list_find _ gate) as [[i [b x]]|].
Qed.

Lemma first_failing_cons_false r gate : first_failing ((false, r) :: gate) = block r.
Proof. done. Qed.

Create Rewrite HintDb gate.
#[local] Hint Rewrite first_failing_cons_true first_failing_cons_false : gate.

Lemma sender_role_check s :
  bool_decide (s ∉ PERMITTED_SENDER_ROLES) = negb (bool_decide (s = "master")).
Proof.
  unfold PERMITTED_SENDER_ROLES. rewrite <- bool_decide_not.
  apply bool_decide_ext. set_solver.
Qed.

Lemma target_role_check s :
  bool_decide (s ∉ PERMITTED_TARGET_ROLES) =
  negb (bool_decide (s = "slave") || bool_decide (s = "swarm")).
Proof.
  unfold PERMITTED_TARGET_ROLES. rewrite <- bool_decide_or, <- bool_decide_not.
  apply bool_decide_ext. set_solver.
Qed.

(** The enqueue decision is the first failing step of the six-step FR-019
    gate, and permission exactly when no step fails. *)
Theorem enqueue_precedence sender target re ca pr :
  evaluate_enqueue_permissions sender target re ca pr =
  first_failing (enqueue_gate sender target re ca pr).
Proof.
  unfold evaluate_enqueue_permissions, enqueue_gate.
  rewrite sender_role_check, target_role_check, <- negb_andb.
  destruct re; autorewrite with gate; [|done]. simpl negb at 1.
  destruct (_ && active sender); autorewrite with gate; [|done]. simpl negb at 1.
  destruct (active target); autorewrite with gate; [|done]. simpl negb at 1.
  destruct (_ || _); autorewrite with gate; [|done]. simpl negb at 1.
  destruct ca; autorewrite with gate; [|done].
  by destruct pr; autorewrite with gate.
Qed.

(** The delivery-time re-check is the first failing step among steps 1, 3, 5
    and 6; whenever it blocks, the full gate blocks on the same snapshot for any
    sender, and whatever the full gate permits the re-check permits. *)
Theorem recheck_precedence target re ca pr :
  recheck_target_only target re ca pr = first_failing (recheck_gate target re ca pr) ∧
  ∀ sender,
    ok (evaluate_enqueue_permissions sender target re ca pr) = true →
    recheck_target_only target re ca pr = allow.
Proof.
  split.
  - unfold recheck_target_only, recheck_gate.
    destruct re, (active target), ca, pr; by autorewrite with gate.
  - intros sender. unfold evaluate_enqueue_permissions, recheck_target_only.
    destruct re, (active target), ca, pr; simpl; intros; cases_goal.
Qed.

(** A [Decision] built by the two classmethods carries a reason exactly when it
    blocks. *)
Lemma decision_reason_iff sender target re ca pr :
  let d := evaluate_enqueue_permissions sender target re ca pr in
  ok d = true ↔ block_reason_of d = None.
Proof.
  cbv zeta. unfold evaluate_enqueue_permissions. cases_goal.
Qed.

Lemma recheck_reason target re ca pr :
  let d := recheck_target_only target re ca pr in
  ok d = true ∧ block_reason_of d = None ∨
  ok d = false ∧ ∃ r, block_reason_of d = Some r.
Proof. cbv zeta. unfold recheck_target_only. cases_goal; naive_solver. Qed.

Lemma enqueue_reason sender target re ca pr :
  let d := evaluate_enqueue_permissions sender target re ca pr in
  ok d = true ∧ block_reason_of d = None ∨
  ok d = false ∧ ∃ r, block_reason_of d = Some r.
Proof. cbv zeta. unfold evaluate_enqueue_permissions. cases_goal; naive_solver. Qed.
