(* ===== verification/Store.v ===== *)
(** The SQLite store behind the routing subsystem: the [message_queue],
    [daemon_state], [events] and [routes] tables with the constraints declared
    in src/src/agenttower/state/schema.py, one connection with explicit
    transactions ([isolation_level=None]), and the effect monad every later
    component is written in.

    Every SQL statement consumes one element of [sql_faults], the outcomes the
    engine gives in turn: [Some f] makes the statement fail with [f] without
    effect, [None] (or an exhausted list) lets it run; [F_kill] is the process
    going down at that statement.  A [ROLLBACK] succeeds exactly when a
    transaction is open.  What other threads commit while this
    one waits for the shared [tx_lock] is the list [others]. *)

From S2P Require Import Prelude Errors Permissions.

(** ** The monad *)

Definition M (S A : Type) : Type := S → outcome A * S.

#[export] Instance M_ret S : MRet (M S) := λ A a s, (Ok a, s).
#[export] Instance M_bind S : MBind (M S) := λ A B k m s,
  match m s with
  | (Ok a, s') => k a s'
  | (Raise e, s') => (Raise e, s')
  end.

Definition lift {S A} (f : S → outcome A * S) : M S A := f.
Definition throw {S A} (e : exn) : M S A := λ s, (Raise e, s).
Definition get {S} : M S S := λ s, (Ok s, s).
Definition put {S} (s' : S) : M S unit := λ _, (Ok tt, s').
Definition modify {S} (f : S → S) : M S unit := λ s, (Ok tt, f s).

(** [try: m except e: h e]; the handler re-raises what it does not catch. *)
Definition catch {S A} (m : M S A) (h : exn → M S A) : M S A := λ s,
  match m s with
  | (Ok a, s') => (Ok a, s')
  | (Raise e, s') => h e s'
  end.

(** [try: m except Exception as e: h e] *)
Definition except {S A} (m : M S A) (h : exn → M S A) : M S A :=
  catch m (λ e, if is_exception e then h e else throw e).

(** [for x in xs: f x] collecting the results. *)
Fixpoint mapM {S A B} (f : A → M S B) (xs : list A) : M S (list B) :=
  match xs with
  | [] => mret []
  | x :: rest => y ← f x; ys ← mapM f rest; mret (y :: ys)
  end.

(** Run an action on a component of a larger state. *)
Definition zoom {W S A} (get_ : W → S) (put_ : S → W → W) (m : M S A) : M W A :=
  λ w, match m (get_ w) with (o, s') => (o, put_ s' w) end.

(** ** Rows *)

Inductive QState := queued | blocked | delivered | canceled | failed.
#[export] Instance QState_eq_dec : EqDecision QState.
Proof. solve_decision. Defined.

(** [_TERMINAL_STATES] *)
Definition terminal (s : QState) : bool :=
  match s with delivered | failed | canceled => true | _ => false end.

Inductive OperatorAction := act_approved | act_delayed | act_canceled.
#[export] Instance OperatorAction_eq_dec : EqDecision OperatorAction.
Proof. solve_decision. Defined.

Inductive Origin := direct | route.
#[export] Instance Origin_eq_dec : EqDecision Origin.
Proof. solve_decision. Defined.

(** One [message_queue] row: the columns of [QueueRow] and the
    [envelope_body] BLOB.  Columns whose CHECK closes a set that the code only
    writes with literals are inductive types; [failure_reason] is written with
    whatever the tmux adapter reports and stays a string. *)
Record QueueRow := mkRow {
  message_id : string;
  state : QState;
  block_reason : option BlockReason;
  failure_reason : option string;
  sender_agent_id : string;
  sender_label : string;
  sender_role : string;
  sender_capability : option string;
  target_agent_id : string;
  target_label : string;
  target_role : string;
  target_capability : option string;
  target_container_id : string;
  target_pane_id : string;
  envelope_body : string;
  envelope_body_sha256 : string;
  envelope_size_bytes : Z;
  enqueued_at : string;
  delivery_attempt_started_at : option string;
  delivered_at : option string;
  failed_at : option string;
  canceled_at : option string;
  last_updated_at : string;
  operator_action : option OperatorAction;
  operator_action_at : option string;
  operator_action_by : option string;
  origin : Origin;
  row_route_id : option string;
  row_event_id : option Z
}.
#[export] Instance QueueRow_eq_dec : EqDecision QueueRow.
Proof. solve_decision. Defined.

(** The columns an UPDATE may write; the others are frozen at enqueue time. *)
Definition set_lifecycle (r : QueueRow) (st : QState) (br : option BlockReason)
    (fr started dat fat cat : option string) (upd : string)
    (oa : option OperatorAction) (oat oby : option string) : QueueRow :=
  mkRow (message_id r) st br fr (sender_agent_id r) (sender_label r)
    (sender_role r) (sender_capability r) (target_agent_id r) (target_label r)
    (target_role r) (target_capability r) (target_container_id r)
    (target_pane_id r) (envelope_body r) (envelope_body_sha256 r)
    (envelope_size_bytes r) (enqueued_at r) started dat fat cat upd oa oat oby
    (origin r) (row_route_id r) (row_event_id r).

Definition is_set {A} (o : option A) : bool :=
  match o with Some _ => true | None => false end.

(** The CHECK constraints of [message_queue] (migrations v7 and v8). *)
Definition check_row (r : QueueRow) : bool :=
  match failure_reason r with
  | None => true
  | Some f => bool_decide (f ∈ FAILURE_REASONS)
  end &&
  (0 <? envelope_size_bytes r)%Z &&
  (negb (is_set (block_reason r)) || bool_decide (state r = blocked)) &&
  (negb (is_set (failure_reason r)) || bool_decide (state r = failed)) &&
  ((negb (is_set (operator_action r)) && negb (is_set (operator_action_at r)) &&
    negb (is_set (operator_action_by r))) ||
   (is_set (operator_action r) && is_set (operator_action_at r) &&
    is_set (operator_action_by r))) &&
  (negb (bool_decide (state r = delivered)) || is_set (delivered_at r)) &&
  (negb (bool_decide (state r = failed)) || is_set (failed_at r)) &&
  (negb (bool_decide (state r = canceled)) || is_set (canceled_at r)).

Record RoutingFlag := mkFlag {
  value : string; flag_updated_at : string; flag_updated_by : string
}.

(** One [events] row, restricted to the columns the routing code reads. *)
Record EventRow := mkEvent {
  event_id : Z;
  event_type : string;
  ev_agent_id : string;
  ev_observed_at : string;
  ev_excerpt : string;
  jsonl_appended_at : option string
}.

(** One [routes] row. *)
Record RouteRow := mkRoute {
  route_id : string;
  route_event_type : string;
  source_scope_kind : string;
  source_scope_value : option string;
  target_rule : string;
  target_value : option string;
  master_rule : string;
  master_value : option string;
  template : string;
  enabled : bool;
  last_consumed_event_id : Z;
  route_created_at : string;
  route_updated_at : string;
  created_by_agent_id : option string
}.

Record db := mkDb {
  queue : gmap string QueueRow;
  flag : option RoutingFlag;
  events : list EventRow;
  events_seq : Z;        (* sqlite_sequence: the largest event id ever used *)
  routes : gmap string RouteRow
}.

(** ** One connection *)

(** What the engine may answer to a statement instead of running it. *)
Inductive sql_fault :=
| F_operational (msg : string)    (* sqlite3.OperationalError *)
| F_database (class_name : string) (* another sqlite3.Error *)
| F_kill.                         (* the process dies here *)

Definition fault_exn (f : sql_fault) : exn :=
  match f with
  | F_operational msg => OperationalError msg
  | F_database n => PyError n
  | F_kill => SystemExit
  end.

Record conn := mkConn {
  committed : db;
  txn : option db;
  sql_faults : list (option sql_fault);
  others : list (db → db);
  sleeps : list nat;           (* milliseconds slept by the retry helper *)
  captured : list (Z * QueueRow)  (* what a callback put in its closure's list:
                                     Python memory, not undone by ROLLBACK *)
}.

(** What a statement sees: the open transaction, else the committed state. *)
Definition view (c : conn) : db := default (committed c) (txn c).

Definition set_txn (t : option db) (c : conn) : conn :=
  mkConn (committed c) t (sql_faults c) (others c) (sleeps c) (captured c).
Definition set_faults (f : list (option sql_fault)) (c : conn) : conn :=
  mkConn (committed c) (txn c) f (others c) (sleeps c) (captured c).

(** A write outside a transaction commits by itself. *)
Definition set_view (d : db) (c : conn) : conn :=
  match txn c with
  | Some _ => set_txn (Some d) c
  | None => mkConn d None (sql_faults c) (others c) (sleeps c) (captured c)
  end.

(** Consume the outcome of one statement. *)
Definition statement : M conn unit := λ c,
  match sql_faults c with
  | [] => (Ok tt, c)
  | None :: rest => (Ok tt, set_faults rest c)
  | Some f :: rest => (Raise (fault_exn f), set_faults rest c)
  end.

Definition sql_read {A} (f : db → A) : M conn A :=
  _ ← statement; lift (λ c, (Ok (f (view c)), c)).

(** [f] raises on a constraint violation; the statement then has no effect. *)
Definition sql_write {A} (f : db → outcome (A * db)) : M conn A :=
  _ ← statement;
  lift (λ c, match f (view c) with
             | Ok (a, d) => (Ok a, set_view d c)
             | Raise e => (Raise e, c)
             end).

Definition begin_immediate : M conn unit :=
  _ ← statement;
  lift (λ c, match txn c with
             | Some _ =>
                 (Raise (OperationalError
                    "cannot start a transaction within a transaction"), c)
             | None => (Ok tt, set_txn (Some (committed c)) c)
             end).

Definition commit : M conn unit :=
  _ ← statement;
  lift (λ c, match txn c with
             | Some d => (Ok tt, mkConn d None (sql_faults c) (others c) (sleeps c) (captured c))
             | None =>
                 (Raise (OperationalError "cannot commit - no transaction is active"), c)
             end).

Definition rollback : M conn unit := λ c,
  match txn c with
  | Some _ => (Ok tt, set_txn None c)
  | None => (Raise (OperationalError "cannot rollback - no transaction is active"), c)
  end.

(** [with self._tx_lock:] — the other holders of the lock go first. *)
Definition acquire : M conn unit := λ c,
  match others c with
  | [] => (Ok tt, c)
  | f :: rest =>
      (Ok tt, mkConn (f (committed c)) (txn c) (sql_faults c) rest (sleeps c) (captured c))
  end.

Definition sleep_ms (n : nat) : M conn unit :=
  modify (λ c, mkConn (committed c) (txn c) (sql_faults c) (others c) (sleeps c ++ [n]) (captured c)).

(** [captured.append(x)] in a callback. *)
Definition capture (x : Z * QueueRow) : M conn unit :=
  modify (λ c, mkConn (committed c) (txn c) (sql_faults c) (others c) (sleeps c)
                 (captured c ++ [x])).

(** Leave the scope of the closure: take the list. *)
Definition take_captured : M conn (list (Z * QueueRow)) := λ c,
  (Ok (captured c),
   mkConn (committed c) (txn c) (sql_faults c) (others c) (sleeps c) []).

(** ** Statements on [message_queue] *)

Definition update_queue (p : QueueRow → bool) (f : QueueRow → QueueRow)
    (q : gmap string QueueRow) : gmap string QueueRow :=
  (λ r, if p r then f r else r) <$> q.

(** [UPDATE message_queue SET .. WHERE ..], returning [rowcount]. *)
Definition update_where (p : QueueRow → bool) (f : QueueRow → QueueRow)
    (d : db) : outcome (nat * db) :=
  let hit := filter (λ kr, p kr.2 = true) (map_to_list (queue d)) in
  if forallb (λ kr, check_row (f kr.2)) hit
  then Ok (length hit,
           mkDb (update_queue p f (queue d)) (flag d) (events d) (events_seq d) (routes d))
  else Raise IntegrityError.

(** The partial UNIQUE index [(route_id, event_id) WHERE origin = 'route'];
    NULLs are distinct. *)
Definition same_route_event (r1 r2 : QueueRow) : bool :=
  bool_decide (origin r1 = route) && bool_decide (origin r2 = route) &&
  match row_route_id r1, row_route_id r2, row_event_id r1, row_event_id r2 with
  | Some a, Some b, Some x, Some y => bool_decide (a = b) && bool_decide (x = y)
  | _, _, _, _ => false
  end.

Definition insert_row (r : QueueRow) (d : db) : outcome (unit * db) :=
  match queue d !! message_id r with
  | Some _ => Raise IntegrityError
  | None =>
      if check_row r && negb (existsb (λ kr, same_route_event r kr.2) (map_to_list (queue d)))
      then Ok (tt, mkDb (<[message_id r := r]> (queue d)) (flag d) (events d)
                     (events_seq d) (routes d))
      else Raise IntegrityError
  end.

(** Rows of the table in no particular order. *)
Definition rows_where (p : QueueRow → bool) (d : db) : list QueueRow :=
  filter (λ r, p r = true) ((map_to_list (queue d)).*2).

(** ** Weakest preconditions

[wp m Q s]: running [m] from [s] gives an outcome and a state that satisfy [Q]. *)

Definition wp {S A} (m : M S A) (Q : outcome A → S → Prop) (s : S) : Prop :=
  Q (m s).1 (m s).2.

Section WP.
Context {S : Type}.

Lemma wp_ret {A} (a : A) (Q : outcome A → S → Prop) s : Q (Ok a) s → wp (mret a) Q s.
Proof. done. Qed.

Lemma wp_throw {A} e (Q : outcome A → S → Prop) s : Q (Raise e) s → wp (throw e) Q s.
Proof. done. Qed.

Lemma wp_bind {A B} (m : M S A) (k : A → M S B) (Q : outcome B → S → Prop) s :
  wp m (λ o s', match o with Ok a => wp (k a) Q s' | Raise e => Q (Raise e) s' end) s →
  wp (m ≫= k) Q s.
Proof. unfold wp, mbind, M_bind. by destruct (m s) as [[a|e] s']. Qed.

Lemma wp_catch {A} (m : M S A) h (Q : outcome A → S → Prop) s :
  wp m (λ o s', match o with Ok a => Q (Ok a) s' | Raise e => wp (h e) Q s' end) s →
  wp (catch m h) Q s.
Proof. unfold wp, catch. by destruct (m s) as [[a|e] s']. Qed.

Lemma wp_except {A} (m : M S A) h (Q : outcome A → S → Prop) s :
  wp m (λ o s', match o with
                | Ok a => Q (Ok a) s'
                | Raise e => if is_exception e then wp (h e) Q s' else Q (Raise e) s'
                end) s →
  wp (except m h) Q s.
Proof.
  unfold wp, except, catch. destruct (m s) as [[a|e] s']; simpl; [done|].
  by destruct (is_exception e).
Qed.

Lemma wp_mono {A} (m : M S A) (Q Q' : outcome A → S → Prop) s :
  (∀ o s', Q o s' → Q' o s') → wp m Q s → wp m Q' s.
Proof. unfold wp. auto. Qed.

Lemma wp_modify f (Q : outcome unit → S → Prop) s : Q (Ok tt) (f s) → wp (modify f) Q s.
Proof. done. Qed.

Lemma wp_run {A} (m : M S A) Q s o s' : wp m Q s → m s = (o, s') → Q o s'.
Proof. unfold wp. intros H E. by rewrite E in H. Qed.
End WP.

Lemma conn_faults_eta c : c = set_faults (sql_faults c) c.
Proof. by destruct c. Qed.

Lemma wp_statement (Q : outcome unit → conn → Prop) c :
  (∀ fs, Q (Ok tt) (set_faults fs c)) →
  (∀ f fs, Q (Raise (fault_exn f)) (set_faults fs c)) →
  wp statement Q c.
Proof.
  intros Hok Hf. unfold wp, statement.
  destruct (sql_faults c) as [|[f|] rest] eqn:E; simpl; [|apply Hf|apply Hok].
  rewrite (conn_faults_eta c). apply Hok.
Qed.

Lemma wp_begin (Q : outcome unit → conn → Prop) c :
  txn c = None →
  (∀ fs, Q (Ok tt) (mkConn (committed c) (Some (committed c)) fs (others c) (sleeps c) (captured c))) →
  (∀ f fs, Q (Raise (fault_exn f)) (set_faults fs c)) →
  wp begin_immediate Q c.
Proof.
  intros Ht Hok Hf. apply wp_bind, wp_statement; [|done].
  intros fs. unfold wp, lift. simpl. rewrite Ht. apply Hok.
Qed.

Lemma wp_commit d (Q : outcome unit → conn → Prop) c :
  txn c = Some d →
  (∀ fs, Q (Ok tt) (mkConn d None fs (others c) (sleeps c) (captured c))) →
  (∀ f fs, Q (Raise (fault_exn f)) (set_faults fs c)) →
  wp commit Q c.
Proof.
  intros Ht Hok Hf. apply wp_bind, wp_statement; [|done].
  intros fs. unfold wp, lift. simpl. rewrite Ht. apply Hok.
Qed.

Lemma wp_rollback d (Q : outcome unit → conn → Prop) c :
  txn c = Some d → Q (Ok tt) (set_txn None c) → wp rollback Q c.
Proof. unfold wp, rollback. by intros ->. Qed.

Lemma wp_sql_read {A} (f : db → A) Q c :
  (∀ fs, Q (Ok (f (view c))) (set_faults fs c)) →
  (∀ e fs, Q (Raise (fault_exn e)) (set_faults fs c)) →
  wp (sql_read f) Q c.
Proof. intros Hok Hf. apply wp_bind, wp_statement; [|done]. intros fs. apply Hok. Qed.

(** A write inside an open transaction. *)
Lemma wp_sql_write {A} (f : db → outcome (A * db)) d Q c :
  txn c = Some d →
  (∀ a d' fs, f d = Ok (a, d') →
     Q (Ok a) (mkConn (committed c) (Some d') fs (others c) (sleeps c) (captured c))) →
  (∀ e fs, f d = Raise e → Q (Raise e) (set_faults fs c)) →
  (∀ e fs, Q (Raise (fault_exn e)) (set_faults fs c)) →
  wp (sql_write f) Q c.
Proof.
  intros Ht Hok Hr Hf. apply wp_bind, wp_statement; [|done].
  intros fs. unfold wp, lift. simpl. unfold view, set_view. simpl. rewrite Ht. simpl.
  destruct (f d) as [[a d']|e] eqn:E; simpl; [by apply Hok|by apply Hr].
Qed.
