(* ===== verification/QueueDao.v ===== *)
(** The queue and daemon-state DAOs (src/src/agenttower/routing/dao.py): every
    method as a program over one SQLite connection, including the bounded
    lock-conflict retry, the from-state predicates and the audit callback that
    runs inside the transaction. *)

From S2P Require Import Prelude Errors Permissions Store.

(** ** Lock-conflict retry *)

(** [_LOCK_RETRY_DELAYS_S], in milliseconds. *)
Definition LOCK_RETRY_DELAYS : list nat := [10; 50; 250].

(** [msg] is the lower-cased message. *)
Definition is_lock_message (msg : string) : bool :=
  Text.contains "database is locked" msg || Text.contains "database is busy" msg.

Fixpoint attempt_chain {A} (operation : M conn A) (delays : list nat) : M conn A :=
  catch operation (λ e,
    match e with
    | OperationalError msg =>
        if negb (is_lock_message (Text.lower msg)) then throw e
        else match delays with
             | [] => throw sqlite_lock_conflict
             | d :: rest => _ ← sleep_ms d; attempt_chain operation rest
             end
    | _ => throw e
    end).

(** [with_lock_retry(operation, lock=self._tx_lock)] *)
Definition with_lock_retry {A} (operation : M conn A) : M conn A :=
  _ ← acquire; attempt_chain operation LOCK_RETRY_DELAYS.

(** ** Transaction bodies *)

(** [except Exception: ROLLBACK; raise] *)
Definition rollback_on_error {A} (body : M conn A) : M conn A :=
  except body (λ e, _ ← rollback; throw e).

(** [except QueueServiceError: raise / except Exception: ROLLBACK; raise] *)
Definition rollback_unless_closed {A} (body : M conn A) : M conn A :=
  except body (λ e, if is_queue_service_error e then throw e
                    else _ ← rollback; throw e).

(** [ROLLBACK; raise QueueServiceError(code)] *)
Definition refuse {A} (code : string) : M conn A :=
  _ ← rollback; throw (QueueServiceError QSE code).

(** [audit_callback(self._conn) if audit_callback else None] *)
Definition run_callback {A} (cb : option (M conn A)) : M conn (option A) :=
  match cb with
  | None => mret None
  | Some m => a ← m; mret (Some a)
  end.

(** ** Identity dictionaries *)

Record Party := mkParty {
  p_agent_id : string; p_label : string; p_role : string;
  p_capability : option string;
  p_location : option (string * string)   (* container_id, pane_id *)
}.

Section Insert.
Context {A : Type}.

(** The row both insert paths write; [st] and [br] tell them apart. *)
Definition new_row (mid : string) (st : QState) (br : option BlockReason)
    (sender target : Party) (loc : string * string) (body sha : string)
    (size : Z) (ts : string) (org : Origin) (rid : option string)
    (eid : option Z) : QueueRow :=
  mkRow mid st br None (p_agent_id sender) (p_label sender) (p_role sender)
    (p_capability sender) (p_agent_id target) (p_label target) (p_role target)
    (p_capability target) loc.1 loc.2 body sha size ts None None None None ts
    None None None org rid eid.

Definition insert_with (st : QState) (br : option BlockReason) (mid : string)
    (sender target : Party) (body sha : string) (size : Z) (ts : string)
    (org : Origin) (rid : option string) (eid : option Z)
    (cb : option (M conn A)) : M conn (option A) :=
  _ ← begin_immediate;
  rollback_on_error (
    match p_location target with
    | None => throw (PyError "KeyError")
    | Some loc =>
        _ ← sql_write (insert_row
              (new_row mid st br sender target loc body sha size ts org rid eid));
        result ← run_callback cb;
        _ ← commit;
        mret result
    end).

Definition insert_queued (mid : string) (sender target : Party)
    (body sha : string) (size : Z) (ts : string) (org : Origin)
    (rid : option string) (eid : option Z) (cb : option (M conn A))
  : M conn (option A) :=
  with_lock_retry
    (insert_with queued None mid sender target body sha size ts org rid eid cb).

Definition insert_blocked (mid : string) (sender target : Party)
    (body sha : string) (size : Z) (ts : string) (br : BlockReason)
    (org : Origin) (rid : option string) (eid : option Z)
    (cb : option (M conn A)) : M conn (option A) :=
  with_lock_retry
    (insert_with blocked (Some br) mid sender target body sha size ts org rid eid cb).

End Insert.

(** ** Worker-side reads and transitions *)

(** [ORDER BY enqueued_at ASC, message_id ASC] *)
Definition queue_le (r1 r2 : QueueRow) : Prop :=
  if decide (enqueued_at r1 = enqueued_at r2)
  then String.le (message_id r1) (message_id r2)
  else String.le (enqueued_at r1) (enqueued_at r2).

#[export] Instance queue_le_dec r1 r2 : Decision (queue_le r1 r2).
Proof. unfold queue_le. destruct (decide _); apply _. Defined.

Definition unset {A} (o : option A) : bool := negb (is_set o).

Definition ready (r : QueueRow) : bool :=
  bool_decide (state r = queued) && unset (delivery_attempt_started_at r).

Definition pick_next_ready_row : M conn (option QueueRow) :=
  _ ← acquire;
  sql_read (λ d, head (merge_sort queue_le (rows_where ready d))).

(** [delivery_attempt_started_at IS NOT NULL] and no terminal stamp. *)
Definition in_flight (r : QueueRow) : bool :=
  is_set (delivery_attempt_started_at r) && unset (delivered_at r) &&
  unset (failed_at r) && unset (canceled_at r).

Definition id_is (mid : string) (r : QueueRow) : bool := bool_decide (message_id r = mid).

Definition stamp_row (ts : string) (r : QueueRow) : QueueRow :=
  set_lifecycle r (state r) (block_reason r) (failure_reason r) (Some ts)
    (delivered_at r) (failed_at r) (canceled_at r) ts (operator_action r)
    (operator_action_at r) (operator_action_by r).

Definition stamp_delivery_attempt_started (mid ts : string) : M conn unit :=
  with_lock_retry (
    _ ← begin_immediate;
    rollback_unless_closed (
      n ← sql_write (update_where (λ r, id_is mid r && ready r) (stamp_row ts));
      if n =? 0 then refuse "delivery_in_progress" else commit)).

(** The SET clause of [_terminal_transition_from_in_flight] for the two stamp
    columns it is called with. *)
Definition deliver_row (ts : string) (r : QueueRow) : QueueRow :=
  set_lifecycle r delivered (block_reason r) (failure_reason r)
    (delivery_attempt_started_at r) (Some ts) (failed_at r) (canceled_at r) ts
    (operator_action r) (operator_action_at r) (operator_action_by r).

Definition fail_row (reason ts : string) (r : QueueRow) : QueueRow :=
  set_lifecycle r failed (block_reason r) (Some reason)
    (delivery_attempt_started_at r) (delivered_at r) (Some ts) (canceled_at r) ts
    (operator_action r) (operator_action_at r) (operator_action_by r).

Section Transitions.
Context {A : Type}.
Implicit Type cb : option (M conn A).

Definition terminal_transition_from_in_flight (mid : string)
    (set_clause : QueueRow → QueueRow) (cb : option (M conn A))
  : M conn (option A) :=
  with_lock_retry (
    _ ← begin_immediate;
    rollback_unless_closed (
      n ← sql_write (update_where
            (λ r, id_is mid r && (bool_decide (state r = queued) && in_flight r))
            set_clause);
      if n =? 0 then refuse "message_id_not_found"
      else result ← run_callback cb; _ ← commit; mret result)).

Definition transition_queued_to_delivered (mid ts : string) cb : M conn (option A) :=
  terminal_transition_from_in_flight mid (deliver_row ts) cb.

Definition transition_queued_to_failed (mid reason ts : string) cb
  : M conn (option A) :=
  terminal_transition_from_in_flight mid (fail_row reason ts) cb.

Definition block_row (br : BlockReason) (ts : string) (r : QueueRow) : QueueRow :=
  set_lifecycle r blocked (Some br) (failure_reason r)
    (delivery_attempt_started_at r) (delivered_at r) (failed_at r)
    (canceled_at r) ts (operator_action r) (operator_action_at r)
    (operator_action_by r).

Definition transition_queued_to_blocked_re_check (mid : string)
    (br : BlockReason) (ts : string) cb : M conn (option A) :=
  with_lock_retry (
    _ ← begin_immediate;
    rollback_unless_closed (
      n ← sql_write (update_where (λ r, id_is mid r && ready r) (block_row br ts));
      if n =? 0 then refuse "message_id_not_found"
      else result ← run_callback cb; _ ← commit; mret result)).

(** *** Operator transitions *)

Definition not_applicable_code (act : OperatorAction) : string :=
  match act with
  | act_approved => "approval_not_applicable"
  | act_delayed => "delay_not_applicable"
  | act_canceled => "terminal_state_cannot_change"
  end.

(** SET clause of [_operator_transition]: [block_reason] is cleared on
    [blocked → queued], overwritten when a new one is given, else kept. *)
Definition operator_row (from to : QState) (act : OperatorAction)
    (br_new : option BlockReason) (operator ts : string) (r : QueueRow) : QueueRow :=
  let br0 := if bool_decide (from = blocked) && bool_decide (to = queued)
             then None else block_reason r in
  let br := match br_new with Some b => Some b | None => br0 end in
  set_lifecycle r to br (failure_reason r) (delivery_attempt_started_at r)
    (delivered_at r) (failed_at r) (canceled_at r) ts (Some act) (Some ts)
    (Some operator).

Definition operator_transition (mid operator ts : string) (from to : QState)
    (act : OperatorAction) (br_new : option BlockReason) cb : M conn (option A) :=
  with_lock_retry (
    _ ← begin_immediate;
    rollback_unless_closed (
      row ← sql_read (λ d, queue d !! mid);
      match row with
      | None => refuse "message_id_not_found"
      | Some r =>
          if terminal (state r) then refuse "terminal_state_cannot_change"
          else if in_flight r then refuse "delivery_in_progress"
          else if negb (bool_decide (state r = from))
          then refuse (not_applicable_code act)
          else
            n ← sql_write (update_where
                  (λ r, id_is mid r && bool_decide (state r = from))
                  (operator_row from to act br_new operator ts));
            if n =? 0 then refuse (not_applicable_code act)
            else result ← run_callback cb; _ ← commit; mret result
      end)).

Definition transition_blocked_to_queued_approve (mid operator ts : string) cb
  : M conn (option A) :=
  operator_transition mid operator ts blocked queued act_approved None cb.

Definition transition_queued_to_blocked_delay (mid operator ts : string) cb
  : M conn (option A) :=
  operator_transition mid operator ts queued blocked act_delayed
    (Some operator_delayed) cb.

Definition cancel_row (operator ts : string) (r : QueueRow) : QueueRow :=
  set_lifecycle r canceled None (failure_reason r)
    (delivery_attempt_started_at r) (delivered_at r) (failed_at r) (Some ts) ts
    (Some act_canceled) (Some ts) (Some operator).

Definition transition_to_canceled (mid operator ts : string) cb
  : M conn (option A) :=
  with_lock_retry (
    _ ← begin_immediate;
    rollback_unless_closed (
      row ← sql_read (λ d, queue d !! mid);
      match row with
      | None => refuse "message_id_not_found"
      | Some r =>
          if terminal (state r) then refuse "terminal_state_cannot_change"
          else if in_flight r then refuse "delivery_in_progress"
          else
            n ← sql_write (update_where
                  (λ r, id_is mid r && (bool_decide (state r = queued) ||
                                        bool_decide (state r = blocked)))
                  (cancel_row operator ts));
            if n =? 0 then refuse "message_id_not_found"
            else result ← run_callback cb; _ ← commit; mret result
      end)).

End Transitions.

(** ** Crash recovery *)

Definition snapshot_in_flight_identities : M conn (list QueueRow) :=
  _ ← acquire; sql_read (rows_where in_flight).

Definition recover_in_flight_rows (ts : string)
    (cb : option (nat → M conn unit)) : M conn nat :=
  with_lock_retry (
    _ ← begin_immediate;
    rollback_on_error (
      count ← sql_write (update_where in_flight (fail_row "attempt_interrupted" ts));
      _ ← match cb with None => mret tt | Some k => k count end;
      _ ← commit;
      mret count)).

(** ** Reads *)

Definition read_envelope_bytes (mid : string) : M conn string :=
  _ ← acquire;
  row ← sql_read (λ d, queue d !! mid);
  match row with
  | None => throw (QueueServiceError QSE "message_id_not_found")
  | Some r => mret (envelope_body r)
  end.

Definition get_row_by_id (mid : string) : M conn (option QueueRow) :=
  _ ← acquire; sql_read (λ d, queue d !! mid).

Record QueueListFilter := mkFilter {
  f_state : option QState;
  f_target_agent_id : option string;
  f_sender_agent_id : option string;
  f_since : option string;
  f_limit : option Z;
  f_origin : option string
}.

Definition opt_match {A B} `{!EqDecision B} (o : option B) (get : A → B) (a : A) : bool :=
  match o with None => true | Some b => bool_decide (get a = b) end.

Definition origin_text (o : Origin) : string :=
  match o with direct => "direct" | route => "route" end.

Definition list_clauses (f : QueueListFilter) (r : QueueRow) : bool :=
  opt_match (f_state f) state r &&
  opt_match (f_target_agent_id f) target_agent_id r &&
  opt_match (f_sender_agent_id f) sender_agent_id r &&
  match f_since f with
  | None => true
  | Some s => bool_decide (String.le s (enqueued_at r))
  end &&
  opt_match (f_origin f) (λ r, origin_text (origin r)) r.

(** [max(1, min(limit, 1000))], 100 when no limit is given. *)
Definition clamp_limit (l : option Z) : nat :=
  Z.to_nat (Z.max 1 (Z.min (default 100%Z l) 1000)).

Definition list_rows (f : QueueListFilter) : M conn (list QueueRow) :=
  if match f_origin f with
     | None => true
     | Some o => bool_decide (o ∈ ["direct"; "route"])
     end
  then _ ← acquire;
       sql_read (λ d, take (clamp_limit (f_limit f))
                        (merge_sort queue_le (rows_where (list_clauses f) d)))
  else throw (PyError "ValueError").

(** ** [DaemonStateDao] *)

Definition read_routing_flag : M conn RoutingFlag :=
  _ ← acquire;
  row ← sql_read flag;
  match row with
  | None => throw (PyError "RuntimeError")
  | Some fl => mret fl
  end.

Definition update_flag (v ts by_ : string) (d : db) : outcome (nat * db) :=
  match flag d with
  | None => Ok (0, d)
  | Some _ =>
      if bool_decide (v ∈ ["enabled"; "disabled"])
      then Ok (1, mkDb (queue d) (Some (mkFlag v ts by_)) (events d) (events_seq d) (routes d))
      else Raise IntegrityError
  end.

Definition write_routing_flag {A} (v ts updated_by : string)
    (cb : option (M conn A)) : M conn (option A) :=
  if bool_decide (v ∈ ["enabled"; "disabled"])
  then with_lock_retry (
         _ ← begin_immediate;
         rollback_on_error (
           _ ← sql_write (update_flag v ts updated_by);
           result ← run_callback cb;
           _ ← commit;
           mret result))
  else throw (PyError "ValueError").
