(* ===== verification/Utf8.v ===== *)
(** UTF-8 as Python's strict codec reads and writes it: [bytes.decode("utf-8")]
    and [str.encode("utf-8")].  Bytes are Rocq [string]s, a [str] is the list of
    its code points. *)

From S2P Require Import Prelude.
From Stdlib Require Import Ascii.

Local Open Scope N_scope.

Definition text := list N.

Definition byte (n : N) : ascii := ascii_of_N n.
Definition code (c : ascii) : N := N_of_ascii c.

(** Unicode scalar values: what a decoded [str] may contain. *)
Definition scalar (cp : N) : bool := (cp <? 0xD800) || ((0xE000 <=? cp) && (cp <? 0x110000)).

Definition within (lo hi b : N) : bool := (lo <=? b) && (b <=? hi).

Definition cont (b : N) : bool := within 0x80 0xBF b.

(** The second byte of a three- or four-byte sequence has a range of its own
    (no overlong forms, no surrogates, nothing above U+10FFFF). *)
Definition second_ok (b1 b2 : N) : bool :=
  if b1 =? 0xE0 then within 0xA0 0xBF b2
  else if b1 =? 0xED then within 0x80 0x9F b2
  else if b1 =? 0xF0 then within 0x90 0xBF b2
  else if b1 =? 0xF4 then within 0x80 0x8F b2
  else cont b2.

Fixpoint decode (s : string) : option text :=
  match s with
  | EmptyString => Some []
  | String c1 s1 =>
      let b1 := code c1 in
      if b1 <? 0x80 then cons b1 <$> decode s1
      else if within 0xC2 0xDF b1 then
        match s1 with
        | String c2 s2 =>
            let b2 := code c2 in
            if cont b2 then cons ((b1 - 0xC0) * 64 + (b2 - 0x80)) <$> decode s2
            else None
        | _ => None
        end
      else if within 0xE0 0xEF b1 then
        match s1 with
        | String c2 (String c3 s3) =>
            let b2 := code c2 in let b3 := code c3 in
            if second_ok b1 b2 && cont b3
            then cons (((b1 - 0xE0) * 64 + (b2 - 0x80)) * 64 + (b3 - 0x80)) <$> decode s3
            else None
        | _ => None
        end
      else if within 0xF0 0xF4 b1 then
        match s1 with
        | String c2 (String c3 (String c4 s4)) =>
            let b2 := code c2 in let b3 := code c3 in let b4 := code c4 in
            if second_ok b1 b2 && cont b3 && cont b4
            then cons ((((b1 - 0xF0) * 64 + (b2 - 0x80)) * 64 + (b3 - 0x80)) * 64 + (b4 - 0x80))
                 <$> decode s4
            else None
        | _ => None
        end
      else None
  end.

Definition encode_cp (cp : N) (rest : string) : string :=
  if cp <? 0x80 then String (byte cp) rest
  else if cp <? 0x800 then
    String (byte (0xC0 + cp / 64)) (String (byte (0x80 + cp mod 64)) rest)
  else if cp <? 0x10000 then
    String (byte (0xE0 + cp / 64 / 64))
      (String (byte (0x80 + cp / 64 mod 64)) (String (byte (0x80 + cp mod 64)) rest))
  else
    String (byte (0xF0 + cp / 64 / 64 / 64))
      (String (byte (0x80 + cp / 64 / 64 mod 64))
        (String (byte (0x80 + cp / 64 mod 64)) (String (byte (0x80 + cp mod 64)) rest))).

(** [str.encode("utf-8")] on scalar values. *)
Definition encode (t : text) : string := foldr encode_cp EmptyString t.

(** ** Lemmas *)

Lemma code_byte n : n < 256 → code (byte n) = n.
Proof. apply N_ascii_embedding. Qed.

Lemma byte_code c : byte (code c) = c.
Proof. apply ascii_N_embedding. Qed.

Lemma code_bound c : code c < 256.
Proof. apply N_ascii_bounded. Qed.

Lemma divmod64 n : n = 64 * (n / 64) + n mod 64 ∧ n mod 64 < 64.
Proof. split; [apply N.div_mod'|by apply N.mod_lt]. Qed.

Lemma within_iff lo hi b : within lo hi b = true ↔ lo <= b <= hi.
Proof. unfold within. rewrite andb_true_iff, !N.leb_le. done. Qed.

Lemma within_not lo hi b : within lo hi b = false ↔ ¬ (lo <= b <= hi).
Proof. rewrite <- within_iff. by destruct (within lo hi b). Qed.

Lemma second_ok_iff b1 b2 : second_ok b1 b2 = true ↔
  0x80 <= b2 <= 0xBF ∧ (b1 = 0xE0 → 0xA0 <= b2) ∧ (b1 = 0xED → b2 <= 0x9F) ∧
  (b1 = 0xF0 → 0x90 <= b2) ∧ (b1 = 0xF4 → b2 <= 0x8F).
Proof.
  unfold second_ok, cont.
  destruct (N.eqb_spec b1 0xE0), (N.eqb_spec b1 0xED), (N.eqb_spec b1 0xF0),
    (N.eqb_spec b1 0xF4); rewrite within_iff; lia.
Qed.

Lemma scalar_iff cp : scalar cp = true ↔ cp < 0xD800 ∨ 0xE000 <= cp < 0x110000.
Proof.
  unfold scalar. rewrite orb_true_iff, andb_true_iff, !N.ltb_lt, N.leb_le. done.
Qed.

(** Decoding one encoded code point. *)
Lemma decode_encode_cp cp s : scalar cp = true → decode (encode_cp cp s) = cons cp <$> decode s.
Proof.
  rewrite scalar_iff. intros Hs. unfold encode_cp.
  destruct (divmod64 cp) as [E1 B1]. destruct (divmod64 (cp / 64)) as [E2 B2].
  destruct (divmod64 (cp / 64 / 64)) as [E3 B3].
  set (q1 := cp / 64) in *. set (q2 := q1 / 64) in *. set (q3 := q2 / 64) in *.
  set (m1 := cp mod 64) in *. set (m2 := q1 mod 64) in *. set (m3 := q2 mod 64) in *.
  clearbody q1 q2 q3 m1 m2 m3.
  destruct (N.ltb_spec cp 0x80); [|destruct (N.ltb_spec cp 0x800);
    [|destruct (N.ltb_spec cp 0x10000)]].
  - cbn [decode]. rewrite code_byte by lia. by rewrite (proj2 (N.ltb_lt _ _)) by lia.
  - cbn [decode]. rewrite !code_byte by lia.
    rewrite (proj2 (N.ltb_ge _ _)), (proj2 (within_iff _ _ _)) by lia.
    unfold cont. rewrite (proj2 (within_iff _ _ _)) by lia. do 2 f_equal. lia.
  - cbn [decode]. rewrite !code_byte by lia.
    rewrite (proj2 (N.ltb_ge _ _)), (proj2 (within_not 0xC2 _ _)) by lia.
    rewrite (proj2 (within_iff 0xE0 _ _)) by lia.
    rewrite (proj2 (second_ok_iff _ _)) by lia.
    unfold cont. rewrite (proj2 (within_iff _ _ _)) by lia. simpl. do 2 f_equal. lia.
  - cbn [decode]. rewrite !code_byte by lia.
    rewrite (proj2 (N.ltb_ge _ _)), (proj2 (within_not 0xC2 _ _)) by lia.
    rewrite (proj2 (within_not 0xE0 _ _)), (proj2 (within_iff 0xF0 _ _)) by lia.
    rewrite (proj2 (second_ok_iff _ _)) by lia.
    unfold cont. rewrite !(proj2 (within_iff 0x80 0xBF _)) by lia. simpl. do 2 f_equal. lia.
Qed.

Lemma decode_encode t : forallb scalar t = true → decode (encode t) = Some t.
Proof.
  induction t as [|cp t IH]; [done|]. simpl. intros [Hc Ht]%andb_true_iff.
  change (encode (cp :: t)) with (encode_cp cp (encode t)).
  by rewrite decode_encode_cp, IH.
Qed.

Lemma byte_is n c : n = code c → byte n = c.
Proof. intros ->. apply byte_code. Qed.

(** Re-encoding what one sequence decoded to gives its bytes back. *)
Lemma encode_two c1 c2 s :
  0xC2 <= code c1 <= 0xDF → 0x80 <= code c2 <= 0xBF →
  let cp := (code c1 - 0xC0) * 64 + (code c2 - 0x80) in
  encode_cp cp s = String c1 (String c2 s) ∧ scalar cp = true.
Proof.
  intros H1 H2 cp. rewrite scalar_iff. unfold encode_cp.
  destruct (divmod64 cp) as [E1 B1]. set (q1 := cp / 64) in *. set (m1 := cp mod 64) in *.
  clearbody q1 m1. unfold cp in *.
  rewrite (proj2 (N.ltb_ge _ 0x80)), (proj2 (N.ltb_lt _ 0x800)) by lia.
  split; [|lia]. rewrite (byte_is _ c1), (byte_is _ c2) by lia. done.
Qed.

Lemma encode_three c1 c2 c3 s :
  0xE0 <= code c1 <= 0xEF → second_ok (code c1) (code c2) = true → 0x80 <= code c3 <= 0xBF →
  let cp := ((code c1 - 0xE0) * 64 + (code c2 - 0x80)) * 64 + (code c3 - 0x80) in
  encode_cp cp s = String c1 (String c2 (String c3 s)) ∧ scalar cp = true.
Proof.
  intros H1 H2%second_ok_iff H3 cp. rewrite scalar_iff. unfold encode_cp.
  destruct (divmod64 cp) as [E1 B1]. destruct (divmod64 (cp / 64)) as [E2 B2].
  set (q1 := cp / 64) in *. set (q2 := q1 / 64) in *.
  set (m1 := cp mod 64) in *. set (m2 := q1 mod 64) in *. clearbody q1 q2 m1 m2. unfold cp in *.
  assert (q1 = (code c1 - 0xE0) * 64 + (code c2 - 0x80)) by lia.
  rewrite (proj2 (N.ltb_ge _ 0x80)), (proj2 (N.ltb_ge _ 0x800)),
    (proj2 (N.ltb_lt _ 0x10000)) by lia.
  split; [|lia]. rewrite (byte_is _ c1), (byte_is _ c2), (byte_is _ c3) by lia. done.
Qed.

Lemma encode_four c1 c2 c3 c4 s :
  0xF0 <= code c1 <= 0xF4 → second_ok (code c1) (code c2) = true →
  0x80 <= code c3 <= 0xBF → 0x80 <= code c4 <= 0xBF →
  let cp := (((code c1 - 0xF0) * 64 + (code c2 - 0x80)) * 64 + (code c3 - 0x80)) * 64
            + (code c4 - 0x80) in
  encode_cp cp s = String c1 (String c2 (String c3 (String c4 s))) ∧ scalar cp = true.
Proof.
  intros H1 H2%second_ok_iff H3 H4 cp. rewrite scalar_iff. unfold encode_cp.
  destruct (divmod64 cp) as [E1 B1]. destruct (divmod64 (cp / 64)) as [E2 B2].
  destruct (divmod64 (cp / 64 / 64)) as [E3 B3].
  set (q1 := cp / 64) in *. set (q2 := q1 / 64) in *. set (q3 := q2 / 64) in *.
  set (m1 := cp mod 64) in *. set (m2 := q1 mod 64) in *. set (m3 := q2 mod 64) in *.
  clearbody q1 q2 q3 m1 m2 m3. unfold cp in *.
  assert (q1 = ((code c1 - 0xF0) * 64 + (code c2 - 0x80)) * 64 + (code c3 - 0x80)) by lia.
  assert (q2 = (code c1 - 0xF0) * 64 + (code c2 - 0x80)) by lia.
  rewrite (proj2 (N.ltb_ge _ 0x80)), (proj2 (N.ltb_ge _ 0x800)),
    (proj2 (N.ltb_ge _ 0x10000)) by lia.
  split; [|lia]. rewrite (byte_is _ c1), (byte_is _ c2), (byte_is _ c3), (byte_is _ c4) by lia.
  done.
Qed.

Lemma fmap_cons_Some (x : N) (o : option text) t :
  cons x <$> o = Some t → ∃ t', o = Some t' ∧ t = x :: t'.
Proof. destruct o; simpl; intros; simplify_eq; eauto. Qed.

Lemma encode_decode s t : decode s = Some t → encode t = s ∧ forallb scalar t = true.
Proof.
  remember (String.length s) as n eqn:Hn.
  assert (String.length s <= n)%nat as Hle by lia. clear Hn.
  revert s t Hle. induction n as [|n IH]; intros s t Hle.
  { destruct s; simpl in *; [|lia]. intros. by simplify_eq. }
  destruct s as [|c1 s1]; [intros; by simplify_eq/=|]. cbn [decode]. simpl in Hle.
  destruct (N.ltb_spec (code c1) 0x80) as [H1|H1].
  { intros (t' & Hd & ->)%fmap_cons_Some. destruct (IH s1 t') as [He Hs]; [lia|done|].
    change (encode (?x :: t')) with (encode_cp x (encode t')). rewrite He. simpl. rewrite Hs.
    unfold encode_cp. rewrite (proj2 (N.ltb_lt _ 0x80)) by done. rewrite byte_code.
    split; [done|]. rewrite andb_true_r. apply scalar_iff. lia. }
  destruct (within 0xC2 0xDF (code c1)) eqn:W2; [|destruct (within 0xE0 0xEF (code c1)) eqn:W3;
    [|destruct (within 0xF0 0xF4 (code c1)) eqn:W4; [|done]]].
  - apply within_iff in W2. destruct s1 as [|c2 s2]; [done|]. unfold cont.
    destruct (within 0x80 _ (code c2)) eqn:V2; [|done]. apply within_iff in V2.
    intros (t' & Hd & ->)%fmap_cons_Some.
    destruct (IH s2 t') as [He Hs]; [simpl in Hle; lia|done|].
    destruct (encode_two c1 c2 (encode t') W2 V2) as [Hc Hsc].
    change (encode (?x :: t')) with (encode_cp x (encode t')). rewrite Hc, He. simpl.
    by rewrite Hsc.
  - apply within_iff in W3. destruct s1 as [|c2 [|c3 s3]]; [done..|]. unfold cont.
    destruct (second_ok _ _) eqn:V2; [|done]. destruct (within 0x80 _ (code c3)) eqn:V3; [|done].
    apply within_iff in V3. intros (t' & Hd & ->)%fmap_cons_Some.
    destruct (IH s3 t') as [He Hs]; [simpl in Hle; lia|done|].
    destruct (encode_three c1 c2 c3 (encode t') W3 V2 V3) as [Hc Hsc].
    change (encode (?x :: t')) with (encode_cp x (encode t')). rewrite Hc, He. simpl.
    by rewrite Hsc.
  - apply within_iff in W4. destruct s1 as [|c2 [|c3 [|c4 s4]]]; [done..|]. unfold cont.
    destruct (second_ok _ _) eqn:V2; [|done]. destruct (within 0x80 _ (code c3)) eqn:V3; [|done].
    destruct (within 0x80 _ (code c4)) eqn:V4; [|done].
    apply within_iff in V3, V4. intros (t' & Hd & ->)%fmap_cons_Some.
    destruct (IH s4 t') as [He Hs]; [simpl in Hle; lia|done|].
    destruct (encode_four c1 c2 c3 c4 (encode t') W4 V2 V3 V4) as [Hc Hsc].
    change (encode (?x :: t')) with (encode_cp x (encode t')). rewrite Hc, He. simpl.
    by rewrite Hsc.
Qed.
