(* ===== verification/Envelope.v ===== *)
(** The message envelope (src/src/agenttower/routing/envelope.py): body
    validation, header rendering and the size cap; and the excerpts of bodies
    (routing/excerpt.py). *)

From S2P Require Import Prelude Errors Agents Utf8.
From Stdlib Require Import Ascii.

Definition DEFAULT_ENVELOPE_BODY_MAX_BYTES : Z := 65536.

(** [(range(0x00, 0x20) | {0x7F}) - {0x09, 0x0A}] *)
Definition forbidden_body_byte (c : ascii) : bool :=
  let n := nat_of_ascii c in
  ((n <? 32) || (n =? 127)) && negb ((n =? 9) || (n =? 10)).

Definition body_error (code : string) : exn := QueueServiceError BodyValidation code.

Definition validate_body (body : string) : outcome unit :=
  if bool_decide (body = EmptyString) then Raise (body_error "body_empty")
  else match decode body with
       | None => Raise (body_error "body_invalid_encoding")
       | Some _ =>
           if Text.all (λ c, negb (forbidden_body_byte c)) body then Ok tt
           else Raise (body_error "body_invalid_chars")
       end.

Record EnvelopeIdentity := mkIdentity {
  ei_agent_id : string; ei_label : string; ei_role : string;
  ei_capability : option string
}.

Definition nl : string := String newline EmptyString.
Definition dquote : string := String (ascii_of_nat 34) EmptyString.

(** [f" [capability={c}]" if c else ""] *)
Definition capability_suffix (cap : option string) : string :=
  match cap with
  | None | Some EmptyString => EmptyString
  | Some c => " [capability=" +:+ c +:+ "]"
  end.

Definition party_line (tag : string) (i : EnvelopeIdentity) : string :=
  tag +:+ ei_agent_id i +:+ " " +:+ dquote +:+ ei_label i +:+ dquote +:+ " " +:+
  ei_role i +:+ capability_suffix (ei_capability i).

(** The header lines in order, each ended by a newline, then a blank line. *)
Definition header_lines (message_id : string) (sender target : EnvelopeIdentity)
  : list string :=
  ["Message-Id: " +:+ message_id; party_line "From: " sender; party_line "To: " target;
   "Type: prompt"; "Priority: normal"; "Requires-Reply: yes"].

Definition headers (message_id : string) (sender target : EnvelopeIdentity) : string :=
  foldr (λ line rest, line +:+ nl +:+ rest) nl (header_lines message_id sender target).

Definition render_envelope (message_id : string) (sender target : EnvelopeIdentity)
    (body : string) : string :=
  headers message_id sender target +:+ body.

Definition serialize_and_check_size (message_id : string) (sender target : EnvelopeIdentity)
    (body : string) (max_bytes : Z) : outcome string :=
  obind (validate_body body) (λ _,
    let rendered := render_envelope message_id sender target body in
    if (max_bytes <? Z.of_nat (String.length rendered))%Z
    then Raise (body_error "body_too_large")
    else Ok rendered).

(** ** What a receiver does with an envelope

Lines up to the first empty one are headers, the rest is the body. *)

Fixpoint cut_blank (lines : list string) : option (list string * list string) :=
  match lines with
  | [] => None
  | EmptyString :: rest => Some ([], rest)
  | line :: rest =>
      match cut_blank rest with
      | Some (h, b) => Some (line :: h, b)
      | None => None
      end
  end.

Fixpoint join (sep : string) (parts : list string) : string :=
  match parts with
  | [] => EmptyString
  | [p] => p
  | p :: rest => p +:+ sep +:+ join sep rest
  end.

Definition read_envelope (s : string) : option (list string * string) :=
  match cut_blank (Text.split newline s) with
  | Some (h, b) => Some (h, join nl b)
  | None => None
  end.

Definition one_line (s : string) : bool := Text.all (λ c, negb (bool_decide (c = newline))) s.

Definition identity_one_line (i : EnvelopeIdentity) : bool :=
  one_line (ei_agent_id i) && one_line (ei_label i) && one_line (ei_role i) &&
  match ei_capability i with None => true | Some c => one_line c end.

(** ** Lemmas *)

Lemma all_app p s1 s2 : Text.all p (s1 +:+ s2) = Text.all p s1 && Text.all p s2.
Proof.
  induction s1 as [|c s1 IH]; [done|].
  change (String c s1 +:+ s2) with (String c (s1 +:+ s2)). simpl. by rewrite IH, andb_assoc.
Qed.

Lemma str_app_assoc (a b c : string) : (a +:+ b) +:+ c = a +:+ (b +:+ c).
Proof.
  induction a as [|x a IH]; [done|].
  change ((String x a +:+ b) +:+ c) with (String x ((a +:+ b) +:+ c)).
  change (String x a +:+ (b +:+ c)) with (String x (a +:+ (b +:+ c))). by rewrite IH.
Qed.

Lemma join_split s : join nl (Text.split newline s) = s.
Proof.
  induction s as [|c s IH]; [done|]. simpl. case_bool_decide as Hc.
  - subst c. destruct (Text.split newline s) as [|p rest] eqn:E;
      [by destruct (Text.split_nonempty newline s)|].
    change (nl +:+ join nl (p :: rest) = String newline s). by rewrite IH.
  - destruct (Text.split newline s) as [|p rest] eqn:E;
      [by destruct (Text.split_nonempty newline s)|].
    destruct rest as [|p' rest]; [simpl in *; by rewrite IH|].
    change (p +:+ (nl +:+ join nl (p' :: rest)) = s) in IH.
    change (String c (p +:+ (nl +:+ join nl (p' :: rest))) = String c s). by rewrite IH.
Qed.

Lemma cut_blank_lines lines rest :
  Forall (λ l, l ≠ EmptyString) lines →
  cut_blank (lines ++ EmptyString :: rest) = Some (lines, rest).
Proof.
  induction 1 as [|l ls Hl _ IH]; [done|]. simpl. rewrite IH. by destruct l.
Qed.

Lemma split_headers lines body :
  Forall (λ l, one_line l = true) lines →
  Text.split newline (foldr (λ line rest, line +:+ nl +:+ rest) nl lines +:+ body) =
  lines ++ EmptyString :: Text.split newline body.
Proof.
  induction 1 as [|l ls Hl _ IH].
  - change (nl +:+ body) with (String newline body). done.
  - cbn [foldr app]. rewrite str_app_assoc, str_app_assoc.
    change (nl +:+ ?x) with (String newline x). rewrite Text.split_app by done.
    by rewrite IH.
Qed.

Lemma party_line_one_line tag i :
  one_line tag = true → identity_one_line i = true → one_line (party_line tag i) = true.
Proof.
  unfold identity_one_line, party_line, one_line. intros Htag Hi. bool_simp.
  rewrite !all_app. rewrite Htag. cbn [andb].
  repeat match goal with H : Text.all _ _ = true |- _ => rewrite H; clear H end.
  unfold capability_suffix. destruct (ei_capability i) as [[|c s]|]; [done| |done].
  rewrite !all_app. simpl in *. by rewrite H0.
Qed.

(** The byte scan agrees with a scan of the decoded characters: bytes of
    multi-byte sequences are never control bytes. *)
Definition allowed_char (cp : N) : Prop :=
  (32 ≤ cp)%N ∧ cp ≠ 127%N ∨ cp = 9%N ∨ cp = 10%N.

Lemma high_byte_allowed n : (128 ≤ n)%N → (n < 256)%N → forbidden_body_byte (byte n) = false.
Proof.
  intros H1 H2. unfold forbidden_body_byte. unfold nat_of_ascii.
  change (N_of_ascii (byte n)) with (code (byte n)). rewrite code_byte by done.
  rewrite (proj2 (Nat.ltb_ge _ _)), (proj2 (Nat.eqb_neq _ 127)) by lia. done.
Qed.

Lemma low_byte_allowed n : (n < 128)%N → forbidden_body_byte (byte n) = false ↔ allowed_char n.
Proof.
  intros H. unfold forbidden_body_byte, nat_of_ascii, allowed_char.
  change (N_of_ascii (byte n)) with (code (byte n)). rewrite code_byte by lia.
  destruct (Nat.ltb_spec (N.to_nat n) 32), (Nat.eqb_spec (N.to_nat n) 127),
    (Nat.eqb_spec (N.to_nat n) 9), (Nat.eqb_spec (N.to_nat n) 10); simpl;
    (split; [intros; try done; lia|intros; try done; lia]).
Qed.

Lemma all_encode_cp cp s :
  scalar cp = true →
  Text.all (λ c, negb (forbidden_body_byte c)) (encode_cp cp s) = true ↔
  allowed_char cp ∧ Text.all (λ c, negb (forbidden_body_byte c)) s = true.
Proof.
  intros Hs%scalar_iff. unfold encode_cp.
  destruct (divmod64 cp) as [E1 B1]. destruct (divmod64 (cp / 64)) as [E2 B2].
  destruct (divmod64 (cp / 64 / 64)) as [E3 B3].
  set (q1 := (cp / 64)%N) in *. set (q2 := (q1 / 64)%N) in *. set (q3 := (q2 / 64)%N) in *.
  set (m1 := (cp mod 64)%N) in *. set (m2 := (q1 mod 64)%N) in *.
  set (m3 := (q2 mod 64)%N) in *. clearbody q1 q2 q3 m1 m2 m3.
  assert (Hhi : (128 ≤ cp)%N → allowed_char cp) by (unfold allowed_char; lia).
  destruct (N.ltb_spec cp 0x80); [|destruct (N.ltb_spec cp 0x800);
    [|destruct (N.ltb_spec cp 0x10000)]]; cbn [Text.all].
  - rewrite andb_true_iff, negb_true_iff. by rewrite low_byte_allowed.
  - rewrite !high_byte_allowed by lia. simpl. naive_solver.
  - rewrite !high_byte_allowed by lia. simpl. naive_solver.
  - rewrite !high_byte_allowed by lia. simpl. naive_solver.
Qed.

Lemma all_encode t :
  forallb scalar t = true →
  Text.all (λ c, negb (forbidden_body_byte c)) (encode t) = true ↔
  ∀ cp, cp ∈ t → allowed_char cp.
Proof.
  induction t as [|cp t IH]; simpl; intros Hs.
  - split; [|done]. by intros _ cp ?%not_elem_of_nil.
  - apply andb_true_iff in Hs as [Hc Ht]. rewrite all_encode_cp by done. rewrite IH by done.
    setoid_rewrite elem_of_cons. naive_solver.
Qed.

Lemma validate_body_ok body :
  validate_body body = Ok tt ↔
  ∃ t, body = encode t ∧ forallb scalar t = true ∧ t ≠ [] ∧ ∀ cp, cp ∈ t → allowed_char cp.
Proof.
  unfold validate_body. split.
  - case_bool_decide as He; [done|]. destruct (decode body) as [t|] eqn:Hd; [|done].
    destruct (encode_decode _ _ Hd) as [Hen Hs]. rewrite <- Hen.
    case_match eqn:Ha; [|done]. intros _. exists t. split_and!; [done..| |by apply all_encode].
    intros ->. by rewrite <- Hen in He.
  - intros (t & -> & Hs & Hne & Ha). rewrite bool_decide_false.
    + rewrite decode_encode by done. by rewrite (proj2 (all_encode t Hs) Ha).
    + intros Hz. assert (decode (encode t) = Some []) as Hd by by rewrite Hz.
      rewrite decode_encode in Hd by done. congruence.
Qed.

Lemma header_lines_ok mid s t :
  one_line mid = true → identity_one_line s = true → identity_one_line t = true →
  Forall (λ l, one_line l = true) (header_lines mid s t) ∧
  Forall (λ l, l ≠ EmptyString) (header_lines mid s t).
Proof.
  intros Hm Hs Ht. split.
  - repeat constructor; try done; try (by apply party_line_one_line).
  - repeat constructor; done.
Qed.

(** ** Properties *)

(** An envelope is accepted exactly when its body is a non-empty UTF-8 text
    whose only ASCII control characters are tab and newline and whose serialized
    form fits the cap; the result is the header block followed by the body. *)
Theorem envelope_accepts_iff mid s t body max_bytes r :
  serialize_and_check_size mid s t body max_bytes = Ok r ↔
  r = headers mid s t +:+ body ∧ (Z.of_nat (String.length r) ≤ max_bytes)%Z ∧
  ∃ chars, body = encode chars ∧ forallb scalar chars = true ∧ chars ≠ [] ∧
           ∀ cp, cp ∈ chars → allowed_char cp.
Proof.
  rewrite <- validate_body_ok. unfold serialize_and_check_size.
  destruct (validate_body body) as [[]|e] eqn:Hv; unfold obind; [|naive_solver].
  cbv zeta. unfold render_envelope. destruct (Z.ltb_spec max_bytes
    (Z.of_nat (String.length (headers mid s t +:+ body)))) as [Hlt|Hge].
  - split; [done|]. intros (-> & Hle & _). lia.
  - split; [intros; simplify_eq; done|]. by intros (-> & _ & _).
Qed.

(** Round trip: when the identity fields contain no newline, reading an
    envelope up to its first blank line gives back the six header lines in order
    and the body byte for byte, so no body can be mistaken for headers. *)
Theorem envelope_roundtrip mid s t body :
  one_line mid = true → identity_one_line s = true → identity_one_line t = true →
  read_envelope (render_envelope mid s t body) = Some (header_lines mid s t, body).
Proof.
  intros Hm Hs Ht. destruct (header_lines_ok mid s t Hm Hs Ht) as [H1 H2].
  unfold read_envelope, render_envelope, headers. rewrite split_headers by done.
  rewrite cut_blank_lines by done. by rewrite join_split.
Qed.

Lemma envelope_roundtrip_witness :
  let s := mkIdentity "agt_0123456789ab" "lead" "master" None in
  let t := mkIdentity "agt_ba9876543210" "coder" "slave" (Some "build") in
  read_envelope (render_envelope "m1" s t ("To: x" +:+ nl +:+ nl +:+ "hi")) =
  Some (header_lines "m1" s t, "To: x" +:+ nl +:+ nl +:+ "hi").
Proof. intros s t. apply envelope_roundtrip; reflexivity. Defined.

(** The redacted one-line excerpt
    (src/src/agenttower/routing/excerpt.py) of a message body.  The redactor is
    the argument the function takes; [None] is a redactor that raises. *)

Definition DEFAULT_EXCERPT_CAP : nat := 240.
Definition ELLIPSIS : N := 0x2026.

(** ["[excerpt unavailable: redactor failed]"] as code points. *)
Definition REDACTOR_FAILED_PLACEHOLDER : text :=
  default [] (decode "[excerpt unavailable: redactor failed]").

(** The characters [\s] matches in a [str] pattern. *)
Definition is_space (cp : N) : bool :=
  within 0x09 0x0D cp || within 0x1C 0x20 cp || (cp =? 0x85)%N || (cp =? 0xA0)%N ||
  (cp =? 0x1680)%N || within 0x2000 0x200A cp || (cp =? 0x2028)%N || (cp =? 0x2029)%N ||
  (cp =? 0x202F)%N || (cp =? 0x205F)%N || (cp =? 0x3000)%N.

(** [_WHITESPACE_RUN.sub(" ", t)]; [in_run] says the previous character was
    whitespace, already replaced. *)
Fixpoint collapse (in_run : bool) (t : text) : text :=
  match t with
  | [] => []
  | cp :: rest =>
      if is_space cp
      then if in_run then collapse true rest else 0x20%N :: collapse true rest
      else cp :: collapse false rest
  end.

(** [text.split("\n")] *)
Fixpoint split_lines (t : text) : list text :=
  match t with
  | [] => [[]]
  | cp :: rest =>
      if (cp =? 10)%N then [] :: split_lines rest
      else match split_lines rest with
           | [] => [[cp]]
           | l :: ls => (cp :: l) :: ls
           end
  end.

(** ["\n".join(parts)] *)
Fixpoint join_lines (ls : list text) : text :=
  match ls with
  | [] => []
  | [l] => l
  | l :: rest => l ++ 10%N :: join_lines rest
  end.

Definition redact_multiline (redactor : text → option text) (t : text) : option text :=
  join_lines <$> mapM redactor (split_lines t).

Definition render_excerpt (redactor : text → option text) (cap : nat) (body : string) : text :=
  match decode body ≫= redact_multiline redactor with
  | None => REDACTOR_FAILED_PLACEHOLDER
  | Some redacted =>
      let one_line := collapse false redacted in
      if length one_line <=? cap then one_line else take cap one_line ++ [ELLIPSIS]
  end.

(** ** Lemmas *)

(** No whitespace but single spaces. *)
Definition single_line (t : text) : Prop :=
  (∀ cp, cp ∈ t → is_space cp = true → cp = 0x20%N) ∧
  ∀ i, t !! i = Some 0x20%N → t !! S i ≠ Some 0x20%N.

Lemma collapse_space b t cp : cp ∈ collapse b t → is_space cp = true → cp = 0x20%N.
Proof.
  revert b. induction t as [|x t IH]; intros b; simpl; [by intros ?%not_elem_of_nil|].
  destruct (is_space x) eqn:Hx; [destruct b; [apply IH|]|]; intros [->|Hin]%elem_of_cons; eauto.
  congruence.
Qed.

Lemma collapse_head t : head (collapse true t) ≠ Some 0x20%N.
Proof.
  induction t as [|x t IH]; simpl; [done|]. destruct (is_space x) eqn:Hx; [done|].
  simpl. intros [= ->]. by compute in Hx.
Qed.

Lemma collapse_no_double b t i :
  collapse b t !! i = Some 0x20%N → collapse b t !! S i ≠ Some 0x20%N.
Proof.
  revert b i. induction t as [|x t IH]; intros b i; simpl; [done|].
  destruct (is_space x) eqn:Hx; [destruct b; [apply IH|]|];
    (destruct i as [|i]; simpl; [|by apply IH]).
  - intros _. rewrite <- head_lookup. apply collapse_head.
  - intros [= ->]. by compute in Hx.
Qed.

Lemma collapse_single_line t : single_line (collapse false t).
Proof. split; [intros cp; apply collapse_space|intros i; apply collapse_no_double]. Qed.

Lemma single_line_take t n : single_line t → single_line (take n t).
Proof.
  intros [H1 H2]. split.
  - intros cp (i & Hi%list_elem_of_lookup_2 & _)%elem_of_take. by apply H1.
  - intros i [Hi _]%lookup_take_Some [Hj _]%lookup_take_Some. by apply (H2 i).
Qed.

Lemma single_line_snoc t x :
  single_line t → is_space x = false → single_line (t ++ [x]).
Proof.
  intros [H1 H2] Hx. assert (x ≠ 0x20%N) as Hne by (intros ->; by compute in Hx). split.
  - intros cp [Hin| ->%list_elem_of_singleton]%elem_of_app Hs; [by apply H1|congruence].
  - intros i Hi Hj. apply lookup_app_Some in Hj as [Hj|[Hge Hj]].
    + apply lookup_app_Some in Hi as [Hi|[Hge _]]; [by apply (H2 i)|].
      apply lookup_lt_Some in Hj. lia.
    + apply list_lookup_singleton_Some in Hj as [_ ->]. done.
Qed.

(** ** Properties *)

(** Whatever the body and the redactor do, the excerpt is one line without
    any whitespace but single spaces and has at most [cap + 1] characters; when
    the body does not decode or the redactor fails it is the fixed placeholder,
    and otherwise it depends on the redacted text alone: all of it, collapsed, or
    its first [cap] characters and an ellipsis. *)
Theorem render_excerpt_safe redactor cap body :
  let e := render_excerpt redactor cap body in
  single_line e ∧
  match decode body ≫= redact_multiline redactor with
  | None => e = REDACTOR_FAILED_PLACEHOLDER
  | Some redacted => length e ≤ S cap ∧
      (e = collapse false redacted ∨ e = take cap (collapse false redacted) ++ [ELLIPSIS])
  end.
Proof.
  intros e. unfold e, render_excerpt. destruct (decode body ≫= _) as [red|].
  - pose proof (collapse_single_line red) as Hs.
    destruct (Nat.leb_spec (length (collapse false red)) cap) as [Hle|Hgt].
    + split; [done|]. split; [lia|by left].
    + split; [apply single_line_snoc; [by apply single_line_take|done]|].
      split; [|by right]. rewrite length_app, length_take. simpl. lia.
  - split; [|done]. unfold single_line, REDACTOR_FAILED_PLACEHOLDER. vm_compute decode. simpl.
    split.
    + intros cp Hin. apply list_elem_of_In in Hin. simpl in Hin.
      repeat (destruct Hin as [<-|Hin]; [done|]). done.
    + intros i Hi. do 40 (destruct i as [|i]; [done|]). done.
Qed.
