(* ===== verification/Timestamps.v ===== *)
(** Canonical timestamps (src/src/agenttower/routing/timestamps.py): the formatter of
    every stored instant and the parser of [--since].

    A [datetime] is one in UTC, as every caller passes it.  [unicode_digit] gives the
    value of a decimal digit outside ASCII, which [\d] and [int()] accept too. *)

From S2P Require Import Prelude Errors Agents Utf8.
From Stdlib Require Import Ascii.

Local Open Scope N_scope.

Record datetime := mkDatetime {
  year : N; month : N; day : N; hour : N; minute : N; second : N; microsecond : N
}.

Definition leap (y : N) : bool :=
  (y mod 4 =? 0) && (negb (y mod 100 =? 0) || (y mod 400 =? 0)).

Definition days_in_month (y m : N) : N :=
  if m =? 2 then (if leap y then 29 else 28)
  else if (m =? 4) || (m =? 6) || (m =? 9) || (m =? 11) then 30 else 31.

(** The ranges the [datetime] constructor enforces. *)
Definition valid_datetime (t : datetime) : bool :=
  (1 <=? year t) && (year t <=? 9999) && (1 <=? month t) && (month t <=? 12) &&
  (1 <=? day t) && (day t <=? days_in_month (year t) (month t)) &&
  (hour t <? 24) && (minute t <? 60) && (second t <? 60) && (microsecond t <? 1000000).

(** ** Formatting *)

Definition digit (n : N) : N := 48 + n.
Definition two (n : N) : text := [digit (n / 10); digit (n mod 10)].
Definition three (n : N) : text := [digit (n / 100); digit (n / 10 mod 10); digit (n mod 10)].

(** [%Y] of the C library, which does not pad years before 1000; interpreters that do
    differ here only, and the theorems are about later years. *)
Definition year_digits (n : N) : text :=
  if n <? 10 then [digit n]
  else if n <? 100 then two n
  else if n <? 1000 then three n
  else digit (n / 1000) :: three (n mod 1000).

Definition dash : N := 45.
Definition colon : N := 58.
Definition dot : N := 46.
Definition letter_T : N := 84.
Definition letter_Z : N := 90.

(** [_format_iso_ms_utc] *)
Definition format_iso_ms_utc (t : datetime) : text :=
  year_digits (year t) ++ dash :: two (month t) ++ dash :: two (day t) ++
  letter_T :: two (hour t) ++ colon :: two (minute t) ++ colon :: two (second t) ++
  dot :: three (microsecond t / 1000) ++ [letter_Z].

(** ** Parsing *)

Section Parse.
Variable unicode_digit : N → option N.

Definition digit_value (cp : N) : option N :=
  if within 48 57 cp then Some (cp - 48)
  else if cp <? 128 then None else unicode_digit cp.

(** [int(s)] of a run of digits. *)
Definition int_of (t : text) : option N :=
  foldl (λ acc cp, n ← acc; v ← digit_value cp; Some (10 * n + v)) (Some 0) t.

(** [Z$] at the end of a match: a final newline may follow. *)
Definition at_end (t : text) : bool :=
  bool_decide (t = [letter_Z]) || bool_decide (t = [letter_Z; 10]).

(** The optional millisecond fragment, and the end. *)
Definition millis_part (t : text) : option N :=
  match t with
  | c :: a :: b :: d :: rest =>
      if (c =? dot) && at_end rest then int_of [a; b; d]
      else if at_end t then Some 0 else None
  | _ => if at_end t then Some 0 else None
  end.

(** [_CANONICAL_REGEX.match] and the integers of its groups. *)
Definition canonical_match (t : text) : option datetime :=
  match t with
  | y1 :: y2 :: y3 :: y4 :: p1 :: m1 :: m2 :: p2 :: d1 :: d2 :: p3 :: h1 :: h2 :: p4 ::
    i1 :: i2 :: p5 :: s1 :: s2 :: rest =>
      if (p1 =? dash) && (p2 =? dash) && (p3 =? letter_T) && (p4 =? colon) && (p5 =? colon)
      then y ← int_of [y1; y2; y3; y4]; mo ← int_of [m1; m2]; d ← int_of [d1; d2];
           h ← int_of [h1; h2]; i ← int_of [i1; i2]; s ← int_of [s1; s2];
           ms ← millis_part rest;
           Some (mkDatetime y mo d h i s (ms * 1000))
      else None
  | _ => None
  end.

Definition SinceFormatError : exn := PyError "SinceFormatError".

Definition parse_since (t : text) : outcome datetime :=
  match canonical_match t with
  | None => Raise SinceFormatError
  | Some dt => if valid_datetime dt then Ok dt else Raise SinceFormatError
  end.
End Parse.

(** ** Order *)

(** Position on the time line, in milliseconds of a calendar without gaps. *)
Definition instant (t : datetime) : N :=
  year t * 10000000000000 + (month t * 100000000000 + (day t * 1000000000 +
  (hour t * 10000000 + (minute t * 100000 + (second t * 1000 + microsecond t / 1000))))).

Fixpoint text_le (a b : text) : Prop :=
  match a, b with
  | [], _ => True
  | _ :: _, [] => False
  | x :: a', y :: b' => x < y ∨ x = y ∧ text_le a' b'
  end.

(** ** Lemmas *)

Ltac Zify.zify_post_hook ::= Z.to_euclidean_division_equations.

Lemma text_le_cons x a b : text_le (x :: a) (x :: b) ↔ text_le a b.
Proof. simpl. split; [intros [?|[_ ?]]; [lia|done]|auto]. Qed.

Lemma text_le_two n m a b :
  n < 100 → m < 100 → text_le (two n ++ a) (two m ++ b) ↔ n < m ∨ n = m ∧ text_le a b.
Proof.
  intros Hn Hm. unfold two, digit. simpl. destruct (N.lt_trichotomy n m) as [H|[->|H]].
  - split; [by left|]. intros _. assert (n / 10 < m / 10 ∨ n / 10 = m / 10 ∧ n mod 10 < m mod 10)
      as [?|[-> ?]] by lia; [left; lia|right; split; [done|left; lia]].
  - split; [|intros [?|[_ ?]]; [lia|auto]]. intros [?|[_ [?|[_ ?]]]]; [lia|lia|auto].
  - split; [|intros [?|[? _]]; lia]. intros [?|[? [?|[? _]]]]; exfalso; lia.
Qed.

Lemma text_le_three n m a b :
  n < 1000 → m < 1000 → text_le (three n ++ a) (three m ++ b) ↔ n < m ∨ n = m ∧ text_le a b.
Proof.
  intros Hn Hm.
  assert (Hd : ∀ k, k < 1000 → k / 100 = k / 10 / 10 ∧ k / 10 < 100) by (intros; lia).
  destruct (Hd n Hn) as [En Hn'], (Hd m Hm) as [Em Hm'].
  assert (E : ∀ k t, three k ++ t = [digit (k / 100); digit (k / 10 mod 10)] ++ (digit (k mod 10) :: t))
    by done.
  rewrite !E, En, Em. change ([digit (?x / 10); digit (?x mod 10)]) with (two x).
  rewrite text_le_two by done. simpl. unfold digit. split.
  - intros [?|[? [?|[? ?]]]]; [left; lia|left; lia|right; split; [lia|done]].
  - intros [?|[-> ?]]; [|auto]. assert (n / 10 < m / 10 ∨ n / 10 = m / 10 ∧ n mod 10 < m mod 10)
      as [?|[-> ?]] by lia; [by left|right; split; [done|left; lia]].
Qed.

Lemma text_le_year n m a b :
  1000 ≤ n ≤ 9999 → 1000 ≤ m ≤ 9999 →
  text_le (year_digits n ++ a) (year_digits m ++ b) ↔ n < m ∨ n = m ∧ text_le a b.
Proof.
  intros [Hn Hn'] [Hm Hm']. unfold year_digits.
  rewrite !(proj2 (N.ltb_ge _ _)) by lia. cbn [app text_le].
  rewrite text_le_three by lia. unfold digit. split.
  - intros [?|[? [?|[? ?]]]]; [left; lia|left; lia|right; split; [lia|done]].
  - intros [?|[-> ?]]; [|auto].
    assert (n / 1000 < m / 1000 ∨ n / 1000 = m / 1000 ∧ n mod 1000 < m mod 1000)
      as [?|[-> ?]] by lia; [left; lia|right; split; [done|by left]].
Qed.

(** One more field in front of a mixed-radix number. *)
Lemma radix_le K n m x y :
  x < K → y < K → (n < m ∨ n = m ∧ x ≤ y) ↔ n * K + x ≤ m * K + y.
Proof. intros Hx Hy. split; [nia|]. intros H. assert (n ≤ m) by nia. nia. Qed.

Record fields_small (t : datetime) : Prop := {
  fs_year : 1000 ≤ year t ≤ 9999; fs_month : month t < 100; fs_day : day t < 100;
  fs_hour : hour t < 100; fs_minute : minute t < 100; fs_second : second t < 100;
  fs_milli : microsecond t / 1000 < 1000
}.

Lemma valid_small t : valid_datetime t = true → 1000 ≤ year t → fields_small t.
Proof.
  unfold valid_datetime. intros H Hy. bool_simp.
  repeat match goal with
  | H : (_ <=? _) = true |- _ => apply N.leb_le in H
  | H : (_ <? _) = true |- _ => apply N.ltb_lt in H
  end.
  assert (days_in_month (year t) (month t) ≤ 31) by (unfold days_in_month; repeat case_match; lia).
  split; lia.
Qed.

(** The text order of canonical timestamps is the order of time. *)
Lemma format_le t1 t2 :
  fields_small t1 → fields_small t2 →
  text_le (format_iso_ms_utc t1) (format_iso_ms_utc t2) ↔ instant t1 ≤ instant t2.
Proof.
  intros [Y1 M1 D1 H1 I1 S1 L1] [Y2 M2 D2 H2 I2 S2 L2]. unfold format_iso_ms_utc, instant.
  rewrite text_le_year by done. rewrite text_le_cons, text_le_two by done.
  rewrite text_le_cons, text_le_two by done. rewrite text_le_cons, text_le_two by done.
  rewrite text_le_cons, text_le_two by done. rewrite text_le_cons, text_le_two by done.
  rewrite text_le_cons, text_le_three by done.
  assert (E : ∀ n m : N, n < m ∨ n = m ∧ text_le [letter_Z] [letter_Z] ↔ n ≤ m).
  { intros n m. split; [intros [?|[? _]]; lia|]. intros H. assert (n < m ∨ n = m) as [?|?] by lia;
      [by left|]. right. split; [done|]. simpl. auto. }
  rewrite E. rewrite (radix_le 1000) by done. rewrite (radix_le 100000) by lia.
  rewrite (radix_le 10000000) by lia. rewrite (radix_le 1000000000) by lia.
  rewrite (radix_le 100000000000) by lia. by rewrite (radix_le 10000000000000) by lia.
Qed.

Lemma encode_ascii_le a b :
  Forall (λ cp, cp < 128) a → Forall (λ cp, cp < 128) b →
  String.le (encode a) (encode b) ↔ text_le a b.
Proof.
  revert b. induction a as [|x a IH]; intros b Ha Hb; [split; [done|intros _; apply le_empty_l]|].
  apply Forall_cons in Ha as [Hx Ha].
  assert (Hc : ∀ y s, y < 128 → encode (y :: s) = String (byte y) (encode s)).
  { intros y s Hy. cbn [encode foldr]. unfold encode_cp. by rewrite (proj2 (N.ltb_lt _ _) Hy). }
  rewrite Hc by done. destruct b as [|y b].
  { split; [intros H; by apply le_cons_empty in H|done]. }
  apply Forall_cons in Hb as [Hy Hb]. rewrite Hc, le_String_cons, (IH b Ha Hb) by done.
  cbn [text_le]. unfold byte. rewrite !N_ascii_embedding by lia. split; (intros [?|[E ?]]; [by left|]; right; split; [|done]).
  - apply (f_equal N_of_ascii) in E. by rewrite !N_ascii_embedding in E by lia.
  - by rewrite E.
Qed.

Lemma digit_ascii n : n < 10 → digit n < 128.
Proof. unfold digit. lia. Qed.

Lemma two_ascii n : n < 100 → Forall (λ cp, cp < 128) (two n).
Proof. intros. unfold two. repeat constructor; apply digit_ascii; lia. Qed.
Lemma three_ascii n : n < 1000 → Forall (λ cp, cp < 128) (three n).
Proof. intros. unfold three. repeat constructor; apply digit_ascii; lia. Qed.

Lemma format_ascii t : fields_small t → Forall (λ cp, cp < 128) (format_iso_ms_utc t).
Proof.
  intros [Y M D H I S L]. unfold format_iso_ms_utc, year_digits.
  rewrite !(proj2 (N.ltb_ge _ _)) by lia. cbn [app].
  repeat first [apply Forall_nil_2|apply three_ascii; lia|apply two_ascii; lia
               |apply Forall_cons_2; [first [by compute|apply digit_ascii; lia]|]
               |apply Forall_app_2].
Qed.

Section RoundTrip.
Variable unicode_digit : N → option N.
Local Abbreviation value := (digit_value unicode_digit).

Lemma digit_value_digit n : n < 10 → value (digit n) = Some n.
Proof.
  intros Hn. unfold digit_value, digit, within.
  rewrite (proj2 (N.leb_le _ _)), (proj2 (N.leb_le _ _)) by lia. simpl. f_equal. lia.
Qed.

Lemma int_of_two n : n < 100 → int_of unicode_digit (two n) = Some n.
Proof.
  intros Hn. unfold int_of, two. cbn [foldl]. rewrite digit_value_digit by lia. cbn [mbind option_bind].
  rewrite digit_value_digit by lia. cbn [mbind option_bind]. f_equal. lia.
Qed.

Lemma int_of_three n : n < 1000 → int_of unicode_digit (three n) = Some n.
Proof.
  intros Hn. unfold int_of, three. cbn [foldl]. rewrite digit_value_digit by lia. cbn [mbind option_bind].
  rewrite digit_value_digit by lia. cbn [mbind option_bind].
  rewrite digit_value_digit by lia. cbn [mbind option_bind]. f_equal. lia.
Qed.

Lemma int_of_year n :
  1000 ≤ n ≤ 9999 → int_of unicode_digit (digit (n / 1000) :: three (n mod 1000)) = Some n.
Proof.
  intros Hn. unfold int_of, three. cbn [foldl]. rewrite digit_value_digit by lia. cbn [mbind option_bind].
  do 3 (rewrite digit_value_digit by lia; cbn [mbind option_bind]). f_equal. lia.
Qed.

Lemma canonical_match_format t :
  fields_small t →
  canonical_match unicode_digit (format_iso_ms_utc t) =
  Some (mkDatetime (year t) (month t) (day t) (hour t) (minute t) (second t)
          (microsecond t / 1000 * 1000)).
Proof.
  intros [Y M D H I S L]. unfold format_iso_ms_utc, year_digits.
  rewrite !(proj2 (N.ltb_ge _ _)) by lia. unfold three at 1, two. cbn [app canonical_match].
  rewrite !N.eqb_refl. cbn [andb].
  change [digit (year t / 1000); digit (year t mod 1000 / 100); digit (year t mod 1000 / 10 mod 10);
    digit (year t mod 1000 mod 10)] with (digit (year t / 1000) :: three (year t mod 1000)).
  rewrite int_of_year by done. cbn [mbind option_bind].
  change [digit (?x / 10); digit (?x mod 10)] with (two x).
  do 5 (rewrite int_of_two by done; cbn [mbind option_bind]).
  unfold three. cbn [app millis_part]. rewrite N.eqb_refl. cbn [andb at_end].
  assert (at_end [letter_Z] = true) as -> by done.
  change [digit (?x / 100); digit (?x / 10 mod 10); digit (?x mod 10)] with (three x).
  by rewrite int_of_three.
Qed.
End RoundTrip.

(** ** Properties *)

(** C38: canonical timestamps sort like time and survive a round trip.  For instants
    of the years 1000 to 9999 the byte order of the stored strings, in which SQLite
    sorts and compares, is the order of the instants in milliseconds; and reading a
    formatted timestamp back gives the instant truncated to the millisecond. *)
Theorem timestamps_sort_and_roundtrip unicode_digit t1 t2 :
  valid_datetime t1 = true → valid_datetime t2 = true → 1000 ≤ year t1 → 1000 ≤ year t2 →
  (String.le (encode (format_iso_ms_utc t1)) (encode (format_iso_ms_utc t2)) ↔
   instant t1 ≤ instant t2) ∧
  parse_since unicode_digit (format_iso_ms_utc t1) =
    Ok (mkDatetime (year t1) (month t1) (day t1) (hour t1) (minute t1) (second t1)
          (microsecond t1 / 1000 * 1000)).
Proof.
  intros V1 V2 Y1 Y2. pose proof (valid_small _ V1 Y1) as S1. pose proof (valid_small _ V2 Y2) as S2.
  split.
  - rewrite encode_ascii_le by by apply format_ascii. by apply format_le.
  - unfold parse_since. rewrite canonical_match_format by done.
    assert (valid_datetime (mkDatetime (year t1) (month t1) (day t1) (hour t1) (minute t1)
      (second t1) (microsecond t1 / 1000 * 1000)) = true) as ->; [|done].
    unfold valid_datetime in *. cbn [year month day hour minute second microsecond].
    apply andb_true_iff in V1 as [-> Vm]. apply N.ltb_lt in Vm. apply N.ltb_lt. lia.
Qed.

Lemma timestamps_sort_and_roundtrip_witness :
  let t1 := mkDatetime 2026 5 12 0 0 4 123999 in
  let t2 := mkDatetime 2026 5 12 0 0 5 0 in
  encode (format_iso_ms_utc t1) = "2026-05-12T00:00:04.123Z" ∧
  parse_since (λ _, None) (format_iso_ms_utc t1) = Ok (mkDatetime 2026 5 12 0 0 4 123000).
Proof.
  intros t1 t2. split; [reflexivity|].
  exact (proj2 (timestamps_sort_and_roundtrip (λ _, None) t1 t2 eq_refl eq_refl
    ltac:(by vm_compute) ltac:(by vm_compute))).
Defined.
