(* ===== verification/AuditWriter.v ===== *)
(** The dual-write audit (src/src/agenttower/routing/audit_writer.py and the two
    statements of events/dao.py it uses): the [events] row is inserted inside
    the caller's transaction, the JSONL line is appended after the commit, and
    a bounded buffer retries what could not be written. *)

From S2P Require Import Prelude Errors Permissions Store QueueDao.

(** ** The host side of the daemon *)

Record QueuePayload := mkQueuePayload {
  qp_event_type : string;
  qp_message_id : string;
  qp_from_state : option QState;
  qp_to_state : QState;
  qp_reason : option string;
  qp_operator : option string;
  qp_observed_at : string;
  qp_sender : option Party;      (* [None] is the empty dictionary *)
  qp_target : option Party;
  qp_excerpt : string
}.

(** Records of the route audit (routing/routes_audit.py), one constructor per
    [event_type]; the first component is [emitted_at]. *)
Inductive RoutePayload :=
| route_matched (emitted_at : string) (event : Z)
    (route winner_master_agent_id target_agent target_name event_excerpt : string)
| route_skipped (emitted_at : string) (event : Z) (route : string)
    (winner_master_agent_id target_agent target_name : option string)
    (reason : string) (sub_reason : option string) (event_excerpt : string)
| route_created (emitted_at route event_type_subscribed scope_kind : string)
    (scope_value : option string) (trule : string) (tvalue : option string)
    (mrule : string) (mvalue : option string) (tmpl : string)
    (created_by : option string) (cursor_at_creation : Z)
| route_updated (emitted_at route : string) (enabled_now : bool) (updated_by : option string)
| route_deleted (emitted_at route : string) (deleted_by : option string)
| routing_worker_heartbeat (emitted_at : string)
    (interval_seconds cycles consumed skips : Z) (degraded_now : bool).

(** Records of [events.jsonl] the routing subsystem produces. *)
Inductive payload :=
| QueueTransition (p : QueuePayload)
| RoutingToggled (previous_value current_value observed_at operator : string)
| RouteAudit (p : RoutePayload).

Definition payload_observed_at (p : payload) : string :=
  match p with
  | QueueTransition q => qp_observed_at q
  | RoutingToggled _ _ ts _ => ts
  | RouteAudit _ => EmptyString   (* no such key; never in this writer's buffer *)
  end.

Record PendingJsonl := mkPending {
  pj_event_id : Z;
  pj_payload : payload;
  pj_failure : string;
  pj_jsonl_appended : bool
}.

(** What a file append may do instead of succeeding: fail, or see the process
    die, before or after the line reached the file ([os.fsync] follows
    [os.write]). *)
Inductive io_fault :=
| IO_error (class_name : string) (written : bool)
| IO_kill (written : bool).

Inductive tmux_fault :=
| T_error (failure_reason : option string)   (* TmuxError *)
| T_other (class_name : string)              (* any other exception *)
| T_kill.

Inductive tmux_call :=
| load_buffer (container user socket buffer body : string)
| paste_buffer (container user socket pane buffer : string)
| send_keys (container user socket pane key : string)
| delete_buffer (container user socket buffer : string).

Record host := mkHost {
  clock : string * list string;      (* current reading, readings to come *)
  jsonl_io : list (option io_fault);
  jsonl : list payload;              (* contents of events.jsonl *)
  pending : list PendingJsonl;
  max_pending : nat;
  degraded_exc : option string;
  flag_cache : option string;
  tmux_io : list (option tmux_fault);
  tmux_calls : list tmux_call;       (* calls made, oldest first *)
  woken : list string                (* message ids whose waiters were notified *)
}.

Record world := mkWorld { db_conn : conn; hst : host }.

Definition on_db {A} (m : M conn A) : M world A :=
  zoom db_conn (λ c w, mkWorld c (hst w)) m.

Definition on_host (f : host → host) : M world unit :=
  modify (λ w, mkWorld (db_conn w) (f (hst w))).

Definition set_clock x h := mkHost x (jsonl_io h) (jsonl h) (pending h)
  (max_pending h) (degraded_exc h) (flag_cache h) (tmux_io h) (tmux_calls h) (woken h).
Definition set_jsonl io j h := mkHost (clock h) io j (pending h)
  (max_pending h) (degraded_exc h) (flag_cache h) (tmux_io h) (tmux_calls h) (woken h).
Definition set_pending p dg h := mkHost (clock h) (jsonl_io h) (jsonl h) p
  (max_pending h) dg (flag_cache h) (tmux_io h) (tmux_calls h) (woken h).
Definition set_cache x h := mkHost (clock h) (jsonl_io h) (jsonl h) (pending h)
  (max_pending h) (degraded_exc h) x (tmux_io h) (tmux_calls h) (woken h).
Definition set_tmux io calls h := mkHost (clock h) (jsonl_io h) (jsonl h) (pending h)
  (max_pending h) (degraded_exc h) (flag_cache h) io calls (woken h).
Definition set_woken x h := mkHost (clock h) (jsonl_io h) (jsonl h) (pending h)
  (max_pending h) (degraded_exc h) (flag_cache h) (tmux_io h) (tmux_calls h) x.

(** [now_iso_ms_utc(self._clock)]: the clock gives its readings in turn. *)
Definition now_iso : M world string := λ w,
  let h := hst w in
  match clock h with
  | (t, []) => (Ok t, w)
  | (t, t' :: rest) => (Ok t, mkWorld (db_conn w) (set_clock (t', rest) h))
  end.

(** [append_event(path, payload)] *)
Definition append_event (p : payload) : M world unit := λ w,
  let h := hst w in
  let file (written : bool) := if written then jsonl h ++ [p] else jsonl h in
  match jsonl_io h with
  | Some (IO_error n written) :: rest =>
      (Raise (PyError n), mkWorld (db_conn w) (set_jsonl rest (file written) h))
  | Some (IO_kill written) :: rest =>
      (Raise SystemExit, mkWorld (db_conn w) (set_jsonl rest (file written) h))
  | None :: rest => (Ok tt, mkWorld (db_conn w) (set_jsonl rest (file true) h))
  | [] => (Ok tt, mkWorld (db_conn w) (set_jsonl [] (file true) h))
  end.

(** ** Statements on [events] *)

(** The [event_type] CHECK of the table (migration v7). *)
Definition EVENT_TYPES : list string :=
  ["activity"; "waiting_for_input"; "completed"; "error"; "test_failed";
   "test_passed"; "manual_review_needed"; "long_running"; "pane_exited";
   "swarm_member_reported"; "queue_message_enqueued"; "queue_message_delivered";
   "queue_message_blocked"; "queue_message_failed"; "queue_message_canceled";
   "queue_message_approved"; "queue_message_delayed"; "routing_toggled"].

Definition insert_event_row (ty agent ts excerpt : string) (d : db) : outcome (Z * db) :=
  if bool_decide (ty ∈ EVENT_TYPES)
  then let eid := (events_seq d + 1)%Z in
       Ok (eid, mkDb (queue d) (flag d)
                  (events d ++ [mkEvent eid ty agent ts excerpt None]) eid (routes d))
  else Raise IntegrityError.

Definition insert_audit_event (ty agent ts excerpt : string) : M conn Z :=
  if Text.startswith "queue_message_" ty || bool_decide (ty = "routing_toggled")
  then sql_write (insert_event_row ty agent ts excerpt)
  else throw (PyError "ValueError").

Definition stamp_event (eid : Z) (ts : string) (e : EventRow) : EventRow :=
  if bool_decide (event_id e = eid) && negb (is_set (jsonl_appended_at e))
  then mkEvent (event_id e) (event_type e) (ev_agent_id e) (ev_observed_at e)
         (ev_excerpt e) (Some ts)
  else e.

Definition mark_jsonl_appended (eid : Z) (ts : string) : M conn unit :=
  sql_write (λ d, Ok (tt, mkDb (queue d) (flag d) (stamp_event eid ts <$> events d)
                            (events_seq d) (routes d))).

(** ** [QueueAuditWriter] *)

Definition insert_queue_transition_in_tx (p : QueuePayload) : M conn (Z * payload) :=
  if negb (Text.startswith "queue_message_" (qp_event_type p))
  then throw (PyError "ValueError")
  else match qp_target p with
       | None => throw (PyError "KeyError")
       | Some target =>
           eid ← insert_audit_event (qp_event_type p) (p_agent_id target)
                   (qp_observed_at p) (qp_excerpt p);
           mret (eid, QueueTransition p)
       end.

Definition insert_routing_toggled_in_tx (previous current operator ts : string)
  : M conn (Z * payload) :=
  eid ← insert_audit_event "routing_toggled" operator ts
          ("routing " +:+ current +:+ " (was " +:+ previous +:+ ")");
  mret (eid, RoutingToggled previous current ts operator).

(** [deque(maxlen=n).append] *)
Definition deque_push {X} (n : nat) (q : list X) (x : X) : list X :=
  if n <=? length q then tail q ++ [x] else q ++ [x].

Definition buffer (eid : Z) (p : payload) (exc : exn) (appended : bool) : M world unit :=
  let name := match exc with PyError n => n | OperationalError _ => "OperationalError"
                           | IntegrityError => "IntegrityError" | _ => "Exception" end in
  on_host (λ h, set_pending
    (deque_push (max_pending h) (pending h) (mkPending eid p name appended))
    (Some name) h).

(** [with self._tx_lock: BEGIN IMMEDIATE; mark; COMMIT], rolled back on error. *)
Definition watermark (eid : Z) (ts : string) : M conn unit :=
  _ ← acquire;
  _ ← begin_immediate;
  rollback_on_error (_ ← mark_jsonl_appended eid ts; commit).

Definition append_jsonl_then_watermark (eid : Z) (p : payload) (ts : string)
  : M world unit :=
  appended ← except (_ ← append_event p; mret true)
                    (λ e, _ ← buffer eid p e false; mret false);
  if (appended : bool)
  then except (on_db (watermark eid ts)) (λ e, buffer eid p e true)
  else mret tt.

(** [drain_pending]'s loop; each turn removes the head or stops, so the length
    of the buffer bounds the number of turns. *)
Fixpoint drain_loop (fuel : nat) : M world nat := λ w,
  match fuel, pending (hst w) with
  | S fuel', head :: rest =>
      (appended ←
         (if pj_jsonl_appended head then mret true
          else except (_ ← append_event (pj_payload head); mret true)
                 (λ e, _ ← on_host (λ h, set_pending (pending h)
                              (Some (match e with PyError n => n | _ => "Exception" end)) h);
                       mret false));
       if (appended : bool)
       then
         _ ← on_host (λ h, set_pending
               (mkPending (pj_event_id head) (pj_payload head) (pj_failure head) true :: rest)
               (degraded_exc h) h);
         marked ← except (_ ← on_db (watermark (pj_event_id head)
                                       (payload_observed_at (pj_payload head)));
                          mret true) (λ _, mret false);
         if (marked : bool)
         then _ ← on_host (λ h, set_pending rest (degraded_exc h) h);
              n ← drain_loop fuel'; mret (S n)
         else mret 0
       else mret 0) w
  | _, _ => (Ok 0, w)
  end.

Definition drain_pending : M world nat :=
  w ← get;
  n ← drain_loop (length (pending (hst w)));
  _ ← on_host (λ h, match pending h with [] => set_pending [] None h | _ => h end);
  mret n.

Definition degraded (h : host) : bool := negb (bool_decide (length (pending h) = 0)).
