(* ===== verification/QueueSpec.v ===== *)
(** What the queue promises, independently of SQL: the lifecycle of one message
    as a small state machine, well-formedness of rows and tables, and the steps
    a table may take; and that the DAO implements it. *)

From S2P Require Import Prelude Errors Permissions Store QueueDao.

(** ** Lifecycle of one message *)

Inductive phase :=
| PQueued                                (* waiting to be picked *)
| PInFlight                              (* attempt stamped, no verdict yet *)
| PBlocked (br : option BlockReason)
| PDelivered
| PFailed (reason : option string)
| PCanceled.

Inductive phase_step : phase → phase → Prop :=
| ps_start : phase_step PQueued PInFlight
| ps_deliver : phase_step PInFlight PDelivered
| ps_fail reason : reason ∈ FAILURE_REASONS → phase_step PInFlight (PFailed (Some reason))
| ps_block br : phase_step PQueued (PBlocked (Some br))
| ps_approve br : phase_step (PBlocked br) PQueued
| ps_cancel_queued : phase_step PQueued PCanceled
| ps_cancel_blocked br : phase_step (PBlocked br) PCanceled.

Definition final (p : phase) : Prop :=
  match p with PDelivered | PFailed _ | PCanceled => True | _ => False end.

Lemma final_stuck p p' : final p → ¬ phase_step p p'.
Proof. intros Hf Hs. by destruct Hs. Qed.

(** ** Abstraction of a row *)

Definition phase_of (r : QueueRow) : phase :=
  match state r with
  | queued => if is_set (delivery_attempt_started_at r) then PInFlight else PQueued
  | blocked => PBlocked (block_reason r)
  | delivered => PDelivered
  | canceled => PCanceled
  | failed => PFailed (failure_reason r)
  end.

(** The columns captured at enqueue time. *)
Definition frozen_of (r : QueueRow) : QueueRow :=
  set_lifecycle r queued None None None None None None EmptyString None None None.

(** ** Well-formedness *)

Definition operator_triple (r : QueueRow) : Prop :=
  (operator_action r = None ∧ operator_action_at r = None ∧ operator_action_by r = None) ∨
  (is_Some (operator_action r) ∧ is_Some (operator_action_at r) ∧ is_Some (operator_action_by r)).

Definition lifecycle_ok (r : QueueRow) : Prop :=
  match state r with
  | queued =>
      block_reason r = None ∧ failure_reason r = None ∧ delivered_at r = None ∧
      failed_at r = None ∧ canceled_at r = None
  | blocked =>
      is_Some (block_reason r) ∧ failure_reason r = None ∧
      delivery_attempt_started_at r = None ∧ delivered_at r = None ∧
      failed_at r = None ∧ canceled_at r = None
  | delivered =>
      block_reason r = None ∧ failure_reason r = None ∧
      is_Some (delivery_attempt_started_at r) ∧ is_Some (delivered_at r) ∧
      failed_at r = None ∧ canceled_at r = None
  | failed =>
      block_reason r = None ∧ (∃ f, failure_reason r = Some f ∧ f ∈ FAILURE_REASONS) ∧
      is_Some (delivery_attempt_started_at r) ∧ delivered_at r = None ∧
      is_Some (failed_at r) ∧ canceled_at r = None
  | canceled =>
      block_reason r = None ∧ failure_reason r = None ∧
      delivery_attempt_started_at r = None ∧ delivered_at r = None ∧
      failed_at r = None ∧ is_Some (canceled_at r)
  end.

Definition wf_row (r : QueueRow) : Prop :=
  (0 < envelope_size_bytes r)%Z ∧ operator_triple r ∧ lifecycle_ok r.

Definition wf_queue (q : gmap string QueueRow) : Prop :=
  map_Forall (λ k r, message_id r = k ∧ wf_row r) q ∧
  ∀ k1 k2 r1 r2, q !! k1 = Some r1 → q !! k2 = Some r2 → k1 ≠ k2 →
    same_route_event r1 r2 = false.

(** ** Steps of a row and of the table *)

Inductive row_step : QueueRow → QueueRow → Prop :=
| rs_stamp ts r : ready r = true → row_step r (stamp_row ts r)
| rs_deliver ts r :
    state r = queued → in_flight r = true → row_step r (deliver_row ts r)
| rs_fail reason ts r :
    state r = queued → in_flight r = true → reason ∈ FAILURE_REASONS →
    row_step r (fail_row reason ts r)
| rs_recheck br ts r : ready r = true → row_step r (block_row br ts r)
| rs_approve op ts r :
    state r = blocked → in_flight r = false →
    row_step r (operator_row blocked queued act_approved None op ts r)
| rs_delay op ts r :
    state r = queued → in_flight r = false →
    row_step r (operator_row queued blocked act_delayed (Some operator_delayed) op ts r)
| rs_cancel op ts r :
    state r = queued ∨ state r = blocked → in_flight r = false →
    row_step r (cancel_row op ts r).

(** A row as the two insert paths create it. *)
Definition fresh_row (r : QueueRow) : Prop :=
  wf_row r ∧ (phase_of r = PQueued ∨ ∃ br, phase_of r = PBlocked (Some br)) ∧
  last_updated_at r = enqueued_at r.

Inductive queue_step : gmap string QueueRow → gmap string QueueRow → Prop :=
| qs_insert q r :
    q !! message_id r = None → fresh_row r →
    (∀ k r', q !! k = Some r' → same_route_event r r' = false) →
    queue_step q (<[message_id r := r]> q)
| qs_rows q q' :
    (∀ k, q !! k = None → q' !! k = None) →
    (∀ k r, q !! k = Some r → ∃ r', q' !! k = Some r' ∧ (r' = r ∨ row_step r r')) →
    queue_step q q'.

Definition queue_steps : relation (gmap string QueueRow) := rtc queue_step.

(** ** Lemmas on rows *)

Lemma frozen_set r st br fr s d f c u oa oat oby :
  frozen_of (set_lifecycle r st br fr s d f c u oa oat oby) = frozen_of r.
Proof. done. Qed.

Lemma frozen_message_id r r' : frozen_of r = frozen_of r' → message_id r = message_id r'.
Proof. intros H. exact (f_equal message_id H). Qed.

Lemma frozen_route_event r r' x :
  frozen_of r = frozen_of r' → same_route_event r x = same_route_event r' x.
Proof.
  intros H. unfold same_route_event.
  assert (origin r = origin r') as -> by exact (f_equal origin H).
  assert (row_route_id r = row_route_id r') as -> by exact (f_equal row_route_id H).
  assert (row_event_id r = row_event_id r') as -> by exact (f_equal row_event_id H). done.
Qed.

Lemma same_route_event_sym r x : same_route_event r x = same_route_event x r.
Proof.
  unfold same_route_event. rewrite (andb_comm (bool_decide (origin r = route))). f_equal.
  destruct (row_route_id r), (row_route_id x), (row_event_id r), (row_event_id x); try done.
  f_equal; apply bool_decide_ext; naive_solver.
Qed.

Lemma row_step_frozen r r' : row_step r r' → frozen_of r' = frozen_of r.
Proof. intros Hs. by destruct Hs. Qed.

Lemma ready_spec r :
  ready r = true ↔ state r = queued ∧ delivery_attempt_started_at r = None.
Proof.
  unfold ready, unset, is_set. rewrite andb_true_iff, bool_decide_eq_true.
  destruct (delivery_attempt_started_at r); naive_solver.
Qed.

Lemma in_flight_spec r :
  in_flight r = true ↔
  is_Some (delivery_attempt_started_at r) ∧ delivered_at r = None ∧
  failed_at r = None ∧ canceled_at r = None.
Proof.
  unfold in_flight, unset, is_set. unfold is_Some.
  destruct (delivery_attempt_started_at r), (delivered_at r), (failed_at r), (canceled_at r);
    simpl; naive_solver.
Qed.

(** A well-formed row satisfies every CHECK of the table. *)
Lemma wf_row_check r : wf_row r → check_row r = true.
Proof.
  intros (Hsz & Hop & Hl). unfold check_row.
  rewrite (proj2 (Z.ltb_lt _ _) Hsz).
  assert (((negb (is_set (operator_action r)) && negb (is_set (operator_action_at r)) &&
    negb (is_set (operator_action_by r))) ||
   (is_set (operator_action r) && is_set (operator_action_at r) &&
    is_set (operator_action_by r))) = true) as ->.
  { destruct Hop as [(-> & -> & ->)|([? ->] & [? ->] & [? ->])]; done. }
  unfold lifecycle_ok in Hl.
  destruct (state r); destruct_and!; destruct_or?;
    repeat match goal with
    | H : is_Some _ |- _ => destruct H as [? H]
    | H : ∃ _, _ |- _ => destruct H as (? & H & ?)
    | H : _ = _ |- _ => rewrite H
    end; simpl; rewrite ?bool_decide_true by done; done.
Qed.

(** Facts a guard gives about a well-formed row. *)
Lemma wf_queued_in_flight r :
  wf_row r → state r = queued →
  in_flight r = is_set (delivery_attempt_started_at r).
Proof.
  intros (_ & _ & Hl) Hs. unfold lifecycle_ok in Hl. rewrite Hs in Hl.
  destruct Hl as (_ & _ & Hd & Hf & Hc). unfold in_flight. rewrite Hd, Hf, Hc. simpl.
  by rewrite !andb_true_r.
Qed.

Lemma wf_blocked_not_in_flight r : wf_row r → state r = blocked → in_flight r = false.
Proof.
  intros (_ & _ & Hl) Hs. unfold lifecycle_ok in Hl. rewrite Hs in Hl.
  destruct Hl as (_ & _ & Ha & _). unfold in_flight. by rewrite Ha.
Qed.

(** In a well-formed table an in-flight row is a queued one. *)
Lemma wf_in_flight_queued r : wf_row r → in_flight r = true → state r = queued.
Proof.
  intros (_ & _ & Hl) (Ha & Hd & Hf & Hc)%in_flight_spec. unfold lifecycle_ok in Hl.
  destruct (state r); [done| | | |]; exfalso; destruct_and!;
    repeat match goal with H : is_Some _ |- _ => destruct H as [? H] end; congruence.
Qed.

Lemma row_step_wf r r' : row_step r r' → wf_row r → wf_row r'.
Proof.
  intros Hs (Hsz & Hop & Hl).
  destruct Hs as [ts r Hr|ts r Hq Hi|reason ts r Hq Hi Hin|br ts r Hr|op ts r Hb Hi
                 |op ts r Hq Hi|op ts r Hqb Hi].
  - apply ready_spec in Hr as [Hq Ha]. split_and!; [done..|].
    unfold lifecycle_ok in *. simpl. rewrite Hq in *. done.
  - apply in_flight_spec in Hi as (Ha & _). split_and!; [done..|].
    unfold lifecycle_ok in *. rewrite Hq in Hl. simpl. naive_solver.
  - apply in_flight_spec in Hi as (Ha & _). split_and!; [done..|].
    unfold lifecycle_ok in *. rewrite Hq in Hl. simpl. naive_solver.
  - apply ready_spec in Hr as [Hq Ha]. split_and!; [done..|].
    unfold lifecycle_ok in *. rewrite Hq in Hl. simpl. naive_solver.
  - split_and!; [done|right; simpl; eauto|].
    unfold lifecycle_ok in *. rewrite Hb in Hl. simpl. naive_solver.
  - rewrite wf_queued_in_flight in Hi by done. split_and!; [done|right; simpl; eauto|].
    unfold lifecycle_ok in *. rewrite Hq in Hl. simpl.
    destruct (delivery_attempt_started_at r); naive_solver.
  - assert (Ha : delivery_attempt_started_at r = None).
    { destruct Hqb as [Hq|Hb].
      - rewrite wf_queued_in_flight in Hi by done. by destruct (delivery_attempt_started_at r).
      - unfold lifecycle_ok in Hl. rewrite Hb in Hl. naive_solver. }
    split_and!; [done|right; simpl; eauto|].
    unfold lifecycle_ok in *. destruct Hqb as [Hq|Hq]; rewrite Hq in Hl; simpl; naive_solver.
Qed.

Lemma row_step_phase r r' : wf_row r → row_step r r' → phase_step (phase_of r) (phase_of r').
Proof.
  intros Hwf Hs.
  destruct Hs as [ts r Hr|ts r Hq Hi|reason ts r Hq Hi Hin|br ts r Hr|op ts r Hb Hi
                 |op ts r Hq Hi|op ts r Hqb Hi]; unfold phase_of; simpl.
  - apply ready_spec in Hr as [Hq Ha]. rewrite Hq, Ha. constructor.
  - rewrite wf_queued_in_flight in Hi by done. rewrite Hq, Hi. constructor.
  - rewrite wf_queued_in_flight in Hi by done. rewrite Hq, Hi. by constructor.
  - apply ready_spec in Hr as [Hq Ha]. rewrite Hq, Ha. constructor.
  - destruct Hwf as (_ & _ & Hl). unfold lifecycle_ok in Hl. rewrite Hb in *.
    destruct Hl as (_ & _ & Ha & _). rewrite Ha. constructor.
  - rewrite wf_queued_in_flight in Hi by done. rewrite Hq, Hi. constructor.
  - destruct Hqb as [Hq|Hb].
    + rewrite wf_queued_in_flight in Hi by done. rewrite Hq, Hi. constructor.
    + rewrite Hb. constructor.
Qed.

(** The stamp of a delivery attempt is written once and never erased. *)
Lemma row_step_started r r' ts :
  row_step r r' → delivery_attempt_started_at r = Some ts →
  delivery_attempt_started_at r' = Some ts.
Proof.
  intros Hs Ha. destruct Hs; simpl; try done.
  match goal with H : ready _ = true |- _ => apply ready_spec in H end. naive_solver.
Qed.

(** ** Lemmas on tables *)

Lemma queue_step_wf q q' : queue_step q q' → wf_queue q → wf_queue q'.
Proof.
  intros Hs [Hwf Hun]. destruct Hs as [q r Hnone Hfresh Hroute|q q' Hno Hrow].
  - destruct Hfresh as (Hr & _). split.
    + apply map_Forall_insert_2; [done|done].
    + intros k1 k2 r1 r2 H1 H2 Hne.
      rewrite lookup_insert in H1, H2. repeat case_decide; simplify_eq;
        first [by eapply Hroute | rewrite same_route_event_sym; by eapply Hroute | by eapply Hun].
  - assert (Hback : ∀ k r', q' !! k = Some r' → ∃ r, q !! k = Some r ∧ (r' = r ∨ row_step r r')).
    { intros k r' Hk. destruct (q !! k) as [r|] eqn:E.
      - apply Hrow in E as (r'' & Hk' & ?). simplify_eq. eauto.
      - apply Hno in E. congruence. }
    split.
    + intros k r' (r & Hk & Hr)%Hback. destruct (Hwf _ _ Hk) as [Hid Hw].
      destruct Hr as [->|Hr]; [done|]. split; [|by eapply row_step_wf].
      rewrite <- Hid. by apply frozen_message_id, row_step_frozen.
    + intros k1 k2 r1 r2 (x1 & Hk1 & Hx1)%Hback (x2 & Hk2 & Hx2)%Hback Hne.
      specialize (Hun _ _ _ _ Hk1 Hk2 Hne). rewrite <- Hun.
      assert (frozen_of r1 = frozen_of x1) as F1
        by (destruct Hx1 as [->|Hx1]; [done|by apply row_step_frozen]).
      assert (frozen_of r2 = frozen_of x2) as F2
        by (destruct Hx2 as [->|Hx2]; [done|by apply row_step_frozen]).
      rewrite (frozen_route_event _ _ _ F1), !(same_route_event_sym x1).
      by apply frozen_route_event.
Qed.

Lemma queue_steps_wf q q' : queue_steps q q' → wf_queue q → wf_queue q'.
Proof. induction 1; eauto using queue_step_wf. Qed.

(** A row never disappears; it evolves along [rtc row_step]. *)
Lemma queue_step_row q q' k r :
  queue_step q q' → q !! k = Some r →
  ∃ r', q' !! k = Some r' ∧ (r' = r ∨ row_step r r').
Proof.
  intros Hs Hk. destruct Hs as [q x Hnone _ _|q q' _ Hrow].
  - exists r. split; [|by left]. rewrite lookup_insert_ne; [done|]. congruence.
  - by apply Hrow.
Qed.

Lemma queue_steps_row q q' k r :
  queue_steps q q' → q !! k = Some r →
  ∃ r', q' !! k = Some r' ∧ rtc row_step r r'.
Proof.
  intros Hs. revert r. induction Hs as [q|q q1 q2 H1 _ IH]; intros r Hk.
  - exists r. split; [done|reflexivity].
  - destruct (queue_step_row _ _ _ _ H1 Hk) as (r1 & Hk1 & Hr).
    destruct (IH r1 Hk1) as (r2 & Hk2 & Hr2). exists r2. split; [done|].
    destruct Hr as [->|Hr]; [done|by eapply rtc_l].
Qed.

Lemma rtc_row_step_frozen r r' : rtc row_step r r' → frozen_of r' = frozen_of r.
Proof. induction 1 as [|? ? ? ?%row_step_frozen _ IH]; congruence. Qed.

Lemma rtc_row_step_started r r' ts :
  rtc row_step r r' → delivery_attempt_started_at r = Some ts →
  delivery_attempt_started_at r' = Some ts.
Proof. induction 1; eauto using row_step_started. Qed.

Lemma rtc_row_step_phase r r' :
  wf_row r → rtc row_step r r' → rtc phase_step (phase_of r) (phase_of r') ∧ wf_row r'.
Proof.
  intros Hwf Hs. induction Hs as [r|r r1 r2 H1 _ IH]; [done|].
  destruct (IH (row_step_wf _ _ H1 Hwf)) as [HP HW]. split; [|done].
  eapply rtc_l; [by apply row_step_phase|done].
Qed.

(** A row in a terminal state never changes again. *)
Lemma terminal_row_stuck r r' : wf_row r → terminal (state r) = true → ¬ row_step r r'.
Proof.
  intros Hwf Ht Hs. apply (row_step_phase _ _ Hwf) in Hs. eapply final_stuck, Hs.
  unfold phase_of. by destruct (state r).
Qed.

Lemma terminal_row_constant r r' :
  wf_row r → terminal (state r) = true → rtc row_step r r' → r' = r.
Proof.
  intros Hwf Ht Hs. destruct Hs as [|r r1 r2 H1 _]; [done|].
  by destruct (terminal_row_stuck r r1 Hwf Ht).
Qed.

(** An in-flight row can only be settled: operators cannot touch it. *)
Lemma in_flight_only_settles r r' :
  wf_row r → phase_of r = PInFlight → row_step r r' →
  (∃ ts, r' = deliver_row ts r) ∨
  (∃ reason ts, reason ∈ FAILURE_REASONS ∧ r' = fail_row reason ts r).
Proof.
  intros Hwf HP Hs. assert (state r = queued ∧ is_set (delivery_attempt_started_at r) = true)
    as [Hq Ha].
  { unfold phase_of in HP. destruct (state r); try done.
    by destruct (is_set (delivery_attempt_started_at r)). }
  pose proof (wf_queued_in_flight _ Hwf Hq) as Hi. rewrite Ha in Hi.
  destruct Hs; eauto 6; exfalso;
    repeat match goal with
    | H : ready _ = true |- _ => apply ready_spec in H as [_ H]; by rewrite H in Ha
    end; congruence.
Qed.

(** The DAO implements the queue specification: whatever the database engine
    answers, a method either commits exactly the transition it documents or
    commits nothing, and reports refusals with the right code. *)

(** ** Specifications of one transactional operation *)

Definition post {A} (R : db → A → db → Prop) (E : db → string → Prop) (c : conn)
    (o : outcome A) (c' : conn) : Prop :=
  others c' = others c ∧ (o ≠ Raise SystemExit → txn c' = None) ∧
  match o with
  | Ok a => R (committed c) a (committed c')
  | Raise e =>
      committed c' = committed c ∧
      ∀ code, e = QueueServiceError QSE code → E (committed c) code
  end.

(** From a well-formed table with no open transaction. *)
Definition op_spec {A} (R : db → A → db → Prop) (E : db → string → Prop)
    (op : M conn A) : Prop :=
  ∀ c, txn c = None → wf_queue (queue (committed c)) → wp op (post R E c) c.

(** Inside the transaction just begun. *)
Definition body_post {A} (R : db → A → db → Prop) (E : db → string → Prop) (c : conn)
    (o : outcome A) (c' : conn) : Prop :=
  others c' = others c ∧
  match o with
  | Ok a => txn c' = None ∧ R (committed c) a (committed c')
  | Raise e =>
      committed c' = committed c ∧
      (if is_queue_service_error e then txn c' = None else is_Some (txn c')) ∧
      ∀ code, e = QueueServiceError QSE code → E (committed c) code
  end.

Definition body_spec {A} (R : db → A → db → Prop) (E : db → string → Prop)
    (body : M conn A) : Prop :=
  ∀ c, txn c = Some (committed c) → wf_queue (queue (committed c)) →
  wp body (body_post R E c) c.

(** An audit callback: SQL on the open transaction that leaves the queue alone. *)
Definition callback_ok {A} (CB : db → A → db → Prop) (m : M conn A) : Prop :=
  ∀ c d, txn c = Some d →
  wp m (λ o c', committed c' = committed c ∧ others c' = others c ∧
    match o with
    | Ok a => ∃ d', txn c' = Some d' ∧ CB d a d' ∧ queue d' = queue d
    | Raise e => is_Some (txn c') ∧ is_queue_service_error e = false
    end) c.

Definition with_callback {A} (CB : db → A → db → Prop) (cb : option (M conn A))
    (d : db) (res : option A) (d' : db) : Prop :=
  match cb with
  | None => res = None ∧ d' = d
  | Some _ => ∃ a, res = Some a ∧ CB d a d' ∧ queue d' = queue d
  end.

Definition callback_ok_opt {A} (CB : db → A → db → Prop) (cb : option (M conn A)) : Prop :=
  match cb with None => True | Some m => callback_ok CB m end.

Lemma fault_not_qse f : is_queue_service_error (fault_exn f) = false.
Proof. by destruct f. Qed.

(** ** The transaction brackets *)

Lemma wp_refuse {A} d code (Q : outcome A → conn → Prop) c :
  txn c = Some d → Q (Raise (QueueServiceError QSE code)) (set_txn None c) →
  wp (refuse code) Q c.
Proof. intros Ht HQ. apply wp_bind. by eapply wp_rollback. Qed.

Section Brackets.
Context {A : Type} (R : db → A → db → Prop) (E : db → string → Prop).

Lemma begin_spec (bracket : M conn A → M conn A) body :
  (∀ c, txn c = Some (committed c) → wf_queue (queue (committed c)) →
        wp (bracket body) (post R E c) c) →
  op_spec R E (_ ← begin_immediate; bracket body).
Proof.
  intros Hb c Ht Hwf. apply wp_bind. apply wp_begin; [done| |].
  - intros fs. eapply wp_mono; [|by apply Hb]. done.
  - intros f fs. split_and!; [done..|]. intros code Hc. by destruct f.
Qed.

Lemma rollback_unless_closed_spec body c :
  wp body (body_post R E c) c → wp (rollback_unless_closed body) (post R E c) c.
Proof.
  intros Hb. apply wp_except. revert Hb. apply wp_mono. intros [a|e] c'.
  - intros (Ho & Ht & HR). by split_and!.
  - intros (Ho & Hc & Ht & HE). destruct (is_exception e) eqn:Hx.
    + destruct (is_queue_service_error e) eqn:Hq.
      * apply wp_throw. by split_and!.
      * destruct Ht as [d Hd]. apply wp_bind. eapply wp_rollback; [done|].
        apply wp_throw. by split_and!.
    + split_and!; [done|by destruct e|done..].
Qed.

(** A body that refuses nothing itself. *)
Lemma rollback_on_error_spec body c :
  wp body (λ o c', others c' = others c ∧
    match o with
    | Ok a => txn c' = None ∧ R (committed c) a (committed c')
    | Raise e => committed c' = committed c ∧ is_Some (txn c') ∧
                 is_queue_service_error e = false
    end) c →
  wp (rollback_on_error body) (post R E c) c.
Proof.
  intros Hb. apply wp_except. revert Hb. apply wp_mono. intros [a|e] c'.
  - intros (Ho & Ht & HR). by split_and!.
  - intros (Ho & Hc & [d Hd] & Hq). destruct (is_exception e) eqn:Hx.
    + apply wp_bind. eapply wp_rollback; [done|]. apply wp_throw.
      split_and!; [done..|]. by intros code ->.
    + split_and!; [done|by destruct e|done|]. by intros code ->.
Qed.

(** ** Retry *)

Lemma attempt_chain_spec op delays : op_spec R E op → op_spec R E (attempt_chain op delays).
Proof.
  intros Hop. induction delays as [|dl delays IH]; intros c Ht Hwf;
    apply wp_catch; (eapply wp_mono; [|by apply Hop]); intros [a|e] c' (Ho & Htx & Hr);
    [by split_and!| |by split_and!|];
    (destruct e as [| |msg| | | | | | | |]; try (apply wp_throw; by destruct Hr; split_and!));
    (destruct (negb (is_lock_message (Text.lower msg))); [apply wp_throw; by destruct Hr; split_and!|]).
  - apply wp_throw. destruct Hr as [Hc _]. split_and!; [done|by intros; apply Htx|done|]. by intros code.
  - apply wp_bind, wp_modify. destruct Hr as [Hc _].
    assert (Htn : txn c' = None) by by apply Htx.
    eapply wp_mono; [|apply IH; [done|simpl; by rewrite Hc]].
    intros o c'' (Ho' & Ht' & Hr'). simpl in *. rewrite Hc in Hr'.
    split_and!; [by rewrite Ho'|done|done].
Qed.

End Brackets.

(** The committed state once the lock is held. *)
Definition locked_db (c : conn) : db :=
  match others c with [] => committed c | f :: _ => f (committed c) end.

Lemma wp_acquire (Q : outcome unit → conn → Prop) c :
  Q (Ok tt) (mkConn (locked_db c) (txn c) (sql_faults c) (tail (others c)) (sleeps c) (captured c)) →
  wp acquire Q c.
Proof.
  unfold wp, acquire, locked_db. destruct (others c) as [|f rest] eqn:E; [|done].
  simpl. by rewrite <- E; destruct c.
Qed.

(** What the other holders of the lock may do. *)
Definition rely (c : conn) : Prop :=
  Forall (λ f, ∀ d, wf_queue (queue d) → queue_steps (queue d) (queue (f d))) (others c).

Definition dao_post {A} (R : db → A → db → Prop) (E : db → string → Prop) (c : conn)
    (o : outcome A) (c' : conn) : Prop :=
  others c' = tail (others c) ∧ (o ≠ Raise SystemExit → txn c' = None) ∧
  match o with
  | Ok a => R (locked_db c) a (committed c')
  | Raise e =>
      committed c' = locked_db c ∧
      ∀ code, e = QueueServiceError QSE code → E (locked_db c) code
  end.

Definition dao_spec {A} (R : db → A → db → Prop) (E : db → string → Prop)
    (m : M conn A) : Prop :=
  ∀ c, txn c = None → rely c → wf_queue (queue (committed c)) → wp m (dao_post R E c) c.

Lemma locked_db_steps c :
  rely c → wf_queue (queue (committed c)) →
  queue_steps (queue (committed c)) (queue (locked_db c)).
Proof.
  unfold rely, locked_db. destruct (others c) as [|f rest]; [reflexivity|].
  intros [Hf _]%Forall_cons Hwf. by apply Hf.
Qed.

Lemma with_lock_retry_spec {A} (R : db → A → db → Prop) E op :
  op_spec R E op → dao_spec R E (with_lock_retry op).
Proof.
  intros Hop c Ht Hrely Hwf. pose proof (locked_db_steps c Hrely Hwf) as Hst.
  apply queue_steps_wf in Hst; [|done]. apply wp_bind, wp_acquire.
  eapply wp_mono; [|by eapply attempt_chain_spec]. done.
Qed.

(** ** Updates of one row *)

Definition set_queue (q : gmap string QueueRow) (d : db) : db :=
  mkDb q (flag d) (events d) (events_seq d) (routes d).

Definition keys_ok (q : gmap string QueueRow) : Prop :=
  ∀ k r, q !! k = Some r → message_id r = k.

Lemma wf_keys_ok q : wf_queue q → keys_ok q.
Proof. intros [H _] k r Hk. by apply (H k r). Qed.

Lemma update_where_Ok p f d n d' :
  update_where p f d = Ok (n, d') →
  d' = set_queue (update_queue p f (queue d)) d ∧
  (∀ k r, queue d !! k = Some r → p r = true → check_row (f r) = true ∧ n ≠ 0) ∧
  (n ≠ 0 → ∃ k r, queue d !! k = Some r ∧ p r = true).
Proof.
  unfold update_where. case_match eqn:Hc; [|done]. intros. simplify_eq. split; [done|].
  split.
  - intros k r Hk Hp.
    assert ((k, r) ∈ filter (λ kr : string * QueueRow, p kr.2 = true) (map_to_list (queue d)))
      as Hin.
    { apply list_elem_of_filter. split; [done|]. by apply elem_of_map_to_list. }
    split.
    + rewrite forallb_forall in Hc. apply (Hc (k, r)). by apply list_elem_of_In.
    + intros Hz%length_zero_iff_nil. rewrite Hz in Hin. by apply not_elem_of_nil in Hin.
  - intros Hn. destruct (filter _ _) as [|[k r] l] eqn:E; [done|].
    assert ((k, r) ∈ filter (λ kr : string * QueueRow, p kr.2 = true) (map_to_list (queue d)))
      as [Hp Hin]%list_elem_of_filter by (rewrite E; by left).
    exists k, r. split; [by apply elem_of_map_to_list|done].
Qed.

Lemma update_where_Raise p f d e :
  update_where p f d = Raise e →
  e = IntegrityError ∧ ∃ k r, queue d !! k = Some r ∧ p r = true ∧ check_row (f r) = false.
Proof.
  unfold update_where. case_match eqn:Hc; [done|]. intros. simplify_eq. split; [done|].
  apply forallb_false_elem in Hc as ([k r] & [Hp Hin]%list_elem_of_filter & Hk).
  exists k, r. split_and!; [by apply elem_of_map_to_list|done..].
Qed.

Lemma update_queue_one mid g f (q : gmap string QueueRow) r :
  keys_ok q → q !! mid = Some r → g r = true →
  update_queue (λ r, id_is mid r && g r) f q = <[mid := f r]> q.
Proof.
  intros Hk Hr Hg. apply map_eq. intros k. unfold update_queue. rewrite lookup_fmap.
  destruct (decide (k = mid)) as [->|Hne].
  - rewrite lookup_insert_eq, Hr. simpl. unfold id_is.
    rewrite bool_decide_true by by apply Hk. by rewrite Hg.
  - rewrite lookup_insert_ne by done. destruct (q !! k) as [x|] eqn:E; [|done]. simpl.
    unfold id_is. rewrite bool_decide_false; [done|]. rewrite (Hk _ _ E). done.
Qed.

(** The row an update keyed by message id hits, if any. *)
Lemma update_one_cases mid g f d n d' :
  keys_ok (queue d) →
  update_where (λ r, id_is mid r && g r) f d = Ok (n, d') →
  (n = 0 ∧ ∀ r, queue d !! mid = Some r → g r = false) ∨
  (n ≠ 0 ∧ ∃ r, queue d !! mid = Some r ∧ g r = true ∧ check_row (f r) = true ∧
     d' = set_queue (<[mid := f r]> (queue d)) d).
Proof.
  intros Hk (-> & Hhit & Hex)%update_where_Ok. destruct (decide (n = 0)) as [->|Hn].
  - left. split; [done|]. intros r Hr. apply not_true_iff_false. intros Hg.
    destruct (Hhit mid r Hr) as [_ ?]; [|done]. unfold id_is.
    rewrite bool_decide_true by by apply Hk. done.
  - right. split; [done|]. destruct (Hex Hn) as (k & r & Hr & Hp).
    pose proof Hp as Hp'. apply andb_true_iff in Hp as [Hid Hg].
    apply bool_decide_eq_true in Hid. pose proof (Hk _ _ Hr) as Hkey.
    rewrite Hid in Hkey. subst k. exists r.
    split_and!; [done..|by apply (Hhit _ _ Hr Hp')|]. by rewrite (update_queue_one _ _ _ _ r).
Qed.

(** ** Generic operation: a guarded update of one row, then the audit *)

Section GuardedUpdate.
Context {A : Type} (CB : db → A → db → Prop) (cb : option (M conn A)).
Hypothesis Hcb : callback_ok_opt CB cb.

(** The row [mid] satisfied [g], became [f r], and the audit committed with it. *)
Definition moved (mid : string) (g : QueueRow → bool) (f : QueueRow → QueueRow)
    (d : db) (res : option A) (d' : db) : Prop :=
  ∃ r, queue d !! mid = Some r ∧ g r = true ∧ check_row (f r) = true ∧
       with_callback CB cb (set_queue (<[mid := f r]> (queue d)) d) res d'.

Lemma finish_wp c0 c d :
  txn c = Some d → committed c = committed c0 → others c = others c0 →
  wp (result ← run_callback cb; _ ← commit; mret result)
    (λ o c', others c' = others c0 ∧
       match o with
       | Ok res => txn c' = None ∧ with_callback CB cb d res (committed c')
       | Raise e => committed c' = committed c0 ∧ is_Some (txn c') ∧
                    is_queue_service_error e = false
       end) c.
Proof.
  intros Ht Hc Ho. apply wp_bind. unfold run_callback.
  unfold callback_ok_opt in Hcb. destruct cb as [m|] eqn:Em.
  - apply wp_bind. eapply wp_mono; [|by apply Hcb].
    intros [a|e] c' (Hc' & Ho' & Hr).
    + apply wp_ret, wp_bind. destruct Hr as (d' & Ht' & HCB & Hq).
      eapply wp_commit; [done| |].
      * intros fs. apply wp_ret. split; [simpl; congruence|]. split; [done|]. simpl. eauto.
      * intros f fs. split; [simpl; congruence|].
        split_and!; [simpl; congruence|simpl; eauto|by rewrite fault_not_qse].
    + destruct Hr as [Ht' Hq]. split; [congruence|]. by split_and!; [congruence|..].
  - apply wp_ret, wp_bind. eapply wp_commit; [done| |].
    + intros fs. apply wp_ret. by split_and!.
    + intros f fs. split; [done|].
      split_and!; [done|simpl; eauto|by rewrite fault_not_qse].
Qed.

Lemma finish_spec (R : db → option A → db → Prop) (E : db → string → Prop) c0 c d :
  txn c = Some d → committed c = committed c0 → others c = others c0 →
  (∀ res d', with_callback CB cb d res d' → R (committed c0) res d') →
  wp (result ← run_callback cb; _ ← commit; mret result) (body_post R E c0) c.
Proof.
  intros Ht Hc Ho HR. eapply wp_mono; [|by apply (finish_wp c0 c d)].
  intros [res|e] c' [Ho' Hr]; (split; [done|]).
  - destruct Hr as [? Hw]. split; [done|]. by apply HR.
  - destruct Hr as (? & ? & Hq). rewrite Hq. split_and!; [done..|]. by intros code ->.
Qed.

Lemma guarded_update_body mid g f code c0 c
    (R : db → option A → db → Prop) (E : db → string → Prop) :
  txn c = Some (committed c0) → committed c = committed c0 → others c = others c0 →
  keys_ok (queue (committed c0)) →
  (∀ res d', moved mid g f (committed c0) res d' → R (committed c0) res d') →
  ((∀ r, queue (committed c0) !! mid = Some r → g r = false) → E (committed c0) code) →
  wp (n ← sql_write (update_where (λ r, id_is mid r && g r) f);
      if n =? 0 then refuse code
      else result ← run_callback cb; _ ← commit; mret result)
     (body_post R E c0) c.
Proof.
  intros Ht Hc Ho Hk HR HE. apply wp_bind. eapply wp_sql_write; [done| | |].
  - intros n d' fs Hu. destruct (update_one_cases _ _ _ _ _ _ Hk Hu)
      as [[-> Hno]|(Hn & r & Hr & Hg & Hck & ->)].
    + simpl. eapply wp_refuse; [done|]. split; [done|]. split_and!; [done..|].
      intros code' Hc'. simplify_eq. by apply HE.
    + rewrite (proj2 (Nat.eqb_neq _ _) Hn). eapply finish_spec; [done..|].
      intros res d'' Hw. apply HR. by exists r.
  - intros e fs [-> _]%update_where_Raise. split; [done|]. split_and!; [done|simpl; eauto|].
    by intros code'.
  - intros f' fs. split; [done|]. split_and!; [done| |].
    + rewrite fault_not_qse. simpl. eauto.
    + intros code' Hc'. by destruct f'.
Qed.

End GuardedUpdate.

(** ** The methods *)

(** Close a failed statement inside a transaction body. *)
Ltac body_fault :=
  match goal with
  | f : sql_fault |- _ =>
      split; [done|]; split_and!; [done| |intros ? Hcode; by destruct f];
      rewrite fault_not_qse; simpl; eauto
  end.

Lemma stamp_spec mid ts :
  dao_spec
    (λ d _ d', ∃ r, queue d !! mid = Some r ∧ ready r = true ∧
                    d' = set_queue (<[mid := stamp_row ts r]> (queue d)) d)
    (λ d code, code = "delivery_in_progress" ∧
               ∀ r, queue d !! mid = Some r → ready r = false)
    (stamp_delivery_attempt_started mid ts).
Proof.
  apply with_lock_retry_spec. apply (begin_spec _ _ rollback_unless_closed).
  intros c Ht Hwf. apply rollback_unless_closed_spec. apply wp_bind.
  eapply wp_sql_write; [done| | |].
  - intros n d' fs Hu.
    destruct (update_one_cases _ _ _ _ _ _ (wf_keys_ok _ Hwf) Hu)
      as [[-> Hno]|(Hn & r & Hr & Hg & Hck & ->)].
    + simpl. eapply wp_refuse; [done|]. split; [done|]. split_and!; [done..|].
      intros code Hc. by simplify_eq.
    + rewrite (proj2 (Nat.eqb_neq _ _) Hn). eapply wp_commit; [done| |].
      * intros fs'. split; [done|]. split; [done|]. by exists r.
      * intros f fs'. body_fault.
  - intros e fs [-> _]%update_where_Raise. split; [done|]. split_and!; [done|simpl; eauto|].
    by intros code.
  - intros f fs. body_fault.
Qed.

Section Methods.
Context {A : Type} (CB : db → A → db → Prop) (cb : option (M conn A)).
Hypothesis Hcb : callback_ok_opt CB cb.

Lemma terminal_transition_spec mid f :
  dao_spec
    (moved CB cb mid (λ r, bool_decide (state r = queued) && in_flight r) f)
    (λ d code, code = "message_id_not_found" ∧
       ∀ r, queue d !! mid = Some r → bool_decide (state r = queued) && in_flight r = false)
    (terminal_transition_from_in_flight mid f cb).
Proof.
  apply with_lock_retry_spec. apply (begin_spec _ _ rollback_unless_closed).
  intros c Ht Hwf. apply rollback_unless_closed_spec.
  eapply guarded_update_body; try done. by apply wf_keys_ok.
Qed.

Lemma recheck_spec mid br ts :
  dao_spec (moved CB cb mid ready (block_row br ts))
    (λ d code, code = "message_id_not_found" ∧
               ∀ r, queue d !! mid = Some r → ready r = false)
    (transition_queued_to_blocked_re_check mid br ts cb).
Proof.
  apply with_lock_retry_spec. apply (begin_spec _ _ rollback_unless_closed).
  intros c Ht Hwf. apply rollback_unless_closed_spec.
  eapply guarded_update_body; try done. by apply wf_keys_ok.
Qed.

(** Which refusal an operator action gets. *)
Definition operator_refusal (mid : string) (applicable : QState → bool)
    (otherwise : string) (d : db) (code : string) : Prop :=
  match queue d !! mid with
  | None => code = "message_id_not_found"
  | Some r =>
      if terminal (state r) then code = "terminal_state_cannot_change"
      else if in_flight r then code = "delivery_in_progress"
      else applicable (state r) = false ∧ code = otherwise
  end.

Lemma operator_transition_spec mid operator ts from to act br_new :
  terminal from = false →
  dao_spec
    (λ d res d', ∃ r, queue d !! mid = Some r ∧ state r = from ∧ in_flight r = false ∧
       moved CB cb mid (λ r, bool_decide (state r = from))
         (operator_row from to act br_new operator ts) d res d')
    (operator_refusal mid (λ s, bool_decide (s = from)) (not_applicable_code act))
    (operator_transition mid operator ts from to act br_new cb).
Proof.
  intros Hfrom. apply with_lock_retry_spec. apply (begin_spec _ _ rollback_unless_closed).
  intros c Ht Hwf. apply rollback_unless_closed_spec. apply wp_bind.
  apply wp_sql_read; [|intros f fs; body_fault].
  intros fs. unfold view. rewrite Ht. simpl. unfold operator_refusal.
  destruct (queue (committed c) !! mid) as [r|] eqn:Hr.
  2:{ eapply wp_refuse; [done|]. split; [done|]. split_and!; [done..|].
      intros code Hc. simplify_eq. by rewrite Hr. }
  destruct (terminal (state r)) eqn:Hterm.
  { eapply wp_refuse; [done|]. split; [done|]. split_and!; [done..|].
    intros code Hc. simplify_eq. by rewrite Hr, Hterm. }
  destruct (in_flight r) eqn:Hfl.
  { eapply wp_refuse; [done|]. split; [done|]. split_and!; [done..|].
    intros code Hc. simplify_eq. by rewrite Hr, Hterm, Hfl. }
  destruct (bool_decide (state r = from)) eqn:Hst; simpl.
  - apply bool_decide_eq_true in Hst.
    eapply (guarded_update_body CB cb Hcb _ (λ r, bool_decide (state r = from)));
      [done..|by apply wf_keys_ok| |].
    + intros res d' Hm. exists r. by split_and!.
    + intros Hno. specialize (Hno _ Hr). simpl in Hno.
      by rewrite bool_decide_true in Hno.
  - eapply wp_refuse; [done|]. split; [done|]. split_and!; [done..|].
    intros code Hc. simplify_eq. by rewrite Hr, Hterm, Hfl, Hst.
Qed.

Lemma cancel_spec mid operator ts :
  dao_spec
    (λ d res d', ∃ r, queue d !! mid = Some r ∧ in_flight r = false ∧
       moved CB cb mid (λ r, bool_decide (state r = queued) || bool_decide (state r = blocked))
         (cancel_row operator ts) d res d')
    (operator_refusal mid (λ s, negb (terminal s)) "message_id_not_found")
    (transition_to_canceled mid operator ts cb).
Proof.
  apply with_lock_retry_spec. apply (begin_spec _ _ rollback_unless_closed).
  intros c Ht Hwf. apply rollback_unless_closed_spec. apply wp_bind.
  apply wp_sql_read; [|intros f fs; body_fault].
  intros fs. unfold view. rewrite Ht. simpl. unfold operator_refusal.
  destruct (queue (committed c) !! mid) as [r|] eqn:Hr.
  2:{ eapply wp_refuse; [done|]. split; [done|]. split_and!; [done..|].
      intros code Hc. simplify_eq. by rewrite Hr. }
  destruct (terminal (state r)) eqn:Hterm.
  { eapply wp_refuse; [done|]. split; [done|]. split_and!; [done..|].
    intros code Hc. simplify_eq. by rewrite Hr, Hterm. }
  destruct (in_flight r) eqn:Hfl.
  { eapply wp_refuse; [done|]. split; [done|]. split_and!; [done..|].
    intros code Hc. simplify_eq. by rewrite Hr, Hterm, Hfl. }
  eapply (guarded_update_body CB cb Hcb _
    (λ r, bool_decide (state r = queued) || bool_decide (state r = blocked)));
    [done..|by apply wf_keys_ok| |].
  - intros res d' Hm. exists r. by split_and!.
  - intros Hno. specialize (Hno _ Hr). simpl in Hno. by destruct (state r).
Qed.

Lemma insert_row_Ok r d u d' :
  insert_row r d = Ok (u, d') →
  queue d !! message_id r = None ∧ check_row r = true ∧
  (∀ k x, queue d !! k = Some x → same_route_event r x = false) ∧
  d' = set_queue (<[message_id r := r]> (queue d)) d.
Proof.
  unfold insert_row. destruct (queue d !! message_id r) eqn:E; [done|].
  destruct (check_row r); [|done]. simpl.
  destruct (existsb _ _) eqn:Hex; [done|]. simpl. intros. simplify_eq.
  split_and!; [done..| |done]. intros k x Hk. apply not_true_iff_false. intros Hs.
  apply not_true_iff_false in Hex. apply Hex. apply existsb_exists. exists (k, x).
  split; [|done]. apply list_elem_of_In. by apply elem_of_map_to_list.
Qed.

Lemma insert_row_Raise r d e : insert_row r d = Raise e → e = IntegrityError.
Proof. unfold insert_row. repeat case_match; naive_solver. Qed.

Lemma insert_spec st br mid sender target body sha size ts org rid eid :
  dao_spec
    (λ d res d', ∃ loc, p_location target = Some loc ∧
       let r := new_row mid st br sender target loc body sha size ts org rid eid in
       queue d !! mid = None ∧ check_row r = true ∧
       (∀ k x, queue d !! k = Some x → same_route_event r x = false) ∧
       with_callback CB cb (set_queue (<[mid := r]> (queue d)) d) res d')
    (λ _ _, False)
    (with_lock_retry (insert_with st br mid sender target body sha size ts org rid eid cb)).
Proof.
  apply with_lock_retry_spec. apply (begin_spec _ _ rollback_on_error).
  intros c Ht Hwf. apply rollback_on_error_spec.
  destruct (p_location target) as [loc|] eqn:Hl.
  2:{ apply wp_throw. split; [done|]. split_and!; [done|rewrite Ht; eauto|done]. }
  apply wp_bind. eapply wp_sql_write; [done| | |].
  - intros u d' fs (Hn & Hck & Hre & ->)%insert_row_Ok.
    eapply wp_mono; [|by eapply (finish_wp CB cb Hcb c)].
    intros [res|e] c' [Ho Hr]; (split; [done|]); [|done].
    destruct Hr as [Htn HW]. split; [done|]. exists loc. by split_and!.
  - intros e fs ->%insert_row_Raise. split; [done|]. split_and!; [done|simpl; eauto|done].
  - intros f fs. split; [done|].
    split_and!; [done|simpl; eauto|by rewrite fault_not_qse].
Qed.

End Methods.

Definition recovered_queue (ts : string) (q : gmap string QueueRow) : gmap string QueueRow :=
  update_queue in_flight (fail_row "attempt_interrupted" ts) q.

Lemma recover_spec (CB : db → unit → db → Prop) (cb : option (nat → M conn unit)) ts :
  (∀ k n, cb = Some k → callback_ok CB (k n)) →
  dao_spec
    (λ d _ d', let d1 := set_queue (recovered_queue ts (queue d)) d in
       match cb with
       | None => d' = d1
       | Some _ => CB d1 tt d' ∧ queue d' = queue d1
       end)
    (λ _ _, False)
    (recover_in_flight_rows ts cb).
Proof.
  intros Hcb. apply with_lock_retry_spec. apply (begin_spec _ _ rollback_on_error).
  intros c Ht Hwf. apply rollback_on_error_spec. apply wp_bind.
  eapply wp_sql_write; [done| | |].
  - intros n d' fs (-> & _)%update_where_Ok. apply wp_bind. destruct cb as [k|].
    + eapply wp_mono; [|by apply Hcb]. intros [[]|e] c' (Hc' & Ho' & Hr).
      * apply wp_bind. destruct Hr as (d' & Ht' & HCB & Hq). eapply wp_commit; [done| |].
        -- intros fs'. apply wp_ret. by split_and!.
        -- intros f fs'. split; [done|].
           split_and!; [done|simpl; eauto|by rewrite fault_not_qse].
      * split; [done|]. destruct Hr as [? ?]. by split_and!.
    + apply wp_ret, wp_bind. eapply wp_commit; [done| |].
      * intros fs'. apply wp_ret. by split_and!.
      * intros f fs'. split; [done|].
        split_and!; [done|simpl; eauto|by rewrite fault_not_qse].
  - intros e fs [-> _]%update_where_Raise. split; [done|]. split_and!; [done|simpl; eauto|done].
  - intros f fs. split; [done|]. split_and!; [done|simpl; eauto|by rewrite fault_not_qse].
Qed.

(** ** From row updates to steps of the table *)

Lemma insert_step (q : gmap string QueueRow) k r r' :
  q !! k = Some r → row_step r r' → queue_step q (<[k := r']> q).
Proof.
  intros Hk Hs. apply qs_rows.
  - intros k' Hn. rewrite lookup_insert_ne; [done|]. congruence.
  - intros k' x Hx. destruct (decide (k' = k)) as [->|Hne].
    + rewrite lookup_insert_eq. simplify_eq. eauto.
    + rewrite lookup_insert_ne by done. eauto.
Qed.

Lemma with_callback_queue {A} (CB : db → A → db → Prop) cb d res d' :
  with_callback CB cb d res d' → queue d' = queue d.
Proof. unfold with_callback. destruct cb; naive_solver. Qed.

Lemma moved_step {A} (CB : db → A → db → Prop) cb mid g f d res d' :
  wf_queue (queue d) →
  (∀ r, wf_row r → g r = true → check_row (f r) = true → row_step r (f r)) →
  moved CB cb mid g f d res d' → queue_step (queue d) (queue d').
Proof.
  intros [Hwf _] Hstep (r & Hr & Hg & Hck & Hw). apply with_callback_queue in Hw.
  rewrite Hw. simpl. eapply insert_step; [done|]. apply Hstep; [|done..].
  by apply (Hwf mid r).
Qed.

(** The CHECK on [failure_reason] closes the set of reasons. *)
Lemma check_fail_row reason ts r :
  check_row (fail_row reason ts r) = true → reason ∈ FAILURE_REASONS.
Proof.
  unfold check_row. simpl. intros H. do 7 (apply andb_true_iff in H as [H _]).
  by apply bool_decide_eq_true in H.
Qed.

Lemma fresh_new_row mid st br sender target loc body sha size ts org rid eid :
  (st = queued ∧ br = None ∨ st = blocked ∧ is_Some br) →
  let r := new_row mid st br sender target loc body sha size ts org rid eid in
  check_row r = true → fresh_row r.
Proof.
  intros Hst r Hck. unfold check_row in Hck. simpl in Hck.
  apply andb_true_iff in Hck as [Hck _]. repeat apply andb_true_iff in Hck as [Hck _].
  apply Z.ltb_lt in Hck.
  split; [split_and!; [done|by left|]|split; [|done]];
    destruct Hst as [[Hst Hbr]|[Hst [b Hbr]]]; subst; unfold lifecycle_ok, phase_of; simpl.
  - done.
  - split_and!; [by eexists|done..].
  - by left.
  - right. by exists b.
Qed.

Lemma recovered_step ts q : wf_queue q → queue_step q (recovered_queue ts q).
Proof.
  intros [Hwf _]. apply qs_rows; intros k; unfold recovered_queue, update_queue; rewrite lookup_fmap.
  - by intros ->.
  - intros r Hk. rewrite Hk. simpl. eexists; split; [done|].
    destruct (in_flight r) eqn:Hf; [right|by left].
    destruct (Hwf _ _ Hk) as [_ Hr]. apply rs_fail; [by apply wf_in_flight_queued|done|].
    unfold FAILURE_REASONS. by left.
Qed.
