(* ===== verification/QueueSession.v ===== *)
(** Sessions of DAO calls with the daemon's own audit callback: the refinement
    theorem of the queue and the properties of message lifecycles that follow
    from it, whatever the engine answers and whenever the process dies. *)

From S2P Require Import Prelude Errors Permissions Store QueueDao AuditWriter QueueSpec.

(** ** The audit callback *)

(** The events row the audit of [p] adds. *)
Definition audited (p : QueuePayload) (d : db) (a : Z * payload) (d' : db) : Prop :=
  ∃ target, qp_target p = Some target ∧
  a = ((events_seq d + 1)%Z, QueueTransition p) ∧
  d' = mkDb (queue d) (flag d)
         (events d ++ [mkEvent (events_seq d + 1) (qp_event_type p) (p_agent_id target)
                         (qp_observed_at p) (qp_excerpt p) None])
         (events_seq d + 1) (routes d).

Lemma audit_callback_ok p : callback_ok (audited p) (insert_queue_transition_in_tx p).
Proof.
  intros c d Ht. unfold insert_queue_transition_in_tx.
  destruct (negb _); [apply wp_throw; by rewrite Ht; eauto|].
  destruct (qp_target p) as [target|] eqn:Htg; [|apply wp_throw; by rewrite Ht; eauto].
  apply wp_bind. unfold insert_audit_event.
  destruct (_ || _); [|apply wp_throw; by rewrite Ht; eauto].
  eapply wp_sql_write; [done| | |].
  - intros a d' fs Hi. apply wp_ret. split_and!; [done..|].
    unfold insert_event_row in Hi. case_match; [|done]. simplify_eq.
    eexists. split_and!; [done| |done]. by exists target.
  - intros e fs Hi. unfold insert_event_row in Hi. case_match; [done|]. simplify_eq.
    split_and!; [done..|simpl; eauto|done].
  - intros f fs. split_and!; [done..|simpl; eauto|]. apply fault_not_qse.
Qed.

(** ** One call of the DAO *)

Inductive dao_call :=
| CInsertQueued (mid : string) (sender target : Party) (body sha : string) (size : Z)
    (ts : string) (org : Origin) (rid : option string) (eid : option Z)
| CInsertBlocked (mid : string) (sender target : Party) (body sha : string) (size : Z)
    (ts : string) (br : BlockReason) (org : Origin) (rid : option string) (eid : option Z)
| CStamp (mid ts : string)
| CDelivered (mid ts : string)
| CFailed (mid reason ts : string)
| CBlockedRecheck (mid : string) (br : BlockReason) (ts : string)
| CApprove (mid operator ts : string)
| CDelay (mid operator ts : string)
| CCancel (mid operator ts : string)
| CRecover (ts : string).

Definition discard {S A} (m : M S A) : M S unit := _ ← m; mret tt.

(** Each call with the audit row [p] in its transaction, where the method takes
    one. *)
Definition run_call (p : QueuePayload) (call : dao_call) : M conn unit :=
  let cb := Some (insert_queue_transition_in_tx p) in
  match call with
  | CInsertQueued mid s t body sha size ts org rid eid =>
      discard (insert_queued mid s t body sha size ts org rid eid cb)
  | CInsertBlocked mid s t body sha size ts br org rid eid =>
      discard (insert_blocked mid s t body sha size ts br org rid eid cb)
  | CStamp mid ts => stamp_delivery_attempt_started mid ts
  | CDelivered mid ts => discard (transition_queued_to_delivered mid ts cb)
  | CFailed mid reason ts => discard (transition_queued_to_failed mid reason ts cb)
  | CBlockedRecheck mid br ts => discard (transition_queued_to_blocked_re_check mid br ts cb)
  | CApprove mid op ts => discard (transition_blocked_to_queued_approve mid op ts cb)
  | CDelay mid op ts => discard (transition_queued_to_blocked_delay mid op ts cb)
  | CCancel mid op ts => discard (transition_to_canceled mid op ts cb)
  | CRecover ts =>
      discard (recover_in_flight_rows ts
                 (Some (λ _, discard (insert_queue_transition_in_tx p))))
  end.

(** ** Every call is at most one step *)

Section OneCall.
Variable p : QueuePayload.

(** Postcondition: the queue took at most one step after the lock was obtained. *)
Definition one_step (c : conn) (o : outcome unit) (c' : conn) : Prop :=
  others c' = tail (others c) ∧ (o ≠ Raise SystemExit → txn c' = None) ∧
  match o with
  | Ok _ => queue_step (queue (locked_db c)) (queue (committed c'))
  | Raise _ => committed c' = locked_db c
  end.

Lemma discard_one_step {A} (R : db → A → db → Prop) E (m : M conn A) c :
  dao_spec R E m → txn c = None → rely c → wf_queue (queue (committed c)) →
  (∀ d a d', wf_queue (queue d) → R d a d' → queue_step (queue d) (queue d')) →
  wp (discard m) (one_step c) c.
Proof.
  intros Hm Ht Hrely Hwf HR. apply wp_bind. eapply wp_mono; [|by apply Hm].
  assert (Hl : wf_queue (queue (locked_db c)))
    by (eapply queue_steps_wf; [by apply locked_db_steps|done]).
  intros [a|e] c' (Ho & Htx & Hr).
  - apply wp_ret. split_and!; [done|by intros; apply Htx|]. by eapply HR.
  - destruct Hr as [Hc _]. split_and!; [done| |done].
    intros Hne. apply Htx. intros [= ->]. done.
Qed.

Lemma callback_discard :
  callback_ok (λ d _ d', ∃ a, audited p d a d') (discard (insert_queue_transition_in_tx p)).
Proof.
  intros c d Ht. apply wp_bind. eapply wp_mono; [|by apply audit_callback_ok].
  intros [a|e] c' (? & ? & Hr); [|done]. apply wp_ret. split_and!; [done..|].
  destruct Hr as (d' & ? & ? & ?). eauto 6.
Qed.

Lemma run_call_one_step call c :
  txn c = None → rely c → wf_queue (queue (committed c)) →
  wp (run_call p call) (one_step c) c.
Proof.
  intros Ht Hrely Hwf. 
  assert (Hcb : callback_ok_opt (audited p) (Some (insert_queue_transition_in_tx p)))
    by apply audit_callback_ok.
  destruct call; simpl;
    try (eapply discard_one_step; [|done..|]).
  - apply (insert_spec _ _ Hcb).
  - intros d a d' Hd (loc & _ & Hn & Hck & Hre & Hw). apply with_callback_queue in Hw.
    rewrite Hw. eapply (qs_insert _ (new_row _ _ _ _ _ _ _ _ _ _ _ _ _)); [done| |done].
    apply fresh_new_row; [by left|done].
  - apply (insert_spec _ _ Hcb).
  - intros d a d' Hd (loc & _ & Hn & Hck & Hre & Hw). apply with_callback_queue in Hw.
    rewrite Hw. eapply (qs_insert _ (new_row _ _ _ _ _ _ _ _ _ _ _ _ _)); [done| |done].
    apply fresh_new_row; [right; by eauto|done].
  - eapply wp_mono; [|by apply stamp_spec].
    intros [a|e] c' (Ho & Htx & Hr); (split_and!; [done..|]); [|by destruct Hr].
    destruct Hr as (r & Hr & Hready & ->). eapply insert_step; [done|]. by apply rs_stamp.
  - apply (terminal_transition_spec _ _ Hcb).
  - intros d a d' Hd. apply moved_step; [done|].
    intros r _ [Hq Hf]%andb_true_iff _. apply bool_decide_eq_true in Hq. by apply rs_deliver.
  - apply (terminal_transition_spec _ _ Hcb).
  - intros d a d' Hd. apply moved_step; [done|].
    intros r _ [Hq Hf]%andb_true_iff Hck. apply bool_decide_eq_true in Hq.
    apply rs_fail; [done..|]. by eapply check_fail_row.
  - apply (recheck_spec _ _ Hcb).
  - intros d a d' Hd. apply moved_step; [done|]. intros. by apply rs_recheck.
  - by apply (operator_transition_spec _ _ Hcb).
  - intros d a d' Hd (r & Hr & Hst & Hfl & Hm). revert Hm. apply moved_step; [done|].
    intros x Hx Hb%bool_decide_eq_true _. apply rs_approve; [done|].
    by apply wf_blocked_not_in_flight.
  - by apply (operator_transition_spec _ _ Hcb).
  - intros d a d' Hd (r & Hr & Hst & Hfl & (x & Hx & Hg & Hck & Hw)).
    simplify_eq. apply with_callback_queue in Hw. rewrite Hw.
    eapply insert_step; [done|]. by apply rs_delay.
  - apply (cancel_spec _ _ Hcb).
  - intros d a d' Hd (r & Hr & Hfl & (x & Hx & Hg & Hck & Hw)).
    simplify_eq. apply with_callback_queue in Hw. rewrite Hw.
    eapply insert_step; [done|]. apply rs_cancel; [|done].
    apply orb_true_iff in Hg as [Hg|Hg]; apply bool_decide_eq_true in Hg; auto.
  - apply (recover_spec (λ d _ d', ∃ a, audited p d a d')).
    intros k n [= <-]. apply callback_discard.
  - intros d a d' Hd [_ Hq]. rewrite Hq. by apply recovered_step.
Qed.
End OneCall.

(** ** Sessions

A session is any sequence of calls by this process; between them the other
holders of the lock do what [rely] allows, and a death of the process loses the
open transaction. *)

Definition serve (c : conn) (step : QueuePayload * dao_call) : conn :=
  match run_call step.1 step.2 c with
  | (Raise SystemExit, c') => set_txn None c'
  | (_, c') => c'
  end.

Definition session (c : conn) (steps : list (QueuePayload * dao_call)) : conn :=
  fold_left serve steps c.

Definition steady (c : conn) : Prop :=
  txn c = None ∧ rely c ∧ wf_queue (queue (committed c)).

Lemma serve_steady c step :
  steady c → steady (serve c step) ∧
  queue_steps (queue (committed c)) (queue (committed (serve c step))).
Proof.
  intros (Ht & Hrely & Hwf).
  pose proof (run_call_one_step step.1 step.2 c Ht Hrely Hwf) as H. unfold wp in H.
  pose proof (locked_db_steps c Hrely Hwf) as Hl.
  unfold serve. destruct (run_call step.1 step.2 c) as [o c'].
  destruct H as (Ho & Htx & Hr). simpl in *.
  assert (Hq : queue_steps (queue (committed c)) (queue (committed c'))).
  { destruct o as [u|e]; [|by rewrite Hr]. eapply rtc_r; [done|done]. }
  assert (Hw : wf_queue (queue (committed c'))) by by eapply queue_steps_wf.
  assert (Hrely' : rely c').
  { unfold rely in *. rewrite Ho. destruct (others c); [done|]. by apply Forall_cons in Hrely as []. }
  destruct o as [u|e]; [split; [split_and!; [by apply Htx|done..]|done]|].
  destruct e; (split; [split_and!; [first [done|by apply Htx]|done..]|done]).
Qed.

Lemma session_steady c steps :
  steady c → steady (session c steps) ∧
  queue_steps (queue (committed c)) (queue (committed (session c steps))).
Proof.
  revert c. induction steps as [|s steps IH]; intros c Hc; [split; [done|reflexivity]|].
  destruct (serve_steady c s Hc) as [Hc1 H1].
  destruct (IH _ Hc1) as [Hc2 H2]. split; [done|]. by etrans.
Qed.

(** ** Order of the queue *)

#[export] Instance queue_le_total : Total queue_le.
Proof.
  intros r1 r2. unfold queue_le. destruct (decide (enqueued_at r1 = enqueued_at r2)) as [E|E].
  - rewrite decide_True by done. apply (total String.le).
  - rewrite decide_False by done. apply (total String.le).
Qed.

#[export] Instance queue_le_trans : Transitive queue_le.
Proof.
  intros r1 r2 r3. unfold queue_le.
  destruct (decide (enqueued_at r1 = enqueued_at r2)) as [E1|E1],
    (decide (enqueued_at r2 = enqueued_at r3)) as [E2|E2],
    (decide (enqueued_at r1 = enqueued_at r3)) as [E3|E3]; try congruence.
  - apply (transitivity (R := String.le)).
  - intros H1 H2. exfalso. apply E1. rewrite <- E3 in H2. by apply (anti_symm String.le).
  - apply (transitivity (R := String.le)).
Qed.

Lemma elem_rows_where g d r :
  r ∈ rows_where g d ↔ g r = true ∧ ∃ k, queue d !! k = Some r.
Proof.
  unfold rows_where. rewrite list_elem_of_filter, list_elem_of_fmap.
  split; intros [Hg H]; (split; [done|]).
  - destruct H as ([k x] & -> & Hin). exists k. by apply elem_of_map_to_list.
  - destruct H as [k Hk]. exists (k, r). split; [done|]. by apply elem_of_map_to_list.
Qed.

Lemma NoDup_rows_where g d : keys_ok (queue d) → NoDup (rows_where g d).
Proof.
  intros Hk. apply NoDup_filter, NoDup_fmap_2_strong; [|apply NoDup_map_to_list].
  intros [k1 r1] [k2 r2] H1%elem_of_map_to_list H2%elem_of_map_to_list E. simpl in E.
  f_equal; [|done]. by rewrite <- (Hk _ _ H1), <- (Hk _ _ H2), E.
Qed.

(** A page keeps the front of a sorted list. *)
Lemma sorted_page {X} (R : relation X) (l : list X) n x :
  StronglySorted R l → x ∈ l →
  x ∈ take n l ∨ length (take n l) = n ∧ ∀ y, y ∈ take n l → R y x.
Proof.
  intros Hs Hx. rewrite <- (take_drop n l) in Hs, Hx.
  apply elem_of_app in Hx as [Hx|Hx]; [by left|right]. split.
  - apply length_take_le. destruct (decide (n ≤ length l)); [done|].
    rewrite drop_ge in Hx by lia. by apply not_elem_of_nil in Hx.
  - intros y Hy. by eapply StronglySorted_app_1_elem_of.
Qed.

Lemma StronglySorted_take {X} (R : relation X) (l : list X) n :
  StronglySorted R l → StronglySorted R (take n l).
Proof. rewrite <- (take_drop n l) at 1. apply StronglySorted_app_1_l. Qed.

(** A successful pick reads the table the lock gives. *)
Lemma pick_next_run c o c' :
  txn c = None → pick_next_ready_row c = (Ok o, c') →
  o = head (merge_sort queue_le (rows_where ready (locked_db c))).
Proof.
  intros Ht Hrun.
  assert (wp pick_next_ready_row (λ o' _, ∀ x, o' = Ok x →
     x = head (merge_sort queue_le (rows_where ready (locked_db c)))) c) as HW.
  { apply wp_bind, wp_acquire, wp_sql_read.
    - intros fs x [= <-]. unfold view. simpl. by rewrite Ht.
    - intros e fs x Hx. done. }
  by apply (wp_run _ _ _ _ _ HW Hrun o eq_refl).
Qed.

Lemma list_rows_run c f rows c' :
  txn c = None → list_rows f c = (Ok rows, c') →
  rows = take (clamp_limit (f_limit f))
           (merge_sort queue_le (rows_where (list_clauses f) (locked_db c))).
Proof.
  intros Ht. unfold list_rows. case_match; [|intros Hx; inversion Hx].
  generalize (clamp_limit (f_limit f)) as n. intros n Hrun.
  assert (wp (_ ← acquire; sql_read (λ d, take n
            (merge_sort queue_le (rows_where (list_clauses f) d))))
     (λ o' _, ∀ x, o' = Ok x → x = take n
            (merge_sort queue_le (rows_where (list_clauses f) (locked_db c)))) c) as HW.
  { apply wp_bind, wp_acquire, wp_sql_read.
    - intros fs x [= <-]. unfold view. simpl. by rewrite Ht.
    - by intros e fs x Hx. }
  by apply (wp_run _ _ _ _ _ HW Hrun rows eq_refl).
Qed.

(** ** Runs without engine faults *)

(** No transaction open, nobody else on the lock, an engine that answers. *)
Definition quiet (c : conn) : Prop := txn c = None ∧ sql_faults c = [] ∧ others c = [].

Lemma update_where_hit mid g f d r :
  keys_ok (queue d) → queue d !! mid = Some r → g r = true → check_row (f r) = true →
  ∃ n, n ≠ 0 ∧ update_where (λ r, id_is mid r && g r) f d =
               Ok (n, set_queue (<[mid := f r]> (queue d)) d).
Proof.
  intros Hk Hr Hg Hck. destruct (update_where _ f d) as [[n d']|e] eqn:E.
  - destruct (update_one_cases _ _ _ _ _ _ Hk E) as [[_ Hno]|(Hn & x & Hx & _ & _ & ->)].
    + by rewrite (Hno _ Hr) in Hg.
    + simplify_eq. eauto.
  - apply update_where_Raise in E as (_ & k & x & Hx & Hp & Hf).
    apply andb_true_iff in Hp as [Hid _]. apply bool_decide_eq_true in Hid.
    rewrite (Hk _ _ Hx) in Hid. subst k. congruence.
Qed.

(** The decision an operator action makes on a row, as one function. *)
Definition operator_verdict (applicable : QState → bool) (otherwise : string)
    (row : option QueueRow) : option string :=
  match row with
  | None => Some "message_id_not_found"
  | Some r =>
      if terminal (state r) then Some "terminal_state_cannot_change"
      else if in_flight r then Some "delivery_in_progress"
      else if applicable (state r) then None else Some otherwise
  end.

Section QuietOperator.
Context {A : Type} (a : db → A) (g : db → db).

(** A callback that succeeds on the open transaction. *)
Definition succeeds (m : M conn A) : Prop :=
  ∀ c d, txn c = Some d → sql_faults c = [] → m c = (Ok (a d), set_txn (Some (g d)) c).

Definition quiet_result (c : conn) (applicable : QState → bool) (otherwise mid : string)
    (f : QueueRow → QueueRow) (o : outcome (option A)) (c' : conn) : Prop :=
  quiet c' ∧
  match operator_verdict applicable otherwise (queue (committed c) !! mid) with
  | Some code => o = Raise (QueueServiceError QSE code) ∧ committed c' = committed c
  | None => ∃ r, queue (committed c) !! mid = Some r ∧
      let d := set_queue (<[mid := f r]> (queue (committed c))) (committed c) in
      o = Ok (Some (a d)) ∧ committed c' = g d
  end.

Variable m : M conn A.
Hypothesis Hm : succeeds m.

Lemma quiet_finish c c0 mid (f : QueueRow → QueueRow) r d :
  txn c = Some d → sql_faults c = [] → others c = [] →
  d = set_queue (<[mid := f r]> (queue (committed c0))) (committed c0) →
  wp (result ← run_callback (Some m); _ ← commit; mret result)
     (λ o c', quiet c' ∧ o = Ok (Some (a d)) ∧ committed c' = g d) c.
Proof.
  intros Ht Hf Ho ->. unfold wp, run_callback, mbind, M_bind. rewrite (Hm _ _ Ht Hf).
  unfold mret, M_ret, commit, mbind, M_bind, statement, set_txn. simpl. by rewrite Hf.
Qed.

(** An operation that answers or refuses is not retried. *)
Lemma attempt_chain_settled {B} (op : M conn B) delays Q c :
  wp op (λ o c', Q o c' ∧ ∀ msg, o ≠ Raise (OperationalError msg)) c →
  wp (attempt_chain op delays) Q c.
Proof.
  intros Hop. destruct delays; apply wp_catch; revert Hop; apply wp_mono;
    intros [b|e] c' [HQ Hno]; try done; destruct e; try done; by destruct (Hno msg).
Qed.

(** The transaction bracket of the operator methods, without faults. *)
Lemma quiet_bracket {B} (body : M conn B) (Q : outcome B → conn → Prop) c :
  quiet c →
  wp body (λ o c', Q o c' ∧ match o with
                            | Ok _ => True
                            | Raise e => is_queue_service_error e = true
                            end)
     (mkConn (committed c) (Some (committed c)) [] [] (sleeps c) (captured c)) →
  wp (with_lock_retry (_ ← begin_immediate; rollback_unless_closed body)) Q c.
Proof.
  intros (Ht & Hf & Ho) Hb. apply wp_bind, wp_acquire, attempt_chain_settled, wp_bind.
  unfold wp at 1, begin_immediate, mbind, M_bind, statement, lift. simpl. rewrite Hf. simpl.
  rewrite Ht. unfold locked_db. rewrite Ho. simpl. unfold set_txn. simpl.
  apply wp_except. revert Hb. apply wp_mono. intros [b|e] c' [HQ Hr]; [done|].
  destruct e; try done.
Qed.

Lemma quiet_read {B} (f : db → B) Q c d :
  txn c = Some d → sql_faults c = [] → Q (Ok (f d)) c → wp (sql_read f) Q c.
Proof.
  intros Ht Hf HQ. unfold wp, sql_read, mbind, M_bind, statement, lift. rewrite Hf. simpl.
  unfold view. by rewrite Ht.
Qed.

Lemma quiet_refuse {B} code Q c d :
  txn c = Some d → sql_faults c = [] → others c = [] →
  (∀ c', quiet c' → committed c' = committed c →
     Q (Raise (QueueServiceError QSE code)) c') →
  wp (A := B) (refuse code) Q c.
Proof. intros Ht Hf Ho HQ. eapply wp_refuse; [done|]. by apply HQ. Qed.

(** The guarded update that hits, then the audit and the commit. *)
Lemma quiet_update c mid p f r code Q :
  txn c = Some (committed c) → sql_faults c = [] → others c = [] →
  keys_ok (queue (committed c)) → queue (committed c) !! mid = Some r → p r = true →
  check_row (f r) = true →
  (∀ c', let d := set_queue (<[mid := f r]> (queue (committed c))) (committed c) in
     quiet c' → committed c' = g d → Q (Ok (Some (a d))) c') →
  wp (n ← sql_write (update_where (λ r, id_is mid r && p r) f);
      if n =? 0 then refuse code
      else result ← run_callback (Some m); _ ← commit; mret result) Q c.
Proof.
  intros Ht Hf Ho Hk Hr Hp Hck HQ.
  destruct (update_where_hit mid p f _ r Hk Hr Hp Hck) as (n & Hn & Hu).
  apply wp_bind. unfold wp at 1, sql_write, mbind, M_bind, statement, lift. rewrite Hf. simpl.
  unfold view. rewrite Ht. simpl. rewrite Hu. simpl.
  rewrite (proj2 (Nat.eqb_neq _ _) Hn). unfold set_view. rewrite Ht.
  eapply wp_mono; [|by eapply (quiet_finish _ c mid f r)].
  intros o c' (Hq & -> & Hc). by apply HQ.
Qed.

Lemma operator_transition_quiet mid operator ts from to act br c :
  quiet c → wf_queue (queue (committed c)) → terminal from = false →
  (∀ r, wf_row r → state r = from → in_flight r = false →
        check_row (operator_row from to act br operator ts r) = true) →
  wp (operator_transition mid operator ts from to act br (Some m))
     (quiet_result c (λ s, bool_decide (s = from)) (not_applicable_code act) mid
        (operator_row from to act br operator ts)) c.
Proof.
  intros Hq Hwf Hfrom Hck. apply quiet_bracket; [done|]. apply wp_bind.
  eapply quiet_read; [done..|]. unfold quiet_result.
  destruct (queue (committed c) !! mid) as [r|] eqn:Hr; simpl;
    [|by eapply quiet_refuse; [done..|]; intros].
  destruct (terminal (state r)); [by eapply quiet_refuse; [done..|]; intros|].
  destruct (in_flight r) eqn:Hfl; [by eapply quiet_refuse; [done..|]; intros|].
  destruct (bool_decide (state r = from)) eqn:Hst; simpl;
    [|by eapply quiet_refuse; [done..|]; intros].
  eapply (quiet_update _ _ (λ r, bool_decide (state r = from)) _ r); try done.
  - by apply wf_keys_ok.
  - apply bool_decide_eq_true in Hst. apply Hck; [|done..]. by apply (proj1 Hwf mid r).
  - intros c' Hq' Hc'. split; [|done]. split; [done|]. by exists r.
Qed.

Lemma cancel_quiet mid operator ts c :
  quiet c → wf_queue (queue (committed c)) →
  wp (transition_to_canceled mid operator ts (Some m))
     (quiet_result c (λ s, negb (terminal s)) "message_id_not_found" mid
        (cancel_row operator ts)) c.
Proof.
  intros Hq Hwf. apply quiet_bracket; [done|]. apply wp_bind.
  eapply quiet_read; [done..|]. unfold quiet_result.
  destruct (queue (committed c) !! mid) as [r|] eqn:Hr; simpl;
    [|by eapply quiet_refuse; [done..|]; intros].
  destruct (terminal (state r)) eqn:Ht; [by eapply quiet_refuse; [done..|]; intros|].
  destruct (in_flight r) eqn:Hfl; [by eapply quiet_refuse; [done..|]; intros|]. simpl.
  eapply (quiet_update _ _
    (λ r, bool_decide (state r = queued) || bool_decide (state r = blocked)) _ r); try done.
  - by apply wf_keys_ok.
  - by destruct (state r).
  - apply wf_row_check. eapply row_step_wf; [apply rs_cancel; [|done]|].
    + destruct (state r); naive_solver.
    + by apply (proj1 Hwf mid r).
  - intros c' Hq' Hc'. split; [|done]. split; [done|]. by exists r.
Qed.
End QuietOperator.

(** The daemon's audit callback succeeds on a fault-free transaction. *)
Definition audit_effect (p : QueuePayload) (target : Party) (d : db) : db :=
  mkDb (queue d) (flag d)
    (events d ++ [mkEvent (events_seq d + 1) (qp_event_type p) (p_agent_id target)
                    (qp_observed_at p) (qp_excerpt p) None])
    (events_seq d + 1) (routes d).

Definition audit_result (p : QueuePayload) (d : db) : Z * payload :=
  ((events_seq d + 1)%Z, QueueTransition p).

Lemma audit_succeeds p target :
  qp_target p = Some target → Text.startswith "queue_message_" (qp_event_type p) = true →
  qp_event_type p ∈ EVENT_TYPES →
  succeeds (audit_result p) (audit_effect p target) (insert_queue_transition_in_tx p).
Proof.
  intros Hp Hs Hin c d Ht Hf. unfold insert_queue_transition_in_tx, insert_audit_event.
  rewrite Hs, Hp. simpl. unfold sql_write, insert_event_row, statement, mbind, M_bind, lift.
  rewrite Hf. unfold view. rewrite Ht. simpl. rewrite bool_decide_true by done. simpl.
  unfold set_view. by rewrite Ht.
Qed.

(** ** Retry bounds *)

Lemma attempt_chain_schedule {A} (op : M conn A) delays c :
  (∀ c, sleeps (op c).2 = sleeps c) →
  (∀ c, (op c).1 ≠ Raise sqlite_lock_conflict) →
  wp (attempt_chain op delays) (λ o c', ∃ k, k ≤ length delays ∧
    sleeps c' = sleeps c ++ take k delays ∧
    (o = Raise sqlite_lock_conflict → k = length delays) ∧
    ∀ msg, o = Raise (OperationalError msg) → is_lock_message (Text.lower msg) = false) c.
Proof.
  intros Hop Hlc. revert c. induction delays as [|dl delays IH]; intros c; apply wp_catch;
    specialize (Hop c) as Hc; specialize (Hlc c) as Hn; unfold wp at 1;
    destruct (op c) as [[a|e] c'] eqn:E; simpl in Hc, Hn; simpl.
  1,3: exists 0; rewrite app_nil_r; by split_and!; [lia|..].
  - destruct e as [| |msg| | | | | | | |];
      try (apply wp_throw; exists 0; rewrite app_nil_r; split_and!; [lia|done|congruence|done]).
    destruct (is_lock_message _) eqn:Hm; apply wp_throw; exists 0; rewrite app_nil_r;
      split_and!; [lia|done|done|done|lia|done|done|]. by intros ? [= <-].
  - destruct e as [| |msg| | | | | | | |];
      try (apply wp_throw; exists 0; rewrite app_nil_r; split_and!; [lia|done|congruence|done]).
    destruct (is_lock_message _) eqn:Hm; simpl.
    + apply wp_bind, wp_modify. eapply wp_mono; [|apply IH].
      intros o c'' (k & Hk & Hsl & Hend & Hmsg). exists (S k). split; [lia|].
      split; [|split; [intros Ho; by rewrite (Hend Ho)|done]].
      rewrite Hsl. simpl. by rewrite Hc, <- app_assoc.
    + apply wp_throw. exists 0. rewrite app_nil_r. split_and!; [lia|done|done|].
      by intros ? [= <-].
Qed.

(** ** A concrete table *)

Lemma wf_queue_empty : wf_queue ∅.
Proof. split; [apply map_Forall_empty|]. intros k1 k2 r1 r2 H. by rewrite lookup_empty in H. Qed.

Lemma wf_queue_singleton r : wf_row r → wf_queue {[message_id r := r]}.
Proof.
  intros Hr. split; [by apply map_Forall_singleton|].
  intros k1 k2 r1 r2 [<- _]%lookup_singleton_Some [<- _]%lookup_singleton_Some. done.
Qed.

Definition empty_db : db := mkDb ∅ (Some (mkFlag "enabled" "t0" "(daemon-init)")) [] 0 ∅.
Definition idle (d : db) : conn := mkConn d None [] [] [] [].
Definition table_of (r : QueueRow) : db := set_queue {[message_id r := r]} empty_db.

Definition demo_sender : Party := mkParty "agt_0123456789ab" "lead" "master" None None.
Definition demo_target : Party :=
  mkParty "agt_ba9876543210" "coder" "slave" (Some "build") (Some ("c1", "%1")).
Definition demo_row (st : QState) (br : option BlockReason) : QueueRow :=
  new_row "m1" st br demo_sender demo_target ("c1", "%1") "hello" "sha" 42 "t1" direct None None.
Definition demo_payload (ty : string) (to : QState) : QueuePayload :=
  mkQueuePayload ty "m1" (Some queued) to None None "t2" (Some demo_sender) (Some demo_target) "hello".
Definition demo_enqueue : QueuePayload * dao_call :=
  (demo_payload "queue_message_enqueued" queued,
   CInsertQueued "m1" demo_sender demo_target "hello" "sha" 42 "t1" direct None None).

Lemma wf_demo_row : wf_row (demo_row queued None).
Proof. split_and!; [done|by left|done]. Qed.
Lemma wf_demo_stamped : wf_row (stamp_row "t2" (demo_row queued None)).
Proof. split_and!; [done|by left|done]. Qed.
Lemma wf_demo_delivered : wf_row (deliver_row "t3" (stamp_row "t2" (demo_row queued None))).
Proof. split_and!; [done|by left|]. split_and!; try done; by eexists. Qed.

Lemma idle_steady r : wf_row r → steady (idle (table_of r)).
Proof. intros Hr. split_and!; [done|by constructor|]. by apply wf_queue_singleton. Qed.

(** ** Properties *)

(** C2: refinement.  Whatever the engine answers to each statement, whatever the
    other lock holders do within the specification and whenever the process
    dies, a session of DAO calls moves the message table only along the steps of
    the queue specification, keeps it well-formed (every CHECK, the lifecycle
    columns, key consistency, route uniqueness) and leaves no transaction open. *)
Theorem session_refines_queue_spec c steps :
  txn c = None → rely c → wf_queue (queue (committed c)) →
  let c' := session c steps in
  queue_steps (queue (committed c)) (queue (committed c')) ∧
  wf_queue (queue (committed c')) ∧ txn c' = None.
Proof.
  intros Ht Hr Hw c'. destruct (session_steady c steps) as [(? & ? & ?) ?]; [done|].
  by split_and!.
Qed.

Lemma session_refines_queue_spec_witness :
  let steps := [demo_enqueue; (demo_payload "queue_message_delivered" delivered, CStamp "m1" "t2");
                (demo_payload "queue_message_delivered" delivered, CDelivered "m1" "t3")] in
  let c' := session (idle empty_db) steps in
  queue (committed c') !! "m1" =
    Some (deliver_row "t3" (stamp_row "t2" (demo_row queued None))) ∧
  queue_steps ∅ (queue (committed c')) ∧ wf_queue (queue (committed c')) ∧ txn c' = None.
Proof.
  intros steps c'. split; [vm_compute; reflexivity|].
  apply (session_refines_queue_spec (idle empty_db) steps);
    [reflexivity|constructor|apply wf_queue_empty].
Defined.

(** A message that reached delivered, failed or canceled keeps every column of
    its row through any further session: terminal states are final. *)
Theorem terminal_rows_are_final c steps mid r :
  steady c → queue (committed c) !! mid = Some r → terminal (state r) = true →
  queue (committed (session c steps)) !! mid = Some r.
Proof.
  intros Hc Hr Ht. destruct (session_steady c steps Hc) as [_ Hs].
  destruct (queue_steps_row _ _ _ _ Hs Hr) as (r' & Hr' & Hrs).
  rewrite Hr'. f_equal. destruct Hc as (_ & _ & Hwf & _).
  destruct (Hwf _ _ Hr) as [_ Hw]. by apply terminal_row_constant.
Qed.

Lemma terminal_rows_are_final_witness :
  let r := deliver_row "t3" (stamp_row "t2" (demo_row queued None)) in
  queue (committed (session (idle (table_of r))
    [(demo_payload "queue_message_canceled" canceled, CCancel "m1" "op" "t4")])) !! "m1" = Some r.
Proof.
  intros r. apply terminal_rows_are_final;
    [apply idle_steady, wf_demo_delivered|vm_compute; reflexivity|reflexivity].
Defined.

(** No message is ever lost or rewritten: its row stays in the table, the
    columns captured at enqueue time (identities, body, hash, size, order key,
    route tag) never change, and its phase moves only along the lifecycle. *)
Theorem message_lifecycle c steps mid r :
  steady c → queue (committed c) !! mid = Some r →
  ∃ r', queue (committed (session c steps)) !! mid = Some r' ∧
        frozen_of r' = frozen_of r ∧ rtc phase_step (phase_of r) (phase_of r').
Proof.
  intros Hc Hr. destruct (session_steady c steps Hc) as [_ Hs].
  destruct (queue_steps_row _ _ _ _ Hs Hr) as (r' & Hr' & Hrs).
  exists r'. split; [done|]. split; [by apply rtc_row_step_frozen|].
  destruct Hc as (_ & _ & Hwf & _). destruct (Hwf _ _ Hr) as [_ Hw].
  by apply rtc_row_step_phase.
Qed.

Lemma message_lifecycle_witness :
  let c := idle (table_of (demo_row queued None)) in
  let steps := [(demo_payload "queue_message_canceled" canceled, CCancel "m1" "op" "t4")] in
  ∃ r', queue (committed (session c steps)) !! "m1" = Some r' ∧
        frozen_of r' = frozen_of (demo_row queued None) ∧ rtc phase_step PQueued (phase_of r').
Proof.
  intros c steps. apply (message_lifecycle c steps "m1" (demo_row queued None));
    [apply idle_steady, wf_demo_row|vm_compute; reflexivity].
Defined.

(** Approve, delay and cancel never touch a message whose delivery attempt is
    in flight: they do not succeed, they commit nothing, and when the refusal is
    a queue error its code is [delivery_in_progress]. *)
Theorem operators_cannot_touch_in_flight p c mid operator ts r call :
  steady c → queue (locked_db c) !! mid = Some r → phase_of r = PInFlight →
  call ∈ [CApprove mid operator ts; CDelay mid operator ts; CCancel mid operator ts] →
  wp (run_call p call)
     (λ o c', committed c' = locked_db c ∧
        ∃ e, o = Raise e ∧
        ∀ code, e = QueueServiceError QSE code → code = "delivery_in_progress") c.
Proof.
  intros (Ht & Hrely & Hwf) Hr HP Hcall.
  assert (Hcb : callback_ok_opt (audited p) (Some (insert_queue_transition_in_tx p)))
    by apply audit_callback_ok.
  assert (Hl : wf_queue (queue (locked_db c)))
    by (eapply queue_steps_wf; [by apply locked_db_steps|done]).
  destruct (proj1 Hl _ _ Hr) as [_ Hw].
  assert (state r = queued ∧ in_flight r = true) as [Hq Hf].
  { unfold phase_of in HP. destruct (state r) eqn:Hs; try done. split; [done|].
    rewrite wf_queued_in_flight by done. by destruct (is_set _). }
  assert (Href : ∀ ap ow code, operator_refusal mid ap ow (locked_db c) code →
                               code = "delivery_in_progress").
  { intros ap ow code. unfold operator_refusal. by rewrite Hr, Hq, Hf. }
  rewrite !elem_of_cons in Hcall.
  destruct Hcall as [->|[->|[->|[]%not_elem_of_nil]]]; apply wp_bind.
  - eapply wp_mono; [|by apply (operator_transition_spec _ _ Hcb)].
    intros [a|e] c' (_ & _ & HR).
    + destruct HR as (x & Hx & Hxs & Hxf & _). rewrite Hr in Hx. simplify_eq. congruence.
    + destruct HR as [Hc HE]. split; [done|]. exists e. split; [done|]. eauto.
  - eapply wp_mono; [|by apply (operator_transition_spec _ _ Hcb)].
    intros [a|e] c' (_ & _ & HR).
    + destruct HR as (x & Hx & Hxs & Hxf & _). rewrite Hr in Hx. simplify_eq. congruence.
    + destruct HR as [Hc HE]. split; [done|]. exists e. split; [done|]. eauto.
  - eapply wp_mono; [|by apply (cancel_spec _ _ Hcb)].
    intros [a|e] c' (_ & _ & HR).
    + destruct HR as (x & Hx & Hxf & _). rewrite Hr in Hx. simplify_eq. congruence.
    + destruct HR as [Hc HE]. split; [done|]. exists e. split; [done|]. eauto.
Qed.

Lemma operators_cannot_touch_in_flight_witness :
  let r := stamp_row "t2" (demo_row queued None) in
  let c := idle (table_of r) in
  wp (run_call (demo_payload "queue_message_canceled" canceled) (CCancel "m1" "op" "t4"))
     (λ o c', committed c' = table_of r ∧ ∃ e, o = Raise e ∧
        ∀ code, e = QueueServiceError QSE code → code = "delivery_in_progress") c.
Proof.
  intros r c.
  apply (operators_cannot_touch_in_flight (demo_payload "queue_message_canceled" canceled)
           c "m1" "op" "t4" r);
    [apply idle_steady, wf_demo_stamped|vm_compute; reflexivity|reflexivity
    |apply elem_of_cons; right; apply elem_of_cons; right; apply list_elem_of_singleton; reflexivity].
Defined.

(** The worker picks in FIFO order: the row returned is ready (queued and
    unstamped) and no ready row precedes it in [(enqueued_at, message_id)] order;
    nothing is returned exactly when no row is ready. *)
Theorem pick_next_is_fifo c o c' :
  txn c = None → pick_next_ready_row c = (Ok o, c') →
  match o with
  | Some r => ready r = true ∧ (∃ k, queue (locked_db c) !! k = Some r) ∧
      ∀ k r', queue (locked_db c) !! k = Some r' → ready r' = true → queue_le r r'
  | None => ∀ k r', queue (locked_db c) !! k = Some r' → ready r' = false
  end.
Proof.
  intros Ht Hrun. apply (pick_next_run c o c' Ht) in Hrun as ->.
  destruct (head _) as [r|] eqn:Hh.
  - apply merge_sort_head_Some in Hh as [Hin Hmin]; [|apply _..].
    apply elem_rows_where in Hin as [Hr [k Hk]]. split_and!; [done|eauto|].
    intros k' r' Hk' Hr'. apply Hmin. apply elem_rows_where. eauto.
  - apply merge_sort_head_None in Hh. intros k r' Hk. apply not_true_iff_false. intros Hr'.
    assert (r' ∈ rows_where ready (locked_db c)) as Hin by (apply elem_rows_where; eauto).
    rewrite Hh in Hin. by apply not_elem_of_nil in Hin.
Qed.

Lemma pick_next_is_fifo_witness :
  let c := idle (table_of (demo_row queued None)) in
  ready (demo_row queued None) = true ∧
  (∃ k, queue (locked_db c) !! k = Some (demo_row queued None)) ∧
  ∀ k r', queue (locked_db c) !! k = Some r' → ready r' = true →
          queue_le (demo_row queued None) r'.
Proof.
  intros c. apply (pick_next_is_fifo c (Some (demo_row queued None)) c);
    [reflexivity|vm_compute; reflexivity].
Defined.

(** Without engine faults the three operator actions decide by the row
    alone.  Approve and delay require state blocked and queued, cancel any
    non-terminal state; an unknown id, a terminal row and an in-flight row are
    refused first, in that order, with their own codes, and then nothing is
    committed; otherwise the row change and its audit event commit together and
    the caller gets the id of that event. *)
Theorem operator_actions_decide p target c mid operator ts :
  quiet c → wf_queue (queue (committed c)) → qp_target p = Some target →
  Text.startswith "queue_message_" (qp_event_type p) = true → qp_event_type p ∈ EVENT_TYPES →
  let cb := Some (insert_queue_transition_in_tx p) in
  let outcome_of := quiet_result (audit_result p) (audit_effect p target) c in
  wp (transition_blocked_to_queued_approve mid operator ts cb)
     (outcome_of (λ s, bool_decide (s = blocked)) "approval_not_applicable" mid
        (operator_row blocked queued act_approved None operator ts)) c ∧
  wp (transition_queued_to_blocked_delay mid operator ts cb)
     (outcome_of (λ s, bool_decide (s = queued)) "delay_not_applicable" mid
        (operator_row queued blocked act_delayed (Some operator_delayed) operator ts)) c ∧
  wp (transition_to_canceled mid operator ts cb)
     (outcome_of (λ s, negb (terminal s)) "message_id_not_found" mid
        (cancel_row operator ts)) c.
Proof.
  intros Hq Hwf Hp Hs Hin. pose proof (audit_succeeds p target Hp Hs Hin) as Hm.
  split_and!.
  - apply (operator_transition_quiet _ _ _ Hm); [done..|]. intros r Hr Hb Hf.
    apply wf_row_check. eapply row_step_wf; [by apply rs_approve|done].
  - apply (operator_transition_quiet _ _ _ Hm); [done..|]. intros r Hr Hb Hf.
    apply wf_row_check. eapply row_step_wf; [by apply rs_delay|done].
  - by apply (cancel_quiet _ _ _ Hm).
Qed.

Lemma operator_actions_decide_witness :
  let p := demo_payload "queue_message_canceled" canceled in
  let c := idle (table_of (demo_row queued None)) in
  wp (transition_to_canceled "m1" "op" "t4" (Some (insert_queue_transition_in_tx p)))
     (quiet_result (audit_result p) (audit_effect p demo_target) c
        (λ s, negb (terminal s)) "message_id_not_found" "m1" (cancel_row "op" "t4")) c.
Proof.
  intros p c.
  apply (operator_actions_decide p demo_target c "m1" "op" "t4");
    [split_and!; reflexivity|apply wf_queue_singleton, wf_demo_row|reflexivity|reflexivity
    |apply (bool_decide_unpack _); vm_compute; exact I].
Defined.

(** [list_rows] returns rows of the table that pass every filter, each once,
    in [(enqueued_at, message_id)] order; between 1 and 1000 rows are allowed,
    100 without a limit; and it truncates only from the end: a matching row that
    is left out comes after every returned one, and only when the limit is full. *)
Theorem list_rows_correct c f rows c' :
  txn c = None → keys_ok (queue (locked_db c)) → list_rows f c = (Ok rows, c') →
  let limit := clamp_limit (f_limit f) in
  1 ≤ limit ≤ 1000 ∧ StronglySorted queue_le rows ∧ NoDup rows ∧ length rows ≤ limit ∧
  (∀ r, r ∈ rows → list_clauses f r = true ∧ ∃ k, queue (locked_db c) !! k = Some r) ∧
  (∀ k r, queue (locked_db c) !! k = Some r → list_clauses f r = true →
          r ∈ rows ∨ length rows = limit ∧ ∀ r', r' ∈ rows → queue_le r' r).
Proof.
  intros Ht Hk Hrun limit. apply (list_rows_run c f rows c' Ht) in Hrun as ->.
  set (l := merge_sort _ _). pose proof (StronglySorted_merge_sort queue_le
    (rows_where (list_clauses f) (locked_db c))) as Hs. fold l in Hs.
  assert (Hin : ∀ r, r ∈ l ↔ r ∈ rows_where (list_clauses f) (locked_db c))
    by (intros; apply merge_sort_elem_of).
  split; [unfold limit, clamp_limit; lia|]. split; [by apply StronglySorted_take|].
  split; [|split; [rewrite length_take; lia|split]].
  - eapply sublist_NoDup; [|apply sublist_take]. unfold l.
    rewrite merge_sort_Permutation. by apply NoDup_rows_where.
  - intros r Hr%elem_of_take. destruct Hr as (i & Hr%list_elem_of_lookup_2 & _).
    by apply elem_rows_where, Hin.
  - intros k r Hr Hc. apply sorted_page; [done|]. apply Hin, elem_rows_where. eauto.
Qed.

Lemma list_rows_correct_witness :
  let c := idle (table_of (demo_row queued None)) in
  let f := mkFilter (Some queued) None None None (Some 0%Z) None in
  let rows := [demo_row queued None] in
  1 ≤ clamp_limit (f_limit f) ≤ 1000 ∧ StronglySorted queue_le rows ∧ NoDup rows ∧
  length rows ≤ clamp_limit (f_limit f) ∧
  (∀ r, r ∈ rows → list_clauses f r = true ∧ ∃ k, queue (locked_db c) !! k = Some r) ∧
  (∀ k r, queue (locked_db c) !! k = Some r → list_clauses f r = true →
     r ∈ rows ∨ length rows = clamp_limit (f_limit f) ∧ ∀ r', r' ∈ rows → queue_le r' r).
Proof.
  intros c f rows. apply (list_rows_correct c f rows c);
    [reflexivity|apply wf_keys_ok, wf_queue_singleton, wf_demo_row|vm_compute; reflexivity].
Defined.

(** A DAO operation is attempted at most four times, sleeping 10, 50 and
    250 ms between attempts; a lock message never reaches the caller, and the
    lock-conflict error is raised only after the whole schedule is spent. *)
Theorem lock_retry_schedule {A} (op : M conn A) c :
  (∀ c, sleeps (op c).2 = sleeps c) →
  (∀ c, (op c).1 ≠ Raise sqlite_lock_conflict) →
  wp (with_lock_retry op) (λ o c', ∃ k, k ≤ 3 ∧
    sleeps c' = sleeps c ++ take k [10; 50; 250] ∧
    (o = Raise sqlite_lock_conflict → k = 3) ∧
    ∀ msg, o = Raise (OperationalError msg) → is_lock_message (Text.lower msg) = false) c.
Proof.
  intros Hs Hl. apply wp_bind, wp_acquire.
  eapply wp_mono; [|by apply attempt_chain_schedule]. intros o c' (k & Hk & H). by exists k.
Qed.

Lemma lock_retry_schedule_witness :
  let op : M conn unit := throw (OperationalError "database is locked") in
  wp (with_lock_retry op) (λ o c', ∃ k, k ≤ 3 ∧
    sleeps c' = [] ++ take k [10; 50; 250] ∧
    (o = Raise sqlite_lock_conflict → k = 3) ∧
    ∀ msg, o = Raise (OperationalError msg) → is_lock_message (Text.lower msg) = false)
    (idle empty_db).
Proof.
  intros op. apply (lock_retry_schedule op (idle empty_db)); [reflexivity|discriminate].
Defined.
