(* ===== verification/AuditSpec.v ===== *)
(** Properties of the audit writer, and the frame rules later components use for
    actions on the whole daemon state. *)

From S2P Require Import Prelude Errors Permissions Store QueueDao AuditWriter QueueSpec QueueSession.

(** ** Calm actions

An action is calm when, from a steady connection, it moves the queue only along
its specification, makes no tmux call, and leaves no transaction open unless
the process died. *)

Definition live {A} (o : outcome A) (c : conn) : Prop :=
  rely c ∧ wf_queue (queue (committed c)) ∧ (o ≠ Raise SystemExit → txn c = None).

Definition calm_db {A} (m : M conn A) : Prop :=
  ∀ c, steady c → wp m (λ o c', live o c' ∧
    queue_steps (queue (committed c)) (queue (committed c'))) c.

Definition evolves (w w' : world) : Prop :=
  queue_steps (queue (committed (db_conn w))) (queue (committed (db_conn w'))) ∧
  tmux_calls (hst w') = tmux_calls (hst w).

Definition calm {A} (m : M world A) : Prop :=
  ∀ w, steady (db_conn w) → wp m (λ o w', live o (db_conn w') ∧ evolves w w') w.

#[export] Instance evolves_preorder : PreOrder evolves.
Proof.
  split.
  - intros w. split; [reflexivity|done].
  - intros w1 w2 w3 [Q1 T1] [Q2 T2]. split; [by etrans|congruence].
Qed.

Lemma steady_live {A} (o : outcome A) c : steady c → live o c.
Proof. intros (? & ? & ?). by split_and!. Qed.

Lemma live_steady {A} (a : A) c : live (Ok a) c → steady c.
Proof. intros (? & ? & Ht). split_and!; [by apply Ht|done..]. Qed.

Lemma live_raise_steady {A} e c : live (A := A) (Raise e) c → is_exception e = true → steady c.
Proof. intros (? & ? & Ht) He. split_and!; [|done..]. apply Ht. by destruct e. Qed.

Lemma live_raise {A B} e c : live (A := A) (Raise e) c → live (A := B) (Raise e) c.
Proof. intros (? & ? & Ht). split_and!; [done..|]. intros Hne. apply Ht. congruence. Qed.

Section CalmRules.
Context {A B : Type}.

Lemma calm_ret (a : A) : calm (mret a).
Proof. intros w Hw. apply wp_ret. split; [by apply steady_live|reflexivity]. Qed.

Lemma calm_throw e : calm (A := A) (throw e).
Proof. intros w Hw. apply wp_throw. split; [by apply steady_live|reflexivity]. Qed.

Lemma calm_bind (m : M world A) (k : A → M world B) :
  calm m → (∀ a, calm (k a)) → calm (m ≫= k).
Proof.
  intros Hm Hk w Hw. apply wp_bind. eapply wp_mono; [|by apply Hm].
  intros [a|e] w1 [Hl He].
  - eapply wp_mono; [|apply Hk; by eapply live_steady]. intros o w2 [Hl2 He2].
    split; [done|by etrans].
  - split; [by eapply live_raise|done].
Qed.

Lemma calm_except (m : M world A) h : calm m → (∀ e, calm (h e)) → calm (except m h).
Proof.
  intros Hm Hh w Hw. apply wp_except. eapply wp_mono; [|by apply Hm].
  intros [a|e] w1 [Hl He]; [done|]. destruct (is_exception e) eqn:Hx; [|done].
  eapply wp_mono; [|apply Hh; by eapply live_raise_steady]. intros o w2 [Hl2 He2].
  split; [done|by etrans].
Qed.

(** A handler for one class of exceptions. *)
Lemma calm_catch (m : M world A) h :
  calm m → (∀ e, is_exception e = true → calm (h e)) → (h SystemExit = throw SystemExit) →
  calm (catch m h).
Proof.
  intros Hm Hh Hse w Hw. apply wp_catch. eapply wp_mono; [|by apply Hm].
  intros [a|e] w1 [Hl He]; [done|]. destruct (is_exception e) eqn:Hx.
  - eapply wp_mono; [|apply Hh; [done|by eapply live_raise_steady]]. intros o w2 [Hl2 He2].
    split; [done|by etrans].
  - destruct e; try done. rewrite Hse. apply wp_throw. done.
Qed.

Lemma calm_get (k : world → M world A) : (∀ w, calm (k w)) → calm (w ← get; k w).
Proof. intros Hk w Hw. apply wp_bind. by apply (Hk w w). Qed.

Lemma calm_on_db (m : M conn A) : calm_db m → calm (on_db m).
Proof.
  intros Hm w Hw. unfold wp, on_db, zoom. specialize (Hm _ Hw). unfold wp in Hm.
  destruct (m (db_conn w)) as [o c']. destruct Hm as [Hl Hq]. by split.
Qed.
End CalmRules.

Lemma calm_on_host f : (∀ h, tmux_calls (f h) = tmux_calls h) → calm (on_host f).
Proof.
  intros Hf w Hw. apply wp_modify. split; [by apply steady_live|]. split; [reflexivity|].
  apply Hf.
Qed.

Lemma calm_now_iso : calm now_iso.
Proof.
  intros w Hw. unfold wp, now_iso. destruct (clock (hst w)) as [t [|t' rest]]; simpl;
    (split; [by apply steady_live|split; [reflexivity|done]]).
Qed.

Lemma calm_append_event p : calm (append_event p).
Proof.
  intros w Hw. unfold wp, append_event. repeat case_match; simpl;
    (split; [by apply steady_live|split; [reflexivity|done]]).
Qed.

(** ** Calm DAO methods *)

Lemma rely_tail c c' : rely c → others c' = tail (others c) → rely c'.
Proof.
  unfold rely. intros H ->. destruct (others c); [done|]. by apply Forall_cons in H as [].
Qed.

Lemma dao_calm {A} (R : db → A → db → Prop) E (m : M conn A) :
  dao_spec R E m →
  (∀ d a d', wf_queue (queue d) → R d a d' → queue_steps (queue d) (queue d')) →
  calm_db m.
Proof.
  intros Hm HR c (Ht & Hr & Hw). pose proof (locked_db_steps c Hr Hw) as Hl.
  assert (wf_queue (queue (locked_db c))) as Hlw by by eapply queue_steps_wf.
  eapply wp_mono; [|by apply Hm]. intros o c' (Ho & Htx & Hpost).
  assert (queue_steps (queue (committed c)) (queue (committed c'))) as Hq.
  { destruct o as [a|e]; [|destruct Hpost as [-> _]; done].
    etrans; [done|]. by eapply HR. }
  split; [|done]. split_and!; [by eapply rely_tail|by eapply queue_steps_wf|done].
Qed.

Lemma read_calm {A} (f : db → A) : calm_db (_ ← acquire; sql_read f).
Proof.
  intros c (Ht & Hr & Hw). pose proof (locked_db_steps c Hr Hw) as Hl.
  assert (wf_queue (queue (locked_db c))) as Hlw by by eapply queue_steps_wf.
  apply wp_bind, wp_acquire, wp_sql_read; [intros fs|intros e fs]; simpl;
    (split; [split_and!; [by eapply rely_tail|done|done]|done]).
Qed.

Lemma watermark_calm eid ts : calm_db (watermark eid ts).
Proof.
  intros c (Ht & Hr & Hw). pose proof (locked_db_steps c Hr Hw) as Hl.
  assert (wf_queue (queue (locked_db c))) as Hlw by by eapply queue_steps_wf.
  apply wp_bind, wp_acquire, wp_bind, wp_begin; [done| |].
  - intros fs. eapply wp_mono; [|apply (rollback_on_error_spec
      (λ d _ d', queue d' = queue d) (λ _ _, False))].
    + intros o c' (Ho & Htx & Hp). simpl in *. split; [split_and!|].
      * by eapply rely_tail.
      * destruct o; [by rewrite Hp|destruct Hp as [-> _]; done].
      * done.
      * destruct o; [by rewrite Hp|destruct Hp as [-> _]; done].
    + apply wp_bind. eapply wp_sql_write; [done| | |].
      * intros a d' fs' [= <- <-]. eapply wp_commit; [done| |].
        -- intros fs''. by split_and!.
        -- intros f fs''. split; [done|].
           split_and!; [done|simpl; eauto|apply fault_not_qse].
      * intros e fs' [=].
      * intros f fs'. split; [done|]. split_and!; [done|simpl; eauto|apply fault_not_qse].
  - intros f fs. simpl. split; [|done]. split_and!; [by eapply rely_tail|done|done].
Qed.

Lemma calm_buffer eid p e b : calm (buffer eid p e b).
Proof. by apply calm_on_host. Qed.

Lemma calm_append_jsonl eid p ts : calm (append_jsonl_then_watermark eid p ts).
Proof.
  apply calm_bind.
  - apply calm_except.
    + apply calm_bind; [apply calm_append_event|intros; apply calm_ret].
    + intros e. apply calm_bind; [apply calm_buffer|intros; apply calm_ret].
  - intros [|]; [|apply calm_ret].
    apply calm_except; [apply calm_on_db, watermark_calm|intros; apply calm_buffer].
Qed.

Lemma calm_drain_loop fuel : calm (drain_loop fuel).
Proof.
  induction fuel as [|fuel IH]; intros w Hw.
  { apply (calm_ret 0 w Hw). }
  simpl. unfold wp. destruct (pending (hst w)) as [|hd rest]; [by apply (calm_ret 0 w Hw)|].
  revert w Hw. apply calm_bind.
  - destruct (pj_jsonl_appended hd); [apply calm_ret|].
    apply calm_except; [apply calm_bind; [apply calm_append_event|intros; apply calm_ret]|].
    intros e. apply calm_bind; [by apply calm_on_host|intros; apply calm_ret].
  - intros [|]; [|apply calm_ret]. apply calm_bind; [by apply calm_on_host|intros _].
    apply calm_bind.
    + apply calm_except; [|intros; apply calm_ret].
      apply calm_bind; [apply calm_on_db, watermark_calm|intros; apply calm_ret].
    + intros [|]; [|apply calm_ret]. apply calm_bind; [by apply calm_on_host|intros _].
      apply calm_bind; [apply IH|intros; apply calm_ret].
Qed.

Lemma calm_drain_pending : calm drain_pending.
Proof.
  apply calm_get. intros w. apply calm_bind; [apply calm_drain_loop|intros n].
  apply calm_bind; [|intros; apply calm_ret]. apply calm_on_host. intros h.
  by destruct (pending h).
Qed.

(** ** Conservation of audit lines *)

(** The lines the buffer still has to write, oldest first. *)
Definition owed (h : host) : list payload :=
  pj_payload <$> filter (λ p, pj_jsonl_appended p = false) (pending h).

(** Every line written or still to be written. *)
Definition ledger (h : host) : list payload := jsonl h ++ owed h.

(** No append fails after its line reached the file. *)
Definition clean_io (h : host) : Prop :=
  Forall (λ f, match f with
               | Some (IO_error _ true) | Some (IO_kill true) => False
               | _ => True
               end) (jsonl_io h).

(** From ledger [l] of host [h]: nothing is lost, and nothing repeated either
    when appends fail cleanly. *)
Definition kept (h : host) (l : list payload) (h' : host) : Prop :=
  ledger h `sublist_of` l ∧ (clean_io h → l = ledger h ∧ clean_io h').

Definition conserved (w w' : world) : Prop := kept (hst w) (ledger (hst w')) (hst w').

Lemma kept_same h h' :
  ledger h' = ledger h → jsonl_io h' = jsonl_io h → kept h (ledger h') h'.
Proof. intros Hl Hio. rewrite Hl. split; [done|]. intros Hc. unfold clean_io. by rewrite Hio. Qed.

Lemma kept_trans h h1 h2 l2 : kept h (ledger h1) h1 → kept h1 l2 h2 → kept h l2 h2.
Proof.
  intros [Hs1 Hc1] [Hs2 Hc2]. split; [by etrans|]. intros Hc. destruct (Hc1 Hc) as [E1 Hc'].
  destruct (Hc2 Hc') as [E2 ?]. split; [congruence|done].
Qed.

Lemma on_db_hst {A} (m : M conn A) w : wp (on_db m) (λ _ w', hst w' = hst w) w.
Proof. unfold wp, on_db, zoom. by destruct (m (db_conn w)). Qed.

(** One append: the line is on disk; when it fails, it may be there as well. *)
Lemma wp_append_event p (Q : outcome unit → world → Prop) w :
  (∀ w', jsonl (hst w') = jsonl (hst w) ++ [p] → pending (hst w') = pending (hst w) →
         max_pending (hst w') = max_pending (hst w) →
         (clean_io (hst w) → clean_io (hst w')) → Q (Ok tt) w') →
  (∀ e w', (jsonl (hst w') = jsonl (hst w) ∨
            jsonl (hst w') = jsonl (hst w) ++ [p] ∧ ¬ clean_io (hst w)) →
         pending (hst w') = pending (hst w) → max_pending (hst w') = max_pending (hst w) →
         (clean_io (hst w) → clean_io (hst w')) →
         (e = SystemExit ∨ ∃ n, e = PyError n) → Q (Raise e) w') →
  wp (append_event p) Q w.
Proof.
  intros Hok Hr. unfold wp, append_event, clean_io in *.
  destruct (jsonl_io (hst w)) as [|[[n []|[]]|] rest] eqn:E; simpl;
    [apply Hok|apply Hr|apply Hr|apply Hr|apply Hr|apply Hok]; simpl; try done;
    try (by intros [_ ?]%Forall_cons); eauto;
    right; (split; [done|]); by intros [? _]%Forall_cons.
Qed.

Definition drain_post (w : world) (o : outcome nat) (w' : world) : Prop :=
  conserved w w' ∧ ∃ dropped,
    pj_event_id <$> pending (hst w) = dropped ++ (pj_event_id <$> pending (hst w')) ∧
    ∀ n, o = Ok n → length dropped = n.

Lemma drain_stop w w' o :
  conserved w w' → pj_event_id <$> pending (hst w) = pj_event_id <$> pending (hst w') →
  (∀ n, o = Ok n → n = 0) → drain_post w o w'.
Proof.
  intros Hc Hp Ho. split; [done|]. exists []. split; [done|]. intros n Hn. by rewrite (Ho n Hn).
Qed.

(** The second half of a turn: the head's line is in the file. *)
Lemma drain_marked fuel hd rest w w1 :
  (∀ w, wp (drain_loop fuel) (drain_post w) w) →
  pending (hst w) = hd :: rest →
  kept (hst w) (jsonl (hst w1) ++
    (pj_payload <$> filter (λ p, pj_jsonl_appended p = false) rest)) (hst w1) →
  wp (_ ← on_host (λ h, set_pending
             (mkPending (pj_event_id hd) (pj_payload hd) (pj_failure hd) true :: rest)
             (degraded_exc h) h);
      marked ← except (_ ← on_db (watermark (pj_event_id hd)
                                    (payload_observed_at (pj_payload hd)));
                       mret true) (λ _, mret false);
      if (marked : bool)
      then _ ← on_host (λ h, set_pending rest (degraded_exc h) h);
           n ← drain_loop fuel; mret (S n)
      else mret 0) (drain_post w) w1.
Proof.
  intros IH Hp Hk. apply wp_bind, wp_modify. apply wp_bind, wp_except, wp_bind.
  eapply wp_mono; [|apply on_db_hst]. intros [u|e] w2 Hh2.
  - apply wp_ret. apply wp_bind, wp_modify. apply wp_bind.
    eapply wp_mono; [|apply IH]. intros o w3 [Hc3 (dr & Hd & Hn)].
    assert (drain_post w (match o with Ok n => Ok (S n) | Raise e => Raise e end) w3) as HP.
    { split.
      - eapply kept_trans; [|exact Hc3]. simpl. unfold ledger, owed. simpl. rewrite Hh2. exact Hk.
      - exists (pj_event_id hd :: dr).
        change (pj_event_id <$> rest = dr ++ (pj_event_id <$> pending (hst w3))) in Hd.
        rewrite Hp, fmap_cons, Hd. split; [done|]. intros n Ho.
        destruct o as [n'|e]; [|done]. simplify_eq. simpl. by rewrite (Hn _ eq_refl). }
    by destruct o.
  - assert (drain_post w (Ok 0) w2 ∧ drain_post w (Raise e) w2) as [HP1 HP2].
    { assert (conserved w w2) by (unfold conserved, ledger, owed; by rewrite Hh2).
      split; (apply drain_stop; [done|by rewrite Hp, Hh2|]); [by intros n [= <-]|done]. }
    by destruct (is_exception e).
Qed.

Lemma drain_loop_post fuel w : wp (drain_loop fuel) (drain_post w) w.
Proof.
  revert w. induction fuel as [|fuel IH]; intros w.
  { apply drain_stop; [by apply kept_same|done|]. by intros n [= <-]. }
  simpl. unfold wp. destruct (pending (hst w)) as [|hd rest] eqn:Hp.
  { apply drain_stop; [by apply kept_same|done|]. by intros n [= <-]. }
  apply wp_bind. destruct (pj_jsonl_appended hd) eqn:Ha.
  - apply wp_ret. apply drain_marked; [done..|]. unfold kept, ledger, owed.
    rewrite Hp, filter_cons_False by congruence. done.
  - assert (Howed : owed (hst w) = pj_payload hd ::
      (pj_payload <$> filter (λ p, pj_jsonl_appended p = false) rest)).
    { unfold owed. by rewrite Hp, filter_cons_True. }
    apply wp_except, wp_bind, wp_append_event.
    + intros w1 Hj1 Hp1 _ Hcl. apply wp_ret. apply drain_marked; [done..|].
      unfold kept, ledger. rewrite Hj1, Howed, <- app_assoc. split; [done|]. intros Hc. split; [done|by apply Hcl].
    + intros e w1 Hj1 Hp1 _ Hcl He.
      assert (conserved w w1) as Hc.
      { unfold conserved, kept, ledger.
        assert (owed (hst w1) = owed (hst w)) as -> by (unfold owed; by rewrite Hp1).
        destruct Hj1 as [->|[-> Hn]];
          [split; [done|]; intros Hcn; split; [done|by apply Hcl]|]. split; [|done].
        rewrite <- app_assoc. apply sublist_app; [done|]. simpl. by apply sublist_cons. }
      assert (drain_post w (Raise e) w1) as HP
        by (apply drain_stop; [done|by rewrite Hp1|done]).
      destruct (is_exception e); [|done]. apply wp_bind, wp_modify, wp_ret, wp_ret.
      apply drain_stop; [exact Hc|simpl; by rewrite Hp1|by intros n [= <-]].
Qed.

Lemma drain_pending_post w : wp drain_pending (drain_post w) w.
Proof.
  apply wp_bind. change (wp (n ← drain_loop (length (pending (hst w)));
    _ ← on_host (λ h, match pending h with [] => set_pending [] None h | _ => h end);
    mret n) (drain_post w) w).
  apply wp_bind. eapply wp_mono; [|apply drain_loop_post].
  intros [n|e] w1 [Hc (dr & Hd & Hn)]; [|split; [done|eauto]].
  apply wp_bind, wp_modify, wp_ret. unfold drain_post, conserved, ledger, owed, clean_io in *. simpl.
  destruct (pending (hst w1)) as [|x l] eqn:E; simpl in *;
    (split; [unfold kept, clean_io, ledger, owed in *; by rewrite ?E|]; exists dr;
     split; [by rewrite ?E|]; by intros k [= <-]; auto).
Qed.

Lemma append_jsonl_post eid p ts w :
  wp (append_jsonl_then_watermark eid p ts) (λ o w',
    (o = Ok tt ∨ o = Raise SystemExit) ∧
    (jsonl (hst w') = jsonl (hst w) ++ [p] ∧
       (pending (hst w') = pending (hst w) ∨
        ∃ n, pending (hst w') = deque_push (max_pending (hst w)) (pending (hst w))
                                  (mkPending eid p n true)) ∨
     (jsonl (hst w') = jsonl (hst w) ∨
      jsonl (hst w') = jsonl (hst w) ++ [p] ∧ ¬ clean_io (hst w)) ∧
       ((o = Raise SystemExit ∧ pending (hst w') = pending (hst w)) ∨
        ∃ n, pending (hst w') = deque_push (max_pending (hst w)) (pending (hst w))
                                  (mkPending eid p n false)))) w.
Proof.
  apply wp_bind, wp_except, wp_bind, wp_append_event.
  - intros w1 Hj Hp Hm _. apply wp_ret, wp_except.
    eapply wp_mono; [|apply on_db_hst]. intros [[]|e] w2 Hh.
    + split; [by left|]. left. rewrite Hh. split; [done|]. by left.
    + destruct (is_exception e) eqn:Hx.
      * apply wp_modify. simpl. rewrite Hh, Hm, Hp, Hj. split; [by left|]. left. eauto.
      * destruct e; try done. rewrite Hh. split; [by right|]. left. split; [done|]. by left.
  - intros e w1 Hj Hp Hm _ [->|[n ->]]; simpl.
    + split; [by right|]. right. split; [done|]. by left.
    + apply wp_bind, wp_modify, wp_ret, wp_ret. simpl. rewrite Hm, Hp.
      split; [by left|]. right. split; [done|]. eauto.
Qed.

Lemma deque_push_room {X} n (q : list X) x : length q < n → deque_push n q x = q ++ [x].
Proof. intros H. unfold deque_push. by rewrite (proj2 (Nat.leb_gt _ _)). Qed.

(** Without faults the watermark transaction commits. *)
Lemma watermark_quiet eid ts c :
  quiet c → ∃ c', watermark eid ts c = (Ok tt, c') ∧ quiet c'.
Proof.
  intros (Ht & Hf & Ho). unfold watermark, acquire, begin_immediate, rollback_on_error, except,
    catch, mark_jsonl_appended, sql_write, commit, statement, lift, mbind, M_bind.
  rewrite Ho, Hf, Ht. cbn. rewrite Hf. cbn. rewrite Hf. cbn.
  eexists. split; [reflexivity|]. done.
Qed.

Lemma drain_loop_completes fuel w :
  quiet (db_conn w) → jsonl_io (hst w) = [] → length (pending (hst w)) ≤ fuel →
  ∃ w', drain_loop fuel w = (Ok (length (pending (hst w))), w') ∧
        pending (hst w') = [] ∧ quiet (db_conn w').
Proof.
  revert w. induction fuel as [|fuel IH]; intros w Hq Hio Hlen.
  { destruct (pending (hst w)) eqn:E; simpl in *; [|lia]. by exists w. }
  simpl. destruct (pending (hst w)) as [|hd rest] eqn:Hp; [by exists w|]. simpl in Hlen.
  destruct (watermark_quiet (pj_event_id hd) (payload_observed_at (pj_payload hd)) _ Hq)
    as (c' & Hw & Hq').
  unfold mbind, M_bind, except, catch, append_event.
  destruct (pj_jsonl_appended hd); simpl; unfold on_host, modify, on_db, zoom; simpl;
    rewrite ?Hio; simpl; rewrite Hw; simpl.
  - edestruct (IH (mkWorld c' (set_pending rest (degraded_exc (hst w)) (set_pending
      (mkPending (pj_event_id hd) (pj_payload hd) (pj_failure hd) true :: rest)
      (degraded_exc (hst w)) (hst w))))) as (w' & E & Hp' & Hq''); [done..|simpl; lia|].
    simpl in E. rewrite E. eauto.
  - edestruct (IH (mkWorld c' (set_pending rest (degraded_exc (hst w)) (set_pending
      (mkPending (pj_event_id hd) (pj_payload hd) (pj_failure hd) true :: rest)
      (degraded_exc (hst w)) (set_jsonl [] (jsonl (hst w) ++ [pj_payload hd]) (hst w))))))
      as (w' & E & Hp' & Hq''); [done..|simpl; lia|].
    simpl in E. rewrite E. eauto.
Qed.

(** ** Properties *)

(** C33: draining the audit buffer never loses a line, whatever fails on the way:
    the lines in the file followed by what the buffer still owes contain those of
    before, in order; records leave the buffer from its front only and the returned
    count is how many left.  If no append fails after its line was already written,
    no line is repeated either: the sequence is exactly the same. *)
Theorem drain_conserves_lines w :
  wp drain_pending (λ o w',
    (jsonl (hst w) ++ owed (hst w)) `sublist_of` (jsonl (hst w') ++ owed (hst w')) ∧
    (clean_io (hst w) → jsonl (hst w') ++ owed (hst w') = jsonl (hst w) ++ owed (hst w)) ∧
    ∃ dropped, pj_event_id <$> pending (hst w) = dropped ++ (pj_event_id <$> pending (hst w')) ∧
               ∀ n, o = Ok n → length dropped = n) w.
Proof.
  eapply wp_mono; [|apply drain_pending_post]. intros o w' [[Hs Hc] Hd].
  split; [done|]. split; [|done]. intros H. by destruct (Hc H).
Qed.

(** Draining makes progress: when the file and the database answer, one
    drain empties the buffer, returns its length, clears the degraded state, and
    the file ends with everything that was owed, in order. *)
Theorem drain_completes w :
  quiet (db_conn w) → jsonl_io (hst w) = [] →
  wp drain_pending (λ o w', o = Ok (length (pending (hst w))) ∧ degraded (hst w') = false ∧
    degraded_exc (hst w') = None ∧ jsonl (hst w') = jsonl (hst w) ++ owed (hst w)) w.
Proof.
  intros Hq Hio. pose proof (drain_loop_post (length (pending (hst w))) w) as HP.
  destruct (drain_loop_completes (length (pending (hst w))) w Hq Hio) as (w' & E & Hp & Hq');
    [lia|].
  unfold wp, drain_pending, get, mbind, M_bind in *. simpl. rewrite E in *. simpl. rewrite Hp.
  split_and!; [done..|]. destruct HP as [[_ HP] _]. unfold clean_io in HP. rewrite Hio in HP.
  destruct (HP (Forall_nil_2 _)) as [HP' _]. unfold ledger in HP'. simpl in *.
  rewrite <- HP'. unfold owed. rewrite Hp. by rewrite app_nil_r.
Qed.

Definition demo_host : host :=
  mkHost ("t1", ["t2"; "t3"]) [] []
    [mkPending 1 (RoutingToggled "enabled" "disabled" "t0" "host-operator") "OSError" false]
    10 (Some "OSError") None [] [] [].

Lemma drain_completes_witness :
  let w := mkWorld (idle empty_db) demo_host in
  wp drain_pending (λ o w', o = Ok 1 ∧ degraded (hst w') = false ∧
    degraded_exc (hst w') = None ∧
    jsonl (hst w') = [RoutingToggled "enabled" "disabled" "t0" "host-operator"]) w.
Proof. intros w. apply (drain_completes w); [split_and!; reflexivity|reflexivity]. Defined.

(** Recording a committed transition never fails the caller: unless the
    process dies the append returns, and while the buffer has room the new line
    ends up in the file or in what is still owed; exactly once, unless the append
    failed after it had written the line. *)
Theorem append_never_loses eid p ts w :
  length (pending (hst w)) < max_pending (hst w) →
  wp (append_jsonl_then_watermark eid p ts) (λ o w',
    (o = Ok tt ∨ o = Raise SystemExit) ∧
    (o = Ok tt →
       jsonl (hst w') = jsonl (hst w) ++ [p] ∧ owed (hst w') = owed (hst w) ∨
       jsonl (hst w') = jsonl (hst w) ∧ owed (hst w') = owed (hst w) ++ [p] ∨
       ¬ clean_io (hst w) ∧
       jsonl (hst w') = jsonl (hst w) ++ [p] ∧ owed (hst w') = owed (hst w) ++ [p])) w.
Proof.
  intros Hroom. eapply wp_mono; [|apply append_jsonl_post].
  intros o w' [Ho Hcases]. split; [done|]. intros ->. unfold owed.
  destruct Hcases as [[Hj [Hp|[n Hp]]]|[Hj [[? _]|[n Hp]]]]; try done;
    rewrite Hp, ?deque_push_room by done; rewrite ?filter_app, ?fmap_app.
  - by left.
  - left. split; [done|]. by rewrite app_nil_r.
  - right. destruct Hj as [Hj|[Hj Hn]]; [by left|by right].
Qed.

Lemma append_never_loses_witness :
  let w := mkWorld (idle empty_db) demo_host in
  let p := RoutingToggled "disabled" "enabled" "t1" "host-operator" in
  wp (append_jsonl_then_watermark 2 p "t1") (λ o w',
    (o = Ok tt ∨ o = Raise SystemExit) ∧
    (o = Ok tt →
       jsonl (hst w') = jsonl (hst w) ++ [p] ∧ owed (hst w') = owed (hst w) ∨
       jsonl (hst w') = jsonl (hst w) ∧ owed (hst w') = owed (hst w) ++ [p] ∨
       ¬ clean_io (hst w) ∧
       jsonl (hst w') = jsonl (hst w) ++ [p] ∧ owed (hst w') = owed (hst w) ++ [p])) w.
Proof. intros w p. apply append_never_loses. apply Nat.ltb_lt. reflexivity. Defined.
