(* ===== verification/Lookups.v ===== *)
(** The container and pane lookups the queue service and the delivery worker
    consult (src/src/agenttower/routing/daemon_adapters.py,
    state/panes.py, state/containers.py), behind the protocols of
    routing/service.py and routing/delivery.py. *)

From S2P Require Import Prelude Errors Agents Permissions Store QueueDao QueueSession.

(** ** Protocols *)

Class ContainerPaneLookup := {
  is_container_active : string → bool;
  is_pane_resolvable : string → string → bool
}.

Record DeliveryContext := mkContext {
  ctx_container_id : string; ctx_bench_user : string;
  ctx_socket_path : string; ctx_pane_id : string
}.

Class DeliveryContextResolver := { resolve : QueueRow → outcome DeliveryContext }.

(** ** Discovery tables, restricted to the columns read here *)

Record ContainerRow := mkContainer {
  ct_container_id : string; ct_name : string; ct_config_user : option string;
  ct_active : bool
}.

Record PaneRow := mkPane {
  pn_container_id : string; pn_tmux_pane_id : string; pn_socket_path : string;
  pn_active : bool
}.

Definition select_containers (table : list ContainerRow) (active_only : bool)
  : list ContainerRow :=
  if active_only then filter (λ r, ct_active r = true) table else table.

Definition hex_digit (c : Ascii.ascii) : bool :=
  Text.contains (String c EmptyString) "0123456789abcdef".

Definition looks_like_container_id (value : string) : bool :=
  (String.length value =? 64) && Text.all hex_digit (Text.lower value).

(** [select_panes_for_listing]: the filter is an id when it looks like one, else
    a container name; panes of unknown containers are never listed.  The ORDER
    BY is dropped: the callers only ask for membership. *)
Definition select_panes_for_listing (containers : list ContainerRow) (panes : list PaneRow)
    (active_only : bool) (container_filter : option string) : list PaneRow :=
  filter (λ p,
    existsb (λ c, bool_decide (ct_container_id c = pn_container_id p)) containers &&
    (negb active_only || pn_active p) &&
    match container_filter with
    | None => true
    | Some f =>
        if looks_like_container_id f then bool_decide (pn_container_id p = f)
        else existsb (λ c, bool_decide (ct_name c = f) &&
                           bool_decide (ct_container_id c = pn_container_id p)) containers
    end = true) panes.

(** [DiscoveryContainerPaneLookup]; [None] is a listing that raises. *)
Definition DiscoveryContainerPaneLookup (containers : option (list ContainerRow))
    (panes : option (list PaneRow)) : ContainerPaneLookup := {|
  is_container_active cid :=
    match containers with
    | None => false
    | Some table =>
        existsb (λ r, bool_decide (ct_container_id r = cid)) (select_containers table true)
    end;
  is_pane_resolvable cid pane :=
    match containers, panes with
    | Some ct, Some table =>
        existsb (λ r, bool_decide (pn_tmux_pane_id r = pane))
          (select_panes_for_listing ct table true (Some cid))
    | _, _ => false
    end
|}.

(** [container_row[0] or "root"] *)
Definition bench_user_of (config_user : option string) : string :=
  match config_user with
  | None | Some EmptyString => "root"
  | Some u => u
  end.

(** [RegistryDeliveryContextResolver.resolve] *)
Definition RegistryDeliveryContextResolver (containers : list ContainerRow)
    (panes : list PaneRow) : DeliveryContextResolver := {|
  resolve row :=
    match list_find (λ c, ct_container_id c = target_container_id row ∧ ct_active c = true)
            containers with
    | None => Raise (PyError "RuntimeError")
    | Some (_, c) =>
        match list_find (λ p, pn_container_id p = target_container_id row ∧
                              pn_tmux_pane_id p = target_pane_id row ∧ pn_active p = true)
                panes with
        | None => Raise (PyError "RuntimeError")
        | Some (_, p) =>
            Ok (mkContext (target_container_id row) (bench_user_of (ct_config_user c))
                  (pn_socket_path p) (target_pane_id row))
        end
    end
|}.

(** ** Lemmas *)

Lemma list_find_exists {A} (P : A → Prop) `{!∀ x, Decision (P x)} l x :
  x ∈ l → P x → ∃ i y, list_find P l = Some (i, y) ∧ y ∈ l ∧ P y.
Proof.
  intros Hx HP. destruct (list_find P l) as [[i y]|] eqn:E.
  - apply list_find_Some in E as (Hy & HPy & _). exists i, y.
    split_and!; [done| |done]. by eapply list_elem_of_lookup_2.
  - apply list_find_None in E. rewrite Forall_forall in E. by destruct (E x).
Qed.

(** ** Properties *)

(** When the discovery lookup says the container is active and the pane
    resolvable, the resolver finds a delivery context for the row, on the same
    container and pane: the pre-paste check and the paste agree on the target.
    (Rows name containers by id, as the registry does.) *)
Theorem resolver_agrees_with_lookup containers panes row :
  let L := DiscoveryContainerPaneLookup (Some containers) (Some panes) in
  let R := RegistryDeliveryContextResolver containers panes in
  looks_like_container_id (target_container_id row) = true →
  is_container_active (target_container_id row) = true →
  is_pane_resolvable (target_container_id row) (target_pane_id row) = true →
  ∃ ctx, resolve row = Ok ctx ∧ ctx_container_id ctx = target_container_id row ∧
         ctx_pane_id ctx = target_pane_id row ∧ ctx_bench_user ctx ≠ EmptyString.
Proof.
  intros L R Hid Hc Hp. simpl in Hc, Hp.
  apply existsb_exists in Hc as (c & Hin & Hcid). apply list_elem_of_In in Hin.
  apply list_elem_of_filter in Hin as [Hact Hin]. apply bool_decide_eq_true in Hcid.
  apply existsb_exists in Hp as (p & Hpin & Hpid). apply list_elem_of_In in Hpin.
  apply list_elem_of_filter in Hpin as [Hpf Hpin]. apply bool_decide_eq_true in Hpid.
  rewrite Hid in Hpf. bool_simp. simpl in *.
  destruct (list_find_exists (λ c, ct_container_id c = target_container_id row ∧
    ct_active c = true) containers c) as (i & c' & -> & _ & _); [done..|].
  destruct (list_find_exists (λ p, pn_container_id p = target_container_id row ∧
    pn_tmux_pane_id p = target_pane_id row ∧ pn_active p = true) panes p)
    as (j & p' & -> & _ & _); [done..|].
  eexists. split_and!; [done..|]. simpl. unfold bench_user_of.
  by destruct (ct_config_user c') as [[|]|].
Qed.

Definition demo_container : string :=
  "0123456789abcdef0123456789abcdef0123456789abcdef0123456789abcdef".

Lemma resolver_agrees_with_lookup_witness :
  let row := new_row "m1" queued None demo_sender demo_target (demo_container, "%1")
               "hello" "sha" 42 "t1" direct None None in
  let containers := [mkContainer demo_container "bench" None true] in
  let panes := [mkPane demo_container "%1" "/tmp/tmux" true] in
  let R := RegistryDeliveryContextResolver containers panes in
  ∃ ctx, resolve row = Ok ctx ∧ ctx_container_id ctx = demo_container ∧
         ctx_pane_id ctx = "%1" ∧ ctx_bench_user ctx ≠ EmptyString.
Proof.
  intros row containers panes R.
  apply (resolver_agrees_with_lookup containers panes row); vm_compute; reflexivity.
Defined.
