(* ===== verification/KillSwitch.v ===== *)
(** The routing kill switch (src/src/agenttower/routing/kill_switch.py) with its
    write-through cache, and the socket handlers that toggle it
    (src/src/agenttower/socket_api/methods.py). *)

From S2P Require Import Prelude Errors Agents Permissions Store QueueDao AuditWriter QueueSpec QueueSession AuditSpec.

Record ToggleResult := mkToggle {
  previous_value : string; current_value : string; changed : bool;
  last_updated_at_ : string; last_updated_by_ : string
}.

(** ** [RoutingFlagService] *)

Definition is_enabled : M world bool :=
  w ← get;
  match flag_cache (hst w) with
  | Some v => mret (bool_decide (v = "enabled"))
  | None =>
      fl ← on_db read_routing_flag;
      _ ← on_host (set_cache (Some (value fl)));
      mret (bool_decide (value fl = "enabled"))
  end.

Definition read_full : M world (string * string * string) :=
  fl ← on_db read_routing_flag;
  _ ← on_host (set_cache (Some (value fl)));
  mret (value fl, flag_updated_at fl, flag_updated_by fl).

(** [_set]; the callback gets the previous value, its result reaches the caller
    through a closure, here as the second component. *)
Definition set_flag_value {A} (v operator ts : string) (cb : option (string → M conn A))
  : M world (ToggleResult * option A) :=
  current_flag ← on_db read_routing_flag;
  let previous := value current_flag in
  if negb (bool_decide (previous = v))
  then
    captured ← on_db (write_routing_flag v ts operator ((λ k, k previous) <$> cb));
    _ ← on_host (set_cache (Some v));
    mret (mkToggle previous v true ts operator, captured)
  else
    _ ← on_host (set_cache (Some previous));
    mret (mkToggle previous previous false (flag_updated_at current_flag)
            (flag_updated_by current_flag), None).

Definition enable {A} (operator ts : string) (cb : option (string → M conn A)) :=
  set_flag_value "enabled" operator ts cb.
Definition disable {A} (operator ts : string) (cb : option (string → M conn A)) :=
  set_flag_value "disabled" operator ts cb.

Definition invalidate_cache : M world unit := on_host (set_cache None).

(** ** Socket handlers *)

(** [params.get("caller_pane")]: absent or null, an object, anything else. *)
Inductive caller_pane := no_pane | pane_object | bad_pane.

(** A connected peer: its [SO_PEERCRED] uid ([_NO_PEER_UID] is [-1]) and whether
    [_peer_is_host_process] accepts its pid. *)
Record peer := mkPeer { peer_uid : Z; peer_is_host_process : bool }.

Definition NO_PEER_UID : Z := -1.

(** [_routing_host_only_gate]: [None] lets the request through. *)
Definition routing_host_only_gate (daemon_uid : Z) (pane : caller_pane) (p : peer)
  : option string :=
  match pane with
  | bad_pane => Some "bad_request"
  | pane_object => Some "routing_toggle_host_only"
  | no_pane =>
      if (peer_uid p =? NO_PEER_UID)%Z then Some "routing_toggle_host_only"
      else if negb (peer_uid p =? daemon_uid)%Z then Some "routing_toggle_host_only"
      else if negb (peer_is_host_process p) then Some "routing_toggle_host_only"
      else None
  end.

(** What a handler answers: a result or an error code; an exception that leaves
    the handler is the [Raise] of the monad. *)
Inductive response (A : Type) := make_ok (a : A) | make_error (code : string).
Arguments make_ok {A} a.
Arguments make_error {A} code.

(** [_routing_toggle] with the audit writer attached. *)
Definition routing_toggle (daemon_uid : Z) (pane : caller_pane) (p : peer) (v : string)
  : M world (response ToggleResult) :=
  match routing_host_only_gate daemon_uid pane p with
  | Some code => mret (make_error code)
  | None =>
      ts ← now_iso;
      let cb previous := insert_routing_toggled_in_tx previous v HOST_OPERATOR_SENTINEL ts in
      res ← except (r ← set_flag_value v HOST_OPERATOR_SENTINEL ts (Some cb); mret (Some r))
                   (λ _, mret None);
      match res with
      | None => mret (make_error "internal_error")
      | Some (result, audit) =>
          _ ← match changed result, audit with
              | true, Some (eid, payload) =>
                  except (append_jsonl_then_watermark eid payload (last_updated_at_ result))
                         (λ _, mret tt)
              | _, _ => mret tt
              end;
          mret (make_ok result)
      end
  end.

Definition routing_status : M world (response (string * string * string)) :=
  except (r ← read_full; mret (make_ok r)) (λ _, mret (make_error "internal_error")).

(** ** Lemmas *)

(** Nobody else writes the flag. *)
Definition flag_rely (c : conn) : Prop := Forall (λ f, ∀ d, flag (f d) = flag d) (others c).

Lemma flag_rely_tail c c' : flag_rely c → others c' = tail (others c) → flag_rely c'.
Proof.
  unfold flag_rely. intros H ->. destruct (others c); [done|]. by apply Forall_cons in H as [].
Qed.

Lemma flag_locked c : flag_rely c → flag (locked_db c) = flag (committed c).
Proof.
  unfold flag_rely, locked_db. destruct (others c); [done|]. by intros [H _]%Forall_cons.
Qed.

Definition set_flag (fl : RoutingFlag) (d : db) : db :=
  mkDb (queue d) (Some fl) (events d) (events_seq d) (routes d).

Definition toggled (previous v operator ts : string) (d : db) (a : Z * payload) (d' : db) : Prop :=
  a = ((events_seq d + 1)%Z, RoutingToggled previous v ts operator) ∧
  d' = mkDb (queue d) (flag d)
         (events d ++ [mkEvent (events_seq d + 1) "routing_toggled" operator ts
            ("routing " +:+ v +:+ " (was " +:+ previous +:+ ")") None])
         (events_seq d + 1) (routes d).

Lemma toggled_callback_ok previous v operator ts :
  callback_ok (toggled previous v operator ts)
    (insert_routing_toggled_in_tx previous v operator ts).
Proof.
  intros c d Ht. apply wp_bind. unfold insert_audit_event. rewrite orb_true_r.
  eapply wp_sql_write; [done| | |].
  - intros a d' fs Hi. apply wp_ret. split_and!; [done..|].
    unfold insert_event_row in Hi. case_match; [|done].
    simplify_eq. eexists. by split_and!.
  - intros e fs Hi. unfold insert_event_row in Hi. by case_match.
  - intros f fs. split_and!; [done..|simpl; eauto|]. apply fault_not_qse.
Qed.

Lemma write_flag_spec {A} (CB : db → A → db → Prop) cb v ts by_ :
  callback_ok_opt CB cb → v ∈ ["enabled"; "disabled"] →
  dao_spec
    (λ d res d', queue d' = queue d ∧
       (is_Some (flag d) → with_callback CB cb (set_flag (mkFlag v ts by_) d) res d'))
    (λ _ _, False) (write_routing_flag v ts by_ cb).
Proof.
  intros Hcb Hv. unfold write_routing_flag. rewrite bool_decide_true by done.
  apply with_lock_retry_spec. apply (begin_spec _ _ rollback_on_error).
  intros c Ht Hwf. apply rollback_on_error_spec. apply wp_bind.
  eapply wp_sql_write; [done| | |].
  - intros n d' fs Hu. eapply wp_mono; [|by eapply (finish_wp CB cb Hcb c)].
    intros [res|e] c' [Ho Hr]; (split; [done|]); [|done].
    destruct Hr as [Htn HW]. split; [done|]. unfold update_flag in Hu. split.
    + apply with_callback_queue in HW. rewrite HW. by repeat case_match; simplify_eq.
    + intros [fl Hfl]. rewrite Hfl, bool_decide_true in Hu by done. by simplify_eq.
  - intros e fs Hu. unfold update_flag in Hu. repeat case_match; simplify_eq.
    split; [done|]. split_and!; [done|simpl; eauto|done].
  - intros f fs. split; [done|].
    split_and!; [done|simpl; eauto|by rewrite fault_not_qse].
Qed.

Lemma wp_on_db {A} (m : M conn A) (Q : outcome A → world → Prop) w :
  wp m (λ o c', Q o (mkWorld c' (hst w))) (db_conn w) → wp (on_db m) Q w.
Proof. unfold wp, on_db, zoom. by destruct (m (db_conn w)). Qed.

Lemma wp_read_flag c :
  txn c = None →
  wp read_routing_flag (λ o c', committed c' = locked_db c ∧ others c' = tail (others c) ∧
    txn c' = None ∧ ∀ fl, o = Ok fl → flag (locked_db c) = Some fl) c.
Proof.
  intros Ht. apply wp_bind, wp_acquire, wp_bind, wp_sql_read.
  - intros fs. unfold view. cbn [txn default]. rewrite Ht. cbn.
    destruct (flag (locked_db c)) as [fl|] eqn:E; [apply wp_ret|apply wp_throw];
      (split_and!; [done..|]); intros; by simplify_eq.
  - intros e fs. by split_and!.
Qed.

(** What the service keeps true: the flag row exists and a cached value is the
    stored one. *)
Definition cache_coherent (w : world) : Prop :=
  ∃ fl, flag (committed (db_conn w)) = Some fl ∧
        ∀ v, flag_cache (hst w) = Some v → v = value fl.

Definition flag_ready (w : world) : Prop :=
  steady (db_conn w) ∧ flag_rely (db_conn w) ∧ cache_coherent w.

Lemma locked_steady c c' :
  steady c → committed c' = locked_db c → others c' = tail (others c) → txn c' = None →
  steady c'.
Proof.
  intros (Ht & Hr & Hw) Hc Ho Ht'. split_and!; [done|by eapply rely_tail|].
  rewrite Hc. eapply queue_steps_wf; [by apply locked_db_steps|done].
Qed.

(** Reading the flag under the lock. *)
Lemma read_flag_ready (Q : outcome RoutingFlag → world → Prop) w :
  flag_ready w →
  (∀ fl w', flag (committed (db_conn w)) = Some fl → flag_ready w' → hst w' = hst w →
     committed (db_conn w') = locked_db (db_conn w) →
     flag (committed (db_conn w')) = Some fl → Q (Ok fl) w') →
  (∀ e w', flag_ready w' → flag (committed (db_conn w')) = flag (committed (db_conn w)) →
     Q (Raise e) w') →
  wp (on_db read_routing_flag) Q w.
Proof.
  intros (Hs & Hf & fl & Hfl & Hc) Hok Hr. apply wp_on_db. pose proof Hs as (Ht & _).
  eapply wp_mono; [|by apply wp_read_flag]. intros o c' (Hcm & Ho & Htx & Hres).
  pose proof (flag_locked _ Hf) as Hl. rewrite <- Hcm in Hl.
  assert (flag_ready (mkWorld c' (hst w))) as HR.
  { split_and!; [by eapply locked_steady|by eapply flag_rely_tail|].
    exists fl. simpl. by rewrite Hl. }
  destruct o as [fl'|e]; [|by apply Hr].
  rewrite <- Hcm in Hres. specialize (Hres fl' eq_refl). rewrite Hl, Hfl in Hres. simplify_eq.
  apply Hok; try done. simpl. by rewrite Hl.
Qed.

Lemma is_enabled_post w :
  flag_ready w →
  wp is_enabled (λ o w', flag_ready w' ∧
    flag (committed (db_conn w')) = flag (committed (db_conn w)) ∧
    ∀ b, o = Ok b → ∃ fl, flag (committed (db_conn w)) = Some fl ∧
                          b = bool_decide (value fl = "enabled")) w.
Proof.
  intros Hw. apply wp_bind. change (wp match flag_cache (hst w) with
    | Some v => mret (bool_decide (v = "enabled"))
    | None => fl ← on_db read_routing_flag; _ ← on_host (set_cache (Some (value fl)));
              mret (bool_decide (value fl = "enabled"))
    end (λ o w', flag_ready w' ∧ flag (committed (db_conn w')) = flag (committed (db_conn w)) ∧
    ∀ b, o = Ok b → ∃ fl, flag (committed (db_conn w)) = Some fl ∧
                          b = bool_decide (value fl = "enabled")) w).
  destruct (flag_cache (hst w)) as [v|] eqn:Ec.
  - apply wp_ret. split_and!; [done..|]. intros b [= <-].
    destruct Hw as (_ & _ & fl & Hfl & Hc). exists fl. split; [done|]. by rewrite (Hc v Ec).
  - apply wp_bind, read_flag_ready; [done| |].
    + intros fl w' Hfl (Hs & Hf & _) Hh _ Hfl'. apply wp_bind, wp_modify, wp_ret. simpl.
      split_and!; [|congruence|intros b [= <-]; eauto].
      split_and!; [done..|]. exists fl. split; [done|]. by intros v [= <-].
    + intros e w' Hw' Hfl. by split_and!.
Qed.

Definition set_post (v operator ts : string) (w : world)
    (o : outcome (ToggleResult * option (Z * payload))) (w' : world) : Prop :=
  (o ≠ Raise SystemExit → flag_ready w') ∧
  match o with
  | Raise _ => flag (committed (db_conn w')) = flag (committed (db_conn w))
  | Ok (res, audit) => ∃ fl, flag (committed (db_conn w)) = Some fl ∧
      if bool_decide (value fl = v)
      then audit = None ∧
           res = mkToggle v v false (flag_updated_at fl) (flag_updated_by fl) ∧
           committed (db_conn w') = locked_db (db_conn w)
      else res = mkToggle (value fl) v true ts operator ∧
           ∃ d a, audit = Some a ∧ flag d = Some fl ∧
             toggled (value fl) v operator ts (set_flag (mkFlag v ts operator) d) a
               (committed (db_conn w'))
  end.

Lemma set_flag_post v operator ts w :
  flag_ready w → v ∈ ["enabled"; "disabled"] →
  wp (set_flag_value v operator ts
        (Some (λ previous, insert_routing_toggled_in_tx previous v operator ts)))
     (set_post v operator ts w) w.
Proof.
  intros Hw Hv. apply wp_bind, read_flag_ready; [done| |by split].
  intros fl w1 Hfl (Hs & Hf & Hc) Hh Hcm Hfl1. cbv zeta.
  destruct (bool_decide (value fl = v)) eqn:Hb; simpl.
  - apply bool_decide_eq_true in Hb. apply wp_bind, wp_modify, wp_ret. split.
    + intros _. split_and!; [done..|]. exists fl. split; [done|]. by intros ? [= <-].
    + exists fl. split; [done|]. rewrite bool_decide_true by done. by rewrite Hb.
  - apply wp_bind, wp_on_db.
    pose proof (write_flag_spec (toggled (value fl) v operator ts)
      (Some (insert_routing_toggled_in_tx (value fl) v operator ts)) v ts operator
      (toggled_callback_ok _ _ _ _) Hv) as Hspec.
    pose proof Hs as (Ht & Hr & Hwf).
    eapply wp_mono; [|by apply Hspec]. intros [res|e] c' (Ho & Htx & Hp).
    + apply wp_bind, wp_modify, wp_ret. rewrite (flag_locked _ Hf), Hfl1 in Hp.
      destruct (proj2 Hp ltac:(eauto)) as (a & -> & Htg & Hq). split.
      * intros _. split_and!.
        -- split_and!; [by apply Htx|by eapply rely_tail|]. simpl. rewrite Hq. simpl.
           eapply queue_steps_wf; [by apply locked_db_steps|done].
        -- by eapply flag_rely_tail.
        -- destruct Htg as [_ Hd]. eexists. simpl. rewrite Hd. split; [done|]. by intros ? [= <-].
      * exists fl. split; [done|]. rewrite Hb. split; [done|].
        exists (locked_db (db_conn w1)), a. split_and!; [done| |done].
        by rewrite (flag_locked _ Hf).
    + destruct Hp as [Hcm' _]. pose proof (flag_locked _ Hf) as Hl. rewrite <- Hcm' in Hl.
      split; [|simpl; congruence]. intros Hne. split_and!.
      * eapply locked_steady; [done..|]. apply Htx. congruence.
      * by eapply flag_rely_tail.
      * destruct Hc as (x & Hx & Hc). exists x. simpl. split; [congruence|]. done.
Qed.

Lemma read_full_post w :
  flag_ready w → wp read_full (λ o w', flag_ready w' ∧ ∀ r, o = Ok r →
    ∃ fl, flag (committed (db_conn w)) = Some fl ∧
          r = (value fl, flag_updated_at fl, flag_updated_by fl)) w.
Proof.
  intros Hw. apply wp_bind, read_flag_ready; [done| |by split].
  intros fl w1 Hfl (Hs & Hf & _) _ _ Hfl1. apply wp_bind, wp_modify, wp_ret. split.
  - split_and!; [done..|]. exists fl. split; [done|]. by intros ? [= <-].
  - intros r [= <-]. eauto.
Qed.

(** ** Sequences of requests *)

Inductive flag_op := FIsEnabled | FReadFull | FEnable (op ts : string)
| FDisable (op ts : string) | FInvalidate.

Definition run_flag_op (o : flag_op) : M world unit :=
  match o with
  | FIsEnabled => discard is_enabled
  | FReadFull => discard read_full
  | FEnable op ts => discard (enable op ts
      (Some (λ previous, insert_routing_toggled_in_tx previous "enabled" op ts)))
  | FDisable op ts => discard (disable op ts
      (Some (λ previous, insert_routing_toggled_in_tx previous "disabled" op ts)))
  | FInvalidate => invalidate_cache
  end.

(** The callers report an exception and go on. *)
Definition flag_session (ops : list flag_op) : M world unit :=
  discard (mapM (λ o, except (run_flag_op o) (λ _, mret tt)) ops).

Lemma run_flag_op_ready o w :
  flag_ready w → wp (run_flag_op o) (λ r w', r ≠ Raise SystemExit → flag_ready w') w.
Proof.
  intros Hw. destruct o; simpl; try apply wp_bind.
  - eapply wp_mono; [|by apply is_enabled_post]. intros [b|e] w' [Hr _]; [by apply wp_ret|done].
  - eapply wp_mono; [|by apply read_full_post]. intros [b|e] w' [Hr _]; [by apply wp_ret|done].
  - eapply wp_mono; [|apply set_flag_post; [done|by left]].
    intros [b|e] w' [Hr _]; [apply wp_ret; intros _; by apply Hr|].
    intros Hne. apply Hr. congruence.
  - eapply wp_mono; [|apply set_flag_post; [done|by right; left]].
    intros [b|e] w' [Hr _]; [apply wp_ret; intros _; by apply Hr|].
    intros Hne. apply Hr. congruence.
  - apply wp_modify. intros _. destruct Hw as (? & ? & fl & Hfl & _).
    split_and!; [done..|]. by exists fl.
Qed.

Lemma flag_session_ready ops w :
  flag_ready w → wp (flag_session ops) (λ r w', r ≠ Raise SystemExit → flag_ready w') w.
Proof.
  intros Hw. apply wp_bind. 
  assert (wp (mapM (λ o, except (run_flag_op o) (λ _, mret tt)) ops)
            (λ r w', r ≠ Raise SystemExit → flag_ready w') w) as H.
  { revert w Hw. induction ops as [|o ops IH]; intros w Hw; [by apply wp_ret|].
    simpl. apply wp_bind, wp_except. eapply wp_mono; [|by apply run_flag_op_ready].
    intros [u|e] w1 Hr.
    - apply wp_bind. eapply wp_mono; [|by apply IH, Hr]. intros [l|e] w2 H2.
      + apply wp_ret. intros _. by apply H2.
      + intros Hne. apply H2. congruence.
    - destruct (is_exception e) eqn:He.
      + apply wp_ret, wp_bind. eapply wp_mono; [|apply IH, Hr; by destruct e].
        intros [l|e'] w2 H2; [apply wp_ret; intros _; by apply H2|].
        intros Hne. apply H2. congruence.
      + intros Hne. destruct e; done. }
  eapply wp_mono; [|exact H]. intros [l|e] w' Hr.
  - apply wp_ret. intros _. by apply Hr.
  - intros Hne. apply Hr. congruence.
Qed.

(** ** Properties *)

(** The cache never lies: after any sequence of reads, toggles, failed
    toggles and cache resets, [is_enabled] answers with the value stored in the
    database. *)
Theorem kill_switch_coherent ops w :
  flag_ready w →
  wp (_ ← flag_session ops; is_enabled) (λ o w', ∀ b, o = Ok b →
    ∃ fl, flag (committed (db_conn w')) = Some fl ∧ b = bool_decide (value fl = "enabled")) w.
Proof.
  intros Hw. apply wp_bind. eapply wp_mono; [|by apply flag_session_ready].
  intros [u|e] w1 Hr; [|by intros b]. eapply wp_mono; [|by apply is_enabled_post, Hr].
  intros o w2 (_ & Hfl & Hb) b Ho. rewrite Hfl. by apply Hb.
Qed.

Lemma demo_flag_ready : flag_ready (mkWorld (idle empty_db) demo_host).
Proof.
  split_and!; [split_and!; [done|by constructor|apply wf_queue_empty]|by constructor|].
  eexists. by split.
Qed.

Lemma kill_switch_coherent_witness :
  let w := mkWorld (idle empty_db) demo_host in
  let ops := [FIsEnabled; FDisable "host-operator" "t1"] in
  wp (_ ← flag_session ops; is_enabled) (λ o w', o = Ok false) w ∧
  wp (_ ← flag_session ops; is_enabled) (λ o w', ∀ b, o = Ok b →
    ∃ fl, flag (committed (db_conn w')) = Some fl ∧ b = bool_decide (value fl = "enabled")) w.
Proof.
  intros w ops. split; [vm_compute; reflexivity|].
  apply (kill_switch_coherent ops w demo_flag_ready).
Defined.

(** A toggle is idempotent and audited exactly when it changes something.
    Setting the stored value again commits nothing, runs no audit and reports who
    set it last; setting the other value commits the new flag and one
    [routing_toggled] event together and returns that event's id; a toggle that
    fails leaves the stored flag alone. *)
Theorem toggle_audited_iff_changed v operator ts w :
  flag_ready w → v ∈ ["enabled"; "disabled"] →
  wp (set_flag_value v operator ts
        (Some (λ previous, insert_routing_toggled_in_tx previous v operator ts)))
     (set_post v operator ts w) w.
Proof. apply set_flag_post. Qed.

Lemma toggle_audited_iff_changed_witness :
  wp (set_flag_value "disabled" "host-operator" "t1"
        (Some (λ previous, insert_routing_toggled_in_tx previous "disabled" "host-operator" "t1")))
     (set_post "disabled" "host-operator" "t1" (mkWorld (idle empty_db) demo_host))
     (mkWorld (idle empty_db) demo_host).
Proof.
  apply (toggle_audited_iff_changed "disabled" "host-operator" "t1" _ demo_flag_ready).
  right. left.
Defined.

(** Only the host operator toggles routing: a request with a caller pane,
    without peer credentials, from another uid or from a process in a container is
    answered with an error and changes nothing; any other answer means the gate
    passed. *)
Theorem toggle_is_host_only daemon_uid pane p v w :
  (pane = no_pane ∧ peer_uid p = daemon_uid ∧ peer_uid p ≠ NO_PEER_UID ∧
   peer_is_host_process p = true) ∨
  ∃ code, routing_toggle daemon_uid pane p v w = (Ok (make_error code), w) ∧
          code ∈ ["bad_request"; "routing_toggle_host_only"].
Proof.
  unfold routing_toggle, routing_host_only_gate.
  destruct pane; [|right; eexists; split; [done|set_solver]..].
  destruct (Z.eqb_spec (peer_uid p) NO_PEER_UID) as [|Hn];
    [right; eexists; split; [done|set_solver]|].
  destruct (Z.eqb_spec (peer_uid p) daemon_uid) as [He|]; simpl;
    [|right; eexists; split; [done|set_solver]].
  destruct (peer_is_host_process p); simpl; [by left|].
  right. eexists. split; [done|set_solver].
Qed.
