(* ===== verification/QueueService.v ===== *)
(** The queue service (src/src/agenttower/routing/service.py): enqueueing with the
    permission gate, the operator actions with their audit events, and the wait
    for a terminal state.

    [uuid.uuid4()] is an argument of [send_input]; SHA-256 and the redactor are
    parameters of the section.  Waiting consumes a list of readings of the
    monotonic clock, one per wake-up; the list ends when the deadline passes. *)

From S2P Require Import Prelude Errors Agents Permissions Store QueueDao Utf8 Envelope AuditWriter QueueSpec QueueSession AuditSpec Lookups KillSwitch.

Record SendInputResult := mkSendResult { sent_row : QueueRow; waited_to_terminal : bool }.

(** [_END_OF_WAIT_STATES] *)
Definition end_of_wait (s : QState) : bool := terminal s || bool_decide (s = blocked).

Definition row_sender_dict (r : QueueRow) : Party :=
  mkParty (sender_agent_id r) (sender_label r) (sender_role r) (sender_capability r) None.
Definition row_target_dict (r : QueueRow) : Party :=
  mkParty (target_agent_id r) (target_label r) (target_role r) (target_capability r) None.

Definition identity_to_dict (i : EnvelopeIdentity) (container : option AgentRecord) : Party :=
  mkParty (ei_agent_id i) (ei_label i) (ei_role i) (ei_capability i)
    ((λ a, (container_id a, tmux_pane_id a)) <$> container).

Definition identity_of (a : AgentRecord) : EnvelopeIdentity :=
  mkIdentity (agent_id a) (label a) (role a) (Some (capability a)).

(** [assert row is not None] *)
Definition assert_row (row : option QueueRow) : M world QueueRow :=
  match row with Some r => mret r | None => throw (PyError "AssertionError") end.

(** The pair an audit callback returns; [None] would fail to unpack. *)
Definition unpack {A} (x : option A) : M world A :=
  match x with Some a => mret a | None => throw (PyError "TypeError") end.

Definition notify_terminal (mid : string) : M world unit :=
  on_host (λ h, set_woken (woken h ++ [mid]) h).

Definition notify_worker_transition (mid : string) (is_terminal : bool) : M world unit :=
  if is_terminal then notify_terminal mid else mret tt.

(** [row is not None and row.state in _END_OF_WAIT_STATES] *)
Definition settled (row : option QueueRow) : option QState :=
  match row with
  | Some r => if end_of_wait (state r) then Some (state r) else None
  | None => None
  end.

Fixpoint wait_loop (mid : string) (deadline : Z) (readings : list Z) : M world bool :=
  row ← on_db (get_row_by_id mid);
  match settled row with
  | Some st => mret (terminal st)
  | None =>
      match readings with
      | [] => mret false
      | now :: rest =>
          if (deadline - now <=? 0)%Z then mret false else wait_loop mid deadline rest
      end
  end.

(** [_wait_for_terminal]; [start] is the first reading of the clock. *)
Definition wait_for_terminal (mid : string) (timeout start : Z) (readings : list Z)
  : M world bool :=
  wait_loop mid (start + timeout) readings.

Section Service.
Context `{L : AgentsLookup} `{CP : ContainerPaneLookup}.
Variable sha256_hex : string → string.
Variable redactor : text → option text.
Variable envelope_max_bytes : Z.
Variable default_wait : Z.

Definition excerpt_of (body : string) : string :=
  encode (render_excerpt redactor DEFAULT_EXCERPT_CAP body).

(** How the caller waits: not at all, or with an optional timeout and the
    clock readings that follow. *)
Inductive wait_mode := no_wait | wait_for (timeout : option Z) (start : Z) (readings : list Z).

Definition send_input (sender : AgentRecord) (target_input body mid : string)
    (mode : wait_mode) (org : Origin) (rid : option string) (eid : option Z)
  : M world SendInputResult :=
  target ← lift (λ w, (resolve_target target_input, w));
  let sender_identity := identity_of sender in
  let target_identity := identity_of target in
  rendered ← lift (λ w, (serialize_and_check_size mid sender_identity target_identity body
                           envelope_max_bytes, w));
  let size := Z.of_nat (String.length rendered) in
  let sha := sha256_hex body in
  routing_enabled ← is_enabled;
  let decision := evaluate_enqueue_permissions sender target routing_enabled
                    (is_container_active (container_id target))
                    (is_pane_resolvable (container_id target) (tmux_pane_id target)) in
  ts ← now_iso;
  let sender_dict := identity_to_dict sender_identity None in
  let target_dict := identity_to_dict target_identity (Some target) in
  let audit to reason := insert_queue_transition_in_tx
        (mkQueuePayload "queue_message_enqueued" mid None to reason None ts
           (Some sender_dict) (Some target_dict) (excerpt_of body)) in
  res ← if ok decision
        then on_db (insert_queued mid sender_dict target_dict body sha size ts org rid eid
                      (Some (audit queued None)))
        else match block_reason_of decision with
             | None => throw (PyError "AssertionError")
             | Some br =>
                 on_db (insert_blocked mid sender_dict target_dict body sha size ts br org
                          rid eid (Some (audit blocked (Some (block_reason_code br)))))
             end;
  ev ← unpack res;
  _ ← append_jsonl_then_watermark ev.1 ev.2 ts;
  row0 ← on_db (get_row_by_id mid);
  row ← assert_row row0;
  match mode with
  | no_wait => mret (mkSendResult row (terminal (state row)))
  | wait_for timeout start readings =>
      if end_of_wait (state row) then mret (mkSendResult row (terminal (state row)))
      else
        reached ← wait_for_terminal mid (default default_wait timeout) start readings;
        row1 ← on_db (get_row_by_id mid);
        row' ← assert_row row1;
        mret (mkSendResult row' reached)
  end.

Definition enqueue_route_message (sender : AgentRecord) (target_input body mid rid : string)
    (eid : Z) : M world SendInputResult :=
  send_input sender target_input body mid no_wait route (Some rid) (Some eid).

(** ** Operator actions *)

Definition operator_resolvable (br : option BlockReason) : bool :=
  match br with
  | Some operator_delayed | Some target_not_active | Some target_pane_missing
  | Some target_container_inactive => true
  | _ => false
  end.

Definition check_approve_applicable (row : QueueRow) : M world unit :=
  if operator_resolvable (block_reason row) then mret tt
  else if bool_decide (block_reason row = Some kill_switch_off)
  then on ← is_enabled;
       if (on : bool) then mret tt
       else throw (QueueServiceError QSE "approval_not_applicable")
  else throw (QueueServiceError QSE "approval_not_applicable").

Definition approve (mid operator : string) : M world QueueRow :=
  row0 ← on_db (get_row_by_id mid);
  match row0 with
  | None => throw (QueueServiceError QSE "message_id_not_found")
  | Some row =>
      _ ← (if bool_decide (state row = blocked) then check_approve_applicable row
           else mret tt);
      ts ← now_iso;
      res ← on_db (transition_blocked_to_queued_approve mid operator ts
              (Some (insert_queue_transition_in_tx
                 (mkQueuePayload "queue_message_approved" mid (Some blocked) queued
                    (block_reason_code <$> block_reason row) (Some operator) ts
                    (Some (row_sender_dict row)) (Some (row_target_dict row)) EmptyString))));
      ev ← unpack res;
      _ ← append_jsonl_then_watermark ev.1 ev.2 ts;
      row1 ← on_db (get_row_by_id mid);
      row' ← assert_row row1;
      _ ← notify_terminal mid;
      mret row'
  end.

Definition delay (mid operator : string) : M world QueueRow :=
  row0 ← on_db (get_row_by_id mid);
  match row0 with
  | None => throw (QueueServiceError QSE "message_id_not_found")
  | Some row =>
      ts ← now_iso;
      res ← on_db (transition_queued_to_blocked_delay mid operator ts
              (Some (insert_queue_transition_in_tx
                 (mkQueuePayload "queue_message_delayed" mid (Some queued) blocked
                    (Some "operator_delayed") (Some operator) ts
                    (Some (row_sender_dict row)) (Some (row_target_dict row)) EmptyString))));
      ev ← unpack res;
      _ ← append_jsonl_then_watermark ev.1 ev.2 ts;
      _ ← notify_terminal mid;
      row1 ← on_db (get_row_by_id mid);
      assert_row row1
  end.

Definition cancel (mid operator : string) : M world QueueRow :=
  pre_row ← on_db (get_row_by_id mid);
  ts ← now_iso;
  res ← on_db (transition_to_canceled mid operator ts
          (Some (insert_queue_transition_in_tx
             (mkQueuePayload "queue_message_canceled" mid (state <$> pre_row) canceled None
                (Some operator) ts (row_sender_dict <$> pre_row) (row_target_dict <$> pre_row)
                EmptyString))));
  ev ← unpack res;
  _ ← append_jsonl_then_watermark ev.1 ev.2 ts;
  row1 ← on_db (get_row_by_id mid);
  row' ← assert_row row1;
  _ ← notify_terminal mid;
  mret row'.

(** ** Helpers for the socket layer *)

Definition resolve_target_agent_id (target_input : string) : outcome string :=
  obind (resolve_target target_input) (λ a, Ok (agent_id a)).

Definition read_envelope_excerpt (mid : string) : M world string :=
  except (body ← on_db (read_envelope_bytes mid); mret (excerpt_of body))
         (λ _, mret EmptyString).

End Service.

(** ** Every service call is calm *)

Lemma wp_conj {S A} (m : M S A) Q1 Q2 s :
  wp m Q1 s → wp m Q2 s → wp m (λ o s', Q1 o s' ∧ Q2 o s') s.
Proof. by split. Qed.

Lemma calm_undiscard {A} (m : M conn A) : calm_db (discard m) → calm_db m.
Proof.
  intros Hm c Hc. specialize (Hm c Hc). unfold wp, discard, mbind, M_bind in *.
  destruct (m c) as [[a|e] c']; simpl in *.
  - destruct Hm as [(? & ? & Ht) ?]. split; [|done]. split_and!; [done..|]. intros _. by apply Ht.
  - destruct Hm as [Hl ?]. split; [|done]. by eapply live_raise.
Qed.

Lemma run_call_calm p call : calm_db (run_call p call).
Proof.
  intros c (Ht & Hr & Hw). pose proof (locked_db_steps c Hr Hw) as Hl.
  eapply wp_mono; [|by apply run_call_one_step]. intros o c' (Ho & Htx & Hs).
  assert (queue_steps (queue (committed c)) (queue (committed c'))) as Hq.
  { destruct o; [|by rewrite Hs]. eapply rtc_r; [done|done]. }
  split; [|done]. split_and!; [by eapply rely_tail|by eapply queue_steps_wf|done].
Qed.

Lemma calm_is_enabled : calm is_enabled.
Proof.
  apply calm_get. intros w. destruct (flag_cache (hst w)); [apply calm_ret|].
  apply calm_bind; [apply calm_on_db|intros fl].
  - intros c Hc. pose proof Hc as (Ht & Hr & Hw).
    eapply wp_mono; [|by apply wp_read_flag]. intros o c' (Hcm & Ho & Htx & _).
    pose proof (locked_db_steps c Hr Hw) as Hl. rewrite <- Hcm in Hl.
    split; [|done]. apply steady_live. by eapply locked_steady.
  - apply calm_bind; [by apply calm_on_host|intros; apply calm_ret].
Qed.

Lemma calm_lift {A} (o : outcome A) : calm (lift (λ w, (o, w))).
Proof. intros w Hw. split; [by apply steady_live|reflexivity]. Qed.

Lemma calm_get_row mid : calm (on_db (get_row_by_id mid)).
Proof. apply calm_on_db, read_calm. Qed.

Lemma calm_unpack {A} (x : option A) : calm (unpack x).
Proof. destruct x; [apply calm_ret|apply calm_throw]. Qed.

Lemma calm_assert_row x : calm (assert_row x).
Proof. destruct x; [apply calm_ret|apply calm_throw]. Qed.

Lemma calm_notify mid : calm (notify_terminal mid).
Proof. by apply calm_on_host. Qed.

#[export] Hint Resolve calm_ret calm_throw calm_is_enabled calm_lift calm_get_row calm_unpack
  calm_assert_row calm_notify calm_now_iso calm_append_jsonl calm_drain_pending : tower.

(** Walk through the binds and branches of an action. *)
Ltac calm_step :=
  match goal with
  | |- calm (mbind _ _) => apply calm_bind; [|intros ?]
  | |- calm (match ?x with _ => _ end) => destruct x
  | |- calm (except _ _) => apply calm_except; [|intros ?]
  | |- calm _ => solve [eauto with tower]
  end.
Ltac calm_auto := repeat calm_step.

Lemma calm_wait_loop mid deadline readings : calm (wait_loop mid deadline readings).
Proof.
  induction readings as [|now rest IH]; cbn [wait_loop]; calm_auto.
Qed.

#[export] Hint Resolve calm_wait_loop : tower.

Section ServiceCalm.
Context `{L : AgentsLookup} `{CP : ContainerPaneLookup}.
Variable sha256_hex : string → string.
Variable redactor : text → option text.
Variable envelope_max_bytes : Z.
Variable default_wait : Z.

(** A DAO call with its audit row. *)
Local Tactic Notation "by_call" uconstr(c) :=
  apply calm_on_db, calm_undiscard; refine (run_call_calm _ c).

Lemma calm_send_input sender target_input body mid mode org rid eid :
  calm (send_input sha256_hex redactor envelope_max_bytes default_wait
          sender target_input body mid mode org rid eid).
Proof.
  unfold send_input, wait_for_terminal. cbv zeta. calm_auto.
  - by_call (CInsertQueued _ _ _ _ _ _ _ _ _ _).
  - by_call (CInsertBlocked _ _ _ _ _ _ _ _ _ _ _).
Qed.

Lemma calm_approve mid operator : calm (approve mid operator).
Proof.
  unfold approve, check_approve_applicable. calm_auto.
  by_call (CApprove _ _ _).
Qed.

Lemma calm_delay mid operator : calm (delay mid operator).
Proof. unfold delay. calm_auto. by_call (CDelay _ _ _). Qed.

Lemma calm_cancel mid operator : calm (cancel mid operator).
Proof. unfold cancel. calm_auto. by_call (CCancel _ _ _). Qed.
End ServiceCalm.

(** ** Following one call *)

Lemma calm_then {A B} (m : M world A) (k : A → M world B) Q w :
  calm m → steady (db_conn w) →
  (∀ a w', steady (db_conn w') → evolves w w' → wp (k a) Q w') →
  (∀ e w', Q (Raise e) w') → wp (m ≫= k) Q w.
Proof.
  intros Hm Hw Hk Hr. apply wp_bind. eapply wp_mono; [|by apply Hm].
  intros [a|e] w' [Hl He]; [|done]. apply Hk; [by eapply live_steady|done].
Qed.

(** Read a row back: what is returned is what the table holds. *)
Lemma get_row_then {B} mid (k : option QueueRow → M world B) Q w :
  steady (db_conn w) →
  (∀ w', steady (db_conn w') → evolves w w' →
         wp (k (queue (committed (db_conn w')) !! mid)) Q w') →
  (∀ e w', Q (Raise e) w') → wp (on_db (get_row_by_id mid) ≫= k) Q w.
Proof.
  intros Hw Hk Hr. apply wp_bind. pose proof (calm_get_row mid w Hw) as Hc.
  assert (wp (on_db (get_row_by_id mid)) (λ o w', ∀ x, o = Ok x →
            x = queue (committed (db_conn w')) !! mid) w) as Hv.
  { apply wp_on_db, wp_bind, wp_acquire, wp_sql_read; [|done].
    intros fs x [= <-]. unfold view. simpl. by destruct Hw as [-> _]. }
  eapply wp_mono; [|apply (wp_conj _ _ _ _ Hc Hv)]. intros [x|e] w' [[Hl He] Hx]; [|done].
  rewrite (Hx x eq_refl). apply Hk; [by eapply live_steady|done].
Qed.

(** The state and reason the permission gate gives a new row. *)
Definition landing (d : Decision') : QState * option BlockReason :=
  if ok d then (queued, None) else (blocked, block_reason_of d).

Section ServiceProps.
Context `{L : AgentsLookup} `{CP : ContainerPaneLookup}.
Variable sha256_hex : string → string.
Variable redactor : text → option text.
Variable envelope_max_bytes : Z.
Variable default_wait : Z.

(** The row [send_input] writes, before anyone else touches it. *)
Definition enqueued_row (mid : string) (sender target : AgentRecord) (body rendered ts : string)
    (d : Decision') (org : Origin) (rid : option string) (eid : option Z) : QueueRow :=
  new_row mid (landing d).1 (landing d).2
    (identity_to_dict (identity_of sender) None)
    (identity_to_dict (identity_of target) (Some target))
    (container_id target, tmux_pane_id target) body (sha256_hex body)
    (Z.of_nat (String.length rendered)) ts org rid eid.

(** The insert of either branch puts the enqueued row in the table. *)
Lemma insert_then {B} st br p mid s t loc body sha size ts org rid eid
    (k : option (Z * payload) → M world B) (Q : outcome B → world → Prop) w
    (m : M conn (option (Z * payload))) :
  m = with_lock_retry (insert_with st br mid s t body sha size ts org rid eid
                         (Some (insert_queue_transition_in_tx p))) →
  calm_db m → p_location t = Some loc → steady (db_conn w) →
  (∀ res w', steady (db_conn w') → evolves w w' →
     queue (committed (db_conn w)) !! mid = None →
     queue (committed (db_conn w')) !! mid =
       Some (new_row mid st br s t loc body sha size ts org rid eid) →
     wp (k res) Q w') →
  (∀ e w', Q (Raise e) w') → wp (on_db m ≫= k) Q w.
Proof.
  intros -> Hcalm Hloc Hw Hk Hr. apply wp_bind.
  pose proof (calm_on_db _ Hcalm w Hw) as Hc. pose proof Hw as (Ht & Hrely & Hwf).
  pose proof (insert_spec (audited p) (Some (insert_queue_transition_in_tx p))
    (audit_callback_ok p) st br mid s t body sha size ts org rid eid (db_conn w) Ht Hrely Hwf)
    as Hi.
  assert (wp (on_db (with_lock_retry (insert_with st br mid s t body sha size ts org rid eid
      (Some (insert_queue_transition_in_tx p))))) (λ o w', ∀ x, o = Ok x →
    queue (committed (db_conn w)) !! mid = None ∧
    queue (committed (db_conn w')) !! mid =
       Some (new_row mid st br s t loc body sha size ts org rid eid)) w) as Hv.
  { apply wp_on_db. eapply wp_mono; [|exact Hi]. intros o c' (_ & _ & Hp) x ->.
    destruct Hp as (loc' & Hloc' & Hnone & _ & _ & HW). simplify_eq.
    apply with_callback_queue in HW. simpl. rewrite HW. simpl.
    rewrite lookup_insert_eq. split; [|done].
    pose proof (locked_db_steps _ Hrely Hwf) as Hst.
    destruct (queue (committed (db_conn w)) !! mid) as [r|] eqn:E; [|done].
    destruct (queue_steps_row _ _ _ _ Hst E) as (r' & Hr' & _). congruence. }
  eapply wp_mono; [|apply (wp_conj _ _ _ _ Hc Hv)]. intros [x|e] w' [[Hl He] Hx]; [|done].
  destruct (Hx x eq_refl). apply Hk; [by eapply live_steady|done..].
Qed.

(** After the insert: the audit line, the read back, and the result. *)
Lemma enqueue_tail mid ts r0 (res : option (Z * payload)) w
    (Q : outcome SendInputResult → world → Prop) :
  steady (db_conn w) → queue (committed (db_conn w)) !! mid = Some r0 →
  (∀ r w', steady (db_conn w') → evolves w w' →
     queue (committed (db_conn w')) !! mid = Some r → rtc row_step r0 r →
     Q (Ok (mkSendResult r (terminal (state r)))) w') →
  (∀ e w', Q (Raise e) w') →
  wp (ev ← unpack res; _ ← append_jsonl_then_watermark ev.1 ev.2 ts;
      row0 ← on_db (get_row_by_id mid); row ← assert_row row0;
      mret (mkSendResult row (terminal (state row)))) Q w.
Proof.
  intros Hw Hr0 HQ Hr. apply calm_then; [apply calm_unpack|done| |done].
  intros ev w1 Hw1 E1. apply calm_then; [apply calm_append_jsonl|done| |done].
  intros _ w2 Hw2 E2. apply get_row_then; [done| |done]. intros w3 Hw3 E3.
  assert (E : evolves w w3) by (etrans; [done|by etrans]).
  destruct (queue_steps_row _ _ _ _ (proj1 E) Hr0) as (r & Hrr & Hst). rewrite Hrr.
  apply wp_bind, wp_ret, wp_ret. by apply HQ.
Qed.

(** What [send_input] without waiting returns. *)
Definition enqueue_result (sender : AgentRecord) (target_input body mid : string) (org : Origin)
    (rid : option string) (eid : option Z) (w : world) (res : SendInputResult) (w' : world)
  : Prop :=
  ∃ target rendered fl ts r0,
    resolve_target target_input = Ok target ∧
    serialize_and_check_size mid (identity_of sender) (identity_of target) body
      envelope_max_bytes = Ok rendered ∧
    flag (committed (db_conn w)) = Some fl ∧
    r0 = enqueued_row mid sender target body rendered ts
           (evaluate_enqueue_permissions sender target (bool_decide (value fl = "enabled"))
              (is_container_active (container_id target))
              (is_pane_resolvable (container_id target) (tmux_pane_id target))) org rid eid ∧
    queue (committed (db_conn w)) !! mid = None ∧ rtc row_step r0 (sent_row res) ∧
    queue (committed (db_conn w')) !! mid = Some (sent_row res) ∧
    waited_to_terminal res = terminal (state (sent_row res)).

Lemma send_input_run sender target_input body mid org rid eid w :
  flag_ready w →
  wp (send_input sha256_hex redactor envelope_max_bytes default_wait
        sender target_input body mid no_wait org rid eid)
     (λ o w', ∀ res, o = Ok res →
        enqueue_result sender target_input body mid org rid eid w res w') w.
Proof.
  intros Hready. pose proof Hready as (Hw & _). unfold send_input. cbv zeta.
  apply wp_bind. destruct (resolve_target target_input) as [target|e] eqn:Htg; [|done].
  apply wp_bind. destruct (serialize_and_check_size _ _ _ _ _) as [rendered|e] eqn:Hser; [|done].
  apply wp_bind. eapply wp_mono;
    [|apply (wp_conj _ _ _ _ (calm_is_enabled w Hw) (is_enabled_post w Hready))].
  intros [en|e] w1 [[Hl1 E1] (_ & Hf1 & Hen)]; [|done].
  destruct (Hen en eq_refl) as (fl & Hfl & ->). apply live_steady in Hl1.
  apply calm_then; [apply calm_now_iso|done| |done]. intros ts w2 Hw2 E2.
  assert (E12 : evolves w w2) by by etrans.
  set (d := evaluate_enqueue_permissions _ _ _ _ _).
  assert (Hdone : ∀ r0 res w3, steady (db_conn w3) → evolves w2 w3 →
    queue (committed (db_conn w2)) !! mid = None →
    queue (committed (db_conn w3)) !! mid = Some r0 →
    r0 = enqueued_row mid sender target body rendered ts d org rid eid →
    wp (ev ← unpack res; _ ← append_jsonl_then_watermark ev.1 ev.2 ts;
        row0 ← on_db (get_row_by_id mid); row ← assert_row row0;
        mret (mkSendResult row (terminal (state row))))
       (λ o w', ∀ res, o = Ok res →
          enqueue_result sender target_input body mid org rid eid w res w') w3).
  { intros r0 res w3 Hw3 E3 Hn Hr0 Heq. eapply enqueue_tail; [done..| |done].
    intros r w4 Hw4 E4 Hr Hst res' [= <-]. exists target, rendered, fl, ts, r0.
    split_and!; try done.
    destruct (queue (committed (db_conn w)) !! mid) as [x|] eqn:Ex; [|done].
    destruct (queue_steps_row _ _ _ _ (proj1 E12) Ex) as (x' & Hx' & _). congruence. }
  destruct (ok d) eqn:Hok.
  - eapply insert_then; [reflexivity| |reflexivity|done| |done].
    { apply calm_undiscard. refine (run_call_calm _ (CInsertQueued _ _ _ _ _ _ _ _ _ _)). }
    intros res w3 Hw3 E3 Hn Hr0. eapply Hdone; try done.
    unfold enqueued_row, landing. by rewrite Hok.
  - destruct (block_reason_of d) as [br|] eqn:Hbr; [|done].
    eapply insert_then; [reflexivity| |reflexivity|done| |done].
    { apply calm_undiscard. refine (run_call_calm _ (CInsertBlocked _ _ _ _ _ _ _ _ _ _ _)). }
    intros res w3 Hw3 E3 Hn Hr0. eapply Hdone; try done.
    unfold enqueued_row, landing. by rewrite Hok, Hbr.
Qed.
End ServiceProps.

Lemma wait_loop_true mid deadline readings w :
  steady (db_conn w) →
  wp (wait_loop mid deadline readings) (λ o w', o = Ok true →
    ∃ r, queue (committed (db_conn w')) !! mid = Some r ∧ terminal (state r) = true) w.
Proof.
  revert w. induction readings as [|now rest IH]; intros w Hw; cbn [wait_loop];
    (apply get_row_then; [done| |done]); intros w1 Hw1 E1; unfold settled.
  - destruct (queue (committed (db_conn w1)) !! mid) as [r|] eqn:Er; [|by apply wp_ret].
    destruct (end_of_wait (state r)) eqn:He; [|by apply wp_ret]. apply wp_ret. simpl.
    intros [= Ht]. eauto.
  - destruct (queue (committed (db_conn w1)) !! mid) as [r|] eqn:Er;
      [destruct (end_of_wait (state r)) eqn:He|].
    + apply wp_ret. simpl. intros [= Ht]. eauto.
    + destruct (_ <=? 0)%Z; [by apply wp_ret|by apply IH].
    + destruct (_ <=? 0)%Z; [by apply wp_ret|by apply IH].
Qed.

Section ServiceClaims.
Context `{L : AgentsLookup} `{CP : ContainerPaneLookup}.
Variable sha256_hex : string → string.
Variable redactor : text → option text.
Variable envelope_max_bytes : Z.
Variable default_wait : Z.

Local Abbreviation send := (send_input sha256_hex redactor envelope_max_bytes default_wait).

(** After the insert, whatever the wait mode. *)
Lemma wait_tail mid mode row w :
  steady (db_conn w) →
  wp (match mode with
      | no_wait => mret (mkSendResult row (terminal (state row)))
      | wait_for timeout start readings =>
          if end_of_wait (state row) then mret (mkSendResult row (terminal (state row)))
          else
            reached ← wait_for_terminal mid (default default_wait timeout) start readings;
            row1 ← on_db (get_row_by_id mid);
            row' ← assert_row row1;
            mret (mkSendResult row' reached)
      end) (λ o _, ∀ res, o = Ok res → waited_to_terminal res = true →
               terminal (state (sent_row res)) = true) w.
Proof.
  intros Hw. destruct mode as [|timeout start readings]; [apply wp_ret; by intros res [= <-]|].
  destruct (end_of_wait (state row)); [apply wp_ret; by intros res [= <-]|].
  apply wp_bind. unfold wait_for_terminal. eapply wp_mono;
    [|apply (wp_conj _ _ _ _ (calm_wait_loop _ _ _ w Hw) (wait_loop_true _ _ _ w Hw))].
  intros [reached|e] w1 [[Hl E1] Ht]; [|done]. apply live_steady in Hl.
  apply get_row_then; [done| |done]. intros w2 Hw2 E2.
  destruct (queue (committed (db_conn w2)) !! mid) as [r2|] eqn:Er2; [|done].
  apply wp_bind, wp_ret, wp_ret. intros res [= <-]. simpl. intros ->.
  destruct (Ht eq_refl) as (r1 & Hr1 & Hterm).
  destruct (queue_steps_row _ _ _ _ (proj1 E2) Hr1) as (r' & Hr' & Hst). simplify_eq.
  destruct Hl as (_ & _ & Hwf & _). destruct (Hwf _ _ Hr1) as [_ Hrow].
  by rewrite (terminal_row_constant _ _ Hrow Hterm Hst).
Qed.

Lemma send_input_waited sender target_input body mid mode org rid eid w :
  steady (db_conn w) →
  wp (send sender target_input body mid mode org rid eid)
     (λ o _, ∀ res, o = Ok res → waited_to_terminal res = true →
             terminal (state (sent_row res)) = true) w.
Proof.
  intros Hw. unfold send_input. cbv zeta.
  apply calm_then; [apply calm_lift|done| |done]. intros target w1 Hw1 _.
  apply calm_then; [apply calm_lift|done| |done]. intros rendered w2 Hw2 _.
  apply calm_then; [apply calm_is_enabled|done| |done]. intros en w3 Hw3 _.
  apply calm_then; [apply calm_now_iso|done| |done]. intros ts w4 Hw4 _.
  apply calm_then; [|done| |done].
  { destruct (ok _); [|destruct (block_reason_of _); [|apply calm_throw]];
      apply calm_on_db, calm_undiscard.
    - refine (run_call_calm _ (CInsertQueued _ _ _ _ _ _ _ _ _ _)).
    - refine (run_call_calm _ (CInsertBlocked _ _ _ _ _ _ _ _ _ _ _)). }
  intros res w5 Hw5 _. apply calm_then; [apply calm_unpack|done| |done].
  intros ev w6 Hw6 _. apply calm_then; [apply calm_append_jsonl|done| |done].
  intros _ w7 Hw7 _. apply calm_then; [apply calm_get_row|done| |done].
  intros row0 w8 Hw8 _. apply calm_then; [apply calm_assert_row|done| |done].
  intros row w9 Hw9 _. by apply wait_tail.
Qed.

End ServiceClaims.

(** ** Properties *)


Definition demo_master : AgentRecord :=
  mkAgent "agt_0123456789ab" "c1" "/tmp/s" "main" 0 0 "%0" "master" "lead" "lead" "/p" None
    "{}" "t0" "t0" None true.
Definition demo_slave : AgentRecord :=
  mkAgent "agt_ba9876543210" "c1" "/tmp/s" "main" 0 1 "%1" "slave" "build" "coder" "/p" None
    "{}" "t0" "t0" None true.
Definition demo_lookup : ContainerPaneLookup :=
  {| is_container_active _ := true; is_pane_resolvable _ _ := true |}.


(** An unresolvable target or a rejected body stops [send_input] before any
    effect: the same error comes out and the state of the daemon is untouched. *)
Theorem send_input_rejects_early `{L : AgentsLookup} `{CP : ContainerPaneLookup}
    sha256_hex redactor envelope_max_bytes default_wait
    sender target_input body mid mode org rid eid w e :
  obind (resolve_target target_input) (λ target,
    serialize_and_check_size mid (identity_of sender) (identity_of target) body
      envelope_max_bytes) = Raise e →
  send_input sha256_hex redactor envelope_max_bytes default_wait
    sender target_input body mid mode org rid eid w = (Raise e, w).
Proof.
  intros H. unfold send_input. cbv zeta. unfold mbind at 1, M_bind at 1, lift at 1.
  destruct (resolve_target target_input) as [target|e'] eqn:Ht; simpl in H; [|congruence].
  unfold mbind at 1, M_bind at 1, lift at 1. by rewrite H.
Qed.

Lemma send_input_rejects_early_witness :
  let L := RegistryAgentsLookup [demo_master; demo_slave] in
  let CP := demo_lookup in
  let w := mkWorld (idle empty_db) demo_host in
  send_input (λ b, b) (λ t, Some t) 65536 10000
    demo_master "coder" EmptyString "m1" no_wait direct None None w
  = (Raise (QueueServiceError BodyValidation "body_empty"), w).
Proof.
  intros L CP w. apply (send_input_rejects_early (L := L) (CP := CP)). vm_compute. reflexivity.
Defined.

(** The flag [waited_to_terminal] is true only for a row that is delivered,
    failed or canceled, however the wait ended and whatever happened between the
    last wake-up and the final read. *)
Theorem waited_to_terminal_sound `{L : AgentsLookup} `{CP : ContainerPaneLookup}
    sha256_hex redactor envelope_max_bytes default_wait
    sender target_input body mid mode org rid eid w :
  steady (db_conn w) →
  wp (send_input sha256_hex redactor envelope_max_bytes default_wait
        sender target_input body mid mode org rid eid)
     (λ o _, ∀ res, o = Ok res → waited_to_terminal res = true →
             terminal (state (sent_row res)) = true) w.
Proof. apply send_input_waited. Qed.

Definition demo_world : world := mkWorld (idle empty_db) demo_host.

Lemma waited_to_terminal_sound_witness :
  let L := RegistryAgentsLookup [demo_master; demo_slave] in
  let CP := demo_lookup in
  let send := send_input (λ b, b) (λ t, Some t) 65536 10000
                demo_master "coder" "hello" "m1" (wait_for None 0 [5%Z; 20000%Z]) direct None None in
  is_ok (send demo_world).1 = true ∧
  wp send (λ o _, ∀ res, o = Ok res → waited_to_terminal res = true →
             terminal (state (sent_row res)) = true) demo_world.
Proof.
  intros L CP send. split; [vm_compute; reflexivity|].
  apply (waited_to_terminal_sound (L := L) (CP := CP)). apply demo_flag_ready.
Defined.

(** An operator cannot approve what an operator cannot resolve: a message
    blocked for its sender's or target's role, or by the kill switch while routing
    is still disabled, is refused with [approval_not_applicable]; nothing is
    committed and nothing is audited. *)
Theorem approve_refuses_intrinsic mid operator w r :
  quiet (db_conn w) → flag_ready w →
  queue (committed (db_conn w)) !! mid = Some r → state r = blocked →
  match block_reason r with
  | Some sender_role_not_permitted | Some target_role_not_permitted => True
  | Some kill_switch_off =>
      ∃ fl, flag (committed (db_conn w)) = Some fl ∧ value fl ≠ "enabled"
  | _ => False
  end →
  wp (approve mid operator) (λ o w',
    o = Raise (QueueServiceError QSE "approval_not_applicable") ∧
    committed (db_conn w') = committed (db_conn w) ∧
    jsonl (hst w') = jsonl (hst w) ∧ pending (hst w') = pending (hst w)) w.
Proof.
  intros (Ht & Hf & Ho) Hready Hr Hst Hbr. unfold approve. apply wp_bind, wp_on_db.
  assert (Hget : get_row_by_id mid (db_conn w) = (Ok (Some r), db_conn w)).
  { unfold get_row_by_id, acquire, sql_read, statement, view, lift, mbind, M_bind.
    by rewrite Ho, Hf, Ht; simpl; rewrite Hr. }
  unfold wp at 1. rewrite Hget. simpl. rewrite bool_decide_true by done.
  apply wp_bind. unfold check_approve_applicable.
  destruct (block_reason r) as [[]|] eqn:Eb; try done; simpl.
  assert (Hen : is_enabled (mkWorld (db_conn w) (hst w)) =
    (Ok false, mkWorld (db_conn w) (set_cache (flag_cache (hst w)) (hst w)))
    ∨ is_enabled (mkWorld (db_conn w) (hst w)) =
    (Ok false, mkWorld (db_conn w) (set_cache (value <$> flag (committed (db_conn w))) (hst w)))).
  { destruct Hbr as (fl & Hfl & Hv). destruct Hready as (_ & _ & fl' & Hfl' & Hc).
    simplify_eq. unfold is_enabled, get, mbind, M_bind. simpl.
    destruct (flag_cache (hst w)) as [v|] eqn:Ec.
    - left. pose proof (Hc v eq_refl) as ->. rewrite bool_decide_false by done.
      do 2 f_equal. by destruct (hst w); simpl in *; subst.
    - right. unfold on_db, zoom, read_routing_flag, acquire, sql_read, statement, view, lift,
        mbind, M_bind. simpl. rewrite Ho, Hf, Ht. simpl. rewrite Hfl'. simpl.
      by rewrite bool_decide_false. }
  apply wp_bind. unfold wp at 1. destruct Hen as [-> | ->]; simpl; by apply wp_throw.
Qed.

Definition demo_blocked_world : world :=
  mkWorld (idle (table_of (demo_row blocked (Some target_role_not_permitted)))) demo_host.

Lemma approve_refuses_intrinsic_witness :
  wp (approve "m1" "host-operator") (λ o w',
    o = Raise (QueueServiceError QSE "approval_not_applicable") ∧
    committed (db_conn w') = committed (db_conn demo_blocked_world) ∧
    jsonl (hst w') = [] ∧ pending (hst w') = pending demo_host) demo_blocked_world.
Proof.
  apply (approve_refuses_intrinsic "m1" "host-operator" demo_blocked_world
           (demo_row blocked (Some target_role_not_permitted)));
    [split_and!; reflexivity| |vm_compute; reflexivity|reflexivity|exact I].
  split_and!.
  - apply idle_steady. split_and!; [reflexivity|left; split_and!; reflexivity|].
    split_and!; try reflexivity. eexists. reflexivity.
  - constructor.
  - eexists. split; [reflexivity|]. discriminate.
Defined.
