(* ===== verification/Delivery.v ===== *)
(** The delivery worker (src/src/agenttower/routing/delivery.py): crash recovery,
    one turn of the worker loop, and the delivery of one message through tmux.

    A tmux call is logged whatever its outcome: a failed or interrupted call may
    have reached the pane, so counting attempts over-approximates pastes. *)

From S2P Require Import Prelude Errors Agents Permissions Store QueueDao Utf8 Envelope AuditWriter QueueSpec QueueSession AuditSpec Lookups KillSwitch QueueService.

(** ** tmux *)

(** One call of the tmux adapter. *)
Definition tmux (call : tmux_call) : M world unit := λ w,
  let h := hst w in
  let log io := mkWorld (db_conn w) (set_tmux io (tmux_calls h ++ [call]) h) in
  match tmux_io h with
  | Some (T_error fr) :: rest => (Raise (TmuxError fr), log rest)
  | Some (T_other n) :: rest => (Raise (PyError n), log rest)
  | Some T_kill :: rest => (Raise SystemExit, log rest)
  | None :: rest => (Ok tt, log rest)
  | [] => (Ok tt, log [])
  end.

(** [try: m except SqliteLockConflict: h] *)
Definition on_lock_conflict {A} (m h : M world A) : M world A :=
  catch m (λ e, if is_lock_conflict e then h else throw e).

(** [try: m except TmuxError: ...], keeping whether the buffer was loaded. *)
Definition tmux_guard (load_succeeded : bool) (m : M world unit)
  : M world (option (bool * option string)) :=
  catch (_ ← m; mret None)
    (λ e, match e with
          | TmuxError fr => mret (Some (load_succeeded, fr))
          | _ => throw e
          end).

(** [try: m except TmuxError: log] *)
Definition ignore_tmux_error (m : M world unit) : M world unit :=
  catch m (λ e, match e with TmuxError _ => mret tt | _ => throw e end).

(** [x or default] on an optional string. *)
Definition or_else (x : option string) (d : string) : string :=
  match x with None | Some EmptyString => d | Some s => s end.

Definition buffer_name (mid : string) : string := "agenttower-" +:+ mid.

(** ** Recovery *)

Definition recovery_payload (ts : string) (r : QueueRow) : QueuePayload :=
  mkQueuePayload "queue_message_failed" (message_id r) (Some queued) failed
    (Some "attempt_interrupted") None ts (Some (row_sender_dict r)) (Some (row_target_dict r))
    EmptyString.

(** [_audit_recovered]: one events row per snapshot row, remembered in the
    closure's list. *)
Definition audit_recovered (ts : string) (rows : list QueueRow) (_count : nat) : M conn unit :=
  discard (mapM (λ r,
    ev ← insert_queue_transition_in_tx (recovery_payload ts r);
    capture (ev.1, r)) rows).

Definition run_recovery_pass : M world nat :=
  ts ← now_iso;
  rows ← on_db snapshot_in_flight_identities;
  match rows with
  | [] => mret 0
  | _ =>
      _ ← on_db take_captured;
      count ← on_db (recover_in_flight_rows ts (Some (audit_recovered ts rows)));
      pending_jsonl ← on_db take_captured;
      _ ← mapM (λ er : Z * QueueRow,
            append_jsonl_then_watermark er.1 (QueueTransition (recovery_payload ts er.2)) ts)
            pending_jsonl;
      mret count
  end.

(** ** Transition helpers *)

Definition transition_payload (ty : string) (r : QueueRow) (to : QState)
    (reason : option string) (ts excerpt : string) : QueuePayload :=
  mkQueuePayload ty (message_id r) (Some queued) to reason None ts
    (Some (row_sender_dict r)) (Some (row_target_dict r)) excerpt.

(** The common tail: JSONL line, then wake the waiter; [None] is a lost lock. *)
Definition finish_transition (mid ts : string) (res : option (option (Z * payload)))
  : M world unit :=
  match res with
  | None => mret tt
  | Some x =>
      ev ← unpack x;
      _ ← append_jsonl_then_watermark ev.1 ev.2 ts;
      notify_worker_transition mid true
  end.

Definition transition_to_blocked_re_check (row : QueueRow) (br : BlockReason) (ts : string)
  : M world unit :=
  let audit := insert_queue_transition_in_tx
    (transition_payload "queue_message_blocked" row blocked (Some (block_reason_code br)) ts
       EmptyString) in
  res ← on_lock_conflict
          (x ← on_db (transition_queued_to_blocked_re_check (message_id row) br ts (Some audit));
           mret (Some x)) (mret None);
  finish_transition (message_id row) ts res.

Definition transition_to_failed (row : QueueRow) (reason ts : string) : M world unit :=
  let audit := insert_queue_transition_in_tx
    (transition_payload "queue_message_failed" row failed (Some reason) ts EmptyString) in
  res ← on_lock_conflict
          (x ← on_db (transition_queued_to_failed (message_id row) reason ts (Some audit));
           mret (Some x)) (mret None);
  finish_transition (message_id row) ts res.

Section Worker.
Context `{L : AgentsLookup} `{CP : ContainerPaneLookup} `{DR : DeliveryContextResolver}.
Variable redactor : text → option text.

(** *** The tmux sequence *)

Definition tmux_sequence (ctx : DeliveryContext) (mid body : string)
  : M world (option (bool * option string)) :=
  let c := ctx_container_id ctx in let u := ctx_bench_user ctx in
  let s := ctx_socket_path ctx in let p := ctx_pane_id ctx in
  f1 ← tmux_guard false (tmux (load_buffer c u s (buffer_name mid) body));
  match f1 with
  | Some f => mret (Some f)
  | None =>
      f2 ← tmux_guard true (tmux (paste_buffer c u s p (buffer_name mid)));
      match f2 with
      | Some f => mret (Some f)
      | None => tmux_guard true (tmux (send_keys c u s p "Enter"))
      end
  end.

Definition delete_call (ctx : DeliveryContext) (mid : string) : tmux_call :=
  delete_buffer (ctx_container_id ctx) (ctx_bench_user ctx) (ctx_socket_path ctx)
    (buffer_name mid).

(** After the stamp: paste, clean up, settle. *)
Definition attempt_delivery (row : QueueRow) (ctx : DeliveryContext) : M world unit :=
  let mid := message_id row in
  body ← on_db (read_envelope_bytes mid);
  failure ← tmux_sequence ctx mid body;
  match failure with
  | Some (load_succeeded, fr) =>
      _ ← (if (load_succeeded : bool) then ignore_tmux_error (tmux (delete_call ctx mid))
           else mret tt);
      ts ← now_iso;
      transition_to_failed row (or_else fr "tmux_paste_failed") ts
  | None =>
      _ ← ignore_tmux_error (tmux (delete_call ctx mid));
      ts_delivered ← now_iso;
      let audit := insert_queue_transition_in_tx
        (transition_payload "queue_message_delivered" row delivered None ts_delivered
           (excerpt_of redactor body)) in
      res ← on_lock_conflict
              (x ← on_db (transition_queued_to_delivered mid ts_delivered (Some audit));
               mret (Some x)) (mret None);
      match res with
      | None =>
          ts ← now_iso;
          transition_to_failed row "sqlite_lock_conflict" ts
      | Some _ => finish_transition mid ts_delivered res
      end
  end.

Definition deliver_one (row : QueueRow) : M world unit :=
  ts_before_recheck ← now_iso;
  match get_agent_by_id (target_agent_id row) with
  | None => transition_to_blocked_re_check row target_not_active ts_before_recheck
  | Some target =>
      let container_active := is_container_active (target_container_id row) in
      let pane_resolvable :=
        is_pane_resolvable (target_container_id row) (target_pane_id row) in
      routing_enabled ← is_enabled;
      let decision :=
        recheck_target_only target routing_enabled container_active pane_resolvable in
      if negb (ok decision)
      then match block_reason_of decision with
           | None => throw (PyError "AssertionError")
           | Some br => transition_to_blocked_re_check row br ts_before_recheck
           end
      else
        match resolve row with
        | Raise e =>
            if is_exception e
            then transition_to_blocked_re_check row target_pane_missing ts_before_recheck
            else throw e
        | Ok ctx =>
            ts_stamp ← now_iso;
            stamped ← on_lock_conflict
              (_ ← on_db (stamp_delivery_attempt_started (message_id row) ts_stamp);
               mret true) (mret false);
            if (stamped : bool) then attempt_delivery row ctx else mret tt
        end
  end.

(** One turn of [_run_loop]; sleeping has no effect on the state. *)
Definition run_loop_turn : M world unit :=
  _ ← except (discard drain_pending) (λ _, mret tt);
  on ← is_enabled;
  if negb on then mret tt
  else
    row ← except (on_db pick_next_ready_row) (λ _, mret None);
    match row with
    | None => mret tt
    | Some r => except (deliver_one r) (λ _, mret tt)
    end.
End Worker.

(** Safety of delivery: the attempt is durably stamped before anything reaches
    tmux, and over any history of turns, requests, crashes and restarts no message
    is pasted twice. *)

(** ** The quiet parts of the worker *)

Lemma calm_on_lock_conflict {A} (m h : M world A) : calm m → calm h → calm (on_lock_conflict m h).
Proof.
  intros Hm Hh. apply calm_catch; [done| |done]. intros e _.
  destruct (is_lock_conflict e); [done|apply calm_throw].
Qed.

Lemma calm_finish_transition mid ts res : calm (finish_transition mid ts res).
Proof. unfold finish_transition, notify_worker_transition. calm_auto. Qed.

#[export] Hint Resolve calm_finish_transition : tower.

Lemma calm_to_blocked row br ts : calm (transition_to_blocked_re_check row br ts).
Proof.
  unfold transition_to_blocked_re_check. cbv zeta. apply calm_bind; [|intros; calm_auto].
  apply calm_on_lock_conflict; [|apply calm_ret]. apply calm_bind; [|intros; apply calm_ret].
  apply calm_on_db, calm_undiscard. refine (run_call_calm _ (CBlockedRecheck _ _ _)).
Qed.

Lemma calm_to_failed row reason ts : calm (transition_to_failed row reason ts).
Proof.
  unfold transition_to_failed. cbv zeta. apply calm_bind; [|intros; calm_auto].
  apply calm_on_lock_conflict; [|apply calm_ret]. apply calm_bind; [|intros; apply calm_ret].
  apply calm_on_db, calm_undiscard. refine (run_call_calm _ (CFailed _ _ _)).
Qed.

#[export] Hint Resolve calm_to_blocked calm_to_failed : tower.

(** *** Recovery *)

(** The events rows of a recovery: one per interrupted row, numbered on. *)
Fixpoint recovery_events (ts : string) (seq : Z) (rows : list QueueRow) : list EventRow :=
  match rows with
  | [] => []
  | r :: rest =>
      mkEvent (seq + 1) "queue_message_failed" (target_agent_id r) ts EmptyString None
      :: recovery_events ts (seq + 1) rest
  end.

Definition recovery_audited (ts : string) (rows : list QueueRow) (d : db) (_ : unit) (d' : db)
  : Prop :=
  d' = mkDb (queue d) (flag d) (events d ++ recovery_events ts (events_seq d) rows)
         (events_seq d + Z.of_nat (length rows)) (routes d).

Lemma audit_recovered_ok ts rows n :
  callback_ok (recovery_audited ts rows) (audit_recovered ts rows n).
Proof.
  intros c d Ht. apply wp_bind.
  assert (wp (mapM (λ r, ev ← insert_queue_transition_in_tx (recovery_payload ts r);
                         capture (ev.1, r)) rows)
    (λ o c', committed c' = committed c ∧ others c' = others c ∧
       match o with
       | Ok _ => ∃ d', txn c' = Some d' ∧ recovery_audited ts rows d tt d'
       | Raise e => is_Some (txn c') ∧ is_queue_service_error e = false
       end) c) as H.
  { revert c d Ht. induction rows as [|r rows IH]; intros c d Ht.
    - apply wp_ret. split_and!; [done..|]. exists d. split; [done|].
      unfold recovery_audited. simpl. rewrite app_nil_r, Z.add_0_r. by destruct d.
    - simpl. apply wp_bind, wp_bind. eapply wp_mono; [|by apply audit_callback_ok].
      intros [ev|e] c1 (Hc1 & Ho1 & Hr1); [|done].
      destruct Hr1 as (d1 & Ht1 & (target & Htg & -> & ->) & _).
      apply wp_modify, wp_bind. eapply wp_mono; [|by eapply IH].
      intros o c2 (Hc2 & Ho2 & Hr2). simpl in *.
      assert (committed c2 = committed c ∧ others c2 = others c) as [Hcc Hoo] by (split; congruence).
      destruct o as [l|e]; [|done]. apply wp_ret. split_and!; [done..|].
      destruct Hr2 as (d2 & Ht2 & ->). eexists. split; [done|].
      unfold recovery_audited. simpl in *. simplify_eq. rewrite <- app_assoc. f_equal. lia. }
  eapply wp_mono; [|exact H]. intros [l|e] c' (Hc & Ho & Hr); [|done].
  apply wp_ret. split_and!; [done..|]. destruct Hr as (d' & Htx & Hd). exists d'.
  split_and!; [done..|]. by rewrite Hd.
Qed.

Lemma recover_spec' ts rows :
  dao_spec
    (λ d _ d', recovery_audited ts rows (set_queue (recovered_queue ts (queue d)) d) tt d')
    (λ _ _, False) (recover_in_flight_rows ts (Some (audit_recovered ts rows))).
Proof.
  intros c Ht Hr Hw. eapply wp_mono;
    [|apply (recover_spec (recovery_audited ts rows) (Some (audit_recovered ts rows)) ts); try done].
  - intros [n|e] c' (Ho & Htx & Hp); (split; [done|]; split; [done|]); [|done]. by destruct Hp.
  - intros k n [= <-]. apply audit_recovered_ok.
Qed.

Lemma recover_calm ts rows : calm_db (recover_in_flight_rows ts (Some (audit_recovered ts rows))).
Proof.
  eapply dao_calm; [apply recover_spec'|]. intros d n d' Hwf Hd. rewrite Hd. simpl.
  eapply rtc_once. by apply recovered_step.
Qed.

Lemma take_captured_calm : calm_db take_captured.
Proof. intros c (? & ? & ?). unfold wp. simpl. by split_and!. Qed.

Lemma calm_mapM {A B} (f : A → M world B) xs : (∀ x, calm (f x)) → calm (mapM f xs).
Proof. intros Hf. induction xs as [|x xs IH]; simpl; calm_auto. Qed.

Lemma calm_recovery : calm run_recovery_pass.
Proof.
  unfold run_recovery_pass, snapshot_in_flight_identities. apply calm_bind; [calm_auto|intros ts].
  apply calm_bind; [apply calm_on_db, read_calm|intros rows].
  destruct rows as [|r rows]; [apply calm_ret|].
  apply calm_bind; [apply calm_on_db, take_captured_calm|intros _].
  apply calm_bind; [apply calm_on_db, recover_calm|intros n].
  apply calm_bind; [apply calm_on_db, take_captured_calm|intros caps].
  apply calm_bind; [apply calm_mapM; intros; calm_auto|intros; apply calm_ret].
Qed.

(** ** The call log of one attempt *)

Definition started_in (q : gmap string QueueRow) (mid : string) : Prop :=
  ∃ r ts, q !! mid = Some r ∧ delivery_attempt_started_at r = Some ts.

Lemma started_persists q q' mid : queue_steps q q' → started_in q mid → started_in q' mid.
Proof.
  intros Hst (r & ts & Hr & Hts). destruct (queue_steps_row _ _ _ _ Hst Hr) as (r' & Hr' & Hrs).
  exists r', ts. split; [done|]. by eapply rtc_row_step_started.
Qed.

(** The database is the same and the calls [new] were added to the log. *)
Definition called (w : world) (new : list tmux_call) (w' : world) : Prop :=
  db_conn w' = db_conn w ∧ tmux_calls (hst w') = tmux_calls (hst w) ++ new.

Lemma wp_tmux call (Q : outcome unit → world → Prop) w :
  (∀ o w', called w [call] w' → Q o w') → wp (tmux call) Q w.
Proof.
  intros H. unfold wp, tmux. destruct (tmux_io (hst w)) as [|[[]|] rest]; by apply H.
Qed.

Lemma wp_tmux_guard b call (Q : outcome (option (bool * option string)) → world → Prop) w :
  (∀ o w', called w [call] w' →
     match o with Ok (Some (b', _)) => b' = b | _ => True end → Q o w') →
  wp (tmux_guard b (tmux call)) Q w.
Proof.
  intros H. apply wp_catch, wp_bind, wp_tmux. intros [[]|e] w' Hc.
  - apply wp_ret. by apply H.
  - destruct e; try (apply wp_throw; by apply H). apply wp_ret. by apply H.
Qed.

Section Calls.
Variables (ctx : DeliveryContext) (mid body : string).
Let c := ctx_container_id ctx.
Let u := ctx_bench_user ctx.
Let s := ctx_socket_path ctx.
Let p := ctx_pane_id ctx.

Definition load_call := load_buffer c u s (buffer_name mid) body.
Definition paste_call := paste_buffer c u s p (buffer_name mid).
Definition enter_call := send_keys c u s p "Enter".

(** What one attempt may have asked of tmux, in order. *)
Definition attempt_calls (new : list tmux_call) : Prop :=
  new ∈ [[]; [load_call]; [load_call; paste_call]; [load_call; paste_call; enter_call];
         [load_call; paste_call; enter_call; delete_call ctx mid];
         [load_call; paste_call; delete_call ctx mid]].

Lemma tmux_sequence_post w :
  wp (tmux_sequence ctx mid body) (λ o w', ∃ new, called w new w' ∧
    match o with
    | Ok None => new = [load_call; paste_call; enter_call]
    | Ok (Some (false, _)) => new = [load_call]
    | Ok (Some (true, _)) =>
        new = [load_call; paste_call] ∨ new = [load_call; paste_call; enter_call]
    | Raise _ => attempt_calls new
    end) w.
Proof.
  apply wp_bind, wp_tmux_guard. intros o1 w1 [Hd1 Hc1] Ho1.
  destruct o1 as [[[b fr]|]|e]; [apply wp_ret; subst b; by exists [load_call]| |
    exists [load_call]; split; [done|set_solver]].
  apply wp_bind, wp_tmux_guard. intros o2 w2 [Hd2 Hc2] Ho2.
  assert (called w [load_call; paste_call] w2) as H2.
  { split; [congruence|]. by rewrite Hc2, Hc1, <- app_assoc. }
  destruct o2 as [[[b fr]|]|e];
    [apply wp_ret; subst b; eauto| |eexists; split; [done|set_solver]].
  apply wp_tmux_guard. intros o3 w3 [Hd3 Hc3] Ho3.
  assert (called w [load_call; paste_call; enter_call] w3) as H3.
  { destruct H2 as [Hd Hc]. split; [congruence|]. by rewrite Hc3, Hc, <- app_assoc. }
  destruct o3 as [[[b fr]|]|e]; [subst b; eauto|eauto|].
  eexists. split; [done|set_solver].
Qed.
End Calls.

(** An action that moves the queue along its specification and adds to the log. *)
Definition noisy {A} (w : world) (P : list tmux_call → Prop) (o : outcome A) (w' : world) : Prop :=
  live o (db_conn w') ∧
  queue_steps (queue (committed (db_conn w))) (queue (committed (db_conn w'))) ∧
  ∃ new, tmux_calls (hst w') = tmux_calls (hst w) ++ new ∧ P new.

(** A calm action after some calls. *)
Lemma calm_noisy {A} (m : M world A) w w1 new (P : list tmux_call → Prop) :
  calm m → steady (db_conn w1) →
  queue_steps (queue (committed (db_conn w))) (queue (committed (db_conn w1))) →
  tmux_calls (hst w1) = tmux_calls (hst w) ++ new → P new →
  wp m (noisy w P) w1.
Proof.
  intros Hm Hs Hq Hc HP. eapply wp_mono; [|by apply Hm]. intros o w2 [Hl [Hq2 Hc2]].
  split; [done|]. split; [by etrans|]. exists new. by rewrite Hc2.
Qed.

Lemma wp_ignore_tmux_error call (Q : outcome unit → world → Prop) w :
  (∀ o w', called w [call] w' → Q o w') → wp (ignore_tmux_error (tmux call)) Q w.
Proof.
  intros H. apply wp_catch, wp_tmux. intros [[]|e] w' Hc; [by apply H|].
  destruct e; by apply H.
Qed.

Lemma frozen_body r r' : frozen_of r' = frozen_of r → envelope_body r' = envelope_body r.
Proof. intros H. exact (f_equal envelope_body H). Qed.

(** Reading the body of a message that exists. *)
Lemma read_body_post mid r w :
  steady (db_conn w) → queue (committed (db_conn w)) !! mid = Some r →
  wp (on_db (read_envelope_bytes mid)) (λ o w', live o (db_conn w') ∧ evolves w w' ∧
    ∀ b, o = Ok b → b = envelope_body r) w.
Proof.
  intros Hw Hr. apply wp_on_db. pose proof Hw as (Ht & Hrely & Hwf).
  pose proof (locked_db_steps _ Hrely Hwf) as Hst.
  assert (wf_queue (queue (locked_db (db_conn w)))) as Hlw by by eapply queue_steps_wf.
  destruct (queue_steps_row _ _ _ _ Hst Hr) as (r' & Hr' & Hrs).
  apply wp_bind, wp_acquire, wp_bind, wp_sql_read.
  - intros fs. unfold view. cbn [txn default]. rewrite Ht. cbn. rewrite Hr'. apply wp_ret.
    split; [split_and!; [by eapply rely_tail|done|done]|]. split; [done|].
    intros b [= <-]. by apply frozen_body, rtc_row_step_frozen.
  - intros e fs. split; [split_and!; [by eapply rely_tail|done|done]|]. by split.
Qed.

Section AttemptPost.
Variable redactor : text → option text.

(** Settling an attempt whose tmux sequence went through. *)
Lemma calm_settle_delivered row ts excerpt :
  calm (res ← on_lock_conflict
          (x ← on_db (transition_queued_to_delivered (message_id row) ts
              (Some (insert_queue_transition_in_tx
                 (transition_payload "queue_message_delivered" row delivered None ts excerpt))));
           mret (Some x)) (mret None);
        match res with
        | None => ts' ← now_iso; transition_to_failed row "sqlite_lock_conflict" ts'
        | Some _ => finish_transition (message_id row) ts res
        end).
Proof.
  apply calm_bind.
  - apply calm_on_lock_conflict; [|apply calm_ret].
    apply calm_bind; [|intros; apply calm_ret].
    apply calm_on_db, calm_undiscard. refine (run_call_calm _ (CDelivered _ _)).
  - intros [x|]; calm_auto.
Qed.

Lemma attempt_delivery_post row ctx r w :
  steady (db_conn w) → queue (committed (db_conn w)) !! message_id row = Some r →
  wp (attempt_delivery redactor row ctx)
     (noisy w (attempt_calls ctx (message_id row) (envelope_body r))) w.
Proof.
  intros Hw Hr. unfold attempt_delivery. cbv zeta. set (mid := message_id row) in *.
  apply wp_bind. eapply wp_mono; [|by apply (read_body_post mid r)].
  intros [body|e] w1 (Hl1 & [Hq1 Hc1] & Hb);
    [|split; [by eapply live_raise|split; [done|]]; exists []; split;
      [by rewrite app_nil_r|set_solver]].
  rewrite (Hb body eq_refl). clear Hb. apply live_steady in Hl1.
  apply wp_bind. eapply wp_mono; [|apply tmux_sequence_post].
  intros o w2 (new & [Hd2 Hc2] & Ho).
  assert (steady (db_conn w2)) as Hw2 by (by rewrite Hd2).
  assert (queue_steps (queue (committed (db_conn w))) (queue (committed (db_conn w2)))) as Hq2
    by by rewrite Hd2.
  assert (tmux_calls (hst w2) = tmux_calls (hst w) ++ new) as Hcalls by by rewrite Hc2, Hc1.
  destruct o as [[[b fr]|]|e].
  - destruct b; [|subst new; apply wp_bind, wp_ret;
      eapply calm_noisy; [calm_auto|done..|set_solver]].
    apply wp_bind, wp_ignore_tmux_error. intros o w3 [Hd3 Hc3].
    assert (steady (db_conn w3)) as Hw3 by (by rewrite Hd3).
    assert (tmux_calls (hst w3) = tmux_calls (hst w) ++ (new ++ [delete_call ctx mid])) as Hcalls3
      by by rewrite Hc3, Hcalls, app_assoc.
    assert (attempt_calls ctx mid (envelope_body r) (new ++ [delete_call ctx mid])) as HP
      by (destruct Ho; subst new; set_solver).
    destruct o as [[]|e].
    + eapply calm_noisy; [calm_auto|done|by rewrite Hd3|done..].
    + split; [by apply steady_live|]. split; [by rewrite Hd3|eauto].
  - apply wp_bind, wp_ignore_tmux_error. intros o w3 [Hd3 Hc3].
    assert (steady (db_conn w3)) as Hw3 by (by rewrite Hd3).
    assert (tmux_calls (hst w3) = tmux_calls (hst w) ++ (new ++ [delete_call ctx mid])) as Hcalls3
      by by rewrite Hc3, Hcalls, app_assoc.
    assert (attempt_calls ctx mid (envelope_body r) (new ++ [delete_call ctx mid])) as HP
      by (subst new; set_solver).
    destruct o as [[]|e].
    + eapply calm_noisy; [|done|by rewrite Hd3|done..].
      apply calm_bind; [calm_auto|intros ts]. apply calm_settle_delivered.
    + split; [by apply steady_live|]. split; [by rewrite Hd3|eauto].
  - split; [by apply steady_live|]. split; [done|eauto].
Qed.
End AttemptPost.

(** ** One delivery *)

Lemma stamp_calm mid ts : calm_db (stamp_delivery_attempt_started mid ts).
Proof.
  apply (run_call_calm (mkQueuePayload EmptyString EmptyString None queued None None EmptyString
    None None EmptyString) (CStamp mid ts)).
Qed.

(** A stamp that succeeds found the message unstamped, and stamped it. *)
Lemma stamp_post mid ts w :
  steady (db_conn w) →
  wp (on_lock_conflict (_ ← on_db (stamp_delivery_attempt_started mid ts); mret true) (mret false))
     (λ o w', (live o (db_conn w') ∧ evolves w w') ∧
       (o = Ok true → ¬ started_in (queue (committed (db_conn w))) mid ∧
                      started_in (queue (committed (db_conn w'))) mid)) w.
Proof.
  intros Hw. apply wp_conj.
  { apply calm_on_lock_conflict; [|apply calm_ret|done].
    apply calm_bind; [apply calm_on_db, stamp_calm|intros; apply calm_ret]. }
  apply wp_catch, wp_bind, wp_on_db. pose proof Hw as (Ht & Hrely & Hwf).
  eapply wp_mono; [|by apply stamp_spec]. intros [[]|e] c' (_ & _ & Hp).
  - apply wp_ret. intros _. destruct Hp as (r & Hr & Hready & Hc'). apply ready_spec in Hready.
    pose proof (locked_db_steps _ Hrely Hwf) as Hst. split.
    + intros Hstarted. destruct (started_persists _ _ _ Hst Hstarted) as (x & ts' & Hx & Hts).
      naive_solver.
    + exists (stamp_row ts r), ts. simpl. rewrite Hc'. simpl. by rewrite lookup_insert_eq.
  - destruct (is_lock_conflict e); by apply wp_ret || by apply wp_throw.
Qed.

(** What one delivery may leave behind: nothing asked of tmux, or a message that
    was unstamped and is now stamped, with one attempt's calls on its stored body. *)
Definition attempt_of (mid : string) (q q' : gmap string QueueRow) (new : list tmux_call) : Prop :=
  ¬ started_in q mid ∧ started_in q' mid ∧
  ∃ ctx r, q' !! mid = Some r ∧ attempt_calls ctx mid (envelope_body r) new.

Definition delivery_post {A} (mid : string) (w : world) (o : outcome A) (w' : world) : Prop :=
  noisy w (λ new, new = [] ∨
    attempt_of mid (queue (committed (db_conn w))) (queue (committed (db_conn w'))) new) o w'.

Lemma calm_delivery {A} (m : M world A) mid w :
  calm m → steady (db_conn w) → wp m (delivery_post mid w) w.
Proof.
  intros Hm Hw. eapply wp_mono; [|by apply Hm]. intros o w' [Hl [Hq Hc]].
  split; [done|]. split; [done|]. exists []. rewrite app_nil_r. split; [done|by left].
Qed.

Lemma delivery_post_after {A} mid w w1 (o : outcome A) w2 :
  evolves w w1 → delivery_post mid w1 o w2 → delivery_post mid w o w2.
Proof.
  intros [Hq Hc] (Hl2 & Hq2 & new & Hc2 & HP). split; [done|]. split; [by etrans|].
  exists new. split; [by rewrite Hc2, Hc|]. destruct HP as [HP|(Hns & Hs & HP)]; [by left|].
  right. split; [|done]. intros Hst. apply Hns. by eapply started_persists.
Qed.

Lemma delivery_post_none {A} mid w (o : outcome A) w' :
  live o (db_conn w') → evolves w w' → delivery_post mid w o w'.
Proof.
  intros Hl [Hq Hc]. split; [done|]. split; [done|]. exists []. rewrite app_nil_r.
  split; [done|by left].
Qed.

(** A delivery that starts with a calm action. *)
Lemma calm_then_delivery {A B} (m : M world A) (k : A → M world B) mid w :
  calm m → steady (db_conn w) →
  (∀ a w1, steady (db_conn w1) → wp (k a) (delivery_post mid w1) w1) →
  wp (m ≫= k) (delivery_post mid w) w.
Proof.
  intros Hm Hw Hk. apply wp_bind. eapply wp_mono; [|by apply Hm].
  intros [a|e] w1 [Hl He].
  - eapply wp_mono; [|apply Hk; by eapply live_steady]. intros o w2. by apply delivery_post_after.
  - apply delivery_post_none; [by eapply live_raise|done].
Qed.

(** The same, for whichever message the turn picks. *)
Lemma calm_then_turn {A B} (m : M world A) (k : A → M world B) w :
  calm m → steady (db_conn w) →
  (∀ a w1, steady (db_conn w1) → wp (k a) (λ o w', ∃ mid, delivery_post mid w1 o w') w1) →
  wp (m ≫= k) (λ o w', ∃ mid, delivery_post mid w o w') w.
Proof.
  intros Hm Hw Hk. apply wp_bind. eapply wp_mono; [|by apply Hm].
  intros [a|e] w1 [Hl He].
  - eapply wp_mono; [|apply Hk; by eapply live_steady]. intros o w2 [mid Hd].
    exists mid. by eapply delivery_post_after.
  - exists EmptyString. apply delivery_post_none; [by eapply live_raise|done].
Qed.

Section DeliverOne.
Context `{L : AgentsLookup} `{CP : ContainerPaneLookup} `{DR : DeliveryContextResolver}.
Variable redactor : text → option text.

Lemma stamped_attempt_post row ctx ts w :
  steady (db_conn w) →
  wp (stamped ← on_lock_conflict
        (_ ← on_db (stamp_delivery_attempt_started (message_id row) ts); mret true) (mret false);
      if (stamped : bool) then attempt_delivery redactor row ctx else mret tt)
     (delivery_post (message_id row) w) w.
Proof.
  intros Hw. apply wp_bind. eapply wp_mono; [|by apply stamp_post].
  intros [[|]|e] w1 [[Hl [Hq Hc]] Hst].
  - destruct (Hst eq_refl) as [Hns Hs]. apply live_steady in Hl.
    pose proof Hs as (r & ts' & Hr & _).
    eapply wp_mono; [|by apply (attempt_delivery_post redactor row ctx r)].
    intros o w2 (Hl2 & Hq2 & new & Hc2 & HP). split; [done|]. split; [by etrans|].
    exists new. split; [by rewrite Hc2, Hc|]. right. split; [done|].
    split; [by eapply started_persists|].
    destruct (queue_steps_row _ _ _ _ Hq2 Hr) as (r2 & Hr2 & Hrs). exists ctx, r2.
    split; [exact Hr2|]. rewrite (frozen_body r r2); [exact HP|by apply rtc_row_step_frozen].
  - apply wp_ret, delivery_post_none; [|done]. apply steady_live. by eapply live_steady.
  - apply delivery_post_none; [by eapply live_raise|done].
Qed.

Lemma deliver_one_post row w :
  steady (db_conn w) → wp (deliver_one redactor row) (delivery_post (message_id row) w) w.
Proof.
  intros Hw. unfold deliver_one. apply calm_then_delivery; [calm_auto|done|].
  intros ts w1 Hw1. destruct (get_agent_by_id _) as [target|];
    [|apply calm_delivery; [apply calm_to_blocked|done]].
  cbv zeta. apply calm_then_delivery; [apply calm_is_enabled|done|]. intros en w2 Hw2.
  destruct (negb _).
  { apply calm_delivery; [|done].
    destruct (block_reason_of _); [apply calm_to_blocked|apply calm_throw]. }
  destruct (resolve row) as [ctx|e].
  - apply calm_then_delivery; [apply calm_now_iso|done|]. intros ts' w3 Hw3.
    by apply stamped_attempt_post.
  - apply calm_delivery; [|done].
    destruct (is_exception e); [apply calm_to_blocked|apply calm_throw].
Qed.

Lemma except_delivery mid (m : M world unit) w :
  wp m (delivery_post mid w) w → wp (except m (λ _, mret tt)) (delivery_post mid w) w.
Proof.
  intros Hm. apply wp_except. revert Hm. apply wp_mono. intros [u|e] w1 Hd; [done|].
  destruct (is_exception e) eqn:He; [|done]. apply wp_ret.
  destruct Hd as (Hl & Hq & Hd). split; [|done]. apply steady_live. by eapply live_raise_steady.
Qed.

(** One turn of the loop delivers at most one message. *)
Lemma run_loop_turn_post w :
  steady (db_conn w) → wp (run_loop_turn redactor) (λ o w', ∃ mid, delivery_post mid w o w') w.
Proof.
  intros Hw. unfold run_loop_turn.
  apply calm_then_turn; [unfold discard; calm_auto|done|]. intros _ w1 Hw1.
  apply calm_then_turn; [calm_auto|done|]. intros on w2 Hw2. destruct (negb on).
  { apply wp_ret. exists EmptyString. apply delivery_post_none; [by apply steady_live|reflexivity]. }
  apply calm_then_turn; [|done|].
  { apply calm_except; [apply calm_on_db, read_calm|intros; apply calm_ret]. }
  intros [r|] w3 Hw3.
  - eapply wp_mono; [|by apply except_delivery, deliver_one_post]. eauto.
  - apply wp_ret. exists EmptyString. apply delivery_post_none; [by apply steady_live|reflexivity].
Qed.
End DeliverOne.

(** ** Histories of the daemon *)

Lemma calm_set_flag v operator ts :
  v ∈ ["enabled"; "disabled"] →
  calm (set_flag_value v operator ts
          (Some (λ previous, insert_routing_toggled_in_tx previous v operator ts))).
Proof.
  intros Hv. unfold set_flag_value. apply calm_bind.
  - apply calm_on_db. intros c Hc. pose proof Hc as (Ht & Hr & Hw).
    eapply wp_mono; [|by apply wp_read_flag]. intros o c' (Hcm & Ho & Htx & _).
    pose proof (locked_db_steps c Hr Hw) as Hl. rewrite <- Hcm in Hl.
    split; [|done]. apply steady_live. by eapply locked_steady.
  - intros fl. cbv zeta. destruct (negb _).
    + apply calm_bind.
      * apply calm_on_db. eapply dao_calm.
        -- by apply (write_flag_spec (toggled (value fl) v operator ts)
             (Some (insert_routing_toggled_in_tx (value fl) v operator ts)) v ts operator
             (toggled_callback_ok _ _ _ _)).
        -- intros d a d' _ [-> _]. reflexivity.
      * intros x. apply calm_bind; [by apply calm_on_host|intros; apply calm_ret].
    + apply calm_bind; [by apply calm_on_host|intros; apply calm_ret].
Qed.

(** What happens to the daemon: turns of the worker under the registries of the
    moment, requests, and restarts. *)
Inductive daemon_event :=
| Turn (L : AgentsLookup) (CP : ContainerPaneLookup) (DR : DeliveryContextResolver)
| SendInput (L : AgentsLookup) (CP : ContainerPaneLookup) (sender : AgentRecord)
    (target_input body mid : string) (mode : wait_mode) (org : Origin) (rid : option string)
    (eid : option Z)
| Approve (mid operator : string)
| Delay (mid operator : string)
| Cancel (mid operator : string)
| Enable (operator ts : string)
| Disable (operator ts : string)
| Restart.

(** A new process: the open transaction, the audit buffer, the flag cache and the
    waiters are gone; the database and the files are not. *)
Definition reboot (w : world) : world :=
  let h := hst w in
  mkWorld (set_txn None (db_conn w))
    (mkHost (clock h) (jsonl_io h) (jsonl h) [] (max_pending h) None None (tmux_io h)
       (tmux_calls h) []).

(** The process dies exactly when [SystemExit] comes out. *)
Definition survive {A} (r : outcome A * world) : world :=
  match r with
  | (Raise SystemExit, w') => reboot w'
  | (_, w') => w'
  end.

Section History.
Variables (sha256_hex : string → string) (redactor : text → option text).
Variables (envelope_max_bytes default_wait : Z).

Definition run_event (e : daemon_event) (w : world) : world :=
  match e with
  | Turn L CP DR => survive (run_loop_turn redactor w)
  | SendInput L CP sender target body mid mode org rid eid =>
      survive (send_input sha256_hex redactor envelope_max_bytes default_wait
                 sender target body mid mode org rid eid w)
  | Approve mid op => survive (approve mid op w)
  | Delay mid op => survive (delay mid op w)
  | Cancel mid op => survive (cancel mid op w)
  | Enable op ts => survive (enable op ts
      (Some (λ previous, insert_routing_toggled_in_tx previous "enabled" op ts)) w)
  | Disable op ts => survive (disable op ts
      (Some (λ previous, insert_routing_toggled_in_tx previous "disabled" op ts)) w)
  | Restart => survive (run_recovery_pass (reboot w))
  end.

Definition history (w : world) (es : list daemon_event) : world :=
  fold_left (λ w e, run_event e w) es w.
End History.

(** ** The invariant *)

(** Calls that name the buffer of message [mid]. *)
Definition touches (mid : string) (call : tmux_call) : bool :=
  match call with
  | load_buffer _ _ _ b _ | paste_buffer _ _ _ _ b | delete_buffer _ _ _ b =>
      bool_decide (b = buffer_name mid)
  | send_keys _ _ _ _ _ => false
  end.

Definition is_paste (mid : string) (call : tmux_call) : bool :=
  match call with
  | paste_buffer _ _ _ _ b => bool_decide (b = buffer_name mid)
  | _ => false
  end.

Definition pastes (mid : string) (calls : list tmux_call) : nat :=
  length (filter (λ c, is_paste mid c = true) calls).

(** The body loaded for [mid] is [body], if the call loads [mid]'s buffer. *)
Definition loads (mid : string) (call : tmux_call) : option string :=
  match call with
  | load_buffer _ _ _ b body => if bool_decide (b = buffer_name mid) then Some body else None
  | _ => None
  end.

Definition log_ok (q : gmap string QueueRow) (calls : list tmux_call) : Prop :=
  ∀ mid, pastes mid calls ≤ 1 ∧
    (∀ call, call ∈ calls → touches mid call = true → started_in q mid) ∧
    (∀ call body, call ∈ calls → loads mid call = Some body →
       ∃ r, q !! mid = Some r ∧ envelope_body r = body).

Definition delivery_inv (w : world) : Prop :=
  steady (db_conn w) ∧ log_ok (queue (committed (db_conn w))) (tmux_calls (hst w)).

Lemma buffer_name_inj a b : buffer_name a = buffer_name b → a = b.
Proof. unfold buffer_name. intros H. by simplify_eq/=. Qed.

Lemma pastes_app mid l1 l2 : pastes mid (l1 ++ l2) = pastes mid l1 + pastes mid l2.
Proof. unfold pastes. by rewrite filter_app, length_app. Qed.

Lemma pastes_cons mid c l :
  pastes mid (c :: l) = (if is_paste mid c then 1 else 0) + pastes mid l.
Proof.
  unfold pastes. destruct (is_paste mid c) eqn:E.
  - by rewrite filter_cons_True.
  - by rewrite filter_cons_False by congruence.
Qed.

Lemma paste_touches mid call : is_paste mid call = true → touches mid call = true.
Proof. by destruct call. Qed.

Lemma pastes_zero mid calls :
  (∀ call, call ∈ calls → touches mid call = false) → pastes mid calls = 0.
Proof.
  intros H. unfold pastes. apply length_zero_iff_nil.
  destruct (filter _ calls) as [|x l] eqn:E; [done|].
  assert (x ∈ filter (λ c, is_paste mid c = true) calls) as [Hp Hin]%list_elem_of_filter
    by (rewrite E; by left).
  apply paste_touches in Hp. by rewrite (H _ Hin) in Hp.
Qed.

(** The calls of one attempt name only its own buffer, paste at most once, and
    load the given body. *)
Lemma attempt_calls_own ctx mid body new :
  attempt_calls ctx mid body new →
  pastes mid new ≤ 1 ∧
  ∀ call, call ∈ new → (∀ mid', touches mid' call = true → mid' = mid) ∧
                       (∀ mid' b, loads mid' call = Some b → mid' = mid ∧ b = body).
Proof.
  assert (Ht : ∀ call, call ∈ [load_call ctx mid body; paste_call ctx mid; enter_call ctx;
                               delete_call ctx mid] →
    (∀ mid', touches mid' call = true → mid' = mid) ∧
    (∀ mid' b, loads mid' call = Some b → mid' = mid ∧ b = body)).
  { intros call Hin. apply list_elem_of_In in Hin. simpl in Hin.
    assert (Hb : ∀ m', bool_decide (buffer_name mid = buffer_name m') = true → m' = mid)
      by (intros m' E%bool_decide_eq_true; symmetry; by apply buffer_name_inj).
    destruct Hin as [<-|[<-|[<-|[<-|[]]]]]; (split; [intros mid' H|intros mid' b H]);
      try discriminate H; try by apply Hb.
    unfold load_call, loads in H. destruct (bool_decide _) eqn:E; [|discriminate H].
    injection H as <-. by split; [apply Hb|]. }
  intros Hin. unfold attempt_calls in Hin. apply list_elem_of_In in Hin. simpl in Hin.
  split.
  - assert (is_paste mid (paste_call ctx mid) = true) as E2 by by apply bool_decide_eq_true.
    assert (is_paste mid (load_call ctx mid body) = false) as E1 by done.
    assert (is_paste mid (enter_call ctx) = false) as E3 by done.
    assert (is_paste mid (delete_call ctx mid) = false) as E4 by done.
    assert (pastes mid [] = 0) as E0 by done.
    destruct Hin as [<-|[<-|[<-|[<-|[<-|[<-|[]]]]]]];
      rewrite ?pastes_cons, ?E1, ?E2, ?E3, ?E4, ?E0; lia.
  - intros call Hc%list_elem_of_In. apply Ht, list_elem_of_In. cbn [In] in *.
    destruct Hin as [<-|[<-|[<-|[<-|[<-|[<-|[]]]]]]]; cbn [In] in Hc; tauto.
Qed.

Lemma log_ok_steps q q' calls : queue_steps q q' → log_ok q calls → log_ok q' calls.
Proof.
  intros Hst H mid. destruct (H mid) as (Hp & Ht & Hl). split_and!; [done| |].
  - intros call Hin Htc. eapply started_persists; [done|]. by eapply Ht.
  - intros call body Hin Hb. destruct (Hl call body Hin Hb) as (r & Hr & Hbody).
    destruct (queue_steps_row _ _ _ _ Hst Hr) as (r' & Hr' & Hrs). exists r'. split; [done|].
    rewrite (frozen_body r r'); [done|by apply rtc_row_step_frozen].
Qed.

Lemma log_ok_attempt mid q q' calls new :
  queue_steps q q' → log_ok q calls → attempt_of mid q q' new → log_ok q' (calls ++ new).
Proof.
  intros Hst Hlog (Hns & Hs & ctx & r & Hr & Hac).
  destruct (attempt_calls_own _ _ _ _ Hac) as [Hone Hown].
  pose proof (log_ok_steps _ _ _ Hst Hlog) as Hlog'. intros m.
  destruct (Hlog' m) as (Hp & Ht & Hl). split_and!.
  - rewrite pastes_app. destruct (decide (m = mid)) as [->|Hne].
    + rewrite (pastes_zero mid calls); [done|]. intros call Hin.
      apply not_true_iff_false. intros Htc. apply Hns. by eapply (Hlog mid).
    + rewrite (pastes_zero m new); [lia|]. intros call Hin.
      apply not_true_iff_false. intros Htc. apply Hne. by apply (proj1 (Hown call Hin)).
  - intros call [Hin|Hin]%elem_of_app Htc; [by eapply Ht|].
    destruct (Hown call Hin) as [Ho _]. by rewrite (Ho _ Htc).
  - intros call body [Hin|Hin]%elem_of_app Hb; [by eapply Hl|].
    destruct (Hown call Hin) as [_ Ho]. destruct (Ho _ _ Hb) as [-> ->]. eauto.
Qed.

(** A survivor or a fresh process keeps the invariant. *)
Lemma survive_inv {A} (o : outcome A) w' :
  live o (db_conn w') → log_ok (queue (committed (db_conn w'))) (tmux_calls (hst w')) →
  delivery_inv (survive (o, w')).
Proof.
  intros Hl Hlog. unfold survive. destruct o as [a|e]; [split; [by eapply live_steady|done]|].
  destruct e; try (split; [by eapply live_raise_steady|done]).
  destruct Hl as (? & ? & _). split; [by split_and!|done].
Qed.

Lemma reboot_inv w : delivery_inv w → delivery_inv (reboot w).
Proof. intros [(? & ? & ?) Hlog]. split; [by split_and!|done]. Qed.

Lemma calm_inv {A} (m : M world A) w : calm m → delivery_inv w → delivery_inv (survive (m w)).
Proof.
  intros Hm [Hw Hlog]. specialize (Hm w Hw). unfold wp in Hm. destruct (m w) as [o w'].
  destruct Hm as [Hl [Hq Hc]]. apply survive_inv; [done|]. simpl in *. rewrite Hc.
  by eapply log_ok_steps.
Qed.

Section HistoryInv.
Variables (sha256_hex : string → string) (redactor : text → option text).
Variables (envelope_max_bytes default_wait : Z).

Lemma run_event_inv e w :
  delivery_inv w →
  delivery_inv (run_event sha256_hex redactor envelope_max_bytes default_wait e w).
Proof.
  intros Hw. destruct e; unfold run_event.
  - destruct Hw as [Hs Hlog]. pose proof (run_loop_turn_post redactor w Hs) as HT.
    unfold wp in HT. destruct (run_loop_turn redactor w) as [o w'].
    destruct HT as (mid & Hl & Hq & new & Hc & HP). apply survive_inv; [done|].
    simpl in *. rewrite Hc. destruct HP as [->|HP].
    + rewrite app_nil_r. by eapply log_ok_steps.
    + by eapply log_ok_attempt.
  - by apply calm_inv; [apply calm_send_input|].
  - by apply calm_inv; [apply calm_approve|].
  - by apply calm_inv; [apply calm_delay|].
  - by apply calm_inv; [apply calm_cancel|].
  - apply calm_inv; [|done]. apply calm_set_flag. by left.
  - apply calm_inv; [|done]. apply calm_set_flag. by right; left.
  - apply calm_inv; [apply calm_recovery|by apply reboot_inv].
Qed.

Lemma history_inv es w :
  delivery_inv w →
  delivery_inv (history sha256_hex redactor envelope_max_bytes default_wait w es).
Proof.
  revert w. induction es as [|e es IH]; intros w Hw; [done|]. by apply IH, run_event_inv.
Qed.
End HistoryInv.

(** ** Properties *)

(** C1: at most once.  Over any history of worker turns (under whatever the
    registries say at the time), requests, kill-switch toggles, process deaths at
    any statement or tmux call, and restarts with their recovery pass, no message
    is pasted into a pane more than once. *)
Theorem at_most_once_paste sha256_hex redactor envelope_max_bytes default_wait w es mid :
  delivery_inv w →
  pastes mid (tmux_calls (hst (history sha256_hex redactor envelope_max_bytes default_wait w es)))
    ≤ 1.
Proof. intros Hw. by destruct (history_inv sha256_hex redactor envelope_max_bytes default_wait
  es w Hw) as [_ Hlog]; apply Hlog. Qed.

(** C3: stamp before paste.  At every point of every history, a message for
    which anything was ever asked of tmux has its delivery attempt durably stamped,
    and what was loaded into its buffer is the body stored when it was enqueued;
    hence a message that is blocked or canceled was never pasted. *)
Theorem stamped_before_tmux sha256_hex redactor envelope_max_bytes default_wait w es :
  delivery_inv w →
  let w' := history sha256_hex redactor envelope_max_bytes default_wait w es in
  let q := queue (committed (db_conn w')) in
  ∀ call mid, call ∈ tmux_calls (hst w') → touches mid call = true →
  ∃ r, q !! mid = Some r ∧ is_Some (delivery_attempt_started_at r) ∧
       state r ≠ blocked ∧ state r ≠ canceled ∧
       ∀ body, loads mid call = Some body → body = envelope_body r.
Proof.
  intros Hw w' q call mid Hin Htc.
  destruct (history_inv sha256_hex redactor envelope_max_bytes default_wait es w Hw)
    as [(_ & _ & Hwf & _) Hlog].
  fold w' in Hwf, Hlog. fold q in Hwf, Hlog. destruct (Hlog mid) as (_ & Ht & Hl).
  destruct (Ht call Hin Htc) as (r & ts & Hr & Hts). exists r.
  destruct (Hwf _ _ Hr) as [_ (_ & _ & Hlife)]. unfold lifecycle_ok in Hlife.
  split_and!; [done|by rewrite Hts|intros E; rewrite E in Hlife; naive_solver
              |intros E; rewrite E in Hlife; naive_solver|].
  intros body Hb. destruct (Hl call body Hin Hb) as (r' & Hr' & <-). congruence.
Qed.

Definition demo_resolver : DeliveryContextResolver :=
  {| resolve row := Ok (mkContext (target_container_id row) "dev" "/tmp/s" (target_pane_id row)) |}.

(** Enqueue, deliver (the process dies during the paste), restart, try again. *)
Definition demo_history : list daemon_event :=
  let L := RegistryAgentsLookup [demo_master; demo_slave] in
  [SendInput L demo_lookup demo_master "coder" "hello" "m1" no_wait direct None None;
   Turn L demo_lookup demo_resolver; Restart; Turn L demo_lookup demo_resolver].

Definition demo_crash_world : world :=
  mkWorld (idle empty_db) (set_tmux [None; Some T_kill] [] demo_host).

Lemma demo_delivery_inv : delivery_inv demo_crash_world.
Proof.
  split; [apply demo_flag_ready|]. intros mid. split_and!; [apply Nat.leb_le; reflexivity| |];
    simpl; intros call; [intros H%not_elem_of_nil|intros body H%not_elem_of_nil]; destruct H.
Qed.

Lemma at_most_once_paste_witness :
  let w := history (λ b, b) (λ t, Some t) 65536 10000 demo_crash_world demo_history in
  (failure_reason <$> queue (committed (db_conn w)) !! "m1") =
    Some (Some "attempt_interrupted") ∧
  pastes "m1" (tmux_calls (hst w)) = 1 ∧ pastes "m1" (tmux_calls (hst w)) ≤ 1.
Proof.
  intros w. split; [vm_compute; reflexivity|]. split; [vm_compute; reflexivity|].
  apply (at_most_once_paste (λ b, b) (λ t, Some t) 65536 10000 demo_crash_world demo_history "m1"
    demo_delivery_inv).
Defined.

Lemma stamped_before_tmux_witness :
  let w := history (λ b, b) (λ t, Some t) 65536 10000 demo_crash_world demo_history in
  let call := load_buffer "c1" "dev" "/tmp/s" "agenttower-m1" "hello" in
  ∃ r, queue (committed (db_conn w)) !! "m1" = Some r ∧
       is_Some (delivery_attempt_started_at r) ∧ state r ≠ blocked ∧ state r ≠ canceled ∧
       ∀ body, loads "m1" call = Some body → body = envelope_body r.
Proof.
  intros w call.
  assert (E : tmux_calls (hst w) =
    [call; paste_buffer "c1" "dev" "/tmp/s" "%1" "agenttower-m1"]) by (vm_compute; reflexivity).
  assert (Hin : call ∈ tmux_calls (hst w)) by (rewrite E; apply elem_of_cons; left; reflexivity).
  exact (stamped_before_tmux (λ b, b) (λ t, Some t) 65536 10000 demo_crash_world demo_history
    demo_delivery_inv call "m1" Hin eq_refl).
Defined.
