(* ===== verification/DeliveryProgress.v ===== *)
(** Progress of delivery: recovery leaves nothing in flight, and without faults a
    deliverable message is delivered. *)

From S2P Require Import Prelude Errors Agents Permissions Store QueueDao Utf8 Envelope AuditWriter QueueSpec QueueSession AuditSpec Lookups KillSwitch QueueService Delivery.

(** ** Alone on the connection *)

Definition alone (c : conn) : Prop := txn c = None ∧ others c = [].

(** Any outcome of the watermark leaves the queue exactly as it was. *)
Lemma watermark_alone eid ts c :
  alone c → wp (watermark eid ts) (λ o c', (o ≠ Raise SystemExit → alone c') ∧
    queue (committed c') = queue (committed c)) c.
Proof.
  intros [Ht Ho]. apply wp_bind, wp_acquire, wp_bind, wp_begin; [done| |].
  - intros fs. eapply wp_mono; [|apply (rollback_on_error_spec
      (λ d _ d', queue d' = queue d) (λ _ _, False))].
    + intros o c' (Ho' & Htx & Hp). simpl in *. unfold locked_db in Hp. rewrite Ho in *. simpl in *.
      split; [intros Hne; split; [by apply Htx|done]|]. destruct o; [done|].
      by destruct Hp as [-> _].
    + apply wp_bind. eapply wp_sql_write; [done| | |].
      * intros a d' fs' [= <- <-]. eapply wp_commit; [done| |].
        -- intros fs''. by split_and!.
        -- intros f fs''. split; [done|].
           split_and!; [done|simpl; eauto|apply fault_not_qse].
      * intros e fs' [=].
      * intros f fs'. split; [done|]. split_and!; [done|simpl; eauto|apply fault_not_qse].
  - intros f fs. simpl. unfold locked_db. rewrite Ho. done.
Qed.

Definition alone_frame {A} (m : M world A) : Prop :=
  ∀ w, alone (db_conn w) → wp m (λ o w', (o ≠ Raise SystemExit → alone (db_conn w')) ∧
    queue (committed (db_conn w')) = queue (committed (db_conn w))) w.

Lemma append_event_db p w : wp (append_event p) (λ _ w', db_conn w' = db_conn w) w.
Proof. unfold wp, append_event. by repeat case_match. Qed.

Lemma append_jsonl_alone eid p ts : alone_frame (append_jsonl_then_watermark eid p ts).
Proof.
  intros w Hw. apply wp_bind, wp_except, wp_bind. eapply wp_mono; [|apply append_event_db].
  intros [[]|e] w1 Hd1.
  - apply wp_ret, wp_except, wp_on_db. rewrite Hd1. eapply wp_mono; [|by apply watermark_alone].
    intros [[]|e] c' [Ha Hq]; [done|]. destruct (is_exception e) eqn:He; [|done].
    apply wp_modify. simpl. split; [|done]. intros _. apply Ha. by destruct e.
  - destruct (is_exception e) eqn:He; [|rewrite Hd1; by split].
    apply wp_bind, wp_modify, wp_ret, wp_ret. simpl. by rewrite Hd1.
Qed.

Lemma mapM_alone {A B} (f : A → M world B) xs : (∀ x, alone_frame (f x)) → alone_frame (mapM f xs).
Proof.
  intros Hf. induction xs as [|x xs IH]; intros w Hw; [by apply wp_ret|].
  simpl. apply wp_bind. eapply wp_mono; [|by apply Hf]. intros [y|e] w1 [Ha Hq].
  - apply wp_bind. eapply wp_mono; [|apply IH; by apply Ha]. intros [ys|e] w2 [Ha2 Hq2].
    + apply wp_ret. split; [intros _; by apply Ha2|congruence].
    + split; [|congruence]. intros Hne. apply Ha2. congruence.
  - split; [|done]. intros Hne. apply Ha. congruence.
Qed.

(** ** Recovery *)

Lemma recovered_none ts q k r : recovered_queue ts q !! k = Some r → in_flight r = false.
Proof.
  unfold recovered_queue, update_queue. rewrite lookup_fmap.
  destruct (q !! k) as [x|]; [|done]. simpl. intros [= <-].
  destruct (in_flight x) eqn:E; [|done]. unfold in_flight, fail_row, unset. simpl.
  by rewrite andb_false_r.
Qed.

Lemma recovered_id ts d : rows_where in_flight d = [] → recovered_queue ts (queue d) = queue d.
Proof.
  intros Hn. apply map_eq. intros k. unfold recovered_queue, update_queue. rewrite lookup_fmap.
  destruct (queue d !! k) as [r|] eqn:E; [|done]. simpl. destruct (in_flight r) eqn:Hf; [|done].
  assert (r ∈ rows_where in_flight d) as Hin by (apply elem_rows_where; eauto).
  rewrite Hn in Hin. by apply not_elem_of_nil in Hin.
Qed.

Lemma snapshot_alone w :
  alone (db_conn w) →
  wp (on_db snapshot_in_flight_identities) (λ o w', alone (db_conn w') ∧
    committed (db_conn w') = committed (db_conn w) ∧
    ∀ rows, o = Ok rows → rows = rows_where in_flight (committed (db_conn w))) w.
Proof.
  intros [Ht Ho]. apply wp_on_db, wp_bind, wp_acquire. unfold locked_db. rewrite Ho.
  apply wp_sql_read; simpl.
  - intros fs. split; [done|]. split; [done|]. intros rows [= <-]. unfold view. simpl. by rewrite Ht.
  - intros e fs. by split_and!.
Qed.

Lemma recovery_post w :
  steady (db_conn w) → others (db_conn w) = [] →
  wp run_recovery_pass (λ o w', ∀ n, o = Ok n → ∃ ts,
    queue (committed (db_conn w')) = recovered_queue ts (queue (committed (db_conn w)))) w.
Proof.
  intros Hw Ho. apply wp_bind. unfold wp at 1.
  assert (∃ ts w1, now_iso w = (Ok ts, w1) ∧ db_conn w1 = db_conn w) as (ts & w1 & -> & Hd1).
  { unfold now_iso. destruct (clock (hst w)) as [t [|t' rest]]; eauto. }
  simpl. apply wp_bind. eapply wp_mono; [|apply snapshot_alone].
  2:{ rewrite Hd1. destruct Hw as [? _]. by split. }
  intros [rows|e] w2 (Ha2 & Hc2 & Hrows); [|done]. specialize (Hrows rows eq_refl).
  rewrite Hd1 in Hc2, Hrows. destruct rows as [|r rows].
  { apply wp_ret. intros n _. exists ts. rewrite Hc2. by rewrite recovered_id. }
  apply wp_bind, wp_on_db. unfold wp at 1. simpl. apply wp_bind, wp_on_db. simpl.
  set (c3 := mkConn _ _ _ _ _ _).
  eapply wp_mono; [|apply (recover_spec' ts (r :: rows) c3)].
  - intros [n|e] c' (Ho' & Htx & Hp); [|done].
    apply wp_bind, wp_on_db. unfold wp at 1. simpl. apply wp_bind.
    eapply wp_mono; [|apply (mapM_alone (λ er, append_jsonl_then_watermark er.1
      (QueueTransition (recovery_payload ts er.2)) ts) (captured c'));
      [intros; apply append_jsonl_alone|]].
    + intros [ys|e] w4 [_ Hq]; [|done]. apply wp_ret. intros k [= <-]. exists ts. rewrite Hq. simpl.
      unfold recovery_audited in Hp. rewrite Hp. simpl. unfold locked_db, c3. simpl.
      destruct Ha2 as [_ ->]. by rewrite Hc2.
    + simpl. split; simpl; [by apply Htx|]. rewrite Ho'. unfold c3. simpl. by destruct Ha2 as [_ ->].
  - by destruct Ha2.
  - unfold rely, c3. simpl. destruct Ha2 as [_ ->]. constructor.
  - unfold c3. simpl. rewrite Hc2. by destruct Hw as (_ & _ & ?).
Qed.

(** ** Fault-free runs *)

(** Nothing fails: the database, the event file and tmux answer. *)
Definition healthy (w : world) : Prop :=
  quiet (db_conn w) ∧ jsonl_io (hst w) = [] ∧ tmux_io (hst w) = [].

Definition same_logs (w w' : world) : Prop :=
  tmux_calls (hst w') = tmux_calls (hst w) ∧ jsonl (hst w') = jsonl (hst w) ∧
  woken (hst w') = woken (hst w).

Lemma now_iso_healthy w :
  healthy w → wp now_iso (λ o w', is_ok o = true ∧ healthy w' ∧ same_logs w w' ∧
    db_conn w' = db_conn w ∧ flag_cache (hst w') = flag_cache (hst w)) w.
Proof.
  intros Hw. unfold wp, now_iso. by destruct (clock (hst w)) as [t [|t' rest]].
Qed.

Lemma is_enabled_healthy w fl :
  healthy w → flag (committed (db_conn w)) = Some fl →
  (∀ v, flag_cache (hst w) = Some v → v = value fl) →
  wp is_enabled (λ o w', o = Ok (bool_decide (value fl = "enabled")) ∧ healthy w' ∧
    same_logs w w' ∧ db_conn w' = db_conn w) w.
Proof.
  intros Hw Hfl Hc. pose proof Hw as ((Ht & Hf & Ho) & _). destruct w as [c h]. simpl in *.
  unfold wp, is_enabled, get, mbind, M_bind. simpl.
  destruct (flag_cache h) as [v|] eqn:Ec; [by rewrite (Hc v eq_refl)|].
  unfold on_db, zoom, read_routing_flag, acquire, sql_read, statement, view, lift, mbind, M_bind.
  simpl. rewrite Ho, Hf, Ht. simpl. rewrite Hfl. done.
Qed.

Lemma stamp_healthy mid ts w r :
  healthy w → keys_ok (queue (committed (db_conn w))) →
  queue (committed (db_conn w)) !! mid = Some r → ready r = true →
  check_row (stamp_row ts r) = true →
  wp (on_db (stamp_delivery_attempt_started mid ts)) (λ o w', o = Ok tt ∧ healthy w' ∧
    hst w' = hst w ∧ committed (db_conn w') =
      set_queue (<[mid := stamp_row ts r]> (queue (committed (db_conn w))))
        (committed (db_conn w))) w.
Proof.
  intros (Hq & Hj & Htm) Hk Hr Hready Hck. apply wp_on_db, quiet_bracket; [done|].
  destruct (update_where_hit mid ready (stamp_row ts) _ r Hk Hr Hready Hck) as (n & Hn & Hu).
  apply wp_bind. unfold wp at 1, sql_write, mbind, M_bind, statement, lift, view. simpl.
  rewrite Hu. simpl. rewrite (proj2 (Nat.eqb_neq _ _) Hn). done.
Qed.

Lemma settle_healthy p target mid f w r :
  healthy w → keys_ok (queue (committed (db_conn w))) →
  queue (committed (db_conn w)) !! mid = Some r → state r = queued → in_flight r = true →
  check_row (f r) = true → qp_target p = Some target →
  Text.startswith "queue_message_" (qp_event_type p) = true → qp_event_type p ∈ EVENT_TYPES →
  wp (on_db (terminal_transition_from_in_flight mid f (Some (insert_queue_transition_in_tx p))))
    (λ o w', (∃ eid, o = Ok (Some (eid, QueueTransition p))) ∧ healthy w' ∧ hst w' = hst w ∧
       queue (committed (db_conn w')) = <[mid := f r]> (queue (committed (db_conn w)))) w.
Proof.
  intros (Hq & Hj & Htm) Hk Hr Hst Hfl Hck Hp Hs Hin. apply wp_on_db, quiet_bracket; [done|].
  eapply (quiet_update (audit_result p) (audit_effect p target) _
    (audit_succeeds p target Hp Hs Hin) _ mid
    (λ r, bool_decide (state r = queued) && in_flight r) f r); try done.
  - rewrite Hfl. by rewrite bool_decide_true.
  - intros c' d Hq' Hc'. split; [|done]. split; [by eexists|]. split; [by split|].
    split; [done|]. simpl. by rewrite Hc'.
Qed.

Lemma read_body_healthy mid w r :
  healthy w → queue (committed (db_conn w)) !! mid = Some r →
  wp (on_db (read_envelope_bytes mid)) (λ o w', o = Ok (envelope_body r) ∧ w' = w) w.
Proof.
  intros ((Ht & Hf & Ho) & _) Hr. apply wp_on_db. destruct w as [c h]. simpl in *.
  unfold wp, read_envelope_bytes, acquire, sql_read, statement, view, lift, mbind, M_bind.
  rewrite Ho, Hf, Ht. simpl. by rewrite Hr.
Qed.

Lemma append_jsonl_healthy eid p ts w :
  healthy w →
  wp (append_jsonl_then_watermark eid p ts) (λ o w', o = Ok tt ∧ healthy w' ∧
    queue (committed (db_conn w')) = queue (committed (db_conn w)) ∧
    tmux_calls (hst w') = tmux_calls (hst w) ∧ jsonl (hst w') = jsonl (hst w) ++ [p] ∧
    woken (hst w') = woken (hst w)) w.
Proof.
  intros (Hq & Hj & Htm). destruct (watermark_quiet eid ts _ Hq) as (c' & Hw & Hq').
  pose proof Hq as (Ht & _ & Ho).
  pose proof (watermark_alone eid ts (db_conn w) (conj Ht Ho)) as Ha. unfold wp in Ha.
  rewrite Hw in Ha. destruct Ha as [_ Hqq].
  unfold wp, append_jsonl_then_watermark, append_event, except, catch, mbind, M_bind.
  rewrite Hj. simpl. unfold on_db, zoom. simpl. rewrite Hw. simpl. by split_and!.
Qed.

Lemma tmux_healthy call w :
  healthy w → wp (tmux call) (λ o w', o = Ok tt ∧ healthy w' ∧ db_conn w' = db_conn w ∧
    tmux_calls (hst w') = tmux_calls (hst w) ++ [call] ∧ jsonl (hst w') = jsonl (hst w) ∧
    woken (hst w') = woken (hst w)) w.
Proof. intros (Hq & Hj & Htm). unfold wp, tmux. rewrite Htm. simpl. by split_and!. Qed.

Lemma tmux_guard_healthy b call w :
  healthy w → wp (tmux_guard b (tmux call)) (λ o w', o = Ok None ∧ healthy w' ∧
    db_conn w' = db_conn w ∧ tmux_calls (hst w') = tmux_calls (hst w) ++ [call] ∧
    jsonl (hst w') = jsonl (hst w) ∧ woken (hst w') = woken (hst w)) w.
Proof.
  intros Hw. apply wp_catch, wp_bind. eapply wp_mono; [|by apply tmux_healthy].
  intros o w' (-> & H). by apply wp_ret.
Qed.

Lemma tmux_sequence_healthy ctx mid body w :
  healthy w → wp (tmux_sequence ctx mid body) (λ o w', o = Ok None ∧ healthy w' ∧
    db_conn w' = db_conn w ∧ tmux_calls (hst w') = tmux_calls (hst w) ++
      [load_call ctx mid body; paste_call ctx mid; enter_call ctx] ∧
    jsonl (hst w') = jsonl (hst w) ∧ woken (hst w') = woken (hst w)) w.
Proof.
  intros Hw. apply wp_bind. eapply wp_mono; [|by apply tmux_guard_healthy].
  intros o1 w1 (-> & H1 & D1 & C1 & J1 & K1). apply wp_bind.
  eapply wp_mono; [|by apply tmux_guard_healthy].
  intros o2 w2 (-> & H2 & D2 & C2 & J2 & K2).
  eapply wp_mono; [|by apply tmux_guard_healthy].
  intros o3 w3 (-> & H3 & D3 & C3 & J3 & K3). rewrite C3, C2, C1, <- !app_assoc.
  split_and!; try done; congruence.
Qed.

(** The delivered payload of a row. *)
Definition delivered_payload redactor (row : QueueRow) (ts body : string) : payload :=
  QueueTransition (transition_payload "queue_message_delivered" row delivered None ts
                     (excerpt_of redactor body)).

Lemma attempt_healthy redactor row ctx r w :
  healthy w → wf_queue (queue (committed (db_conn w))) →
  queue (committed (db_conn w)) !! message_id row = Some r →
  state r = queued → in_flight r = true →
  wp (attempt_delivery redactor row ctx) (λ o w', o = Ok tt ∧ ∃ ts,
    queue (committed (db_conn w')) =
      <[message_id row := deliver_row ts r]> (queue (committed (db_conn w))) ∧
    tmux_calls (hst w') = tmux_calls (hst w) ++
      [load_call ctx (message_id row) (envelope_body r); paste_call ctx (message_id row);
       enter_call ctx; delete_call ctx (message_id row)] ∧
    jsonl (hst w') = jsonl (hst w) ++ [delivered_payload redactor row ts (envelope_body r)] ∧
    woken (hst w') = woken (hst w) ++ [message_id row]) w.
Proof.
  intros Hw Hwf Hr Hst Hfl. unfold attempt_delivery. cbv zeta. apply wp_bind.
  eapply wp_mono; [|by apply read_body_healthy]. intros o w' (-> & ->). apply wp_bind.
  eapply wp_mono; [|by apply tmux_sequence_healthy]. intros o w1 (-> & H1 & D1 & C1 & J1 & K1).
  apply wp_bind, wp_catch. eapply wp_mono; [|by apply tmux_healthy].
  intros o w2 (-> & H2 & D2 & C2 & J2 & K2). apply wp_bind.
  eapply wp_mono; [|by apply now_iso_healthy].
  intros [ts|e] w3 (Hok & H3 & (C3 & J3 & K3) & D3 & _); [|done].
  assert (D : db_conn w3 = db_conn w) by congruence.
  assert (Hck : check_row (deliver_row ts r) = true).
  { apply wf_row_check. eapply row_step_wf; [by apply rs_deliver|]. by apply (proj1 Hwf _ _ Hr). }
  apply wp_bind, wp_catch, wp_bind. unfold transition_queued_to_delivered.
  eapply wp_mono; [|apply (settle_healthy _ (row_target_dict row) _ _ _ r)]; try done;
    rewrite ?D; try done; [|by apply wf_keys_ok|by apply (bool_decide_unpack _); vm_compute].
  intros o w4 ((eid & ->) & H4 & Hh4 & Q4). apply wp_ret. unfold finish_transition.
  apply wp_bind, wp_ret, wp_bind. eapply wp_mono; [|by apply append_jsonl_healthy].
  intros o w5 (-> & H5 & Q5 & C5 & J5 & K5). apply wp_modify. simpl. split; [done|].
  exists ts. rewrite Q5, Q4, C5, J5, K5, Hh4, C3, J3, K3, C2, J2, K2, C1, J1, K1, <- app_assoc.
  by split_and!.
Qed.

(** ** Properties *)

(** C31: after a recovery pass with no other thread on the database no message
    is in flight: every interrupted attempt is failed with [attempt_interrupted],
    every other row is untouched, and nothing is sent to tmux. *)
Theorem recovery_settles_in_flight w :
  steady (db_conn w) → others (db_conn w) = [] →
  wp run_recovery_pass (λ o w', ∀ n, o = Ok n →
    (∃ ts, ∀ k r, queue (committed (db_conn w)) !! k = Some r →
       queue (committed (db_conn w')) !! k =
         Some (if in_flight r then fail_row "attempt_interrupted" ts r else r)) ∧
    (∀ k r, queue (committed (db_conn w')) !! k = Some r → in_flight r = false) ∧
    tmux_calls (hst w') = tmux_calls (hst w)) w.
Proof.
  intros Hw Ho. eapply wp_mono; [|apply (wp_conj _ _ _ _ (recovery_post w Hw Ho)
    (calm_recovery w Hw))]. intros o w' [Hq [_ [_ Hc]]] n Hn. destruct (Hq n Hn) as [ts Hts].
  split_and!; [|intros k r; rewrite Hts; apply recovered_none|done].
  exists ts. intros k r Hr. rewrite Hts. unfold recovered_queue, update_queue.
  by rewrite lookup_fmap, Hr.
Qed.

Definition demo_interrupted : world :=
  mkWorld (idle (table_of (stamp_row "t2" (demo_row queued None)))) demo_host.

Lemma recovery_settles_in_flight_witness :
  (run_recovery_pass demo_interrupted).1 = Ok 1 ∧
  wp run_recovery_pass (λ o w', ∀ n, o = Ok n →
    (∃ ts, ∀ k r, queue (committed (db_conn demo_interrupted)) !! k = Some r →
       queue (committed (db_conn w')) !! k =
         Some (if in_flight r then fail_row "attempt_interrupted" ts r else r)) ∧
    (∀ k r, queue (committed (db_conn w')) !! k = Some r → in_flight r = false) ∧
    tmux_calls (hst w') = []) demo_interrupted.
Proof.
  split; [vm_compute; reflexivity|].
  apply (recovery_settles_in_flight demo_interrupted);
    [apply idle_steady, wf_demo_stamped|reflexivity].
Defined.

(** C4: progress.  When nothing fails, routing is enabled, the target passes the
    re-check and its pane resolves, [deliver_one] delivers a ready message: its row
    is stamped and then delivered, the pane gets exactly load, paste, Enter and the
    buffer is deleted, the delivered event reaches the event file and the waiters
    of the message are woken. *)
Theorem deliver_one_succeeds `{L : AgentsLookup} `{CP : ContainerPaneLookup}
    `{DR : DeliveryContextResolver} redactor row target ctx fl w :
  healthy w → wf_queue (queue (committed (db_conn w))) →
  queue (committed (db_conn w)) !! message_id row = Some row → ready row = true →
  flag (committed (db_conn w)) = Some fl → value fl = "enabled" →
  (∀ v, flag_cache (hst w) = Some v → v = value fl) →
  get_agent_by_id (target_agent_id row) = Some target → active target = true →
  is_container_active (target_container_id row) = true →
  is_pane_resolvable (target_container_id row) (target_pane_id row) = true →
  resolve row = Ok ctx →
  wp (deliver_one redactor row) (λ o w', o = Ok tt ∧ ∃ ts1 ts2,
    queue (committed (db_conn w')) =
      <[message_id row := deliver_row ts2 (stamp_row ts1 row)]> (queue (committed (db_conn w))) ∧
    tmux_calls (hst w') = tmux_calls (hst w) ++
      [load_call ctx (message_id row) (envelope_body row); paste_call ctx (message_id row);
       enter_call ctx; delete_call ctx (message_id row)] ∧
    jsonl (hst w') = jsonl (hst w) ++ [delivered_payload redactor row ts2 (envelope_body row)] ∧
    woken (hst w') = woken (hst w) ++ [message_id row]) w.
Proof.
  intros Hw Hwf Hr Hready Hfl Hon Hcache Htg Hact Hca Hpr Hres. unfold deliver_one.
  apply wp_bind. eapply wp_mono; [|by apply now_iso_healthy].
  intros [ts0|e] w1 (Hok1 & H1 & (C1 & J1 & K1) & D1 & F1); [|done]. rewrite Htg. cbv zeta.
  apply wp_bind. eapply wp_mono; [|apply (is_enabled_healthy w1 fl); [done|by rewrite D1|]].
  2:{ intros v. rewrite F1. apply Hcache. }
  intros o w2 (-> & H2 & (C2 & J2 & K2) & D2). rewrite Hca, Hpr, Hon.
  unfold recheck_target_only. rewrite bool_decide_true by done. rewrite Hact. simpl. rewrite Hres.
  apply wp_bind. eapply wp_mono; [|by apply now_iso_healthy].
  intros [ts1|e] w3 (Hok3 & H3 & (C3 & J3 & K3) & D3 & _); [|done].
  assert (D : db_conn w3 = db_conn w) by congruence.
  pose proof (proj1 Hwf _ _ Hr) as [_ Hrow].
  assert (Hws : wf_row (stamp_row ts1 row)) by (eapply row_step_wf; [by apply rs_stamp|done]).
  apply ready_spec in Hready as Hq. destruct Hq as [Hst _].
  apply wp_bind, wp_catch, wp_bind.
  eapply wp_mono; [|apply (stamp_healthy _ ts1 w3 row); try done; rewrite ?D; try done].
  2:{ by apply wf_keys_ok. }
  2:{ by apply wf_row_check. }
  intros o w4 (-> & H4 & Hh4 & Q4). apply wp_ret.
  eapply wp_mono; [|apply (attempt_healthy redactor row ctx (stamp_row ts1 row) w4); try done].
  - intros o w5 (-> & ts2 & Q5 & C5 & J5 & K5). split; [done|]. exists ts1, ts2.
    rewrite Q5, Q4, C5, J5, K5, Hh4, C3, J3, K3, C2, J2, K2, C1, J1, K1, D. simpl.
    by rewrite insert_insert_eq.
  - rewrite Q4, D. simpl. eapply queue_step_wf; [|exact Hwf].
    eapply insert_step; [exact Hr|by apply rs_stamp].
  - rewrite Q4. simpl. by rewrite lookup_insert_eq.
  - by rewrite wf_queued_in_flight.
Qed.

Lemma deliver_one_succeeds_witness :
  let L := RegistryAgentsLookup [demo_master; demo_slave] in
  let CP := demo_lookup in
  let DR := demo_resolver in
  let row := demo_row queued None in
  let w := mkWorld (idle (table_of row)) demo_host in
  let ctx := mkContext "c1" "dev" "/tmp/s" "%1" in
  wp (deliver_one (λ t, Some t) row) (λ o w', o = Ok tt ∧ ∃ ts1 ts2,
    queue (committed (db_conn w')) =
      <["m1" := deliver_row ts2 (stamp_row ts1 row)]> (queue (table_of row)) ∧
    tmux_calls (hst w') = [load_call ctx "m1" "hello"; paste_call ctx "m1"; enter_call ctx;
                           delete_call ctx "m1"] ∧
    jsonl (hst w') = [delivered_payload (λ t, Some t) row ts2 "hello"] ∧
    woken (hst w') = ["m1"]) w.
Proof.
  intros L CP DR row w ctx.
  apply (deliver_one_succeeds (L := L) (CP := CP) (DR := DR) (λ t, Some t) row demo_slave ctx
    (mkFlag "enabled" "t0" "(daemon-init)") w); try reflexivity.
  - split; [split_and!; reflexivity|split; reflexivity].
  - apply wf_queue_singleton, wf_demo_row.
  - discriminate.
Defined.
