(* ===== verification/SourceScope.v ===== *)
(** Source scopes of routes (src/src/agenttower/routing/source_scope.py): the
    [role:<r>[,capability:<c>]] grammar, the parser of a
    [(source_scope_value, source_scope_kind)] pair and the matching rule. *)

From S2P Require Import Prelude Errors Agents Envelope.
From Stdlib Require Import Ascii.

Definition SOURCE_SCOPE_KINDS : list string := ["any"; "agent_id"; "role"].

(** [[A-Za-z0-9_-]] *)
Definition token_char (c : ascii) : bool :=
  let n := nat_of_ascii c in
  ((65 <=? n) && (n <=? 90)) || ((97 <=? n) && (n <=? 122)) ||
  ((48 <=? n) && (n <=? 57)) || (n =? 95) || (n =? 45).

(** [_TOKEN_RE.fullmatch(s)]: [fullmatch] leaves no room for the newline that
    [$] alone would tolerate. *)
Definition TOKEN_RE_fullmatch (s : string) : bool :=
  negb (bool_decide (s = EmptyString)) && Text.all token_char s.

Record ParsedSourceScope := mkScope {
  sc_kind : string;
  sc_agent_id : option string;
  sc_role : option string;
  sc_capability : option string
}.

Definition comma : ascii := ","%char.

Definition parse_role_capability (raw : string) : outcome (string * option string) :=
  let ValueError := Raise (PyError "ValueError") in
  if bool_decide (raw = EmptyString) then ValueError
  else
    let parts := Text.split comma raw in
    if 2 <? length parts then ValueError
    else
      match parts with
      | [] => Raise (PyError "IndexError")
      | role_part :: more =>
          if negb (Text.startswith "role:" role_part) then ValueError
          else
            let r := Text.drop (String.length "role:") role_part in
            if negb (TOKEN_RE_fullmatch r) then ValueError
            else
              match more with
              | [cap_part] =>
                  if negb (Text.startswith "capability:" cap_part) then ValueError
                  else
                    let cap := Text.drop (String.length "capability:") cap_part in
                    if negb (TOKEN_RE_fullmatch cap) then ValueError
                    else Ok (r, Some cap)
              | _ => Ok (r, None)
              end
      end.

Definition route_source_scope_invalid : exn := RouteError "route_source_scope_invalid".

Definition parse_source_scope_value (raw : option string) (kind : string)
  : outcome ParsedSourceScope :=
  if bool_decide (kind ∉ SOURCE_SCOPE_KINDS) then Raise route_source_scope_invalid
  else if bool_decide (kind = "any") then
    match raw with
    | Some _ => Raise route_source_scope_invalid
    | None => Ok (mkScope kind None None None)
    end
  else
    match raw with
    | None | Some EmptyString => Raise route_source_scope_invalid
    | Some v =>
        if bool_decide (kind = "agent_id") then
          if negb (AGENT_ID_RE_match v) then Raise route_source_scope_invalid
          else Ok (mkScope kind (Some v) None None)
        else
          match parse_role_capability v with
          | Ok (r, cap) => Ok (mkScope kind None (Some r) cap)
          | Raise (PyError "ValueError") => Raise route_source_scope_invalid
          | Raise e => Raise e
          end
    end.

Definition matches (parsed : ParsedSourceScope) (event_source_agent_id event_source_role : string)
    (event_source_capability : option string) : bool :=
  if bool_decide (sc_kind parsed = "any") then true
  else if bool_decide (sc_kind parsed = "agent_id") then
    bool_decide (Some event_source_agent_id = sc_agent_id parsed)
  else if negb (bool_decide (Some event_source_role = sc_role parsed)) then false
  else match sc_capability parsed with
       | None => true
       | Some _ => bool_decide (event_source_capability = sc_capability parsed)
       end.

(** ** What a scope means *)

(** The scopes an operator can write, and who belongs to them. *)
Inductive scope :=
| Anyone
| Agent (id : string)
| HasRole (r : string) (cap : option string).

Definition scope_ok (s : scope) : Prop :=
  match s with
  | Anyone => True
  | Agent id => AGENT_ID_RE_match id = true
  | HasRole r cap =>
      TOKEN_RE_fullmatch r = true ∧
      match cap with None => True | Some c => TOKEN_RE_fullmatch c = true end
  end.

(** The two columns that write it down. *)
Definition print_role (r : string) (cap : option string) : string :=
  match cap with
  | None => "role:" +:+ r
  | Some c => "role:" +:+ r +:+ String comma ("capability:" +:+ c)
  end.

Definition print_scope (s : scope) : option string * string :=
  match s with
  | Anyone => (None, "any")
  | Agent id => (Some id, "agent_id")
  | HasRole r cap => (Some (print_role r cap), "role")
  end.

Definition parsed_scope (s : scope) : ParsedSourceScope :=
  match s with
  | Anyone => mkScope "any" None None None
  | Agent id => mkScope "agent_id" (Some id) None None
  | HasRole r cap => mkScope "role" None (Some r) cap
  end.

Definition in_scope (s : scope) (id r : string) (cap : option string) : Prop :=
  match s with
  | Anyone => True
  | Agent a => id = a
  | HasRole r' None => r = r'
  | HasRole r' (Some c) => r = r' ∧ cap = Some c
  end.

(** ** Lemmas *)

Lemma token_no_comma s :
  TOKEN_RE_fullmatch s = true → Text.all (λ c, negb (bool_decide (c = comma))) s = true.
Proof.
  unfold TOKEN_RE_fullmatch. intros [_ H]%andb_true_iff. induction s as [|c s IH]; [done|].
  cbn [Text.all] in *. apply andb_true_iff in H as [Hc Hs]. rewrite (IH Hs), andb_true_r.
  apply negb_true_iff, bool_decide_eq_false. by intros ->.
Qed.

(** [s.split(",")] joined back with commas. *)
Lemma split_join sep s : join (String sep EmptyString) (Text.split sep s) = s.
Proof.
  induction s as [|c s IH]; [done|]. cbn [Text.split]. case_bool_decide as Hc.
  - subst. destruct (Text.split sep s) as [|p l] eqn:E;
      [by destruct (Text.split_nonempty sep s)|].
    change (String sep (join (String sep EmptyString) (p :: l)) = String sep s). by rewrite IH.
  - destruct (Text.split sep s) as [|p [|p' l]] eqn:E;
      [by destruct (Text.split_nonempty sep s)| |]; cbn [join] in *.
    + by rewrite IH.
    + rewrite <- IH. done.
Qed.

Lemma startswith_app p s : Text.startswith p (p +:+ s) = true.
Proof. apply Text.prefix_app. Qed.

Lemma print_role_split r cap :
  TOKEN_RE_fullmatch r = true →
  match cap with None => True | Some c => TOKEN_RE_fullmatch c = true end →
  Text.split comma (print_role r cap) =
    ("role:" +:+ r) :: match cap with None => [] | Some c => ["capability:" +:+ c] end.
Proof.
  intros Hr%token_no_comma Hc. unfold print_role. destruct cap as [c|].
  - apply token_no_comma in Hc.
    rewrite <- str_app_assoc, Text.split_app, Text.split_none; [done|..];
      rewrite all_app; by rewrite ?Hr, ?Hc.
  - apply Text.split_none. rewrite all_app. by rewrite Hr.
Qed.

Lemma parse_print_role r cap :
  TOKEN_RE_fullmatch r = true →
  match cap with None => True | Some c => TOKEN_RE_fullmatch c = true end →
  parse_role_capability (print_role r cap) = Ok (r, cap).
Proof.
  intros Hr Hc. unfold parse_role_capability. rewrite print_role_split by done.
  rewrite bool_decide_false by (by destruct cap). cbv zeta.
  rewrite startswith_app, Text.drop_app, Hr.
  destruct cap as [c|]; [|done]. cbn [length Nat.ltb Nat.leb negb].
  by rewrite startswith_app, Text.drop_app, Hc.
Qed.

Lemma parse_role_sound raw r cap :
  parse_role_capability raw = Ok (r, cap) →
  raw = print_role r cap ∧ TOKEN_RE_fullmatch r = true ∧
  match cap with None => True | Some c => TOKEN_RE_fullmatch c = true end.
Proof.
  unfold parse_role_capability. case_bool_decide; [done|]. cbv zeta.
  pose proof (split_join comma raw) as Hj. revert Hj.
  destruct (Text.split comma raw) as [|p [|p2 [|p3 l]]]; [done| | |done];
    cbn [length Nat.ltb Nat.leb join]; intros Hj.
  - destruct (Text.startswith "role:" p) eqn:Hp; cbn [negb]; [|done].
    destruct (TOKEN_RE_fullmatch _) eqn:Hr; cbn [negb]; [|done]. intros [= <- <-].
    apply Text.prefix_drop in Hp. split_and!; [|done..]. unfold print_role.
    rewrite <- Hj. exact Hp.
  - destruct (Text.startswith "role:" p) eqn:Hp; cbn [negb]; [|done].
    destruct (TOKEN_RE_fullmatch (Text.drop (String.length "role:") p)) eqn:Hr;
      cbn [negb]; [|done].
    destruct (Text.startswith "capability:" p2) eqn:Hp2; cbn [negb]; [|done].
    destruct (TOKEN_RE_fullmatch (Text.drop (String.length "capability:") p2)) eqn:Hc;
      cbn [negb]; [|done]. intros [= <- <-].
    apply Text.prefix_drop in Hp. apply Text.prefix_drop in Hp2. split_and!; [|done..].
    unfold print_role. rewrite <- Hj, Hp2 at 1. rewrite Hp at 1. by rewrite str_app_assoc.
Qed.

Lemma scope_kinds kind :
  kind ∈ SOURCE_SCOPE_KINDS → kind = "any" ∨ kind = "agent_id" ∨ kind = "role".
Proof. unfold SOURCE_SCOPE_KINDS. set_solver. Qed.

(** ** Properties *)

(** The parser of source scopes accepts exactly the written forms of the
    scopes: a value and a kind parse to a scope precisely when they are how that
    scope is written, and the parsed scope matches exactly the sources that belong
    to it; in a role scope no whitespace, trailing text or third comma part is
    tolerated, and without a capability every capability is admitted. *)
Theorem source_scope_exact raw kind p :
  parse_source_scope_value raw kind = Ok p ↔
  ∃ s, scope_ok s ∧ (raw, kind) = print_scope s ∧ p = parsed_scope s ∧
       ∀ id r cap, matches p id r cap = true ↔ in_scope s id r cap.
Proof.
  assert (Hm : ∀ s id r cap, matches (parsed_scope s) id r cap = true ↔ in_scope s id r cap).
  { intros [|a|r' [c|]] id r cap; unfold matches, parsed_scope, in_scope, sc_kind, sc_agent_id,
      sc_role, sc_capability; simpl; rewrite ?bool_decide_eq_true; [done|naive_solver| |];
      case_bool_decide; simpl; rewrite ?bool_decide_eq_true; naive_solver. }
  unfold parse_source_scope_value. split.
  - case_bool_decide as Hk; [done|]. apply scope_kinds in Hk.
    destruct Hk as [->|[->| ->]]; simpl.
    + destruct raw; [done|]. intros [= <-]. exists Anyone. split_and!; [done..|apply (Hm Anyone)].
    + destruct raw as [[|c v]|]; [done| |done].
      destruct (AGENT_ID_RE_match (String c v)) eqn:E; simpl; [|done]. intros [= <-].
      exists (Agent (String c v)). split_and!; [exact E|done..|apply (Hm (Agent _))].
    + destruct raw as [[|c v]|]; [done| |done].
      destruct (parse_role_capability (String c v)) as [[r cap]|e] eqn:E.
      * intros [= <-]. apply parse_role_sound in E as (Hv & Hr & Hc).
        exists (HasRole r cap). rewrite Hv. split_and!; [by split|done..|].
        apply (Hm (HasRole r cap)).
      * destruct e as [| | | | | | | | |n|]; try done. by repeat case_match.
  - intros (s & Hok & Hp & -> & _). destruct s as [|id|r cap]; simpl in Hp; injection Hp as -> ->.
    + done.
    + simpl in *. destruct id as [|c v]; [done|]. simpl. by rewrite Hok.
    + destruct Hok as [Hr Hc]. pose proof (parse_print_role r cap Hr Hc) as HP. simpl.
      destruct (print_role r cap) as [|c v] eqn:E; [by destruct cap|]. by rewrite HP.
Qed.
