(* ===== verification/Arbitration.v ===== *)
(** Master arbitration (src/src/agenttower/routing/arbitration.py): which master
    signs a routed message. *)

From S2P Require Import Prelude Errors Agents.

Definition MASTER_RULES : list string := ["auto"; "explicit"].

Inductive ArbitrationResult :=
| MasterWon (agent : AgentRecord)
| MasterSkip (reason : string).

Definition pick_auto (candidates : list AgentRecord) : ArbitrationResult :=
  let eligible := filter (λ c, role c = "master" ∧ active c = true) candidates in
  match merge_sort (key_le agent_id) eligible with
  | [] => MasterSkip "no_eligible_master"
  | winner :: _ => MasterWon winner
  end.

Fixpoint pick_explicit (candidates : list AgentRecord) (master_value : string)
  : ArbitrationResult :=
  match candidates with
  | [] => MasterSkip "master_not_found"
  | candidate :: rest =>
      if bool_decide (agent_id candidate = master_value) then
        if bool_decide (role candidate = "master") && active candidate
        then MasterWon candidate
        else MasterSkip "master_inactive"
      else pick_explicit rest master_value
  end.

Definition pick_master (master_rule : string) (master_value : option string)
    (active_masters : list AgentRecord) : outcome ArbitrationResult :=
  if bool_decide (master_rule ∉ MASTER_RULES) then Raise (RouteError "route_master_rule_invalid")
  else if bool_decide (master_rule = "auto") then Ok (pick_auto active_masters)
  else match master_value with
       | None => Raise (RouteError "route_master_rule_invalid")
       | Some v => Ok (pick_explicit active_masters v)
       end.

(** ** Lemmas *)

Definition master_of (table : list AgentRecord) (a : AgentRecord) : Prop :=
  a ∈ table ∧ role a = "master" ∧ active a = true.

Lemma list_active_masters_elem table a : a ∈ list_active_masters table ↔ master_of table a.
Proof.
  unfold list_active_masters, list_agents. rewrite (merge_sort_Permutation list_order).
  rewrite list_elem_of_filter, !andb_true_iff. unfold master_of. simpl.
  rewrite bool_decide_eq_true, list_elem_of_singleton. naive_solver.
Qed.

Lemma pick_auto_won l a :
  pick_auto l = MasterWon a →
  (a ∈ l ∧ role a = "master" ∧ active a = true) ∧
  ∀ b, b ∈ l → role b = "master" → active b = true → String.le (agent_id a) (agent_id b).
Proof.
  unfold pick_auto. cbv zeta.
  destruct (merge_sort _ _) as [|x k] eqn:E; [done|]. intros [= <-].
  destruct (merge_sort_head_Some (key_le agent_id)
    (filter (λ c, role c = "master" ∧ active c = true) l) x) as [Hin Hle]; [by rewrite E|].
  apply list_elem_of_filter in Hin as [[Hr Ha] Hl]. split; [done|].
  intros b Hb Hrb Hab. apply Hle. by apply list_elem_of_filter.
Qed.

Lemma pick_auto_skip l reason :
  pick_auto l = MasterSkip reason →
  reason = "no_eligible_master" ∧ ∀ b, b ∈ l → role b = "master" → active b = true → False.
Proof.
  unfold pick_auto. cbv zeta.
  destruct (merge_sort _ _) as [|x k] eqn:E; [|done]. intros [= <-]. split; [done|].
  intros b Hb Hr Ha. pose proof (merge_sort_elem_of (key_le agent_id)
    (filter (λ c, role c = "master" ∧ active c = true) l) b) as HP. rewrite E in HP.
  eapply not_elem_of_nil, HP, list_elem_of_filter. done.
Qed.

Lemma pick_explicit_spec l v :
  match pick_explicit l v with
  | MasterWon a => a ∈ l ∧ agent_id a = v ∧ role a = "master" ∧ active a = true
  | MasterSkip reason =>
      (reason = "master_inactive" ∧ ∃ a, a ∈ l ∧ agent_id a = v ∧
         ¬ (role a = "master" ∧ active a = true)) ∨
      (reason = "master_not_found" ∧ ∀ a, a ∈ l → agent_id a ≠ v)
  end.
Proof.
  induction l as [|x l IH]; cbn [pick_explicit].
  { right. split; [done|]. by intros a ?%not_elem_of_nil. }
  case_bool_decide as Hx.
  - case_bool_decide as Hr; destruct (active x) eqn:Ha; cbn [andb].
    + split_and!; [by left|done..].
    + left. split; [done|]. exists x. split_and!; [by left|done|naive_solver congruence].
    + left. split; [done|]. exists x. split_and!; [by left|done|naive_solver].
    + left. split; [done|]. exists x. split_and!; [by left|done|naive_solver].
  - destruct (pick_explicit l v) as [a|reason].
    + destruct IH as (? & ?). split; [by right|done].
    + destruct IH as [[-> (a & ? & ?)]|[-> Hn]]; [left|right]; (split; [done|]).
      * exists a. split; [by right|done].
      * intros a [->|?]%elem_of_cons; [done|by apply Hn].
Qed.

Lemma string_le_antisym a b : String.le a b → String.le b a → a = b.
Proof. apply (anti_symm String.le). Qed.

(** The table's primary key makes records with the same id equal. *)
Lemma same_id_same_record (table : list AgentRecord) a b :
  NoDup (agent_id <$> table) → a ∈ table → b ∈ table → agent_id a = agent_id b → a = b.
Proof.
  induction table as [|x l IH]; [by intros _ ?%not_elem_of_nil|].
  rewrite fmap_cons, NoDup_cons. intros [Hx Hl] [->|Ha]%elem_of_cons [->|Hb]%elem_of_cons E;
    [done| | |by apply IH]; exfalso; apply Hx; [rewrite E|rewrite <- E];
    by apply list_elem_of_fmap_2.
Qed.

Section Registry.
Variable table : list AgentRecord.
Hypothesis Hkey : NoDup (agent_id <$> table).
Local Abbreviation masters := (list_active_masters table).

Lemma pick_auto_registry :
  match pick_auto masters with
  | MasterWon a =>
      master_of table a ∧ ∀ b, master_of table b → String.le (agent_id a) (agent_id b)
  | MasterSkip reason => reason = "no_eligible_master" ∧ ∀ b, ¬ master_of table b
  end.
Proof.
  pose proof (list_active_masters_elem table) as Hel.
  destruct (pick_auto masters) as [x|reason] eqn:E.
  - apply pick_auto_won in E as [(Hx & _) Hmin]. split; [by apply Hel|].
    intros b Hb. pose proof Hb as (_ & ? & ?). apply Hmin; [by apply Hel|done..].
  - apply pick_auto_skip in E as [-> Hno]. split; [done|].
    intros b Hb. pose proof Hb as (_ & ? & ?). eapply (Hno b); [by apply Hel|done..].
Qed.

Lemma pick_explicit_registry v :
  match pick_explicit masters v with
  | MasterWon a => master_of table a ∧ agent_id a = v
  | MasterSkip reason =>
      reason = "master_not_found" ∧ ∀ b, master_of table b → agent_id b ≠ v
  end.
Proof.
  pose proof (list_active_masters_elem table) as Hel.
  pose proof (pick_explicit_spec masters v) as HS.
  destruct (pick_explicit masters v) as [x|r].
  - destruct HS as (Hx & Hid & _). split; [by apply Hel|done].
  - destruct HS as [(_ & x & Hx & _ & Hnot)|[-> Hno]].
    + apply Hel in Hx as (_ & ? & ?). exfalso. by apply Hnot.
    + split; [done|]. intros b Hb. apply Hno. by apply Hel.
Qed.

Lemma masters_same_id a b : master_of table a → master_of table b →
  agent_id a = agent_id b → a = b.
Proof. intros (Ha & _) (Hb & _). by apply (same_id_same_record table). Qed.
End Registry.

(** ** Properties *)

(** Arbitration over the registry is deterministic and complete.  With rule
    [auto] the winner is the active master with the smallest agent id, whatever the
    order in which the registry lists agents, and arbitration is skipped with
    [no_eligible_master] exactly when no master is active; with rule [explicit] the
    named agent wins exactly when it is an active master, and every other case,
    the named agent being registered but inactive included, is skipped with
    [master_not_found]. *)
Theorem arbitration_lex_lowest table value :
  NoDup (agent_id <$> table) →
  let masters := list_active_masters table in
  (∀ a, pick_master "auto" value masters = Ok (MasterWon a) ↔
     master_of table a ∧ ∀ b, master_of table b → String.le (agent_id a) (agent_id b)) ∧
  (∀ reason, pick_master "auto" value masters = Ok (MasterSkip reason) ↔
     reason = "no_eligible_master" ∧ ∀ b, ¬ master_of table b) ∧
  (∀ v a, pick_master "explicit" (Some v) masters = Ok (MasterWon a) ↔
     master_of table a ∧ agent_id a = v) ∧
  (∀ v reason, pick_master "explicit" (Some v) masters = Ok (MasterSkip reason) ↔
     reason = "master_not_found" ∧ ∀ b, master_of table b → agent_id b ≠ v).
Proof.
  intros Hnd masters.
  change (pick_master "auto" value masters) with (Ok (pick_auto masters)).
  assert (Hex : ∀ v, pick_master "explicit" (Some v) masters = Ok (pick_explicit masters v))
    by done.
  pose proof (pick_auto_registry table) as HA. fold masters in HA.
  split_and!; [intros a|intros reason|intros v a|intros v reason].
  - destruct (pick_auto masters) as [x|r]; [destruct HA as [Hx Hmin]|destruct HA as [_ Hno]].
    + split; [by intros [= <-]|]. intros [Ha Hle]. do 2 f_equal.
      apply (masters_same_id table); [done..|]. apply string_le_antisym; auto.
    + split; [done|]. intros [Ha _]. by destruct (Hno a).
  - destruct (pick_auto masters) as [x|r]; [destruct HA as [Hx _]|destruct HA as [-> Hno]].
    + split; [done|]. intros [_ Hno]. by destruct (Hno x).
    + split; [by intros [= <-]|by intros [-> _]].
  - rewrite Hex. pose proof (pick_explicit_registry table v) as HE. fold masters in HE.
    destruct (pick_explicit masters v) as [x|r]; [destruct HE as [Hx Hid]|destruct HE as [_ Hno]].
    + split; [by intros [= <-]|]. intros [Ha Hid']. do 2 f_equal.
      apply (masters_same_id table); [done..|congruence].
    + split; [done|]. intros [Ha Hid]. by destruct (Hno a).
  - rewrite Hex. pose proof (pick_explicit_registry table v) as HE. fold masters in HE.
    destruct (pick_explicit masters v) as [x|r]; [destruct HE as [Hx Hid]|destruct HE as [-> Hno]].
    + split; [done|]. intros [_ Hno]. by destruct (Hno x).
    + split; [by intros [= <-]|by intros [-> _]].
Qed.

Lemma arbitration_lex_lowest_witness :
  let m1 := demo_agent "agt_bbbbbbbbbbbb" "m1" "master" true in
  let m2 := demo_agent "agt_aaaaaaaaaaaa" "m2" "master" true in
  let down := demo_agent "agt_000000000000" "m3" "master" false in
  let masters := list_active_masters [m1; m2; down] in
  pick_master "auto" None masters = Ok (MasterWon m2) ∧
  pick_master "explicit" (Some "agt_000000000000") masters =
    Ok (MasterSkip "master_not_found").
Proof.
  intros m1 m2 down masters.
  destruct (arbitration_lex_lowest [m1; m2; down] None) as (Hauto & _ & _ & Hexp).
  { apply (bool_decide_unpack _). vm_compute. reflexivity. }
  split.
  - apply Hauto. split; [split_and!; [by right; left|reflexivity..]|].
    intros b (Hb & _ & Ha). rewrite !elem_of_cons in Hb.
    destruct Hb as [->|[->|[->|Hb]]]; [by compute|by compute|discriminate Ha|
      by apply not_elem_of_nil in Hb].
  - apply Hexp. split; [reflexivity|]. intros b (Hb & _ & Ha). rewrite !elem_of_cons in Hb.
    destruct Hb as [->|[->|[->|Hb]]]; [discriminate|discriminate|discriminate Ha|
      by apply not_elem_of_nil in Hb].
Defined.
