(* ===== verification/Template.v ===== *)
(** Route templates (src/src/agenttower/routing/template.py): the placeholder
    scan of the parse-time check, [str.format_map], and the rendering of a body.

    Templates are UTF-8 byte strings; every character the two scanners look at is
    ASCII.  The redactor is the argument the code takes.  [special] stands for
    what [str.format_map] does with a field that carries an attribute path, a
    conversion or a format specification: it receives the mapping, the value, the
    path, the conversion and the specification, and answers a string or the class
    of the exception raised. *)

From S2P Require Import Prelude Errors Utf8 Envelope.
From stdpp Require Import pretty.
From Stdlib Require Import Ascii.

Definition ALLOWED_TEMPLATE_FIELDS : list string :=
  ["event_id"; "event_type"; "source_agent_id"; "source_label"; "source_role";
   "source_capability"; "event_excerpt"; "observed_at"].

Definition open_brace : ascii := "{"%char.
Definition close_brace : ascii := "}"%char.

Definition is_ascii_letter (c : ascii) : bool :=
  let n := nat_of_ascii c in
  ((65 <=? n) && (n <=? 90)) || ((97 <=? n) && (n <=? 122)) || (n =? 95).
Definition is_ascii_digit (c : ascii) : bool :=
  let n := nat_of_ascii c in (48 <=? n) && (n <=? 57).
Definition ident_char (c : ascii) : bool := is_ascii_letter c || is_ascii_digit c.

(** ** The parse-time scan *)

(** The longest run of identifier characters, and what follows it. *)
Fixpoint span_ident (s : string) : string * string :=
  match s with
  | String c rest =>
      if ident_char c then let '(name, tl) := span_ident rest in (String c name, tl)
      else (EmptyString, s)
  | EmptyString => (EmptyString, EmptyString)
  end.

(** The rest of the placeholder pattern after its opening brace: an identifier, a
    closing brace, and no second closing brace. *)
Definition placeholder_at (s : string) : option string :=
  match span_ident s with
  | (String c name, String d tl) =>
      if is_ascii_letter c && bool_decide (d = close_brace) &&
         match tl with String e _ => negb (bool_decide (e = close_brace)) | _ => true end
      then Some (String c name) else None
  | _ => None
  end.

(** [_PLACEHOLDER_RE.findall]; [prev_open] says the previous character is an
    opening brace.  A match holds no opening brace, so scanning on from inside
    it finds nothing more than scanning on from its end. *)
Fixpoint placeholders (prev_open : bool) (s : string) : list string :=
  match s with
  | EmptyString => []
  | String c rest =>
      let here := if bool_decide (c = open_brace) && negb prev_open
                  then placeholder_at rest else None in
      match here with
      | Some name => name :: placeholders (bool_decide (c = open_brace)) rest
      | None => placeholders (bool_decide (c = open_brace)) rest
      end
  end.

(** A set of names, kept as a list without duplicates. *)
Definition extract_template_fields (template : string) : list string :=
  remove_dups (placeholders false template).

Definition validate_template_string (template : string) : outcome (list string) :=
  if bool_decide (template = EmptyString) then Raise (RouteError "route_template_invalid")
  else
    let used := extract_template_fields template in
    match filter (λ f, f ∉ ALLOWED_TEMPLATE_FIELDS) used with
    | _ :: _ => Raise (RouteError "route_template_invalid")
    | [] => Ok (merge_sort String.le used)
    end.

(** ** [str.format_map] *)

Inductive field_value := VStr (s : string) | VInt (z : Z).
(** [str(v)] *)
Definition py_str (v : field_value) : string :=
  match v with VStr s => s | VInt z => pretty z end.

Inductive fmt_mode :=
| MLit                                                (* literal text *)
| MField (name : string)                              (* inside a field name *)
| MBracket (name : string)                            (* between [ and ] of a name *)
| MConv (name : string)                               (* after '!' *)
| MConvEnd (name : string) (conv : ascii)             (* after the conversion *)
| MSpec (name : string) (conv : option ascii) (spec : string) (depth : nat).

(** The part of a field name before the first '.' or '[', and the path. *)
Fixpoint field_name_split (name : string) : string * string :=
  match name with
  | EmptyString => (EmptyString, EmptyString)
  | String c rest =>
      if bool_decide (c = "."%char) || bool_decide (c = "["%char) then (EmptyString, name)
      else let '(first, path) := field_name_split rest in (String c first, path)
  end.

Definition snoc (s : string) (c : ascii) : string := s +:+ String c EmptyString.
Definition oapp (v : string) (m : outcome string) : outcome string :=
  obind m (λ tl, Ok (v +:+ tl)).

Section Render.
Variable special :
  gmap string string → string → string → option ascii → string → string + string.
Variable redactor : text → option text.

Definition output_field (sub_map : gmap string string) (name : string)
    (conv : option ascii) (spec : string) : outcome string :=
  let '(first, path) := field_name_split name in
  if Text.all is_ascii_digit first then Raise (PyError "ValueError")
  else match sub_map !! first with
       | None => Raise (PyError "KeyError")
       | Some v =>
           if bool_decide (path = EmptyString) && bool_decide (conv = None) &&
              bool_decide (spec = EmptyString)
           then Ok v
           else match special sub_map v path conv spec with
                | inl w => Ok w
                | inr class_name => Raise (PyError class_name)
                end
       end.

Fixpoint format_from (sub_map : gmap string string) (mode : fmt_mode) (s : string)
  : outcome string :=
  let ValueError := Raise (PyError "ValueError") in
  match mode, s with
  | MLit, EmptyString => Ok EmptyString
  | MLit, String c rest =>
      if bool_decide (c = close_brace) then
        match rest with
        | String c' rest' =>
            if bool_decide (c' = close_brace)
            then oapp (String c EmptyString) (format_from sub_map MLit rest') else ValueError
        | EmptyString => ValueError
        end
      else if bool_decide (c = open_brace) then
        match rest with
        | String c' rest' =>
            if bool_decide (c' = open_brace)
            then oapp (String c EmptyString) (format_from sub_map MLit rest')
            else format_from sub_map (MField EmptyString) rest
        | EmptyString => ValueError
        end
      else oapp (String c EmptyString) (format_from sub_map MLit rest)
  | MField name, String c rest =>
      if bool_decide (c = open_brace) then ValueError
      else if bool_decide (c = "["%char) then format_from sub_map (MBracket (snoc name c)) rest
      else if bool_decide (c = close_brace) then
        obind (output_field sub_map name None EmptyString)
              (λ v, oapp v (format_from sub_map MLit rest))
      else if bool_decide (c = ":"%char)
      then format_from sub_map (MSpec name None EmptyString 1) rest
      else if bool_decide (c = "!"%char) then format_from sub_map (MConv name) rest
      else format_from sub_map (MField (snoc name c)) rest
  | MBracket name, String c rest =>
      if bool_decide (c = "]"%char) then format_from sub_map (MField (snoc name c)) rest
      else format_from sub_map (MBracket (snoc name c)) rest
  | MConv name, String c rest => format_from sub_map (MConvEnd name c) rest
  | MConvEnd name conv, String c rest =>
      if bool_decide (c = close_brace) then
        obind (output_field sub_map name (Some conv) EmptyString)
              (λ v, oapp v (format_from sub_map MLit rest))
      else if bool_decide (c = ":"%char)
      then format_from sub_map (MSpec name (Some conv) EmptyString 1) rest
      else ValueError
  | MSpec name conv spec depth, String c rest =>
      if bool_decide (c = close_brace) then
        match depth with
        | S (S _ as d) => format_from sub_map (MSpec name conv (snoc spec c) d) rest
        | _ => obind (output_field sub_map name conv spec)
                     (λ v, oapp v (format_from sub_map MLit rest))
        end
      else format_from sub_map
             (MSpec name conv (snoc spec c)
                (if bool_decide (c = open_brace) then S depth else depth)) rest
  | _, EmptyString => ValueError
  end.

Definition format_map (template : string) (sub_map : gmap string string) : outcome string :=
  format_from sub_map MLit template.

(** [_BODY_VALIDATION_CODE_TO_SUB_REASON.get(code, BODY_INVALID_CHARS)] *)
Definition sub_reason_of (code : string) : string :=
  if bool_decide (code ∈ ["body_empty"; "body_invalid_chars"; "body_invalid_encoding";
                          "body_too_large"])
  then code else "body_invalid_chars".

(** Steps 3 and 4: body validation, then the size cap. *)
Definition check_rendered (body : string) : outcome string :=
  match validate_body body with
  | Raise (QueueServiceError BodyValidation code) =>
      Raise (RouteTemplateRenderError (sub_reason_of code))
  | Raise e => Raise e
  | Ok _ =>
      if (DEFAULT_ENVELOPE_BODY_MAX_BYTES <? Z.of_nat (String.length body))%Z
      then Raise (RouteTemplateRenderError "body_too_large")
      else Ok body
  end.

Definition substitution (template : string) (fields : gmap string field_value)
    (raw_event_excerpt : string) : gmap string string :=
  let sub_map := py_str <$> fields in
  if bool_decide ("event_excerpt" ∈ extract_template_fields template)
  then <["event_excerpt" := encode (render_excerpt redactor DEFAULT_EXCERPT_CAP
                                      raw_event_excerpt)]> sub_map
  else sub_map.

Definition render_template (template : string) (fields : gmap string field_value)
    (raw_event_excerpt : string) : outcome string :=
  match format_map template (substitution template fields raw_event_excerpt) with
  | Raise (PyError "KeyError") => Raise (RouteTemplateRenderError "missing_field")
  | Raise e => Raise e
  | Ok rendered => check_rendered rendered
  end.
End Render.

(** ** Templates as they are meant

Literal text, in which braces are written double, and placeholders. *)

Inductive segment := Lit (s : string) | Field (name : string).

Fixpoint escape (s : string) : string :=
  match s with
  | EmptyString => EmptyString
  | String c rest =>
      if bool_decide (c = open_brace) || bool_decide (c = close_brace)
      then String c (String c (escape rest)) else String c (escape rest)
  end.

Definition print_segment (g : segment) : string :=
  match g with
  | Lit s => escape s
  | Field f => String open_brace (f +:+ String close_brace EmptyString)
  end.

Definition print_template (gs : list segment) : string :=
  foldr (λ g rest, print_segment g +:+ rest) EmptyString gs.

Definition identifier (f : string) : bool :=
  match f with
  | String c rest => is_ascii_letter c && Text.all ident_char rest
  | EmptyString => false
  end.


Fixpoint last_open (prev : bool) (s : string) : bool :=
  match s with
  | EmptyString => prev
  | String c rest => last_open (bool_decide (c = open_brace)) rest
  end.

(** No placeholder touches a literal brace, and field names are identifiers;
    [prev] says the text before ends in an opening brace. *)
Fixpoint separated (prev : bool) (gs : list segment) : bool :=
  match gs with
  | [] => true
  | Lit s :: rest => separated (last_open prev s) rest
  | Field f :: rest =>
      negb prev && identifier f &&
      match print_template rest with
      | String c _ => negb (bool_decide (c = close_brace))
      | EmptyString => true
      end && separated false rest
  end.

Definition fields_of (gs : list segment) : list string :=
  omap (λ g, match g with Field f => Some f | Lit _ => None end) gs.

(** What the template says: literals as they are, placeholders replaced, each
    once, by the value of their field. *)
Fixpoint expand (value : string → option string) (gs : list segment) : option string :=
  match gs with
  | [] => Some EmptyString
  | Lit s :: rest => tl ← expand value rest; Some (s +:+ tl)
  | Field f :: rest => v ← value f; tl ← expand value rest; Some (v +:+ tl)
  end.

(** ** Lemmas *)

Lemma ident_char_plain c :
  ident_char c = true →
  c ≠ open_brace ∧ c ≠ close_brace ∧ c ≠ "["%char ∧ c ≠ ":"%char ∧ c ≠ "!"%char ∧ c ≠ "."%char.
Proof. intros H. split_and!; intros ->; by compute in H. Qed.

Lemma identifier_chars f : identifier f = true → Text.all ident_char f = true.
Proof.
  destruct f as [|c f]; [done|]. cbn [identifier Text.all].
  intros [Hc Hf]%andb_true_iff. unfold ident_char at 1. by rewrite Hc, Hf.
Qed.

Lemma snoc_app s c t : snoc s c +:+ t = s +:+ String c t.
Proof. unfold snoc. by rewrite str_app_assoc. Qed.

Lemma span_ident_app f t :
  Text.all ident_char f = true →
  match t with String c _ => ident_char c = false | EmptyString => True end →
  span_ident (f +:+ t) = (f, t).
Proof.
  induction f as [|c f IH]; intros Hf Ht.
  - change (EmptyString +:+ t) with t. destruct t as [|d t]; [done|].
    cbn [span_ident]. by rewrite Ht.
  - cbn [Text.all] in Hf. apply andb_true_iff in Hf as [Hc Hf].
    change (String c f +:+ t) with (String c (f +:+ t)). cbn [span_ident].
    by rewrite Hc, (IH Hf Ht).
Qed.

Lemma field_name_split_ident f :
  Text.all ident_char f = true → field_name_split f = (f, EmptyString).
Proof.
  induction f as [|c f IH]; [done|]. cbn [Text.all field_name_split].
  intros [Hc Hf]%andb_true_iff. apply ident_char_plain in Hc as (_ & _ & ? & _ & _ & ?).
  rewrite !bool_decide_false by done. cbn [orb]. by rewrite (IH Hf).
Qed.

(** Scanning over text without opening braces. *)
Lemma placeholders_ident f t :
  Text.all ident_char f = true →
  placeholders true (f +:+ String close_brace t) = placeholders false t.
Proof.
  assert (∀ b, Text.all ident_char f = true →
    placeholders b (f +:+ String close_brace t) = placeholders false t) as H; [|apply H].
  induction f as [|c f IH]; intros b Hf; [by destruct b|].
  cbn [Text.all] in Hf. apply andb_true_iff in Hf as [Hc Hf].
  apply ident_char_plain in Hc as (? & _).
  change (String c f +:+ ?x) with (String c (f +:+ x)). cbn [placeholders].
  rewrite bool_decide_false by done. cbn [andb]. by apply IH.
Qed.

(** A doubled opening brace hides itself from the scan. *)
Lemma placeholders_escape prev s t :
  placeholders prev (escape s +:+ t) = placeholders (last_open prev s) t.
Proof.
  revert prev. induction s as [|c s IH]; intros prev; [done|]. cbn [escape last_open].
  destruct (decide (c = open_brace)) as [->|Ho]; [|destruct (decide (c = close_brace)) as [->|Hc]].
  - change (placeholders prev (String open_brace (String open_brace (escape s +:+ t))) =
            placeholders (last_open true s) t).
    rewrite <- IH. cbn [placeholders]. rewrite !bool_decide_true by done. cbn [andb negb].
    assert (placeholder_at (String open_brace (escape s +:+ t)) = None) as -> by done.
    by destruct prev.
  - change (placeholders prev (String close_brace (String close_brace (escape s +:+ t))) =
            placeholders (last_open false s) t).
    by rewrite <- IH.
  - rewrite !bool_decide_false by done. cbn [orb].
    change (String c (escape s) +:+ t) with (String c (escape s +:+ t)). cbn [placeholders].
    rewrite bool_decide_false by done. cbn [andb]. apply IH.
Qed.

Lemma placeholders_print prev gs :
  separated prev gs = true → placeholders prev (print_template gs) = fields_of gs.
Proof.
  revert prev. induction gs as [|[s|f] gs IH]; intros prev Hs; [done| |].
  - cbn [print_template foldr print_segment]. rewrite placeholders_escape. by apply IH.
  - cbn [separated] in Hs. apply andb_true_iff in Hs as [Hs Hrest].
    apply andb_true_iff in Hs as [Hs Hnext]. apply andb_true_iff in Hs as [Hp Hf].
    pose proof (identifier_chars _ Hf) as Hall. cbn [print_template foldr print_segment].
    fold (print_template gs).
    change (String open_brace (f +:+ String close_brace EmptyString) +:+ print_template gs)
      with (String open_brace ((f +:+ String close_brace EmptyString) +:+ print_template gs)).
    rewrite str_app_assoc. change (String close_brace EmptyString +:+ ?x)
      with (String close_brace x). cbn [placeholders]. rewrite bool_decide_true by done.
    rewrite Hp. cbn [andb].
    assert (placeholder_at (f +:+ String close_brace (print_template gs)) = Some f) as ->.
    { unfold placeholder_at. rewrite span_ident_app by done.
      destruct f as [|c f]; [done|]. cbn [identifier] in Hf.
      apply andb_true_iff in Hf as [-> _]. rewrite bool_decide_true by done. cbn [andb].
      by destruct (print_template gs); [|rewrite Hnext]. }
    rewrite placeholders_ident by done. by rewrite (IH false Hrest).
Qed.

Section Format.
Variable special :
  gmap string string → string → string → option ascii → string → string + string.
Variable sub_map : gmap string string.
Local Abbreviation fmt := (format_from special sub_map).

Lemma format_escape s t : fmt MLit (escape s +:+ t) = oapp s (fmt MLit t).
Proof.
  induction s as [|c s IH].
  { change (escape EmptyString +:+ t) with t. by destruct (fmt MLit t). }
  cbn [escape]. destruct (decide (c = open_brace)) as [->|Ho];
    [|destruct (decide (c = close_brace)) as [->|Hc]].
  - change (fmt MLit (String open_brace (String open_brace (escape s +:+ t))) =
            oapp (String open_brace s) (fmt MLit t)).
    cbn [format_from]. rewrite bool_decide_false, !bool_decide_true by done. rewrite IH.
    by destruct (fmt MLit t).
  - change (fmt MLit (String close_brace (String close_brace (escape s +:+ t))) =
            oapp (String close_brace s) (fmt MLit t)).
    cbn [format_from]. rewrite !bool_decide_true by done. rewrite IH. by destruct (fmt MLit t).
  - rewrite !bool_decide_false by done. cbn [orb].
    change (String c (escape s) +:+ t) with (String c (escape s +:+ t)). cbn [format_from].
    rewrite !bool_decide_false by done. rewrite IH. by destruct (fmt MLit t).
Qed.

Lemma format_name acc f t :
  Text.all ident_char f = true →
  fmt (MField acc) (f +:+ String close_brace t) =
  obind (output_field special sub_map (acc +:+ f) None EmptyString) (λ v, oapp v (fmt MLit t)).
Proof.
  revert acc. induction f as [|c f IH]; intros acc Hf.
  - change (EmptyString +:+ String close_brace t) with (String close_brace t).
    rewrite Text.app_empty_r. done.
  - cbn [Text.all] in Hf. apply andb_true_iff in Hf as [Hc Hf].
    apply ident_char_plain in Hc as (? & ? & ? & ? & ? & _).
    change (String c f +:+ String close_brace t) with (String c (f +:+ String close_brace t)).
    cbn [format_from]. rewrite !bool_decide_false by done. rewrite (IH _ Hf).
    by rewrite snoc_app.
Qed.

Lemma format_placeholder f t :
  identifier f = true →
  fmt MLit (String open_brace (f +:+ String close_brace t)) =
  match sub_map !! f with
  | Some v => oapp v (fmt MLit t)
  | None => Raise (PyError "KeyError")
  end.
Proof.
  intros Hf. pose proof (identifier_chars _ Hf) as Hall.
  assert (fmt MLit (String open_brace (f +:+ String close_brace t)) =
          fmt (MField EmptyString) (f +:+ String close_brace t)) as ->.
  { destruct f as [|c f]; [done|].
    change (String c f +:+ String close_brace t) with (String c (f +:+ String close_brace t)).
    cbn [Text.all] in Hall. apply andb_true_iff in Hall as [Hc _].
    apply ident_char_plain in Hc as (? & _). cbn [format_from].
    rewrite (bool_decide_false (c = open_brace)) by done. done. }
  rewrite format_name by done. change (EmptyString +:+ f) with f.
  unfold output_field. rewrite field_name_split_ident by done.
  assert (Text.all is_ascii_digit f = false) as ->.
  { destruct f as [|c f]; [done|]. cbn [identifier Text.all] in *.
    apply andb_true_iff in Hf as [Hc _]. apply andb_false_iff. left.
    unfold is_ascii_letter, is_ascii_digit in *. apply andb_false_iff.
    apply orb_true_iff in Hc as [[Hc|Hc]%orb_true_iff|Hc];
      [apply andb_true_iff in Hc as [Hc _]..|]; right;
      apply Nat.leb_gt; first [apply Nat.leb_le in Hc|apply Nat.eqb_eq in Hc]; lia. }
  by destruct (sub_map !! f).
Qed.

Lemma format_print gs :
  forallb identifier (fields_of gs) = true →
  format_map special (print_template gs) sub_map =
  match expand (λ f, sub_map !! f) gs with
  | Some s => Ok s
  | None => Raise (PyError "KeyError")
  end.
Proof.
  unfold format_map. induction gs as [|[s|f] gs IH]; intros Hid; [done| |].
  - cbn [print_template foldr print_segment]. rewrite format_escape.
    fold (print_template gs). rewrite (IH Hid). cbn [expand].
    by destruct (expand (λ f, sub_map !! f) gs).
  - cbn [print_template foldr print_segment]. fold (print_template gs).
    change (String open_brace (f +:+ String close_brace EmptyString) +:+ print_template gs)
      with (String open_brace ((f +:+ String close_brace EmptyString) +:+ print_template gs)).
    rewrite str_app_assoc. change (String close_brace EmptyString +:+ ?x)
      with (String close_brace x).
    change (fields_of (Field f :: gs)) with (f :: fields_of gs) in Hid. cbn [forallb] in Hid.
    apply andb_true_iff in Hid as [Hf Hid]. rewrite format_placeholder by done.
    rewrite (IH Hid). cbn [expand]. destruct (sub_map !! f) as [v|]; [|done]. simpl.
    by destruct (expand (λ f, sub_map !! f) gs).
Qed.
End Format.

Lemma separated_identifiers prev gs :
  separated prev gs = true → forallb identifier (fields_of gs) = true.
Proof.
  revert prev. induction gs as [|[s|f] gs IH]; intros prev Hs; [done|by eapply IH|].
  cbn [separated] in Hs. apply andb_true_iff in Hs as [Hs Hrest].
  apply andb_true_iff in Hs as [Hs _]. apply andb_true_iff in Hs as [_ Hf].
  change (fields_of (Field f :: gs)) with (f :: fields_of gs). cbn [forallb].
  by rewrite Hf, (IH _ Hrest).
Qed.

Lemma validate_template_accepts t :
  (∃ used, validate_template_string t = Ok used) ↔
  t ≠ EmptyString ∧ ∀ f, f ∈ placeholders false t → f ∈ ALLOWED_TEMPLATE_FIELDS.
Proof.
  unfold validate_template_string, extract_template_fields. case_bool_decide as He; [naive_solver|].
  cbv zeta. set (used := remove_dups _).
  assert (Hu : ∀ f, f ∈ used ↔ f ∈ placeholders false t) by (intros; apply elem_of_remove_dups).
  destruct (filter _ used) as [|x l] eqn:E; split.
  - intros _. split; [done|]. intros f Hf%Hu. destruct (decide (f ∈ ALLOWED_TEMPLATE_FIELDS)); [done|].
    assert (f ∈ filter (λ f, f ∉ ALLOWED_TEMPLATE_FIELDS) used) as Hin
      by by apply list_elem_of_filter. rewrite E in Hin. by apply not_elem_of_nil in Hin.
  - eauto.
  - by intros [? ?].
  - intros [_ Hall]. assert (x ∈ filter (λ f, f ∉ ALLOWED_TEMPLATE_FIELDS) used) as Hin
      by (rewrite E; by left).
    apply list_elem_of_filter in Hin as [Hx Hin]. by destruct Hx; apply Hall, Hu.
Qed.

Lemma expand_ext v1 v2 gs :
  (∀ f, f ∈ fields_of gs → v1 f = v2 f) → expand v1 gs = expand v2 gs.
Proof.
  induction gs as [|[s|f] gs IH]; intros H; [done| |]; cbn [expand].
  - by rewrite IH.
  - change (fields_of (Field f :: gs)) with (f :: fields_of gs) in H.
    rewrite (H f) by by left. rewrite IH; [done|]. intros g Hg. apply H. by right.
Qed.

Lemma expand_total v gs :
  (∀ f, f ∈ fields_of gs → is_Some (v f)) → is_Some (expand v gs).
Proof.
  induction gs as [|[s|f] gs IH]; intros H; [by eexists| |]; cbn [expand].
  - destruct IH as [t ->]; [done|by eexists].
  - change (fields_of (Field f :: gs)) with (f :: fields_of gs) in H.
    destruct (H f) as [x ->]; [by left|]. destruct IH as [t ->]; [|by eexists].
    intros g Hg. apply H. by right.
Qed.

(** The value of a placeholder: the excerpt goes through the redactor, the
    other fields are written as they are. *)
Definition placeholder_value (redactor : text → option text) (fields : gmap string field_value)
    (raw f : string) : option string :=
  if bool_decide (f = "event_excerpt")
  then Some (encode (render_excerpt redactor DEFAULT_EXCERPT_CAP raw))
  else py_str <$> fields !! f.

Lemma substitution_value redactor gs fields raw f :
  placeholders false (print_template gs) = fields_of gs → f ∈ fields_of gs →
  substitution redactor (print_template gs) fields raw !! f =
  placeholder_value redactor fields raw f.
Proof.
  intros Hp Hf. unfold substitution, placeholder_value, extract_template_fields. rewrite Hp.
  cbv zeta. case_bool_decide as He.
  - case_bool_decide as Hx; [subst; by rewrite lookup_insert_eq|].
    by rewrite lookup_insert_ne, lookup_fmap by done.
  - rewrite elem_of_remove_dups in He. rewrite bool_decide_false by congruence.
    by rewrite lookup_fmap.
Qed.

Lemma check_rendered_spec body :
  match check_rendered body with
  | Ok b => b = body ∧ validate_body body = Ok tt ∧
            (Z.of_nat (String.length body) ≤ DEFAULT_ENVELOPE_BODY_MAX_BYTES)%Z
  | Raise e => ∃ sub, e = RouteTemplateRenderError sub ∧
                 sub ∈ ["body_empty"; "body_invalid_chars"; "body_invalid_encoding";
                        "body_too_large"]
  end.
Proof.
  assert (Hv : validate_body body = Ok tt ∨ ∃ code, validate_body body = Raise (body_error code) ∧
    code ∈ ["body_empty"; "body_invalid_chars"; "body_invalid_encoding"; "body_too_large"]).
  { unfold validate_body. repeat case_match; try (by left); right; eexists; (split; [done|]); set_solver. }
  unfold check_rendered. destruct Hv as [->|(code & -> & Hin)]; cbv iota.
  - destruct (_ <? _)%Z eqn:Hsz; [eexists; split; [done|set_solver]|].
    split_and!; [done..|]. by apply Z.ltb_ge in Hsz.
  - unfold body_error, sub_reason_of. cbv iota. rewrite bool_decide_true by done. eauto.
Qed.

(** Formatting fails only with an exception of the library. *)
Lemma output_field_raises special sub_map name conv spec e :
  output_field special sub_map name conv spec = Raise e → ∃ n, e = PyError n.
Proof.
  unfold output_field. destruct (field_name_split name) as [first path].
  repeat case_match; intros; simplify_eq; eauto.
Qed.

Lemma oapp_raise v m e : oapp v m = Raise e → m = Raise e.
Proof. by destruct m; simpl; intros [= ->]. Qed.

Lemma format_raises_len special sub_map len mode s e :
  String.length s ≤ len → format_from special sub_map mode s = Raise e → ∃ n, e = PyError n.
Proof.
  revert mode s. induction len as [|len IH]; intros mode s Hlen.
  { destruct s; [|cbn in Hlen; lia]. destruct mode; cbn; intros [= <-]; eauto. }
  destruct s as [|c rest]; [destruct mode; cbn; intros [= <-]; eauto|].
  cbn [String.length] in Hlen. assert (String.length rest ≤ len) as Hr by lia.
  assert (Hrest : ∀ mode, format_from special sub_map mode rest = Raise e → ∃ n, e = PyError n)
    by eauto.
  assert (Hout : ∀ name conv spec,
    obind (output_field special sub_map name conv spec)
      (λ v, oapp v (format_from special sub_map MLit rest)) = Raise e → ∃ n, e = PyError n).
  { intros name conv spec. destruct (output_field _ _ _ _ _) as [v|e'] eqn:Eo; cbn [obind].
    - intros ?%oapp_raise. eauto.
    - intros [= ->]. by eapply output_field_raises. }
  destruct mode; cbn [format_from]; cbv zeta;
    repeat case_bool_decide; try (by intros [= <-]; eauto); eauto;
    try (by intros ?%oapp_raise; eauto).
  - destruct rest as [|c' rest']; [intros [= <-]; eauto|].
    case_bool_decide; [|intros [= <-]; eauto]. intros ?%oapp_raise.
    eapply IH; [|done]. cbn in Hr. lia.
  - destruct rest as [|c' rest']; [intros [= <-]; eauto|].
    case_bool_decide; [|eauto]. intros ?%oapp_raise. eapply IH; [|done]. cbn in Hr. lia.
  - destruct depth as [|[|d]]; eauto.
Qed.

Lemma format_raises special sub_map template e :
  format_map special template sub_map = Raise e → ∃ n, e = PyError n.
Proof. by apply (format_raises_len _ _ (String.length template)). Qed.

(** ** Properties *)

(** A template means what it says.  For literal text with doubled braces and
    placeholders that do not touch a literal brace, the parse-time check accepts
    exactly the non-empty templates whose placeholders are whitelisted; and such a
    template, rendered with every whitelisted field supplied, gives the literals as
    they were meant with each placeholder replaced once, the excerpt by its redacted
    one-line form; values are not scanned for placeholders again.  The result then
    passes through body validation and the size cap. *)
Theorem template_means_what_it_says special redactor gs fields raw :
  separated false gs = true →
  (∀ f, f ∈ ALLOWED_TEMPLATE_FIELDS → f ≠ "event_excerpt" → is_Some (fields !! f)) →
  ((∃ used, validate_template_string (print_template gs) = Ok used) ↔
   print_template gs ≠ EmptyString ∧ ∀ f, f ∈ fields_of gs → f ∈ ALLOWED_TEMPLATE_FIELDS) ∧
  ((∀ f, f ∈ fields_of gs → f ∈ ALLOWED_TEMPLATE_FIELDS) →
   ∃ body, expand (placeholder_value redactor fields raw) gs = Some body ∧
           render_template special redactor (print_template gs) fields raw =
           check_rendered body).
Proof.
  intros Hsep Hfields. pose proof (placeholders_print _ _ Hsep) as Hp. split.
  - rewrite validate_template_accepts. by rewrite Hp.
  - intros Hall. destruct (expand_total (placeholder_value redactor fields raw) gs) as [body Hb].
    { intros f Hf. unfold placeholder_value. case_bool_decide as Hx; [by eexists|].
      destruct (Hfields f (Hall f Hf) Hx) as [v ->]. by eexists. }
    exists body. split; [done|]. unfold render_template.
    rewrite format_print by by eapply separated_identifiers.
    rewrite (expand_ext _ (placeholder_value redactor fields raw)); [by rewrite Hb|].
    intros f Hf. by apply substitution_value.
Qed.

Definition demo_fields : gmap string field_value :=
  {[ "event_id" := VInt 7; "event_type" := VStr "error"; "source_agent_id" := VStr "agt_0";
     "source_label" := VStr "{event_id}"; "source_role" := VStr "slave";
     "source_capability" := VStr "codex"; "observed_at" := VStr "t0" ]}.

Lemma template_means_what_it_says_witness :
  let gs := [Lit "{#"; Field "event_id"; Lit " from "; Field "source_label"; Lit ": ";
             Field "event_excerpt"] in
  print_template gs = "{{#{event_id} from {source_label}: {event_excerpt}" ∧
  ∃ body, expand (placeholder_value (λ t, Some t) demo_fields "boom") gs = Some body ∧
    render_template (λ _ _ _ _ _, inr "ValueError") (λ t, Some t)
      (print_template gs) demo_fields "boom" = check_rendered body.
Proof.
  intros gs. split; [reflexivity|].
  apply (template_means_what_it_says _ (λ t, Some t) gs demo_fields "boom").
  - reflexivity.
  - intros f Hf Hne. unfold ALLOWED_TEMPLATE_FIELDS in Hf. rewrite !elem_of_cons in Hf.
    destruct_or!; subst; try (by eexists; vm_compute; reflexivity); [done|].
    by apply not_elem_of_nil in Hf.
  - intros f Hf. apply (bool_decide_unpack _).
    unfold fields_of in Hf. simpl in Hf. rewrite !elem_of_cons in Hf.
    destruct_or!; subst; try reflexivity. by apply not_elem_of_nil in Hf.
Defined.

(** Rendering is safe for every template, well written or not: a rendered body
    is non-empty valid UTF-8 without forbidden control bytes and within the size
    cap; what the worker reports as a template error carries one of the five
    documented sub-reasons for the body and the fields; and the raw excerpt
    influences the result only through its redacted excerpt. *)
Theorem render_template_safe special redactor template fields raw :
  match render_template special redactor template fields raw with
  | Ok body =>
      body ≠ EmptyString ∧ is_Some (decode body) ∧
      Text.all (λ c, negb (forbidden_body_byte c)) body = true ∧
      (Z.of_nat (String.length body) ≤ DEFAULT_ENVELOPE_BODY_MAX_BYTES)%Z
  | Raise (RouteTemplateRenderError sub) =>
      sub ∈ TEMPLATE_SUB_REASONS ∧ sub ≠ "redactor_failure"
  | Raise _ => True
  end ∧
  ∀ raw', render_excerpt redactor DEFAULT_EXCERPT_CAP raw' =
          render_excerpt redactor DEFAULT_EXCERPT_CAP raw →
          render_template special redactor template fields raw' =
          render_template special redactor template fields raw.
Proof.
  split; [|intros raw' E; unfold render_template, substitution; by rewrite E].
  unfold render_template.
  destruct (format_map _ _ _) as [body|e] eqn:E.
  - pose proof (check_rendered_spec body) as HC. destruct (check_rendered body) as [b|e].
    + destruct HC as (-> & Hv & Hsz). unfold validate_body in Hv.
      case_bool_decide; [done|]. destruct (decode body) eqn:Hd; [|done].
      destruct (Text.all _ body) eqn:Ha; [|done]. split_and!; [done|by eexists|done..].
    + destruct HC as (sub & -> & Hin). rewrite !elem_of_cons, elem_of_nil in Hin.
      destruct_or!; subst; (split; [unfold TEMPLATE_SUB_REASONS; set_solver|done]) || done.
  - apply format_raises in E as [n ->].
    destruct (decide (n = "KeyError")) as [->|Hn].
    + split; [unfold TEMPLATE_SUB_REASONS; set_solver|done].
    + by repeat case_match; simplify_eq.
Qed.

(** Two blind spots of the parse-time check.  A placeholder next to a literal
    brace is not seen by the scan: the template is accepted but its excerpt is never
    supplied, so every event is skipped with [missing_field].  Unbalanced braces are
    not seen either: the template is accepted but rendering raises [ValueError],
    which is not a template error. *)
Theorem accepted_but_never_renders special redactor fields raw :
  fields !! "event_excerpt" = None →
  (validate_template_string "{{{event_excerpt}}}" = Ok [] ∧
   render_template special redactor "{{{event_excerpt}}}" fields raw =
     Raise (RouteTemplateRenderError "missing_field")) ∧
  (validate_template_string "see {event_type" = Ok [] ∧
   render_template special redactor "see {event_type" fields raw =
     Raise (PyError "ValueError")).
Proof.
  intros Hf. split; (split; [reflexivity|]); unfold render_template; [|reflexivity].
  assert ((substitution redactor "{{{event_excerpt}}}" fields raw) !! "event_excerpt" = None) as Hs.
  { unfold substitution. rewrite bool_decide_false by (by vm_compute; intros ?%not_elem_of_nil).
    by rewrite lookup_fmap, Hf. }
  revert Hs. generalize (substitution redactor "{{{event_excerpt}}}" fields raw). intros m Hm.
  change "{{{event_excerpt}}}" with
    (print_template [Lit "{"; Field "event_excerpt"; Lit "}"]).
  rewrite format_print by reflexivity. cbn [expand]. by rewrite Hm.
Qed.

Lemma accepted_but_never_renders_witness :
  validate_template_string "{{{event_excerpt}}}" = Ok [] ∧
  render_template (λ _ _ _ _ _, inr "ValueError") (λ t, Some t) "{{{event_excerpt}}}"
    demo_fields "boom" = Raise (RouteTemplateRenderError "missing_field").
Proof.
  apply (accepted_but_never_renders (λ _ _ _ _ _, inr "ValueError") (λ t, Some t)
           demo_fields "boom"). reflexivity.
Defined.
