(* ===== verification/Routes.v ===== *)
(** The [routes] table (src/src/agenttower/routing/routes_dao.py and its schema in
    state/schema.py) and the worker's event scan
    (routing/daemon_adapters.py, [RoutingEventReader]); the route audit, the skip
    counter and the worker's memory. *)

From S2P Require Import Prelude Errors Agents Store Utf8 AuditWriter Lookups.

(** ** Constraints of the table *)

(** The [event_type] CHECK of the table (migration v8). *)
Definition ROUTE_EVENT_TYPES : list string :=
  ["activity"; "waiting_for_input"; "completed"; "error"; "test_failed"; "test_passed";
   "manual_review_needed"; "long_running"; "pane_exited"; "swarm_member_reported"].

Definition check_route (r : RouteRow) : bool :=
  bool_decide (route_event_type r ∈ ROUTE_EVENT_TYPES) &&
  bool_decide (source_scope_kind r ∈ ["any"; "agent_id"; "role"]) &&
  bool_decide (target_rule r ∈ ["explicit"; "source"; "role"]) &&
  bool_decide (master_rule r ∈ ["auto"; "explicit"]) &&
  (0 <=? last_consumed_event_id r)%Z &&
  eqb (bool_decide (source_scope_kind r = "any")) (negb (is_set (source_scope_value r))) &&
  eqb (bool_decide (target_rule r = "source")) (negb (is_set (target_value r))) &&
  eqb (bool_decide (master_rule r = "auto")) (negb (is_set (master_value r))).

(** ** Columns an UPDATE writes *)

Definition set_enabled (b : bool) (ts : string) (r : RouteRow) : RouteRow :=
  mkRoute (route_id r) (route_event_type r) (source_scope_kind r) (source_scope_value r)
    (target_rule r) (target_value r) (master_rule r) (master_value r) (template r) b
    (last_consumed_event_id r) (route_created_at r) ts (created_by_agent_id r).

Definition set_cursor (eid : Z) (ts : string) (r : RouteRow) : RouteRow :=
  mkRoute (route_id r) (route_event_type r) (source_scope_kind r) (source_scope_value r)
    (target_rule r) (target_value r) (master_rule r) (master_value r) (template r) (enabled r)
    eid (route_created_at r) ts (created_by_agent_id r).

Definition set_routes (rs : gmap string RouteRow) (d : db) : db :=
  mkDb (queue d) (flag d) (events d) (events_seq d) rs.

(** [UPDATE routes SET .. WHERE route_id = ? AND p], returning [rowcount]. *)
Definition update_route (rid : string) (p : RouteRow → bool) (f : RouteRow → RouteRow)
    (d : db) : outcome (nat * db) :=
  match routes d !! rid with
  | None => Ok (0, d)
  | Some r =>
      if p r then
        if check_route (f r) then Ok (1, set_routes (<[rid := f r]> (routes d)) d)
        else Raise IntegrityError
      else Ok (0, d)
  end.

(** ** Mutations *)

Definition insert_route (row : RouteRow) : M conn string :=
  sql_write (λ d,
    match routes d !! route_id row with
    | Some _ => Raise IntegrityError
    | None =>
        if check_route row
        then Ok (route_id row, set_routes (<[route_id row := row]> (routes d)) d)
        else Raise IntegrityError
    end).

Definition update_enabled (rid : string) (b : bool) (updated_at : string) : M conn bool :=
  n ← sql_write (update_route rid (λ r, negb (eqb (enabled r) b)) (set_enabled b updated_at));
  mret (0 <? n).

Definition delete_route (rid : string) : M conn bool :=
  sql_write (λ d, Ok (is_set (routes d !! rid), set_routes (delete rid (routes d)) d)).

Definition advance_cursor (rid : string) (eid : Z) (updated_at : string) : M conn unit :=
  _ ← sql_write (update_route rid (λ r, (last_consumed_event_id r <? eid)%Z)
                   (set_cursor eid updated_at));
  mret tt.

(** ** Reads *)

Definition select_route (rid : string) : M conn (option RouteRow) :=
  sql_read (λ d, routes d !! rid).

(** [ORDER BY created_at ASC, route_id ASC] *)
Definition route_le (r1 r2 : RouteRow) : Prop :=
  if decide (route_created_at r1 = route_created_at r2)
  then String.le (route_id r1) (route_id r2)
  else String.le (route_created_at r1) (route_created_at r2).

#[export] Instance route_le_dec r1 r2 : Decision (route_le r1 r2).
Proof. unfold route_le. destruct (decide _); apply _. Defined.

Definition list_routes (enabled_only : bool) : M conn (list RouteRow) :=
  sql_read (λ d, merge_sort route_le
    (filter (λ r, negb enabled_only || enabled r = true) ((map_to_list (routes d)).*2))).

Definition select_max_event_id : M conn Z :=
  sql_read (λ d, foldr (λ e m, Z.max (event_id e) m) 0%Z (events d)).

(** The columns of [EventRowSnapshot]. *)
Record EventRowSnapshot := mkSnapshot {
  snap_event_id : Z;
  snap_event_type : string;
  source_agent_id : string;
  excerpt : string;
  observed_at : string
}.

Definition snapshot_of (e : EventRow) : EventRowSnapshot :=
  mkSnapshot (event_id e) (event_type e) (ev_agent_id e) (ev_excerpt e) (ev_observed_at e).

Definition event_le (e1 e2 : EventRow) : Prop := (event_id e1 ≤ event_id e2)%Z.

#[export] Instance event_le_dec e1 e2 : Decision (event_le e1 e2).
Proof. unfold event_le. apply _. Defined.

(** [RoutingEventReader.select_events_after_cursor] *)
Definition select_events_after_cursor (cursor : Z) (ty : string) (limit : nat)
  : M conn (list EventRowSnapshot) :=
  sql_read (λ d, snapshot_of <$> take limit (merge_sort event_le
    (filter (λ e, (cursor < event_id e)%Z ∧ event_type e = ty) (events d)))).

(** The route audit writer (src/src/agenttower/routing/routes_audit.py), the skip
    counter (routing/skip_counter.py) and the in-memory state of the routing worker
    (routing/worker.py, [_SharedRoutingState]). *)

(** ** State *)

Record SharedRoutingState := mkShared {
  cycles_since_last_heartbeat : Z;
  events_consumed_since_last_heartbeat : Z;
  skips_since_last_heartbeat : Z;
  events_consumed_total : Z;
  skips_by_reason : gmap string Z;
  last_routing_cycle_at : option string;
  routing_worker_degraded : bool;
  audit_buffer_dropped : Z;
  last_skip_per_route : gmap string (string * string)
}.

(** The registry and the discovery tables at one moment. *)
Record surroundings := mkSurroundings {
  agents_table : list AgentRecord; panes : ContainerPaneLookup
}.

(** The daemon as the routing worker sees it.  Readings of the outside world
    (registry, shutdown event, monotonic clock, [uuid.uuid4()]) are consumed in
    order; the last registry stays. *)
Record router := mkRouter {
  tower : world;
  shared : SharedRoutingState;
  audit_pending : list RoutePayload;   (* the deque of the audit writer *)
  audit_maxlen : nat;
  skip_entries : list Z;               (* the deque of the skip counter *)
  around : surroundings * list surroundings;
  shutdown_signals : list bool;
  uuids : list string;
  monotonic_ms : list Z
}.

Definition set_tower (w : world) (x : router) : router :=
  mkRouter w (shared x) (audit_pending x) (audit_maxlen x) (skip_entries x) (around x)
    (shutdown_signals x) (uuids x) (monotonic_ms x).

Definition on_tower {A} (m : M world A) : M router A := zoom tower set_tower m.

Definition set_shared (s : SharedRoutingState) (x : router) : router :=
  mkRouter (tower x) s (audit_pending x) (audit_maxlen x) (skip_entries x) (around x)
    (shutdown_signals x) (uuids x) (monotonic_ms x).
Definition set_audit_pending (p : list RoutePayload) (x : router) : router :=
  mkRouter (tower x) (shared x) p (audit_maxlen x) (skip_entries x) (around x)
    (shutdown_signals x) (uuids x) (monotonic_ms x).
Definition set_skip_entries (p : list Z) (x : router) : router :=
  mkRouter (tower x) (shared x) (audit_pending x) (audit_maxlen x) p (around x)
    (shutdown_signals x) (uuids x) (monotonic_ms x).
Definition set_around (a : surroundings * list surroundings) (x : router) : router :=
  mkRouter (tower x) (shared x) (audit_pending x) (audit_maxlen x) (skip_entries x) a
    (shutdown_signals x) (uuids x) (monotonic_ms x).
Definition set_readings (sh : list bool) (us : list string) (ms : list Z) (x : router) : router :=
  mkRouter (tower x) (shared x) (audit_pending x) (audit_maxlen x) (skip_entries x) (around x)
    sh us ms.

(** ** The skip counter *)

Definition WINDOW_MS : Z := 300000.
Definition SKIP_MAXLEN : nat := 10000.

(** [SkipCounter.record_skip] *)
Definition record_skip_entry (now_ms : Z) (entries : list Z) : list Z :=
  deque_push SKIP_MAXLEN entries now_ms.

(** [SkipCounter.count_in_window] *)
Definition count_in_window (now_ms : Z) (entries : list Z) : nat :=
  length (filter (λ e, (now_ms - WINDOW_MS < e ≤ now_ms)%Z) entries).

Definition record_skip : M router unit :=
  modify (λ x, match monotonic_ms x with
               | [] => set_skip_entries (record_skip_entry 0 (skip_entries x)) x
               | t :: rest =>
                   set_readings (shutdown_signals x) (uuids x) rest
                     (set_skip_entries (record_skip_entry t (skip_entries x)) x)
               end).

(** ** The audit writer *)

(** [OSError] and the subclasses file operations raise. *)
Definition is_os_error (e : exn) : bool :=
  match e with
  | PyError n => bool_decide (n ∈ ["OSError"; "PermissionError"; "FileNotFoundError";
                                   "IsADirectoryError"; "NotADirectoryError";
                                   "BlockingIOError"; "InterruptedError"; "FileExistsError"])
  | _ => false
  end.

(** [except OSError] *)
Definition except_os_error {S A} (m : M S A) (h : M S A) : M S A :=
  catch m (λ e, if is_os_error e then h else throw e).

(** [_enqueue_pending_locked]; the overflow callback counts the drop. *)
Definition enqueue_pending (entry : RoutePayload) : M router unit :=
  modify (λ x,
    let was_full := audit_maxlen x <=? length (audit_pending x) in
    let x' := set_audit_pending (deque_push (audit_maxlen x) (audit_pending x) entry) x in
    if was_full
    then let s := shared x in
         set_shared (mkShared (cycles_since_last_heartbeat s)
           (events_consumed_since_last_heartbeat s) (skips_since_last_heartbeat s)
           (events_consumed_total s) (skips_by_reason s) (last_routing_cycle_at s)
           (routing_worker_degraded s) (audit_buffer_dropped s + 1) (last_skip_per_route s)) x'
    else x').

Definition emit (p : RoutePayload) : M router unit :=
  except_os_error (on_tower (append_event (RouteAudit p))) (enqueue_pending p).

Definition has_pending (x : router) : bool := 0 <? length (audit_pending x).

Fixpoint drain_entries (snapshot : list RoutePayload) : M router (nat * list RoutePayload) :=
  match snapshot with
  | [] => mret (0, [])
  | entry :: rest =>
      written ← except_os_error (_ ← on_tower (append_event (RouteAudit entry)); mret true)
                                (mret false);
      r ← drain_entries rest;
      mret (if (written : bool) then (S r.1, r.2) else (r.1, entry :: r.2))
  end.

Definition drain_routes_pending : M router nat :=
  x ← get;
  _ ← modify (set_audit_pending []);
  r ← drain_entries (audit_pending x);
  _ ← mapM enqueue_pending r.2;
  mret r.1.

(** [ev.excerpt[:240]] *)
Definition clip (s : string) : string :=
  match decode s with Some t => encode (take 240 t) | None => s end.

Definition emit_route_matched (event : Z) (rid winner target tlabel exc : string)
  : M router unit :=
  ts ← on_tower now_iso; emit (route_matched ts event rid winner target tlabel exc).

Definition emit_route_skipped (event : Z) (rid : string)
    (winner target tlabel : option string) (reason : string) (sub : option string)
    (exc : string) : M router unit :=
  ts ← on_tower now_iso; emit (route_skipped ts event rid winner target tlabel reason sub exc).

Definition emit_route_created (r : RouteRow) : M router unit :=
  ts ← on_tower now_iso;
  emit (route_created ts (route_id r) (route_event_type r) (source_scope_kind r)
          (source_scope_value r) (target_rule r) (target_value r) (master_rule r)
          (master_value r) (template r) (created_by_agent_id r) (last_consumed_event_id r)).

Definition emit_route_updated (rid : string) (enabled_now : bool) (by_ : option string)
  : M router unit :=
  ts ← on_tower now_iso; emit (route_updated ts rid enabled_now by_).

Definition emit_route_deleted (rid : string) (by_ : option string) : M router unit :=
  ts ← on_tower now_iso; emit (route_deleted ts rid by_).

Definition emit_routing_worker_heartbeat (interval cycles consumed skips : Z) (dg : bool)
  : M router unit :=
  ts ← on_tower now_iso; emit (routing_worker_heartbeat ts interval cycles consumed skips dg).
