(* ===== verification/RoutingWorker.v ===== *)
(** The routing worker (src/src/agenttower/routing/worker.py): one cycle drains the
    route audit, lists the enabled routes, and takes each route's next events to a
    decision: a queue row or a skip, then the cursor.

    A connection of the factory sees the committed state at the moment it is opened,
    after whatever other threads committed; closing it discards an open transaction.
    [fault_inject_at] is the value of the fault-injection environment variable. *)

From S2P Require Import Prelude Errors Agents Permissions Store QueueDao Utf8 Envelope AuditWriter Lookups KillSwitch QueueService SourceScope Arbitration Template Routes.
From Stdlib Require Import Ascii.

Definition DEFAULT_BATCH_SIZE : nat := 100.

(** The bounds check of [RoutingWorker.__init__]; the interval in milliseconds. *)
Definition construct_ok (cycle_interval_ms batch_size : Z) : bool :=
  (100 <=? cycle_interval_ms)%Z && (cycle_interval_ms <=? 60000)%Z &&
  (1 <=? batch_size)%Z && (batch_size <=? 10000)%Z.

(** ** Readings *)

(** [try: m finally: conn.close()]: closing rolls back. *)
Definition closing {A} (m : M conn A) : M conn A := λ c,
  let '(o, c') := m c in (o, set_txn None c').

(** [conn = self._conn_factory(); try: m finally: conn.close()] *)
Definition with_connection {A} (m : M conn A) : M router A :=
  on_tower (on_db (_ ← acquire; closing m)).

Definition shutdown_is_set : M router bool := λ x,
  match shutdown_signals x with
  | [] => (Ok false, x)
  | b :: rest => (Ok b, set_readings rest (uuids x) (monotonic_ms x) x)
  end.

Definition next_uuid : M router string := λ x,
  match uuids x with
  | [] => (Ok EmptyString, x)
  | u :: rest => (Ok u, set_readings (shutdown_signals x) rest (monotonic_ms x) x)
  end.

(** One read of the registry; the next one may see another state. *)
Definition look {A} (f : surroundings → A) : M router A := λ x,
  match around x with
  | (s, []) => (Ok (f s), x)
  | (s, s' :: rest) => (Ok (f s), set_around (s', rest) x)
  end.

Definition lift_outcome {S A} (o : outcome A) : M S A := λ s, (o, s).

(** ** Counters *)

Definition count_match : M router unit :=
  modify (λ x, let s := shared x in
    set_shared (mkShared (cycles_since_last_heartbeat s)
      (events_consumed_since_last_heartbeat s + 1) (skips_since_last_heartbeat s)
      (events_consumed_total s + 1) (skips_by_reason s) (last_routing_cycle_at s)
      (routing_worker_degraded s) (audit_buffer_dropped s) (last_skip_per_route s)) x).

Definition count_skip (rid reason ts : string) : M router unit :=
  modify (λ x, let s := shared x in
    set_shared (mkShared (cycles_since_last_heartbeat s)
      (events_consumed_since_last_heartbeat s) (skips_since_last_heartbeat s + 1)
      (events_consumed_total s)
      (<[reason := (default 0 (skips_by_reason s !! reason) + 1)%Z]> (skips_by_reason s))
      (last_routing_cycle_at s) (routing_worker_degraded s) (audit_buffer_dropped s)
      (<[rid := (reason, ts)]> (last_skip_per_route s))) x).

Definition count_cycle (ts : string) (degraded_now : bool) : M router unit :=
  modify (λ x, let s := shared x in
    set_shared (mkShared (cycles_since_last_heartbeat s + 1)
      (events_consumed_since_last_heartbeat s) (skips_since_last_heartbeat s)
      (events_consumed_total s) (skips_by_reason s) (Some ts) degraded_now
      (audit_buffer_dropped s) (last_skip_per_route s)) x).

Definition set_degraded : M router unit :=
  modify (λ x, let s := shared x in
    set_shared (mkShared (cycles_since_last_heartbeat s)
      (events_consumed_since_last_heartbeat s) (skips_since_last_heartbeat s)
      (events_consumed_total s) (skips_by_reason s) (last_routing_cycle_at s) true
      (audit_buffer_dropped s) (last_skip_per_route s)) x).

(** ** Cursor and skips *)

Definition advance_tx (rid : string) (eid : Z) (ts : string) : M conn unit :=
  catch (_ ← begin_immediate; _ ← advance_cursor rid eid ts; commit)
    (λ e, match e with
          | OperationalError msg =>
              _ ← rollback;
              if Text.contains "database is locked" (Text.lower msg)
              then throw (RoutingTransientError "routing_sqlite_locked") else throw e
          | _ => throw e
          end).

Definition advance_cursor_only (rid : string) (eid : Z) : M router unit :=
  ts ← on_tower now_iso;
  with_connection (advance_tx rid eid ts).

Definition skip (r : RouteRow) (ev : EventRowSnapshot) (winner target : option AgentRecord)
    (reason : string) (sub_reason : option string) : M router unit :=
  _ ← advance_cursor_only (route_id r) (snap_event_id ev);
  _ ← emit_route_skipped (snap_event_id ev) (route_id r) (agent_id <$> winner)
        (agent_id <$> target) (label <$> target) reason sub_reason (clip (excerpt ev));
  _ ← record_skip;
  ts ← on_tower now_iso;
  count_skip (route_id r) reason ts.

(** ** Target resolution: an agent, or the reason to skip *)

Definition resolve_route_target (r : RouteRow) (source_agent : AgentRecord)
  : M router (AgentRecord + string) :=
  if bool_decide (target_rule r = "explicit") then
    match target_value r with
    | None => throw (PyError "AssertionError")
    | Some value =>
        catch (t ← look (λ s, resolve_target (L := RegistryAgentsLookup (agents_table s)) value);
               a ← lift_outcome t; mret (inl a))
          (λ e, match e with
                | QueueServiceError TargetResolve _ => mret (inr "target_not_found")
                | _ => throw e
                end)
    end
  else if bool_decide (target_rule r = "source") then
    if negb (active source_agent) then mret (inr "target_not_active")
    else mret (inl source_agent)
  else if bool_decide (target_rule r = "role") then
    match target_value r with
    | None => throw (PyError "AssertionError")
    | Some value =>
        rc ← lift_outcome (parse_role_capability value);
        found ← look (λ s, list_active_by_role (agents_table s) rc.1 rc.2);
        match merge_sort (key_le agent_id) found with
        | [] => mret (inr "no_eligible_target")
        | a :: _ => mret (inl a)
        end
    end
  else mret (inr "target_not_found").

Definition build_template_fields (ev : EventRowSnapshot) (source_agent : AgentRecord)
  : gmap string field_value :=
  {[ "event_id" := VInt (snap_event_id ev); "event_type" := VStr (snap_event_type ev);
     "source_agent_id" := VStr (source_agent_id ev); "source_label" := VStr (label source_agent);
     "source_role" := VStr (role source_agent);
     "source_capability" := VStr (capability source_agent);
     "observed_at" := VStr (observed_at ev) ]}.

Section Worker.
Variable sha256_hex : string → string.
Variable redactor : text → option text.
Variable special :
  gmap string string → string → string → option ascii → string → string + string.
Variable envelope_max_bytes : Z.
Variable default_wait : Z.
Variable batch_size : nat.
Variable fault_inject_at : string.

Definition fault_inject (point : string) : M router unit :=
  if bool_decide (fault_inject_at = point) then throw SystemExit else mret tt.

(** ** One event *)

Definition enqueue (r : RouteRow) (ev : EventRowSnapshot) (winner target : AgentRecord)
    (body : string) : M router SendInputResult :=
  mid ← next_uuid;
  s ← look (λ s, s);
  on_tower (enqueue_route_message (L := RegistryAgentsLookup (agents_table s)) (CP := panes s)
              sha256_hex redactor envelope_max_bytes default_wait
              winner (agent_id target) body mid (route_id r) (snap_event_id ev)).

(** Step 4: [None] goes on, [Some reason] skips. *)
Definition try_enqueue (r : RouteRow) (ev : EventRowSnapshot) (winner target : AgentRecord)
    (body : string) : M router (option string) :=
  catch (_ ← fault_inject "before_commit";
         _ ← enqueue r ev winner target body;
         _ ← fault_inject "after_commit";
         mret None)
    (λ e, match e with
          | QueueServiceError _ code => mret (Some code)
          | IntegrityError => mret None
          | OperationalError msg =>
              if Text.contains "database is locked" (Text.lower msg)
              then throw (RoutingTransientError "routing_sqlite_locked") else throw e
          | _ => throw e
          end).

Definition process_one_event (r : RouteRow) (ev : EventRowSnapshot)
    (source_agent : AgentRecord) : M router unit :=
  active_masters ← look (λ s, list_active_masters (agents_table s));
  arb_result ← lift_outcome (pick_master (master_rule r) (master_value r) active_masters);
  match arb_result with
  | MasterSkip reason => skip r ev None None reason None
  | MasterWon winner =>
      resolved ← resolve_route_target r source_agent;
      match resolved with
      | inr reason => skip r ev (Some winner) None reason None
      | inl target =>
          match render_template special redactor (template r)
                  (build_template_fields ev source_agent) (excerpt ev) with
          | Raise (RouteTemplateRenderError sub) =>
              skip r ev (Some winner) (Some target) "template_render_error" (Some sub)
          | Raise e =>
              if is_exception e
              then throw (RoutingTransientError "routing_internal_render_failure") else throw e
          | Ok body =>
              verdict ← try_enqueue r ev winner target body;
              match verdict with
              | Some reason => skip r ev (Some winner) (Some target) reason None
              | None =>
                  _ ← advance_cursor_only (route_id r) (snap_event_id ev);
                  _ ← emit_route_matched (snap_event_id ev) (route_id r) (agent_id winner)
                        (agent_id target) (label target) (clip (excerpt ev));
                  count_match
              end
          end
      end
  end.

(** ** One route *)

Fixpoint batch_loop (r : RouteRow) (parsed : ParsedSourceScope)
    (candidates : list EventRowSnapshot) (any_advanced : bool) : M router bool :=
  match candidates with
  | [] => mret any_advanced
  | ev :: rest =>
      stop ← shutdown_is_set;
      if (stop : bool) then mret any_advanced
      else
        refreshed ← with_connection (select_route (route_id r));
        match refreshed with
        | None => mret any_advanced
        | Some r' =>
            if negb (enabled r') then mret any_advanced
            else
              source_agent ← look (λ s, select_agent_by_id (agents_table s) (source_agent_id ev));
              match source_agent with
              | None =>
                  _ ← advance_cursor_only (route_id r) (snap_event_id ev);
                  batch_loop r parsed rest true
              | Some a =>
                  if negb (matches parsed (source_agent_id ev) (role a) (Some (capability a)))
                  then _ ← advance_cursor_only (route_id r) (snap_event_id ev);
                       batch_loop r parsed rest true
                  else _ ← process_one_event r ev a;
                       batch_loop r parsed rest true
              end
        end
  end.

Definition process_route_batch (r : RouteRow) : M router bool :=
  parsed ← lift_outcome (parse_source_scope_value (source_scope_value r) (source_scope_kind r));
  candidates ← with_connection (select_events_after_cursor (last_consumed_event_id r)
                                  (route_event_type r) batch_size);
  batch_loop r parsed candidates false.

(** ** One cycle *)

(** The loop over routes; the result says whether some route failed. *)
Fixpoint routes_loop (rs : list RouteRow) (failed_before : bool) : M router bool :=
  match rs with
  | [] => mret failed_before
  | r :: rest =>
      stop ← shutdown_is_set;
      if (stop : bool) then mret failed_before
      else
        failed_now ← except (_ ← process_route_batch r; mret failed_before) (λ _, mret true);
        routes_loop rest failed_now
  end.

Definition run_one_cycle : M router unit :=
  _ ← drain_routes_pending;
  rs ← with_connection (list_routes true);
  cycle_had_any_failure ← routes_loop rs false;
  ts ← on_tower now_iso;
  x ← get;
  count_cycle ts (cycle_had_any_failure || has_pending x).

(** One turn of [run]: a failing cycle only sets the degraded flag. *)
Definition run_turn : M router bool :=
  stop ← shutdown_is_set;
  if (stop : bool) then mret false
  else _ ← except run_one_cycle (λ _, set_degraded); mret true.
End Worker.
