(* ===== verification/RoutingFrame.v ===== *)
(** Frame rules for the routing worker: an invariant that every action of the
    daemon keeps whatever fails (used for the cursors of routes), and the calm
    rules of [AuditSpec] lifted to the worker's state. *)

From S2P Require Import Prelude Errors Agents Permissions Store QueueDao Utf8 Envelope AuditWriter QueueSpec QueueSession AuditSpec Lookups KillSwitch QueueService SourceScope Arbitration Template Routes RoutingWorker.
From Stdlib Require Import Ascii.

Create HintDb frame.

(** ** Actions that keep an invariant *)

Definition stays {S A} (I : S → Prop) (m : M S A) : Prop := ∀ s, I s → wp m (λ _ s', I s') s.

Section Stays.
Context {S : Type} (I : S → Prop).

Lemma stays_ret {A} (a : A) : stays I (mret a).
Proof. by intros s Hs. Qed.
Lemma stays_throw {A} e : stays (A := A) I (throw e).
Proof. by intros s Hs. Qed.
Lemma stays_outcome {A} (o : outcome A) : stays I (lift_outcome o).
Proof. by intros s Hs. Qed.
Lemma stays_lift {A} (o : outcome A) : stays I (lift (λ s, (o, s))).
Proof. by intros s Hs. Qed.
Lemma stays_get {A} (k : S → M S A) : (∀ s, stays I (k s)) → stays I (s ← get; k s).
Proof. intros Hk s Hs. apply wp_bind. by apply (Hk s s). Qed.
Lemma stays_modify f : (∀ s, I s → I (f s)) → stays I (modify f).
Proof. intros Hf s Hs. by apply wp_modify, Hf. Qed.
Lemma stays_bind {A B} (m : M S A) (k : A → M S B) :
  stays I m → (∀ a, stays I (k a)) → stays I (m ≫= k).
Proof.
  intros Hm Hk s Hs. apply wp_bind. eapply wp_mono; [|by apply Hm].
  intros [a|e] s' Hs'; [by apply Hk|done].
Qed.
Lemma stays_catch {A} (m : M S A) h : stays I m → (∀ e, stays I (h e)) → stays I (catch m h).
Proof.
  intros Hm Hh s Hs. apply wp_catch. eapply wp_mono; [|by apply Hm].
  intros [a|e] s' Hs'; [done|by apply Hh].
Qed.
Lemma stays_except {A} (m : M S A) h : stays I m → (∀ e, stays I (h e)) → stays I (except m h).
Proof.
  intros Hm Hh. apply stays_catch; [done|]. intros e.
  destruct (is_exception e); [apply Hh|apply stays_throw].
Qed.
End Stays.

Lemma stays_zoom {W S A} (J : S → Prop) get_ put_ (m : M S A) :
  (∀ (w : W) s, get_ (put_ s w) = s) →
  stays J m → stays (λ w, J (get_ w)) (zoom get_ put_ m).
Proof.
  intros Hgp Hm w Hw. specialize (Hm _ Hw). unfold wp, zoom in *.
  destruct (m (get_ w)) as [o s']. simpl. by rewrite Hgp.
Qed.

(** ** Invariants of the routes table *)

(** [P] holds of the committed and of the uncommitted routes, and the other threads
    only do what [R] allows. *)
Definition holds (P : gmap string RouteRow → Prop) (R : (db → db) → Prop) (c : conn) : Prop :=
  P (routes (committed c)) ∧ (∀ d, txn c = Some d → P (routes d)) ∧ Forall R (others c).

(** What the other threads do keeps [P]. *)
Class Stable (P : gmap string RouteRow → Prop) (R : (db → db) → Prop) : Prop :=
  stable f d : R f → P (routes d) → P (routes (f d)).

(** A lower bound on a route's cursor; no bound is [None]. *)
Definition cursor_from (rid : string) (b : option Z) (rs : gmap string RouteRow) : Prop :=
  match b, rs !! rid with
  | Some n, Some r => (n ≤ last_consumed_event_id r)%Z
  | _, _ => True
  end.

(** Never moves the cursor of [rid] back. *)
Definition forward (rid : string) (f : db → db) : Prop :=
  ∀ b d, cursor_from rid b (routes d) → cursor_from rid b (routes (f d)).

Definition bounded (rid : string) (b : option Z) : conn → Prop :=
  holds (cursor_from rid b) (forward rid).

#[export] Instance cursor_stable rid b : Stable (cursor_from rid b) (forward rid).
Proof. intros f d Hf. apply Hf. Qed.

(** The table is what it was, and nobody else writes it. *)
Definition leaves_routes (f : db → db) : Prop := ∀ d, routes (f d) = routes d.
Definition untouched (rs : gmap string RouteRow) : conn → Prop :=
  holds (λ rs', rs' = rs) leaves_routes.

#[export] Instance untouched_stable rs : Stable (λ rs', rs' = rs) leaves_routes.
Proof. intros f d Hf. by rewrite Hf. Qed.

Section Holds.
Context (P : gmap string RouteRow → Prop) (R : (db → db) → Prop) `{!Stable P R}.
Local Abbreviation keeps := (stays (holds P R)).

Lemma keeps_statement : keeps statement.
Proof. intros c Hc. by apply wp_statement. Qed.

Lemma keeps_read {A} (f : db → A) : keeps (sql_read f).
Proof. intros c Hc. by apply wp_sql_read. Qed.

Lemma keeps_write {A} (f : db → outcome (A * db)) :
  (∀ d a d', P (routes d) → f d = Ok (a, d') → P (routes d')) →
  keeps (sql_write f).
Proof.
  intros Hf. apply stays_bind; [apply keeps_statement|intros _].
  intros c (Hc & Ht & Ho). unfold wp, lift. destruct (f (view c)) as [[a d']|e] eqn:E; simpl;
    [|by split_and!]. unfold view, set_view in *. destruct (txn c) as [d|] eqn:Etx; simpl in *.
  - split_and!; [done| |done]. intros d0 [= <-]. eapply Hf; [|done]. by apply Ht.
  - split_and!; [by eapply Hf|done..].
Qed.

Lemma keeps_begin : keeps begin_immediate.
Proof.
  apply stays_bind; [apply keeps_statement|intros _]. intros c (Hc & Ht & Ho).
  unfold wp, lift. destruct (txn c) eqn:E; simpl; [by rewrite <- E in Ht; split_and!|].
  split_and!; [done| |done]. by intros d [= <-].
Qed.

Lemma keeps_commit : keeps commit.
Proof.
  apply stays_bind; [apply keeps_statement|intros _]. intros c (Hc & Ht & Ho).
  unfold wp, lift. destruct (txn c) as [d|] eqn:E; simpl; [|by split_and!; rewrite ?E].
  split_and!; [by apply Ht|done|done].
Qed.

Lemma keeps_rollback : keeps rollback.
Proof.
  intros c (Hc & Ht & Ho). unfold wp, rollback. destruct (txn c) eqn:E; simpl; split_and!; try done.
  by rewrite E.
Qed.

Lemma keeps_acquire : keeps acquire.
Proof.
  intros c (Hc & Ht & Ho). unfold wp, acquire. destruct (others c) as [|f rest] eqn:E; simpl.
  { split_and!; [done..|by rewrite E]. }
  apply Forall_cons in Ho as [Hf Hr]. split_and!; [by apply stable|done|done].
Qed.

Lemma keeps_sleep n : keeps (sleep_ms n).
Proof. by apply stays_modify. Qed.

Lemma keeps_closing {A} (m : M conn A) : keeps m → keeps (closing m).
Proof.
  intros Hm c Hc. specialize (Hm c Hc). unfold wp, closing in *.
  destruct (m c) as [o c']. destruct Hm as (? & _ & ?). by split_and!.
Qed.

(** ** Queue operations do not touch routes *)

Lemma keeps_rollback_on_error {A} (m : M conn A) : keeps m → keeps (rollback_on_error m).
Proof.
  intros Hm. apply stays_except; [done|intros e].
  apply stays_bind; [apply keeps_rollback|intros _; apply stays_throw].
Qed.

Lemma keeps_attempt_chain {A} (m : M conn A) delays : keeps m → keeps (attempt_chain m delays).
Proof.
  intros Hm. induction delays as [|n delays IH]; (apply stays_catch; [done|intros e]);
    destruct e; try apply stays_throw; destruct (negb _); try apply stays_throw.
  apply stays_bind; [apply keeps_sleep|by intros _].
Qed.

Lemma keeps_insert_event ty agent ts exc : keeps (insert_audit_event ty agent ts exc).
Proof.
  unfold insert_audit_event. destruct (_ || _); [|apply stays_throw]. apply keeps_write.
  unfold insert_event_row. intros d a d' Hd. case_bool_decide; [|done]. by intros [= <- <-].
Qed.

Lemma keeps_insert_with st br mid s t body sha size ts org r eid p :
  keeps (insert_with st br mid s t body sha size ts org r eid
           (Some (insert_queue_transition_in_tx p))).
Proof.
  apply stays_bind; [apply keeps_begin|intros _]. apply keeps_rollback_on_error.
  destruct (p_location t) as [loc|]; [|apply stays_throw].
  apply stays_bind.
  { apply keeps_write. intros d a d' Hd (_ & _ & _ & ->)%insert_row_Ok. done. }
  intros _. apply stays_bind.
  { apply stays_bind; [|intros; apply stays_ret]. unfold insert_queue_transition_in_tx.
    destruct (negb _); [apply stays_throw|]. destruct (qp_target p); [|apply stays_throw].
    apply stays_bind; [apply keeps_insert_event|intros; apply stays_ret]. }
  intros res. apply stays_bind; [apply keeps_commit|intros _; apply stays_ret].
Qed.

Lemma keeps_insert st br mid s t body sha size ts org r eid p :
  keeps (with_lock_retry (insert_with st br mid s t body sha size ts org r eid
           (Some (insert_queue_transition_in_tx p)))).
Proof.
  apply stays_bind; [by apply keeps_acquire|intros _].
  apply keeps_attempt_chain, keeps_insert_with.
Qed.

Lemma keeps_get_row mid : keeps (get_row_by_id mid).
Proof. apply stays_bind; [apply keeps_acquire|intros _; apply keeps_read]. Qed.

Lemma keeps_read_flag : keeps read_routing_flag.
Proof.
  unfold read_routing_flag. apply stays_bind; [by apply keeps_acquire|intros _].
  apply stays_bind; [apply keeps_read|intros [fl|]; [apply stays_ret|apply stays_throw]].
Qed.

Lemma keeps_watermark eid ts : keeps (watermark eid ts).
Proof.
  apply stays_bind; [by apply keeps_acquire|intros _]. apply stays_bind; [apply keeps_begin|intros _].
  apply keeps_rollback_on_error, stays_bind; [|intros _; apply keeps_commit].
  apply keeps_write. by intros d a d' Hd [= <- <-].
Qed.

End Holds.

Section Cursor.
Context (rid : string) (b : option Z).
Local Abbreviation keeps := (stays (bounded rid b)).

(** Moving a cursor forward keeps every bound. *)
Lemma keeps_advance r eid ts : keeps (advance_cursor r eid ts).
Proof.
  apply stays_bind; [|intros _; apply stays_ret]. apply keeps_write.
  unfold update_route. intros d a d' Hd. destruct (routes d !! r) as [x|] eqn:Er;
    [|by intros [= <- <-]]. destruct (_ <? _)%Z eqn:Hlt; [|by intros [= <- <-]].
  destruct (check_route _); [|done]. intros [= <- <-]. simpl. unfold cursor_from in *.
  destruct b as [n|]; [|done]. destruct (decide (r = rid)) as [->|Hne].
  - rewrite lookup_insert_eq. simpl. rewrite Er in Hd. apply Z.ltb_lt in Hlt. lia.
  - by rewrite lookup_insert_ne.
Qed.

Lemma keeps_advance_tx r eid ts : keeps (advance_tx r eid ts).
Proof.
  apply stays_catch.
  - apply stays_bind; [apply keeps_begin|intros _].
    apply stays_bind; [apply keeps_advance|intros _; apply keeps_commit].
  - intros []; try apply stays_throw. apply stays_bind; [apply keeps_rollback|intros _].
    destruct (Text.contains _ _); apply stays_throw.
Qed.
End Cursor.

(** ** The worker keeps every cursor bound *)

Definition in_world (I : conn → Prop) (w : world) : Prop := I (db_conn w).
Definition in_router (I : conn → Prop) (x : router) : Prop := in_world I (tower x).

Lemma stays_on_db I {A} (m : M conn A) : stays I m → stays (in_world I) (on_db m).
Proof. by apply (stays_zoom I). Qed.

Lemma stays_on_host I f : stays (in_world I) (on_host f).
Proof. by apply stays_modify. Qed.

Lemma stays_on_tower I {A} (m : M world A) :
  stays (in_world I) m → stays (in_router I) (on_tower m).
Proof. by apply (stays_zoom (in_world I)). Qed.

Lemma stays_now_iso I : stays (in_world I) now_iso.
Proof. intros w Hw. unfold wp, now_iso. by destruct (clock (hst w)) as [t [|]]. Qed.

Lemma stays_append_event I p : stays (in_world I) (append_event p).
Proof. intros w Hw. unfold wp, append_event. by repeat case_match. Qed.

#[export] Hint Resolve stays_ret stays_throw stays_outcome stays_lift stays_on_host stays_now_iso
  stays_append_event : frame.
#[export] Hint Resolve keeps_insert keeps_get_row keeps_read_flag keeps_watermark keeps_read
  : frame.
#[export] Hint Extern 0 (Stable _ _) => apply _ : frame.
#[export] Hint Extern 1 (stays (bounded _ _) _) => progress unfold bounded : frame.
#[export] Hint Resolve keeps_advance_tx : frame.

(** Walk through an action, using the registered facts at its leaves. *)
Ltac stays_step :=
  match goal with
  | |- stays _ (mbind _ get) => apply stays_get; intros ?
  | |- stays _ (mbind _ _) => apply stays_bind; [|intros ?]
  | |- stays _ (catch _ _) => apply stays_catch; [|intros ?]
  | |- stays _ (except _ _) => apply stays_except; [|intros ?]
  | |- stays _ (match ?x with _ => _ end) => destruct x
  | |- stays _ (on_db _) => apply stays_on_db
  | |- stays _ (on_tower _) => apply stays_on_tower
  | |- stays _ _ => solve [eauto with frame]
  end.
Ltac stays_auto := repeat stays_step.

Lemma stays_is_enabled P R `{!Stable P R} : stays (in_world (holds P R)) is_enabled.
Proof. unfold is_enabled. stays_auto. Qed.

Lemma stays_append_jsonl P R `{!Stable P R} eid p ts :
  stays (in_world (holds P R)) (append_jsonl_then_watermark eid p ts).
Proof. unfold append_jsonl_then_watermark, buffer. stays_auto. Qed.

#[export] Hint Resolve stays_is_enabled stays_append_jsonl : frame.

Lemma stays_enqueue `{AgentsLookup} `{ContainerPaneLookup} P R `{!Stable P R} sha redactor mx dw
    sender target body mid r eid :
  stays (in_world (holds P R)) (enqueue_route_message sha redactor mx dw sender target body mid r eid).
Proof.
  unfold enqueue_route_message, send_input, unpack, assert_row, insert_queued, insert_blocked.
  cbv zeta. stays_auto.
Qed.

#[export] Hint Resolve stays_enqueue : frame.

Section Router.
Context (P : gmap string RouteRow → Prop) (R : (db → db) → Prop) `{!Stable P R}.
Local Abbreviation keeps := (stays (in_router (holds P R))).

Lemma keeps_with_connection {A} (m : M conn A) :
  stays (holds P R) m → keeps (with_connection m).
Proof.
  intros Hm. apply stays_on_tower, stays_on_db, stays_bind; [by apply keeps_acquire|intros _].
  by apply keeps_closing.
Qed.

Lemma keeps_shutdown : keeps shutdown_is_set.
Proof. intros x Hx. unfold wp, shutdown_is_set. by destruct (shutdown_signals x). Qed.
Lemma keeps_uuid : keeps next_uuid.
Proof. intros x Hx. unfold wp, next_uuid. by destruct (uuids x). Qed.
Lemma keeps_look {A} (f : surroundings → A) : keeps (look f).
Proof. intros x Hx. unfold wp, look. by destruct (around x) as [s [|]]. Qed.
Lemma keeps_record_skip : keeps record_skip.
Proof. apply stays_modify. intros x Hx. by destruct (monotonic_ms x). Qed.
Lemma keeps_enqueue_pending p : keeps (enqueue_pending p).
Proof. apply stays_modify. intros x Hx. cbv zeta. by destruct (_ <=? _). Qed.
Lemma keeps_count_match : keeps count_match.
Proof. by apply stays_modify. Qed.
Lemma keeps_count_skip r reason ts : keeps (count_skip r reason ts).
Proof. by apply stays_modify. Qed.
Lemma keeps_count_cycle ts dg : keeps (count_cycle ts dg).
Proof. by apply stays_modify. Qed.
Lemma keeps_set_degraded : keeps set_degraded.
Proof. by apply stays_modify. Qed.
Lemma keeps_set_pending p : keeps (modify (set_audit_pending p)).
Proof. by apply stays_modify. Qed.
End Router.

#[export] Hint Resolve keeps_shutdown keeps_uuid keeps_look keeps_record_skip
  keeps_enqueue_pending keeps_count_match keeps_count_skip keeps_count_cycle keeps_set_degraded
  keeps_set_pending : frame.
#[export] Hint Extern 2 (stays _ (with_connection _)) =>
  apply keeps_with_connection; solve [eauto with frame] : frame.

Lemma keeps_emit P R `{!Stable P R} p : stays (in_router (holds P R)) (emit p).
Proof. unfold emit, except_os_error. stays_auto. Qed.
#[export] Hint Resolve keeps_emit : frame.

Lemma keeps_advance_only rid b r eid : stays (in_router (bounded rid b)) (advance_cursor_only r eid).
Proof. unfold advance_cursor_only. stays_auto. Qed.
#[export] Hint Resolve keeps_advance_only : frame.

Lemma keeps_skip rid b r ev winner target reason sub :
  stays (in_router (bounded rid b)) (skip r ev winner target reason sub).
Proof. unfold skip, emit_route_skipped. stays_auto. Qed.
#[export] Hint Resolve keeps_skip : frame.

Lemma keeps_resolve P R `{!Stable P R} r a : stays (in_router (holds P R)) (resolve_route_target r a).
Proof. unfold resolve_route_target. stays_auto. Qed.
#[export] Hint Resolve keeps_resolve : frame.

Lemma keeps_mapM I {A B} (f : A → M router B) l :
  (∀ a, stays I (f a)) → stays I (mapM f l).
Proof. intros Hf. induction l as [|a l IH]; cbn [mapM]; stays_auto; done. Qed.

Lemma keeps_drain P R `{!Stable P R} : stays (in_router (holds P R)) drain_routes_pending.
Proof.
  unfold drain_routes_pending.
  assert (∀ l, stays (in_router (holds P R)) (drain_entries l)) as Hd.
  { induction l as [|p l IH]; cbn [drain_entries]; unfold except_os_error; stays_auto. }
  stays_auto. apply keeps_mapM. intros p. stays_auto.
Qed.
#[export] Hint Resolve keeps_drain : frame.

Section WorkerKeeps.
Variable sha256_hex : string → string.
Variable redactor : text → option text.
Variable special :
  gmap string string → string → string → option ascii → string → string + string.
Variable envelope_max_bytes default_wait : Z.
Variable batch_size : nat.
Variable fault_inject_at : string.
Context (rid : string) (b : option Z).
Local Abbreviation keeps := (stays (in_router (bounded rid b))).
Local Abbreviation process := (process_one_event sha256_hex redactor special
  envelope_max_bytes default_wait fault_inject_at).

Lemma keeps_try_enqueue P R `{!Stable P R} r ev winner target body :
  stays (in_router (holds P R))
    (try_enqueue sha256_hex redactor envelope_max_bytes default_wait fault_inject_at
       r ev winner target body).
Proof. unfold try_enqueue, fault_inject, enqueue. stays_auto. Qed.
#[local] Hint Resolve keeps_try_enqueue : frame.

Lemma keeps_process r ev a : keeps (process r ev a).
Proof. unfold process_one_event, emit_route_matched. stays_auto. Qed.
#[local] Hint Resolve keeps_process : frame.

Lemma keeps_batch_loop r parsed evs any :
  keeps (batch_loop sha256_hex redactor special envelope_max_bytes default_wait fault_inject_at
           r parsed evs any).
Proof. revert any. induction evs as [|ev evs IH]; intros any; cbn [batch_loop]; stays_auto. Qed.
#[local] Hint Resolve keeps_batch_loop : frame.

Lemma keeps_run_turn :
  keeps (run_turn sha256_hex redactor special envelope_max_bytes default_wait batch_size
           fault_inject_at).
Proof.
  unfold run_turn, run_one_cycle.
  assert (∀ rs f, keeps (routes_loop sha256_hex redactor special envelope_max_bytes default_wait
    batch_size fault_inject_at rs f)) as Hl.
  { induction rs as [|r rs IH]; intros f; cbn [routes_loop]; unfold process_route_batch,
      select_events_after_cursor; stays_auto. }
  unfold list_routes. stays_auto.
Qed.
End WorkerKeeps.

(** ** The worker is calm *)

Definition steady_r (x : router) : Prop := steady (db_conn (tower x)).

Definition calm_r {A} (m : M router A) : Prop :=
  ∀ x, steady_r x → wp m (λ o x', live o (db_conn (tower x')) ∧ evolves (tower x) (tower x')) x.

Section CalmRouter.
Context {A B : Type}.

(** An action that leaves the world alone. *)
Lemma calm_r_local (m : M router A) : (∀ x, tower (m x).2 = tower x) → calm_r m.
Proof. intros Hm x Hx. unfold wp. rewrite Hm. split; [by apply steady_live|reflexivity]. Qed.

Lemma calm_r_bind (m : M router A) (k : A → M router B) :
  calm_r m → (∀ a, calm_r (k a)) → calm_r (m ≫= k).
Proof.
  intros Hm Hk x Hx. apply wp_bind. eapply wp_mono; [|by apply Hm].
  intros [a|e] x1 [Hl He].
  - eapply wp_mono; [|apply Hk; by eapply live_steady]. intros o x2 [Hl2 He2].
    split; [done|by etrans].
  - split; [by eapply live_raise|done].
Qed.

Lemma calm_r_catch (m : M router A) h :
  calm_r m → (∀ e, is_exception e = true → calm_r (h e)) → h SystemExit = throw SystemExit →
  calm_r (catch m h).
Proof.
  intros Hm Hh Hse x Hx. apply wp_catch. eapply wp_mono; [|by apply Hm].
  intros [a|e] x1 [Hl He]; [done|]. destruct (is_exception e) eqn:Hi.
  - eapply wp_mono; [|apply Hh; [done|by eapply live_raise_steady]]. intros o x2 [Hl2 He2].
    split; [done|by etrans].
  - destruct e; try done. rewrite Hse. by apply wp_throw.
Qed.

Lemma calm_r_get (k : router → M router A) : (∀ x, calm_r (k x)) → calm_r (x ← get; k x).
Proof. intros Hk x Hx. apply wp_bind. by apply (Hk x x). Qed.

Lemma calm_r_tower (m : M world A) : calm m → calm_r (on_tower m).
Proof.
  intros Hm x Hx. specialize (Hm _ Hx). unfold wp, on_tower, zoom in *.
  by destruct (m (tower x)) as [o w'].
Qed.

(** A short-lived connection whose statements leave the queue alone. *)
Lemma calm_r_connection (m : M conn A) :
  (∀ c, txn c = None →
     wp m (λ _ c', others c' = others c ∧ queue (committed c') = queue (committed c)) c) →
  calm_r (with_connection m).
Proof.
  intros Hm. apply calm_r_tower, calm_on_db. intros c (Ht & Hr & Hw).
  pose proof (locked_db_steps c Hr Hw) as Hl. apply wp_bind, wp_acquire.
  set (c1 := mkConn _ _ _ _ _ _). specialize (Hm c1 Ht). unfold wp, closing in *.
  destruct (m c1) as [o c']. destruct Hm as [Ho Hq]. simpl in *. rewrite Hq.
  split; [|done]. split_and!; [by eapply rely_tail| |done]. simpl. rewrite Hq.
  by eapply queue_steps_wf.
Qed.
End CalmRouter.

Lemma calm_r_except {A} (m : M router A) h :
  calm_r m → (∀ e, calm_r (h e)) → calm_r (except m h).
Proof. intros Hm Hh. apply calm_r_catch; [done| |done]. intros e He. rewrite He. apply Hh. Qed.

Lemma calm_r_read {A} (f : db → A) : calm_r (with_connection (sql_read f)).
Proof. apply calm_r_connection. intros c Ht. by apply wp_sql_read. Qed.

Lemma advance_tx_queue rid eid ts c :
  txn c = None →
  wp (advance_tx rid eid ts)
     (λ _ c', others c' = others c ∧ queue (committed c') = queue (committed c)) c.
Proof.
  intros Ht. apply wp_catch. eapply (wp_mono _ (λ o c', others c' = others c ∧
    queue (committed c') = queue (committed c))).
  - intros [a|e] c' [Ho Hq]; [done|]. destruct e; try (by apply wp_throw).
    apply wp_bind. unfold wp, rollback. destruct (txn c'); simpl; [|done].
    by destruct (Text.contains _ _).
  - apply wp_bind, wp_begin; [done| |done]. intros fs. apply wp_bind, wp_bind.
    eapply wp_sql_write; [done| |done..]. intros n d' fs' E. apply wp_ret.
    eapply wp_commit; [done| |done]. intros fs''. simpl. split; [done|].
    unfold update_route in E. by repeat case_match; simplify_eq.
Qed.

Lemma calm_r_advance rid eid : calm_r (advance_cursor_only rid eid).
Proof.
  apply calm_r_bind; [apply calm_r_tower, calm_now_iso|intros ts].
  apply calm_r_connection. intros c. apply advance_tx_queue.
Qed.

Create HintDb calmr.
#[export] Hint Resolve calm_r_advance calm_r_read : calmr.
#[export] Hint Extern 1 (calm_r (on_tower _)) =>
  apply calm_r_tower; first [apply calm_now_iso|apply calm_append_event] : calmr.
#[export] Hint Extern 3 (calm_r _) => apply calm_r_local; done : calmr.

Lemma calm_r_shutdown : calm_r shutdown_is_set.
Proof. apply calm_r_local. intros x. unfold shutdown_is_set. by destruct (shutdown_signals x). Qed.
Lemma calm_r_uuid : calm_r next_uuid.
Proof. apply calm_r_local. intros x. unfold next_uuid. by destruct (uuids x). Qed.
Lemma calm_r_look {A} (f : surroundings → A) : calm_r (look f).
Proof. apply calm_r_local. intros x. unfold look. by destruct (around x) as [s [|]]. Qed.
Lemma calm_r_record_skip : calm_r record_skip.
Proof. apply calm_r_local. intros x. simpl. by destruct (monotonic_ms x). Qed.
Lemma calm_r_enqueue_pending p : calm_r (enqueue_pending p).
Proof. apply calm_r_local. intros x. simpl. by destruct (_ <=? _). Qed.

#[export] Hint Resolve calm_r_shutdown calm_r_uuid calm_r_look calm_r_record_skip
  calm_r_enqueue_pending : calmr.

Ltac calm_r_step :=
  match goal with
  | |- calm_r (mbind _ get) => apply calm_r_get; intros ?
  | |- calm_r (mbind _ _) => apply calm_r_bind; [|intros ?]
  | |- calm_r (except _ _) => apply calm_r_except; [|intros ?]
  | |- calm_r (catch _ _) => apply calm_r_catch; [|intros ? ?|reflexivity]
  | |- calm_r (match ?x with _ => _ end) => destruct x
  | |- calm_r _ => solve [eauto with calmr]
  end.
Ltac calm_r_auto := repeat calm_r_step.

Lemma calm_r_emit p : calm_r (emit p).
Proof. unfold emit, except_os_error. calm_r_auto. Qed.
#[export] Hint Resolve calm_r_emit : calmr.

Lemma calm_r_skip r ev winner target reason sub : calm_r (skip r ev winner target reason sub).
Proof. unfold skip, emit_route_skipped. calm_r_auto. Qed.
#[export] Hint Resolve calm_r_skip : calmr.

Lemma calm_r_resolve r a : calm_r (resolve_route_target r a).
Proof. unfold resolve_route_target. calm_r_auto. Qed.
#[export] Hint Resolve calm_r_resolve : calmr.

Lemma calm_r_mapM {A B} (f : A → M router B) l : (∀ a, calm_r (f a)) → calm_r (mapM f l).
Proof. intros Hf. induction l as [|a l IH]; cbn [mapM]; calm_r_auto; done. Qed.

Lemma calm_r_drain : calm_r drain_routes_pending.
Proof.
  unfold drain_routes_pending.
  assert (∀ l, calm_r (drain_entries l)) as Hd.
  { induction l as [|p l IH]; cbn [drain_entries]; unfold except_os_error; calm_r_auto. }
  calm_r_auto. apply calm_r_mapM. intros p. calm_r_auto.
Qed.
#[export] Hint Resolve calm_r_drain : calmr.

Section WorkerCalm.
Variable sha256_hex : string → string.
Variable redactor : text → option text.
Variable special :
  gmap string string → string → string → option ascii → string → string + string.
Variable envelope_max_bytes default_wait : Z.
Variable batch_size : nat.
Variable fault_inject_at : string.

Lemma calm_r_enqueue r ev winner target body :
  calm_r (enqueue sha256_hex redactor envelope_max_bytes default_wait r ev winner target body).
Proof.
  unfold enqueue. calm_r_auto. apply calm_r_tower. unfold enqueue_route_message.
  apply calm_send_input.
Qed.
#[local] Hint Resolve calm_r_enqueue : calmr.

Lemma calm_r_try_enqueue r ev winner target body :
  calm_r (try_enqueue sha256_hex redactor envelope_max_bytes default_wait fault_inject_at
            r ev winner target body).
Proof. unfold try_enqueue, fault_inject. calm_r_auto. Qed.
#[local] Hint Resolve calm_r_try_enqueue : calmr.

Lemma calm_r_process r ev a :
  calm_r (process_one_event sha256_hex redactor special envelope_max_bytes default_wait
            fault_inject_at r ev a).
Proof. unfold process_one_event, emit_route_matched. calm_r_auto. Qed.
#[local] Hint Resolve calm_r_process : calmr.

Lemma calm_r_batch_loop r parsed evs any :
  calm_r (batch_loop sha256_hex redactor special envelope_max_bytes default_wait fault_inject_at
            r parsed evs any).
Proof.
  revert any. induction evs as [|ev evs IH]; intros any; cbn [batch_loop]; unfold select_route;
    calm_r_auto.
Qed.
#[local] Hint Resolve calm_r_batch_loop : calmr.

Lemma calm_r_run_turn :
  calm_r (run_turn sha256_hex redactor special envelope_max_bytes default_wait batch_size
            fault_inject_at).
Proof.
  unfold run_turn, run_one_cycle, list_routes.
  assert (∀ rs f, calm_r (routes_loop sha256_hex redactor special envelope_max_bytes default_wait
    batch_size fault_inject_at rs f)) as Hl.
  { induction rs as [|r rs IH]; intros f; cbn [routes_loop]; unfold process_route_batch,
      select_events_after_cursor; calm_r_auto. }
  calm_r_auto.
Qed.
End WorkerCalm.
