(* ===== verification/RoutingClaims.v ===== *)
(** Properties of the routing worker: one decision per event, cursors that only
    move forward, at most one message per route and event. *)

From S2P Require Import Prelude Errors Agents Permissions Store QueueDao Utf8 Envelope AuditWriter QueueSpec QueueSession AuditSpec Lookups KillSwitch QueueService SourceScope Arbitration Template Routes RoutingWorker RoutingFrame.
From Stdlib Require Import Ascii.

(** ** Routed rows *)

(** The row that route [rid] made of event [eid]. *)
Definition routed (rid : string) (eid : Z) (r : QueueRow) : Prop :=
  origin r = route ∧ row_route_id r = Some rid ∧ row_event_id r = Some eid.

(** Such a row is in the table, or the new message id was already another
    message's. *)
Definition marked (rid : string) (eid : Z) (mid : string) (q : gmap string QueueRow) : Prop :=
  (∃ k r, q !! k = Some r ∧ routed rid eid r) ∨
  (∃ r, q !! mid = Some r ∧ ¬ routed rid eid r).

Lemma routed_frozen rid eid r r' : frozen_of r' = frozen_of r → routed rid eid r ↔ routed rid eid r'.
Proof.
  intros H. unfold routed.
  assert (origin r' = origin r) as -> by exact (f_equal origin H).
  assert (row_route_id r' = row_route_id r) as -> by exact (f_equal row_route_id H).
  by assert (row_event_id r' = row_event_id r) as -> by exact (f_equal row_event_id H).
Qed.

Lemma marked_steps rid eid mid q q' : queue_steps q q' → marked rid eid mid q → marked rid eid mid q'.
Proof.
  intros Hs [(k & r & Hk & Hr)|(r & Hk & Hr)];
    destruct (queue_steps_row _ _ _ _ Hs Hk) as (r' & Hk' & Hst);
    pose proof (routed_frozen rid eid _ _ (rtc_row_step_frozen _ _ Hst)) as Hiff.
  - left. exists k, r'. split; [done|by apply Hiff].
  - right. exists r'. split; [done|]. by rewrite <- Hiff.
Qed.

Lemma same_route_event_routed r x rid eid :
  routed rid eid r → same_route_event r x = true → routed rid eid x.
Proof.
  intros (Ho & Hr & He) H. unfold same_route_event in H. rewrite Hr, He in H.
  destruct (row_route_id x) eqn:E1; [|by rewrite andb_false_r in H].
  destruct (row_event_id x) eqn:E2; [|by rewrite andb_false_r in H].
  bool_simp. subst. by split_and!.
Qed.

(** ** The insert and the unique index *)

Lemma fault_not_integrity f : fault_exn f ≠ IntegrityError.
Proof. by destruct f. Qed.

Lemma attempt_chain_integrity {A} (op : M conn A) (Φ : db → Prop) delays c :
  (∀ c, txn c = None → wp op (λ o c', (o = Raise IntegrityError → Φ (committed c')) ∧
     ∀ e, o = Raise e → e ≠ SystemExit → txn c' = None) c) →
  txn c = None → wp (attempt_chain op delays) (λ o c', o = Raise IntegrityError → Φ (committed c')) c.
Proof.
  intros Hop. revert c. induction delays as [|n delays IH]; intros c Ht; apply wp_catch;
    (eapply wp_mono; [|by apply Hop]); intros [a|e] c' [HI Hn]; try done;
    destruct e as [| |msg| | | | | | | |]; try (apply wp_throw; by auto);
    destruct (negb (is_lock_message (Text.lower msg))); try (by apply wp_throw).
  apply wp_bind, wp_modify. apply IH. simpl. by eapply Hn.
Qed.

(** A violated constraint means an equal id or an equal route and event. *)
Definition clash (r : QueueRow) (d : db) : Prop :=
  ∃ k x, queue d !! k = Some x ∧ (k = message_id r ∨ same_route_event r x = true).

Lemma insert_row_clash r d e : check_row r = true → insert_row r d = Raise e → clash r d.
Proof.
  unfold insert_row. intros ->. destruct (queue d !! message_id r) as [x|] eqn:E; simpl.
  - intros _. exists (message_id r), x. eauto.
  - destruct (existsb _ _) eqn:Hx; simpl; [|done]. intros _.
    apply existsb_exists in Hx as ([k x] & Hin & Hs). apply list_elem_of_In, elem_of_map_to_list in Hin.
    exists k, x. eauto.
Qed.

Lemma audit_no_integrity p c :
  qp_event_type p ∈ EVENT_TYPES → is_Some (txn c) →
  wp (insert_queue_transition_in_tx p) (λ o c', o ≠ Raise IntegrityError ∧
    committed c' = committed c ∧ is_Some (txn c')) c.
Proof.
  intros Hty [d Ht]. unfold insert_queue_transition_in_tx.
  destruct (negb _); [by apply wp_throw; rewrite Ht|].
  destruct (qp_target p); [|by apply wp_throw; rewrite Ht]. apply wp_bind.
  unfold insert_audit_event. destruct (_ || _); [|by apply wp_throw; rewrite Ht].
  eapply wp_sql_write; [done| | |].
  - intros a d' fs _. apply wp_ret. split_and!; [done..|simpl; eauto].
  - intros e fs. unfold insert_event_row. by rewrite bool_decide_true.
  - intros f fs. split_and!; [|done|simpl; rewrite Ht; eauto]. intros [= E].
    by destruct (fault_not_integrity f).
Qed.

Lemma insert_integrity st br mid s t loc body sha size ts org rid eid p c :
  let r := new_row mid st br s t loc body sha size ts org rid eid in
  check_row r = true → p_location t = Some loc → qp_event_type p ∈ EVENT_TYPES →
  txn c = None →
  wp (with_lock_retry (insert_with st br mid s t body sha size ts org rid eid
        (Some (insert_queue_transition_in_tx p))))
     (λ o c', o = Raise IntegrityError → clash r (committed c')) c.
Proof.
  intros r Hck Hloc Hty Ht. apply wp_bind, wp_acquire.
  apply (attempt_chain_integrity _ (clash r)); [|done]. clear c Ht. intros c Ht.
  apply wp_bind, wp_begin; [done| |].
  2:{ intros f fs. split; [intros [= E]; by destruct (fault_not_integrity f)|done]. }
  intros fs. rewrite Hloc. apply wp_except.
  apply (wp_mono _ (λ o c', match o with
    | Ok _ => True
    | Raise e => is_Some (txn c') ∧ (e = IntegrityError → clash r (committed c'))
    end)).
  { intros [a|e] c' H; [done|]. destruct H as [[d Hd] HI]. destruct (is_exception e) eqn:Hx.
    - apply wp_bind. eapply wp_rollback; [done|]. apply wp_throw. split; [by intros [= ->]; auto|done].
    - split; [by intros [= ->]|]. intros e' [= <-] Hne. by destruct e. }
  apply wp_bind. eapply wp_sql_write; [done| | |].
  - intros u d' fs' _. apply wp_bind, wp_bind. eapply wp_mono; [|by apply audit_no_integrity; simpl; eauto].
    intros [a|e] c' (HI & Hc & Htx); [|split; [done|congruence]]. apply wp_ret, wp_bind.
    destruct Htx as [d0 Hd0]. eapply wp_commit; [done|by intros; apply wp_ret|].
    intros f fs''. split; [simpl; eauto|]. intros E. by destruct (fault_not_integrity f).
  - intros e fs' Hr. split; [simpl; eauto|]. intros _. simpl. by eapply insert_row_clash.
  - intros f fs'. split; [simpl; eauto|]. intros E. by destruct (fault_not_integrity f).
Qed.

(** What a call left when it returned, or when the unique index refused it. *)
Definition left_mark {A} (rid : string) (eid : Z) (mid : string) (o : outcome A) (w : world) : Prop :=
  match o with
  | Ok _ | Raise IntegrityError => marked rid eid mid (queue (committed (db_conn w)))
  | _ => True
  end.

Lemma insert_marks st br mid s t loc body sha size ts rid eid p w
    (m : M conn (option (Z * payload))) :
  let r := new_row mid st br s t loc body sha size ts route (Some rid) (Some eid) in
  m = with_lock_retry (insert_with st br mid s t body sha size ts route (Some rid) (Some eid)
                         (Some (insert_queue_transition_in_tx p))) →
  calm_db m → check_row r = true → p_location t = Some loc → qp_event_type p ∈ EVENT_TYPES →
  steady (db_conn w) → wp (on_db m) (left_mark rid eid mid) w.
Proof.
  intros r -> Hcalm Hck Hloc Hty Hw. pose proof Hw as (Ht & Hrely & Hwf).
  pose proof (insert_spec (audited p) (Some (insert_queue_transition_in_tx p))
    (audit_callback_ok p) st br mid s t body sha size ts route (Some rid) (Some eid) (db_conn w)
    Ht Hrely Hwf) as Hi.
  pose proof (insert_integrity st br mid s t loc body sha size ts route (Some rid) (Some eid) p
    (db_conn w) Hck Hloc Hty Ht) as Hx.
  apply wp_on_db. eapply wp_mono; [|apply (wp_conj _ _ _ _ Hi Hx)].
  intros o c' [(_ & _ & Hp) HI]. unfold left_mark. simpl.
  assert (Hr : routed rid eid r) by done. destruct o as [a|[]]; try done.
  - destruct Hp as (loc' & Hloc' & _ & _ & _ & HW). simplify_eq.
    apply with_callback_queue in HW. left. exists mid, r. split; [|done].
    rewrite HW. simpl. by rewrite lookup_insert_eq.
  - destruct (HI eq_refl) as (k & x & Hk & Hc).
    destruct (decide (origin x = route)) as [Eo|Eo];
    destruct (decide (row_route_id x = Some rid)) as [Er|Er];
    destruct (decide (row_event_id x = Some eid)) as [Ee|Ee];
      first [by left; exists k, x; split_and!
            |right; destruct Hc as [->|Hs]; [exists x; split; [done|by intros (? & ? & ?)]|];
             exfalso; apply (same_route_event_routed _ _ _ _ Hr) in Hs as (? & ? & ?); congruence].
Qed.

Lemma is_enabled_raises w : wp is_enabled (λ o _, o ≠ Raise IntegrityError) w.
Proof.
  unfold is_enabled. apply wp_bind. unfold wp, get at 1. simpl.
  destruct (flag_cache (hst w)); [done|]. change (wp (fl ← on_db read_routing_flag;
    _ ← on_host (set_cache (Some (value fl))); mret (bool_decide (value fl = "enabled")))
    (λ o _, o ≠ Raise IntegrityError) w).
  apply wp_bind, wp_on_db. unfold read_routing_flag. apply wp_bind, wp_acquire, wp_bind, wp_sql_read.
  - intros fs. destruct (flag _); [|by apply wp_throw]. apply wp_ret. by apply wp_bind, wp_modify, wp_ret.
  - intros f fs [= E]. by destruct (fault_not_integrity f).
Qed.

Lemma resolve_target_raises `{AgentsLookup} s e : resolve_target s = Raise e → e ≠ IntegrityError.
Proof. unfold resolve_target. repeat case_match; naive_solver. Qed.

Lemma serialize_raises mid s t body mx e :
  serialize_and_check_size mid s t body mx = Raise e → e ≠ IntegrityError.
Proof.
  unfold serialize_and_check_size, validate_body, body_error, obind.
  repeat case_match; naive_solver.
Qed.

(** The CHECK constraints of a new row come down to the size of its envelope. *)
Lemma new_row_check mid st br s t loc body sha rendered ts org rid eid m i1 i2 mx :
  serialize_and_check_size m i1 i2 body mx = Ok rendered →
  (st = queued ∧ br = None ∨ st = blocked ∧ is_Some br) →
  check_row (new_row mid st br s t loc body sha (Z.of_nat (String.length rendered)) ts org rid eid)
  = true.
Proof.
  intros Hser Hst. assert (0 < Z.of_nat (String.length rendered))%Z as Hpos.
  { unfold serialize_and_check_size, obind in Hser. destruct (validate_body body); [|done].
    cbv zeta in Hser. destruct (_ <? _)%Z; [done|]. injection Hser as <-.
    unfold render_envelope, headers. simpl. lia. }
  unfold check_row, new_row; cbn [failure_reason envelope_size_bytes block_reason state
    operator_action operator_action_at operator_action_by delivered_at failed_at canceled_at].
  rewrite (proj2 (Z.ltb_lt _ _) Hpos).
  by destruct Hst as [[-> ->]|[-> [x ->]]].
Qed.

(** Reading the clock never fails and changes nothing else. *)
Lemma wp_now_iso (Q : outcome string → world → Prop) w :
  (∀ ts w', db_conn w' = db_conn w → jsonl (hst w') = jsonl (hst w) → Q (Ok ts) w') →
  wp now_iso Q w.
Proof.
  intros HQ. unfold wp, now_iso. destruct (clock (hst w)) as [t [|t' rest]]; by apply HQ.
Qed.

(** A calm continuation keeps the mark. *)
Lemma calm_keeps_mark {A} (m : M world A) rid eid mid w :
  calm m → steady (db_conn w) → marked rid eid mid (queue (committed (db_conn w))) →
  wp m (left_mark rid eid mid) w.
Proof.
  intros Hm Hw Hk. eapply wp_mono; [|by apply Hm]. intros o w' [_ [Hq _]].
  pose proof (marked_steps _ _ _ _ _ Hq Hk). by destruct o as [|[]].
Qed.

(** Insert a row by the DAO call [c], under the name [Hins] of the continuation. *)
Local Tactic Notation "by_insert" uconstr(c) :=
  match goal with Hins : ∀ _, calm_db _ → _ → _ |- _ => apply Hins end;
  [apply calm_undiscard; refine (run_call_calm _ c)
  |eapply insert_marks;
     [reflexivity|apply calm_undiscard; refine (run_call_calm _ c)
     |eapply new_row_check; [done|]|reflexivity|simpl; unfold EVENT_TYPES; set_solver|done]].

Lemma enqueue_marks `{AgentsLookup} `{ContainerPaneLookup} sha redactor mx dw
    sender target_input body mid rid eid w :
  steady (db_conn w) →
  wp (enqueue_route_message sha redactor mx dw sender target_input body mid rid eid)
     (left_mark rid eid mid) w.
Proof.
  intros Hw. unfold enqueue_route_message, send_input. cbv zeta.
  apply wp_bind. unfold wp at 1, lift at 1. simpl.
  destruct (resolve_target target_input) as [target|e] eqn:Hr;
    [|by apply resolve_target_raises in Hr; destruct e].
  apply wp_bind. unfold wp at 1, lift at 1. simpl.
  destruct (serialize_and_check_size _ _ _ _ _) as [rendered|e] eqn:Hs;
    [|by apply serialize_raises in Hs; destruct e].
  apply wp_bind. eapply wp_mono;
    [|apply (wp_conj _ _ _ _ (calm_is_enabled w Hw) (is_enabled_raises w))].
  intros [en|e] w1 [[Hl1 _] HI]; [|by destruct e]. apply live_steady in Hl1.
  apply wp_bind, wp_now_iso. intros ts w2 Hc2 _. rewrite <- Hc2 in Hl1.
  set (d := evaluate_enqueue_permissions _ _ _ _ _).
  set (tail := λ res : option (Z * payload),
    ev ← unpack res; _ ← append_jsonl_then_watermark ev.1 ev.2 ts;
    row0 ← on_db (get_row_by_id mid); row ← assert_row row0;
    mret (mkSendResult row (terminal (state row)))).
  assert (Htail : ∀ res, calm (tail res)) by (intros; unfold tail; calm_auto).
  assert (Hins : ∀ m : M conn (option (Z * payload)), calm_db m →
    wp (on_db m) (left_mark rid eid mid) w2 → wp (on_db m ≫= tail) (left_mark rid eid mid) w2).
  { intros m Hm Hv. apply wp_bind.
    eapply wp_mono; [|apply (wp_conj _ _ _ _ (calm_on_db _ Hm w2 Hl1) Hv)].
    intros [res|e] w3 [[Hl3 _] Hmk]; [|done].
    apply calm_keeps_mark; [apply Htail|by eapply live_steady|done]. }
  destruct (ok d) eqn:Hok.
  - by_insert (CInsertQueued _ _ _ _ _ _ _ _ _ _). by left.
  - destruct (block_reason_of d) as [br|] eqn:Hbr; [|done].
    by_insert (CInsertBlocked _ _ _ _ _ _ _ _ _ _ _). right. eauto.
Qed.

(** ** The cursor *)

Lemma advance_tx_reaches rid eid ts c :
  txn c = None →
  wp (advance_tx rid eid ts)
     (λ o c', match o with
              | Ok _ => cursor_from rid (Some eid) (routes (committed c'))
              | Raise _ => routes (committed c') = routes (committed c)
              end) c.
Proof.
  intros Ht. apply wp_catch. apply (wp_mono _ (λ o c', match o with
    | Ok _ => cursor_from rid (Some eid) (routes (committed c'))
    | Raise _ => routes (committed c') = routes (committed c)
    end)).
  { intros [[]|e] c' H; [done|]. destruct e; try (by apply wp_throw).
    apply wp_bind. unfold wp, rollback. destruct (txn c'); simpl; [|done].
    by destruct (Text.contains _ _). }
  apply wp_bind, wp_begin; [done| |done]. intros fs. apply wp_bind, wp_bind.
  eapply wp_sql_write; [done| |done..]. intros n d' fs' E. apply wp_ret.
  eapply wp_commit; [done| |done]. intros fs''. simpl.
  unfold update_route in E. unfold cursor_from.
  destruct (routes (committed c) !! rid) as [r|] eqn:Er; [|simplify_eq; by rewrite Er].
  destruct (_ <? _)%Z eqn:Hlt; [destruct (check_route _); [|done]|]; simplify_eq.
  - simpl. by rewrite lookup_insert_eq.
  - rewrite Er. by apply Z.ltb_ge in Hlt.
Qed.

Lemma wp_on_tower {A} (m : M world A) (Q : outcome A → router → Prop) x :
  wp m (λ o w', Q o (set_tower w' x)) (tower x) → wp (on_tower m) Q x.
Proof. unfold wp, on_tower, zoom. by destruct (m (tower x)). Qed.

(** The connection as the factory opens it. *)
Definition opened (c : conn) : conn :=
  mkConn (locked_db c) (txn c) (sql_faults c) (tail (others c)) (sleeps c) (captured c).

Lemma wp_with_connection {A} (m : M conn A) (Q : outcome A → router → Prop) x :
  wp m (λ o c', Q o (set_tower (mkWorld (set_txn None c') (hst (tower x))) x))
    (opened (db_conn (tower x))) →
  wp (with_connection m) Q x.
Proof.
  intros H. apply wp_on_tower, wp_on_db, wp_bind, wp_acquire. fold (opened (db_conn (tower x))).
  unfold wp, closing in *. by destruct (m (opened (db_conn (tower x)))).
Qed.

(** Advancing either reaches the event or leaves the routes as they are. *)
Lemma advance_reaches rid eid x :
  steady_r x → in_router (bounded rid None) x →
  wp (advance_cursor_only rid eid) (λ o x', match o with
    | Ok _ => in_router (bounded rid (Some eid)) x'
    | Raise _ => ∀ rs, in_router (untouched rs) x → in_router (untouched rs) x'
    end) x.
Proof.
  intros (Ht & _) (_ & _ & Hb). unfold advance_cursor_only.
  apply wp_bind, wp_on_tower, wp_now_iso. intros ts w Hc _. apply wp_with_connection.
  simpl. rewrite Hc. assert (Htx : txn (opened (db_conn (tower x))) = None) by done.
  assert (Ho : wp (advance_tx rid eid ts) (λ _ c', others c' = tail (others (db_conn (tower x))))
    (opened (db_conn (tower x)))).
  { eapply wp_mono; [|by apply advance_tx_queue]. by intros o c' [-> _]. }
  eapply wp_mono; [|apply (wp_conj _ _ _ _ (advance_tx_reaches rid eid ts _ Htx) Ho)].
  assert (Htl : ∀ R : (db → db) → Prop, Forall R (others (db_conn (tower x))) →
    Forall R (tail (others (db_conn (tower x))))).
  { intros R HF. destruct (others _); [done|]. by apply Forall_cons in HF as []. }
  intros [[]|e] c' [H1 H2].
  - split_and!; [done|done|]. simpl. rewrite H2. by apply Htl.
  - intros rs (Hrs & _ & Hl). split_and!; [|done|simpl; rewrite H2; by apply Htl]. simpl.
    rewrite H1. simpl. unfold locked_db. destruct (others (db_conn (tower x))) as [|f l]; [done|].
    apply Forall_cons in Hl as [Hf _]. by rewrite Hf.
Qed.

(** ** The audit line *)

(** The line is in the file or waits in the buffer. *)
Definition recorded (p : RoutePayload) (x : router) : Prop :=
  RouteAudit p ∈ jsonl (hst (tower x)) ∨ p ∈ audit_pending x.

Lemma emit_records p x :
  wp (emit p) (λ o x', match o with
    | Ok _ => recorded p x'
    | Raise e => e = SystemExit ∨ ∃ n, e = PyError n ∧ is_os_error e = false
    end) x.
Proof.
  unfold emit, except_os_error. apply wp_catch, wp_on_tower, wp_append_event.
  - intros w' Hj _ _ _. left. simpl. rewrite Hj. apply elem_of_app. right. by left.
  - intros e w' _ _ _ _ He. destruct (is_os_error e) eqn:Hos.
    + apply wp_modify. right. cbv zeta. unfold deque_push. destruct (_ <=? _); simpl;
        apply elem_of_app; right; by left.
    + apply wp_throw. destruct He as [->|[n ->]]; [by left|right; eauto].
Qed.

Lemma emit_now_records (p : string → RoutePayload) x :
  wp (ts ← on_tower now_iso; emit (p ts)) (λ o x', match o with
    | Ok _ => ∃ ts, recorded (p ts) x'
    | Raise e => e = SystemExit ∨ ∃ n, e = PyError n
    end) x.
Proof.
  apply wp_bind, wp_on_tower, wp_now_iso. intros ts w _ _.
  eapply wp_mono; [|apply emit_records]. intros [[]|e] x' H; [eauto|naive_solver].
Qed.

(** ** One event *)

(** The id [uuid.uuid4()] gives next. *)
Definition drawn (x : router) : string := default EmptyString (head (uuids x)).

(** Where an event stands before its cursor moves: [x0] is where it started. *)
Definition poised (rid : string) (x0 x : router) : Prop :=
  steady_r x ∧ in_router (bounded rid None) x ∧
  ∀ rs, in_router (untouched rs) x0 → in_router (untouched rs) x.
Definition underway (rid : string) (x0 x : router) : Prop :=
  poised rid x0 x ∧ uuids x = uuids x0.

(** A step that draws no id and writes nothing the router cares about. *)
Definition plain {A} (m : M router A) : Prop :=
  calm_r m ∧ (∀ P R, Stable P R → stays (in_router (holds P R)) m) ∧
  ∀ us, stays (λ x, uuids x = us) m.

Lemma plain_then {A B} (m : M router A) (k : A → M router B) Q rid x0 x :
  plain m → underway rid x0 x →
  (∀ a x', underway rid x0 x' → wp (k a) Q x') →
  (∀ e x', (∀ rs, in_router (untouched rs) x0 → in_router (untouched rs) x') → Q (Raise e) x') →
  wp (m ≫= k) Q x.
Proof.
  intros (Hcalm & Hst & Hu) [(Hs & Hb & Ht) Hus] Hk Hr. apply wp_bind.
  assert (Hun : wp m (λ _ x', ∀ rs, in_router (untouched rs) x0 → in_router (untouched rs) x') x).
  { intros rs Hrs. apply (Hst _ _ _ x), Ht, Hrs. }
  pose proof (Hst _ _ _ x Hb) as Hb'. pose proof (Hu _ x Hus) as Hus'.
  pose proof (Hcalm x Hs) as Hc.
  eapply wp_mono; [|apply (wp_conj _ _ _ _ Hc (wp_conj _ _ _ _ Hun (wp_conj _ _ _ _ Hb' Hus')))].
  intros [a|e] x' ([Hl _] & Hx & Hbx & Hux); [|by apply Hr].
  apply Hk. split; [split_and!; [by eapply live_steady|done..]|done].
Qed.

Lemma plain_look {A} (f : surroundings → A) : plain (look f).
Proof.
  split_and!; [apply calm_r_look|intros; by apply keeps_look|].
  intros us x Hx. unfold wp, look. by destruct (around x) as [s [|]].
Qed.

Lemma plain_outcome {A} (o : outcome A) : plain (lift_outcome o).
Proof. split_and!; [by apply calm_r_local|intros; apply stays_outcome|]. by intros us x Hx. Qed.

Lemma plain_resolve r a : plain (resolve_route_target r a).
Proof.
  split_and!; [apply calm_r_resolve|intros; by apply keeps_resolve|]. intros us.
  assert (∀ A (f : surroundings → A), stays (λ x, uuids x = us) (look f)) as Hl
    by (intros; apply plain_look).
  unfold resolve_route_target. repeat first
    [apply Hl|apply stays_outcome|apply stays_ret|apply stays_throw
    |apply stays_bind; [|intros ?]|apply stays_catch; [|intros ?]|case_match].
Qed.

Section OneEvent.
Variable sha256_hex : string → string.
Variable redactor : text → option text.
Variable special :
  gmap string string → string → string → option ascii → string → string + string.
Variable envelope_max_bytes default_wait : Z.
Variable fault_inject_at : string.
Local Abbreviation try_enqueue_ := (try_enqueue sha256_hex redactor envelope_max_bytes
  default_wait fault_inject_at).

(** Going on after the enqueue means the row is there. *)
Lemma try_enqueue_marks r ev winner target body x :
  steady_r x →
  wp (try_enqueue_ r ev winner target body) (λ o x', o = Ok None →
    marked (route_id r) (snap_event_id ev) (drawn x) (queue (committed (db_conn (tower x'))))) x.
Proof.
  intros Hx. set (mk := λ x', marked (route_id r) (snap_event_id ev) (drawn x)
    (queue (committed (db_conn (tower x'))))).
  apply wp_catch. apply (wp_mono _ (λ o x', match o with
    | Ok _ | Raise IntegrityError => mk x' | _ => True end)).
  { intros [v|e] x' H; [by intros|]. destruct e; try (by apply wp_ret); try (by apply wp_throw).
    by destruct (Text.contains _ _). }
  apply wp_bind. unfold fault_inject at 1. case_bool_decide; [done|]. apply wp_ret.
  apply wp_bind. unfold enqueue. apply wp_bind. unfold wp at 1, next_uuid.
  assert (∃ x1, (match uuids x with [] => (Ok EmptyString, x)
    | u :: rest => (Ok u, set_readings (shutdown_signals x) rest (monotonic_ms x) x) end)
    = (Ok (drawn x), x1) ∧ tower x1 = tower x) as (x1 & -> & Hx1).
  { unfold drawn. destruct (uuids x); by eexists. }
  simpl. apply wp_bind. unfold wp at 1, look.
  assert (∃ s x2, (match around x1 with (s, []) => (Ok s, x1)
    | (s, s' :: rest) => (Ok s, set_around (s', rest) x1) end) = (Ok s, x2) ∧ tower x2 = tower x)
    as (s & x2 & -> & Hx2).
  { destruct (around x1) as [s [|]]; by eexists s, _. }
  simpl. apply wp_on_tower. rewrite Hx2.
  eapply wp_mono; [|by apply enqueue_marks]. intros o w' Hm. unfold left_mark in Hm.
  destruct o as [res|e]; [|by destruct e]. apply wp_bind. unfold fault_inject.
  case_bool_decide; [done|]. by apply wp_ret, wp_ret.
Qed.

(** What the worker may say about an event it has finished with. *)
Definition decided (r : RouteRow) (ev : EventRowSnapshot) (mid : string) (x : router) : Prop :=
  (marked (route_id r) (snap_event_id ev) mid (queue (committed (db_conn (tower x)))) ∧
   ∃ ts winner target tlabel,
     recorded (route_matched ts (snap_event_id ev) (route_id r) winner target tlabel
                 (clip (excerpt ev))) x) ∨
  (∃ ts winner target tlabel reason sub,
     recorded (route_skipped ts (snap_event_id ev) (route_id r) winner target tlabel reason sub
                 (clip (excerpt ev))) x).

(** The outcome of one event: finished, or a transient failure that moved nothing. *)
Definition event_post (r : RouteRow) (ev : EventRowSnapshot) (mid : string) (x : router)
    (o : outcome unit) (x' : router) : Prop :=
  match o with
  | Ok _ => in_router (bounded (route_id r) (Some (snap_event_id ev))) x' ∧ decided r ev mid x'
  | Raise (RoutingTransientError _) =>
      ∀ rs, in_router (untouched rs) x → in_router (untouched rs) x'
  | Raise _ => True
  end.

Lemma raise_post r ev mid x e x' :
  (∀ rs, in_router (untouched rs) x → in_router (untouched rs) x') →
  event_post r ev mid x (Raise e) x'.
Proof. intros H. by destruct e. Qed.

Lemma record_skip_then {B} (k : M router B) Q x p b rid :
  in_router (bounded rid b) x → recorded p x →
  (∀ x', in_router (bounded rid b) x' → recorded p x' → wp k Q x') →
  wp (_ ← record_skip; k) Q x.
Proof.
  intros Hb Hr Hk. apply wp_bind, wp_modify. by destruct (monotonic_ms x); apply Hk.
Qed.

(** The end of both branches: cursor, then the audit line. *)
Lemma advance_then_emit {B} r ev mid (p : string → RoutePayload) (k : M router B) Q x0 x :
  poised (route_id r) x0 x →
  (∀ ts x', in_router (bounded (route_id r) (Some (snap_event_id ev))) x' → recorded (p ts) x' →
     queue_steps (queue (committed (db_conn (tower x)))) (queue (committed (db_conn (tower x')))) →
     wp k Q x') →
  (∀ e x', event_post r ev mid x0 (Raise e) x' → Q (Raise e) x') →
  wp (_ ← advance_cursor_only (route_id r) (snap_event_id ev);
      _ ← (ts ← on_tower now_iso; emit (p ts)); k) Q x.
Proof.
  intros (Hs & Hb & Ht) Hk Hr. apply wp_bind.
  eapply wp_mono; [|apply (wp_conj _ _ _ _ (calm_r_advance (route_id r) (snap_event_id ev) x Hs)
                             (advance_reaches _ (snap_event_id ev) x Hs Hb))].
  intros [[]|e] x1 [[Hl [Hq1 _]] H1]; [|apply Hr, raise_post; auto].
  assert (Hc : calm_r (ts ← on_tower now_iso; emit (p ts))) by calm_r_auto.
  assert (Hkeep : stays (in_router (bounded (route_id r) (Some (snap_event_id ev))))
    (ts ← on_tower now_iso; emit (p ts))) by stays_auto.
  apply wp_bind. apply live_steady in Hl.
  eapply wp_mono; [|apply (wp_conj _ _ _ _ (Hc x1 Hl)
    (wp_conj _ _ _ _ (Hkeep x1 H1) (emit_now_records p x1)))].
  intros [[]|e] x2 ([_ [Hq2 _]] & Hb2 & He).
  - destruct He as [ts Hrec]. eapply Hk; [done..|by etrans].
  - apply Hr. by destruct He as [->|[n ->]].
Qed.

Lemma skip_decides r ev mid winner target reason sub x0 x :
  poised (route_id r) x0 x →
  wp (skip r ev winner target reason sub) (event_post r ev mid x0) x.
Proof.
  intros Hu. unfold skip, emit_route_skipped.
  eapply (advance_then_emit r ev mid); [done| |by intros e x'].
  intros ts x1 Hb1 Hr1 _. eapply record_skip_then; [done..|]. intros x2 Hb2 Hr2.
  apply wp_bind, wp_on_tower, wp_now_iso. intros ts2 w Hc Hj. apply wp_modify.
  split; [unfold in_router, in_world in *; simpl; by rewrite Hc|]. right. do 6 eexists.
  unfold recorded in *. simpl. rewrite Hj. exact Hr2.
Qed.

(** After step 4 the event is still where it was, and the row is there if the
    worker goes on. *)
Lemma try_enqueue_post r ev winner target body x0 x :
  poised (route_id r) x0 x → uuids x = uuids x0 →
  wp (try_enqueue_ r ev winner target body) (λ o x',
    match o with
    | Ok _ => poised (route_id r) x0 x'
    | Raise _ => ∀ rs, in_router (untouched rs) x0 → in_router (untouched rs) x'
    end ∧
    (o = Ok None → marked (route_id r) (snap_event_id ev) (drawn x0)
                     (queue (committed (db_conn (tower x')))))) x.
Proof.
  intros (Hs & Hb & Hun) Hus.
  assert (Hk : ∀ P R, Stable P R → stays (in_router (holds P R))
    (try_enqueue_ r ev winner target body)) by (intros; by apply keeps_try_enqueue).
  pose proof (try_enqueue_marks r ev winner target body x Hs) as Hm.
  assert (drawn x = drawn x0) as Hd by (unfold drawn; by rewrite Hus). rewrite Hd in Hm.
  assert (Hu : wp (try_enqueue_ r ev winner target body) (λ _ x', ∀ rs,
    in_router (untouched rs) x0 → in_router (untouched rs) x') x).
  { intros rs Hrs. apply (Hk _ _ _ x), Hun, Hrs. }
  pose proof (Hk _ _ _ x Hb) as Hbk.
  pose proof (calm_r_try_enqueue sha256_hex redactor envelope_max_bytes default_wait
    fault_inject_at r ev winner target body x Hs) as Hc.
  eapply wp_mono; [|apply (wp_conj _ _ _ _ Hc (wp_conj _ _ _ _ Hm (wp_conj _ _ _ _ Hbk Hu)))].
  intros o x' ([Hl _] & Hmk & Hbx & Hux). split; [|done]. destruct o; [|done].
  split_and!; [by eapply live_steady|done..].
Qed.

Lemma process_decides r ev a x :
  steady_r x → in_router (bounded (route_id r) None) x →
  wp (process_one_event sha256_hex redactor special envelope_max_bytes default_wait
        fault_inject_at r ev a) (event_post r ev (drawn x) x) x.
Proof.
  intros Hs Hb. assert (Hu : underway (route_id r) x x) by (split; [by split_and!|done]).
  unfold process_one_event.
  eapply plain_then; [apply plain_look|done| |intros; by apply raise_post]. intros masters x1 Hu1.
  eapply plain_then; [apply plain_outcome|done| |intros; by apply raise_post].
  intros [winner|reason] x2 [Hp2 Hus2]; [|by apply skip_decides].
  eapply plain_then; [apply plain_resolve|done| |intros; by apply raise_post].
  intros [target|reason] x3 [Hp3 Hus3]; [|by apply skip_decides].
  destruct (render_template _ _ _ _ _) as [body|e].
  2:{ destruct e; try (by apply skip_decides); apply wp_throw, raise_post, Hp3. }
  apply wp_bind. eapply wp_mono; [|by eapply try_enqueue_post].
  intros [[reason|]|e] x4 [H4 Hm4]; [by apply skip_decides| |by apply raise_post, H4].
  unfold emit_route_matched.
  eapply (advance_then_emit r ev (drawn x)); [done| |done].
  intros ts x5 Hb5 Hr5 Hq5. apply wp_modify. split; [done|]. left. split; [|by do 4 eexists].
  eapply marked_steps; [done|]. by apply Hm4.
Qed.
End OneEvent.

(** ** Batches *)

(** The route is in the table and enabled. *)
Definition is_on (rid : string) (rs : gmap string RouteRow) : Prop :=
  ∃ r, rs !! rid = Some r ∧ enabled r = true.
(** Neither disables nor deletes the route. *)
Definition leaves_on (rid : string) (f : db → db) : Prop :=
  ∀ d, is_on rid (routes d) → is_on rid (routes (f d)).

#[export] Instance is_on_stable rid : Stable (is_on rid) (leaves_on rid).
Proof. intros f d Hf. apply Hf. Qed.

Lemma keeps_on_advance rid r eid ts : stays (holds (is_on rid) (leaves_on rid)) (advance_tx r eid ts).
Proof.
  assert (stays (holds (is_on rid) (leaves_on rid)) (advance_cursor r eid ts)) as Ha.
  { apply stays_bind; [|intros _; apply stays_ret]. apply keeps_write.
    unfold update_route. intros d a d' (x & Hx & He). destruct (routes d !! r) as [y|] eqn:Er;
      [|intros [= <- <-]; by exists x]. destruct (_ <? _)%Z; [|intros [= <- <-]; by exists x].
    destruct (check_route _); [|done]. intros [= <- <-]. unfold is_on. simpl.
    destruct (decide (r = rid)) as [->|Hne].
    - simplify_eq. rewrite lookup_insert_eq. eauto.
    - rewrite lookup_insert_ne by done. eauto. }
  apply stays_catch.
  - apply stays_bind; [apply keeps_begin|intros _].
    apply stays_bind; [done|intros _; apply keeps_commit].
  - intros []; try apply stays_throw. apply stays_bind; [apply keeps_rollback|intros _].
    destruct (Text.contains _ _); apply stays_throw.
Qed.

(** No shutdown is requested. *)
Definition no_shutdown (x : router) : Prop := shutdown_signals x = [].

(** What a batch needs to go through. *)
Definition unhindered (rid : string) (x : router) : Prop :=
  no_shutdown x ∧ in_router (holds (is_on rid) (leaves_on rid)) x.

Lemma unhindered_local {A} rid (m : M router A) :
  (∀ x, tower (m x).2 = tower x) → (∀ x, no_shutdown x → no_shutdown (m x).2) →
  stays (unhindered rid) m.
Proof.
  intros Ht Hn x [Hx Hi]. split; [by apply Hn|]. unfold in_router in *. by rewrite Ht.
Qed.

Lemma unhindered_tower {A} rid (m : M world A) :
  stays (in_world (holds (is_on rid) (leaves_on rid))) m → stays (unhindered rid) (on_tower m).
Proof.
  intros Hm x [Hx Hi]. specialize (Hm _ Hi). unfold wp, on_tower, zoom in *.
  by destruct (m (tower x)).
Qed.

Create HintDb unhindered.
#[export] Hint Extern 2 (stays (unhindered _) (on_tower _)) =>
  apply unhindered_tower; solve [eauto with frame] : unhindered.
#[export] Hint Resolve stays_ret stays_throw stays_outcome : unhindered.
#[export] Hint Extern 3 (stays (unhindered _) _) => apply unhindered_local; done : unhindered.

Lemma unhindered_look {A} rid (f : surroundings → A) : stays (unhindered rid) (look f).
Proof. apply unhindered_local; intros x; unfold look; by destruct (around x) as [s [|]]. Qed.
Lemma unhindered_uuid rid : stays (unhindered rid) next_uuid.
Proof. apply unhindered_local; intros x; unfold next_uuid; by destruct (uuids x). Qed.
Lemma unhindered_record_skip rid : stays (unhindered rid) record_skip.
Proof. apply unhindered_local; intros x; unfold record_skip; simpl; by destruct (monotonic_ms x). Qed.
Lemma unhindered_enqueue_pending rid p : stays (unhindered rid) (enqueue_pending p).
Proof. apply unhindered_local; intros x; unfold enqueue_pending; simpl; by destruct (_ <=? _). Qed.

Lemma unhindered_connection {A} rid (m : M conn A) :
  stays (holds (is_on rid) (leaves_on rid)) m → stays (unhindered rid) (with_connection m).
Proof.
  intros Hm. apply unhindered_tower, stays_on_db, stays_bind; [apply keeps_acquire; apply _|intros _].
  by apply keeps_closing.
Qed.

Lemma unhindered_advance rid r eid : stays (unhindered rid) (advance_cursor_only r eid).
Proof.
  apply stays_bind; [apply unhindered_tower, stays_now_iso|intros ts].
  apply unhindered_connection, keeps_on_advance.
Qed.

#[export] Hint Resolve unhindered_look unhindered_uuid unhindered_record_skip
  unhindered_enqueue_pending unhindered_advance : unhindered.

Ltac unhindered_step :=
  match goal with
  | |- stays _ (mbind _ _) => apply stays_bind; [|intros ?]
  | |- stays _ (catch _ _) => apply stays_catch; [|intros ?]
  | |- stays _ (match ?x with _ => _ end) => destruct x
  | |- stays _ _ => solve [eauto with unhindered]
  end.
Ltac unhindered_auto := repeat unhindered_step.

Section Batch.
Variable sha256_hex : string → string.
Variable redactor : text → option text.
Variable special :
  gmap string string → string → string → option ascii → string → string + string.
Variable envelope_max_bytes default_wait : Z.
Variable batch_size : nat.
Variable fault_inject_at : string.
Local Abbreviation process := (process_one_event sha256_hex redactor special
  envelope_max_bytes default_wait fault_inject_at).
Local Abbreviation loop := (batch_loop sha256_hex redactor special
  envelope_max_bytes default_wait fault_inject_at).

Lemma unhindered_process rid r ev a : stays (unhindered rid) (process r ev a).
Proof.
  assert (∀ p, stays (unhindered rid) (emit p)) as He
    by (intros p; unfold emit, except_os_error; unhindered_auto).
  unfold process_one_event, skip, emit_route_skipped, emit_route_matched, try_enqueue, enqueue,
    fault_inject, resolve_route_target. unhindered_auto.
Qed.

(** The bounds a loop has reached. *)
Definition reached (rid : string) (ids : list Z) (x : router) : Prop :=
  ∀ n, n ∈ ids → in_router (bounded rid (Some n)) x.

Lemma reached_stays {A} rid ids (m : M router A) :
  (∀ b, stays (in_router (bounded rid b)) m) → stays (reached rid ids) m.
Proof. intros Hm x Hx n Hn. apply (Hm _ x), Hx, Hn. Qed.

(** Between two events. *)
Definition at_event (rid : string) (ids : list Z) (x : router) : Prop :=
  steady_r x ∧ in_router (bounded rid None) x ∧ unhindered rid x ∧ reached rid ids x.

Lemma at_event_then {A B} rid ids ids' (Φ : A → Prop) (m : M router A) (k : A → M router B) Q x :
  calm_r m → (∀ b, stays (in_router (bounded rid b)) m) → stays (unhindered rid) m →
  at_event rid ids x →
  wp m (λ o x', ∀ a, o = Ok a → reached rid ids' x' ∧ Φ a) x →
  (∀ a x', Φ a → at_event rid (ids ++ ids') x' → wp (k a) Q x') →
  (∀ e x', Q (Raise e) x') → wp (m ≫= k) Q x.
Proof.
  intros Hc Hb Hu (Hs & Hn & Hh & Hr) Hnew Hk He. apply wp_bind.
  eapply wp_mono; [|apply (wp_conj _ _ _ _ (Hc x Hs) (wp_conj _ _ _ _ (Hb None x Hn)
    (wp_conj _ _ _ _ (Hu x Hh) (wp_conj _ _ _ _ (reached_stays rid ids m Hb x Hr) Hnew))))].
  intros [a|e] x' ([Hl _] & Hn' & Hh' & Hr' & Hnew'); [|done].
  destruct (Hnew' a eq_refl) as [Hi HΦ]. apply Hk; [done|].
  split_and!; [by eapply live_steady|done..|]. intros n [Hin|Hin]%elem_of_app; [by apply Hr'|].
  by apply Hi.
Qed.

Lemma advance_then {B} rid ids eid (k : unit → M router B) Q x :
  at_event rid ids x → (∀ a x', at_event rid (ids ++ [eid]) x' → wp (k a) Q x') →
  (∀ e x', Q (Raise e) x') → wp (advance_cursor_only rid eid ≫= k) Q x.
Proof.
  intros Hx Hk. apply (at_event_then rid ids [eid] (λ _, True)); [apply calm_r_advance
    |intros; apply keeps_advance_only|apply unhindered_advance|done| |by auto].
  destruct Hx as (Hs & Hn & _). eapply wp_mono; [|by apply advance_reaches].
  intros [[]|e] x' H a Ha; [|done]. split; [|done]. by intros n ->%list_elem_of_singleton.
Qed.

Lemma process_then {B} r ids ev a (k : unit → M router B) Q x :
  at_event (route_id r) ids x →
  (∀ u x', at_event (route_id r) (ids ++ [snap_event_id ev]) x' → wp (k u) Q x') →
  (∀ e x', Q (Raise e) x') → wp (process r ev a ≫= k) Q x.
Proof.
  intros Hx Hk. apply (at_event_then (route_id r) ids [snap_event_id ev] (λ _, True));
    [apply calm_r_process
    |intros; apply keeps_process|apply unhindered_process|done| |by auto].
  destruct Hx as (Hs & Hn & _). eapply wp_mono; [|by apply process_decides].
  intros [[]|e] x' H u Hu; [|done]. destruct H as [H _]. split; [|done].
  by intros n ->%list_elem_of_singleton.
Qed.

Lemma select_route_on rid x :
  in_router (holds (is_on rid) (leaves_on rid)) x → txn (db_conn (tower x)) = None →
  wp (with_connection (select_route rid)) (λ o _, ∀ v, o = Ok v →
    ∃ r', v = Some r' ∧ enabled r' = true) x.
Proof.
  intros (Hon & _ & Ho) Ht. apply wp_with_connection, wp_sql_read; [|done].
  intros fs v [= <-]. unfold view, opened. simpl. rewrite Ht. simpl. unfold locked_db.
  destruct (others _) as [|f l] eqn:E; [done|]. apply Forall_cons in Ho as [Hf _].
  by apply Hf.
Qed.

Lemma batch_loop_reaches r parsed evs any ids x :
  at_event (route_id r) ids x →
  wp (loop r parsed evs any) (λ o x', ∀ v, o = Ok v →
    reached (route_id r) (ids ++ (snap_event_id <$> evs)) x') x.
Proof.
  revert any ids x. induction evs as [|ev evs IH]; intros any ids x Hx; cbn [batch_loop].
  { apply wp_ret. intros v _. rewrite app_nil_r. apply Hx. }
  assert (IH' : ∀ u : unit, ∀ x', at_event (route_id r) (ids ++ [snap_event_id ev]) x' →
    wp (loop r parsed evs true) (λ o x', ∀ v, o = Ok v →
      reached (route_id r) (ids ++ (snap_event_id <$> ev :: evs)) x') x').
  { intros _ x' Hx'. eapply wp_mono; [|by eapply IH]. intros o x'' H v Hv. rewrite fmap_cons.
    change (snap_event_id ev :: ?l) with ([snap_event_id ev] ++ l). rewrite app_assoc. eauto. }
  apply wp_bind. unfold wp at 1, shutdown_is_set.
  pose proof Hx as (Hs & _ & [Hsh Hon] & _). rewrite Hsh. simpl.
  pose proof Hs as (Ht & _).
  eapply (at_event_then (route_id r) ids [] (λ v, ∃ r', v = Some r' ∧ enabled r' = true));
    [apply calm_r_read| | |done| | |done].
  { intros b. apply keeps_with_connection; [apply _|apply keeps_read]. }
  { apply unhindered_connection, keeps_read. }
  { eapply wp_mono; [|by apply select_route_on]. intros o x' H v Hv. split; [|by apply H].
    by intros n ?%not_elem_of_nil. }
  intros v x1 (r' & -> & ->). rewrite app_nil_r. intros Hx1. simpl.
  eapply (at_event_then (route_id r) ids [] (λ _, True));
    [apply calm_r_look|intros; apply keeps_look|apply unhindered_look|done| | |done].
  { intros a _. split; [|done]. by intros n ?%not_elem_of_nil. }
  rewrite app_nil_r. intros [a|] x2 _ Hx2; [destruct (negb (matches _ _ _ _))|].
  - by eapply advance_then.
  - by eapply process_then.
  - by eapply advance_then.
Qed.

(** The events a batch looks at. *)
Definition candidates_of (r : RouteRow) (d : db) : list EventRow :=
  take batch_size (merge_sort event_le
    (filter (λ e, (last_consumed_event_id r < event_id e)%Z ∧ event_type e = route_event_type r)
       (events d))).

Lemma batch_reaches r x :
  steady_r x → in_router (bounded (route_id r) None) x → unhindered (route_id r) x →
  wp (process_route_batch sha256_hex redactor special envelope_max_bytes default_wait batch_size
        fault_inject_at r) (λ o x', ∀ v, o = Ok v →
    ∀ e, e ∈ candidates_of r (locked_db (db_conn (tower x))) →
         cursor_from (route_id r) (Some (event_id e)) (routes (committed (db_conn (tower x'))))) x.
Proof.
  intros Hs Hb Hu. unfold process_route_batch. apply wp_bind. unfold wp at 1, lift_outcome. simpl.
  destruct (parse_source_scope_value _ _) as [parsed|e]; [|done].
  assert (Hx : at_event (route_id r) [] x).
  { split_and!; [done..|]. by intros n ?%not_elem_of_nil. }
  eapply (at_event_then (route_id r) [] [] (λ evs, evs = snapshot_of <$>
    candidates_of r (locked_db (db_conn (tower x))))); [apply calm_r_read| | |done| | |done].
  { intros b. apply keeps_with_connection; [apply _|apply keeps_read]. }
  { apply unhindered_connection, keeps_read. }
  { apply wp_with_connection, wp_sql_read; [|done]. intros fs v [= <-].
    split; [by intros n ?%not_elem_of_nil|]. unfold view, opened. simpl.
    by destruct Hs as [-> _]. }
  intros evs x1 -> Hx1. eapply wp_mono; [|by eapply batch_loop_reaches].
  intros o x2 H v Hv e He. destruct (H v Hv (event_id e)) as [Hc _]; [|exact Hc].
  simpl. rewrite <- list_fmap_compose. by apply (list_elem_of_fmap_2 (snap_event_id ∘ snapshot_of)).
Qed.
End Batch.

(** What the routing worker guarantees, over single events, batches and whole lives
    with crashes and restarts. *)

(** ** Crashes and restarts *)

(** A new process: open transactions are gone, memory is fresh, the database, the
    files and the outside world are as they were. *)
Definition reboot (x : router) : router :=
  let c := db_conn (tower x) in
  let h := hst (tower x) in
  mkRouter
    (mkWorld (mkConn (committed c) None (sql_faults c) (others c) [] [])
       (mkHost (clock h) (jsonl_io h) (jsonl h) [] (max_pending h) None None
          (tmux_io h) (tmux_calls h) []))
    (mkShared 0 0 0 0 ∅ None false 0 ∅) [] (audit_maxlen x) [] (around x)
    (shutdown_signals x) (uuids x) (monotonic_ms x).

Section Claims.
Variable sha256_hex : string → string.
Variable redactor : text → option text.
Variable special :
  gmap string string → string → string → option ascii → string → string + string.
Variable envelope_max_bytes default_wait : Z.
Variable batch_size : nat.
Variable fault_inject_at : string.

(** One turn of the worker; if the process died in it, the daemon is started again. *)
Definition life_turn (x : router) : router :=
  match run_turn sha256_hex redactor special envelope_max_bytes default_wait batch_size
          fault_inject_at x with
  | (Raise SystemExit, x') => reboot x'
  | (_, x') => x'
  end.

Definition life (n : nat) (x : router) : router := Nat.iter n life_turn x.

Lemma life_turn_calm x :
  steady_r x → steady_r (life_turn x) ∧ evolves (tower x) (tower (life_turn x)).
Proof.
  intros Hx. pose proof (calm_r_run_turn sha256_hex redactor special envelope_max_bytes
    default_wait batch_size fault_inject_at x Hx) as [Hl He]. unfold life_turn.
  destruct (run_turn _ _ _ _ _ _ _ x) as [[a|e] x']; simpl in *.
  - split; [by eapply live_steady|done].
  - destruct (is_exception e) eqn:Hi; [assert (steady_r x') by by eapply live_raise_steady|].
    + by destruct e.
    + destruct e; try done. destruct Hl as (Hr & Hw & _). by split.
Qed.

Lemma life_calm n x : steady_r x → steady_r (life n x) ∧ evolves (tower x) (tower (life n x)).
Proof.
  intros Hx. induction n as [|n [IH1 IH2]]; [by split|].
  destruct (life_turn_calm (life n x) IH1). split; [done|]. by etrans.
Qed.

Lemma life_bounded n rid b x : in_router (bounded rid b) x → in_router (bounded rid b) (life n x).
Proof.
  intros Hx. induction n as [|n IH]; [done|]. change (life (S n) x) with (life_turn (life n x)).
  pose proof (keeps_run_turn sha256_hex redactor special envelope_max_bytes default_wait
    batch_size fault_inject_at rid b _ IH) as Hk. unfold wp in Hk. unfold life_turn.
  destruct (run_turn _ _ _ _ _ _ _ _) as [[a|e] x']; [done|].
  destruct e; try done. destruct Hk as (H1 & _ & H3). by split_and!.
Qed.
End Claims.

(** ** A small daemon *)

Definition demo_route : RouteRow :=
  mkRoute "r1" "error" "any" None "explicit" (Some "coder") "auto" None
    "{event_type}: {event_excerpt}" true 0 "t0" "t0" None.

Definition demo_routes_db : db :=
  mkDb ∅ (Some (mkFlag "enabled" "t0" "host-operator"))
    [mkEvent 1 "error" (agent_id demo_slave) "t0" "boom" None] 1 {[ "r1" := demo_route ]}.

Definition demo_router (faults : list (option sql_fault)) : router :=
  mkRouter (mkWorld (mkConn demo_routes_db None faults [] [] []) demo_host)
    (mkShared 0 0 0 0 ∅ None false 0 ∅) [] 10000 []
    (mkSurroundings [demo_master; demo_slave] demo_lookup, []) [] ["m1"; "m2"] [].

Definition demo_turn : M router bool :=
  run_turn (λ b, b) (λ t, Some t) (λ _ _ _ _ _, inr "ValueError") 65536 10000
    DEFAULT_BATCH_SIZE EmptyString.

Definition locked : option sql_fault := Some (F_operational "database is locked").

Lemma demo_steady faults : steady_r (demo_router faults).
Proof.
  split_and!; [done|by constructor|]. split; [apply map_Forall_empty|].
  intros k1 k2 r1 r2 H1. exfalso. exact (lookup_empty_Some k1 r1 H1).
Qed.

Lemma demo_bounded faults rid : in_router (bounded rid None) (demo_router faults).
Proof. split_and!; [done|done|by constructor]. Qed.

(** ** Properties *)





(** A cursor never moves back: over any number of turns, crashes and restarts
    included, a route that exists before and after has a cursor at least as large,
    provided the other threads do not move it back themselves. *)
Theorem cursor_never_regresses sha256_hex redactor special envelope_max_bytes default_wait
    batch_size fault_inject_at n x rid r r' :
  txn (db_conn (tower x)) = None → Forall (forward rid) (others (db_conn (tower x))) →
  let x' := life sha256_hex redactor special envelope_max_bytes default_wait batch_size
              fault_inject_at n x in
  routes (committed (db_conn (tower x))) !! rid = Some r →
  routes (committed (db_conn (tower x'))) !! rid = Some r' →
  (last_consumed_event_id r ≤ last_consumed_event_id r')%Z.
Proof.
  intros Ht Ho x' Hr Hr'.
  destruct (life_bounded sha256_hex redactor special envelope_max_bytes default_wait batch_size
    fault_inject_at n rid (Some (last_consumed_event_id r)) x) as [Hc _].
  - split_and!; [|by rewrite Ht|done]. unfold cursor_from. by rewrite Hr.
  - unfold cursor_from in Hc. fold x' in Hc. by rewrite Hr' in Hc.
Qed.

Lemma cursor_never_regresses_witness :
  let x' := life (λ b, b) (λ t, Some t) (λ _ _ _ _ _, inr "ValueError") 65536 10000 100
              "after_commit" 2 (demo_router []) in
  ∃ r', routes (committed (db_conn (tower x'))) !! "r1" = Some r' ∧
        (0 ≤ last_consumed_event_id r')%Z.
Proof.
  intros x'. eexists. split; [vm_compute; reflexivity|].
  refine (cursor_never_regresses (λ b, b) (λ t, Some t)
    (λ _ _ _ _ _, inr "ValueError") 65536 10000 100 "after_commit" 2 (demo_router []) "r1"
    demo_route _ _ _ _ _); [reflexivity|constructor|vm_compute; reflexivity|].
  vm_compute. reflexivity.
Defined.

(** A batch leaves nothing behind.  While nobody asks for shutdown and the route
    stays enabled, a batch that returns has taken the cursor past every candidate:
    the first [batch_size] events of the route's type after the cursor, in order of
    their ids. *)
Theorem batch_consumes_candidates sha256_hex redactor special envelope_max_bytes default_wait
    batch_size fault_inject_at r x :
  steady_r x → in_router (bounded (route_id r) None) x → unhindered (route_id r) x →
  wp (process_route_batch sha256_hex redactor special envelope_max_bytes default_wait batch_size
        fault_inject_at r) (λ o x', ∀ v, o = Ok v →
    ∀ e, e ∈ candidates_of batch_size r (locked_db (db_conn (tower x))) →
         cursor_from (route_id r) (Some (event_id e)) (routes (committed (db_conn (tower x'))))) x.
Proof. apply batch_reaches. Qed.

Lemma batch_consumes_candidates_witness :
  let x := demo_router [] in
  let m := process_route_batch (λ b, b) (λ t, Some t) (λ _ _ _ _ _, inr "ValueError") 65536 10000
             100 EmptyString demo_route in
  (m x).1 = Ok true ∧
  cursor_from "r1" (Some 1%Z) (routes (committed (db_conn (tower (m x).2)))).
Proof.
  intros x m. assert (H : (m x).1 = Ok true) by (vm_compute; reflexivity). split; [exact H|].
  refine (batch_consumes_candidates (λ b, b) (λ t, Some t) (λ _ _ _ _ _, inr "ValueError") 65536
    10000 100 EmptyString demo_route x (demo_steady []) (demo_bounded [] "r1") _ true H
    (mkEvent 1 "error" (agent_id demo_slave) "t0" "boom" None) _).
  - split; [reflexivity|]. split_and!; [|discriminate|constructor].
    exists demo_route. split; vm_compute; reflexivity.
  - vm_compute. left.
Defined.

(** A lock conflict loses the event.  When the queue insert of a matched event
    exhausts the lock retries, the conflict arrives as a queue-service error and the
    worker skips: the cursor moves past the event, no row exists, and the audit
    carries a reason outside the closed set of skip reasons. *)
Theorem lock_conflict_skips_event :
  let x := (demo_turn (demo_router [None; None; None; None; locked; locked; locked; locked])).2 in
  queue (committed (db_conn (tower x))) = ∅ ∧
  last_consumed_event_id <$> routes (committed (db_conn (tower x))) !! "r1" = Some 1%Z ∧
  routing_worker_degraded (shared x) = false ∧
  ∃ ts, jsonl (hst (tower x)) = [RouteAudit (route_skipped ts 1 "r1" (Some (agent_id demo_master))
    (Some (agent_id demo_slave)) (Some "coder") "sqlite_lock_conflict" None "boom")] ∧
  "sqlite_lock_conflict" ∉ SKIP_REASONS.
Proof.
  split_and!; [vm_compute; reflexivity..|]. eexists. split; [vm_compute; reflexivity|].
  apply (bool_decide_unpack _). vm_compute. exact I.
Qed.
