(* ===== verification/RoutesService.v ===== *)
(** Route administration (src/src/agenttower/routing/routes_service.py): adding,
    removing, enabling and disabling routes, and the figures of the status page; and
    the heartbeat of the worker (routing/heartbeat.py). *)

From S2P Require Import Prelude Errors Agents Permissions Store QueueDao Utf8 Envelope AuditWriter QueueSpec QueueSession AuditSpec Lookups KillSwitch QueueService SourceScope Arbitration Template Routes RoutingWorker RoutingFrame RoutingClaims.

Definition RECEIVE_PERMITTED_ROLES : list string := ["slave"; "swarm"].

(** [not value] for an optional string. *)
Definition falsy (v : option string) : bool :=
  match v with None | Some EmptyString => true | _ => false end.

Record RouteRequest := mkRequest {
  rq_event_type : string;
  rq_source_scope_kind : string;
  rq_source_scope_value : option string;
  rq_target_rule : string;
  rq_target_value : option string;
  rq_master_rule : string;
  rq_master_value : option string;
  rq_template : string;
  rq_created_by : option string
}.

Definition route_error {A} (code : string) : outcome A := Raise (RouteError code).

(** The six validations of [add_route], in order. *)
Definition validate_request (q : RouteRequest) : outcome unit :=
  if bool_decide (rq_event_type q ∉ ROUTE_EVENT_TYPES) then route_error "route_event_type_invalid"
  else if bool_decide (rq_master_rule q ∉ MASTER_RULES) then route_error "route_master_rule_invalid"
  else if bool_decide (rq_master_rule q = "explicit") && falsy (rq_master_value q)
  then route_error "route_master_rule_invalid"
  else if bool_decide (rq_master_rule q = "auto") && is_set (rq_master_value q)
  then route_error "route_master_rule_invalid"
  else if bool_decide (rq_target_rule q ∉ ["explicit"; "source"; "role"])
  then route_error "route_target_rule_invalid"
  else if bool_decide (rq_target_rule q = "source") && is_set (rq_target_value q)
  then route_error "route_target_rule_invalid"
  else if negb (bool_decide (rq_target_rule q = "source")) && falsy (rq_target_value q)
  then route_error "route_target_rule_invalid"
  else
    obind (parse_source_scope_value (rq_source_scope_value q) (rq_source_scope_kind q)) (λ _,
    obind
      (if bool_decide (rq_target_rule q = "role") then
         match rq_target_value q with
         | None => Raise (PyError "AssertionError")
         | Some v =>
             match parse_role_capability v with
             | Raise (PyError "ValueError") => route_error "route_target_rule_invalid"
             | Raise e => Raise e
             | Ok (r, _) =>
                 if bool_decide (r ∉ RECEIVE_PERMITTED_ROLES)
                 then route_error "route_target_rule_invalid" else Ok tt
             end
         end
       else Ok tt) (λ _,
    obind (validate_template_string (rq_template q)) (λ _, Ok tt))).

Definition new_route (q : RouteRequest) (rid ts : string) (cursor : Z) : RouteRow :=
  mkRoute rid (rq_event_type q) (rq_source_scope_kind q) (rq_source_scope_value q)
    (rq_target_rule q) (rq_target_value q) (rq_master_rule q) (rq_master_value q)
    (rq_template q) true cursor ts ts (rq_created_by q).

(** [with_lock_retry(f)] around [BEGIN IMMEDIATE; body; COMMIT], without a lock. *)
Definition route_tx {A} (body : M conn A) : M conn A :=
  attempt_chain (_ ← begin_immediate;
                 rollback_on_error (a ← body; _ ← commit; mret a)) LOCK_RETRY_DELAYS.

Definition add_route (q : RouteRequest) : M router RouteRow :=
  _ ← lift_outcome (validate_request q);
  ts ← on_tower now_iso;
  rid ← next_uuid;
  row ← with_connection (
    cursor ← select_max_event_id;
    let row := new_route q rid ts cursor in
    _ ← catch (route_tx (insert_route row))
          (λ e, match e with
                | IntegrityError => throw (RouteError "route_creation_failed")
                | _ => throw e
                end);
    mret row);
  _ ← emit_route_created row;
  mret row.

Definition remove_route (rid : string) (by_ : option string) : M router unit :=
  deleted ← with_connection (route_tx (delete_route rid));
  if negb deleted then throw (RouteError "route_id_not_found")
  else emit_route_deleted rid by_.

Definition flip_enabled (rid : string) (b : bool) (by_ : option string) : M router bool :=
  ts ← on_tower now_iso;
  changed ← with_connection (
    existing ← select_route rid;
    match existing with
    | None => throw (RouteError "route_id_not_found")
    | Some _ => route_tx (update_enabled rid b ts)
    end);
  _ ← (if (changed : bool) then emit_route_updated rid b by_ else mret tt);
  mret changed.

Definition enable_route (rid : string) (by_ : option string) : M router bool :=
  flip_enabled rid true by_.
Definition disable_route (rid : string) (by_ : option string) : M router bool :=
  flip_enabled rid false by_.

(** ** Reads *)

Record RouteRuntime := mkRuntime {
  rt_last_routing_cycle_at : option string; rt_events_consumed : Z;
  rt_last_skip_reason : option string; rt_last_skip_at : option string
}.

(** Without a shared state (a service used alone) everything is zero. *)
Definition build_runtime (rid : string) (wired : option SharedRoutingState) : RouteRuntime :=
  match wired with
  | None => mkRuntime None 0 None None
  | Some s =>
      let last_skip := last_skip_per_route s !! rid in
      mkRuntime (last_routing_cycle_at s) (events_consumed_total s)
        (fst <$> last_skip) (snd <$> last_skip)
  end.

Definition show_route (rid : string) : M router (RouteRow * RouteRuntime) :=
  row ← with_connection (select_route rid);
  match row with
  | None => throw (RouteError "route_id_not_found")
  | Some r => x ← get; mret (r, build_runtime rid (Some (shared x)))
  end.

Definition service_list_routes (enabled_only : bool) : M router (list RouteRow) :=
  with_connection (list_routes enabled_only).

(** ** Status figures *)

Definition lag (r : RouteRow) (d : db) : nat :=
  length (filter (λ e, (last_consumed_event_id r < event_id e)%Z ∧
                       event_type e = route_event_type r) (events d)).

(** One pass over the routes in order, each with the count of its own query. *)
Definition most_stalled_step (leader : option (string * nat)) (rl : RouteRow * nat)
  : option (string * nat) :=
  if rl.2 <=? 0 then leader
  else match leader with
       | None => Some (route_id rl.1, rl.2)
       | Some (_, best) => if best <? rl.2 then Some (route_id rl.1, rl.2) else leader
       end.

Definition compute_most_stalled : M conn (option (string * nat)) :=
  rs ← list_routes true;
  lags ← mapM (λ r, n ← sql_read (lag r); mret (r, n)) rs;
  mret (foldl most_stalled_step None lags).

Definition compute_route_counts : M conn (nat * nat * nat) :=
  sql_read (λ d,
    let rs := (map_to_list (routes d)).*2 in
    let total := length rs in
    let on := length (filter (λ r, enabled r = true) rs) in
    (total, on, total - on)).

(** ** Lemmas *)

(** A body that runs [F] inside the open transaction. *)
Definition body_does {A} (F : db → A → db → Prop) (body : M conn A) : Prop :=
  ∀ c d, txn c = Some d → wp body (λ o c', committed c' = committed c ∧ others c' = others c ∧
    match o with
    | Ok a => ∃ d', txn c' = Some d' ∧ F d a d'
    | Raise _ => is_Some (txn c')
    end) c.

Definition route_tx_post {A} (F : db → A → db → Prop) (c : conn) (o : outcome A) (c' : conn)
  : Prop :=
  others c' = others c ∧ (o ≠ Raise SystemExit → txn c' = None) ∧
  match o with
  | Ok a => F (committed c) a (committed c')
  | Raise _ => committed c' = committed c
  end.

(** The transaction commits what the body did, or nothing. *)
Lemma route_tx_spec {A} (F : db → A → db → Prop) body c :
  body_does F body → txn c = None → wp (route_tx body) (route_tx_post F c) c.
Proof.
  intros Hb. unfold route_tx.
  assert (Hone : ∀ c, txn c = None → wp (_ ← begin_immediate;
    rollback_on_error (a ← body; _ ← commit; mret a)) (route_tx_post F c) c).
  { clear c. intros c Ht. apply wp_bind, wp_begin; [done| |done]. intros fs.
    apply wp_except. apply (wp_mono _ (λ o c', committed c' = match o with Ok _ => committed c'
        | Raise _ => committed c end ∧ others c' = others c ∧ match o with
      | Ok a => txn c' = None ∧ F (committed c) a (committed c')
      | Raise _ => is_Some (txn c')
      end)).
    { intros [a|e] c' (Hc & Ho & H); [by destruct H|]. destruct H as [d Hd].
      destruct (is_exception e) eqn:He; [|split_and!; [done|by destruct e|done]].
      apply wp_bind. eapply wp_rollback; [done|]. by apply wp_throw. }
    apply wp_bind. eapply wp_mono; [|by eapply Hb]. intros [a|e] c' (Hc & Ho & H); [|by split_and!].
    destruct H as (d' & Hd' & HF). apply wp_bind. eapply wp_commit; [done| |].
    - intros fs'. by apply wp_ret.
    - intros f fs'. split_and!; [done|done|simpl; eauto]. }
  revert c. induction LOCK_RETRY_DELAYS as [|n delays IH]; intros c Ht; apply wp_catch;
    (eapply wp_mono; [|by apply Hone]); intros [a|e] c' (Ho & Htx & H); try done;
    destruct e as [| |msg| | | | | | | |]; try (by apply wp_throw);
    destruct (negb (is_lock_message (Text.lower msg)));
    try (apply wp_throw; split_and!; [done|intros _; by apply Htx|done]).
  apply wp_bind, wp_modify. eapply wp_mono; [|apply IH; simpl; by apply Htx].
  intros o c'' (Ho2 & Ht2 & H2). simpl in *. rewrite H in H2. rewrite Ho in Ho2.
  by split_and!.
Qed.

Lemma body_write {A} (f : db → outcome (A * db)) :
  body_does (λ d a d', f d = Ok (a, d')) (sql_write f).
Proof.
  intros c d Ht. eapply wp_sql_write; [done| | |].
  - intros a d' fs E. split_and!; [done..|by eexists].
  - intros e fs E. split_and!; [done..|simpl; rewrite Ht; eauto].
  - intros f' fs. split_and!; [done..|simpl; rewrite Ht; eauto].
Qed.

(** What the worker needs of a route: none of its steps on it can raise for the
    route's own fault. *)
Definition processable (r : RouteRow) : Prop :=
  (∃ p, parse_source_scope_value (source_scope_value r) (source_scope_kind r) = Ok p) ∧
  (∀ ms, ∃ res, pick_master (master_rule r) (master_value r) ms = Ok res) ∧
  (∀ a x, ∃ v x', resolve_route_target r a x = (Ok v, x')) ∧
  (∃ used, validate_template_string (template r) = Ok used).

Lemma resolve_target_error `{AgentsLookup} s e :
  resolve_target s = Raise e → ∃ code, e = QueueServiceError TargetResolve code.
Proof. unfold resolve_target. repeat case_match; naive_solver. Qed.

Lemma resolve_explicit_total r v a x :
  target_rule r = "explicit" → target_value r = Some v →
  ∃ y x', resolve_route_target r a x = (Ok y, x').
Proof.
  intros Hr Hv. unfold resolve_route_target. rewrite bool_decide_true by done. rewrite Hv.
  unfold catch, mbind, M_bind, look. destruct (around x) as [s [|s' l]]; simpl;
    unfold lift_outcome;
    destruct (resolve_target (L := RegistryAgentsLookup (agents_table s)) v) as [t|e] eqn:E;
    eauto; apply resolve_target_error in E as [code ->]; eauto.
Qed.

Lemma resolve_role_total r v rc a x :
  target_rule r = "role" → target_value r = Some v → parse_role_capability v = Ok rc →
  ∃ y x', resolve_route_target r a x = (Ok y, x').
Proof.
  intros Hr Hv Hp. unfold resolve_route_target. rewrite Hr, Hv. simpl.
  unfold mbind, M_bind, lift_outcome, look. rewrite Hp.
  destruct (around x) as [s [|s' l]]; destruct (merge_sort _ _); eauto.
Qed.

Lemma resolve_source_total r a x :
  target_rule r = "source" → ∃ y x', resolve_route_target r a x = (Ok y, x').
Proof.
  intros Hr. unfold resolve_route_target. rewrite Hr. simpl. destruct (negb (active a)); eauto.
Qed.

(** What passing the validations means. *)
Record valid_request (q : RouteRequest) : Prop := {
  vr_event : rq_event_type q ∈ ROUTE_EVENT_TYPES;
  vr_master : (rq_master_rule q = "auto" ∧ rq_master_value q = None) ∨
              (rq_master_rule q = "explicit" ∧ ∃ v, rq_master_value q = Some v);
  vr_target : (rq_target_rule q = "source" ∧ rq_target_value q = None) ∨
              (rq_target_rule q = "explicit" ∧ ∃ v, rq_target_value q = Some v) ∨
              (rq_target_rule q = "role" ∧ ∃ v rc, rq_target_value q = Some v ∧
                 parse_role_capability v = Ok rc ∧ rc.1 ∈ RECEIVE_PERMITTED_ROLES);
  vr_scope : ∃ p, parse_source_scope_value (rq_source_scope_value q) (rq_source_scope_kind q) = Ok p;
  vr_template : ∃ used, validate_template_string (rq_template q) = Ok used
}.

Lemma validate_master q :
  rq_master_rule q ∈ MASTER_RULES →
  bool_decide (rq_master_rule q = "explicit") && falsy (rq_master_value q) = false →
  bool_decide (rq_master_rule q = "auto") && is_set (rq_master_value q) = false →
  (rq_master_rule q = "auto" ∧ rq_master_value q = None) ∨
  (rq_master_rule q = "explicit" ∧ ∃ v, rq_master_value q = Some v).
Proof.
  unfold MASTER_RULES. rewrite !elem_of_cons, elem_of_nil. intros [->|[->|[]]]; simpl; intros H1 H2.
  - left. by destruct (rq_master_value q).
  - right. destruct (rq_master_value q); [eauto|done].
Qed.

Lemma validate_request_valid q : validate_request q = Ok tt → valid_request q.
Proof.
  unfold validate_request, route_error.
  destruct (bool_decide (rq_event_type q ∉ _)) eqn:He; [done|].
  destruct (bool_decide (rq_master_rule q ∉ _)) eqn:Hm; [done|].
  destruct (bool_decide (rq_master_rule q = "explicit") && _) eqn:Hm1; [done|].
  destruct (bool_decide (rq_master_rule q = "auto") && _) eqn:Hm2; [done|].
  destruct (bool_decide (rq_target_rule q ∉ _)) eqn:Ht; [done|].
  destruct (bool_decide (rq_target_rule q = "source") && _) eqn:Ht1; [done|].
  destruct (negb _ && _) eqn:Ht2; [done|].
  apply bool_decide_eq_false, dec_stable in He, Hm, Ht.
  destruct (parse_source_scope_value _ _) as [p|e] eqn:Hp; [|done]. simpl.
  intros H. assert (Htpl : ∃ used, validate_template_string (rq_template q) = Ok used).
  { destruct (validate_template_string (rq_template q)); [eauto|].
    by repeat case_match. }
  split; [done|by apply validate_master| |eauto|done].
  rewrite !elem_of_cons, elem_of_nil in Ht. destruct Ht as [Hr|[Hr|[Hr|[]]]]; rewrite Hr in *;
    simpl in *.
  - right; left. destruct (rq_target_value q); [eauto|done].
  - left. by destruct (rq_target_value q).
  - right; right. destruct (rq_target_value q) as [v|]; [|done]. split; [done|].
    destruct (parse_role_capability v) as [[r cap]|e] eqn:Hrc; [|by repeat case_match].
    case_bool_decide as Hin; [done|]. eauto 10.
Qed.

Lemma scope_value_set q p :
  parse_source_scope_value (rq_source_scope_value q) (rq_source_scope_kind q) = Ok p →
  rq_source_scope_kind q ∈ ["any"; "agent_id"; "role"] ∧
  eqb (bool_decide (rq_source_scope_kind q = "any")) (negb (is_set (rq_source_scope_value q))) = true.
Proof.
  unfold parse_source_scope_value. case_bool_decide as Hk; [done|]. intros H. split; [done|].
  revert H. case_bool_decide; destruct (rq_source_scope_value q) as [[|]|]; done.
Qed.

Lemma valid_request_route q rid ts cursor :
  valid_request q → (0 ≤ cursor)%Z →
  processable (new_route q rid ts cursor) ∧ check_route (new_route q rid ts cursor) = true.
Proof.
  intros [He Hm Ht [p Hp] Htpl] Hc. destruct (scope_value_set q p Hp) as [Hk Hkv]. split.
  - split_and!; simpl; [by eauto| | |done].
    + intros ms. destruct Hm as [[-> _]|[-> [v ->]]]; by eexists.
    + intros a x. destruct Ht as [[Hr _]|[[Hr [v Hv]]|[Hr (v & rc & Hv & Hrc & _)]]].
      * by apply resolve_source_total.
      * by eapply resolve_explicit_total.
      * by eapply resolve_role_total.
  - unfold check_route. simpl. rewrite Hkv, !(bool_decide_true (_ ∈ _)) by
      first [done|destruct Ht as [[-> _]|[[-> _]|[-> _]]]; set_solver
            |destruct Hm as [[-> _]|[-> _]]; set_solver].
    rewrite (proj2 (Z.leb_le _ _) Hc). simpl. apply andb_true_iff. split.
    + destruct Ht as [[-> ->]|[[-> [v ->]]|[-> (v & rc & -> & _)]]]; done.
    + destruct Hm as [[-> ->]|[-> [v ->]]]; done.
Qed.

(** Emitting an audit line leaves the database alone. *)
Lemma emit_now_db (p : string → RoutePayload) x :
  wp (ts ← on_tower now_iso; emit (p ts)) (λ _ x', db_conn (tower x') = db_conn (tower x)) x.
Proof.
  apply wp_bind, wp_on_tower, wp_now_iso. intros ts w Hc _. rewrite <- Hc.
  unfold emit, except_os_error. apply wp_catch, wp_on_tower. unfold wp at 1.
  assert (Hd : db_conn (append_event (RouteAudit (p ts)) w).2 = db_conn w)
    by (unfold append_event; by repeat case_match).
  simpl. destruct (append_event (RouteAudit (p ts)) w) as [[u|e] w']; [done|]. simpl in *.
  destruct (is_os_error e); [|done]. apply wp_modify. by destruct (_ <=? _).
Qed.

Lemma max_event_id_spec l :
  (0 ≤ foldr (λ e m, Z.max (event_id e) m) 0 l)%Z ∧
  ∀ e, e ∈ l → (event_id e ≤ foldr (λ e m, Z.max (event_id e) m) 0 l)%Z.
Proof.
  induction l as [|x l [IH1 IH2]]; simpl; [split; [done|by intros e ?%not_elem_of_nil]|].
  split; [lia|]. intros e [->|Hin]%elem_of_cons; [lia|]. specialize (IH2 e Hin). lia.
Qed.

Lemma next_uuid_then {B} (k : string → M router B) Q x :
  (∀ u x', tower x' = tower x → wp (k u) Q x') → wp (next_uuid ≫= k) Q x.
Proof. intros Hk. apply wp_bind. unfold wp at 1, next_uuid. by destruct (uuids x); apply Hk. Qed.

(** ** Properties *)

(** A route that was added can be processed and starts at the present.  When
    [add_route] returns a row, that row is in the table, enabled, and satisfies its
    constraints; its cursor is at or past every event recorded so far, so history
    is never replayed; and no step the worker takes on it, parsing its scope,
    arbitrating its master, resolving its target, can raise because of the route. *)
Theorem added_route_is_processable q x :
  txn (db_conn (tower x)) = None →
  wp (add_route q) (λ o x', ∀ row, o = Ok row →
    processable row ∧ check_route row = true ∧ enabled row = true ∧
    routes (committed (db_conn (tower x'))) !! route_id row = Some row ∧
    ∀ e, e ∈ events (locked_db (db_conn (tower x))) →
         (event_id e ≤ last_consumed_event_id row)%Z) x.
Proof.
  intros Ht. unfold add_route. apply wp_bind. unfold wp at 1, lift_outcome at 1. simpl.
  destruct (validate_request q) as [[]|e] eqn:Hv; [|done].
  apply validate_request_valid in Hv.
  apply wp_bind, wp_on_tower, wp_now_iso. intros ts w Hc _.
  apply next_uuid_then. intros rid x1 Hx1. apply wp_bind, wp_with_connection.
  rewrite Hx1. simpl. rewrite Hc. set (c := opened (db_conn (tower x))).
  apply wp_bind, wp_sql_read; [|done]. intros fs. unfold view. simpl. rewrite Ht. simpl.
  destruct (max_event_id_spec (events (locked_db (db_conn (tower x))))) as [Hpos Hmax].
  set (cursor := foldr _ _ _) in *. set (row := new_route q rid ts cursor).
  destruct (valid_request_route q rid ts cursor Hv Hpos) as [Hpr Hck]. cbv zeta.
  apply wp_bind, wp_catch.
  eapply wp_mono; [|apply route_tx_spec; [apply body_write|by simpl]].
  intros [r'|e] c' (_ & _ & H); [|by destruct e].
  apply wp_ret, wp_bind. eapply wp_mono; [|apply emit_now_db]. intros [[]|e] x2 Hx2; [|done].
  apply wp_ret. intros row' [= <-]. split_and!; try done. rewrite Hx2. simpl.
  simpl in H. destruct (routes (locked_db (db_conn (tower x))) !! rid); [done|].
  change (match check_route row with true => Ok (rid, set_routes (<[rid := row]>
    (routes (locked_db (db_conn (tower x))))) (locked_db (db_conn (tower x))))
    | false => Raise IntegrityError end = Ok (r', committed c')) in H.
  unfold row in H at 1. rewrite Hck in H. injection H as _ <-. simpl.
  by rewrite lookup_insert_eq.
Qed.

Definition demo_request : RouteRequest :=
  mkRequest "error" "role" (Some "role:slave,capability:codex") "source" None "auto" None
    "{event_type}: {event_excerpt}" None.

Lemma added_route_is_processable_witness :
  (∃ row, (add_route demo_request (demo_router [])).1 = Ok row ∧ processable row ∧
          last_consumed_event_id row = 1%Z).
Proof.
  assert (H : (add_route demo_request (demo_router [])).1 =
    Ok (new_route demo_request "m1" "t1" 1)) by (vm_compute; reflexivity).
  eexists. split; [exact H|]. split; [|reflexivity].
  exact (proj1 (added_route_is_processable demo_request (demo_router []) eq_refl _ H)).
Defined.

(** Enabling and disabling are idempotent and audited exactly when they change
    something.  For a known route the answer says whether the flag differed; if it
    did, only the flag and [updated_at] of that row change and a [route_updated]
    line is written or buffered; if not, nothing changes and nothing is audited.  An
    unknown id is refused and nothing changes. *)
Theorem flip_audited_iff_changed rid b by_ x :
  txn (db_conn (tower x)) = None →
  wp (flip_enabled rid b by_) (λ o x',
    let rs := routes (locked_db (db_conn (tower x))) in
    let rs' := routes (committed (db_conn (tower x'))) in
    match rs !! rid with
    | None => is_ok o = false ∧ rs' = rs
    | Some r => ∀ changed, o = Ok changed →
        changed = negb (eqb (enabled r) b) ∧
        if (changed : bool)
        then (∃ ts, rs' = <[rid := set_enabled b ts r]> rs) ∧
             ∃ ts, recorded (route_updated ts rid b by_) x'
        else rs' = rs ∧ jsonl (hst (tower x')) = jsonl (hst (tower x)) ∧
             audit_pending x' = audit_pending x
    end) x.
Proof.
  intros Ht. unfold flip_enabled. apply wp_bind, wp_on_tower, wp_now_iso. intros ts w Hc Hj.
  apply wp_bind, wp_with_connection. simpl. rewrite Hc.
  apply wp_bind, wp_sql_read.
  2:{ intros f fs. cbv zeta. destruct (routes _ !! rid); [done|]. done. }
  intros fs. unfold view. simpl. rewrite Ht. simpl.
  destruct (routes (locked_db (db_conn (tower x))) !! rid) as [r|] eqn:Er; [|by apply wp_throw].
  eapply wp_mono; [|apply (route_tx_spec (λ d a d', ∃ n, update_route rid
    (λ r, negb (eqb (enabled r) b)) (set_enabled b ts) d = Ok (n, d') ∧ a = (0 <? n))); [|done]].
  2:{ intros c d Hd. apply wp_bind. eapply wp_mono; [|by apply body_write].
      intros [n|e] c' (H1 & H2 & H3); [|done]. apply wp_ret. split_and!; [done..|].
      destruct H3 as (d' & ? & ?). eauto 10. }
  intros [changed|e] c' (_ & _ & H); [|by intros changed].
  destruct H as (n & Hu & ->). unfold update_route in Hu. simpl in Hu. rewrite Er in Hu.
  destruct (negb (eqb (enabled r) b)) eqn:Hneq.
  - destruct (check_route _); [|done]. injection Hu as <- Hd'. simpl.
    apply wp_bind. eapply wp_mono; [|apply (wp_conj _ _ _ _
      (emit_now_db (λ ts, route_updated ts rid b by_) _)
      (emit_now_records (λ ts, route_updated ts rid b by_) _))].
    intros [[]|e] x2 [Hx2 Hrec]; [|by intros changed].
    apply wp_ret. intros changed [= <-]. split; [done|]. split; [|exact Hrec].
    exists ts. rewrite Hx2. simpl. by rewrite <- Hd'.
  - injection Hu as <- Hd'. simpl. apply wp_bind, wp_ret, wp_ret. intros changed [= <-].
    split; [done|]. simpl. split_and!; [by rewrite <- Hd'|by rewrite Hj|done].
Qed.

Lemma flip_audited_iff_changed_witness :
  let m := flip_enabled "r1" false None in
  (m (demo_router [])).1 = Ok true ∧
  ∃ ts, recorded (route_updated ts "r1" false None) (m (demo_router [])).2.
Proof.
  intros m. assert (H : (m (demo_router [])).1 = Ok true) by (vm_compute; reflexivity).
  split; [exact H|].
  exact (proj2 (proj2 (flip_audited_iff_changed "r1" false None (demo_router []) eq_refl true H))).
Defined.

(** ** The heartbeat (src/src/agenttower/routing/heartbeat.py)

A thread of its own that writes one line per interval with the counters of the worker. *)

Definition DEFAULT_HEARTBEAT_INTERVAL_S : Z := 60.
(** The bounds [HeartbeatEmitter] accepts. *)
Definition heartbeat_interval_ok (interval : Z) : bool := (10 <=? interval)%Z && (interval <=? 3600)%Z.

Definition reset_counters (s : SharedRoutingState) : SharedRoutingState :=
  mkShared 0 0 0 (events_consumed_total s) (skips_by_reason s) (last_routing_cycle_at s)
    (routing_worker_degraded s) (audit_buffer_dropped s) (last_skip_per_route s).
(** The counters are read and reset under the lock of the shared state, and written after it. *)
Definition heartbeat_beat (interval : Z) : M router unit :=
  x ← get;
  let s := shared x in
  _ ← modify (λ x, set_shared (reset_counters (shared x)) x);
  except (emit_routing_worker_heartbeat interval (cycles_since_last_heartbeat s)
            (events_consumed_since_last_heartbeat s) (skips_since_last_heartbeat s) (routing_worker_degraded s))
    (λ _, mret tt).
(** [HeartbeatEmitter.run]: each wait of one interval says whether the shutdown was set. *)
Fixpoint heartbeat_run (interval : Z) (waits : list bool) : M router unit :=
  match waits with
  | [] | true :: _ => mret tt
  | false :: rest => _ ← heartbeat_beat interval; heartbeat_run interval rest
  end.

Definition same_counters (s s' : SharedRoutingState) : Prop :=
  cycles_since_last_heartbeat s' = cycles_since_last_heartbeat s ∧
  events_consumed_since_last_heartbeat s' = events_consumed_since_last_heartbeat s ∧
  skips_since_last_heartbeat s' = skips_since_last_heartbeat s.
Definition only_os_errors (w : world) : Prop :=
  ∀ n written, Some (IO_error n written) ∈ jsonl_io (hst w) → is_os_error (PyError n) = true.

Lemma emit_counters p x :
  wp (emit p) (λ _ x', same_counters (shared x) (shared x')) x.
Proof.
  unfold emit, except_os_error. apply wp_catch, wp_on_tower. unfold wp at 1. simpl.
  destruct (append_event (RouteAudit p) (tower x)) as [[u|e] w']; [done|]. simpl.
  destruct (is_os_error e); [|done]. unfold enqueue_pending. apply wp_modify. by destruct (_ <=? _).
Qed.
Lemma emit_os_errors p x :
  only_os_errors (tower x) →
  wp (emit p) (λ o x', match o with Ok _ => recorded p x' | Raise e => e = SystemExit end) x.
Proof.
  intros Hio.
  assert (Hos : wp (emit p) (λ o x', ∀ n, o = Raise (PyError n) → is_os_error (PyError n) = true) x).
  { unfold emit, except_os_error. apply wp_catch, wp_on_tower. unfold wp at 1, append_event. cbn [fst snd]. unfold only_os_errors in Hio.
    destruct (jsonl_io (hst (tower x))) as [|[[n written|written]|] rest]; try done.
    cbn [fst snd]. rewrite (Hio n written) by apply list_elem_of_here. unfold enqueue_pending. by apply wp_modify. }
  eapply wp_mono; [|apply (wp_conj _ _ _ _ (emit_records p x) Hos)].
  intros [[]|e] x' [H1 H2]; [done|]. destruct H1 as [->|(n & -> & Hn)]; [done|]. by rewrite (H2 n) in Hn.
Qed.
Lemma wp_now_iso_io (Q : outcome string → world → Prop) w :
  (∀ ts w', jsonl_io (hst w') = jsonl_io (hst w) → Q (Ok ts) w') → wp now_iso Q w.
Proof. intros HQ. unfold wp, now_iso. destruct (clock (hst w)) as [t [|t' rest]]; by apply HQ. Qed.

(** A beat sets the counters to zero and leaves a line with what they were, in the file or in the
    buffer that is retried; only the end of the process cuts it off. *)
Theorem heartbeat_tells_the_counters interval x :
  only_os_errors (tower x) →
  let s := shared x in
  wp (heartbeat_beat interval) (λ o x', same_counters (reset_counters s) (shared x') ∧
    match o with
    | Ok _ => ∃ ts, recorded (routing_worker_heartbeat ts interval (cycles_since_last_heartbeat s)
                (events_consumed_since_last_heartbeat s) (skips_since_last_heartbeat s) (routing_worker_degraded s)) x'
    | Raise e => e = SystemExit
    end) x.
Proof.
  intros Hio s. unfold heartbeat_beat. apply wp_bind. unfold get, wp at 1. apply wp_bind, wp_modify. cbn [fst snd].
  apply wp_except. unfold emit_routing_worker_heartbeat. apply wp_bind, wp_on_tower, wp_now_iso_io. intros ts w Hw.
  assert (Hw' : only_os_errors (tower (set_tower w (set_shared (reset_counters (shared x)) x)))).
  { intros n written. cbn [tower set_tower]. rewrite Hw. apply Hio. }
  eapply wp_mono; [|apply (wp_conj _ _ _ _ (emit_counters _ _) (emit_os_errors _ _ Hw'))].
  intros [[]|e] x' [H1 H2]; [eauto|]. subst e. by split.
Qed.
