(* ===== verification/Regex.v ===== *)
(** Regular expressions as Python's [re] runs them on a [str].

    A [regex] is matched at a position: the character before it, if any, and the
    text that follows.  [ends] lists the positions where a match can stop in the
    order the backtracking engine tries them, so its head is the match the engine
    reports.  [matches] is the declarative reading, and [ends_spec] proves that the
    engine finds exactly the matches there are.

    Every pattern of the repository is written with these constructors; none uses
    lazy repetition or back-references, and [sub] is used only with patterns that
    never match the empty text. *)

From S2P Require Import Prelude Utf8.

Local Open Scope N_scope.

Inductive regex :=
| r_empty                          (* the empty pattern *)
| r_class (p : N → bool)           (* one character of a class *)
| r_seq (a b : regex)
| r_alt (a b : regex)              (* [a|b], [a] first *)
| r_star (a : regex)               (* greedy *)
| r_begin                          (* [^] without MULTILINE *)
| r_end                            (* [$] without MULTILINE *)
| r_boundary (word : N → bool).    (* [\b] *)

Definition position : Type := option N * text.

(** [$] also matches before a final newline. *)
Definition at_line_end (t : text) : bool := bool_decide (t = []) || bool_decide (t = [10]).

Definition in_word (word : N → bool) (o : option N) : bool :=
  match o with Some c => word c | None => false end.

Definition boundary_at (word : N → bool) (p : position) : bool :=
  negb (Bool.eqb (in_word word p.1) (in_word word (head p.2))).

(** Repetition stops at an iteration that consumes nothing; each other iteration
    shortens the rest, so its length bounds their number. *)
Fixpoint star_ends (step : position → list position) (fuel : nat) (p : position)
  : list position :=
  match fuel with
  | O => [p]
  | S n =>
      (filter (λ q, (length q.2 < length p.2)%nat) (step p) ≫= star_ends step n) ++ [p]
  end.

Fixpoint ends (r : regex) (p : position) : list position :=
  match r with
  | r_empty => [p]
  | r_class f =>
      match p.2 with
      | c :: rest => if f c then [(Some c, rest)] else []
      | [] => []
      end
  | r_seq a b => ends a p ≫= ends b
  | r_alt a b => ends a p ++ ends b p
  | r_star a => star_ends (ends a) (length p.2) p
  | r_begin => if bool_decide (p.1 = None) then [p] else []
  | r_end => if at_line_end p.2 then [p] else []
  | r_boundary w => if boundary_at w p then [p] else []
  end.

(** ** Derived forms *)

Definition r_char (c : N) : regex := r_class (N.eqb c).
Definition r_opt (a : regex) : regex := r_alt a r_empty.
Definition r_plus (a : regex) : regex := r_seq a (r_star a).
Definition r_seqs (l : list regex) : regex := foldr r_seq r_empty l.
Definition r_alts (a : regex) (l : list regex) : regex := foldl r_alt a l.

(** [a{n}] and [a{n,}] *)
Fixpoint r_times (n : nat) (a rest : regex) : regex :=
  match n with O => rest | S n' => r_seq a (r_times n' a rest) end.
Definition r_at_least (n : nat) (a : regex) : regex := r_times n a (r_star a).

(** [a{1,n}], greedy *)
Fixpoint r_upto (n : nat) (a : regex) : regex :=
  match n with O => r_empty | S n' => r_opt (r_seq a (r_upto n' a)) end.

(** A literal, given by its UTF-8 bytes. *)
Definition lit (s : string) : text := default [] (decode s).
Definition r_text (t : text) : regex := r_seqs (r_char <$> t).
Definition r_lit (s : string) : regex := r_text (lit s).

(** ** Using a pattern *)

(** [pattern.match(t)] *)
Definition re_match (r : regex) (t : text) : option position := head (ends r (None, t)).

(** [pattern.search(t) is not None] *)
Fixpoint search_from (r : regex) (prev : option N) (t : text) : bool :=
  negb (bool_decide (ends r (prev, t) = [])) ||
  match t with [] => false | c :: t' => search_from r (Some c) t' end.
Definition re_search (r : regex) (t : text) : bool := search_from r None t.

(** [pattern.fullmatch(t) is not None] *)
Definition re_fullmatch (r : regex) (t : text) : bool :=
  existsb (λ q : position, bool_decide (q.2 = [])) (ends r (None, t)).

(** [pattern.sub(repl, t)]: matches are replaced from left to right; the character
    before the next one is that of the original text.  [repl] sees the matched
    text.  Each turn consumes a character. *)
Fixpoint sub_from (fuel : nat) (r : regex) (repl : text → text) (p : position) : text :=
  match fuel, p.2 with
  | S n, c :: rest =>
      match head (ends r p) with
      | Some q =>
          if (length q.2 <? length p.2)%nat
          then repl (take (length p.2 - length q.2) p.2) ++ sub_from n r repl q
          else c :: sub_from n r repl (Some c, rest)
      | None => c :: sub_from n r repl (Some c, rest)
      end
  | _, _ => p.2
  end.
Definition re_sub (r : regex) (repl : text → text) (t : text) : text :=
  sub_from (length t) r repl (None, t).

(** ** Meaning *)

Inductive matches : regex → position → position → Prop :=
| m_empty p : matches r_empty p p
| m_class f prev c rest : f c = true → matches (r_class f) (prev, c :: rest) (Some c, rest)
| m_seq a b p q s : matches a p q → matches b q s → matches (r_seq a b) p s
| m_alt_l a b p q : matches a p q → matches (r_alt a b) p q
| m_alt_r a b p q : matches b p q → matches (r_alt a b) p q
| m_star_nil a p : matches (r_star a) p p
| m_star_cons a p q s : matches a p q → matches (r_star a) q s → matches (r_star a) p s
| m_begin t : matches r_begin (None, t) (None, t)
| m_end prev t : at_line_end t = true → matches r_end (prev, t) (prev, t)
| m_boundary w p : boundary_at w p = true → matches (r_boundary w) p p.

#[export] Hint Constructors matches : tower.

(** A match consumes a prefix of the rest and moves over it. *)
Definition after (prev : option N) (m : text) : option N :=
  match last m with Some c => Some c | None => prev end.

Lemma after_app prev a b : after prev (a ++ b) = after (after prev a) b.
Proof. unfold after. rewrite last_app. by destruct (last b). Qed.

Lemma after_cons prev c m : after prev (c :: m) = after (Some c) m.
Proof. apply (after_app prev [c] m). Qed.

Lemma matches_split r p q :
  matches r p q → ∃ m, p.2 = m ++ q.2 ∧ q.1 = after p.1 m.
Proof.
  induction 1; simpl in *;
    try (exists []; done);
    try (destruct IHmatches as (m & ? & ?); by exists m).
  - by exists [c].
  - destruct IHmatches1 as (m1 & E1 & F1), IHmatches2 as (m2 & E2 & F2).
    exists (m1 ++ m2). rewrite E1, E2, F2, F1, after_app. split; [by rewrite app_assoc|done].
  - destruct IHmatches1 as (m1 & E1 & F1), IHmatches2 as (m2 & E2 & F2).
    exists (m1 ++ m2). rewrite E1, E2, F2, F1, after_app. split; [by rewrite app_assoc|done].
Qed.

Lemma matches_length r p q : matches r p q → (length q.2 ≤ length p.2)%nat.
Proof. intros (m & -> & _)%matches_split. rewrite length_app. lia. Qed.

(** A match that consumes nothing stays where it is. *)
Lemma matches_stuck r p q : matches r p q → length q.2 = length p.2 → q = p.
Proof.
  intros (m & E & F)%matches_split L. rewrite E, length_app in L.
  destruct m; [|simpl in L; lia]. destruct p, q. simpl in *. by subst.
Qed.

Lemma star_ends_sound a step fuel p q :
  (∀ p q, q ∈ step p → matches a p q) → q ∈ star_ends step fuel p → matches (r_star a) p q.
Proof.
  intros Hs. revert p. induction fuel as [|n IH]; intros p; simpl.
  - intros ->%list_elem_of_singleton. constructor.
  - intros [H| ->%list_elem_of_singleton]%elem_of_app; [|constructor].
    apply list_elem_of_bind in H as (s & Hq & [_ Hin]%list_elem_of_filter).
    econstructor; eauto.
Qed.

Lemma star_ends_complete a step fuel p q :
  (∀ p q, matches a p q → q ∈ step p) → matches (r_star a) p q →
  (length p.2 ≤ fuel)%nat → q ∈ star_ends step fuel p.
Proof.
  intros Hs Hm. remember (r_star a) as r eqn:Er. revert fuel.
  induction Hm as [| | | | | |? p q s Hpq _ Hqs IH| | |]; simplify_eq; intros fuel Hf.
  - destruct fuel; simpl; [by left|]. apply elem_of_app. right. by left.
  - pose proof (matches_length _ _ _ Hpq) as Hl.
    destruct (decide (length q.2 = length p.2)) as [El|Hlt].
    + rewrite (matches_stuck _ _ _ Hpq El) in IH. by apply IH.
    + assert (length q.2 < length p.2)%nat as Hlt' by lia.
      destruct fuel as [|n]; [lia|]. simpl. apply elem_of_app. left.
      apply list_elem_of_bind. exists q. split; [apply IH; [done|lia]|].
      apply list_elem_of_filter. split; [exact Hlt'|by apply Hs].
Qed.

Lemma ends_sound r p q : q ∈ ends r p → matches r p q.
Proof.
  revert p q. induction r; intros [prev t] q; simpl.
  - intros ->%list_elem_of_singleton. constructor.
  - destruct t as [|c rest]; [by intros ?%not_elem_of_nil|]. destruct (p c) eqn:E.
    + intros ->%list_elem_of_singleton. by constructor.
    + by intros ?%not_elem_of_nil.
  - intros (s & Hq & Hs)%list_elem_of_bind. econstructor; eauto.
  - intros [?|?]%elem_of_app; eauto with tower.
  - apply star_ends_sound. eauto.
  - case_bool_decide; [|by intros ?%not_elem_of_nil]. subst.
    intros ->%list_elem_of_singleton. constructor.
  - destruct (at_line_end t) eqn:E; [|by intros ?%not_elem_of_nil].
    intros ->%list_elem_of_singleton. by constructor.
  - destruct (boundary_at word (prev, t)) eqn:E; [|by intros ?%not_elem_of_nil].
    intros ->%list_elem_of_singleton. by constructor.
Qed.

Lemma ends_complete r p q : matches r p q → q ∈ ends r p.
Proof.
  revert p q. induction r; intros p0 q Hm; inversion Hm; subst; simpl.
  - by left.
  - match goal with H : _ = true |- _ => rewrite H end. by left.
  - apply list_elem_of_bind. eauto.
  - apply elem_of_app. eauto.
  - apply elem_of_app. eauto.
  - apply (star_ends_complete r); eauto.
  - apply (star_ends_complete r); eauto.
  - by left.
  - match goal with H : _ = true |- _ => rewrite H end. by left.
  - match goal with H : _ = true |- _ => rewrite H end. by left.
Qed.

Lemma ends_spec r p q : q ∈ ends r p ↔ matches r p q.
Proof. split; [apply ends_sound|apply ends_complete]. Qed.

Lemma ends_nil r p : ends r p = [] ↔ ∀ q, ¬ matches r p q.
Proof.
  split.
  - intros E q Hq%ends_complete. rewrite E in Hq. by apply not_elem_of_nil in Hq.
  - intros H. destruct (ends r p) as [|q l] eqn:E; [done|]. exfalso. apply (H q), ends_spec.
    rewrite E. by left.
Qed.

Lemma search_from_spec r prev t :
  search_from r prev t = true ↔ ∃ a b q, t = a ++ b ∧ matches r (after prev a, b) q.
Proof.
  revert prev. induction t as [|c t IH]; intros prev; cbn [search_from];
    rewrite orb_true_iff, negb_true_iff, bool_decide_eq_false.
  - split.
    + intros [H|H]; [|done]. destruct (ends r (prev, [])) as [|q l] eqn:E; [done|].
      exists [], [], q. split; [done|]. apply ends_spec. change (after prev []) with prev. rewrite E. by left.
    + intros (a & b & q & E & Hm). symmetry in E. apply app_nil in E as [-> ->].
      left. rewrite ends_nil. intros H. by apply (H q).
  - rewrite IH. split.
    + intros [H|(a & b & q & -> & Hm)].
      * destruct (ends r (prev, c :: t)) as [|q l] eqn:E; [done|].
        exists [], (c :: t), q. split; [done|]. apply ends_spec. change (after prev []) with prev. rewrite E. by left.
      * exists (c :: a), b, q. split; [done|]. by rewrite after_cons.
    + intros ([|c' a] & b & q & E & Hm); simplify_eq/=.
      * left. rewrite ends_nil. intros H. by apply (H q).
      * right. exists a, b, q. split; [done|]. by rewrite <- (after_cons prev).
Qed.

(** [search] finds a match exactly when one starts somewhere in the text. *)
Lemma re_search_spec r t :
  re_search r t = true ↔ ∃ a b q, t = a ++ b ∧ matches r (last a, b) q.
Proof.
  unfold re_search. rewrite search_from_spec.
  assert (E : ∀ a : text, after None a = last a) by (intros a; unfold after; by destruct (last a)).
  setoid_rewrite E. done.
Qed.

Lemma re_fullmatch_spec r t : re_fullmatch r t = true ↔ ∃ q, matches r (None, t) q ∧ q.2 = [].
Proof.
  unfold re_fullmatch. rewrite existsb_exists. split; intros (q & Hq & E); exists q.
  - apply list_elem_of_In, ends_spec in Hq. by apply bool_decide_eq_true in E.
  - rewrite <- list_elem_of_In, ends_spec, bool_decide_eq_true. done.
Qed.

(** ** Inversion of the forms the patterns are built from *)

Lemma matches_seq a b p q : matches (r_seq a b) p q ↔ ∃ s, matches a p s ∧ matches b s q.
Proof. split; [inversion 1; subst; eauto|intros (s & ? & ?); eauto with tower]. Qed.

Lemma matches_boundary w p q : matches (r_boundary w) p q ↔ q = p ∧ boundary_at w p = true.
Proof. split; [by inversion 1|intros [-> ?]; by constructor]. Qed.

Lemma matches_class f p q :
  matches (r_class f) p q ↔ ∃ c, p.2 = c :: q.2 ∧ q.1 = Some c ∧ f c = true.
Proof.
  split.
  - inversion 1; subst; eauto.
  - intros (c & E & F & Hc). destruct p, q; simpl in *; subst. by constructor.
Qed.

(** The language of a pattern that looks at nothing but the characters it takes. *)
Definition reads (r : regex) (L : text → Prop) : Prop :=
  ∀ p q, matches r p q ↔ ∃ m, p.2 = m ++ q.2 ∧ q.1 = after p.1 m ∧ L m.

Lemma reads_empty : reads r_empty (λ m, m = []).
Proof.
  intros p q. split.
  - inversion 1; subst. by exists [].
  - intros (m & E & F & ->). destruct p, q; simpl in *. subst. constructor.
Qed.

Lemma reads_class f : reads (r_class f) (λ m, ∃ c, m = [c] ∧ f c = true).
Proof.
  intros p q. rewrite matches_class. split.
  - intros (c & E & F & Hc). exists [c]. eauto.
  - intros (m & E & F & c & -> & Hc). eauto.
Qed.

Lemma reads_seq a b L K :
  reads a L → reads b K → reads (r_seq a b) (λ m, ∃ x y, m = x ++ y ∧ L x ∧ K y).
Proof.
  intros Ha Hb p q. rewrite matches_seq. split.
  - intros (s & (x & E1 & F1 & Hx)%Ha & (y & E2 & F2 & Hy)%Hb). exists (x ++ y).
    rewrite E1, E2, F2, F1, after_app, app_assoc. eauto 10.
  - intros (m & E & F & x & y & -> & Hx & Hy). exists (after p.1 x, y ++ q.2).
    rewrite after_app in F. rewrite <- app_assoc in E. split; [apply Ha|apply Hb]; eauto 10.
Qed.

Lemma reads_weaken r (L K : text → Prop) : reads r L → (∀ m, L m ↔ K m) → reads r K.
Proof. intros Hr H p q. rewrite (Hr p q). by setoid_rewrite H. Qed.

Lemma reads_star f : reads (r_star (r_class f)) (Forall (λ c, f c = true)).
Proof.
  intros p q. split.
  - intros Hm. remember (r_star (r_class f)) as r eqn:Er.
    induction Hm as [| | | | | |? p q s Hpq _ Hqs IH| | |]; simplify_eq.
    + exists []. split; [done|]. split; [done|constructor].
    + destruct (IH eq_refl) as (m & E & F & Hm).
      apply matches_class in Hpq as (c & E' & F' & Hc). exists (c :: m).
      rewrite E', E, F, F'. split; [done|]. rewrite after_cons. by split; [|constructor].
  - intros (m & E & F & Hm). revert p E F. induction Hm as [|c m Hc Hm IH]; intros p E F.
    + destruct p, q; simpl in *; subst. constructor.
    + apply m_star_cons with (Some c, m ++ q.2).
      * apply matches_class. exists c. by destruct p.
      * apply IH; [done|]. by rewrite after_cons in F.
Qed.

Lemma reads_times n f r L :
  reads r L →
  reads (r_times n (r_class f) r)
    (λ m, ∃ x y, m = x ++ y ∧ length x = n ∧ Forall (λ c, f c = true) x ∧ L y).
Proof.
  intros Hr. induction n as [|n IH]; simpl.
  - eapply reads_weaken; [exact Hr|]. intros m. split.
    + intros Hm. exists [], m. repeat split; [|done]. constructor.
    + intros (x & y & -> & Hx%nil_length_inv & _ & Hy). by subst.
  - eapply reads_weaken; [apply reads_seq; [apply reads_class|exact IH]|].
    intros m. split.
    + intros (x & y & -> & (c & -> & Hc) & x' & y' & -> & Hl & Hx & Hy).
      exists (c :: x'), y'. simpl. repeat split; [by f_equal|by constructor|done].
    + intros ([|c x] & y & -> & Hl & Hx & Hy); [done|]. apply Forall_cons in Hx as [Hc Hx].
      exists [c], (x ++ y). split; [done|]. split; [by exists c|].
      exists x, y. simpl in Hl. repeat split; [lia|done|done].
Qed.

Lemma reads_at_least n f :
  reads (r_at_least n (r_class f))
    (λ m, (n ≤ length m)%nat ∧ Forall (λ c, f c = true) m).
Proof.
  eapply reads_weaken; [apply reads_times, reads_star|]. intros m. split.
  - intros (x & y & -> & <- & Hx & Hy). rewrite length_app.
    split; [lia|by apply Forall_app_2].
  - intros [Hl Hm]. exists (take n m), (drop n m). rewrite length_take, take_drop.
    repeat split; [lia|by apply Forall_take|by apply Forall_drop].
Qed.

Lemma reads_text l : reads (r_text l) (λ m, m = l).
Proof.
  induction l as [|c l IH].
  - apply reads_empty.
  - eapply reads_weaken; [apply reads_seq; [apply reads_class|exact IH]|].
    intros m. split.
    + intros (x & y & -> & (c' & -> & E%N.eqb_eq) & ->). by subst.
    + intros ->. exists [c], l. repeat split. exists c. split; [done|apply N.eqb_refl].
Qed.

Lemma reads_alt a b L K : reads a L → reads b K → reads (r_alt a b) (λ m, L m ∨ K m).
Proof.
  intros Ha Hb p q. split.
  - inversion 1; subst.
    + match goal with H : matches a _ _ |- _ => apply Ha in H as (m & ? & ? & ?) end. eauto 10.
    + match goal with H : matches b _ _ |- _ => apply Hb in H as (m & ? & ? & ?) end. eauto 10.
  - intros (m & ? & ? & [?|?]); [apply m_alt_l, Ha|apply m_alt_r, Hb]; eauto.
Qed.

(** Anchored at both ends, [fullmatch] decides the language of the body. *)
Lemma fullmatch_anchored r L t :
  reads r L → re_fullmatch (r_seqs [r_begin; r; r_end]) t = true ↔ L t.
Proof.
  intros Hr. rewrite re_fullmatch_spec. cbn [r_seqs foldr]. split.
  - intros (q & Hm & Eq). apply matches_seq in Hm as (s & Hb & Hm). inversion Hb; subst.
    apply matches_seq in Hm as (s & Hm & He). apply Hr in Hm as (m & E & F & Hm).
    apply matches_seq in He as (s' & He & Hn). inversion Hn; subst. inversion He; subst.
    simpl in *. subst. by rewrite app_nil_r.
  - intros Ht. exists (after None t, []). split; [|done].
    apply matches_seq. exists (None, t). split; [constructor|].
    apply matches_seq. exists (after None t, []). split.
    + apply Hr. exists t. by rewrite app_nil_r.
    + apply matches_seq. exists (after None t, []). split; by constructor.
Qed.

(** ** Greedy repetition of a class takes all it can *)

Lemma star_ends_nonempty step fuel p : ∃ x l, star_ends step fuel p = x :: l.
Proof.
  destruct fuel; simpl; [eauto|].
  match goal with |- ∃ _ _, ?l ++ _ = _ => destruct l; simpl; eauto end.
Qed.

Lemma star_ends_class_head (f : N → bool) (step : position → list position) fuel p q :
  (∀ prev c t, step (prev, c :: t) = if f c then [(Some c, t)] else []) →
  (∀ prev, step (prev, []) = []) →
  (length p.2 ≤ fuel)%nat → head (star_ends step fuel p) = Some q →
  match head q.2 with Some c => f c = false | None => True end.
Proof.
  intros Hc Hn. revert p. induction fuel as [|n IH]; intros [prev t] Hf; cbn [star_ends].
  - intros [= <-]. destruct t; [done|simpl in Hf; lia].
  - destruct t as [|c t]; [rewrite Hn; by intros [= <-]|]. simpl in Hf.
    rewrite Hc. destruct (f c) eqn:E; [|intros [= <-]; exact E].
    rewrite filter_cons_True by (simpl; lia). rewrite filter_nil. cbn [mbind list_bind].
    destruct (star_ends_nonempty step n (Some c, t)) as (x & l & E'). rewrite E'.
    intros [= <-]. apply (IH (Some c, t)); [simpl; lia|]. by rewrite E'.
Qed.

Lemma ends_seq_det a b p s : ends a p = [s] → ends (r_seq a b) p = ends b s.
Proof. intros E. simpl. rewrite E. simpl. by rewrite app_nil_r. Qed.

Lemma ends_seq_empty r p : ends (r_seq r r_empty) p = ends r p.
Proof.
  change (ends r p ≫= (λ q, [q]) = ends r p). generalize (ends r p). intros l.
  induction l as [|q l IH]; [done|]. cbn. f_equal. exact IH.
Qed.

Lemma at_least_head n f p q :
  head (ends (r_at_least n (r_class f)) p) = Some q →
  match head q.2 with Some c => f c = false | None => True end.
Proof.
  unfold r_at_least. revert p. induction n as [|n IH]; intros p; cbn [r_times].
  - by apply star_ends_class_head.
  - destruct p as [prev [|c t]]; [done|]. simpl. destruct (f c) eqn:E; [|done].
    simpl. rewrite app_nil_r. apply IH.
Qed.

(** Without a match there is nothing to replace. *)
Lemma sub_from_free r repl n prev t :
  search_from r prev t = false → sub_from n r repl (prev, t) = t.
Proof.
  revert prev t. induction n as [|n IH]; intros prev [|c t] H; simpl in *; try done.
  apply orb_false_iff in H as [H1 H2]. apply negb_false_iff, bool_decide_eq_true in H1.
  rewrite H1. simpl. by rewrite IH.
Qed.

Lemma re_sub_free r repl t : re_search r t = false → re_sub r repl t = t.
Proof. apply sub_from_free. Qed.

Lemma ends_text l prev t : ends (r_text l) (prev, l ++ t) = [(after prev l, t)].
Proof.
  revert prev. induction l as [|c l IH]; intros prev; [done|].
  change (r_text (c :: l)) with (r_seq (r_char c) (r_text l)).
  rewrite (ends_seq_det _ _ _ (Some c, l ++ t)); [by rewrite IH, after_cons|].
  simpl. by rewrite N.eqb_refl.
Qed.
