(* ===== verification/Redaction.v ===== *)
(** Redaction of secrets in log lines (src/src/agenttower/logs/redaction.py): the
    redactor that the excerpts, the classifier and the log preview call. *)

From S2P Require Import Prelude Utf8 Envelope Regex.

Local Open Scope N_scope.

(** ** Character classes, under [re.ASCII] *)

Definition digit_char (c : N) : bool := within 48 57 c.
Definition upper_char (c : N) : bool := within 65 90 c.
Definition lower_char (c : N) : bool := within 97 122 c.
Definition alnum (c : N) : bool := digit_char c || upper_char c || lower_char c.
Definition ascii_word (c : N) : bool := alnum c || (c =? 95).
Definition upper_digit (c : N) : bool := upper_char c || digit_char c.
Definition bearer_char (c : N) : bool :=
  alnum c || (c =? 95) || (c =? 45) || (c =? 46) || (c =? 61).
Definition jwt_char (c : N) : bool := alnum c || (c =? 95) || (c =? 45).
Definition env_start (c : N) : bool := upper_char c || (c =? 95).
Definition env_char (c : N) : bool := upper_char c || digit_char c || (c =? 95).
Definition any_char (c : N) : bool := negb (c =? 10).

Definition word_boundary : regex := r_boundary ascii_word.

(** ** Unanchored patterns *)

(** [\b head body tail] *)
Definition secret (head body tail : regex) : regex :=
  r_seq word_boundary (r_seq head (r_seq body tail)).

Definition openai_key : regex :=
  secret (r_lit "sk-") (r_at_least 20 (r_class alnum)) word_boundary.
Definition github_token : regex :=
  secret (r_seq (r_lit "gh") (r_seq (r_class (λ c, (c =? 112) || (c =? 115))) (r_char 95)))
    (r_at_least 20 (r_class alnum)) word_boundary.
Definition aws_access_key : regex :=
  secret (r_lit "AKIA") (r_times 16 (r_class upper_digit) r_empty) word_boundary.
Definition bearer : regex :=
  secret (r_lit "Bearer ") (r_at_least 16 (r_class bearer_char)) r_empty.

(** [_UNANCHORED_PATTERNS] *)
Definition UNANCHORED_PATTERNS : list (regex * text) :=
  [(openai_key, lit "<redacted:openai-key>");
   (github_token, lit "<redacted:github-token>");
   (aws_access_key, lit "<redacted:aws-access-key>");
   (bearer, lit "Bearer <redacted:bearer>")].

(** ** Anchored patterns *)

Definition jwt_part : regex := r_plus (r_class jwt_char).
Definition jwt_body : regex := r_seqs [jwt_part; r_char 46; jwt_part; r_char 46; jwt_part].
Definition JWT_PATTERN : regex := r_seqs [r_begin; jwt_body; r_end].

Definition env_name : regex :=
  r_seqs [r_class env_start; r_star (r_class env_char);
          r_alts (r_seqs [r_lit "API"; r_opt (r_char 95); r_lit "KEY"])
            [r_lit "TOKEN"; r_lit "SECRET"; r_lit "PASSWORD"; r_lit "AUTH"]].
Definition ENV_PATTERN : regex :=
  r_seqs [r_begin; r_seqs [env_name; r_char 61; r_plus (r_class any_char)]; r_end].

Definition redact_jwt (line : text) : text :=
  if re_fullmatch JWT_PATTERN line
  then if (length line <? 32)%nat then line else lit "<redacted:jwt>"
  else line.

(** [m.group(1)]: no character of the name is an equals sign, so the group is what
    precedes the first one. *)
Fixpoint before_equals (t : text) : text :=
  match t with [] => [] | c :: rest => if c =? 61 then [] else c :: before_equals rest end.

Definition redact_env (line : text) : text :=
  if re_fullmatch ENV_PATTERN line
  then before_equals line ++ lit "=<redacted:env-secret>"
  else line.

Definition redact_one_line (line : text) : text :=
  redact_env (redact_jwt
    (foldl (λ out pr, re_sub pr.1 (λ _, pr.2) out) line UNANCHORED_PATTERNS)).

Definition redact_lines (t : text) : text := join_lines (redact_one_line <$> split_lines t).

Example redact_demo :
  encode (redact_one_line (lit "key sk-abcdefghij0123456789XY, Bearer abcdefghijklmnop.q"))
  = "key <redacted:openai-key>, Bearer <redacted:bearer>".
Proof. vm_compute. reflexivity. Qed.
Example redact_demo_env :
  encode (redact_one_line (lit "MY_API_KEY=hunter2")) = "MY_API_KEY=<redacted:env-secret>".
Proof. vm_compute. reflexivity. Qed.

(** What redaction guarantees: no secret survives it, and redacting twice changes
    nothing.  The proof works for any pattern of the shape [\b head body tail] and
    any mask between angle brackets. *)

(** Characters that no secret contains and every mask has at its ends. *)
Definition bracket (c : N) : bool := (c =? 60) || (c =? 62) || (c =? 58).
Definition plain (m : text) : Prop := Forall (λ c, bracket c = false) m.

Definition wordy (o : option N) : bool := in_word ascii_word o.

(** A secret: a text of the language [L] whose left neighbour is no word character
    and, when [right] is set, whose right neighbour is none either. *)
Record token_shape (Q : regex) (right : bool) (L : text → Prop) : Prop := {
  ts_iff : ∀ p q, matches Q p q ↔
    ∃ m, p.2 = m ++ q.2 ∧ q.1 = after p.1 m ∧ L m ∧ wordy p.1 = false ∧
         (right = true → wordy (head q.2) = false);
  ts_plain : ∀ m, L m → plain m;
  ts_length : ∀ m, L m → (20 ≤ length m)%nat;
  ts_head : ∀ m, L m → wordy (head m) = true;
  ts_last : ∀ m, L m → right = true → wordy (last m) = true
}.

(** ** The four patterns have this shape *)

Lemma boundary_left prev c (rest : text) :
  ascii_word c = true → boundary_at ascii_word (prev, c :: rest) = negb (wordy prev).
Proof. intros H. unfold boundary_at, wordy. simpl. rewrite H. by destruct (in_word ascii_word prev). Qed.

Lemma boundary_right c (rest : text) :
  ascii_word c = true → boundary_at ascii_word (Some c, rest) = negb (wordy (head rest)).
Proof.
  intros H. unfold boundary_at, wordy. simpl. rewrite H. by destruct (in_word ascii_word (head rest)).
Qed.

Lemma secret_shape head_re body tail (L K : text → Prop) (right : bool) :
  reads head_re L → reads body K →
  tail = (if right then word_boundary else r_empty) →
  (∀ m, L m → wordy (head m) = true ∧ plain m) →
  (∀ m, K m → plain m ∧ (right = true → wordy (last m) = true)) →
  (∀ x y : text, L x → K y → (20 ≤ length (x ++ y))%nat) →
  token_shape (secret head_re body tail) right (λ m, ∃ x y, m = x ++ y ∧ L x ∧ K y).
Proof.
  intros HL HK -> HL' HK' Hlen.
  assert (Hhead : ∀ x y : text, L x → wordy (head (x ++ y)) = true).
  { intros x y Hx. destruct (HL' x Hx) as [Hh _]. by destruct x. }
  assert (Hlast : ∀ x y : text, K y → right = true → ∃ c, last (x ++ y) = Some c ∧ ascii_word c = true).
  { intros x y Hy Hr. destruct (HK' y Hy) as [_ Hl]. specialize (Hl Hr). rewrite last_app.
    destruct (last y) as [c|]; [by exists c|done]. }
  split.
  - intros [prev t] q. simpl. unfold secret. rewrite matches_seq.
    setoid_rewrite matches_seq. setoid_rewrite matches_seq. split.
    + intros (s & Hb & s1 & (x & E1 & F1 & Hx)%HL & s2 & (y & E2 & F2 & Hy)%HK & Ht).
      apply matches_boundary in Hb as [-> Hb]. simpl in *. subst t.
      assert (Hw : wordy prev = false).
      { specialize (Hhead x s1.2 Hx). destruct (x ++ s1.2) as [|c l]; [done|]. simpl in Hhead.
        rewrite boundary_left in Hb by done. by apply negb_true_iff in Hb. }
      assert (q = s2 ∧ (right = true → wordy (head q.2) = false)) as [-> Hq].
      { destruct right.
        - apply matches_boundary in Ht as [-> Ht]. split; [done|]. intros _.
          destruct (Hlast x y Hy eq_refl) as (c & Ec & Hc).
          assert (s2.1 = Some c) as Es by (rewrite F2, F1, <- after_app; unfold after; by rewrite Ec).
          destruct s2 as [o rest]. cbn [fst snd] in *. rewrite Es, boundary_right in Ht by done.
          by apply negb_true_iff in Ht.
        - inversion Ht; subst. done. }
      exists (x ++ y). rewrite E2, F2, F1, app_assoc, after_app. eauto 10.
    + intros (m & -> & F & (x & y & -> & Hx & Hy) & Hw & Hq). rewrite <- app_assoc.
      exists (prev, x ++ y ++ q.2). split.
      { apply matches_boundary. split; [done|]. specialize (Hhead x (y ++ q.2) Hx).
        destruct (x ++ y ++ q.2) as [|c l]; [done|]. rewrite boundary_left by done. by rewrite Hw. }
      exists (after prev x, y ++ q.2). split; [apply HL; eauto|].
      exists q. rewrite after_app in F. split; [apply HK; eauto|]. destruct right; [|constructor].
      apply matches_boundary. split; [done|]. destruct (Hlast x y Hy eq_refl) as (c & Ec & Hc).
      destruct q as [o rest]. simpl in F, Hq. rewrite <- after_app in F. unfold after in F.
      rewrite Ec in F. rewrite F, boundary_right by done. by rewrite Hq.
  - intros m (x & y & -> & Hx & Hy). apply Forall_app. split; [by apply HL'|by apply HK'].
  - intros m (x & y & -> & Hx & Hy). by apply Hlen.
  - intros m (x & y & -> & Hx & Hy). by apply Hhead.
  - intros m (x & y & -> & Hx & Hy) Hr. destruct (Hlast x y Hy Hr) as (c & -> & Hc). done.
Qed.

(** Classes without brackets. *)
Lemma alnum_plain c : bearer_char c = true → bracket c = false.
Proof.
  unfold bearer_char, alnum, digit_char, upper_char, lower_char, bracket, within.
  intros H. destruct (N.eqb_spec c 60), (N.eqb_spec c 62), (N.eqb_spec c 58); subst; done.
Qed.

Lemma class_plain f (m : text) :
  (∀ c, f c = true → bearer_char c = true) → Forall (λ c, f c = true) m → plain m.
Proof. intros Hf Hm. eapply Forall_impl; [exact Hm|]. intros c Hc. apply alnum_plain, Hf, Hc. Qed.

Lemma alnum_bearer c : alnum c = true → bearer_char c = true.
Proof. unfold bearer_char. by intros ->. Qed.
Lemma upper_digit_alnum c : upper_digit c = true → alnum c = true.
Proof. unfold upper_digit, alnum. by destruct (digit_char c), (upper_char c). Qed.
Lemma alnum_word c : alnum c = true → ascii_word c = true.
Proof. unfold ascii_word. by intros ->. Qed.

Lemma class_last f n (m : text) :
  (∀ c, f c = true → ascii_word c = true) → (0 < n)%nat → (n ≤ length m)%nat →
  Forall (λ c, f c = true) m → wordy (last m) = true.
Proof.
  intros Hf Hn Hl Hm. destruct (last m) as [c|] eqn:E; [|apply last_None in E; subst; simpl in Hl; lia].
  apply last_Some_elem_of in E. rewrite Forall_forall in Hm. simpl. by apply Hf, Hm.
Qed.

Definition long (n : nat) (f : N → bool) (m : text) : Prop :=
  (n ≤ length m)%nat ∧ Forall (λ c, f c = true) m.

Lemma openai_shape : token_shape openai_key true (λ m, ∃ x y, m = x ++ y ∧ x = lit "sk-" ∧ long 20 alnum y).
Proof.
  apply secret_shape; [apply reads_text|apply reads_at_least|done| | |].
  - intros ? ->. split; [done|]. by repeat constructor.
  - intros m [Hl Hm]. split; [by eapply class_plain; [apply alnum_bearer|]|].
    intros _. eapply (class_last alnum 20); eauto using alnum_word. lia.
  - intros ? y -> [Hl _]. rewrite length_app. change (length (lit "sk-")) with 3%nat. lia.
Qed.

Lemma github_shape : token_shape github_token true
  (λ m, ∃ x y, m = x ++ y ∧ (x = lit "ghp_" ∨ x = lit "ghs_") ∧ long 20 alnum y).
Proof.
  apply secret_shape; [|apply reads_at_least|done| | |].
  - eapply reads_weaken;
      [apply reads_seq; [apply reads_text|apply reads_seq; [apply reads_class|apply reads_class]]|].
    intros m. split.
    + intros (x & y & -> & -> & ? & ? & -> & (c & -> & Hc) & c' & -> & Hc').
      apply N.eqb_eq in Hc' as <-. apply orb_true_iff in Hc as [->%N.eqb_eq| ->%N.eqb_eq]; auto.
    + intros Hm. exists (lit "gh"), (drop 2 m). split; [by destruct Hm as [->| ->]|]. split; [done|].
      exists (take 1 (drop 2 m)), (drop 3 m).
      destruct Hm as [->| ->]; repeat split; eexists; repeat split.
  - intros m [->| ->]; (split; [done|]); by repeat constructor.
  - intros m [Hl Hm]. split; [by eapply class_plain; [apply alnum_bearer|]|].
    intros _. eapply (class_last alnum 20); eauto using alnum_word. lia.
  - intros x y Hx [Hl _]. rewrite length_app. destruct Hx as [->| ->];
      match goal with |- context [length (lit ?s)] => change (length (lit s)) with 4%nat end; lia.
Qed.

Lemma aws_shape : token_shape aws_access_key true
  (λ m, ∃ x y, m = x ++ y ∧ x = lit "AKIA" ∧ length y = 16%nat ∧ long 16 upper_digit y).
Proof.
  apply secret_shape; [apply reads_text| |done| | |].
  - eapply reads_weaken; [apply reads_times, reads_empty|]. intros m. unfold long. split.
    + intros (x & y & -> & Hl & Hx & ->). rewrite app_nil_r. repeat split; [done|lia|done].
    + intros (Hl & _ & Hm). exists m, []. by rewrite app_nil_r.
  - intros ? ->. split; [done|]. by repeat constructor.
  - intros m (_ & Hl & Hm).
    split; [eapply class_plain; [|done]; eauto using alnum_bearer, upper_digit_alnum|].
    intros _. eapply (class_last upper_digit 16); eauto using alnum_word, upper_digit_alnum. lia.
  - intros ? y -> [Hl _]. rewrite length_app. change (length (lit "AKIA")) with 4%nat. lia.
Qed.

Lemma bearer_shape : token_shape bearer false
  (λ m, ∃ x y, m = x ++ y ∧ x = lit "Bearer " ∧ long 16 bearer_char y).
Proof.
  apply secret_shape; [apply reads_text|apply reads_at_least|done| | |].
  - intros ? ->. split; [done|]. by repeat constructor.
  - intros m [Hl Hm]. split; [by eapply class_plain|done].
  - intros ? y -> [Hl _]. rewrite length_app. change (length (lit "Bearer ")) with 7%nat. lia.
Qed.

(** ** Masking

[masked P B prev t out]: [out] is [t] with some stretches replaced by the mask [B];
each stretch stands between characters that are not word characters.  Where a
character is kept, either no match of [P] starts, or a mask follows before a secret
could end. *)

(** Stretches of a mask between brackets are shorter than any secret. *)
Definition short_runs (B : text) : Prop :=
  ∀ x m y, B = x ++ m ++ y → plain m → (length m < 20)%nat.

Inductive masked (P : regex) (B : text) : option N → text → text → Prop :=
| mk_nil prev : masked P B prev [] []
| mk_keep prev c t out :
    (ends P (prev, c :: t) = [] ∨
     ∃ k rest, (length k < 20)%nat ∧ c :: out = k ++ 60 :: rest) →
    masked P B (Some c) t out → masked P B prev (c :: t) (c :: out)
| mk_mask prev s t out :
    wordy prev = false → wordy (head t) = false →
    masked P B (after prev s) t out → masked P B prev (s ++ t) (B ++ out).

(** A plain prefix that fits before the next mask was there already. *)
Lemma masked_prefix P B prev t out m b :
  masked P B prev t out → head B = Some 60 → plain m → out = m ++ b →
  ∃ b', t = m ++ b' ∧ (head b' = head b ∨ wordy (after prev m) = false).
Proof.
  intros Hk HB. revert m. induction Hk as [prev|prev c t out _ Hk IH|prev s t out Hl Hr Hk IH];
    intros m Hm E.
  - symmetry in E. apply app_nil in E as [-> ->]. exists []. auto.
  - destruct m as [|c' m]; simplify_eq/=.
    + exists (c :: t). auto.
    + apply Forall_cons in Hm as [Hc Hm]. destruct (IH m Hm eq_refl) as (b' & -> & Hb).
      exists b'. by rewrite after_cons.
  - destruct B as [|c0 B]; simplify_eq/=. destruct m as [|c' m]; simplify_eq/=.
    + exists (s ++ t). auto.
    + by apply Forall_cons in Hm as [? _].
Qed.

(** A plain text of twenty characters lies before or after a mask, never across. *)
Lemma across_mask (B out a m b : text) :
  last B = Some 62 → short_runs B → plain m → (20 ≤ length m)%nat →
  B ++ out = a ++ m ++ b → ∃ a', a = B ++ a' ∧ out = a' ++ m ++ b.
Proof.
  intros HB Hs Hm Hl E. apply app_eq_inv in E as [(k & -> & E)|(k & -> & E)]; [|eauto].
  apply app_eq_inv in E as [(j & -> & E)|(j & -> & E)].
  - destruct k as [|c k _] using rev_ind; [exists []; by rewrite !app_nil_r|].
    exfalso. rewrite app_assoc, last_snoc in HB. injection HB as ->.
    apply Forall_app in Hm as [[_ Hc]%Forall_app _]. by apply Forall_cons in Hc as [? _].
  - exfalso. specialize (Hs a m j eq_refl Hm). lia.
Qed.

(** A secret in the masked text was in the original, at a kept place. *)
Lemma masked_transfer P B Q right L prev pv t out a m b :
  token_shape Q right L → head B = Some 60 → last B = Some 62 → short_runs B →
  masked P B prev t out → (prev = pv ∨ wordy (head t) = false) →
  out = a ++ m ++ b → L m → wordy (after pv a) = false →
  (right = true → wordy (head b) = false) →
  ∃ a' b', t = a' ++ m ++ b' ∧ wordy (after prev a') = false ∧
           (right = true → wordy (head b') = false) ∧ ends P (after prev a', m ++ b') = [].
Proof.
  intros HQ HB HB' Hs Hk. revert pv a.
  induction Hk as [prev|prev c t out Hend Hk IH|prev s t out Hl Hr Hk IH]; intros pv a Hpv E Hm Hw Hrt.
  - symmetry in E. apply app_nil in E as [_ E]. apply app_nil in E as [-> _].
    apply (ts_length _ _ _ HQ) in Hm. simpl in Hm. lia.
  - pose proof (ts_length _ _ _ HQ m Hm) as Hlen. pose proof (ts_plain _ _ _ HQ m Hm) as Hpl.
    pose proof (ts_head _ _ _ HQ m Hm) as Hh.
    destruct a as [|c' a]; simplify_eq/=.
    + destruct (masked_prefix P B prev (c :: t) (c :: out) m b) as (b' & Et & Hb);
        [by constructor|done|done|done|].
      assert (prev = pv) as ->.
      { destruct Hpv as [?|Hc]; [done|]. destruct m as [|c1 m]; [done|].
        injection Et as <- _. simpl in Hh, Hc. congruence. }
      exists [], b'. split; [done|]. split; [done|]. split.
      * intros Hrr. destruct Hb as [->|Hb]; [auto|].
        pose proof (ts_last _ _ _ HQ m Hm Hrr) as Hlast. unfold after in Hb.
        destruct (last m); by rewrite ?Hb in Hlast.
      * rewrite <- Et. destruct Hend as [?|(k & rest & Hk' & Ek)]; [done|]. exfalso.
        rewrite E in Ek. apply app_eq_inv in Ek as [(j & -> & Ej)|(j & -> & Ej)].
        -- rewrite length_app in Hlen. destruct j as [|c1 j]; [simpl in Hlen; lia|].
           simplify_eq/=. apply Forall_app in Hpl as [_ Hpl]. by apply Forall_cons in Hpl as [? _].
        -- rewrite length_app in Hk'. lia.
    + rewrite after_cons in Hw. destruct (IH (Some c') a) as (a' & b' & -> & Hw' & Hr' & He); auto.
      exists (c' :: a'), b'. rewrite !after_cons. auto.
  - destruct (across_mask B out a m b) as (a0 & -> & ->);
      [done|done|by apply (ts_plain _ _ _ HQ)|by apply (ts_length _ _ _ HQ)|done|].
    destruct (IH (Some 62) a0) as (a' & b' & -> & Hw' & Hr' & He); auto.
    { rewrite after_app in Hw. unfold after at 2 in Hw. by rewrite HB' in Hw. }
    exists (s ++ a'), b'. rewrite after_app, <- app_assoc. auto.
Qed.

(** Texts without a secret of [Q] are the ones [search] rejects. *)
Definition free (Q : regex) (t : text) : Prop := re_search Q t = false.

Lemma free_iff Q t : free Q t ↔ ∀ a b q, t = a ++ b → ¬ matches Q (last a, b) q.
Proof.
  unfold free. rewrite <- not_true_iff_false, re_search_spec. split.
  - intros H a b q -> Hm. apply H. eauto.
  - intros H (a & b & q & -> & Hm). by eapply H.
Qed.

Lemma after_None (a : text) : after None a = last a.
Proof. unfold after. by destruct (last a). Qed.

Section Mask.
Context (P : regex) (B : text) (t out : text).
Hypothesis Hopen : head B = Some 60.
Hypothesis Hclose : last B = Some 62.
Hypothesis Hruns : short_runs B.
Hypothesis Hmasked : masked P B None t out.

(** Any secret of the masked text sits in the original where no match of the masked
    pattern starts. *)
Lemma masked_secret Q right L a b q :
  token_shape Q right L → out = a ++ b → matches Q (last a, b) q →
  ∃ a' b' q', t = a' ++ b' ∧ matches Q (last a', b') q' ∧ ends P (last a', b') = [].
Proof.
  intros HQ -> (m & E & _ & Hm & Hw & Hr)%(ts_iff _ _ _ HQ). simpl in *. subst b.
  destruct (masked_transfer P B Q right L None None t (a ++ m ++ q.2) a m q.2)
    as (a' & b' & -> & Hw' & Hr' & He); auto; [by rewrite after_None|].
  rewrite after_None in *. exists a', (m ++ b'), (after (last a') m, b').
  split; [done|]. split; [|done]. apply (ts_iff _ _ _ HQ). eauto 10.
Qed.

Lemma masked_removes right L : token_shape P right L → free P out.
Proof.
  intros HP. apply free_iff. intros a b q E Hm.
  destruct (masked_secret P right L a b q HP E Hm) as (a' & b' & q' & _ & Hm' & He).
  rewrite ends_nil in He. by apply (He q').
Qed.

Lemma masked_keeps_free Q right L : token_shape Q right L → free Q t → free Q out.
Proof.
  intros HQ Hf. apply free_iff. intros a b q E Hm. rewrite free_iff in Hf.
  destruct (masked_secret Q right L a b q HQ E Hm) as (a' & b' & q' & -> & Hm' & _).
  by apply (Hf a' b' q').
Qed.
End Mask.

(** ** [sub] masks *)

(** The mask replaces the end of a match; what is kept before it is short. *)
Record mask_shape (P : regex) (repl B : text) : Prop := {
  ms_keep : ∀ p q, head (ends P p) = Some q →
    ∃ k s, p.2 = k ++ s ++ q.2 ∧ s ≠ [] ∧ repl = k ++ B ∧ q.1 = after p.1 (k ++ s) ∧
           (length k < 20)%nat ∧ wordy (after p.1 k) = false ∧ wordy (head q.2) = false;
  ms_open : head B = Some 60;
  ms_close : last B = Some 62;
  ms_runs : short_runs B
}.

Lemma masked_kept P B prev k s t out :
  head B = Some 60 → (length k < 20)%nat →
  masked P B (after prev k) (s ++ t) (B ++ out) →
  masked P B prev (k ++ s ++ t) (k ++ B ++ out).
Proof.
  intros HB. destruct B as [|c0 B]; simplify_eq/=. revert prev.
  induction k as [|c k IH]; intros prev Hk Hm; [done|]. simpl in *. constructor.
  - right. exists (c :: k), (B ++ out). split; [simpl; lia|done].
  - apply IH; [lia|]. by rewrite <- (after_cons prev).
Qed.

Lemma sub_from_masked P repl B n p :
  mask_shape P repl B → (length p.2 ≤ n)%nat →
  masked P B p.1 p.2 (sub_from n P (λ _, repl) p).
Proof.
  intros HP. revert p. induction n as [|n IH]; intros [prev t] Hn; simpl in *.
  { destruct t; [constructor|simpl in Hn; lia]. }
  destruct t as [|c t]; [constructor|]. simpl in Hn.
  assert (Hkeep : ends P (prev, c :: t) = [] →
    masked P B prev (c :: t) (c :: sub_from n P (λ _, repl) (Some c, t))).
  { intros E. constructor; [by left|]. apply (IH (Some c, t)). simpl. lia. }
  destruct (head (ends P (prev, c :: t))) as [q|] eqn:E;
    [|apply Hkeep; by destruct (ends P (prev, c :: t))].
  destruct (ms_keep _ _ _ HP _ _ E) as (k & s & Et & Hs & -> & Eq & Hk & Hw & Hr).
  simpl in Et. rewrite Et.
  assert (Hlt : (length q.2 < length (k ++ s ++ q.2))%nat).
  { rewrite !length_app. destruct s; [done|simpl; lia]. }
  rewrite (proj2 (Nat.ltb_lt _ _) Hlt), <- app_assoc.
  apply masked_kept; [by apply (ms_open _ _ _ HP)|done|]. constructor; [done|done|].
  rewrite <- after_app. simpl in Eq. rewrite <- Eq. apply IH.
  rewrite <- Et in Hlt. apply Nat.lt_succ_r. by eapply Nat.lt_le_trans.
Qed.

(** For the patterns bounded on the right the whole match is masked. *)
Lemma bounded_mask P L B :
  token_shape P true L → head B = Some 60 → last B = Some 62 → short_runs B → mask_shape P B B.
Proof.
  intros HP H1 H2 H3. split; [|done..]. intros p q E.
  assert (Hm : matches P p q).
  { apply ends_spec. destruct (ends P p); simplify_eq/=. by left. }
  apply (ts_iff _ _ _ HP) in Hm as (m & Ep & Eq & Hm & Hw & Hr).
  exists [], m. split; [done|]. split.
  { intros ->. apply (ts_length _ _ _ HP) in Hm. simpl in Hm. lia. }
  repeat split; [done|simpl; lia|done|auto].
Qed.

Lemma bearer_char_word c : bearer_char c = false → ascii_word c = false.
Proof. unfold bearer_char, ascii_word. intros H. bool_simp. by destruct (alnum c), (c =? 95). Qed.

Lemma bearer_mask B :
  head B = Some 60 → last B = Some 62 → short_runs B →
  mask_shape bearer (lit "Bearer " ++ B) B.
Proof.
  intros H1 H2 H3. split; [|done..]. intros p q E.
  assert (Hm : matches bearer p q).
  { apply ends_spec. destruct (ends bearer p); simplify_eq/=. by left. }
  apply (ts_iff _ _ _ bearer_shape) in Hm as (m & Ep & Eq & (x & y & -> & -> & [Hl Hy]) & Hw & _).
  exists (lit "Bearer "), y. rewrite <- app_assoc in Ep. split; [done|]. split.
  { intros ->. simpl in Hl. lia. }
  split; [done|]. split; [done|]. split; [vm_compute; lia|]. split; [done|].
  (* the greedy repetition stopped at a character outside its class *)
  destruct p as [prev t]. simpl in Ep, Hw. subst t.
  assert (Hb : ends word_boundary (prev, lit "Bearer " ++ y ++ q.2) = [(prev, lit "Bearer " ++ y ++ q.2)]).
  { simpl. rewrite boundary_left by done. by rewrite Hw. }
  unfold bearer, secret in E. rewrite (ends_seq_det _ _ _ _ Hb) in E.
  rewrite (ends_seq_det _ _ _ _ (ends_text (lit "Bearer ") prev (y ++ q.2))) in E.
  rewrite ends_seq_empty in E. apply at_least_head in E. destruct (head q.2) as [c|]; [|done].
  simpl. by apply bearer_char_word.
Qed.

(** ** Properties *)

Fixpoint plain_prefix (t : text) : nat :=
  match t with [] => 0%nat | c :: r => if bracket c then 0%nat else S (plain_prefix r) end.
Fixpoint runs_ok (t : text) : bool :=
  (plain_prefix t <? 20)%nat && match t with [] => true | _ :: r => runs_ok r end.

Lemma plain_prefix_app m y : plain m → (length m ≤ plain_prefix (m ++ y))%nat.
Proof. induction 1 as [|c m Hc Hm IH]; simpl; [lia|]. rewrite Hc. lia. Qed.

Lemma runs_ok_prefix t : runs_ok t = true → (plain_prefix t < 20)%nat.
Proof. destruct t; intros H; apply andb_true_iff in H as [H _]; by apply Nat.ltb_lt in H. Qed.

Lemma runs_ok_short B : runs_ok B = true → short_runs B.
Proof.
  intros HB x m y -> Hm. induction x as [|c x IH].
  - apply (plain_prefix_app m y) in Hm. apply runs_ok_prefix in HB. simpl in HB. lia.
  - cbn [app runs_ok] in HB. apply andb_true_iff in HB as [_ HB]. by apply IH.
Qed.

Definition secret_patterns : list regex := UNANCHORED_PATTERNS.*1.
Definition clean (t : text) : Prop := Forall (λ Q, free Q t) secret_patterns.

(** Masking with any of the four masks adds no secret of any kind. *)
Lemma masked_keeps_clean P B t out Q :
  head B = Some 60 → last B = Some 62 → runs_ok B = true → masked P B None t out →
  Q ∈ secret_patterns → free Q t → free Q out.
Proof.
  intros H1 H2 H3%runs_ok_short Hm HQ. unfold secret_patterns in HQ. simpl in HQ.
  rewrite !elem_of_cons in HQ. destruct HQ as [->|[->|[->|[->|HQ]]]].
  - by eapply masked_keeps_free, openai_shape.
  - by eapply masked_keeps_free, github_shape.
  - by eapply masked_keeps_free, aws_shape.
  - by eapply masked_keeps_free, bearer_shape.
  - by apply not_elem_of_nil in HQ.
Qed.

Lemma sub_removes P repl B right L t :
  mask_shape P repl B → token_shape P right L → free P (re_sub P (λ _, repl) t).
Proof.
  intros HM HP. eapply (masked_removes P B t); [apply HM..| |exact HP].
  by apply (sub_from_masked P repl B (length t) (None, t)).
Qed.

Lemma sub_keeps P repl B t Q :
  mask_shape P repl B → runs_ok B = true → Q ∈ secret_patterns → free Q t →
  free Q (re_sub P (λ _, repl) t).
Proof.
  intros HM HB. eapply (masked_keeps_clean P B t); [apply HM|apply HM|done|].
  by apply (sub_from_masked P repl B (length t) (None, t)).
Qed.

Definition mask_of (name : string) : text := lit ("<redacted:" +:+ name +:+ ">").

Lemma openai_mask : mask_shape openai_key (mask_of "openai-key") (mask_of "openai-key").
Proof. eapply bounded_mask; [apply openai_shape|done|done|by apply runs_ok_short]. Qed.
Lemma github_mask : mask_shape github_token (mask_of "github-token") (mask_of "github-token").
Proof. eapply bounded_mask; [apply github_shape|done|done|by apply runs_ok_short]. Qed.
Lemma aws_mask : mask_shape aws_access_key (mask_of "aws-access-key") (mask_of "aws-access-key").
Proof. eapply bounded_mask; [apply aws_shape|done|done|by apply runs_ok_short]. Qed.
Lemma bearer_mask' : mask_shape bearer (lit "Bearer <redacted:bearer>") (mask_of "bearer").
Proof. apply (bearer_mask (mask_of "bearer")); [done|done|by apply runs_ok_short]. Qed.

Ltac listed := first [by apply (list_elem_of_lookup_2 _ 0)|by apply (list_elem_of_lookup_2 _ 1)
                     |by apply (list_elem_of_lookup_2 _ 2)].

Lemma substituted_clean t :
  clean (foldl (λ out pr, re_sub pr.1 (λ _, pr.2) out) t UNANCHORED_PATTERNS).
Proof.
  simpl. repeat (apply Forall_cons_2); [..|constructor].
  - eapply sub_keeps; [apply bearer_mask'|done|listed|].
    eapply sub_keeps; [apply aws_mask|done|listed|].
    eapply sub_keeps; [apply github_mask|done|listed|].
    eapply sub_removes; [apply openai_mask|apply openai_shape].
  - eapply sub_keeps; [apply bearer_mask'|done|listed|].
    eapply sub_keeps; [apply aws_mask|done|listed|].
    eapply sub_removes; [apply github_mask|apply github_shape].
  - eapply sub_keeps; [apply bearer_mask'|done|listed|].
    eapply sub_removes; [apply aws_mask|apply aws_shape].
  - eapply sub_removes; [apply bearer_mask'|apply bearer_shape].
Qed.

(** ** The anchored steps *)

Lemma reads_plus f : reads (r_plus (r_class f)) (long 1 f).
Proof.
  unfold r_plus. eapply reads_weaken; [apply reads_seq; [apply reads_class|apply reads_star]|].
  intros m. unfold long. split.
  - intros (x & y & -> & (c & -> & Hc) & Hy). split; [simpl; lia|by constructor].
  - intros [Hl Hm]. destruct Hm as [|c m Hc Hm]; [simpl in Hl; lia|].
    exists [c], m. split; [done|]. split; [by exists c|done].
Qed.

Definition is_name (m : text) : Prop := Forall (λ c, env_char c = true) m.

Lemma env_name_reads : ∃ L, reads env_name L ∧ ∀ m, L m → is_name m.
Proof.
  eexists. split.
  - unfold env_name. cbn [r_seqs r_alts foldr foldl]. unfold r_opt, r_lit.
    repeat first [apply reads_text|apply reads_class|apply reads_star|apply reads_empty
                 |apply reads_alt|apply reads_seq].
  - intros m (x & y & -> & (c & -> & Hc) & a & b & -> & Ha & d & e & -> & Hd & ->).
    unfold is_name. rewrite app_nil_r. simpl. constructor.
    { unfold env_start in Hc. unfold env_char. by destruct (upper_char c), (digit_char c). }
    apply Forall_app_2; [done|].
    assert (Hl : ∀ s, forallb env_char (lit s) = true → is_name (lit s)).
    { intros s Hs. apply Forall_forall. intros c' Hc'. rewrite forallb_forall in Hs.
      apply Hs. by apply list_elem_of_In. }
    destruct Hd as [[[[Hd| ->]| ->]| ->]| ->]; [|by apply Hl..].
    destruct Hd as (x1 & y1 & -> & -> & x2 & y2 & -> & Hx2 & x3 & y3 & -> & -> & ->).
    rewrite app_nil_r. apply Forall_app_2; [by apply Hl|]. apply Forall_app_2; [|by apply Hl].
    destruct Hx2 as [(c' & -> & Hc')| ->]; [|constructor].
    apply N.eqb_eq in Hc' as <-. by repeat constructor.
Qed.

Lemma env_char_not_equals c : env_char c = true → (c =? 61) = false.
Proof.
  unfold env_char, upper_char, digit_char, within.
  intros H. destruct (N.eqb_spec c 61) as [->|]; [by vm_compute in H|done].
Qed.

Lemma before_equals_name n v : is_name n → before_equals (n ++ 61 :: v) = n.
Proof.
  induction 1 as [|c n Hc Hn IH]; [done|]. simpl. rewrite (env_char_not_equals c Hc). by rewrite IH.
Qed.

(** The lines the environment rule takes: a name, an equals sign and a value. *)
Lemma env_match :
  ∃ L, (∀ n, L n → is_name n) ∧
  ∀ t, re_fullmatch ENV_PATTERN t = true ↔ ∃ n v, t = n ++ 61 :: v ∧ L n ∧ long 1 any_char v.
Proof.
  destruct env_name_reads as (L & HL & Hn). exists L. split; [done|]. intros t. unfold ENV_PATTERN.
  rewrite fullmatch_anchored.
  2:{ cbn [r_seqs foldr]. apply reads_seq; [exact HL|]. apply reads_seq; [apply reads_class|].
      apply reads_seq; [apply reads_plus|apply reads_empty]. }
  split.
  - intros (n & r & -> & Hn' & e & w & -> & (c & -> & <-%N.eqb_eq) & v & z & -> & Hv & ->).
    exists n, v. by rewrite app_nil_r.
  - intros (n & v & -> & Hn' & Hv). exists n, (61 :: v). split; [done|]. split; [done|].
    exists [61], v. split; [done|]. split; [by exists 61|]. exists v, []. by rewrite app_nil_r.
Qed.

Lemma redact_env_masked t :
  redact_env t = t ∨ masked (r_class (λ _, false)) (mask_of "env-secret") None t (redact_env t).
Proof.
  unfold redact_env. destruct (re_fullmatch ENV_PATTERN t) eqn:E; [right|by left].
  destruct env_match as (L & HL & Hm). apply Hm in E. destruct E as (n & v & Et & Hn & Hv).
  subst t.
  rewrite before_equals_name by eauto. clear Hn Hv Hm HL.
  change (lit "=<redacted:env-secret>") with (61 :: mask_of "env-secret").
  assert (Hk : ∀ o, masked (r_class (λ _, false)) (mask_of "env-secret") o
    (61 :: v) (61 :: mask_of "env-secret")).
  { intros o. constructor; [by left|]. rewrite <- (app_nil_r v), <- (app_nil_r (mask_of _)).
    constructor; [done|done|constructor]. }
  generalize (None : option N). induction n as [|c n IH]; intros o; [apply Hk|].
  constructor; [by left|apply IH].
Qed.

Lemma redact_env_clean t : clean t → clean (redact_env t).
Proof.
  intros Ht. destruct (redact_env_masked t) as [->|Hm]; [done|].
  apply Forall_forall. intros Q HQ. eapply masked_keeps_clean; [..|exact Hm|done|]; [done..|].
  by eapply Forall_forall in Ht.
Qed.

Lemma redact_jwt_cases t : redact_jwt t = t ∨ redact_jwt t = mask_of "jwt".
Proof. unfold redact_jwt. destruct (re_fullmatch _ _); [destruct (_ <? _)%nat|]; auto. Qed.

Lemma redact_jwt_clean t : clean t → clean (redact_jwt t).
Proof.
  intros Ht. destruct (redact_jwt_cases t) as [->| ->]; [done|].
  repeat constructor; vm_compute; reflexivity.
Qed.

Lemma redact_one_line_clean t : clean (redact_one_line t).
Proof. apply redact_env_clean, redact_jwt_clean, substituted_clean. Qed.

(** ** Redacting again changes nothing *)

Lemma substituted_id t :
  clean t → foldl (λ out pr, re_sub pr.1 (λ _, pr.2) out) t UNANCHORED_PATTERNS = t.
Proof.
  unfold clean, secret_patterns. induction UNANCHORED_PATTERNS as [|pr l IH]; simpl; [done|].
  intros [H1 H2]%Forall_cons. rewrite re_sub_free by done. by apply IH.
Qed.

Lemma redact_env_idem t : redact_env (redact_env t) = redact_env t.
Proof.
  unfold redact_env at 2 3. destruct (re_fullmatch ENV_PATTERN t) eqn:E; [|unfold redact_env; by rewrite E].
  destruct env_match as (L & HL & Hm). apply Hm in E. destruct E as (n & v & Et & Hn & Hv).
  subst t.
  rewrite before_equals_name by eauto.
  change (lit "=<redacted:env-secret>") with (61 :: mask_of "env-secret").
  unfold redact_env. assert (re_fullmatch ENV_PATTERN (n ++ 61 :: mask_of "env-secret") = true) as ->.
  { apply Hm. exists n, (mask_of "env-secret"). split; [done|]. split; [done|].
    split; [vm_compute; lia|]. by repeat constructor. }
  by rewrite before_equals_name by eauto.
Qed.

Lemma jwt_chars t : re_fullmatch JWT_PATTERN t = true → ¬ 60 ∈ t.
Proof.
  unfold JWT_PATTERN. rewrite fullmatch_anchored.
  2:{ unfold jwt_body. cbn [r_seqs foldr].
      repeat first [apply reads_plus|apply reads_class|apply reads_empty|apply reads_seq]. }
  assert (Hp : ∀ m, long 1 jwt_char m → ¬ 60 ∈ m).
  { intros m [_ Hm] Hin. eapply Forall_forall in Hm; [|done]. by vm_compute in Hm. }
  assert (Hd : ∀ c, (46 =? c) = true → ¬ 60 ∈ [c]).
  { intros c <-%N.eqb_eq Hin%list_elem_of_singleton. done. }
  intros (a & r & -> & Ha & b & s & -> & (d & -> & Hd1) & e & u & -> & He & f & g & -> &
          (d' & -> & Hd2) & h & i & -> & Hh & ->).
  rewrite !elem_of_app. intros [H|[H|[H|[H|[H|H]]]]].
  - by apply (Hp a).
  - by apply (Hd d).
  - by apply (Hp e).
  - by apply (Hd d').
  - by apply (Hp h).
  - by apply not_elem_of_nil in H.
Qed.

Lemma redact_jwt_idem t : redact_jwt (redact_jwt t) = redact_jwt t.
Proof. destruct (redact_jwt_cases t) as [E| ->]; [by rewrite E|by vm_compute]. Qed.

Lemma redact_jwt_env t : redact_jwt t = t → redact_jwt (redact_env t) = redact_env t.
Proof.
  intros Ht. unfold redact_env. destruct (re_fullmatch ENV_PATTERN t); [|done].
  unfold redact_jwt. destruct (re_fullmatch JWT_PATTERN _) eqn:E; [|done].
  exfalso. apply (jwt_chars _ E). apply elem_of_app. right. vm_compute. by repeat constructor.
Qed.

(** C28: redaction is complete and stable.  Whatever the line, the redacted line holds
    no OpenAI key, GitHub token, AWS access key or bearer token in the sense of the
    patterns, and redacting it again changes nothing: nothing the patterns describe is
    uncovered or created by replacing something else. *)
Theorem redaction_complete line :
  (∀ P repl, (P, repl) ∈ UNANCHORED_PATTERNS → re_search P (redact_one_line line) = false) ∧
  redact_one_line (redact_one_line line) = redact_one_line line.
Proof.
  pose proof (redact_one_line_clean line) as Hc. split.
  - intros P repl HP. eapply Forall_forall in Hc; [exact Hc|].
    apply list_elem_of_fmap. by exists (P, repl).
  - unfold redact_one_line at 1. rewrite (substituted_id _ Hc). unfold redact_one_line.
    rewrite redact_jwt_env by apply redact_jwt_idem. apply redact_env_idem.
Qed.
