(* ===== verification/Classifier.v ===== *)
(** The event classifier (src/src/agenttower/events/classifier.py and
    events/classifier_rules.py): escape sequences are stripped from the redacted
    record, the first rule in priority order gives the event type, and the excerpt
    is cut to a number of UTF-8 bytes.

    [unicode_word] and [unicode_digit] say which characters beyond ASCII [\w] and
    [\d] match; the class of [\s] is [is_space]. *)

From S2P Require Import Prelude Errors Utf8 Envelope Regex Redaction.
From Stdlib Require Import Ascii.

Local Open Scope N_scope.

(** ** Lenient decoding

[bytes.decode("utf-8", errors=...)]: [bad] is what an undecodable stretch becomes,
the replacement character or nothing.  A stretch is a start byte with the
continuation bytes that could follow it. *)

Fixpoint decode_lenient (bad : text) (s : string) : text :=
  match s with
  | EmptyString => []
  | String c1 s1 =>
      let b1 := code c1 in
      if b1 <? 0x80 then b1 :: decode_lenient bad s1
      else if within 0xC2 0xDF b1 then
        match s1 with
        | String c2 s2 =>
            if cont (code c2)
            then (b1 - 0xC0) * 64 + (code c2 - 0x80) :: decode_lenient bad s2
            else bad ++ decode_lenient bad s1
        | EmptyString => bad
        end
      else if within 0xE0 0xEF b1 then
        match s1 with
        | String c2 s2 =>
            if second_ok b1 (code c2)
            then match s2 with
                 | String c3 s3 =>
                     if cont (code c3)
                     then ((b1 - 0xE0) * 64 + (code c2 - 0x80)) * 64 + (code c3 - 0x80)
                          :: decode_lenient bad s3
                     else bad ++ decode_lenient bad s2
                 | EmptyString => bad
                 end
            else bad ++ decode_lenient bad s1
        | EmptyString => bad
        end
      else if within 0xF0 0xF4 b1 then
        match s1 with
        | String c2 s2 =>
            if second_ok b1 (code c2)
            then match s2 with
                 | String c3 s3 =>
                     if cont (code c3)
                     then match s3 with
                          | String c4 s4 =>
                              if cont (code c4)
                              then (((b1 - 0xF0) * 64 + (code c2 - 0x80)) * 64 +
                                    (code c3 - 0x80)) * 64 + (code c4 - 0x80)
                                   :: decode_lenient bad s4
                              else bad ++ decode_lenient bad s3
                          | EmptyString => bad
                          end
                     else bad ++ decode_lenient bad s2
                 | EmptyString => bad
                 end
            else bad ++ decode_lenient bad s1
        | EmptyString => bad
        end
      else bad ++ decode_lenient bad s1
  end.

Definition decode_replace : string → text := decode_lenient [0xFFFD].
Definition decode_ignore : string → text := decode_lenient [].

(** ** Escape sequences *)

Definition ESC : N := 0x1b.
Definition letter_char (c : N) : bool := upper_char c || lower_char c.
Definition csi_param (c : N) : bool :=
  digit_char c || (c =? 59) || (c =? 58) || (c =? 63) || (c =? 60) || (c =? 62) || (c =? 61).
Definition osc_body (c : N) : bool := negb (c =? 7) && negb (c =? ESC).

Definition ANSI_ESCAPE_RE : regex :=
  r_alts
    (r_seqs [r_char ESC; r_char 91; r_star (r_class csi_param); r_class letter_char])
    [r_seqs [r_char ESC; r_char 93; r_star (r_class osc_body);
             r_alt (r_char 7) (r_seqs [r_char ESC; r_char 92])];
     r_seqs [r_char ESC; r_class (within 0x20 0x2f); r_class (within 0x30 0x7e)];
     r_seqs [r_char ESC; r_class letter_char]].

Definition strip_ansi (t : text) : text :=
  if bool_decide (t = []) || negb (bool_decide (ESC ∈ t)) then t
  else re_sub ANSI_ESCAPE_RE (λ _, []) t.

(** ** Excerpts *)

Definition PER_EVENT_EXCERPT_CAP_BYTES : Z := 1024.
Definition EXCERPT_TRUNCATION_MARKER : text := 0x2026 :: lit "[truncated]".

Definition bytes_of (t : text) : string := encode t.

Definition truncate_excerpt (redacted_record : text) (cap_bytes : Z) (marker : text)
  : outcome text :=
  if (cap_bytes <=? 0)%Z then Raise (PyError "ValueError")
  else
    let cap := Z.to_nat cap_bytes in
    let encoded := bytes_of redacted_record in
    if (String.length encoded <=? cap)%nat then Ok redacted_record
    else
      let marker_bytes := bytes_of marker in
      if (cap <=? String.length marker_bytes)%nat
      then Ok (decode_ignore (String.substring 0 cap marker_bytes))
      else
        let available := (cap - String.length marker_bytes)%nat in
        Ok (decode_ignore (String.substring 0 available encoded) ++ marker).

(** ** The rule catalogue *)

Definition EVENT_TYPES : list string :=
  ["activity"; "waiting_for_input"; "completed"; "error"; "test_failed"; "test_passed";
   "manual_review_needed"; "long_running"; "pane_exited"; "swarm_member_reported"].
Definition SYNTHESIZED_TYPES : list string := ["pane_exited"; "long_running"].

Record ClassifierRule := mkRule {
  rule_id : string; rule_event_type : string; matcher : regex; priority : nat
}.

Definition by_priority (r1 r2 : ClassifierRule) : Prop := (priority r1 ≤ priority r2)%nat.
#[export] Instance by_priority_dec r1 r2 : Decision (by_priority r1 r2).
Proof. unfold by_priority. apply _. Defined.
#[export] Instance by_priority_total : Total by_priority.
Proof. intros r1 r2. unfold by_priority. lia. Qed.
#[export] Instance by_priority_trans : Transitive by_priority.
Proof. intros r1 r2 r3. unfold by_priority. lia. Qed.

Record ClassifierOutcome := mkOutcome {
  oc_event_type : string; oc_rule_id : string; oc_excerpt : text; oc_redacted_record : text
}.

(** [c] under [re.IGNORECASE], which matches four letters beyond ASCII. *)
Definition same_letter (c x : N) : bool :=
  (c =? x) || (letter_char c && ((c + 32 =? x) || (x + 32 =? c)) && letter_char x) ||
  (((c =? 105) || (c =? 73)) && ((x =? 0x130) || (x =? 0x131))) ||
  (((c =? 115) || (c =? 83)) && (x =? 0x17f)) ||
  (((c =? 107) || (c =? 75)) && (x =? 0x212a)).
Definition r_nocase (s : string) : regex := r_seqs ((λ c, r_class (same_letter c)) <$> lit s).

(** [\S] under [re.ASCII] *)
Definition ascii_nonspace (c : N) : bool := negb (within 9 13 c || (c =? 32)).

Definition hex_lower_char (c : N) : bool := digit_char c || within 97 102 c.

Definition SWARM_MEMBER_RE : regex :=
  r_seqs [r_begin; r_lit "AGENTTOWER_SWARM_MEMBER parent=agt_";
          r_times 12 (r_class hex_lower_char) r_empty;
          r_lit " pane=%"; r_plus (r_class digit_char);
          r_lit " label="; r_plus (r_class ascii_nonspace);
          r_lit " capability="; r_plus (r_class ascii_nonspace);
          r_lit " purpose="; r_seq (r_class any_char) (r_upto 255 (r_class any_char)); r_end].

Section Rules.
Variables unicode_word unicode_digit : N → bool.

Definition word_char (c : N) : bool := if c <? 128 then ascii_word c else unicode_word c.
Definition decimal_char (c : N) : bool := if c <? 128 then digit_char c else unicode_digit c.
Definition wb : regex := r_boundary word_char.
Definition spaces : regex := r_star (r_class is_space).
Definition nonspaces : regex := r_plus (r_class (λ c, negb (is_space c))).
Definition start_or_space : regex := r_alt r_begin (r_class is_space).
Definition dash_or_underscore : regex := r_class (λ c, (c =? 95) || (c =? 45)).
Definition anything : regex := r_star (r_class any_char).

(** [_RULES_UNORDERED] *)
Definition RULES_UNORDERED : list ClassifierRule :=
  [mkRule "swarm_member.v1" "swarm_member_reported" SWARM_MEMBER_RE 10;
   mkRule "manual_review.v1" "manual_review_needed"
     (r_seqs [start_or_space;
        r_alt (r_seqs [r_alt (r_seqs [r_lit "MANUAL"; dash_or_underscore; r_lit "REVIEW"])
                             (r_seqs [r_lit "REVIEW"; dash_or_underscore; r_lit "REQUIRED"]); wb])
              (r_lit "TODO(human)")]) 20;
   mkRule "error.traceback.v1" "error"
     (r_seqs [r_begin; r_lit "Traceback (most recent call last):"]) 30;
   mkRule "error.line.v1" "error"
     (r_seqs [r_begin; r_alts (r_lit "Error") [r_lit "ERROR"; r_lit "Exception"];
              r_class (λ c, (c =? 58) || (c =? 32))]) 31;
   mkRule "test_failed.pytest.v1" "test_failed"
     (r_seqs [r_begin; r_alt (r_lit "FAILED") (r_lit "ERROR"); r_char 32;
              nonspaces; r_lit "::"; nonspaces]) 40;
   mkRule "test_failed.generic.v1" "test_failed"
     (r_seqs [wb; r_alts (r_lit "test failed") [r_lit "tests failed"; r_lit "FAIL"]; wb]) 41;
   mkRule "test_passed.pytest.v1" "test_passed"
     (r_seqs [r_begin; r_plus (r_char 61); r_char 32; r_plus (r_class decimal_char);
              r_lit " passed";
              r_opt (r_seqs [r_lit " in "; r_plus (r_class (λ c, decimal_char c || (c =? 46)));
                             r_char 115]);
              r_char 32; r_plus (r_char 61); r_end]) 50;
   mkRule "test_passed.generic.v1" "test_passed"
     (r_seqs [wb; r_alt (r_lit "all tests passed") (r_lit "tests passed"); wb]) 51;
   mkRule "completed.v1" "completed"
     (r_seqs [start_or_space;
        r_alts (r_nocase "DONE") [r_nocase "completed successfully"; r_nocase "task completed";
                                  r_nocase "build succeeded"]; wb]) 60;
   mkRule "waiting_for_input.v1" "waiting_for_input"
     (r_alts (r_seqs [anything; r_char 63; spaces; r_end])
        [r_seqs [anything; r_lit " [Y/n]"; spaces; r_end];
         r_seqs [anything; r_lit " (yes/no)"; spaces; r_end];
         r_seqs [r_lit ">>>"; spaces; r_end];
         r_seqs [r_char 62; r_plus (r_class is_space); r_end];
         r_seqs [r_lit "Continue?"; spaces; r_end]]) 70;
   mkRule "activity.fallback.v1" "activity" (r_plus (r_class any_char)) 999].

Definition RULES : list ClassifierRule := merge_sort by_priority RULES_UNORDERED.

Definition PANE_EXITED_SYNTH_RULE_ID : string := "pane_exited.synth.v1".
Definition LONG_RUNNING_SYNTH_RULE_ID : string := "long_running.synth.v1".

(** The first rule of the walk that finds its pattern. *)
Definition first_rule (t : text) : option ClassifierRule :=
  snd <$> list_find (λ r, re_search (matcher r) t = true) RULES.

Definition classify (record : text) (cap_bytes : Z) (marker : text) : outcome ClassifierOutcome :=
  let redacted := strip_ansi (redact_one_line record) in
  obind (truncate_excerpt redacted cap_bytes marker) (λ excerpt,
    match first_rule redacted with
    | None => Ok (mkOutcome "activity" "activity.fallback.v1" excerpt redacted)
    | Some r => Ok (mkOutcome (rule_event_type r) (rule_id r) excerpt redacted)
    end).
End Rules.

Example classify_demo :
  let run s := match classify (λ _, false) (λ _, false) (lit s) 1024 EXCERPT_TRUNCATION_MARKER with
               | Ok o => Some (oc_rule_id o) | Raise _ => None end in
  run <$> ["Error: x"; "FAILED tests/a.py::b - boom"; "ERROR tests/a.py::b"; "== 3 passed in 0.1s ==";
           "Build Succeeded"; "Proceed? "; ">>> "; "hello"; "see TODO(human) here";
           "AGENTTOWER_SWARM_MEMBER parent=agt_0123456789ab pane=%1 label=x capability=y purpose=z"] =
  [Some "error.line.v1"; Some "test_failed.pytest.v1"; Some "error.line.v1"; Some "test_passed.pytest.v1";
   Some "completed.v1"; Some "waiting_for_input.v1"; Some "waiting_for_input.v1";
   Some "activity.fallback.v1"; Some "manual_review.v1"; Some "swarm_member.v1"].
Proof. vm_compute. reflexivity. Qed.

(** What classification guarantees: the excerpt is the longest prefix that fits, and
    the event type is that of the first rule that finds its pattern. *)

(** ** Cutting UTF-8 *)

Definition width (cp : N) : nat :=
  if cp <? 0x80 then 1%nat else if cp <? 0x800 then 2%nat
  else if cp <? 0x10000 then 3%nat else 4%nat.

Lemma encode_cp_length cp s : String.length (encode_cp cp s) = (width cp + String.length s)%nat.
Proof. unfold encode_cp, width. repeat case_match; done. Qed.

Definition byte_length (t : text) : nat := String.length (encode t).

Lemma byte_length_cons cp t : byte_length (cp :: t) = (width cp + byte_length t)%nat.
Proof. apply encode_cp_length. Qed.

Lemma byte_length_app a b : byte_length (a ++ b) = (byte_length a + byte_length b)%nat.
Proof.
  induction a as [|cp a IH]; [done|]. change ((cp :: a) ++ b) with (cp :: (a ++ b)).
  rewrite !byte_length_cons, IH. lia.
Qed.

(** What is left of one encoded character after a cut. *)
Lemma cut_cp cp s n :
  scalar cp = true →
  decode_ignore (String.substring 0 n (encode_cp cp s)) =
  if (width cp <=? n)%nat then cp :: decode_ignore (String.substring 0 (n - width cp) s) else [].
Proof.
  rewrite scalar_iff. intros Hs. unfold encode_cp, width, decode_ignore.
  destruct (divmod64 cp) as [E1 B1]. destruct (divmod64 (cp / 64)) as [E2 B2].
  destruct (divmod64 (cp / 64 / 64)) as [E3 B3].
  set (q1 := cp / 64) in *. set (q2 := q1 / 64) in *. set (q3 := q2 / 64) in *.
  set (m1 := cp mod 64) in *. set (m2 := q1 mod 64) in *. set (m3 := q2 mod 64) in *.
  clearbody q1 q2 q3 m1 m2 m3.
  destruct (N.ltb_spec cp 0x80); [|destruct (N.ltb_spec cp 0x800);
    [|destruct (N.ltb_spec cp 0x10000)]].
  - destruct n as [|n]; [done|]. cbn [String.substring Nat.leb Nat.sub decode_lenient].
    rewrite code_byte by lia. rewrite (proj2 (N.ltb_lt _ _)) by lia. by rewrite Nat.sub_0_r.
  - destruct n as [|[|n]]; [done|..]; cbn [String.substring Nat.leb Nat.sub decode_lenient];
      rewrite !code_byte by lia; rewrite (proj2 (N.ltb_ge _ _)), (proj2 (within_iff _ _ _)) by lia;
      [done|].
    unfold cont. rewrite (proj2 (within_iff _ _ _)) by lia. rewrite Nat.sub_0_r. f_equal. lia.
  - destruct n as [|[|[|n]]]; [done|..]; cbn [String.substring Nat.leb Nat.sub decode_lenient];
      rewrite !code_byte by lia;
      rewrite (proj2 (N.ltb_ge _ _)), (proj2 (within_not 0xC2 _ _)) by lia;
      rewrite (proj2 (within_iff 0xE0 _ _)) by lia; [done|..];
      rewrite (proj2 (second_ok_iff _ _)) by lia; [done|].
    unfold cont. rewrite (proj2 (within_iff _ _ _)) by lia. rewrite Nat.sub_0_r. f_equal. lia.
  - destruct n as [|[|[|[|n]]]]; [done|..]; cbn [String.substring Nat.leb Nat.sub decode_lenient];
      rewrite !code_byte by lia;
      rewrite (proj2 (N.ltb_ge _ _)), (proj2 (within_not 0xC2 _ _)) by lia;
      rewrite (proj2 (within_not 0xE0 _ _)), (proj2 (within_iff 0xF0 _ _)) by lia; [done|..];
      rewrite (proj2 (second_ok_iff _ _)) by lia; [done|..];
      unfold cont; rewrite !(proj2 (within_iff 0x80 0xBF _)) by lia; [done|].
    rewrite Nat.sub_0_r. f_equal. lia.
Qed.

(** The number of characters of [t] whose encoding fits in [n] bytes. *)
Fixpoint fitting (n : nat) (t : text) : nat :=
  match t with
  | [] => 0%nat
  | cp :: rest => if (width cp <=? n)%nat then S (fitting (n - width cp) rest) else 0%nat
  end.

Lemma cut_encode n t :
  Forall (λ cp, scalar cp = true) t →
  decode_ignore (String.substring 0 n (encode t)) = take (fitting n t) t.
Proof.
  intros Ht. revert n. induction Ht as [|cp t Hc Ht IH]; intros n.
  - by destruct n.
  - change (encode (cp :: t)) with (encode_cp cp (encode t)). rewrite cut_cp by done.
    cbn [fitting]. destruct (width cp <=? n)%nat; [|done]. simpl. by rewrite IH.
Qed.

(** It is the longest prefix that fits. *)
Lemma fitting_spec n t k :
  (k ≤ fitting n t)%nat ↔ (byte_length (take k t) ≤ n)%nat ∧ (k ≤ length t)%nat.
Proof.
  revert n k. induction t as [|cp t IH]; intros n k; cbn [fitting].
  - destruct k; simpl; unfold byte_length; simpl; lia.
  - assert (1 ≤ width cp)%nat by (unfold width; repeat case_match; lia).
    destruct k as [|k]; [unfold byte_length; simpl; split; intros; lia|].
    cbn [take]. rewrite byte_length_cons. cbn [length].
    destruct (Nat.leb_spec (width cp) n) as [Hw|Hw]; [|lia].
    specialize (IH (n - width cp)%nat k). split.
    + intros Hk. assert (k ≤ fitting (n - width cp) t)%nat as Hk' by lia. apply IH in Hk'. lia.
    + intros Hk. assert (k ≤ fitting (n - width cp) t)%nat; [apply IH; lia|lia].
Qed.

Lemma fitting_fits n t : (byte_length (take (fitting n t) t) ≤ n)%nat.
Proof. by apply (fitting_spec n t (fitting n t)). Qed.

Definition scalars (t : text) : Prop := Forall (λ cp, scalar cp = true) t.

(** An excerpt never exceeds its byte cap and never splits a character.  A record
    that fits is kept whole; a longer one becomes its longest prefix that leaves room
    for the marker, followed by the marker; a marker that does not fit is itself cut. *)
Theorem truncate_excerpt_spec t cap marker :
  scalars t → scalars marker → (0 < cap)%Z →
  ∃ e, truncate_excerpt t cap marker = Ok e ∧ (Z.of_nat (byte_length e) ≤ cap)%Z ∧
  (if decide (Z.of_nat (byte_length t) ≤ cap)%Z then e = t
   else if decide (cap ≤ Z.of_nat (byte_length marker))%Z
   then e = take (fitting (Z.to_nat cap) marker) marker
   else ∃ k, e = take k t ++ marker ∧
        ∀ j, (j ≤ length t)%nat →
             ((Z.of_nat (byte_length (take j t ++ marker)) ≤ cap)%Z ↔ (j ≤ k)%nat)).
Proof.
  intros Ht Hm Hcap. unfold truncate_excerpt. rewrite (proj2 (Z.leb_gt _ _)) by lia.
  unfold bytes_of. fold (byte_length t) (byte_length marker).
  destruct (Nat.leb_spec (byte_length t) (Z.to_nat cap)) as [H1|H1].
  { exists t. case_decide; [|lia]. split; [done|]. split; [lia|done]. }
  destruct (decide (Z.of_nat (byte_length t) ≤ cap)%Z); [lia|].
  destruct (Nat.leb_spec (Z.to_nat cap) (byte_length marker)) as [H2|H2];
    (destruct (decide (cap ≤ Z.of_nat (byte_length marker))%Z); [|try lia]); try lia.
  { rewrite cut_encode by done. eexists. split; [done|].
    pose proof (fitting_fits (Z.to_nat cap) marker). split; [lia|done]. }
  rewrite cut_encode by done.
  set (avail := (Z.to_nat cap - byte_length marker)%nat). eexists. split; [done|].
  pose proof (fitting_fits avail t) as Hf. rewrite byte_length_app. split; [lia|].
  exists (fitting avail t). split; [done|]. intros j Hj. rewrite byte_length_app, fitting_spec. lia.
Qed.

Lemma truncate_excerpt_spec_witness :
  let t := lit "hello" ++ [0x20AC; 0x20AC; 0x20AC] in
  truncate_excerpt t 11 [0x2026] = Ok (lit "hello" ++ [0x20AC; 0x2026]) ∧
  ∃ e, truncate_excerpt t 11 [0x2026] = Ok e ∧ (Z.of_nat (byte_length e) ≤ 11)%Z.
Proof.
  intros t. split; [vm_compute; reflexivity|].
  destruct (truncate_excerpt_spec t 11 [0x2026]) as (e & E & H & _);
    [by repeat constructor|by repeat constructor|lia|]. by exists e.
Defined.

(** ** Characters survive *)

Lemma sub_from_forall (P : N → Prop) r repl n p :
  (∀ m, Forall P (repl m)) → Forall P p.2 → Forall P (sub_from n r repl p).
Proof.
  intros Hr. revert p. induction n as [|n IH]; intros [prev t] Ht; [done|].
  destruct t as [|c rest]; [done|]. cbn [sub_from snd].
  assert (P c ∧ Forall P rest) as [Hc Hrest] by (by inversion Ht).
  assert (Forall P (c :: sub_from n r repl (Some c, rest))) as Hskip.
  { constructor; [done|]. by apply IH. }
  destruct (head (ends r (prev, c :: rest))) as [q|] eqn:E; [|done].
  case_match; [|done]. apply Forall_app_2; [done|]. apply IH.
  apply head_Some_elem_of, ends_spec, matches_split in E. cbn [snd] in E.
  destruct E as (m & Em & _). rewrite Em in Ht. by apply Forall_app in Ht as [_ ?].
Qed.

Lemma before_equals_forall (P : N → Prop) t : Forall P t → Forall P (before_equals t).
Proof. induction 1; simpl; [done|]. case_match; by constructor. Qed.

Lemma lit_scalars s : forallb scalar (lit s) = true → scalars (lit s).
Proof. intros H. apply Forall_forall. intros c Hc. apply list_elem_of_In in Hc.
  by apply (proj1 (forallb_forall scalar _)) with c in H.
Qed.

Lemma redacted_scalars t : scalars t → scalars (strip_ansi (redact_one_line t)).
Proof.
  intros Ht. assert (scalars (redact_one_line t)) as H.
  { unfold redact_one_line, redact_env, redact_jwt. set (u := foldl _ _ _).
    assert (scalars u) as Hu.
    { subst u. cbn [UNANCHORED_PATTERNS foldl fst snd].
      repeat (apply sub_from_forall; [intros _; by apply lit_scalars|cbn [snd]]). done. }
    clearbody u. assert (∀ v : text, scalars v → scalars (if re_fullmatch ENV_PATTERN v
      then before_equals v ++ lit "=<redacted:env-secret>" else v)) as Henv.
    { intros v Hv. case_match; [|done].
      apply Forall_app_2; [by apply before_equals_forall|by apply lit_scalars]. }
    apply Henv. repeat case_match; try done; by apply lit_scalars. }
  unfold strip_ansi. case_match; [done|]. by apply sub_from_forall.
Qed.

(** ** The walk over the rules *)

Section Classify.
Variables unicode_word unicode_digit : N → bool.
Abbreviation rules := (RULES unicode_word unicode_digit).
Abbreviation found r t := (re_search (matcher r) t = true).

Lemma rules_sorted : StronglySorted by_priority rules.
Proof. apply (StronglySorted_merge_sort _). Qed.

Lemma rules_members r : r ∈ rules ↔ r ∈ RULES_UNORDERED unicode_word unicode_digit.
Proof. unfold RULES. by rewrite (merge_sort_Permutation by_priority). Qed.

Lemma first_rule_spec t r :
  first_rule unicode_word unicode_digit t = Some r →
  r ∈ rules ∧ found r t ∧
  ∀ r', r' ∈ rules → (priority r' < priority r)%nat → re_search (matcher r') t = false.
Proof.
  unfold first_rule. intros E. apply fmap_Some in E as ([i r'] & E & ->).
  apply list_find_Some in E as (Hi & Hf & Hbefore). cbn [snd].
  split; [by apply list_elem_of_lookup_2 in Hi|]. split; [done|].
  intros q Hq Hlt. apply list_elem_of_lookup in Hq as [j Hj].
  destruct (re_search (matcher q) t) eqn:Eq; [|done]. exfalso.
  destruct (decide (j < i)%nat) as [Hji|Hji]; [by apply (Hbefore j q)|].
  assert (by_priority r' q) as Hp; [|unfold by_priority in Hp; lia].
  destruct (decide (i = j)) as [<-|Hne]; [unfold by_priority; simplify_eq; lia|].
  pose proof rules_sorted as Hs. rewrite <- (take_drop_middle _ _ _ Hj) in Hs.
  eapply (StronglySorted_app_1_elem_of _ _ _ r' q) in Hs; [done| |by left].
  apply list_elem_of_lookup. exists i. by rewrite lookup_take_lt by lia.
Qed.

(** The last rule accepts every record that has a character other than a newline. *)
Lemma fallback_finds t : Exists (λ c, any_char c = true) t → re_search (r_plus (r_class any_char)) t = true.
Proof.
  intros H. apply Exists_exists in H as (c & Hc & Hany). apply list_elem_of_split in Hc as (a & b & ->).
  apply re_search_spec. exists a, (c :: b). eexists. split; [done|].
  apply matches_seq. exists (Some c, b). split; [apply matches_class; eauto|]. apply m_star_nil.
Qed.

(** A record no rule accepts is a run of newlines. *)
Lemma no_rule t : first_rule unicode_word unicode_digit t = None → Forall (λ c, c = 10) t.
Proof.
  unfold first_rule. rewrite fmap_None, list_find_None, Forall_forall. intros H.
  set (fb := mkRule "activity.fallback.v1" "activity" (r_plus (r_class any_char)) 999).
  assert (fb ∈ rules) as Hfb.
  { rewrite rules_members. by apply (list_elem_of_lookup_2 _ 10). }
  apply H in Hfb. destruct (decide (Exists (λ c, any_char c = true) t)) as [He|He];
    [by apply fallback_finds in He|].
  apply Forall_Exists_neg in He. eapply Forall_impl; [exact He|]. intros c Hc. unfold any_char in Hc.
  destruct (N.eqb_spec c 10); [done|by destruct Hc].
Qed.

Lemma rules_types r : r ∈ rules →
  rule_event_type r ∈ EVENT_TYPES ∧ rule_event_type r ∉ SYNTHESIZED_TYPES.
Proof.
  rewrite rules_members. intros Hr. revert r Hr. apply Forall_forall.
  unfold RULES_UNORDERED. repeat constructor; cbn [rule_event_type]; (by apply (bool_decide_unpack _)) .
Qed.

(** C39: classification is total on decodable records: it gives exactly one type of the
    closed set, never one the reader synthesises; the type is that of a rule that finds
    its pattern in the redacted, escape-free record while no rule of smaller priority
    does, and a record with nothing but newlines falls back to activity; the excerpt is
    cut from that record and within its cap. *)
Theorem classify_first_rule record cap marker :
  scalars record → scalars marker → (0 < cap)%Z →
  ∃ o, classify unicode_word unicode_digit record cap marker = Ok o ∧
    oc_redacted_record o = strip_ansi (redact_one_line record) ∧
    truncate_excerpt (oc_redacted_record o) cap marker = Ok (oc_excerpt o) ∧
    (Z.of_nat (byte_length (oc_excerpt o)) ≤ cap)%Z ∧
    oc_event_type o ∈ EVENT_TYPES ∧ (oc_event_type o ∉ SYNTHESIZED_TYPES) ∧
    match first_rule unicode_word unicode_digit (oc_redacted_record o) with
    | Some r => oc_event_type o = rule_event_type r ∧ oc_rule_id o = rule_id r ∧
        r ∈ rules ∧ re_search (matcher r) (oc_redacted_record o) = true ∧
        ∀ r', r' ∈ rules → (priority r' < priority r)%nat →
              re_search (matcher r') (oc_redacted_record o) = false
    | None => oc_event_type o = "activity" ∧ oc_rule_id o = "activity.fallback.v1" ∧
        Forall (λ c, c = 10) (oc_redacted_record o)
    end.
Proof.
  intros Hr Hm Hcap. apply redacted_scalars in Hr.
  destruct (truncate_excerpt_spec _ cap marker Hr Hm Hcap) as (e & Ee & Hlen & _).
  unfold classify. rewrite Ee. cbn [obind].
  destruct (first_rule _ _ _) as [r|] eqn:Ef; eexists; (split; [done|]);
    cbn [oc_event_type oc_rule_id oc_excerpt oc_redacted_record]; rewrite Ef.
  - pose proof (first_rule_spec _ _ Ef) as (Hin & Hf & Hmin).
    destruct (rules_types r Hin). by repeat (split; [done|]).
  - split_and!; try done; [by apply (bool_decide_unpack _)..|]. by apply no_rule.
Qed.
End Classify.

Lemma classify_first_rule_witness :
  let rec := lit "Error: sk-abcdefghij0123456789XY" in
  redact_one_line rec = lit "Error: <redacted:openai-key>" ∧
  ∃ o, classify (λ _, false) (λ _, false) rec 20 EXCERPT_TRUNCATION_MARKER = Ok o ∧
       (Z.of_nat (byte_length (oc_excerpt o)) ≤ 20)%Z.
Proof.
  intros rec. split; [vm_compute; reflexivity|].
  destruct (classify_first_rule (λ _, false) (λ _, false) rec 20 EXCERPT_TRUNCATION_MARKER)
    as (o & E & _ & _ & H & _); [by apply lit_scalars|by repeat constructor|lia|].
  exists o. exact (conj E H).
Defined.

(** Redaction runs before escape sequences are stripped, so an escape inside a
    secret hides it from the patterns and stripping joins it again: the excerpt of such
    a record holds the key, although redacting the stripped text would have masked it. *)
Theorem escape_uncovers_secret :
  ∃ record o,
    classify (λ _, false) (λ _, false) record PER_EVENT_EXCERPT_CAP_BYTES
      EXCERPT_TRUNCATION_MARKER = Ok o ∧
    re_search openai_key (oc_excerpt o) = true ∧
    re_search openai_key (redact_one_line (strip_ansi record)) = false.
Proof.
  exists (lit "key sk-abcdef" ++ [ESC] ++ lit "[0mghij0123456789XYZ").
  eexists. split; [vm_compute; reflexivity|]. split; vm_compute; reflexivity.
Qed.
