(* ===== verification/Debounce.v ===== *)
(** Collapsing of activity records (src/src/agenttower/events/debounce.py).

    The windows are a Python dict keyed by attachment and event class: an association
    list in insertion order.  Monotonic clock readings and the window length are
    integers in one unit.  The random window ids are drawn from [fresh_ids]. *)

From S2P Require Import Prelude Errors Utf8 Regex Redaction Classifier.

Local Open Scope Z_scope.

(** ** Data *)

Record PendingEvent := mkPending {
  pe_event_type : string; pe_rule_id : string; pe_excerpt : text; pe_observed_at : string;
  pe_byte_range_start : Z; pe_byte_range_end : Z;
  pe_line_offset_start : Z; pe_line_offset_end : Z;
  pe_window_id : option string; pe_collapsed_count : Z;
  pe_window_started_at : option string; pe_window_ended_at : option string
}.

Record DebounceWindow := mkWindow {
  window_id : string; started_at : string; started_at_monotonic : Z;
  first_byte_range_start : Z; first_line_offset_start : Z; collapsed_count : Z;
  latest_excerpt : text; latest_rule_id : string; latest_observed_at : string;
  latest_byte_range_end : Z; latest_line_offset_end : Z
}.

Definition window_key : Type := string * string.

Record DebounceManager := mkDebounce {
  window_seconds : Z;
  windows : list (window_key * DebounceWindow);
  fresh_ids : list string
}.

(** What the reader hands to [submit] for one record. *)
Record Submission := mkSubmission {
  sb_attachment_id : string; sb_outcome : ClassifierOutcome; sb_observed_at : string;
  sb_monotonic : Z; sb_byte_range_start : Z; sb_byte_range_end : Z;
  sb_line_offset_start : Z; sb_line_offset_end : Z
}.

(** [_COLLAPSE_ELIGIBLE] *)
Definition COLLAPSE_ELIGIBLE : list string := ["activity"].

(** ** A dict in insertion order *)

Section Dict.
Context {V : Type}.
Implicit Types (m : list (window_key * V)) (k : window_key).

Fixpoint dict_get k m : option V :=
  match m with
  | [] => None
  | (k', v) :: rest => if decide (k = k') then Some v else dict_get k rest
  end.

Fixpoint dict_set k (v : V) m : list (window_key * V) :=
  match m with
  | [] => [(k, v)]
  | (k', v') :: rest => if decide (k = k') then (k', v) :: rest else (k', v') :: dict_set k v rest
  end.

Fixpoint dict_del k m : list (window_key * V) :=
  match m with
  | [] => []
  | (k', v') :: rest => if decide (k = k') then rest else (k', v') :: dict_del k rest
  end.
End Dict.

(** ** Operations *)

Definition set_windows (ws : list (window_key * DebounceWindow)) (m : DebounceManager)
  : DebounceManager := mkDebounce (window_seconds m) ws (fresh_ids m).

(** [_new_window_id] *)
Definition new_window_id (m : DebounceManager) : string * DebounceManager :=
  (default ""%string (head (fresh_ids m)),
   mkDebounce (window_seconds m) (windows m) (tail (fresh_ids m))).

(** [_close_window] *)
Definition close_window (key : window_key) (w : DebounceWindow) (ended_at : string)
    (m : DebounceManager) : PendingEvent * DebounceManager :=
  (mkPending key.2 (latest_rule_id w) (latest_excerpt w) (latest_observed_at w)
     (first_byte_range_start w) (latest_byte_range_end w)
     (first_line_offset_start w) (latest_line_offset_end w)
     (Some (window_id w)) (collapsed_count w) (Some (started_at w)) (Some ended_at),
   set_windows (dict_del key (windows m)) m).

Definition passed_through (s : Submission) : PendingEvent :=
  mkPending (oc_event_type (sb_outcome s)) (oc_rule_id (sb_outcome s)) (oc_excerpt (sb_outcome s))
    (sb_observed_at s) (sb_byte_range_start s) (sb_byte_range_end s)
    (sb_line_offset_start s) (sb_line_offset_end s) None 1 None None.

Definition open_window (key : window_key) (s : Submission) (m : DebounceManager)
  : DebounceManager :=
  let (id, m) := new_window_id m in
  set_windows (dict_set key
    (mkWindow id (sb_observed_at s) (sb_monotonic s) (sb_byte_range_start s)
       (sb_line_offset_start s) 1 (oc_excerpt (sb_outcome s)) (oc_rule_id (sb_outcome s))
       (sb_observed_at s) (sb_byte_range_end s) (sb_line_offset_end s)) (windows m)) m.

Definition collapse (s : Submission) (w : DebounceWindow) : DebounceWindow :=
  mkWindow (window_id w) (started_at w) (started_at_monotonic w) (first_byte_range_start w)
    (first_line_offset_start w) (collapsed_count w + 1) (oc_excerpt (sb_outcome s))
    (oc_rule_id (sb_outcome s)) (sb_observed_at s) (sb_byte_range_end s) (sb_line_offset_end s).

Definition expired (m : DebounceManager) (monotonic : Z) (w : DebounceWindow) : bool :=
  window_seconds m <=? monotonic - started_at_monotonic w.

Definition submit (s : Submission) (m : DebounceManager) : list PendingEvent * DebounceManager :=
  if bool_decide (oc_event_type (sb_outcome s) ∉ COLLAPSE_ELIGIBLE)
  then ([passed_through s], m)
  else
    let key := (sb_attachment_id s, oc_event_type (sb_outcome s)) in
    match dict_get key (windows m) with
    | None => ([], open_window key s m)
    | Some w =>
        if expired m (sb_monotonic s) w
        then let (e, m') := close_window key w (sb_observed_at s) m in
             ([e], open_window key s m')
        else ([], set_windows (dict_set key (collapse s w) (windows m)) m)
    end.

(** One turn of the loop of [flush_expired]. *)
Definition flush_one (monotonic : Z) (observed_at : string) (attachment_id : option string)
    (key : window_key) (m : DebounceManager) : list PendingEvent * DebounceManager :=
  if match attachment_id with Some a => bool_decide (key.1 ≠ a) | None => false end
  then ([], m)
  else
    match dict_get key (windows m) with
    | None => ([], m) (* unreachable: the key was listed and only its own turn deletes it *)
    | Some w =>
        if expired m monotonic w
        then let (e, m') := close_window key w observed_at m in ([e], m')
        else ([], m)
    end.

Fixpoint flush_keys (monotonic : Z) (observed_at : string) (attachment_id : option string)
    (keys : list window_key) (m : DebounceManager) : list PendingEvent * DebounceManager :=
  match keys with
  | [] => ([], m)
  | key :: rest =>
      let (es, m1) := flush_one monotonic observed_at attachment_id key m in
      let (es', m2) := flush_keys monotonic observed_at attachment_id rest m1 in
      (es ++ es', m2)
  end.

Definition flush_expired (monotonic : Z) (observed_at : string) (attachment_id : option string)
    (m : DebounceManager) : list PendingEvent * DebounceManager :=
  flush_keys monotonic observed_at attachment_id (windows m).*1 m.

(** [reset] *)
Definition reset_windows (m : DebounceManager) : DebounceManager := set_windows [] m.

(** What debouncing conserves: the activity records of an attachment are cut into
    consecutive blocks, one event per block, and every other record is one event. *)

(** ** The dict *)

Section DictLemmas.
Context {V : Type}.
Implicit Types (m : list (window_key * V)) (k : window_key).

Lemma dict_get_set k k' (v : V) m :
  dict_get k (dict_set k' v m) = if decide (k = k') then Some v else dict_get k m.
Proof.
  induction m as [|[k0 v0] m IH]; cbn [dict_set dict_get]; [done|].
  destruct (decide (k' = k0)) as [->|]; cbn [dict_get].
  - by destruct (decide (k = k0)).
  - rewrite IH. destruct (decide (k = k0)), (decide (k = k')); congruence.
Qed.

Lemma dict_get_not_in k m : k ∉ m.*1 → dict_get k m = None.
Proof.
  induction m as [|[k0 v0] m IH]; [done|]. cbn [dict_get fmap list_fmap fst].
  rewrite not_elem_of_cons. intros [Hne Hm]. destruct (decide (k = k0)); [done|]. by apply IH.
Qed.

Lemma dict_get_del k k' m :
  NoDup m.*1 → dict_get k (dict_del k' m) = if decide (k = k') then None else dict_get k m.
Proof.
  induction m as [|[k0 v0] m IH]; cbn [dict_del dict_get fmap list_fmap fst];
    [intros _; by destruct (decide (k = k'))|].
  rewrite NoDup_cons. intros [Hk0 Hm]. destruct (decide (k' = k0)) as [->|].
  - destruct (decide (k = k0)) as [->|]; [by apply dict_get_not_in|done].
  - cbn [dict_get]. rewrite IH by done.
    destruct (decide (k = k0)), (decide (k = k')); congruence.
Qed.

Lemma dict_del_keys k m : NoDup m.*1 → NoDup (dict_del k m).*1 ∧ (dict_del k m).*1 ⊆ m.*1.
Proof.
  induction m as [|[k0 v0] m IH]; cbn [dict_del fmap list_fmap fst]; [done|].
  rewrite NoDup_cons. intros [Hk0 Hm]. destruct (IH Hm) as [IH1 IH2].
  destruct (decide (k = k0)) as [->|]; [split; [done|set_solver]|].
  cbn [fmap list_fmap fst]. split; [|set_solver]. apply NoDup_cons. set_solver.
Qed.

Lemma dict_set_keys k (v : V) m :
  (dict_set k v m).*1 = if decide (k ∈ m.*1) then m.*1 else m.*1 ++ [k].
Proof.
  induction m as [|[k0 v0] m IH]; cbn [dict_set fmap list_fmap fst]; [done|].
  destruct (decide (k = k0)) as [->|]; cbn [fmap list_fmap fst].
  - by rewrite decide_True by set_solver.
  - rewrite IH. destruct (decide (k ∈ m.*1)).
    + by rewrite decide_True by set_solver.
    + by rewrite decide_False by set_solver.
Qed.

Lemma dict_set_nodup k (v : V) m : NoDup m.*1 → NoDup (dict_set k v m).*1.
Proof.
  rewrite dict_set_keys. case_decide; [done|]. intros. apply NoDup_app. split_and!; [done| |].
  - intros x Hx ->%list_elem_of_singleton. done.
  - apply NoDup_singleton.
Qed.
End DictLemmas.

(** ** Histories of the manager

The reader submits records and flushes the windows of one attachment at a time. *)

Inductive debounce_op :=
| Op_submit (s : Submission)
| Op_flush (attachment_id : string) (monotonic : Z) (observed_at : string).

Definition op_attachment (op : debounce_op) : string :=
  match op with Op_submit s => sb_attachment_id s | Op_flush a _ _ => a end.

Definition apply_op (op : debounce_op) (m : DebounceManager) : list PendingEvent * DebounceManager :=
  match op with
  | Op_submit s => submit s m
  | Op_flush a mono at_ => flush_expired mono at_ (Some a) m
  end.

(** The events emitted for [a], in order, and the manager at the end. *)
Fixpoint emitted_for (a : string) (ops : list debounce_op) (m : DebounceManager)
  : list PendingEvent * DebounceManager :=
  match ops with
  | [] => ([], m)
  | op :: rest =>
      let (es, m1) := apply_op op m in
      let (es', m2) := emitted_for a rest m1 in
      ((if decide (op_attachment op = a) then es else []) ++ es', m2)
  end.

Definition is_activity (s : Submission) : Prop := oc_event_type (sb_outcome s) = "activity"%string.
#[export] Instance is_activity_dec s : Decision (is_activity s).
Proof. unfold is_activity. apply _. Defined.

(** The records submitted for [a], in order. *)
Definition records_of (a : string) (ops : list debounce_op) : list Submission :=
  omap (λ op, match op with
              | Op_submit s => if decide (sb_attachment_id s = a) then Some s else None
              | Op_flush _ _ _ => None
              end) ops.

(** [e] tells of the block [b] of records what a collapsed event may tell. *)
Definition summarises (W : Z) (e : PendingEvent) (b : list Submission) : Prop :=
  ∃ s0 s1, head b = Some s0 ∧ last b = Some s1 ∧
    pe_event_type e = "activity"%string ∧ pe_collapsed_count e = Z.of_nat (length b) ∧
    pe_byte_range_start e = sb_byte_range_start s0 ∧ pe_byte_range_end e = sb_byte_range_end s1 ∧
    pe_line_offset_start e = sb_line_offset_start s0 ∧ pe_line_offset_end e = sb_line_offset_end s1 ∧
    pe_excerpt e = oc_excerpt (sb_outcome s1) ∧ pe_rule_id e = oc_rule_id (sb_outcome s1) ∧
    pe_observed_at e = sb_observed_at s1 ∧ pe_window_started_at e = Some (sb_observed_at s0) ∧
    Forall (λ s, s = s0 ∨ sb_monotonic s - sb_monotonic s0 < W) b.

(** An open window remembers its block. *)
Definition tracks (W : Z) (w : DebounceWindow) (b : list Submission) : Prop :=
  ∃ s0 s1, head b = Some s0 ∧ last b = Some s1 ∧ started_at_monotonic w = sb_monotonic s0 ∧
    collapsed_count w = Z.of_nat (length b) ∧
    first_byte_range_start w = sb_byte_range_start s0 ∧
    latest_byte_range_end w = sb_byte_range_end s1 ∧
    first_line_offset_start w = sb_line_offset_start s0 ∧
    latest_line_offset_end w = sb_line_offset_end s1 ∧
    latest_excerpt w = oc_excerpt (sb_outcome s1) ∧ latest_rule_id w = oc_rule_id (sb_outcome s1) ∧
    latest_observed_at w = sb_observed_at s1 ∧ started_at w = sb_observed_at s0 ∧
    Forall (λ s, s = s0 ∨ sb_monotonic s - sb_monotonic s0 < W) b.

Definition activity_key (a : string) : window_key := (a, "activity"%string).

Definition open_block (a : string) (m : DebounceManager) (b : list Submission) : Prop :=
  match dict_get (activity_key a) (windows m) with
  | None => b = []
  | Some w => tracks (window_seconds m) w b
  end.

Definition wf_windows (m : DebounceManager) : Prop := NoDup (windows m).*1.

(** ** One operation *)

Lemma tracks_closed W key w b ended m :
  key.2 = "activity"%string → tracks W w b → summarises W (close_window key w ended m).1 b.
Proof. destruct key as [a c]; cbn. intros -> (s0 & s1 & H). exists s0, s1. cbn. intuition congruence. Qed.

Lemma open_window_get a s m :
  dict_get (activity_key a) (windows (open_window (activity_key a) s m)) =
  Some (mkWindow (new_window_id m).1 (sb_observed_at s) (sb_monotonic s) (sb_byte_range_start s)
       (sb_line_offset_start s) 1 (oc_excerpt (sb_outcome s)) (oc_rule_id (sb_outcome s))
       (sb_observed_at s) (sb_byte_range_end s) (sb_line_offset_end s)).
Proof. cbn. rewrite dict_get_set. by rewrite decide_True. Qed.

Lemma open_window_tracks a s m : open_block a (open_window (activity_key a) s m) [s].
Proof.
  unfold open_block. rewrite open_window_get. exists s, s. cbn. split_and!; try done.
  apply Forall_singleton. by left.
Qed.

Lemma collapse_tracks W w b s :
  tracks W w b → sb_monotonic s - started_at_monotonic w < W → tracks W (collapse s w) (b ++ [s]).
Proof.
  intros (s0 & s1 & Hh & Hl & E1 & E2 & E3 & E4 & E5 & E6 & E7 & E8 & E9 & E10 & HF) Hlt.
  exists s0, s. cbn. rewrite length_app, last_app. cbn. destruct b as [|x b]; [done|].
  cbn in Hh. simplify_eq. split_and!; try done.
  - rewrite E2. cbn [length]. lia.
  - apply Forall_app_2; [done|]. apply Forall_singleton. right. by rewrite <- E1.
Qed.

(** Operations on another attachment leave a window alone. *)
Lemma flush_keys_spec mono at_ a keys m :
  wf_windows m →
  wf_windows (flush_keys mono at_ (Some a) keys m).2 ∧
  window_seconds (flush_keys mono at_ (Some a) keys m).2 = window_seconds m ∧
  (∀ k, k.1 ≠ a → dict_get k (windows (flush_keys mono at_ (Some a) keys m).2) =
                  dict_get k (windows m)).
Proof.
  revert m. induction keys as [|k0 keys IH]; intros m Hm; cbn [flush_keys]; [done|].
  unfold flush_one. destruct (bool_decide_reflect (k0.1 ≠ a)) as [Hne|Heq].
  { specialize (IH m Hm). by destruct (flush_keys _ _ _ _ _). }
  apply dec_stable in Heq. destruct (dict_get k0 (windows m)) as [w|] eqn:E;
    [|specialize (IH m Hm); by destruct (flush_keys _ _ _ _ _)].
  destruct (expired m mono w); [|specialize (IH m Hm); by destruct (flush_keys _ _ _ _ _)].
  cbn [close_window]. destruct (dict_del_keys k0 (windows m) Hm) as [Hnd _].
  destruct (IH (set_windows (dict_del k0 (windows m)) m) Hnd) as (I1 & I2 & I3).
  destruct (flush_keys _ _ _ _ _) as [es' m2]. cbn [snd] in *. split; [done|]. split; [done|].
  intros k Hk. rewrite I3 by done. cbn. rewrite dict_get_del by done. by rewrite decide_False by congruence.
Qed.

(** What an operation may do to the window of [a]: nothing, one more record in it, or
    close it into one event, perhaps with a new window for the record. *)
Definition step_ok (a : string) (op : debounce_op) (m : DebounceManager)
    (es : list PendingEvent) (m' : DebounceManager) : Prop :=
  ∀ b, open_block a m b →
  ∃ blocks b', open_block a m' b' ∧
    concat blocks ++ b' = b ++ filter is_activity (records_of a [op]) ∧
    Forall2 (summarises (window_seconds m))
      (filter (λ e, pe_event_type e = "activity"%string) es) blocks ∧
    filter (λ e, pe_event_type e ≠ "activity"%string) es =
      passed_through <$> filter (λ s, ¬ is_activity s) (records_of a [op]).

Lemma submit_spec s m :
  wf_windows m →
  wf_windows (submit s m).2 ∧ window_seconds (submit s m).2 = window_seconds m ∧
  (∀ k, k.1 ≠ sb_attachment_id s → dict_get k (windows (submit s m).2) = dict_get k (windows m)) ∧
  step_ok (sb_attachment_id s) (Op_submit s) m (submit s m).1 (submit s m).2.
Proof.
  intros Hm. set (a := sb_attachment_id s). unfold step_ok, submit.
  assert (records_of a [Op_submit s] = [s]) as -> by (cbn; by rewrite decide_True).
  destruct (bool_decide_reflect (oc_event_type (sb_outcome s) ∉ COLLAPSE_ELIGIBLE)) as [Hn|Hn].
  - assert (¬ is_activity s) as Hna by (unfold is_activity, COLLAPSE_ELIGIBLE in *; set_solver).
    split_and!; try done. intros b Hb. exists [], b. cbn [fst snd].
    rewrite (filter_cons_False is_activity) by done.
    rewrite (filter_cons_True (λ s, ¬ is_activity s)) by done.
    rewrite (filter_cons_False _ (passed_through s)) by exact Hna.
    rewrite (filter_cons_True _ (passed_through s)) by exact Hna. rewrite app_nil_r. by split_and!.
  - apply dec_stable in Hn. assert (is_activity s) as Ha.
    { unfold is_activity, COLLAPSE_ELIGIBLE in *. set_solver. }
    unfold is_activity in Ha. rewrite Ha. change (sb_attachment_id s, "activity"%string) with (activity_key a).
    assert (∀ m', wf_windows m' → wf_windows (open_window (activity_key a) s m')) as Hopen.
    { intros m' Hm'. by apply dict_set_nodup. }
    assert (∀ m' k, k.1 ≠ a → dict_get k (windows (open_window (activity_key a) s m')) =
                              dict_get k (windows m')) as Hget.
    { intros m' k Hk. cbn. rewrite dict_get_set. by rewrite decide_False by (intros ->; done). }
    rewrite (filter_cons_True is_activity) by done.
    rewrite (filter_cons_False (λ s, ¬ is_activity s)) by (by intros []).
    rewrite !filter_nil. cbn [fmap list_fmap].
    destruct (dict_get (activity_key a) (windows m)) as [w|] eqn:Ew.
    + destruct (expired m (sb_monotonic s) w) eqn:Ex.
      * pose proof (dict_del_keys (activity_key a) _ Hm) as [Hnd _].
        cbn [close_window fst snd]. split_and!; [by apply Hopen|done| |].
        { intros k Hk. rewrite Hget by done. cbn. rewrite dict_get_del by done.
          by rewrite decide_False by (intros ->; done). }
        intros b Hb. unfold open_block in Hb. rewrite Ew in Hb.
        exists [b], [s]. split; [apply open_window_tracks|]. cbn [concat]. rewrite app_nil_r.
        rewrite filter_cons_True by done. rewrite filter_cons_False by (by intros []).
        rewrite !filter_nil. split; [done|]. split; [|done]. constructor; [|constructor].
        by apply (tracks_closed _ (activity_key a) w b (sb_observed_at s) m).
      * cbn [fst snd]. split_and!; [by apply dict_set_nodup|done| |].
        { intros k Hk. cbn. rewrite dict_get_set. by rewrite decide_False by (intros ->; done). }
        intros b Hb. unfold open_block in Hb. rewrite Ew in Hb. exists [], (b ++ [s]).
        split; [|by split_and!]. unfold open_block. cbn. rewrite dict_get_set, decide_True by done.
        apply collapse_tracks; [done|]. unfold expired in Ex. lia.
    + cbn [fst snd]. split_and!; [by apply Hopen|done|by apply Hget|].
      intros b Hb. unfold open_block in Hb. rewrite Ew in Hb. subst b. exists [], [s].
      split; [apply open_window_tracks|by split_and!].
Qed.

(** Flushing the keys of one attachment closes its window at most once. *)
Lemma flush_keys_own mono at_ a keys m b :
  wf_windows m → open_block a m b → Forall (λ k, k.1 = a → k = activity_key a) keys →
  ∃ blocks b', open_block a (flush_keys mono at_ (Some a) keys m).2 b' ∧ concat blocks ++ b' = b ∧
    Forall2 (summarises (window_seconds m)) (flush_keys mono at_ (Some a) keys m).1 blocks.
Proof.
  intros Hm Hb Hk. revert m b Hm Hb. induction Hk as [|k keys Hk _ IH]; intros m b Hm Hb.
  { exists [], b. cbn. by split_and!. }
  cbn [flush_keys]. unfold flush_one. destruct (bool_decide_reflect (k.1 ≠ a)) as [Hne|Heq].
  { specialize (IH m b Hm Hb). by destruct (flush_keys _ _ _ _ _). }
  apply dec_stable in Heq. rewrite (Hk Heq).
  destruct (dict_get (activity_key a) (windows m)) as [w|] eqn:E;
    [|specialize (IH m b Hm Hb); by destruct (flush_keys _ _ _ _ _)].
  destruct (expired m mono w); [|specialize (IH m b Hm Hb); by destruct (flush_keys _ _ _ _ _)].
  cbn [close_window]. destruct (dict_del_keys (activity_key a) (windows m) Hm) as [Hnd _].
  unfold open_block in Hb. rewrite E in Hb.
  set (m1 := set_windows (dict_del (activity_key a) (windows m)) m).
  assert (open_block a m1 []) as Hb1.
  { unfold open_block. cbn. rewrite dict_get_del by done. by rewrite decide_True. }
  destruct (IH m1 [] Hnd Hb1) as (blocks & b' & I1 & I2 & I3).
  destruct (flush_keys mono at_ (Some a) keys m1) as [es' m2]. cbn [fst snd app] in *.
  exists (b :: blocks), b'. split; [done|]. cbn [concat]. rewrite <- app_assoc, I2, app_nil_r.
  split; [done|]. constructor; [|done]. by apply (tracks_closed _ (activity_key a) w b at_ m).
Qed.

(** Only activity opens windows. *)
Definition activity_keys (m : DebounceManager) : Prop :=
  Forall (λ k, k.2 = "activity"%string) (windows m).*1.

Lemma activity_keys_set a s m : activity_keys m → activity_keys (open_window (activity_key a) s m).
Proof.
  unfold activity_keys. intros Hm. cbn. rewrite dict_set_keys. case_decide; [done|].
  apply Forall_app_2; [done|]. by apply Forall_singleton.
Qed.

Lemma activity_keys_del k m :
  wf_windows m → activity_keys m → activity_keys (set_windows (dict_del k (windows m)) m).
Proof.
  intros Hm Ha. apply Forall_forall. intros x Hx. apply (proj1 (Forall_forall _ _) Ha).
  by apply (dict_del_keys k (windows m) Hm).
Qed.

Lemma submit_activity_keys s m : wf_windows m → activity_keys m → activity_keys (submit s m).2.
Proof.
  intros Hm Ha. unfold submit. case_bool_decide as He; [done|].
  assert (oc_event_type (sb_outcome s) = "activity"%string) as ->
    by (unfold COLLAPSE_ELIGIBLE in He; set_solver).
  change (sb_attachment_id s, "activity"%string) with (activity_key (sb_attachment_id s)).
  destruct (dict_get _ _) as [w|] eqn:Ew; [|by apply activity_keys_set].
  destruct (expired m _ w); cbn [close_window fst snd].
  - by apply activity_keys_set, activity_keys_del.
  - unfold activity_keys. cbn. rewrite dict_set_keys. case_decide; [done|].
    apply Forall_app_2; [done|]. by apply Forall_singleton.
Qed.

Lemma flush_activity_keys mono at_ a keys m :
  wf_windows m → activity_keys m → activity_keys (flush_keys mono at_ (Some a) keys m).2.
Proof.
  revert m. induction keys as [|k keys IH]; intros m Hm Ha; cbn [flush_keys]; [done|].
  assert (wf_windows (flush_one mono at_ (Some a) k m).2 ∧
          activity_keys (flush_one mono at_ (Some a) k m).2) as [H1 H2].
  { unfold flush_one. case_match; [done|]. destruct (dict_get k _); [|done].
    destruct (expired m mono _); [|done]. cbn. split; [by apply dict_del_keys|by apply activity_keys_del]. }
  destruct (flush_one _ _ _ _ _) as [es m1]. specialize (IH m1 H1 H2).
  by destruct (flush_keys _ _ _ _ m1).
Qed.

Definition sound (m : DebounceManager) : Prop := wf_windows m ∧ activity_keys m.

Lemma apply_op_spec op m :
  sound m →
  sound (apply_op op m).2 ∧ window_seconds (apply_op op m).2 = window_seconds m ∧
  (∀ k, k.1 ≠ op_attachment op → dict_get k (windows (apply_op op m).2) = dict_get k (windows m)) ∧
  step_ok (op_attachment op) op m (apply_op op m).1 (apply_op op m).2.
Proof.
  intros [Hm Ha]. destruct op as [s|a mono at_]; cbn [apply_op op_attachment].
  - destruct (submit_spec s m Hm) as (H1 & H2 & H3 & H4).
    split_and!; try done. split; [done|]. by apply submit_activity_keys.
  - unfold flush_expired. destruct (flush_keys_spec mono at_ a (windows m).*1 m Hm) as (H1 & H2 & H3).
    split_and!; try done; [split; [done|by apply flush_activity_keys]|].
    intros b Hb.
    destruct (flush_keys_own mono at_ a (windows m).*1 m b) as (blocks & b' & I1 & I2 & I3); [done|done| |].
    { eapply Forall_impl; [exact Ha|]. intros [x c]. cbn. by intros -> ->. }
    exists blocks, b'. cbn [records_of omap list_omap]. rewrite filter_nil, app_nil_r.
    set (es := (flush_keys mono at_ (Some a) (windows m).*1 m).1) in *.
    assert (Forall (λ e, pe_event_type e = "activity"%string) es) as Hes.
    { eapply Forall2_Forall_l; [exact I3|]. apply Forall_true. intros b0 e (s0 & s1 & _ & _ & E & _). done. }
    rewrite filter_id_Forall by done. split_and!; try done.
    apply filter_nil_Forall. eapply Forall_impl; [exact Hes|]. by intros e -> [].
Qed.

(** ** Any history *)

Lemma emitted_for_partition a ops m b :
  sound m → open_block a m b →
  ∃ blocks b', open_block a (emitted_for a ops m).2 b' ∧
    concat blocks ++ b' = b ++ filter is_activity (records_of a ops) ∧
    Forall2 (summarises (window_seconds m))
      (filter (λ e, pe_event_type e = "activity"%string) (emitted_for a ops m).1) blocks ∧
    filter (λ e, pe_event_type e ≠ "activity"%string) (emitted_for a ops m).1 =
      passed_through <$> filter (λ s, ¬ is_activity s) (records_of a ops).
Proof.
  revert m b. induction ops as [|op ops IH]; intros m b Hs Hb.
  { exists [], b. cbn. rewrite app_nil_r. by split_and!. }
  destruct (apply_op_spec op m Hs) as (Hs1 & HW & Hframe & Hstep). cbn [emitted_for].
  change (records_of a (op :: ops)) with (records_of a ([op] ++ ops)).
  unfold records_of. rewrite omap_app. fold (records_of a [op]) (records_of a ops).
  rewrite !filter_app, fmap_app.
  destruct (apply_op op m) as [es m1]. cbn [fst snd] in *.
  assert (∃ blocks b', open_block a m1 b' ∧
    concat blocks ++ b' = b ++ filter is_activity (records_of a [op]) ∧
    Forall2 (summarises (window_seconds m))
      (filter (λ e, pe_event_type e = "activity"%string) (if decide (op_attachment op = a) then es else [])) blocks ∧
    filter (λ e, pe_event_type e ≠ "activity"%string) (if decide (op_attachment op = a) then es else []) =
      passed_through <$> filter (λ s, ¬ is_activity s) (records_of a [op]))
    as (bl1 & b1 & J1 & J2 & J3 & J4).
  { destruct (decide (op_attachment op = a)) as [<-|Hne]; [by apply Hstep|].
    assert (records_of a [op] = []) as ->.
    { destruct op; [cbn; by rewrite decide_False by done|done]. }
    exists [], b. unfold open_block in *. rewrite Hframe by done. rewrite HW, app_nil_r. by split_and!. }
  destruct (IH m1 b1 Hs1 J1) as (bl2 & b2 & K1 & K2 & K3 & K4).
  destruct (emitted_for a ops m1) as [es' m2]. cbn [fst snd] in *. exists (bl1 ++ bl2), b2.
  rewrite !filter_app, concat_app, <- app_assoc, K2, app_assoc, J2, <- app_assoc.
  rewrite HW in K3. split_and!; [done..|by apply Forall2_app|by rewrite J4, K4].
Qed.

(** C29: whatever the interleaving of submissions and flushes of any attachments, the
    activity records of an attachment are cut into consecutive blocks in the order they
    were submitted: every emitted activity event summarises one block, with its exact
    count, the start of its first and the end of its last record, and no block reaches
    further than the window length from its first record; the records not yet emitted
    are those of the open window.  Every other record is one event of its own. *)
Theorem debounce_partitions a ops W ids :
  let r := emitted_for a ops (mkDebounce W [] ids) in
  ∃ blocks b, open_block a r.2 b ∧
    concat blocks ++ b = filter is_activity (records_of a ops) ∧
    Forall2 (summarises W) (filter (λ e, pe_event_type e = "activity"%string) r.1) blocks ∧
    filter (λ e, pe_event_type e ≠ "activity"%string) r.1 =
      passed_through <$> filter (λ s, ¬ is_activity s) (records_of a ops).
Proof.
  intros r. destruct (emitted_for_partition a ops (mkDebounce W [] ids) []) as (blocks & b & H);
    [|done|by exists blocks, b].
  split; [apply NoDup_nil_2|constructor].
Qed.
