(* ===== verification/Session.v ===== *)
(** One SQLite session on a database of any shape, for the components whose
    connections are short-lived: a statement outside a transaction may find that
    others have committed since ([meddling]), and every statement consumes one of
    the engine's [answers], as in Store.v.  [BEGIN IMMEDIATE] takes the write
    lock, so nothing moves until the transaction ends; closing a connection rolls
    back what it left open.

    Weakest preconditions here carry a relation [R] that every foreign commit
    respects: a program is verified against all schedules of the others. *)

From S2P Require Import Prelude Errors Permissions Store.

Record session (D : Type) := mkSession {
  saved : D;
  tx : option D;
  answers : list (option sql_fault);
  meddling : list (D → D)
}.
Arguments mkSession {D}.
Arguments saved {D}.
Arguments tx {D}.
Arguments answers {D}.
Arguments meddling {D}.

(** [sqlite3.Error]; the last name is an [IntegrityError] on a primary key. *)
Definition SQLITE_ERRORS : list string :=
  ["Error"; "DatabaseError"; "InterfaceError"; "DataError"; "InternalError";
   "ProgrammingError"; "NotSupportedError"; "IntegrityError/PRIMARYKEY"].
Definition is_sqlite_error (e : exn) : bool :=
  match e with
  | OperationalError _ | IntegrityError => true
  | PyError n => bool_decide (n ∈ SQLITE_ERRORS)
  | _ => false
  end.

Module Sql.
Section Statements.
Context {D : Type}.

(** What the others commit before a statement of ours runs. *)
Definition settle (s : session D) : session D :=
  match tx s, meddling s with
  | None, f :: rest => mkSession (f (saved s)) None (answers s) rest
  | _, _ => s
  end.

Definition statement : M (session D) unit := λ s0,
  let s := settle s0 in
  match answers s with
  | [] => (Ok tt, s)
  | None :: rest => (Ok tt, mkSession (saved s) (tx s) rest (meddling s))
  | Some f :: rest =>
      (Raise (fault_exn f), mkSession (saved s) (tx s) rest (meddling s))
  end.

Definition view (s : session D) : D := default (saved s) (tx s).

Definition set_view (d : D) (s : session D) : session D :=
  match tx s with
  | Some _ => mkSession (saved s) (Some d) (answers s) (meddling s)
  | None => mkSession d None (answers s) (meddling s)
  end.

Definition read {A} (f : D → A) : M (session D) A :=
  _ ← statement; lift (λ s, (Ok (f (view s)), s)).

Definition write {A} (f : D → outcome (A * D)) : M (session D) A :=
  _ ← statement;
  lift (λ s, match f (view s) with
             | Ok (a, d) => (Ok a, set_view d s)
             | Raise e => (Raise e, s)
             end).

Definition begin_immediate : M (session D) unit :=
  _ ← statement;
  lift (λ s, match tx s with
             | Some _ => (Raise (OperationalError "cannot start a transaction within a transaction"), s)
             | None => (Ok tt, mkSession (saved s) (Some (saved s)) (answers s) (meddling s))
             end).

Definition commit : M (session D) unit :=
  _ ← statement;
  lift (λ s, match tx s with
             | Some d => (Ok tt, mkSession d None (answers s) (meddling s))
             | None => (Raise (OperationalError "cannot commit - no transaction is active"), s)
             end).

Definition rollback : M (session D) unit := λ s,
  match tx s with
  | Some _ => (Ok tt, mkSession (saved s) None (answers s) (meddling s))
  | None => (Raise (OperationalError "cannot rollback - no transaction is active"), s)
  end.

(** [conn.close()] *)
Definition close : M (session D) unit :=
  modify (λ s, mkSession (saved s) None (answers s) (meddling s)).

(** [BEGIN IMMEDIATE; try: m; COMMIT; except Exception: ROLLBACK; raise] *)
Definition transaction {A} (m : M (session D) A) : M (session D) A :=
  _ ← begin_immediate;
  except (a ← m; _ ← commit; mret a) (λ e, _ ← rollback; throw e).

(** The process went down and came back: nothing stays open. *)
Definition reopened (s : session D) : session D :=
  mkSession (saved s) None (answers s) (meddling s).
End Statements.
End Sql.

(** ** Weakest preconditions *)

Section Rules.
Context {D : Type} (R : relation D) `{!PreOrder R}.

(** Every foreign commit to come respects [R]. *)
Definition tame (s : session D) : Prop := Forall (λ f, ∀ d, R d (f d)) (meddling s).

(** [s'] is [s] after statements of ours that changed nothing. *)
Record passed (s s' : session D) : Prop := mkPassed {
  passed_saved : R (saved s) (saved s');
  passed_tame : tame s';
  passed_tx : tx s' = tx s;
  passed_tx_saved : tx s ≠ None → saved s' = saved s
}.

Lemma passed_refl s : tame s → passed s s.
Proof. by constructor. Qed.

Lemma passed_trans s1 s2 s3 : passed s1 s2 → passed s2 s3 → passed s1 s3.
Proof.
  intros [A1 A2 A3 A4] [B1 B2 B3 B4]. constructor; [by trans (saved s2)|done|congruence|].
  intros H. rewrite B4 by congruence. by apply A4.
Qed.

Lemma settle_passed s : tame s → passed s (Sql.settle s).
Proof.
  unfold Sql.settle, tame. intros H. destruct (tx s) eqn:E; [by apply passed_refl|].
  destruct (meddling s) as [|f rest] eqn:Em; [by apply passed_refl; unfold tame; rewrite Em|].
  inversion H; subst. constructor; simpl; auto; by intros [].
Qed.

Lemma wp_stmt Q s :
  tame s →
  (∀ s', passed s s' → Q (Ok tt) s') →
  (∀ f s', passed s s' → Q (Raise (fault_exn f)) s') →
  wp Sql.statement Q s.
Proof.
  intros Ht Hok Hf. pose proof (settle_passed s Ht) as Hp. unfold wp, Sql.statement.
  set (s1 := Sql.settle s) in *. clearbody s1. destruct Hp as [P1 P2 P3 P4].
  destruct (answers s1) as [|[f|] rest]; simpl; [apply Hok|apply Hf|apply Hok];
    by constructor.
Qed.

Lemma wp_read {A} (f : D → A) Q s :
  tame s →
  (∀ s', passed s s' → Q (Ok (f (Sql.view s'))) s') →
  (∀ e s', passed s s' → Q (Raise (fault_exn e)) s') →
  wp (Sql.read f) Q s.
Proof. intros Ht Hok Hf. apply wp_bind, wp_stmt; [done|by apply Hok|by apply Hf]. Qed.

(** A write inside a transaction. *)
Lemma wp_write {A} (f : D → outcome (A * D)) d Q s :
  tame s → tx s = Some d →
  (∀ a d' s', f d = Ok (a, d') → saved s' = saved s → tx s' = Some d' → tame s' → Q (Ok a) s') →
  (∀ e s', f d = Raise e → passed s s' → Q (Raise e) s') →
  (∀ e s', passed s s' → Q (Raise (fault_exn e)) s') →
  wp (Sql.write f) Q s.
Proof.
  intros Ht E Hok Hr Hf. apply wp_bind, wp_stmt; [done| |by apply Hf].
  intros s' Hp. destruct Hp as [P1 P2 P3 P4]. unfold wp, lift. simpl.
  assert (Sql.view s' = d) as -> by (unfold Sql.view; by rewrite P3, E).
  destruct (f d) as [[a d']|e] eqn:Ef; simpl.
  - apply (Hok a d'); [done|..]; unfold Sql.set_view; rewrite P3, E; simpl;
      [|done|done]. apply P4. by rewrite E.
  - apply Hr; [done|by constructor].
Qed.

(** A write of its own transaction. *)
Lemma wp_autocommit {A} (f : D → outcome (A * D)) Q s :
  tame s → tx s = None →
  (∀ a d0 d' s', R (saved s) d0 → f d0 = Ok (a, d') → saved s' = d' → tx s' = None →
                 tame s' → Q (Ok a) s') →
  (∀ e s', passed s s' → f (saved s') = Raise e → Q (Raise e) s') →
  (∀ e s', passed s s' → Q (Raise (fault_exn e)) s') →
  wp (Sql.write f) Q s.
Proof.
  intros Ht E Hok Hr Hf. apply wp_bind, wp_stmt; [done| |by apply Hf].
  intros s' Hp. pose proof Hp as [P1 P2 P3 P4]. unfold wp, lift. simpl.
  assert (Sql.view s' = saved s') as -> by (unfold Sql.view; by rewrite P3, E).
  destruct (f (saved s')) as [[a d']|e] eqn:Ef; simpl; [|by apply Hr].
  unfold Sql.set_view. rewrite P3, E. by apply (Hok a (saved s') d').
Qed.

Lemma wp_sql_begin Q s :
  tame s → tx s = None →
  (∀ s', R (saved s) (saved s') → tx s' = Some (saved s') → tame s' → Q (Ok tt) s') →
  (∀ e s', passed s s' → Q (Raise (fault_exn e)) s') →
  wp Sql.begin_immediate Q s.
Proof.
  intros Ht E Hok Hf. apply wp_bind, wp_stmt; [done| |by apply Hf].
  intros s' [P1 P2 P3 P4]. unfold wp, lift. simpl. rewrite P3, E. by apply Hok.
Qed.

Lemma wp_sql_commit d Q s :
  tame s → tx s = Some d →
  (∀ s', saved s' = d → tx s' = None → tame s' → Q (Ok tt) s') →
  (∀ e s', passed s s' → Q (Raise (fault_exn e)) s') →
  wp Sql.commit Q s.
Proof.
  intros Ht E Hok Hf. apply wp_bind, wp_stmt; [done| |by apply Hf].
  intros s' [P1 P2 P3 P4]. unfold wp, lift. simpl. rewrite P3, E. by apply Hok.
Qed.

(** A transaction either commits what its body did to one snapshot, or leaves the
    database to the others.  [I d d'] is what the body has done so far. *)
Lemma wp_transaction {A} (m : M (session D) A) (I : D → outcome A → D → Prop) Q s :
  tame s → tx s = None →
  (∀ s1, R (saved s) (saved s1) → tx s1 = Some (saved s1) → tame s1 →
     wp m (λ o s2, saved s2 = saved s1 ∧ tame s2 ∧
                   ∃ d, tx s2 = Some d ∧ I (saved s1) o d) s1) →
  (∀ a d0 d s', R (saved s) d0 → I d0 (Ok a) d → saved s' = d → tx s' = None → tame s' →
     Q (Ok a) s') →
  (∀ e s', R (saved s) (saved s') → (tx s' = None ∨ is_exception e = false) → tame s' →
     Q (Raise e) s') →
  wp (Sql.transaction m) Q s.
Proof.
  intros Ht E Hm Hok Hr. apply wp_bind, wp_sql_begin; [done|done| |].
  2:{ intros e s' [P1 P2 P3 P4]. apply Hr; [done|left; by rewrite P3|done]. }
  intros s1 H1 Htx1 Ht1. apply wp_except, wp_bind.
  eapply wp_mono; [|by apply Hm]. intros o s2 (Es & Ht2 & d & Ed & HI). cbn beta.
  assert (∀ e s3, saved s3 = saved s1 → tx s3 ≠ None → tame s3 →
    if is_exception e then wp (_ ← Sql.rollback; throw e) Q s3 else Q (Raise e) s3) as Hback.
  { intros e s3 E3 Hn3 Ht3. destruct (is_exception e) eqn:Ee.
    - destruct (tx s3) as [d3|] eqn:Et3; [|done]. unfold wp, mbind, M_bind, Sql.rollback.
      rewrite Et3. cbn. apply Hr; [by rewrite E3|by left|done].
    - apply Hr; [by rewrite E3|by right|done]. }
  destruct o as [a|e]; [|apply Hback; [done|by rewrite Ed|done]].
  apply wp_bind. eapply wp_sql_commit; [done|done| |].
  - intros s3 E3 Htx3 Ht3. apply wp_ret. by eapply Hok.
  - intros e s3 [P1 P2 P3 P4]. apply Hback; [|by rewrite P3, Ed|done].
    rewrite P4; [done|by rewrite Ed].
Qed.
End Rules.

Lemma wp_zoom {W S A} (get_ : W → S) (put_ : S → W → W) (m : M S A) Q w :
  wp m (λ o s', Q o (put_ s' w)) (get_ w) → wp (zoom get_ put_ m) Q w.
Proof. unfold wp, zoom. by destruct (m (get_ w)). Qed.
