(* ===== verification/Tables.v ===== *)
(** The daemon's database outside routing (src/src/agenttower/state/schema.py,
    migrations v2 to v7): containers and panes found by discovery, registered agents,
    log attachments and their offsets, and the durable events of the classifier, with
    the constraints their tables declare.

    It is the same SQLite file as the one of Store.v, seen by other components: each
    view has the columns its components read and write.  Tables whose rows have a
    text key are maps; [agents], [log_attachments] and [events] keep their row order.
    JSON columns hold the values they encode. *)

From S2P Require Import Prelude Errors Agents Permissions Store Classifier.

(** ** Rows *)

Definition pane_key : Type := string * string * string * Z * Z * string.

Definition PaneCompositeKey (container socket session : string) (window pane : Z) (id : string)
  : pane_key := (container, socket, session, window, pane, id).

Definition key_container (k : pane_key) : string :=
  let '(c, _, _, _, _, _) := k in c.
Definition key_socket (k : pane_key) : string :=
  let '(_, s, _, _, _, _) := k in s.

Record Mount := mkMount {
  mt_source : string; mt_target : string; mt_type : string; mt_mode : string; mt_rw : bool
}.

Record ContainerRec := mkContainerRec {
  cr_container_id : string; cr_name : string; cr_image : string; cr_status : string;
  cr_labels : list (string * string); cr_mounts : list Mount; cr_inspect : string;
  cr_config_user : option string; cr_working_dir : option string; cr_active : bool;
  cr_first_seen_at : string; cr_last_scanned_at : string
}.

Record ContainerScanRow := mkContainerScan {
  cs_scan_id : string; cs_started_at : string; cs_completed_at : string; cs_status : string;
  cs_matched_count : nat; cs_inactive_reconciled_count : nat; cs_ignored_count : nat;
  cs_error_code : option string; cs_error_message : option string;
  cs_error_details : option (list (string * string * string))
}.

Record PaneRec := mkPaneRec {
  pr_container_id : string; pr_tmux_socket_path : string; pr_tmux_session_name : string;
  pr_tmux_window_index : Z; pr_tmux_pane_index : Z; pr_tmux_pane_id : string;
  pr_container_name : string; pr_container_user : string; pr_pane_pid : Z;
  pr_pane_tty : string; pr_pane_current_command : string; pr_pane_current_path : string;
  pr_pane_title : string; pr_pane_active : bool; pr_active : bool;
  pr_first_seen_at : string; pr_last_scanned_at : string
}.

(** A failure of a scan: container, socket, code, message, and the fields of panes that were
    cut: container, socket, pane id, field, length. *)
Definition truncation_note : Type := string * string * string * string * nat.
Definition scan_error : Type := string * option string * string * string * list truncation_note.

Record PaneScanRow := mkPaneScan {
  ps_scan_id : string; ps_started_at : string; ps_completed_at : string; ps_status : string;
  ps_containers_scanned : nat; ps_sockets_scanned : nat; ps_panes_seen : nat;
  ps_panes_newly_active : nat; ps_panes_reconciled_inactive : nat;
  ps_containers_skipped_inactive : nat; ps_containers_tmux_unavailable : nat;
  ps_error_code : option string; ps_error_message : option string;
  ps_error_details : option (list scan_error)
}.

Definition pane_composite_key (p : PaneRec) : pane_key :=
  PaneCompositeKey (pr_container_id p) (pr_tmux_socket_path p) (pr_tmux_session_name p)
    (pr_tmux_window_index p) (pr_tmux_pane_index p) (pr_tmux_pane_id p).

Definition agent_composite_key (a : AgentRecord) : pane_key :=
  PaneCompositeKey (container_id a) (tmux_socket_path a) (tmux_session_name a)
    (tmux_window_index a) (tmux_pane_index a) (tmux_pane_id a).

Record LogAttachmentRecord := mkAttachment {
  la_attachment_id : string; la_agent_id : string; la_container_id : string;
  la_tmux_socket_path : string; la_tmux_session_name : string; la_tmux_window_index : Z;
  la_tmux_pane_index : Z; la_tmux_pane_id : string; la_log_path : string;
  la_status : string; la_source : string; la_pipe_pane_command : string;
  la_prior_pipe_target : option string; la_attached_at : string; la_last_status_at : string;
  la_superseded_at : option string; la_superseded_by : option string; la_created_at : string
}.

Definition attachment_composite_key (a : LogAttachmentRecord) : pane_key :=
  PaneCompositeKey (la_container_id a) (la_tmux_socket_path a) (la_tmux_session_name a)
    (la_tmux_window_index a) (la_tmux_pane_index a) (la_tmux_pane_id a).

Record LogOffsetRecord := mkOffset {
  lo_agent_id : string; lo_log_path : string; lo_byte_offset : Z; lo_line_offset : Z;
  lo_last_event_offset : Z; lo_last_output_at : option string; lo_file_inode : option string;
  lo_file_size_seen : Z; lo_created_at : string; lo_updated_at : string
}.

(** [events.dao.EventRow] *)
Record DurableEvent := mkDurable {
  de_event_id : Z; de_event_type : string; de_agent_id : string;
  de_attachment_id : option string; de_log_path : option string;
  de_byte_range_start : option Z; de_byte_range_end : option Z;
  de_line_offset_start : option Z; de_line_offset_end : option Z;
  de_observed_at : string; de_record_at : option string; de_excerpt : string;
  de_classifier_rule_id : option string; de_window_id : option string;
  de_collapsed_count : Z; de_window_started_at : option string;
  de_window_ended_at : option string; de_schema_version : Z;
  de_jsonl_appended_at : option string
}.

#[export] Instance Mount_eq_dec : EqDecision Mount.
Proof. solve_decision. Defined.
#[export] Instance ContainerRec_eq_dec : EqDecision ContainerRec.
Proof. solve_decision. Defined.
#[export] Instance PaneRec_eq_dec : EqDecision PaneRec.
Proof. solve_decision. Defined.
#[export] Instance LogAttachmentRecord_eq_dec : EqDecision LogAttachmentRecord.
Proof. solve_decision. Defined.
#[export] Instance LogOffsetRecord_eq_dec : EqDecision LogOffsetRecord.
Proof. solve_decision. Defined.
#[export] Instance DurableEvent_eq_dec : EqDecision DurableEvent.
Proof. solve_decision. Defined.

(** ** The database *)

Record tower_db := mkTowerDb {
  containers : gmap string ContainerRec;
  container_scans : list ContainerScanRow;
  panes : gmap pane_key PaneRec;
  pane_scans : list PaneScanRow;
  agents : list AgentRecord;
  log_attachments : list LogAttachmentRecord;
  log_offsets : gmap (string * string) LogOffsetRecord;
  durable : list DurableEvent;
  durable_seq : Z      (* sqlite_sequence: the largest event id ever used *)
}.

Definition set_containers x d := mkTowerDb x (container_scans d) (panes d) (pane_scans d) (agents d)
  (log_attachments d) (log_offsets d) (durable d) (durable_seq d).
Definition set_container_scans x d := mkTowerDb (containers d) x (panes d) (pane_scans d) (agents d)
  (log_attachments d) (log_offsets d) (durable d) (durable_seq d).
Definition set_panes x d := mkTowerDb (containers d) (container_scans d) x (pane_scans d) (agents d)
  (log_attachments d) (log_offsets d) (durable d) (durable_seq d).
Definition set_pane_scans x d := mkTowerDb (containers d) (container_scans d) (panes d) x (agents d)
  (log_attachments d) (log_offsets d) (durable d) (durable_seq d).
Definition set_agents x d := mkTowerDb (containers d) (container_scans d) (panes d) (pane_scans d) x
  (log_attachments d) (log_offsets d) (durable d) (durable_seq d).
Definition set_log_attachments x d := mkTowerDb (containers d) (container_scans d) (panes d)
  (pane_scans d) (agents d) x (log_offsets d) (durable d) (durable_seq d).
Definition set_log_offsets x d := mkTowerDb (containers d) (container_scans d) (panes d)
  (pane_scans d) (agents d) (log_attachments d) x (durable d) (durable_seq d).
Definition set_durable x n d := mkTowerDb (containers d) (container_scans d) (panes d)
  (pane_scans d) (agents d) (log_attachments d) (log_offsets d) x n.

Definition empty_tower : tower_db := mkTowerDb ∅ [] ∅ [] [] [] ∅ [] 0.

(** ** Constraints *)

Definition VALID_STATUSES : list string := ["active"; "superseded"; "stale"; "detached"].
Definition VALID_SOURCES : list string := ["explicit"; "register_self"].
Definition AGENT_ROLES : list string :=
  ["master"; "slave"; "swarm"; "test-runner"; "shell"; "unknown"].
Definition AGENT_CAPABILITIES : list string :=
  ["claude"; "codex"; "gemini"; "opencode"; "shell"; "test-runner"; "unknown"].
(** The types the rebuilt [events] table accepts besides the classifier's. *)
Definition AUDIT_EVENT_TYPES : list string :=
  ["queue_message_enqueued"; "queue_message_delivered"; "queue_message_blocked";
   "queue_message_failed"; "queue_message_canceled"; "queue_message_approved";
   "queue_message_delayed"; "routing_toggled"].

(** The CHECKs of [agents]. *)
Definition check_agent (a : AgentRecord) : bool :=
  bool_decide (role a ∈ AGENT_ROLES) && bool_decide (capability a ∈ AGENT_CAPABILITIES).

(** The CHECKs of [log_attachments]. *)
Definition check_attachment (a : LogAttachmentRecord) : bool :=
  bool_decide (la_status a ∈ VALID_STATUSES) && bool_decide (la_source a ∈ VALID_SOURCES).

Definition range_ok (lo hi : option Z) : bool :=
  match lo, hi with
  | None, None => true
  | Some a, Some b => (0 <=? a)%Z && (a <=? b)%Z
  | _, _ => false
  end.

(** The CHECKs of [events]. *)
Definition check_event (e : DurableEvent) : bool :=
  bool_decide (de_event_type e ∈ EVENT_TYPES ++ AUDIT_EVENT_TYPES) &&
  range_ok (de_byte_range_start e) (de_byte_range_end e) &&
  range_ok (de_line_offset_start e) (de_line_offset_end e) &&
  negb (is_set (de_record_at e)) && (1 <=? de_collapsed_count e)%Z && (1 <=? de_schema_version e)%Z.

(** The primary key and the UNIQUE pane key of [agents]. *)
Definition agent_clash (a b : AgentRecord) : bool :=
  bool_decide (agent_id a = agent_id b) ||
  bool_decide (agent_composite_key a = agent_composite_key b).

(** The primary key of [log_attachments] and its UNIQUE index on the path of active rows. *)
Definition attachment_clash (a b : LogAttachmentRecord) : bool :=
  bool_decide (la_attachment_id a = la_attachment_id b) ||
  (bool_decide (la_log_path a = la_log_path b) &&
   bool_decide (la_status a = "active") && bool_decide (la_status b = "active")).

(** No two rows clash. *)
Fixpoint clash_free {A} (clash : A → A → bool) (l : list A) : bool :=
  match l with
  | [] => true
  | x :: rest => forallb (λ y, negb (clash x y)) rest && clash_free clash rest
  end.

(** [INSERT] and [UPDATE .. WHERE p] on a table kept as a list of rows. *)
Definition list_insert {A} (check : A → bool) (clash : A → A → bool) (x : A) (l : list A)
  : outcome (list A) :=
  if check x && forallb (λ y, negb (clash x y)) l then Ok (l ++ [x]) else Raise IntegrityError.

Definition list_update {A} (check : A → bool) (clash : A → A → bool) (p : A → bool) (f : A → A)
    (l : list A) : outcome (list A) :=
  let l' := (λ x, if p x then f x else x) <$> l in
  if forallb check l' && clash_free clash l' then Ok l' else Raise IntegrityError.
