(* ===== verification/LogDao.v ===== *)
(** The tables of log attachments and offsets
    (src/src/agenttower/state/log_attachments.py, state/log_offsets.py).

    Where a query orders by [last_status_at] alone, SQLite leaves ties open; the model
    takes the row inserted first. *)

From S2P Require Import Prelude Errors Agents Permissions Store Session Tables.

Definition dao (A : Type) : Type := M (session tower_db) A.

(** ** log_attachments *)

Definition on_attachments (f : list LogAttachmentRecord → outcome (list LogAttachmentRecord))
    (d : tower_db) : outcome (unit * tower_db) :=
  match f (log_attachments d) with
  | Ok l => Ok (tt, set_log_attachments l d)
  | Raise e => Raise e
  end.

(** [log_attachments.insert] *)
Definition insert_attachment (r : LogAttachmentRecord) : dao unit :=
  if bool_decide (la_status r ∉ VALID_STATUSES) then throw (PyError "ValueError")
  else if bool_decide (la_source r ∉ VALID_SOURCES) then throw (PyError "ValueError")
  else Sql.write (on_attachments (list_insert check_attachment attachment_clash r)).

(** The columns [update_status] writes. *)
Definition with_status (st at_ : string) (sup_at sup_by : option string)
    (a : LogAttachmentRecord) : LogAttachmentRecord :=
  mkAttachment (la_attachment_id a) (la_agent_id a) (la_container_id a) (la_tmux_socket_path a)
    (la_tmux_session_name a) (la_tmux_window_index a) (la_tmux_pane_index a) (la_tmux_pane_id a)
    (la_log_path a) st (la_source a) (la_pipe_pane_command a) (la_prior_pipe_target a)
    (la_attached_at a) at_ sup_at sup_by (la_created_at a).

Definition update_status (attachment_id new_status last_status_at : string)
    (superseded_at superseded_by : option string) : dao unit :=
  if bool_decide (new_status ∉ VALID_STATUSES) then throw (PyError "ValueError")
  else Sql.write (on_attachments (list_update check_attachment attachment_clash
    (λ a, bool_decide (la_attachment_id a = attachment_id))
    (with_status new_status last_status_at superseded_at superseded_by))).

Definition is_active (a : LogAttachmentRecord) : Prop := la_status a = "active".
#[export] Instance is_active_dec a : Decision (is_active a).
Proof. unfold is_active. apply _. Defined.

(** [fetchone] on the rows that satisfy the condition. *)
Definition fetch_first (p : LogAttachmentRecord → Prop) `{∀ a, Decision (p a)}
    (d : tower_db) : option LogAttachmentRecord :=
  head (filter p (log_attachments d)).

(** The row [ORDER BY k DESC LIMIT 1] gives: the first with the largest key. *)
Definition newest_of (k : LogAttachmentRecord → list string)
    (best : option LogAttachmentRecord) (a : LogAttachmentRecord) : option LogAttachmentRecord :=
  match best with
  | None => Some a
  | Some b => if decide (keys_le (k a) (k b)) then Some b else Some a
  end.

Definition fetch_newest (k : LogAttachmentRecord → list string)
    (p : LogAttachmentRecord → Prop) `{∀ a, Decision (p a)} (d : tower_db)
  : option LogAttachmentRecord :=
  foldl (newest_of k) None (filter p (log_attachments d)).

Definition select_active_for_agent_path (agent_id log_path : string)
  : dao (option LogAttachmentRecord) :=
  Sql.read (fetch_first (λ a, la_agent_id a = agent_id ∧ la_log_path a = log_path ∧ is_active a)).

Definition select_for_agent_path (agent_id log_path : string) : dao (option LogAttachmentRecord) :=
  Sql.read (fetch_newest (λ a, [la_last_status_at a])
    (λ a, la_agent_id a = agent_id ∧ la_log_path a = log_path)).

Definition select_active_by_log_path (log_path : string) : dao (option LogAttachmentRecord) :=
  Sql.read (fetch_first (λ a, la_log_path a = log_path ∧ is_active a)).

Definition select_active_for_agent (agent_id : string) : dao (option LogAttachmentRecord) :=
  Sql.read (fetch_newest (λ a, [la_last_status_at a]) (λ a, la_agent_id a = agent_id ∧ is_active a)).

Definition select_most_recent_for_agent (agent_id : string) : dao (option LogAttachmentRecord) :=
  Sql.read (fetch_newest (λ a, [la_last_status_at a; la_created_at a; la_attachment_id a])
    (λ a, la_agent_id a = agent_id)).

Definition actives_for_pane (key : pane_key) (d : tower_db) : list LogAttachmentRecord :=
  filter (λ a, attachment_composite_key a = key ∧ is_active a) (log_attachments d).

Definition select_actives_for_pane (key : pane_key) : dao (list LogAttachmentRecord) :=
  Sql.read (actives_for_pane key).

Definition make_stale (now_iso : string) (a : LogAttachmentRecord) : dao unit :=
  Sql.write (on_attachments (list_update check_attachment attachment_clash
    (λ b, bool_decide (la_attachment_id b = la_attachment_id a))
    (λ b, with_status "stale" now_iso (la_superseded_at b) (la_superseded_by b) b))).

Definition cascade_to_stale_for_panes (pane_keys : list pane_key) (now_iso : string)
  : dao (list LogAttachmentRecord) :=
  found ← mapM select_actives_for_pane pane_keys;
  let affected := concat found in
  _ ← mapM (make_stale now_iso) affected;
  mret affected.

(** ** log_offsets *)

Inductive FileChangeKind := UNCHANGED | TRUNCATED | RECREATED | MISSING.
#[export] Instance FileChangeKind_eq_dec : EqDecision FileChangeKind.
Proof. solve_decision. Defined.

Record FileStat := mkStat { st_inode : string; st_size : Z; st_mtime_iso : string }.

(** [detect_file_change], and [_classify_from_stat] of logs/reader_recovery.py, which is
    the same decision on a stat already taken. *)
Definition classify_from_stat (current : option FileStat) (stored_inode : option string)
    (stored_size_seen : Z) : FileChangeKind :=
  match current with
  | None => MISSING
  | Some st =>
      match stored_inode with
      | None => UNCHANGED
      | Some inode =>
          if bool_decide (st_inode st ≠ inode) then RECREATED
          else if (st_size st <? stored_size_seen)%Z then TRUNCATED else UNCHANGED
      end
  end.

Definition insert_initial (agent_id log_path timestamp : string) : dao unit :=
  Sql.write (λ d,
    match log_offsets d !! (agent_id, log_path) with
    | Some _ => Raise IntegrityError
    | None =>
        Ok (tt, set_log_offsets (<[(agent_id, log_path) :=
              mkOffset agent_id log_path 0 0 0 None None 0 timestamp timestamp]>
              (log_offsets d)) d)
    end).

Definition select_offset (agent_id log_path : string) : dao (option LogOffsetRecord) :=
  Sql.read (λ d, log_offsets d !! (agent_id, log_path)).

Definition update_offset (agent_id log_path : string) (f : LogOffsetRecord → LogOffsetRecord)
  : dao unit :=
  Sql.write (λ d, Ok (tt, set_log_offsets (alter f (agent_id, log_path) (log_offsets d)) d)).

(** [log_offsets.reset] *)
Definition reset_offset (agent_id log_path : string) (file_inode : option string)
    (file_size_seen : Z) (timestamp : string) : dao unit :=
  update_offset agent_id log_path (λ o,
    mkOffset (lo_agent_id o) (lo_log_path o) 0 0 0 (lo_last_output_at o) file_inode
      file_size_seen (lo_created_at o) timestamp).

Definition update_file_observation (agent_id log_path : string) (file_inode : option string)
    (file_size_seen : Z) (last_output_at : option string) (timestamp : string) : dao unit :=
  update_offset agent_id log_path (λ o,
    mkOffset (lo_agent_id o) (lo_log_path o) (lo_byte_offset o) (lo_line_offset o)
      (lo_last_event_offset o) last_output_at file_inode file_size_seen (lo_created_at o) timestamp).

(** [_require_row_exists] *)
Definition require_row_exists (agent_id log_path operation : string) : dao unit :=
  found ← Sql.read (λ d, log_offsets d !! (agent_id, log_path));
  match found with
  | None => throw (OperationalError (operation +:+ ": no log_offsets row"))
  | Some _ => mret tt
  end.

Definition advance_offset (agent_id log_path : string)
    (byte_offset line_offset last_event_offset : Z) (file_inode : option string)
    (file_size_seen : Z) (last_output_at : option string) (timestamp : string) : dao unit :=
  _ ← require_row_exists agent_id log_path "advance_offset";
  update_offset agent_id log_path (λ o,
    mkOffset (lo_agent_id o) (lo_log_path o) byte_offset line_offset last_event_offset
      last_output_at file_inode file_size_seen (lo_created_at o) timestamp).
