(* ===== verification/Json.v ===== *)
(** JSON values, as cursors, stored columns and the requests of the socket carry them, and
    the text [json.dumps] gives them. *)

From S2P Require Import Prelude.
From Stdlib Require Import Ascii.

(** A float is seen only through its text and the integer it truncates to, none for an
    infinity or NaN. *)
Inductive json :=
| JNull | JBool (b : bool) | JInt (z : Z) | JFloat (repr : string) (trunc : option Z)
| JStr (s : string) | JArr (l : list json) | JObj (o : list (string * json)).

(** [obj.get(k)] on a decoded object: the last binding of a repeated key. *)
Definition json_get (k : string) (o : list (string * json)) : option json :=
  snd <$> last (filter (λ kv, kv.1 = k) o).

Definition has_key (k : string) (o : list (string * json)) : bool :=
  match json_get k o with Some _ => true | None => false end.

(** [d[k] = v] on a dictionary, which keeps the order of insertion. *)
Fixpoint put {K V} `{EqDecision K} (k : K) (v : V) (l : list (K * V)) : list (K * V) :=
  match l with
  | [] => [(k, v)]
  | (k', v') :: rest => if decide (k = k') then (k, v) :: rest else (k', v') :: put k v rest
  end.

(** ** Text *)

Definition quote_mark : ascii := "034"%char.
Definition backslash : ascii := "092"%char.

(** Decimal digits of an integer, as [str(int)]. *)
Fixpoint digits_fuel (fuel : nat) (n : N) : string :=
  match fuel with
  | O => EmptyString
  | S f =>
      (if (n <? 10)%N then EmptyString else digits_fuel f (n / 10)%N) +:+
      String (ascii_of_N (48 + n mod 10)) EmptyString
  end.
Definition print_nat (n : N) : string := digits_fuel (S (N.to_nat (N.log2 n))) n.
Definition print_int (z : Z) : string :=
  match z with
  | Zneg p => String "-"%char (print_nat (Npos p))
  | _ => print_nat (Z.to_N z)
  end.

Definition hex_char (n : N) : ascii :=
  if (n <? 10)%N then ascii_of_N (48 + n) else ascii_of_N (87 + n).

(** The escapes of [json.dumps(..., ensure_ascii=False)]. *)
Definition escape_char (c : ascii) (rest : string) : string :=
  let two (x : ascii) := String backslash (String x rest) in
  if bool_decide (c = quote_mark) then two quote_mark
  else if bool_decide (c = backslash) then two backslash
  else
    let n := N_of_ascii c in
    if (32 <=? n)%N then String c rest
    else if (n =? 10)%N then two "n"%char
    else if (n =? 13)%N then two "r"%char
    else if (n =? 9)%N then two "t"%char
    else if (n =? 12)%N then two "f"%char
    else if (n =? 8)%N then two "b"%char
    else String backslash (String "u"%char (String "0"%char (String "0"%char
           (String (hex_char (n / 16)) (String (hex_char (n mod 16)) rest))))).
Fixpoint escape (s : string) : string :=
  match s with EmptyString => EmptyString | String c s' => escape_char c (escape s') end.
Fixpoint join_with (sep : string) (l : list string) : string :=
  match l with
  | [] => EmptyString
  | [s] => s
  | s :: rest => s +:+ sep +:+ join_with sep rest
  end.

(** [json.dumps(v, separators=(",", ":"))] with the escapes of [esc]. *)
Section Dumps.
Variable esc : string → string.
Variable sp : string.       (* the space after a separator *)
Definition print_string (s : string) : string :=
  String quote_mark (esc s +:+ String quote_mark EmptyString).
Fixpoint dumps_sep (v : json) : string :=
  match v with
  | JNull => "null"
  | JBool true => "true"
  | JBool false => "false"
  | JInt z => print_int z
  | JFloat repr _ => repr
  | JStr s => print_string s
  | JArr l => "[" +:+ join_with ("," +:+ sp) (List.map dumps_sep l) +:+ "]"
  | JObj o => "{" +:+ join_with ("," +:+ sp) (List.map (λ kv : string * json,
                let (k, x) := kv in print_string k +:+ ":" +:+ sp +:+ dumps_sep x) o) +:+ "}"
  end.
End Dumps.

(** [json.dumps] without spaces, and with the default separators. *)
Definition dumps_with (esc : string → string) : json → string := dumps_sep esc EmptyString.
Definition dumps_spaced_with (esc : string → string) : json → string := dumps_sep esc " ".

(** [json.dumps(v, separators=(",", ":"), ensure_ascii=False)] *)
Definition dumps : json → string := dumps_with escape.

Example dumps_demo :
  dumps (JArr [JInt 0; JInt (-120); JBool true; JStr (String quote_mark (String "010"%char "x"))]) =
  "[0,-120,true," +:+ String quote_mark (String backslash (String quote_mark (String backslash
     (String "n"%char (String "x"%char (String quote_mark "]")))))).
Proof. reflexivity. Qed.
