(* ===== verification/EventsDao.v ===== *)
(** The durable [events] table (src/src/agenttower/events/dao.py): inserts with their
    validation, the JSONL watermark, and the paged listing with its cursors.

    A cursor is a JSON object in base64url.  The object and its validation are modelled;
    its text form is a pair of functions [dump_token] and [load_token]. *)

From S2P Require Import Prelude Errors Agents Permissions Store Classifier Session Tables LogDao Json.
From Stdlib Require Import Ascii.

Local Open Scope Z_scope.

(** ** Writes *)

Definition bad_value {A} : dao A := throw (PyError "ValueError").

Definition numbered (id : Z) (e : DurableEvent) : DurableEvent :=
  mkDurable id (de_event_type e) (de_agent_id e) (de_attachment_id e) (de_log_path e)
    (de_byte_range_start e) (de_byte_range_end e) (de_line_offset_start e) (de_line_offset_end e)
    (de_observed_at e) (de_record_at e) (de_excerpt e) (de_classifier_rule_id e) (de_window_id e)
    (de_collapsed_count e) (de_window_started_at e) (de_window_ended_at e) (de_schema_version e)
    (de_jsonl_appended_at e).

(** The INSERT: SQLite gives the next id. *)
Definition append_event_row (e : DurableEvent) (d : tower_db) : outcome (Z * tower_db) :=
  let id := durable_seq d + 1 in
  if check_event (numbered id e)
  then Ok (id, set_durable (durable d ++ [numbered id e]) id d) else Raise IntegrityError.

Definition insert_event (row : DurableEvent) : dao Z :=
  if bool_decide (de_event_type row ∉ EVENT_TYPES) then bad_value
  else
    match de_attachment_id row, de_log_path row, de_classifier_rule_id row with
    | Some _, Some _, Some _ =>
        match de_byte_range_start row, de_byte_range_end row,
              de_line_offset_start row, de_line_offset_end row with
        | Some bs, Some be, Some ls, Some le =>
            if (bs <? 0) || (be <? bs) then bad_value
            else if (ls <? 0) || (le <? ls) then bad_value
            else if de_collapsed_count row <? 1 then bad_value
            else Sql.write (append_event_row row)
        | _, _, _, _ => bad_value
        end
    | _, _, _ => bad_value
    end.

Definition mark_row (event_id : Z) (ts_iso : string) (e : DurableEvent) : DurableEvent :=
  if bool_decide (de_event_id e = event_id) && negb (is_set (de_jsonl_appended_at e))
  then mkDurable (de_event_id e) (de_event_type e) (de_agent_id e) (de_attachment_id e)
         (de_log_path e) (de_byte_range_start e) (de_byte_range_end e) (de_line_offset_start e)
         (de_line_offset_end e) (de_observed_at e) (de_record_at e) (de_excerpt e)
         (de_classifier_rule_id e) (de_window_id e) (de_collapsed_count e)
         (de_window_started_at e) (de_window_ended_at e) (de_schema_version e) (Some ts_iso)
  else e.

Definition mark_durable_appended (event_id : Z) (ts_iso : string) : dao unit :=
  Sql.write (λ d, Ok (tt, set_durable (mark_row event_id ts_iso <$> durable d) (durable_seq d) d)).

(** ** Lookups *)

Definition by_event_id (e1 e2 : DurableEvent) : Prop := de_event_id e1 ≤ de_event_id e2.
#[export] Instance by_event_id_dec e1 e2 : Decision (by_event_id e1 e2).
Proof. unfold by_event_id. apply _. Defined.
#[export] Instance by_event_id_total : Total by_event_id.
Proof. intros e1 e2. unfold by_event_id. lia. Qed.
#[export] Instance by_event_id_trans : Transitive by_event_id.
Proof. intros e1 e2 e3. unfold by_event_id. lia. Qed.

Definition is_pending (e : DurableEvent) : Prop :=
  de_jsonl_appended_at e = None ∧ de_event_type e ∈ EVENT_TYPES.
#[export] Instance is_pending_dec e : Decision (is_pending e).
Proof. unfold is_pending. apply _. Defined.

Definition select_pending_jsonl (limit : Z) : dao (list DurableEvent) :=
  if limit <=? 0 then bad_value
  else Sql.read (λ d, take (Z.to_nat limit)
         (merge_sort by_event_id (filter is_pending (durable d)))).

Definition select_event_by_id (event_id : Z) : dao (option DurableEvent) :=
  Sql.read (λ d, head (filter (λ e, de_event_id e = event_id) (durable d))).

(** [_last_event_for_attachment] of the reader. *)
Definition last_event_for_attachment (attachment_id : string) : dao (option (string * Z)) :=
  Sql.read (λ d, (λ e, (de_event_type e, de_event_id e)) <$>
    last (merge_sort by_event_id
      (filter (λ e, de_attachment_id e = Some attachment_id) (durable d)))).

(** ** Cursors *)

Definition MAX_SAFE_CURSOR_EVENT_ID : Z := 2 ^ 53 - 1.
Definition NULL_BYTE_RANGE_CURSOR_SENTINEL : Z := -1.

Definition cursor_error {A} : outcome A := Raise (PyError "CursorError").

Section Cursor.
Variable dump_token : list (string * json) → string.
Variable load_token : string → option json.

Definition encode_cursor (event_id : Z) (reverse : bool) (observed_at : option string)
    (byte_range_start : option Z) : outcome string :=
  if event_id <=? 0 then cursor_error
  else if MAX_SAFE_CURSOR_EVENT_ID <? event_id then cursor_error
  else
    let base := [("e"%string, JInt event_id); ("r"%string, JBool reverse)] in
    match observed_at, byte_range_start with
    | None, None => Ok (dump_token base)
    | Some o, Some b =>
        if bool_decide (o = EmptyString) then cursor_error
        else if b <? NULL_BYTE_RANGE_CURSOR_SENTINEL then cursor_error
        else Ok (dump_token (base ++ [("o"%string, JStr o); ("b"%string, JInt b)]))
    | _, _ => cursor_error
    end.

(** [_decode_cursor_payload] *)
Definition decode_cursor_payload (token : string) : outcome (list (string * json)) :=
  if bool_decide (token = EmptyString) then cursor_error
  else match load_token token with
       | Some (JObj o) => Ok o
       | _ => cursor_error
       end.

(** [_decode_cursor_base] *)
Definition decode_cursor_base (o : list (string * json)) : outcome (Z * bool) :=
  match json_get "e" o, json_get "r" o with
  | Some (JInt e), Some r =>
      if e <=? 0 then cursor_error
      else if MAX_SAFE_CURSOR_EVENT_ID <? e then cursor_error
      else match r with JBool b => Ok (e, b) | _ => cursor_error end
  | _, _ => cursor_error
  end.

Definition not_null (j : option json) : option json :=
  match j with Some JNull => None | _ => j end.

(** [_decode_cursor_details] *)
Definition decode_cursor_details (token : string)
  : outcome (Z * bool * option (string * Z)) :=
  obind (decode_cursor_payload token) (λ o,
  obind (decode_cursor_base o) (λ er,
    match not_null (json_get "o" o), not_null (json_get "b" o) with
    | None, None => Ok (er, None)
    | Some (JStr t), Some (JInt b) =>
        if bool_decide (t = EmptyString) then cursor_error
        else if b <? NULL_BYTE_RANGE_CURSOR_SENTINEL then cursor_error
        else Ok (er, Some (t, b))
    | _, _ => cursor_error
    end)).

Definition decode_cursor (token : string) : outcome (Z * bool) :=
  obind (decode_cursor_payload token) decode_cursor_base.

(** ** The paged listing *)

Record EventFilter := mkFilter {
  ef_target_agent_id : option string; ef_types : list string;
  ef_since_iso : option string; ef_until_iso : option string
}.

Definition coalesced_start (e : DurableEvent) : Z :=
  default NULL_BYTE_RANGE_CURSOR_SENTINEL (de_byte_range_start e).

(** Strictly before in the listing order: [(observed_at, byte_range_start, event_id)]. *)
Definition key_lt (o1 : string) (b1 i1 : Z) (o2 : string) (b2 i2 : Z) : Prop :=
  (String.le o1 o2 ∧ o1 ≠ o2) ∨ (o1 = o2 ∧ (b1 < b2 ∨ (b1 = b2 ∧ i1 < i2))).
#[export] Instance key_lt_dec o1 b1 i1 o2 b2 i2 : Decision (key_lt o1 b1 i1 o2 b2 i2).
Proof. unfold key_lt. apply _. Defined.

Definition listed_before (e1 e2 : DurableEvent) : Prop :=
  key_lt (de_observed_at e1) (coalesced_start e1) (de_event_id e1)
         (de_observed_at e2) (coalesced_start e2) (de_event_id e2).
#[export] Instance listed_before_dec e1 e2 : Decision (listed_before e1 e2).
Proof. unfold listed_before. apply _. Defined.

(** [ORDER BY ...] in the direction asked. *)
Definition listing_order (reverse : bool) (e1 e2 : DurableEvent) : Prop :=
  if reverse then ¬ listed_before e1 e2 else ¬ listed_before e2 e1.
#[export] Instance listing_order_dec reverse e1 e2 : Decision (listing_order reverse e1 e2).
Proof. unfold listing_order. destruct reverse; apply _. Defined.

Definition matches_event_filter (f : EventFilter) (e : DurableEvent) : bool :=
  match ef_target_agent_id f with None => true | Some a => bool_decide (de_agent_id e = a) end &&
  (bool_decide (ef_types f = []) || bool_decide (de_event_type e ∈ ef_types f)) &&
  match ef_since_iso f with None => true | Some t => bool_decide (String.le t (de_observed_at e)) end &&
  match ef_until_iso f with
  | None => true
  | Some t => bool_decide (String.le (de_observed_at e) t) && negb (bool_decide (de_observed_at e = t))
  end.

(** The condition a cursor adds. *)
Definition past_cursor (reverse : bool) (id : Z) (pos : option (string * Z)) (e : DurableEvent) : bool :=
  match pos with
  | Some (o, b) =>
      if reverse
      then bool_decide (key_lt (de_observed_at e) (coalesced_start e) (de_event_id e) o b id)
      else bool_decide (key_lt o b id (de_observed_at e) (coalesced_start e) (de_event_id e))
  | None => if reverse then de_event_id e <? id else id <? de_event_id e
  end.

Definition select_events (f : EventFilter) (cursor : option string) (limit : Z) (reverse : bool)
  : dao (list DurableEvent * option string) :=
  if limit <=? 0 then bad_value
  else
    past ← match cursor with
           | None => mret (λ _, true)
           | Some tok =>
               match decode_cursor_details tok with
               | Raise e => throw e
               | Ok (id, r, pos) =>
                   if bool_decide (r ≠ reverse) then throw (PyError "CursorError")
                   else mret (past_cursor reverse id pos)
               end
           end;
    rows ← Sql.read (λ d, take (Z.to_nat (limit + 1)) (merge_sort (listing_order reverse)
             (filter (λ e, (matches_event_filter f e && past e) = true) (durable d))));
    let page := take (Z.to_nat limit) rows in
    if bool_decide (limit < Z.of_nat (length rows))
    then match last page with
         | None => mret (page, None)
         | Some e =>
             match encode_cursor (de_event_id e) reverse (Some (de_observed_at e))
                     (Some (coalesced_start e)) with
             | Ok tok => mret (page, Some tok)
             | Raise err => throw err
             end
         end
    else mret (page, None).
End Cursor.

(** Following the cursors of the event listing visits every matching event once, in
    order. *)

(** A session nobody disturbs. *)
Definition still {D} (d : D) : session D := mkSession d None [] [].

Lemma still_read {D A B} (d : D) (g : D → A) (k : A → M (session D) B) :
  (Sql.read g ≫= k) (still d) = k (g d) (still d).
Proof. done. Qed.

(** ** The listing order *)

Lemma key_lt_trichotomy o1 b1 i1 o2 b2 i2 :
  key_lt o1 b1 i1 o2 b2 i2 ∨ (o1 = o2 ∧ b1 = b2 ∧ i1 = i2) ∨ key_lt o2 b2 i2 o1 b1 i1.
Proof.
  unfold key_lt. destruct (decide (o1 = o2)) as [->|Hne].
  - destruct (Z.lt_trichotomy b1 b2) as [|[->|]]; [auto| |by eauto 8].
    destruct (Z.lt_trichotomy i1 i2) as [|[->|]]; by eauto 8.
  - destruct (total String.le o1 o2); naive_solver.
Qed.

Lemma key_lt_trans o1 b1 i1 o2 b2 i2 o3 b3 i3 :
  key_lt o1 b1 i1 o2 b2 i2 → key_lt o2 b2 i2 o3 b3 i3 → key_lt o1 b1 i1 o3 b3 i3.
Proof.
  unfold key_lt. intros [[H1 N1]|[-> H1]] [[H2 N2]|[-> H2]].
  - left. split; [by trans o2|]. intros ->. by destruct N1, (anti_symm String.le o3 o2).
  - by left.
  - by left.
  - right. split; [done|]. lia.
Qed.

Lemma key_lt_irrefl o b i : ¬ key_lt o b i o b i.
Proof. unfold key_lt. intros [[_ []]|[_ ?]]; [done|lia]. Qed.

Lemma listed_before_trans e1 e2 e3 :
  listed_before e1 e2 → listed_before e2 e3 → listed_before e1 e3.
Proof. apply key_lt_trans. Qed.

Lemma listed_before_asym e1 e2 : listed_before e1 e2 → ¬ listed_before e2 e1.
Proof. intros H1 H2. by eapply key_lt_irrefl, key_lt_trans. Qed.

(** Events with the same place in the order have the same id. *)
Lemma listed_before_total e1 e2 :
  listed_before e1 e2 ∨ de_event_id e1 = de_event_id e2 ∨ listed_before e2 e1.
Proof.
  destruct (key_lt_trichotomy (de_observed_at e1) (coalesced_start e1) (de_event_id e1)
    (de_observed_at e2) (coalesced_start e2) (de_event_id e2)) as [|[(_ & _ & ?)|]]; auto.
Qed.

Lemma same_place_before e1 e2 e3 :
  ¬ listed_before e1 e2 → ¬ listed_before e2 e1 → listed_before e2 e3 → listed_before e1 e3.
Proof.
  intros H12 H21. unfold listed_before in *.
  destruct (key_lt_trichotomy (de_observed_at e1) (coalesced_start e1) (de_event_id e1)
    (de_observed_at e2) (coalesced_start e2) (de_event_id e2)) as [|[(-> & -> & ->)|]]; done.
Qed.

#[export] Instance listing_order_total_inst reverse : Total (listing_order reverse).
Proof.
  intros e1 e2. unfold listing_order. destruct reverse.
  - destruct (decide (listed_before e1 e2)); [right; by apply listed_before_asym|by left].
  - destruct (decide (listed_before e2 e1)); [right; by apply listed_before_asym|by left].
Qed.

Lemma not_before_trans e1 e2 e3 :
  ¬ listed_before e2 e1 → ¬ listed_before e3 e2 → ¬ listed_before e3 e1.
Proof.
  intros H1 H2 H3. destruct (decide (listed_before e1 e2)) as [H|H].
  - apply H2. by eapply listed_before_trans.
  - destruct (decide (listed_before e2 e3)) as [H'|H'].
    + apply H1. by eapply listed_before_trans.
    + apply H1. by apply (same_place_before e2 e3 e1).
Qed.

#[export] Instance listing_order_trans_inst reverse : Transitive (listing_order reverse).
Proof.
  intros e1 e2 e3. unfold listing_order. destruct reverse; intros H1 H2.
  - by apply (not_before_trans e3 e2 e1).
  - by apply (not_before_trans e1 e2 e3).
Qed.

(** The strict order of the direction asked. *)
Definition strictly (reverse : bool) (e1 e2 : DurableEvent) : Prop :=
  if reverse then listed_before e2 e1 else listed_before e1 e2.

#[export] Instance strictly_dec reverse e1 e2 : Decision (strictly reverse e1 e2).
Proof. unfold strictly. destruct reverse; apply _. Defined.

Lemma listing_order_strict reverse e1 e2 :
  listing_order reverse e1 e2 → de_event_id e1 ≠ de_event_id e2 → strictly reverse e1 e2.
Proof.
  unfold listing_order, strictly. intros H Hne.
  destruct reverse, (listed_before_total e1 e2) as [|[|]]; done.
Qed.

Lemma strictly_not reverse e1 e2 : listing_order reverse e1 e2 → ¬ strictly reverse e2 e1.
Proof. by destruct reverse. Qed.

(** ** One page *)

Section Paging.
Variable dump_token : list (string * json) → string.
Variable load_token : string → option json.
(** base64url and JSON read back what they wrote, and never write nothing. *)
Definition cursor_object (e : Z) (r : bool) (o : string) (b : Z) : list (string * json) :=
  [("e"%string, JInt e); ("r"%string, JBool r); ("o"%string, JStr o); ("b"%string, JInt b)].
Hypothesis token_roundtrip : ∀ e r o b,
  load_token (dump_token (cursor_object e r o b)) = Some (JObj (cursor_object e r o b)).
Hypothesis token_nonempty : ∀ e r o b, dump_token (cursor_object e r o b) ≠ EmptyString.

(** What a cursor can name. *)
Definition addressable (e : DurableEvent) : Prop :=
  0 < de_event_id e ≤ MAX_SAFE_CURSOR_EVENT_ID ∧ de_observed_at e ≠ EmptyString ∧
  NULL_BYTE_RANGE_CURSOR_SENTINEL ≤ coalesced_start e.

Lemma cursor_roundtrip e reverse :
  addressable e →
  ∃ tok, encode_cursor dump_token (de_event_id e) reverse (Some (de_observed_at e))
           (Some (coalesced_start e)) = Ok tok ∧
    decode_cursor_details load_token tok =
      Ok (de_event_id e, reverse, Some (de_observed_at e, coalesced_start e)).
Proof.
  intros ([H1 H2] & H3 & H4). unfold encode_cursor.
  rewrite (proj2 (Z.leb_gt _ _)), (proj2 (Z.ltb_ge _ _)) by lia.
  rewrite bool_decide_eq_false_2 by done. rewrite (proj2 (Z.ltb_ge _ _)) by lia.
  exists (dump_token (cursor_object (de_event_id e) reverse (de_observed_at e) (coalesced_start e))).
  split; [done|]. unfold decode_cursor_details, decode_cursor_payload.
  rewrite bool_decide_eq_false_2 by done. rewrite token_roundtrip. cbn [obind].
  set (o := cursor_object _ _ _ _). unfold decode_cursor_base.
  assert (json_get "e" o = Some (JInt (de_event_id e)) ∧ json_get "r" o = Some (JBool reverse) ∧
    json_get "o" o = Some (JStr (de_observed_at e)) ∧ json_get "b" o = Some (JInt (coalesced_start e)))
    as (-> & -> & -> & ->) by done.
  rewrite (proj2 (Z.leb_gt _ _)), (proj2 (Z.ltb_ge _ _)) by lia. cbn [obind not_null].
  rewrite bool_decide_eq_false_2 by done. by rewrite (proj2 (Z.ltb_ge _ _)) by lia.
Qed.

Variables (d : tower_db) (f : EventFilter) (limit : Z) (reverse : bool).
Hypothesis ids_distinct : NoDup (de_event_id <$> durable d).

Definition listing : list DurableEvent :=
  merge_sort (listing_order reverse) (filter (λ e, matches_event_filter f e = true) (durable d)).

Lemma listing_perm :
  listing ≡ₚ filter (λ e, matches_event_filter f e = true) (durable d).
Proof. apply merge_sort_Permutation. Qed.

Lemma listing_durable e : e ∈ listing → e ∈ durable d.
Proof. rewrite listing_perm, list_elem_of_filter. tauto. Qed.

Lemma same_id e1 e2 :
  e1 ∈ durable d → e2 ∈ durable d → de_event_id e1 = de_event_id e2 → e1 = e2.
Proof.
  intros H1 H2 E. apply list_elem_of_lookup in H1 as [i Hi], H2 as [j Hj].
  assert (i = j) as ->; [|congruence].
  eapply (NoDup_lookup _ i j _ ids_distinct); rewrite list_lookup_fmap; [by rewrite Hi|].
  rewrite Hj. simpl. by rewrite E.
Qed.

Lemma listing_antisym e1 e2 :
  e1 ∈ durable d → e2 ∈ durable d →
  listing_order reverse e1 e2 → listing_order reverse e2 e1 → e1 = e2.
Proof.
  intros H1 H2 L1 L2. apply same_id; [done..|]. unfold listing_order in *.
  destruct (listed_before_total e1 e2) as [|[|]], reverse; done.
Qed.

Lemma listing_nodup : NoDup (de_event_id <$> listing).
Proof.
  rewrite listing_perm. apply (sublist_NoDup _ (de_event_id <$> durable d)); [done|].
  apply fmap_sublist, sublist_filter.
Qed.

(** What the condition of a cursor keeps of the listing. *)
Lemma listing_tail pre e rest :
  listing = pre ++ e :: rest →
  merge_sort (listing_order reverse)
    (filter (λ x, (matches_event_filter f x &&
       past_cursor reverse (de_event_id e) (Some (de_observed_at e, coalesced_start e)) x) = true)
       (durable d)) = rest.
Proof.
  intros E. pose proof (StronglySorted_merge_sort (listing_order reverse)
    (filter (λ e, matches_event_filter f e = true) (durable d))) as Hs. fold listing in Hs.
  pose proof listing_nodup as Hnd. rewrite E in Hs, Hnd.
  set (past := λ x, bool_decide (strictly reverse e x)).
  assert (∀ x, past_cursor reverse (de_event_id e) (Some (de_observed_at e, coalesced_start e)) x =
               past x) as Hpast.
  { intros x. unfold past_cursor, past, strictly, listed_before. by destruct reverse. }
  eapply (StronglySorted_unique_strong (listing_order reverse)).
  - intros x1 x2 Hx1 Hx2. apply listing_antisym.
    + rewrite merge_sort_Permutation, list_elem_of_filter in Hx1. tauto.
    + apply listing_durable. rewrite E. set_solver.
  - apply (StronglySorted_merge_sort _).
  - apply StronglySorted_app_1_r, StronglySorted_cons in Hs. tauto.
  - rewrite merge_sort_Permutation.
    assert (filter (λ x, (matches_event_filter f x && past_cursor reverse (de_event_id e)
        (Some (de_observed_at e, coalesced_start e)) x) = true) (durable d) =
      filter (λ x, past x = true) (filter (λ x, matches_event_filter f x = true) (durable d))) as ->.
    { rewrite list_filter_filter. apply list_filter_iff. intros x.
      rewrite Hpast, andb_true_iff. tauto. }
    rewrite <- listing_perm, E, filter_app, filter_cons_False.
    + rewrite filter_nil_Forall, filter_id_Forall; [done|..].
      * apply Forall_forall. intros x Hx. apply bool_decide_eq_true. apply listing_order_strict.
        -- apply StronglySorted_app_1_r, StronglySorted_cons in Hs as [Hs _].
           by apply (proj1 (Forall_forall _ _) Hs).
        -- rewrite fmap_app in Hnd. apply NoDup_app in Hnd as (_ & _ & Hnd).
           apply NoDup_cons in Hnd as [Hnd _]. intros Heq. apply Hnd. rewrite Heq.
           by apply list_elem_of_fmap_2.
      * apply Forall_forall. intros x Hx Hp. apply bool_decide_eq_true in Hp.
        eapply strictly_not; [|exact Hp].
        eapply StronglySorted_app_1_elem_of; [exact Hs|done|by left].
    + intros Hp. apply bool_decide_eq_true in Hp. eapply strictly_not; [|exact Hp].
      unfold listing_order. destruct reverse; apply key_lt_irrefl.
Qed.

(** ** All pages *)

Hypothesis limit_positive : 0 < limit.

Definition page_of (rest : list DurableEvent) : outcome (list DurableEvent * option string) :=
  let page := take (Z.to_nat limit) rest in
  if bool_decide (length rest ≤ Z.to_nat limit)%nat then Ok (rest, None)
  else match last page with
       | None => Ok (page, None)
       | Some e =>
           match encode_cursor dump_token (de_event_id e) reverse (Some (de_observed_at e))
                   (Some (coalesced_start e)) with
           | Ok tok => Ok (page, Some tok)
           | Raise err => Raise err
           end
       end.

Lemma select_rest cursor past rest :
  match cursor with
  | None => past = λ _, true
  | Some tok => ∃ id pos, decode_cursor_details load_token tok = Ok (id, reverse, pos) ∧
                          past = past_cursor reverse id pos
  end →
  merge_sort (listing_order reverse)
    (filter (λ x, (matches_event_filter f x && past x) = true) (durable d)) = rest →
  select_events dump_token load_token f cursor limit reverse (still d) = (page_of rest, still d).
Proof.
  intros Hc Hrest. unfold select_events. rewrite (proj2 (Z.leb_gt _ _)) by lia.
  match goal with |- (?m ≫= ?k) _ = _ => assert (m (still d) = (Ok past, still d)) as Em end.
  { destruct cursor as [tok|]; [|by subst past]. destruct Hc as (id & pos & -> & ->).
    by rewrite bool_decide_eq_false_2 by (by intros H; apply H). }
  unfold mbind at 1, M_bind at 1. rewrite Em.
  rewrite (still_read _ (λ d, take _ (merge_sort _ (filter _ (durable d))))), Hrest. unfold page_of.
  rewrite length_take, take_take. assert (Z.to_nat limit `min` Z.to_nat (limit + 1) = Z.to_nat limit)%nat
    as -> by lia.
  destruct (decide (length rest ≤ Z.to_nat limit)%nat) as [Hl|Hl].
  - rewrite bool_decide_eq_false_2 by lia. rewrite bool_decide_eq_true_2 by done. by rewrite take_ge.
  - rewrite bool_decide_eq_true_2 by lia. rewrite bool_decide_eq_false_2 by done.
    destruct (last _); [|done]. by destruct (encode_cursor _ _ _ _ _).
Qed.

Lemma page_of_spec rest :
  Forall addressable rest →
  (page_of rest = Ok (rest, None)) ∨
  (∃ p e r tok, rest = p ++ e :: r ∧ page_of rest = Ok (p ++ [e], Some tok) ∧
     decode_cursor_details load_token tok =
       Ok (de_event_id e, reverse, Some (de_observed_at e, coalesced_start e))).
Proof.
  intros Ha. unfold page_of. destruct (decide (length rest ≤ Z.to_nat limit)%nat) as [Hl|Hl].
  { left. by rewrite bool_decide_eq_true_2. }
  right. rewrite bool_decide_eq_false_2 by done.
  assert (rest = take (Z.to_nat limit) rest ++ drop (Z.to_nat limit) rest) as E by (by rewrite take_drop).
  destruct (take (Z.to_nat limit) rest) as [|x p _] eqn:Ep using rev_ind.
  { apply (f_equal length) in Ep. rewrite length_take in Ep. cbn in Ep. lia. }
  rewrite last_snoc. assert (addressable x) as Hx.
  { apply (proj1 (Forall_forall _ _) Ha). rewrite E. set_solver. }
  destruct (cursor_roundtrip x reverse Hx) as (tok & -> & Hd).
  exists p, x, (drop (Z.to_nat limit) rest), tok. rewrite <- app_assoc in E. done.
Qed.

(** Ask for pages until there is no next one. *)
Fixpoint follow_pages (n : nat) (cursor : option string) : dao (list DurableEvent) :=
  match n with
  | O => throw (PyError "out of fuel")
  | S n =>
      pn ← select_events dump_token load_token f cursor limit reverse;
      match pn.2 with
      | None => mret pn.1
      | Some tok => rest ← follow_pages n (Some tok); mret (pn.1 ++ rest)
      end
  end.

Hypothesis all_addressable : Forall addressable (durable d).

Lemma follow_rest n cursor past rest :
  match cursor with
  | None => past = λ _, true
  | Some tok => ∃ id pos, decode_cursor_details load_token tok = Ok (id, reverse, pos) ∧
                          past = past_cursor reverse id pos
  end →
  merge_sort (listing_order reverse)
    (filter (λ x, (matches_event_filter f x && past x) = true) (durable d)) = rest →
  (∃ pre, listing = pre ++ rest) → (length rest < n)%nat →
  follow_pages n cursor (still d) = (Ok rest, still d).
Proof.
  revert cursor past rest. induction n as [|n IH]; intros cursor past rest Hc Hrest Hpre Hn; [lia|].
  cbn [follow_pages]. unfold mbind at 1, M_bind at 1. rewrite (select_rest _ _ _ Hc Hrest).
  assert (Forall addressable rest) as Ha.
  { apply Forall_forall. intros e He. apply (proj1 (Forall_forall _ _) all_addressable).
    apply listing_durable. destruct Hpre as [pre ->]. set_solver. }
  destruct (page_of_spec rest Ha) as [->|(p & e & r & tok & -> & -> & Hd)]; [done|]. cbn [snd fst].
  destruct Hpre as [pre Hpre]. unfold mbind, M_bind.
  rewrite (IH (Some tok) _ r (ex_intro _ _ (ex_intro _ _ (conj Hd eq_refl)))).
  - cbn. by rewrite <- app_assoc.
  - apply (listing_tail (pre ++ p)). by rewrite <- app_assoc.
  - exists (pre ++ p ++ [e]). rewrite Hpre, <- !app_assoc. done.
  - rewrite length_app in Hn. cbn in Hn. lia.
Qed.

(** In a table nobody writes to, following the cursors visits every event that
    passes the filter exactly once, in the listing order (or its reverse), whatever the
    page size, and stops; this needs at most one page per event. *)
Theorem pages_enumerate n :
  (length (durable d) < n)%nat → follow_pages n None (still d) = (Ok listing, still d).
Proof.
  intros Hn. apply (follow_rest n None (λ _, true)); [done| |by exists []|].
  - unfold listing. f_equal. apply list_filter_iff. intros x. by rewrite andb_true_r.
  - rewrite listing_perm. eapply Nat.le_lt_trans; [|exact Hn]. apply length_filter.
Qed.
End Paging.

(** The hypotheses hold: three events, a token format that can be read back. *)
Definition sample_event (id : Z) (at_ : string) (start : option Z) : DurableEvent :=
  mkDurable id "activity" "agt_000000000001" (Some "lat_1") (Some "/log") start start start start
    at_ None "x" (Some "activity.fallback.v1") None 1 None None 1 None.

Definition sample_table : tower_db :=
  set_durable [sample_event 1 "t2" (Some 5); sample_event 2 "t1" None; sample_event 3 "t2" (Some 0)]
    3 empty_tower.

(** A token format: the bits of a number that codes the four fields. *)
Fixpoint bits (p : positive) : string :=
  match p with
  | xH => "e"
  | xO q => String "0"%char (bits q)
  | xI q => String "1"%char (bits q)
  end.

Fixpoint unbits (s : string) : option positive :=
  match s with
  | String c rest =>
      if Ascii.eqb c "e"%char then Some 1%positive
      else if Ascii.eqb c "0"%char then xO <$> unbits rest
      else xI <$> unbits rest
  | EmptyString => None
  end.

Lemma unbits_bits p : unbits (bits p) = Some p.
Proof.
  induction p as [p IH|p IH|]; cbn [bits unbits Ascii.eqb Bool.eqb]; [by rewrite IH..|done].
Qed.

Definition bits_dump (o : list (string * json)) : string :=
  match o with
  | [(_, JInt e); (_, JBool r); (_, JStr t); (_, JInt b)] => bits (encode (e, r, t, b))
  | _ => "e"
  end.
Definition bits_load (s : string) : option json :=
  p ← unbits s; q ← decode (A := Z * bool * string * Z) p;
  let '(e, r, t, b) := q in Some (JObj (cursor_object e r t b)).

Lemma bits_load_dump e r o b :
  bits_load (bits_dump (cursor_object e r o b)) = Some (JObj (cursor_object e r o b)).
Proof. unfold bits_load. cbn [bits_dump cursor_object]. rewrite unbits_bits. cbn [mbind option_bind].
  by rewrite decode_encode.
Qed.

Lemma bits_nonempty p : bits p ≠ EmptyString.
Proof. by destruct p. Qed.

Lemma pages_enumerate_witness :
  let all := mkFilter None [] None None in
  listing sample_table all false = [sample_event 2 "t1" None; sample_event 3 "t2" (Some 0);
                                    sample_event 1 "t2" (Some 5)] ∧
  follow_pages bits_dump bits_load all 1 false 4 None (still sample_table) =
    (Ok (listing sample_table all false), still sample_table).
Proof.
  intros all. split; [vm_compute; reflexivity|].
  apply (pages_enumerate bits_dump bits_load bits_load_dump (λ _ _ _ _, bits_nonempty _)
           sample_table all 1 false); [|lia| |cbn; lia].
  - apply (bool_decide_unpack _). vm_compute. exact I.
  - repeat constructor; vm_compute; done.
Defined.
