(* ===== verification/Tower.v ===== *)
(** The host around the daemon's database: log files, [events.jsonl], the lifecycle
    log with its suppression rules (src/src/agenttower/logs/lifecycle.py) and the
    attachment audit (logs/audit.py); and what the reader does when a log was rotated,
    truncated, lost or found again (logs/reader_recovery.py).

    A file access may find that files have changed since ([file_moves]) and may fail
    ([file_io]); an append to [events.jsonl] may fail before or after the line reached
    the file, as in AuditWriter.v.  The clock stamp of each line is left out. *)

From S2P Require Import Prelude Errors Agents Permissions Store AuditWriter Session Tables LogDao.

Record LogFile := mkFile { file_inode : string; file_bytes : string; file_mtime : string }.

(** Lines of [events.jsonl] written outside routing. *)
Inductive audit_line :=
| L_event (event_id : Z) (row : DurableEvent)
| L_attachment_change (attachment_id agent_id : string) (prior_status : option string)
    (new_status : string) (prior_path : option string) (new_path : string)
    (prior_pipe_target : option string) (source : string) (peer_uid : Z)
| L_role_change (agent_id : string) (prior_role : option string) (new_role : string)
    (confirm : bool) (peer_uid : Z)
| L_scan_degraded (kind scan_id : string) (error_code error_message : option string)
    (error_details : list scan_error).

Inductive lifecycle_event :=
| LC_rotation (agent_id log_path prior_inode new_inode : string) (prior_size new_size : Z)
| LC_missing (agent_id log_path last_inode : string) (last_size : Z)
| LC_returned (agent_id log_path prior_inode new_inode : string) (new_size : Z)
| LC_orphan (container_id : string) (pane : pane_key) (target : string)
| LC_mounts_oversized (container_id : string) (observed max : Z)
| LC_uid_mismatch (observed expected : Z)
| LC_scan (event : string) (fields : list (string * string))
| LC_audit_failed (method agent_id detail : string).

(** [_SuppressionState] *)
Record SuppressionState := mkSuppression {
  sup_missing : gset (string * string);
  sup_returned : gset (string * string * string);
  sup_rotated : gset (string * string * option string * option string);
  sup_orphans : gset (string * pane_key * string)
}.

Record tower := mkTower {
  sess : session tower_db;
  files : gmap string LogFile;
  file_moves : list (gmap string LogFile → gmap string LogFile);
  file_io : list (option string);
  events_jsonl : list audit_line;
  events_io : list (option io_fault);
  has_logger : bool;
  lifecycle_log : list lifecycle_event;
  suppression : SuppressionState
}.

Definition set_sess s w := mkTower s (files w) (file_moves w) (file_io w) (events_jsonl w)
  (events_io w) (has_logger w) (lifecycle_log w) (suppression w).
Definition set_files f mv io w := mkTower (sess w) f mv io (events_jsonl w)
  (events_io w) (has_logger w) (lifecycle_log w) (suppression w).
Definition set_events_jsonl j io w := mkTower (sess w) (files w) (file_moves w) (file_io w) j
  io (has_logger w) (lifecycle_log w) (suppression w).
Definition set_lifecycle l sp w := mkTower (sess w) (files w) (file_moves w) (file_io w)
  (events_jsonl w) (events_io w) (has_logger w) l sp.

Definition on_sql {A} (m : dao A) : M tower A := zoom sess set_sess m.

(** ** Files *)

Definition file_access : M tower unit := λ w,
  let w1 := match file_moves w with
            | f :: rest => set_files (f (files w)) rest (file_io w) w
            | [] => w
            end in
  match file_io w1 with
  | [] => (Ok tt, w1)
  | None :: rest => (Ok tt, set_files (files w1) (file_moves w1) rest w1)
  | Some cls :: rest => (Raise (PyError cls), set_files (files w1) (file_moves w1) rest w1)
  end.

(** [host_fs.stat_log_file] *)
Definition stat_log_file (path : string) : M tower (option FileStat) :=
  _ ← file_access;
  lift (λ w, (Ok ((λ f, mkStat (file_inode f) (Z.of_nat (String.length (file_bytes f)))
                          (file_mtime f)) <$> files w !! path), w)).

(** [_read_bytes] of the reader: [os.open] fails on a missing file. *)
Definition read_bytes (path : string) (byte_offset : Z) (cap : nat) : M tower string :=
  _ ← file_access;
  lift (λ w, match files w !! path with
             | None => (Raise (PyError "FileNotFoundError"), w)
             | Some f => (Ok (String.substring (Z.to_nat byte_offset) cap (file_bytes f)), w)
             end).

(** Subclasses of [OSError] that file calls raise. *)
Definition OS_ERRORS : list string :=
  ["OSError"; "FileNotFoundError"; "PermissionError"; "IsADirectoryError"; "NotADirectoryError"].
Definition is_os_error (e : exn) : bool :=
  match e with PyError n => bool_decide (n ∈ OS_ERRORS) | _ => false end.

(** ** events.jsonl *)

(** [events.writer.append_event] *)
Definition append_line (l : audit_line) : M tower unit := λ w,
  let file (written : bool) := if written then events_jsonl w ++ [l] else events_jsonl w in
  match events_io w with
  | Some (IO_error n written) :: rest => (Raise (PyError n), set_events_jsonl (file written) rest w)
  | Some (IO_kill written) :: rest => (Raise SystemExit, set_events_jsonl (file written) rest w)
  | None :: rest => (Ok tt, set_events_jsonl (file true) rest w)
  | [] => (Ok tt, set_events_jsonl (file true) [] w)
  end.

Definition append_log_attachment_change (attachment_id agent_id : string)
    (prior_status : option string) (new_status : string) (prior_path : option string)
    (new_path : string) (prior_pipe_target : option string) (source : string) (peer_uid : Z)
  : M tower unit :=
  append_line (L_attachment_change attachment_id agent_id prior_status new_status prior_path
    new_path prior_pipe_target source peer_uid).

(** ** Suppression *)

Definition should_emit_missing (agent_id log_path : string) (s : SuppressionState)
  : bool * SuppressionState :=
  if decide ((agent_id, log_path) ∈ sup_missing s) then (false, s)
  else (true, mkSuppression ({[ (agent_id, log_path) ]} ∪ sup_missing s) (sup_returned s)
                (sup_rotated s) (sup_orphans s)).

Definition reset_missing (agent_id log_path : string) (s : SuppressionState) : SuppressionState :=
  mkSuppression (sup_missing s ∖ {[ (agent_id, log_path) ]}) (sup_returned s) (sup_rotated s)
    (sup_orphans s).

Definition should_emit_returned (agent_id log_path : string) (inode : option string)
    (s : SuppressionState) : bool * SuppressionState :=
  let key := (agent_id, log_path, default EmptyString inode) in
  if decide (key ∈ sup_returned s) then (false, s)
  else (true, mkSuppression (sup_missing s) ({[ key ]} ∪ sup_returned s) (sup_rotated s)
                (sup_orphans s)).

Definition should_emit_rotation (agent_id log_path : string) (prior_inode new_inode : option string)
    (s : SuppressionState) : bool * SuppressionState :=
  let key := (agent_id, log_path, prior_inode, new_inode) in
  if decide (key ∈ sup_rotated s) then (false, s)
  else (true, mkSuppression (sup_missing s) (sup_returned s) ({[ key ]} ∪ sup_rotated s)
                (sup_orphans s)).

Definition should_emit_orphan (container_id : string) (pane : pane_key) (target : string)
    (s : SuppressionState) : bool * SuppressionState :=
  let key := (container_id, pane, target) in
  if decide (key ∈ sup_orphans s) then (false, s)
  else (true, mkSuppression (sup_missing s) (sup_returned s) (sup_rotated s)
                ({[ key ]} ∪ sup_orphans s)).

(** Emit unless there is no logger or the event is suppressed. *)
Definition emit_once (should : SuppressionState → bool * SuppressionState)
    (ev : lifecycle_event) : M tower bool := λ w,
  if negb (has_logger w) then (Ok false, w)
  else
    let (go, s) := should (suppression w) in
    if (go : bool) then (Ok true, set_lifecycle (lifecycle_log w ++ [ev]) s w)
    else (Ok false, set_lifecycle (lifecycle_log w) s w).

Definition or_null (o : option string) : string := default "null" o.

Definition emit_log_rotation_detected (agent_id log_path : string)
    (prior_inode new_inode : option string) (prior_size new_size : Z) : M tower bool :=
  emit_once (should_emit_rotation agent_id log_path prior_inode new_inode)
    (LC_rotation agent_id log_path (or_null prior_inode) (or_null new_inode) prior_size new_size).

Definition emit_log_file_missing (agent_id log_path : string) (last_inode : option string)
    (last_size : Z) : M tower bool :=
  emit_once (should_emit_missing agent_id log_path)
    (LC_missing agent_id log_path (or_null last_inode) last_size).

Definition emit_log_file_returned (agent_id log_path : string) (prior_inode : option string)
    (new_inode : string) (new_size : Z) : M tower bool :=
  emit_once (should_emit_returned agent_id log_path (Some new_inode))
    (LC_returned agent_id log_path (or_null prior_inode) new_inode new_size).

Definition emit_log_attachment_orphan_detected (container_id : string) (pane : pane_key)
    (target : string) : M tower unit :=
  _ ← emit_once (should_emit_orphan container_id pane target) (LC_orphan container_id pane target);
  mret tt.

Definition emit_always (ev : lifecycle_event) : M tower unit := λ w,
  (Ok tt, if has_logger w then set_lifecycle (lifecycle_log w ++ [ev]) (suppression w) w else w).

Definition emit_mounts_json_oversized (container_id : string) (observed max : Z) : M tower unit :=
  emit_always (LC_mounts_oversized container_id observed max).

Definition emit_socket_peer_uid_mismatch (observed expected : Z) : M tower unit :=
  emit_always (LC_uid_mismatch observed expected).

Definition reset_suppression_for_path (agent_id log_path : string) : M tower unit :=
  modify (λ w, set_lifecycle (lifecycle_log w) (reset_missing agent_id log_path (suppression w)) w).

(** One observation of a log file by the reader (src/src/agenttower/logs/reader_recovery.py). *)

Record ReaderCycleResult := mkCycle {
  rc_change : FileChangeKind; rc_state_mutated : bool;
  rc_lifecycle : option string; rc_audit_appended : bool
}.

(** [_NOOP_RESULT] *)
Definition NOOP_RESULT : ReaderCycleResult := mkCycle UNCHANGED false None false.

(** [_select_attachment_for_recovery] *)
Definition select_attachment_for_recovery (agent_id log_path : string)
  : M tower (option LogAttachmentRecord) :=
  candidate ← on_sql (select_active_for_agent_path agent_id log_path);
  match candidate with
  | Some c => mret (Some c)
  | None =>
      most_recent ← on_sql (select_most_recent_for_agent agent_id);
      match most_recent with
      | None => mret None
      | Some r =>
          if bool_decide (la_log_path r ≠ log_path) || bool_decide (la_status r ≠ "stale")
          then mret None else mret (Some r)
      end
  end.

Definition if_emitted (emitted : bool) (name : string) : option string :=
  if emitted then Some name else None.

(** [_handle_rotation] *)
Definition handle_rotation (attachment : LogAttachmentRecord) (offset_row : LogOffsetRecord)
    (current : FileStat) (change : FileChangeKind) (timestamp : string) : M tower ReaderCycleResult :=
  let new_inode := if bool_decide (change = TRUNCATED) then lo_file_inode offset_row
                   else Some (st_inode current) in
  _ ← on_sql (Sql.transaction (reset_offset (la_agent_id attachment) (la_log_path attachment)
        new_inode (st_size current) timestamp));
  emitted ← emit_log_rotation_detected (la_agent_id attachment) (la_log_path attachment)
    (lo_file_inode offset_row) new_inode (lo_file_size_seen offset_row) (st_size current);
  mret (mkCycle change true (if_emitted emitted "log_rotation_detected") false).

(** [_handle_missing]; [daemon_uid] is [os.geteuid()]. *)
Definition handle_missing (daemon_uid : Z) (attachment : LogAttachmentRecord)
    (offset_row : LogOffsetRecord) (timestamp : string) : M tower ReaderCycleResult :=
  let emit := emit_log_file_missing (la_agent_id attachment) (la_log_path attachment)
                (lo_file_inode offset_row) (lo_file_size_seen offset_row) in
  if bool_decide (la_status attachment = "active")
  then
    _ ← on_sql (Sql.transaction
          (update_status (la_attachment_id attachment) "stale" timestamp None None));
    emitted ← emit;
    _ ← append_log_attachment_change (la_attachment_id attachment) (la_agent_id attachment)
          (Some "active") "stale" (Some (la_log_path attachment)) (la_log_path attachment) None
          "explicit" daemon_uid;
    mret (mkCycle MISSING true (if_emitted emitted "log_file_missing") true)
  else
    emitted ← emit;
    mret (mkCycle MISSING false (if_emitted emitted "log_file_missing") false).

Definition reader_cycle_offset_recovery (daemon_uid : Z) (agent_id log_path timestamp : string)
  : M tower ReaderCycleResult :=
  attachment ← select_attachment_for_recovery agent_id log_path;
  offset_row ← on_sql (select_offset agent_id log_path);
  match attachment, offset_row with
  | Some a, Some o =>
      current ← stat_log_file log_path;
      match current with
      | Some st =>
          if bool_decide (la_status a = "stale")
          then
            emitted ← emit_log_file_returned agent_id log_path (lo_file_inode o)
              (st_inode st) (st_size st);
            mret (mkCycle UNCHANGED false (if_emitted emitted "log_file_returned") false)
          else
            let change := classify_from_stat current (lo_file_inode o) (lo_file_size_seen o) in
            if bool_decide (change = UNCHANGED) then mret NOOP_RESULT
            else if bool_decide (la_status a ≠ "active") then mret (mkCycle change false None false)
            else handle_rotation a o st change timestamp
      | None => handle_missing daemon_uid a o timestamp
      end
  | _, _ => mret (mkCycle MISSING false None false)
  end.
