(* ===== verification/FollowSessions.v ===== *)
(** The follow-session registry (src/src/agenttower/events/session_registry.py).

    The dict of sessions is an association list in insertion order; session ids are
    drawn from [fs_fresh].  [woken] records whose condition was notified, in order:
    the waiters themselves are threads of the socket server. *)

From S2P Require Import Prelude.

Local Open Scope Z_scope.

Record FollowSession := mkFollow {
  fs_session_id : string; fs_target_agent_id : option string; fs_type_filter : list string;
  fs_since_iso : option string; fs_last_emitted_event_id : Z;
  fs_live_starting_event_id : Z; fs_expires_at_monotonic : Z
}.

Record FollowSessionRegistry := mkRegistry {
  fr_sessions : list FollowSession;
  fr_bad_lookup_count : Z;
  fr_bad_lookup_window_start : Z;
  fr_fresh : list string;
  fr_woken : list string
}.

Definition BAD_LOOKUP_THRESHOLD : Z := 100.

Definition matches_filter (target_agent_id : option string) (type_filter : list string)
    (event_agent_id event_type : string) : bool :=
  match target_agent_id with
  | Some a => bool_decide (event_agent_id = a)
  | None => true
  end &&
  (bool_decide (type_filter = []) || bool_decide (event_type ∈ type_filter)).

Definition set_sessions ss r := mkRegistry ss (fr_bad_lookup_count r) (fr_bad_lookup_window_start r)
  (fr_fresh r) (fr_woken r).
Definition wake (ids : list string) r := mkRegistry (fr_sessions r) (fr_bad_lookup_count r)
  (fr_bad_lookup_window_start r) (fr_fresh r) (fr_woken r ++ ids).

(** [open]: storing under an id already present replaces that session. *)
Definition open_session (target_agent_id : option string) (types : list string)
    (since_iso : option string) (live_starting_event_id expires_at_monotonic : Z)
    (r : FollowSessionRegistry) : FollowSession * FollowSessionRegistry :=
  let id := default EmptyString (head (fr_fresh r)) in
  let s := mkFollow id target_agent_id types since_iso 0 live_starting_event_id expires_at_monotonic in
  let keep := filter (λ x, fs_session_id x ≠ id) (fr_sessions r) in
  (s, mkRegistry (keep ++ [s]) (fr_bad_lookup_count r) (fr_bad_lookup_window_start r)
        (tail (fr_fresh r)) (fr_woken r)).

Definition get_session (session_id : string) (r : FollowSessionRegistry) : option FollowSession :=
  snd <$> list_find (λ x, fs_session_id x = session_id) (fr_sessions r).

(** [window_length] is [_BAD_LOOKUP_WINDOW_SECONDS] in clock units. *)
Definition is_rate_limited (window_length now_monotonic : Z) (r : FollowSessionRegistry)
  : bool * FollowSessionRegistry :=
  if window_length <=? now_monotonic - fr_bad_lookup_window_start r
  then (false, mkRegistry (fr_sessions r) 1 now_monotonic (fr_fresh r) (fr_woken r))
  else
    let n := fr_bad_lookup_count r + 1 in
    (BAD_LOOKUP_THRESHOLD <? n,
     mkRegistry (fr_sessions r) n (fr_bad_lookup_window_start r) (fr_fresh r) (fr_woken r)).

(** [close] *)
Definition close_session (session_id : string) (r : FollowSessionRegistry)
  : bool * FollowSessionRegistry :=
  match get_session session_id r with
  | None => (false, r)
  | Some _ =>
      (true, wake [session_id]
        (set_sessions (filter (λ x, fs_session_id x ≠ session_id) (fr_sessions r)) r))
  end.

Definition refresh_expiration (session_id : string) (new_expires_at_monotonic : Z)
    (r : FollowSessionRegistry) : bool * FollowSessionRegistry :=
  match get_session session_id r with
  | None => (false, r)
  | Some _ =>
      (true, set_sessions
        ((λ x, if bool_decide (fs_session_id x = session_id)
               then mkFollow (fs_session_id x) (fs_target_agent_id x) (fs_type_filter x)
                      (fs_since_iso x) (fs_last_emitted_event_id x) (fs_live_starting_event_id x)
                      new_expires_at_monotonic
               else x) <$> fr_sessions r) r)
  end.

Definition gc_expired (now_monotonic : Z) (r : FollowSessionRegistry)
  : list string * FollowSessionRegistry :=
  let removed := fs_session_id <$> filter (λ x, fs_expires_at_monotonic x < now_monotonic) (fr_sessions r) in
  (removed, wake removed
     (set_sessions (filter (λ x, ¬ fs_expires_at_monotonic x < now_monotonic) (fr_sessions r)) r)).

Definition notify (agent_id event_type : string) (r : FollowSessionRegistry) : FollowSessionRegistry :=
  wake (fs_session_id <$>
    filter (λ x, matches_filter (fs_target_agent_id x) (fs_type_filter x) agent_id event_type = true)
      (fr_sessions r)) r.

Definition session_count (r : FollowSessionRegistry) : nat := length (fr_sessions r).

Definition session_lag (current_max_event_id : Z) (s : FollowSession) : Z :=
  Z.max (current_max_event_id -
         Z.max (fs_last_emitted_event_id s) (fs_live_starting_event_id s)) 0.

Definition session_lag_snapshot (current_max_event_id : Z) (r : FollowSessionRegistry)
  : list (string * Z * Z * Z) :=
  (λ s, (fs_session_id s, fs_last_emitted_event_id s, fs_live_starting_event_id s,
         session_lag current_max_event_id s)) <$> fr_sessions r.
