(* ===== verification/EventsReader.v ===== *)
(** The events reader (src/src/agenttower/events/reader.py): each cycle reads new bytes
    of every active log, cuts them into records, classifies and debounces them, commits
    the events together with the offsets in one transaction, appends them to
    [events.jsonl], marks them and wakes followers; synthetic events are added for
    exited panes and long-running tasks.

    [elapsed_between last now] is the difference of two ISO timestamps in the unit of the
    grace periods, [None] when either does not parse.  Threads and waiting are left out:
    the loop runs over the clock readings of its cycles. *)

From S2P Require Import Prelude Errors Utf8 Agents Permissions Store AuditWriter Regex Redaction Classifier Debounce Session Tables LogDao EventsDao Tower FollowSessions.
From Stdlib Require Import Ascii.

Local Open Scope Z_scope.

(** ** Configuration and state *)

Record ReaderConfig := mkConfig {
  cf_byte_cap : nat;
  cf_event_excerpt_cap : Z;
  cf_excerpt_marker : text;
  cf_pane_exited_grace : Z;
  cf_long_running_grace : Z;
  cf_daemon_uid : Z;
  cf_unicode_word : N → bool;
  cf_unicode_digit : N → bool;
  cf_elapsed_between : string → string → option Z
}.

Record DegradedSqlite := mkDegradedSqlite {
  ds_since : string; ds_attachment_id : string; ds_agent_id : string; ds_buffered_count : Z
}.
Record DegradedJsonl := mkDegradedJsonl { dj_since : string; dj_pending_event_count : Z }.
Record AttachmentFailure := mkFailure {
  af_attachment_id : string; af_agent_id : string; af_error : exn; af_since : string
}.

Record reader := mkReader {
  rd_tower : tower;
  rd_debounce : DebounceManager;
  rd_follow : option FollowSessionRegistry;
  rd_pane_exited_emitted : gset string;
  rd_long_running_marked : gset string;
  rd_degraded_sqlite : option DegradedSqlite;
  rd_degraded_jsonl : option DegradedJsonl;
  rd_active_attachments : nat;
  rd_attachments_in_failure : list AttachmentFailure
}.

Definition set_rd_tower w r := mkReader w (rd_debounce r) (rd_follow r) (rd_pane_exited_emitted r)
  (rd_long_running_marked r) (rd_degraded_sqlite r) (rd_degraded_jsonl r)
  (rd_active_attachments r) (rd_attachments_in_failure r).
Definition set_rd_debounce m r := mkReader (rd_tower r) m (rd_follow r) (rd_pane_exited_emitted r)
  (rd_long_running_marked r) (rd_degraded_sqlite r) (rd_degraded_jsonl r)
  (rd_active_attachments r) (rd_attachments_in_failure r).
Definition set_rd_follow f r := mkReader (rd_tower r) (rd_debounce r) f (rd_pane_exited_emitted r)
  (rd_long_running_marked r) (rd_degraded_sqlite r) (rd_degraded_jsonl r)
  (rd_active_attachments r) (rd_attachments_in_failure r).
Definition set_rd_marks pe lr r := mkReader (rd_tower r) (rd_debounce r) (rd_follow r) pe
  lr (rd_degraded_sqlite r) (rd_degraded_jsonl r)
  (rd_active_attachments r) (rd_attachments_in_failure r).
Definition set_rd_degraded ds dj r := mkReader (rd_tower r) (rd_debounce r) (rd_follow r)
  (rd_pane_exited_emitted r) (rd_long_running_marked r) ds dj
  (rd_active_attachments r) (rd_attachments_in_failure r).
Definition set_rd_status n fl r := mkReader (rd_tower r) (rd_debounce r) (rd_follow r)
  (rd_pane_exited_emitted r) (rd_long_running_marked r) (rd_degraded_sqlite r) (rd_degraded_jsonl r)
  n fl.

Definition on_tower {A} (m : M tower A) : M reader A := zoom rd_tower set_rd_tower m.
Definition on_dao {A} (m : dao A) : M reader A := on_tower (on_sql m).
Definition on_debounce {A} (f : DebounceManager → A * DebounceManager) : M reader A := λ r,
  let (a, m) := f (rd_debounce r) in (Ok a, set_rd_debounce m r).

(** [_AttachmentCycleResult] *)
Record CycleResult := mkResult {
  cy_events_emitted : nat; cy_bytes_read : nat; cy_failed : bool; cy_failure_class : option string
}.

(** ** Splitting into records *)

Definition LF : ascii := "010"%char.
Definition CR : ascii := "013"%char.

(** [r[:-1] if r.endswith(b"\r") else r] *)
Fixpoint strip_cr (r : string) : string :=
  match r with
  | EmptyString => EmptyString
  | String c EmptyString => if Ascii.eqb c CR then EmptyString else r
  | String c rest => String c (strip_cr rest)
  end.

(** [raw.split(b"\n")[:-1]] *)
Definition complete_raw (raw : string) : list string := removelast (Text.split LF raw).

(** [_split_complete_records] *)
Definition split_complete_records (raw : string) : list string * nat * nat :=
  let cr := complete_raw raw in
  (strip_cr <$> cr, (sum_list (String.length <$> cr) + length cr)%nat, length cr).

(** ** JSONL and followers *)

Definition degrade_sqlite (now_iso att agent : string) (n : Z) : M reader unit :=
  modify (λ r, set_rd_degraded (Some (mkDegradedSqlite now_iso att agent n)) (rd_degraded_jsonl r) r).

Definition degrade_jsonl (now_iso : string) : M reader unit :=
  modify (λ r, set_rd_degraded (rd_degraded_sqlite r)
    (Some (mkDegradedJsonl now_iso
       (default 0 (dj_pending_event_count <$> rd_degraded_jsonl r) + 1))) r).

Definition notify_followers (agent_id event_type : string) : M reader unit :=
  modify (λ r, set_rd_follow (notify agent_id event_type <$> rd_follow r) r).

(** [try: m; True  except <p>: h; False] *)
Definition attempt {S} (m : M S unit) (p : exn → bool) (h : M S unit) : M S bool :=
  catch (_ ← m; mret true) (λ e, if p e then _ ← h; mret false else throw e).

(** [_append_event_to_jsonl] *)
Definition append_event_to_jsonl (row : DurableEvent) (event_id : Z) : M tower unit :=
  append_line (L_event event_id row).

(** [_append_mark_and_notify] *)
Definition append_mark_and_notify (event_id : Z) (row : DurableEvent) (now_iso : string)
  : M reader bool :=
  appended ← attempt (on_tower (append_event_to_jsonl row event_id)) is_os_error (degrade_jsonl now_iso);
  if negb appended then mret false
  else
    marked ← attempt (on_dao (Sql.transaction (mark_durable_appended event_id now_iso)))
      is_sqlite_error
      (degrade_sqlite now_iso (default EmptyString (de_attachment_id row)) (de_agent_id row) 0);
    if negb marked then mret false
    else _ ← notify_followers (de_agent_id row) (de_event_type row); mret true.

(** One turn of the retry loop: [true] when the append failed and the row stays pending. *)
Definition retry_one (now_iso : string) (row : DurableEvent) : M reader bool :=
  ok ← attempt
    (_ ← on_tower (append_event_to_jsonl row (de_event_id row));
     on_dao (mark_durable_appended (de_event_id row) now_iso))
    is_os_error (mret tt);
  mret (negb ok).

(** [_retry_pending_jsonl_appends] *)
Definition retry_pending_jsonl_appends (now_iso : string) : M reader unit :=
  pending ← catch (p ← on_dao (select_pending_jsonl 50); mret (Some p))
              (λ e, if is_sqlite_error e then mret None else throw e);
  match pending with
  | None => mret tt
  | Some [] => modify (λ r, set_rd_degraded (rd_degraded_sqlite r) None r)
  | Some rows =>
      failed ← mapM (retry_one now_iso) rows;
      let remaining := Z.of_nat (length (filter (λ b, b = true) failed)) in
      modify (λ r, set_rd_degraded (rd_degraded_sqlite r)
        (if remaining =? 0 then None
         else Some (mkDegradedJsonl (default now_iso (dj_since <$> rd_degraded_jsonl r)) remaining)) r)
  end.

(** ** The atomic commit *)

Definition event_row (attachment : LogAttachmentRecord) (ev : PendingEvent) : DurableEvent :=
  mkDurable 0 (pe_event_type ev) (la_agent_id attachment) (Some (la_attachment_id attachment))
    (Some (la_log_path attachment)) (Some (pe_byte_range_start ev)) (Some (pe_byte_range_end ev))
    (Some (pe_line_offset_start ev)) (Some (pe_line_offset_end ev)) (pe_observed_at ev) None
    (encode (pe_excerpt ev)) (Some (pe_rule_id ev)) (pe_window_id ev) (pe_collapsed_count ev)
    (pe_window_started_at ev) (pe_window_ended_at ev) 1 None.

(** The body of the transaction of [_commit_events_and_advance]. *)
Definition insert_and_advance (attachment : LogAttachmentRecord) (offset_row : LogOffsetRecord)
    (events_to_emit : list PendingEvent) (advance_bytes advance_lines : Z) (now_iso : string)
  : dao (list (Z * DurableEvent)) :=
  ids ← mapM (λ ev, id ← insert_event (event_row attachment ev); mret (id, event_row attachment ev))
          events_to_emit;
  _ ← advance_offset (la_agent_id attachment) (la_log_path attachment)
        (lo_byte_offset offset_row + advance_bytes) (lo_line_offset offset_row + advance_lines)
        (match last events_to_emit with
         | Some ev => pe_byte_range_end ev
         | None => lo_last_event_offset offset_row
         end)
        (lo_file_inode offset_row) (lo_file_size_seen offset_row)
        (if 0 <? advance_bytes then Some now_iso else lo_last_output_at offset_row) now_iso;
  mret ids.

(** [_commit_events_and_advance] *)
Definition commit_events_and_advance (attachment : LogAttachmentRecord)
    (offset_row : LogOffsetRecord) (events_to_emit : list PendingEvent)
    (advance_bytes advance_lines : Z) (bytes_read : nat) (now_iso : string) : M reader CycleResult :=
  committed ← catch
    (ids ← on_dao (Sql.transaction (insert_and_advance attachment offset_row events_to_emit
                      advance_bytes advance_lines now_iso));
     mret (Some ids))
    (λ e, if is_sqlite_error e
          then _ ← degrade_sqlite now_iso (la_attachment_id attachment) (la_agent_id attachment)
                 (Z.of_nat (length events_to_emit));
               mret None
          else throw e);
  match committed with
  | None => mret (mkResult 0 0 true (Some "sqlite_commit"%string))
  | Some ids =>
      _ ← mapM (λ ir, append_mark_and_notify ir.1 ir.2 now_iso) ids;
      mret (mkResult (length ids) bytes_read false None)
  end.

(** ** Synthesised events *)

Definition LONG_RUNNING_ELIGIBLE : list string :=
  ["activity"; "error"; "test_failed"; "manual_review_needed"; "swarm_member_reported"]%string.

Definition synthetic_row (attachment : LogAttachmentRecord) (event_type rule_id now_iso : string)
    (offset_row : LogOffsetRecord) : DurableEvent :=
  mkDurable 0 event_type (la_agent_id attachment) (Some (la_attachment_id attachment))
    (Some (la_log_path attachment)) (Some (lo_byte_offset offset_row))
    (Some (lo_byte_offset offset_row)) (Some (lo_line_offset offset_row))
    (Some (lo_line_offset offset_row)) now_iso None EmptyString (Some rule_id) None 1 None None 1 None.

(** [_persist_synthetic_event] *)
Definition persist_synthetic_event (attachment : LogAttachmentRecord)
    (event_type rule_id now_iso : string) (offset_row : LogOffsetRecord) : M reader (option Z) :=
  let row := synthetic_row attachment event_type rule_id now_iso offset_row in
  inserted ← catch (id ← on_dao (Sql.transaction (insert_event row)); mret (Some id))
    (λ e, if is_sqlite_error e
          then _ ← degrade_sqlite now_iso (la_attachment_id attachment) (la_agent_id attachment) 1;
               mret None
          else throw e);
  match inserted with
  | None => mret None
  | Some id => _ ← append_mark_and_notify id row now_iso; mret (Some id)
  end.

(** [offset_row.last_output_at or offset_row.updated_at] *)
Definition last_seen (o : LogOffsetRecord) : string :=
  match lo_last_output_at o with
  | None | Some EmptyString => lo_updated_at o
  | Some t => t
  end.

Definition pane_row_active (a : LogAttachmentRecord) (d : tower_db) : option bool :=
  pr_active <$> panes d !! attachment_composite_key a.

Section Cycle.
Variable cfg : ReaderConfig.

(** Quiet for at least [grace]; [None] is a timestamp that does not parse. *)
Definition quiet_for (o : LogOffsetRecord) (now_iso : string) (grace : Z) : bool :=
  if bool_decide (last_seen o = EmptyString) then false
  else match cf_elapsed_between cfg (last_seen o) now_iso with
       | None => false
       | Some elapsed => negb (elapsed <? grace)
       end.

(** [_maybe_synthesize_pane_exited] *)
Definition maybe_synthesize_pane_exited (a : LogAttachmentRecord) (now_iso : string) : M reader unit :=
  r ← get;
  if bool_decide (la_attachment_id a ∈ rd_pane_exited_emitted r) then mret tt
  else
    pane ← on_dao (Sql.read (pane_row_active a));
    match pane with
    | Some false =>
        offset_row ← on_dao (select_offset (la_agent_id a) (la_log_path a));
        match offset_row with
        | None => mret tt
        | Some o =>
            if quiet_for o now_iso (cf_pane_exited_grace cfg)
            then
              id ← persist_synthetic_event a "pane_exited" PANE_EXITED_SYNTH_RULE_ID now_iso o;
              match id with
              | None => mret tt
              | Some _ => modify (λ r, set_rd_marks ({[ la_attachment_id a ]} ∪ rd_pane_exited_emitted r)
                                         (rd_long_running_marked r) r)
              end
            else mret tt
        end
    | _ => mret tt
    end.

(** [_maybe_synthesize_long_running] *)
Definition maybe_synthesize_long_running (a : LogAttachmentRecord) (now_iso : string) : M reader unit :=
  last_event ← on_dao (last_event_for_attachment (la_attachment_id a));
  match last_event with
  | None => mret tt
  | Some (last_event_type, _) =>
      _ ← modify (λ r,
            if bool_decide (la_attachment_id a ∈ rd_long_running_marked r) &&
               bool_decide (last_event_type ∈ LONG_RUNNING_ELIGIBLE)
            then set_rd_marks (rd_pane_exited_emitted r)
                   (rd_long_running_marked r ∖ {[ la_attachment_id a ]}) r
            else r);
      r ← get;
      if bool_decide (la_attachment_id a ∈ rd_long_running_marked r) then mret tt
      else if bool_decide (last_event_type ∉ LONG_RUNNING_ELIGIBLE) then mret tt
      else
        offset_row ← on_dao (select_offset (la_agent_id a) (la_log_path a));
        match offset_row with
        | None => mret tt
        | Some o =>
            if quiet_for o now_iso (cf_long_running_grace cfg)
            then
              id ← persist_synthetic_event a "long_running" LONG_RUNNING_SYNTH_RULE_ID now_iso o;
              match id with
              | None => mret tt
              | Some _ => modify (λ r, set_rd_marks (rd_pane_exited_emitted r)
                                         ({[ la_attachment_id a ]} ∪ rd_long_running_marked r) r)
              end
            else mret tt
        end
  end.

(** ** One cycle of one attachment *)

Definition classify_record (record : string) : outcome ClassifierOutcome :=
  classify (cf_unicode_word cfg) (cf_unicode_digit cfg) (decode_replace record)
    (cf_event_excerpt_cap cfg) (cf_excerpt_marker cfg).

(** The loop over the complete records: [byte_start] runs along. *)
Fixpoint submit_records (a : LogAttachmentRecord) (now_iso : string) (now_monotonic : Z)
    (line_start byte_start : Z) (records : list string) : M reader (list PendingEvent) :=
  match records with
  | [] => mret []
  | record :: rest =>
      match classify_record record with
      | Raise e => throw e
      | Ok out =>
          let byte_end := byte_start + Z.of_nat (String.length record) + 1 in
          emitted ← on_debounce (submit (mkSubmission (la_attachment_id a) out now_iso now_monotonic
                      byte_start byte_end line_start (line_start + 1)));
          more ← submit_records a now_iso now_monotonic (line_start + 1) byte_end rest;
          mret (emitted ++ more)
      end
  end.

Definition forced_event (out : ClassifierOutcome) (now_iso : string) (o : LogOffsetRecord)
    (n : Z) : PendingEvent :=
  mkPending (oc_event_type out) (oc_rule_id out) (oc_excerpt out) now_iso (lo_byte_offset o)
    (lo_byte_offset o + n) (lo_line_offset o) (lo_line_offset o) None 1 None None.

Definition no_events (bytes_read : nat) : CycleResult := mkResult 0 bytes_read false None.

(** Flush the windows of this attachment and commit what they held. *)
Definition flush_only (a : LogAttachmentRecord) (o : LogOffsetRecord) (bytes_read : nat)
    (now_iso : string) (now_monotonic : Z) : M reader CycleResult :=
  expired ← on_debounce (flush_expired now_monotonic now_iso (Some (la_attachment_id a)));
  if bool_decide (expired ≠ [])
  then commit_events_and_advance a o expired 0 0 bytes_read now_iso
  else mret (no_events bytes_read).

(** Steps 5 to 9 of the cycle. *)
Definition process_bytes (a : LogAttachmentRecord) (o : LogOffsetRecord) (new_bytes : string)
    (now_iso : string) (now_monotonic : Z) : M reader CycleResult :=
  let n := String.length new_bytes in
  if bool_decide (new_bytes = EmptyString) then flush_only a o 0 now_iso now_monotonic
  else
    let '(records, advance_bytes, advance_lines) := split_complete_records new_bytes in
    if bool_decide (records = [])
    then
      if (cf_byte_cap cfg <=? n)%nat
      then match classify_record new_bytes with
           | Raise e => throw e
           | Ok out =>
               commit_events_and_advance a o [forced_event out now_iso o (Z.of_nat n)]
                 (Z.of_nat n) 0 n now_iso
           end
      else flush_only a o n now_iso now_monotonic
    else
      events ← submit_records a now_iso now_monotonic (lo_line_offset o) (lo_byte_offset o) records;
      expired ← on_debounce (flush_expired now_monotonic now_iso (Some (la_attachment_id a)));
      commit_events_and_advance a o (events ++ expired) (Z.of_nat advance_bytes)
        (Z.of_nat advance_lines) n now_iso.

Definition run_cycle_for_attachment (a : LogAttachmentRecord) (now_iso : string)
    (now_monotonic : Z) : M reader CycleResult :=
  _ ← maybe_synthesize_pane_exited a now_iso;
  _ ← maybe_synthesize_long_running a now_iso;
  recovery ← on_tower (reader_cycle_offset_recovery (cf_daemon_uid cfg) (la_agent_id a)
               (la_log_path a) now_iso);
  if bool_decide (rc_change recovery ≠ UNCHANGED) then mret (no_events 0)
  else
    offset_row ← on_dao (select_offset (la_agent_id a) (la_log_path a));
    match offset_row with
    | None => mret (mkResult 0 0 true (Some "missing_offset_row"%string))
    | Some o =>
        if lo_byte_offset o <? 0 then throw (PyError "RuntimeError")
        else
          read ← catch
            (b ← on_tower (read_bytes (la_log_path a) (lo_byte_offset o) (cf_byte_cap cfg));
             mret (inl b))
            (λ e, if is_os_error e
                  then match e with PyError n => mret (inr n) | _ => throw e end
                  else throw e);
          match read with
          | inr cls => mret (mkResult 0 0 true (Some cls))
          | inl new_bytes => process_bytes a o new_bytes now_iso now_monotonic
          end
    end.

(** ** The loop *)

(** [_list_active_attachments] *)
Definition list_active_attachments : dao (list LogAttachmentRecord) :=
  ids ← Sql.read (λ d, la_attachment_id <$> filter is_active (log_attachments d));
  found ← mapM (λ id,
    row ← Sql.read (fetch_first (λ a, la_attachment_id a = id ∧ is_active a));
    match row with
    | None => mret []
    | Some _ =>
        agent_row ← Sql.read (fetch_first (λ a, la_attachment_id a = id));
        match agent_row with
        | None => mret []
        | Some ar =>
            full ← select_for_agent_path (la_agent_id ar) (la_log_path ar);
            mret (match full with
                  | Some f => if bool_decide (la_status f = "active"%string) then [f] else []
                  | None => []
                  end)
        end
    end) ids;
  mret (concat found).

(** One attachment of the walk; what it raises is recorded. *)
Definition visit (now_iso : string) (now_monotonic : Z) (a : LogAttachmentRecord)
  : M reader (list AttachmentFailure) :=
  except (_ ← run_cycle_for_attachment a now_iso now_monotonic; mret [])
    (λ e, mret [mkFailure (la_attachment_id a) (la_agent_id a) e now_iso]).

(** [try: m finally: conn.close()] *)
Definition closing {A} (m : M reader A) : M reader A := λ r,
  match m r with (o, r') => (o, (on_dao Sql.close r').2) end.

(** [_run_one_cycle] *)
Definition run_one_cycle (now_iso : string) (now_monotonic : Z) : M reader unit :=
  _ ← modify (λ r, set_rd_follow ((λ f, (gc_expired now_monotonic f).2) <$> rd_follow r) r);
  _ ← on_dao Sql.statement; (* connect *)
  _ ← on_dao Sql.statement; (* PRAGMA journal_mode *)
  _ ← on_dao Sql.statement; (* PRAGMA foreign_keys *)
  closing
    (attachments ← on_dao list_active_attachments;
     _ ← modify (λ r, set_rd_status (length attachments) (rd_attachments_in_failure r) r);
     failures ← mapM (visit now_iso now_monotonic) attachments;
     _ ← modify (λ r, set_rd_status (rd_active_attachments r) (concat failures) r);
     retry_pending_jsonl_appends now_iso).

(** [run_loop] over the clock readings of its cycles. *)
Definition run_loop (ticks : list (string * Z)) : M reader unit :=
  _ ← mapM (λ t, except (run_one_cycle t.1 t.2) (λ _, mret tt)) ticks; mret tt.
End Cycle.
