(* ===== verification/EventsReaderSpec.v ===== *)
(** Properties of the events reader. *)

From S2P Require Import Prelude Errors Utf8 Agents Permissions Store AuditWriter Regex Redaction Classifier Debounce Session Tables LogDao EventsDao Tower FollowSessions EventsReader.
From Stdlib Require Import Ascii.

Local Open Scope Z_scope.

(** ** Splitting *)

Definition terminated (lines : list string) : string :=
  foldr (λ l s, (l +:+ String LF s)) EmptyString lines.

Definition free_of (c : ascii) (s : string) : Prop := Text.all (λ x, negb (Ascii.eqb x c)) s = true.

Lemma terminated_cons l ls : terminated (l :: ls) = l +:+ String LF (terminated ls).
Proof. done. Qed.

Lemma string_length_app a b : String.length (a +:+ b) = (String.length a + String.length b)%nat.
Proof. induction a as [|c a IH]; [done|]. change (S (String.length (a +:+ b)) = S (String.length a + String.length b)). by rewrite IH. Qed.

Lemma terminated_length ls :
  String.length (terminated ls) = (sum_list (String.length <$> ls) + length ls)%nat.
Proof.
  induction ls as [|l ls IH]; [done|]. rewrite terminated_cons, string_length_app.
  rewrite fmap_cons. cbn [String.length sum_list sum_list_with length]. rewrite IH. unfold sum_list, id. lia.
Qed.

Definition partial_of (raw : string) : string := List.last (Text.split LF raw) EmptyString.

Lemma split_terminated raw :
  raw = terminated (complete_raw raw) +:+ partial_of raw ∧
  free_of LF (partial_of raw) ∧ Forall (free_of LF) (complete_raw raw).
Proof.
  unfold complete_raw, partial_of. induction raw as [|c raw IH]; [by repeat constructor|].
  cbn [Text.split]. pose proof (Text.split_nonempty LF raw) as Hne.
  destruct (Text.split LF raw) as [|p ps]; [done|]. destruct IH as (IH1 & IH2 & IH3).
  case_bool_decide as Hc.
  - subst c. cbn [removelast List.last]. rewrite terminated_cons. split; [|done || split; [done|]].
    { change (EmptyString +:+ ?x) with x. change (String LF raw = String LF (terminated (removelast (p :: ps)) +:+ List.last (p :: ps) EmptyString)). by f_equal. }
    constructor; [done|exact IH3].
  - destruct ps as [|q ps]; cbn [removelast List.last] in *.
    + split; [cbn in IH1; by subst raw|]. split; [|constructor]. unfold free_of in *. cbn [Text.all].
      rewrite IH2, andb_true_r. apply negb_true_iff, Ascii.eqb_neq. done.
    + split; [|split; [done|]].
      * rewrite terminated_cons in *. exact (f_equal (String c) IH1).
      * inversion IH3; subst. constructor; [|done]. unfold free_of in *. cbn [Text.all].
        apply andb_true_iff. split; [|done]. apply negb_true_iff, Ascii.eqb_neq. done.
Qed.

(** Cutting the bytes of a read into records loses nothing: the records with their
    line ends and the unterminated rest are the bytes, no record holds a line end, and the
    offsets move over exactly the terminated part, CR included. *)
Theorem split_is_lossless raw :
  let '(records, advance_bytes, advance_lines) := split_complete_records raw in
  raw = terminated (complete_raw raw) +:+ partial_of raw ∧
  Forall (free_of LF) (complete_raw raw) ∧ free_of LF (partial_of raw) ∧
  records = strip_cr <$> complete_raw raw ∧
  advance_bytes = String.length (terminated (complete_raw raw)) ∧
  advance_lines = length records.
Proof.
  unfold split_complete_records. destruct (split_terminated raw) as (H1 & H2 & H3).
  split_and!; try done; [by rewrite terminated_length|by rewrite length_fmap].
Qed.

(** ** Quiet runs

Nothing fails and nobody else writes: what the programs compute. *)

Definition intx {D} (d d' : D) : session D := mkSession d (Some d') [] [].

Lemma quiet_transaction {D A} (m : M (session D) A) (d d' : D) a :
  m (intx d d) = (Ok a, intx d d') → Sql.transaction m (still d) = (Ok a, still d').
Proof.
  intros E. unfold Sql.transaction, except, catch, mbind, M_bind.
  change (Sql.begin_immediate (still d)) with (Ok tt, intx d d). cbv iota beta. rewrite E. done.
Qed.

(** A row the table and [insert_event] accept. *)
Definition storable (ev : PendingEvent) : Prop :=
  pe_event_type ev ∈ EVENT_TYPES ∧ 0 ≤ pe_byte_range_start ev ≤ pe_byte_range_end ev ∧
  0 ≤ pe_line_offset_start ev ≤ pe_line_offset_end ev ∧ 1 ≤ pe_collapsed_count ev.

Lemma intx_write {D A} (f : D → outcome (A * D)) (d d1 d2 : D) x :
  f d1 = Ok (x, d2) → Sql.write f (intx d d1) = (Ok x, intx d d2).
Proof. intros E. unfold Sql.write, mbind, M_bind, lift. cbn. by rewrite E. Qed.

Lemma intx_read {D A} (f : D → A) (d d1 : D) : Sql.read f (intx d d1) = (Ok (f d1), intx d d1).
Proof. done. Qed.

Lemma storable_checks a ev id : storable ev → check_event (numbered id (event_row a ev)) = true.
Proof.
  intros (H1 & H2 & H3 & H4). unfold check_event, numbered, event_row.
  cbn -[EVENT_TYPES AUDIT_EVENT_TYPES Z.leb bool_decide].
  rewrite bool_decide_eq_true_2 by (apply elem_of_app; by left).
  unfold range_ok. rewrite !(proj2 (Z.leb_le _ _)) by lia. done.
Qed.

Lemma quiet_insert_event a ev d d1 :
  storable ev →
  insert_event (event_row a ev) (intx d d1) =
    (Ok (durable_seq d1 + 1),
     intx d (set_durable (durable d1 ++ [numbered (durable_seq d1 + 1) (event_row a ev)])
               (durable_seq d1 + 1) d1)).
Proof.
  intros Hs. pose proof (storable_checks a ev (durable_seq d1 + 1) Hs) as Hc.
  destruct Hs as (H1 & H2 & H3 & H4). unfold insert_event.
  rewrite bool_decide_eq_false_2 by (cbn; auto). cbn -[Z.ltb Sql.write].
  rewrite !(proj2 (Z.ltb_ge _ _)) by lia. cbn [orb].
  apply intx_write. unfold append_event_row. by rewrite Hc.
Qed.

(** The ids given to a batch. *)
Fixpoint numbered_from (n : Z) (rows : list DurableEvent) : list (Z * DurableEvent) :=
  match rows with
  | [] => []
  | r :: rest => (n, r) :: numbered_from (n + 1) rest
  end.

Lemma numbered_from_length n rows : length (numbered_from n rows) = length rows.
Proof. revert n. induction rows as [|r rows IH]; intros n; cbn; [done|]. by rewrite IH. Qed.

Definition stored_rows (n : Z) (rows : list DurableEvent) : list DurableEvent :=
  (λ ir, numbered ir.1 ir.2) <$> numbered_from n rows.

Definition add_rows (rows : list DurableEvent) (d : tower_db) : tower_db :=
  set_durable (durable d ++ stored_rows (durable_seq d + 1) rows)
    (durable_seq d + Z.of_nat (length rows)) d.

Lemma quiet_inserts a evs d d1 :
  Forall storable evs →
  mapM (λ ev, id ← insert_event (event_row a ev); mret (id, event_row a ev)) evs (intx d d1) =
    (Ok (numbered_from (durable_seq d1 + 1) (event_row a <$> evs)),
     intx d (add_rows (event_row a <$> evs) d1)).
Proof.
  intros Hs. revert d1. induction Hs as [|ev evs Hev Hs IH]; intros d1.
  { cbn. unfold add_rows, intx, set_durable. cbn. rewrite app_nil_r, Z.add_0_r. by destruct d1. }
  cbn [mapM fmap list_fmap]. unfold mbind, M_bind. rewrite quiet_insert_event by done. cbn -[mapM].
  rewrite IH. cbn [mret M_ret]. do 2 f_equal. unfold add_rows, set_durable. cbn. f_equal.
  - by rewrite <- app_assoc.
  - rewrite length_fmap. lia.
Qed.

Definition advanced (o : LogOffsetRecord) (b l le : Z) (out : option string) (ts : string)
  : LogOffsetRecord :=
  mkOffset (lo_agent_id o) (lo_log_path o) b l le out (lo_file_inode o) (lo_file_size_seen o)
    (lo_created_at o) ts.

Lemma quiet_advance agent path o d d1 b l le out ts :
  log_offsets d1 !! (agent, path) = Some o →
  advance_offset agent path b l le (lo_file_inode o) (lo_file_size_seen o) out ts (intx d d1) =
    (Ok tt, intx d (set_log_offsets (<[(agent, path) := advanced o b l le out ts]> (log_offsets d1)) d1)).
Proof.
  intros E. unfold advance_offset, require_row_exists, update_offset, mbind, M_bind.
  rewrite intx_read, E. cbv iota beta. apply intx_write. do 3 f_equal. apply map_eq. intros k.
  destruct (decide (k = (agent, path))) as [->|].
  - by rewrite lookup_alter_eq, E, lookup_insert_eq.
  - by rewrite lookup_alter_ne, lookup_insert_ne by done.
Qed.

Definition with_mark (ts : string) (e : DurableEvent) : DurableEvent :=
  mkDurable (de_event_id e) (de_event_type e) (de_agent_id e) (de_attachment_id e)
    (de_log_path e) (de_byte_range_start e) (de_byte_range_end e) (de_line_offset_start e)
    (de_line_offset_end e) (de_observed_at e) (de_record_at e) (de_excerpt e)
    (de_classifier_rule_id e) (de_window_id e) (de_collapsed_count e)
    (de_window_started_at e) (de_window_ended_at e) (de_schema_version e) (Some ts).

Lemma mark_other id ts l : Forall (λ e, de_event_id e ≠ id) l → mark_row id ts <$> l = l.
Proof.
  induction 1 as [|e l He _ IH]; [done|]. rewrite fmap_cons, IH. f_equal. unfold mark_row.
  by rewrite bool_decide_eq_false_2.
Qed.

Lemma stored_rows_ids n rows : Forall (λ e, n ≤ de_event_id e) (stored_rows n rows).
Proof.
  revert n. induction rows as [|r rows IH]; intros n; [constructor|].
  unfold stored_rows in *. cbn. constructor; [cbn; lia|].
  eapply Forall_impl; [apply IH|]. cbn. intros; lia.
Qed.

(** A reader whose appends, statements and files all answer, on database [d]. *)
Record at_rest (d : tower_db) (r : reader) : Prop := mkAtRest {
  rest_sess : sess (rd_tower r) = still d;
  rest_io : events_io (rd_tower r) = []
}.

(** What appending, marking and notifying leave alone. *)
Record same_memory (r r' : reader) : Prop := mkSame {
  same_debounce : rd_debounce r' = rd_debounce r;
  same_exited : rd_pane_exited_emitted r' = rd_pane_exited_emitted r;
  same_running : rd_long_running_marked r' = rd_long_running_marked r;
  same_files : files (rd_tower r') = files (rd_tower r);
  same_moves : file_moves (rd_tower r') = file_moves (rd_tower r)
}.

Lemma same_memory_trans r1 r2 r3 : same_memory r1 r2 → same_memory r2 r3 → same_memory r1 r3.
Proof. intros [] []. constructor; congruence. Qed.

Lemma quiet_append_mark id row now d r :
  at_rest d r →
  ∃ r', append_mark_and_notify id row now r = (Ok true, r') ∧
    at_rest (set_durable (mark_row id now <$> durable d) (durable_seq d) d) r' ∧ same_memory r r' ∧
    events_jsonl (rd_tower r') = events_jsonl (rd_tower r) ++ [L_event id row].
Proof.
  intros [Hs Hio]. eexists. split; [|split_and!].
  - unfold append_mark_and_notify, attempt, catch, mbind, M_bind, on_tower, append_event_to_jsonl,
      append_line, zoom. rewrite Hio. cbn -[Sql.transaction]. unfold on_dao, on_tower, on_sql, zoom.
    cbn -[Sql.transaction]. rewrite Hs. erewrite quiet_transaction by done. cbn. reflexivity.
  - by constructor.
  - by constructor.
  - done.
Qed.

Lemma quiet_append_all rows n now d r pre :
  at_rest d r → durable d = pre ++ stored_rows n rows →
  Forall (λ e, de_event_id e < n) pre → Forall (λ e, de_jsonl_appended_at e = None) rows →
  ∃ bs r', mapM (λ ir, append_mark_and_notify ir.1 ir.2 now) (numbered_from n rows) r = (Ok bs, r') ∧
    at_rest (set_durable (pre ++ (with_mark now <$> stored_rows n rows)) (durable_seq d) d) r' ∧
    same_memory r r' ∧
    events_jsonl (rd_tower r') =
      events_jsonl (rd_tower r) ++ ((λ ir, L_event ir.1 ir.2) <$> numbered_from n rows).
Proof.
  intros Hr Hd Hpre Hun. revert n d r pre Hr Hd Hpre.
  induction Hun as [|row rows Hrow Hun IH]; intros n d r pre Hr Hd Hpre.
  { exists [], r. cbn. cbn in Hd. rewrite !app_nil_r in *. split; [done|]. split; [|by repeat split].
    rewrite <- Hd. by destruct d. }
  cbn [numbered_from mapM]. unfold mbind, M_bind. cbn [fst snd].
  destruct (quiet_append_mark n row now d r Hr) as (r1 & -> & Hr1 & Hs1 & Hj1).
  change (stored_rows n (row :: rows)) with (numbered n row :: stored_rows (n + 1) rows) in *.
  edestruct (IH (n + 1) _ r1 (pre ++ [with_mark now (numbered n row)]) Hr1) as (bs & r2 & -> & Hr2 & Hs2 & Hj2).
  - cbn. rewrite Hd, fmap_app, fmap_cons, mark_other.
    2:{ eapply Forall_impl; [exact Hpre|]. cbn. intros; lia. }
    rewrite (mark_other _ _ (stored_rows _ _)).
    2:{ eapply Forall_impl; [apply stored_rows_ids|]. cbn. intros; lia. }
    rewrite <- app_assoc. cbn. do 2 f_equal. unfold mark_row. cbn.
    rewrite bool_decide_eq_true_2 by done. by rewrite Hrow.
  - apply Forall_app_2; [eapply Forall_impl; [exact Hpre|cbn; intros; lia]|].
    apply Forall_singleton. cbn. lia.
  - exists (true :: bs), r2. split; [done|]. split; [|split; [by eapply same_memory_trans|]].
    + rewrite <- app_assoc in Hr2. exact Hr2.
    + rewrite Hj2, Hj1, <- app_assoc. done.
Qed.

(** The database after a committed batch whose lines were all appended and marked. *)
Definition consumed (a : LogAttachmentRecord) (o : LogOffsetRecord) (evs : list PendingEvent)
    (advance_bytes advance_lines : Z) (now : string) (d : tower_db) : tower_db :=
  set_durable
    (durable d ++ (with_mark now <$> stored_rows (durable_seq d + 1) (event_row a <$> evs)))
    (durable_seq d + Z.of_nat (length evs))
    (set_log_offsets (<[(la_agent_id a, la_log_path a) :=
       advanced o (lo_byte_offset o + advance_bytes) (lo_line_offset o + advance_lines)
         (match last evs with Some ev => pe_byte_range_end ev | None => lo_last_event_offset o end)
         (if 0 <? advance_bytes then Some now else lo_last_output_at o) now]> (log_offsets d)) d).

Lemma quiet_insert_and_advance a o evs ab al now d :
  log_offsets d !! (la_agent_id a, la_log_path a) = Some o → Forall storable evs →
  Sql.transaction (insert_and_advance a o evs ab al now) (still d) =
    (Ok (numbered_from (durable_seq d + 1) (event_row a <$> evs)),
     still (set_log_offsets (log_offsets (consumed a o evs ab al now d))
              (add_rows (event_row a <$> evs) d))).
Proof.
  intros Ho Hs. apply quiet_transaction. unfold insert_and_advance. unfold mbind at 1, M_bind at 1.
  rewrite quiet_inserts by done. unfold mbind, M_bind. rewrite (quiet_advance _ _ o) by done. done.
Qed.

Lemma quiet_commit a o evs ab al n now d r :
  at_rest d r → log_offsets d !! (la_agent_id a, la_log_path a) = Some o → Forall storable evs →
  Forall (λ e, de_event_id e ≤ durable_seq d) (durable d) →
  ∃ r', commit_events_and_advance a o evs ab al n now r =
          (Ok (mkResult (length evs) n false None), r') ∧
    at_rest (consumed a o evs ab al now d) r' ∧ same_memory r r' ∧
    events_jsonl (rd_tower r') = events_jsonl (rd_tower r) ++
      ((λ ir, L_event ir.1 ir.2) <$> numbered_from (durable_seq d + 1) (event_row a <$> evs)).
Proof.
  intros [Hs Hio] Ho Hst Hids. unfold commit_events_and_advance, catch, mbind, M_bind.
  unfold on_dao at 1, on_tower at 1, on_sql at 1, zoom at 1 2. rewrite Hs.
  rewrite quiet_insert_and_advance by done. cbv iota beta. cbn [mret M_ret].
  set (d1 := set_log_offsets _ _). set (r1 := set_rd_tower _ r).
  assert (at_rest d1 r1) as Hr1 by (by constructor).
  edestruct (quiet_append_all (event_row a <$> evs) (durable_seq d + 1) now d1 r1 (durable d) Hr1)
    as (bs & r2 & E & Hr2 & Hm2 & Hj2).
  - done.
  - eapply Forall_impl; [exact Hids|]. cbn. intros; lia.
  - apply Forall_fmap, Forall_true. done.
  - exists r2. cbn [M_ret mret]. rewrite E. split; [|split; [|split]].
    + by rewrite numbered_from_length, length_fmap.
    + unfold consumed. subst d1. cbn in Hr2. unfold add_rows in Hr2.
      by rewrite length_fmap in Hr2.
    + destruct Hm2. by constructor.
    + done.
Qed.

(** ** Records through the debouncer *)

Lemma emitted_for_app a ops1 ops2 m :
  emitted_for a (ops1 ++ ops2) m =
  let (es1, m1) := emitted_for a ops1 m in
  let (es2, m2) := emitted_for a ops2 m1 in (es1 ++ es2, m2).
Proof.
  revert m. induction ops1 as [|op ops1 IH]; intros m; cbn [emitted_for app].
  - by destruct (emitted_for a ops2 m).
  - destruct (apply_op op m) as [es m1]. rewrite IH. destruct (emitted_for a ops1 m1) as [es1 m2].
    destruct (emitted_for a ops2 m2) as [es2 m3]. by rewrite app_assoc.
Qed.

(** The window of [a] lies before byte [B] and line [L]. *)
Definition window_ok (a : string) (B L : Z) (m : DebounceManager) : Prop :=
  match dict_get (activity_key a) (windows m) with
  | None => True
  | Some w => 0 ≤ first_byte_range_start w ≤ latest_byte_range_end w ∧ latest_byte_range_end w ≤ B ∧
              0 ≤ first_line_offset_start w ≤ latest_line_offset_end w ∧ latest_line_offset_end w ≤ L ∧
              1 ≤ collapsed_count w
  end.

Lemma window_ok_closes a B L m w ended :
  dict_get (activity_key a) (windows m) = Some w → window_ok a B L m →
  storable (close_window (activity_key a) w ended m).1.
Proof.
  intros E. unfold window_ok. rewrite E. intros (H1 & H2 & H3 & H4 & H5).
  split; [by apply (bool_decide_unpack _)|]. cbn. lia.
Qed.

Lemma flush_storable mono at_ a keys B L m :
  wf_windows m → window_ok a B L m → Forall (λ k, k.1 = a → k = activity_key a) keys →
  Forall storable (flush_keys mono at_ (Some a) keys m).1 ∧
  window_ok a B L (flush_keys mono at_ (Some a) keys m).2.
Proof.
  intros Hm Hw Hk. revert m Hm Hw. induction Hk as [|k keys Hk _ IH]; intros m Hm Hw; [done|].
  cbn [flush_keys]. unfold flush_one. destruct (bool_decide_reflect (k.1 ≠ a)) as [Hne|Heq].
  { specialize (IH m Hm Hw). by destruct (flush_keys _ _ _ _ _). }
  apply dec_stable in Heq. rewrite (Hk Heq).
  destruct (dict_get (activity_key a) (windows m)) as [w|] eqn:E;
    [|specialize (IH m Hm Hw); by destruct (flush_keys _ _ _ _ _)].
  destruct (expired m mono w); [|specialize (IH m Hm Hw); by destruct (flush_keys _ _ _ _ _)].
  pose proof (window_ok_closes a B L m w at_ E Hw) as Hst. cbn [close_window fst] in *.
  destruct (dict_del_keys (activity_key a) (windows m) Hm) as [Hnd _].
  set (m1 := set_windows (dict_del (activity_key a) (windows m)) m).
  assert (window_ok a B L m1) as Hw1.
  { unfold window_ok. cbn. rewrite dict_get_del by done. by rewrite decide_True. }
  destruct (IH m1 Hnd Hw1) as [I1 I2].
  destruct (flush_keys mono at_ (Some a) keys m1) as [es' m2]. cbn [fst snd app] in *.
  split; [by constructor|done].
Qed.

Lemma submit_storable s m B L :
  wf_windows m → window_ok (sb_attachment_id s) B L m → 0 ≤ B → 0 ≤ L →
  oc_event_type (sb_outcome s) ∈ EVENT_TYPES →
  B ≤ sb_byte_range_start s ≤ sb_byte_range_end s →
  L ≤ sb_line_offset_start s ≤ sb_line_offset_end s →
  Forall storable (submit s m).1 ∧
  window_ok (sb_attachment_id s) (sb_byte_range_end s) (sb_line_offset_end s) (submit s m).2.
Proof.
  intros Hm Hw HB HL Ht Hb Hl. set (a := sb_attachment_id s) in *. unfold submit.
  assert (window_ok a (sb_byte_range_end s) (sb_line_offset_end s) m) as Hlater.
  { unfold window_ok in *. destruct (dict_get _ _); [|done]. lia. }
  destruct (bool_decide_reflect (oc_event_type (sb_outcome s) ∉ COLLAPSE_ELIGIBLE)) as [Hn|Hn].
  { split; [|done]. apply Forall_singleton. split; [done|]. cbn. lia. }
  apply dec_stable in Hn. assert (oc_event_type (sb_outcome s) = "activity"%string) as ->.
  { unfold COLLAPSE_ELIGIBLE in Hn. set_solver. }
  change (sb_attachment_id s, "activity"%string) with (activity_key a).
  assert (∀ m', window_ok a (sb_byte_range_end s) (sb_line_offset_end s)
                  (open_window (activity_key a) s m')) as Hopen.
  { intros m'. unfold window_ok. rewrite open_window_get. cbn. lia. }
  destruct (dict_get (activity_key a) (windows m)) as [w|] eqn:E; [|split; [done|apply Hopen]].
  destruct (expired m (sb_monotonic s) w).
  - pose proof (window_ok_closes a B L m w (sb_observed_at s) E Hw) as Hst.
    cbn [close_window fst snd] in *. split; [by apply Forall_singleton|apply Hopen].
  - split; [done|]. unfold window_ok in *. rewrite E in Hw. cbn. rewrite dict_get_set, decide_True by done.
    cbn. lia.
Qed.

Section Records.
Variable cfg : ReaderConfig.
Hypothesis cap_positive : 0 < cf_event_excerpt_cap cfg.

Lemma classify_record_total rec :
  ∃ out, classify_record cfg rec = Ok out ∧ oc_event_type out ∈ EVENT_TYPES.
Proof.
  unfold classify_record, classify.
  set (red := strip_ansi _).
  assert (∃ e, truncate_excerpt red (cf_event_excerpt_cap cfg) (cf_excerpt_marker cfg) = Ok e) as [e ->].
  { unfold truncate_excerpt. rewrite (proj2 (Z.leb_gt _ _)) by lia. repeat case_match; eauto. }
  cbn [obind]. destruct (first_rule _ _ red) as [r|] eqn:E.
  - eexists. split; [done|]. cbn [oc_event_type]. apply first_rule_spec in E as (Hin & _).
    by apply rules_types in Hin as [? _].
  - eexists. split; [done|]. by apply (bool_decide_unpack _).
Qed.

(** The submissions of a batch of records: lines count up, bytes run along. *)
Fixpoint submissions (a now : string) (mono line byte : Z) (records : list string) : list Submission :=
  match records with
  | [] => []
  | rec :: rest =>
      match classify_record cfg rec with
      | Ok out =>
          let e := byte + Z.of_nat (String.length rec) + 1 in
          mkSubmission a out now mono byte e line (line + 1) ::
          submissions a now mono (line + 1) e rest
      | Raise _ => []
      end
  end.

Definition ops_of (a now : string) (mono line byte : Z) (records : list string) : list debounce_op :=
  Op_submit <$> submissions a now mono line byte records.

Lemma submissions_length a now mono line byte records :
  length (submissions a now mono line byte records) = length records.
Proof.
  revert line byte. induction records as [|rec rest IH]; intros line byte; [done|]. cbn.
  destruct (classify_record_total rec) as (out & -> & _). cbn. by rewrite IH.
Qed.

Lemma submit_records_run att now mono line byte records r :
  submit_records cfg att now mono line byte records r =
  let p := emitted_for (la_attachment_id att)
             (ops_of (la_attachment_id att) now mono line byte records) (rd_debounce r) in
  (Ok p.1, set_rd_debounce p.2 r).
Proof.
  revert line byte r. induction records as [|rec rest IH]; intros line byte r.
  { cbn. by destruct r. }
  cbn [submit_records]. unfold ops_of. cbn [submissions].
  destruct (classify_record_total rec) as (out & -> & _). rewrite fmap_cons. cbn [emitted_for apply_op op_attachment].
  unfold mbind, M_bind, on_debounce. destruct (submit _ (rd_debounce r)) as [es m1].
  rewrite IH. cbn. rewrite decide_True by done. unfold ops_of. cbn.
  by destruct (emitted_for _ _ m1) as [es' m2].
Qed.

Lemma submissions_storable a now mono line byte records m :
  sound m → window_ok a byte line m → 0 ≤ byte → 0 ≤ line →
  let p := emitted_for a (ops_of a now mono line byte records) m in
  sound p.2 ∧ Forall storable p.1 ∧ ∃ B L, window_ok a B L p.2.
Proof.
  revert line byte m. induction records as [|rec rest IH]; intros line byte m Hs Hw HB HL.
  { cbn. split_and!; [done|done|by exists byte, line]. }
  unfold ops_of. cbn [submissions]. destruct (classify_record_total rec) as (out & -> & Ht).
  rewrite fmap_cons. cbn [emitted_for apply_op op_attachment].
  set (s := mkSubmission _ _ _ _ _ _ _ _).
  destruct (apply_op_spec (Op_submit s) m Hs) as (Hs1 & _).
  destruct (submit_storable s m byte line) as [Hst Hw1]; try (cbn; lia); [apply Hs|done|done|].
  cbn [apply_op] in Hs1. destruct (submit s m) as [es m1]. cbn [fst snd] in *.
  specialize (IH (line + 1) (byte + Z.of_nat (String.length rec) + 1) m1 Hs1 Hw1 ltac:(lia) ltac:(lia)).
  unfold ops_of in IH. destruct (emitted_for _ _ m1) as [es' m2]. cbn [fst snd] in *.
  rewrite decide_True by done. destruct IH as (I1 & I2 & I3). split_and!; [done|by apply Forall_app|done].
Qed.

(** ** One quiet cycle *)

(** What the cycle asks of the debouncer for the bytes it read. *)
Definition cycle_ops (att : LogAttachmentRecord) (o : LogOffsetRecord) (raw now : string) (mono : Z)
  : list debounce_op :=
  ops_of (la_attachment_id att) now mono (lo_line_offset o) (lo_byte_offset o)
    (strip_cr <$> complete_raw raw) ++ [Op_flush (la_attachment_id att) mono now].

Lemma cycle_storable att o raw now mono m :
  sound m → window_ok (la_attachment_id att) (lo_byte_offset o) (lo_line_offset o) m →
  0 ≤ lo_byte_offset o → 0 ≤ lo_line_offset o →
  Forall storable (emitted_for (la_attachment_id att) (cycle_ops att o raw now mono) m).1.
Proof.
  intros Hs Hw HB HL. unfold cycle_ops. rewrite emitted_for_app.
  destruct (submissions_storable (la_attachment_id att) now mono (lo_line_offset o)
    (lo_byte_offset o) (strip_cr <$> complete_raw raw) m Hs Hw HB HL) as (Hs1 & Hst & B & L & Hw1).
  destruct (emitted_for _ (ops_of _ _ _ _ _ _) m) as [es m1]. cbn [fst snd] in *.
  cbn [emitted_for apply_op op_attachment]. unfold flush_expired.
  destruct Hs1 as [Hwf Hak].
  destruct (flush_storable mono now (la_attachment_id att) (windows m1).*1 B L m1 Hwf Hw1) as [Hf _].
  { eapply Forall_impl; [exact Hak|]. intros [x c]. cbn. by intros -> ->. }
  destruct (flush_keys _ _ _ _ m1). cbn [fst] in *. rewrite decide_True by done.
  rewrite app_nil_r. by apply Forall_app.
Qed.

End Records.
