(* ===== verification/EventsReaderSafety.v ===== *)
(** The commit of a reader cycle under failures, crashes and concurrent writers: the
    events of a batch and the offset they were read up to become durable together or not
    at all, and a line of [events.jsonl] always tells of a durable event. *)

From S2P Require Import Prelude Errors Utf8 Agents Permissions Store AuditWriter Regex Redaction Classifier Debounce Session Tables LogDao EventsDao Tower FollowSessions EventsReader EventsReaderSpec.

Local Open Scope Z_scope.

Section Safety.
(** [R] is what the other writers of the database may do. *)
Context (R : relation tower_db) `{!PreOrder R}.

Definition mark_db (id : Z) (ts : string) (d : tower_db) : tower_db :=
  set_durable (mark_row id ts <$> durable d) (durable_seq d) d.

(** The others' commits, and our marks on the events [ids]. *)
Definition marking (ids : list Z) : relation tower_db :=
  rtc (λ d d', R d d' ∨ ∃ id ts, id ∈ ids ∧ d' = mark_db id ts d).

Lemma marking_R ids d d' : R d d' → marking ids d d'.
Proof. intros. apply rtc_once. by left. Qed.

Lemma marking_mono ids ids' d d' : ids ⊆ ids' → marking ids d d' → marking ids' d d'.
Proof.
  intros Hs. apply rtc_subrel. intros x y [?|(id & ts & Hid & ->)]; [by left|right].
  exists id, ts. split; [by apply Hs|done].
Qed.

(** A live session: nothing open, the others tame; or the process is gone. *)
Definition live {A} (o : outcome A) (r : reader) : Prop :=
  tame R (sess (rd_tower r)) ∧ (tx (sess (rd_tower r)) = None ∨ o = Raise SystemExit).

Lemma live_ok {A B} (a : A) (b : B) r : live (Ok a) r → live (Ok b) r.
Proof. intros [? [?|?]]; [|done]. split; auto. Qed.

Lemma reader_live_raise {A B} e r : live (Raise e : outcome A) r → live (Raise e : outcome B) r.
Proof. intros [? [?|[= ->]]]; split; auto. Qed.

Abbreviation db_of r := (saved (sess (rd_tower r))).
Abbreviation lines_of r := (events_jsonl (rd_tower r)).

Lemma killed e : is_exception e = false → e = SystemExit.
Proof. by destruct e. Qed.

Lemma wp_mark id ts s Q :
  tame R s → tx s = None →
  (∀ s' d0, R (saved s) d0 → saved s' = mark_db id ts d0 → tx s' = None → tame R s' → Q (Ok tt) s') →
  (∀ e s', R (saved s) (saved s') → (tx s' = None ∨ e = SystemExit) → tame R s' → Q (Raise e) s') →
  wp (Sql.transaction (mark_durable_appended id ts)) Q s.
Proof.
  intros Ht Hx Hok Hr.
  apply (wp_transaction R _ (λ d o d', ∀ u, o = Ok u → d' = mark_db id ts d)); [done|done|..].
  - intros s1 _ E1 Ht1. eapply (wp_write R _ (saved s1)); [done|done|..].
    + intros u d' s2 [= <- <-] Hs2 Hx2 Ht2. split; [done|]. split; [done|]. eexists. split; [exact Hx2|done].
    + done.
    + intros e s2 [_ P2 P3 P4]. split; [by apply P4; rewrite E1|]. split; [done|].
      exists (saved s1). split; [by rewrite P3, E1|done].
  - intros [] d0 d s' H0 HI <- Hx' Ht'. apply (Hok s' d0); [done|by apply (HI tt)|done|done].
  - intros e s' H1 H2 H3. apply Hr; [done| |done]. destruct H2; [by left|right; by apply killed].
Qed.

Lemma wp_attempt {S} (m : M S unit) (p : exn → bool) (h : M S unit) Q s :
  wp m (λ o s', match o with
                | Ok _ => Q (Ok true) s'
                | Raise e => if p e then wp h (λ o' s'', match o' with
                                           | Ok _ => Q (Ok false) s''
                                           | Raise e' => Q (Raise e') s''
                                           end) s'
                             else Q (Raise e) s'
                end) s →
  wp (attempt m p h) Q s.
Proof.
  intros H. apply wp_catch, wp_bind. eapply wp_mono; [|exact H]. intros [[]|e] s'; [done|].
  intros H'. destruct (p e); [|done]. apply wp_bind. eapply wp_mono; [|exact H']. by intros [[]|].
Qed.

Lemma wp_append_line l w Q :
  (∀ o io, Q o (set_events_jsonl (events_jsonl w ++ [l]) io w)) →
  (∀ e io, Q (Raise e) (set_events_jsonl (events_jsonl w) io w)) →
  wp (append_line l) Q w.
Proof.
  intros H1 H2. unfold wp, append_line.
  destruct (events_io w) as [|[[n [|]|[|]]|] rest]; cbn; first [apply H1 | apply H2].
Qed.

Lemma wp_append_mark id row now r :
  live (Ok tt) r →
  wp (append_mark_and_notify id row now)
     (λ o r', live o r' ∧ marking [id] (db_of r) (db_of r') ∧
              (lines_of r' = lines_of r ∨ lines_of r' = lines_of r ++ [L_event id row])) r.
Proof.
  intros [Ht [Hx|]]; [|done]. unfold append_mark_and_notify. apply wp_bind, wp_attempt, wp_zoom.
  assert (∀ e io j, j = lines_of r ∨ j = lines_of r ++ [L_event id row] →
    (if is_os_error e
     then wp (degrade_jsonl now)
       (λ o' s'', match o' with
          | Ok _ => wp (mret false) (λ o r', live o r' ∧ marking [id] (db_of r) (db_of r') ∧
              (lines_of r' = lines_of r ∨ lines_of r' = lines_of r ++ [L_event id row])) s''
          | Raise e' => live (Raise e' : outcome bool) s'' ∧ marking [id] (db_of r) (db_of s'') ∧
              (lines_of s'' = lines_of r ∨ lines_of s'' = lines_of r ++ [L_event id row])
          end) (set_rd_tower (set_events_jsonl j io (rd_tower r)) r)
     else live (Raise e : outcome bool) (set_rd_tower (set_events_jsonl j io (rd_tower r)) r) ∧
          marking [id] (db_of r) (db_of r) ∧ (j = lines_of r ∨ j = lines_of r ++ [L_event id row])))
    as Hfail.
  { intros e io j Hj. assert (marking [id] (db_of r) (db_of r)) by done.
    destruct (is_os_error e); [|by split_and!; [split; auto|..]].
    apply wp_modify, wp_ret. by split_and!; [split; auto|..]. }
  apply wp_append_line; [|intros e io; apply (Hfail e io (lines_of r)); by left].
  intros [[]|e] io; [|apply (Hfail e io); by right]. cbv beta iota.
  apply wp_bind, wp_attempt. unfold on_dao, on_tower, on_sql. do 2 apply wp_zoom.
  apply wp_mark; [exact Ht|exact Hx|..].
  - intros s' d0 H0 Hs' Hx' Ht'. apply wp_bind, wp_modify, wp_ret. cbn. split_and!.
    + split; [done|by left].
    + rewrite Hs'. eapply rtc_l; [by left|]. apply rtc_once. right. exists id, now. split; [by left|done].
    + by right.
  - intros e s' H0 Hx' Ht'. destruct (is_sqlite_error e) eqn:He.
    + apply wp_modify, wp_ret. cbn. split_and!; [split; [done|]|by apply marking_R|by right].
      left. destruct Hx' as [| ->]; done.
    + split_and!; [split; [done|]|by apply marking_R|by right].
      destruct Hx' as [| ->]; [by left|by right].
Qed.

Lemma wp_append_all now ids r :
  live (Ok tt) r →
  wp (mapM (λ ir, append_mark_and_notify ir.1 ir.2 now) ids)
     (λ o r', live o r' ∧ marking ids.*1 (db_of r) (db_of r') ∧
              ∃ ls, lines_of r' = lines_of r ++ ls ∧
                    ls `sublist_of` ((λ ir, L_event ir.1 ir.2) <$> ids)) r.
Proof.
  revert r. induction ids as [|[id row] ids IH]; intros r Hr.
  { apply wp_ret. split; [by eapply live_ok|]. split; [constructor|]. exists []. split; [by rewrite app_nil_r|constructor]. }
  cbn [mapM]. apply wp_bind. eapply wp_mono; [|by apply wp_append_mark].
  intros o r1 (Hl1 & Hm1 & Hj1).
  assert (∃ ls1, lines_of r1 = lines_of r ++ ls1 ∧ ls1 `sublist_of` [L_event id row]) as (ls1 & E1 & S1).
  { destruct Hj1 as [->|E]; [exists []; rewrite app_nil_r; split; [done|apply sublist_nil_l]|].
    exists [L_event id row]. done. }
  destruct o as [b|e].
  - apply wp_bind. eapply wp_mono; [|by eapply IH, live_ok].
    intros o r2 (Hl2 & Hm2 & ls2 & E2 & S2).
    assert (marking (id :: ids.*1) (db_of r) (db_of r2)) as Hm.
    { etrans; [eapply marking_mono; [|exact Hm1]; set_solver|].
      eapply marking_mono; [|exact Hm2]. set_solver. }
    assert (∃ ls, lines_of r2 = lines_of r ++ ls ∧
      ls `sublist_of` ((λ ir, L_event ir.1 ir.2) <$> (id, row) :: ids)) as Hls.
    { exists (ls1 ++ ls2). rewrite E2, E1, app_assoc. split; [done|].
      rewrite fmap_cons. change (?x :: ?l) with ([x] ++ l). by apply sublist_app. }
    destruct o as [bs|e]; [apply wp_ret|]; (split; [|by split]); [by eapply live_ok|by eapply reader_live_raise].
  - split; [by eapply reader_live_raise|].
    split; [eapply marking_mono; [|exact Hm1]; set_solver|].
    exists ls1. split; [done|]. rewrite fmap_cons. change (?x :: ?l) with ([x] ++ l).
    etrans; [exact S1|]. by apply sublist_inserts_r.
Qed.

(** ** The body of the transaction *)

(** A step inside a transaction: where it leads when it returns. *)
Definition inside {A} (s : session tower_db) (ret : A → tower_db → Prop)
    (o : outcome A) (s' : session tower_db) : Prop :=
  saved s' = saved s ∧ tame R s' ∧ ∃ d', tx s' = Some d' ∧ ∀ a, o = Ok a → ret a d'.

Lemma wp_insert_event row d s :
  tame R s → tx s = Some d →
  wp (insert_event row)
     (inside s (λ id d', id = durable_seq d + 1 ∧
        d' = set_durable (durable d ++ [numbered id row]) id d)) s.
Proof.
  intros Ht Hx. assert (∀ e, inside s (λ id d', id = durable_seq d + 1 ∧
        d' = set_durable (durable d ++ [numbered id row]) id d) (Raise e) s) as Hbad.
  { intros e. split; [done|]. split; [done|]. by exists d. }
  unfold insert_event. repeat case_match; try apply Hbad.
  eapply (wp_write R _ d); [done|done|..].
  - intros id d' s' E Hs' Hx' Ht'. unfold append_event_row in E. case_match; [|done].
    injection E as <- <-. split; [done|]. split; [done|]. eexists. split; [exact Hx'|].
    by intros ? [= <-].
  - intros e s' _ [P1 P2 P3 P4]. split; [by apply P4; rewrite Hx|]. split; [done|].
    exists d. split; [by rewrite P3|done].
  - intros e s' [P1 P2 P3 P4]. split; [by apply P4; rewrite Hx|]. split; [done|].
    exists d. split; [by rewrite P3|done].
Qed.

Lemma wp_inserts att evs d s :
  tame R s → tx s = Some d →
  wp (mapM (λ ev, id ← insert_event (event_row att ev); mret (id, event_row att ev)) evs)
     (inside s (λ ids d', ids = numbered_from (durable_seq d + 1) (event_row att <$> evs) ∧
        d' = add_rows (event_row att <$> evs) d)) s.
Proof.
  revert d s. induction evs as [|ev evs IH]; intros d s Ht Hx.
  { apply wp_ret. split; [done|]. split; [done|]. exists d. split; [done|]. intros ids [= <-].
    split; [done|]. unfold add_rows. cbn. rewrite app_nil_r, Z.add_0_r. by destruct d. }
  cbn [mapM]. do 2 apply wp_bind. eapply wp_mono; [|by apply wp_insert_event].
  intros [id|e] s1 (Hs1 & Ht1 & d1 & Hx1 & HI); cbv beta iota.
  2:{ split; [done|]. split; [done|]. by exists d1. }
  destruct (HI id eq_refl) as [-> ->]. apply wp_ret, wp_bind.
  eapply wp_mono; [|exact (IH _ s1 Ht1 Hx1)]. intros o s2 (Hs2 & Ht2 & d2 & Hx2 & HI2).
  assert (∀ ids, o = Ok ids → d2 = add_rows (event_row att <$> ev :: evs) d ∧
    ids = numbered_from (durable_seq d + 1 + 1) (event_row att <$> evs)) as Hres.
  { intros ids ->. destruct (HI2 ids eq_refl) as [-> ->]. split; [|done].
    unfold add_rows, set_durable. cbn. f_equal; [by rewrite <- app_assoc|]. rewrite length_fmap. lia. }
  destruct o as [ids|e]; [apply wp_ret|]; (split; [by rewrite Hs2|]; split; [done|]; exists d2; split; [done|]);
    [|done].
  intros ids' [= <-]. destruct (Hres ids eq_refl) as [-> ->]. done.
Qed.

(** The offset row as the batch leaves it: [o1] is the row found, [o] the one read at the
    start of the cycle. *)
Definition moved (o o1 : LogOffsetRecord) (evs : list PendingEvent) (ab al : Z) (now : string)
  : LogOffsetRecord :=
  mkOffset (lo_agent_id o1) (lo_log_path o1) (lo_byte_offset o + ab) (lo_line_offset o + al)
    (match last evs with Some ev => pe_byte_range_end ev | None => lo_last_event_offset o end)
    (if 0 <? ab then Some now else lo_last_output_at o) (lo_file_inode o) (lo_file_size_seen o)
    (lo_created_at o1) now.

(** The whole batch: all events, numbered in order, and the offset. *)
Definition batch (att : LogAttachmentRecord) (o : LogOffsetRecord) (evs : list PendingEvent)
    (ab al : Z) (now : string) (d : tower_db) (ids : list (Z * DurableEvent)) (d' : tower_db) : Prop :=
  let key := (la_agent_id att, la_log_path att) in
  ids = numbered_from (durable_seq d + 1) (event_row att <$> evs) ∧
  ∃ o1, log_offsets d !! key = Some o1 ∧
    d' = set_log_offsets (<[key := moved o o1 evs ab al now]> (log_offsets d))
           (add_rows (event_row att <$> evs) d).

Lemma wp_body att o evs ab al now d s :
  tame R s → tx s = Some d →
  wp (insert_and_advance att o evs ab al now) (inside s (batch att o evs ab al now d)) s.
Proof.
  intros Ht Hx. apply wp_bind. eapply wp_mono; [|by apply wp_inserts].
  intros [ids|e] s1 (Hs1 & Ht1 & d1 & Hx1 & HI); [|split; [done|]; split; [done|]; by exists d1].
  destruct (HI ids eq_refl) as [-> ->]. clear HI.
  assert (∀ (e : exn) s2, passed R s1 s2 → inside s (batch att o evs ab al now d) (Raise e) s2) as Hfail.
  { intros e s2 [P1 P2 P3 P4]. split; [by rewrite P4, Hs1; [|rewrite Hx1]|]. split; [done|].
    eexists. split; [by rewrite P3|done]. }
  do 3 apply wp_bind. apply (wp_read R); [done| |by intros; apply Hfail].
  intros s2 Hp2. pose proof Hp2 as [P1 P2 P3 P4]. unfold Sql.view. rewrite P3, Hx1. cbn.
  destruct (log_offsets d !! (la_agent_id att, la_log_path att)) as [o1|] eqn:Eo;
    [|apply wp_throw; by apply Hfail].
  apply wp_ret. cbv beta iota. eapply (wp_write R); [done|by rewrite P3|..].
  - intros u d' s3 [= <- <-] Hs3 Hx3 Ht3. apply wp_ret.
    split; [rewrite Hs3, P4, Hs1; [done|by rewrite Hx1]|]. split; [done|]. eexists. split; [exact Hx3|].
    intros ids [= <-]. split; [done|]. exists o1. split; [done|]. cbn. f_equal. apply map_eq. intros k.
    destruct (decide (k = (la_agent_id att, la_log_path att))) as [->|].
    + by rewrite lookup_alter_eq, Eo, lookup_insert_eq.
    + by rewrite lookup_alter_ne, lookup_insert_ne by done.
  - done.
  - intros e s3 Hp3. apply Hfail. by eapply passed_trans.
Qed.

(** C22: the commit of a cycle under any failures of the database and of the file, any
    concurrent writers, and a crash anywhere: either none of its events and no offset
    movement became durable, nothing was appended to events.jsonl, and a result that is
    returned says so; or all its events were inserted, numbered in order, in the same
    transaction that moved the offset, the only other changes of ours are marks on those
    events, and every line appended to events.jsonl is of one of them, in order. *)
Theorem commit_is_atomic att o evs ab al n now r :
  live (Ok tt) r →
  wp (commit_events_and_advance att o evs ab al n now)
     (λ out r',
        (R (db_of r) (db_of r') ∧ lines_of r' = lines_of r ∧
         ∀ res, out = Ok res → cy_failed res = true) ∨
        (∃ d0 ids d1 ls, R (db_of r) d0 ∧ batch att o evs ab al now d0 ids d1 ∧
           marking ids.*1 d1 (db_of r') ∧
           lines_of r' = lines_of r ++ ls ∧
           ls `sublist_of` ((λ ir, L_event ir.1 ir.2) <$> ids) ∧
           ∀ res, out = Ok res → cy_failed res = false ∧ cy_events_emitted res = length evs)) r.
Proof.
  intros [Ht [Hx|]]; [|done]. unfold commit_events_and_advance.
  apply wp_bind, wp_catch, wp_bind. do 2 apply wp_zoom.
  apply (wp_transaction R _ (λ d out d', ∀ ids, out = Ok ids → batch att o evs ab al now d ids d'));
    [exact Ht|exact Hx|..].
  - intros s1 _ E1 Ht1. eapply wp_mono; [|by apply (wp_body att o evs ab al now (saved s1) s1)].
    intros out s2 (H1 & H2 & d & H3 & H4). split; [done|]. split; [done|]. by exists d.
  - intros ids d0 d s' H0 HI Hs' Hx' Ht'. apply wp_ret. cbv beta iota.
    specialize (HI ids eq_refl). apply wp_bind. eapply wp_mono; [|apply wp_append_all; by split; [|left]].
    intros o2 r2 (Hl2 & Hm2 & ls & Hj2 & Hsub). cbn in Hm2, Hj2. rewrite Hs' in Hm2.
    destruct o2 as [bs|e]; [apply wp_ret|]; right; exists d0, ids, d, ls; (split_and!; [done..|]); [|done].
    intros res [= <-]. cbn. split; [done|]. destruct HI as [-> _].
    by rewrite numbered_from_length, length_fmap.
  - intros e s' H0 Hx' Ht'. destruct (is_sqlite_error e); [|by left].
    apply wp_bind, wp_modify, wp_ret. cbv beta iota. apply wp_ret. left. split; [done|]. split; [done|].
    by intros res [= <-].
Qed.
End Safety.
