(* ===== verification/TowerInvariant.v ===== *)
(** Invariants of programs: [preserves P m] says that [m] keeps [P] whatever it returns or
    raises.  The rules follow the syntax of programs and are driven by the tactic [keep];
    for a session, an invariant of the database holds of what is committed, of what an
    open transaction would commit, and is respected by the other writers. *)

From S2P Require Import Prelude Errors Agents Permissions Store Utf8 AuditWriter Regex Redaction Classifier Debounce Session Tables LogDao EventsDao Tower FollowSessions EventsReader.

Section Generic.
Context {S : Type}.

Definition preserves (P : S → Prop) {A} (m : M S A) : Prop := ∀ s, P s → P (m s).2.

Context (P : S → Prop).

Lemma pres_ret {A} (a : A) : preserves P (mret a).
Proof. by intros s. Qed.
Lemma pres_throw {A} e : preserves P (throw (A := A) e).
Proof. by intros s. Qed.
Lemma pres_get : preserves P get.
Proof. by intros s. Qed.
Lemma pres_bind {A B} (m : M S A) (k : A → M S B) :
  preserves P m → (∀ a, preserves P (k a)) → preserves P (m ≫= k).
Proof.
  intros Hm Hk s Hs. specialize (Hm s Hs). unfold mbind, M_bind.
  destruct (m s) as [[a|e] s']; [by apply Hk|done].
Qed.
Lemma pres_catch {A} (m : M S A) h :
  preserves P m → (∀ e, preserves P (h e)) → preserves P (catch m h).
Proof.
  intros Hm Hh s Hs. specialize (Hm s Hs). unfold catch.
  destruct (m s) as [[a|e] s']; [done|by apply Hh].
Qed.
Lemma pres_except {A} (m : M S A) h :
  preserves P m → (∀ e, preserves P (h e)) → preserves P (except m h).
Proof.
  intros Hm Hh. apply pres_catch; [done|]. intros e. destruct (is_exception e); [done|].
  apply pres_throw.
Qed.
Lemma pres_mapM {A B} (f : A → M S B) l : (∀ x, preserves P (f x)) → preserves P (mapM f l).
Proof.
  intros Hf. induction l as [|x l IH]; [apply pres_ret|]. cbn [mapM].
  apply pres_bind; [done|]. intros y. apply pres_bind; [done|]. intros ys. apply pres_ret.
Qed.
Lemma pres_mapM_in {A B} (f : A → M S B) l :
  (∀ x, x ∈ l → preserves P (f x)) → preserves P (mapM f l).
Proof.
  induction l as [|x l IH]; intros Hf; [apply pres_ret|]. cbn [mapM].
  apply pres_bind; [apply Hf; by left|]. intros y.
  apply pres_bind; [apply IH; intros; apply Hf; by right|]. intros ys. apply pres_ret.
Qed.
Lemma pres_modify f : (∀ s, P s → P (f s)) → preserves P (modify f).
Proof. intros H s Hs. by apply H. Qed.
Lemma pres_if {A} (b : bool) (m1 m2 : M S A) :
  preserves P m1 → preserves P m2 → preserves P (if b then m1 else m2).
Proof. by destruct b. Qed.
End Generic.

Lemma pres_zoom {W S A} (P : S → Prop) (Q : W → Prop) (get_ : W → S) (put_ : S → W → W) (m : M S A) :
  (∀ w, Q w → P (get_ w)) → (∀ w s, Q w → P s → Q (put_ s w)) →
  preserves P m → preserves Q (zoom get_ put_ m).
Proof.
  intros H1 H2 Hm w Hw. specialize (Hm (get_ w) (H1 w Hw)). unfold zoom.
  destruct (m (get_ w)) as [o s']. by apply H2.
Qed.

(** ** Sessions *)

Section Sessions.
Context {D : Type} (I : D → Prop).

Definition throughout (s : session D) : Prop :=
  I (saved s) ∧ (∀ d, tx s = Some d → I d) ∧ Forall (λ f, ∀ d, I d → I (f d)) (meddling s).

(** What a statement may do. *)
Definition respects {A} (f : D → outcome (A * D)) : Prop := ∀ d a d', I d → f d = Ok (a, d') → I d'.

Lemma throughout_view s : throughout s → I (Sql.view s).
Proof. intros (H1 & H2 & _). unfold Sql.view. destruct (tx s) eqn:E; [by apply H2|done]. Qed.

Lemma pres_statement : preserves throughout Sql.statement.
Proof.
  intros s (H1 & H2 & H3). unfold Sql.statement, Sql.settle.
  assert (throughout (match tx s, meddling s with
    | None, f :: rest => mkSession (f (saved s)) None (answers s) rest | _, _ => s end)) as (G1 & G2 & G3).
  { destruct (tx s) eqn:E; [split_and!; auto; by rewrite E|].
    destruct (meddling s) as [|f rest] eqn:Em;
      [split_and!; [done|by rewrite E|by rewrite Em]|]. inversion H3; subst. split_and!; cbn; auto. }
  set (s' := match tx s with None => _ | _ => _ end) in *.
  destruct (answers s') as [|[f|] rest]; cbn; by split_and!.
Qed.

Lemma pres_read {A} (f : D → A) : preserves throughout (Sql.read f).
Proof. apply pres_bind; [apply pres_statement|]. by intros a s. Qed.

Lemma pres_write {A} (f : D → outcome (A * D)) : respects f → preserves throughout (Sql.write f).
Proof.
  intros Hf. apply pres_bind; [apply pres_statement|]. intros _ s Hs. unfold lift.
  pose proof (throughout_view s Hs) as Hv. destruct (f (Sql.view s)) as [[a d]|e] eqn:E; [|done].
  apply Hf in E; [|done]. destruct Hs as (H1 & H2 & H3). unfold Sql.set_view. cbn.
  destruct (tx s); split_and!; cbn; auto. by intros d' [= <-].
Qed.

Lemma pres_begin : preserves throughout Sql.begin_immediate.
Proof.
  apply pres_bind; [apply pres_statement|]. intros _ s (H1 & H2 & H3). unfold lift.
  destruct (tx s) eqn:E; cbn; split_and!; auto; try by rewrite E. by intros d [= <-].
Qed.

Lemma pres_commit : preserves throughout Sql.commit.
Proof.
  apply pres_bind; [apply pres_statement|]. intros _ s (H1 & H2 & H3). unfold lift.
  destruct (tx s) eqn:E; cbn; split_and!; auto; try by rewrite E. done.
Qed.

Lemma pres_rollback : preserves throughout Sql.rollback.
Proof.
  intros s (H1 & H2 & H3). unfold Sql.rollback. destruct (tx s) eqn:E; cbn; split_and!; auto; try by rewrite E. done.
Qed.

Lemma pres_close : preserves throughout Sql.close.
Proof. intros s (H1 & H2 & H3). by split_and!. Qed.

Lemma pres_transaction {A} (m : M (session D) A) :
  preserves throughout m → preserves throughout (Sql.transaction m).
Proof.
  intros Hm. apply pres_bind; [apply pres_begin|]. intros _. apply pres_except.
  - apply pres_bind; [done|]. intros a. apply pres_bind; [apply pres_commit|]. intros _. apply pres_ret.
  - intros e. apply pres_bind; [apply pres_rollback|]. intros _. apply pres_throw.
Qed.
End Sessions.

(** ** Automation *)

Create HintDb keep.
#[export] Hint Resolve pres_ret pres_throw pres_get pres_statement pres_read pres_write pres_begin
  pres_commit pres_rollback pres_close pres_transaction : keep.

#[export] Hint Extern 1 (_ = _) => reflexivity : keep.

Ltac keep_step :=
  first
    [ solve [auto with keep nocore]
    | lazymatch goal with
      | |- preserves _ (mbind _ _) => apply pres_bind; [|intros ?]
      | |- preserves _ (except _ _) => apply pres_except; [|intros ?]
      | |- preserves _ (catch _ _) => apply pres_catch; [|intros ?]
      | |- preserves _ (mapM _ _) => apply pres_mapM; intros ?
      | |- preserves _ (Sql.transaction _) => apply pres_transaction
      | |- preserves _ (match ?x with _ => _ end) => destruct x
      end ].
Ltac keep := repeat keep_step.

(** ** Values that reads bring out *)

Lemma pres_bind_val {S A B} (P : S → Prop) (V : A → Prop) (m : M S A) (k : A → M S B) :
  (∀ s, P s → wp m (λ o s', P s' ∧ ∀ a, o = Ok a → V a) s) → (∀ a, V a → preserves P (k a)) →
  preserves P (m ≫= k).
Proof.
  intros Hm Hk s Hs. specialize (Hm s Hs). unfold wp, mbind, M_bind in *.
  destruct (m s) as [[a|e] s']; cbn in Hm; destruct Hm as [H1 H2]; [|done]. by apply Hk; [apply H2|].
Qed.

Lemma wp_pres {S A} (P : S → Prop) (m : M S A) s : preserves P m → P s → wp m (λ _ s', P s') s.
Proof. intros Hm Hs. by apply Hm. Qed.

Lemma wp_read_val {D A} (I : D → Prop) (f : D → A) s :
  throughout I s → wp (Sql.read f) (λ o s', throughout I s' ∧ ∀ a, o = Ok a → ∃ d, I d ∧ a = f d) s.
Proof.
  intros Hs. unfold Sql.read. apply wp_bind. eapply wp_mono; [|by apply (wp_pres _ _ _ (pres_statement I))].
  intros [[]|e] s' Hs'; [|done]. unfold wp, lift. cbn. split; [done|].
  intros a [= <-]. exists (Sql.view s'). split; [by apply throughout_view|done].
Qed.

(** The well-formedness of the daemon's tables, and that the log and event statements
    and the whole reader keep it. *)

Local Open Scope Z_scope.

(** ** Tables of rows *)

Section Rows.
Context {A : Type} (check : A → bool) (clash : A → A → bool).

Definition rows_ok (l : list A) : Prop := forallb check l = true ∧ clash_free clash l = true.

Lemma list_update_ok p f l l' : list_update check clash p f l = Ok l' → rows_ok l'.
Proof.
  unfold list_update. case_match eqn:E; [|done]. intros [= <-]. by apply andb_true_iff in E.
Qed.

Hypothesis clash_sym : ∀ x y, clash x y = clash y x.

Lemma clash_free_snoc l x :
  clash_free clash (l ++ [x]) = clash_free clash l && forallb (λ y, negb (clash x y)) l.
Proof.
  induction l as [|y l IH]; cbn; [done|].
  rewrite forallb_app, IH. cbn. rewrite andb_true_r, (clash_sym y x).
  destruct (negb (clash x y)), (forallb (λ z, negb (clash y z)) l), (clash_free clash l),
    (forallb (λ z, negb (clash x z)) l); done.
Qed.

Lemma list_insert_ok x l l' : rows_ok l → list_insert check clash x l = Ok l' → rows_ok l'.
Proof.
  unfold list_insert, rows_ok. case_match eqn:E; [|done]. intros [H1 H2] [= <-].
  apply andb_true_iff in E as [E1 E2]. rewrite forallb_app, clash_free_snoc. cbn.
  by rewrite H1, H2, E1, E2.
Qed.
End Rows.

Lemma agent_clash_sym a b : agent_clash a b = agent_clash b a.
Proof. unfold agent_clash. f_equal; apply bool_decide_ext; split; congruence. Qed.

Lemma attachment_clash_sym a b : attachment_clash a b = attachment_clash b a.
Proof.
  unfold attachment_clash. f_equal; [apply bool_decide_ext; split; congruence|].
  rewrite (bool_decide_ext (la_log_path a = la_log_path b) (la_log_path b = la_log_path a))
    by (split; congruence).
  destruct (bool_decide (la_log_path b = la_log_path a)); cbn; [|done]. apply andb_comm.
Qed.

(** ** The invariant *)

Definition ids_ascend (l : list DurableEvent) (top : Z) : Prop :=
  StronglySorted (λ e1 e2, de_event_id e1 < de_event_id e2) l ∧
  Forall (λ e, de_event_id e ≤ top) l.

Record tower_wf (d : tower_db) : Prop := mkTowerWf {
  wf_containers : map_Forall (λ k c, cr_container_id c = k) (containers d);
  wf_panes : map_Forall (λ k p, pane_composite_key p = k) (panes d);
  wf_agents : rows_ok check_agent agent_clash (agents d);
  wf_attachments : rows_ok check_attachment attachment_clash (log_attachments d);
  wf_offsets : map_Forall (λ k o, (lo_agent_id o, lo_log_path o) = k) (log_offsets d);
  wf_events : Forall (λ e, check_event e = true) (durable d);
  wf_event_ids : ids_ascend (durable d) (durable_seq d)
}.

Lemma empty_tower_wf : tower_wf empty_tower.
Proof. constructor; cbn; try apply map_Forall_empty; repeat constructor. Qed.

(** ** Statements *)

Abbreviation keeps_wf m := (preserves (throughout tower_wf) m).

Lemma respects_attachments f :
  (∀ l l', rows_ok check_attachment attachment_clash l → f l = Ok l' →
           rows_ok check_attachment attachment_clash l') →
  respects tower_wf (on_attachments f).
Proof.
  intros Hf d [] d' [] E. unfold on_attachments in E. case_match eqn:El; [|done].
  injection E as <-. constructor; cbn; eauto.
Qed.

Lemma keeps_insert_attachment r : keeps_wf (insert_attachment r).
Proof.
  unfold insert_attachment. keep. apply pres_write, respects_attachments.
  intros l l'. apply list_insert_ok, attachment_clash_sym.
Qed.

Lemma keeps_update_attachments p f :
  keeps_wf (Sql.write (on_attachments (list_update check_attachment attachment_clash p f))).
Proof. apply pres_write, respects_attachments. intros l l' _. apply list_update_ok. Qed.

Lemma keeps_update_status id st at_ s1 s2 : keeps_wf (update_status id st at_ s1 s2).
Proof. unfold update_status. apply pres_if; [apply pres_throw|apply keeps_update_attachments]. Qed.

Lemma keeps_cascade keys now : keeps_wf (cascade_to_stale_for_panes keys now).
Proof.
  unfold cascade_to_stale_for_panes, select_actives_for_pane.
  keep. apply keeps_update_attachments.
Qed.

Lemma respects_offsets f :
  (∀ o, lo_agent_id (f o) = lo_agent_id o ∧ lo_log_path (f o) = lo_log_path o) →
  ∀ agent path, keeps_wf (update_offset agent path f).
Proof.
  intros Hf agent path. apply pres_write. intros d [] d' [] [= <-]. constructor; cbn; try done.
  intros k o Hk. destruct (decide (k = (agent, path))) as [->|Hne].
  - rewrite lookup_alter_eq in Hk. apply fmap_Some in Hk as (o' & Ho' & ->).
    destruct (Hf o') as [-> ->]. by apply wf_offsets0 in Ho'.
  - rewrite lookup_alter_ne in Hk by done. by apply wf_offsets0 in Hk.
Qed.

Lemma keeps_insert_initial agent path ts : keeps_wf (insert_initial agent path ts).
Proof.
  apply pres_write. intros d [] d' []. case_match; [done|]. intros [= <-]. constructor; cbn; try done.
  by apply map_Forall_insert_2.
Qed.

Lemma keeps_reset_offset agent path i n ts : keeps_wf (reset_offset agent path i n ts).
Proof. by apply respects_offsets. Qed.

Lemma keeps_advance_offset agent path b l le i n out ts :
  keeps_wf (advance_offset agent path b l le i n out ts).
Proof. unfold advance_offset, require_row_exists. keep. by apply respects_offsets. Qed.

Lemma ids_ascend_snoc l top e : ids_ascend l top → top < de_event_id e → ids_ascend (l ++ [e]) (de_event_id e).
Proof.
  intros [H1 H2] Hlt. split.
  - apply StronglySorted_app. split_and!; [|done|repeat constructor].
    intros x y Hx ->%list_elem_of_singleton. apply (proj1 (Forall_forall _ _) H2) in Hx. lia.
  - apply Forall_app_2; [eapply Forall_impl; [exact H2|cbn; intros; lia]|].
    apply Forall_singleton. lia.
Qed.

Lemma keeps_durable_insert row : keeps_wf (insert_event row).
Proof.
  unfold insert_event, bad_value. keep. apply pres_write.
  intros d id d' [] E. unfold append_event_row in E. case_match eqn:Ec; [|done].
  injection E as <- <-. constructor; cbn; try done.
  - apply Forall_app_2; [done|]. by apply Forall_singleton.
  - eapply (ids_ascend_snoc _ (durable_seq d)); [done|]. cbn. lia.
Qed.

Lemma mark_row_same id ts e :
  de_event_id (mark_row id ts e) = de_event_id e ∧ check_event (mark_row id ts e) = check_event e.
Proof. unfold mark_row. by case_match. Qed.

Lemma keeps_mark id ts : keeps_wf (mark_durable_appended id ts).
Proof.
  apply pres_write. intros d [] d' [] [= <-]. constructor; cbn; try done.
  - apply Forall_fmap. eapply Forall_impl; [done|]. intros e He. cbn. by rewrite (proj2 (mark_row_same id ts e)).
  - destruct wf_event_ids0 as [H1 H2]. split.
    + eapply StronglySorted_fmap; [|exact H1]. intros x y Hxy.
      by rewrite !(proj1 (mark_row_same id ts _)).
    + apply Forall_fmap. eapply Forall_impl; [exact H2|]. intros e He. cbn.
      by rewrite (proj1 (mark_row_same id ts e)).
Qed.

#[export] Hint Resolve keeps_insert_attachment keeps_update_status keeps_cascade keeps_insert_initial
  keeps_reset_offset keeps_advance_offset keeps_durable_insert keeps_mark : keep.

(** ** The host around the tables *)

Definition wf_tower (w : tower) : Prop := throughout tower_wf (sess w).

Lemma keeps_on_sql {A} (m : dao A) : keeps_wf m → preserves wf_tower (on_sql m).
Proof. intros Hm. eapply pres_zoom; [| |exact Hm]; done. Qed.

(** What leaves the database alone. *)
Lemma keeps_host {A} (m : M tower A) : (∀ w, sess (m w).2 = sess w) → preserves wf_tower m.
Proof. intros H w Hw. unfold wf_tower. by rewrite H. Qed.

Lemma keeps_file_access : preserves wf_tower file_access.
Proof. apply keeps_host. intros w. unfold file_access. by repeat case_match. Qed.

Lemma keeps_stat path : preserves wf_tower (stat_log_file path).
Proof. apply pres_bind; [apply keeps_file_access|]. by intros _ w. Qed.

Lemma keeps_read_bytes path off cap : preserves wf_tower (read_bytes path off cap).
Proof.
  apply pres_bind; [apply keeps_file_access|]. intros _. apply keeps_host. intros w. unfold lift.
  by case_match.
Qed.

Lemma keeps_append_line l : preserves wf_tower (append_line l).
Proof. apply keeps_host. intros w. unfold append_line. by repeat case_match. Qed.

Lemma keeps_emit_once sh ev : preserves wf_tower (emit_once sh ev).
Proof. apply keeps_host. intros w. unfold emit_once. by repeat case_match. Qed.

#[export] Hint Resolve keeps_on_sql keeps_stat keeps_read_bytes keeps_append_line keeps_emit_once : keep.

Lemma keeps_recovery uid agent path ts :
  preserves wf_tower (reader_cycle_offset_recovery uid agent path ts).
Proof.
  unfold reader_cycle_offset_recovery, select_attachment_for_recovery, handle_rotation, handle_missing,
    select_active_for_agent_path, select_most_recent_for_agent, select_offset, emit_log_file_returned,
    emit_log_rotation_detected, emit_log_file_missing, append_log_attachment_change.
  keep.
Qed.

(** ** The reader *)

Definition wf_reader (r : reader) : Prop := wf_tower (rd_tower r).

Lemma keeps_on_tower {A} (m : M tower A) : preserves wf_tower m → preserves wf_reader (on_tower m).
Proof. intros Hm. eapply pres_zoom; [| |exact Hm]; done. Qed.

Lemma keeps_on_dao {A} (m : dao A) : keeps_wf m → preserves wf_reader (on_dao m).
Proof. intros Hm. by apply keeps_on_tower, keeps_on_sql. Qed.

Lemma keeps_memory f : (∀ r, rd_tower (f r) = rd_tower r) → preserves wf_reader (modify f).
Proof. intros H r Hr. unfold wf_reader. cbn. by rewrite H. Qed.

Lemma keeps_on_debounce {A} (f : DebounceManager → A * DebounceManager) :
  preserves wf_reader (on_debounce f).
Proof. intros r Hr. unfold on_debounce. by destruct (f (rd_debounce r)). Qed.

#[export] Hint Resolve keeps_on_tower keeps_on_dao keeps_memory keeps_on_debounce keeps_recovery : keep.

Lemma keeps_attempt (m h : M reader unit) p :
  preserves wf_reader m → preserves wf_reader h → preserves wf_reader (attempt m p h).
Proof. intros Hm Hh. unfold attempt. keep. Qed.

Lemma keeps_degrade_sqlite a b c n : preserves wf_reader (degrade_sqlite a b c n).
Proof. by apply keeps_memory. Qed.
Lemma keeps_degrade_jsonl a : preserves wf_reader (degrade_jsonl a).
Proof. by apply keeps_memory. Qed.
Lemma keeps_notify a b : preserves wf_reader (notify_followers a b).
Proof. by apply keeps_memory. Qed.

#[export] Hint Resolve keeps_attempt keeps_degrade_sqlite keeps_degrade_jsonl keeps_notify : keep.

Lemma keeps_append_mark id row now : preserves wf_reader (append_mark_and_notify id row now).
Proof.
  unfold append_mark_and_notify, append_event_to_jsonl. keep.
Qed.

Lemma keeps_commit_events a o evs ab al n now :
  preserves wf_reader (commit_events_and_advance a o evs ab al n now).
Proof.
  unfold commit_events_and_advance. keep; [|apply keeps_append_mark].
  apply keeps_on_dao. unfold insert_and_advance. keep.
Qed.

#[export] Hint Resolve keeps_append_mark keeps_commit_events : keep.

Lemma keeps_synthetic a ty rule now o : preserves wf_reader (persist_synthetic_event a ty rule now o).
Proof. unfold persist_synthetic_event. keep. Qed.

#[export] Hint Resolve keeps_synthetic : keep.

Section ReaderKeeps.
Variable cfg : ReaderConfig.

Lemma keeps_submit_records a now mono line byte records :
  preserves wf_reader (submit_records cfg a now mono line byte records).
Proof.
  revert line byte. induction records as [|rec rest IH]; intros line byte; cbn [submit_records]; keep.
Qed.

Lemma keeps_cycle a now mono : preserves wf_reader (run_cycle_for_attachment cfg a now mono).
Proof.
  unfold run_cycle_for_attachment, maybe_synthesize_pane_exited, maybe_synthesize_long_running,
    process_bytes, flush_only, select_offset, last_event_for_attachment.
  keep; try (by apply keeps_memory); try (apply keeps_on_dao; keep);
    try apply keeps_submit_records.
  apply keeps_memory. intros r. by case_match.
Qed.

Lemma keeps_one_cycle now mono : preserves wf_reader (run_one_cycle cfg now mono).
Proof.
  unfold run_one_cycle.
  apply pres_bind; [by apply keeps_memory|intros _].
  do 3 (apply pres_bind; [apply keeps_on_dao, pres_statement|intros _]).
  assert (∀ {A} (m : M reader A), preserves wf_reader m → preserves wf_reader (closing m)) as Hclose.
  { intros A m Hm r Hr. unfold closing. specialize (Hm r Hr). destruct (m r) as [o r'].
    by apply (keeps_on_dao Sql.close (pres_close _)). }
  apply Hclose. unfold visit, list_active_attachments, select_for_agent_path,
    retry_pending_jsonl_appends, select_pending_jsonl, bad_value, retry_one, append_event_to_jsonl.
  keep; try (by apply keeps_memory); try apply keeps_cycle;
    try (apply keeps_on_dao; keep).
  apply keeps_attempt; [|apply pres_ret]. keep.
Qed.

End ReaderKeeps.
