(* ===== verification/EventsReaderClaims.v ===== *)
(** What the events reader guarantees, with witnesses, and where it falls short.

    The reader detects rotation by comparing the inode and size it stored with those of
    the file, but no statement of the program ever stores an inode: rows start without one
    and the reader writes back what it read. *)

From S2P Require Import Prelude Errors Agents Permissions Store Utf8 AuditWriter Regex Redaction Classifier Debounce Session Tables LogDao EventsDao Tower FollowSessions EventsReader EventsReaderSpec EventsReaderSafety TowerInvariant.
From Stdlib Require Import Ascii.

Local Open Scope Z_scope.

Definition no_inode (d : tower_db) : Prop := map_Forall (λ _ o, lo_file_inode o = None) (log_offsets d).

(** The offset row a new attachment gets has no inode. *)
Lemma fresh_row_no_inode agent path ts : preserves (throughout no_inode) (insert_initial agent path ts).
Proof.
  apply pres_write. intros d [] d' Hd. case_match; [done|]. intros [= <-].
  by apply map_Forall_insert_2.
Qed.

Definition not_rotation (e : lifecycle_event) : Prop :=
  match e with LC_rotation _ _ _ _ _ _ => False | _ => True end.

Definition unseen (w : tower) : Prop :=
  throughout no_inode (sess w) ∧ Forall not_rotation (lifecycle_log w).

Lemma unseen_sql {A} (m : dao A) :
  preserves (throughout no_inode) m → preserves unseen (on_sql m).
Proof.
  intros Hm. eapply pres_zoom; [| |exact Hm]; [by intros w [? _]|].
  intros w s [_ ?] ?. by split.
Qed.

Lemma unseen_host {A} (m : M tower A) :
  (∀ w, sess (m w).2 = sess w ∧ lifecycle_log (m w).2 = lifecycle_log w) → preserves unseen m.
Proof. intros H w [H1 H2]. destruct (H w) as [E1 E2]. split; [by rewrite E1|by rewrite E2]. Qed.

Lemma unseen_file_access : preserves unseen file_access.
Proof. apply unseen_host. intros w. unfold file_access. by repeat case_match. Qed.

Lemma unseen_stat path : preserves unseen (stat_log_file path).
Proof. apply pres_bind; [apply unseen_file_access|]. by intros _ w. Qed.

Lemma unseen_read_bytes path off cap : preserves unseen (read_bytes path off cap).
Proof.
  apply pres_bind; [apply unseen_file_access|]. intros _. apply unseen_host. intros w. unfold lift.
  by case_match.
Qed.

Lemma unseen_append_line l : preserves unseen (append_line l).
Proof. apply unseen_host. intros w. unfold append_line. by repeat case_match. Qed.

Lemma unseen_emit sh ev : not_rotation ev → preserves unseen (emit_once sh ev).
Proof.
  intros Hev w [H1 H2]. unfold emit_once. repeat case_match; try done.
  split; [done|]. cbn. apply Forall_app_2; [done|by apply Forall_singleton].
Qed.

Lemma respects_other {A} (f : tower_db → outcome (A * tower_db)) :
  (∀ d a d', f d = Ok (a, d') → log_offsets d' = log_offsets d) →
  preserves (throughout no_inode) (Sql.write f).
Proof. intros Hf. apply pres_write. intros d a d' Hd E. unfold no_inode. by rewrite (Hf d a d' E). Qed.

Lemma unseen_update_status id st at_ s1 s2 :
  preserves (throughout no_inode) (update_status id st at_ s1 s2).
Proof.
  unfold update_status. keep. apply respects_other. intros d [] d' E. unfold on_attachments in E.
  case_match; [|done]. by injection E as <-.
Qed.

Lemma unseen_insert_event row : preserves (throughout no_inode) (insert_event row).
Proof.
  unfold insert_event, bad_value. keep. apply respects_other. intros d id d' E.
  unfold append_event_row in E. case_match; [|done]. by injection E as <- <-.
Qed.

Lemma unseen_mark id ts : preserves (throughout no_inode) (mark_durable_appended id ts).
Proof. apply respects_other. by intros d [] d' [= <-]. Qed.

Lemma unseen_advance agent path b l le n out ts :
  preserves (throughout no_inode) (advance_offset agent path b l le None n out ts).
Proof.
  unfold advance_offset, require_row_exists. keep. apply pres_write. intros d [] d' Hd [= <-].
  intros k o Hk. cbn in Hk. destruct (decide (k = (agent, path))) as [->|].
  - rewrite lookup_alter_eq in Hk. by apply fmap_Some in Hk as (o' & _ & ->).
  - rewrite lookup_alter_ne in Hk by done. by apply Hd in Hk.
Qed.

#[export] Hint Resolve unseen_sql unseen_stat unseen_read_bytes unseen_append_line
  unseen_update_status unseen_insert_event unseen_mark unseen_advance : keep.

(** An offset row read from such a database. *)
Definition blank (o : option LogOffsetRecord) : Prop := ∀ x, o = Some x → lo_file_inode x = None.

Lemma select_blank agent path w :
  unseen w → wp (on_sql (select_offset agent path)) (λ o w', unseen w' ∧ ∀ a, o = Ok a → blank a) w.
Proof.
  intros [H1 H2]. apply wp_zoom. eapply wp_mono; [|by apply (wp_read_val no_inode)].
  intros o s' [Hs' Hv]. split; [by split|]. intros a E. destruct (Hv a E) as (d & Hd & ->).
  intros x Hx. by apply Hd in Hx.
Qed.

Lemma classify_blank st o : blank (Some o) → classify_from_stat (Some st) (lo_file_inode o) (lo_file_size_seen o) = UNCHANGED.
Proof. intros H. by rewrite (H o eq_refl). Qed.

Lemma unseen_recovery uid agent path ts :
  preserves unseen (reader_cycle_offset_recovery uid agent path ts).
Proof.
  unfold reader_cycle_offset_recovery. apply pres_bind.
  { unfold select_attachment_for_recovery, select_active_for_agent_path, select_most_recent_for_agent. keep. }
  intros att. eapply pres_bind_val; [intros w; apply select_blank|]. intros o Ho.
  destruct att as [a|], o as [o|]; try apply pres_ret. apply pres_bind; [keep|]. intros [st|].
  - rewrite (classify_blank st o Ho). rewrite (bool_decide_eq_true_2 (UNCHANGED = UNCHANGED)) by done.
    unfold emit_log_file_returned. keep. by apply unseen_emit.
  - unfold handle_missing, append_log_attachment_change, emit_log_file_missing. keep; by apply unseen_emit.
Qed.

(** ** The reader *)

Definition unseen_reader (r : reader) : Prop := unseen (rd_tower r).

Lemma unseen_on_tower {A} (m : M tower A) : preserves unseen m → preserves unseen_reader (on_tower m).
Proof. intros Hm. eapply pres_zoom; [| |exact Hm]; done. Qed.

Lemma unseen_on_dao {A} (m : dao A) :
  preserves (throughout no_inode) m → preserves unseen_reader (on_dao m).
Proof. intros Hm. by apply unseen_on_tower, unseen_sql. Qed.

Lemma unseen_memory f : (∀ r, rd_tower (f r) = rd_tower r) → preserves unseen_reader (modify f).
Proof. intros H r Hr. unfold unseen_reader. cbn. by rewrite H. Qed.

Lemma unseen_on_debounce {A} (f : DebounceManager → A * DebounceManager) :
  preserves unseen_reader (on_debounce f).
Proof. intros r Hr. unfold on_debounce. by destruct (f (rd_debounce r)). Qed.

#[export] Hint Resolve unseen_on_tower unseen_on_dao unseen_memory unseen_on_debounce unseen_recovery : keep.

Lemma unseen_append_mark id row now : preserves unseen_reader (append_mark_and_notify id row now).
Proof.
  unfold append_mark_and_notify, append_event_to_jsonl, attempt, degrade_jsonl, degrade_sqlite,
    notify_followers. keep.
Qed.

#[export] Hint Resolve unseen_append_mark : keep.

Lemma unseen_commit a o evs ab al n now :
  lo_file_inode o = None → preserves unseen_reader (commit_events_and_advance a o evs ab al n now).
Proof.
  intros Ho. unfold commit_events_and_advance, insert_and_advance, degrade_sqlite. rewrite Ho. keep.
  apply unseen_on_dao. keep.
Qed.

Lemma unseen_synthetic a ty rule now o : preserves unseen_reader (persist_synthetic_event a ty rule now o).
Proof. unfold persist_synthetic_event, degrade_sqlite. keep. Qed.

#[export] Hint Resolve unseen_commit unseen_synthetic : keep.

Lemma select_blank_reader agent path r :
  unseen_reader r →
  wp (on_dao (select_offset agent path)) (λ o r', unseen_reader r' ∧ ∀ a, o = Ok a → blank a) r.
Proof. intros Hr. apply wp_zoom. eapply wp_mono; [|by apply select_blank]. done. Qed.

Section Cycle.
Variable cfg : ReaderConfig.

Lemma unseen_submit_records a now mono line byte records :
  preserves unseen_reader (submit_records cfg a now mono line byte records).
Proof.
  revert line byte. induction records as [|rec rest IH]; intros line byte; cbn [submit_records]; keep.
Qed.

Lemma unseen_process a o raw now mono :
  lo_file_inode o = None → preserves unseen_reader (process_bytes cfg a o raw now mono).
Proof. intros Ho. unfold process_bytes, flush_only. keep. apply unseen_submit_records. Qed.

Lemma unseen_cycle a now mono : preserves unseen_reader (run_cycle_for_attachment cfg a now mono).
Proof.
  unfold run_cycle_for_attachment, maybe_synthesize_pane_exited, maybe_synthesize_long_running,
    last_event_for_attachment.
  apply pres_bind; [unfold select_offset; keep|intros _].
  apply pres_bind; [unfold select_offset; keep|intros _].
  { apply unseen_memory. intros r. by case_match. }
  apply pres_bind; [keep|intros rec]. apply pres_if; [apply pres_ret|].
  eapply pres_bind_val; [intros r; apply select_blank_reader|]. intros [o|] Ho; [|apply pres_ret].
  keep. apply unseen_process. by apply Ho.
Qed.

(** Whatever happens to the files, the reader never detects a rotation or truncation
    of a log whose offset row has no inode, and every row is created without one: starting
    from such a database, with other writers that store no inode either, no life of the
    reader logs a rotation, and the rows stay without inode.  The comments promise that the
    first cycle after an attach records the inode. *)
Theorem rotation_never_detected ticks r :
  unseen_reader r →
  let r' := (run_loop cfg ticks r).2 in
  Forall not_rotation (lifecycle_log (rd_tower r')) ∧ no_inode (saved (sess (rd_tower r'))).
Proof.
  intros Hr. assert (preserves unseen_reader (run_loop cfg ticks)) as H.
  { unfold run_loop. keep. unfold run_one_cycle.
    apply pres_bind; [by apply unseen_memory|intros _].
    do 3 (apply pres_bind; [apply unseen_on_dao, pres_statement|intros _]).
    assert (∀ {A} (m : M reader A), preserves unseen_reader m → preserves unseen_reader (closing m)) as Hclose.
    { intros A m Hm r0 Hr0. unfold closing. specialize (Hm r0 Hr0). destruct (m r0) as [o r1].
      by apply (unseen_on_dao Sql.close (pres_close _)). }
    apply Hclose. unfold visit, list_active_attachments, select_for_agent_path,
      retry_pending_jsonl_appends, select_pending_jsonl, bad_value, retry_one, append_event_to_jsonl, attempt.
    keep; try (by apply unseen_memory); try apply unseen_cycle; try (apply unseen_on_dao; keep). }
  apply H in Hr as [(? & _) ?]. by split.
Qed.
End Cycle.

(** The reader on concrete logs: witnesses of its properties, and what it does where the
    code departs from its comments. *)

(** ** A small installation *)

Definition demo_attachment : LogAttachmentRecord :=
  mkAttachment "lat_1" "agt_000000000001" "c1" "/tmp/tmux" "main" 0 0 "%0" "/log/a.log"
    "active" "explicit" "cat >> /log/a.log" None "t0" "t0" None None "t0".

Definition demo_offset : LogOffsetRecord :=
  mkOffset "agt_000000000001" "/log/a.log" 0 0 0 None None 0 "t0" "t0".

Definition demo_db : tower_db :=
  mkTowerDb ∅ [] ∅ [] [] [demo_attachment] {[ ("agt_000000000001"%string, "/log/a.log"%string) := demo_offset ]} [] 0.

Definition demo_tower (faults : list (option sql_fault)) (log : string) : tower :=
  mkTower (mkSession demo_db None faults []) {[ "/log/a.log"%string := mkFile "1:7" log "t0" ]} [] [] []
    [] true [] (mkSuppression ∅ ∅ ∅ ∅).

Definition demo_reader (faults : list (option sql_fault)) (log : string) : reader :=
  mkReader (demo_tower faults log) (mkDebounce 5 [] ["w1"; "w2"; "w3"]%string) None ∅ ∅ None None 0 [].

Definition demo_config : ReaderConfig :=
  mkConfig (Z.to_nat 65536) 1024 EXCERPT_TRUNCATION_MARKER 30 30 1000 (λ _, false) (λ _, false) (λ _ _, None).

Definition line (s : string) : string := s +:+ String LF EmptyString.
Definition crlf (s : string) : string := s +:+ String CR (String LF EmptyString).

(** What a run leaves of the events: type, count, byte range. *)
Definition events_of (r : reader) : list (string * Z * option Z * option Z) :=
  (λ e, (de_event_type e, de_collapsed_count e, de_byte_range_start e, de_byte_range_end e)) <$>
    durable (saved (sess (rd_tower r))).
Definition offsets_of (r : reader) : list (Z * Z * Z) :=
  (λ o, (lo_byte_offset o, lo_line_offset o, lo_last_event_offset o)) <$>
    (map_to_list (log_offsets (saved (sess (rd_tower r))))).*2.

(** A cycle, then one after the window has passed. *)
Example two_cycles :
  let r := (run_loop demo_config [("t1"%string, 0); ("t2"%string, 9)]
              (demo_reader [] (line "Error: x" +:+ line "hello" +:+ line "bye" +:+ "part"))).2 in
  events_of r = [("error"%string, 1, Some 0, Some 9); ("activity"%string, 2, Some 9, Some 19)] ∧
  offsets_of r = [(19, 3, 19)] ∧ length (events_jsonl (rd_tower r)) = 2%nat ∧
  Forall (λ e, de_jsonl_appended_at e ≠ None) (durable (saved (sess (rd_tower r)))).
Proof. vm_compute. split_and!; try reflexivity. repeat constructor; discriminate. Qed.


(** The COMMIT itself fails: nothing of the batch is durable and the result says so. *)
Lemma commit_is_atomic_witness :
  let ev := mkPending "error" "error.line.v1" [] "t1" 0 9 0 1 None 1 None None in
  let r := demo_reader [None; None; None; None; Some (F_operational "disk I/O error")] EmptyString in
  let run := commit_events_and_advance demo_attachment demo_offset [ev] 9 1 9 "t1" r in
  events_of run.2 = [] ∧ ∀ res, run.1 = Ok res → cy_failed res = true.
Proof.
  intros ev r run. assert (events_of run.2 = []) as E by (vm_compute; reflexivity). split; [exact E|].
  assert (live eq (Ok tt) r) as Hl by (split; [constructor|by left]).
  destruct (commit_is_atomic eq demo_attachment demo_offset [ev] 9 1 9 "t1" r Hl)
    as [(_ & _ & H)|(d0 & ids & d1 & ls & H0 & (-> & o1 & _ & ->) & Hm & _)]; [exact H|].
  exfalso. assert (∃ e, e ∈ durable (saved (sess (rd_tower run.2)))) as [e He].
  { change (saved (sess (rd_tower r))) with demo_db in H0. subst d0.
    assert (∀ d d' : tower_db, marking eq [1] d d' → (∃ e, e ∈ durable d) → ∃ e, e ∈ durable d') as Hmk.
    { induction 1 as [|x y z Hxy _ IH]; [done|]. intros (e & He). apply IH.
      destruct Hxy as [->|(id & ts & _ & ->)]; [by exists e|]. exists (mark_row id ts e). cbn.
      by apply list_elem_of_fmap_2. }
    eapply Hmk; [exact Hm|]. eexists. cbn. left. }
  unfold events_of in E. apply fmap_nil_inv in E. rewrite E in He. by apply not_elem_of_nil in He.
Defined.

Lemma demo_wf faults log : wf_reader (demo_reader faults log).
Proof.
  split_and!; [|done|constructor]. constructor; cbn; try apply map_Forall_empty; try by repeat constructor.
  by apply map_Forall_singleton.
Qed.


(** The file shrinks from eight bytes to three: the reader sees nothing. *)
Lemma rotation_never_detected_witness :
  let r0 := demo_reader [] (line "a" +:+ line "b" +:+ line "c" +:+ line "d") in
  let shrink := mkTower (sess (rd_tower r0)) (files (rd_tower r0))
    [id; id; (λ _, {[ "/log/a.log"%string := mkFile "1:9" "new" "t9" ]})] [] [] [] true []
    (mkSuppression ∅ ∅ ∅ ∅) in
  let r := set_rd_tower shrink r0 in
  let r' := (run_loop demo_config [("t1"%string, 0); ("t2"%string, 9)] r).2 in
  unseen_reader r ∧ offsets_of r' = [(8, 4, 8)] ∧
  Forall not_rotation (lifecycle_log (rd_tower r')) ∧ no_inode (saved (sess (rd_tower r'))).
Proof.
  intros r0 shrink r r'.
  assert (unseen_reader r) as Hr.
  { split; [|constructor]. split_and!; [by apply map_Forall_singleton|done|constructor]. }
  split; [exact Hr|]. split; [vm_compute; reflexivity|].
  exact (rotation_never_detected demo_config [("t1"%string, 0); ("t2"%string, 9)] r Hr).
Defined.

(** ** Departures *)

(** The position of an event is computed from the record without its carriage return:
    after one CRLF line the events lie one byte before the offset they were read up to. *)
Theorem crlf_drifts :
  let r := (run_loop demo_config [("t1"%string, 0)]
              (demo_reader [] (crlf "hello" +:+ line "Error: x"))).2 in
  events_of r = [("error"%string, 1, Some 6, Some 15)] ∧ offsets_of r = [(16, 2, 15)] ∧
  String.substring 6 9 (crlf "hello" +:+ line "Error: x") = String LF (String.substring 0 8 "Error: x").
Proof. vm_compute. split_and!; reflexivity. Qed.

(** A failed commit leaves its records in the debounce window, and the next cycle reads
    them again: one line becomes an event that counts two. *)
Theorem failed_commit_counts_twice :
  let faults := [None; None; None; None; None; None; None; None; None; None; None; None;
                 Some (F_operational "database is locked")] in
  let r := (run_loop demo_config [("t1"%string, 0); ("t2"%string, 1); ("t3"%string, 9)]
              (demo_reader faults (line "hello"))).2 in
  events_of r = [("activity"%string, 2, Some 0, Some 6)] ∧ offsets_of r = [(6, 1, 6)].
Proof. vm_compute. split; reflexivity. Qed.
