(* ===== verification/RegistryDao.v ===== *)
(** The tables of the registry: agents (src/src/agenttower/state/agents.py), containers
    (state/containers.py) and panes (state/panes.py). *)

From S2P Require Import Prelude Errors Agents Permissions Store Session Tables LogDao.

(** ** agents *)

(** [sqlite3.IntegrityError] with [SQLITE_CONSTRAINT_PRIMARYKEY]. *)
Definition PrimaryKeyViolation : exn := PyError "IntegrityError/PRIMARYKEY".

Definition agent_row (agent_id : string) (key : pane_key) (role capability label project_path : string)
    (parent : option string) (perms created registered : string) (active : bool) : AgentRecord :=
  let '(c, so, se, wi, pa, id) := key in
  mkAgent agent_id c so se wi pa id role capability label project_path parent perms created registered
    None active.

Definition insert_agent (agent_id : string) (key : pane_key) (role capability label project_path : string)
    (parent : option string) (perms created registered : string) (active : bool) : dao unit :=
  let row := agent_row agent_id key role capability label project_path parent perms created registered active in
  Sql.write (λ d,
    if existsb (λ a, bool_decide (Agents.agent_id a = agent_id)) (agents d) then Raise PrimaryKeyViolation
    else match list_insert check_agent agent_clash row (agents d) with
         | Ok l => Ok (tt, set_agents l d)
         | Raise e => Raise e
         end).

Definition update_agents (p : AgentRecord → bool) (f : AgentRecord → AgentRecord) : dao unit :=
  Sql.write (λ d, match list_update check_agent agent_clash p f (agents d) with
                  | Ok l => Ok (tt, set_agents l d)
                  | Raise e => Raise e
                  end).

Definition is_agent (id : string) (a : AgentRecord) : bool := bool_decide (agent_id a = id).

(** The columns the updates write; identity, parent and creation time are never touched. *)
Definition with_fields (role capability label project_path perms registered : string)
    (seen : option string) (active : bool) (a : AgentRecord) : AgentRecord :=
  mkAgent (agent_id a) (container_id a) (tmux_socket_path a) (tmux_session_name a)
    (tmux_window_index a) (tmux_pane_index a) (tmux_pane_id a) role capability label project_path
    (parent_agent_id a) perms (created_at a) registered seen active.

Definition update_agent_mutable_fields (id role capability label project_path perms registered : string)
    (active : bool) : dao unit :=
  update_agents (is_agent id) (λ a,
    with_fields role capability label project_path perms registered (last_seen_at a) active a).

Definition update_agent_role (id role perms : string) : dao unit :=
  update_agents (is_agent id) (λ a,
    with_fields role (capability a) (label a) (project_path a) perms (last_registered_at a)
      (last_seen_at a) (active a) a).

Definition update_agent_label (id label : string) : dao unit :=
  update_agents (is_agent id) (λ a,
    with_fields (role a) (capability a) label (project_path a) (effective_permissions a)
      (last_registered_at a) (last_seen_at a) (active a) a).

Definition update_agent_capability (id capability : string) : dao unit :=
  update_agents (is_agent id) (λ a,
    with_fields (role a) capability (label a) (project_path a) (effective_permissions a)
      (last_registered_at a) (last_seen_at a) (active a) a).

(** [_chunk]: batches of [size] in order; [fuel] is the length of the list. *)
Fixpoint chunk_go {A} (fuel size : nat) (l : list A) : list (list A) :=
  match fuel, l with
  | S n, _ :: _ => take size l :: chunk_go n size (drop size l)
  | _, _ => []
  end.
Definition chunk {A} (size : nat) (l : list A) : list (list A) := chunk_go (length l) size l.

Definition PANE_KEY_BATCH : nat := 100.

Definition bound_to (keys : list pane_key) (a : AgentRecord) : bool :=
  bool_decide (agent_composite_key a ∈ keys).

Definition update_last_seen_at (pane_keys : list pane_key) (now_iso : string) : dao unit :=
  _ ← mapM (λ batch, update_agents (bound_to batch) (λ a,
        with_fields (role a) (capability a) (label a) (project_path a) (effective_permissions a)
          (last_registered_at a) (Some now_iso) (active a) a)) (chunk PANE_KEY_BATCH pane_keys);
  mret tt.

Definition cascade_agents_active_from_pane (pane_keys : list pane_key) : dao unit :=
  _ ← mapM (λ batch, update_agents (bound_to batch) (λ a,
        with_fields (role a) (capability a) (label a) (project_path a) (effective_permissions a)
          (last_registered_at a) (last_seen_at a) false a)) (chunk PANE_KEY_BATCH pane_keys);
  mret tt.

Definition find_agent (id : string) (d : tower_db) : option AgentRecord :=
  snd <$> list_find (λ a, agent_id a = id) (agents d).
Definition find_agent_by_pane (key : pane_key) (d : tower_db) : option AgentRecord :=
  snd <$> list_find (λ a, agent_composite_key a = key) (agents d).

(** [select_agent_by_id] *)
Definition select_agent (id : string) : dao (option AgentRecord) := Sql.read (find_agent id).

Definition select_agent_by_pane_key (key : pane_key) : dao (option AgentRecord) :=
  Sql.read (find_agent_by_pane key).

Definition container_active (id : string) (d : tower_db) : option bool := cr_active <$> containers d !! id.

Definition select_active_for_role_and_container (id : string) : dao (option (bool * option bool)) :=
  Sql.read (λ d, (λ a, (active a, container_active (container_id a) d)) <$> find_agent id d).

Definition select_active_for_bound_pane (key : pane_key) : dao (option (bool * bool)) :=
  Sql.read (λ d, (λ p, (pr_active p, default false (container_active (pr_container_id p) d))) <$>
    panes d !! key).

(** ** containers *)

Definition by_container_order (c1 c2 : ContainerRec) : Prop :=
  keys_le [if cr_active c2 then "1" else "0"; cr_last_scanned_at c2; cr_container_id c1]
          [if cr_active c1 then "1" else "0"; cr_last_scanned_at c1; cr_container_id c2].
#[export] Instance by_container_order_dec c1 c2 : Decision (by_container_order c1 c2).
Proof. unfold by_container_order. apply _. Defined.

Definition container_rows (d : tower_db) : list ContainerRec := (map_to_list (containers d)).*2.

(** [select_containers] *)
Definition select_container_rows (active_only : bool) : dao (list ContainerRec) :=
  Sql.read (λ d, merge_sort by_container_order
    (filter (λ c, negb active_only || cr_active c = true) (container_rows d))).

Definition select_active_container_ids : dao (gset string) :=
  Sql.read (λ d, list_to_set (cr_container_id <$> filter (λ c, cr_active c = true) (container_rows d))).

Definition select_known_container_ids : dao (gset string) :=
  Sql.read (λ d, list_to_set (cr_container_id <$> container_rows d)).

Definition by_container_id (c1 c2 : ContainerRec) : Prop :=
  String.le (cr_container_id c1) (cr_container_id c2).
#[export] Instance by_container_id_dec c1 c2 : Decision (by_container_id c1 c2).
Proof. unfold by_container_id. apply _. Defined.

Definition select_active_containers_with_user : dao (list (string * string * option string)) :=
  Sql.read (λ d, (λ c, (cr_container_id c, cr_name c, cr_config_user c)) <$>
    merge_sort by_container_id (filter (λ c, cr_active c = true) (container_rows d))).

Definition has_panes (id : string) (d : tower_db) : bool :=
  existsb (λ kp, bool_decide (key_container kp.1 = id)) (map_to_list (panes d)).

Definition select_inactive_container_ids_with_panes : dao (gset string) :=
  Sql.read (λ d, list_to_set (cr_container_id <$>
    filter (λ c, negb (cr_active c) && has_panes (cr_container_id c) d = true) (container_rows d))).

(** [INSERT .. ON CONFLICT DO UPDATE]: only [first_seen_at] survives. *)
Definition upsert_container (c : ContainerRec) : dao unit :=
  Sql.write (λ d, Ok (tt, set_containers
    (<[cr_container_id c := mkContainerRec (cr_container_id c) (cr_name c) (cr_image c) (cr_status c)
        (cr_labels c) (cr_mounts c) (cr_inspect c) (cr_config_user c) (cr_working_dir c) (cr_active c)
        (match containers d !! cr_container_id c with
         | Some old => cr_first_seen_at old
         | None => cr_first_seen_at c
         end) (cr_last_scanned_at c)]> (containers d)) d)).

Definition with_scan (active : bool) (now_iso : string) (c : ContainerRec) : ContainerRec :=
  mkContainerRec (cr_container_id c) (cr_name c) (cr_image c) (cr_status c) (cr_labels c) (cr_mounts c)
    (cr_inspect c) (cr_config_user c) (cr_working_dir c) active (cr_first_seen_at c) now_iso.

Definition mark_inactive (ids : list string) (now_iso : string) : dao nat :=
  if bool_decide (ids = []) then mret 0
  else Sql.write (λ d,
    let hit c := cr_active c && bool_decide (cr_container_id c ∈ ids) in
    Ok (length (filter (λ c, hit c = true) (container_rows d)),
        set_containers ((λ c, if hit c then with_scan false now_iso c else c) <$> containers d) d)).

Definition touch_last_scanned (ids : list string) (now_iso : string) : dao unit :=
  if bool_decide (ids = []) then mret tt
  else Sql.write (λ d, Ok (tt, set_containers
    ((λ c, if bool_decide (cr_container_id c ∈ ids) then with_scan (cr_active c) now_iso c else c)
       <$> containers d) d)).

Definition insert_container_scan (s : ContainerScanRow) : dao unit :=
  Sql.write (λ d,
    if existsb (λ x, bool_decide (cs_scan_id x = cs_scan_id s)) (container_scans d) ||
       bool_decide (cs_status s ∉ ["ok"; "degraded"])
    then Raise IntegrityError
    else Ok (tt, set_container_scans (container_scans d ++ [s]) d)).

(** ** panes *)

Record PriorPaneRow := mkPrior { pp_active : bool; pp_first_seen_at : string }.

Record PaneUpsert := mkPaneUpsert {
  pu_key : pane_key; pu_container_name : string; pu_container_user : string; pu_pane_pid : Z;
  pu_pane_tty : string; pu_pane_current_command : string; pu_pane_current_path : string;
  pu_pane_title : string; pu_pane_active : bool; pu_last_scanned_at : string
}.

Definition select_all_panes : dao (list (pane_key * PriorPaneRow)) :=
  Sql.read (λ d, (λ kp, (kp.1, mkPrior (pr_active kp.2) (pr_first_seen_at kp.2))) <$>
    map_to_list (panes d)).

(** The row an upsert leaves: active, with the first sighting of an older row. *)
Definition pane_of_upsert (u : PaneUpsert) (old : option PaneRec) : PaneRec :=
  let '(c, so, se, wi, pa, id) := pu_key u in
  mkPaneRec c so se wi pa id (pu_container_name u) (pu_container_user u) (pu_pane_pid u)
    (pu_pane_tty u) (pu_pane_current_command u) (pu_pane_current_path u) (pu_pane_title u)
    (pu_pane_active u) true
    (match old with Some p => pr_first_seen_at p | None => pu_last_scanned_at u end)
    (pu_last_scanned_at u).

Definition upsert_pane (u : PaneUpsert) : dao unit :=
  Sql.write (λ d, Ok (tt, set_panes (<[pu_key u := pane_of_upsert u (panes d !! pu_key u)]> (panes d)) d)).

Definition with_pane_scan (active : bool) (now_iso : string) (p : PaneRec) : PaneRec :=
  mkPaneRec (pr_container_id p) (pr_tmux_socket_path p) (pr_tmux_session_name p)
    (pr_tmux_window_index p) (pr_tmux_pane_index p) (pr_tmux_pane_id p) (pr_container_name p)
    (pr_container_user p) (pr_pane_pid p) (pr_pane_tty p) (pr_pane_current_command p)
    (pr_pane_current_path p) (pr_pane_title p) (pr_pane_active p) active (pr_first_seen_at p) now_iso.

(** [_execute_composite_keys_update] *)
Definition update_panes (keys : list pane_key) (f : PaneRec → PaneRec) : dao unit :=
  if bool_decide (keys = []) then mret tt
  else Sql.write (λ d, Ok (tt, set_panes
    (map_imap (λ k p, Some (if bool_decide (k ∈ keys) then f p else p)) (panes d)) d)).

Record PaneReconcileWriteSet := mkPaneWrites {
  pw_upserts : list PaneUpsert; pw_touch_only : list pane_key; pw_inactivate : list pane_key;
  pw_truncations : list truncation_note;
  pw_panes_seen : nat; pw_panes_newly_active : nat; pw_panes_reconciled_inactive : nat;
  pw_containers_skipped_inactive : nat; pw_containers_tmux_unavailable : nat
}.

Definition apply_pane_reconcile_writeset (ws : PaneReconcileWriteSet) (now_iso : string) : dao unit :=
  _ ← mapM upsert_pane (pw_upserts ws);
  _ ← update_panes (pw_touch_only ws) (λ p, with_pane_scan (pr_active p) now_iso p);
  update_panes (pw_inactivate ws) (with_pane_scan false now_iso).

Definition insert_pane_scan (s : PaneScanRow) : dao unit :=
  Sql.write (λ d,
    if existsb (λ x, bool_decide (ps_scan_id x = ps_scan_id s)) (pane_scans d) ||
       bool_decide (ps_status s ∉ ["ok"; "degraded"])
    then Raise IntegrityError
    else Ok (tt, set_pane_scans (pane_scans d ++ [s]) d)).
