(* ===== verification/Validation.v ===== *)
(** What the services check before they act: the shape of requests, closed sets and
    free-text bounds of agents (src/src/agenttower/agents/validation.py and the request
    gates of agents/service.py and logs/service.py), the sanitiser of tmux/parsers.py, the
    permissions an agent's role gives it (agents/permissions.py), and the user name of
    state/bench_user.py.

    Strings are their UTF-8 bytes; characters are counted by their leading bytes.  Of
    [str()] and [int()] on decoded JSON, digits and white space are the ASCII ones, and the
    text of an array or object is a parameter. *)

From S2P Require Import Prelude Errors Agents Json.
From Stdlib Require Import Ascii.

(** ** Characters *)

Definition leads (c : ascii) : bool :=
  let n := nat_of_ascii c in negb ((128 <=? n) && (n <? 192)).

Fixpoint char_count (s : string) : nat :=
  match s with
  | EmptyString => 0
  | String c s' => (if leads c then 1 else 0) + char_count s'
  end.

(** [s[:n]] *)
Fixpoint take_chars (n : nat) (s : string) : string :=
  match s with
  | EmptyString => EmptyString
  | String c s' =>
      if leads c
      then match n with O => EmptyString | S m => String c (take_chars m s') end
      else String c (take_chars n s')
  end.

Fixpoint string_filter (p : ascii → bool) (s : string) : string :=
  match s with
  | EmptyString => EmptyString
  | String c s' => if p c then String c (string_filter p s') else string_filter p s'
  end.

Definition printable (c : ascii) : bool :=
  let n := nat_of_ascii c in (32 <=? n) && negb (n =? 127).

Definition tab_or_newline (c : ascii) : bool :=
  let n := nat_of_ascii c in (n =? 9) || (n =? 10).

(** The loop of [sanitize_text]. *)
Fixpoint clean_controls (s : string) : string :=
  match s with
  | EmptyString => EmptyString
  | String c s' =>
      if tab_or_newline c then String " "%char (clean_controls s')
      else if printable c then String c (clean_controls s')
      else clean_controls s'
  end.

(** [sanitize_text] of tmux/parsers.py *)
Definition sanitize_text (value : string) (max_length : nat) : string * bool :=
  let cleaned := clean_controls value in
  if max_length <? char_count cleaned then (take_chars max_length cleaned, true)
  else (cleaned, false).

(** ** [str()] and [int()] of decoded values *)

Definition py_space (c : ascii) : bool :=
  let n := nat_of_ascii c in ((9 <=? n) && (n <=? 13)) || ((28 <=? n) && (n <=? 32)).

Fixpoint lstrip (s : string) : string :=
  match s with
  | String c s' => if py_space c then lstrip s' else s
  | EmptyString => s
  end.
Fixpoint rstrip (s : string) : string :=
  match s with
  | EmptyString => EmptyString
  | String c s' =>
      match rstrip s' with
      | EmptyString => if py_space c then EmptyString else String c EmptyString
      | t => String c t
      end
  end.
(** [s.strip()] *)
Definition strip (s : string) : string := rstrip (lstrip s).

Definition digit_of (c : ascii) : option Z :=
  let n := nat_of_ascii c in
  if (48 <=? n) && (n <=? 57) then Some (Z.of_nat n - 48)%Z else None.

(** Digits with single underscores between them. *)
Fixpoint digits_value (acc : Z) (after_digit : bool) (s : string) : option Z :=
  match s with
  | EmptyString => if after_digit then Some acc else None
  | String c s' =>
      match digit_of c with
      | Some d => digits_value (acc * 10 + d) true s'
      | None => if bool_decide (c = "_"%char) && after_digit then digits_value acc false s' else None
      end
  end.
Definition int_of_text (s : string) : option Z :=
  match strip s with
  | String c s' =>
      if bool_decide (c = "-"%char) then Z.opp <$> digits_value 0 false s'
      else if bool_decide (c = "+"%char) then digits_value 0 false s'
      else digits_value 0 false (String c s')
  | EmptyString => None
  end.

(** [int(v)] *)
Definition py_int (v : json) : outcome Z :=
  match v with
  | JInt z => Ok z
  | JBool b => Ok (if b then 1 else 0)%Z
  | JFloat _ (Some z) => Ok z
  | JFloat repr None =>
      Raise (PyError (if bool_decide (repr = "nan") then "ValueError" else "OverflowError"))
  | JStr s => match int_of_text s with Some z => Ok z | None => Raise (PyError "ValueError") end
  | JNull | JArr _ | JObj _ => Raise (PyError "TypeError")
  end.

(** [str(v)] *)
Definition py_str (repr_of : json → string) (v : json) : string :=
  match v with
  | JStr s => s
  | JNull => "None"
  | JBool b => if b then "True" else "False"
  | JInt z => print_int z
  | JFloat repr _ => repr
  | JArr _ | JObj _ => repr_of v
  end.

(** ** Requests *)

Definition reject {A} (code : string) : outcome A := Raise (RegistrationError code).

Abbreviation params := (list (string * json)).

(** [_check_schema_version] *)
Definition check_schema_version (ps : params) (daemon_schema_version : Z) : outcome unit :=
  match json_get "schema_version" ps with
  | None => Ok tt
  | Some (JInt client) =>
      if (client <? daemon_schema_version)%Z then reject "schema_version_newer" else Ok tt
  | Some _ => reject "bad_request"
  end.

(** [_check_unknown_keys] *)
Definition check_unknown_keys (ps : params) (allowed : list string) : outcome unit :=
  if forallb (λ kv, bool_decide (kv.1 ∈ allowed)) ps then Ok tt else reject "bad_request".

(** [_require_string] *)
Definition require_string (ps : params) (key : string) : outcome string :=
  match json_get key ps with
  | Some (JStr s) => Ok s
  | _ => reject "bad_request"
  end.

(** ** Closed sets and bounds *)

Definition VALID_ROLES : list string :=
  ["master"; "slave"; "swarm"; "test-runner"; "shell"; "unknown"].
Definition VALID_CAPABILITIES : list string :=
  ["claude"; "codex"; "gemini"; "opencode"; "shell"; "test-runner"; "unknown"].
Definition LABEL_MAX : nat := 64.
Definition PROJECT_PATH_MAX : nat := 4096.

Definition validate_in (set : list string) (value : json) : outcome string :=
  match value with
  | JStr s => if bool_decide (s ∈ set) then Ok s else reject "value_out_of_set"
  | _ => reject "value_out_of_set"
  end.
Definition validate_role : json → outcome string := validate_in VALID_ROLES.
Definition validate_capability : json → outcome string := validate_in VALID_CAPABILITIES.

Definition validate_label (value : json) : outcome string :=
  match value with
  | JStr s =>
      let (cleaned, truncated) := sanitize_text s LABEL_MAX in
      if (truncated : bool) then reject "field_too_long" else Ok cleaned
  | _ => reject "value_out_of_set"
  end.

Definition is_nul (c : ascii) : bool := nat_of_ascii c =? 0.

Definition validate_project_path (value : json) : outcome string :=
  match value with
  | JStr s =>
      if negb (Text.all (λ c, negb (is_nul c)) s) then reject "project_path_invalid"
      else
        let cleaned := string_filter printable s in
        if PROJECT_PATH_MAX <? char_count cleaned then reject "field_too_long"
        else if bool_decide (cleaned = EmptyString) then reject "project_path_invalid"
        else if negb (Text.startswith "/" cleaned) then reject "project_path_invalid"
        else if bool_decide (".."%string ∈ Text.split "/"%char cleaned) then reject "project_path_invalid"
        else Ok cleaned
  | _ => reject "project_path_invalid"
  end.

(** [s] without one trailing newline: what [$] lets through. *)
Fixpoint drop_final_newline (s : string) : string :=
  match s with
  | EmptyString => EmptyString
  | String c EmptyString => if bool_decide (c = newline) then EmptyString else s
  | String c s' => String c (drop_final_newline s')
  end.

(** [_CONTAINER_ID_RE.match] *)
Definition CONTAINER_ID_RE_match (s : string) : bool :=
  let body := drop_final_newline s in
  ((String.length body =? 12) || (String.length body =? 64)) && Text.all is_hex_lower body.

Definition validate_container_id_filter (value : json) : outcome string :=
  match value with
  | JStr s => if CONTAINER_ID_RE_match s then Ok s else reject "value_out_of_set"
  | _ => reject "value_out_of_set"
  end.

Definition validate_parent_agent_id_shape (value : json) : outcome string :=
  match value with
  | JStr s => if AGENT_ID_RE_match s then Ok s else reject "value_out_of_set"
  | _ => reject "value_out_of_set"
  end.

(** ** Permissions of a role *)

Record EffectivePermissions := mkPermissions {
  can_send : bool; can_receive : bool; can_send_to_roles : list string
}.

(** [_TABLE] *)
Definition PERMISSION_TABLE : list (string * EffectivePermissions) :=
  [("master", mkPermissions true false ["slave"; "swarm"]);
   ("slave", mkPermissions false true []);
   ("swarm", mkPermissions false true []);
   ("test-runner", mkPermissions false false []);
   ("shell", mkPermissions false false []);
   ("unknown", mkPermissions false false [])]%string.

Definition role_permissions (role : string) : outcome EffectivePermissions :=
  match list_find (λ kv, kv.1 = role) PERMISSION_TABLE with
  | Some (_, (_, p)) => Ok p
  | None => Raise (PyError "KeyError")
  end.

Definition serialize_effective_permissions (role : string) : outcome string :=
  obind (role_permissions role) (λ p,
    Ok (dumps (JObj [("can_send"%string, JBool (can_send p));
                     ("can_receive"%string, JBool (can_receive p));
                     ("can_send_to_roles"%string, JArr (JStr <$> can_send_to_roles p))]))).

(** ** The user of a container *)

Fixpoint before_colon (s : string) : string :=
  match s with
  | EmptyString => EmptyString
  | String c s' => if bool_decide (c = ":"%char) then EmptyString else String c (before_colon s')
  end.

Definition normalize_bench_user_for_exec (config_user : option string) : string :=
  match config_user with
  | Some u =>
      let head := strip (before_colon u) in
      if bool_decide (head = EmptyString) then "root" else head
  | None => "root"
  end.
