(* ===== verification/JsonParse.v ===== *)
(** [json.loads] of the standard library, and that it reads back what [json.dumps] writes.

    Text is UTF-8.  A lone surrogate escape becomes the three bytes of its code point.  The
    conversion of a text with a fraction or an exponent to a float is a parameter; integers
    have the limit of 4300 digits that [int] has.  The depth of nesting is not limited. *)

From S2P Require Import Prelude Errors Utf8 Json Validation.
From Stdlib Require Import Ascii.

Local Open Scope nat_scope.

Definition JSONDecodeError : exn := PyError "JSONDecodeError".
Definition MAX_STR_DIGITS : nat := Z.to_nat 4300.

Definition json_space (c : ascii) : bool :=
  let n := nat_of_ascii c in (n =? 32) || (n =? 9) || (n =? 10) || (n =? 13).
Fixpoint skip_ws (s : string) : string :=
  match s with
  | String c s' => if json_space c then skip_ws s' else s
  | EmptyString => s
  end.

(** ** Strings *)

Definition hex_digit (c : ascii) : option N :=
  let n := N_of_ascii c in
  if within 48 57 n then Some (n - 48)%N
  else if within 65 70 n then Some (n - 55)%N
  else if within 97 102 n then Some (n - 87)%N
  else None.
Definition hex4 (a b c d : ascii) : option N :=
  a ← hex_digit a; b ← hex_digit b; c ← hex_digit c; d ← hex_digit d;
  Some (((a * 16 + b) * 16 + c) * 16 + d)%N.

Definition simple_escape (c : ascii) : option ascii :=
  if bool_decide (c = quote_mark) then Some quote_mark
  else if bool_decide (c = backslash) then Some backslash
  else if bool_decide (c = "/"%char) then Some "/"%char
  else if bool_decide (c = "b"%char) then Some "008"%char
  else if bool_decide (c = "f"%char) then Some "012"%char
  else if bool_decide (c = "n"%char) then Some "010"%char
  else if bool_decide (c = "r"%char) then Some "013"%char
  else if bool_decide (c = "t"%char) then Some "009"%char
  else None.

Definition after {A} (f : A → A) (r : option (A * string)) : option (A * string) :=
  (λ x, (f x.1, x.2)) <$> r.

Definition surrogates (hi lo : N) : N := (0x10000 + (hi - 0xD800) * 0x400 + (lo - 0xDC00))%N.

(** The rest of a string after its opening quote. *)
Fixpoint scan_string (s : string) : option (string * string) :=
  match s with
  | EmptyString => None
  | String c r =>
      if bool_decide (c = quote_mark) then Some (EmptyString, r)
      else if bool_decide (c = backslash) then
        match r with
        | EmptyString => None
        | String e r1 =>
            if bool_decide (e = "u"%char) then
              match r1 with
              | String d1 (String d2 (String d3 (String d4 r2))) =>
                  match hex4 d1 d2 d3 d4 with
                  | None => None
                  | Some cp =>
                      let lone := after (encode_cp cp) (scan_string r2) in
                      if within 0xD800 0xDBFF cp then
                        match r2 with
                        | String b2 (String u2 (String e1 (String e2 (String e3 (String e4 r3))))) =>
                            if bool_decide (b2 = backslash) && bool_decide (u2 = "u"%char) then
                              match hex4 e1 e2 e3 e4 with
                              | None => None
                              | Some lo =>
                                  if within 0xDC00 0xDFFF lo
                                  then after (encode_cp (surrogates cp lo)) (scan_string r3)
                                  else lone
                              end
                            else lone
                        | _ => lone
                        end
                      else lone
                  end
              | _ => None
              end
            else
              match simple_escape e with
              | Some x => after (String x) (scan_string r1)
              | None => None
              end
        end
      else if (N_of_ascii c <? 32)%N then None
      else after (String c) (scan_string r)
  end.

(** ** Numbers *)

Definition is_digit (c : ascii) : bool := bool_decide (is_Some (digit_of c)).
Fixpoint take_digits (s : string) : string * string :=
  match s with
  | String c s' => if is_digit c then let (d, r) := take_digits s' in (String c d, r) else (EmptyString, s)
  | EmptyString => (EmptyString, s)
  end.

Definition digits_to_int (d : string) : Z := default 0%Z (digits_value 0 false d).

(** [(?:0|[1-9][0-9]* )] *)
Definition int_part (s : string) : option (string * string) :=
  match s with
  | String c r =>
      if bool_decide (c = "0"%char) then Some (String c EmptyString, r)
      else if is_digit c then Some (take_digits s) else None
  | EmptyString => None
  end.
(** [(\.[0-9]+)?] *)
Definition frac_part (s : string) : string * string :=
  match s with
  | String c r =>
      if bool_decide (c = "."%char) then
        match take_digits r with
        | (EmptyString, _) => (EmptyString, s)
        | (d, r') => (String c d, r')
        end
      else (EmptyString, s)
  | EmptyString => (EmptyString, s)
  end.
(** [([eE][-+]?[0-9]+)?] *)
Definition exp_part (s : string) : string * string :=
  match s with
  | String c r =>
      if bool_decide (c = "e"%char) || bool_decide (c = "E"%char) then
        let '(sign, r1) :=
          match r with
          | String g r1 => if bool_decide (g = "-"%char) || bool_decide (g = "+"%char)
                           then (String g EmptyString, r1) else (EmptyString, r)
          | EmptyString => (EmptyString, r)
          end in
        match take_digits r1 with
        | (EmptyString, _) => (EmptyString, s)
        | (d, r') => (String c (sign +:+ d), r')
        end
      else (EmptyString, s)
  | EmptyString => (EmptyString, s)
  end.

Section Parse.
(** [float(text)]: its [repr] and the integer it truncates to. *)
Variable to_float : string → string * option Z.

Definition float_of (text : string) : json := let (r, t) := to_float text in JFloat r t.

(** The number at the beginning of the text, if there is one; [neg] after a minus. *)
Definition scan_number (neg : bool) (s : string) : option (outcome (json * string)) :=
  match int_part s with
  | None => None
  | Some (d, r) =>
      let (fr, r1) := frac_part r in
      let (ex, r2) := exp_part r1 in
      Some (if bool_decide (fr = EmptyString) && bool_decide (ex = EmptyString) then
              if MAX_STR_DIGITS <? String.length d then Raise (PyError "ValueError")
              else Ok (JInt (if neg then - digits_to_int d else digits_to_int d)%Z, r2)
            else Ok (float_of ((if neg then "-" else EmptyString) +:+ d +:+ fr +:+ ex), r2))
  end.

Definition number_at (s : string) : option (outcome (json * string)) :=
  match s with
  | String c r => if bool_decide (c = "-"%char) then scan_number true r else scan_number false s
  | EmptyString => None
  end.

(** ** Values *)

(** The literals, in the order the scanner tries them; then numbers, then the constants that
    are not JSON. *)
Definition scan_literal (s : string) : outcome (json * string) :=
  let lit w v k := if Text.startswith w s then Ok (v, Text.drop (String.length w) s) else k in
  lit "null"%string JNull (lit "true"%string (JBool true) (lit "false"%string (JBool false)
    (match number_at s with
     | Some r => r
     | None =>
         lit "NaN"%string (JFloat "nan" None) (lit "Infinity"%string (JFloat "inf" None)
           (lit "-Infinity"%string (JFloat "-inf" None) (Raise JSONDecodeError)))
     end))).

Definition dict_of (pairs : list (string * json)) : list (string * json) :=
  foldl (λ d kv, put kv.1 kv.2 d) [] pairs.

Fixpoint parse_value (fuel : nat) (s : string) : outcome (json * string) :=
  match fuel with
  | O => Raise JSONDecodeError
  | S f =>
      match s with
      | EmptyString => Raise JSONDecodeError
      | String c r =>
          if bool_decide (c = quote_mark) then
            match scan_string r with
            | Some (t, r') => Ok (JStr t, r')
            | None => Raise JSONDecodeError
            end
          else if bool_decide (c = "{"%char) then
            match skip_ws r with
            | String c1 r1 =>
                if bool_decide (c1 = "}"%char) then Ok (JObj [], r1)
                else obind (parse_members f (String c1 r1)) (λ x, Ok (JObj (dict_of x.1), x.2))
            | EmptyString => Raise JSONDecodeError
            end
          else if bool_decide (c = "["%char) then
            match skip_ws r with
            | String c1 r1 =>
                if bool_decide (c1 = "]"%char) then Ok (JArr [], r1)
                else obind (parse_elements f (String c1 r1)) (λ x, Ok (JArr x.1, x.2))
            | EmptyString => Raise JSONDecodeError
            end
          else scan_literal s
      end
  end
with parse_elements (fuel : nat) (s : string) : outcome (list json * string) :=
  match fuel with
  | O => Raise JSONDecodeError
  | S f =>
      obind (parse_value f s) (λ x,
        match skip_ws x.2 with
        | String c r =>
            if bool_decide (c = "]"%char) then Ok ([x.1], r)
            else if bool_decide (c = ","%char)
            then obind (parse_elements f (skip_ws r)) (λ y, Ok (x.1 :: y.1, y.2))
            else Raise JSONDecodeError
        | EmptyString => Raise JSONDecodeError
        end)
  end
with parse_members (fuel : nat) (s : string) : outcome (list (string * json) * string) :=
  match fuel with
  | O => Raise JSONDecodeError
  | S f =>
      match s with
      | String q r0 =>
          if bool_decide (q = quote_mark) then
            match scan_string r0 with
            | None => Raise JSONDecodeError
            | Some (k, r1) =>
                match skip_ws r1 with
                | String c r2 =>
                    if bool_decide (c = ":"%char) then
                      obind (parse_value f (skip_ws r2)) (λ x,
                        match skip_ws x.2 with
                        | String c3 r3 =>
                            if bool_decide (c3 = "}"%char) then Ok ([(k, x.1)], r3)
                            else if bool_decide (c3 = ","%char)
                            then obind (parse_members f (skip_ws r3)) (λ y, Ok ((k, x.1) :: y.1, y.2))
                            else Raise JSONDecodeError
                        | EmptyString => Raise JSONDecodeError
                        end)
                    else Raise JSONDecodeError
                | EmptyString => Raise JSONDecodeError
                end
            end
          else Raise JSONDecodeError
      | EmptyString => Raise JSONDecodeError
      end
  end.

Definition BOM : string := String "239"%char (String "187"%char (String "191"%char EmptyString)).

(** [json.loads(s)] *)
Definition loads (s : string) : outcome json :=
  if Text.startswith BOM s then Raise JSONDecodeError
  else
    obind (parse_value (2 * String.length s + 2) (skip_ws s)) (λ x,
      if bool_decide (skip_ws x.2 = EmptyString) then Ok x.1 else Raise JSONDecodeError).
End Parse.

(** [json.loads] reads back what [json.dumps] writes, and does not depend on its fuel. *)

Arguments is_digit : simpl never.

(** ** Text *)

Lemma text_length_app s t : String.length (s +:+ t) = String.length s + String.length t.
Proof.
  induction s as [|c s IH]; [done|]. change (String c s +:+ t) with (String c (s +:+ t)). cbn. by rewrite IH.
Qed.
Lemma text_app_assoc (s t u : string) : (s +:+ t) +:+ u = s +:+ t +:+ u.
Proof.
  induction s as [|c s IH]; [done|].
  change (String c ((s +:+ t) +:+ u) = String c (s +:+ t +:+ u)). by rewrite IH.
Qed.

(** ** Strings *)

Lemma scan_escape_char c t : scan_string (escape_char c t) = after (String c) (scan_string t).
Proof. destruct c as [[] [] [] [] [] [] [] []]; reflexivity. Qed.

Lemma escape_char_app c t u : escape_char c t +:+ u = escape_char c (t +:+ u).
Proof. destruct c as [[] [] [] [] [] [] [] []]; reflexivity. Qed.

Lemma scan_escape t rest : scan_string (escape t +:+ String quote_mark rest) = Some (t, rest).
Proof.
  induction t as [|c t IH]; [done|]. cbn [escape]. by rewrite escape_char_app, scan_escape_char, IH.
Qed.

(** ** Numbers *)

(** What may follow a value. *)
Definition stops (s : string) : bool :=
  match s with
  | EmptyString => true
  | String c _ => negb (is_digit c || bool_decide (c = "."%char) || bool_decide (c = "e"%char) || bool_decide (c = "E"%char))
  end.

Lemma stops_digit s : stops s = true → match s with String c _ => is_digit c = false | _ => True end.
Proof. destruct s as [|c s]; [done|]. cbn. by destruct (is_digit c). Qed.

Lemma take_digits_all d rest :
  Text.all is_digit d = true → stops rest = true → take_digits (d +:+ rest) = (d, rest).
Proof.
  intros Hd Hr. induction d as [|c d IH].
  - apply stops_digit in Hr. destruct rest as [|c rest]; [done|]. change (EmptyString +:+ ?x) with x. cbn. by rewrite Hr.
  - cbn in Hd. apply andb_true_iff in Hd as [Hc Hd]. change (String c d +:+ rest) with (String c (d +:+ rest)).
    cbn. by rewrite Hc, (IH Hd).
Qed.

Lemma no_frac rest : stops rest = true → frac_part rest = (EmptyString, rest).
Proof.
  destruct rest as [|c rest]; [done|]. cbn. intros H%negb_true_iff. rewrite !orb_false_iff in H.
  destruct H as [[[_ H] _] _]. by rewrite H.
Qed.
Lemma no_exp rest : stops rest = true → exp_part rest = (EmptyString, rest).
Proof.
  destruct rest as [|c rest]; [done|]. cbn. intros H%negb_true_iff. rewrite !orb_false_iff in H.
  destruct H as [[[_ _] H1] H2]. by rewrite H1, H2.
Qed.

Definition digit_char (n : N) : ascii := ascii_of_N (48 + n mod 10).

Lemma digit_char_of n : digit_of (digit_char n) = Some (Z.of_N (n mod 10)).
Proof.
  unfold digit_char. pose proof (N.mod_lt n 10 ltac:(lia)) as H. revert H. generalize (n mod 10)%N. intros m Hm.
  assert (m = 0 ∨ m = 1 ∨ m = 2 ∨ m = 3 ∨ m = 4 ∨ m = 5 ∨ m = 6 ∨ m = 7 ∨ m = 8 ∨ m = 9)%N as H by lia.
  repeat (destruct H as [->|H]; [reflexivity|]). by subst.
Qed.
Lemma digit_char_is n : is_digit (digit_char n) = true.
Proof. unfold is_digit. rewrite digit_char_of. done. Qed.
Lemma digit_char_zero n : digit_char n = "0"%char → (n mod 10 = 0)%N.
Proof.
  intros E. pose proof (digit_char_of n) as H. rewrite E in H. change (digit_of "0"%char) with (Some 0%Z) in H.
  injection H as H. lia.
Qed.

(** The digits of a number give its value back, and do not begin with a zero. *)
Lemma digits_value_app acc d c b v :
  Text.all is_digit d = true → digit_of c = Some v →
  digits_value acc b (d +:+ String c EmptyString) =
    (λ x, x * 10 + v)%Z <$> (if bool_decide (d = EmptyString) then Some acc else digits_value acc b d).
Proof.
  intros Hd Hc. revert acc b. induction d as [|x d IH]; intros acc b.
  - change (EmptyString +:+ ?x) with x. cbn [digits_value]. by rewrite Hc.
  - cbn in Hd. apply andb_true_iff in Hd as [Hx Hd]. change (String x d +:+ ?r) with (String x (d +:+ r)).
    cbn [digits_value]. unfold is_digit in Hx. apply bool_decide_eq_true in Hx as [w Hw]. rewrite Hw.
    rewrite (IH Hd). rewrite (bool_decide_eq_false_2 (String x d = EmptyString)) by done.
    destruct (bool_decide (d = EmptyString)) eqn:E; [|done].
    apply bool_decide_eq_true in E as ->. done.
Qed.

Lemma text_all_app p s t : Text.all p (s +:+ t) = Text.all p s && Text.all p t.
Proof.
  induction s as [|c s IH]; [done|]. change (String c s +:+ t) with (String c (s +:+ t)). cbn. by rewrite IH, andb_assoc.
Qed.

Lemma digits_fuel_spec fuel n :
  (n < 10 ^ N.of_nat fuel)%N → fuel ≠ 0 →
  let d := digits_fuel fuel n in
  Text.all is_digit d = true ∧ digits_value 0 false d = Some (Z.of_N n) ∧
  (∃ c r, d = String c r ∧ is_digit c = true ∧ (c = "0"%char → n = 0%N ∧ r = EmptyString)).
Proof.
  revert n. induction fuel as [|fuel IH]; intros n Hn Hf; [done|]. cbn [digits_fuel].
  change (ascii_of_N (48 + n mod 10)) with (digit_char n).
  destruct (n <? 10)%N eqn:E.
  - apply N.ltb_lt in E. change (EmptyString +:+ ?x) with x. cbv zeta. cbn [Text.all digits_value].
    rewrite digit_char_is, digit_char_of. rewrite N.mod_small by done. split_and!; [done|done|].
    exists (digit_char n), EmptyString. split_and!; [done|apply digit_char_is|]. intros Hz%digit_char_zero.
    rewrite N.mod_small in Hz by done. done.
  - apply N.ltb_ge in E. destruct fuel as [|fuel]; [cbn in Hn; lia|].
    assert (n / 10 < 10 ^ N.of_nat (S fuel))%N as Hq.
    { apply N.Div0.div_lt_upper_bound. replace (N.of_nat (S (S fuel))) with (N.succ (N.of_nat (S fuel))) in Hn by lia.
      rewrite N.pow_succ_r in Hn by lia. lia. }
    destruct (IH (n / 10)%N Hq ltac:(done)) as (H1 & H2 & c & r & Ed & Hc & Hz).
    set (d := digits_fuel (S fuel) (n / 10)) in *. cbv zeta. split_and!.
    + rewrite text_all_app, H1. cbn. by rewrite digit_char_is.
    + rewrite (digits_value_app _ _ _ _ _ H1 (digit_char_of n)), H2. rewrite Ed.
      rewrite bool_decide_eq_false_2 by done. cbn [fmap option_fmap option_map]. f_equal.
      pose proof (N.div_mod' n 10). lia.
    + exists c, (r +:+ String (digit_char n) EmptyString). rewrite Ed. split_and!; [done|done|].
      intros E0. destruct (Hz E0) as [Hn0 _]. apply N.div_small_iff in Hn0; lia.
Qed.

Lemma print_nat_spec n :
  Text.all is_digit (print_nat n) = true ∧ digits_value 0 false (print_nat n) = Some (Z.of_N n) ∧
  (∃ c r, print_nat n = String c r ∧ is_digit c = true ∧ (c = "0"%char → n = 0%N ∧ r = EmptyString)).
Proof.
  apply digits_fuel_spec; [|done].
  replace (N.of_nat (S (N.to_nat (N.log2 n)))) with (N.succ (N.log2 n)) by lia.
  destruct (decide (n = 0%N)) as [->|Hn]; [done|].
  pose proof (N.log2_spec n ltac:(lia)) as [_ H]. eapply N.lt_le_trans; [exact H|].
  apply N.pow_le_mono_l. lia.
Qed.

Lemma int_part_print n rest :
  stops rest = true → int_part (print_nat n +:+ rest) = Some (print_nat n, rest).
Proof.
  intros Hr. destruct (print_nat_spec n) as (H1 & _ & c & r & E & Hc & Hz). unfold int_part.
  rewrite E. change (String c r +:+ rest) with (String c (r +:+ rest)). cbv iota.
  destruct (bool_decide (c = "0"%char)) eqn:E0.
  - apply bool_decide_eq_true in E0. by destruct (Hz E0) as [_ ->].
  - rewrite Hc. change (String c (r +:+ rest)) with (String c r +:+ rest). rewrite <- E. by rewrite take_digits_all.
Qed.

Lemma print_int_head z : ∃ c r, print_int z = String c r ∧ (is_digit c = true ∨ c = "-"%char).
Proof.
  destruct z; cbn [print_int];
    try (by destruct (print_nat_spec (Z.to_N 0)) as (_ & _ & c & r & E & Hc & _); exists c, r; auto).
  - destruct (print_nat_spec (Z.to_N (Z.pos p))) as (_ & _ & c & r & E & Hc & _). exists c, r. auto.
  - eexists _, _. split; [done|by right].
Qed.

(** ** Values *)

(** A value without floats, without integers beyond the limit, without repeated keys, and
    whose texts are all [okstr]. *)
Section Plain.
Variable okstr : string → Prop.
Fixpoint plain (v : json) : Prop :=
  match v with
  | JFloat _ _ => False
  | JInt z => String.length (print_nat (Z.abs_N z)) ≤ MAX_STR_DIGITS
  | JStr s => okstr s
  | JArr l => foldr (λ x P, plain x ∧ P) True l
  | JObj o => NoDup o.*1 ∧ foldr (λ kx P, okstr kx.1 ∧ plain kx.2 ∧ P) True o
  | _ => True
  end.
End Plain.

Section Induction.
Context (P : json → Prop) (Hn : P JNull) (Hb : ∀ b, P (JBool b)) (Hi : ∀ z, P (JInt z))
  (Hf : ∀ r t, P (JFloat r t)) (Hs : ∀ s, P (JStr s))
  (Ha : ∀ l, Forall P l → P (JArr l)) (Ho : ∀ o, Forall (λ kx, P kx.2) o → P (JObj o)).
Fixpoint json_induction (v : json) : P v :=
  match v with
  | JNull => Hn
  | JBool b => Hb b
  | JInt z => Hi z
  | JFloat r t => Hf r t
  | JStr s => Hs s
  | JArr l => Ha l ((fix go l := match l return Forall P l with
                                 | [] => Forall_nil_2 _
                                 | x :: l => Forall_cons_2 _ _ _ (json_induction x) (go l)
                                 end) l)
  | JObj o => Ho o ((fix go o := match o return Forall (λ kx, P kx.2) o with
                                 | [] => Forall_nil_2 _
                                 | kx :: o => Forall_cons_2 _ _ _ (json_induction kx.2) (go o)
                                 end) o)
  end.
End Induction.

Lemma put_fresh {K V} `{EqDecision K} (k : K) (v : V) l : k ∉ l.*1 → put k v l = l ++ [(k, v)].
Proof.
  induction l as [|[k' v'] l IH]; [done|]. cbn. intros [Hne Hn]%not_elem_of_cons. rewrite decide_False by done.
  by rewrite IH.
Qed.
Lemma dict_of_nodup o : NoDup o.*1 → dict_of o = o.
Proof.
  unfold dict_of. assert (∀ d, NoDup (d ++ o).*1 → foldl (λ d kv, put kv.1 kv.2 d) d o = d ++ o) as H; [|by apply (H [])].
  induction o as [|[k v] o IH]; intros d Hd; cbn; [by rewrite app_nil_r|].
  rewrite fmap_app in Hd. cbn in Hd. rewrite put_fresh.
  - rewrite IH; [by rewrite <- app_assoc|]. by rewrite <- app_assoc, fmap_app.
  - intros Hk. apply NoDup_app in Hd as (_ & Hd & _). by apply (Hd k Hk); left.
Qed.

(** The first character of a value. *)
Definition opens (c : ascii) : Prop :=
  json_space c = false ∧ c ≠ "]"%char ∧ c ≠ "}"%char.

Lemma digit_opens c : is_digit c = true → opens c ∧ c ≠ quote_mark ∧ c ≠ "{"%char ∧ c ≠ "["%char ∧
  c ≠ "-"%char ∧ c ≠ "n"%char ∧ c ≠ "t"%char ∧ c ≠ "f"%char.
Proof. destruct c as [[] [] [] [] [] [] [] []]; try discriminate; intros _; unfold opens; split_and!; done. Qed.

Lemma dumps_opens esc sp okstr v : plain okstr v → ∃ c r, dumps_sep esc sp v = String c r ∧ opens c.
Proof.
  destruct v as [|[]|z|rp tr|t|l|o]; cbn [plain dumps_sep]; intros Hp; try done;
    try (by eexists _, _; split; [reflexivity|]; unfold opens; split_and!).
  destruct (print_int_head z) as (c & r & E & Hc). exists c, r. split; [done|].
  destruct Hc as [Hc|Hc]; [by apply digit_opens|]. subst c. unfold opens. by split_and!.
Qed.

Lemma skip_char c r : json_space c = false → skip_ws (String c r) = String c r.
Proof. intros H. cbn. by rewrite H. Qed.

Section RoundTrip.
Variable to_float : string → string * option Z.
(** Escapes that are read back, on the texts of [okstr]. *)
Context (esc : string → string) (sp : string) (okstr : string → Prop) (Hsp : Text.all json_space sp = true)
  (scan_esc : ∀ t rest, okstr t → scan_string (esc t +:+ String quote_mark rest) = Some (t, rest)).
Abbreviation dumps := (dumps_sep esc sp).
Abbreviation sep := ("," +:+ sp).
Abbreviation plain := (plain okstr).
Abbreviation value := (parse_value to_float).
Abbreviation elements := (parse_elements to_float).
Abbreviation members := (parse_members to_float).

Lemma skip_spaces x : skip_ws (sp +:+ x) = skip_ws x.
Proof.
  revert Hsp. clear. induction sp as [|c s IH]; [done|]. intros [Hc Hs]%andb_true_iff.
  change (String c s +:+ x) with (String c (s +:+ x)). cbn [skip_ws]. rewrite Hc. by apply IH.
Qed.

Lemma scan_print n neg rest :
  String.length (print_nat n) ≤ MAX_STR_DIGITS → stops rest = true →
  scan_number to_float neg (print_nat n +:+ rest) =
    Some (Ok (JInt (if neg then - Z.of_N n else Z.of_N n)%Z, rest)).
Proof.
  intros Hl Hr. destruct (print_nat_spec n) as (_ & Hv & _). unfold scan_number.
  rewrite int_part_print by done. rewrite no_frac, no_exp by done. cbn [andb bool_decide decide_rel].
  rewrite (proj2 (Nat.ltb_ge _ _) Hl). unfold digits_to_int. by rewrite Hv.
Qed.

Lemma literal_not w c r : c ≠ default c (String.get 0 w) → Text.startswith w (String c r) = false.
Proof.
  destruct w as [|x w]; [done|]. cbn. intros Hc. destruct (ascii_dec x c) as [->|]; [done|done].
Qed.

Lemma scan_int z rest :
  String.length (print_nat (Z.abs_N z)) ≤ MAX_STR_DIGITS → stops rest = true →
  scan_literal to_float (print_int z +:+ rest) = Ok (JInt z, rest).
Proof.
  intros Hl Hr. unfold scan_literal. cbv zeta.
  assert (∀ n, Z.abs_N z = n → (0 ≤ z)%Z → print_int z = print_nat n) as Hpos by (intros n <- Hz; by destruct z).
  destruct (decide (0 ≤ z)%Z) as [Hz|Hz].
  - rewrite (Hpos _ eq_refl Hz). destruct (print_nat_spec (Z.abs_N z)) as (_ & _ & c & r & E & Hc & _).
    pose proof (scan_print (Z.abs_N z) false rest Hl Hr) as Hs. rewrite E in Hs |- *.
    change (String c r +:+ rest) with (String c (r +:+ rest)) in Hs |- *.
    apply digit_opens in Hc as (_ & _ & _ & _ & H1 & H2 & H3 & H4).
    rewrite !literal_not by done. unfold number_at. rewrite bool_decide_eq_false_2 by done. rewrite Hs.
    do 3 f_equal. lia.
  - destruct z as [|p|p]; [lia|lia|]. cbn [print_int].
    change (String ?c ?r +:+ rest) with (String c (r +:+ rest)). rewrite !literal_not by done. unfold number_at.
    rewrite bool_decide_eq_true_2 by done. rewrite scan_print by done. done.
Qed.

Lemma value_int fuel z rest :
  String.length (print_nat (Z.abs_N z)) ≤ MAX_STR_DIGITS → stops rest = true → fuel ≠ 0 →
  value fuel (print_int z +:+ rest) = Ok (JInt z, rest).
Proof.
  intros Hl Hr Hf. destruct fuel as [|fuel]; [done|].
  rewrite <- (scan_int z rest Hl Hr). destruct (print_int_head z) as (c & r & E & Hc). rewrite E.
  change (String c r +:+ rest) with (String c (r +:+ rest)). cbn [parse_value].
  destruct Hc as [Hc|Hc].
  - apply digit_opens in Hc as (_ & H1 & H2 & H3 & _). by rewrite !bool_decide_eq_false_2 by done.
  - subst c. by rewrite !bool_decide_eq_false_2 by done.
Qed.

Definition reads_back (v : json) : Prop := plain v → ∀ fuel rest,
  String.length (dumps v) ≤ fuel → stops rest = true → value fuel (dumps v +:+ rest) = Ok (v, rest).

Lemma elements_back l fuel rest :
  Forall reads_back l → l ≠ [] → foldr (λ x P, plain x ∧ P) True l →
  String.length (join_with sep (List.map dumps l)) < fuel →
  elements fuel (join_with sep (List.map dumps l) +:+ String "]"%char rest) = Ok (l, rest).
Proof.
  revert fuel. induction l as [|v l IH]; intros fuel Hl Hn Hp Hf; [done|].
  apply Forall_cons in Hl as [Hv Hl]. destruct Hp as [Hpv Hp]. destruct fuel as [|fuel]; [lia|].
  cbn [parse_elements List.map join_with] in Hf |- *. destruct l as [|w l].
  - cbn [List.map] in *. rewrite Hv by (done || lia). cbn [obind fst snd].
    rewrite skip_char by done. by rewrite bool_decide_eq_true_2.
  - set (tail := join_with sep (List.map dumps (w :: l))) in *. cbn [List.map] in Hf |- *. fold tail in Hf |- *.
    change (match List.map dumps (w :: l) with [] => _ | _ => _ end) with
      (dumps v +:+ sep +:+ tail) in *.
    rewrite !text_app_assoc. rewrite !text_length_app in Hf. change (String.length ",") with 1 in Hf.
    rewrite Hv by (done || lia). change ("," +:+ ?x) with (String ","%char x). cbn [obind fst snd].
    rewrite skip_char by done. rewrite bool_decide_eq_false_2, bool_decide_eq_true_2 by done.
    rewrite skip_spaces.
    assert (skip_ws (tail +:+ String "]"%char rest) = tail +:+ String "]"%char rest) as ->.
    { destruct Hp as [Hpw _]. destruct (dumps_opens esc sp _ w Hpw) as (c & r & E & Hc). unfold tail.
      cbn [List.map join_with]. rewrite E. destruct (List.map dumps l); by apply skip_char, Hc. }
    rewrite IH by (done || lia). done.
Qed.

Definition dump_member (kv : string * json) : string := let (k, x) := kv in print_string esc k +:+ ":" +:+ sp +:+ dumps x.

Lemma member_length k v : String.length (dumps v) + 2 ≤ String.length (dump_member (k, v)).
Proof. cbn [dump_member]. rewrite !text_length_app. cbn. lia. Qed.

(** One member: the key, then whatever the rest of the loop makes of the value. *)
Lemma member_step fuel k v text :
  reads_back v → okstr k → plain v → String.length (dumps v) ≤ fuel → stops text = true →
  members (S fuel) (dump_member (k, v) +:+ text) =
    match skip_ws text with
    | String c3 r3 =>
        if bool_decide (c3 = "}"%char) then Ok ([(k, v)], r3)
        else if bool_decide (c3 = ","%char)
        then obind (members fuel (skip_ws r3)) (λ y, Ok ((k, v) :: y.1, y.2))
        else Raise JSONDecodeError
    | EmptyString => Raise JSONDecodeError
    end.
Proof.
  intros Hv Hk Hp Hf Ht. cbn [dump_member parse_members]. rewrite !text_app_assoc. unfold print_string.
  change (String quote_mark ?r +:+ ?u) with (String quote_mark (r +:+ u)). cbv iota.
  rewrite bool_decide_eq_true_2 by done. rewrite text_app_assoc.
  change (String quote_mark EmptyString +:+ ?u) with (String quote_mark u). rewrite scan_esc by done.
  change (":" +:+ ?u) with (String ":"%char u). rewrite skip_char by done. rewrite bool_decide_eq_true_2 by done.
  rewrite skip_spaces. destruct (dumps_opens esc sp _ v Hp) as (c & r & E & Hc & _).
  assert (skip_ws (dumps v +:+ text) = dumps v +:+ text) as -> by (rewrite E; by apply skip_char).
  by rewrite Hv by done.
Qed.

Lemma members_back o fuel rest :
  Forall (λ kx, reads_back kx.2) o → o ≠ [] → foldr (λ kx P, okstr kx.1 ∧ plain kx.2 ∧ P) True o →
  String.length (join_with sep (List.map dump_member o)) < fuel →
  members fuel (join_with sep (List.map dump_member o) +:+ String "}"%char rest) = Ok (o, rest).
Proof.
  revert fuel. induction o as [|[k v] o IH]; intros fuel Hl Hn Hp Hf; [done|].
  apply Forall_cons in Hl as [Hv Hl]. destruct Hp as (Hk & Hpv & Hp). destruct fuel as [|fuel]; [lia|].
  pose proof (member_length k v) as Hml. cbn [List.map join_with] in Hf |- *. destruct o as [|[k2 w] o].
  - cbn [List.map] in *. rewrite member_step by (done || lia). rewrite skip_char by done.
    by rewrite bool_decide_eq_true_2.
  - set (tail := join_with sep (List.map dump_member ((k2, w) :: o))) in *. cbn [List.map] in Hf |- *. fold tail in Hf |- *.
    change (match List.map dump_member ((k2, w) :: o) with [] => _ | _ => _ end) with
      (dump_member (k, v) +:+ sep +:+ tail) in *.
    rewrite !text_app_assoc. rewrite !text_length_app in Hf. change (String.length ",") with 1 in Hf.
    rewrite member_step by (done || lia). change ("," +:+ ?x) with (String ","%char x).
    rewrite skip_char by done. rewrite bool_decide_eq_false_2, bool_decide_eq_true_2 by done.
    rewrite skip_spaces.
    assert (skip_ws (tail +:+ String "}"%char rest) = tail +:+ String "}"%char rest) as ->.
    { unfold tail. cbn [List.map join_with]. destruct (List.map dump_member o); reflexivity. }
    rewrite IH by (done || lia). done.
Qed.

Lemma value_string fuel t rest : okstr t → fuel ≠ 0 → value fuel (print_string esc t +:+ rest) = Ok (JStr t, rest).
Proof.
  intros Ht Hf. destruct fuel as [|fuel]; [done|]. unfold print_string.
  change (String quote_mark ?r +:+ ?u) with (String quote_mark (r +:+ u)). cbn [parse_value].
  rewrite bool_decide_eq_true_2 by done. rewrite text_app_assoc.
  change (String quote_mark EmptyString +:+ ?u) with (String quote_mark u). by rewrite scan_esc.
Qed.

Lemma reads_back_all v : reads_back v.
Proof.
  induction v as [|b|z|r t|t|l Hl|o Ho] using json_induction; intros Hp fuel rest Hf Hr; cbn [dumps_sep] in Hf |- *.
  - destruct fuel; [cbn in Hf; lia|destruct rest; reflexivity].
  - destruct fuel; [destruct b; cbn in Hf; lia|destruct b, rest; reflexivity].
  - apply value_int; [done|done|]. destruct (print_int_head z) as (c & r & E & _). rewrite E in Hf. cbn in Hf. lia.
  - done.
  - apply value_string; [done|]. unfold print_string in Hf. cbn in Hf. lia.
  - rewrite !text_length_app in Hf. change (String.length "[") with 1 in Hf. change (String.length "]") with 1 in Hf.
    destruct fuel as [|fuel]; [lia|]. rewrite !text_app_assoc.
    change ("[" +:+ ?x) with (String "["%char x). change ("]" +:+ ?x) with (String "]"%char x).
    cbn [parse_value]. rewrite 2 bool_decide_eq_false_2, bool_decide_eq_true_2 by done.
    destruct l as [|x l]; [done|].
    destruct (dumps_opens esc sp okstr x) as (c & r & E & Hc & Hc1 & Hc2); [apply Hp|].
    pose proof (elements_back (x :: l) fuel rest Hl ltac:(done) Hp ltac:(lia)) as He.
    assert (∃ r', join_with sep (List.map dumps (x :: l)) +:+ String "]"%char rest = String c r') as (r' & Er).
    { cbn [List.map join_with]. rewrite E. destruct (List.map dumps l); by eexists. }
    rewrite Er in He |- *. rewrite skip_char by done. rewrite bool_decide_eq_false_2 by done. by rewrite He.
  - change (List.map _ o) with (List.map dump_member o) in *.
    rewrite !text_length_app in Hf. change (String.length "{") with 1 in Hf. change (String.length "}") with 1 in Hf.
    destruct fuel as [|fuel]; [lia|]. rewrite !text_app_assoc.
    change ("{" +:+ ?x) with (String "{"%char x). change ("}" +:+ ?x) with (String "}"%char x).
    cbn [parse_value]. rewrite bool_decide_eq_false_2, bool_decide_eq_true_2 by done.
    destruct Hp as [Hnd Hp]. destruct o as [|[k x] o]; [done|].
    pose proof (members_back ((k, x) :: o) fuel rest Ho ltac:(done) Hp ltac:(lia)) as He.
    assert (∃ r', join_with sep (List.map dump_member ((k, x) :: o)) +:+ String "}"%char rest = String quote_mark r') as (r' & Er).
    { cbn [List.map join_with]. destruct (List.map dump_member o); by eexists. }
    rewrite Er in He |- *. rewrite skip_char by done. rewrite bool_decide_eq_false_2 by done. rewrite He.
    cbn [obind fst snd]. by rewrite dict_of_nodup.
Qed.

(** [json.loads] reads back what [json.dumps] wrote. *)
Lemma loads_dumps_sep v : plain v → loads to_float (dumps v) = Ok v.
Proof.
  intros Hp. unfold loads. destruct (dumps_opens esc sp _ v Hp) as (c & r & E & Hc & _).
  assert (Text.startswith BOM (dumps v) = false) as ->.
  { rewrite E. apply literal_not. intros Hb. cbn in Hb. subst c.
    assert (∃ c' r', dumps v = String c' r' ∧ (N_of_ascii c' < 128)%N) as (c' & r' & E' & Hlt).
    { clear E. destruct v as [|[]|z|rp tr|t|l|o]; cbn [dumps_sep]; try done; try (by eexists _, _; split; [reflexivity|]).
      destruct (print_int_head z) as (c' & r' & E' & Hd). exists c', r'. split; [done|].
      destruct Hd as [Hd| ->]; [|done]. revert Hd. clear. destruct c' as [[] [] [] [] [] [] [] []]; try done. }
    rewrite E in E'. injection E' as <- _. done. }
  assert (skip_ws (dumps v) = dumps v) as -> by (rewrite E; by apply skip_char).
  pose proof (reads_back_all v Hp (2 * String.length (dumps v) + 2) EmptyString ltac:(lia) eq_refl) as H.
  rewrite Text.app_empty_r in H. by rewrite H.
Qed.

End RoundTrip.

(** [json.loads(json.dumps(v)) == v] *)
Lemma loads_dumps to_float v : plain (λ _, True) v → loads to_float (dumps v) = Ok v.
Proof. apply loads_dumps_sep; [done|]. intros t rest _. apply scan_escape. Qed.

(** ** Fuel *)

Section Fuel.
Variable to_float : string → string * option Z.
Abbreviation value := (parse_value to_float).
Abbreviation elements := (parse_elements to_float).
Abbreviation members := (parse_members to_float).

Abbreviation len := String.length.

Lemma skip_ws_len s : len (skip_ws s) ≤ len s.
Proof. induction s as [|c s IH]; cbn; [done|]. destruct (json_space c); cbn; lia. Qed.
Lemma take_digits_len s : len (take_digits s).2 ≤ len s.
Proof.
  induction s as [|c s IH]; cbn; [done|]. destruct (is_digit c); [|done]. destruct (take_digits s). cbn in *. lia.
Qed.
Lemma frac_part_len s : len (frac_part s).2 ≤ len s.
Proof.
  destruct s as [|c s]; cbn; [done|]. destruct (bool_decide _); [|done].
  pose proof (take_digits_len s). destruct (take_digits s) as [[] ?]; cbn in *; lia.
Qed.
Lemma exp_part_len s : len (exp_part s).2 ≤ len s.
Proof.
  destruct s as [|c s]; cbn; [done|]. destruct (_ || _); [|done].
  destruct s as [|g s]; cbn; [done|]. destruct (_ || _).
  - pose proof (take_digits_len s). destruct (take_digits s) as [[] ?]; cbn in *; lia.
  - pose proof (take_digits_len (String g s)) as H. cbn [take_digits] in *.
    destruct (is_digit g); [destruct (take_digits s) as [? ?]|]; cbn in *; lia.
Qed.
Lemma int_part_len s d r : int_part s = Some (d, r) → len r < len s.
Proof.
  destruct s as [|c s]; cbn; [done|]. destruct (bool_decide _); [intros [= _ <-]; lia|].
  destruct (is_digit c) eqn:E; [|done]. pose proof (take_digits_len s).
  destruct (take_digits s) as [? ?]. intros [= _ <-]. cbn in *. lia.
Qed.
Lemma scan_number_len neg s v r : scan_number to_float neg s = Some (Ok (v, r)) → len r < len s.
Proof.
  unfold scan_number. destruct (int_part s) as [[d r0]|] eqn:E; [|done]. apply int_part_len in E.
  pose proof (frac_part_len r0) as H1. destruct (frac_part r0) as [fr r1].
  pose proof (exp_part_len r1) as H2. destruct (exp_part r1) as [ex r2]. cbn in *.
  destruct (_ && _); [case_match|]; intros [=]; subst; lia.
Qed.
Lemma drop_len n s : n ≤ len s → len (Text.drop n s) = len s - n.
Proof. revert s. induction n as [|n IH]; intros [|c s] H; cbn in *; [done|done|lia|]. apply IH. lia. Qed.
Lemma prefix_len w s : Text.startswith w s = true → len w ≤ len s.
Proof. intros H. rewrite (Text.prefix_drop _ _ H). rewrite text_length_app. lia. Qed.

Lemma scan_literal_len s v r : scan_literal to_float s = Ok (v, r) → len r < len s.
Proof.
  assert (∀ w (x : json) k, w ≠ EmptyString →
    (if Text.startswith w s then Ok (x, Text.drop (len w) s) else k) = Ok (v, r) → len r < len s ∨ k = Ok (v, r)) as Hlit.
  { intros w x k Hw. destruct (Text.startswith w s) eqn:E; [|by right]. intros [= _ <-]. left.
    apply prefix_len in E. rewrite drop_len by done. destruct w; [done|]. cbn in *. lia. }
  unfold scan_literal. cbv zeta.
  do 3 (intros [?|H]%Hlit; [done|revert H|done]).
  destruct (number_at to_float s) as [o|] eqn:En.
  - intros ->. unfold number_at in En. destruct s as [|c s']; [done|].
    destruct (bool_decide _); apply scan_number_len in En; cbn in *; lia.
  - do 3 (intros [?|H]%Hlit; [done|revert H|done]). done.
Qed.

Lemma after_len {A} (f : A → A) o x r : after f o = Some (x, r) → ∃ y, o = Some (y, r).
Proof. intros H. apply fmap_Some in H as ([y r'] & -> & [= _ ->]). by exists y. Qed.

Lemma scan_string_len s t r : scan_string s = Some (t, r) → len r < len s.
Proof.
  enough (∀ n s, len s ≤ n → ∀ t r, scan_string s = Some (t, r) → len r < len s) as H by (by eapply H).
  clear s t r. induction n as [|n IH]; intros [|c s] Hn t r; cbn in Hn; try done; try lia.
  assert (∀ f s', len s' ≤ len s → after f (scan_string s') = Some (t, r) → len r < S (len s)) as Hgo.
  { intros f s' Hs' (y & E)%after_len. apply IH in E; lia. }
  cbn [scan_string len]. destruct (bool_decide _); [intros [= _ <-]; lia|].
  destruct (bool_decide _); [|destruct (_ <? _)%N; [done|by apply Hgo]].
  destruct s as [|e s1]; [done|]. destruct (bool_decide _).
  - destruct s1 as [|d1 [|d2 [|d3 [|d4 s2]]]]; try done. destruct (hex4 _ _ _ _) as [cp|]; [|done].
    assert (after (encode_cp cp) (scan_string s2) = Some (t, r) → len r < S (len (String e (String d1 (String d2 (String d3 (String d4 s2))))))) as Hlone
      by (apply Hgo; cbn; lia).
    destruct (within _ _ _); [|done].
    destruct s2 as [|b2 [|u2 [|e1 [|e2 [|e3 [|e4 s3]]]]]]; try done.
    destruct (_ && _); [|done]. destruct (hex4 _ _ _ _) as [lo|]; [|done].
    destruct (within _ _ lo); [|done]. apply Hgo. cbn. lia.
  - destruct (simple_escape e); [|done]. apply Hgo. cbn. lia.
Qed.

(** What is left is shorter. *)
Lemma parse_len fuel :
  (∀ s v r, value fuel s = Ok (v, r) → len r < len s) ∧
  (∀ s l r, elements fuel s = Ok (l, r) → len r < len s) ∧
  (∀ s o r, members fuel s = Ok (o, r) → len r < len s).
Proof.
  induction fuel as [|fuel (IHv & IHe & IHm)]; [done|]. split_and!; intros s x r; cbn [parse_value parse_elements parse_members].
  - destruct s as [|c s]; [done|]. cbn [len]. pose proof (skip_ws_len s) as Hws.
    destruct (bool_decide _).
    { destruct (scan_string s) as [[t r']|] eqn:E; [|done]. apply scan_string_len in E. intros [= _ <-]. lia. }
    destruct (bool_decide _).
    { destruct (skip_ws s) as [|c1 s1]; [done|]. cbn [len] in Hws. destruct (bool_decide _); [intros [= _ <-]; lia|].
      destruct (members fuel _) as [[o r']|] eqn:E; [|done]. apply IHm in E. intros [= _ <-]. cbn in *. lia. }
    destruct (bool_decide _).
    { destruct (skip_ws s) as [|c1 s1]; [done|]. cbn [len] in Hws. destruct (bool_decide _); [intros [= _ <-]; lia|].
      destruct (elements fuel _) as [[o r']|] eqn:E; [|done]. apply IHe in E. intros [= _ <-]. cbn in *. lia. }
    intros H%scan_literal_len. done.
  - destruct (value fuel s) as [[v r1]|] eqn:E; [|done]. apply IHv in E. cbn [obind fst snd].
    pose proof (skip_ws_len r1) as H1. destruct (skip_ws r1) as [|c r2]; [done|]. cbn [len] in H1.
    destruct (bool_decide _); [intros [= _ <-]; lia|]. destruct (bool_decide _); [|done].
    pose proof (skip_ws_len r2) as H2. destruct (elements fuel _) as [[l r3]|] eqn:E2; [|done]. apply IHe in E2.
    intros [= _ <-]. cbn. lia.
  - destruct s as [|q s]; [done|]. cbn [len]. destruct (bool_decide _); [|done].
    destruct (scan_string s) as [[k r1]|] eqn:E; [|done]. apply scan_string_len in E.
    pose proof (skip_ws_len r1) as H1. destruct (skip_ws r1) as [|c r2]; [done|]. cbn [len] in H1.
    destruct (bool_decide _); [|done]. pose proof (skip_ws_len r2) as H2.
    destruct (value fuel _) as [[v r3]|] eqn:Ev; [|done]. apply IHv in Ev. cbn [obind fst snd].
    pose proof (skip_ws_len r3) as H3. destruct (skip_ws r3) as [|c4 r4]; [done|]. cbn [len] in H3.
    destruct (bool_decide _); [intros [= _ <-]; lia|]. destruct (bool_decide _); [|done].
    pose proof (skip_ws_len r4) as H4. destruct (members fuel _) as [[l r5]|] eqn:E2; [|done]. apply IHm in E2.
    intros [= _ <-]. cbn. lia.
Qed.

(** From twice the length on, the fuel does not matter. *)
Lemma parse_fuel f f' :
  (∀ s, 2 * len s + 1 ≤ f → 2 * len s + 1 ≤ f' → value f s = value f' s) ∧
  (∀ s, 2 * len s + 2 ≤ f → 2 * len s + 2 ≤ f' → elements f s = elements f' s) ∧
  (∀ s, 2 * len s + 2 ≤ f → 2 * len s + 2 ≤ f' → members f s = members f' s).
Proof.
  revert f'. induction f as [|f IH]; [intros; split_and!; lia|]. intros [|f']; [split_and!; lia|].
  destruct (IH f') as (IHv & IHe & IHm). split_and!; intros s H H'; cbn [parse_value parse_elements parse_members].
  - destruct s as [|c s]; [done|]. cbn [len] in *. pose proof (skip_ws_len s) as Hws.
    destruct (bool_decide _); [done|]. destruct (bool_decide _); [|destruct (bool_decide _); [|done]];
      (destruct (skip_ws s) as [|c1 s1]; [done|]); cbn [len] in Hws;
      [rewrite IHm by (cbn; lia)|rewrite IHe by (cbn; lia)]; done.
  - rewrite (IHv s) by lia. destruct (value f' s) as [[v r1]|] eqn:E; [|done]. apply parse_len in E. cbn [obind fst snd].
    pose proof (skip_ws_len r1) as H1. destruct (skip_ws r1) as [|c r2]; [done|]. cbn [len] in H1.
    pose proof (skip_ws_len r2) as H2. by rewrite IHe by lia.
  - destruct s as [|q s]; [done|]. cbn [len] in *. destruct (bool_decide _); [|done].
    destruct (scan_string s) as [[k r1]|] eqn:E; [|done]. apply scan_string_len in E.
    pose proof (skip_ws_len r1) as H1. destruct (skip_ws r1) as [|c r2]; [done|]. cbn [len] in H1.
    destruct (bool_decide _); [|done]. pose proof (skip_ws_len r2) as H2. rewrite IHv by lia.
    destruct (value f' _) as [[v r3]|] eqn:Ev; [|done]. apply parse_len in Ev. cbn [obind fst snd].
    pose proof (skip_ws_len r3) as H3. destruct (skip_ws r3) as [|c4 r4]; [done|]. cbn [len] in H3.
    pose proof (skip_ws_len r4) as H4. by rewrite IHm by lia.
Qed.
End Fuel.
