(* ===== verification/Desk.v ===== *)
(** The daemon as its request handlers see it: the tables and files of [tower], the wall
    clock, the random tokens of [secrets.token_hex], [docker exec] with the answers it will
    give and the commands it was given (src/src/agenttower/logs/docker_exec.py), and the
    parts of the host's file system that are only asked about.

    Connections are opened per call: [with_conn] connects, runs and closes, which rolls back
    what was left open.  The per-key locks of agents/mutex.py and logs/mutex.py have no state
    of their own here: what other threads commit between our statements is in the session. *)

From S2P Require Import Prelude Errors Agents Permissions Store AuditWriter Json Session Tables LogDao Tower Validation.

Record DockerExecResult := mkExec {
  returncode : Z; stdout : string; stderr : string; failure_kind : option string
}.

(** [os.path.realpath], [os.path.isdir] and [os.access(_, W_OK)]. *)
Record HostFs := mkFs {
  realpath : string → outcome string; isdir : string → bool; writable : string → bool
}.

Record desk := mkDesk {
  dk_tower : tower;
  dk_clock : string * list string;
  dk_tokens : list string;
  dk_docker : list (option DockerExecResult);   (* [None]: the process dies during the call *)
  dk_argv : list (list string);
  dk_fs : HostFs;
  dk_inodes : list string                       (* of the files that will be created *)
}.

Definition set_dk_tower w s := mkDesk w (dk_clock s) (dk_tokens s) (dk_docker s) (dk_argv s) (dk_fs s) (dk_inodes s).
Definition set_dk_clock c s := mkDesk (dk_tower s) c (dk_tokens s) (dk_docker s) (dk_argv s) (dk_fs s) (dk_inodes s).
Definition set_dk_tokens t s := mkDesk (dk_tower s) (dk_clock s) t (dk_docker s) (dk_argv s) (dk_fs s) (dk_inodes s).
Definition set_dk_docker a argv s := mkDesk (dk_tower s) (dk_clock s) (dk_tokens s) a argv (dk_fs s) (dk_inodes s).

Definition set_dk_inodes i s := mkDesk (dk_tower s) (dk_clock s) (dk_tokens s) (dk_docker s) (dk_argv s)
  (dk_fs s) i.

Definition at_tower {A} (m : M tower A) : M desk A := zoom dk_tower set_dk_tower m.
Definition at_sql {A} (m : dao A) : M desk A := at_tower (on_sql m).

(** [_now_iso()]: the clock gives its readings in turn. *)
Definition clock_now : M desk string := λ s,
  match dk_clock s with
  | (t, []) => (Ok t, s)
  | (t, t' :: rest) => (Ok t, set_dk_clock (t', rest) s)
  end.

(** [secrets.token_hex(6)] *)
Definition token_hex : M desk string := λ s,
  (Ok (default "000000000000" (head (dk_tokens s))), set_dk_tokens (tail (dk_tokens s)) s).

(** [docker_exec_runner.run(argv)]; once its answers are used up every call succeeds without
    output. *)
Definition docker_run (argv : list string) : M desk DockerExecResult := λ s,
  let calls := dk_argv s ++ [argv] in
  match dk_docker s with
  | [] => (Ok (mkExec 0 EmptyString EmptyString None), set_dk_docker [] calls s)
  | Some r :: rest => (Ok r, set_dk_docker rest calls s)
  | None :: rest => (Raise SystemExit, set_dk_docker rest calls s)
  end.

(** [conn = connection_factory(); try: m; finally: conn.close()] *)
Definition with_conn {A} (m : M desk A) : M desk A :=
  _ ← at_sql Sql.statement;
  lift (λ s, let (o, s') := m s in (o, (at_sql Sql.close s').2)).

(** [BEGIN IMMEDIATE; try: m; COMMIT; except: ROLLBACK; raise] with a body of the desk. *)
Definition desk_transaction {A} (m : M desk A) : M desk A :=
  _ ← at_sql Sql.begin_immediate;
  except (a ← m; _ ← at_sql Sql.commit; mret a) (λ e, _ ← at_sql Sql.rollback; throw e).

Definition ofail {S A} (o : outcome A) : M S A :=
  match o with Ok a => mret a | Raise e => throw e end.

Definition is_registration_error (e : exn) : bool :=
  match e with RegistrationError _ => true | _ => false end.

(** What the audit of an attachment change records when the caller appends it later. *)
Record DeferredAudit := mkDeferred {
  da_attachment_id : string; da_agent_id : string; da_prior_status : option string;
  da_new_status : string; da_prior_path : option string; da_new_path : string;
  da_prior_pipe_target : option string; da_source : string; da_peer_uid : Z
}.

Definition append_deferred (d : DeferredAudit) : M tower unit :=
  append_log_attachment_change (da_attachment_id d) (da_agent_id d) (da_prior_status d)
    (da_new_status d) (da_prior_path d) (da_new_path d) (da_prior_pipe_target d) (da_source d)
    (da_peer_uid d).

(** The answer of an attach. *)
Record AttachResult := mkAttached {
  ar_agent_id : string; ar_attachment_id : string; ar_log_path : string; ar_source : string;
  ar_byte_offset : Z; ar_line_offset : Z; ar_attached_at : string; ar_last_status_at : string;
  ar_is_new : bool; ar_prior_status : option string
}.

(** The container fields an attach needs. *)
Record ContainerInfo := mkContainerInfo { ci_mounts : list Mount; ci_bench_user : string }.

(** What registration asks of the log service: to attach inside its own transaction. *)
Record LogAttacher := mkAttacher {
  attach_in_tx : params → AgentRecord → ContainerInfo → Z → M desk (AttachResult * option DeferredAudit)
}.
