(* ===== verification/AgentsService.v ===== *)
(** The service behind the agent methods of the socket: registration, listing, and the
    updates of role, label and capability (src/src/agenttower/agents/service.py,
    agents/audit.py).

    Every request is one [BEGIN IMMEDIATE] transaction; the audit line follows the commit
    and its failure is logged and forgotten. *)

From S2P Require Import Prelude Errors Agents Permissions Store AuditWriter Json Session Tables LogDao Tower RegistryDao Validation Desk.

Local Open Scope Z_scope.

Definition AGENT_ID_RETRY_LIMIT : nat := 5.
Definition PANE_FIELD_MAX_BYTES : nat := Z.to_nat 4096.

(** [generate_agent_id] *)
Definition generate_agent_id : M desk string := t ← token_hex; mret ("agt_" +:+ t).

(** ** Audit *)

(** [append_role_change] *)
Definition append_role_change (id : string) (prior : option string) (new_role : string)
    (confirm : bool) (peer_uid : Z) : M tower unit :=
  append_line (L_role_change id prior new_role confirm peer_uid).

Definition exn_name (e : exn) : string :=
  match e with
  | PyError n => n
  | OperationalError _ => "OperationalError"
  | IntegrityError => "IntegrityError"
  | _ => "Exception"
  end.

(** [_safe_append_audit] *)
Definition safe_append_audit (method id : string) (prior : option string) (new_role : string)
    (confirm : bool) (peer_uid : Z) : M desk unit :=
  except (at_tower (append_role_change id prior new_role confirm peer_uid))
    (λ e, at_tower (emit_always (LC_audit_failed method id (exn_name e)))).

(** ** The wire form of a pane key *)

Definition sanitize_pane_field (t : string) : string := (sanitize_text t PANE_FIELD_MAX_BYTES).1.

Definition PANE_KEY_FIELDS : list string :=
  ["container_id"; "tmux_socket_path"; "tmux_session_name"; "tmux_window_index";
   "tmux_pane_index"; "tmux_pane_id"].

Definition malformed {A} (o : outcome A) : outcome A :=
  match o with
  | Raise (PyError n) =>
      if bool_decide (n ∈ ["TypeError"; "ValueError"]%string) then reject "tmux_pane_malformed" else o
  | _ => o
  end.

Section Service.
Variable repr_of : json → string.       (* [str()] of an array or object *)
Variable schema_version : Z.            (* the daemon's *)
Variable log_service : option LogAttacher.

(** [_coerce_pane_key] *)
Definition coerce_pane_key (value : json) : outcome pane_key :=
  match value with
  | JObj o =>
      if forallb (λ k, has_key k o) PANE_KEY_FIELDS then
        let text k := sanitize_pane_field (py_str repr_of (default JNull (json_get k o))) in
        malformed
          (obind (py_int (default JNull (json_get "tmux_window_index" o))) (λ w,
           obind (py_int (default JNull (json_get "tmux_pane_index" o))) (λ p,
             Ok (PaneCompositeKey (text "container_id"%string) (text "tmux_socket_path"%string)
                   (text "tmux_session_name"%string) w p (text "tmux_pane_id"%string)))))
      else reject "bad_request"
  | _ => reject "bad_request"
  end.

(** ** Joined rows *)

Record AgentFullRecord := mkFull {
  fr_agent : AgentRecord; fr_container_name : option string; fr_container_user : option string;
  fr_pane_pid : option Z; fr_cwd : option string
}.

(** The join of an agent with its container and its pane. *)
Definition full_record (d : tower_db) (a : AgentRecord) : AgentFullRecord :=
  let c := containers d !! container_id a in
  let p := panes d !! agent_composite_key a in
  mkFull a
    (match c with Some c => Some (cr_name c) | None => pr_container_name <$> p end)
    (match c ≫= cr_config_user with Some u => Some u | None => pr_container_user <$> p end)
    (pr_pane_pid <$> p) (pr_pane_current_path <$> p).

(** [_select_agent_full_by_id] *)
Definition select_agent_full_by_id (id : string) : dao (option AgentFullRecord) :=
  Sql.read (λ d, full_record d <$> find_agent id d).

(** [_list_agents_full] *)
Definition list_agents_full (roles : list string) (container : option string) (active_only : bool)
    (parent : option string) : dao (list AgentFullRecord) :=
  r ← Sql.read (λ d,
        match list_agents (agents d) roles container active_only parent with
        | Ok l => Ok (full_record d <$> l)
        | Raise e => Raise e
        end);
  ofail r.

(** ** Registration *)

Definition REGISTER_AGENT_ALLOWED_KEYS : list string :=
  ["schema_version"; "container_id"; "pane_composite_key"; "role"; "capability"; "label";
   "project_path"; "parent_agent_id"; "attach_log"].

(** What a request supplies; [None] is [_UNSET], and a parent may be an explicit null. *)
Record Registration := mkRegistration {
  rg_key : pane_key; rg_role : option string; rg_capability : option string;
  rg_label : option string; rg_project_path : option string; rg_parent : option (option string)
}.

(** Validate a field that is present. *)
Definition present {A} (check : json → outcome A) (v : option json) : outcome (option A) :=
  match v with
  | None => Ok None
  | Some j => obind (check j) (λ a, Ok (Some a))
  end.

(** Steps 0 to 7 of [register_agent]. *)
Definition parse_registration (ps : params) : outcome Registration :=
  obind (check_unknown_keys ps REGISTER_AGENT_ALLOWED_KEYS) (λ _,
  obind (check_schema_version ps schema_version) (λ _,
  obind (match json_get "container_id" ps with
         | Some (JStr c) => if bool_decide (c = EmptyString) then reject "value_out_of_set" else Ok c
         | _ => reject "bad_request"
         end) (λ container,
  obind (coerce_pane_key (default JNull (json_get "pane_composite_key" ps))) (λ key,
  if negb (bool_decide (key_container key = container)) then reject "value_out_of_set" else
  obind (present validate_role (json_get "role" ps)) (λ role_in,
  obind (present validate_capability (json_get "capability" ps)) (λ capability_in,
  obind (present validate_label (json_get "label" ps)) (λ label_in,
  obind (present (λ j, match j with JStr EmptyString => Ok EmptyString | _ => validate_project_path j end)
           (json_get "project_path" ps)) (λ project_path_in,
  obind (present (λ j, match j with
                       | JNull => Ok None
                       | _ => obind (validate_parent_agent_id_shape j) (λ p, Ok (Some p))
                       end) (json_get "parent_agent_id" ps)) (λ parent_in,
  if bool_decide (role_in = Some "master"%string) then reject "master_via_register_self_rejected"
  else if bool_decide (role_in = Some "swarm"%string) && negb (bool_decide (is_Some (mjoin parent_in)))
  then reject "swarm_parent_required"
  else if bool_decide (is_Some (mjoin parent_in)) && bool_decide (is_Some role_in) &&
          negb (bool_decide (role_in = Some "swarm"%string))
  then reject "parent_role_mismatch"
  else Ok (mkRegistration key role_in capability_in label_in project_path_in parent_in)))))))))).

(** [_validate_bound_pane_is_active] *)
Definition validate_bound_pane_is_active (key : pane_key) : dao unit :=
  state ← select_active_for_bound_pane key;
  if bool_decide (state = Some (true, true)) then mret tt
  else throw (RegistrationError "pane_unknown_to_daemon").

(** [_validate_parent_for_swarm] *)
Definition validate_parent_for_swarm (parent : string) : dao unit :=
  _ ← ofail (validate_agent_id_shape parent);
  r ← select_agent parent;
  match r with
  | None => throw (RegistrationError "parent_not_found")
  | Some p =>
      if negb (active p) then throw (RegistrationError "parent_inactive")
      else if negb (bool_decide (role p = "slave"%string))
      then throw (RegistrationError "parent_role_invalid")
      else mret tt
  end.

(** [SAVEPOINT]: [m] with its writes undone when it raises; the handler runs after
    [ROLLBACK TO] and [RELEASE]. *)
Definition savepoint {A} (m : dao A) (handler : exn → dao A) : dao A :=
  _ ← Sql.statement;
  before ← lift (λ s, (Ok (Sql.view s), s));
  except (a ← m; _ ← Sql.statement; mret a)
    (λ e, _ ← Sql.statement;
          _ ← modify (Sql.set_view before);
          _ ← Sql.statement;
          handler e).

(** [_insert_with_savepoint_retry]: at most five fresh ids. *)
Fixpoint insert_with_savepoint_retry (attempts : nat) (key : pane_key)
    (role capability label project_path : string) (parent : option string) (perms now : string)
  : M desk string :=
  match attempts with
  | O => throw (RegistrationError "internal_error")
  | S n =>
      id ← generate_agent_id;
      done_ ← at_sql (savepoint
        (_ ← insert_agent id key role capability label project_path parent perms now now true;
         mret true)
        (λ e, if bool_decide (e = PrimaryKeyViolation) then mret false
              else throw (RegistrationError "internal_error")));
      if (done_ : bool) then mret id
      else insert_with_savepoint_retry n key role capability label project_path parent perms now
  end.

(** The agent's new row: the creation path. *)
Definition create_agent (r : Registration) (now : string)
  : M desk (string * string * option (option string * string)) :=
  let role := default "unknown" (rg_role r) in
  let parent := mjoin (rg_parent r) in
  if bool_decide (is_Some parent) && negb (bool_decide (role = "swarm"%string))
  then throw (RegistrationError "parent_role_mismatch")
  else
    _ ← match parent with Some p => at_sql (validate_parent_for_swarm p) | None => mret tt end;
    perms ← ofail (serialize_effective_permissions role);
    id ← insert_with_savepoint_retry AGENT_ID_RETRY_LIMIT (rg_key r) role
           (default "unknown" (rg_capability r)) (default EmptyString (rg_label r))
           (default EmptyString (rg_project_path r)) parent perms now;
    mret (id, "created"%string, Some (None, role)).

(** The agent's updated row: the re-registration path. *)
Definition update_agent (existing : AgentRecord) (r : Registration) (now : string)
  : M desk (string * string * option (option string * string)) :=
  if negb (bool_decide (default (parent_agent_id existing) (rg_parent r) = parent_agent_id existing))
  then throw (RegistrationError "parent_immutable")
  else
    let resolved_role := default (role existing) (rg_role r) in
    let resolved_parent := default (parent_agent_id existing) (rg_parent r) in
    if bool_decide (is_Some (rg_role r)) && bool_decide (resolved_role = "master"%string)
    then throw (RegistrationError "master_via_register_self_rejected")
    else if bool_decide (is_Some resolved_parent) && negb (bool_decide (resolved_role = "swarm"%string))
    then throw (RegistrationError "parent_role_mismatch")
    else
      perms ← ofail (serialize_effective_permissions resolved_role);
      _ ← at_sql (update_agent_mutable_fields (agent_id existing) resolved_role
            (default (capability existing) (rg_capability r)) (default (label existing) (rg_label r))
            (default (project_path existing) (rg_project_path r)) perms now true);
      mret (agent_id existing,
            if active existing then "updated"%string else "reactivated"%string,
            if bool_decide (resolved_role = role existing) then None
            else Some (Some (role existing), resolved_role)).

(** [_select_active_container_for_attach] *)
Definition select_active_container_for_attach (id : string) : dao ContainerInfo :=
  c ← Sql.read (λ d, containers d !! id);
  match c with
  | Some c =>
      if cr_active c
      then mret (mkContainerInfo (cr_mounts c) (normalize_bench_user_for_exec (cr_config_user c)))
      else throw (RegistrationError "agent_inactive")
  | None => throw (RegistrationError "agent_inactive")
  end.

(** The [attach_log] envelope of a registration. *)
Definition attach_for (envelope client_schema : option json) (peer_uid : Z) (final : option AgentFullRecord)
  : M desk (option (AttachResult * option DeferredAudit)) :=
  match envelope with
  | None | Some JNull => mret None
  | Some (JObj env) =>
      match log_service with
      | None => throw (RegistrationError "internal_error")
      | Some logs =>
          match final with
          | None => throw (PyError "AssertionError")
          | Some f =>
              info ← at_sql (select_active_container_for_attach (container_id (fr_agent f)));
              r ← attach_in_tx logs
                    (("agent_id"%string, JStr (agent_id (fr_agent f))) ::
                     match json_get "log_path" env with
                     | Some p => [("log_path"%string, p)] | None => [] end ++
                     match client_schema with
                     | Some JNull | None => [] | Some v => [("schema_version"%string, v)] end)
                    (fr_agent f) info peer_uid;
              mret (Some r)
          end
      end
  | Some _ => throw (RegistrationError "bad_request")
  end.

Record RegisterOutcome := mkRegistered {
  ro_agent : AgentFullRecord; ro_created_or_reactivated : string; ro_attach_log : option AttachResult
}.

(** The audit lines of a registration, after its commit. *)
Definition append_registration_audit (id : string) (change : option (option string * string)) (uid : Z)
    (f : AgentFullRecord) (att : option (AttachResult * option DeferredAudit)) : M desk unit :=
  _ ← match change with
      | Some (prior, new_role) => safe_append_audit "register_agent" id prior new_role false uid
      | None => mret tt
      end;
  match att with
  | Some (_, Some d) =>
      except (at_tower (append_deferred d))
        (λ _, at_tower (emit_always
           (LC_audit_failed "register_agent.attach_log" (agent_id (fr_agent f)) EmptyString)))
  | _ => mret tt
  end.

(** [_register_agent_locked] *)
Definition register_agent_locked (r : Registration) (peer_uid : Z) (envelope client_schema : option json)
  : M desk RegisterOutcome :=
  with_conn
    (now ← clock_now;
     res ← desk_transaction
       (_ ← at_sql (validate_bound_pane_is_active (rg_key r));
        existing ← at_sql (select_agent_by_pane_key (rg_key r));
        how ← match existing with
              | None => create_agent r now
              | Some e => update_agent e r now
              end;
        final ← at_sql (select_agent_full_by_id how.1.1);
        att ← attach_for envelope client_schema peer_uid final;
        mret (how, final, att));
     let '(id, kind, change, final, att) := res in
     match final with
     | None => throw (PyError "AssertionError")
     | Some f =>
         _ ← append_registration_audit id change peer_uid f att;
         mret (mkRegistered f kind (fst <$> att))
     end).

Definition register_agent (ps : params) (peer_uid : Z) : M desk RegisterOutcome :=
  r ← ofail (parse_registration ps);
  register_agent_locked r peer_uid (json_get "attach_log" ps) (json_get "schema_version" ps).

(** ** Listing *)

Definition LIST_AGENTS_ALLOWED_KEYS : list string :=
  ["schema_version"; "role"; "container_id"; "active_only"; "parent_agent_id"].

Record AgentFilter := mkAgentFilter {
  af_roles : option (list string); af_container_id : option string; af_active_only : bool;
  af_parent : option string
}.

Fixpoint validate_roles (l : list json) : outcome (list string) :=
  match l with
  | [] => Ok []
  | j :: rest => obind (validate_role j) (λ r, obind (validate_roles rest) (λ rs, Ok (r :: rs)))
  end.

Definition nullable {A} (check : json → outcome A) (v : option json) : outcome (option A) :=
  match v with None | Some JNull => Ok None | Some j => obind (check j) (λ a, Ok (Some a)) end.

Definition parse_agent_filter (ps : params) : outcome AgentFilter :=
  obind (check_schema_version ps schema_version) (λ _,
  if negb (forallb (λ kv, bool_decide (kv.1 ∈ LIST_AGENTS_ALLOWED_KEYS)) ps) then reject "unknown_filter" else
  obind (nullable (λ j, match j with
                        | JStr _ => obind (validate_role j) (λ r, Ok [r])
                        | JArr l => validate_roles l
                        | _ => reject "value_out_of_set"
                        end) (json_get "role" ps)) (λ roles,
  obind (nullable validate_container_id_filter (json_get "container_id" ps)) (λ container,
  obind (match default (JBool false) (json_get "active_only" ps) with
         | JBool b => Ok b
         | _ => reject "value_out_of_set"
         end) (λ active_only,
  obind (nullable validate_parent_agent_id_shape (json_get "parent_agent_id" ps)) (λ parent,
    Ok (mkAgentFilter roles container active_only parent)))))).

(** [AgentService.list_agents] *)
Definition service_list_agents (ps : params) : M desk (AgentFilter * list AgentFullRecord) :=
  f ← ofail (parse_agent_filter ps);
  rows ← with_conn (at_sql (list_agents_full (default [] (af_roles f)) (af_container_id f)
                              (af_active_only f) (af_parent f)));
  mret (f, rows).

(** ** Updates *)

Definition SET_ROLE_ALLOWED_KEYS : list string := ["schema_version"; "agent_id"; "role"; "confirm"].
Definition SET_LABEL_ALLOWED_KEYS : list string := ["schema_version"; "agent_id"; "label"].
Definition SET_CAPABILITY_ALLOWED_KEYS : list string := ["schema_version"; "agent_id"; "capability"].

Record SetResult := mkSet {
  sr_agent_id : string; sr_field : string; sr_prior_value : string; sr_new_value : string;
  sr_effective_permissions : option string; sr_audit_appended : bool
}.

(** The gates every update starts with. *)
Definition parse_target (ps : params) (allowed : list string) : outcome string :=
  obind (check_unknown_keys ps allowed) (λ _,
  obind (check_schema_version ps schema_version) (λ _,
  obind (require_string ps "agent_id") validate_agent_id_shape)).

(** [try: m; except RegistrationError: raise; except Exception: ROLLBACK; raise], where [m]
    ends its transaction itself before it refuses. *)
Definition guarded {A} (m : dao A) : dao A :=
  except m (λ e, if is_registration_error e then throw e else _ ← Sql.rollback; throw e).

Definition refuse {A} (code : string) : dao A := _ ← Sql.rollback; throw (RegistrationError code).

Definition parse_set_role (ps : params) : outcome (string * string * bool) :=
  obind (parse_target ps SET_ROLE_ALLOWED_KEYS) (λ id,
  obind (require_string ps "role") (λ new_role,
  obind (validate_role (JStr new_role)) (λ _,
  obind (match default (JBool false) (json_get "confirm" ps) with
         | JBool b => Ok b
         | _ => reject "bad_request"
         end) (λ confirm,
  if bool_decide (new_role = "swarm"%string) then reject "swarm_role_via_set_role_rejected"
  else if bool_decide (new_role = "master"%string) && negb confirm then reject "master_confirm_required"
  else Ok (id, new_role, confirm))))).

(** The transaction of [set_role]: the prior role, and whether the row was written. *)
Definition set_role_tx (id new_role perms : string) : dao (AgentRecord * bool) :=
  _ ← Sql.begin_immediate;
  guarded
    (state ← select_active_for_role_and_container id;
     match state with
     | None => refuse "agent_not_found"
     | Some (agent_active, container_active) =>
         if negb agent_active then refuse "agent_inactive"
         else
           fresh ← select_agent id;
           match fresh with
           | None => throw (PyError "AssertionError")
           | Some fresh =>
               if bool_decide (new_role = "master"%string) &&
                  negb (bool_decide (container_active = Some true))
               then refuse "agent_inactive"
               else if bool_decide (role fresh = new_role)
               then _ ← Sql.commit; mret (fresh, false)
               else
                 _ ← update_agent_role id new_role perms;
                 _ ← Sql.commit;
                 mret (fresh, true)
           end
     end).

Definition set_role (ps : params) (peer_uid : Z) : M desk SetResult :=
  req ← ofail (parse_set_role ps);
  let '(id, new_role, confirm) := req in
  with_conn
    (perms ← ofail (serialize_effective_permissions new_role);
     res ← at_sql (set_role_tx id new_role perms);
     let '(fresh, changed) := (res : AgentRecord * bool) in
     if (changed : bool) then
       _ ← safe_append_audit "set_role" id (Some (role fresh)) new_role confirm peer_uid;
       mret (mkSet id "role" (role fresh) new_role (Some perms) true)
     else mret (mkSet id "role" (role fresh) new_role (Some (effective_permissions fresh)) false)).

(** The transaction of [set_label] and [set_capability]. *)
Definition set_field_tx (id new_value : string) (get_ : AgentRecord → string) (put_ : dao unit)
  : dao string :=
  _ ← Sql.begin_immediate;
  guarded
    (fresh ← select_agent id;
     match fresh with
     | None => refuse "agent_not_found"
     | Some fresh =>
         if negb (active fresh) then refuse "agent_inactive"
         else if bool_decide (get_ fresh = new_value)
         then _ ← Sql.commit; mret (get_ fresh)
         else _ ← put_; _ ← Sql.commit; mret (get_ fresh)
     end).

Definition set_label (ps : params) : M desk SetResult :=
  id ← ofail (parse_target ps SET_LABEL_ALLOWED_KEYS);
  new_label ← ofail (match json_get "label" ps with
                     | None => reject "bad_request"
                     | Some j => validate_label j
                     end);
  with_conn
    (prior ← at_sql (set_field_tx id new_label label (update_agent_label id new_label));
     mret (mkSet id "label" prior new_label None false)).

Definition set_capability (ps : params) : M desk SetResult :=
  id ← ofail (parse_target ps SET_CAPABILITY_ALLOWED_KEYS);
  new_capability ← ofail (match json_get "capability" ps with
                          | None => reject "bad_request"
                          | Some j => validate_capability j
                          end);
  with_conn
    (prior ← at_sql (set_field_tx id new_capability capability
                       (update_agent_capability id new_capability));
     mret (mkSet id "capability" prior new_capability None false)).
End Service.
