(* ===== verification/InTx.v ===== *)
(** Reasoning inside a transaction.  [inside d m Q]: started in an open transaction that has
    made the database [d], [m] leaves the transaction open, what is committed alone, and the
    observation [obs] unchanged; and if it returns [a], having made the database [d'], then
    [Q a d'].  Nothing is asked of a raise: its writes will be rolled back.  Whatever fails
    in between is covered, because the engine's answers are part of the state. *)

From S2P Require Import Prelude Errors Agents Permissions Store AuditWriter Json Session Tables LogDao Tower Validation Desk.

Section Inside.
Context {S D K : Type} (ses : S → session D) (obs : S → K) (R : relation D).

Definition inside {A} (d : D) (m : M S A) (Q : A → D → Prop) : Prop := ∀ s,
  tame R (ses s) → tx (ses s) = Some d →
  wp m (λ o s', saved (ses s') = saved (ses s) ∧ tame R (ses s') ∧ obs s' = obs s ∧
                ∃ d', tx (ses s') = Some d' ∧ ∀ a, o = Ok a → Q a d') s.

Lemma in_ret {A} d (a : A) (Q : A → D → Prop) : Q a d → inside d (mret a) Q.
Proof. intros H s Ht Hx. apply wp_ret. split_and!; try done. exists d. split; [done|]. by intros ? [= <-]. Qed.

Lemma in_throw {A} d e (Q : A → D → Prop) : inside d (throw e) Q.
Proof. intros s Ht Hx. apply wp_throw. split_and!; try done. by exists d. Qed.

Lemma in_bind {A B} d (m : M S A) (k : A → M S B) Q' (Q : B → D → Prop) :
  inside d m Q' → (∀ a d', Q' a d' → inside d' (k a) Q) → inside d (m ≫= k) Q.
Proof.
  intros Hm Hk s Ht Hx. apply wp_bind. eapply wp_mono; [|by apply Hm].
  intros [a|e] s1 (H1 & H2 & H3 & d1 & H4 & H5); cbv beta iota.
  - specialize (Hk a d1 (H5 a eq_refl) s1 H2 H4). eapply wp_mono; [|exact Hk].
    intros o s2 (G1 & G2 & G3 & G4). split_and!; [congruence|done|congruence|done].
  - split_and!; [done..|]. by exists d1.
Qed.

Lemma in_mono {A} d (m : M S A) (Q' Q : A → D → Prop) :
  inside d m Q' → (∀ a d', Q' a d' → Q a d') → inside d m Q.
Proof.
  intros Hm HQ s Ht Hx. eapply wp_mono; [|by apply Hm].
  intros o s' (H1 & H2 & H3 & d' & H4 & H5). split_and!; [done..|]. exists d'. split; [done|]. eauto.
Qed.

Lemma in_weaken {A} d (m : M S A) (Q : A → D → Prop) :
  inside d m Q → inside d m (λ _ _, True).
Proof. intros H. by eapply in_mono. Qed.

(** What leaves the session and the observation alone. *)
Lemma in_local {A} d (m : M S A) (Q : A → D → Prop) :
  (∀ s, ses (m s).2 = ses s ∧ obs (m s).2 = obs s ∧ ∀ a, (m s).1 = Ok a → Q a d) → inside d m Q.
Proof.
  intros H s Ht Hx. destruct (H s) as (H1 & H2 & H3). unfold wp. rewrite H1, H2.
  split_and!; [done..|]. exists d. done.
Qed.

Lemma in_ofail {A} d (o : outcome A) (Q : A → D → Prop) :
  (∀ a, o = Ok a → Q a d) → inside d (ofail o) Q.
Proof. intros H. destruct o; [by apply in_ret, H|apply in_throw]. Qed.

(** An [if] or [match] is taken apart by its cases. *)
Lemma in_if {A} d (b : bool) (m1 m2 : M S A) (Q : A → D → Prop) :
  (b = true → inside d m1 Q) → (b = false → inside d m2 Q) → inside d (if b then m1 else m2) Q.
Proof. destruct b; auto. Qed.
End Inside.

(** ** Statements *)

Section Statements.
Context {D : Type} (R : relation D).
Abbreviation insess := (inside (λ s : session D, s) (λ _, tt) R).

Lemma in_stmt d : insess d Sql.statement (λ _ d', d' = d).
Proof.
  intros s Ht Hx. unfold wp, Sql.statement, Sql.settle. rewrite Hx.
  destruct (answers s) as [|[f|] rest]; cbn; (split_and!; [done..|exists d; by split]).
Qed.

Lemma in_read {A} d (f : D → A) : insess d (Sql.read f) (λ a d', a = f d ∧ d' = d).
Proof.
  eapply in_bind; [apply in_stmt|]. intros u d' -> s Ht Hx. unfold wp, lift. cbn.
  split_and!; [done..|]. exists d. split; [done|]. intros a [= <-]. unfold Sql.view. by rewrite Hx.
Qed.

Lemma in_write {A} d (f : D → outcome (A * D)) : insess d (Sql.write f) (λ a d', f d = Ok (a, d')).
Proof.
  eapply in_bind; [apply in_stmt|]. intros u d' -> s Ht Hx. unfold wp, lift.
  assert (Sql.view s = d) as -> by (unfold Sql.view; by rewrite Hx).
  destruct (f d) as [[a d']|e]; cbn.
  - unfold Sql.set_view. rewrite Hx. cbn. split_and!; [done..|]. exists d'. split; [done|]. by intros ? [= <-].
  - split_and!; [done..|]. by exists d.
Qed.
End Statements.

(** ** At the desk *)

Definition dk_sess (s : desk) : session tower_db := sess (dk_tower s).
Definition dk_db (s : desk) : tower_db := saved (dk_sess s).
Definition dk_lines (s : desk) : list audit_line := events_jsonl (dk_tower s).
(** The audit file and what its appends will meet. *)
Definition dk_audit (s : desk) : list audit_line * list (option io_fault) :=
  (events_jsonl (dk_tower s), events_io (dk_tower s)).

Section Desk.
Context (R : relation tower_db) `{!PreOrder R}.

Abbreviation indesk := (inside dk_sess dk_audit R).
Abbreviation insess := (inside (λ s : session tower_db, s) (λ _, tt) R).

Lemma in_at_sql {A} d (m : dao A) Q : insess d m Q → indesk d (at_sql m) Q.
Proof.
  intros Hm s Ht Hx. apply wp_zoom, wp_zoom. eapply wp_mono; [|by apply Hm].
  intros o s' (H1 & H2 & _ & H4). by split_and!.
Qed.

Lemma in_clock d : indesk d clock_now (λ _ d', d' = d).
Proof. apply in_local. intros s. unfold clock_now. by repeat case_match. Qed.

Lemma in_token d : indesk d token_hex (λ _ d', d' = d).
Proof. by apply in_local. Qed.

Lemma in_docker d argv : indesk d (docker_run argv) (λ _ d', d' = d).
Proof. apply in_local. intros s. unfold docker_run. by repeat case_match. Qed.

(** ** Whole requests *)

(** Between requests: no transaction is open, and the others respect [R]. *)
Definition resting (s : desk) : Prop := tame R (dk_sess s) ∧ tx (dk_sess s) = None.

Lemma wp_at_sql {A} (m : dao A) Q s :
  wp m (λ o s', Q o (set_dk_tower (set_sess s' (dk_tower s)) s)) (dk_sess s) → wp (at_sql m) Q s.
Proof. intros H. by apply wp_zoom, wp_zoom. Qed.

Lemma wp_desk_transaction {A} (m : M desk A) (I : tower_db → A → tower_db → Prop) Q s :
  resting s →
  (∀ d, R (dk_db s) d → indesk d m (I d)) →
  (∀ a d0 s', R (dk_db s) d0 → I d0 a (dk_db s') → dk_audit s' = dk_audit s → resting s' → Q (Ok a) s') →
  (∀ e s', R (dk_db s) (dk_db s') → dk_audit s' = dk_audit s → tame R (dk_sess s') →
     (is_exception e = true → tx (dk_sess s') = None) → Q (Raise e) s') →
  wp (desk_transaction m) Q s.
Proof.
  intros [Ht Hx] Hm Hok Hr. apply wp_bind, wp_at_sql, (wp_sql_begin R); [done|done| |].
  2:{ intros e s' [P1 P2 P3 P4]. apply Hr; cbn; auto. intros _. unfold dk_sess. cbn.
      change (sess (dk_tower s)) with (dk_sess s) in P3. congruence. }
  intros s1 H1 Htx1 Ht1. set (s1' := set_dk_tower _ _).
  apply wp_except, wp_bind. eapply wp_mono; [|by apply (Hm (saved s1) H1 s1')].
  intros o s2 (E1 & Ht2 & E2 & d & Ed & HI). cbn beta.
  assert (∀ e s3, saved (dk_sess s3) = saved s1 → tx (dk_sess s3) ≠ None → tame R (dk_sess s3) →
    dk_audit s3 = dk_audit s →
    if is_exception e then wp (_ ← at_sql Sql.rollback; throw e) Q s3 else Q (Raise e) s3) as Hback.
  { intros e s3 E3 Hn3 Ht3 El3. destruct (is_exception e) eqn:Ee.
    - apply wp_bind, wp_at_sql. destruct (tx (dk_sess s3)) as [d3|] eqn:Et3; [|done].
      unfold wp, Sql.rollback. rewrite Et3. cbn. apply Hr; cbn; auto.
      unfold dk_db, dk_sess. cbn. unfold dk_sess in E3. by rewrite E3.
    - apply Hr; [unfold dk_db; by rewrite E3|done|done|by rewrite Ee]. }
  destruct o as [a|e]; [|apply Hback; [done|by rewrite Ed|done|done]].
  apply wp_bind, wp_at_sql. eapply (wp_sql_commit R); [done|done| |].
  - intros s3 E3 Htx3 Ht3. apply wp_ret. eapply Hok; [exact H1| |done|by split].
    unfold dk_db, dk_sess. cbn. rewrite E3. by apply HI.
  - intros e s3 [P1 P2 P3 P4]. apply Hback; cbn; [|by rewrite P3, Ed|done|done].
    rewrite P4; [done|by rewrite Ed].
Qed.
(** A connection of its own. *)
Definition closed (s : desk) : desk := (at_sql Sql.close s).2.

Lemma closed_resting s : tame R (dk_sess s) → resting (closed s).
Proof. done. Qed.

Lemma wp_with_conn {A} (m : M desk A) Q s :
  resting s →
  (∀ x, passed R (dk_sess s) x →
     wp m (λ o s', Q o (closed s')) (set_dk_tower (set_sess x (dk_tower s)) s)) →
  (∀ f x, passed R (dk_sess s) x → Q (Raise (fault_exn f)) (set_dk_tower (set_sess x (dk_tower s)) s)) →
  wp (with_conn m) Q s.
Proof.
  intros [Ht Hx] Hok Hr. apply wp_bind, wp_at_sql, (wp_stmt R); [done| |by apply Hr].
  intros x Hp. specialize (Hok x Hp). unfold wp, lift in *. unfold closed in Hok.
  by destruct (m _) as [o s'].
Qed.

Lemma passed_resting s x : resting s → passed R (dk_sess s) x →
  resting (set_dk_tower (set_sess x (dk_tower s)) s).
Proof. intros [H1 H2] [P1 P2 P3 P4]. split; cbn; [done|]. unfold dk_sess in *. cbn. congruence. Qed.
End Desk.
