(* ===== verification/RegistrySpec.v ===== *)
(** What may happen to the registry of agents, independent of requests and SQL: agents are
    added, never removed; an agent keeps its id, its pane, its parent and its creation time;
    it becomes active only while its pane and container are; a new agent with a parent is a
    swarm member of an active slave; and an agent becomes master only when it is promoted. *)

From S2P Require Import Prelude Errors Agents Permissions Store Json Session Tables LogDao RegistryDao Validation TowerInvariant.

Definition identity (a : AgentRecord) : string * pane_key * option string * string :=
  (agent_id a, agent_composite_key a, parent_agent_id a, created_at a).

Definition pane_live (d : tower_db) (key : pane_key) : Prop :=
  ∃ p c, panes d !! key = Some p ∧ pr_active p = true ∧
         containers d !! pr_container_id p = Some c ∧ cr_active c = true.

Definition parent_ok (d : tower_db) (row : AgentRecord) : Prop :=
  match parent_agent_id row with
  | None => True
  | Some p => role row = "swarm" ∧
      ∃ q, q ∈ agents d ∧ agent_id q = p ∧ active q = true ∧ role q = "slave"
  end.

Section Spec.
Variable promoted : string → Prop.

(** What an update may do to one agent. *)
Record agent_update (d : tower_db) (a b : AgentRecord) : Prop := mkUpdate {
  up_identity : identity b = identity a;
  up_master : role b = "master" → role a = "master" ∨ promoted (agent_id a);
  up_active : active b = true → active a = true ∨ pane_live d (agent_composite_key a)
}.

Inductive agents_step (d : tower_db) : list AgentRecord → Prop :=
| AS_insert row :
    role row ≠ "master" → parent_ok d row → pane_live d (agent_composite_key row) →
    rows_ok check_agent agent_clash (agents d ++ [row]) → agents_step d (agents d ++ [row])
| AS_update g :
    (∀ a, a ∈ agents d → agent_update d a (g a)) →
    rows_ok check_agent agent_clash (g <$> agents d) → agents_step d (g <$> agents d).

(** One move of the database: the agents by a step; the container and pane tables are of
    no concern to agents, and the rest stays well formed. *)
Record registry_step (d d' : tower_db) : Prop := mkStep {
  rs_agents : agents_step d (agents d');
  rs_containers : containers d' = containers d;
  rs_panes : panes d' = panes d;
  rs_wf : tower_wf d → tower_wf d'
}.

(** The consequences for one agent over any number of moves. *)
Definition descends (l l' : list AgentRecord) : Prop :=
  (∀ a, a ∈ l → ∃ b, b ∈ l' ∧ identity b = identity a) ∧
  (∀ b, b ∈ l' → role b = "master" →
     promoted (agent_id b) ∨ ∃ a, a ∈ l ∧ identity a = identity b ∧ role a = "master").

#[export] Instance descends_preorder : PreOrder descends.
Proof.
  split.
  - intros l. split; [intros a Ha; by exists a|]. intros b Hb Hr. right. by exists b.
  - intros l1 l2 l3 [A1 A2] [B1 B2]. split.
    + intros a (b & Hb & E)%A1. destruct (B1 b Hb) as (c & Hc & E'). exists c. split; [done|congruence].
    + intros c Hc Hr. destruct (B2 c Hc Hr) as [?|(b & Hb & E & Hrb)]; [by left|].
      destruct (A2 b Hb Hrb) as [Hp|(a & Ha & E' & Hra)].
      * left. unfold identity in E. congruence.
      * right. exists a. split_and!; [done|congruence|done].
Qed.

Lemma agents_step_descends d l : agents_step d l → descends (agents d) l.
Proof.
  intros [row Hm Hp Hl Hok|g Hg Hok]; split.
  - intros a Ha. exists a. split; [set_solver|done].
  - intros b Hb Hr. apply elem_of_app in Hb as [Hb|Hb]; [right; by exists b|].
    apply list_elem_of_singleton in Hb as ->. done.
  - intros a Ha. exists (g a). split; [by apply list_elem_of_fmap_2|by apply Hg].
  - intros b Hb Hr. apply list_elem_of_fmap in Hb as (a & -> & Ha).
    destruct (Hg a Ha) as [E Hmaster _]. destruct (Hmaster Hr) as [?|?].
    + right. by exists a.
    + left. unfold identity in E. congruence.
Qed.

Lemma agents_step_rows d l : agents_step d l → rows_ok check_agent agent_clash l.
Proof. by destruct 1. Qed.
End Spec.

#[export] Instance descends_mono : Proper (pointwise_relation _ impl ==> eq ==> eq ==> impl) descends.
Proof.
  intros P Q HPQ l _ <- l' _ <- [H1 H2]. split; [done|]. intros b Hb Hr.
  destruct (H2 b Hb Hr) as [?|?]; [left; by apply HPQ|by right].
Qed.

(** ** The updates of state/agents.py are updates of the specification *)

Section Updates.
Context (d : tower_db).

Lemma agent_update_refl P a : agent_update P d a a.
Proof. constructor; auto. Qed.

(** Any of the updates that write through [with_fields]. *)
Lemma with_fields_update P a ro ca la pp pe re se ac :
  (ro = "master" → role a = "master" ∨ P (agent_id a)) →
  (ac = true → active a = true ∨ pane_live d (agent_composite_key a)) →
  agent_update P d a (with_fields ro ca la pp pe re se ac a).
Proof. intros H1 H2. by constructor. Qed.

Lemma update_agents_step P p f l :
  list_update check_agent agent_clash p f (agents d) = Ok l →
  (∀ a, a ∈ agents d → p a = true → agent_update P d a (f a)) →
  agents_step P d l.
Proof.
  intros E Hf. pose proof (list_update_ok _ _ _ _ _ _ E) as Hok. unfold list_update in E.
  case_match; [|done]. injection E as <-. apply AS_update; [|done].
  intros a Ha. destruct (p a) eqn:Ep; [by apply Hf|apply agent_update_refl].
Qed.
End Updates.

(** ** Looking agents up *)

Lemma list_find_elem {A} (P : A → Prop) `{∀ x, Decision (P x)} l x :
  snd <$> list_find P l = Some x → x ∈ l ∧ P x.
Proof.
  intros ([i y] & E & ->)%fmap_Some. apply list_find_Some in E as (Hi & HP & _).
  split; [by eapply list_elem_of_lookup_2|done].
Qed.

Lemma find_agent_Some id d a : find_agent id d = Some a → a ∈ agents d ∧ agent_id a = id.
Proof. exact (list_find_elem _ (agents d) a). Qed.
Lemma find_agent_by_pane_Some key d a :
  find_agent_by_pane key d = Some a → a ∈ agents d ∧ agent_composite_key a = key.
Proof. exact (list_find_elem _ (agents d) a). Qed.

Lemma clash_free_unique {A} (clash : A → A → bool) l x y :
  (∀ u v, clash u v = clash v u) → clash_free clash l = true → x ∈ l → y ∈ l → clash x y = true → x = y.
Proof.
  intros Hsym. induction l as [|z l IH]; cbn; [by intros _ ?%elem_of_nil|].
  intros [Hz Hl]%andb_true_iff Hx Hy Hc.
  assert (∀ u, u ∈ l → clash z u = false) as Hfree.
  { intros u Hu. rewrite forallb_forall in Hz. apply list_elem_of_In, Hz in Hu. by destruct (clash z u). }
  apply elem_of_cons in Hx as [->|Hx], Hy as [->|Hy]; [done| | |by apply IH].
  - by rewrite Hfree in Hc.
  - rewrite Hsym, Hfree in Hc by done. done.
Qed.

Lemma same_agent l a b :
  rows_ok check_agent agent_clash l → a ∈ l → b ∈ l → agent_id a = agent_id b → a = b.
Proof.
  intros [_ Hc] Ha Hb E. eapply clash_free_unique; [apply agent_clash_sym|exact Hc|done|done|].
  unfold agent_clash. by rewrite bool_decide_eq_true_2.
Qed.

Lemma find_agent_unique d a :
  rows_ok check_agent agent_clash (agents d) → a ∈ agents d → find_agent (agent_id a) d = Some a.
Proof.
  intros Hok Ha. unfold find_agent. destruct (list_find _ _) as [[i b]|] eqn:E.
  - apply list_find_Some in E as (Hi & HP & _). cbn. f_equal.
    eapply same_agent; [done|by eapply list_elem_of_lookup_2|done|done].
  - apply list_find_None in E. by apply (proj1 (Forall_forall _ _) E) in Ha.
Qed.

Lemma agents_step_mono (P Q : string → Prop) d l :
  (∀ id, P id → Q id) → agents_step P d l → agents_step Q d l.
Proof.
  intros HPQ [row|g Hg Hok]; [by apply AS_insert|]. apply AS_update; [|done].
  intros a Ha. destruct (Hg a Ha) as [H1 H2 H3]. constructor; auto.
  intros Hr. destruct (H2 Hr); auto.
Qed.

Lemma wf_set_agents d l :
  tower_wf d → rows_ok check_agent agent_clash l → tower_wf (set_agents l d).
Proof. intros [] Hl. by constructor. Qed.

Lemma agents_step_registry P d l : agents_step P d l → registry_step P d (set_agents l d).
Proof.
  intros Hl. constructor; [done..|]. intros Hwf. apply wf_set_agents; [done|].
  by eapply agents_step_rows.
Qed.

(** The moves that keep the tables well formed, lose no agent and promote only [P]. *)
Definition lawful (P : string → Prop) : relation tower_db := λ d d',
  (tower_wf d → tower_wf d') ∧ descends P (agents d) (agents d').

#[export] Instance lawful_preorder P : PreOrder (lawful P).
Proof.
  split; [by intros d; split|]. intros d1 d2 d3 [A1 A2] [B1 B2]. split; [auto|]. by trans (agents d2).
Qed.

Lemma registry_step_lawful P Q d d' : (∀ id, P id → Q id) → registry_step P d d' → lawful Q d d'.
Proof.
  intros HPQ [H1 H2 H3 H4]. split; [done|].
  by eapply agents_step_descends, agents_step_mono.
Qed.
