(* ===== verification/AgentsServiceSpec.v ===== *)
(** The agents service implements the registry specification: every request is one step or
    none, under any faults of the database and the audit file, any writers that respect
    their own relation, and a crash anywhere. *)

From S2P Require Import Prelude Errors Agents Permissions Store AuditWriter Json Session Tables LogDao Tower RegistryDao Validation Desk AgentsService InTx TowerInvariant RegistrySpec.

Local Open Scope Z_scope.

(** What a log service may do inside a registration: touch the log tables only. *)
Record only_logs (d d' : tower_db) : Prop := mkOnlyLogs {
  ol_agents : agents d' = agents d;
  ol_containers : containers d' = containers d;
  ol_panes : panes d' = panes d;
  ol_wf : tower_wf d → tower_wf d'
}.

#[export] Instance only_logs_preorder : PreOrder only_logs.
Proof.
  split; [by intros d; constructor|].
  intros d1 d2 d3 [A1 A2 A3 A4] [B1 B2 B3 B4]. constructor; [congruence..|auto].
Qed.

Class AttachesOnly (logs : LogAttacher) : Prop := attaches_only R d ps a info uid :
  inside dk_sess dk_audit R d (attach_in_tx logs ps a info uid) (λ _ d', only_logs d d').

Section Registration.
Context (R : relation tower_db) `{!PreOrder R}.
Context (repr_of : json → string) (schema_version : Z) (log_service : option LogAttacher).
Context (Hlogs : ∀ logs, log_service = Some logs → AttachesOnly logs).

Abbreviation indesk := (inside dk_sess dk_audit R).
Abbreviation insess := (inside (λ s : session tower_db, s) (λ _, tt) R).

Lemma in_savepoint {A} d (m : dao A) handler Q :
  insess d m Q → (∀ e, insess d (handler e) Q) → insess d (savepoint m handler) Q.
Proof.
  intros Hm Hh. unfold savepoint. eapply in_bind; [apply in_stmt|]. intros _ ? ->.
  intros s Ht Hx. apply wp_bind. unfold wp at 1, lift. cbn [fst snd].
  assert (Sql.view s = d) as -> by (unfold Sql.view; by rewrite Hx).
  apply wp_except. eapply wp_mono; [|refine (in_bind (λ s, s) (λ _, tt) R d m _ Q Q Hm _ s Ht Hx)].
  2:{ intros a d' HQ. eapply in_bind; [apply in_stmt|]. intros _ ? ->. by apply in_ret. }
  intros [a|e] s1 (H1 & H2 & _ & d1 & H4 & H5); [by split_and!; [..|by exists d1]|].
  cbn beta iota. destruct (is_exception e); [|by split_and!; [..|by exists d1]].
  apply wp_bind. eapply wp_mono; [|by apply (in_stmt R d1 s1)].
  intros [u|e2] s2 (G1 & G2 & _ & d2 & G4 & G5); cbn beta iota.
  2:{ split_and!; [congruence|done|done|]. by exists d2. }
  apply wp_bind, wp_modify. set (s3 := Sql.set_view d s2).
  assert (saved s3 = saved s ∧ tame R s3 ∧ tx s3 = Some d) as (E1 & E2 & E3).
  { unfold s3, Sql.set_view. rewrite G4. cbn. split_and!; [congruence|done|done]. }
  clearbody s3. eapply wp_mono; [|eapply (in_bind (λ s, s) (λ _, tt) R d Sql.statement _ (λ _ d', d' = d) Q
    (in_stmt R d)); [|exact E2|exact E3]].
  - intros o s4 (F1 & F2 & F3 & F4). split_and!; [congruence|done|done|done].
  - intros _ ? ->. apply Hh.
Qed.
(** ** The statements of a registration *)

Lemma in_bound_pane d key :
  insess d (validate_bound_pane_is_active key) (λ _ d', d' = d ∧ pane_live d key).
Proof.
  eapply in_bind; [apply in_read|]. intros st d' [-> ->]. apply in_if; [|intros _; apply in_throw].
  intros Hst%bool_decide_eq_true. apply in_ret. split; [done|]. unfold pane_live.
  destruct (panes d !! key) as [p|]; [|done]. cbn in Hst. unfold container_active in Hst.
  destruct (containers d !! pr_container_id p) as [c|] eqn:Ec; cbn in Hst; [|by injection Hst].
  injection Hst as H1 H2. by exists p, c.
Qed.

Lemma in_parent d p :
  insess d (validate_parent_for_swarm p) (λ _ d', d' = d ∧
    ∃ q, q ∈ agents d ∧ agent_id q = p ∧ active q = true ∧ role q = "slave").
Proof.
  eapply in_bind; [by apply (in_ofail _ _ _ _ _ (λ _ d', d' = d))|]. intros v d' ->.
  eapply in_bind; [apply in_read|]. intros q d' [-> ->].
  destruct (find_agent p d) as [q|] eqn:Eq; [|apply in_throw]. apply find_agent_Some in Eq as [Hq <-].
  apply in_if; [intros _; apply in_throw|]. intros Ha%negb_false_iff.
  apply in_if; [intros _; apply in_throw|]. intros Hr%negb_false_iff%bool_decide_eq_true.
  apply in_ret. split; [done|]. by exists q.
Qed.

Lemma in_insert_retry n d key ro ca la pp parent pe now :
  indesk d (insert_with_savepoint_retry n key ro ca la pp parent pe now) (λ id d',
    let row := agent_row id key ro ca la pp parent pe now now true in
    list_insert check_agent agent_clash row (agents d) = Ok (agents d ++ [row]) ∧
    d' = set_agents (agents d ++ [row]) d).
Proof.
  induction n as [|n IH]; cbn [insert_with_savepoint_retry]; [apply in_throw|].
  eapply in_bind; [eapply in_bind; [apply in_token|]; intros t ? ->; by apply (in_ret _ _ _ _ _ (λ _ d', d' = d))|].
  intros id ? ->. eapply in_bind.
  { apply in_at_sql, (in_savepoint d _ _ (λ (b : bool) d',
      let row := agent_row id key ro ca la pp parent pe now now true in
      if b then list_insert check_agent agent_clash row (agents d) = Ok (agents d ++ [row]) ∧
                d' = set_agents (agents d ++ [row]) d
      else d' = d)).
    - eapply in_bind; [apply in_write|]. intros [] d' E. cbv beta in E. case_match; [done|].
      apply in_ret. unfold list_insert in *. repeat case_match; simplify_eq. done.
    - intros e. apply in_if; intros _; [by apply in_ret|apply in_throw]. }
  intros [] d'; [intros [E ->]; by apply in_ret|intros ->; apply IH].
Qed.

(** ** What a registration does to the agents *)

Definition new_agent (r : Registration) (id perms now : string) : AgentRecord :=
  agent_row id (rg_key r) (default "unknown" (rg_role r)) (default "unknown" (rg_capability r))
    (default EmptyString (rg_label r)) (default EmptyString (rg_project_path r)) (mjoin (rg_parent r))
    perms now now true.

(** Only the supplied fields are overwritten. *)
Definition refreshed (r : Registration) (perms now : string) (e a : AgentRecord) : AgentRecord :=
  with_fields (default (role e) (rg_role r)) (default (capability e) (rg_capability r))
    (default (label e) (rg_label r)) (default (project_path e) (rg_project_path r))
    perms now (last_seen_at a) true a.

Inductive registers (r : Registration) (now : string) (d : tower_db) :
  string → string → option (option string * string) → list AgentRecord → Prop :=
| Reg_create id perms :
    find_agent_by_pane (rg_key r) d = None →
    serialize_effective_permissions (default "unknown" (rg_role r)) = Ok perms →
    parent_ok d (new_agent r id perms now) →
    list_insert check_agent agent_clash (new_agent r id perms now) (agents d) =
      Ok (agents d ++ [new_agent r id perms now]) →
    registers r now d id "created" (Some (None, default "unknown" (rg_role r)))
      (agents d ++ [new_agent r id perms now])
| Reg_update e perms l :
    find_agent_by_pane (rg_key r) d = Some e →
    default (parent_agent_id e) (rg_parent r) = parent_agent_id e →
    serialize_effective_permissions (default (role e) (rg_role r)) = Ok perms →
    list_update check_agent agent_clash (is_agent (agent_id e)) (refreshed r perms now e) (agents d) = Ok l →
    registers r now d (agent_id e) (if active e then "updated" else "reactivated")
      (if decide (default (role e) (rg_role r) = role e) then None
       else Some (Some (role e), default (role e) (rg_role r))) l.

Lemma in_create d r now :
  find_agent_by_pane (rg_key r) d = None →
  indesk d (create_agent r now) (λ how d',
    registers r now d how.1.1 how.1.2 how.2 (agents d') ∧ d' = set_agents (agents d') d).
Proof.
  intros Hnone. unfold create_agent. apply in_if; [intros _; apply in_throw|]. intros Hsw.
  eapply (in_bind _ _ _ _ _ _ (λ _ d', d' = d ∧ match mjoin (rg_parent r) with
      | None => True
      | Some p => ∃ q, q ∈ agents d ∧ agent_id q = p ∧ active q = true ∧ role q = "slave" end)).
  { destruct (mjoin (rg_parent r)); [apply in_at_sql, in_parent|by apply in_ret]. }
  intros _ ? [-> Hp].
  eapply in_bind; [apply (in_ofail _ _ _ _ _ (λ perms d', d' = d ∧
    serialize_effective_permissions (default "unknown" (rg_role r)) = Ok perms)); by intros|].
  intros perms ? [-> Hperms]. eapply in_bind; [apply in_insert_retry|].
  intros id d' [Hins ->]. apply in_ret. cbn [fst snd]. split; [|done]. cbn [agents set_agents].
  apply (Reg_create r now d id perms); [done|done| |exact Hins].
  unfold parent_ok, new_agent, agent_row. destruct (rg_key r) as [[[[[? ?] ?] ?] ?] ?]. cbn.
  destruct (mjoin (rg_parent r)) as [p|]; [|done]. split; [|done].
  apply andb_false_iff in Hsw as [Hsw|Hsw].
  - apply bool_decide_eq_false in Hsw. by destruct Hsw.
  - by apply negb_false_iff, bool_decide_eq_true in Hsw.
Qed.

Lemma in_update d r now e :
  find_agent_by_pane (rg_key r) d = Some e →
  indesk d (update_agent e r now) (λ how d',
    registers r now d how.1.1 how.1.2 how.2 (agents d') ∧ d' = set_agents (agents d') d).
Proof.
  intros He. unfold update_agent. apply in_if; [intros _; apply in_throw|].
  intros Hpar%negb_false_iff%bool_decide_eq_true.
  apply in_if; [intros _; apply in_throw|]. intros _.
  apply in_if; [intros _; apply in_throw|]. intros _.
  eapply in_bind; [apply (in_ofail _ _ _ _ _ (λ perms d', d' = d ∧
    serialize_effective_permissions (default (role e) (rg_role r)) = Ok perms)); by intros|].
  intros perms ? [-> Hperms].
  eapply in_bind; [apply in_at_sql, in_write|]. intros [] d' E. cbv beta in E. case_match eqn:El; [|done].
  injection E as <-. apply in_ret. cbn [fst snd]. split; [|done]. cbn [agents set_agents].
  pose proof (Reg_update r now d e perms _ He Hpar Hperms El) as H.
  destruct (decide (default (role e) (rg_role r) = role e)) as [Eq|Ne].
  - by rewrite (bool_decide_eq_true_2 _ Eq).
  - by rewrite (bool_decide_eq_false_2 _ Ne).
Qed.
(** ** The audit after the commit *)

(** An append whose failure is logged: at most the line is added, and it is added when the
    file takes it. *)
Lemma wp_safe_line l (ev : exn → lifecycle_event) s :
  wp (except (at_tower (append_line l)) (λ e, at_tower (emit_always (ev e))))
     (λ o s', dk_sess s' = dk_sess s ∧ (o = Ok tt ∨ o = Raise SystemExit) ∧
        ∃ ls, dk_lines s' = dk_lines s ++ ls ∧ ls `sublist_of` [l] ∧
          (events_io (dk_tower s) = [] → o = Ok tt ∧ ls = [l] ∧ events_io (dk_tower s') = [])) s.
Proof.
  apply wp_except. unfold wp, at_tower, zoom, append_line.
  assert (∀ b : bool, (if b then events_jsonl (dk_tower s) ++ [l] else events_jsonl (dk_tower s)) =
    events_jsonl (dk_tower s) ++ (if b then [l] else []) ∧ (if b then [l] else []) `sublist_of` [l]) as Hb.
  { intros []; [by split|]. rewrite app_nil_r. split; [done|]. apply sublist_nil_l. }
  destruct (events_io (dk_tower s)) as [|[[n b|b]|] rest]; cbn;
    try (split_and!; [done|by left|]; exists [l]; by split_and!).
  - destruct (Hb b) as [E1 E2]. unfold emit_always. cbn. destruct (has_logger (dk_tower s));
      (split_and!; [done|by left|]; eexists; split_and!; [exact E1|exact E2|done]).
  - destruct (Hb b) as [E1 E2]. split_and!; [done|by right|]. eexists. split_and!; [exact E1|exact E2|done].
Qed.

Definition role_lines (id : string) (change : option (option string * string)) (confirm : bool) (uid : Z)
  : list audit_line :=
  match change with Some (prior, new_role) => [L_role_change id prior new_role confirm uid] | None => [] end.

Definition deferred_line (d : DeferredAudit) : audit_line :=
  L_attachment_change (da_attachment_id d) (da_agent_id d) (da_prior_status d)
    (da_new_status d) (da_prior_path d) (da_new_path d) (da_prior_pipe_target d) (da_source d)
    (da_peer_uid d).

Definition deferred_lines (att : option (AttachResult * option DeferredAudit)) : list audit_line :=
  match att with Some (_, Some d) => [deferred_line d] | _ => [] end.

(** ** The transaction as a whole *)

Lemma registers_member r now d id kind ch l :
  registers r now d id kind ch l → ∃ a, a ∈ l ∧ agent_id a = id.
Proof.
  intros [id' perms _ _ _ _|e perms l' He _ _ Hl].
  - exists (new_agent r id' perms now). split; [set_solver|].
    unfold new_agent, agent_row. by destruct (rg_key r) as [[[[[? ?] ?] ?] ?] ?].
  - apply find_agent_by_pane_Some in He as [He _]. unfold list_update in Hl. case_match; [|done].
    injection Hl as <-. exists (refreshed r perms now e e). split; [|done].
    apply list_elem_of_fmap. exists e. unfold is_agent. by rewrite bool_decide_eq_true_2.
Qed.

Lemma registers_step r now d id kind ch l :
  tower_wf d → rg_role r ≠ Some "master"%string → pane_live d (rg_key r) →
  registers r now d id kind ch l → agents_step (λ _, False) d l.
Proof.
  intros Hwf Hrole Hlive [id' perms _ _ Hpar Hins|e perms l' He _ _ Hl].
  - apply AS_insert; [|done| |].
    + unfold new_agent, agent_row. destruct (rg_key r) as [[[[[? ?] ?] ?] ?] ?]. cbn.
      destruct (rg_role r); [|done]. cbn. by intros ->.
    + unfold new_agent, agent_row. by destruct (rg_key r) as [[[[[? ?] ?] ?] ?] ?].
    + by eapply list_insert_ok; [apply agent_clash_sym|apply Hwf|exact Hins].
  - apply find_agent_by_pane_Some in He as [He Hk].
    eapply update_agents_step; [exact Hl|]. intros a Ha Hid%bool_decide_eq_true.
    assert (a = e) as -> by (eapply same_agent; [apply Hwf|done..]).
    apply with_fields_update; [|right; by rewrite Hk].
    destruct (rg_role r) as [x|]; cbn; [|by left]. by intros ->.
Qed.

Lemma in_attach d env cs uid final :
  indesk d (attach_for log_service env cs uid final) (λ att d', only_logs d d' ∧
    (env = None → d' = d ∧ att = None)).
Proof.
  unfold attach_for. destruct env as [[]|]; try apply in_throw; try (by apply in_ret; split).
  destruct log_service as [logs|]; [|apply in_throw]. destruct final as [f|]; [|apply in_throw].
  eapply in_bind.
  { apply in_at_sql. eapply in_bind; [apply in_read|]. intros c ? [-> ->].
    destruct (containers d !! _) as [c|]; [|apply in_throw].
    apply in_if; [intros _|intros _; apply in_throw]. by apply (in_ret _ _ _ _ _ (λ _ d', d' = d)). }
  intros info ? ->. eapply in_bind; [by apply (Hlogs logs)|].
  intros res d' Hd'. by apply in_ret.
Qed.

(** Everything between [BEGIN] and [COMMIT]. *)
Lemma in_registration d r now env cs uid :
  indesk d
    (_ ← at_sql (validate_bound_pane_is_active (rg_key r));
     existing ← at_sql (select_agent_by_pane_key (rg_key r));
     how ← match existing with
           | None => create_agent r now
           | Some e => update_agent e r now
           end;
     final ← at_sql (select_agent_full_by_id how.1.1);
     att ← attach_for log_service env cs uid final;
     mret (how, final, att))
    (λ res d', let '(id, kind, change, final, att) := res in
       pane_live d (rg_key r) ∧ registers r now d id kind change (agents d') ∧
       only_logs (set_agents (agents d') d) d' ∧
       (env = None → d' = set_agents (agents d') d ∧ att = None) ∧
       ∃ f, final = Some f ∧ fr_agent f ∈ agents d' ∧ agent_id (fr_agent f) = id).
Proof.
  eapply in_bind; [apply in_at_sql, in_bound_pane|]. intros _ ? [-> Hlive].
  eapply in_bind; [apply in_at_sql, in_read|]. intros ex ? [-> ->].
  eapply in_bind.
  { destruct (find_agent_by_pane (rg_key r) d) as [e|] eqn:E; [by apply in_update|by apply in_create]. }
  intros [[id kind] change] d1 [Hreg Hd1]. cbn [fst snd] in Hreg.
  eapply in_bind; [apply in_at_sql, in_read|]. intros final ? [-> ->].
  eapply in_bind; [apply in_attach|]. intros att d' [Hol Hnone]. apply in_ret.
  destruct (registers_member _ _ _ _ _ _ _ Hreg) as (a & Ha & Hid).
  pose proof (ol_agents _ _ Hol) as Eag. cbn [fst snd].
  split_and!; [done|by rewrite Eag|by rewrite Eag, <- Hd1| |].
  - intros Henv. destruct (Hnone Henv) as [-> ->]. by rewrite <- Hd1.
  - destruct (find_agent id d1) as [b|] eqn:Eb.
    + apply find_agent_Some in Eb as [Hb <-]. eexists. split; [done|]. by rewrite Eag.
    + exfalso. unfold find_agent in Eb. apply fmap_None, list_find_None in Eb.
      by apply (proj1 (Forall_forall _ _) Eb) in Ha.
Qed.
Definition appended (lines : list audit_line) (s : desk) (o : outcome unit) (s' : desk) : Prop :=
  dk_sess s' = dk_sess s ∧
  ∃ ls, dk_lines s' = dk_lines s ++ ls ∧ ls `sublist_of` lines ∧
    (events_io (dk_tower s) = [] → o = Ok tt ∧ ls = lines ∧ events_io (dk_tower s') = []).

Lemma wp_optional_line (b : bool) l (ev : exn → lifecycle_event) s :
  wp (if b then except (at_tower (append_line l)) (λ e, at_tower (emit_always (ev e))) else mret tt)
     (appended (if b then [l] else []) s) s.
Proof.
  destruct b.
  - eapply wp_mono; [|apply wp_safe_line]. intros o s' (H1 & _ & ls & H2 & H3 & H4). split; [done|]. by exists ls.
  - apply wp_ret. split; [done|]. exists []. rewrite app_nil_r. by split_and!.
Qed.

Lemma wp_registration_audit id change uid f att s :
  wp (append_registration_audit id change uid f att)
     (appended (role_lines id change false uid ++ deferred_lines att) s) s.
Proof.
  apply wp_bind. eapply (wp_mono _ (appended (role_lines id change false uid) s)).
  2:{ destruct change as [[prior nr]|]; cbn [role_lines].
      - exact (wp_optional_line true _ _ s).
      - exact (wp_optional_line false (L_scan_degraded "" "" None None []) (λ _, LC_scan "" []) s). }
  intros o s1 (E1 & ls & H1 & H2 & H3). destruct o as [u|e]; cbv beta iota.
  - eapply (wp_mono _ (appended (deferred_lines att) s1)).
    2:{ destruct att as [[a [d|]]|]; cbn [deferred_lines].
        - exact (wp_optional_line true _ _ s1).
        - exact (wp_optional_line false (L_scan_degraded "" "" None None []) (λ _, LC_scan "" []) s1).
        - exact (wp_optional_line false (L_scan_degraded "" "" None None []) (λ _, LC_scan "" []) s1). }
    intros o2 s2 (E2 & ls2 & G1 & G2 & G3). split; [congruence|]. exists (ls ++ ls2).
    split_and!; [by rewrite G1, H1, app_assoc|by apply sublist_app|].
    intros Hio. destruct (H3 Hio) as (_ & -> & Hio1). by destruct (G3 Hio1) as (-> & -> & ->).
  - split; [done|]. exists ls. split_and!; [done| |by intros Hio; destruct (H3 Hio)].
    trans (role_lines id change false uid); [done|by apply sublist_inserts_r].
Qed.

(** What a registration that went through has done. *)
Record registration_done (ps : params) (uid : Z) (s : desk) (out : outcome RegisterOutcome) (s' : desk)
    (r : Registration) (d0 : tower_db) (id kind : string) (change : option (option string * string))
    (att : option (AttachResult * option DeferredAudit)) (ls : list audit_line) : Prop := mkRegDone {
  rd_parsed : parse_registration repr_of schema_version ps = Ok r;
  rd_live : pane_live d0 (rg_key r);
  rd_agents : registers r (dk_clock s).1 d0 id kind change (agents (dk_db s'));
  rd_rest : only_logs (set_agents (agents (dk_db s')) d0) (dk_db s');
  rd_plain : json_get "attach_log" ps = None →
    dk_db s' = set_agents (agents (dk_db s')) d0 ∧ att = None;
  rd_lines : dk_lines s' = dk_lines s ++ ls;
  rd_lines_own : ls `sublist_of` (role_lines id change false uid ++ deferred_lines att);
  rd_lines_all : events_io (dk_tower s) = [] →
    ls = role_lines id change false uid ++ deferred_lines att ∧ is_ok out = true;
  rd_answer : ∀ res, out = Ok res →
    fr_agent (ro_agent res) ∈ agents (dk_db s') ∧ agent_id (fr_agent (ro_agent res)) = id ∧
    ro_created_or_reactivated res = kind ∧ ro_attach_log res = fst <$> att
}.

Definition registration_post (ps : params) (uid : Z) (s : desk) (out : outcome RegisterOutcome)
    (s' : desk) : Prop :=
  resting R s' ∧
  ((R (dk_db s) (dk_db s') ∧ dk_lines s' = dk_lines s ∧ is_ok out = false) ∨
   ∃ r d0 id kind change att ls, R (dk_db s) d0 ∧
     registration_done ps uid s out s' r d0 id kind change att ls).

Lemma wp_register_agent ps uid s :
  resting R s →
  wp (register_agent repr_of schema_version log_service ps uid)
     (registration_post ps uid s) s.
Proof.
  intros Hs. unfold register_agent. apply wp_bind.
  destruct (parse_registration repr_of schema_version ps) as [r|e] eqn:Er; cbn [ofail].
  2:{ apply wp_throw. split; [done|]. by left. }
  apply wp_ret. unfold register_agent_locked. apply (wp_with_conn R); [done| |].
  2:{ intros f x Hp. split; [by apply passed_resting|]. left. by destruct Hp. }
  intros x Hp. set (s1 := set_dk_tower _ s). assert (resting R s1) as Hs1 by (by apply passed_resting).
  assert (R (dk_db s) (dk_db s1)) as HR1 by (by destruct Hp).
  apply wp_bind. unfold wp at 1, clock_now.
  assert (∃ s2, (match dk_clock s1 with (t, []) => (Ok t, s1) | (t, t' :: rest) =>
    (Ok t, set_dk_clock (t', rest) s1) end) = (Ok (dk_clock s).1, s2) ∧ dk_tower s2 = dk_tower s1)
    as (s2 & -> & E2).
  { change (dk_clock s1) with (dk_clock s). destruct (dk_clock s) as [t [|t' rest]]; by eexists. }
  cbn [fst snd]. assert (resting R s2) as Hs2 by (unfold resting, dk_sess; by rewrite E2).
  assert (dk_audit s2 = dk_audit s) as Ea by (unfold dk_audit; by rewrite E2).
  assert (R (dk_db s) (dk_db s2)) as HR2 by (unfold dk_db, dk_sess; by rewrite E2).
  apply wp_bind. eapply (wp_desk_transaction R); [done|intros d _; apply in_registration|..].
  2:{ intros e s3 HR3 El3 Ht3 _. split; [done|]. left. split_and!; [by trans (dk_db s2)| |done].
      change (dk_lines (closed s3)) with (dk_audit s3).1. by rewrite El3, Ea. }
  intros [[[[id kind] change] final] att] d0 s3 HR3 (Hlive & Hreg & Hol & Hplain & f & -> & Hf & Hid) El3 Hs3.
  assert (R (dk_db s) d0) as HRd by (by trans (dk_db s2)).
  cbv beta iota. apply wp_bind. eapply wp_mono; [|apply wp_registration_audit].
  intros o s4 (E4 & ls & L1 & L2 & L3).
  assert (dk_db (closed s4) = dk_db s3) as Edb
    by (change (dk_db (closed s4)) with (saved (dk_sess s4)); by rewrite E4).
  assert (resting R (closed s4)) as Ht4 by (apply closed_resting; rewrite E4; apply Hs3).
  assert (events_io (dk_tower s) = [] → events_io (dk_tower s3) = []) as Hio.
  { intros H. change (events_io (dk_tower s3)) with (dk_audit s3).2. by rewrite El3, Ea. }
  assert (dk_lines (closed s4) = dk_lines s ++ ls) as Ell.
  { change (dk_lines s4 = dk_lines s ++ ls). rewrite L1. f_equal.
    change (dk_lines s3) with (dk_audit s3).1. by rewrite El3, Ea. }
  destruct o as [u|e]; [apply wp_ret|]; (split; [done|right; exists r, d0, id, kind, change, att, ls; split; [done|]]);
    revert Ell Edb; generalize (closed s4); intros s5 Ell Edb;
    (constructor; [done|done|by rewrite Edb|by rewrite Edb|by rewrite Edb|done|done| |]).
  - intros H. by destruct (L3 (Hio H)) as (_ & -> & _).
  - intros res [= <-]. cbn. rewrite Edb. by split_and!.
  - intros H. by destruct (L3 (Hio H)).
  - done.
Qed.
End Registration.

(** ** Updates *)

Lemma wp_except_bind {S A B} (m : M S A) (k : A → M S B) h Q s :
  wp m (λ o s1, match o with
                | Ok a => wp (except (k a) h) Q s1
                | Raise e => if is_exception e then wp (h e) Q s1 else Q (Raise e) s1
                end) s →
  wp (except (m ≫= k) h) Q s.
Proof.
  intros H. unfold wp, except, catch, mbind, M_bind in *. destruct (m s) as [[a|e] s1]; cbn in *; [done|].
  by destruct (is_exception e).
Qed.

Section Updates.
Context (R : relation tower_db) `{!PreOrder R}.

(** A guarded transaction ends with its changes committed, or raises and leaves the
    database to the others. *)
Definition settled {A} (d : tower_db) (J : A → tower_db → tower_db → Prop) (o : outcome A)
    (s : session tower_db) : Prop :=
  tame R s ∧ (tx s = None ∨ o = Raise SystemExit) ∧
  match o with
  | Ok a => ∃ d0, R d d0 ∧ J a d0 (saved s)
  | Raise _ => R d (saved s)
  end.

Definition in_guard {A} (d : tower_db) (J : A → tower_db → tower_db → Prop) (d0 d1 : tower_db) (m : dao A) : Prop :=
  ∀ s, tame R s → saved s = d0 → tx s = Some d1 → wp (guarded m) (settled d J) s.

Section Guard.
Context {A : Type} (d : tower_db) (J : A → tower_db → tower_db → Prop) (d0 : tower_db) (HR : R d d0).

Lemma guard_raise e s : tame R s → saved s = d0 → tx s ≠ None → is_registration_error e = false →
  if is_exception e then wp (_ ← Sql.rollback; throw e) (settled d J) s else settled d J (Raise e) s.
Proof.
  intros Ht Hs Hx He. destruct (tx s) as [x|] eqn:Ex; [|done]. destruct (is_exception e) eqn:Ee.
  - unfold wp, mbind, M_bind, Sql.rollback. rewrite Ex. cbn. split_and!; [done|by left|]. cbn. by rewrite Hs.
  - split_and!; [done|right; by destruct e|by rewrite Hs].
Qed.

Lemma fault_not_registration f : is_registration_error (fault_exn f) = false.
Proof. by destruct f. Qed.

Lemma guard_read {B} d1 (f : tower_db → B) (k : B → dao A) :
  in_guard d J d0 d1 (k (f d1)) → in_guard d J d0 d1 (Sql.read f ≫= k).
Proof.
  intros Hk s Ht Hs Hx. apply wp_except_bind, (wp_read R); [done| |].
  - intros s1 [P1 P2 P3 P4]. assert (Sql.view s1 = d1) as -> by (unfold Sql.view; by rewrite P3, Hx).
    apply Hk; [done|rewrite P4; [done|by rewrite Hx]|congruence].
  - intros f' s1 [P1 P2 P3 P4]. rewrite fault_not_registration. cbn beta iota.
    apply guard_raise; [done|rewrite P4; [done|by rewrite Hx]|by rewrite P3, Hx|apply fault_not_registration].
Qed.

Lemma guard_write {B} d1 (f : tower_db → outcome (B * tower_db)) (k : B → dao A) :
  (∀ b d2, f d1 = Ok (b, d2) → in_guard d J d0 d2 (k b)) →
  (∀ e, f d1 = Raise e → is_registration_error e = false) →
  in_guard d J d0 d1 (Sql.write f ≫= k).
Proof.
  intros Hk He s Ht Hs Hx. apply wp_except_bind, (wp_write R _ d1); [done|done|..].
  - intros b d2 s1 E H1 H2 H3. apply Hk with d2; [done|done|congruence|done].
  - intros e s1 E [P1 P2 P3 P4]. rewrite (He e E). apply guard_raise; auto; [|by rewrite P3, Hx].
    rewrite P4; [done|by rewrite Hx].
  - intros f' s1 [P1 P2 P3 P4]. rewrite fault_not_registration. cbn beta iota.
    apply guard_raise; [done|rewrite P4; [done|by rewrite Hx]|by rewrite P3, Hx|apply fault_not_registration].
Qed.

Lemma guard_refuse d1 code : in_guard d J d0 d1 (refuse code).
Proof.
  intros s Ht Hs Hx. unfold guarded, refuse. apply wp_except_bind. unfold wp at 1, Sql.rollback. rewrite Hx.
  cbn. split_and!; [done|by left|]. cbn. by rewrite Hs.
Qed.

Lemma guard_throw d1 e : is_registration_error e = false → in_guard d J d0 d1 (throw e).
Proof.
  intros He s Ht Hs Hx. apply wp_except. unfold wp, throw. cbn. rewrite He.
  apply guard_raise; [done|done|by rewrite Hx|done].
Qed.

Lemma guard_commit d1 a : J a d0 d1 → in_guard d J d0 d1 (_ ← Sql.commit; mret a).
Proof.
  intros HJ s Ht Hs Hx. apply wp_except_bind. eapply (wp_sql_commit R); [done|done|..].
  - intros s1 H1 H2 H3. apply wp_except, wp_ret. split_and!; [done|by left|]. exists d0. by rewrite H1.
  - intros f' s1 [P1 P2 P3 P4]. rewrite fault_not_registration. cbn beta iota.
    apply guard_raise; [done|rewrite P4; [done|by rewrite Hx]|by rewrite P3, Hx|apply fault_not_registration].
Qed.
End Guard.

(** [BEGIN IMMEDIATE] and then a guarded body. *)
Lemma wp_guarded_tx {A} (J : A → tower_db → tower_db → Prop) (m : dao A) s :
  tame R s → tx s = None → (∀ d0, R (saved s) d0 → in_guard (saved s) J d0 d0 m) →
  wp (_ ← Sql.begin_immediate; guarded m) (settled (saved s) J) s.
Proof.
  intros Ht Hx Hm. apply wp_bind, (wp_sql_begin R); [done|done| |].
  - intros s1 H1 H2 H3. by apply (Hm (saved s1) H1 s1).
  - intros f s1 [P1 P2 P3 P4]. split_and!; [done|left; congruence|done].
Qed.

(** What setting a role does, and when. *)
Definition role_set (id new_role perms : string) (res : AgentRecord * bool) (d d' : tower_db) : Prop :=
  let (fresh, changed) := res in
  find_agent id d = Some fresh ∧ active fresh = true ∧
  (new_role = "master"%string → container_active (container_id fresh) d = Some true) ∧
  if (changed : bool)
  then role fresh ≠ new_role ∧
       ∃ l, d' = set_agents l d ∧
         list_update check_agent agent_clash (is_agent id) (λ a,
           with_fields new_role (capability a) (label a) (project_path a) perms (last_registered_at a)
             (last_seen_at a) (active a) a) (agents d) = Ok l
  else role fresh = new_role ∧ d' = d.

Lemma list_update_raise {A} (check : A → bool) clash p f l e :
  list_update check clash p f l = Raise e → e = IntegrityError.
Proof. unfold list_update. case_match; congruence. Qed.

Lemma wp_set_role_tx id new_role perms s :
  tame R s → tx s = None →
  wp (set_role_tx id new_role perms) (settled (saved s) (role_set id new_role perms)) s.
Proof.
  intros Ht Hx. apply wp_guarded_tx; [done|done|]. intros d0 H0.
  apply guard_read; [done|]. destruct (find_agent id d0) as [a|] eqn:Ea; cbn [fmap option_fmap option_map];
    [|by apply guard_refuse].
  destruct (active a) eqn:Eact; cbn [negb]; [|by apply guard_refuse].
  apply guard_read; [done|]. rewrite Ea.
  destruct (bool_decide (new_role = "master"%string) && _) eqn:Em; [by apply guard_refuse|].
  assert (new_role = "master"%string → container_active (container_id a) d0 = Some true) as Hcont.
  { intros Hn. apply andb_false_iff in Em as [Em|Em]; [by apply bool_decide_eq_false in Em|].
    by apply negb_false_iff, bool_decide_eq_true in Em. }
  destruct (bool_decide (role a = new_role)) eqn:Er.
  - apply bool_decide_eq_true in Er. apply guard_commit; [done|]. by split_and!.
  - apply bool_decide_eq_false in Er. unfold update_agent_role, update_agents. apply guard_write; [done|..].
    + intros [] d2 E. case_match eqn:El; [|done]. injection E as <-. apply guard_commit; [done|].
      split_and!; [done..|]. by eexists.
    + intros e E. case_match eqn:El; [done|]. injection E as <-. by apply list_update_raise in El as ->.
Qed.

(** What setting a label or capability does. *)
Definition field_set (id new_value : string) (get_ : AgentRecord → string) (f : AgentRecord → AgentRecord)
    (prior : string) (d d' : tower_db) : Prop :=
  ∃ fresh, find_agent id d = Some fresh ∧ active fresh = true ∧ get_ fresh = prior ∧
    if decide (prior = new_value) then d' = d
    else ∃ l, d' = set_agents l d ∧ list_update check_agent agent_clash (is_agent id) f (agents d) = Ok l.

Lemma wp_set_field_tx id new_value get_ f s :
  tame R s → tx s = None →
  wp (set_field_tx id new_value get_ (update_agents (is_agent id) f))
     (settled (saved s) (field_set id new_value get_ f)) s.
Proof.
  intros Ht Hx. apply wp_guarded_tx; [done|done|]. intros d0 H0.
  apply guard_read; [done|]. destruct (find_agent id d0) as [a|] eqn:Ea; [|by apply guard_refuse].
  destruct (active a) eqn:Eact; cbn [negb]; [|by apply guard_refuse].
  destruct (bool_decide (get_ a = new_value)) eqn:Er.
  - apply bool_decide_eq_true in Er. apply guard_commit; [done|]. exists a. split_and!; [done..|].
    by rewrite decide_True.
  - apply bool_decide_eq_false in Er. unfold update_agents. apply guard_write; [done|..].
    + intros [] d2 E. case_match eqn:El; [|done]. injection E as <-. apply guard_commit; [done|].
      exists a. split_and!; [done..|]. rewrite decide_False by done. by eexists.
    + intros e E. case_match eqn:El; [done|]. injection E as <-. by apply list_update_raise in El as ->.
Qed.
End Updates.

(** ** Updates as requests *)

Lemma obind_Ok {A B} (o : outcome A) (k : A → outcome B) b :
  obind o k = Ok b → ∃ a, o = Ok a ∧ k a = Ok b.
Proof. destruct o; [|done]. by exists a. Qed.

Lemma validate_agent_id_shape_Ok v v' : validate_agent_id_shape v = Ok v' → v' = v.
Proof. unfold validate_agent_id_shape. repeat case_match; congruence. Qed.

Lemma require_string_Ok ps key v : require_string ps key = Ok v → json_get key ps = Some (JStr v).
Proof. unfold require_string. repeat case_match; unfold reject in *; congruence. Qed.

Lemma parse_target_Ok sv ps allowed id :
  parse_target sv ps allowed = Ok id → json_get "agent_id" ps = Some (JStr id).
Proof.
  unfold parse_target. intros (? & _ & (? & _ & (v & Hv & ->%validate_agent_id_shape_Ok)%obind_Ok)%obind_Ok)%obind_Ok.
  by apply require_string_Ok.
Qed.

Lemma parse_set_role_Ok sv ps id new_role confirm :
  parse_set_role sv ps = Ok (id, new_role, confirm) →
  json_get "agent_id" ps = Some (JStr id) ∧ json_get "role" ps = Some (JStr new_role) ∧
  new_role ≠ "swarm"%string ∧
  (new_role = "master"%string → json_get "confirm" ps = Some (JBool true)).
Proof.
  unfold parse_set_role.
  intros (v & ->%parse_target_Ok & (ro & ->%require_string_Ok & (? & _ & (c & Hc & H)%obind_Ok)%obind_Ok)%obind_Ok)%obind_Ok.
  destruct (bool_decide (ro = "swarm"%string)) eqn:E1; [done|]. apply bool_decide_eq_false in E1.
  destruct (bool_decide (ro = "master"%string) && negb c) eqn:E2; [done|]. injection H as -> -> ->.
  split_and!; [done..|]. intros ->. cbn in E2. apply negb_false_iff in E2 as ->.
  destruct (json_get "confirm" ps) as [[]|]; unfold reject in Hc; cbn in Hc; congruence.
Qed.

Section UpdateRequests.
Context (R : relation tower_db) `{!PreOrder R} (schema_version : Z).

Definition set_role_post (ps : params) (uid : Z) (s : desk) (out : outcome SetResult) (s' : desk) : Prop :=
  resting R s' ∧
  ((R (dk_db s) (dk_db s') ∧ dk_lines s' = dk_lines s ∧ is_ok out = false) ∨
   ∃ id new_role confirm perms d0 fresh changed ls,
     parse_set_role schema_version ps = Ok (id, new_role, confirm) ∧ R (dk_db s) d0 ∧
     serialize_effective_permissions new_role = Ok perms ∧
     role_set id new_role perms (fresh, changed) d0 (dk_db s') ∧
     dk_lines s' = dk_lines s ++ ls ∧
     ls `sublist_of` (if changed then [L_role_change id (Some (role fresh)) new_role confirm uid] else []) ∧
     (events_io (dk_tower s) = [] →
        is_ok out = true ∧
        ls = if changed then [L_role_change id (Some (role fresh)) new_role confirm uid] else []) ∧
     ∀ res, out = Ok res → sr_prior_value res = role fresh ∧ sr_new_value res = new_role ∧
       sr_audit_appended res = changed).

Lemma wp_set_role ps uid s :
  resting R s → wp (set_role schema_version ps uid) (set_role_post ps uid s) s.
Proof.
  intros Hs. unfold set_role. apply wp_bind.
  destruct (parse_set_role schema_version ps) as [[[id new_role] confirm]|e] eqn:Ep; cbn [ofail].
  2:{ apply wp_throw. split; [done|]. by left. }
  apply wp_ret. apply (wp_with_conn R); [done| |].
  2:{ intros f x Hp. split; [by apply passed_resting|]. left. by destruct Hp. }
  intros x Hp. set (s1 := set_dk_tower _ s).
  destruct (passed_resting R s x Hs Hp) as [Ht1 Hx1]. change (set_dk_tower _ s) with s1 in Ht1, Hx1.
  assert (R (dk_db s) (dk_db s1)) as HR1 by (by destruct Hp).
  apply wp_bind. destruct (serialize_effective_permissions new_role) as [perms|e] eqn:Es; cbn [ofail].
  2:{ apply wp_throw. split; [by apply closed_resting|]. by left. }
  apply wp_ret, wp_bind, wp_at_sql. eapply wp_mono; [|by apply (wp_set_role_tx R)].
  intros [[fresh changed]|e] s2 (Ht2 & _ & Hend); cbv beta iota.
  2:{ split; [by apply closed_resting|]. left. split_and!; [by trans (dk_db s1)|done|done]. }
  destruct Hend as (d0 & H0 & HJ). set (s2' := set_dk_tower _ s1).
  assert (∀ o s3 (k : outcome unit → outcome SetResult), dk_sess s3 = dk_sess s2' →
    appended (if changed then [L_role_change id (Some (role fresh)) new_role confirm uid] else []) s2' o s3 →
    (∀ u, o = Ok u → is_ok (k o) = true) → (∀ res, k o = Ok res → sr_prior_value res = role fresh ∧
       sr_new_value res = new_role ∧ sr_audit_appended res = changed) →
    set_role_post ps uid s (k o) (closed s3)) as Hk.
  { intros o s3 k E3 (_ & ls & L1 & L2 & L3) Hk1 Hk2. split; [apply closed_resting; by rewrite E3|]. right.
    exists id, new_role, confirm, perms, d0, fresh, changed, ls.
    assert (dk_db (closed s3) = saved s2) as Edb
      by (change (dk_db (closed s3)) with (saved (dk_sess s3)); by rewrite E3).
    assert (dk_lines (closed s3) = dk_lines s ++ ls) as El by exact L1.
    revert Edb El. generalize (closed s3). intros s4 Edb El.
    split_and!; [done|by trans (dk_db s1)|done|by rewrite Edb|done|done| |done].
    intros Hio. destruct (L3 Hio) as (-> & -> & _). split; [by eapply Hk1|done]. }
  destruct changed.
  - apply wp_bind. eapply wp_mono; [|exact (wp_optional_line true _ _ s2')].
    intros o s3 Happ. pose proof Happ as [E3 _]. destruct o as [u|e]; [apply wp_ret|].
    + apply (Hk (Ok u) s3 (λ _, Ok _)); [done|done|done|]. by intros res [= <-].
    + apply (Hk (Raise e) s3 (λ _, Raise e)); done.
  - apply wp_ret. apply (Hk (Ok tt) s2' (λ _, Ok _)); [done| |done|by intros res [= <-]].
    split; [done|]. exists []. rewrite app_nil_r. by split_and!.
Qed.

Definition set_field_post (f : string → AgentRecord → AgentRecord) (get_ : AgentRecord → string)
    (s : desk) (out : outcome SetResult) (s' : desk) : Prop :=
  resting R s' ∧ dk_lines s' = dk_lines s ∧
  match out with
  | Raise _ => R (dk_db s) (dk_db s')
  | Ok res => ∃ d0, R (dk_db s) d0 ∧
      field_set (sr_agent_id res) (sr_new_value res) get_ (f (sr_new_value res)) (sr_prior_value res)
        d0 (dk_db s')
  end.

Lemma wp_set_field (field id new_value : string) get_ (f : string → AgentRecord → AgentRecord) s :
  resting R s →
  wp (with_conn (prior ← at_sql (set_field_tx id new_value get_ (update_agents (is_agent id) (f new_value)));
                 mret (mkSet id field prior new_value None false)))
     (set_field_post f get_ s) s.
Proof.
  intros Hs. apply (wp_with_conn R); [done| |].
  2:{ intros g x Hp. split; [by apply passed_resting|]. split; [done|]. by destruct Hp. }
  intros x Hp. set (s1 := set_dk_tower _ s).
  destruct (passed_resting R s x Hs Hp) as [Ht1 Hx1]. change (set_dk_tower _ s) with s1 in Ht1, Hx1.
  assert (R (dk_db s) (dk_db s1)) as HR1 by (by destruct Hp).
  apply wp_bind, wp_at_sql. eapply wp_mono; [|by apply (wp_set_field_tx R)].
  intros [prior|e] s2 (Ht2 & _ & Hend); cbv beta iota.
  - apply wp_ret. split; [by apply closed_resting|]. split; [done|].
    destruct Hend as (d0 & H0 & HJ). exists d0. split; [by trans (dk_db s1)|exact HJ].
  - split; [by apply closed_resting|]. split; [done|]. by trans (dk_db s1).
Qed.

Definition with_label (v : string) (a : AgentRecord) : AgentRecord :=
  with_fields (role a) (capability a) v (project_path a) (effective_permissions a)
    (last_registered_at a) (last_seen_at a) (active a) a.
Definition with_capability (v : string) (a : AgentRecord) : AgentRecord :=
  with_fields (role a) v (label a) (project_path a) (effective_permissions a)
    (last_registered_at a) (last_seen_at a) (active a) a.

Lemma wp_set_label ps s :
  resting R s → wp (set_label schema_version ps) (set_field_post with_label label s) s.
Proof.
  intros Hs. unfold set_label. apply wp_bind. destruct (parse_target _ _ _) as [id|e]; cbn [ofail].
  2:{ apply wp_throw. by split_and!. }
  apply wp_ret, wp_bind. destruct (json_get "label" ps) as [j|]; cbn [ofail reject];
    [destruct (validate_label j); cbn [ofail]|]; try (apply wp_throw; by split_and!).
  by apply wp_ret, (wp_set_field "label" id _ label with_label).
Qed.

Lemma wp_set_capability ps s :
  resting R s → wp (set_capability schema_version ps) (set_field_post with_capability capability s) s.
Proof.
  intros Hs. unfold set_capability. apply wp_bind. destruct (parse_target _ _ _) as [id|e]; cbn [ofail].
  2:{ apply wp_throw. by split_and!. }
  apply wp_ret, wp_bind. destruct (json_get "capability" ps) as [j|]; cbn [ofail reject];
    [destruct (validate_capability j); cbn [ofail]|]; try (apply wp_throw; by split_and!).
  by apply wp_ret, (wp_set_field "capability" id _ capability with_capability).
Qed.

Lemma wp_list_agents ps s :
  resting R s →
  wp (service_list_agents schema_version ps) (λ _ s', resting R s' ∧ R (dk_db s) (dk_db s')) s.
Proof.
  intros Hs. unfold service_list_agents. apply wp_bind. destruct (parse_agent_filter _ _) as [f|e]; cbn [ofail].
  2:{ by apply wp_throw. }
  apply wp_ret, wp_bind. apply (wp_with_conn R); [done| |].
  2:{ intros g x Hp. split; [by apply passed_resting|]. by destruct Hp. }
  intros x Hp. set (s1 := set_dk_tower _ s).
  destruct (passed_resting R s x Hs Hp) as [Ht1 Hx1]. change (set_dk_tower _ s) with s1 in Ht1, Hx1.
  assert (R (dk_db s) (dk_db s1)) as HR1 by (by destruct Hp).
  apply wp_at_sql. unfold list_agents_full. apply wp_bind, (wp_read R); [done|..].
  - intros x2 [P1 P2 P3 P4]. destruct (list_agents _ _ _ _ _); cbn [ofail]; [apply wp_ret|apply wp_throw];
      [apply wp_ret|]; (split; [by apply closed_resting|by trans (dk_db s1)]).
  - intros g x2 [P1 P2 P3 P4]. split; [by apply closed_resting|by trans (dk_db s1)].
Qed.
End UpdateRequests.

