(* ===== verification/AgentsClaims.v ===== *)
(** What the agents service guarantees, over single requests and over whole histories. *)

From S2P Require Import Prelude Errors Agents Permissions Store AuditWriter Json Session Tables LogDao Tower RegistryDao Validation Desk AgentsService InTx TowerInvariant RegistrySpec AgentsServiceSpec.

Local Open Scope Z_scope.

Inductive agent_request :=
| RegisterAgent (ps : params) (peer_uid : Z)
| SetRole (ps : params) (peer_uid : Z)
| SetLabel (ps : params)
| SetCapability (ps : params)
| ListAgents (ps : params).

(** The only request that makes a master, and of whom. *)
Definition promotes (q : agent_request) (id : string) : Prop :=
  match q with
  | SetRole ps _ =>
      json_get "agent_id" ps = Some (JStr id) ∧ json_get "role" ps = Some (JStr "master") ∧
      json_get "confirm" ps = Some (JBool true)
  | _ => False
  end.

Section Requests.
Context (repr_of : json → string) (schema_version : Z) (log_service : option LogAttacher).

Definition serve (q : agent_request) : M desk unit :=
  match q with
  | RegisterAgent ps uid => _ ← register_agent repr_of schema_version log_service ps uid; mret tt
  | SetRole ps uid => _ ← set_role schema_version ps uid; mret tt
  | SetLabel ps => _ ← set_label schema_version ps; mret tt
  | SetCapability ps => _ ← set_capability schema_version ps; mret tt
  | ListAgents ps => _ ← service_list_agents schema_version ps; mret tt
  end.

(** Requests one after the other, each answered or refused; one that is killed is followed
    by a restart. *)
Definition serve_all (qs : list agent_request) (s : desk) : desk :=
  foldl (λ s q, (serve q s).2) s qs.

Context (Hlogs : ∀ logs, log_service = Some logs → AttachesOnly logs).

(** A registration, under any failures of the database and of the audit file, any other
    writers, and a crash anywhere, either changes nothing, appends nothing and is refused, or
    does exactly one thing to the registry as it found it under the write lock, where the
    pane and its container were active: it adds the new agent, a swarm member only of an
    active slave, or it overwrites the supplied fields of the agent of that pane and
    reactivates it, keeping its parent.  The role change is audited when there is one, before
    the log attachment if one was asked for; the lines are complete when the file takes them. *)
Theorem registration_is_atomic (R : relation tower_db) `{!PreOrder R} ps uid s :
  resting R s →
  wp (register_agent repr_of schema_version log_service ps uid)
     (registration_post R repr_of schema_version ps uid s) s.
Proof. by apply wp_register_agent. Qed.

(** Setting a role, under the same conditions, is refused without effect, or the agent
    was there and active, a new master had an active container and the request was confirmed;
    the role then is the new one with its permissions and nothing else of the agent changed,
    and the change is audited exactly when the role differed. *)
Theorem set_role_is_atomic (R : relation tower_db) `{!PreOrder R} ps uid s :
  resting R s →
  wp (set_role schema_version ps uid) (set_role_post R schema_version ps uid s) s.
Proof. by apply wp_set_role. Qed.

Lemma parsed_role ps r :
  parse_registration repr_of schema_version ps = Ok r → rg_role r ≠ Some "master"%string.
Proof.
  unfold parse_registration.
  intros (? & _ & (? & _ & (? & _ & (key & _ & H)%obind_Ok)%obind_Ok)%obind_Ok)%obind_Ok.
  destruct (negb _); [done|].
  apply obind_Ok in H as (ro & _ & (? & _ & (? & _ & (? & _ & (? & _ & H)%obind_Ok)%obind_Ok)%obind_Ok)%obind_Ok).
  destruct (bool_decide (ro = Some "master"%string)) eqn:E; [done|]. apply bool_decide_eq_false in E.
  repeat (case_match; [done|]). by injection H as <-.
Qed.

Section Steps.
Context (R : relation tower_db) `{!PreOrder R} (Rwf : ∀ d d', R d d' → tower_wf d → tower_wf d').

Definition at_most_one_step (P : string → Prop) (s s' : desk) : Prop :=
  resting R s' ∧
  (R (dk_db s) (dk_db s') ∨ ∃ d0, R (dk_db s) d0 ∧ registry_step P d0 (dk_db s')).

Lemma registration_step ps uid s out s' :
  tower_wf (dk_db s) → registration_post R repr_of schema_version ps uid s out s' →
  at_most_one_step (λ _, False) s s'.
Proof.
  intros Hwf [Hs' [(HR & _)|(r & d0 & id & kind & ch & att & ls & HR & [])]]; (split; [done|]); [by left|].
  right. exists d0. split; [done|].
  assert (agents_step (λ _, False) d0 (agents (dk_db s'))) as Hst
    by (eapply registers_step; [by eapply Rwf|by eapply parsed_role|done..]).
  destruct rd_rest. constructor; [done|done|done|]. intros H.
  apply ol_wf, wf_set_agents; [done|by eapply agents_step_rows].
Qed.

Lemma set_role_step ps uid s out s' :
  set_role_post R schema_version ps uid s out s' → at_most_one_step (promotes (SetRole ps uid)) s s'.
Proof.
  intros [Hs' [(HR & _)|(id & nr & confirm & perms & d0 & fresh & changed & ls & Hp & HR & _ & Hset & _)]];
    (split; [done|]); [by left|].
  apply parse_set_role_Ok in Hp as (Hid & Hrole & _ & Hconf).
  destruct Hset as (_ & _ & _ & Hset). destruct changed.
  - destruct Hset as (_ & l & -> & Hl). right. exists d0. split; [done|].
    apply agents_step_registry. eapply update_agents_step; [exact Hl|].
    intros a Ha Hia%bool_decide_eq_true. apply with_fields_update; [|by left].
    intros ->. right. rewrite Hia. by split_and!; [..|apply Hconf].
  - destruct Hset as [_ ->]. by left.
Qed.

Lemma set_field_step f get_ s out s' :
  (∀ v a, role (f v a) = role a ∧ active (f v a) = active a ∧ identity (f v a) = identity a) →
  set_field_post R f get_ s out s' → at_most_one_step (λ _, False) s s'.
Proof.
  intros Hf [Hs' (_ & H)]. split; [done|]. destruct out as [res|e]; [|by left].
  destruct H as (d0 & HR & a & _ & _ & _ & H). case_decide; [subst; by left|].
  destruct H as (l & -> & Hl). right. exists d0. split; [done|].
  apply agents_step_registry. eapply update_agents_step; [exact Hl|].
  intros b Hb _. destruct (Hf (sr_new_value res) b) as (H1 & H2 & H3).
  constructor; [done|rewrite H1; by left|rewrite H2; by left].
Qed.

Lemma wp_discard {A} (m : M desk A) (Q Q' : desk → Prop) s :
  wp m (λ _ s', Q s') s → (∀ s', Q s' → Q' s') → wp (_ ← m; mret tt) (λ _ s', Q' s') s.
Proof.
  intros H HQ. apply wp_bind. eapply wp_mono; [|exact H]. intros [a|e] s' Hs'; [apply wp_ret|]; auto.
Qed.

Lemma serve_step q s :
  resting R s → tower_wf (dk_db s) → wp (serve q) (λ _ s', at_most_one_step (promotes q) s s') s.
Proof.
  intros Hs Hwf. destruct q as [ps uid|ps uid|ps|ps|ps]; cbn [serve];
    (eapply wp_discard; [|intros s' H; exact H]).
  - eapply wp_mono; [|by apply (wp_register_agent R repr_of schema_version log_service)].
    intros o s'. by apply registration_step.
  - eapply wp_mono; [|by apply (wp_set_role R)]. intros o s'. apply set_role_step.
  - eapply wp_mono; [|by apply (wp_set_label R)]. intros o s'. by apply set_field_step.
  - eapply wp_mono; [|by apply (wp_set_capability R)]. intros o s'. by apply set_field_step.
  - eapply wp_mono; [|by apply (wp_list_agents R)]. intros o s' [H1 H2]. split; [done|by left].
Qed.
End Steps.

(** C16: the service implements the registry specification: whatever the request, and
    whatever fails, the database moves by at most one step of the specification between moves
    of the others, and only a confirmed request for a master is a promotion. *)
Theorem requests_refine_registry (R : relation tower_db) `{!PreOrder R} q s :
  (∀ d d', R d d' → tower_wf d → tower_wf d') → resting R s → tower_wf (dk_db s) →
  wp (serve q) (λ _ s', at_most_one_step R (promotes q) s s') s.
Proof. intros Rwf. by apply serve_step. Qed.

End Requests.

(** ** A small installation *)

Definition demo_key : pane_key := ("c1", "/tmp/tmux", "main", 0, 0, "%0")%string.
Definition demo_key2 : pane_key := ("c1", "/tmp/tmux", "main", 0, 1, "%1")%string.

Definition demo_pane (k : pane_key) : PaneRec :=
  let '(c, so, se, w, p, id) := k in
  mkPaneRec c so se w p id "bench" "dev" 7 "/dev/pts/0" "bash" "/work" "t" true true "t0" "t0".

Definition demo_registry : tower_db :=
  mkTowerDb {[ "c1"%string := mkContainerRec "c1" "bench" "img" "running" [] [] EmptyString (Some "dev"%string)
               None true "t0" "t0" ]} []
    {[ demo_key := demo_pane demo_key; demo_key2 := demo_pane demo_key2 ]} [] [] [] ∅ [] 0.

Definition demo_desk (faults : list (option sql_fault)) (io : list (option io_fault)) : desk :=
  mkDesk (mkTower (mkSession demo_registry None faults []) ∅ [] [] [] io true [] (mkSuppression ∅ ∅ ∅ ∅))
    ("t1", ["t2"; "t3"; "t4"]) ["aaaaaaaaaaaa"; "bbbbbbbbbbbb"] [] [] (mkFs (λ p, Ok p) (λ _, true) (λ _, true)) [].

Definition key_json (k : pane_key) : json :=
  let '(c, so, se, w, p, id) := k in
  JObj [("container_id", JStr c); ("tmux_socket_path", JStr so); ("tmux_session_name", JStr se);
        ("tmux_window_index", JInt w); ("tmux_pane_index", JInt p); ("tmux_pane_id", JStr id)]%string.

Definition register_demo (k : pane_key) (fields : params) : agent_request :=
  RegisterAgent ([("container_id"%string, JStr "c1"); ("pane_composite_key"%string, key_json k)] ++ fields) 1000.
Definition set_role_demo (id role : string) (confirm : bool) : agent_request :=
  SetRole [("agent_id", JStr id); ("role", JStr role); ("confirm", JBool confirm)]%string 1000.

Definition demo_serve_all := serve_all (λ _, EmptyString) 1 None.

(** Ids, roles, parents and labels of the agents a history leaves. *)
Definition agents_of (s : desk) : list (string * string * option string * string) :=
  (λ a, (agent_id a, role a, parent_agent_id a, label a)) <$> agents (dk_db s).

Definition demo_history : list agent_request :=
  [register_demo demo_key [("role"%string, JStr "slave"); ("label"%string, JStr "first")];
   register_demo demo_key2 [("role"%string, JStr "swarm"); ("parent_agent_id"%string, JStr "agt_aaaaaaaaaaaa")];
   register_demo demo_key [("role"%string, JStr "master")];
   set_role_demo "agt_aaaaaaaaaaaa" "master" false;
   set_role_demo "agt_aaaaaaaaaaaa" "master" true].

Example demo_history_run :
  agents_of (demo_serve_all demo_history (demo_desk [] [])) =
    [("agt_aaaaaaaaaaaa", "master", None, "first");
     ("agt_bbbbbbbbbbbb", "swarm", Some "agt_aaaaaaaaaaaa", EmptyString)]%string ∧
  length (dk_lines (demo_serve_all demo_history (demo_desk [] []))) = 3%nat.
Proof. vm_compute. done. Qed.

Lemma demo_resting R faults io : resting R (demo_desk faults io).
Proof. split; [constructor|done]. Qed.

Lemma demo_registry_wf : tower_wf demo_registry.
Proof.
  constructor; try apply map_Forall_empty; try (by repeat constructor).
  - by apply map_Forall_singleton.
  - apply map_Forall_insert_2; [done|]. by apply map_Forall_singleton.
Qed.

Lemma registration_is_atomic_witness :
  let ps := [("container_id"%string, JStr "c1"); ("pane_composite_key"%string, key_json demo_key)] in
  wp (register_agent (λ _, EmptyString) 1 None ps 1000)
     (registration_post eq (λ _, EmptyString) 1 ps 1000 (demo_desk [] [])) (demo_desk [] []) ∧
  is_ok (register_agent (λ _, EmptyString) 1 None ps 1000 (demo_desk [] [])).1 = true.
Proof.
  intros ps. split; [|vm_compute; reflexivity].
  apply (registration_is_atomic (λ _, EmptyString) 1 None); [done|apply _|apply demo_resting].
Defined.

Lemma set_role_is_atomic_witness :
  let s := demo_serve_all [register_demo demo_key []] (demo_desk [] []) in
  let ps := [("agent_id", JStr "agt_aaaaaaaaaaaa"); ("role", JStr "slave")]%string in
  wp (set_role 1 ps 1000) (set_role_post eq 1 ps 1000 s) s ∧
  is_ok (set_role 1 ps 1000 s).1 = true.
Proof.
  intros s ps. split; [|vm_compute; reflexivity].
  apply set_role_is_atomic; [apply _|]. split; [vm_compute; constructor|vm_compute; reflexivity].
Defined.

Lemma requests_refine_registry_witness :
  wp (serve (λ _, EmptyString) 1 None (register_demo demo_key []))
     (λ _ s', at_most_one_step eq (promotes (register_demo demo_key [])) (demo_desk [None] []) s')
     (demo_desk [None] []).
Proof.
  apply requests_refine_registry; [done|apply _|by intros d d' ->|apply demo_resting|apply demo_registry_wf].
Defined.

(** A swarm member that [set_role] has made something else keeps its parent; from then on it
    cannot register again without naming the role swarm and the same parent. *)
Example demoted_swarm_cannot_reregister :
  let s := demo_serve_all
    [register_demo demo_key [("role"%string, JStr "slave")];
     register_demo demo_key2 [("role"%string, JStr "swarm"); ("parent_agent_id"%string, JStr "agt_aaaaaaaaaaaa")];
     set_role_demo "agt_bbbbbbbbbbbb" "shell" false] (demo_desk [] []) in
  agents_of s = [("agt_aaaaaaaaaaaa", "slave", None, EmptyString);
                 ("agt_bbbbbbbbbbbb", "shell", Some "agt_aaaaaaaaaaaa", EmptyString)]%string ∧
  (register_agent (λ _, EmptyString) 1 None
     [("container_id"%string, JStr "c1"); ("pane_composite_key"%string, key_json demo_key2)] 1000 s).1 =
  Raise (RegistrationError "parent_role_mismatch").
Proof. vm_compute. done. Qed.
