(* ===== verification/PipePane.v ===== *)
(** The [tmux pipe-pane] commands the daemon runs in containers and how it reads the state
    of a pipe (src/src/agenttower/logs/pipe_pane.py, logs/pipe_pane_state.py), with
    [shlex.quote] and [shlex.join], and what a shell makes of the commands. *)

From S2P Require Import Prelude Errors Agents Envelope Json Validation.
From Stdlib Require Import Ascii.

(** ** Quoting *)

Definition apostrophe : ascii := "039"%char.

(** The characters [shlex] leaves bare: ASCII word characters and [@%+=:,./-]. *)
Definition shell_safe (c : ascii) : bool :=
  let n := nat_of_ascii c in
  ((48 <=? n) && (n <=? 57)) || ((65 <=? n) && (n <=? 90)) || ((97 <=? n) && (n <=? 122)) ||
  bool_decide (c ∈ ["_"; "@"; "%"; "+"; "="; ":"; ","; "."; "/"; "-"]%char).

(** An apostrophe becomes itself in double quotes, between two single-quoted parts. *)
Fixpoint escape_apostrophes (s : string) : string :=
  match s with
  | EmptyString => EmptyString
  | String c s' =>
      if bool_decide (c = apostrophe)
      then String apostrophe (String quote_mark (String apostrophe (String quote_mark
             (String apostrophe (escape_apostrophes s')))))
      else String c (escape_apostrophes s')
  end.

(** [shlex.quote] *)
Definition quote (s : string) : string :=
  match s with
  | EmptyString => String apostrophe (String apostrophe EmptyString)
  | _ => if Text.all shell_safe s then s
         else String apostrophe (escape_apostrophes s +:+ String apostrophe EmptyString)
  end.

(** [shlex.join] *)
Definition shell_join (l : list string) : string := join_with " " (quote <$> l).

(** ** Commands *)

(** [_exec_env_args] *)
Definition exec_env_args : list string := ["-e"; "LANG=C.UTF-8"; "-e"; "LC_ALL=C.UTF-8"].

Definition docker_exec_argv (container_user container_id inner : string) : list string :=
  ["docker"; "exec"] ++ exec_env_args ++ ["-u"; container_user; container_id; "sh"; "-lc"; inner].

Definition cat_command (container_side_log : string) : string := "cat >> " +:+ quote container_side_log.

Definition attach_inner (pane_short_form container_side_log : string) : string :=
  "tmux pipe-pane -o -t " +:+ quote pane_short_form +:+ " " +:+ quote (cat_command container_side_log).

Definition build_attach_argv (container_user container_id pane_short_form container_side_log : string)
  : list string :=
  docker_exec_argv container_user container_id (attach_inner pane_short_form container_side_log).

Definition toggle_off_inner (pane_short_form : string) : string :=
  "tmux pipe-pane -t " +:+ quote pane_short_form.

Definition build_toggle_off_argv (container_user container_id pane_short_form : string) : list string :=
  docker_exec_argv container_user container_id (toggle_off_inner pane_short_form).

Definition inspection_inner (pane_short_form : string) : string :=
  "tmux list-panes -F " +:+ quote "#{pane_pipe} #{pane_pipe_command}" +:+ " -t " +:+ quote pane_short_form.

Definition build_inspection_argv (container_user container_id pane_short_form : string) : list string :=
  docker_exec_argv container_user container_id (inspection_inner pane_short_form).

(** ** Bounded text *)

Definition STDERR_CAP : nat := Z.to_nat 2048.
Definition PIPE_COMMAND_CAP : nat := Z.to_nat 4096.
Definition PRIOR_PIPE_TARGET_CAP : nat := Z.to_nat 2048.

(** The character U+2026. *)
Definition ellipsis : string := String "226"%char (String "128"%char (String "166"%char EmptyString)).

Definition cap_text (cap : nat) (s : string) : string :=
  if cap <? char_count s then take_chars (cap - 1) s +:+ ellipsis else s.

Definition render_pipe_command_for_audit
    (container_user container_id pane_short_form container_side_log : string) : string :=
  cap_text PIPE_COMMAND_CAP
    (string_filter (λ c, let n := nat_of_ascii c in (32 <=? n) || (n =? 9))
       (shell_join (build_attach_argv container_user container_id pane_short_form container_side_log))).

(** [translate f s]: each character replaced by what [f] says, or dropped. *)
Fixpoint translate (f : ascii → option ascii) (s : string) : string :=
  match s with
  | EmptyString => EmptyString
  | String c s' => match f c with Some x => String x (translate f s') | None => translate f s' end
  end.

Definition sanitize_pipe_pane_stderr (stderr : string) : string :=
  cap_text STDERR_CAP (strip (translate (λ c,
    let n := nat_of_ascii c in
    if (n =? 0) then None
    else if (n =? 10) || (n =? 13) || (n =? 9) then Some " "%char
    else if (n <? 32) || (n =? 127) then None else Some c) stderr)).

Definition sanitize_prior_pipe_target (value : string) : string :=
  cap_text PRIOR_PIPE_TARGET_CAP (strip (translate (λ c,
    let n := nat_of_ascii c in
    if (n =? 0) then None else if (n <? 32) || (n =? 127) then Some " "%char else Some c) value)).

Definition PIPE_PANE_STDERR_PATTERNS : list string :=
  ["session not found"; "pane not found"; "no current target"].

(** [_stderr_matches_pipe_pane_failure] *)
Definition stderr_matches_pipe_pane_failure (stderr : string) : bool :=
  existsb (λ p, Text.contains (Text.lower p) (Text.lower stderr)) PIPE_PANE_STDERR_PATTERNS.

(** ** The state of a pipe *)

Record PaneState := mkPaneState { pipe_active : bool; pipe_command : string }.

Record PipeTargetClassification := mkTarget { is_canonical : bool; foreign_target : option string }.

Fixpoint lstrip_char (x : ascii) (s : string) : string :=
  match s with
  | String c s' => if bool_decide (c = x) then lstrip_char x s' else s
  | EmptyString => s
  end.
Fixpoint rstrip_char (x : ascii) (s : string) : string :=
  match s with
  | EmptyString => EmptyString
  | String c s' =>
      match rstrip_char x s' with
      | EmptyString => if bool_decide (c = x) then EmptyString else String c EmptyString
      | t => String c t
      end
  end.

(** [s.split(sep, 1)] *)
Fixpoint split_once (sep : ascii) (s : string) : string * option string :=
  match s with
  | EmptyString => (EmptyString, None)
  | String c s' =>
      if bool_decide (c = sep) then (EmptyString, Some s')
      else let (a, b) := split_once sep s' in (String c a, b)
  end.

Definition parse_list_panes_output (output : string) : PaneState :=
  let line := rstrip_char newline (lstrip_char newline output) in
  if bool_decide (line = EmptyString) then mkPaneState false EmptyString
  else
    let (flag, rest) := split_once " "%char line in
    let cmd := default EmptyString rest in
    mkPaneState (bool_decide (flag = "1"%string) && negb (bool_decide (strip cmd = EmptyString))) cmd.

Definition classify_pipe_target (pipe_command expected_canonical_path : string) : PipeTargetClassification :=
  let cmd := strip pipe_command in
  if bool_decide (cmd = EmptyString) then mkTarget false None
  else if bool_decide (cmd = cat_command expected_canonical_path) then mkTarget true None
  else mkTarget false (Some cmd).

(** ** What a shell reads

Words and the append redirection of a simple command: bare safe characters stand for
themselves, single quotes take everything, double quotes everything but what expands in
them; any other bare character would mean more than a word, and nothing is said of it. *)

Inductive shell_token := Word (w : string) | Append.

Inductive shell_mode := Between | InWord (w : string) | InSingle (w : string) | InDouble (w : string)
  | Redirect.

Definition expands_in_double_quotes (c : ascii) : bool :=
  bool_decide (c ∈ ["$"; "`"; "\"; "!"]%char).

Definition push (w : string) (c : ascii) : string := w +:+ String c EmptyString.

Fixpoint shell_tokens (mode : shell_mode) (s : string) : option (list shell_token) :=
  match s with
  | EmptyString =>
      match mode with
      | Between => Some []
      | InWord w => Some [Word w]
      | InSingle _ | InDouble _ | Redirect => None
      end
  | String c s' =>
      match mode with
      | InSingle w => if bool_decide (c = apostrophe) then shell_tokens (InWord w) s'
                      else shell_tokens (InSingle (push w c)) s'
      | InDouble w => if bool_decide (c = quote_mark) then shell_tokens (InWord w) s'
                      else if expands_in_double_quotes c then None
                      else shell_tokens (InDouble (push w c)) s'
      | Redirect => if bool_decide (c = ">"%char) then cons Append <$> shell_tokens Between s' else None
      | Between | InWord _ =>
          let w := match mode with InWord w => w | _ => EmptyString end in
          if bool_decide (c = apostrophe) then shell_tokens (InSingle w) s'
          else if bool_decide (c = quote_mark) then shell_tokens (InDouble w) s'
          else if bool_decide (c = " "%char)
          then match mode with
               | InWord w => cons (Word w) <$> shell_tokens Between s'
               | _ => shell_tokens Between s'
               end
          else if bool_decide (c = ">"%char)
          then match mode with InWord _ => None | _ => shell_tokens Redirect s' end
          else if shell_safe c then shell_tokens (InWord (push w c)) s'
          else None
      end
  end.

Definition shell_read (s : string) : option (list shell_token) := shell_tokens Between s.

(** ** Quoted text is read back *)

Lemma push_app w c s : push w c +:+ s = w +:+ String c s.
Proof. unfold push. by rewrite str_app_assoc. Qed.

Lemma safe_plain c x :
  shell_safe c = true → x ∈ [apostrophe; quote_mark; " "%char; ">"%char] → bool_decide (c = x) = false.
Proof.
  intros Hc Hx. apply bool_decide_eq_false_2. intros ->.
  repeat (apply elem_of_cons in Hx as [->|Hx]; [done|]). by apply elem_of_nil in Hx.
Qed.

Lemma tokens_safe w s rest :
  Text.all shell_safe s = true →
  shell_tokens (InWord w) (s +:+ rest) = shell_tokens (InWord (w +:+ s)) rest.
Proof.
  revert w. induction s as [|c s IH]; intros w; cbn [Text.all].
  - intros _. by rewrite Text.app_empty_r.
  - intros [Hc Hs]%andb_true_iff. change (String c s +:+ rest) with (String c (s +:+ rest)).
    cbn [shell_tokens]. rewrite !(safe_plain c) by (done || set_solver). rewrite Hc, IH by done.
    by rewrite push_app.
Qed.

Lemma tokens_single w s rest :
  shell_tokens (InSingle w) (escape_apostrophes s +:+ String apostrophe rest) =
  shell_tokens (InWord (w +:+ s)) rest.
Proof.
  revert w. induction s as [|c s IH]; intros w; cbn [escape_apostrophes].
  - cbn. by rewrite Text.app_empty_r.
  - destruct (bool_decide (c = apostrophe)) eqn:E.
    + apply bool_decide_eq_true in E as ->.
      change (shell_tokens (InSingle (push w apostrophe)) (escape_apostrophes s +:+ String apostrophe rest) =
        shell_tokens (InWord (w +:+ String apostrophe s)) rest). by rewrite IH, push_app.
    + change (String c ?a +:+ ?b) with (String c (a +:+ b)). cbn [shell_tokens]. rewrite E, IH.
      by rewrite push_app.
Qed.

(** A quoted string at the start of a word is read as that word so far. *)
Lemma tokens_quote mode s rest :
  mode = Between ∨ mode = InWord EmptyString →
  shell_tokens mode (quote s +:+ rest) = shell_tokens (InWord s) rest.
Proof.
  intros Hm. unfold quote. destruct s as [|c s]; [by destruct Hm as [-> | ->]|].
  destruct (Text.all shell_safe (String c s)) eqn:E.
  - pose proof E as [Hc Hs]%andb_true_iff. transitivity (shell_tokens (InWord EmptyString) (String c s +:+ rest)).
    + destruct Hm as [-> | ->]; [|done]. change (String c s +:+ rest) with (String c (s +:+ rest)).
      cbn [shell_tokens]. rewrite !(safe_plain c) by (done || set_solver). by rewrite Hc.
    + by rewrite tokens_safe.
  - change (String apostrophe ?a +:+ rest) with (String apostrophe (a +:+ rest)).
    rewrite str_app_assoc. change (String apostrophe EmptyString +:+ rest) with (String apostrophe rest).
    destruct Hm as [-> | ->]; cbn [shell_tokens]; (rewrite bool_decide_eq_true_2 by done); by rewrite tokens_single.
Qed.

Lemma tokens_word s rest :
  shell_tokens Between (quote s +:+ String " " rest) = cons (Word s) <$> shell_tokens Between rest.
Proof. rewrite tokens_quote by (by left). done. Qed.

Lemma tokens_last s : shell_tokens Between (quote s) = Some [Word s].
Proof. rewrite <- (Text.app_empty_r (quote s)), tokens_quote by (by left). done. Qed.

