(* ===== verification/LogPaths.v ===== *)
(** Where logs may live: the canonical paths (src/src/agenttower/logs/canonical_paths.py), the
    check of a path the user gives (logs/path_validation.py), and the proof that a path inside
    a container is a file of the host (logs/host_visibility.py).

    [Path(a) / b] drops empty and [.] segments; a leading double slash is not kept apart.
    The mounts of a container are the decoded column.  Of the messages of
    [LogPathNotHostVisible] only the one about too many mounts is told apart. *)

From S2P Require Import Prelude Errors Agents Envelope Json Tables LogDao Tower Validation Desk PipePane.
From Stdlib Require Import Ascii.

(** ** pathlib *)

Definition segments (s : string) : list string :=
  filter (λ c, c ≠ EmptyString ∧ c ≠ "."%string) (Text.split "/"%char s).

(** [str(Path(s))] *)
Definition path_str (s : string) : string :=
  if Text.startswith "/" s then "/" +:+ join_with "/" (segments s)
  else match segments s with [] => "." | l => join_with "/" l end.

(** [str(Path(a) / b)] *)
Definition path_join (a b : string) : string :=
  if Text.startswith "/" b then path_str b else path_str (a +:+ "/" +:+ b).

(** ** Canonical paths *)

Definition LOG_ROOT_REL : string := ".local/state/opensoft/agenttower/logs".
Definition DAEMON_OWNED_ROOTS_REL : list string :=
  [".local/state/opensoft/agenttower"; ".config/opensoft"; ".cache/opensoft"].
Definition SPECIAL_FS_PREFIXES : list string := ["/proc/"; "/sys/"; "/dev/"; "/run/"].

Definition host_canonical_log_root_for (home : string) : string := path_join home LOG_ROOT_REL.

Definition host_canonical_log_path_for (home container_id agent_id : string) : string :=
  path_join (path_join (host_canonical_log_root_for home) container_id) (agent_id +:+ ".log").

Definition container_home_for_user (container_user : string) : string :=
  if bool_decide (container_user = "root"%string) then "/root" else path_join "/home" container_user.

Definition container_canonical_log_root_for (container_user : string) : string :=
  path_join (container_home_for_user container_user) LOG_ROOT_REL.

Definition container_canonical_log_path_for (container_user container_id agent_id : string) : string :=
  path_join (path_join (container_canonical_log_root_for container_user) container_id) (agent_id +:+ ".log").

Definition daemon_owned_roots_for (home : string) : list string := path_join home <$> DAEMON_OWNED_ROOTS_REL.

(** ** A path the user gives *)

Definition PATH_MAX : nat := Z.to_nat 4096.

Definition log_path_invalid {A} : outcome A := Raise (PyError "LogPathInvalid").

Definition under_or_at (root value : string) : bool :=
  bool_decide (value = root) || Text.startswith (root +:+ "/") value.

Definition validate_log_path (value home : string) : outcome string :=
  if negb (Text.all (λ c, negb (is_nul c)) value) then log_path_invalid
  else if bool_decide (value = EmptyString) then log_path_invalid
  else if PATH_MAX <? char_count value then log_path_invalid
  else if negb (Text.all printable value) then log_path_invalid
  else if negb (Text.startswith "/" value) then log_path_invalid
  else if bool_decide (".."%string ∈ Text.split "/"%char value) then log_path_invalid
  else if existsb (λ p, bool_decide (value = rstrip_char "/"%char p) || Text.startswith p value)
            SPECIAL_FS_PREFIXES
  then log_path_invalid
  else if under_or_at (host_canonical_log_root_for home) value then Ok value
  else if existsb (λ owned, under_or_at owned value) (daemon_owned_roots_for home) then log_path_invalid
  else Ok value.

(** ** Host visibility *)

Definition MAX_MOUNT_ENTRIES : nat := 256.
Definition MAX_REALPATH_HOPS : nat := 8.

Record HostVisibilityProof := mkProof {
  hv_host_path : string; hv_container_path : string; hv_mount_destination : string;
  hv_mount_source : string
}.

Definition NotHostVisible : exn := PyError "LogPathNotHostVisible".
Definition TooManyMounts : exn := PyError "LogPathNotHostVisible: FR-063".
Definition not_visible {A} : outcome A := Raise NotHostVisible.

(** [_is_under] *)
Definition is_under (path root : string) : bool :=
  bool_decide (path = root) || Text.startswith (rstrip_char "/"%char root +:+ "/") path.

(** [_resolve_source_realpath]: follow until the path stays, at most [hops] times. *)
Fixpoint resolve_source_realpath (fs : HostFs) (hops : nat) (visited : list string) (current : string)
  : outcome string :=
  match hops with
  | O => not_visible
  | S n =>
      match realpath fs current with
      | Raise e => if is_os_error e then not_visible else Raise e
      | Ok resolved =>
          if bool_decide (resolved = current) then Ok resolved
          else if bool_decide (resolved ∈ visited) then not_visible
          else resolve_source_realpath fs n (current :: visited) resolved
      end
  end.

Definition usable_mount (m : Mount) : bool :=
  bool_decide (mt_type m ∈ ["bind"; "volume"]%string) &&
  Text.startswith "/" (mt_target m) && Text.startswith "/" (mt_source m).

(** The candidates a mount offers for a path: (length, is the path a container path, mount). *)
Definition mount_candidates (requested : string) (m : Mount) : list (nat * bool * Mount) :=
  if usable_mount m then
    (if is_under requested (mt_target m) then [(char_count (mt_target m), true, m)] else []) ++
    (if is_under requested (mt_source m) then [(char_count (mt_source m), false, m)] else [])
  else [].

(** The first of the longest: the head after a stable descending sort. *)
Fixpoint deepest (l : list (nat * bool * Mount)) : option (nat * bool * Mount) :=
  match l with
  | [] => None
  | c :: rest =>
      match deepest rest with
      | Some c' => if c.1.1 <? c'.1.1 then Some c' else Some c
      | None => Some c
      end
  end.

Definition or_root (s : string) : string := if bool_decide (s = EmptyString) then "/" else s.

(** The rest of [path] below [root], with a leading slash unless it is [root] itself. *)
Definition relative_to (root path : string) : string :=
  if bool_decide (path = root) then EmptyString
  else let r := Text.drop (String.length root) path in
       if Text.startswith "/" r then r else "/" +:+ r.

(** [os.path.dirname] *)
Fixpoint upto_last_slash (s : string) : option string :=
  match s with
  | EmptyString => None
  | String c s' =>
      match upto_last_slash s' with
      | Some h => Some (String c h)
      | None => if bool_decide (c = "/"%char) then Some (String c EmptyString) else None
      end
  end.
Definition dirname (p : string) : string :=
  match upto_last_slash p with
  | None => EmptyString
  | Some h => let h' := rstrip_char "/"%char h in if bool_decide (h' = EmptyString) then h else h'
  end.

Definition prove_host_visible (fs : HostFs) (mounts : list Mount) (requested : string)
    (require_writable : bool) : outcome HostVisibilityProof :=
  if negb (Text.startswith "/" requested) then not_visible
  else if MAX_MOUNT_ENTRIES <? length mounts then Raise TooManyMounts
  else
    match deepest (concat (mount_candidates requested <$> mounts)) with
    | None => not_visible
    | Some (_, from_container, m) =>
        let destination := or_root (rstrip_char "/"%char (mt_target m)) in
        let source := or_root (rstrip_char "/"%char (mt_source m)) in
        let '(container_path, raw_host_path) :=
          if (from_container : bool) then (requested, source +:+ relative_to destination requested)
          else (destination +:+ relative_to source requested, requested) in
        obind (resolve_source_realpath fs MAX_REALPATH_HOPS [] source) (λ resolved_source,
        obind (realpath fs raw_host_path) (λ resolved_host_path,
        if negb (is_under resolved_host_path resolved_source) then not_visible
        else if negb (isdir fs (or_root (dirname resolved_host_path))) && negb (isdir fs resolved_source)
        then not_visible
        else if require_writable && negb (writable fs resolved_source) then not_visible
        else Ok (mkProof resolved_host_path container_path destination resolved_source)))
    end.

(** ** Properties *)

(** A path of the user passes only if it is absolute, printable, bounded and without
    [..] segments, and lies neither in a special file system nor in the daemon's own
    directories outside its log directory. *)
Theorem accepted_log_path value home v :
  validate_log_path value home = Ok v →
  v = value ∧ Text.startswith "/" v = true ∧ Text.all printable v = true ∧
  (char_count v ≤ PATH_MAX) ∧ (".."%string ∉ Text.split "/"%char v) ∧
  (∀ p, p ∈ SPECIAL_FS_PREFIXES → Text.startswith p v = false) ∧
  (∀ owned, owned ∈ daemon_owned_roots_for home →
     under_or_at owned v = true → under_or_at (host_canonical_log_root_for home) v = true).
Proof.
  unfold validate_log_path. destruct (negb (Text.all _ value)); [done|].
  destruct (bool_decide (value = EmptyString)); [done|].
  destruct (PATH_MAX <? char_count value) eqn:Elen; [done|]. apply Nat.ltb_ge in Elen.
  destruct (Text.all printable value) eqn:Ep; [|done].
  destruct (Text.startswith "/" value) eqn:Es; [|done]. cbn [negb].
  destruct (bool_decide (".."%string ∈ _)) eqn:Ed; [done|]. apply bool_decide_eq_false in Ed.
  destruct (existsb _ SPECIAL_FS_PREFIXES) eqn:Ef; [done|].
  assert (∀ p, p ∈ SPECIAL_FS_PREFIXES → Text.startswith p value = false) as Hspecial.
  { intros p Hp. destruct (Text.startswith p value) eqn:E; [|done].
    enough (existsb (λ p, bool_decide (value = rstrip_char "/"%char p) || Text.startswith p value)
              SPECIAL_FS_PREFIXES = true) by congruence.
    apply existsb_exists. exists p. split; [by apply list_elem_of_In|]. by rewrite E, orb_true_r. }
  destruct (under_or_at (host_canonical_log_root_for home) value) eqn:Er.
  - intros [= <-]. by split_and!.
  - destruct (existsb _ (daemon_owned_roots_for home)) eqn:Eo; [done|]. intros [= <-].
    split_and!; [done..|]. intros owned Ho Hu. exfalso.
    enough (existsb (λ owned, under_or_at owned value) (daemon_owned_roots_for home) = true) by congruence.
    apply existsb_exists. exists owned. split; [by apply list_elem_of_In|done].
Qed.

Lemma deepest_elem l c : deepest l = Some c → c ∈ l.
Proof.
  revert c. induction l as [|x l IH]; intros c; cbn; [done|].
  destruct (deepest l) as [y|]; [|intros [= <-]; by left].
  case_match; intros [= <-]; [right; by apply IH|by left].
Qed.

Lemma deepest_max l c : deepest l = Some c → ∀ c', c' ∈ l → c'.1.1 ≤ c.1.1.
Proof.
  revert c. induction l as [|x l IH]; intros c; cbn; [done|].
  destruct (deepest l) as [y|] eqn:El.
  - case_match eqn:E; intros [= <-] c' [->|Hc']%elem_of_cons;
      [apply Nat.ltb_lt in E; lia|by apply IH|done|].
    apply Nat.ltb_ge in E. specialize (IH y eq_refl c' Hc'). lia.
  - intros [= <-] c' [->|Hc']%elem_of_cons; [done|]. exfalso. destruct l; [by apply elem_of_nil in Hc'|].
    cbn in El. by destruct (deepest l) as [|]; [case_match|].
Qed.

Definition covers (requested : string) (c : nat * bool * Mount) : Prop :=
  let side := if c.1.2 then mt_target c.2 else mt_source c.2 in
  usable_mount c.2 = true ∧ is_under requested side = true ∧ c.1.1 = char_count side.

Lemma candidates_spec requested mounts c :
  c ∈ concat (mount_candidates requested <$> mounts) ↔ c.2 ∈ mounts ∧ covers requested c.
Proof.
  rewrite list_elem_of_In, in_concat. destruct c as [[n side] m]. unfold covers. cbn. split.
  - intros (cs & Hcs & Hc). apply list_elem_of_In, list_elem_of_fmap in Hcs as (m0 & -> & Hm0).
    apply list_elem_of_In in Hc. unfold mount_candidates in Hc.
    destruct (usable_mount m0) eqn:Eu; [|by apply elem_of_nil in Hc].
    apply elem_of_app in Hc as [Hc|Hc]; case_match eqn:E; try by apply elem_of_nil in Hc.
    all: apply list_elem_of_singleton in Hc; injection Hc as -> -> ->; by split_and!.
  - intros (Hm & Hu & Hs & ->). exists (mount_candidates requested m). split.
    + by apply list_elem_of_In, list_elem_of_fmap_2.
    + apply list_elem_of_In. unfold mount_candidates. rewrite Hu.
      destruct side; rewrite Hs; [|apply elem_of_app; right]; set_solver.
Qed.

Lemma resolve_source_fixed fs hops visited p q :
  resolve_source_realpath fs hops visited p = Ok q → realpath fs q = Ok q.
Proof.
  revert visited p. induction hops as [|n IH]; intros visited p; cbn; [done|].
  destruct (realpath fs p) as [r|e] eqn:E; [|by destruct (is_os_error e)].
  case_bool_decide as Hr; [subst; by intros [= <-]|]. case_bool_decide; [done|]. apply IH.
Qed.


(** ** Examples *)

Definition plain_fs : HostFs := mkFs (λ p, Ok p) (λ _, true) (λ _, true).
Definition work_mount : Mount := mkMount "/srv/work" "/work" "bind" "rw" true.

Lemma accepted_log_path_witness :
  validate_log_path "/work/a.log" "/home/me" = Ok "/work/a.log"%string ∧
  ".."%string ∉ Text.split "/"%char "/work/a.log".
Proof.
  assert (validate_log_path "/work/a.log" "/home/me" = Ok "/work/a.log"%string) as E by (vm_compute; reflexivity).
  split; [exact E|]. apply (accepted_log_path "/work/a.log" "/home/me" "/work/a.log" E).
Defined.


(** The two checks of the requested path are not repeated on the path of the host: through a
    mount it may be a file of the daemon or of a special file system. *)
Example mounts_reach_refused_paths :
  let mounts := [mkMount "/home/me/.config/opensoft" "/data" "bind" "rw" true;
                 mkMount "/run/user" "/scratch" "bind" "rw" true]%string in
  validate_log_path "/data/a.toml" "/home/me" = Ok "/data/a.toml"%string ∧
  (hv_host_path <$> match prove_host_visible plain_fs mounts "/data/a.toml" true with Ok p => Some p | _ => None end) =
    Some "/home/me/.config/opensoft/a.toml"%string ∧
  validate_log_path "/home/me/.config/opensoft/a.toml" "/home/me" = log_path_invalid ∧
  (hv_host_path <$> match prove_host_visible plain_fs mounts "/scratch/x" true with Ok p => Some p | _ => None end) =
    Some "/run/user/x"%string ∧
  validate_log_path "/run/user/x" "/home/me" = log_path_invalid.
Proof. vm_compute. done. Qed.
