(* ===== verification/LogService.v ===== *)
(** The service behind the log methods of the socket: attach, detach, status and preview
    (src/src/agenttower/logs/service.py), and the reading of the end of a log
    (logs/host_fs.py).

    Attaching runs [docker exec] and creates the file inside its transaction; with
    [manage] it owns the transaction, without it runs inside that of a registration.  With
    [defer] the audit line is handed to the caller, otherwise it is appended before the
    commit. *)

From S2P Require Import Prelude Errors Utf8 Agents Permissions Store AuditWriter Redaction Classifier Json Session Tables LogDao Tower RegistryDao Validation Desk AgentsService PipePane LogPaths.
From Stdlib Require Import Ascii.

Local Open Scope Z_scope.

Definition MAX_ATTACHMENT_ID_RETRIES : nat := 5.

(** [generate_attachment_id] *)
Definition generate_attachment_id : M desk string := t ← token_hex; mret ("lat_" +:+ t).

(** ** The host's files *)

(** [ensure_log_directory_and_file]: a directory or file with a wider mode, or a file that
    appears in between, is one of the failures of the access. *)
Definition ensure_log_directory_and_file (path : string) : M desk unit :=
  _ ← at_tower file_access;
  lift (λ s, match files (dk_tower s) !! path with
             | Some _ => (Ok tt, s)
             | None =>
                 let f := mkFile (default "0:0" (head (dk_inodes s))) EmptyString EmptyString in
                 let w := dk_tower s in
                 (Ok tt, set_dk_inodes (tail (dk_inodes s))
                    (set_dk_tower (set_files (<[path := f]> (files w)) (file_moves w) (file_io w) w) s))
             end).

(** [_ensure_log_dir_and_file] *)
Definition ensure_log_dir_and_file (path : string) : M desk unit :=
  catch (ensure_log_directory_and_file path)
    (λ e, if is_os_error e then throw (RegistrationError "internal_error") else throw e).

(** [_file_consistency_intact] *)
Definition file_consistency_intact (path : string) (stored_inode : option string) (stored_size_seen : Z)
  : M desk bool :=
  st ← at_tower (stat_log_file path);
  match st, stored_inode with
  | Some st, Some inode =>
      mret (bool_decide (st_inode st = inode) && negb (st_size st <? stored_size_seen))
  | _, _ => mret false
  end.

(** ** tmux in the container *)

(** [_pane_short_form] *)
Definition pane_short_form (a : AgentRecord) : string :=
  tmux_session_name a +:+ ":" +:+ print_int (tmux_window_index a) +:+ "." +:+ print_int (tmux_pane_index a).

(** Run a command and refuse on a failure of docker or of tmux. *)
Definition docker_checked (argv : list string) : M desk DockerExecResult :=
  r ← docker_run argv;
  match failure_kind r with
  | Some k => throw (RegistrationError k)
  | None =>
      if negb (returncode r =? 0) || stderr_matches_pipe_pane_failure (stderr r)
      then throw (RegistrationError "pipe_pane_failed")
      else mret r
  end.

(** [_inspect_pipe_state], [_issue_pipe_pane_attach], [_issue_pipe_pane_toggle_off] *)
Definition inspect_pipe_state (user container pane : string) : M desk DockerExecResult :=
  docker_checked (build_inspection_argv user container pane).
Definition issue_pipe_pane_attach (user container pane log : string) : M desk unit :=
  _ ← docker_checked (build_attach_argv user container pane log); mret tt.
Definition issue_pipe_pane_toggle_off (user container pane : string) : M desk unit :=
  _ ← docker_checked (build_toggle_off_argv user container pane); mret tt.

(** ** The attach pipeline *)

(** [_allocate_attachment_id] *)
Fixpoint allocate_attachment_id (attempts : nat) : M desk string :=
  match attempts with
  | O => throw (RegistrationError "internal_error")
  | S n =>
      candidate ← generate_attachment_id;
      taken ← at_sql (Sql.read (λ d,
                existsb (λ a, bool_decide (la_attachment_id a = candidate)) (log_attachments d)));
      if (taken : bool) then allocate_attachment_id n else mret candidate
  end.

(** [_render_attach_result] without the reload of the offsets. *)
Definition render_attach_result (r : LogAttachmentRecord) (byte_offset line_offset : Z) (is_new : bool)
    (prior_status last_status_at : option string) : AttachResult :=
  mkAttached (la_agent_id r) (la_attachment_id r) (la_log_path r) (la_source r) byte_offset line_offset
    (la_attached_at r) (default (la_last_status_at r) last_status_at) is_new prior_status.

(** ... with it: on the connection of the caller's transaction, or on a fresh one. *)
Definition render_with_offsets (manage : bool) (r : LogAttachmentRecord) (prior_status : option string)
  : M desk AttachResult :=
  let load := at_sql (select_offset (la_agent_id r) (la_log_path r)) in
  o ← if manage then with_conn load else load;
  mret (match o with
        | Some o => render_attach_result r (lo_byte_offset o) (lo_line_offset o) false prior_status None
        | None => render_attach_result r 0 0 false prior_status None
        end).

(** [_emit_or_defer_audit] *)
Definition emit_or_defer_audit (defer : bool) (d : DeferredAudit) : M desk (option DeferredAudit) :=
  if defer then mret (Some d) else _ ← at_tower (append_deferred d); mret None.

Definition if_manage (manage : bool) (m : dao unit) : M desk unit := if manage then at_sql m else mret tt.

(** The row of the agent at another path that the attach replaces. *)
Definition supersede_target (host_path : string) (recent : option LogAttachmentRecord)
  : option LogAttachmentRecord :=
  match recent with
  | Some r =>
      if bool_decide (la_status r ∈ ["active"; "stale"; "detached"]%string) &&
         negb (bool_decide (la_log_path r = host_path))
      then Some r else None
  | None => None
  end.

(** The steps of [_attach_log_locked] that talk to tmux: what the audit says of the pipe that
    was replaced. *)
Definition take_over_pipe (user container pane container_path : string) : M desk (option string) :=
  inspected ← inspect_pipe_state user container pane;
  let state := parse_list_panes_output (stdout inspected) in
  let target := classify_pipe_target (pipe_command state) container_path in
  _ ← (if pipe_active state && negb (is_canonical target)
       then issue_pipe_pane_toggle_off user container pane else mret tt);
  _ ← (if negb (pipe_active state && is_canonical target)
       then issue_pipe_pane_attach user container pane container_path else mret tt);
  mret (if pipe_active state && negb (is_canonical target)
        then sanitize_prior_pipe_target <$> foreign_target target else None).

(** Mark the replaced row. *)
Definition supersede (agent_id now new_id : string) (target : option LogAttachmentRecord) : M desk unit :=
  match target with
  | None => mret tt
  | Some t =>
      _ ← at_sql (update_status (la_attachment_id t) "superseded" now (Some now) (Some new_id));
      at_tower (reset_suppression_for_path agent_id (la_log_path t))
  end.

(** Recovery of a stale or detached row at the same path: the offsets the answer shows. *)
Definition recover_offsets (agent_id host_path prior_status now : string) : M desk (Z * Z) :=
  offset ← at_sql (select_offset agent_id host_path);
  match offset with
  | None => mret (0, 0)
  | Some o =>
      if bool_decide (prior_status = "stale"%string) then
        intact ← file_consistency_intact host_path (lo_file_inode o) (lo_file_size_seen o);
        if (intact : bool) then mret (lo_byte_offset o, lo_line_offset o)
        else
          st ← at_tower (stat_log_file host_path);
          let new_inode := st_inode <$> st in
          let new_size := default 0 (st_size <$> st) in
          _ ← at_sql (reset_offset agent_id host_path new_inode new_size now);
          _ ← at_tower (emit_log_rotation_detected agent_id host_path (lo_file_inode o) new_inode
                          (lo_file_size_seen o) new_size);
          mret (0, 0)
      else if bool_decide (prior_status = "detached"%string) then mret (lo_byte_offset o, lo_line_offset o)
      else mret (0, 0)
  end.

(** The new row of an attach. *)
Definition new_attachment (a : AgentRecord) (id host_path source pipe_command now : string)
    (prior_pipe : option string) : LogAttachmentRecord :=
  mkAttachment id (agent_id a) (container_id a) (tmux_socket_path a) (tmux_session_name a)
    (tmux_window_index a) (tmux_pane_index a) (tmux_pane_id a) host_path "active" source pipe_command
    prior_pipe now now None None now.

(** A row of this agent and path that is brought back instead of a new one. *)
Definition recoverable (existing : option LogAttachmentRecord) : option LogAttachmentRecord :=
  match existing with
  | Some e => if bool_decide (la_status e ∈ ["stale"; "detached"]%string) then Some e else None
  | None => None
  end.

Definition recover_row (manage defer : bool) (a : AgentRecord) (e : LogAttachmentRecord)
    (host_path source now : string) (prior_pipe : option string) (peer_uid : Z)
  : M desk (AttachResult * option DeferredAudit) :=
  _ ← at_sql (update_status (la_attachment_id e) "active" now None None);
  offs ← recover_offsets (agent_id a) host_path (la_status e) now;
  _ ← at_tower (reset_suppression_for_path (agent_id a) host_path);
  d ← emit_or_defer_audit defer (mkDeferred (la_attachment_id e) (agent_id a) (Some (la_status e))
        "active" (Some (la_log_path e)) host_path prior_pipe source peer_uid);
  _ ← if_manage manage Sql.commit;
  mret (render_attach_result e offs.1 offs.2 false (Some (la_status e)) (Some now), d).

Definition insert_row (manage defer : bool) (a : AgentRecord) (row : LogAttachmentRecord)
    (replaced : option LogAttachmentRecord) (host_path source now : string) (prior_pipe : option string)
    (peer_uid : Z) : M desk (AttachResult * option DeferredAudit) :=
  _ ← at_sql (insert_attachment row);
  _ ← at_sql (insert_initial (agent_id a) host_path now);
  d ← emit_or_defer_audit defer (mkDeferred (la_attachment_id row) (agent_id a) (la_status <$> replaced)
        "active" (la_log_path <$> replaced) host_path prior_pipe source peer_uid);
  _ ← if_manage manage Sql.commit;
  mret (render_attach_result row 0 0 true (la_status <$> replaced) None, d).

Definition is_active_row (existing : option LogAttachmentRecord) : option LogAttachmentRecord :=
  match existing with
  | Some e => if bool_decide (la_status e = "active"%string) then Some e else None
  | None => None
  end.

(** The body of [_attach_log_locked] after [BEGIN IMMEDIATE]. *)
Definition attach_steps (manage defer : bool) (a : AgentRecord) (info : ContainerInfo)
    (proof : HostVisibilityProof) (source : string) (peer_uid : Z)
  : M desk (AttachResult * option DeferredAudit) :=
  let host_path := hv_host_path proof in
  let container_path := hv_container_path proof in
  let user := ci_bench_user info in
  let pane := pane_short_form a in
  owner ← at_sql (select_active_by_log_path host_path);
  if match owner with Some o => negb (bool_decide (la_agent_id o = agent_id a)) | None => false end
  then throw (RegistrationError "log_path_in_use")
  else
    existing ← at_sql (select_for_agent_path (agent_id a) host_path);
    recent ← at_sql (select_most_recent_for_agent (agent_id a));
    let replaced := supersede_target host_path recent in
    _ ← ensure_log_dir_and_file host_path;
    match is_active_row existing with
    | Some e =>
        _ ← issue_pipe_pane_attach user (container_id a) pane container_path;
        _ ← if_manage manage Sql.commit;
        r ← render_with_offsets manage e (Some (la_status e));
        mret (r, None)
    | None =>
        prior_pipe ← take_over_pipe user (container_id a) pane container_path;
        now ← clock_now;
        new_id ← allocate_attachment_id MAX_ATTACHMENT_ID_RETRIES;
        _ ← supersede (agent_id a) now new_id replaced;
        match recoverable existing with
        | Some e => recover_row manage defer a e host_path source now prior_pipe peer_uid
        | None =>
            insert_row manage defer a
              (new_attachment a new_id host_path source
                 (render_pipe_command_for_audit user (container_id a) pane container_path) now prior_pipe)
              replaced host_path source now prior_pipe peer_uid
        end
    end.

Definition attach_body (manage defer : bool) (a : AgentRecord) (info : ContainerInfo)
    (proof : HostVisibilityProof) (source : string) (peer_uid : Z)
  : M desk (AttachResult * option DeferredAudit) :=
  _ ← if_manage manage Sql.begin_immediate;
  attach_steps manage defer a info proof source peer_uid.

(** [try: ROLLBACK; except sqlite3.Error: pass] *)
Definition quiet_rollback : M desk unit :=
  catch (at_sql Sql.rollback) (λ e, if is_sqlite_error e then mret tt else throw e).

(** The handlers: roll back what is ours, keep a refusal, turn all else into internal_error. *)
Definition attach_failed {A} (manage : bool) (e : exn) : M desk A :=
  _ ← (if manage then quiet_rollback else mret tt);
  if is_registration_error e then throw e else throw (RegistrationError "internal_error").

(** [_attach_log_locked] *)
Definition attach_log_locked (manage defer : bool) (a : AgentRecord) (info : ContainerInfo)
    (proof : HostVisibilityProof) (source : string) (peer_uid : Z)
  : M desk (AttachResult * option DeferredAudit) :=
  let run := except (attach_body manage defer a info proof source peer_uid) (attach_failed manage) in
  if manage then with_conn run else run.

(** ** Requests *)

Definition ATTACH_ALLOWED_KEYS : list string := ["schema_version"; "agent_id"; "log_path"].
Definition DETACH_ALLOWED_KEYS : list string := ["schema_version"; "agent_id"].
Definition STATUS_ALLOWED_KEYS : list string := ["schema_version"; "agent_id"].
Definition PREVIEW_ALLOWED_KEYS : list string := ["schema_version"; "agent_id"; "lines"].

(** [_resolve_active_agent] *)
Definition resolve_active_agent (id : string) : M desk AgentRecord :=
  r ← with_conn (at_sql (select_agent id));
  match r with
  | None => throw (RegistrationError "agent_not_found")
  | Some a => if active a then mret a else throw (RegistrationError "agent_inactive")
  end.

(** [_resolve_active_container] *)
Definition resolve_active_container (id : string) : M desk ContainerInfo :=
  r ← with_conn (at_sql (Sql.read (λ d, containers d !! id)));
  match r with
  | Some c =>
      if cr_active c
      then mret (mkContainerInfo (cr_mounts c) (normalize_bench_user_for_exec (cr_config_user c)))
      else throw (RegistrationError "agent_inactive")
  | None => throw (RegistrationError "agent_inactive")
  end.

(** [_require_active_pane] *)
Definition require_active_pane (a : AgentRecord) : M desk unit :=
  r ← with_conn (at_sql (Sql.read (λ d, panes d !! agent_composite_key a)));
  match r with
  | Some p => if pr_active p then mret tt else throw (RegistrationError "pane_unknown_to_daemon")
  | None => throw (RegistrationError "pane_unknown_to_daemon")
  end.

Section Service.
Variable schema_version : Z.
Variable daemon_home : string.

(** The candidates of [_resolve_attach_target], and the first proof among them. *)
Definition attach_candidates (ps : params) (a : AgentRecord) (info : ContainerInfo) : outcome (list string) :=
  match json_get "log_path" ps with
  | Some (JStr raw) =>
      match validate_log_path raw daemon_home with
      | Ok p => Ok [p]
      | Raise _ => reject "log_path_invalid"
      end
  | Some _ => reject "bad_request"
  | None =>
      Ok [container_canonical_log_path_for (ci_bench_user info) (container_id a) (agent_id a);
          host_canonical_log_path_for daemon_home (container_id a) (agent_id a)]
  end.

Fixpoint first_proof (fs : HostFs) (mounts : list Mount) (last : exn) (candidates : list string)
  : outcome HostVisibilityProof :=
  match candidates with
  | [] => Raise last
  | c :: rest =>
      match prove_host_visible fs mounts c true with
      | Ok p => Ok p
      | Raise e =>
          if bool_decide (e ∈ [NotHostVisible; TooManyMounts]) then first_proof fs mounts e rest else Raise e
      end
  end.

(** [_resolve_attach_target] *)
Definition resolve_attach_target (ps : params) (a : AgentRecord) (info : ContainerInfo)
  : M desk HostVisibilityProof :=
  candidates ← ofail (attach_candidates ps a info);
  fs ← lift (λ s, (Ok (dk_fs s), s));
  match first_proof fs (ci_mounts info) NotHostVisible candidates with
  | Ok p => mret p
  | Raise e =>
      if bool_decide (e ∈ [NotHostVisible; TooManyMounts]) then
        _ ← (if bool_decide (e = TooManyMounts)
             then at_tower (emit_mounts_json_oversized (container_id a) (-1) 256) else mret tt);
        throw (RegistrationError "log_path_not_host_visible")
      else throw e
  end.

(** The two entries.  The check that the container has tmux is not a step: [tmux_present] is
    true of every container [_resolve_active_container] gives. *)
Definition attach_log (ps : params) (peer_uid : Z) (source : string) (defer : bool)
  : M desk (AttachResult * option DeferredAudit) :=
  id ← ofail (parse_target schema_version ps ATTACH_ALLOWED_KEYS);
  a ← resolve_active_agent id;
  info ← resolve_active_container (container_id a);
  _ ← require_active_pane a;
  proof ← resolve_attach_target ps a info;
  attach_log_locked true defer a info proof source peer_uid.

Definition attach_log_in_transaction (ps : params) (a : AgentRecord) (info : ContainerInfo) (peer_uid : Z)
  : M desk (AttachResult * option DeferredAudit) :=
  id ← ofail (parse_target schema_version ps ATTACH_ALLOWED_KEYS);
  if negb (bool_decide (id = agent_id a)) then throw (RegistrationError "bad_request")
  else
    proof ← resolve_attach_target ps a info;
    attach_log_locked false true a info proof "register_self" peer_uid.

(** ** Detach *)

Record DetachResult := mkDetached {
  dr_agent_id : string; dr_attachment_id : string; dr_log_path : string; dr_byte_offset : Z;
  dr_line_offset : Z; dr_last_status_at : string
}.

(** A refusal of [_detach_log_locked] after [ROLLBACK]. *)
Definition back_out {A} (code : string) : M desk A :=
  _ ← at_sql Sql.rollback; throw (RegistrationError code).

(** [_detach_log_locked] after [BEGIN IMMEDIATE] *)
Definition detach_steps (a : AgentRecord) (info : ContainerInfo) (peer_uid : Z) : M desk DetachResult :=
  existing ← at_sql (select_active_for_agent (agent_id a));
  match existing with
  | None => back_out "attachment_not_found"
  | Some e =>
      r ← docker_run (build_toggle_off_argv (ci_bench_user info) (container_id a) (pane_short_form a));
      match failure_kind r with
      | Some k => back_out k
      | None =>
          if negb (returncode r =? 0) || stderr_matches_pipe_pane_failure (stderr r)
          then back_out "pipe_pane_failed"
          else
            now ← clock_now;
            _ ← at_sql (update_status (la_attachment_id e) "detached" now None None);
            offset ← at_sql (select_offset (agent_id a) (la_log_path e));
            _ ← at_sql Sql.commit;
            _ ← except (at_tower (append_log_attachment_change (la_attachment_id e) (agent_id a)
                          (Some "active"%string) "detached" (Some (la_log_path e)) (la_log_path e) None
                          "explicit" peer_uid))
                  (λ _, at_tower (emit_always (LC_audit_failed "detach_log" (agent_id a) (la_attachment_id e))));
            mret (mkDetached (agent_id a) (la_attachment_id e) (la_log_path e)
                    (default 0 (lo_byte_offset <$> offset)) (default 0 (lo_line_offset <$> offset)) now)
      end
  end.

Definition detach_body (a : AgentRecord) (info : ContainerInfo) (peer_uid : Z) : M desk DetachResult :=
  _ ← at_sql Sql.begin_immediate;
  detach_steps a info peer_uid.

Definition detach_log (ps : params) (peer_uid : Z) : M desk DetachResult :=
  id ← ofail (parse_target schema_version ps DETACH_ALLOWED_KEYS);
  a ← resolve_active_agent id;
  info ← resolve_active_container (container_id a);
  _ ← require_active_pane a;
  with_conn (except (detach_body a info peer_uid) (attach_failed true)).

(** ** Status *)

(** [SELECT 1 FROM agents WHERE agent_id = ?] and the newest attachment. *)
Definition newest_attachment (id : string) : dao (option LogAttachmentRecord) :=
  known ← Sql.read (λ d, existsb (λ a, bool_decide (Agents.agent_id a = id)) (agents d));
  if (known : bool) then select_most_recent_for_agent id else throw (RegistrationError "agent_not_found").

Definition attach_log_status (ps : params)
  : M desk (string * option (LogAttachmentRecord * option LogOffsetRecord)) :=
  id ← ofail (parse_target schema_version ps STATUS_ALLOWED_KEYS);
  with_conn
    (att ← at_sql (newest_attachment id);
     match att with
     | None => mret (id, None)
     | Some a => o ← at_sql (select_offset id (la_log_path a)); mret (id, Some (a, o))
     end).

(** ** Preview *)

(** [decode("utf-8", errors="surrogateescape")]: an undecodable byte becomes a lone surrogate. *)
Fixpoint decode_surrogateescape (s : string) : text :=
  match s with
  | EmptyString => []
  | String c1 s1 =>
      let b1 := code c1 in
      let bad := (0xDC00 + b1)%N in
      if (b1 <? 0x80)%N then b1 :: decode_surrogateescape s1
      else if within 0xC2 0xDF b1 then
        match s1 with
        | String c2 s2 =>
            if cont (code c2) then ((b1 - 0xC0) * 64 + (code c2 - 0x80))%N :: decode_surrogateescape s2
            else bad :: decode_surrogateescape s1
        | EmptyString => [bad]
        end
      else if within 0xE0 0xEF b1 then
        match s1 with
        | String c2 (String c3 s3) =>
            if second_ok b1 (code c2) && cont (code c3)
            then (((b1 - 0xE0) * 64 + (code c2 - 0x80)) * 64 + (code c3 - 0x80))%N :: decode_surrogateescape s3
            else bad :: decode_surrogateescape s1
        | _ => bad :: decode_surrogateescape s1
        end
      else if within 0xF0 0xF4 b1 then
        match s1 with
        | String c2 (String c3 (String c4 s4)) =>
            if second_ok b1 (code c2) && cont (code c3) && cont (code c4)
            then ((((b1 - 0xF0) * 64 + (code c2 - 0x80)) * 64 + (code c3 - 0x80)) * 64 + (code c4 - 0x80))%N
                 :: decode_surrogateescape s4
            else bad :: decode_surrogateescape s1
        | _ => bad :: decode_surrogateescape s1
        end
      else bad :: decode_surrogateescape s1
  end.

Fixpoint count_newlines (s : string) : Z :=
  match s with
  | EmptyString => 0
  | String c s' => (if bool_decide (c = newline) then 1 else 0) + count_newlines s'
  end.

Definition BLOCK_SIZE : Z := 8192.

(** The backwards loop of [read_tail_lines]: the offset where it stops.  Every turn moves
    back by at least one byte, so the length of the file is enough fuel. *)
Fixpoint tail_offset (fuel : nat) (bytes : string) (n max_buffer offset total newlines : Z) : Z :=
  match fuel with
  | O => offset
  | S f =>
      if (0 <? offset) && (newlines <=? n) && (total <? max_buffer) then
        let read := Z.min BLOCK_SIZE offset in
        let offset' := offset - read in
        let chunk := String.substring (Z.to_nat offset') (Z.to_nat read) bytes in
        tail_offset f bytes n max_buffer offset' (total + read) (newlines + count_newlines chunk)
      else offset
  end.

Definition drop_last_empty (l : list string) : list string :=
  match last l with
  | Some EmptyString => take (length l - 1) l
  | _ => l
  end.

(** [_truncate_line], and the decoding of a line. *)
Definition truncate_line (line : string) (max_bytes : Z) : text :=
  if Z.of_nat (String.length line) <=? max_bytes then decode_surrogateescape line
  else decode_surrogateescape (String.substring 0 (Z.to_nat max_bytes) line) ++ [0x2026%N].

(** [read_tail_lines] on the bytes of a file. *)
Definition tail_lines (bytes : string) (n max_line_bytes : Z) : list text :=
  if n <=? 0 then []
  else
    let size := Z.of_nat (String.length bytes) in
    let max_buffer := (n + 1) * max_line_bytes in
    let start := tail_offset (String.length bytes) bytes n max_buffer size 0 0 in
    let data := Text.drop (Z.to_nat start) bytes in
    let len := Z.of_nat (String.length data) in
    let data := if max_buffer <? len then Text.drop (Z.to_nat (len - max_buffer)) data else data in
    if size =? 0 then []
    else
      let raw := drop_last_empty (Text.split newline data) in
      (λ l, truncate_line l max_line_bytes) <$> drop (length raw - Z.to_nat n) raw.

Definition read_tail_lines (path : string) (n : Z) : M tower (list text) :=
  _ ← file_access;
  lift (λ w, match files w !! path with
             | None => (Raise (PyError "FileNotFoundError"), w)
             | Some f => (Ok (tail_lines (file_bytes f) n 65536), w)
             end).

Record PreviewResult := mkPreview { pv_agent_id : string; pv_attachment_id : string;
  pv_log_path : string; pv_lines : list text }.

Definition parse_preview (ps : params) : outcome (string * Z) :=
  obind (parse_target schema_version ps PREVIEW_ALLOWED_KEYS) (λ id,
    match json_get "lines" ps with
    | Some (JInt n) => if (n <? 1) || (200 <? n) then reject "value_out_of_set" else Ok (id, n)
    | _ => reject "bad_request"
    end).

Definition attach_log_preview (ps : params) : M desk PreviewResult :=
  req ← ofail (parse_preview ps);
  att ← with_conn (at_sql (newest_attachment req.1));
  match att with
  | None => throw (RegistrationError "attachment_not_found")
  | Some a =>
      if bool_decide (la_status a = "superseded"%string) then throw (RegistrationError "attachment_not_found")
      else
        st ← at_tower (stat_log_file (la_log_path a));
        match st with
        | None => throw (RegistrationError "log_file_missing")
        | Some _ =>
            raw ← catch (at_tower (read_tail_lines (la_log_path a) req.2))
                    (λ e, if bool_decide (e = PyError "FileNotFoundError")
                          then throw (RegistrationError "log_file_missing") else throw e);
            mret (mkPreview req.1 (la_attachment_id a) (la_log_path a) (redact_one_line <$> raw))
        end
  end.
End Service.

(** The log service as registration uses it. *)
Definition log_attacher (schema_version : Z) (daemon_home : string) : LogAttacher :=
  mkAttacher (attach_log_in_transaction schema_version daemon_home).
