(* ===== verification/LogServiceSpec.v ===== *)
(** What attaching and detaching a log do to the tables, as steps of a specification, and
    that the log service makes exactly these steps. *)

From S2P Require Import Prelude Errors Utf8 Agents Permissions Store AuditWriter Redaction Classifier Json Session Tables LogDao Tower RegistryDao Validation Desk AgentsService PipePane LogPaths LogService TowerInvariant InTx RegistrySpec AgentsServiceSpec.

Local Open Scope Z_scope.

(** ** The specification *)

(** The rows [l] after a change of status of the row [id]. *)
Definition restated (id st now : string) (sup_at sup_by : option string)
    (l l' : list LogAttachmentRecord) : Prop :=
  list_update check_attachment attachment_clash (λ r, bool_decide (la_attachment_id r = id))
    (with_status st now sup_at sup_by) l = Ok l'.

(** The replaced row, if there is one, is superseded by [new_id]. *)
Definition supersedes (now new_id : string) (target : option LogAttachmentRecord)
    (l l' : list LogAttachmentRecord) : Prop :=
  match target with
  | None => l' = l
  | Some t => restated (la_attachment_id t) "superseded" now (Some now) (Some new_id) l l'
  end.

Section Spec.
Variables (a : AgentRecord) (host_path source : string).

Definition newest_here (d : tower_db) : option LogAttachmentRecord :=
  fetch_newest (λ r, [la_last_status_at r])
    (λ r, la_agent_id r = agent_id a ∧ la_log_path r = host_path) d.

Definition newest_of_agent (d : tower_db) : option LogAttachmentRecord :=
  fetch_newest (λ r, [la_last_status_at r; la_created_at r; la_attachment_id r])
    (λ r, la_agent_id r = agent_id a) d.

(** The offsets of a recovered row: kept, and shown; or those of a stale row whose file is no
    longer the one that was read, set back to the beginning. *)
Inductive offsets_kept (prior now : string) (d d' : tower_db) : Z * Z → Prop :=
| Off_none : log_offsets d !! (agent_id a, host_path) = None → d' = d → offsets_kept prior now d d' (0, 0)
| Off_keep o : log_offsets d !! (agent_id a, host_path) = Some o → d' = d →
    offsets_kept prior now d d' (lo_byte_offset o, lo_line_offset o)
| Off_reset o inode size : prior = "stale"%string →
    log_offsets d !! (agent_id a, host_path) = Some o →
    d' = set_log_offsets (alter (λ o, mkOffset (lo_agent_id o) (lo_log_path o) 0 0 0 (lo_last_output_at o)
           inode size (lo_created_at o) now) (agent_id a, host_path) (log_offsets d)) d →
    offsets_kept prior now d d' (0, 0).

(** What an attach does to the tables as it finds them, what it answers, and the change it
    has to have audited. *)
Inductive attaches (uid : Z) (d : tower_db) : tower_db → AttachResult → option DeferredAudit → Prop :=
| Att_again e res :
    newest_here d = Some e → la_status e = "active"%string →
    ar_attachment_id res = la_attachment_id e → ar_is_new res = false → attaches uid d d res None
| Att_recover e l l' d' now new_id prior_pipe offs :
    newest_here d = Some e → la_status e ∈ ["stale"; "detached"]%string →
    supersedes now new_id (supersede_target host_path (newest_of_agent d)) (log_attachments d) l →
    restated (la_attachment_id e) "active" now None None l l' →
    offsets_kept (la_status e) now (set_log_attachments l' d) d' offs →
    attaches uid d d' (render_attach_result e offs.1 offs.2 false (Some (la_status e)) (Some now))
      (Some (mkDeferred (la_attachment_id e) (agent_id a) (Some (la_status e)) "active"
               (Some (la_log_path e)) host_path prior_pipe source uid))
| Att_new l l' now new_id command prior_pipe :
    let replaced := supersede_target host_path (newest_of_agent d) in
    let row := new_attachment a new_id host_path source command now prior_pipe in
    (∀ e, newest_here d = Some e → la_status e ∉ ["active"; "stale"; "detached"]%string) →
    supersedes now new_id replaced (log_attachments d) l →
    list_insert check_attachment attachment_clash row l = Ok l' →
    log_offsets d !! (agent_id a, host_path) = None →
    attaches uid d
      (set_log_offsets (<[(agent_id a, host_path) :=
         mkOffset (agent_id a) host_path 0 0 0 None None 0 now now]> (log_offsets d))
         (set_log_attachments l' d))
      (render_attach_result row 0 0 true (la_status <$> replaced) None)
      (Some (mkDeferred new_id (agent_id a) (la_status <$> replaced) "active"
               (la_log_path <$> replaced) host_path prior_pipe source uid)).

(** No other agent writes to the path. *)
Definition path_free (d : tower_db) : Prop :=
  ∀ o, fetch_first (λ r, la_log_path r = host_path ∧ is_active r) d = Some o → la_agent_id o = agent_id a.
End Spec.

(** ** The pieces of an attach *)

Section Pieces.
Context (R : relation tower_db).
Abbreviation indesk := (inside dk_sess dk_audit R).
Abbreviation insess := (inside (λ s : session tower_db, s) (λ _, tt) R).

(** What leaves the tables and the audit file alone. *)
Definition framed {A} (m : M desk A) : Prop := ∀ d, indesk d m (λ _ d', d' = d).

Lemma framed_host {A} (m : M tower A) :
  (∀ w, sess (m w).2 = sess w ∧ events_jsonl (m w).2 = events_jsonl w ∧ events_io (m w).2 = events_io w) →
  framed (at_tower m).
Proof.
  intros H d. apply in_local. intros s. unfold at_tower, zoom, dk_sess, dk_audit.
  specialize (H (dk_tower s)). destruct (m (dk_tower s)) as [o w]. cbn in *.
  destruct H as (-> & -> & ->). done.
Qed.

Lemma framed_bind {A B} (m : M desk A) (k : A → M desk B) :
  framed m → (∀ a, framed (k a)) → framed (m ≫= k).
Proof. intros Hm Hk d. eapply in_bind; [apply Hm|]. intros a d' ->. apply Hk. Qed.

Lemma framed_ret {A} (a : A) : framed (mret a).
Proof. intros d. by apply in_ret. Qed.
Lemma framed_throw {A} e : framed (throw (A := A) e).
Proof. intros d. apply in_throw. Qed.

Lemma file_access_host w :
  sess (file_access w).2 = sess w ∧ events_jsonl (file_access w).2 = events_jsonl w ∧
  events_io (file_access w).2 = events_io w.
Proof. unfold file_access. by repeat case_match. Qed.

Lemma framed_stat path : framed (at_tower (stat_log_file path)).
Proof.
  apply framed_host. intros w. unfold stat_log_file, mbind, M_bind, lift.
  pose proof (file_access_host w). destruct (file_access w) as [[]]; done.
Qed.

Lemma framed_emit_once sh ev : framed (at_tower (emit_once sh ev)).
Proof. apply framed_host. intros w. unfold emit_once. by repeat case_match. Qed.

Lemma framed_reset_suppression agent path : framed (at_tower (reset_suppression_for_path agent path)).
Proof. by apply framed_host. Qed.

Lemma framed_docker_checked argv : framed (docker_checked argv).
Proof.
  intros d. eapply in_bind; [apply in_docker|]. intros r ? ->.
  destruct (failure_kind r); [apply in_throw|]. apply in_if; intros _; [apply in_throw|by apply in_ret].
Qed.

Lemma framed_ensure path : framed (ensure_log_dir_and_file path).
Proof.
  intros d. apply in_local. intros s. unfold ensure_log_dir_and_file, ensure_log_directory_and_file,
    catch, mbind, M_bind, at_tower, zoom, lift, dk_sess, dk_audit.
  destruct (file_access_host (dk_tower s)) as (H1 & H2 & H3).
  destruct (file_access (dk_tower s)) as [[[]|e] w]; cbn in *.
  - destruct (files w !! path); cbn; by rewrite ?H1, ?H2, ?H3.
  - destruct (is_os_error e); unfold throw; cbn; by rewrite ?H1, ?H2, ?H3.
Qed.

Lemma framed_consistency path inode size : framed (file_consistency_intact path inode size).
Proof.
  apply framed_bind; [apply framed_stat|]. intros st. destruct st, inode; apply framed_ret.
Qed.

Lemma framed_take_over user c pane path : framed (take_over_pipe user c pane path).
Proof.
  apply framed_bind; [apply framed_docker_checked|]. intros r. cbv zeta.
  apply framed_bind; [case_match; [|apply framed_ret]|intros _; apply framed_bind; [case_match; [|apply framed_ret]|
    intros _; apply framed_ret]]; (apply framed_bind; [apply framed_docker_checked|intros _; apply framed_ret]).
Qed.

Lemma framed_issue_attach user c pane path : framed (issue_pipe_pane_attach user c pane path).
Proof. apply framed_bind; [apply framed_docker_checked|]. intros _. apply framed_ret. Qed.

Lemma framed_allocate n : framed (allocate_attachment_id n).
Proof.
  induction n as [|n IH]; cbn [allocate_attachment_id]; [apply framed_throw|].
  apply framed_bind; [apply framed_bind; [intros d; apply in_token|intros t; apply framed_ret]|].
  intros c d. eapply in_bind; [apply in_at_sql, in_read|]. intros taken d' [_ ->].
  apply in_if; intros _; [apply IH|by apply in_ret].
Qed.

(** The statements that write. *)
Lemma in_update_status d id st now s1 s2 :
  indesk d (at_sql (update_status id st now s1 s2)) (λ _ d', ∃ l,
    restated id st now s1 s2 (log_attachments d) l ∧ d' = set_log_attachments l d).
Proof.
  apply in_at_sql. unfold update_status. apply in_if; intros _; [apply in_throw|].
  eapply in_mono; [apply in_write|]. intros [] d' E. unfold on_attachments in E. case_match eqn:El; [|done].
  injection E as <-. by eexists.
Qed.

Lemma set_log_attachments_id d : set_log_attachments (log_attachments d) d = d.
Proof. by destruct d. Qed.

Lemma in_supersede d agent now new_id target :
  indesk d (supersede agent now new_id target) (λ _ d', ∃ l,
    supersedes now new_id target (log_attachments d) l ∧ d' = set_log_attachments l d).
Proof.
  destruct target as [t|]; cbn [supersede supersedes].
  - eapply in_bind; [apply in_update_status|]. intros [] d' (l & H & ->).
    eapply in_mono; [apply framed_reset_suppression|]. intros [] d' ->. by eexists.
  - apply in_ret. eexists. split; [done|]. by rewrite set_log_attachments_id.
Qed.

Lemma in_recover_offsets d a path prior now :
  prior ∈ ["stale"; "detached"]%string →
  indesk d (recover_offsets (agent_id a) path prior now) (λ offs d', offsets_kept a path prior now d d' offs).
Proof.
  intros Hp. unfold recover_offsets. eapply in_bind; [apply in_at_sql, in_read|]. intros o d' [Ho ->].
  destruct o as [o|]; [|by apply in_ret, Off_none]. symmetry in Ho.
  apply in_if; [intros Hst%bool_decide_eq_true|intros Hns%bool_decide_eq_false].
  - eapply in_bind; [apply framed_consistency|]. intros [] d' ->; [by apply in_ret, Off_keep|].
    eapply in_bind; [apply framed_stat|]. intros st d' ->. cbv zeta.
    eapply in_bind; [apply in_at_sql, in_write|]. intros [] d' [= <-].
    eapply in_bind; [apply framed_emit_once|]. intros b d' ->. apply in_ret. by eapply Off_reset.
  - rewrite bool_decide_eq_true_2 by set_solver. by apply in_ret, Off_keep.
Qed.
End Pieces.

(** ** The attach pipeline *)

Lemma is_active_row_Some o e : is_active_row o = Some e → o = Some e ∧ la_status e = "active"%string.
Proof.
  destruct o as [x|]; cbn; [|done]. destruct (bool_decide _) eqn:E; [|done]. intros [= <-].
  by apply bool_decide_eq_true in E.
Qed.
Lemma recoverable_Some o e :
  recoverable o = Some e → o = Some e ∧ la_status e ∈ ["stale"; "detached"]%string.
Proof.
  destruct o as [x|]; cbn; [|done]. destruct (bool_decide _) eqn:E; [|done]. intros [= <-].
  by apply bool_decide_eq_true in E.
Qed.
Lemma no_live_row o :
  is_active_row o = None → recoverable o = None →
  ∀ e, o = Some e → la_status e ∉ ["active"; "stale"; "detached"]%string.
Proof.
  intros H1 H2 e ->. cbn in H1, H2. destruct (bool_decide (la_status e = _)) eqn:E1; [done|].
  destruct (bool_decide (la_status e ∈ _)) eqn:E2; [done|].
  apply bool_decide_eq_false in E1, E2. set_solver.
Qed.

(** The pipeline is the same whether it ends in a commit of its own or in the caller's
    transaction: [judge] is the property wanted of the rest of it. *)
Section Pipeline.
Context (R : relation tower_db).
Abbreviation indesk := (inside dk_sess dk_audit R).
Context (manage defer : bool) (a : AgentRecord) (info : ContainerInfo) (proof : HostVisibilityProof)
  (source : string) (uid : Z) (d0 : tower_db).
Context (judge : tower_db → M desk (AttachResult * option DeferredAudit) → Prop).

Record judges := mkJudges {
  judge_bind A d (m : M desk A) k (Q' : A → tower_db → Prop) :
    indesk d m Q' → (∀ x d', Q' x d' → judge d' (k x)) → judge d (m ≫= k);
  judge_throw d e : judge d (throw e);
  judge_again e : path_free a (hv_host_path proof) d0 → newest_here a (hv_host_path proof) d0 = Some e → la_status e = "active"%string →
    judge d0 (_ ← if_manage manage Sql.commit; r ← render_with_offsets manage e (Some (la_status e)); mret (r, None));
  judge_finish d res da : path_free a (hv_host_path proof) d0 → attaches a (hv_host_path proof) source uid d0 d res (Some da) →
    judge d (x ← emit_or_defer_audit defer da; _ ← if_manage manage Sql.commit; mret (res, x))
}.
Context (J : judges).

Section Free.
Context (Hfree : path_free a (hv_host_path proof) d0).

Lemma judge_recover l e now new_id prior_pipe :
  newest_here a (hv_host_path proof) d0 = Some e → la_status e ∈ ["stale"; "detached"]%string →
  supersedes now new_id (supersede_target (hv_host_path proof) (newest_of_agent a d0)) (log_attachments d0) l →
  judge (set_log_attachments l d0)
    (recover_row manage defer a e (hv_host_path proof) source now prior_pipe uid).
Proof.
  intros He Hst Hl. eapply (judge_bind J); [apply in_update_status|]. intros [] d1 (l1 & Hl1 & ->).
  eapply (judge_bind J); [by apply in_recover_offsets|]. intros offs d2 Hoffs.
  eapply (judge_bind J); [apply framed_reset_suppression|]. intros [] ? ->.
  apply (judge_finish J); [done|]. by eapply Att_recover.
Qed.

Lemma judge_insert l now new_id command prior_pipe :
  let replaced := supersede_target (hv_host_path proof) (newest_of_agent a d0) in
  (∀ e, newest_here a (hv_host_path proof) d0 = Some e → la_status e ∉ ["active"; "stale"; "detached"]%string) →
  supersedes now new_id replaced (log_attachments d0) l →
  judge (set_log_attachments l d0)
    (insert_row manage defer a (new_attachment a new_id (hv_host_path proof) source command now prior_pipe)
       replaced (hv_host_path proof) source now prior_pipe uid).
Proof.
  intros replaced Hno Hl. eapply (judge_bind J).
  { apply in_at_sql. unfold insert_attachment. apply in_if; intros _; [apply in_throw|].
    apply in_if; intros _; [apply in_throw|]. apply in_write. }
  intros [] d1 E. unfold on_attachments in E. case_match eqn:El; [|done]. injection E as <-.
  eapply (judge_bind J); [apply in_at_sql, in_write|]. intros [] d2 E. cbv beta in E.
  change (log_offsets (set_log_attachments _ _)) with (log_offsets d0) in E.
  destruct (log_offsets d0 !! _) eqn:Eo; [done|]. injection E as <-.
  apply (judge_finish J); [done|]. by apply (Att_new a _ source uid d0 l _ now new_id command prior_pipe).
Qed.

End Free.

Lemma judge_steps :
  judge d0 (attach_steps manage defer a info proof source uid).
Proof.
  unfold attach_steps. eapply (judge_bind J); [apply in_at_sql, in_read|]. intros owner ? [Ho ->].
  destruct (match owner with Some _ => _ | None => _ end) eqn:Eo; [apply (judge_throw J)|].
  assert (path_free a (hv_host_path proof) d0) as Hfree.
  { intros o E. unfold path_free in *. rewrite Ho in Eo.
    change (fetch_first _ d0) with (fetch_first (λ r, la_log_path r = hv_host_path proof ∧ is_active r) d0) in Eo.
    rewrite E in Eo. by apply negb_false_iff, bool_decide_eq_true in Eo. }
  eapply (judge_bind J); [apply in_at_sql, in_read|]. intros existing ? [Hex ->].
  eapply (judge_bind J); [apply in_at_sql, in_read|]. intros recent ? [Hrec ->]. cbv zeta.
  change (existing = newest_here a (hv_host_path proof) d0) in Hex.
  change (recent = newest_of_agent a d0) in Hrec.
  eapply (judge_bind J); [apply framed_ensure|]. intros [] ? ->.
  destruct (is_active_row existing) as [e|] eqn:Ea.
  - apply is_active_row_Some in Ea as [-> Hst].
    eapply (judge_bind J); [apply framed_issue_attach|]. intros [] ? ->. by apply (judge_again J).
  - eapply (judge_bind J); [apply framed_take_over|]. intros prior_pipe ? ->.
    eapply (judge_bind J); [apply in_clock|]. intros now ? ->.
    eapply (judge_bind J); [apply framed_allocate|]. intros new_id ? ->.
    eapply (judge_bind J); [apply in_supersede|]. intros [] ? (l & Hl & ->). rewrite Hrec in *.
    destruct (recoverable existing) as [e|] eqn:Er.
    + apply recoverable_Some in Er as [-> Hst]. by eapply judge_recover.
    + apply judge_insert; [done| |done]. rewrite <- Hex. by apply no_live_row.
Qed.
End Pipeline.

(** ** The log service inside a registration *)

Lemma wf_set_log_attachments d l :
  tower_wf d → rows_ok check_attachment attachment_clash l → tower_wf (set_log_attachments l d).
Proof. intros [] Hl. by constructor. Qed.

Lemma restated_ok id st now s1 s2 l l' :
  restated id st now s1 s2 l l' → rows_ok check_attachment attachment_clash l'.
Proof. apply list_update_ok. Qed.

Lemma supersedes_ok now new_id target l l' :
  rows_ok check_attachment attachment_clash l → supersedes now new_id target l l' →
  rows_ok check_attachment attachment_clash l'.
Proof. destruct target; cbn; [intros _; apply restated_ok|by intros ? ->]. Qed.

Lemma offsets_kept_logs a path prior now d d' offs : offsets_kept a path prior now d d' offs → only_logs d d'.
Proof.
  intros [? ->|? ? ->|o inode size ? Ho ->]; [done|done|]. constructor; [done..|]. intros [].
  constructor; try done. cbn. intros k o' Hk. destruct (decide (k = (agent_id a, path))) as [->|Hne].
  - rewrite lookup_alter_eq, Ho in Hk. injection Hk as <-. cbn. by apply wf_offsets in Ho.
  - rewrite lookup_alter_ne in Hk by done. by apply wf_offsets in Hk.
Qed.

Lemma attaches_logs a path source uid d d' res da :
  attaches a path source uid d d' res da → only_logs d d'.
Proof.
  intros [e res' He Hst Hid Hnew|e l l' d1 now new_id pp offs He Hst Hl Hl' Hoffs
         |l l' now new_id cmd pp replaced row Hno Hl Hins Hnone].
  - done.
  - trans (set_log_attachments l' d); [|by eapply offsets_kept_logs]. constructor; [done..|].
    intros Hwf. apply wf_set_log_attachments; [done|by eapply restated_ok].
  - constructor; [done..|]. intros Hwf.
    assert (tower_wf (set_log_attachments l' d)) as [].
    { apply wf_set_log_attachments; [done|].
      eapply list_insert_ok; [apply attachment_clash_sym|eapply supersedes_ok; [by apply wf_attachments|done]|done]. }
    constructor; try done. cbn. by apply map_Forall_insert_2.
Qed.

Section InTransaction.
Context (R : relation tower_db).
Abbreviation indesk := (inside dk_sess dk_audit R).

(** A handler that only raises. *)
Lemma in_except_raise {A} d (m : M desk A) h (Q : A → tower_db → Prop) :
  (∀ e s, ∃ e', h e s = (Raise e', s)) → indesk d m Q → indesk d (except m h) Q.
Proof.
  intros Hh Hm s Ht Hx. apply wp_except. eapply wp_mono; [|by apply Hm].
  intros [x|e] s' (H1 & H2 & H3 & d' & H4 & H5); [by split_and!; [..|by exists d']|].
  cbv beta iota. destruct (is_exception e); [|by split_and!; [..|by exists d']].
  destruct (Hh e s') as [e' E]. unfold wp. rewrite E. cbn. by split_and!; [..|by exists d'].
Qed.

Lemma in_load d agent path : indesk d (at_sql (select_offset agent path)) (λ _ d', d' = d).
Proof. apply in_at_sql. eapply in_mono; [apply in_read|]. by intros o d' [_ ->]. Qed.

Lemma in_attach_locked d a info proof source uid :
  indesk d (attach_log_locked false true a info proof source uid) (λ x d',
    path_free a (hv_host_path proof) d ∧ attaches a (hv_host_path proof) source uid d d' x.1 x.2).
Proof.
  apply in_except_raise.
  { intros e s. unfold attach_failed. cbn. destruct (is_registration_error e); by eexists. }
  eapply in_bind; [by apply (in_ret _ _ _ _ _ (λ _ d', d' = d))|]. intros [] ? ->.
  eapply (judge_steps R false true a info proof source uid d (λ d1 m, indesk d1 m (λ x d',
    path_free a (hv_host_path proof) d ∧ attaches a (hv_host_path proof) source uid d d' x.1 x.2))).
  constructor.
  - intros A d1 m k Q'. apply in_bind.
  - intros d1 e. apply in_throw.
  - intros e Hf He Hst. eapply in_bind; [by apply (in_ret _ _ _ _ _ (λ _ d', d' = d))|]. intros [] ? ->.
    eapply (in_bind _ _ _ _ _ _ (λ r d', d' = d ∧ ar_attachment_id r = la_attachment_id e ∧ ar_is_new r = false)).
    + eapply in_bind; [apply in_load|]. intros o ? ->. apply in_ret. by destruct o.
    + intros r ? (-> & H1 & H2). apply in_ret. split; [done|]. by eapply Att_again.
  - intros d1 res da Hf Hatt. cbn [emit_or_defer_audit if_manage].
    eapply in_bind; [by apply (in_ret _ _ _ _ _ (λ x d', x = Some da ∧ d' = d1))|]. intros x ? [-> ->].
    eapply in_bind; [by apply (in_ret _ _ _ _ _ (λ _ d', d' = d1))|]. intros [] ? ->. by apply in_ret.
Qed.

Lemma framed_resolve home ps a info : framed R (resolve_attach_target home ps a info).
Proof.
  apply framed_bind; [intros d; by apply in_ofail|]. intros cands.
  apply framed_bind; [intros d; by apply in_local|]. intros fs.
  destruct (first_proof _ _ _ _) as [p|e]; [apply framed_ret|].
  destruct (bool_decide (e ∈ _)); [|apply framed_throw].
  apply framed_bind; [|intros _; apply framed_throw].
  destruct (bool_decide (e = _)); [|apply framed_ret]. apply framed_host. intros w.
  unfold emit_mounts_json_oversized, emit_always. cbn. by destruct (has_logger w).
Qed.
End InTransaction.

(** The log service keeps what registration relies on. *)
#[export] Instance log_attacher_attaches_only sv home : AttachesOnly (log_attacher sv home).
Proof.
  intros R d ps a info uid. cbn [attach_in_tx log_attacher]. unfold attach_log_in_transaction.
  eapply in_bind; [by apply (in_ofail _ _ _ _ _ (λ _ d', d' = d))|]. intros id ? ->.
  apply in_if; intros _; [apply in_throw|].
  eapply in_bind; [apply framed_resolve|]. intros p ? ->.
  eapply in_mono; [apply in_attach_locked|]. intros x d' [_ H]. by eapply attaches_logs.
Qed.

(** ** Attach with a transaction of its own *)

Definition change_lines (da : option DeferredAudit) : list audit_line :=
  match da with
  | Some x => [deferred_line x]
  | None => []
  end.

Lemma wp_desk_append l s :
  wp (at_tower (append_line l)) (λ o s', dk_sess s' = dk_sess s ∧
    ∃ ls, dk_lines s' = dk_lines s ++ ls ∧ ls `sublist_of` [l] ∧ (is_ok o = true → ls = [l]) ∧
      (events_io (dk_tower s) = [] → o = Ok tt ∧ ls = [l] ∧ events_io (dk_tower s') = [])) s.
Proof.
  unfold wp, at_tower, zoom, append_line, dk_sess, dk_lines.
  assert (∀ b : bool, (if b then events_jsonl (dk_tower s) ++ [l] else events_jsonl (dk_tower s)) =
    events_jsonl (dk_tower s) ++ (if b then [l] else []) ∧ (if b then [l] else []) `sublist_of` [l]) as H.
  { intros []; rewrite ?app_nil_r; (split; [done|]); [done|apply sublist_nil_l]. }
  destruct (events_io (dk_tower s)) as [|[[n b|b]|] rest]; cbn; (split; [done|]);
    try (exists [l]; by split_and!); destruct (H b) as [H1 H2]; exists (if b then [l] else []); by split_and!.
Qed.

Section Owned.
Context (R : relation tower_db) `{!PreOrder R}.
Abbreviation indesk := (inside dk_sess dk_audit R).

Section Body.
Context (a : AgentRecord) (info : ContainerInfo) (proof : HostVisibilityProof) (source : string) (uid : Z).

(** The end of an attach that began at [d0] with the lines [lines] in the audit file. *)
Definition attach_end (d0 : tower_db) (lines : list audit_line)
    (out : outcome (AttachResult * option DeferredAudit)) (s' : desk) : Prop :=
  tame R (dk_sess s') ∧
  match out with
  | Ok x => x.2 = None ∧ path_free a (hv_host_path proof) d0 ∧
      ∃ d1 da, attaches a (hv_host_path proof) source uid d0 d1 x.1 da ∧ R d1 (dk_db s') ∧
        dk_lines s' = lines ++ change_lines da
  | Raise e => R d0 (dk_db s') ∧ ∃ ls, dk_lines s' = lines ++ ls ∧ (length ls ≤ 1)%nat
  end.

Definition ends (d0 : tower_db) (lines : list audit_line) (d : tower_db)
    (m : M desk (AttachResult * option DeferredAudit)) : Prop := ∀ s,
  tame R (dk_sess s) → dk_db s = d0 → tx (dk_sess s) = Some d → dk_lines s = lines →
  wp m (attach_end d0 lines) s.

Lemma raise_end d0 lines e s :
  tame R (dk_sess s) → R d0 (dk_db s) → dk_lines s = lines → attach_end d0 lines (Raise e) s.
Proof.
  intros Ht Hd Hl. split; [done|]. split; [done|]. exists []. rewrite app_nil_r. by split; [|cbn; lia].
Qed.

Lemma ends_bind d0 lines A d (m : M desk A) k (Q' : A → tower_db → Prop) :
  indesk d m Q' → (∀ x d', Q' x d' → ends d0 lines d' (k x)) → ends d0 lines d (m ≫= k).
Proof.
  intros Hm Hk s Ht Hs Hx Hl. apply wp_bind. eapply wp_mono; [|by apply Hm].
  intros o s1 (H1 & H2 & H3 & d1 & H4 & H5).
  assert (dk_db s1 = d0) as Hdb by (unfold dk_db in *; congruence).
  assert (dk_lines s1 = lines) as Hlines by (rewrite <- Hl; unfold dk_lines, dk_audit in *; congruence).
  destruct o as [x|e]; cbv beta iota; [by eapply Hk; [apply H5|..]|]. apply raise_end; [done|by rewrite Hdb|done].
Qed.

Lemma ends_throw d0 lines d e : ends d0 lines d (throw e).
Proof. intros s Ht Hs Hx Hl. apply wp_throw, raise_end; [done|by rewrite Hs|done]. Qed.

Lemma ends_finish d0 lines d res da :
  path_free a (hv_host_path proof) d0 → attaches a (hv_host_path proof) source uid d0 d res (Some da) →
  ends d0 lines d (x ← emit_or_defer_audit false da; _ ← if_manage true Sql.commit; mret (res, x)).
Proof.
  intros Hf Hatt s Ht Hs Hx Hl. cbn [emit_or_defer_audit if_manage].
  apply wp_bind, wp_bind. eapply wp_mono; [|apply wp_desk_append].
  intros o s1 (E1 & ls & L1 & L2 & L3 & _). destruct o as [[]|e]; cbv beta iota.
  2:{ split; [by rewrite E1|]. split; [unfold dk_db; by rewrite E1, <- Hs|]. exists ls.
      split; [by rewrite L1, Hl|]. by apply sublist_length in L2. }
  apply wp_ret, wp_bind, wp_at_sql. rewrite (L3 eq_refl) in L1.
  eapply (wp_sql_commit R); [by rewrite E1|by rewrite E1|..].
  - intros s2 G1 G2 G3. apply wp_ret. split; [done|]. split; [done|]. split; [done|].
    exists d, (Some da). split; [done|]. split; [unfold dk_db, dk_sess; cbn; by rewrite G1|].
    change (dk_lines s1 = lines ++ change_lines (Some da)). by rewrite L1, Hl.
  - intros e s2 [P1 P2 P3 P4]. split; [done|]. split.
    + unfold dk_db, dk_sess. cbn. rewrite P4 by (rewrite E1, Hx; done). rewrite E1. by rewrite <- Hs.
    + exists [deferred_line da]. split; [|done].
      change (dk_lines s1 = lines ++ [deferred_line da]). by rewrite L1, Hl.
Qed.

(** Looking something up on a connection of its own. *)
Lemma wp_lookup {B} (f : tower_db → B) s :
  resting R s →
  wp (with_conn (at_sql (Sql.read f))) (λ o s', resting R s' ∧ R (dk_db s) (dk_db s') ∧
    dk_audit s' = dk_audit s ∧ ∀ b, o = Ok b → ∃ d, R (dk_db s) d ∧ b = f d) s.
Proof.
  intros Hs. apply (wp_with_conn R); [done| |].
  - intros x Hp. destruct (passed_resting R s x Hs Hp) as [Ht Hx]. destruct Hp as [P1 P2 P3 P4].
    apply wp_at_sql, (wp_read R); [done|..].
    + intros x2 [Q1 Q2 Q3 Q4]. split; [by apply closed_resting|]. split; [by trans (saved x)|].
      split; [done|]. intros b [= <-]. exists (Sql.view x2). split; [|done].
      unfold Sql.view. rewrite Q3. change (tx (dk_sess (set_dk_tower (set_sess x (dk_tower s)) s))) with (tx x) in Hx |- *.
      change (dk_sess (set_dk_tower (set_sess x (dk_tower s)) s)) with x in Q1 |- *. rewrite Hx. by trans (saved x).
    + intros e x2 [Q1 Q2 Q3 Q4]. split; [by apply closed_resting|]. split; [by trans (saved x)|]. by split.
  - intros e x Hp. split; [by apply passed_resting|]. destruct Hp as [P1 P2 P3 P4]. by split_and!.
Qed.

Lemma ends_again d0 lines e :
  path_free a (hv_host_path proof) d0 → newest_here a (hv_host_path proof) d0 = Some e →
  la_status e = "active"%string →
  ends d0 lines d0 (_ ← if_manage true Sql.commit; r ← render_with_offsets true e (Some (la_status e));
                    mret (r, None)).
Proof.
  intros Hf He Hst s Ht Hs Hx Hl. cbn [if_manage]. apply wp_bind, wp_at_sql.
  eapply (wp_sql_commit R); [done|done|..].
  - intros x G1 G2 G3. set (s1 := set_dk_tower _ s).
    assert (resting R s1) as Hs1 by done. assert (dk_db s1 = d0) as Hd1 by exact G1.
    apply wp_bind, wp_bind. eapply wp_mono; [|by apply wp_lookup].
    intros [o|ex] s2 (H1 & H2 & H3 & _); rewrite Hd1 in H2;
      (assert (dk_lines s2 = lines) as Hl2 by (rewrite <- Hl; unfold dk_audit in H3; by injection H3)).
    + apply wp_ret, wp_ret. split; [apply H1|]. split; [done|]. split; [done|].
      exists d0, None. split; [|by rewrite app_nil_r]. apply (Att_again _ _ _ _ _ e); [done|done|by destruct o..].
    + apply raise_end; [apply H1|done|done].
  - intros ex x [P1 P2 P3 P4]. apply raise_end; [done| |done].
    unfold dk_db, dk_sess. cbn. rewrite P4 by (by rewrite Hx). unfold dk_db in Hs. by rewrite Hs.
Qed.

Lemma ends_steps d0 lines : ends d0 lines d0 (attach_steps true false a info proof source uid).
Proof.
  apply (judge_steps R true false a info proof source uid d0 (ends d0 lines)). constructor.
  - intros A d m k Q'. apply ends_bind.
  - intros d e. apply ends_throw.
  - intros e. apply ends_again.
  - intros d res da. apply ends_finish.
Qed.

Lemma wp_quiet_rollback Q s :
  (∀ s', dk_db s' = dk_db s → tame R (dk_sess s') → dk_lines s' = dk_lines s → Q (Ok tt) s') →
  tame R (dk_sess s) → wp quiet_rollback Q s.
Proof.
  intros HQ Ht. unfold wp, quiet_rollback, catch, at_sql, at_tower, on_sql, zoom, Sql.rollback.
  change (sess (dk_tower s)) with (dk_sess s). destruct (tx (dk_sess s)); cbn; by apply HQ.
Qed.

(** What an attach leaves: nothing committed, and at most one line too many; or one step. *)
Definition attach_done (s : desk) (out : outcome (AttachResult * option DeferredAudit)) (s' : desk) : Prop :=
  (is_ok out = false ∧ R (dk_db s) (dk_db s') ∧ ∃ ls, dk_lines s' = dk_lines s ++ ls ∧ (length ls ≤ 1)%nat) ∨
  ∃ res d0 d1 da, out = Ok (res, None) ∧ R (dk_db s) d0 ∧ path_free a (hv_host_path proof) d0 ∧
    attaches a (hv_host_path proof) source uid d0 d1 res da ∧ R d1 (dk_db s') ∧
    dk_lines s' = dk_lines s ++ change_lines da.

Lemma attach_not_done s out s' :
  is_ok out = false → R (dk_db s) (dk_db s') → dk_lines s' = dk_lines s → attach_done s out s'.
Proof. intros Ho HR Hl. left. split_and!; [done..|]. exists []. rewrite app_nil_r. split; [done|cbn; lia]. Qed.

Lemma wp_attach_owned s :
  resting R s →
  wp (attach_log_locked true false a info proof source uid)
     (λ out s', resting R s' ∧ attach_done s out s') s.
Proof.
  intros Hs. apply (wp_with_conn R); [done| |].
  2:{ intros f x Hp. split; [by apply passed_resting|]. destruct Hp. by apply attach_not_done. }
  intros x Hp. destruct (passed_resting R s x Hs Hp) as [Ht1 Hx1]. destruct Hp as [P1 _ _ _].
  apply wp_except, wp_bind, wp_at_sql. cbn [if_manage]. apply (wp_sql_begin R); [done|done|..].
  2:{ intros f x2 [Q1 Q2 Q3 Q4]. destruct (is_exception (fault_exn f)) eqn:Ef.
      - apply wp_bind, wp_quiet_rollback; [|done]. intros s3 E3 T3 L3.
        destruct (is_registration_error _); apply wp_throw; (split; [by apply closed_resting|]);
          (apply attach_not_done; [done| |done]); change (dk_db (closed s3)) with (dk_db s3); rewrite E3; by trans (saved x).
      - split; [by apply closed_resting|]. apply attach_not_done; [done| |done]. by trans (saved x). }
  intros x2 H2 Htx2 Ht2. set (s2 := set_dk_tower _ _).
  assert (R (dk_db s) (dk_db s2)) as HR by (by trans (saved x)).
  eapply wp_mono; [|by apply (ends_steps (dk_db s2) (dk_lines s))].
  intros [[res d]|e] s3 (T3 & H3); cbv beta iota.
  - destruct H3 as (E & Hf & d1 & da & Hatt & HR1 & Hl). cbn in E. subst d.
    split; [by apply closed_resting|]. right. exists res, (dk_db s2), d1, da.
    change (dk_db (closed s3)) with (dk_db s3). change (dk_lines (closed s3)) with (dk_lines s3). by split_and!.
  - destruct H3 as (HR3 & ls & Hl & Hlen). assert (R (dk_db s) (dk_db s3)) as HR3' by (by trans (dk_db s2)).
    destruct (is_exception e).
    + apply wp_bind, wp_quiet_rollback; [|done]. intros s4 E4 T4 L4.
      destruct (is_registration_error e); apply wp_throw; (split; [by apply closed_resting|]); left;
        (split; [done|]); change (dk_db (closed s4)) with (dk_db s4); change (dk_lines (closed s4)) with (dk_lines s4);
        rewrite E4, L4; (split; [done|by exists ls]).
    + split; [by apply closed_resting|]. left. split; [done|]. split; [done|]. by exists ls.
Qed.
End Body.
End Owned.

(** ** Requests *)

Section Requests.
Context (R : relation tower_db) `{!PreOrder R} (schema_version : Z) (home : string).

(** Between two states at rest only the others have moved. *)
Definition idle (s s' : desk) : Prop :=
  resting R s' ∧ R (dk_db s) (dk_db s') ∧ dk_audit s' = dk_audit s ∧ dk_fs s' = dk_fs s.

Definition asks {A} (m : M desk A) (V : tower_db → A → Prop) : Prop := ∀ s,
  resting R s → wp m (λ o s', idle s s' ∧ ∀ x, o = Ok x → ∃ d, R (dk_db s) d ∧ V d x) s.

Lemma wp_asks {A B} (m : M desk A) V (k : A → M desk B) Q s :
  asks m V → resting R s →
  (∀ e s', idle s s' → Q (Raise e) s') →
  (∀ x d s', idle s s' → R (dk_db s) d → V d x → wp (k x) Q s') →
  wp (m ≫= k) Q s.
Proof.
  intros Hm Hs Hr Hk. apply wp_bind. eapply wp_mono; [|by apply Hm].
  intros [x|e] s' [H1 H2]; [|by apply Hr]. destruct (H2 x eq_refl) as (d & Hd & HV). by eapply Hk.
Qed.

Lemma idle_refl s : resting R s → idle s s.
Proof. by intros H. Qed.

Lemma idle_trans s1 s2 s3 : idle s1 s2 → idle s2 s3 → idle s1 s3.
Proof. intros (A1 & A2 & A3 & A4) (B1 & B2 & B3 & B4). split_and!; [done|by trans (dk_db s2)|congruence..]. Qed.

Lemma asks_lookup {B} (f : tower_db → B) : asks (with_conn (at_sql (Sql.read f))) (λ d b, b = f d).
Proof.
  intros s Hs.
  assert (dk_fs (with_conn (at_sql (Sql.read f)) s).2 = dk_fs s) as Hfs.
  { unfold with_conn, at_sql, at_tower, zoom, lift, mbind, M_bind.
    destruct (on_sql Sql.statement (dk_tower s)) as [[]]; [|done].
    cbn. destruct (on_sql _ _) as [? ?]. done. }
  pose proof (wp_lookup R f s Hs) as H. unfold wp in *. destruct H as (H1 & H2 & H3 & H4). by split_and!.
Qed.

Lemma asks_agent id : asks (resolve_active_agent id) (λ d a,
  find_agent id d = Some a ∧ active a = true).
Proof.
  intros s Hs. eapply wp_asks; [apply asks_lookup|done|by intros e s' H; split|].
  intros r d s' Hi Hd ->. change (select_agent id) with (Sql.read (find_agent id)).
  destruct (find_agent id d) as [a|] eqn:E; [|apply wp_throw; by split].
  destruct (active a) eqn:Ea; [|apply wp_throw; by split].
  apply wp_ret. split; [done|]. intros x [= <-]. by exists d.
Qed.

Lemma asks_container id : asks (resolve_active_container id) (λ d info, ∃ c,
  containers d !! id = Some c ∧ cr_active c = true ∧
  info = mkContainerInfo (cr_mounts c) (normalize_bench_user_for_exec (cr_config_user c))).
Proof.
  intros s Hs. eapply wp_asks; [apply asks_lookup|done|by intros e s' H; split|].
  intros r d s' Hi Hd ->. destruct (containers d !! id) as [c|] eqn:E; [|apply wp_throw; by split].
  destruct (cr_active c) eqn:Ea; [|apply wp_throw; by split].
  apply wp_ret. split; [done|]. intros x [= <-]. exists d. split; [done|]. by exists c.
Qed.

Lemma asks_pane a : asks (require_active_pane a) (λ d _, ∃ p,
  panes d !! agent_composite_key a = Some p ∧ pr_active p = true).
Proof.
  intros s Hs. eapply wp_asks; [apply asks_lookup|done|by intros e s' H; split|].
  intros r d s' Hi Hd ->. destruct (panes d !! _) as [p|] eqn:E; [|apply wp_throw; by split].
  destruct (pr_active p) eqn:Ea; [|apply wp_throw; by split].
  apply wp_ret. split; [done|]. intros x [= <-]. exists d. split; [done|]. by exists p.
Qed.

Lemma first_proof_Ok fs mounts last cs p :
  first_proof fs mounts last cs = Ok p → ∃ c, c ∈ cs ∧ prove_host_visible fs mounts c true = Ok p.
Proof.
  revert last. induction cs as [|c cs IH]; intros last; cbn [first_proof]; [done|].
  destruct (prove_host_visible fs mounts c true) as [q|e] eqn:E.
  - intros [= <-]. exists c. split; [by left|done].
  - destruct (bool_decide _); [|done]. intros (c' & Hc' & H)%IH. exists c'. split; [by right|done].
Qed.

(** The target of an attach: one of the candidates, proved to be a file of the host. *)
Definition target_of (fs : HostFs) (ps : params) (a : AgentRecord) (info : ContainerInfo)
    (proof : HostVisibilityProof) : Prop :=
  ∃ cs c, attach_candidates home ps a info = Ok cs ∧ c ∈ cs ∧
    prove_host_visible fs (ci_mounts info) c true = Ok proof.

Lemma wp_resolve ps a info s :
  resting R s →
  wp (resolve_attach_target home ps a info) (λ o s', idle s s' ∧
    ∀ p, o = Ok p → target_of (dk_fs s) ps a info p) s.
Proof.
  intros Hs. apply wp_bind. destruct (attach_candidates home ps a info) as [cs|e] eqn:Ec; cbn [ofail].
  2:{ apply wp_throw. split; [by apply idle_refl|done]. }
  apply wp_ret, wp_bind. unfold wp at 1, lift. cbn [fst snd].
  destruct (first_proof _ _ _ _) as [p|e] eqn:Ep.
  - apply wp_ret. split; [by apply idle_refl|]. intros q [= <-].
    apply first_proof_Ok in Ep as (c & Hc & E). by exists cs, c.
  - destruct (bool_decide (e ∈ _)); [|apply wp_throw; split; [by apply idle_refl|done]].
    apply wp_bind. destruct (bool_decide (e = _)); [|apply wp_ret, wp_throw; split; [by apply idle_refl|done]].
    unfold wp, at_tower, zoom, emit_mounts_json_oversized, emit_always, throw.
    destruct (has_logger (dk_tower s)); cbn; (split; [|done]); (split; [by destruct Hs|]); by split_and!.
Qed.

(** ** Attach as a request *)

Definition attach_post (ps : params) (source : string) (uid : Z) (s : desk)
    (out : outcome (AttachResult * option DeferredAudit)) (s' : desk) : Prop :=
  resting R s' ∧
  ((is_ok out = false ∧ R (dk_db s) (dk_db s') ∧
    ∃ ls, dk_lines s' = dk_lines s ++ ls ∧ (length ls ≤ 1)%nat) ∨
   ∃ id a info proof res d0 d1 da,
     json_get "agent_id" ps = Some (JStr id) ∧ agent_id a = id ∧ active a = true ∧
     (∃ d c, R (dk_db s) d ∧ containers d !! container_id a = Some c ∧ cr_active c = true ∧
        ci_mounts info = cr_mounts c) ∧
     (∃ d p, R (dk_db s) d ∧ panes d !! agent_composite_key a = Some p ∧ pr_active p = true) ∧
     target_of (dk_fs s) ps a info proof ∧
     out = Ok (res, None) ∧ R (dk_db s) d0 ∧ path_free a (hv_host_path proof) d0 ∧
     attaches a (hv_host_path proof) source uid d0 d1 res da ∧ R d1 (dk_db s') ∧
     dk_lines s' = dk_lines s ++ change_lines da).

Lemma attach_refused ps source uid s e s' : idle s s' → attach_post ps source uid s (Raise e) s'.
Proof.
  intros (H1 & H2 & H3 & _). split; [done|]. left. split_and!; [done..|]. exists [].
  rewrite app_nil_r. unfold dk_audit in H3. injection H3 as H3 _. split; [done|cbn; lia].
Qed.

Lemma wp_attach_log ps source uid s :
  resting R s →
  wp (attach_log schema_version home ps uid source false) (attach_post ps source uid s) s.
Proof.
  intros Hs. unfold attach_log. apply wp_bind.
  destruct (parse_target _ _ _) as [id|e] eqn:Ep; cbn [ofail]; [|by apply wp_throw, attach_refused, idle_refl].
  apply parse_target_Ok in Ep. apply wp_ret.
  eapply wp_asks; [apply asks_agent|done|by intros; apply attach_refused|].
  intros a d1 s1 H1 _ [[_ Hid]%find_agent_Some Hact].
  eapply wp_asks; [apply asks_container|apply H1|by intros; apply attach_refused; eapply idle_trans|].
  intros info d2 s2 H2 Hd2 (c & Hc & Hca & ->). assert (idle s s2) as H2' by (by eapply idle_trans).
  eapply wp_asks; [apply asks_pane|apply H2|by intros; apply attach_refused; eapply idle_trans|].
  intros [] d3 s3 H3 Hd3 (p & Hp & Hpa). assert (idle s s3) as H3' by (by eapply idle_trans).
  apply wp_bind. eapply wp_mono; [|apply wp_resolve, H3].
  intros [proof|e] s4 [H4 Htarget]; cbv beta iota; [|apply attach_refused; by eapply idle_trans].
  specialize (Htarget proof eq_refl). assert (idle s s4) as (Hs4 & HR4 & Ha4 & _) by (by eapply idle_trans).
  assert (dk_lines s4 = dk_lines s) as Hl4 by (unfold dk_audit in Ha4; by injection Ha4).
  eapply wp_mono; [|by apply (wp_attach_owned R)].
  intros out s5 [Hs5 Hdone]. split; [done|].
  destruct Hdone as [(Ho & HR & ls & Hl & Hlen)|(res & d0 & d5 & da & -> & HR & Hf & Hatt & HR5 & Hl)].
  - left. split; [done|]. split; [by trans (dk_db s4)|]. exists ls. by rewrite Hl, Hl4.
  - right. eexists id, a, _, proof, res, d0, d5, da. rewrite Hl, Hl4.
    assert (dk_fs s3 = dk_fs s) as Efs by apply H3'. rewrite Efs in Htarget.
    assert (R (dk_db s) d0) by (by trans (dk_db s4)).
    destruct H1 as (_ & HR1 & _ & _), H2' as (_ & HR2 & _ & _).
    split_and!; [done|done|done| | |exact Htarget|done..].
    + exists d2, c. split_and!; [by trans (dk_db s1)|done..].
    + exists d3, p. split_and!; [by trans (dk_db s2)|done..].
Qed.
End Requests.

(** ** Detach *)

Section Detach.
Context (R : relation tower_db) `{!PreOrder R} (schema_version : Z).
Abbreviation indesk := (inside dk_sess dk_audit R).

(** The step: the newest active row of the agent is detached, and the answer shows where
    its reader stood; nothing else changes. *)
Definition detaches (agent : string) (d d' : tower_db) (res : DetachResult) : Prop :=
  ∃ e l, fetch_newest (λ r, [la_last_status_at r]) (λ r, la_agent_id r = agent ∧ is_active r) d = Some e ∧
    restated (la_attachment_id e) "detached" (dr_last_status_at res) None None (log_attachments d) l ∧
    d' = set_log_attachments l d ∧ dr_agent_id res = agent ∧
    dr_attachment_id res = la_attachment_id e ∧ dr_log_path res = la_log_path e ∧
    dr_byte_offset res = default 0 (lo_byte_offset <$> log_offsets d !! (agent, la_log_path e)) ∧
    dr_line_offset res = default 0 (lo_line_offset <$> log_offsets d !! (agent, la_log_path e)).

Definition detach_line (uid : Z) (res : DetachResult) : audit_line :=
  L_attachment_change (dr_attachment_id res) (dr_agent_id res) (Some "active"%string) "detached"
    (Some (dr_log_path res)) (dr_log_path res) None "explicit" uid.

(** [out] is the answer, unless the process is killed while the line is appended. *)
Definition detach_done (agent : string) (uid : Z) (s : desk) (out : outcome DetachResult) (s' : desk) : Prop :=
  (is_ok out = false ∧ R (dk_db s) (dk_db s') ∧ dk_lines s' = dk_lines s) ∨
  ∃ res d0 ls, R (dk_db s) d0 ∧ detaches agent d0 (dk_db s') res ∧
    dk_lines s' = dk_lines s ++ ls ∧ ls `sublist_of` [detach_line uid res] ∧
    (∀ r, out = Ok r → r = res) ∧
    (events_io (dk_tower s) = [] → out = Ok res ∧ ls = [detach_line uid res]).

(** The rest of a detach at [d], begun on [d0]; [s0] is where the request started. *)
Definition leaves (agent : string) (uid : Z) (s0 : desk) (d0 d : tower_db) (m : M desk DetachResult) : Prop := ∀ s,
  tame R (dk_sess s) → dk_db s = d0 → tx (dk_sess s) = Some d → dk_audit s = dk_audit s0 →
  wp m (λ out s', tame R (dk_sess s') ∧ detach_done agent uid s0 out s') s.

Section Steps.
Context (agent : string) (uid : Z) (s0 : desk) (d0 : tower_db) (HR0 : R (dk_db s0) d0).

Lemma detach_failed_here e s :
  dk_db s = d0 → dk_audit s = dk_audit s0 → detach_done agent uid s0 (Raise e) s.
Proof.
  intros Hs Ha. left. split; [done|]. split; [by rewrite Hs|].
  unfold dk_lines, dk_audit in *. congruence.
Qed.

Lemma leaves_bind {A} d (m : M desk A) k (Q' : A → tower_db → Prop) :
  indesk d m Q' → (∀ x d', Q' x d' → leaves agent uid s0 d0 d' (k x)) → leaves agent uid s0 d0 d (m ≫= k).
Proof.
  intros Hm Hk s Ht Hs Hx Ha. apply wp_bind. eapply wp_mono; [|by apply Hm].
  intros o s1 (H1 & H2 & H3 & d1 & H4 & H5).
  assert (dk_db s1 = d0) as Hdb by (unfold dk_db in *; congruence).
  assert (dk_audit s1 = dk_audit s0) as Haud by congruence.
  destruct o as [x|e]; cbv beta iota; [by eapply Hk; [apply H5|..]|].
  split; [done|]. by apply detach_failed_here.
Qed.

Lemma leaves_back_out d code : leaves agent uid s0 d0 d (back_out code).
Proof.
  intros s Ht Hs Hx Ha. apply wp_bind, wp_at_sql. unfold wp, Sql.rollback. rewrite Hx. cbn.
  split; [done|]. by apply detach_failed_here.
Qed.

Lemma leaves_steps a info : agent_id a = agent → leaves agent uid s0 d0 d0 (detach_steps a info uid).
Proof.
  intros Hag. eapply leaves_bind; [apply in_at_sql, in_read|]. intros existing ? [Hex ->].
  destruct existing as [e|]; [|apply leaves_back_out].
  eapply leaves_bind; [apply in_docker|]. intros r ? ->.
  destruct (failure_kind r); [apply leaves_back_out|].
  destruct (negb _ || _); [apply leaves_back_out|].
  eapply leaves_bind; [apply in_clock|]. intros now ? ->.
  eapply leaves_bind; [apply in_update_status|]. intros [] ? (l & Hl & ->).
  eapply leaves_bind; [apply in_at_sql, in_read|]. intros offset ? [-> ->].
  intros s Ht Hs Hx Ha. apply wp_bind, wp_at_sql. eapply (wp_sql_commit R); [done|done|..].
  2:{ intros ex x [P1 P2 P3 P4]. split; [done|]. apply detach_failed_here; [|done].
      unfold dk_db, dk_sess. cbn. rewrite P4 by (by rewrite Hx). done. }
  intros x G1 G2 G3. set (s1 := set_dk_tower _ s).
  assert (dk_audit s1 = dk_audit s0) as Ha1 by exact Ha.
  set (res := mkDetached _ _ _ _ _ _).
  assert (detaches agent d0 (dk_db s1) res) as Hstep.
  { exists e, l. subst agent. by split_and!. }
  apply wp_bind. eapply wp_mono; [|apply wp_safe_line].
  intros o s2 (E1 & _ & ls & H2 & H3 & H4).
  assert (detach_done agent uid s0 (match o with Ok _ => Ok res | Raise ex => Raise ex end) s2) as Hdone.
  { assert (dk_lines s1 = dk_lines s0 ∧ events_io (dk_tower s1) = events_io (dk_tower s0)) as [Hl1 Hb1]
      by (unfold dk_audit in Ha1; by injection Ha1).
    right. exists res, d0, ls. unfold dk_db. rewrite E1.
    split_and!; [done|done|by rewrite H2, Hl1|subst agent; exact H3|by destruct o; intros ? [= <-]|].
    intros Hio. rewrite <- Hb1 in Hio. destruct (H4 Hio) as (-> & -> & _). by subst agent. }
  destruct o as [u|ex]; [apply wp_ret|]; (split; [by rewrite E1|exact Hdone]).
Qed.
End Steps.

Lemma wp_detach_locked a info uid s :
  resting R s →
  wp (with_conn (except (detach_body a info uid) (attach_failed true)))
     (λ out s', resting R s' ∧ detach_done (agent_id a) uid s out s') s.
Proof.
  intros Hs. apply (wp_with_conn R); [done| |].
  2:{ intros f x Hp. split; [by apply passed_resting|]. left. by destruct Hp. }
  intros x Hp. destruct (passed_resting R s x Hs Hp) as [Ht1 Hx1]. destruct Hp as [P1 _ _ _].
  set (s1 := set_dk_tower _ s).
  assert (∀ e s2, tame R (dk_sess s2) → detach_done (agent_id a) uid s (Raise e) s2 →
    if is_exception e
    then wp (attach_failed true e) (λ out s', resting R (closed s') ∧ detach_done (agent_id a) uid s out (closed s')) s2
    else resting R (closed s2) ∧ detach_done (agent_id a) uid s (Raise e) (closed s2)) as Hfail.
  { intros e s2 T2 Hd. destruct (is_exception e) eqn:Ee; [|split; [by apply closed_resting|exact Hd]].
    apply wp_bind, (wp_quiet_rollback R); [|done]. intros s3 E3 T3 L3.
    assert (∀ e', detach_done (agent_id a) uid s (Raise e') (closed s3)) as Hd3.
    { intros e'. destruct Hd as [(_ & HR & Hl)|(res & d0 & ls & H1 & H2 & H3 & H4 & H5 & H6)].
      - left. split; [done|]. change (dk_db (closed s3)) with (dk_db s3).
        change (dk_lines (closed s3)) with (dk_lines s3). by rewrite E3, L3.
      - right. exists res, d0, ls. change (dk_db (closed s3)) with (dk_db s3).
        change (dk_lines (closed s3)) with (dk_lines s3). rewrite E3, L3. split_and!; [done..|].
        intros Hio. by destruct (H6 Hio). }
    destruct (is_registration_error e); apply wp_throw; (split; [by apply closed_resting|]); apply Hd3. }
  apply wp_except, wp_bind, wp_at_sql. apply (wp_sql_begin R); [done|done|..].
  2:{ intros f x2 [Q1 Q2 Q3 Q4]. apply Hfail; [done|]. left. split; [done|]. split; [by trans (saved x)|done]. }
  intros x2 H2 Htx2 Ht2. set (s2 := set_dk_tower _ s1).
  assert (R (dk_db s) (dk_db s2)) as HR by (by trans (saved x)).
  eapply wp_mono; [|by apply (leaves_steps (agent_id a) uid s (dk_db s2))].
  intros [res|e] s3 [T3 H3]; cbv beta iota; [split; [by apply closed_resting|exact H3]|by apply Hfail].
Qed.

Definition detach_post (ps : params) (uid : Z) (s : desk) (out : outcome DetachResult) (s' : desk) : Prop :=
  resting R s' ∧
  ((is_ok out = false ∧ R (dk_db s) (dk_db s') ∧ dk_lines s' = dk_lines s) ∨
   ∃ id, json_get "agent_id" ps = Some (JStr id) ∧ detach_done id uid s out s').

Lemma wp_detach_log ps uid s :
  resting R s → wp (detach_log schema_version ps uid) (detach_post ps uid s) s.
Proof.
  intros Hs.
  assert (∀ e s', idle R s s' → detach_post ps uid s (Raise e) s') as Hno.
  { intros e s' (H1 & H2 & H3 & _). split; [done|]. left. split_and!; [done..|].
    unfold dk_audit in H3. by injection H3. }
  unfold detach_log. apply wp_bind.
  destruct (parse_target _ _ _) as [id|e] eqn:Ep; cbn [ofail]; [|by apply wp_throw, Hno, idle_refl].
  apply parse_target_Ok in Ep. apply wp_ret.
  eapply wp_asks; [by apply asks_agent|done|by intros; apply Hno|].
  intros a d1 s1 H1 _ [[_ Hid]%find_agent_Some _].
  eapply wp_asks; [by apply asks_container|apply H1|by intros; apply Hno; eapply idle_trans|].
  intros info d2 s2 H2 _ _. assert (idle R s s2) as H2' by (by eapply idle_trans).
  eapply wp_asks; [by apply asks_pane|apply H2|by intros; apply Hno; eapply idle_trans|].
  intros [] d3 s3 H3 _ _. assert (idle R s s3) as (Hs3 & HR3 & Ha3 & _) by (by eapply idle_trans).
  assert (dk_lines s3 = dk_lines s ∧ events_io (dk_tower s3) = events_io (dk_tower s)) as [Hl3 Hio3]
    by (unfold dk_audit in Ha3; by injection Ha3).
  eapply wp_mono; [|by apply wp_detach_locked]. intros out s4 [Hs4 Hd]. split; [done|].
  destruct Hd as [(Ho & HR & Hl)|(res & d0 & ls & G1 & G2 & G3 & G4 & G5 & G6)].
  - left. split_and!; [done|by trans (dk_db s3)|by rewrite Hl].
  - right. exists id. split; [done|]. right. exists res, d0, ls. rewrite Hid in G2.
    split_and!; [by trans (dk_db s3)|done|by rewrite G3, Hl3|done|done|]. by rewrite <- Hio3.
Qed.
End Detach.
