(* ===== verification/LogClaims.v ===== *)
(** The chain of attachments of an agent: at most one of its rows is live, that is, not
    superseded, and it is the one that the lookups by time find.  The order is that of the
    timestamps in the rows, so it holds as long as the clock does not step back.  Also: reading
    the end of a log backwards in blocks gives its last lines. *)

From S2P Require Import Prelude Errors Agents Permissions Store Utf8 Envelope AuditWriter Redaction Classifier Session Tables LogDao Json Tower EventsReaderSpec TowerInvariant RegistryDao Validation Desk AgentsService InTx RegistrySpec AgentsServiceSpec AgentsClaims PipePane LogPaths LogService LogServiceSpec.
From Stdlib Require Import Ascii.

Definition live (r : LogAttachmentRecord) : Prop := la_status r ≠ "superseded".

(** [r'] comes before [r] in the order of the keys [k]. *)
Definition older (k : LogAttachmentRecord → list string) (r' r : LogAttachmentRecord) : Prop :=
  keys_le (k r') (k r) ∧ ¬ keys_le (k r) (k r').

Definition by_status (r : LogAttachmentRecord) : list string := [la_last_status_at r].
Definition by_recency (r : LogAttachmentRecord) : list string :=
  [la_last_status_at r; la_created_at r; la_attachment_id r].

Definition chained (l : list LogAttachmentRecord) : Prop := ∀ r r',
  r ∈ l → r' ∈ l → la_agent_id r' = la_agent_id r → live r →
  r' = r ∨ (older by_recency r' r ∧ (la_log_path r' = la_log_path r → older by_status r' r)).

(** [now] is later than what the rows of the agent carry. *)
Definition before (t now : string) : Prop := String.le t now ∧ t ≠ now.
Definition later (l : list LogAttachmentRecord) (agent now : string) : Prop := ∀ r,
  r ∈ l → la_agent_id r = agent → before (la_last_status_at r) now ∧ before (la_created_at r) now.

(** ** Lookups in a chain *)

Lemma before_not_le t now : before t now → ¬ String.le now t.
Proof. intros [H1 H2] H. by apply H2, (anti_symm String.le). Qed.

Lemma older_status r' r : before (la_last_status_at r') (la_last_status_at r) → older by_status r' r.
Proof.
  intros H. pose proof (before_not_le _ _ H). destruct H as [H1 H2]. unfold older, by_status, keys_le.
  rewrite decide_False, decide_False by congruence. done.
Qed.

Lemma older_recency r' r :
  before (la_last_status_at r') (la_last_status_at r) ∨
  la_last_status_at r' = la_last_status_at r ∧ before (la_created_at r') (la_created_at r) →
  older by_recency r' r.
Proof.
  intros [H|[E H]]; pose proof (before_not_le _ _ H); destruct H as [H1 H2]; unfold older, by_recency; cbn;
    repeat case_decide; try congruence; done.
Qed.

Lemma fetch_newest_unique k (p : LogAttachmentRecord → Prop) `{!∀ r, Decision (p r)} d r :
  r ∈ log_attachments d → p r →
  (∀ r', r' ∈ log_attachments d → p r' → r' = r ∨ older k r' r) →
  fetch_newest k p d = Some r.
Proof.
  intros Hr Hp Hold. unfold fetch_newest.
  assert (r ∈ filter p (log_attachments d)) as Hin by (by apply list_elem_of_filter).
  assert (∀ r', r' ∈ filter p (log_attachments d) → r' = r ∨ older k r' r) as Hf
    by (intros r' [? ?]%list_elem_of_filter; by apply Hold).
  revert Hin Hf. generalize (filter p (log_attachments d)). clear. intros l Hin Hf.
  assert (∀ best, (best = None ∨ ∃ b, best = Some b ∧ (b = r ∨ older k b r)) →
    (best = Some r ∨ r ∈ l) → foldl (newest_of k) best l = Some r) as H.
  { clear Hin. induction l as [|x l IH]; intros best Hb Hor; cbn.
    { destruct Hor as [?|?%elem_of_nil]; done. }
    assert (x = r ∨ older k x r) as Hx by (apply Hf; by left).
    apply IH; [intros r' Hr'; apply Hf; by right|..].
    - right. destruct Hb as [->|(b & -> & Hb)]; [by exists x|]. cbn. destruct (decide _); eauto.
    - destruct Hor as [->|[<-|?]%elem_of_cons]; [left| |by right].
      + cbn. destruct (decide _) as [|Hn]; [done|]. destruct Hx as [->|[? _]]; done.
      + left. destruct Hb as [->|(b & -> & Hb)]; [done|]. cbn.
        destruct Hb as [->|[_ Hb]]; [by destruct (decide _)|by rewrite decide_False]. }
  apply H; auto.
Qed.

Lemma fetch_newest_Some k (p : LogAttachmentRecord → Prop) `{!∀ r, Decision (p r)} d r :
  fetch_newest k p d = Some r → r ∈ log_attachments d ∧ p r.
Proof.
  unfold fetch_newest. intros E.
  assert (∀ l best, foldl (newest_of k) best l = Some r → best = Some r ∨ r ∈ l) as Hl.
  { clear E. induction l as [|x l IH]; intros best; cbn; [by left|]. intros [E|E]%IH; [|right; by right].
    destruct best as [b|]; cbn in E; [|injection E as ->; right; by left].
    destruct (decide _); injection E as ->; [by left|right; by left]. }
  destruct (Hl _ _ E) as [?|E']; [done|]. by apply list_elem_of_filter in E' as [? ?].
Qed.

(** ** Changes of status *)

Lemma same_attachment l a b :
  rows_ok check_attachment attachment_clash l → a ∈ l → b ∈ l →
  la_attachment_id a = la_attachment_id b → a = b.
Proof.
  intros [_ Hc] Ha Hb E. eapply clash_free_unique; [apply attachment_clash_sym|exact Hc|done|done|].
  unfold attachment_clash. by rewrite bool_decide_eq_true_2.
Qed.

Lemma restated_rows l l' e st now s1 s2 :
  rows_ok check_attachment attachment_clash l → e ∈ l →
  restated (la_attachment_id e) st now s1 s2 l l' →
  ∀ x, x ∈ l' → x = with_status st now s1 s2 e ∨ (x ∈ l ∧ x ≠ e).
Proof.
  intros Hok He E x Hx. unfold restated, list_update in E. case_match; [|done]. injection E as <-.
  apply list_elem_of_fmap in Hx as (y & -> & Hy). case_bool_decide as Hid.
  - left. f_equal. by eapply same_attachment.
  - right. split; [done|]. intros ->. done.
Qed.

Lemma older_asym k r r' : older k r r' → older k r' r → False.
Proof. by intros [H1 _] [_ H2]. Qed.

(** Two live rows of an agent are the same. *)
Lemma live_unique l r r' :
  chained l → r ∈ l → r' ∈ l → la_agent_id r' = la_agent_id r → live r → live r' → r' = r.
Proof.
  intros Hc Hr Hr' E Hl Hl'. destruct (Hc r r') as [?|[H1 _]]; [done..|].
  destruct (Hc r' r) as [?|[H2 _]]; [done..|]. exfalso. by eapply older_asym.
Qed.

(** A live row that changes to another live status. *)
Lemma chain_restate l l' e st now :
  rows_ok check_attachment attachment_clash l → chained l → e ∈ l → live e →
  later l (la_agent_id e) now → st ≠ "superseded"%string →
  restated (la_attachment_id e) st now None None l l' → chained l'.
Proof.
  intros Hok Hc He Hle Hlater Hst Hre r r' Hr Hr' Ha Hlive.
  pose proof (restated_rows _ _ _ _ _ _ _ Hok He Hre) as Hrows.
  apply Hrows in Hr as [->|[Hr Hne]]; apply Hrows in Hr' as [->|[Hr' Hne']].
  - by left.
  - right. destruct (Hlater r' Hr' Ha) as [H1 H2].
    split; [apply older_recency; by left|intros _; by apply older_status].
  - exfalso. apply Hne. symmetry. by apply (live_unique l).
  - by apply Hc.
Qed.

(** A new row of an agent whose live row, if any, is superseded by it. *)
Lemma chain_insert l l1 l2 row now new_id target :
  rows_ok check_attachment attachment_clash l → chained l →
  la_last_status_at row = now → la_created_at row = now → later l (la_agent_id row) now →
  (∀ r, r ∈ l → la_agent_id r = la_agent_id row → live r → target = Some r ∧ la_log_path r ≠ la_log_path row) →
  (∀ t, target = Some t → t ∈ l ∧ la_agent_id t = la_agent_id row ∧ live t) →
  supersedes now new_id target l l1 → list_insert check_attachment attachment_clash row l1 = Ok l2 →
  chained l2.
Proof.
  intros Hok Hc Hs Hcr Hlater Hall Htgt Hsup Hins.
  unfold list_insert in Hins. case_match; [|done]. injection Hins as <-.
  assert (∀ x, x ∈ l1 → x ∈ l ∧ target ≠ Some x ∨ ∃ t, target = Some t ∧
    x = with_status "superseded" now (Some now) (Some new_id) t) as Hl1.
  { intros x Hx. destruct target as [t|]; cbn in Hsup; [|subst l1; by left].
    destruct (Htgt t eq_refl) as (Ht & _ & _).
    destruct (restated_rows _ _ _ _ _ _ _ Hok Ht Hsup x Hx) as [->|[? ?]]; [right; by exists t|].
    left. split; [done|congruence]. }
  assert (∀ x, x ∈ l1 → la_agent_id x = la_agent_id row → ¬ live x) as Hdead.
  { intros x [[Hx Hne]|(t & Ht & ->)]%Hl1 Ha Hlx; [|by apply Hlx]. by destruct (Hall x). }
  assert (∀ x, x ∈ l1 → la_agent_id x = la_agent_id row →
    older by_recency x row ∧ (la_log_path x = la_log_path row → older by_status x row)) as Hold.
  { intros x [[Hx _]|(t & Ht & ->)]%Hl1 Ha.
    - destruct (Hlater x Hx Ha). split; [apply older_recency; left|intros _; apply older_status]; by rewrite Hs.
    - destruct (Htgt t Ht) as (Htl & Hta & Hlive). destruct (Hlater t Htl Hta), (Hall t) as [_ Hp]; [done..|].
      split; [|done]. apply older_recency. right. cbn. by rewrite Hs, Hcr. }
  intros r r' Hr Hr' Ha Hlive.
  apply elem_of_app in Hr as [Hr| ->%list_elem_of_singleton], Hr' as [Hr'| ->%list_elem_of_singleton].
  - destruct (Hl1 r Hr) as [[Hrl _]|(t & _ & ->)]; [|by exfalso; apply Hlive].
    destruct (Hl1 r' Hr') as [[Hrl' _]|(t & Ht & ->)]; [by apply Hc|].
    exfalso. destruct (Htgt t Ht) as (_ & Hta & _). apply (Hdead r); [done|cbn in Ha; congruence|done].
  - exfalso. by apply (Hdead r).
  - right. by apply Hold.
  - by left.
Qed.

(** ** The steps of the service *)

Lemma live_status r (l : list string) : la_status r ∈ l → "superseded"%string ∉ l → live r.
Proof. intros H1 H2 E. rewrite E in H1. done. Qed.

Lemma status_live l r :
  rows_ok check_attachment attachment_clash l → r ∈ l → live r →
  la_status r ∈ ["active"; "stale"; "detached"]%string.
Proof.
  intros [Hck _] Hr Hl. rewrite forallb_forall in Hck.
  apply list_elem_of_In, Hck, andb_true_iff in Hr as [Hr _]. apply bool_decide_eq_true in Hr.
  unfold VALID_STATUSES, live in *. rewrite !elem_of_cons, elem_of_nil in *. intuition.
Qed.

Section Steps.
Context (a : AgentRecord) (path source : string).

Lemma newest_here_live d r :
  chained (log_attachments d) → r ∈ log_attachments d → la_agent_id r = agent_id a → la_log_path r = path →
  live r → newest_here a path d = Some r.
Proof.
  intros Hc Hr Ha Hp Hl. apply (fetch_newest_unique by_status); [done|done|].
  intros r' Hr' [Ha' Hp']. destruct (Hc r r') as [?|[_ H]]; [done|done|congruence|done|by left|].
  right. apply H. congruence.
Qed.

Lemma newest_of_agent_live d r :
  chained (log_attachments d) → r ∈ log_attachments d → la_agent_id r = agent_id a → live r →
  newest_of_agent a d = Some r.
Proof.
  intros Hc Hr Ha Hl. apply (fetch_newest_unique by_recency); [done|done|].
  intros r' Hr' Ha'. destruct (Hc r r') as [?|[H _]]; [done|done|congruence|done|by left|by right].
Qed.

Lemma supersede_target_Some d t :
  supersede_target path (newest_of_agent a d) = Some t →
  t ∈ log_attachments d ∧ la_agent_id t = agent_id a ∧ live t ∧ la_log_path t ≠ path.
Proof.
  destruct (newest_of_agent a d) as [r|] eqn:E; cbn [supersede_target]; [|done].
  destruct (_ && _) eqn:Eb; [|done]. intros [= <-]. apply andb_true_iff in Eb as [E1 E2].
  apply bool_decide_eq_true in E1. apply negb_true_iff, bool_decide_eq_false in E2.
  apply fetch_newest_Some in E as [H1 H2]. split_and!; [done..| |done]. by apply (live_status _ _ E1), (bool_decide_unpack _).
Qed.

Lemma supersede_target_live d t :
  tower_wf d → chained (log_attachments d) → t ∈ log_attachments d → la_agent_id t = agent_id a → live t →
  la_log_path t ≠ path → supersede_target path (newest_of_agent a d) = Some t.
Proof.
  intros Hwf Hc Ht Ha Hl Hp. rewrite (newest_of_agent_live d t) by done. cbn.
  rewrite bool_decide_eq_true_2, bool_decide_eq_false_2; [done|done|].
  by eapply status_live; [apply Hwf|..].
Qed.

Lemma attach_chain uid d d' res da :
  attaches a path source uid d d' res da → tower_wf d → chained (log_attachments d) →
  (da ≠ None → later (log_attachments d) (agent_id a) (ar_last_status_at res)) →
  chained (log_attachments d').
Proof.
  intros [e res' He Hst Hid Hnew|e l l' d1 now new_id pp offs He Hst Hl Hl' Hoffs
         |l l' now new_id cmd pp replaced row Hno Hl Hins Hnone] Hwf Hc Hlater; [done|..];
    specialize (Hlater ltac:(done)); pose proof (wf_attachments _ Hwf) as Hok.
  - pose proof (fetch_newest_Some _ _ _ _ He) as (Hin & Ha & Hp).
    assert (live e) as Hlive by (by apply (live_status _ _ Hst), (bool_decide_unpack _)).
    assert (l = log_attachments d) as ->.
    { rewrite (newest_of_agent_live d e) in Hl by done. cbn in Hl.
      rewrite (bool_decide_eq_true_2 (la_log_path e = path)), andb_false_r in Hl by done. done. }
    assert (log_attachments d1 = l') as -> by (by destruct Hoffs as [? ->|? ? ->|? ? ? ? ? ->]).
    cbn in Hlater. eapply chain_restate; [done|done|exact Hin|done|by rewrite Ha| |exact Hl']; done.
  - cbn. eapply (chain_insert (log_attachments d) l l' row); [done|done|done|done|done|..|exact Hl|exact Hins].
    + intros r Hr Ha Hlive. change (la_agent_id row) with (agent_id a) in Ha.
      assert (la_log_path r ≠ path) as Hp.
      { intros Hp. apply (Hno r); [by apply newest_here_live|].
        by eapply status_live. }
      split; [by apply supersede_target_live|done].
    + intros t (H1 & H2 & H3 & _)%supersede_target_Some. done.
Qed.

Lemma detach_chain agent d d' res :
  detaches agent d d' res → tower_wf d → chained (log_attachments d) →
  later (log_attachments d) agent (dr_last_status_at res) → chained (log_attachments d').
Proof.
  intros (e & l & He & Hl & -> & _) Hwf Hc Hlater.
  apply fetch_newest_Some in He as (Hin & Ha & Hst). unfold is_active in Hst. cbn.
  eapply chain_restate; [apply Hwf|exact Hc|exact Hin| |by rewrite Ha| |exact Hl]; [|done].
  unfold live. by rewrite Hst.
Qed.
End Steps.

(** What the log service guarantees, and a small installation on which it runs. *)

Local Open Scope Z_scope.

(** C15: an attach, under any failures of the database, of docker and of the audit file, any
    other writers, and a crash anywhere, either is refused and commits nothing, or makes
    exactly one step on the tables as it found them under the write lock: the agent was
    active, its container and its pane were, the host path was proved visible, no other agent
    wrote to it; the row of that path is confirmed, or brought back from stale or detached
    with its offsets (from the beginning only for a stale row whose file changed), or a new
    row with offsets zero replaces the agent's row at another path.  Every change that is
    committed has its line in the audit file. *)
Theorem attach_is_atomic (R : relation tower_db) `{!PreOrder R} sv home ps source uid s :
  resting R s →
  wp (attach_log sv home ps uid source false) (attach_post R home ps source uid s) s.
Proof. by apply wp_attach_log. Qed.

(** A detach, under the same conditions, is refused and changes nothing, the audit file
    included, or sets the agent's newest active row to detached and nothing else: the answer
    has the offsets of that row, which stay for the next attach, and the line of the change
    is appended when the file takes it. *)
Theorem detach_is_atomic (R : relation tower_db) `{!PreOrder R} sv ps uid s :
  resting R s → wp (detach_log sv ps uid) (detach_post R ps uid s) s.
Proof. by apply wp_detach_log. Qed.


(** ** Histories of requests to both services *)

Inductive desk_request :=
| OfAgents (q : agent_request)
| AttachLog (ps : params) (peer_uid : Z)
| DetachLog (ps : params) (peer_uid : Z).

Definition desk_promotes (q : desk_request) (id : string) : Prop :=
  match q with OfAgents q => promotes q id | _ => False end.

Section Histories.
Context (repr_of : json → string) (sv : Z) (home : string).

Definition serve_desk (q : desk_request) : M desk unit :=
  match q with
  | OfAgents q => serve repr_of sv (Some (log_attacher sv home)) q
  | AttachLog ps uid => _ ← attach_log sv home ps uid "explicit" false; mret tt
  | DetachLog ps uid => _ ← detach_log sv ps uid; mret tt
  end.

(** A relation that every step of the registry and of the attachments respects. *)
Section Steps.
Context (R : relation tower_db) `{!PreOrder R} (Rwf : ∀ d d', R d d' → tower_wf d → tower_wf d').
Context (Hlogs : ∀ d d', only_logs d d' → R d d').

Lemma serve_desk_moves q s :
  (∀ d d', registry_step (desk_promotes q) d d' → R d d') → resting R s → tower_wf (dk_db s) →
  wp (serve_desk q) (λ _ s', resting R s' ∧ R (dk_db s) (dk_db s')) s.
Proof.
  intros Hstep Hs Hwf. destruct q as [q|ps uid|ps uid]; cbn [serve_desk].
  - eapply wp_mono; [|apply (serve_step repr_of sv (Some (log_attacher sv home))
      ltac:(intros ? [= <-]; apply _) R Rwf); [done|done]].
    intros o s' [H1 [?|(d0 & H2 & H3)]]; [done|]. split; [done|]. trans d0; [done|]. by apply Hstep.
  - eapply wp_discard; [|intros s' H; exact H].
    eapply wp_mono; [|by apply (wp_attach_log R sv home ps "explicit" uid)]. intros o s' [H1 H2].
    split; [done|]. destruct H2 as [(_ & H2 & _)|(? & a & ? & proof & res & d0 & d1 & da & H2)]; [done|].
    destruct H2 as (_ & _ & _ & _ & _ & _ & _ & H2 & _ & H3 & H4 & _).
    trans d0; [done|]. trans d1; [|done]. by eapply Hlogs, attaches_logs.
  - eapply wp_discard; [|intros s' H; exact H].
    eapply wp_mono; [|by apply (wp_detach_log R sv ps uid)]. intros o s' [H1 H2].
    split; [done|].
    destruct H2 as [(_ & H2 & _)|(? & _ & [(_ & H2 & _)|(res & d0 & ls & H2 & H3 & _)])]; [done|done|].
    trans d0; [done|]. destruct H3 as (e & l & _ & Hre & -> & _). apply Hlogs.
    constructor; [done..|]. intros. apply wf_set_log_attachments; [done|by eapply restated_ok].
Qed.
End Steps.

Lemma only_logs_lawful P d d' : only_logs d d' → lawful P d d'.
Proof. intros [H1 H2 H3 H4]. split; [done|]. by rewrite H1. Qed.
End Histories.

(** ** A small installation *)

Definition bench_container : ContainerRec :=
  mkContainerRec "c1" "bench" "img" "running" [] [mkMount "/work" "/work" "bind" "rw" true] EmptyString
    (Some "dev"%string) None true "t0" "t0".
Definition bench_agent : AgentRecord :=
  mkAgent "agt_aaaaaaaaaaaa" "c1" "/tmp/tmux" "main" 0 0 "%0" "slave" "claude" EmptyString EmptyString None
    "{}" "t0" "t0" None true.
Definition bench_db : tower_db :=
  mkTowerDb {[ "c1"%string := bench_container ]} [] {[ demo_key := demo_pane demo_key ]} [] [bench_agent] [] ∅ [] 0.
Definition bench_desk (faults : list (option sql_fault)) (clock : string * list string) : desk :=
  mkDesk (mkTower (mkSession bench_db None faults []) ∅ [] [] [] [] true [] (mkSuppression ∅ ∅ ∅ ∅))
    clock ["000000000001"; "000000000002"; "000000000003"; "000000000004"] [] []
    (mkFs (λ p, Ok p) (λ _, true) (λ _, true)) ["1:1"; "1:2"; "1:3"; "1:4"].

Definition attach_params (path : string) : params :=
  [("agent_id", JStr "agt_aaaaaaaaaaaa"); ("log_path", JStr path)]%string.
Definition attach_to (path : string) : M desk unit :=
  _ ← attach_log 1 "/home/me" (attach_params path) 1000 "explicit" false; mret tt.
Definition detach_it : M desk unit :=
  _ ← detach_log 1 [("agent_id", JStr "agt_aaaaaaaaaaaa")]%string 1000; mret tt.

(** Requests in turn: which went through, and what they leave. *)
Definition requests (ms : list (M desk unit)) (s : desk) : list bool * desk :=
  foldl (λ acc (m : M desk unit), let (o, s') := m acc.2 in (acc.1 ++ [is_ok o], s')) ([], s) ms.
Definition rows_of (s : desk) : list (string * string) :=
  (λ r, (la_log_path r, la_status r)) <$> log_attachments (dk_db s).
Definition ticking : string * list string := ("t1", ["t2"; "t3"; "t4"; "t5"; "t6"])%string.

Example attach_detach_run :
  let r := requests [attach_to "/work/A"; detach_it; attach_to "/work/A"; attach_to "/work/B"] (bench_desk [] ticking) in
  r.1 = [true; true; true; true] ∧
  rows_of r.2 = [("/work/A", "superseded"); ("/work/B", "active")]%string ∧ length (dk_lines r.2) = 4%nat.
Proof. vm_compute. done. Qed.

(** Once superseded, a path cannot be attached again: the offsets of the first time are still
    there, so the insertion of new ones fails. *)
Example superseded_path_is_lost :
  let r := requests [attach_to "/work/A"; attach_to "/work/B"; attach_to "/work/A"] (bench_desk [] ticking) in
  r.1 = [true; true; false] ∧ rows_of r.2 = [("/work/A", "superseded"); ("/work/B", "active")]%string ∧
  (attach_log 1 "/home/me" (attach_params "/work/A") 1000 "explicit" false r.2).1 =
    Raise (RegistrationError "internal_error").
Proof. vm_compute. done. Qed.

(** A commit that fails leaves a line in the audit file for a change that never was. *)
Example line_without_row :
  let s := bench_desk (repeat None 14 ++ [Some (F_operational "database is locked")]) ticking in
  let r := requests [attach_to "/work/A"] s in
  r.1 = [false] ∧ rows_of r.2 = [] ∧ length (dk_lines r.2) = 1%nat.
Proof. vm_compute. done. Qed.

(** When the clock steps back, the superseded row is the most recent, and the next attach
    leaves the agent with two active ones. *)
Example two_active_attachments :
  let r := requests [attach_to "/work/A"; attach_to "/work/B"; attach_to "/work/C"]
             (bench_desk [] ("t5", ["t3"; "t4"])%string) in
  r.1 = [true; true; true] ∧
  rows_of r.2 = [("/work/A", "superseded"); ("/work/B", "active"); ("/work/C", "active")]%string.
Proof. vm_compute. done. Qed.

Lemma bench_resting R faults clock : resting R (bench_desk faults clock).
Proof. split; [constructor|done]. Qed.

Lemma bench_wf : tower_wf bench_db.
Proof.
  constructor; try apply map_Forall_empty; try (by repeat constructor); by apply map_Forall_singleton.
Qed.

Lemma attach_is_atomic_witness :
  wp (attach_log 1 "/home/me" (attach_params "/work/A") 1000 "explicit" false)
     (attach_post eq "/home/me" (attach_params "/work/A") "explicit" 1000 (bench_desk [] ticking))
     (bench_desk [] ticking) ∧
  is_ok (attach_log 1 "/home/me" (attach_params "/work/A") 1000 "explicit" false (bench_desk [] ticking)).1 = true.
Proof. split; [|vm_compute; reflexivity]. apply attach_is_atomic; [apply _|apply bench_resting]. Defined.

Lemma detach_is_atomic_witness :
  let s := (requests [attach_to "/work/A"] (bench_desk [] ticking)).2 in
  let ps := [("agent_id", JStr "agt_aaaaaaaaaaaa")]%string in
  wp (detach_log 1 ps 1000) (detach_post eq ps 1000 s) s ∧ is_ok (detach_log 1 ps 1000 s).1 = true.
Proof.
  intros s ps. split; [|vm_compute; reflexivity]. apply detach_is_atomic; [apply _|].
  split; [vm_compute; constructor|vm_compute; reflexivity].
Defined.


(** Reading the end of a log backwards in blocks gives the last lines of the file. *)

(** The lines of a file, and the last [n] of a list. *)
Definition file_lines (bytes : string) : list string := drop_last_empty (Text.split newline bytes).
Definition last_n {A} (n : nat) (l : list A) : list A := drop (length l - n) l.

Abbreviation len s := (Z.of_nat (String.length s)).

(** ** Strings and their suffixes *)

Lemma drop_split k s : ∃ pre, s = pre +:+ Text.drop k s ∧ String.length pre = (k `min` String.length s)%nat.
Proof.
  revert s. induction k as [|k IH]; intros s; [by exists EmptyString|].
  destruct s as [|c s]; [by exists EmptyString|]. destruct (IH s) as (pre & E & L).
  exists (String c pre). split; [change (String c s = String c (pre +:+ Text.drop k s)); by rewrite <- E|].
  change (S (String.length pre) = S (k `min` String.length s)). by rewrite L.
Qed.

Lemma text_length_drop k s : String.length (Text.drop k s) = (String.length s - k)%nat.
Proof.
  revert s. induction k as [|k IH]; intros s; [cbn; lia|]. destruct s as [|c s]; [done|]. cbn. apply IH.
Qed.

Lemma text_drop_drop j k s : Text.drop j (Text.drop k s) = Text.drop (k + j) s.
Proof.
  revert s. induction k as [|k IH]; intros s; [done|]. destruct s as [|c s]; cbn; [by destruct j|]. apply IH.
Qed.

Lemma substring_rest k n s : String.substring k n s +:+ Text.drop (k + n) s = Text.drop k s.
Proof.
  revert s. induction k as [|k IH]; intros s.
  - cbn. revert s. induction n as [|n IHn]; intros s; [by destruct s|]. destruct s as [|c s]; [done|].
    change (String c (String.substring 0 n s +:+ Text.drop n s) = String c s). by rewrite IHn.
  - destruct s as [|c s]; cbn; [by destruct n|]. apply IH.
Qed.

Lemma count_app a b : count_newlines (a +:+ b) = count_newlines a + count_newlines b.
Proof.
  induction a as [|c a IH]; [done|].
  change (count_newlines (String c (a +:+ b)) = count_newlines (String c a) + count_newlines b).
  cbn. rewrite IH. lia.
Qed.

Lemma split_length s : Z.of_nat (length (Text.split newline s)) = 1 + count_newlines s.
Proof.
  induction s as [|c s IH]; [done|]. cbn [Text.split count_newlines]. case_bool_decide; cbn; [lia|].
  pose proof (Text.split_nonempty newline s). destruct (Text.split newline s) as [|p ps]; [done|]. cbn in *. lia.
Qed.

(** Splitting a suffix gives the same lines but the first. *)
Lemma split_suffix pre s hd tl :
  Text.split newline s = hd :: tl →
  ∃ init p0, Text.split newline (pre +:+ s) = init ++ (p0 +:+ hd) :: tl.
Proof.
  intros E. induction pre as [|c pre IH]; [by exists [], EmptyString|].
  destruct IH as (init & p0 & IH).
  change (String c pre +:+ s) with (String c (pre +:+ s)). cbn [Text.split]. rewrite IH.
  case_bool_decide; [by exists (EmptyString :: init), p0|].
  destruct init as [|i init]; cbn; [by exists [], (String c p0)|by exists (String c i :: init), p0].
Qed.

(** ** Enough of the file *)

Lemma drop_last_empty_app {l1 l2 : list string} :
  l2 ≠ [] → drop_last_empty (l1 ++ l2) = l1 ++ drop_last_empty l2.
Proof.
  intros Hne. unfold drop_last_empty. rewrite last_app. destruct (last l2) as [x|] eqn:E.
  - destruct x; [|done]. rewrite length_app, take_app. f_equal; [rewrite take_ge; [done|]|f_equal];
      destruct l2; cbn; try done; lia.
  - by apply last_None in E.
Qed.

Lemma drop_last_empty_length (l : list string) : (length l - 1 ≤ length (drop_last_empty l))%nat.
Proof. unfold drop_last_empty. destruct (last l) as [[]|]; [rewrite length_take|..]; lia. Qed.

Lemma last_n_app {A} n (l1 l2 : list A) : (n ≤ length l2)%nat → last_n n (l1 ++ l2) = last_n n l2.
Proof.
  intros H. unfold last_n. rewrite length_app, drop_app_ge by lia. f_equal. lia.
Qed.

Lemma enough_newlines pre data n :
  Z.of_nat n < count_newlines data →
  last_n n (file_lines (pre +:+ data)) = last_n n (file_lines data).
Proof.
  intros H. pose proof (split_length data) as Hlen. unfold file_lines.
  destruct (Text.split newline data) as [|hd tl] eqn:E; [by apply Text.split_nonempty in E|]. cbn in Hlen.
  destruct (split_suffix pre data hd tl E) as (init & p0 & ->).
  assert (tl ≠ []) as Hne by (destruct tl; cbn in *; [lia|done]).
  pose proof (drop_last_empty_length tl).
  change (init ++ (p0 +:+ hd) :: tl) with (init ++ [p0 +:+ hd] ++ tl). rewrite (app_assoc init).
  change (hd :: tl) with ([hd] ++ tl). rewrite !drop_last_empty_app, !last_n_app by (done || lia). done.
Qed.

Lemma split_total s p ps :
  Text.split newline s = p :: ps → len s = len p + foldr (λ l acc, 1 + len l + acc) 0 ps.
Proof.
  revert p ps. induction s as [|d s IH]; intros p ps; cbn [Text.split]; [by intros [= <- <-]|].
  destruct (Text.split newline s) as [|q qs] eqn:E; [by apply Text.split_nonempty in E|].
  specialize (IH _ _ eq_refl).
  case_bool_decide; intros [= <- <-]; cbn [String.length foldr] in *; lia.
Qed.

Lemma split_bound s m :
  Forall (λ l, len l < m) (Text.split newline s) → len s < (1 + count_newlines s) * m.
Proof.
  rewrite <- split_length.
  destruct (Text.split newline s) as [|p ps] eqn:E; [by apply Text.split_nonempty in E|].
  rewrite (split_total _ _ _ E). intros [Hp Hps]%Forall_cons.
  assert (foldr (λ l acc, 1 + len l + acc) 0 ps ≤ Z.of_nat (length ps) * m) as Hsum.
  { clear -Hps. induction Hps as [|x l Hx Hl IH]; cbn [foldr length] in *; lia. }
  cbn [length]. lia.
Qed.

Lemma short_suffix pre data m :
  Forall (λ l, len l < m) (Text.split newline (pre +:+ data)) →
  Forall (λ l, len l < m) (Text.split newline data).
Proof.
  intros H. destruct (Text.split newline data) as [|hd tl] eqn:E; [constructor|].
  destruct (split_suffix pre data hd tl E) as (init & p0 & Es). rewrite Es in H.
  apply Forall_app in H as [_ [Hhd Htl]%Forall_cons]. constructor; [|done].
  rewrite string_length_app in Hhd. lia.
Qed.

(** As much as the buffer holds always has enough lines. *)
Lemma enough_bytes pre data n m :
  Forall (λ l, len l < m) (Text.split newline (pre +:+ data)) → 0 < m →
  (Z.of_nat n + 1) * m ≤ len data → Z.of_nat n < count_newlines data.
Proof. intros H%short_suffix%split_bound Hm Hlen. nia. Qed.

(** ** The backwards loop *)

Lemma tail_offset_spec fuel bytes n max_buffer offset :
  0 ≤ offset ≤ len bytes → offset ≤ Z.of_nat fuel →
  let start := tail_offset fuel bytes n max_buffer offset (len bytes - offset)
                 (count_newlines (Text.drop (Z.to_nat offset) bytes)) in
  0 ≤ start ≤ len bytes ∧
  (start = 0 ∨ n < count_newlines (Text.drop (Z.to_nat start) bytes) ∨ max_buffer ≤ len bytes - start).
Proof.
  revert offset. induction fuel as [|f IH]; intros offset Ho Hf; cbn [tail_offset].
  { split; [done|]. left. lia. }
  destruct (_ && _) eqn:Ec.
  - apply andb_true_iff in Ec as [[Hpos _]%andb_true_iff _]. apply Z.ltb_lt in Hpos. cbv zeta.
    set (rd := Z.min BLOCK_SIZE offset). assert (0 < rd ≤ offset) as Hrd by (unfold rd, BLOCK_SIZE; lia).
    replace (len bytes - offset + rd) with (len bytes - (offset - rd)) by lia.
    replace (count_newlines (Text.drop (Z.to_nat offset) bytes) + _)
      with (count_newlines (Text.drop (Z.to_nat (offset - rd)) bytes)); [apply IH; lia|].
    rewrite <- (substring_rest (Z.to_nat (offset - rd)) (Z.to_nat rd)), count_app.
    replace (Z.to_nat (offset - rd) + Z.to_nat rd)%nat with (Z.to_nat offset) by lia. lia.
  - split; [done|]. apply andb_false_iff in Ec as [[Hc|Hc]%andb_false_iff|Hc].
    + left. apply Z.ltb_ge in Hc. lia.
    + right. left. apply Z.leb_gt in Hc. lia.
    + right. right. apply Z.ltb_ge in Hc. lia.
Qed.

Lemma drop_last_n {A} n (l : list A) : drop (length l - n) l = last_n n l.
Proof. done. Qed.

Lemma tail_lines_data bytes n m :
  0 < m → Forall (λ l, len l < m) (Text.split newline bytes) → (0 < n)%nat →
  let max_buffer := (Z.of_nat n + 1) * m in
  let start := tail_offset (String.length bytes) bytes (Z.of_nat n) max_buffer (len bytes) 0 0 in
  let data := Text.drop (Z.to_nat start) bytes in
  last_n n (file_lines (if max_buffer <? len data then Text.drop (Z.to_nat (len data - max_buffer)) data else data)) =
  last_n n (file_lines bytes).
Proof.
  intros Hm Hshort Hn max_buffer start data.
  pose proof (tail_offset_spec (String.length bytes) bytes (Z.of_nat n) max_buffer (len bytes)) as Hspec.
  replace (len bytes - len bytes) with 0 in Hspec by lia.
  pose proof (Text.drop_app bytes EmptyString) as Hend. rewrite Text.app_empty_r in Hend.
  rewrite Nat2Z.id, Hend in Hspec. cbn [count_newlines] in Hspec.
  destruct Hspec as [Hs Hor]; [lia|lia|]. fold start in Hs, Hor. fold data in Hor.
  assert (len data = len bytes - start) as Hlen by (unfold data; rewrite text_length_drop; lia).
  destruct (drop_split (Z.to_nat start) bytes) as (pre & Hpre & _). fold data in Hpre.
  destruct (max_buffer <? len data) eqn:Eb.
  - apply Z.ltb_lt in Eb. destruct (drop_split (Z.to_nat (len data - max_buffer)) data) as (pre2 & Hpre2 & _).
    set (cut := Text.drop _ data) in *.
    assert (len cut = max_buffer) as Hcut by (unfold cut; rewrite text_length_drop; lia).
    assert (bytes = (pre +:+ pre2) +:+ cut) as Hb
      by (rewrite str_app_assoc, <- Hpre2; exact Hpre).
    rewrite Hb. symmetry. apply enough_newlines, (enough_bytes (pre +:+ pre2) cut n m); [by rewrite <- Hb|done|lia].
  - apply Z.ltb_ge in Eb. destruct Hor as [H0|[Hnl|Hfull]].
    + unfold data. by rewrite H0.
    + rewrite Hpre at 1. symmetry. by apply enough_newlines.
    + rewrite Hpre at 1. symmetry. apply enough_newlines, (enough_bytes pre data n m); [by rewrite <- Hpre|done|lia].
Qed.

(** The preview reads a log backwards in blocks and stops early, and still gives exactly
    the last [n] lines of the file, decoded, whatever its length, when the lines are shorter
    than the limit beyond which a line is cut. *)
Theorem tail_lines_are_the_last bytes n m :
  0 < m → Forall (λ l, len l < m) (Text.split newline bytes) →
  tail_lines bytes n m = decode_surrogateescape <$> last_n (Z.to_nat n) (file_lines bytes).
Proof.
  intros Hm Hshort. unfold tail_lines. destruct (n <=? 0) eqn:En.
  { apply Z.leb_le in En. replace (Z.to_nat n) with 0%nat by lia. unfold last_n.
    by rewrite Nat.sub_0_r, drop_all. }
  apply Z.leb_gt in En. pose proof (tail_lines_data bytes (Z.to_nat n) m Hm Hshort ltac:(lia)) as H.
  rewrite Z2Nat.id in H by lia. cbv zeta in *.
  destruct (len bytes =? 0) eqn:Ez.
  { apply Z.eqb_eq in Ez. destruct bytes; [|done]. unfold last_n, file_lines. cbn. by rewrite drop_nil. }
  unfold file_lines in H at 1. rewrite drop_last_n, H.
  apply list_fmap_ext. intros i l Hl. unfold truncate_line.
  assert (l ∈ Text.split newline bytes) as Hin.
  { apply list_elem_of_lookup_2 in Hl. unfold last_n, file_lines, drop_last_empty in Hl.
    apply subseteq_drop in Hl. repeat case_match; try done; by apply subseteq_take in Hl. }
  apply (proj1 (Forall_forall _ _) Hshort) in Hin. by rewrite (proj2 (Z.leb_le _ _)) by lia.
Qed.

Definition three_lines : string := "one" +:+ String newline ("two" +:+ String newline ("three" +:+ String newline EmptyString)).

Lemma tail_lines_are_the_last_witness :
  tail_lines three_lines 2 65536 = decode_surrogateescape <$> ["two"; "three"]%string.
Proof.
  rewrite (tail_lines_are_the_last three_lines 2 65536); [vm_compute; reflexivity|lia|].
  repeat (constructor; [vm_compute; reflexivity|]). constructor.
Defined.
