(* ===== verification/TmuxAdapter.v ===== *)
(** What the daemon asks of tmux in a container: the parsers of what the commands print
    (src/src/agenttower/tmux/parsers.py) and the adapter that runs them through docker
    (tmux/adapter.py, tmux/subprocess_adapter.py).

    Output is UTF-8 text.  [shutil.which] is a parameter: the docker binary, if there is
    one.  An adapter answers with a value or a failure; [subprocess.run] is [docker_run] of
    the desk, whose [failure_kind] says that the process timed out or could not start. *)

From S2P Require Import Prelude Errors Agents Store Json Session Tables LogDao Tower RegistryDao Validation Desk PipePane.
From Stdlib Require Import Ascii.

Local Open Scope Z_scope.

(** ** Lines *)

Definition is_code (n : nat) (c : ascii) : bool := Nat.eqb (nat_of_ascii c) n.

(** A line boundary of one byte: LF, VT, FF, CR, FS, GS, RS. *)
Definition simple_break (c : ascii) : bool :=
  let n := nat_of_ascii c in ((10 <=? n) && (n <=? 13) || (28 <=? n) && (n <=? 30))%nat.

Definition cons_line (c : ascii) (lines : list string) : list string :=
  match lines with
  | [] => [String c EmptyString]
  | l :: rest => String c l :: rest
  end.

(** [s.splitlines()], with U+0085, U+2028 and U+2029 in their UTF-8 form. *)
Fixpoint splitlines (s : string) : list string :=
  match s with
  | EmptyString => []
  | String c s1 =>
      if is_code 13 c then
        match s1 with
        | String c2 s2 => if is_code 10 c2 then EmptyString :: splitlines s2 else EmptyString :: splitlines s1
        | EmptyString => [EmptyString]
        end
      else if simple_break c then EmptyString :: splitlines s1
      else
        match s1 with
        | String c2 s2 =>
            if is_code 194 c && is_code 133 c2 then EmptyString :: splitlines s2
            else
              match s2 with
              | String c3 s3 =>
                  if is_code 226 c && is_code 128 c2 && (is_code 168 c3 || is_code 169 c3)
                  then EmptyString :: splitlines s3
                  else cons_line c (splitlines s1)
              | EmptyString => cons_line c (splitlines s1)
              end
        | EmptyString => [String c EmptyString]
        end
  end.

Definition carriage_return : ascii := "013"%char.
Definition tab : ascii := "009"%char.

(** ** Parsers *)

Definition MAX_TITLE : nat := Z.to_nat 2048.
Definition MAX_COMMAND : nat := Z.to_nat 2048.
Definition MAX_PATH : nat := Z.to_nat 4096.
Definition MAX_DEFAULT : nat := Z.to_nat 2048.

Record ParsedPane := mkParsed {
  pn_session_name : string; pn_window_index : Z; pn_pane_index : Z; pn_pane_id : string;
  pn_pane_pid : Z; pn_pane_tty : string; pn_current_command : string; pn_current_path : string;
  pn_title : string; pn_active : bool
}.

Record MalformedRow := mkMalformed { mr_raw_line : string; mr_expected : nat; mr_actual : nat }.

(** [str.isdigit] on ASCII. *)
Definition all_digits (s : string) : bool :=
  negb (bool_decide (s = EmptyString)) && Text.all (λ c, bool_decide (is_Some (digit_of c))) s.

(** [parse_id_u]: the first line that is not blank, or the message of the [ValueError];
    [repr] is Python's. *)
Fixpoint first_uid (repr : string → string) (lines : list string) : string + string :=
  match lines with
  | [] => inr "id -u stdout is empty"%string
  | l :: rest =>
      let l := strip l in
      if bool_decide (l = EmptyString) then first_uid repr rest
      else if all_digits l then inl l
      else inr ("id -u stdout is not a positive integer: " +:+ repr l)
  end.
Definition parse_id_u (repr : string → string) (stdout : string) : string + string :=
  first_uid repr (splitlines stdout).

Definition socket_name_ok (name : string) : bool :=
  negb (bool_decide (name = EmptyString)) && negb (Text.contains "/" name) &&
  negb (bool_decide (name ∈ ["."; ".."]%string)).

Definition parse_socket_listing (stdout : string) : list string :=
  filter (λ n, socket_name_ok n = true) (rstrip_char carriage_return <$> splitlines stdout).

(** [_parse_bool] *)
Definition parse_bool (value : string) : option bool :=
  let v := strip value in
  if bool_decide (v = "1"%string) then Some true
  else if bool_decide (v = "0"%string) then Some false else None.

Definition parse_pane_row (line : string) : ParsedPane + MalformedRow :=
  let fields := Text.split tab line in
  let bad := inr (mkMalformed (take_chars 256 line) 10 (length fields)) in
  match fields with
  | [session; window; pane; id; pid; tty; command; path; title; act] =>
      match int_of_text window, int_of_text pane, int_of_text pid, parse_bool act with
      | Some w, Some p, Some q, Some b => inl (mkParsed session w p id q tty command path title b)
      | _, _, _, _ => bad
      end
  | _ => bad
  end.

Definition pane_rows (stdout : string) : list string :=
  filter (λ l, l ≠ EmptyString) (rstrip_char carriage_return <$> splitlines stdout).

Definition parse_list_panes (stdout : string) : list ParsedPane * list MalformedRow :=
  let rows := parse_pane_row <$> pane_rows stdout in
  (omap (λ r, match r with inl p => Some p | inr _ => None end) rows,
   omap (λ r, match r with inr m => Some m | inl _ => None end) rows).

(** ** Failures *)

Record TmuxFailure := mkTmuxFailure {
  te_code : string; te_message : string; te_container_id : option string;
  te_tmux_socket_path : option string; te_partial_panes : list ParsedPane;
  te_malformed_rows : list MalformedRow; te_failure_reason : option string
}.

Definition tmux (A : Type) : Type := A + TmuxFailure.

(** [_bound] *)
Definition bound_message (t : string) : string := (sanitize_text t (Z.to_nat 2048)).1.

Definition lower_contains (patterns : list string) (stderr : string) : bool :=
  existsb (λ p, Text.contains p (Text.lower stderr)) patterns.

Definition NO_SERVER_PATTERNS : list string := ["no server running"; "error connecting to"; "no current server"].
Definition TMUX_NOT_FOUND_PATTERNS : list string :=
  ["tmux: not found"; "tmux: command not found"; "executable file not found";
   "exec: " +:+ String quote_mark ("tmux" +:+ String quote_mark EmptyString)].
Definition PERMISSION_DENIED_PATTERNS : list string := ["permission denied"; "operation not permitted"].
Definition DIR_MISSING_PATTERNS : list string := ["no such file or directory"; "cannot access"].

Definition classify_tmux_failure (stderr : string) : string :=
  if lower_contains TMUX_NOT_FOUND_PATTERNS stderr then "tmux_unavailable"
  else if lower_contains NO_SERVER_PATTERNS stderr then "tmux_no_server"
  else "docker_exec_failed".

Definition classify_socket_listing_failure (stderr : string) : string :=
  if lower_contains PERMISSION_DENIED_PATTERNS stderr then "socket_unreadable"
  else if lower_contains DIR_MISSING_PATTERNS stderr then "socket_dir_missing"
  else "docker_exec_failed".

(** Both branches of [_classify_id_u_failure] give the same code. *)
Definition classify_id_u_failure (stderr : string) : string := "docker_exec_failed".

Definition PANE_DISAPPEARED_PATTERNS : list string := ["can't find pane"; "no such pane"].
Definition DOCKER_EXEC_FAILURE_PATTERNS : list string :=
  ["no such container"; "container not running"; "is not running"; "docker daemon socket";
   "oci runtime exec failed"; "error response from daemon"; "container is paused"].

Definition classify_delivery_stderr (stderr default_failure_reason : string) : string :=
  if lower_contains PANE_DISAPPEARED_PATTERNS stderr then "pane_disappeared_mid_attempt"
  else if lower_contains DOCKER_EXEC_FAILURE_PATTERNS stderr then "docker_exec_failed"
  else default_failure_reason.

(** ** The adapter *)

(** The part of the protocol that discovery uses. *)
Record TmuxAdapter := mkTmuxAdapter {
  resolve_uid : string → string → M desk (tmux string);
  list_socket_dir : string → string → string → M desk (tmux (list string));
  list_panes : string → string → string → M desk (tmux (list ParsedPane))
}.

Section Subprocess.
Variable docker_binary : option string.
Variable repr : string → string.

Definition exec_env : list string := ["-e"; "LANG=C.UTF-8"; "-e"; "LC_ALL=C.UTF-8"].

Definition fail {A} (code message : string) (container socket reason : option string) : tmux A :=
  inr (mkTmuxFailure code (bound_message message) container socket [] [] reason).

(** [_run] and [_run_bytes]: the exit of the process, or a failure to get one. *)
Definition run_cli (args : list string) (container socket reason : option string)
  : M desk (tmux DockerExecResult) :=
  match docker_binary with
  | None => mret (inr (mkTmuxFailure "docker_unavailable" "docker binary not found on PATH" None None [] [] None))
  | Some bin =>
      r ← docker_run (bin :: args);
      mret (match failure_kind r with
            | None => inl r
            | Some k =>
                if bool_decide (k = "docker_exec_timeout"%string)
                then fail "docker_exec_timeout" "docker exec exceeded 5.0s budget" container socket reason
                else fail "docker_unavailable" ("docker binary not found or not executable: " +:+ stderr r)
                       container socket (Some "docker_exec_failed"%string)
            end)
  end.

(** A finished process is an answer or, by its exit code, a failure. *)
Definition after_run {A} (r : tmux DockerExecResult) (code : string → string) (what : string)
    (container socket : option string) (reason : string → option string)
    (k : DockerExecResult → tmux A) : tmux A :=
  match r with
  | inr e => inr e
  | inl r =>
      if returncode r =? 0 then k r
      else fail (code (stderr r))
             (what +:+ " exited " +:+ print_int (returncode r) +:+ ": " +:+ strip (stderr r))
             container socket (reason (stderr r))
  end.

Definition sub_resolve_uid (container user : string) : M desk (tmux string) :=
  r ← run_cli (["exec"] ++ exec_env ++ ["-u"; user; container; "id"; "-u"]) (Some container) None None;
  mret (after_run r classify_id_u_failure "id -u" (Some container) None (λ _, None)
    (λ r, match parse_id_u repr (stdout r) with
          | inl uid => inl uid
          | inr message => fail "output_malformed" message (Some container) None None
          end)).

Definition sub_list_socket_dir (container user uid : string) : M desk (tmux (list string)) :=
  let dir := "/tmp/tmux-" +:+ uid in
  r ← run_cli (["exec"] ++ exec_env ++ ["-u"; user; container; "ls"; "-1"; "--"; dir]) (Some container) None None;
  mret (after_run r classify_socket_listing_failure ("ls " +:+ dir) (Some container) None (λ _, None)
    (λ r, inl (parse_socket_listing (stdout r)))).

Definition LIST_PANES_FORMAT : string :=
  join_with (String tab EmptyString)
    ["#{session_name}"; "#{window_index}"; "#{pane_index}"; "#{pane_id}"; "#{pane_pid}"; "#{pane_tty}";
     "#{pane_current_command}"; "#{pane_current_path}"; "#{pane_title}"; "#{pane_active}"].

Definition count_text (n : nat) : string := print_int (Z.of_nat n).

(** Rows that cannot be read make the answer a failure; the others are in it. *)
Definition panes_or_malformed (container socket : string) (out : string) : tmux (list ParsedPane) :=
  let (parsed, malformed) := parse_list_panes out in
  match malformed, parsed with
  | [], _ => inl parsed
  | _ :: _, [] =>
      inr (mkTmuxFailure "output_malformed"
             (bound_message (count_text (length malformed) +:+ " tmux list-panes rows malformed or unparseable"))
             (Some container) (Some socket) [] malformed None)
  | _ :: _, _ :: _ =>
      inr (mkTmuxFailure "output_malformed"
             (bound_message (count_text (length malformed) +:+ " of " +:+
                count_text (length parsed + length malformed) +:+ " tmux list-panes rows malformed"))
             (Some container) (Some socket) parsed malformed None)
  end.

Definition sub_list_panes (container user socket : string) : M desk (tmux (list ParsedPane)) :=
  r ← run_cli (["exec"] ++ exec_env ++ ["-u"; user; container; "tmux"; "-S"; socket; "list-panes"; "-a"; "-F";
                LIST_PANES_FORMAT]) (Some container) (Some socket) None;
  mret (after_run r classify_tmux_failure "tmux list-panes" (Some container) (Some socket) (λ _, None)
    (λ r, panes_or_malformed container socket (stdout r))).

Definition subprocess_tmux : TmuxAdapter := mkTmuxAdapter sub_resolve_uid sub_list_socket_dir sub_list_panes.

(** ** Delivery *)

Definition delivery_step (what container socket reason : string) (args : list string) : M desk (tmux unit) :=
  r ← run_cli args (Some container) (Some socket) (Some reason);
  mret (after_run r (λ _, "docker_exec_failed"%string) what (Some container) (Some socket)
    (λ err, Some (classify_delivery_stderr err reason)) (λ _, inl tt)).

Definition in_tmux (flags : list string) (user container socket : string) (args : list string) : list string :=
  ["exec"] ++ exec_env ++ flags ++ ["-u"; user; container; "tmux"; "-S"; socket] ++ args.

(** The body goes to the standard input, which no argument shows. *)
Definition load_buffer (container user socket buffer : string) (body : string) : M desk (tmux unit) :=
  delivery_step "tmux load-buffer" container socket "tmux_paste_failed"
    (in_tmux ["-i"] user container socket ["load-buffer"; "-b"; buffer; "-"]).

Definition paste_buffer (container user socket pane buffer : string) : M desk (tmux unit) :=
  delivery_step "tmux paste-buffer" container socket "tmux_paste_failed"
    (in_tmux [] user container socket ["paste-buffer"; "-t"; pane; "-b"; buffer]).

Definition ALLOWED_SUBMIT_KEYS : list string := ["Enter"].

Definition send_keys (container user socket pane key : string) : M desk (tmux unit) :=
  if bool_decide (key ∉ ALLOWED_SUBMIT_KEYS) then
    mret (fail "docker_exec_failed"
            ("send_keys key " +:+ repr key +:+ " is not in the MVP allowed set ['Enter']")
            (Some container) (Some socket) (Some "tmux_send_keys_failed"%string))
  else
    delivery_step "tmux send-keys" container socket "tmux_send_keys_failed"
      (in_tmux [] user container socket ["send-keys"; "-t"; pane; key]).

(** A failure of [delete_buffer] is not classified. *)
Definition delete_buffer (container user socket buffer : string) : M desk (tmux unit) :=
  r ← run_cli (in_tmux [] user container socket ["delete-buffer"; "-b"; buffer]) (Some container) (Some socket)
        (Some "tmux_paste_failed"%string);
  mret (after_run r (λ _, "docker_exec_failed"%string) "tmux delete-buffer" (Some container) (Some socket)
    (λ _, Some "tmux_paste_failed"%string) (λ _, inl tt)).
End Subprocess.
