(* ===== verification/Orphans.v ===== *)
(** The pass at start-up that looks for log pipes nobody recorded
    (src/src/agenttower/logs/orphan_recovery.py): a daemon that died between [tmux pipe-pane] and
    its commit leaves a running pipe without a row.  The pass lists the panes of every active
    container and reports such pipes; it never attaches one.

    A query without [ORDER BY] gives its rows in the fixed order of the map. *)

From S2P Require Import Prelude Errors Agents Permissions Store Utf8 AuditWriter Session Tables LogDao Json Tower EventsReader TowerInvariant RegistryDao Validation Desk AgentsClaims PipePane LogPaths LogService TmuxAdapter.
From Stdlib Require Import Ascii.

(** ** Text *)

(** The text after the first occurrence of a word: [line[line.find(w) + len(w):]]. *)
Fixpoint after_word (w s : string) : option string :=
  if Text.startswith w s then Some (Text.drop (String.length w) s)
  else match s with EmptyString => None | String _ s' => after_word w s' end.
(** [s.split(w, 1)[0]] *)
Fixpoint before_word (w s : string) : string :=
  if Text.startswith w s then EmptyString
  else match s with EmptyString => EmptyString | String c s' => String c (before_word w s') end.

(** ** The registry *)

Definition bench_containers : dao (list (string * string)) :=
  Sql.read (λ d, (λ c, (cr_container_id c, normalize_bench_user_for_exec (cr_config_user c))) <$>
    filter (λ c, cr_active c = true) (container_rows d)).

Definition attachment_exists_for (container_id agent_id : string) : dao bool :=
  Sql.read (λ d, existsb (λ a, bool_decide (la_container_id a = container_id ∧ la_agent_id a = agent_id ∧
                                             la_status a = "active"%string)) (log_attachments d)).

(** The pane scanned last among the active ones at a place. *)
Definition at_place (container_id session_name : string) (window_index pane_index : Z) (p : PaneRec) : bool :=
  bool_decide (pr_container_id p = container_id ∧ pr_tmux_session_name p = session_name ∧
               pr_tmux_window_index p = window_index ∧ pr_tmux_pane_index p = pane_index ∧ pr_active p = true).
Fixpoint scanned_last (l : list PaneRec) : option PaneRec :=
  match l with
  | [] => None
  | p :: rest =>
      match scanned_last rest with
      | Some q => if bool_decide (String.le (pr_last_scanned_at q) (pr_last_scanned_at p)) then Some p else Some q
      | None => Some p
      end
  end.
Definition lookup_pane_composite_key (container_id pane_short : string) : dao pane_key :=
  let invalid : dao pane_key := throw (PyError "ValueError") in
  match split_once ":"%char pane_short with
  | (session_name, Some rest) =>
      match split_once "."%char rest with
      | (w, Some p) =>
          match int_of_text w, int_of_text p with
          | Some window_index, Some pane_index =>
              row ← Sql.read (λ d, scanned_last (filter (λ p, at_place container_id session_name window_index pane_index p = true)
                                                  (map_to_list (panes d)).*2));
              mret (container_id, from_option pr_tmux_socket_path EmptyString row, session_name, window_index, pane_index,
                    from_option pr_tmux_pane_id EmptyString row)
          | _, _ => invalid
          end
      | _ => invalid
      end
  | _ => invalid
  end.

(** ** Pipes *)

Definition ALL_PANES_FORMAT : string :=
  "#{session_name}:#{window_index}.#{pane_index} #{pane_id} #{pane_pipe} #{pane_pipe_command}".
Definition build_list_panes_all_argv (container_user container_id : string) : list string :=
  docker_exec_argv container_user container_id ("tmux list-panes -a -F " +:+ quote ALL_PANES_FORMAT).

Definition extract_agent_id_from_pipe_command (pipe_cmd canonical_root : string) : option string :=
  match after_word (rstrip_char "/" canonical_root +:+ "/") pipe_cmd with
  | None => None
  | Some tail =>
      let id := rstrip_char quote_mark (rstrip_char "'" (strip (before_word ".log" tail))) in
      if (char_count id =? 16)%nat && Text.startswith "agt_" id then Some id else None
  end.

(** A line of the listing: the place of the pane, whether it is piped, and the command. *)
Definition parse_pane_line (line : string) : option (string * string * string) :=
  let stripped := strip line in
  if bool_decide (stripped = EmptyString) then None
  else match split_once " "%char stripped with
       | (pane_short, Some rest) =>
           match split_once " "%char rest with
           | (_, Some rest') => let (flag, cmd) := split_once " "%char rest' in Some (pane_short, flag, default EmptyString cmd)
           | _ => None
           end
       | _ => None
       end.

(** The agent whose log a pipe writes to, if it is one of the canonical logs of the container. *)
Definition piped_agent (home container_user container_id pipe_cmd : string) : option string :=
  let container_root := path_join (container_canonical_log_root_for container_user) container_id in
  let host_root := path_join (host_canonical_log_root_for home) container_id in
  let matched :=
    if Text.contains (container_root +:+ "/") pipe_cmd then Some container_root
    else if Text.contains (host_root +:+ "/") pipe_cmd then Some host_root else None in
  match matched with
  | None => None
  | Some root =>
      match extract_agent_id_from_pipe_command pipe_cmd root with
      | None => None
      | Some agent_id =>
          if is_canonical (classify_pipe_target pipe_cmd (container_canonical_log_path_for container_user container_id agent_id)) ||
             is_canonical (classify_pipe_target pipe_cmd (host_canonical_log_path_for home container_id agent_id))
          then Some agent_id else None
      end
  end.

(** One line; the count of events that were emitted. *)
Definition report_line (home container_id container_user line : string) : M desk nat :=
  match parse_pane_line line with
  | None => mret 0
  | Some (pane_short, flag, pipe_cmd) =>
      if bool_decide (flag ≠ "1"%string ∨ pipe_cmd = EmptyString) then mret 0
      else
        match piped_agent home container_user container_id pipe_cmd with
        | None => mret 0
        | Some agent_id =>
            known ← at_sql (attachment_exists_for container_id agent_id);
            if (known : bool) then mret 0
            else
              key ← at_sql (lookup_pane_composite_key container_id pane_short);
              _ ← at_tower (emit_log_attachment_orphan_detected container_id key (sanitize_prior_pipe_target pipe_cmd));
              mret 1
        end
  end.
Definition scan_container (home : string) (c : string * string) : M desk nat :=
  result ← docker_run (build_list_panes_all_argv c.2 c.1);
  if bool_decide (returncode result ≠ 0%Z) then mret 0
  else ns ← mapM (report_line home c.1 c.2) (splitlines (stdout result)); mret (sum_list ns).
Definition detect_orphans (home : string) : M desk nat :=
  with_conn (cs ← at_sql bench_containers; ns ← mapM (scan_container home) cs; mret (sum_list ns)).

(** ** What the pass does *)

(** What may be reported: a pipe into a canonical log. *)
Definition orphan_event (e : lifecycle_event) : Prop := match e with LC_orphan _ _ _ => True | _ => False end.
Definition listing (argv : list string) : Prop := ∃ user id, argv = build_list_panes_all_argv user id.

Section Pass.
Context (I : tower_db → Prop) (s0 : desk).

Record only_reports (s : desk) : Prop := mkOnly {
  or_db : throughout I (sess (dk_tower s));
  or_files : files (dk_tower s) = files (dk_tower s0);
  or_jsonl : events_jsonl (dk_tower s) = events_jsonl (dk_tower s0);
  or_argv : ∃ cmds, dk_argv s = dk_argv s0 ++ cmds ∧ Forall listing cmds;
  or_log : ∃ evs, lifecycle_log (dk_tower s) = lifecycle_log (dk_tower s0) ++ evs ∧ Forall orphan_event evs
}.

Lemma only_sql {A} (m : dao A) : preserves (throughout I) m → preserves only_reports (at_sql m).
Proof.
  intros Hm s [H1 H2 H3 H4 H5]. specialize (Hm _ H1). unfold at_sql, at_tower, on_sql, zoom.
  destruct (m (sess (dk_tower s))) as [o c]. by constructor.
Qed.
Lemma only_docker user id : preserves only_reports (docker_run (build_list_panes_all_argv user id)).
Proof.
  intros s [H1 H2 H3 (cmds & E & Hc) H5].
  assert (Hn : ∃ cmds', dk_argv s ++ [build_list_panes_all_argv user id] = dk_argv s0 ++ cmds' ∧ Forall listing cmds').
  { exists (cmds ++ [build_list_panes_all_argv user id]). rewrite E, <- app_assoc. split; [done|]. apply Forall_app.
    split; [done|]. apply Forall_singleton. by exists user, id. }
  unfold docker_run. destruct (dk_docker s) as [|[r|] rest]; by constructor.
Qed.
Lemma only_emit id key target : preserves only_reports (at_tower (emit_log_attachment_orphan_detected id key target)).
Proof.
  intros s [H1 H2 H3 H4 (evs & E & He)].
  unfold at_tower, zoom, emit_log_attachment_orphan_detected, emit_once, mbind, M_bind.
  destruct (negb (has_logger (dk_tower s))); [by constructor; eauto|].
  destruct (should_emit_orphan id key target (suppression (dk_tower s))) as [[] sup]; constructor; try done; [|by eauto].
  exists (evs ++ [LC_orphan id key target]). cbn. rewrite E, <- app_assoc. split; [done|]. apply Forall_app.
  split; [done|]. by apply Forall_singleton.
Qed.
Lemma only_lookup id place : preserves (throughout I) (lookup_pane_composite_key id place).
Proof.
  unfold lookup_pane_composite_key. destruct (split_once _ place) as [sn [r|]]; [|apply pres_throw].
  destruct (split_once _ r) as [w [p|]]; [|apply pres_throw]. destruct (int_of_text w); [|apply pres_throw].
  destruct (int_of_text p); [|apply pres_throw]. apply pres_bind; [apply pres_read|]. intros row. apply pres_ret.
Qed.
Lemma only_line home id user line : preserves only_reports (report_line home id user line).
Proof.
  unfold report_line. destruct (parse_pane_line line) as [[[place flag] cmd]|]; [|apply pres_ret].
  destruct (bool_decide _); [apply pres_ret|]. destruct (piped_agent _ _ _ cmd) as [agent|]; [|apply pres_ret].
  apply pres_bind; [apply only_sql, pres_read|]. intros []; [apply pres_ret|].
  apply pres_bind; [apply only_sql, only_lookup|]. intros key. apply pres_bind; [apply only_emit|]. intros []. apply pres_ret.
Qed.
Lemma only_container home c : preserves only_reports (scan_container home c).
Proof.
  unfold scan_container. apply pres_bind; [apply only_docker|]. intros r. destruct (bool_decide _); [apply pres_ret|].
  apply pres_bind; [apply pres_mapM; intros; apply only_line|]. intros ns. apply pres_ret.
Qed.
Lemma only_conn {A} (m : M desk A) : preserves only_reports m → preserves only_reports (with_conn m).
Proof.
  intros Hm. unfold with_conn. apply pres_bind; [apply only_sql, pres_statement|]. intros [] s Hs. specialize (Hm s Hs).
  unfold lift. destruct (m s) as [o s']. apply (only_sql _ (pres_close I) s' Hm).
Qed.
Lemma only_detect home : preserves only_reports (detect_orphans home).
Proof.
  apply only_conn, pres_bind; [apply only_sql, pres_read|]. intros cs.
  apply pres_bind; [apply pres_mapM; intros; apply only_container|]. intros ns. apply pres_ret.
Qed.
End Pass.

(** The pass reports and does nothing else: whatever tmux answers and whatever fails, it runs only
    listings, writes no file, no line of [events.jsonl] and nothing in the database (what other
    writers keep, it keeps), and logs only orphans. *)
Theorem orphans_are_only_reported I home s :
  throughout I (sess (dk_tower s)) → only_reports I s (detect_orphans home s).2.
Proof.
  intros H. apply only_detect. constructor; [done|done|done|exists []; by rewrite app_nil_r|exists []; by rewrite app_nil_r].
Qed.

(** Two pipes are found: one into the log of an agent, which is reported, and a foreign one. *)
Definition pipe_listing : string :=
  "main:0.0 %0 1 " +:+ cat_command (container_canonical_log_path_for "dev" "c1" "agt_0123456789ab") +:+
  String newline ("main:0.1 %1 1 cat >> /tmp/other" +:+ String newline EmptyString).
Example an_orphan_is_found :
  let s := set_dk_docker [Some (mkExec 0 pipe_listing EmptyString None)] [] (demo_desk [] []) in
  (detect_orphans "/home/op" s).1 = Ok 1%nat ∧
  (match lifecycle_log (dk_tower (detect_orphans "/home/op" s).2) with
   | [LC_orphan id key _] => id = "c1"%string ∧ key = demo_key
   | _ => False
   end).
Proof. by vm_compute. Qed.
