(* ===== verification/PaneReconcile.v ===== *)
(** From what a scan saw of the panes to what is written
    (src/src/agenttower/discovery/pane_reconcile.py).

    Dictionaries are lists of pairs in insertion order without repeated keys.  The sets of
    containers are lists: the order of a set only moves entries of the result around. *)

From S2P Require Import Prelude Errors Agents Permissions Store Session Tables LogDao Json Tower RegistryDao Validation Desk PipePane TmuxAdapter.
From Stdlib Require Import Ascii.

Inductive SocketScanOutcome :=
| OkSocketScan (panes : list ParsedPane)
| FailedSocketScan (error_code error_message : string).

Record ContainerMeta := mkMeta { cm_container_name : string; cm_container_user : string }.

Definition lookup_pair {K V} `{EqDecision K} (k : K) (l : list (K * V)) : option V :=
  snd <$> (snd <$> list_find (λ kv, kv.1 = k) l).

(** [_clean] of [_build_upsert]: the text and, if it was cut, a note. *)
Definition clean_field (container socket pane_id field value : string) (max : nat)
  : string * list truncation_note :=
  let (cleaned, truncated) := sanitize_text value max in
  (cleaned, if (truncated : bool)
            then [(container, socket, pane_id, field, char_count (clean_controls value))] else []).

(** [_build_upsert] *)
Definition build_upsert (container socket : string) (meta : ContainerMeta) (p : ParsedPane) (now : string)
  : PaneUpsert * list truncation_note :=
  let clean := clean_field container socket (pn_pane_id p) in
  let (session, t1) := clean "tmux_session_name"%string (pn_session_name p) MAX_DEFAULT in
  let (id, t2) := clean "tmux_pane_id"%string (pn_pane_id p) MAX_DEFAULT in
  let (name, t3) := clean "container_name"%string (cm_container_name meta) MAX_DEFAULT in
  let (user, t4) := clean "container_user"%string (cm_container_user meta) MAX_DEFAULT in
  let (tty, t5) := clean "pane_tty"%string (pn_pane_tty p) MAX_DEFAULT in
  let (command, t6) := clean "pane_current_command"%string (pn_current_command p) MAX_COMMAND in
  let (path, t7) := clean "pane_current_path"%string (pn_current_path p) MAX_PATH in
  let (title, t8) := clean "pane_title"%string (pn_title p) MAX_TITLE in
  (mkPaneUpsert (PaneCompositeKey container socket session (pn_window_index p) (pn_pane_index p) id)
     name user (pn_pane_pid p) tty command path title (pn_active p) now,
   t1 ++ t2 ++ t3 ++ t4 ++ t5 ++ t6 ++ t7 ++ t8).

Section Reconcile.
Variable prior_panes : list (pane_key * PriorPaneRow).
Variable socket_results : list (string * string * SocketScanOutcome).
Variable tmux_unavailable inactive_cascade : list string.
Variable container_metadata : list (string * ContainerMeta).
Variable now_iso : string.

Definition on_container (c : string) : list (pane_key * PriorPaneRow) :=
  filter (λ kr, key_container kr.1 = c) prior_panes.
Definition on_socket (c s : string) : list (pane_key * PriorPaneRow) :=
  filter (λ kr, key_container kr.1 = c ∧ key_socket kr.1 = s) prior_panes.

Definition active_keys (l : list (pane_key * PriorPaneRow)) : list pane_key :=
  (filter (λ kr, pp_active kr.2 = true) l).*1.
Definition idle_keys (l : list (pane_key * PriorPaneRow)) : list pane_key :=
  (filter (λ kr, pp_active kr.2 = false) l).*1.

(** Step 1: what a socket that answered shows, and the panes it no longer has. *)
Definition upserts_of (c s : string) (panes : list ParsedPane) : list (PaneUpsert * list truncation_note) :=
  let meta := default (mkMeta EmptyString EmptyString) (lookup_pair c container_metadata) in
  (λ p, build_upsert c s meta p now_iso) <$> panes.

Definition scanned_panes (r : string * string * SocketScanOutcome)
  : list (PaneUpsert * list truncation_note) :=
  match r with
  | (c, s, OkSocketScan panes) => upserts_of c s panes
  | (_, _, FailedSocketScan _ _) => []
  end.

Definition gone_from_socket (r : string * string * SocketScanOutcome) : list pane_key :=
  match r with
  | (c, s, OkSocketScan panes) =>
      let parsed_keys := (λ u, pu_key u.1) <$> upserts_of c s panes in
      filter (λ k, k ∉ parsed_keys) (active_keys (on_socket c s))
  | (_, _, FailedSocketScan _ _) => []
  end.

Definition reachable (c : string) : bool :=
  negb (bool_decide (c ∈ tmux_unavailable)) && negb (bool_decide (c ∈ inactive_cascade)).

(** Step 2: a socket that failed next to others that answered. *)
Definition kept_on_socket (r : string * string * SocketScanOutcome) : list pane_key :=
  match r with
  | (c, s, FailedSocketScan _ _) => if reachable c then (on_socket c s).*1 else []
  | (_, _, OkSocketScan _) => []
  end.

(** Step 3 *)
Definition kept_unavailable (c : string) : list pane_key :=
  if bool_decide (c ∈ inactive_cascade) then [] else (on_container c).*1.

(** Step 5: sockets that are no longer listed. *)
Definition scanned_containers : list string := remove_dups ((λ r, r.1.1) <$> socket_results).
Definition off_sockets (c : string) : list (pane_key * PriorPaneRow) :=
  if reachable c
  then filter (λ kr, (c, key_socket kr.1) ∉ (fst <$> socket_results)) (on_container c)
  else [].

Definition newly_active (u : PaneUpsert) : bool :=
  match lookup_pair (pu_key u) prior_panes with
  | None => true
  | Some r => negb (pp_active r)
  end.

Definition reconcile_panes : PaneReconcileWriteSet :=
  let scanned := concat (scanned_panes <$> socket_results) in
  let upserts := scanned.*1 in
  let inactivate :=
    concat (gone_from_socket <$> socket_results) ++
    concat ((λ c, active_keys (on_container c)) <$> inactive_cascade) ++
    concat ((λ c, active_keys (off_sockets c)) <$> scanned_containers) in
  let touch_only :=
    concat (kept_on_socket <$> socket_results) ++
    concat (kept_unavailable <$> tmux_unavailable) ++
    concat ((λ c, idle_keys (on_container c)) <$> inactive_cascade) ++
    concat ((λ c, idle_keys (off_sockets c)) <$> scanned_containers) in
  mkPaneWrites upserts touch_only inactivate (concat scanned.*2)
    (length upserts) (length (filter (λ u, newly_active u = true) upserts)) (length inactivate)
    (length (filter (λ c, on_container c ≠ []) inactive_cascade))
    (length (filter (λ c, c ∉ inactive_cascade) tmux_unavailable)).
End Reconcile.

(** The write set of a pane scan, applied to the table, leaves every pane in the state the
    scan saw it in, and in its old state where the scan saw nothing. *)

(** ** Applying a write set *)

Definition upsert_into (m : gmap pane_key PaneRec) (u : PaneUpsert) : gmap pane_key PaneRec :=
  <[pu_key u := pane_of_upsert u (m !! pu_key u)]> m.

Definition rescan (keys : list pane_key) (f : PaneRec → PaneRec) (m : gmap pane_key PaneRec) : gmap pane_key PaneRec :=
  map_imap (λ k p, Some (if bool_decide (k ∈ keys) then f p else p)) m.

Definition apply_writes (ws : PaneReconcileWriteSet) (now : string) (m : gmap pane_key PaneRec)
  : gmap pane_key PaneRec :=
  rescan (pw_inactivate ws) (with_pane_scan false now)
    (rescan (pw_touch_only ws) (λ p, with_pane_scan (pr_active p) now p)
       (foldl upsert_into m (pw_upserts ws))).

Lemma rescan_lookup keys f m k :
  rescan keys f m !! k = (λ p, if bool_decide (k ∈ keys) then f p else p) <$> m !! k.
Proof. unfold rescan. rewrite map_lookup_imap. by destruct (m !! k). Qed.

Lemma pane_of_upsert_active u old : pr_active (pane_of_upsert u old) = true.
Proof. unfold pane_of_upsert. by destruct (pu_key u) as [[[[[? ?] ?] ?] ?] ?]. Qed.
Lemma pane_of_upsert_key u old : pane_composite_key (pane_of_upsert u old) = pu_key u.
Proof. unfold pane_of_upsert. by destruct (pu_key u) as [[[[[? ?] ?] ?] ?] ?]. Qed.

Lemma upserts_lookup us m k :
  match foldl upsert_into m us !! k with
  | Some p => if decide (k ∈ pu_key <$> us) then pr_active p = true ∧ pane_composite_key p = k
              else m !! k = Some p
  | None => m !! k = None ∧ k ∉ pu_key <$> us
  end.
Proof.
  revert m. induction us as [|u us IH]; intros m; cbn.
  - destruct (m !! k) as [p|] eqn:E; [|split; [done|apply not_elem_of_nil]].
    rewrite decide_False by apply not_elem_of_nil. done.
  - specialize (IH (upsert_into m u)). destruct (foldl upsert_into (upsert_into m u) us !! k) as [p|] eqn:E.
    + destruct (decide (k ∈ pu_key <$> us)) as [Hin|Hnin].
      * rewrite decide_True by (by right). done.
      * unfold upsert_into in IH. destruct (decide (k = pu_key u)) as [->|Hne].
        -- rewrite lookup_insert_eq in IH. injection IH as <-. rewrite decide_True by (by left).
           split; [apply pane_of_upsert_active|apply pane_of_upsert_key].
        -- rewrite lookup_insert_ne in IH by done.
           rewrite decide_False; [done|]. intros [?|?]%elem_of_cons; done.
    + destruct IH as [IH1 IH2]. unfold upsert_into in IH1. destruct (decide (k = pu_key u)) as [->|Hne].
      * by rewrite lookup_insert_eq in IH1.
      * rewrite lookup_insert_ne in IH1 by done. split; [done|]. intros [?|?]%elem_of_cons; done.
Qed.

(** ** What the lists hold *)

Section Lists.
Context (prior_panes : list (pane_key * PriorPaneRow)) (results : list (string * string * SocketScanOutcome))
  (unavailable cascade : list string) (meta : list (string * ContainerMeta)) (now : string).

Abbreviation ws := (reconcile_panes prior_panes results unavailable cascade meta now).

(** What the service establishes: one answer per socket; a container without tmux has no
    socket that answered; an inactive container was not asked. *)
Record scan_inputs : Prop := mkInputs {
  si_nodup : NoDup results.*1;
  si_unavailable c s panes : (c, s, OkSocketScan panes) ∈ results → c ∉ unavailable;
  si_cascade c s o : (c, s, o) ∈ results → c ∉ cascade
}.

(** The keys a socket showed. *)
Definition shown (c s : string) (panes : list ParsedPane) : list pane_key :=
  (λ u, pu_key u.1) <$> upserts_of meta now c s panes.

Lemma shown_key c s panes k : k ∈ shown c s panes → key_container k = c ∧ key_socket k = s.
Proof.
  unfold shown, upserts_of. intros (u & -> & Hu)%list_elem_of_fmap.
  apply list_elem_of_fmap in Hu as (p & -> & _). unfold build_upsert.
  repeat (destruct (clean_field _ _ _ _ _ _)). done.
Qed.

Lemma elem_of_concat_fmap {A B} (f : A → list B) l x : x ∈ concat (f <$> l) ↔ ∃ y, y ∈ l ∧ x ∈ f y.
Proof.
  rewrite list_elem_of_In, in_concat. split.
  - intros (ys & Hys & Hx). apply list_elem_of_In, list_elem_of_fmap in Hys as (y & -> & Hy).
    exists y. split; [done|by apply list_elem_of_In].
  - intros (y & Hy & Hx). exists (f y). split; [|by apply list_elem_of_In].
    by apply list_elem_of_In, list_elem_of_fmap_2.
Qed.

Lemma upsert_keys k :
  k ∈ pu_key <$> pw_upserts ws ↔ ∃ panes, (key_container k, key_socket k, OkSocketScan panes) ∈ results ∧
    k ∈ shown (key_container k) (key_socket k) panes.
Proof.
  cbn. rewrite <- list_fmap_compose. rewrite list_elem_of_fmap. split.
  - intros (u & -> & Hu). apply elem_of_concat_fmap in Hu as ([[c s] o] & Hr & Hu).
    destruct o as [panes|]; cbn in Hu; [|by apply elem_of_nil in Hu].
    assert (pu_key u.1 ∈ shown c s panes) as Hk by (by apply (list_elem_of_fmap_2 (λ u, pu_key u.1))).
    pose proof (shown_key _ _ _ _ Hk) as [E1 E2]. cbn. rewrite E1, E2. by exists panes.
  - intros (panes & Hr & Hk). unfold shown in Hk. apply list_elem_of_fmap in Hk as (u & -> & Hu).
    exists u. split; [done|]. apply elem_of_concat_fmap. eexists. split; [exact Hr|]. exact Hu.
Qed.

Definition was_active (k : pane_key) : Prop := ∃ r, (k, r) ∈ prior_panes ∧ pp_active r = true.
Definition was_idle (k : pane_key) : Prop := ∃ r, (k, r) ∈ prior_panes ∧ pp_active r = false.

Lemma elem_active_keys l k : k ∈ active_keys l ↔ ∃ r, (k, r) ∈ l ∧ pp_active r = true.
Proof.
  unfold active_keys. rewrite list_elem_of_fmap. split.
  - intros ([k' r] & -> & [H1 H2]%list_elem_of_filter). by exists r.
  - intros (r & H1 & H2). exists (k, r). split; [done|]. by apply list_elem_of_filter.
Qed.
Lemma elem_idle_keys l k : k ∈ idle_keys l ↔ ∃ r, (k, r) ∈ l ∧ pp_active r = false.
Proof.
  unfold idle_keys. rewrite list_elem_of_fmap. split.
  - intros ([k' r] & -> & [H1 H2]%list_elem_of_filter). by exists r.
  - intros (r & H1 & H2). exists (k, r). split; [done|]. by apply list_elem_of_filter.
Qed.

(** The socket of the key is off: its container was scanned and reachable, but the socket
    was not listed. *)
Definition socket_off (k : pane_key) : Prop :=
  key_container k ∈ scanned_containers results ∧ reachable unavailable cascade (key_container k) = true ∧
  (key_container k, key_socket k) ∉ results.*1.

Lemma inactivate_keys k :
  k ∈ pw_inactivate ws ↔ was_active k ∧
    ((∃ panes, (key_container k, key_socket k, OkSocketScan panes) ∈ results ∧
        k ∉ shown (key_container k) (key_socket k) panes) ∨
     key_container k ∈ cascade ∨ socket_off k).
Proof.
  cbn. rewrite !elem_of_app, !elem_of_concat_fmap. unfold was_active, socket_off. split.
  - intros [([[c s] o] & Hr & Hk)|[(c & Hc & Hk)|(c & Hc & Hk)]].
    + destruct o as [panes|]; cbn in Hk; [|by apply elem_of_nil in Hk].
      apply list_elem_of_filter in Hk as [Hns Hk]. apply elem_active_keys in Hk as (r & Hin & Ha).
      apply list_elem_of_filter in Hin as [[E1 E2] Hin]. cbn in E1, E2. subst c s. eauto 10.
    + apply elem_active_keys in Hk as (r & Hin & Ha). apply list_elem_of_filter in Hin as [E1 Hin].
      cbn in E1. subst c. eauto 10.
    + apply elem_active_keys in Hk as (r & Hin & Ha). unfold off_sockets in Hin.
      destruct (reachable unavailable cascade c) eqn:Er; [|by apply elem_of_nil in Hin].
      apply list_elem_of_filter in Hin as [Hns [E1 Hin]%list_elem_of_filter]. cbn in E1. subst c. eauto 10.
  - intros [(r & Hin & Ha) [(panes & Hr & Hns)|[Hc|(Hc & Hre & Hns)]]].
    + left. eexists. split; [exact Hr|]. cbn. apply list_elem_of_filter. split; [done|].
      apply elem_active_keys. exists r. split; [|done]. by apply list_elem_of_filter.
    + right. left. exists (key_container k). split; [done|]. apply elem_active_keys. exists r.
      split; [|done]. by apply list_elem_of_filter.
    + right. right. exists (key_container k). split; [done|]. apply elem_active_keys. exists r.
      split; [|done]. unfold off_sockets. rewrite Hre. apply list_elem_of_filter. split; [done|].
      by apply list_elem_of_filter.
Qed.
End Lists.

(** ** The state after a scan *)

Lemma lookup_pair_Some {K V} `{EqDecision K} (k : K) (v : V) l : lookup_pair k l = Some v → (k, v) ∈ l.
Proof.
  unfold lookup_pair. intros H. apply fmap_Some in H as ([k' v'] & H & ->).
  apply fmap_Some in H as ([i [k'' v'']] & H & [= -> ->]). apply list_find_Some in H as (Hi & Hk & _).
  cbn in Hk. subst. by eapply list_elem_of_lookup_2.
Qed.
Lemma lookup_pair_None {K V} `{EqDecision K} (k : K) (l : list (K * V)) : lookup_pair k l = None → k ∉ l.*1.
Proof.
  unfold lookup_pair. rewrite !fmap_None. intros H%list_find_None (kv & -> & Hin)%list_elem_of_fmap.
  by apply (proj1 (Forall_forall _ _) H) in Hin.
Qed.

Definition prior_of (m : gmap pane_key PaneRec) : list (pane_key * PriorPaneRow) :=
  (λ kp, (kp.1, mkPrior (pr_active kp.2) (pr_first_seen_at kp.2))) <$> map_to_list m.

Definition was_on (m : gmap pane_key PaneRec) (k : pane_key) : bool :=
  match m !! k with Some p => pr_active p | None => false end.

Lemma was_active_prior m k : was_active (prior_of m) k ↔ was_on m k = true.
Proof.
  unfold was_active, prior_of, was_on. split.
  - intros (r & Hin & Ha). apply list_elem_of_fmap in Hin as ([k' p] & [= -> ->] & Hin).
    apply elem_of_map_to_list in Hin. by rewrite Hin.
  - destruct (m !! k) as [p|] eqn:E; [|done]. intros Ha.
    exists (mkPrior (pr_active p) (pr_first_seen_at p)). split; [|exact Ha].
    apply list_elem_of_fmap. exists (k, p). split; [done|]. by apply elem_of_map_to_list.
Qed.

Section Exact.
Context (results : list (string * string * SocketScanOutcome)) (unavailable cascade : list string)
  (meta : list (string * ContainerMeta)) (now : string).

(** What the scan says of a pane: an inactive container has none; a socket that answered
    shows those it has; one that failed, or whose container was out of reach, says nothing;
    one that is no longer listed has none. *)
Definition seen_state (k : pane_key) (old : bool) : bool :=
  let c := key_container k in
  if bool_decide (c ∈ cascade) then false
  else match lookup_pair (c, key_socket k) results with
       | Some (OkSocketScan panes) => bool_decide (k ∈ shown meta now c (key_socket k) panes)
       | Some (FailedSocketScan _ _) => old
       | None => if bool_decide (c ∈ scanned_containers results) && reachable unavailable cascade c
                 then false else old
       end.

Context (Hin : scan_inputs results unavailable cascade).

Lemma one_result c s o o' : (c, s, o) ∈ results → (c, s, o') ∈ results → o = o'.
Proof.
  intros H1 H2. destruct Hin as [Hnd _ _]. apply list_elem_of_lookup in H1 as [i H1], H2 as [j H2].
  assert (i = j) as ->.
  { eapply (NoDup_lookup _ i j (c, s) Hnd); rewrite list_lookup_fmap; [by rewrite H1|by rewrite H2]. }
  congruence.
Qed.

(** Membership in the upserts and the inactivations, by the state seen. *)
Lemma fate m k :
  let ws := reconcile_panes (prior_of m) results unavailable cascade meta now in
  let up := bool_decide (k ∈ pu_key <$> pw_upserts ws) in
  let off := bool_decide (k ∈ pw_inactivate ws) in
  seen_state k (was_on m k) = if up then true else if off then false else was_on m k.
Proof.
  intros ws up off. set (c := key_container k). set (s := key_socket k).
  assert (up = true ↔ ∃ panes, (c, s, OkSocketScan panes) ∈ results ∧ k ∈ shown meta now c s panes) as Hup.
  { unfold up. rewrite bool_decide_eq_true. apply upsert_keys. }
  assert (off = true ↔ was_on m k = true ∧ ((∃ panes, (c, s, OkSocketScan panes) ∈ results ∧
    k ∉ shown meta now c s panes) ∨ c ∈ cascade ∨ socket_off results unavailable cascade k)) as Hoff.
  { unfold off, ws. rewrite bool_decide_eq_true, inactivate_keys, was_active_prior. done. }
  clearbody up off. unfold seen_state. fold c s. destruct Hin as [_ Hun Hcas].
  destruct (bool_decide (c ∈ cascade)) eqn:Ec.
  { apply bool_decide_eq_true in Ec. destruct up.
    - destruct (proj1 Hup eq_refl) as (panes & Hr & _). by apply Hcas in Hr.
    - destruct off; [done|]. destruct (was_on m k) eqn:Eb; [|done].
      enough (false = true) by done. apply Hoff. eauto. }
  apply bool_decide_eq_false in Ec. destruct (lookup_pair (c, s) results) as [o|] eqn:El.
  - apply lookup_pair_Some in El. destruct o as [panes|].
    + destruct (bool_decide (k ∈ _)) eqn:Es.
      * apply bool_decide_eq_true in Es. destruct up; [done|]. enough (false = true) by done. apply Hup. eauto.
      * apply bool_decide_eq_false in Es. destruct up.
        { destruct (proj1 Hup eq_refl) as (panes' & Hr & Hk).
          pose proof (one_result _ _ _ _ El Hr) as [= <-]. done. }
        destruct off; [done|]. destruct (was_on m k) eqn:Eb; [|done].
        enough (false = true) by done. apply Hoff. eauto 10.
    + destruct up.
      { destruct (proj1 Hup eq_refl) as (panes' & Hr & Hk). by pose proof (one_result _ _ _ _ El Hr). }
      destruct off; [|done]. destruct (proj1 Hoff eq_refl) as [_ [(panes' & Hr & _)|[?|(_ & _ & Hns)]]]; [|done|].
      * by pose proof (one_result _ _ _ _ El Hr).
      * exfalso. apply Hns. apply list_elem_of_fmap. by eexists (_, _).
  - apply lookup_pair_None in El. destruct up.
    { destruct (proj1 Hup eq_refl) as (panes' & Hr & Hk). exfalso. apply El, list_elem_of_fmap.
      by eexists (_, _). }
    destruct (bool_decide (c ∈ scanned_containers results) && reachable unavailable cascade c) eqn:Eo.
    + apply andb_true_iff in Eo as [Eo1%bool_decide_eq_true Eo2].
      destruct off; [done|]. destruct (was_on m k) eqn:Eb; [|done].
      enough (false = true) by done. apply Hoff. split; [done|]. right. right. by split_and!.
    + destruct off; [|done]. destruct (proj1 Hoff eq_refl) as [_ [(panes' & Hr & _)|[?|(H1 & H2 & _)]]]; [|done|].
      * exfalso. apply El, list_elem_of_fmap. by eexists (_, _).
      * rewrite bool_decide_eq_true_2 in Eo by done. cbn in Eo. fold c in H2. congruence.
Qed.

Lemma upsert_not_inactivated m k :
  let ws := reconcile_panes (prior_of m) results unavailable cascade meta now in
  k ∈ pu_key <$> pw_upserts ws → k ∉ pw_inactivate ws.
Proof.
  intros ws Hup Hoff. apply upsert_keys in Hup as (panes & Hr & Hk). destruct Hin as [_ Hun Hcas].
  apply inactivate_keys in Hoff as [_ [(panes' & Hr' & Hk')|[Hc|(_ & _ & Hns)]]].
  - by pose proof (one_result _ _ _ _ Hr Hr') as [= <-].
  - by apply Hcas in Hr.
  - apply Hns, list_elem_of_fmap. by eexists (_, _).
Qed.

Lemma reconcile_exact m k :
  let ws := reconcile_panes (prior_of m) results unavailable cascade meta now in
  map_Forall (λ k p, pane_composite_key p = k) m →
  match apply_writes ws now m !! k with
  | Some p => pr_active p = seen_state k (was_on m k) ∧ pane_composite_key p = k
  | None => m !! k = None ∧ seen_state k false = false
  end.
Proof.
  intros ws Hwf. pose proof (fate m k) as Hfate. cbv zeta in Hfate. fold ws in Hfate.
  pose proof (upserts_lookup (pw_upserts ws) m k) as Hups.
  unfold apply_writes. rewrite !rescan_lookup.
  destruct (foldl upsert_into m (pw_upserts ws) !! k) as [p|]; cbn [fmap option_fmap option_map].
  - rewrite Hfate. destruct (decide _) as [Hu|Hu].
    + destruct Hups as [Ha Hk]. rewrite (bool_decide_eq_true_2 _ Hu).
      rewrite (bool_decide_eq_false_2 (k ∈ pw_inactivate ws)) by (by apply upsert_not_inactivated).
      destruct (bool_decide (k ∈ pw_touch_only ws)); (split; [exact Ha|exact Hk]).
    + rewrite (bool_decide_eq_false_2 _ Hu). pose proof (Hwf _ _ Hups) as Hk. unfold was_on. rewrite Hups.
      by destruct (bool_decide (k ∈ pw_touch_only ws)), (bool_decide (k ∈ pw_inactivate ws)).
  - destruct Hups as [Hm Hu]. split; [done|]. rewrite (bool_decide_eq_false_2 _ Hu) in Hfate.
    unfold was_on in Hfate. rewrite Hm in Hfate. rewrite Hfate.
    by destruct (bool_decide (k ∈ pw_inactivate ws)).
Qed.
End Exact.
