(* ===== verification/PaneService.v ===== *)
(** One scan of the panes of all active containers
    (src/src/agenttower/discovery/pane_service.py).

    The scan reads the registry outside a transaction, asks tmux, works out the writes, and
    commits them in one transaction with the changes of the agents and log attachments bound
    to the panes.  The lines about degraded scans and stale attachments follow the commit.
    The adapter is the interface of TmuxAdapter.v; [uuid4] takes the next token; the lifecycle
    logger does not fail. *)

From S2P Require Import Prelude Errors Agents Permissions Store AuditWriter Json Session Tables LogDao Tower RegistryDao Validation Desk AgentsService PipePane TmuxAdapter PaneReconcile.
From Stdlib Require Import Ascii.

(** ** Parts *)

(** [_bound]: control characters but tab and newline are dropped, and the text is cut. *)
Definition bound_text (t : string) : string :=
  take_chars (Z.to_nat 2048) (string_filter (λ c, tab_or_newline c || (32 <=? nat_of_ascii c)) t).

(** [_resolve_bench_user]; [env_user] is $USER, [login] the entry of the password database. *)
Definition truthy (o : option string) : option string :=
  match o with Some EmptyString => None | _ => o end.
Definition resolve_bench_user (config_user env_user login : option string) : option string :=
  match (λ u, strip (before_colon u)) <$> truthy config_user with
  | Some (String c h) => Some (String c h)
  | _ => match truthy env_user with Some u => Some u | None => truthy login end
  end.

Record PerScopeError := mkScopeError {
  pe_container_id : string; pe_tmux_socket_path : option string; pe_error_code : string;
  pe_error_message : string; pe_truncations : list truncation_note
}.

Definition per_scope_from_tmux_error (e : TmuxFailure) (socket : option string) : PerScopeError :=
  mkScopeError (default EmptyString (te_container_id e))
    (match socket with Some s => Some s | None => te_tmux_socket_path e end)
    (te_code e) (bound_text (te_message e)) [].

(** [_per_scope_to_dict] *)
Definition per_scope_to_dict (e : PerScopeError) : scan_error :=
  (pe_container_id e, pe_tmux_socket_path e, pe_error_code e, pe_error_message e, pe_truncations e).

(** [_index_truncations] *)
Fixpoint index_truncations (notes : list truncation_note) (out : list (string * string * list truncation_note))
  : list (string * string * list truncation_note) :=
  match notes with
  | [] => out
  | n :: rest =>
      let '(c, s, _, _, _) := n in
      index_truncations rest (put (c, s) (default [] (lookup_pair (c, s) out) ++ [n]) out)
  end.

(** [_merge_error_details] *)
Definition with_truncations (index : list (string * string * list truncation_note)) (e : PerScopeError)
  : PerScopeError :=
  match pe_tmux_socket_path e with
  | None => e
  | Some s =>
      match default [] (lookup_pair (pe_container_id e, s) index) with
      | [] => e
      | notes => mkScopeError (pe_container_id e) (Some s) (pe_error_code e) (pe_error_message e) notes
      end
  end.

Definition merge_error_details (failures : list PerScopeError)
    (index : list (string * string * list truncation_note)) : list PerScopeError :=
  let out := with_truncations index <$> failures in
  let seen := (λ e, (pe_container_id e, default EmptyString (pe_tmux_socket_path e))) <$> out in
  out ++
  ((λ i, mkScopeError i.1.1 (Some i.1.2) "output_malformed"
           (bound_text (count_text (length i.2) +:+ " pane field(s) truncated")) i.2) <$>
     filter (λ i, i.1 ∉ seen) index).

(** [_partial_error_message] *)
Definition partial_error_message (details failures : list PerScopeError) : option string :=
  match details, failures with
  | [], _ => None
  | _, first :: _ =>
      Some (bound_text (if bool_decide (pe_error_message first = EmptyString) then pe_error_code first
                        else pe_error_message first))
  | _, [] => Some (bound_text "pane field(s) truncated")
  end.

(** [str(uuid.uuid4())] *)
Definition new_uuid : M desk string := token_hex.

Definition emit_scan (event : string) (fields : list (string * string)) : M desk unit :=
  at_tower (emit_always (LC_scan event ((λ f, (f.1, bound_text f.2)) <$> fields))).

(** ** Asking tmux *)

(** [_ContainerScanState] *)
Record ContainerScan := mkContainerScan {
  sc_sockets_scanned : nat; sc_failures : list PerScopeError;
  sc_outcomes : list (string * string * SocketScanOutcome); sc_any_success : bool
}.

Definition gone_docker (e : TmuxFailure) : bool := bool_decide (te_code e = "docker_unavailable"%string).

Section Scan.
Variable adapter : TmuxAdapter.
Variable env_user login : option string.
Variable daemon_uid : Z.

(** What one socket adds to the state of its container. *)
Definition add_socket (c socket : string) (r : tmux (list ParsedPane)) (st : ContainerScan) : ContainerScan :=
  let record o := put (c, socket) o (sc_outcomes st) in
  match r with
  | inl panes => mkContainerScan (S (sc_sockets_scanned st)) (sc_failures st) (record (OkSocketScan panes)) true
  | inr e =>
      let err := per_scope_from_tmux_error e (Some socket) in
      let failures := sc_failures st ++ [err] in
      match te_partial_panes e with
      | _ :: _ =>
          if bool_decide (te_code e = "output_malformed"%string)
          then mkContainerScan (S (sc_sockets_scanned st)) failures (record (OkSocketScan (te_partial_panes e))) true
          else mkContainerScan (S (sc_sockets_scanned st)) failures
                 (record (FailedSocketScan (pe_error_code err) (pe_error_message err))) (sc_any_success st)
      | [] =>
          mkContainerScan (S (sc_sockets_scanned st)) failures
            (record (FailedSocketScan (pe_error_code err) (pe_error_message err))) (sc_any_success st)
      end
  end.

Definition raise_failure {A} (e : TmuxFailure) : M desk A := throw (AdapterError (te_code e) (te_message e)).

Fixpoint scan_sockets (c user uid : string) (names : list string) (st : ContainerScan) : M desk ContainerScan :=
  match names with
  | [] => mret st
  | name :: rest =>
      let socket := "/tmp/tmux-" +:+ uid +:+ "/" +:+ name in
      r ← list_panes adapter c user socket;
      match r with
      | inr e => if gone_docker e then raise_failure e
                 else scan_sockets c user uid rest (add_socket c socket r st)
      | inl _ => scan_sockets c user uid rest (add_socket c socket r st)
      end
  end.

(** [_scan_one_container], and whether tmux was out of reach. *)
Definition scan_one_container (c user : string) : M desk (ContainerScan * bool) :=
  let failed e := mret (mkContainerScan 0 [per_scope_from_tmux_error e None] [] false, true) in
  u ← resolve_uid adapter c user;
  match u with
  | inr e => if gone_docker e then raise_failure e else failed e
  | inl uid =>
      l ← list_socket_dir adapter c user uid;
      match l with
      | inr e => if gone_docker e then raise_failure e else failed e
      | inl [] => mret (mkContainerScan 0 [] [] false, false)
      | inl names =>
          st ← scan_sockets c user uid names (mkContainerScan 0 [] [] false);
          mret (st, negb (sc_any_success st))
      end
  end.

(** The state of the loop over the containers in [_scan_locked]. *)
Record ScanState := mkScanState {
  ss_results : list (string * string * SocketScanOutcome); ss_unavailable : list string;
  ss_failures : list PerScopeError; ss_containers : nat; ss_sockets : nat;
  ss_metadata : list (string * ContainerMeta)
}.

Definition add_container (c name user : string) (r : ContainerScan * bool) (st : ScanState) : ScanState :=
  mkScanState (foldl (λ acc o, put o.1 o.2 acc) (ss_results st) (sc_outcomes r.1))
    (if r.2 then ss_unavailable st ++ [c] else ss_unavailable st)
    (ss_failures st ++ sc_failures r.1) (S (ss_containers st)) (ss_sockets st + sc_sockets_scanned r.1)
    (put c (mkMeta name user) (ss_metadata st)).

Definition add_unresolved (c name : string) (st : ScanState) : ScanState :=
  mkScanState (ss_results st) (ss_unavailable st ++ [c])
    (ss_failures st ++ [mkScopeError c None "bench_user_unresolved"
                          (bound_text "bench user resolution returned empty") []])
    (ss_containers st) (ss_sockets st) (put c (mkMeta name EmptyString) (ss_metadata st)).

Fixpoint scan_containers (rows : list (string * string * option string)) (st : ScanState) : M desk ScanState :=
  match rows with
  | [] => mret st
  | (c, name, config_user) :: rest =>
      match resolve_bench_user config_user env_user login with
      | None => scan_containers rest (add_unresolved c name st)
      | Some user =>
          r ← scan_one_container c user;
          scan_containers rest (add_container c name user r st)
      end
  end.

(** ** Committing *)

Record PaneScanResult := mkPaneScanResult { psr_row : PaneScanRow; psr_details : list PerScopeError }.

(** The body of the transaction of [_commit_scan]: the attachments that became stale, and the
    row of the scan. *)
Definition commit_body (ws : PaneReconcileWriteSet) (started_at : string) (row : string → PaneScanRow)
  : M desk (list LogAttachmentRecord * PaneScanRow) :=
  _ ← at_sql (apply_pane_reconcile_writeset ws started_at);
  _ ← at_sql (update_last_seen_at (pu_key <$> pw_upserts ws) started_at);
  _ ← at_sql (cascade_agents_active_from_pane (pw_inactivate ws));
  stale ← at_sql (cascade_to_stale_for_panes (pw_inactivate ws) started_at);
  completed_at ← clock_now;
  _ ← at_sql (insert_pane_scan (row completed_at));
  mret (stale, row completed_at).

(** The lines of the attachments that became stale. *)
Fixpoint append_stale (rows : list LogAttachmentRecord) : M desk unit :=
  match rows with
  | [] => mret tt
  | r :: rest =>
      _ ← except (at_tower (append_log_attachment_change (la_attachment_id r) (la_agent_id r)
                    (Some "active"%string) "stale" (Some (la_log_path r)) (la_log_path r)
                    (la_prior_pipe_target r) (la_source r) daemon_uid))
            (λ _, at_tower (emit_always (LC_audit_failed "pane_reconcile.stale_cascade" (la_agent_id r)
                    (la_attachment_id r))));
      append_stale rest
  end.

Definition commit_scan (ws : PaneReconcileWriteSet) (started_at : string) (row : string → PaneScanRow)
  : M desk PaneScanRow :=
  res ← desk_transaction (commit_body ws started_at row);
  _ ← append_stale res.1;
  mret res.2.

Definition PostCommitSideEffectError : exn := PyError "PostCommitSideEffectError".

(** [_emit_jsonl_degraded] *)
Definition emit_jsonl_degraded (kind scan_id : string) (code message : option string) (details : list scan_error)
  : M desk unit :=
  catch (at_tower (append_line (L_scan_degraded kind scan_id code message details)))
    (λ e, if is_os_error e
          then _ ← emit_scan (if bool_decide (kind = "pane_scan_degraded"%string)
                              then "pane_scan_jsonl_failed" else "scan_jsonl_failed") [("scan_id"%string, scan_id)];
               throw PostCommitSideEffectError
          else throw e).

Definition nat_text (n : nat) : string := print_int (Z.of_nat n).

Definition completed_fields (r : PaneScanRow) : list (string * string) :=
  [("scan_id", ps_scan_id r); ("status", ps_status r); ("containers", nat_text (ps_containers_scanned r));
   ("sockets", nat_text (ps_sockets_scanned r)); ("panes_seen", nat_text (ps_panes_seen r));
   ("newly_active", nat_text (ps_panes_newly_active r));
   ("inactivated", nat_text (ps_panes_reconciled_inactive r));
   ("skipped_inactive", nat_text (ps_containers_skipped_inactive r));
   ("tmux_unavailable", nat_text (ps_containers_tmux_unavailable r));
   ("error", default EmptyString (ps_error_code r))]%string.

(** The row of a scan. *)
Definition scan_row (scan_id started_at status : string) (st : ScanState) (ws : PaneReconcileWriteSet)
    (details : list PerScopeError) (message : option string) (completed_at : string) : PaneScanRow :=
  mkPaneScan scan_id started_at completed_at status (ss_containers st) (ss_sockets st) (pw_panes_seen ws)
    (pw_panes_newly_active ws) (pw_panes_reconciled_inactive ws) (pw_containers_skipped_inactive ws)
    (pw_containers_tmux_unavailable ws) (pe_error_code <$> head details) message
    (match details with [] => None | _ => Some (per_scope_to_dict <$> details) end).

(** [_scan_locked] after the reads and the questions to tmux. *)
Definition finish_scan (scan_id started_at : string) (cascade : list string)
    (prior : list (pane_key * PriorPaneRow)) (st : ScanState) : M desk PaneScanResult :=
  let ws := reconcile_panes prior (ss_results st) (ss_unavailable st) cascade (ss_metadata st) started_at in
  let index := index_truncations (pw_truncations ws) [] in
  let details := merge_error_details (ss_failures st) index in
  let degraded := negb (bool_decide (ss_failures st = []) && bool_decide (index = [])) in
  let message := partial_error_message details (ss_failures st) in
  row ← commit_scan ws started_at
          (scan_row scan_id started_at (if degraded then "degraded" else "ok") st ws details message);
  _ ← (if degraded
       then emit_jsonl_degraded "pane_scan_degraded" scan_id (ps_error_code row) message (per_scope_to_dict <$> details)
       else mret tt);
  _ ← emit_scan "pane_scan_completed" (completed_fields row);
  mret (mkPaneScanResult row details).

Definition in_scope (filter_id : option string) (c : string) : bool :=
  match filter_id with None => true | Some f => bool_decide (c = f) end.

(** [_scan_locked] *)
Definition scan_locked (scan_id started_at : string) (filter_id : option string) : M desk PaneScanResult :=
  rows ← at_sql select_active_containers_with_user;
  cascade ← at_sql select_inactive_container_ids_with_panes;
  prior ← at_sql select_all_panes;
  st ← scan_containers (filter (λ r, in_scope filter_id r.1.1 = true) rows) (mkScanState [] [] [] 0 0 []);
  finish_scan scan_id started_at (filter (λ c, in_scope filter_id c = true) (elements cascade)) prior st.

(** [_handle_docker_unavailable]: the transaction, and what follows. *)
Definition record_failure (row : PaneScanRow) : M desk bool :=
  _ ← at_sql Sql.begin_immediate;
  except (_ ← at_sql (insert_pane_scan row); _ ← at_sql Sql.commit; mret true)
    (λ _, _ ← at_sql Sql.rollback; mret false).

Definition handle_docker_unavailable (scan_id started_at message : string) : M desk unit :=
  completed_at ← clock_now;
  let row := mkPaneScan scan_id started_at completed_at "degraded" 0 0 0 0 0 0 0
               (Some "docker_unavailable"%string) (Some (bound_text message)) None in
  ok ← record_failure row;
  if (ok : bool) then
    _ ← emit_jsonl_degraded "pane_scan_degraded" scan_id (ps_error_code row) (ps_error_message row) [];
    emit_scan "pane_scan_completed" (completed_fields row)
  else mret tt.

Definition scan_for_container (filter_id : option string) : M desk PaneScanResult :=
  scan_id ← new_uuid;
  started_at ← clock_now;
  _ ← emit_scan "pane_scan_started" [("scan_id"%string, scan_id)];
  catch (scan_locked scan_id started_at filter_id)
    (λ e, match e with
          | AdapterError code message =>
              _ ← (if bool_decide (code = "docker_unavailable"%string)
                   then handle_docker_unavailable scan_id started_at message else mret tt);
              throw e
          | _ => throw e
          end).

Definition scan_panes : M desk PaneScanResult := scan_for_container None.
End Scan.
