(* ===== verification/PaneScanSpec.v ===== *)
(** A scan of the panes commits what it saw, in one step, to the panes, agents and log
    attachments. *)

From S2P Require Import Prelude Errors Agents Permissions Store AuditWriter Session Tables LogDao Json Tower TowerInvariant RegistryDao Validation Desk AgentsService InTx RegistrySpec AgentsServiceSpec PipePane LogPaths LogService LogServiceSpec LogClaims TmuxAdapter PaneReconcile PaneService.
From Stdlib Require Import Ascii.

(** ** What the statements of a commit do *)

Definition map_where {A} (p : A → bool) (f : A → A) (l : list A) : list A := (λ x, if p x then f x else x) <$> l.

Lemma list_update_map {A} check clash p f (l l' : list A) :
  list_update check clash p f l = Ok l' → l' = map_where p f l.
Proof. unfold list_update. case_match; [|done]. by intros [= <-]. Qed.

Section Commit.
Context (R : relation tower_db).
Abbreviation indesk := (inside dk_sess dk_audit R).
Abbreviation insess := (inside (λ s : session tower_db, s) (λ _, tt) R).

(** A loop whose rounds each make one change and keep the tables well formed. *)
Lemma in_mapM_fold {S K A B} (ses : S → session tower_db) (obs : S → K) (f : A → M S B)
    (g : tower_db → A → tower_db) (l : list A) d :
  (∀ d x, inside ses obs R d (f x) (λ _ d', d' = g d x ∧ (tower_wf d → tower_wf d'))) →
  inside ses obs R d (mapM f l) (λ _ d', d' = foldl g d l ∧ (tower_wf d → tower_wf d')).
Proof.
  intros Hf. revert d. induction l as [|x l IH]; intros d; cbn [mapM foldl]; [by apply in_ret|].
  eapply in_bind; [apply Hf|]. intros y d1 [-> H1].
  eapply in_bind; [apply IH|]. intros ys d2 [-> H2]. apply in_ret. split; [done|]. auto.
Qed.

Lemma in_update_agents d p f :
  insess d (update_agents p f) (λ _ d', d' = set_agents (map_where p f (agents d)) d ∧ (tower_wf d → tower_wf d')).
Proof.
  eapply in_mono; [apply in_write|]. intros [] d' E. cbv beta in E. case_match eqn:El; [|done].
  injection E as <-. rewrite <- (list_update_map _ _ _ _ _ _ El). split; [done|].
  intros Hwf. apply wf_set_agents; [done|by eapply list_update_ok].
Qed.

Lemma map_where_or {A} (p q : A → bool) f (l : list A) :
  (∀ x, f (f x) = f x) → (∀ x, q (f x) = q x) →
  map_where q f (map_where p f l) = map_where (λ x, p x || q x) f l.
Proof.
  intros Hidem Hq. unfold map_where. rewrite <- list_fmap_compose. apply list_fmap_ext. intros i x _. cbn.
  destruct (p x) eqn:Ep; cbn; [rewrite Hq, Hidem; by destruct (q x)|done].
Qed.

Lemma map_where_ext {A} (p q : A → bool) f (l : list A) :
  (∀ x, x ∈ l → p x = q x) → map_where p f l = map_where q f l.
Proof.
  intros H. unfold map_where. apply list_fmap_ext. intros i x Hx.
  apply list_elem_of_lookup_2 in Hx. by rewrite H.
Qed.

Lemma map_where_none {A} (p : A → bool) f (l : list A) : (∀ x, x ∈ l → p x = false) → map_where p f l = l.
Proof.
  intros H. unfold map_where. rewrite <- (list_fmap_id l) at 2. apply list_fmap_ext. intros i x Hx.
  apply list_elem_of_lookup_2 in Hx. by rewrite H.
Qed.

Lemma concat_chunk {A} n (l : list A) : (0 < n)%nat → concat (chunk n l) = l.
Proof.
  intros Hn. unfold chunk. assert (∀ fuel (l : list A), (length l ≤ fuel)%nat → concat (chunk_go fuel n l) = l) as H.
  { clear l. induction fuel as [|fuel IH]; intros l Hl; [by destruct l; cbn in *; [|lia]|].
    destruct l as [|x l]; [done|]. cbn [chunk_go concat]. rewrite IH, take_drop; [done|].
    rewrite length_drop. cbn in *. lia. }
  by apply H.
Qed.

(** The batches together update every agent of the keys. *)
Lemma in_update_batches d keys f :
  (∀ a, f (f a) = f a) → (∀ a, agent_composite_key (f a) = agent_composite_key a) →
  insess d (_ ← mapM (λ batch, update_agents (bound_to batch) f) (chunk PANE_KEY_BATCH keys); mret tt)
    (λ _ d', d' = set_agents (map_where (bound_to keys) f (agents d)) d ∧ (tower_wf d → tower_wf d')).
Proof.
  intros Hidem Hkey. eapply in_bind.
  { apply (in_mapM_fold _ _ _ (λ d batch, set_agents (map_where (bound_to batch) f (agents d)) d)).
    intros d1 b. apply in_update_agents. }
  intros ys d' [-> Hwf]. apply in_ret. split; [|done].
  rewrite <- (concat_chunk PANE_KEY_BATCH keys) at 2 by (unfold PANE_KEY_BATCH; lia).
  generalize (chunk PANE_KEY_BATCH keys). intros bs. clear Hwf ys.
  assert (∀ bs d, foldl (λ d batch, set_agents (map_where (bound_to batch) f (agents d)) d) d bs =
    set_agents (map_where (bound_to (concat bs)) f (agents d)) d) as H; [|apply H].
  clear d bs. induction bs as [|b bs IH]; intros d; cbn [foldl concat].
  - rewrite map_where_none; [by destruct d|]. intros a _. unfold bound_to. by rewrite bool_decide_eq_false_2 by apply not_elem_of_nil.
  - rewrite IH. set (d1 := set_agents (map_where (bound_to b) f (agents d)) d).
    change (agents d1) with (map_where (bound_to b) f (agents d)).
    change (set_agents ?l d1) with (set_agents l d). f_equal.
    rewrite map_where_or by (done || intros; unfold bound_to; by rewrite Hkey).
    apply map_where_ext. intros a _. unfold bound_to.
    destruct (bool_decide (agent_composite_key a ∈ b)) eqn:E1, (bool_decide (agent_composite_key a ∈ concat bs)) eqn:E2;
      cbn; symmetry; rewrite ?bool_decide_eq_true, ?bool_decide_eq_false in *; rewrite elem_of_app; tauto.
Qed.

(** Panes *)

Lemma rescan_nil f m : rescan [] f m = m.
Proof.
  apply map_eq. intros k. rewrite rescan_lookup. destruct (m !! k); [|done]. cbn.
  by rewrite bool_decide_eq_false_2 by apply not_elem_of_nil.
Qed.

Lemma wf_set_panes d m :
  tower_wf d → map_Forall (λ k p, pane_composite_key p = k) m → tower_wf (set_panes m d).
Proof. intros [] Hm. by constructor. Qed.

Lemma in_update_panes d keys f :
  (∀ p, pane_composite_key (f p) = pane_composite_key p) →
  insess d (update_panes keys f) (λ _ d', d' = set_panes (rescan keys f (panes d)) d ∧ (tower_wf d → tower_wf d')).
Proof.
  intros Hf. unfold update_panes. apply in_if; intros Hk.
  - apply bool_decide_eq_true in Hk as ->. apply in_ret. rewrite rescan_nil. split; [by destruct d|done].
  - eapply in_mono; [apply in_write|]. intros [] d' [= <-]. split; [done|]. intros Hwf.
    apply wf_set_panes; [done|]. intros k p Hp. change (rescan keys f (panes d) !! k = Some p) in Hp.
    rewrite rescan_lookup in Hp. apply fmap_Some in Hp as (q & Hq & ->).
    apply (wf_panes _ Hwf) in Hq. clear Hk. case_bool_decide; [by rewrite Hf|done].
Qed.

Lemma in_apply_writes d ws now :
  insess d (apply_pane_reconcile_writeset ws now) (λ _ d',
    d' = set_panes (apply_writes ws now (panes d)) d ∧ (tower_wf d → tower_wf d')).
Proof.
  eapply in_bind.
  { apply (in_mapM_fold _ _ _ (λ d u, set_panes (upsert_into (panes d) u) d)). intros d1 u.
    eapply in_mono; [apply in_write|]. intros [] d' [= <-]. split; [done|]. intros Hwf.
    apply wf_set_panes; [done|]. apply map_Forall_insert_2; [apply pane_of_upsert_key|apply Hwf]. }
  intros ys d1 [-> H1].
  assert (∀ us d, foldl (λ d u, set_panes (upsert_into (panes d) u) d) d us =
    set_panes (foldl upsert_into (panes d) us) d) as Hfold.
  { induction us as [|u us IH]; intros d0; cbn [foldl]; [by destruct d0|]. by rewrite IH. }
  rewrite Hfold in H1 |- *. eapply in_bind; [by apply in_update_panes|]. intros [] d2 [-> H2].
  eapply in_mono; [by apply in_update_panes|]. intros [] d3 [-> H3]. split; [done|]. auto.
Qed.

(** Attachments *)

Definition stale_of (now : string) (r : LogAttachmentRecord) : LogAttachmentRecord :=
  with_status "stale" now (la_superseded_at r) (la_superseded_by r) r.

Definition bound_active (keys : list pane_key) (r : LogAttachmentRecord) : bool :=
  bool_decide (attachment_composite_key r ∈ keys ∧ is_active r).

Lemma in_mapM_read {A B} (f : A → tower_db → B) l d :
  insess d (mapM (λ x, Sql.read (f x)) l) (λ ys d', ys = (λ x, f x d) <$> l ∧ d' = d).
Proof.
  induction l as [|x l IH]; cbn [mapM]; [by apply in_ret|].
  eapply in_bind; [apply in_read|]. intros y d1 [-> ->].
  eapply in_bind; [apply IH|]. intros ys d2 [-> ->]. by apply in_ret.
Qed.

Lemma foldl_stale rows now d :
  foldl (λ d r, set_log_attachments
           (map_where (λ b, bool_decide (la_attachment_id b = la_attachment_id r)) (stale_of now) (log_attachments d)) d) d rows =
  set_log_attachments (map_where (λ b, bool_decide (la_attachment_id b ∈ la_attachment_id <$> rows)) (stale_of now)
                         (log_attachments d)) d.
Proof.
  revert d. induction rows as [|r rows IH]; intros d; cbn [foldl].
  - rewrite map_where_none; [by destruct d|]. intros b _. by rewrite bool_decide_eq_false_2 by apply not_elem_of_nil.
  - rewrite IH. set (d1 := set_log_attachments _ d).
    change (log_attachments d1) with (map_where (λ b, bool_decide (la_attachment_id b = la_attachment_id r))
      (stale_of now) (log_attachments d)).
    change (set_log_attachments ?l d1) with (set_log_attachments l d). f_equal.
    rewrite map_where_or by done. apply map_where_ext. intros b _. rewrite fmap_cons.
    rewrite <- bool_decide_or. apply bool_decide_ext. by rewrite elem_of_cons.
Qed.

Lemma affected_ids d keys b :
  tower_wf d → b ∈ log_attachments d →
  bool_decide (la_attachment_id b ∈ la_attachment_id <$> concat ((λ k, actives_for_pane k d) <$> keys)) =
  bound_active keys b.
Proof.
  intros Hwf Hb. apply bool_decide_ext. split.
  - intros (b' & E & Hb')%list_elem_of_fmap. apply elem_of_concat_fmap in Hb' as (k & Hk & Hb').
    apply list_elem_of_filter in Hb' as [[<- Ha] Hb'].
    assert (b = b') as -> by (by eapply same_attachment; [apply Hwf|..]). done.
  - intros [Hk Ha]. apply list_elem_of_fmap. exists b. split; [done|]. apply elem_of_concat_fmap.
    exists (attachment_composite_key b). split; [done|]. by apply list_elem_of_filter.
Qed.

Lemma in_cascade_stale d keys now :
  tower_wf d →
  insess d (cascade_to_stale_for_panes keys now) (λ stale d',
    stale = concat ((λ k, actives_for_pane k d) <$> keys) ∧
    d' = set_log_attachments (map_where (bound_active keys) (stale_of now) (log_attachments d)) d ∧ tower_wf d').
Proof.
  intros Hwf. unfold cascade_to_stale_for_panes, select_actives_for_pane.
  eapply in_bind; [apply in_mapM_read|]. intros found d1 [-> ->]. cbv zeta.
  eapply in_bind.
  { apply (in_mapM_fold _ _ _ (λ d r, set_log_attachments
      (map_where (λ b, bool_decide (la_attachment_id b = la_attachment_id r)) (stale_of now) (log_attachments d)) d)).
    intros d1 r. eapply in_mono; [apply in_write|]. intros [] d2 E. unfold on_attachments in E.
    case_match eqn:El; [|done]. injection E as <-. pose proof (list_update_ok _ _ _ _ _ _ El) as Hok.
    apply list_update_map in El as ->. split; [done|]. intros Hwf1. by apply wf_set_log_attachments. }
  intros ys d2 [-> H2]. apply in_ret. split; [done|]. rewrite foldl_stale in *.
  assert (∀ l, l = log_attachments d →
    map_where (λ b, bool_decide (la_attachment_id b ∈ la_attachment_id <$> concat ((λ k, actives_for_pane k d) <$> keys)))
      (stale_of now) l = map_where (bound_active keys) (stale_of now) l) as E.
  { intros l ->. apply map_where_ext. intros b Hb. by apply affected_ids. }
  rewrite <- (E _ eq_refl). split; [done|by apply H2].
Qed.

(** ** The commit *)

Definition seen_at (now : string) (a : AgentRecord) : AgentRecord :=
  with_fields (role a) (capability a) (label a) (project_path a) (effective_permissions a)
    (last_registered_at a) (Some now) (active a) a.
Definition deactivated (a : AgentRecord) : AgentRecord :=
  with_fields (role a) (capability a) (label a) (project_path a) (effective_permissions a)
    (last_registered_at a) (last_seen_at a) false a.

(** What a scan writes: panes, the agents and attachments bound to them, and its own row. *)
Definition scanned (ws : PaneReconcileWriteSet) (now : string) (row : PaneScanRow) (d : tower_db) : tower_db :=
  set_pane_scans (pane_scans d ++ [row])
    (set_log_attachments (map_where (bound_active (pw_inactivate ws)) (stale_of now) (log_attachments d))
       (set_agents (map_where (bound_to (pw_inactivate ws)) deactivated
                      (map_where (bound_to (pu_key <$> pw_upserts ws)) (seen_at now) (agents d)))
          (set_panes (apply_writes ws now (panes d)) d))).

Lemma in_commit_body d ws now row :
  tower_wf d →
  indesk d (commit_body ws now row) (λ res d', ∃ completed,
    res = (concat ((λ k, actives_for_pane k d) <$> pw_inactivate ws), row completed) ∧
    d' = scanned ws now (row completed) d ∧ tower_wf d').
Proof.
  intros Hwf. unfold commit_body.
  eapply in_bind; [apply in_at_sql, in_apply_writes|]. intros [] d1 [E1 W1].
  eapply in_bind; [apply in_at_sql, in_update_batches; [done|done]|]. intros [] d2 [E2 W2].
  eapply in_bind; [apply in_at_sql, in_update_batches; [done|done]|]. intros [] d3 [E3 W3].
  assert (tower_wf d3) as Hwf3 by auto.
  eapply in_bind; [by apply in_at_sql, in_cascade_stale|]. intros stale d4 (-> & E4 & W4).
  eapply in_bind; [apply in_clock|]. intros completed ? ->.
  eapply in_bind; [apply in_at_sql, in_write|]. intros [] d5 E5. cbv beta in E5. case_match; [done|].
  injection E5 as <-. apply in_ret. exists completed. subst d1 d2 d3 d4. split; [done|]. split; [done|].
  destruct W4. by constructor.
Qed.
End Commit.

(** The scan as a whole: what it asks, what it commits, and what it appends. *)

(** ** Programs that only ask *)

Definition steady {A} (m : M desk A) : Prop := ∀ s,
  dk_sess (m s).2 = dk_sess s ∧ dk_audit (m s).2 = dk_audit s.

(** ... and answer with a [V]. *)
Definition yields {A} (m : M desk A) (V : A → Prop) : Prop := steady m ∧ ∀ s a, (m s).1 = Ok a → V a.

Lemma yields_ret {A} (a : A) (V : A → Prop) : V a → yields (mret a) V.
Proof. intros H. split; [by intros s|]. by intros s b [= <-]. Qed.
Lemma yields_throw {A} e (V : A → Prop) : yields (throw e) V.
Proof. split; [by intros s|done]. Qed.
Lemma yields_bind {A B} (m : M desk A) (k : A → M desk B) V W :
  yields m V → (∀ a, V a → yields (k a) W) → yields (m ≫= k) W.
Proof.
  intros [H1 H2] Hk. split; intros s; specialize (H1 s); specialize (H2 s);
    unfold mbind, M_bind; destruct (m s) as [[a|e] s'] eqn:E; cbn in *; try done.
  - destruct (Hk a (H2 a eq_refl)) as [G1 _]. destruct H1 as [E1 E2], (G1 s') as [E3 E4].
    split; [by rewrite E3|by rewrite E4].
  - intros b. destruct (Hk a (H2 a eq_refl)) as [_ G2]. apply G2.
Qed.
Lemma yields_mono {A} (m : M desk A) V W : yields m V → (∀ a, V a → W a) → yields m W.
Proof. intros [H1 H2] H. split; [done|]. eauto. Qed.

(** What an adapter promises to discovery: it does not touch the daemon's tables and files. *)
Class SteadyTmux (ad : TmuxAdapter) : Prop := mkSteady {
  steady_uid c u : steady (resolve_uid ad c u);
  steady_dir c u i : steady (list_socket_dir ad c u i);
  steady_panes c u p : steady (list_panes ad c u p)
}.

Lemma yields_steady {A} (m : M desk A) : steady m → yields m (λ _, True).
Proof. by split. Qed.

Lemma steady_cli bin args c so re : steady (run_cli bin args c so re).
Proof.
  unfold run_cli. destruct bin as [b|]; [|by intros s]. apply (yields_bind _ _ (λ _, True) (λ _, True)).
  - apply yields_steady. intros s. unfold docker_run. by destruct (dk_docker s) as [|[]].
  - intros r _. by apply yields_ret.
Qed.

#[export] Instance subprocess_steady bin repr : SteadyTmux (subprocess_tmux bin repr).
Proof.
  constructor; intros; cbn [resolve_uid list_socket_dir list_panes subprocess_tmux];
    (apply (yields_bind _ _ (λ _, True) (λ _, True)); [apply yields_steady, steady_cli|]);
    intros r _; by apply yields_ret.
Qed.

(** ** What the answers of a container look like *)

Section Put.
Context {K V : Type} `{EqDecision K}.

Lemma elem_of_put (k k' : K) (v v' : V) l : (k', v') ∈ put k v l → (k' = k ∧ v' = v) ∨ (k', v') ∈ l.
Proof.
  induction l as [|[k0 v0] l IH]; cbn; [intros [= -> ->]%list_elem_of_singleton; by left|].
  case_decide; intros [E|E]%elem_of_cons; [injection E as -> ->; by left|right; by right| |].
  - right. rewrite E. left.
  - apply IH in E as [?|?]; [by left|right; by right].
Qed.
Lemma put_keys (k : K) (v : V) l : (put k v l).*1 = if decide (k ∈ l.*1) then l.*1 else l.*1 ++ [k].
Proof.
  induction l as [|[k0 v0] l IH]; cbn [put].
  { rewrite decide_False; [done|]. apply not_elem_of_nil. }
  rewrite fmap_cons. cbn [fst]. destruct (decide (k = k0)) as [->|Hne].
  - destruct (decide (k0 ∈ k0 :: l.*1)) as [|Hn]; [done|]. exfalso. apply Hn. left.
  - rewrite fmap_cons, IH. cbn [fst].
    destruct (decide (k ∈ l.*1)) as [Hin|Hnin], (decide (k ∈ k0 :: l.*1)) as [Hc|Hc]; try done.
    + exfalso. apply Hc. by right.
    + by apply elem_of_cons in Hc as [?|?].
Qed.
Lemma put_nodup (k : K) (v : V) l : NoDup l.*1 → NoDup (put k v l).*1.
Proof.
  intros H. rewrite put_keys. case_decide as Hk; [done|]. apply NoDup_app. split_and!; [done| |apply NoDup_singleton].
  intros x Hx ->%list_elem_of_singleton. done.
Qed.
Lemma put_all_nodup (outs l : list (K * V)) : NoDup l.*1 → NoDup (foldl (λ acc o, put o.1 o.2 acc) l outs).*1.
Proof. revert l. induction outs as [|o outs IH]; intros l H; cbn; [done|]. by apply IH, put_nodup. Qed.
Lemma elem_of_put_all (outs l : list (K * V)) x :
  x ∈ foldl (λ acc o, put o.1 o.2 acc) l outs → x ∈ l ∨ x ∈ outs.
Proof.
  revert l. induction outs as [|[k v] outs IH]; intros l; cbn; [by left|]. intros [H|H]%IH.
  - destruct x as [k' v']. apply elem_of_put in H as [[-> ->]|H]; [right; by left|by left].
  - right. by right.
Qed.
End Put.

(** All answers are of the container, and one that is not a failure makes it reachable. *)
Record container_answers (c : string) (st : ContainerScan) : Prop := mkAnswers {
  ca_container c' s o : (c', s, o) ∈ sc_outcomes st → c' = c;
  ca_success c' s panes : (c', s, OkSocketScan panes) ∈ sc_outcomes st → sc_any_success st = true
}.

Lemma add_socket_answers c socket r st :
  container_answers c st → container_answers c (add_socket c socket r st).
Proof.
  intros [H1 H2]. unfold add_socket. destruct r as [panes|e].
  - constructor; cbn; [|done]. intros c' s o [[[= -> ->] ->]|H]%elem_of_put; [done|by eapply H1].
  - assert (∀ n f code msg, container_answers c (mkContainerScan n f
      (put (c, socket) (FailedSocketScan code msg) (sc_outcomes st)) (sc_any_success st))) as Hf.
    { intros n f code msg. constructor; cbn.
      - intros c' s o [[[= -> ->] ->]|H]%elem_of_put; [done|by eapply H1].
      - intros c' s panes [[_ ?]|H]%elem_of_put; [done|by eapply H2]. }
    destruct (te_partial_panes e) as [|p ps] eqn:Ep; [apply Hf|].
    destruct (bool_decide _); [|apply Hf]. constructor; cbn; [|done].
    intros c' s o [[[= -> ->] ->]|H]%elem_of_put; [done|by eapply H1].
Qed.

Section Asking.
Context (ad : TmuxAdapter) `{!SteadyTmux ad} (env_user login : option string).

Lemma yields_sockets c user uid names st :
  container_answers c st → yields (scan_sockets ad c user uid names st) (container_answers c).
Proof.
  revert st. induction names as [|n names IH]; intros st Hst; cbn [scan_sockets]; [by apply yields_ret|].
  cbv zeta. eapply yields_bind; [apply yields_steady, steady_panes|]. intros r _.
  pose proof (IH _ (add_socket_answers c ("/tmp/tmux-" +:+ uid +:+ "/" +:+ n) r st Hst)) as Hr.
  destruct r as [panes|e]; [exact Hr|]. destruct (gone_docker e); [apply yields_throw|exact Hr].
Qed.

Lemma yields_container c user :
  yields (scan_one_container ad c user) (λ r, container_answers c r.1 ∧
    (r.2 = true → ∀ c' s panes, (c', s, OkSocketScan panes) ∉ sc_outcomes r.1)).
Proof.
  unfold scan_one_container. cbv zeta.
  assert (∀ f, container_answers c (mkContainerScan 0 f [] false)) as Hempty.
  { intros f. constructor; cbn; intros; by apply elem_of_nil in H. }
  eapply yields_bind; [apply yields_steady, steady_uid|]. intros u _. destruct u as [uid|e].
  2:{ destruct (gone_docker e); [apply yields_throw|]. apply yields_ret. split; [apply Hempty|].
      intros _ c' s panes. apply not_elem_of_nil. }
  eapply yields_bind; [apply yields_steady, steady_dir|]. intros l _. destruct l as [[|n names]|e].
  - apply yields_ret. split; [apply Hempty|done].
  - eapply yields_bind; [by apply yields_sockets|]. intros st Hst. apply yields_ret. split; [done|].
    intros Hn c' s panes H. apply (ca_success _ _ Hst) in H. cbn in Hn. by rewrite H in Hn.
  - destruct (gone_docker e); [apply yields_throw|]. apply yields_ret. split; [apply Hempty|].
    intros _ c' s panes. apply not_elem_of_nil.
Qed.

(** The state after the containers [done]. *)
Record scan_state_ok (visited : list string) (st : ScanState) : Prop := mkStateOk {
  so_nodup : NoDup (ss_results st).*1;
  so_visited c s o : (c, s, o) ∈ ss_results st → c ∈ visited;
  so_unavailable c : c ∈ ss_unavailable st → c ∈ visited;
  so_reach c s panes : (c, s, OkSocketScan panes) ∈ ss_results st → c ∉ ss_unavailable st
}.

Lemma add_container_ok visited c name user r st :
  scan_state_ok visited st → c ∉ visited → container_answers c r.1 →
  (r.2 = true → ∀ c' s panes, (c', s, OkSocketScan panes) ∉ sc_outcomes r.1) →
  scan_state_ok (c :: visited) (add_container c name user r st).
Proof.
  intros [H1 H2 H3 H4] Hc [A1 A2] Hun. constructor; cbn.
  - by apply put_all_nodup.
  - intros c' s o [H|H]%elem_of_put_all; [right; by eapply H2|]. apply A1 in H as ->. left.
  - intros c'. destruct r.2; [intros [H| ->%list_elem_of_singleton]%elem_of_app|intros H];
      [right; by apply H3|left|right; by apply H3].
  - intros c' s panes [H|H]%elem_of_put_all Hu.
    + pose proof (H2 _ _ _ H) as Hv. apply (H4 _ _ _ H).
      destruct r.2; [apply elem_of_app in Hu as [Hu|Hu%list_elem_of_singleton]; [done|by subst]|done].
    + pose proof (A1 _ _ _ H) as ->. destruct r.2 eqn:Er; [by eapply Hun|]. by apply Hc, H3.
Qed.

Lemma add_unresolved_ok visited c name st :
  scan_state_ok visited st → c ∉ visited → scan_state_ok (c :: visited) (add_unresolved c name st).
Proof.
  intros [H1 H2 H3 H4] Hc. constructor; cbn; [done|intros; right; by eapply H2| |].
  - intros c' [H| ->%list_elem_of_singleton]%elem_of_app; [right; by apply H3|left].
  - intros c' s panes H [Hu|Hu%list_elem_of_singleton]%elem_of_app; [by eapply H4|]. subst.
    by apply Hc, (H2 _ _ _ H).
Qed.

Lemma yields_containers rows visited st :
  scan_state_ok visited st → NoDup (rows.*1.*1 ++ visited) →
  yields (scan_containers ad env_user login rows st)
    (λ st', ∃ v, scan_state_ok v st' ∧ ∀ c, c ∈ v → c ∈ rows.*1.*1 ∨ c ∈ visited).
Proof.
  revert visited st. induction rows as [|[[c name] cu] rows IH]; intros visited st Hst Hnd; cbn [scan_containers].
  { apply yields_ret. exists visited. split; [done|]. by right. }
  cbn in Hnd. apply NoDup_cons in Hnd as [Hc Hnd].
  assert (c ∉ visited) as Hcv by (intros ?; apply Hc, elem_of_app; by right).
  assert (NoDup (rows.*1.*1 ++ c :: visited)) as Hnd'.
  { rewrite <- (Permutation_middle rows.*1.*1 visited c). by apply NoDup_cons. }
  assert (∀ st', scan_state_ok (c :: visited) st' →
    yields (scan_containers ad env_user login rows st')
      (λ st', ∃ v, scan_state_ok v st' ∧ ∀ c', c' ∈ v → c' ∈ ((c, name, cu) :: rows).*1.*1 ∨ c' ∈ visited)) as Hnext.
  { intros st' Hst'. eapply yields_mono; [by apply IH|]. intros st2 (v & Hv & Hsub). exists v. split; [done|].
    intros c' [?|[->|?]%elem_of_cons]%Hsub; [left; by right|left; left|by right]. }
  destruct (resolve_bench_user cu env_user login) as [user|].
  - eapply yields_bind; [apply yields_container|]. intros r [Ha Hu]. by apply Hnext, add_container_ok.
  - by apply Hnext, add_unresolved_ok.
Qed.
End Asking.

(** ** Lines *)

Lemma appended_nil s : appended [] s (Ok tt) s.
Proof. split; [done|]. exists []. rewrite app_nil_r. by split_and!. Qed.

Lemma wp_then {A} (m : M desk unit) (k : M desk A) l1 l2 s (f : outcome A → outcome unit) :
  wp m (appended l1 s) s →
  (∀ s1, dk_sess s1 = dk_sess s → wp k (λ o s', appended l2 s1 (f o) s') s1) →
  (∀ e, f (Raise e) = Raise e) →
  wp (_ ← m; k) (λ o s', appended (l1 ++ l2) s (f o) s') s.
Proof.
  intros Hm Hk Hf. apply wp_bind. eapply wp_mono; [|exact Hm]. intros [[]|e] s1 (E1 & ls1 & L1 & S1 & F1); cbv beta iota.
  - eapply wp_mono; [|by apply Hk]. intros o s2 (E2 & ls2 & L2 & S2 & F2). split; [congruence|].
    exists (ls1 ++ ls2). split_and!; [by rewrite L2, L1, app_assoc|by apply sublist_app|].
    intros Hio. destruct (F1 Hio) as (_ & -> & Hio1). by destruct (F2 Hio1) as (-> & -> & ->).
  - rewrite Hf. split; [done|]. exists ls1. split_and!; [done|by apply sublist_inserts_r|].
    intros Hio. by destruct (F1 Hio).
Qed.

Definition stale_line (uid : Z) (r : LogAttachmentRecord) : audit_line :=
  L_attachment_change (la_attachment_id r) (la_agent_id r) (Some "active"%string) "stale" (Some (la_log_path r))
    (la_log_path r) (la_prior_pipe_target r) (la_source r) uid.

Lemma wp_append_stale uid rows s :
  wp (append_stale uid rows) (appended (stale_line uid <$> rows) s) s.
Proof.
  revert s. induction rows as [|r rows IH]; intros s; cbn [append_stale fmap list_fmap].
  - apply wp_ret, appended_nil.
  - apply (wp_then _ _ [stale_line uid r] (stale_line uid <$> rows) s (λ o, o)); [|intros s1 _; apply IH|done].
    eapply wp_mono; [|apply wp_safe_line]. intros o s1 (E & _ & ls & H1 & H2 & H3). split; [done|]. by exists ls.
Qed.

Lemma wp_emit_scan ev fs s : wp (emit_scan ev fs) (λ o s', o = Ok tt ∧ appended [] s o s') s.
Proof.
  unfold wp, emit_scan, at_tower, zoom, emit_always. cbn. split; [done|]. unfold appended.
  destruct (has_logger (dk_tower s)); (split; [done|]); exists []; rewrite app_nil_r; by split_and!.
Qed.

Lemma wp_degraded kind id code msg details s :
  wp (emit_jsonl_degraded kind id code msg details)
     (appended [L_scan_degraded kind id code msg details] s) s.
Proof.
  apply wp_catch. eapply wp_mono; [|apply wp_desk_append].
  intros o s1 (E1 & ls & H1 & H2 & _ & H3). destruct o as [[]|e]; [split; [done|]; by exists ls|].
  assert (∀ e', appended [L_scan_degraded kind id code msg details] s (Raise e') s1) as Hr.
  { intros e'. split; [done|]. exists ls. split_and!; [done|done|]. intros Hio. by destruct (H3 Hio). }
  destruct (is_os_error e); [|by apply wp_throw].
  apply wp_bind. eapply wp_mono; [|apply wp_emit_scan].
  intros o s2 [-> (E2 & ls2 & G1 & G2 & _)]. apply wp_throw. apply sublist_nil_r in G2 as ->.
  rewrite app_nil_r in G1. destruct (Hr PostCommitSideEffectError) as (_ & ls' & R1 & R2 & R3).
  split; [congruence|]. exists ls'. split_and!; [by rewrite G1|done|]. intros Hio. by destruct (R3 Hio).
Qed.

(** ** Which errors are raised *)

Definition no_adapter {A} (o : outcome A) : Prop := ∀ c m, o ≠ Raise (AdapterError c m).
Definition never_adapter {A} (m : M desk A) : Prop := ∀ s, no_adapter (m s).1.

Lemma never_ret {A} (a : A) : never_adapter (mret a).
Proof. by intros s c m. Qed.
Lemma never_bind {A B} (m : M desk A) (k : A → M desk B) :
  never_adapter m → (∀ a, never_adapter (k a)) → never_adapter (m ≫= k).
Proof.
  intros Hm Hk s. specialize (Hm s). unfold mbind, M_bind. destruct (m s) as [[a|e] s']; [apply Hk|].
  intros c x [= ->]. by apply (Hm c x).
Qed.
Lemma never_catch {A} (m : M desk A) h :
  never_adapter m → (∀ e, (∀ c x, e ≠ AdapterError c x) → never_adapter (h e)) → never_adapter (catch m h).
Proof.
  intros Hm Hh s. specialize (Hm s). unfold catch. destruct (m s) as [[a|e] s']; [by intros c x|].
  apply Hh. intros c x ->. by apply (Hm c x).
Qed.
Lemma never_append l : never_adapter (at_tower (append_line l)).
Proof. intros s c m. unfold at_tower, zoom, append_line. by destruct (events_io (dk_tower s)) as [|[[]|] ?]. Qed.
Lemma never_emit ev : never_adapter (at_tower (emit_always ev)).
Proof. by intros s c m. Qed.

Lemma never_append_stale uid rows : never_adapter (append_stale uid rows).
Proof.
  induction rows as [|r rows IH]; [apply never_ret|]. apply never_bind; [|done]. apply never_catch; [apply never_append|].
  intros e He. destruct (is_exception e); [apply never_emit|]. intros s c m [= ->]. by apply (He c m).
Qed.
Lemma never_degraded kind id code msg details : never_adapter (emit_jsonl_degraded kind id code msg details).
Proof.
  apply never_catch; [apply never_append|]. intros e He.
  destruct (is_os_error e); [apply never_bind; [apply never_emit|by intros _ s c m]|].
  intros s c m [= ->]. by apply (He c m).
Qed.

Lemma wp_never {A} (m : M desk A) Q s :
  never_adapter m → wp m Q s → wp m (λ o s', Q o s' ∧ no_adapter o) s.
Proof. intros H1 H2. split; [exact H2|apply H1]. Qed.

(** ** The scan *)

Section Whole.
Context (R : relation tower_db) `{!PreOrder R} (Rwf : ∀ d d', R d d' → tower_wf d → tower_wf d').
Context (uid : Z).

(** The process goes on with no transaction open, or is gone. *)
Definition at_rest_or_dead {A} (out : outcome A) (s' : desk) : Prop :=
  tame R (dk_sess s') ∧ (tx (dk_sess s') = None ∨ out = Raise SystemExit).

Lemma not_exception e : is_exception e = false → e = SystemExit.
Proof. by destruct e. Qed.

Section Finish.
Context (scan_id started : string) (cascade : list string) (prior : list (pane_key * PriorPaneRow)) (st : ScanState).

Definition scan_writes : PaneReconcileWriteSet :=
  reconcile_panes prior (ss_results st) (ss_unavailable st) cascade (ss_metadata st) started.
Definition scan_index := index_truncations (pw_truncations scan_writes) [].
Definition scan_details : list PerScopeError := merge_error_details (ss_failures st) scan_index.
Definition scan_degraded : bool := negb (bool_decide (ss_failures st = []) && bool_decide (scan_index = [])).
Definition scan_message : option string := partial_error_message scan_details (ss_failures st).
Definition final_row (completed : string) : PaneScanRow :=
  scan_row scan_id started (if scan_degraded then "degraded" else "ok") st scan_writes scan_details scan_message completed.

(** The lines of a committed scan. *)
Definition scan_lines (d0 : tower_db) : list audit_line :=
  (stale_line uid <$> concat ((λ k, actives_for_pane k d0) <$> pw_inactivate scan_writes)) ++
  (if scan_degraded
   then [L_scan_degraded "pane_scan_degraded" scan_id (pe_error_code <$> head scan_details) scan_message
           (per_scope_to_dict <$> scan_details)] else []).

Definition scan_committed (s : desk) (ok : bool) (s' : desk) : Prop := ∃ d0 completed ls,
  R (dk_db s) d0 ∧ dk_db s' = scanned scan_writes started (final_row completed) d0 ∧ tower_wf (dk_db s') ∧
  dk_lines s' = dk_lines s ++ ls ∧ ls `sublist_of` scan_lines d0 ∧
  (events_io (dk_tower s) = [] → ok = true ∧ ls = scan_lines d0).

Lemma wp_finish_scan s :
  resting R s → tower_wf (dk_db s) →
  wp (finish_scan uid scan_id started cascade prior st) (λ out s',
    at_rest_or_dead out s' ∧
    ((is_ok out = false ∧ R (dk_db s) (dk_db s') ∧ dk_audit s' = dk_audit s) ∨
     (scan_committed s (is_ok out) s' ∧ no_adapter out))) s.
Proof.
  intros Hs Hwf. unfold finish_scan.
  fold scan_writes. fold scan_index. fold scan_details. fold scan_degraded. fold scan_message.
  apply wp_bind. unfold commit_scan. apply wp_bind.
  apply (wp_desk_transaction R _ (λ d res d', ∃ completed,
    res = (concat ((λ k, actives_for_pane k d) <$> pw_inactivate scan_writes), final_row completed) ∧
    d' = scanned scan_writes started (final_row completed) d ∧ tower_wf d')); [done|..].
  - intros d Hd. apply in_commit_body. by eapply Rwf.
  - intros res d0 s1 Hd0 (completed & -> & Hdb & Hwf1) Ha Hs1. cbn [fst snd].
    change (scan_row _ _ _ _ _ _ _ completed) with (final_row completed).
    assert (wp (_ ← append_stale uid (concat ((λ k, actives_for_pane k d0) <$> pw_inactivate scan_writes));
                mret (final_row completed))
      (λ o s', appended (stale_line uid <$> concat ((λ k, actives_for_pane k d0) <$> pw_inactivate scan_writes)) s1
                 (match o with Ok _ => Ok tt | Raise e => Raise e end) s' ∧
               ∀ row, o = Ok row → row = final_row completed) s1) as Hstale.
    { apply wp_bind. eapply wp_mono; [|apply wp_append_stale]. intros [[]|e] s2 H; [apply wp_ret|]; (split; [done|]).
      - by intros row [= <-].
      - done. }
    eapply wp_mono; [|apply wp_never; [|exact Hstale]].
    2:{ apply never_bind; [apply never_append_stale|intros _; apply never_ret]. }
    intros o s2 [[(E2 & ls2 & L2 & S2 & F2) Hrow] Hnev].
    assert (dk_lines s1 = dk_lines s ∧ events_io (dk_tower s1) = events_io (dk_tower s)) as [Hl1 Hio1]
      by (unfold dk_audit in Ha; by injection Ha).
    destruct o as [row|e]; cbv beta iota.
    2:{ split.
        - split; [by rewrite E2; apply Hs1|]. left. rewrite E2. apply Hs1.
        - right. split; [|intros c m [= ->]; by apply (Hnev c m)].
          exists d0, completed, ls2. unfold dk_db in *. rewrite E2.
          split_and!; [done|done|done|by rewrite L2, Hl1| |].
          + unfold scan_lines. by apply sublist_inserts_r.
          + intros Hio. rewrite <- Hio1 in Hio. by destruct (F2 Hio). }
    specialize (Hrow row eq_refl) as ->.
    assert (wp (_ ← (if scan_degraded
         then emit_jsonl_degraded "pane_scan_degraded" scan_id (ps_error_code (final_row completed)) scan_message
                (per_scope_to_dict <$> scan_details) else mret tt);
       _ ← emit_scan "pane_scan_completed" (completed_fields (final_row completed));
       mret (mkPaneScanResult (final_row completed) scan_details))
      (λ o s', appended (if scan_degraded
        then [L_scan_degraded "pane_scan_degraded" scan_id (pe_error_code <$> head scan_details) scan_message
           (per_scope_to_dict <$> scan_details)] else []) s2
        (match o with Ok _ => Ok tt | Raise e => Raise e end) s') s2) as Htail.
    { rewrite <- (app_nil_r (if scan_degraded then _ else _)).
      apply (wp_then _ _ _ [] s2 (λ o, match o with Ok _ => Ok tt | Raise e => Raise e end)); [| |done].
      - destruct scan_degraded; [apply wp_degraded|apply wp_ret, appended_nil].
      - intros s3 _. apply wp_bind. eapply wp_mono; [|apply wp_emit_scan].
        intros o s4 [-> H]. by apply wp_ret. }
    eapply wp_mono; [|apply wp_never; [|exact Htail]].
    2:{ apply never_bind; [destruct scan_degraded; [apply never_degraded|apply never_ret]|]. intros _.
        apply never_bind; [apply never_emit|intros _; apply never_ret]. }
    intros o s3 [(E3 & ls3 & L3 & S3 & F3) Hnev3]. split.
    + split; [rewrite E3, E2; apply Hs1|]. left. rewrite E3, E2. apply Hs1.
    + right. split; [|done]. exists d0, completed, (ls2 ++ ls3). unfold dk_db in *. rewrite E3, E2.
      split_and!; [done|done|done|by rewrite L3, L2, Hl1, app_assoc|by apply sublist_app|].
      intros Hio. rewrite <- Hio1 in Hio. destruct (F2 Hio) as (_ & -> & Hio2).
      destruct (F3 Hio2) as (Ho & -> & _). split; [by destruct o|done].
  - intros e s1 HR Ha Ht Hx. split; [|by left]. split; [done|].
    destruct (is_exception e) eqn:Ee; [left; by apply Hx|right; by rewrite (not_exception e Ee)].
Qed.
End Finish.

(** *** Reading the registry *)

Definition moved (s s' : desk) : Prop :=
  resting R s' ∧ R (dk_db s) (dk_db s') ∧ dk_audit s' = dk_audit s.

Lemma moved_trans s1 s2 s3 : moved s1 s2 → moved s2 s3 → moved s1 s3.
Proof. intros (A1 & A2 & A3) (B1 & B2 & B3). split_and!; [done|by trans (dk_db s2)|congruence]. Qed.

Lemma wp_read_rest {A} (f : tower_db → A) Q s :
  resting R s → (∀ s', moved s s' → Q (Ok (f (dk_db s'))) s') → (∀ e s', moved s s' → Q (Raise e) s') →
  wp (at_sql (Sql.read f)) Q s.
Proof.
  intros Hs Hok Hr. apply wp_at_sql, (wp_read R); [apply Hs|..].
  - intros x Hp. pose proof (passed_resting R s x Hs Hp) as Hs'. destruct Hp as [P1 P2 P3 P4].
    assert (Sql.view x = saved x) as -> by (unfold Sql.view; rewrite P3; by destruct Hs as [_ ->]).
    by apply (Hok (set_dk_tower (set_sess x (dk_tower s)) s)).
  - intros e x Hp. pose proof (passed_resting R s x Hs Hp) as Hs'. destruct Hp as [P1 P2 P3 P4]. by apply Hr.
Qed.

Lemma wp_yields {A} (m : M desk A) V Q s :
  yields m V → resting R s → (∀ a s', moved s s' → V a → Q (Ok a) s') → (∀ e s', moved s s' → Q (Raise e) s') →
  wp m Q s.
Proof.
  intros [H1 H2] Hs Hok Hr. specialize (H1 s). specialize (H2 s). unfold wp.
  destruct (m s) as [o s']. cbn in *. destruct H1 as [E1 E2].
  assert (moved s s') as Hm.
  { destruct Hs. split_and!; [split; by rewrite E1|unfold dk_db; by rewrite E1|done]. }
  destruct o as [a|e]; [by apply Hok; [|apply H2]|by apply Hr].
Qed.

Lemma container_ids d :
  tower_wf d → cr_container_id <$> container_rows d = (map_to_list (containers d)).*1.
Proof.
  intros Hwf. unfold container_rows. rewrite <- list_fmap_compose. apply list_fmap_ext.
  intros i [k c] Hi. apply list_elem_of_lookup_2, elem_of_map_to_list in Hi.
  by apply (wf_containers _ Hwf) in Hi.
Qed.

Lemma container_row d c : tower_wf d → c ∈ container_rows d → containers d !! cr_container_id c = Some c.
Proof.
  intros Hwf Hc. apply list_elem_of_fmap in Hc as ([k c'] & -> & Hc). apply elem_of_map_to_list in Hc.
  cbn. by rewrite (wf_containers _ Hwf _ _ Hc).
Qed.

Definition is_up (up : bool) (d : tower_db) (c : string) : Prop :=
  ∃ r, containers d !! c = Some r ∧ cr_active r = up.

Definition active_rows (d : tower_db) : list (string * string * option string) :=
  (λ c, (cr_container_id c, cr_name c, cr_config_user c)) <$>
    merge_sort by_container_id (filter (λ c, cr_active c = true) (container_rows d)).

Lemma active_rows_up d c : tower_wf d → c ∈ (active_rows d).*1.*1 → is_up true d c.
Proof.
  intros Hwf Hc. unfold active_rows in Hc. rewrite <- !list_fmap_compose in Hc.
  apply list_elem_of_fmap in Hc as (r & -> & Hr). rewrite merge_sort_Permutation in Hr.
  apply list_elem_of_filter in Hr as [Ha Hr]. exists r. split; [by apply container_row|done].
Qed.

Lemma active_rows_nodup d (p : string * string * option string → Prop) `{!∀ x, Decision (p x)} :
  tower_wf d → NoDup ((filter p (active_rows d)).*1.*1).
Proof.
  intros Hwf. eapply sublist_NoDup; [|do 2 apply fmap_sublist; apply sublist_filter].
  unfold active_rows. rewrite <- !list_fmap_compose.
  change (NoDup (cr_container_id <$> merge_sort by_container_id (filter (λ c, cr_active c = true) (container_rows d)))).
  rewrite merge_sort_Permutation.
  eapply sublist_NoDup; [|apply fmap_sublist, sublist_filter].
  rewrite container_ids by done. apply NoDup_fst_map_to_list.
Qed.

(** *** The scan as a request *)

Context (ad : TmuxAdapter) `{!SteadyTmux ad} (env_user login : option string).

(** What the scan went by: the containers that were active and asked, the panes that were
    known, and the containers that were inactive, each read on the way to [d0]. *)
Record scan_basis (s : desk) (d0 : tower_db) (cascade : list string) (prior : list (pane_key * PriorPaneRow))
    (st : ScanState) : Prop := mkBasis {
  sb_asked : ∃ d v, R (dk_db s) d ∧ R d d0 ∧ scan_state_ok v st ∧ ∀ c, c ∈ v → is_up true d c;
  sb_cascade : ∃ d, R (dk_db s) d ∧ R d d0 ∧ ∀ c, c ∈ cascade → is_up false d c;
  sb_prior : ∃ d, R (dk_db s) d ∧ R d d0 ∧ prior = prior_of (panes d)
}.

(** A scan that committed. *)
Definition scan_done (scan_id started : string) (s : desk) (ok : bool) (s' : desk) : Prop :=
  ∃ cascade prior st d0 completed ls,
    scan_basis s d0 cascade prior st ∧
    dk_db s' = scanned (scan_writes started cascade prior st) started (final_row scan_id started cascade prior st completed) d0 ∧
    tower_wf (dk_db s') ∧ dk_lines s' = dk_lines s ++ ls ∧
    ls `sublist_of` scan_lines scan_id started cascade prior st d0 ∧
    (events_io (dk_tower s) = [] → ok = true ∧ ls = scan_lines scan_id started cascade prior st d0).

(** Docker was not there: only the row of the scan. *)
Definition scan_failed (s s' : desk) : Prop := ∃ row d0 ls,
  R (dk_db s) d0 ∧ dk_db s' = set_pane_scans (pane_scans d0 ++ [row]) d0 ∧
  ps_error_code row = Some "docker_unavailable"%string ∧ dk_lines s' = dk_lines s ++ ls ∧ (length ls ≤ 1)%nat.

Lemma empty_state_ok : scan_state_ok [] (mkScanState [] [] [] 0 0 []).
Proof. constructor; cbn; [constructor|..]; intros; by apply elem_of_nil in H. Qed.

Lemma inactive_up d cs c (p : string → bool) :
  tower_wf d →
  cs = list_to_set (cr_container_id <$>
    filter (λ c, negb (cr_active c) && has_panes (cr_container_id c) d = true) (container_rows d)) →
  c ∈ filter (λ c, p c = true) (elements (cs : gset string)) → is_up false d c.
Proof.
  intros Hwf -> [_ Hc]%list_elem_of_filter. apply elem_of_elements, elem_of_list_to_set in Hc.
  apply list_elem_of_fmap in Hc as (r & -> & [Ha Hr]%list_elem_of_filter).
  apply andb_true_iff in Ha as [Ha%negb_true_iff _]. exists r. split; [by apply container_row|done].
Qed.

Lemma wp_scan_locked scan_id started filter_id s :
  resting R s → tower_wf (dk_db s) →
  wp (scan_locked ad env_user login uid scan_id started filter_id) (λ out s',
    at_rest_or_dead out s' ∧
    ((is_ok out = false ∧ R (dk_db s) (dk_db s') ∧ dk_audit s' = dk_audit s) ∨
     (scan_done scan_id started s (is_ok out) s' ∧ no_adapter out))) s.
Proof.
  intros Hs Hwf.
  assert (∀ (e : exn) s', moved s s' →
    at_rest_or_dead (A := PaneScanResult) (Raise e) s' ∧
    ((is_ok (A := PaneScanResult) (Raise e) = false ∧ R (dk_db s) (dk_db s') ∧ dk_audit s' = dk_audit s) ∨
     (scan_done scan_id started s false s' ∧ no_adapter (A := PaneScanResult) (Raise e)))) as Hno.
  { intros e s' ([H1 H2] & H3 & H4). split; [split; [done|by left]|by left]. }
  unfold scan_locked. apply wp_bind, wp_read_rest; [done| |by intros; apply Hno].
  intros s1 M1. apply wp_bind, wp_read_rest; [apply M1| |by intros; eapply Hno, moved_trans].
  intros s2 M2. apply wp_bind, wp_read_rest; [apply M2| |by intros; eapply Hno, moved_trans, moved_trans].
  intros s3 M3. pose proof (moved_trans _ _ _ M1 M2) as M12. pose proof (moved_trans _ _ _ M12 M3) as M13.
  assert (tower_wf (dk_db s1)) as Hwf1 by (eapply Rwf; [apply M1|done]).
  assert (tower_wf (dk_db s2)) as Hwf2 by (eapply Rwf; [apply M12|done]).
  apply wp_bind. eapply wp_yields; [apply (yields_containers ad env_user login _ [])| | |].
  - apply empty_state_ok.
  - rewrite app_nil_r. by apply active_rows_nodup.
  - apply M3.
  - intros st s4 M4 (v & Hv & Hsub). pose proof (moved_trans _ _ _ M13 M4) as M14.
    assert (tower_wf (dk_db s4)) as Hwf4 by (eapply Rwf; [apply M14|done]).
    eapply wp_mono; [|apply (wp_finish_scan scan_id started); [apply M4|done]].
    intros out s5 [Hrest Hend]. split; [done|].
    assert (dk_lines s4 = dk_lines s ∧ events_io (dk_tower s4) = events_io (dk_tower s)) as [Hl4 Hio4].
    { destruct M14 as (_ & _ & Ha). unfold dk_audit in Ha. by injection Ha. }
    destruct M1 as (_ & R1 & _), M2 as (_ & R2 & _), M3 as (_ & R3 & _), M4 as (_ & R4 & _),
      M12 as (_ & R12 & _), M13 as (_ & R13 & _), M14 as (_ & R14 & Ha14).
    destruct Hend as [(Ho & HR & Ha)|[(d0 & completed & ls & HR & Hdb & Hw & Hl & Hsl & Hio) Hnev]].
    + left. split_and!; [done|by trans (dk_db s4)|congruence].
    + right. split; [|done]. eexists _, _, st, d0, completed, ls. split; [|rewrite Hl, Hl4; rewrite Hio4 in Hio; by split_and!].
      constructor.
      * exists (dk_db s1), v. split_and!; [done|trans (dk_db s2); [done|]; trans (dk_db s3); [done|]; by trans (dk_db s4)|done|].
        intros c Hc. apply Hsub in Hc as [Hc|Hc]; [|by apply elem_of_nil in Hc].
        apply active_rows_up; [done|]. rewrite <- list_fmap_compose in Hc |- *.
        apply list_elem_of_fmap in Hc as (x & -> & [_ Hx]%list_elem_of_filter). by apply list_elem_of_fmap_2.
      * exists (dk_db s2). split_and!; [done|trans (dk_db s3); [done|]; by trans (dk_db s4)|].
        intros c Hc. by eapply inactive_up.
      * exists (dk_db s3). split_and!; [done|by trans (dk_db s4)|done].
  - intros e s4 M4. eapply Hno, moved_trans; [exact M13|exact M4].
Qed.

Lemma steady_clock : steady clock_now.
Proof. intros s. unfold clock_now. by destruct (dk_clock s) as [t []]. Qed.

Lemma in_insert_scan d row :
  inside dk_sess dk_audit R d (at_sql (insert_pane_scan row))
    (λ _ d', d' = set_pane_scans (pane_scans d ++ [row]) d).
Proof.
  apply in_at_sql. eapply in_mono; [apply in_write|]. intros [] d' E. cbv beta in E. case_match; [done|].
  by injection E as <-.
Qed.

(** The transaction of [_handle_docker_unavailable]: its row, or nothing. *)
Lemma wp_record_failure row s :
  resting R s →
  wp (record_failure row)
     (λ o s', at_rest_or_dead o s' ∧ dk_audit s' = dk_audit s ∧
        ((R (dk_db s) (dk_db s') ∧ o ≠ Ok true) ∨
         (o = Ok true ∧ ∃ d0, R (dk_db s) d0 ∧ dk_db s' = set_pane_scans (pane_scans d0 ++ [row]) d0))) s.
Proof.
  intros [Ht Hx]. apply wp_bind, wp_at_sql, (wp_sql_begin R); [done|done| |].
  2:{ intros e x [P1 P2 P3 P4]. split; [split; [done|left; unfold dk_sess; cbn; congruence]|]. split; [done|].
      left. by split. }
  intros x1 H1 Htx1 Ht1. set (s1 := set_dk_tower _ s).
  assert (∀ e s2, dk_db s2 = saved x1 → tx (dk_sess s2) ≠ None → tame R (dk_sess s2) → dk_audit s2 = dk_audit s →
    if is_exception e
    then wp (_ ← at_sql Sql.rollback; mret false) (λ o s', at_rest_or_dead o s' ∧ dk_audit s' = dk_audit s ∧
        ((R (dk_db s) (dk_db s') ∧ o ≠ Ok true) ∨
         (o = Ok true ∧ ∃ d0, R (dk_db s) d0 ∧ dk_db s' = set_pane_scans (pane_scans d0 ++ [row]) d0))) s2
    else at_rest_or_dead (A := bool) (Raise e) s2 ∧ dk_audit s2 = dk_audit s ∧
        ((R (dk_db s) (dk_db s2) ∧ @Raise bool e ≠ Ok true) ∨
         (@Raise bool e = Ok true ∧ ∃ d0, R (dk_db s) d0 ∧ dk_db s2 = set_pane_scans (pane_scans d0 ++ [row]) d0))) as Hback.
  { intros e s2 E2 Hn2 T2 A2. destruct (is_exception e) eqn:Ee.
    - apply wp_bind, wp_at_sql. destruct (tx (dk_sess s2)) as [d2|] eqn:Et2; [|done].
      unfold wp, Sql.rollback. rewrite Et2. cbn. split; [split; [done|by left]|]. split; [done|]. left.
      split; [|done]. unfold dk_db, dk_sess in *. cbn. by rewrite E2.
    - split; [split; [done|right; by rewrite (not_exception e Ee)]|]. split; [done|]. left.
      split; [by rewrite E2|done]. }
  apply wp_except, wp_bind. eapply wp_mono; [|by apply (in_insert_scan (saved x1) row s1)].
  intros o s2 (E2 & T2 & A2 & d2 & Ed2 & HI). destruct o as [[]|e].
  2:{ apply Hback; [exact E2|by rewrite Ed2|done|exact A2]. }
  specialize (HI tt eq_refl) as ->.
  apply wp_bind, wp_at_sql. eapply (wp_sql_commit R); [done|done|..].
  - intros x3 G1 G2 G3. apply wp_ret. split; [split; [done|by left]|]. split; [exact A2|]. right. split; [done|].
    exists (saved x1). split; [done|]. unfold dk_db, dk_sess. cbn. done.
  - intros e x3 [P1 P2 P3 P4]. apply Hback; [|by cbn; rewrite P3, Ed2|done|exact A2].
    unfold dk_db, dk_sess. cbn. rewrite P4 by (by rewrite Ed2). exact E2.
Qed.

Definition scan_end (s : desk) (out : outcome PaneScanResult) (s' : desk) : Prop :=
  at_rest_or_dead out s' ∧
  ((is_ok out = false ∧ R (dk_db s) (dk_db s') ∧ dk_lines s' = dk_lines s) ∨
   (is_ok out = false ∧ scan_failed s s') ∨
   ∃ scan_id started, scan_done scan_id started s (is_ok out) s').

Lemma wp_handle_unavailable scan_id started message s :
  resting R s →
  wp (handle_docker_unavailable scan_id started message) (λ o s', at_rest_or_dead o s' ∧
    ((R (dk_db s) (dk_db s') ∧ dk_lines s' = dk_lines s) ∨ scan_failed s s')) s.
Proof.
  intros Hs. unfold handle_docker_unavailable.
  apply wp_bind. eapply (wp_yields _ (λ _, True)); [apply yields_steady, steady_clock|done| |].
  2:{ intros e s1 ([H1 H2] & H3 & H4). split; [split; [done|by left]|]. left. split; [done|].
      unfold dk_audit in H4. by injection H4. }
  intros completed s1 (Hs1 & R1 & A1) _. cbv zeta. set (row := mkPaneScan _ _ _ _ _ _ _ _ _ _ _ _ _ _).
  apply wp_bind. eapply wp_mono; [|by apply (wp_record_failure row)]. intros o s3 (H1 & H2 & H3).
  assert (dk_lines s3 = dk_lines s) as Hl3 by (unfold dk_audit, dk_lines in *; congruence).
  destruct H3 as [[HR Hne]|(-> & d0 & HR & Hdb)].
  - assert (R (dk_db s) (dk_db s3)) as HR3 by (by trans (dk_db s1)).
    destruct H1 as [T3 X3]. destruct o as [[]|e]; [done|apply wp_ret|]; (split; [|by left]); (split; [done|]).
    + by destruct X3 as [?|?]; [left|].
    + destruct X3 as [?|[= ->]]; [by left|by right].
  - eapply wp_mono; [|eapply (wp_then _ _ _ [] s3 (λ o, o)); [apply wp_degraded| |done]].
    2:{ intros s4 _. eapply wp_mono; [|apply wp_emit_scan]. by intros o s5 [_ ?]. }
    intros o s4 (E4 & ls & L4 & S4 & _). destruct H1 as [T3 [X3|?]]; [|done].
    split; [split; [by rewrite E4|left; by rewrite E4]|]. right. exists row, d0, ls.
    unfold dk_db in *. rewrite E4. split_and!; [by trans (saved (dk_sess s1))|done|done|by rewrite L4, Hl3|].
    by apply sublist_length in S4.
Qed.

Lemma wp_scan_for filter_id s :
  resting R s → tower_wf (dk_db s) →
  wp (scan_for_container ad env_user login uid filter_id) (scan_end s) s.
Proof.
  intros Hs Hwf. unfold scan_for_container.
  apply wp_bind. eapply (wp_yields _ (λ _, True)); [by apply yields_steady|done| |].
  2:{ intros e s1 ([H1 H2] & H3 & H4). split; [split; [done|by left]|]. left. split_and!; [done..|].
      unfold dk_audit in H4. by injection H4. }
  intros scan_id s1 M1 _. apply wp_bind.
  eapply (wp_yields _ (λ _, True)); [apply yields_steady, steady_clock|apply M1| |].
  2:{ intros e s2 M2. destruct (moved_trans _ _ _ M1 M2) as ([H1 H2] & H3 & H4).
      split; [split; [done|by left]|]. left. split_and!; [done..|]. unfold dk_audit in H4. by injection H4. }
  intros started s2 M2 _. pose proof (moved_trans _ _ _ M1 M2) as M12.
  apply wp_bind. eapply wp_mono; [|apply wp_emit_scan].
  intros o s3 [-> (E3 & ls & L3 & S3 & F3)]. apply sublist_nil_r in S3 as ->. rewrite app_nil_r in L3.
  assert (resting R s3) as Hs3 by (destruct M12 as ([? ?] & _ & _); split; by rewrite E3).
  assert (R (dk_db s) (dk_db s3)) as R3 by (unfold dk_db in *; rewrite E3; apply M12).
  assert (dk_lines s2 = dk_lines s ∧ events_io (dk_tower s2) = events_io (dk_tower s)) as [Hl2 Hio2].
  { destruct M12 as (_ & _ & Ha). unfold dk_audit in Ha. by injection Ha. }
  assert (tower_wf (dk_db s3)) as Hwf3 by (by eapply Rwf).
  apply wp_catch. eapply wp_mono; [|apply (wp_scan_locked scan_id started filter_id s3); done].
  intros out s4 [Hrest Hend].
  assert (∀ ok, scan_done scan_id started s3 ok s4 → ∃ i t, scan_done i t s ok s4) as Hdone.
  { intros ok (cascade & prior & st & d0 & completed & ls & [(da & v & A1 & A2 & A3) (db & B1 & B2) (dc & C1 & C2)] & H).
    exists scan_id, started, cascade, prior, st, d0, completed, ls. rewrite L3, Hl2 in H.
    destruct H as (H1 & H2 & H3 & H4 & H5). split_and!; [|done..|].
    - constructor; [exists da, v|exists db|exists dc]; (split; [by trans (dk_db s3)|done]).
    - intros Hio. rewrite <- Hio2 in Hio. destruct (F3 Hio) as (_ & _ & Hio3). by apply H5. }
  destruct out as [res|e]; cbv beta iota.
  { split; [done|]. destruct Hend as [(? & _)|[H _]]; [done|]. right. right. by apply Hdone. }
  assert (scan_end s (Raise e) s4) as Hkeep.
  { split; [done|]. destruct Hend as [(_ & HR & Ha)|[H _]]; [|right; right; by apply Hdone].
    left. split_and!; [done|by trans (dk_db s3)|].
    assert (dk_lines s4 = dk_lines s3) as -> by (unfold dk_audit in Ha; by injection Ha). congruence. }
  destruct e as [| | | | | | | |code message| |]; try (by apply wp_throw).
  destruct Hend as [(_ & HR4 & Ha4)|[_ Hnev]]; [|by destruct (Hnev code message)].
  apply wp_bind. destruct (bool_decide (code = _)); [|by apply wp_ret, wp_throw].
  destruct Hrest as [T4 [X4|?]]; [|done].
  assert (dk_lines s4 = dk_lines s) as Hl4 by (unfold dk_audit, dk_lines in *; congruence).
  assert (R (dk_db s) (dk_db s4)) as R4 by (by trans (dk_db s3)).
  eapply wp_mono; [|by apply wp_handle_unavailable].
  intros o s5 [[T5 X5] Hend5].
  assert (∀ e, (o = Raise SystemExit → e = SystemExit) → scan_end s (Raise e) s5) as Hfin.
  { intros e He. split; [split; [done|destruct X5 as [?|Hx]; [by left|right; by rewrite He]]|].
    destruct Hend5 as [[HR5 Hl5]|(row & d0 & ls & H1 & H2 & H3 & H4 & H5)].
    - left. split_and!; [done|by trans (dk_db s4)|congruence].
    - right. left. split; [done|]. exists row, d0, ls. split_and!; [by trans (dk_db s4)|done|done|congruence|done]. }
  destruct o as [[]|e]; [apply wp_throw|]; apply Hfin; [done|]. by intros [= ->].
Qed.
End Whole.
