(* ===== verification/PaneClaims.v ===== *)
(** What a scan of the panes guarantees, and a small installation on which it runs. *)

From S2P Require Import Prelude Errors Agents Permissions Store AuditWriter Json Session Tables LogDao Tower RegistryDao Validation Desk AgentsService PipePane TmuxAdapter PaneReconcile PaneService TowerInvariant InTx RegistrySpec AgentsServiceSpec AgentsClaims LogPaths LogService LogServiceSpec LogClaims PaneScanSpec.
From Stdlib Require Import Ascii.

Local Open Scope Z_scope.

(** ** Exactness *)

Section Exactness.
Context (results : list (string * string * SocketScanOutcome)) (unavailable cascade : list string)
  (meta : list (string * ContainerMeta)) (now : string).
Context (Hin : scan_inputs results unavailable cascade).

Abbreviation state_seen := (seen_state results unavailable cascade meta now).

(** The panes that were active and, by what the scan saw, are not. *)
Definition lost (m : gmap pane_key PaneRec) (k : pane_key) : bool :=
  was_on m k && negb (state_seen k (was_on m k)).

Lemma inactivated_lost m k :
  bool_decide (k ∈ pw_inactivate (reconcile_panes (prior_of m) results unavailable cascade meta now)) = lost m k.
Proof.
  pose proof (fate results unavailable cascade meta now Hin m k) as Hf. cbv zeta in Hf.
  set (ws := reconcile_panes _ _ _ _ _ _) in *. unfold lost. rewrite Hf.
  destruct (bool_decide (k ∈ pw_inactivate ws)) eqn:Ei.
  - apply bool_decide_eq_true in Ei. rewrite (bool_decide_eq_false_2 (k ∈ pu_key <$> _)).
    2:{ intros Hu. by apply (upsert_not_inactivated results unavailable cascade meta now Hin m k Hu). }
    apply inactivate_keys in Ei as [Hb%was_active_prior _]. by rewrite Hb.
  - destruct (bool_decide (k ∈ pu_key <$> pw_upserts ws)), (was_on m k); done.
Qed.

(** A scan leaves the panes as it saw them, and takes down with the lost ones the agents and
    the log attachments that are bound to them. *)
Record mirrors (m : gmap pane_key PaneRec) (d0 d' : tower_db) : Prop := mkMirrors {
  mi_panes k : match panes d' !! k with
               | Some p => pr_active p = state_seen k (was_on m k)
               | None => m !! k = None ∧ state_seen k false = false
               end;
  mi_agents : (λ a, (identity a, role a, active a)) <$> agents d' =
              (λ a, (identity a, role a, active a && negb (lost m (agent_composite_key a)))) <$> agents d0;
  mi_logs : log_attachments d' =
            map_where (λ r, lost m (attachment_composite_key r) && bool_decide (is_active r)) (stale_of now)
              (log_attachments d0)
}.

Lemma scanned_mirrors d0 row :
  tower_wf d0 →
  mirrors (panes d0) d0
    (scanned (reconcile_panes (prior_of (panes d0)) results unavailable cascade meta now) now row d0).
Proof.
  intros Hwf. set (ws := reconcile_panes _ _ _ _ _ _).
  assert (∀ k, bool_decide (k ∈ pw_inactivate ws) = lost (panes d0) k) as Hl by (intros; apply inactivated_lost).
  constructor.
  - intros k. pose proof (reconcile_exact results unavailable cascade meta now Hin (panes d0) k (wf_panes _ Hwf)) as H.
    cbv zeta in H. fold ws in H. change (panes (scanned ws now row d0)) with (apply_writes ws now (panes d0)).
    destruct (apply_writes ws now (panes d0) !! k); [apply H|exact H].
  - change (agents (scanned ws now row d0)) with
      (map_where (bound_to (pw_inactivate ws)) deactivated
         (map_where (bound_to (pu_key <$> pw_upserts ws)) (seen_at now) (agents d0))).
    unfold map_where. rewrite <- !list_fmap_compose. apply list_fmap_ext. intros i a _. cbn [compose].
    clearbody ws. unfold compose. rewrite <- Hl. set (b := if bound_to (pu_key <$> pw_upserts ws) a then seen_at now a else a).
    assert (identity b = identity a ∧ role b = role a ∧ active b = active a ∧
      agent_composite_key b = agent_composite_key a) as (E1 & E2 & E3 & E4)
      by (unfold b; by destruct (bound_to _ a)).
    change (bound_to (pw_inactivate ws) b) with (bool_decide (agent_composite_key b ∈ pw_inactivate ws)).
    rewrite E4. destruct (bool_decide (agent_composite_key a ∈ pw_inactivate ws)); cbn [negb].
    + rewrite andb_false_r. change (identity (deactivated b)) with (identity b).
      change (role (deactivated b)) with (role b). by rewrite E1, E2.
    + by rewrite andb_true_r, E1, E2, E3.
  - apply map_where_ext. intros r _. rewrite <- Hl. unfold bound_active. apply bool_decide_and.
Qed.
End Exactness.

Section Claims.
Context (R : relation tower_db) `{!PreOrder R} (ad : TmuxAdapter) `{!SteadyTmux ad}
  (env_user login : option string) (uid : Z).

(** C19: a scan of the panes, under any failures of the database, of docker and tmux, of the
    audit file, any other writers, and a crash anywhere, either fails and commits nothing, or
    leaves only a scan row saying that docker was not there, or commits in one step the panes
    by the write set of what it asked, the agents and log attachments bound to them, and its
    own row; one line for every attachment that became stale and one for a degraded scan
    follow, all of them when the file takes them. *)
Theorem pane_scan_is_atomic filter_id s :
  (∀ d d', R d d' → tower_wf d → tower_wf d') → resting R s → tower_wf (dk_db s) →
  wp (scan_for_container ad env_user login uid filter_id) (scan_end R uid s) s.
Proof. intros Rwf. by apply wp_scan_for. Qed.

End Claims.

(** ** A small installation *)

Definition live_socket : string := "/tmp/tmux-1000/default".
Definition live_key (pane : Z) (id : string) : pane_key := ("c1"%string, live_socket, "main"%string, 0, pane, id).
Definition live_agent (id : string) (pane : Z) (pid : string) : AgentRecord :=
  mkAgent id "c1" live_socket "main" 0 pane pid "slave" "claude" EmptyString EmptyString None "{}" "t0" "t0" None true.
Definition live_db : tower_db :=
  let a := live_agent "agt_aaaaaaaaaaaa" 0 "%0" in
  mkTowerDb {[ "c1"%string := bench_container ]} []
    {[ live_key 0 "%0" := demo_pane (live_key 0 "%0"); live_key 1 "%1" := demo_pane (live_key 1 "%1") ]} []
    [a; live_agent "agt_bbbbbbbbbbbb" 1 "%1"]
    [new_attachment a "lat_1" "/work/A" "explicit" "cmd" "t0" None] ∅ [] 0.

Definition says (out : string) : option DockerExecResult := Some (mkExec 0 out EmptyString None).
Definition live_desk (answers : list (option DockerExecResult)) : desk :=
  mkDesk (mkTower (mkSession live_db None [] []) ∅ [] [] [] [] true [] (mkSuppression ∅ ∅ ∅ ∅))
    ("t1", ["t2"; "t3"])%string ["scan1"%string] answers [] (mkFs (λ p, Ok p) (λ _, true) (λ _, true)) [].

Definition pane_text (pane id title : string) : string :=
  join_with (String tab EmptyString)
    ["main"; "0"; pane; id; "7"; "/dev/pts/0"; "bash"; "/work"; title; "1"]%string +:+ String "010"%char EmptyString.

Definition scan_with (answers : list (option DockerExecResult)) : outcome PaneScanResult * desk :=
  scan_panes (subprocess_tmux (Some "docker"%string) (λ s, s)) (Some "dev"%string) None 1000 (live_desk answers).

(** Which panes, agents and attachments are left, and how the scan ended. *)
Definition left_by (r : outcome PaneScanResult * desk) : list bool * list bool * list string * nat :=
  (pr_active <$> (map_to_list (panes (dk_db r.2))).*2, active <$> agents (dk_db r.2),
   la_status <$> log_attachments (dk_db r.2), length (dk_lines r.2)).

Example scan_finds_a_lost_pane :
  left_by (scan_with [says "1000"; says "default"; says (pane_text "1" "%1" "x")]) =
    ([false; true], [false; true], ["stale"%string], 1%nat).
Proof. vm_compute. done. Qed.

(** When docker cannot reach the container, nothing is known and nothing changes. *)
Example scan_keeps_what_it_cannot_see :
  left_by (scan_with [Some (mkExec 1 EmptyString "no" None)]) =
    ([true; true], [true; true], ["active"%string], 1%nat).
Proof. vm_compute. done. Qed.

(** An empty socket directory, which is an answer, leaves the panes, the agents and the
    attachments as they were. *)
Example empty_socket_directory_keeps_panes :
  left_by (scan_with [says "1000"; says EmptyString]) = ([true; true], [true; true], ["active"%string], 0%nat).
Proof. vm_compute. done. Qed.

(** A title with a line separator splits its row, which then cannot be read: the pane is
    taken for gone, with its agent and its attachment, while its neighbour can be read. *)
Example unreadable_row_takes_its_pane_down :
  let title := ("a" +:+ String "226"%char (String "128"%char (String "168"%char EmptyString)) +:+ "b")%string in
  left_by (scan_with [says "1000"; says "default"; says (pane_text "0" "%0" title +:+ pane_text "1" "%1" "x")]) =
    ([false; true], [false; true], ["stale"%string], 2%nat).
Proof. vm_compute. done. Qed.

Lemma live_resting R answers : resting R (live_desk answers).
Proof. split; [constructor|done]. Qed.
Lemma live_wf : tower_wf live_db.
Proof.
  constructor; try apply map_Forall_empty; try (by repeat constructor).
  - by apply map_Forall_singleton.
  - apply map_Forall_insert_2; [done|]. by apply map_Forall_singleton.
Qed.

Lemma pane_scan_is_atomic_witness :
  let ad := subprocess_tmux (Some "docker"%string) (λ s, s) in
  let s := live_desk [says "1000"; says "default"; says (pane_text "1" "%1" "x")] in
  is_ok (scan_for_container ad (Some "dev"%string) None 1000 None s).1 = true ∧
  wp (scan_for_container ad (Some "dev"%string) None 1000 None) (scan_end eq 1000 s) s.
Proof.
  intros ad s. split; [vm_compute; reflexivity|].
  apply (pane_scan_is_atomic eq ad); [by intros ? ? ->|apply live_resting|apply live_wf].
Defined.

