(* ===== verification/DockerAdapter.v ===== *)
(** What the daemon asks of docker: the parsers of [docker ps] and [docker inspect]
    (src/src/agenttower/docker/parsers.py), the adapter that runs them
    (docker/adapter.py, docker/subprocess_adapter.py), and the rule for the names of bench
    containers (discovery/matching.py, config.py).

    [DockerError] is [AdapterError] with its code and message.  Parameters: Python's [repr]
    of texts and of nested values, the conversion of texts to floats, the message of a
    [JSONDecodeError], and the docker binary that [shutil.which] finds. *)

From S2P Require Import Prelude Errors Agents Store Json JsonParse Session Tables LogDao Tower RegistryDao Validation Desk PipePane TmuxAdapter.
From Stdlib Require Import Ascii.

Local Open Scope Z_scope.

(** ** Data *)

Record ContainerSummary := mkSummary {
  su_container_id : string; su_name : string; su_image : string; su_status : string
}.

Record InspectResult := mkInspect {
  in_container_id : string; in_name : string; in_image : string; in_status : string;
  in_labels : list (string * string); in_mounts : list Mount; in_config_user : option string;
  in_working_dir : option string; in_env_keys : list string; in_inspect_blob : list (string * json)
}.

Record PerContainerError := mkPerContainer { pc_container_id : string; pc_code : string; pc_message : string }.
#[export] Instance PerContainerError_eq_dec : EqDecision PerContainerError.
Proof. solve_decision. Defined.

Definition ENV_ALLOWLIST : list string := ["USER"; "HOME"; "WORKDIR"; "TMUX"]%string.

(** [_bound] of docker/parsers.py and docker/subprocess_adapter.py *)
Definition docker_bound (t : string) : string :=
  take_chars (Z.to_nat 2048) (string_filter (λ c, tab_or_newline c || Nat.leb 32 (nat_of_ascii c)) t).

Definition DockerError {A} (code message : string) : outcome A := Raise (AdapterError code message).
Definition malformed {A} (message : string) : outcome A := DockerError "docker_malformed" (docker_bound message).

(** [bool(v)] *)
Definition py_bool (v : json) : bool :=
  match v with
  | JNull => false
  | JBool b => b
  | JInt z => negb (z =? 0)
  | JFloat repr _ => negb (bool_decide (repr = "0.0"%string) || bool_decide (repr = "-0.0"%string))
  | JStr s => negb (bool_decide (s = EmptyString))
  | JArr l => match l with [] => false | _ => true end
  | JObj o => match o with [] => false | _ => true end
  end.

(** [v or None] *)
Definition or_none (v : option json) : option json :=
  match v with Some j => if py_bool j then Some j else None | None => None end.

(** [v if isinstance(v, dict) else {}] *)
Definition dict_or_empty (v : option json) : list (string * json) :=
  match v with Some (JObj o) => o | _ => [] end.

(** ** Parsers *)

Section Parsers.
Variable repr : string → string.
Variable repr_of : json → string.
Variable to_float : string → string * option Z.
Variable decode_message : string → string.

Abbreviation str := (py_str repr_of).

Definition names_of (id image status : string) (names_field : string) : list ContainerSummary :=
  (λ n, mkSummary id n image status) <$>
    filter (λ n, n ≠ EmptyString) ((λ n, lstrip_char "/"%char (strip n)) <$> Text.split ","%char names_field).

Definition parse_ps_row (line : string) : outcome (list ContainerSummary) :=
  let parts := Text.split tab line in
  match parts with
  | [container_id; names_field; image; status] =>
      if bool_decide (container_id = EmptyString)
      then malformed ("docker ps row has empty id: " +:+ repr line)
      else Ok (names_of container_id image status names_field)
  | _ => malformed ("docker ps row has " +:+ print_int (Z.of_nat (length parts)) +:+
                    " fields, expected 4: " +:+ repr line)
  end.

Fixpoint parse_ps_rows (lines : list string) : outcome (list ContainerSummary) :=
  match lines with
  | [] => Ok []
  | raw :: rest =>
      let line := rstrip_char carriage_return (lstrip_char carriage_return raw) in
      if bool_decide (line = EmptyString) then parse_ps_rows rest
      else obind (parse_ps_row line) (λ here, obind (parse_ps_rows rest) (λ there, Ok (here ++ there)))
  end.

Definition parse_docker_ps_lines (text : string) : outcome (list ContainerSummary) :=
  parse_ps_rows (splitlines text).

(** [_coerce_labels] *)
Definition coerce_labels (raw : option json) : outcome (list (string * string)) :=
  match raw with
  | None | Some JNull => Ok []
  | Some (JObj o) => Ok ((λ kv, (kv.1, str kv.2)) <$> o)
  | Some _ => malformed "inspect Labels is not an object"
  end.

Definition get_str (k : string) (o : list (string * json)) : string :=
  match json_get k o with Some v => str v | None => EmptyString end.

Definition mount_of (o : list (string * json)) : Mount :=
  mkMount (get_str "Source" o)
    (match json_get "Destination" o with Some v => str v | None => get_str "Target" o end)
    (get_str "Type" o) (get_str "Mode" o)
    (match json_get "RW" o with Some v => py_bool v | None => false end).

Fixpoint coerce_items (l : list json) : outcome (list Mount) :=
  match l with
  | [] => Ok []
  | JObj o :: rest => obind (coerce_items rest) (λ ms, Ok (mount_of o :: ms))
  | _ :: _ => malformed "inspect Mounts entry is not an object"
  end.

(** [_coerce_mounts] *)
Definition coerce_mounts (raw : option json) : outcome (list Mount) :=
  match raw with
  | None | Some JNull => Ok []
  | Some (JArr l) => coerce_items l
  | Some _ => malformed "inspect Mounts is not a list"
  end.

(** [_filter_env_keys] *)
Definition env_key (entry : json) : option string :=
  match entry with
  | JStr s =>
      match Text.split "="%char s with
      | key :: _ :: _ => if bool_decide (key ∈ ENV_ALLOWLIST) then Some key else None
      | _ => None
      end
  | _ => None
  end.
Definition filter_env_keys (env : option json) : list string :=
  match env with Some (JArr l) => omap env_key l | _ => [] end.

(** [str(blob.get("Id") or blob.get("ID") or "")] *)
Definition entry_id (o : list (string * json)) : string :=
  match or_none (json_get "Id" o) with
  | Some v => str v
  | None => match or_none (json_get "ID" o) with Some v => str v | None => EmptyString end
  end.

Definition opt_json (o : option string) : json := match o with Some s => JStr s | None => JNull end.

(** [_normalize_one] *)
Definition normalize_one (entry : json) : outcome InspectResult :=
  match entry with
  | JObj blob =>
      let container_id := entry_id blob in
      if bool_decide (container_id = EmptyString) then malformed "inspect entry missing Id"
      else
        let name := lstrip_char "/"%char
          (match json_get "Name" blob with None | Some JNull => EmptyString | Some v => str v end) in
        let config := dict_or_empty (json_get "Config" blob) in
        let state := dict_or_empty (json_get "State" blob) in
        let image := get_str "Image" config in
        obind (coerce_labels (json_get "Labels" config)) (λ labels,
        obind (coerce_mounts (json_get "Mounts" blob)) (λ mounts,
          let config_user := str <$> or_none (json_get "User" config) in
          let working_dir := str <$> or_none (json_get "WorkingDir" config) in
          let status := get_str "Status" state in
          let env_keys := filter_env_keys (json_get "Env" config) in
          Ok (mkInspect container_id name image status labels mounts config_user working_dir env_keys
                [("config_user"%string, opt_json config_user); ("working_dir"%string, opt_json working_dir);
                 ("env_keys"%string, JArr (JStr <$> env_keys)); ("full_status"%string, JStr status)])))
  | _ => malformed "inspect entry is not an object"
  end.

(** The id a malformed entry is reported under. *)
Definition failed_id (entry : json) : string :=
  match entry with JObj o => entry_id o | _ => EmptyString end.

Fixpoint normalize_all (entries : list json) (successes : list (string * InspectResult))
    (failures : list PerContainerError) : outcome (list (string * InspectResult) * list PerContainerError) :=
  match entries with
  | [] => Ok (successes, failures)
  | e :: rest =>
      match normalize_one e with
      | Ok r => normalize_all rest (put (in_container_id r) r successes) failures
      | Raise (AdapterError code message) =>
          normalize_all rest successes (failures ++ [mkPerContainer (failed_id e) code message])
      | Raise x => Raise x
      end
  end.

(** The ids that were asked for and are neither among the successes nor the failures. *)
Fixpoint add_omitted (requested : list string) (successes : list (string * InspectResult))
    (failures : list PerContainerError) : list PerContainerError :=
  match requested with
  | [] => failures
  | id :: rest =>
      if bool_decide (id ∈ successes.*1) || bool_decide (id ∈ pc_container_id <$> failures)
      then add_omitted rest successes failures
      else add_omitted rest successes
             (failures ++ [mkPerContainer id "docker_malformed"
                             (docker_bound ("docker inspect omitted requested id " +:+ repr id))])
  end.

Definition parse_docker_inspect_array (blob : string) (requested_ids : list string)
  : outcome (list (string * InspectResult) * list PerContainerError) :=
  match loads to_float blob with
  | Raise e =>
      if bool_decide (e = JSONDecodeError)
      then malformed ("docker inspect output is not JSON: " +:+ decode_message blob)
      else Raise e
  | Ok (JArr entries) =>
      obind (normalize_all entries [] []) (λ x, Ok (x.1, add_omitted requested_ids x.1 x.2))
  | Ok _ => malformed "docker inspect output is not a JSON array"
  end.

(** ** The adapter *)

Record DockerAdapter := mkDockerAdapter {
  list_running : M desk (list ContainerSummary);
  inspect : list string → M desk (list (string * InspectResult) * list PerContainerError)
}.

Variable docker_binary : option string.

Definition PERMISSION_PATTERNS : list string :=
  ["permission denied"; "Got permission denied"; "dial unix /var/run/docker.sock: connect: permission denied"]%string.

Definition classify_failure (stderr : string) : string :=
  if existsb (λ p, Text.contains (Text.lower p) (Text.lower stderr)) PERMISSION_PATTERNS
  then "docker_permission_denied" else "docker_failed".

(** [_argv] and [_run] *)
Definition run_docker (args : list string) : M desk DockerExecResult :=
  match docker_binary with
  | None => throw (AdapterError "docker_unavailable" "docker binary not found on PATH")
  | Some bin =>
      r ← docker_run (bin :: args);
      match failure_kind r with
      | None => mret r
      | Some k =>
          if bool_decide (k = "docker_exec_timeout"%string)
          then throw (AdapterError "docker_timeout"
                 (docker_bound ("docker " +:+ default EmptyString (head args) +:+ " exceeded 5.0s")))
          else throw (AdapterError "docker_unavailable"
                 (docker_bound ("docker binary not executable: " +:+ stderr r)))
      end
  end.

Definition PS_FORMAT : string :=
  join_with (String tab EmptyString) ["{{.ID}}"; "{{.Names}}"; "{{.Image}}"; "{{.Status}}"]%string.

Definition exited (what : string) (r : DockerExecResult) : exn :=
  AdapterError (classify_failure (stderr r))
    (docker_bound (what +:+ " exited " +:+ print_int (returncode r) +:+ ": " +:+ strip (stderr r))).

Definition sub_list_running : M desk (list ContainerSummary) :=
  r ← run_docker ["ps"; "--no-trunc"; "--format"; PS_FORMAT]%string;
  if returncode r =? 0 then ofail (parse_docker_ps_lines (stdout r)) else throw (exited "docker ps" r).

(** [completed.stdout or "[]"] *)
Definition array_text (out : string) : string := if bool_decide (out = EmptyString) then "[]" else out.

Definition sub_inspect (ids : list string) : M desk (list (string * InspectResult) * list PerContainerError) :=
  match ids with
  | [] => mret ([], [])
  | _ =>
      r ← run_docker ("inspect"%string :: ids);
      let parsed := parse_docker_inspect_array (array_text (stdout r)) ids in
      if returncode r =? 0 then ofail parsed
      else
        match parsed with
        | Ok (_, []) => throw (exited "docker inspect" r)
        | Ok x => mret x
        | Raise (AdapterError _ _) => throw (exited "docker inspect" r)
        | Raise e => throw e
        end
  end.

Definition subprocess_docker : DockerAdapter := mkDockerAdapter sub_list_running sub_inspect.
End Parsers.

(** ** The rule for names *)

Section Rule.
(** [str.casefold] *)
Variable casefold : string → string.

Record MatchingRule := mkRule { name_contains : list string }.

Definition rule_matches (rule : MatchingRule) (name : string) : bool :=
  existsb (λ needle, negb (bool_decide (needle = EmptyString)) &&
                     Text.contains (casefold needle) (casefold name)) (name_contains rule).

Definition default_rule : MatchingRule := mkRule ["bench"%string].
End Rule.
