(* ===== verification/ContainerDiscovery.v ===== *)
(** One scan of the containers (src/src/agenttower/discovery/service.py, reconcile.py), and
    the rule of the configuration file it goes by (config.py).

    The scan asks docker which containers run and inspects those whose name matches, reads
    the known containers, and commits the difference in one transaction.  A failure of docker
    or of the configuration commits only the row of the scan.  The mutex of the service has
    no state; its connection is the one of the session. *)

From S2P Require Import Prelude Errors Agents Store AuditWriter Json JsonParse Session Tables LogDao Tower RegistryDao Validation Desk AgentsService PipePane TmuxAdapter PaneReconcile PaneService DockerAdapter.
From Stdlib Require Import Ascii.

Local Open Scope Z_scope.

(** ** The rule of the configuration *)

Definition MAX_NAME_CONTAINS_ENTRIES : nat := 32.
Definition MAX_NAME_CONTAINS_LENGTH : nat := 128.

(** [type(v).__name__] of a TOML value that is not a date. *)
Definition type_name (v : json) : string :=
  match v with
  | JNull => "NoneType" | JBool _ => "bool" | JInt _ => "int" | JFloat _ _ => "float"
  | JStr _ => "str" | JArr _ => "list" | JObj _ => "dict"
  end.

Section Config.
Variable repr : string → string.
Variable repr_of : json → string.

(** Python's [repr] of a value. *)
Definition repr_value (v : json) : string :=
  match v with JStr s => repr s | _ => py_str repr_of v end.

Definition entry_label (i : nat) : string := "[containers] name_contains[" +:+ print_int (Z.of_nat i) +:+ "]".

Fixpoint clean_entries (i : nat) (raw : list json) : list string + string :=
  match raw with
  | [] => inl []
  | JStr entry :: rest =>
      if bool_decide (MAX_NAME_CONTAINS_LENGTH < char_count entry)%nat then
        inr (bound_text (entry_label i +:+ " is " +:+ print_int (Z.of_nat (char_count entry)) +:+
               " chars; max is 128; value=" +:+ repr entry))
      else
        let stripped := strip entry in
        if bool_decide (stripped = EmptyString) then
          inr (bound_text (entry_label i +:+ " is blank after strip(); originally " +:+ repr entry))
        else match clean_entries (S i) rest with
             | inl l => inl (stripped :: l)
             | inr m => inr m
             end
  | v :: _ =>
      inr (bound_text (entry_label i +:+ " must be a string; got " +:+ repr_value v +:+
             " (" +:+ type_name v +:+ ")"))
  end.

(** [load_containers_block]: of a missing file, of one that cannot be read with the message
    about it, or of its tables.  The right of the result is a [ConfigInvalidError]. *)
Definition load_containers_block (file : option (list (string * json) + string)) : MatchingRule + string :=
  match file with
  | None => inl default_rule
  | Some (inr message) => inr (bound_text message)
  | Some (inl data) =>
      match json_get "containers" data with
      | None => inl default_rule
      | Some (JObj block) =>
          match json_get "name_contains" block with
          | None => inl default_rule
          | Some (JArr raw) =>
              if bool_decide (raw = []) then
                inr "[containers] name_contains must be a non-empty list of non-empty strings; got []"%string
              else if bool_decide (MAX_NAME_CONTAINS_ENTRIES < length raw)%nat then
                inr (bound_text ("[containers] name_contains has " +:+ print_int (Z.of_nat (length raw)) +:+
                       " entries; max is 32"))
              else match clean_entries 0 raw with inl l => inl (mkRule l) | inr m => inr m end
          | Some v => inr (bound_text ("[containers] name_contains must be a list of strings; got " +:+
                             repr_value v +:+ " (" +:+ type_name v +:+ ")"))
          end
      | Some v => inr (bound_text ("[containers] must be a TOML table; got " +:+ type_name v))
      end
  end.
End Config.

(** ** Reconciliation *)

Record ReconcileWriteSet := mkWrites {
  rw_upserts : list ContainerRec; rw_touch_only : list string; rw_inactivate : list string;
  rw_matched_count : nat; rw_inactive_reconciled_count : nat
}.

(** [a or b] on texts. *)
Definition or_text (a b : string) : string := match a with EmptyString => b | _ => a end.

(** [_inspect_to_upsert]; the times are those of the write. *)
Definition inspect_to_upsert (r : InspectResult) (summary_status : string) : ContainerRec :=
  mkContainerRec (in_container_id r) (or_text (in_name r) (in_container_id r)) (in_image r)
    (or_text (in_status r) summary_status) (in_labels r) (in_mounts r) (dumps (JObj (in_inspect_blob r)))
    (in_config_user r) (in_working_dir r) true EmptyString EmptyString.

Definition statuses (matching : list ContainerSummary) : list (string * string) :=
  foldl (λ d s, put (su_container_id s) (su_status s) d) [] matching.

Definition reconcile (matching : list ContainerSummary) (successes : list (string * InspectResult))
    (failed_ids : list string) (prior_active prior_known : gset string) : ReconcileWriteSet :=
  let status id := default EmptyString (lookup_pair id (statuses matching)) in
  let upserts := (λ kv, inspect_to_upsert kv.2 (status kv.1)) <$> successes in
  let touch_only := filter (λ c, c ∈ prior_known) failed_ids in
  let candidates_present := (list_to_set successes.*1 ∪ list_to_set touch_only : gset string) in
  let inactivate := merge_sort String.le (elements (prior_active ∖ candidates_present)) in
  mkWrites upserts touch_only inactivate (length matching) (length inactivate).

(** ** Errors of single containers *)

(** [_unique_in_order] *)
Fixpoint unique_in_order (seen values : list string) : list string :=
  match values with
  | [] => []
  | v :: rest => if bool_decide (v ∈ seen) then unique_in_order seen rest else v :: unique_in_order (seen ++ [v]) rest
  end.

(** [_ordered_error_details] *)
Definition next_failure (failures : list PerContainerError) (ordered : list PerContainerError) (id : string)
  : list PerContainerError :=
  match list_find (λ f, pc_container_id f = id ∧ f ∉ ordered) failures with
  | Some (_, f) => ordered ++ [f]
  | None => ordered
  end.
Definition ordered_error_details (failures : list PerContainerError) (ids : list string) : list PerContainerError :=
  foldl (λ ordered f, if bool_decide (f ∈ ordered) then ordered else ordered ++ [f])
    (foldl (next_failure failures) [] ids) failures.

(** [_partial_error_message] *)
Definition scan_error_message (details : list PerContainerError) (unique_ids : list string) : option string :=
  match details with
  | [] => None
  | _ => Some (bound_text (print_int (Z.of_nat (length details)) +:+ " of " +:+
                 print_int (Z.of_nat (length unique_ids)) +:+ " candidates failed inspect"))
  end.

(** [_error_details_payload] *)
Definition error_payload (details : list PerContainerError) : option (list (string * string * string)) :=
  match details with
  | [] => None
  | _ => Some ((λ e, (pc_container_id e, pc_code e, bound_text (pc_message e))) <$> details)
  end.

Definition detail_line (e : PerContainerError) : scan_error :=
  (pc_container_id e, None, pc_code e, bound_text (pc_message e), []).

(** ** The scan *)

Section Scan.
Variable adapter : DockerAdapter.
Variable casefold : string → string.
(** The rule, or the message of a [ConfigInvalidError]. *)
Variable rule_provider : M desk (MatchingRule + string).

Definition scan_status (details : list PerContainerError) : string :=
  match details with [] => "ok" | _ => "degraded" end.

Definition scan_fields (scan_id status : string) (matched inactive ignored : nat) (error : option string)
  : list (string * string) :=
  [("scan_id", scan_id); ("status", status); ("matched", nat_text matched); ("inactive", nat_text inactive);
   ("ignored", nat_text ignored); ("error", default EmptyString error)]%string.

(** [_persist_whole_failure] *)
Definition persist_whole_failure (row : ContainerScanRow) : M desk unit :=
  _ ← desk_transaction (at_sql (insert_container_scan row));
  emit_jsonl_degraded "container_scan_degraded" (cs_scan_id row) (cs_error_code row) (cs_error_message row) [].

(** [_record_whole_failure] *)
Definition record_whole_failure (scan_id started_at : string) (matched ignored : nat) (code message : string)
  : M desk unit :=
  completed_at ← clock_now;
  let row := Tables.mkContainerScan scan_id started_at completed_at "degraded" matched 0 ignored
               (Some code) (Some message) None in
  _ ← persist_whole_failure row;
  emit_scan "scan_completed" (scan_fields scan_id "degraded" matched 0 ignored (Some code)).

(** A call whose [DockerError] is recorded and raised again. *)
Definition or_record {A} (scan_id started_at : string) (matched ignored : nat) (m : M desk A) : M desk A :=
  catch m (λ e, match e with
                | AdapterError code message =>
                    _ ← record_whole_failure scan_id started_at matched ignored code (bound_text message);
                    throw e
                | _ => throw e
                end).

(** [_load_rule_or_fail] *)
Definition load_rule_or_fail (scan_id started_at : string) : M desk MatchingRule :=
  r ← rule_provider;
  match r with
  | inl rule => mret rule
  | inr message =>
      _ ← record_whole_failure scan_id started_at 0 0 "config_invalid" (bound_text message);
      throw (AdapterError "config_invalid" (bound_text message))
  end.

(** [_list_running_or_fail] *)
Definition list_running_or_fail (scan_id started_at : string) : M desk (list ContainerSummary) :=
  or_record scan_id started_at 0 0 (list_running adapter).

(** [_inspect_or_fail] *)
Definition inspect_or_fail (scan_id started_at : string) (unique_ids : list string) (ignored : nat)
  : M desk (list (string * InspectResult) * list PerContainerError) :=
  match unique_ids with
  | [] => mret ([], [])
  | _ => or_record scan_id started_at (length unique_ids) ignored (inspect adapter unique_ids)
  end.

(** [_build_write_set] *)
Definition build_write_set (matching : list ContainerSummary) (successes : list (string * InspectResult))
    (failures : list PerContainerError) : M desk ReconcileWriteSet :=
  prior_active ← at_sql select_active_container_ids;
  prior_known ← at_sql select_known_container_ids;
  let failed_ids := filter (λ c, c ∈ su_container_id <$> matching) (pc_container_id <$> failures) in
  mret (reconcile matching successes failed_ids prior_active prior_known).

Definition at_time (now : string) (c : ContainerRec) : ContainerRec :=
  mkContainerRec (cr_container_id c) (cr_name c) (cr_image c) (cr_status c) (cr_labels c) (cr_mounts c)
    (cr_inspect c) (cr_config_user c) (cr_working_dir c) (cr_active c) now now.

(** [_apply_write_set] *)
Definition apply_write_set (ws : ReconcileWriteSet) (now : string) : dao unit :=
  _ ← mapM (λ c, upsert_container (at_time now c)) (rw_upserts ws);
  _ ← (if bool_decide (rw_touch_only ws = []) then mret tt else touch_last_scanned (rw_touch_only ws) now);
  if bool_decide (rw_inactivate ws = []) then mret tt
  else _ ← mark_inactive (rw_inactivate ws) now; mret tt.

(** [_commit_reconciled_scan]: the body of its transaction. *)
Definition commit_containers (ws : ReconcileWriteSet) (row : string → ContainerScanRow) : M desk ContainerScanRow :=
  now ← clock_now;
  _ ← at_sql (apply_write_set ws now);
  completed_at ← clock_now;
  _ ← at_sql (insert_container_scan (row completed_at));
  mret (row completed_at).

Definition reconciled_row (scan_id started_at : string) (ws : ReconcileWriteSet) (ignored : nat)
    (details : list PerContainerError) (unique_ids : list string) (completed_at : string) : ContainerScanRow :=
  Tables.mkContainerScan scan_id started_at completed_at (scan_status details) (rw_matched_count ws)
    (rw_inactive_reconciled_count ws) ignored (pc_code <$> head details)
    (scan_error_message details unique_ids) (error_payload details).

Record ScanResult := mkScanResult { sr_row : ContainerScanRow; sr_details : list PerContainerError }.

(** [_after_scan_commit] *)
Definition after_scan_commit (row : ContainerScanRow) (details : list PerContainerError) : M desk unit :=
  _ ← (match details with
       | [] => mret tt
       | _ => emit_jsonl_degraded "container_scan_degraded" (cs_scan_id row) (cs_error_code row)
                (cs_error_message row) (detail_line <$> details)
       end);
  emit_scan "scan_completed" (scan_fields (cs_scan_id row) (cs_status row) (cs_matched_count row)
    (cs_inactive_reconciled_count row) (cs_ignored_count row) (cs_error_code row)).

(** [_persist_reconciled_scan] *)
Definition persist_reconciled_scan (scan_id started_at : string) (matching : list ContainerSummary)
    (unique_ids : list string) (successes : list (string * InspectResult)) (failures : list PerContainerError)
    (ignored : nat) : M desk ScanResult :=
  ws ← build_write_set matching successes failures;
  let details := ordered_error_details failures (su_container_id <$> matching) in
  row ← desk_transaction (commit_containers ws (reconciled_row scan_id started_at ws ignored details unique_ids));
  _ ← after_scan_commit row details;
  mret (mkScanResult row details).

(** [_scan_locked] *)
Definition container_scan_locked (scan_id started_at : string) : M desk ScanResult :=
  rule ← load_rule_or_fail scan_id started_at;
  summaries ← list_running_or_fail scan_id started_at;
  let matching := filter (λ s, rule_matches casefold rule (su_name s) = true) summaries in
  let ignored := (length summaries - length matching)%nat in
  let unique_ids := unique_in_order [] (su_container_id <$> matching) in
  x ← inspect_or_fail scan_id started_at unique_ids ignored;
  persist_reconciled_scan scan_id started_at matching unique_ids x.1 x.2 ignored.

Definition scan : M desk ScanResult :=
  scan_id ← new_uuid;
  started_at ← clock_now;
  _ ← emit_scan "scan_started" [("scan_id"%string, scan_id)];
  container_scan_locked scan_id started_at.

Definition list_containers (active_only : bool) : M desk (list ContainerRec) :=
  with_conn (at_sql (select_container_rows active_only)).
End Scan.
