(* ===== verification/ContainerClaims.v ===== *)
(** What a container scan writes, and that it does so in one step. *)

From S2P Require Import Prelude Errors Agents Permissions Store AuditWriter Session Tables LogDao Json Tower TowerInvariant RegistryDao Validation JsonParse Desk AgentsService InTx RegistrySpec AgentsServiceSpec AgentsClaims PipePane LogPaths LogService LogServiceSpec LogClaims TmuxAdapter PaneReconcile PaneService PaneScanSpec PaneClaims DockerAdapter ContainerDiscovery.
From Stdlib Require Import Ascii.

(** ** What the statements of a commit do *)

Definition put_container (m : gmap string ContainerRec) (c : ContainerRec) : gmap string ContainerRec :=
  <[cr_container_id c := mkContainerRec (cr_container_id c) (cr_name c) (cr_image c) (cr_status c)
      (cr_labels c) (cr_mounts c) (cr_inspect c) (cr_config_user c) (cr_working_dir c) (cr_active c)
      (match m !! cr_container_id c with
       | Some old => cr_first_seen_at old
       | None => cr_first_seen_at c
       end) (cr_last_scanned_at c)]> m.

Definition touch_containers (ids : list string) (now : string) (m : gmap string ContainerRec)
  : gmap string ContainerRec :=
  (λ c, if bool_decide (cr_container_id c ∈ ids) then with_scan (cr_active c) now c else c) <$> m.

Definition stop_containers (ids : list string) (now : string) (m : gmap string ContainerRec)
  : gmap string ContainerRec :=
  (λ c, if cr_active c && bool_decide (cr_container_id c ∈ ids) then with_scan false now c else c) <$> m.

Definition write_containers (ws : ReconcileWriteSet) (now : string) (m : gmap string ContainerRec)
  : gmap string ContainerRec :=
  stop_containers (rw_inactivate ws) now
    (touch_containers (rw_touch_only ws) now
       (foldl (λ m c, put_container m (at_time now c)) m (rw_upserts ws))).

Definition containers_scanned (ws : ReconcileWriteSet) (now : string) (row : ContainerScanRow) (d : tower_db) : tower_db :=
  set_container_scans (container_scans d ++ [row]) (set_containers (write_containers ws now (containers d)) d).

Lemma wf_set_containers d m :
  tower_wf d → map_Forall (λ k c, cr_container_id c = k) m → tower_wf (set_containers m d).
Proof. intros [] Hm. by constructor. Qed.

Lemma touch_nothing now m : touch_containers [] now m = m.
Proof.
  unfold touch_containers. rewrite <- (map_fmap_id m) at 2. apply map_fmap_ext. intros k c _.
  by rewrite bool_decide_eq_false_2 by apply not_elem_of_nil.
Qed.
Lemma stop_nothing now m : stop_containers [] now m = m.
Proof.
  unfold stop_containers. rewrite <- (map_fmap_id m) at 2. apply map_fmap_ext. intros k c _.
  by rewrite bool_decide_eq_false_2, andb_false_r by apply not_elem_of_nil.
Qed.

Lemma fmap_keys (f : ContainerRec → ContainerRec) (m : gmap string ContainerRec) :
  (∀ c, cr_container_id (f c) = cr_container_id c) →
  map_Forall (λ k c, cr_container_id c = k) m → map_Forall (λ k c, cr_container_id c = k) (f <$> m).
Proof.
  intros Hf Hm k c Hc. rewrite lookup_fmap in Hc. apply fmap_Some in Hc as (c' & Hc' & ->).
  rewrite Hf. by apply Hm.
Qed.

Section Commit.
Context (R : relation tower_db).
Abbreviation indesk := (inside dk_sess dk_audit R).
Abbreviation insess := (inside (λ s : session tower_db, s) (λ _, tt) R).

Lemma in_apply_containers d ws now :
  insess d (apply_write_set ws now) (λ _ d',
    d' = set_containers (write_containers ws now (containers d)) d ∧ (tower_wf d → tower_wf d')).
Proof.
  unfold apply_write_set. eapply in_bind.
  { apply (in_mapM_fold R _ _ _ (λ d c, set_containers (put_container (containers d) (at_time now c)) d)). intros d1 c.
    eapply in_mono; [apply in_write|]. intros [] d' [= <-]. split; [done|]. intros Hwf.
    apply wf_set_containers; [done|]. apply map_Forall_insert_2; [done|apply Hwf]. }
  intros ys d1 [-> H1].
  assert (∀ us d, foldl (λ d c, set_containers (put_container (containers d) (at_time now c)) d) d us =
    set_containers (foldl (λ m c, put_container m (at_time now c)) (containers d) us) d) as Hfold.
  { induction us as [|u us IH]; intros d0; cbn [foldl]; [by destruct d0|]. by rewrite IH. }
  rewrite Hfold in H1 |- *. set (m1 := foldl _ (containers d) _) in *.
  eapply (in_bind _ _ _ _ _ _ (λ _ d', d' = set_containers (touch_containers (rw_touch_only ws) now m1) d ∧
    (tower_wf d → tower_wf d'))).
  { apply in_if; intros Hk.
    - apply bool_decide_eq_true in Hk as ->. apply in_ret. by rewrite touch_nothing.
    - unfold touch_last_scanned. rewrite Hk. eapply in_mono; [apply in_write|]. intros [] d' [= <-]. split; [done|].
      intros Hwf. apply (wf_set_containers (set_containers m1 d)); [by apply H1|]. apply fmap_keys; [|apply H1, Hwf].
      intros c. by destruct (bool_decide (cr_container_id c ∈ _)). }
  intros [] d2 [-> H2]. apply in_if; intros Hk.
  - apply bool_decide_eq_true in Hk. apply in_ret. unfold write_containers. rewrite Hk, stop_nothing. done.
  - eapply (in_bind _ _ _ _ _ _ (λ _ d', d' = set_containers (write_containers ws now (containers d)) d ∧
      (tower_wf d → tower_wf d'))); [|by intros; apply in_ret].
    unfold mark_inactive. rewrite Hk. eapply in_mono; [apply in_write|]. intros n d' [= _ <-]. split; [done|].
    intros Hwf. apply (wf_set_containers (set_containers (touch_containers (rw_touch_only ws) now m1) d)); [by apply H2|].
    apply fmap_keys; [|apply H2, Hwf]. intros c. by destruct (cr_active c && bool_decide (cr_container_id c ∈ _)).
Qed.

Lemma in_insert_container_scan d row :
  insess d (insert_container_scan row) (λ _ d', d' = set_container_scans (container_scans d ++ [row]) d).
Proof. eapply in_mono; [apply in_write|]. intros [] d' E. cbv beta in E. case_match; [done|]. by injection E as <-. Qed.

Lemma in_commit_containers d ws row :
  tower_wf d →
  indesk d (commit_containers ws row) (λ res d', ∃ now completed,
    res = row completed ∧ d' = containers_scanned ws now (row completed) d ∧ tower_wf d').
Proof.
  intros Hwf. unfold commit_containers.
  eapply in_bind; [apply in_clock|]. intros now ? ->.
  eapply in_bind; [apply in_at_sql, in_apply_containers|]. intros [] d1 [-> H1].
  eapply in_bind; [apply in_clock|]. intros completed ? ->.
  eapply in_bind; [apply in_at_sql, in_insert_container_scan|]. intros [] d2 ->.
  apply in_ret. exists now, completed. split; [done|]. split; [done|]. destruct (H1 Hwf). by constructor.
Qed.
End Commit.

(** ** Exactness *)

Definition first_seen (now : string) (old : option ContainerRec) : string :=
  match old with Some c => cr_first_seen_at c | None => now end.

Lemma put_container_lookup m c id :
  put_container m c !! id =
    if decide (cr_container_id c = id)
    then Some (mkContainerRec (cr_container_id c) (cr_name c) (cr_image c) (cr_status c) (cr_labels c) (cr_mounts c)
           (cr_inspect c) (cr_config_user c) (cr_working_dir c) (cr_active c)
           (first_seen (cr_first_seen_at c) (m !! id)) (cr_last_scanned_at c))
    else m !! id.
Proof.
  unfold put_container. case_decide as E; [subst; by rewrite lookup_insert_eq|by rewrite lookup_insert_ne].
Qed.

Lemma puts_lookup us now m id :
  Forall (λ c, cr_active c = true) us →
  match foldl (λ m c, put_container m (at_time now c)) m us !! id with
  | Some c => if decide (id ∈ cr_container_id <$> us)
              then cr_active c = true ∧ cr_container_id c = id ∧ cr_first_seen_at c = first_seen now (m !! id)
              else m !! id = Some c
  | None => m !! id = None ∧ id ∉ cr_container_id <$> us
  end.
Proof.
  intros Hus. revert m. induction us as [|u us IH]; intros m; cbn [foldl].
  - destruct (m !! id) eqn:E; [|split; [done|apply not_elem_of_nil]]. by rewrite decide_False by apply not_elem_of_nil.
  - apply Forall_cons in Hus as [Hu Hus]. specialize (IH Hus (put_container m (at_time now u))).
    set (m' := foldl _ _ us) in *. rewrite put_container_lookup in IH. cbn [at_time cr_container_id] in IH.
    rewrite fmap_cons. destruct (m' !! id) as [c|].
    + destruct (decide (id ∈ cr_container_id <$> us)) as [Hin|Hnin].
      * rewrite decide_True by (by right). destruct IH as (H1 & H2 & H3). split_and!; [done..|]. rewrite H3.
        by case_decide.
      * destruct (decide (cr_container_id u = id)) as [<-|Hne].
        -- rewrite decide_True by (by left). injection IH as <-. by split_and!.
        -- rewrite decide_False; [done|]. intros [?|?]%elem_of_cons; done.
    + destruct IH as [IH1 IH2]. case_decide; [done|]. split; [done|]. intros [?|?]%elem_of_cons; done.
Qed.

Section Exact.
Context (matching : list ContainerSummary) (successes : list (string * InspectResult)) (failed : list string)
  (now : string).

Definition running (m : gmap string ContainerRec) (id : string) : bool :=
  match m !! id with Some c => cr_active c | None => false end.

Definition active_ids (m : gmap string ContainerRec) : gset string :=
  list_to_set (cr_container_id <$> filter (λ c, cr_active c = true) (map_to_list m).*2).
Definition known_ids (m : gmap string ContainerRec) : gset string :=
  list_to_set (cr_container_id <$> (map_to_list m).*2).

(** What a scan says of a container: it runs if it could be inspected; it is as it was if it
    is there but could not be inspected; it is gone otherwise. *)
Definition says_running (id : string) (old : bool) : bool :=
  bool_decide (id ∈ successes.*1) || (bool_decide (id ∈ failed) && old).

Record mirrors_containers (m m' : gmap string ContainerRec) : Prop := mkMirrorsC {
  mc_state id : match m' !! id with
                | Some c => cr_active c = says_running id (running m id) ∧
                            cr_first_seen_at c = first_seen now (m !! id)
                | None => m !! id = None ∧ id ∉ successes.*1
                end
}.

Lemma elem_active_ids m id :
  map_Forall (λ k c, cr_container_id c = k) m → id ∈ active_ids m ↔ running m id = true.
Proof.
  intros Hm. unfold active_ids, running. rewrite elem_of_list_to_set, list_elem_of_fmap. split.
  - intros (c & -> & [Ha Hc]%list_elem_of_filter). apply list_elem_of_fmap in Hc as ([k c'] & -> & Hc).
    apply elem_of_map_to_list in Hc. cbn. by rewrite (Hm _ _ Hc), Hc.
  - destruct (m !! id) as [c|] eqn:E; [|done]. intros Ha. exists c. split; [by rewrite (Hm _ _ E)|].
    apply list_elem_of_filter. split; [done|]. apply list_elem_of_fmap. exists (id, c). split; [done|].
    by apply elem_of_map_to_list.
Qed.
Lemma elem_known_ids m id :
  map_Forall (λ k c, cr_container_id c = k) m → id ∈ known_ids m ↔ is_Some (m !! id).
Proof.
  intros Hm. unfold known_ids. rewrite elem_of_list_to_set, list_elem_of_fmap. split.
  - intros (c & -> & Hc). apply list_elem_of_fmap in Hc as ([k c'] & -> & Hc).
    apply elem_of_map_to_list in Hc. cbn. rewrite (Hm _ _ Hc), Hc. by eexists.
  - intros [c E]. exists c. split; [by rewrite (Hm _ _ E)|]. apply list_elem_of_fmap. exists (id, c). split; [done|].
    by apply elem_of_map_to_list.
Qed.

Context (Hkeys : ∀ k r, (k, r) ∈ successes → in_container_id r = k).

Lemma upsert_ids m1 m2 :
  cr_container_id <$> rw_upserts (reconcile matching successes failed m1 m2) = successes.*1.
Proof.
  cbn. rewrite <- list_fmap_compose. apply list_fmap_ext. intros i [k r] Hi. apply list_elem_of_lookup_2 in Hi.
  cbn. by apply Hkeys.
Qed.

Lemma reconcile_mirrors m :
  map_Forall (λ k c, cr_container_id c = k) m →
  let ws := reconcile matching successes failed (active_ids m) (known_ids m) in
  mirrors_containers m (write_containers ws now m).
Proof.
  intros Hm ws. constructor. intros id.
  assert (Forall (λ c, cr_active c = true) (rw_upserts ws)) as Hact.
  { apply Forall_fmap, Forall_true. done. }
  pose proof (puts_lookup (rw_upserts ws) now m id Hact) as Hp. unfold ws in Hp. rewrite upsert_ids in Hp. fold ws in Hp.
  unfold write_containers, stop_containers, touch_containers. rewrite !lookup_fmap.
  set (m1 := foldl _ m _) in *.
  assert (id ∈ rw_touch_only ws ↔ id ∈ failed ∧ is_Some (m !! id)) as Htouch.
  { unfold ws. cbn. rewrite list_elem_of_filter, elem_known_ids by done. tauto. }
  assert (id ∈ rw_inactivate ws ↔ running m id = true ∧ (id ∉ successes.*1) ∧ id ∉ rw_touch_only ws) as Hoff.
  { unfold ws. cbn. rewrite merge_sort_Permutation, elem_of_elements, elem_of_difference, elem_active_ids by done.
    rewrite elem_of_union, !elem_of_list_to_set. tauto. }
  unfold says_running. destruct (m1 !! id) as [c|]; cbn [fmap option_fmap option_map]; [|done].
  destruct (decide (id ∈ successes.*1)) as [Hs|Hs].
  - destruct Hp as (H1 & H2 & H3). rewrite (bool_decide_eq_true_2 _ Hs).
    assert (id ∉ rw_inactivate ws) as Hni by tauto.
    destruct (bool_decide (cr_container_id c ∈ rw_touch_only ws)) eqn:Et; cbn [with_scan cr_active cr_container_id];
      rewrite H2, (bool_decide_eq_false_2 _ Hni), andb_false_r; by split.
  - pose proof (Hm _ _ Hp) as Hid. rewrite (bool_decide_eq_false_2 _ Hs). unfold running. rewrite Hp. cbn [orb].
    unfold running in Hoff. rewrite Hp in Htouch, Hoff. rewrite Hid.
    destruct (bool_decide (id ∈ rw_touch_only ws)) eqn:Et; cbn [with_scan cr_active cr_container_id]; rewrite ?Hid.
    + apply bool_decide_eq_true in Et. assert (id ∉ rw_inactivate ws) as Hni by tauto.
      rewrite (bool_decide_eq_false_2 _ Hni), andb_false_r.
      rewrite (bool_decide_eq_true_2 (id ∈ failed)) by tauto. by split.
    + apply bool_decide_eq_false in Et.
      assert (id ∉ failed) as Hnf by (intros ?; apply Et, Htouch; by split; [|eexists]).
      rewrite (bool_decide_eq_false_2 _ Hnf). cbn [andb].
      destruct (cr_active c) eqn:Ea; [|by split].
      rewrite bool_decide_eq_true_2 by tauto. by split.
Qed.
End Exact.

(** What a scan of the containers guarantees. *)

(** ** The adapter *)

(** What an adapter promises to discovery: it does not touch the tables and files of the
    daemon, and it files what it inspected under its id, once. *)
Class SteadyDocker (ad : DockerAdapter) : Prop := mkSteadyDocker {
  steady_running : steady (list_running ad);
  inspect_filed ids : yields (inspect ad ids)
    (λ x, NoDup x.1.*1 ∧ ∀ k r, (k, r) ∈ x.1 → in_container_id r = k)
}.

Definition filed (x : list (string * InspectResult)) : Prop :=
  NoDup x.*1 ∧ ∀ k r, (k, r) ∈ x → in_container_id r = k.

Section Filed.
Context (repr : string → string) (repr_of : json → string) (to_float : string → string * option Z)
  (decode_message : string → string) (binary : option string).

Lemma normalize_filed entries su fa x :
  filed su → normalize_all repr_of entries su fa = Ok x → filed x.1.
Proof.
  revert su fa. induction entries as [|e rest IH]; intros su fa Hsu; cbn [normalize_all]; [by intros [= <-]|].
  destruct (normalize_one repr_of e) as [r|[]]; try done; [|by apply IH].
  apply IH. destruct Hsu as [H1 H2]. split; [by apply put_nodup|].
  intros k r' [[-> ->]|H]%elem_of_put; [done|by apply H2].
Qed.

Lemma parsed_filed out ids x : parse_docker_inspect_array repr repr_of to_float decode_message out ids = Ok x → filed x.1.
Proof.
  unfold parse_docker_inspect_array. destruct (loads to_float out) as [v|e].
  2:{ by destruct (bool_decide (e = JSONDecodeError)). }
  destruct v as [| | | | |entries|]; try done.
  destruct (normalize_all repr_of entries [] []) as [y|] eqn:E; [|done]. cbn. intros [= <-]. cbn.
  eapply normalize_filed; [|exact E]. split; [constructor|]. by intros k r ?%elem_of_nil.
Qed.

Lemma steady_docker args : steady (run_docker binary args).
Proof.
  unfold run_docker. destruct binary as [b|]; [|by intros s]. apply (yields_bind _ _ (λ _, True) (λ _, True)).
  - apply yields_steady. intros s. unfold docker_run. by destruct (dk_docker s) as [|[]].
  - intros r _. destruct (failure_kind r); [|by apply yields_ret]. destruct (bool_decide _); apply yields_throw.
Qed.

Lemma yields_ofail {A} (o : outcome A) (V : A → Prop) : (∀ a, o = Ok a → V a) → yields (ofail o) V.
Proof. intros H. destruct o as [a|e]; [by apply yields_ret, H|apply yields_throw]. Qed.

#[export] Instance subprocess_docker_steady :
  SteadyDocker (subprocess_docker repr repr_of to_float decode_message binary).
Proof.
  constructor; cbn [list_running inspect subprocess_docker].
  - apply (yields_bind _ _ (λ _, True) (λ _, True)); [apply yields_steady, steady_docker|]. intros r _.
    destruct (_ =? _)%Z; [by apply yields_ofail|apply yields_throw].
  - intros ids. destruct ids as [|id ids].
    { apply yields_ret. split; [constructor|]. by intros k r ?%elem_of_nil. }
    cbn [sub_inspect]. eapply yields_bind; [apply yields_steady, steady_docker|]. intros r _. cbv zeta.
    pose proof (parsed_filed (array_text (stdout r)) (id :: ids)) as Hf.
    destruct (parse_docker_inspect_array _ _ _ _ _ _) as [[su fa]|e].
    + destruct (_ =? _)%Z; [|destruct fa]; try (apply yields_throw); apply yields_ret; by apply (Hf _ eq_refl).
    + destruct (_ =? _)%Z; [|destruct e]; apply yields_throw.
Qed.
End Filed.

(** ** The scan *)

Lemma wp_bind_inv {S A B} (m : M S A) (k : A → M S B) Q s :
  wp (m ≫= k) Q s → wp m (λ o s', match o with Ok a => wp (k a) Q s' | Raise e => Q (Raise e) s' end) s.
Proof. unfold wp, mbind, M_bind. by destruct (m s) as [[a|e] s']. Qed.

Section Scan.
Context (R : relation tower_db) `{!PreOrder R} (Rwf : ∀ d d', R d d' → tower_wf d → tower_wf d').
Context (ad : DockerAdapter) `{!SteadyDocker ad} (casefold : string → string)
  (rule_provider : M desk (MatchingRule + string)) (Hrule : steady rule_provider).

(** Only the row of the scan, with its error. *)
Definition only_scan_row (s s' : desk) : Prop := ∃ row d0 ls,
  R (dk_db s) d0 ∧ dk_db s' = set_container_scans (container_scans d0 ++ [row]) d0 ∧
  is_Some (cs_error_code row) ∧ dk_lines s' = dk_lines s ++ ls ∧ (length ls ≤ 1)%nat.

Definition failed_scan (s s' : desk) : Prop :=
  (R (dk_db s) (dk_db s') ∧ dk_lines s' = dk_lines s) ∨ only_scan_row s s'.

Definition read_ids (s : desk) (d0 : tower_db) (prior_active prior_known : gset string) : Prop :=
  ∃ d1 d2, R (dk_db s) d1 ∧ R d1 d2 ∧ R d2 d0 ∧
    prior_active = active_ids (containers d1) ∧ prior_known = known_ids (containers d2).

(** The lines of a committed scan. *)
Definition details_line (row : ContainerScanRow) (details : list PerContainerError) : list audit_line :=
  match details with
  | [] => []
  | _ => [L_scan_degraded "container_scan_degraded" (cs_scan_id row) (cs_error_code row) (cs_error_message row)
            (detail_line <$> details)]
  end.

Definition containers_done (s : desk) (ok : bool) (s' : desk) : Prop :=
  ∃ matching successes failures prior_active prior_known d0 now row details ls,
    filed successes ∧ read_ids s d0 prior_active prior_known ∧
    let failed := filter (λ c, c ∈ su_container_id <$> matching) (pc_container_id <$> failures) in
    let ws := reconcile matching successes failed prior_active prior_known in
    details = ordered_error_details failures (su_container_id <$> matching) ∧
    cs_error_code row = pc_code <$> head details ∧
    cs_matched_count row = length matching ∧ cs_inactive_reconciled_count row = length (rw_inactivate ws) ∧
    dk_db s' = containers_scanned ws now row d0 ∧ tower_wf (dk_db s') ∧
    dk_lines s' = dk_lines s ++ ls ∧ ls `sublist_of` details_line row details ∧
    (events_io (dk_tower s) = [] → ok = true ∧ ls = details_line row details).

Definition container_scan_end (s : desk) (out : outcome ScanResult) (s' : desk) : Prop :=
  at_rest_or_dead R out s' ∧
  ((is_ok out = false ∧ failed_scan s s') ∨ containers_done s (is_ok out) s').

Lemma wp_record_whole scan_id started matched ignored code message s :
  resting R s →
  wp (record_whole_failure scan_id started matched ignored code message)
     (λ o s', at_rest_or_dead R o s' ∧ failed_scan s s') s.
Proof.
  intros Hs. unfold record_whole_failure. apply wp_bind.
  eapply (wp_yields R _ (λ _, True)); [apply yields_steady, steady_clock|done| |].
  2:{ intros e s1 ([H1 H2] & H3 & H4). split; [split; [done|by left]|]. left. split; [done|].
      unfold dk_audit in H4. by injection H4. }
  intros completed s1 (Hs1 & R1 & A1) _. cbv zeta. set (row := Tables.mkContainerScan _ _ _ _ _ _ _ _ _ _).
  apply wp_bind. unfold persist_whole_failure. apply wp_bind.
  assert (dk_lines s1 = dk_lines s) as Hl1 by (unfold dk_audit in A1; by injection A1).
  apply (wp_desk_transaction R _ (λ d _ d', d' = set_container_scans (container_scans d ++ [row]) d)); [done|..].
  - intros d _. apply in_at_sql, in_insert_container_scan.
  - intros [] d0 s2 Hd0 Hdb Ha [Hs2 Hx2]. 
    assert (wp (_ ← emit_jsonl_degraded "container_scan_degraded" (cs_scan_id row) (cs_error_code row) (cs_error_message row) [];
                emit_scan "scan_completed" (scan_fields scan_id "degraded" matched 0 ignored (Some code)))
      (appended ([L_scan_degraded "container_scan_degraded" (cs_scan_id row) (cs_error_code row) (cs_error_message row) []] ++ []) s2) s2) as H.
    { apply (wp_then _ _ _ [] s2 (λ o, o)); [apply wp_degraded| |done].
      intros s3 _. eapply wp_mono; [|apply wp_emit_scan]. by intros o s5 [_ ?]. }
    apply wp_bind_inv in H.
    eapply wp_mono; [|exact H]. clear H. intros o s3 H. cbv beta iota in H.
    assert (∀ (o' : outcome unit) s4, appended ([L_scan_degraded "container_scan_degraded" (cs_scan_id row)
      (cs_error_code row) (cs_error_message row) []] ++ []) s2 o' s4 → at_rest_or_dead R o' s4 ∧ failed_scan s s4) as Hend.
    { intros o' s4 (E4 & ls & L4 & S4 & _). split; [split; [by rewrite E4|left; by rewrite E4]|]. right.
      exists row, d0, ls. unfold dk_db in *. rewrite E4. split_and!; [by trans (saved (dk_sess s1))|done|by eexists| |].
      - rewrite L4. unfold dk_audit in Ha. injection Ha as Ha _. unfold dk_lines in *. congruence.
      - by apply sublist_length in S4. }
    destruct o as [[]|e]; [eapply wp_mono; [|exact H]; intros; by apply Hend|by apply Hend].
  - intros e s2 HR Ha Ht Hx. split; [split; [done|]|].
    + destruct (is_exception e) eqn:Ee; [left; by apply Hx|right; by rewrite (not_exception e Ee)].
    + left. split; [by trans (dk_db s1)|]. unfold dk_audit in Ha. injection Ha as Ha _. unfold dk_lines in *. congruence.
Qed.

Lemma rest_raise {A B} (e : exn) s' :
  at_rest_or_dead R (A := A) (Raise e) s' → at_rest_or_dead R (A := B) (Raise e) s'.
Proof. intros [H1 [H2|H2]]; (split; [done|]); [by left|right; by injection H2 as ->]. Qed.

Lemma moved_failed (s s1 : desk) : moved R s s1 → failed_scan s s1.
Proof. intros (_ & H1 & H2). left. split; [done|]. unfold dk_audit in H2. by injection H2. Qed.

Lemma failed_from (s s1 s' : desk) : moved R s s1 → failed_scan s1 s' → failed_scan s s'.
Proof.
  intros (_ & H1 & H2) [[H3 H4]|(row & d0 & ls & H3 & H4 & H5 & H6 & H7)].
  all: assert (dk_lines s1 = dk_lines s) as Hl by (unfold dk_audit in H2; by injection H2).
  - left. split; [by trans (dk_db s1)|congruence].
  - right. exists row, d0, ls. rewrite <- Hl. split_and!; [by trans (dk_db s1)|done..].
Qed.

(** A step that went on, or ended the scan. *)
Definition goes_on {A} (s : desk) (V : A → Prop) (o : outcome A) (s' : desk) : Prop :=
  match o with
  | Ok a => moved R s s' ∧ V a
  | Raise e => at_rest_or_dead R (A := unit) (Raise e) s' ∧ failed_scan s s'
  end.

Lemma wp_then_raise {A} s s1 (m : M desk unit) (V : A → Prop) e :
  moved R s s1 → wp m (λ o s', at_rest_or_dead R o s' ∧ failed_scan s1 s') s1 →
  wp (_ ← m; throw e) (goes_on s V) s1.
Proof.
  intros Hm H. apply wp_bind. eapply wp_mono; [|exact H]. intros [[]|e'] s2 [H1 H2].
  - apply wp_throw. split; [|by eapply failed_from]. destruct H1 as [H3 [H4|?]]; [|done]. split; [done|by left].
  - split; [done|by eapply failed_from].
Qed.

Lemma wp_or_record {A} (m : M desk A) V scan_id started matched ignored s :
  yields m V → resting R s → wp (or_record scan_id started matched ignored m) (goes_on s V) s.
Proof.
  intros Hy Hs. apply wp_catch. eapply (wp_yields R _ V); [done|done|by intros|].
  intros e s1 Hm.
  assert (goes_on s V (Raise e) s1) as Hk.
  { split; [|by apply moved_failed]. destruct Hm as ([H1 H2] & _). split; [done|by left]. }
  destruct e; try (by apply wp_throw). apply wp_then_raise; [done|]. apply wp_record_whole, Hm.
Qed.

Lemma wp_load_rule scan_id started s :
  resting R s → wp (load_rule_or_fail rule_provider scan_id started) (goes_on s (λ _, True)) s.
Proof.
  intros Hs. apply wp_bind. eapply (wp_yields R _ (λ _, True)); [by apply yields_steady|done| |].
  - intros [rule|message] s1 Hm _; [by apply wp_ret|]. apply wp_then_raise; [done|]. apply wp_record_whole, Hm.
  - intros e s1 Hm. split; [|by apply moved_failed]. destruct Hm as ([H1 H2] & _). split; [done|by left].
Qed.

Lemma wp_after_commit row details s :
  wp (after_scan_commit row details) (appended (details_line row details) s) s.
Proof.
  unfold after_scan_commit. rewrite <- (app_nil_r (details_line row details)).
  apply (wp_then _ _ _ [] s (λ o, o)); [| |done].
  - destruct details; [apply wp_ret, appended_nil|apply wp_degraded].
  - intros s3 _. eapply wp_mono; [|apply wp_emit_scan]. by intros o s5 [_ ?].
Qed.

Lemma done_from (s s1 : desk) ok s' : moved R s s1 → containers_done s1 ok s' → containers_done s ok s'.
Proof.
  intros (_ & H1 & H2) (ma & su & fa & pa & pk & d0 & now & row & de & ls & F & (d1 & d2 & A1 & A2 & A3 & A4) & H).
  assert (dk_lines s1 = dk_lines s ∧ events_io (dk_tower s1) = events_io (dk_tower s)) as [Hl Hio]
    by (unfold dk_audit in H2; by injection H2).
  exists ma, su, fa, pa, pk, d0, now, row, de, ls. rewrite <- Hl, <- Hio. split; [done|]. split; [|done].
  exists d1, d2. split; [by trans (dk_db s1)|done].
Qed.

Lemma wp_persist scan_id started matching unique_ids successes failures ignored s :
  filed successes → resting R s → tower_wf (dk_db s) →
  wp (persist_reconciled_scan scan_id started matching unique_ids successes failures ignored)
     (container_scan_end s) s.
Proof.
  intros Hf Hs Hwf.
  assert (∀ (e : exn) s', moved R s s' → container_scan_end s (Raise e) s') as Hno.
  { intros e s' Hm. split; [destruct Hm as ([H1 H2] & _); split; [done|by left]|]. left. split; [done|by apply moved_failed]. }
  unfold persist_reconciled_scan, build_write_set. apply wp_bind.
  apply wp_bind, (wp_read_rest R); [done| |by intros; apply Hno].
  intros s1 M1. apply wp_bind, (wp_read_rest R); [apply M1| |by intros; eapply Hno, moved_trans].
  intros s2 M2. apply wp_ret. cbv zeta. pose proof (moved_trans R _ _ _ M1 M2) as M12.
  set (details := ordered_error_details failures _). set (failed := filter _ (pc_container_id <$> failures)).
  change (list_to_set (cr_container_id <$> filter (λ c, cr_active c = true) (container_rows (dk_db s1))))
    with (active_ids (containers (dk_db s1))).
  change (list_to_set (cr_container_id <$> container_rows (dk_db s2))) with (known_ids (containers (dk_db s2))).
  set (ws := reconcile matching successes failed _ _). apply wp_bind.
  apply (wp_desk_transaction R _ (λ d res d', ∃ now completed,
    res = reconciled_row scan_id started ws ignored details unique_ids completed ∧
    d' = containers_scanned ws now (reconciled_row scan_id started ws ignored details unique_ids completed) d ∧
    tower_wf d')); [apply M12|..].
  - intros d Hd. apply in_commit_containers. eapply Rwf; [exact Hd|]. eapply Rwf; [apply M12|done].
  - intros row d0 s3 Hd0 (now & completed & -> & Hdb & Hwf3) Ha Hs3.
    set (row := reconciled_row _ _ _ _ _ _ _) in *. apply wp_bind.
    eapply wp_mono; [|apply wp_after_commit]. intros o s4 (E4 & ls & L4 & S4 & F4).
    assert (dk_lines s3 = dk_lines s ∧ events_io (dk_tower s3) = events_io (dk_tower s)) as [Hl Hio].
    { destruct M12 as (_ & _ & H). unfold dk_audit in H, Ha. unfold dk_lines. injection H as H1 H2. injection Ha as H3 H4.
      split; congruence. }
    assert (∀ ok, (o = Ok tt → ok = true) → containers_done s ok s4) as Hdone.
    { intros ok Hok. exists matching, successes, failures, (active_ids (containers (dk_db s1))),
        (known_ids (containers (dk_db s2))), d0, now, row, details, ls.
      destruct M1 as (_ & R1 & _), M2 as (_ & R2 & _). split; [done|]. split.
      { exists (dk_db s1), (dk_db s2). by split_and!. }
      cbv zeta. fold failed. fold ws. unfold dk_db in *. rewrite E4.
      split_and!; [done..|by rewrite L4, Hl|done|]. rewrite <- Hio. intros H. destruct (F4 H) as (-> & -> & _). auto. }
    assert (∀ o' : outcome ScanResult, (o' = Raise SystemExit → tx (dk_sess s4) = None) → at_rest_or_dead R o' s4) as Hrest.
    { intros o' _. split; [rewrite E4; apply Hs3|left; rewrite E4; apply Hs3]. }
    destruct o as [[]|e]; [apply wp_ret|]; (split; [by apply Hrest; intros; rewrite E4; apply Hs3|]); right; by apply Hdone.
  - intros e s3 HR Ha Ht Hx. split.
    + split; [done|]. destruct (is_exception e) eqn:Ee; [left; by apply Hx|right; by rewrite (not_exception e Ee)].
    + left. split; [done|]. left. destruct M12 as (_ & R12 & A12). split; [by trans (dk_db s2)|].
      unfold dk_audit in Ha, A12. unfold dk_lines. injection Ha as Ha _. injection A12 as A12 _. congruence.
Qed.

Lemma wp_goes_on {A B} (m : M desk A) (k : A → M desk B) V s s0 (Q : outcome B → desk → Prop) :
  wp m (goes_on s V) s → moved R s0 s →
  (∀ a s1, moved R s0 s1 → V a → wp (k a) Q s1) →
  (∀ e s1, at_rest_or_dead R (A := unit) (Raise e) s1 → failed_scan s0 s1 → Q (Raise e) s1) →
  wp (m ≫= k) Q s.
Proof.
  intros Hm Hs Hok Hr. apply wp_bind. eapply wp_mono; [|exact Hm]. intros [a|e] s1 H.
  - destruct H as [H1 H2]. apply Hok; [by eapply moved_trans|done].
  - destruct H as [H1 H2]. apply Hr; [done|by eapply failed_from].
Qed.

Lemma wp_container_scan s :
  resting R s → tower_wf (dk_db s) → wp (scan ad casefold rule_provider) (container_scan_end s) s.
Proof.
  intros Hs Hwf.
  assert (∀ (e : exn) s', at_rest_or_dead R (A := unit) (Raise e) s' → failed_scan s s' → container_scan_end s (Raise e) s') as Hfail.
  { intros e s' H1 H2. split; [by eapply rest_raise|]. by left. }
  assert (∀ (e : exn) s', moved R s s' → container_scan_end s (Raise e) s') as Hno.
  { intros e s' Hm. apply Hfail; [destruct Hm as ([H1 H2] & _); split; [done|by left]|by apply moved_failed]. }
  assert (∀ s', moved R s s' → tower_wf (dk_db s')) as Hwf' by (intros s' (_ & H & _); by eapply Rwf).
  unfold scan. apply wp_bind. eapply (wp_yields R _ (λ _, True)); [by apply yields_steady|done| |by intros; apply Hno].
  intros scan_id s1 M1 _. apply wp_bind.
  eapply (wp_yields R _ (λ _, True)); [apply yields_steady, steady_clock|apply M1| |by intros; eapply Hno, moved_trans].
  intros started s2 M2 _. pose proof (moved_trans R _ _ _ M1 M2) as M12.
  apply wp_bind. eapply (wp_yields R _ (λ _, True)); [|apply M12| |by intros; eapply Hno, moved_trans].
  { apply yields_steady. intros x. unfold emit_scan, at_tower, zoom, emit_always. cbn. by destruct (has_logger (dk_tower x)). }
  intros [] s3 M3 _. pose proof (moved_trans R _ _ _ M12 M3) as M13. unfold container_scan_locked.
  eapply wp_goes_on; [apply wp_load_rule, M13|exact M13| |exact Hfail].
  intros rule s4 M4 _. eapply wp_goes_on; [apply wp_or_record; [apply yields_steady, steady_running|apply M4]|exact M4| |exact Hfail].
  intros summaries s5 M5 _. cbv zeta. set (matching := filter _ summaries). set (ids := unique_in_order _ _).
  eapply (wp_goes_on _ _ (λ x, filed x.1)); [|exact M5| |exact Hfail].
  { unfold inspect_or_fail. destruct ids as [|id rest]; [apply wp_ret|].
    - split; [by destruct M5 as (? & _ & _); split_and!|]. split; [constructor|]. by intros k r ?%elem_of_nil.
    - apply wp_or_record; [apply inspect_filed|apply M5]. }
  intros x s6 M6 Hx. eapply wp_mono; [|apply wp_persist; [done|apply M6|by apply Hwf']].
  intros out s7 [H1 H2]. split; [done|]. destruct H2 as [[H2 H3]|H2]; [left; split; [done|by eapply failed_from]|].
  right. by eapply done_from.
Qed.
End Scan.

Section Claims.
Context (R : relation tower_db) `{!PreOrder R} (ad : DockerAdapter) `{!SteadyDocker ad} (casefold : string → string)
  (rule_provider : M desk (MatchingRule + string)).

(** A scan of the containers, under any failures of the configuration, of docker, of the
    database and of the audit file, any other writers, and a crash anywhere, either fails and
    commits nothing or only a scan row with the error, with at most one line, or commits in
    one step the write set of what docker said against the containers it read, with its row,
    and appends one line exactly if some container could not be inspected. *)
Theorem container_scan_is_atomic s :
  (∀ d d', R d d' → tower_wf d → tower_wf d') → steady rule_provider → resting R s → tower_wf (dk_db s) →
  wp (scan ad casefold rule_provider) (container_scan_end R s) s.
Proof. intros Rwf Hrule. by apply wp_container_scan. Qed.

End Claims.

(** ** A small installation *)

Definition bench_docker : DockerAdapter :=
  subprocess_docker (λ s, s) (λ _, EmptyString) (λ s, (s, None)) (λ _, EmptyString) (Some "docker"%string).
Definition any_bench : M desk (MatchingRule + string) := mret (inl default_rule).

Definition ps_row (id name : string) : string :=
  join_with (String tab EmptyString) [id; name; "img"; "Up"]%string +:+ String "010"%char EmptyString.
Definition inspect_entry (id : string) : string :=
  dumps (JObj [("Id", JStr id); ("Name", JStr ("/bench-" +:+ id)); ("Config", JObj [("User", JStr "dev:1000")]);
               ("State", JObj [("Status", JStr "running")]); ("Mounts", JArr [])])%string.

(** Ids and activity of the containers a scan leaves. *)
Definition containers_of (s : desk) : list (string * bool) :=
  (λ c, (cr_container_id c, cr_active c)) <$> (map_to_list (containers (dk_db s))).*2.
Definition scan_containers_with (answers : list (option DockerExecResult)) : outcome ScanResult * desk :=
  scan bench_docker Text.lower any_bench (live_desk answers).

(** A new container, and the old one that is gone. *)
Example scan_finds_containers :
  let r := scan_containers_with [says (ps_row "c2" "my-Bench" +:+ ps_row "c3" "other");
                                 says ("[" +:+ inspect_entry "c2" +:+ "]")] in
  is_ok r.1 = true ∧ containers_of r.2 = [("c1", false); ("c2", true)]%string ∧ dk_lines r.2 = [].
Proof. vm_compute. done. Qed.

(** A container that is there but cannot be inspected stays as it was. *)
Example scan_keeps_what_fails_inspection :
  let r := scan_containers_with [says (ps_row "c1" "bench" +:+ ps_row "c2" "bench2");
                                 Some (mkExec 1 ("[" +:+ inspect_entry "c2" +:+ "]") "no such object" None)] in
  is_ok r.1 = true ∧ containers_of r.2 = [("c1", true); ("c2", true)]%string ∧ length (dk_lines r.2) = 1%nat.
Proof. vm_compute. done. Qed.

(** A name with an alias is counted twice when the scan goes through, once when it fails. *)
Example aliases_count_twice :
  let ps := says (ps_row "c1" "bench,bench-alias") in
  (cs_matched_count <$> container_scans (dk_db (scan_containers_with [ps; says ("[" +:+ inspect_entry "c1" +:+ "]")]).2))
    = [2%nat] ∧
  (cs_matched_count <$> container_scans (dk_db (scan_containers_with [ps; Some (mkExec 1 "x" "boom" None)]).2)) = [1%nat].
Proof. vm_compute. done. Qed.

Lemma container_scan_is_atomic_witness :
  let s := live_desk [says (ps_row "c2" "my-Bench"); says ("[" +:+ inspect_entry "c2" +:+ "]")] in
  is_ok (scan bench_docker Text.lower any_bench s).1 = true ∧
  wp (scan bench_docker Text.lower any_bench) (container_scan_end eq s) s.
Proof.
  intros s. split; [vm_compute; reflexivity|].
  apply (container_scan_is_atomic eq bench_docker); [by intros ? ? ->|by intros x|apply live_resting|apply live_wf].
Defined.

