(* ===== verification/TowerHistory.v ===== *)
(** The services together: histories of requests to the agents and log services and of scans
    of containers and panes, on one database, with faults, crashes and restarts. *)

From S2P Require Import Prelude Errors Agents Permissions Store AuditWriter Json JsonParse Session Tables LogDao Tower RegistryDao Validation Desk AgentsService PipePane TmuxAdapter PaneReconcile PaneService TowerInvariant InTx RegistrySpec AgentsServiceSpec AgentsClaims LogPaths LogService LogServiceSpec LogClaims PaneScanSpec PaneClaims DockerAdapter ContainerDiscovery ContainerClaims.
From Stdlib Require Import Ascii.

Local Open Scope Z_scope.

Inductive tower_request :=
| OfDesk (q : desk_request)
| ScanPanes (filter_id : option string)
| ScanContainers.

Definition tower_promotes (q : tower_request) (id : string) : Prop :=
  match q with OfDesk q => desk_promotes q id | _ => False end.

(** An active agent sits on an active pane. *)
Definition tethered (d : tower_db) : Prop := ∀ a, a ∈ agents d → active a = true →
  ∃ p, panes d !! agent_composite_key a = Some p ∧ pr_active p = true.

(** The moves that keep the tables well formed, lose no agent, promote only [P], and leave no
    active agent behind on a dead pane. *)
Definition orderly (P : string → Prop) : relation tower_db := λ d d',
  lawful P d d' ∧ (tethered d → tethered d').

#[export] Instance orderly_preorder P : PreOrder (orderly P).
Proof. split; [by intros d|]. intros d1 d2 d3 [A1 A2] [B1 B2]. split; [by trans d2|auto]. Qed.

Lemma tethered_agents d d' : agents d' = agents d → panes d' = panes d → tethered d → tethered d'.
Proof. intros E1 E2 H a. rewrite E1, E2. apply H. Qed.

Lemma registry_step_orderly P Q d d' : (∀ id, P id → Q id) → registry_step P d d' → orderly Q d d'.
Proof.
  intros HPQ Hst. split; [by eapply registry_step_lawful|]. intros Ht b Hb Hact.
  destruct Hst as [Hst _ -> _]. destruct Hst as [row _ _ Hlive _|g Hg _].
  - apply elem_of_app in Hb as [Hb| ->%list_elem_of_singleton]; [by apply Ht|].
    destruct Hlive as (p & c & Hp & Ha & _). by exists p.
  - apply list_elem_of_fmap in Hb as (a & -> & Ha). destruct (Hg a Ha) as [Hid _ Hup].
    assert (agent_composite_key (g a) = agent_composite_key a) as -> by (unfold identity in Hid; congruence).
    destruct (Hup Hact) as [Ha'|(p & c & Hp & Hpa & _)]; [by apply Ht|by exists p].
Qed.

Lemma only_logs_orderly P d d' : only_logs d d' → orderly P d d'.
Proof. intros H. split; [by apply only_logs_lawful|]. destruct H. by apply tethered_agents. Qed.

(** ** Scans are orderly *)

(** A pane that is not inactivated stays active. *)
Lemma written_active ws now m k p :
  m !! k = Some p → pr_active p = true → k ∉ pw_inactivate ws →
  ∃ p', apply_writes ws now m !! k = Some p' ∧ pr_active p' = true.
Proof.
  intros Hp Ha Hk. unfold apply_writes. rewrite !rescan_lookup.
  pose proof (upserts_lookup (pw_upserts ws) m k) as Hu.
  destruct (foldl upsert_into m (pw_upserts ws) !! k) as [q|]; [|destruct Hu; congruence].
  cbn [fmap option_fmap option_map]. rewrite (bool_decide_eq_false_2 _ Hk). eexists. split; [done|].
  assert (pr_active q = true) as Hq by (destruct (decide _); [by destruct Hu|congruence]).
  by destruct (bool_decide _).
Qed.

Lemma scanned_agents ws now row d b :
  b ∈ agents (scanned ws now row d) →
  ∃ a, a ∈ agents d ∧ identity b = identity a ∧ role b = role a ∧
    (active b = true → active a = true ∧ agent_composite_key a ∉ pw_inactivate ws).
Proof.
  intros Hb. change (agents (scanned ws now row d)) with
    (map_where (bound_to (pw_inactivate ws)) deactivated
       (map_where (bound_to (pu_key <$> pw_upserts ws)) (seen_at now) (agents d))) in Hb.
  apply list_elem_of_fmap in Hb as (c & -> & Hc). apply list_elem_of_fmap in Hc as (a & Ec & Ha).
  exists a. split; [done|].
  assert (identity c = identity a ∧ role c = role a ∧ active c = active a) as (E1 & E2 & E3)
    by (rewrite Ec; by destruct (bound_to _ a)).
  assert (agent_composite_key c = agent_composite_key a) as E4 by (unfold identity in E1; congruence).
  unfold bound_to at 1 2 3. rewrite E4. destruct (bool_decide (agent_composite_key a ∈ pw_inactivate ws)) eqn:Ek.
  - by split_and!.
  - apply bool_decide_eq_false in Ek. split_and!; [done|done|]. intros Hact. split; [congruence|done].
Qed.

Lemma scanned_orderly P ws now row d :
  (tower_wf d → tower_wf (scanned ws now row d)) → orderly P d (scanned ws now row d).
Proof.
  intros Hwf. split; [split; [done|]; split|].
  - intros a Ha. change (agents (scanned ws now row d)) with
      (map_where (bound_to (pw_inactivate ws)) deactivated
         (map_where (bound_to (pu_key <$> pw_upserts ws)) (seen_at now) (agents d))).
    eexists. split; [apply list_elem_of_fmap_2, list_elem_of_fmap_2; exact Ha|]. by repeat case_match.
  - intros b Hb Hr. apply scanned_agents in Hb as (a & Ha & E1 & E2 & _). right. exists a. by rewrite <- E2.
  - intros Ht b Hb Hact. apply scanned_agents in Hb as (a & Ha & E1 & _ & E3). destruct (E3 Hact) as [Ha' Hk].
    assert (agent_composite_key b = agent_composite_key a) as -> by (unfold identity in E1; congruence).
    destruct (Ht a Ha Ha') as (p & Hp & Hpa). by apply (written_active ws now (panes d) _ p).
Qed.

Lemma same_agents_orderly P d d' :
  (tower_wf d → tower_wf d') → agents d' = agents d → panes d' = panes d → orderly P d d'.
Proof. intros Hwf E1 E2. split; [split; [done|by rewrite E1]|by apply tethered_agents]. Qed.

Lemma wf_scan_row d row : tower_wf d → tower_wf (set_pane_scans row d).
Proof. intros []. by constructor. Qed.
Lemma wf_container_scan_row d row : tower_wf d → tower_wf (set_container_scans row d).
Proof. intros []. by constructor. Qed.

(** ** Histories *)

Section Histories.
Context (repr_of : json → string) (sv : Z) (home : string) (uid : Z).
Context (tm : TmuxAdapter) `{!SteadyTmux tm} (env_user login : option string).
Context (dock : DockerAdapter) `{!SteadyDocker dock} (casefold : string → string)
  (rule_provider : M desk (MatchingRule + string)).

Definition serve_tower (q : tower_request) : M desk unit :=
  match q with
  | OfDesk q => serve_desk repr_of sv home q
  | ScanPanes f => _ ← scan_for_container tm env_user login uid f; mret tt
  | ScanContainers => _ ← scan dock casefold rule_provider; mret tt
  end.

(** A request that is killed is followed by a restart, which drops what was not committed. *)
Definition after_request (r : outcome unit * desk) : desk :=
  match r.1 with Raise SystemExit => closed r.2 | _ => r.2 end.

Definition tower_history (qs : list tower_request) (s : desk) : desk :=
  foldl (λ s q, after_request (serve_tower q s)) s qs.

Context (Hrule : steady rule_provider).

Lemma serve_tower_orderly P q s :
  (∀ id, tower_promotes q id → P id) → resting (orderly P) s → tower_wf (dk_db s) →
  wp (serve_tower q) (λ o s', at_rest_or_dead (orderly P) o s' ∧ orderly P (dk_db s) (dk_db s')) s.
Proof.
  intros HP Hs Hwf. assert (∀ d d', orderly P d d' → tower_wf d → tower_wf d') as Rwf by (by intros d d' [[] _]).
  assert (∀ A (m : M desk A), wp m (λ o s', at_rest_or_dead (orderly P) o s' ∧ orderly P (dk_db s) (dk_db s')) s →
    wp (_ ← m; mret tt) (λ o s', at_rest_or_dead (orderly P) o s' ∧ orderly P (dk_db s) (dk_db s')) s) as Hdrop.
  { intros A m H. apply wp_bind. eapply wp_mono; [|exact H]. intros [a|e] s' [[H1 H2] H3]; [apply wp_ret|];
      (split; [split; [done|]|done]); destruct H2 as [?|[= ->]]; auto. }
  destruct q as [q|f|]; cbn [serve_tower].
  - eapply wp_mono; [|apply (serve_desk_moves repr_of sv home (orderly P) Rwf); [|  |done|done]].
    + intros o s' [[H1 H2] H3]. split; [split; [done|by left]|done].
    + intros d d'. apply only_logs_orderly.
    + intros d d' Hst. eapply registry_step_orderly; [|exact Hst]. exact HP.
  - apply Hdrop. eapply wp_mono; [|by apply (wp_scan_for (orderly P) Rwf uid)].
    intros o s' [H1 H2]. split; [done|].
    destruct H2 as [(_ & H2 & _)|[(_ & row & d0 & ls & H2 & H3 & _)|(i & t & ca & pr & st & d0 & co & ls & Hb & H2 & H3 & _)]].
    + done.
    + trans d0; [done|]. rewrite H3. by apply same_agents_orderly; [apply wf_scan_row|..].
    + assert (orderly P (dk_db s) d0) as Hd0.
      { destruct Hb as [(d & v & B1 & B2 & _) _ _]. by trans d. }
      trans d0; [done|]. rewrite H2 in H3 |- *. by apply scanned_orderly.
  - apply Hdrop. eapply wp_mono; [|by apply (wp_container_scan (orderly P) Rwf dock casefold rule_provider)].
    intros o s' [H1 H2]. split; [done|].
    destruct H2 as [[_ [[H2 _]|(row & d0 & ls & H2 & H3 & _)]]|(ma & su & fa & pa & pk & d0 & now & row & de & ls & _ & Hr & H2)].
    + done.
    + trans d0; [done|]. rewrite H3. by apply same_agents_orderly; [apply wf_container_scan_row|..].
    + cbv zeta in H2. destruct H2 as (_ & _ & _ & _ & H2 & H3 & _).
      destruct Hr as (d1 & d2 & R1 & R2 & R3 & _). trans d1; [done|]. trans d2; [done|]. trans d0; [done|].
      rewrite H2 in H3 |- *. by apply same_agents_orderly.
Qed.

Lemma history_orderly P qs s :
  (∀ q, q ∈ qs → ∀ id, tower_promotes q id → P id) → resting (orderly P) s → tower_wf (dk_db s) →
  orderly P (dk_db s) (dk_db (tower_history qs s)).
Proof.
  revert s. induction qs as [|q qs IH]; intros s Hq Hs Hwf; [done|].
  assert (∀ id, tower_promotes q id → P id) as Hq0 by (apply Hq; by left).
  pose proof (serve_tower_orderly P q s Hq0 Hs Hwf) as Hstep. unfold wp in Hstep.
  cbn [tower_history foldl]. change (foldl _ ?x qs) with (tower_history qs x).
  destruct (serve_tower q s) as [o s1]. cbn [fst snd] in Hstep |- *. destruct Hstep as [[H1 H2] H3].
  assert (dk_db (after_request (o, s1)) = dk_db s1 ∧ resting (orderly P) (after_request (o, s1))) as [E Hs1].
  { unfold after_request. cbn [fst snd]. destruct o as [u|e].
    - split; [done|]. split; [done|]. by destruct H2.
    - destruct e; (split; [done|]); (split; [done|]); by destruct H2. }
  trans (dk_db s1); [done|]. rewrite <- E. apply IH; [|done|rewrite E; by apply H3].
  intros q' Hq'. apply Hq. by right.
Qed.

(** C13: over any history of registrations, changes of role, label and capability, listings,
    attaches, detaches, and scans of containers and panes, with faults, crashes and restarts,
    next to writers that keep the same law: the tables stay well formed, no agent is lost or
    rebound (id, pane, parent and creation time stay), and an agent is master at the end only
    if it was one before or some request named it, asked for the role master and confirmed it. *)
Theorem masters_are_confirmed qs s :
  let P id := ∃ q, q ∈ qs ∧ tower_promotes q id in
  resting (orderly P) s → tower_wf (dk_db s) →
  tower_wf (dk_db (tower_history qs s)) ∧
  (∀ a, a ∈ agents (dk_db s) → ∃ b, b ∈ agents (dk_db (tower_history qs s)) ∧ identity b = identity a) ∧
  (∀ b, b ∈ agents (dk_db (tower_history qs s)) → role b = "master"%string →
     P (agent_id b) ∨ ∃ a, a ∈ agents (dk_db s) ∧ identity a = identity b ∧ role a = "master"%string).
Proof.
  intros P Hs Hwf. destruct (history_orderly P qs s) as [[H1 [H2 H3]] _]; [|done|done|by split_and!; auto].
  intros q Hq id Hid. by exists q.
Qed.

(** C14: over the same histories an active agent always sits on an active pane: registration
    checks the pane under the write lock, and a scan that turns a pane off turns its agent off
    in the same commit. *)
Theorem active_agents_have_live_panes qs s :
  resting (orderly (λ _, True)) s → tower_wf (dk_db s) → tethered (dk_db s) →
  tethered (dk_db (tower_history qs s)).
Proof. intros Hs Hwf. by apply (history_orderly (λ _, True) qs s). Qed.
End Histories.

(** ** A small installation *)

Definition bench_history : list tower_request :=
  [OfDesk (OfAgents (RegisterAgent
     ([("container_id"%string, JStr "c1"); ("pane_composite_key"%string, key_json (live_key 1 "%1"))]) 1000));
   ScanContainers; ScanPanes None;
   OfDesk (OfAgents (set_role_demo "agt_bbbbbbbbbbbb" "master" true))].

Definition bench_run (answers : list (option DockerExecResult)) : desk :=
  tower_history (λ _, EmptyString) 1 "/home/me" 1000 (subprocess_tmux (Some "docker"%string) (λ s, s)) (Some "dev"%string) None
    bench_docker Text.lower any_bench bench_history (live_desk answers).

(** The container is still there, one of its panes is not. *)
Definition bench_answers : list (option DockerExecResult) :=
  [says (ps_row "c1" "bench"); says ("[" +:+ inspect_entry "c1" +:+ "]");
   says "1000"; says "default"; says (pane_text "1" "%1" "x")].

Example bench_history_run :
  (λ a, (agent_id a, role a, active a)) <$> agents (dk_db (bench_run bench_answers)) =
    [("agt_aaaaaaaaaaaa", "slave", false); ("agt_bbbbbbbbbbbb", "master", true)]%string ∧
  la_status <$> log_attachments (dk_db (bench_run bench_answers)) = ["stale"]%string.
Proof. vm_compute. done. Qed.

Lemma masters_are_confirmed_witness :
  role <$> agents (dk_db (bench_run bench_answers)) = ["slave"; "master"]%string ∧
  ∀ b, b ∈ agents (dk_db (bench_run bench_answers)) → role b = "master"%string →
    (∃ q, q ∈ bench_history ∧ tower_promotes q (agent_id b)) ∨
    ∃ a, a ∈ agents live_db ∧ identity a = identity b ∧ role a = "master"%string.
Proof.
  split; [vm_compute; reflexivity|].
  destruct (masters_are_confirmed (λ _, EmptyString) 1 "/home/me" 1000
    (subprocess_tmux (Some "docker"%string) (λ s, s)) (Some "dev"%string) None bench_docker Text.lower any_bench
    (λ s, conj eq_refl eq_refl) bench_history (live_desk bench_answers) (live_resting _ _) live_wf) as (_ & _ & H3).
  exact H3.
Defined.

Lemma live_tethered : tethered live_db.
Proof.
  intros a Ha _. apply elem_of_cons in Ha as [->|Ha]; [|apply list_elem_of_singleton in Ha as ->];
    (eexists; split; [vm_compute; reflexivity|reflexivity]).
Qed.

Lemma active_agents_have_live_panes_witness :
  active <$> agents (dk_db (bench_run bench_answers)) = [false; true] ∧ tethered (dk_db (bench_run bench_answers)).
Proof.
  split; [vm_compute; reflexivity|].
  apply (active_agents_have_live_panes (λ _, EmptyString) 1 "/home/me" 1000
    (subprocess_tmux (Some "docker"%string) (λ s, s)) (Some "dev"%string) None bench_docker Text.lower any_bench
    (λ s, conj eq_refl eq_refl) bench_history (live_desk bench_answers) (live_resting _ _) live_wf live_tethered).
Defined.

(** The pane of an attach is checked before its transaction begins: a scan that commits in
    between leaves an active attachment on a pane that is gone, which no later scan ends. *)
Definition scan_between (d : tower_db) : tower_db :=
  set_agents (deactivated <$> agents d)
    (set_panes (with_pane_scan false "t9" <$> panes d) d).
Definition racing_desk (n : nat) : desk :=
  set_dk_tower (set_sess (mkSession bench_db None [] (repeat (λ d, d) n ++ [scan_between]))
    (dk_tower (bench_desk [] ticking))) (bench_desk [] ticking).

Example attach_races_with_scan :
  let r := requests [attach_to "/work/A"] (racing_desk 6) in
  let later := set_dk_docker [says "1000"; says "default"; says EmptyString] [] r.2 in
  let s := (scan_panes (subprocess_tmux (Some "docker"%string) (λ s, s)) (Some "dev"%string) None 1000 later).2 in
  r.1 = [true] ∧ pr_active <$> (map_to_list (panes (dk_db r.2))).*2 = [false] ∧
  rows_of r.2 = [("/work/A", "active")]%string ∧
  ps_status <$> pane_scans (dk_db s) = ["ok"]%string ∧ rows_of s = [("/work/A", "active")]%string.
Proof. vm_compute. done. Qed.
