(* ===== verification/AppContract.v ===== *)
(** The desktop application's contract: closed sets of codes with their required details,
    response envelopes, app sessions and the gate every request passes
    (src/src/agenttower/app_contract/versioning.py, errors.py, envelope.py, host_only.py,
    sessions.py, preflight.py, hello.py, dispatcher.py), and the per-session replay store
    (idempotency.py).

    A handler is a program that answers an [app_envelope]; [app] holds what the contract
    keeps in memory.  The prose of an error message is left out of the envelope: [wire]
    takes it as an argument. *)

From S2P Require Import Prelude Errors Agents Permissions Store KillSwitch Json Validation.
From Stdlib Require Import Ascii.

Local Open Scope Z_scope.

(** ** Versions *)

Definition APP_CONTRACT_VERSION : string := "1.1".
Definition APP_CONTRACT_MAJOR : Z := 1.
Definition SUPPORTED_MINOR_RANGE : params := [("min", JStr "1.0"); ("max", JStr "1.1")].
Definition CAPABILITY_FLAGS_V1_0 : params := [].
Definition is_major_compatible (client_major : Z) : bool := client_major =? APP_CONTRACT_MAJOR.

(** [version.split(".")] *)
Fixpoint split_dots (s : string) : list string :=
  match s with
  | EmptyString => [EmptyString]
  | String c s' =>
      if bool_decide (c = "."%char) then EmptyString :: split_dots s'
      else match split_dots s' with
           | [] => [String c EmptyString]
           | w :: ws => String c w :: ws
           end
  end.

Definition parse_major_minor (version : string) : outcome (Z * Z) :=
  match split_dots version with
  | [major; minor] =>
      match int_of_text major, int_of_text minor with
      | Some x, Some y => Ok (x, y)
      | _, _ => Raise (PyError "ValueError")
      end
  | _ => Raise (PyError "ValueError")
  end.

Definition READINESS_STATES : list string := ["ready"; "degraded"; "unavailable"].
Definition SUBSYSTEM_STATUSES : list string := ["ok"; "degraded"; "unavailable"].
Definition SUBSYSTEM_NAMES : list string :=
  ["docker"; "tmux_discovery"; "sqlite"; "jsonl"; "routing_worker"; "log_attachment_workers"].
Definition HINT_SEVERITIES : list string := ["info"; "warning"; "action_required"].
Definition HINT_CODES : list string :=
  ["start_bench_container"; "check_container_filter"; "register_first_agent"; "attach_logs";
   "enable_first_route"; "docker_unavailable_hint"].
Definition CONTAINER_STATES : list string := ["active"; "inactive"; "degraded_scan"].

Definition ROLE_PRIORITY : list (string * Z) :=
  [("master", 1); ("slave", 2); ("swarm", 3); ("test-runner", 4); ("shell", 5); ("unknown", 6)]%string.
Definition STATE_PRIORITY : list (string * Z) :=
  [("queued", 1); ("blocked", 2); ("failed", 3); ("delivered", 4); ("canceled", 5)]%string.

(** [table.get(key, dflt)] on one of the constant tables. *)
Definition table_get {V} (table : list (string * V)) (key : string) : option V :=
  (λ x, x.2.2) <$> list_find (λ kv, kv.1 = key) table.

(** ** Codes and their details *)

Definition ERROR_CODES : list string :=
  ["app_session_required"; "app_session_expired"; "app_contract_major_unsupported";
   "unknown_method"; "malformed_request"; "validation_failed"; "not_found"; "stale_object";
   "pane_already_registered"; "pane_not_found"; "agent_not_found"; "route_not_found";
   "queue_message_not_found"; "scan_timeout"; "scan_not_found"; "daemon_unavailable";
   "socket_missing"; "socket_permission_denied"; "docker_unavailable"; "tmux_unavailable";
   "container_inactive"; "log_attach_blocked"; "routing_disabled"; "permission_denied";
   "host_only"; "payload_too_large"; "internal_error"].

(** [^[a-z][a-z0-9_]*$], where [$] also matches before a final newline. *)
Definition code_char (c : ascii) : bool :=
  let n := nat_of_ascii c in
  ((97 <=? n) && (n <=? 122) || (48 <=? n) && (n <=? 57) || (n =? 95))%nat.
Definition CODE_REGEX_match (code : string) : bool :=
  match drop_final_newline code with
  | EmptyString => false
  | String c rest => let n := nat_of_ascii c in ((97 <=? n) && (n <=? 122))%nat && Text.all code_char rest
  end.

Definition DETAILS_REQUIRED_KEYS : list (string * list string) :=
  [("malformed_request", ["reason"]); ("validation_failed", ["field"; "reason"]);
   ("app_contract_major_unsupported", ["daemon_app_contract_version"; "client_app_contract_major"]);
   ("pane_already_registered", ["agent_id"]); ("pane_not_found", ["pane_id"]);
   ("agent_not_found", ["agent_id"]); ("route_not_found", ["route_id"]);
   ("queue_message_not_found", ["message_id"]); ("scan_timeout", ["scan_id"]);
   ("scan_not_found", ["scan_id"]); ("container_inactive", ["container_id"]);
   ("log_attach_blocked", ["agent_id"; "reason"]);
   ("payload_too_large", ["size_limit_bytes"; "actual_size_bytes"]);
   ("permission_denied", []); ("internal_error", [])]%string.

Definition ContractViolation : exn := PyError "ContractViolation".

Definition validate_details (code : string) (details : params) : outcome unit :=
  if negb (CODE_REGEX_match code) then Raise ContractViolation
  else if bool_decide (code ∉ ERROR_CODES) then Raise ContractViolation
  else match table_get DETAILS_REQUIRED_KEYS code with
       | None => match details with [] => Ok tt | _ => Raise ContractViolation end
       | Some required =>
           if forallb (λ k, has_key k details) required then Ok tt else Raise ContractViolation
       end.

(** ** Envelopes *)

Inductive app_envelope :=
| Success (result : params)
| Failure (code : string) (details : params).

#[export] Instance json_inhabited : Inhabited json := populate JNull.

(** The object that goes on the wire, with the prose of a failure. *)
Definition wire (message : string) (e : app_envelope) : json :=
  match e with
  | Success result =>
      JObj [("ok", JBool true); ("app_contract_version", JStr APP_CONTRACT_VERSION);
            ("result", JObj result)]%string
  | Failure code details =>
      JObj [("ok", JBool false); ("app_contract_version", JStr APP_CONTRACT_VERSION);
            ("error", JObj [("code", JStr code); ("message", JStr message);
                            ("details", JObj details)])]%string
  end.

(** [envelope.success] *)
Definition success {S} (result : params) : M S app_envelope := mret (Success result).

(** [envelope.failure] *)
Definition failure (code : string) (details : params) : outcome app_envelope :=
  obind (validate_details code details) (λ _, Ok (Failure code details)).
Definition fail {S} (code : string) (details : params) : M S app_envelope :=
  λ s, (failure code details, s).

(** [envelope.internal_error], and [internal_error_logged] without its line on stderr. *)
Definition internal_error {S} : M S app_envelope := fail "internal_error" [].

(** [validation_failed] with its two details. *)
Definition invalid {S} (field reason : string) : M S app_envelope :=
  fail "validation_failed" [("field", JStr field); ("reason", JStr reason)]%string.

(** [_wrap_handler]: what leaves a handler other than an answer becomes [internal_error]. *)
Definition wrap_handler {S} (handler : M S app_envelope) : M S app_envelope :=
  except handler (λ _, internal_error).

Definition is_app_method (name : string) : bool := Text.startswith "app." name.
Definition make_unknown_method_envelope {S} : M S app_envelope := fail "unknown_method" [].

(** ** What the contract keeps in memory *)

Record AppSession := mkAppSession {
  app_session_token : string; app_session_id : Z; client_id : string; client_version : string;
  client_app_contract_major : Z; host_user_id : string; connection_started_at_ms : Z
}.

Record IdempotencyEntry := mkEntry {
  idempotency_key : string; ie_message_id : string; deduplicated_response : app_envelope;
  created_at_ms : Z
}.

Inductive ScanState := SRunning | SCompleted | SFailed.
#[export] Instance scan_state_eq_dec : EqDecision ScanState.
Proof. solve_decision. Defined.
Definition scan_state_text (s : ScanState) : string :=
  match s with SRunning => "running" | SCompleted => "completed" | SFailed => "failed" end.

(** [done] is the [threading.Event] of the record. *)
Record ScanRecord := mkScan {
  scan_id : string; scan_kind : string; scan_state : ScanState; started_at_ms : Z;
  issued_by_app_session_id : Z; completed_at_ms : option Z; scan_result : option params;
  done : bool
}.

(** The table maps ids to record objects, oldest first; a caller that waits holds the object
    itself, also after its entry was evicted. *)
Record ScanRegistry := mkScans {
  scan_records : list (string * nat);
  scan_objects : list ScanRecord
}.

(** [_session_id_counter], the sessions, the replay stores by session id (oldest entry first)
    and the scans, with the values [uuid.uuid4().hex] and [int(time.time() * 1000)] give. *)
Record app := mkApp {
  sessions : gmap string AppSession;
  session_id_counter : Z;
  idempotency_stores : gmap Z (list (string * IdempotencyEntry));
  scans : ScanRegistry;
  app_uuids : list string;
  app_clock : Z * list Z
}.

Definition set_sessions x n s := mkApp x n (idempotency_stores s) (scans s) (app_uuids s) (app_clock s).
Definition set_stores x s := mkApp (sessions s) (session_id_counter s) x (scans s) (app_uuids s) (app_clock s).
Definition set_scans x s :=
  mkApp (sessions s) (session_id_counter s) (idempotency_stores s) x (app_uuids s) (app_clock s).
Definition set_uuids x s :=
  mkApp (sessions s) (session_id_counter s) (idempotency_stores s) (scans s) x (app_clock s).
Definition set_app_clock x s :=
  mkApp (sessions s) (session_id_counter s) (idempotency_stores s) (scans s) (app_uuids s) x.

Definition uuid4_hex : M app string := λ s,
  (Ok (default "00000000000000000000000000000000"%string (head (app_uuids s))),
   set_uuids (tail (app_uuids s)) s).

Definition now_ms : M app Z := λ s,
  match app_clock s with
  | (t, []) => (Ok t, s)
  | (t, t' :: rest) => (Ok t, set_app_clock (t', rest) s)
  end.

(** [str(uuid)] *)
Definition uuid_str (h : string) : string :=
  String.substring 0 8 h +:+ "-" +:+ String.substring 8 4 h +:+ "-" +:+ String.substring 12 4 h +:+
  "-" +:+ String.substring 16 4 h +:+ "-" +:+ String.substring 20 (String.length h - 20) h.

(** ** Sessions *)

Definition MAX_SESSIONS : nat := 8.
Definition SessionCapExceeded : exn := PyError "SessionCapExceeded".

Definition next_session_id : M app Z := λ s,
  let n := session_id_counter s + 1 in (Ok n, set_sessions (sessions s) n s).

(** [SessionRegistry.create] *)
Definition create_session (client version : string) (major : Z) (uid : string) : M app AppSession :=
  s ← get;
  if bool_decide (MAX_SESSIONS ≤ size (sessions s))%nat then throw SessionCapExceeded
  else
    h ← uuid4_hex;
    n ← next_session_id;
    t ← now_ms;
    let session := mkAppSession (uuid_str h) n client version major uid t in
    _ ← modify (λ s, set_sessions (<[app_session_token session := session]> (sessions s))
                       (session_id_counter s) s);
    mret session.

(** [drop_idempotency_store] of mutations.py *)
Definition drop_idempotency_store (n : Z) : M app unit :=
  modify (λ s, set_stores (delete n (idempotency_stores s)) s).

(** [SessionRegistry.invalidate] *)
Definition invalidate_session (token : string) : M app unit :=
  s ← get;
  match sessions s !! token with
  | None => mret tt
  | Some session =>
      _ ← Store.put (set_sessions (delete token (sessions s)) (session_id_counter s) s);
      drop_idempotency_store (app_session_id session)
  end.

(** [is_host_peer] *)
Definition is_host_peer (p : peer) : bool :=
  if peer_uid p =? NO_PEER_UID then false else peer_is_host_process p.

(** [params.get(k)] for parameters that may not be an object at all. *)
Definition param (ps : json) (k : string) : option json :=
  match ps with JObj o => json_get k o | _ => None end.

(** [gate_session_required]: an answer to return at once, or the session. *)
Definition gate_session_required (ps : json) (p : peer) : M app (app_envelope + AppSession) :=
  let answer (m : M app app_envelope) : M app (app_envelope + AppSession) := e ← m; mret (inl e) in
  if negb (is_host_peer p) then answer (fail "host_only" [])
  else match param ps "app_session_token" with
       | Some (JStr token) =>
           if bool_decide (token = EmptyString) then answer (fail "app_session_required" [])
           else
             s ← get;
             match sessions s !! token with
             | None => answer (fail "app_session_expired" [])
             | Some session => mret (inr session)
             end
       | _ => answer (fail "app_session_required" [])
       end.

(** The body of a handler behind the gate. *)
Definition gated {S} (on_app : ∀ {A}, M app A → M S A) (ps : json) (p : peer)
    (body : AppSession → M S app_envelope) : M S app_envelope :=
  g ← on_app (gate_session_required ps p);
  match g with inl e => mret e | inr session => body session end.

(** ** app.preflight, app.hello *)

(** The fields of [DaemonContext] these handlers read. *)
Record app_ctx := mkAppCtx {
  ctx_daemon_version : string; ctx_schema_version : option Z; ctx_shutdown_requested : option bool;
  ctx_euid : Z
}.

Definition app_preflight (ctx : app_ctx) (p : peer) : M app app_envelope :=
  if negb (is_host_peer p) then fail "host_only" []
  else if bool_decide (ctx_shutdown_requested ctx = Some true)
  then success [("socket_reachable", JBool true); ("daemon_reachable", JBool false);
                ("code", JStr "daemon_unavailable")]%string
  else success [("socket_reachable", JBool true); ("daemon_reachable", JBool true);
                ("code", JStr "ok")]%string.

(** [_coerce_client_major] *)
Definition coerce_client_major (v : option json) : (string * string) + Z :=
  match v with
  | None | Some JNull => inr 1
  | Some (JInt z) => if z <? 1 then inl ("client_app_contract_major", "must be >= 1")%string else inr z
  | Some _ => inl ("client_app_contract_major", "must be an integer")%string
  end.

(** [_coerce_str] *)
Definition coerce_str (v : option json) (field : string) (max_len : nat) : (string * string) + string :=
  match v with
  | None | Some JNull => inr EmptyString
  | Some (JStr s) =>
      if bool_decide (max_len < char_count s)%nat
      then inl (field, "max length " +:+ print_int (Z.of_nat max_len)) else inr s
  | Some _ => inl (field, "must be a string"%string)
  end.

(** [x, err = check; if err: return err] *)
Definition checked {S A} (r : (string * string) + A) (k : A → M S app_envelope) : M S app_envelope :=
  match r with inl (field, reason) => invalid field reason | inr a => k a end.

Definition app_hello (ctx : app_ctx) (ps : json) (p : peer) : M app app_envelope :=
  if negb (is_host_peer p) then fail "host_only" []
  else
    checked (coerce_str (param ps "client_id") "client_id" 128) (λ client,
    checked (coerce_str (param ps "client_version") "client_version" 64) (λ version,
    checked (coerce_client_major (param ps "client_app_contract_major")) (λ major,
    if negb (is_major_compatible major)
    then fail "app_contract_major_unsupported"
           [("daemon_app_contract_version", JStr APP_CONTRACT_VERSION);
            ("client_app_contract_major", JInt major)]%string
    else
      let uid := print_int (if peer_uid p =? NO_PEER_UID then ctx_euid ctx else peer_uid p) in
      catch
        (session ← create_session client version major uid;
         success [("app_session_token", JStr (app_session_token session));
                  ("app_session_id", JInt (app_session_id session));
                  ("daemon_version", JStr (ctx_daemon_version ctx));
                  ("schema_version", JInt (default 0 (ctx_schema_version ctx)));
                  ("app_contract_version", JStr APP_CONTRACT_VERSION);
                  ("supported_minor_range", JObj SUPPORTED_MINOR_RANGE);
                  ("host_user_id", JStr uid);
                  ("capability_flags", JObj CAPABILITY_FLAGS_V1_0);
                  ("state", JStr "ok")]%string)
        (λ e, if bool_decide (e = SessionCapExceeded)
              then invalid "app.hello" "too_many_sessions" else throw e)))).

(** ** The replay store *)

Definition MAX_ENTRIES : nat := 256.
Definition MAX_KEY_LENGTH : nat := 256.

Section OrderedDict.
Context {V : Type}.
Implicit Types (d : list (string * V)).

(** [d.get(k)] *)
Definition od_get (k : string) d : option V := (λ x, x.2.2) <$> list_find (λ kv, kv.1 = k) d.
(** [d.pop(k)] *)
Definition od_pop (k : string) d : list (string * V) := filter (λ kv, kv.1 ≠ k) d.
(** [d.move_to_end(k, last=True)] *)
Definition od_move_to_end (k : string) d : list (string * V) :=
  match od_get k d with None => d | Some v => od_pop k d ++ [(k, v)] end.
End OrderedDict.

Abbreviation idempotency_store := (list (string * IdempotencyEntry)).

(** [IdempotencyStore.lookup] *)
Definition store_lookup (key : string) (d : idempotency_store)
  : option IdempotencyEntry * idempotency_store :=
  match od_get key d with
  | None => (None, d)
  | Some e => (Some e, od_move_to_end key d)
  end.

(** [IdempotencyStore.record] *)
Definition store_record (max_entries : nat) (key message_id : string) (response : app_envelope) (at_ms : Z)
    (d : idempotency_store) : idempotency_store :=
  let e := mkEntry key message_id response at_ms in
  match od_get key d with
  | Some _ => Json.put key e (od_move_to_end key d)
  | None =>
      let d' := Json.put key e d in
      if (max_entries <? length d')%nat then tail d' else d'
  end.

(** [_store_for_session] creates the store on first use. *)
Definition store_for_session (n : Z) : M app idempotency_store :=
  s ← get;
  match idempotency_stores s !! n with
  | Some d => mret d
  | None => _ ← Store.put (set_stores (<[n := []]> (idempotency_stores s)) s); mret []
  end.

Definition lookup_replay (n : Z) (key : string) : M app (option IdempotencyEntry) :=
  d ← store_for_session n;
  let (e, d') := store_lookup key d in
  _ ← modify (λ s, set_stores (<[n := d']> (idempotency_stores s)) s);
  mret e.

Definition record_replay (n : Z) (key message_id : string) (response : app_envelope) (at_ms : Z)
  : M app unit :=
  d ← store_for_session n;
  modify (λ s, set_stores (<[n := store_record MAX_ENTRIES key message_id response at_ms d]>
                             (idempotency_stores s)) s).

(** ** Envelopes are well formed *)

(** The code is in the closed set and the details are those it requires. *)
Definition well_formed (e : app_envelope) : Prop :=
  match e with
  | Success _ => True
  | Failure code details =>
      code ∈ ERROR_CODES ∧
      match table_get DETAILS_REQUIRED_KEYS code with
      | None => details = []
      | Some required => Forall (λ k, is_Some (json_get k details)) required
      end
  end.

Lemma failure_well_formed code details e : failure code details = Ok e → well_formed e.
Proof.
  unfold failure, validate_details. intros H.
  destruct (negb _); [done|]. case_bool_decide as Hc; [done|].
  destruct (table_get _ _) as [required|] eqn:Et.
  - destruct (forallb _ _) eqn:Ef; [|done]. injection H as <-. simpl. rewrite Et.
    split; [done|]. apply Forall_forall. intros k Hk. rewrite forallb_forall in Ef.
    specialize (Ef k). unfold has_key in Ef. destruct (json_get k details); [by eexists|].
    discriminate Ef. by apply list_elem_of_In.
  - destruct details; [|done]. injection H as <-. simpl. by rewrite Et.
Qed.

(** Every answer of [m] is well formed. *)
Definition lawful {S} (m : M S app_envelope) : Prop :=
  ∀ s, match (m s).1 with Ok e => well_formed e | Raise _ => True end.

Create HintDb lawful.

Lemma lawful_success {S} r : lawful (S := S) (success r).
Proof. by intros s. Qed.
Lemma lawful_fail {S} code details : lawful (S := S) (fail code details).
Proof.
  intros s. unfold fail. simpl. destruct (failure code details) eqn:E; [|done].
  by eapply failure_well_formed.
Qed.
Lemma lawful_throw {S} e : lawful (S := S) (throw e).
Proof. by intros s. Qed.
Lemma lawful_bind {S A} (m : M S A) k : (∀ a, lawful (k a)) → lawful (m ≫= k).
Proof. intros H s. unfold mbind, M_bind. destruct (m s) as [[a|e] s']; [apply H|done]. Qed.
Lemma lawful_if {S} (b : bool) (m n : M S app_envelope) :
  lawful m → lawful n → lawful (if b then m else n).
Proof. by destruct b. Qed.
Lemma lawful_catch {S} (m : M S app_envelope) h :
  lawful m → (∀ e, lawful (h e)) → lawful (catch m h).
Proof.
  intros Hm Hh s. specialize (Hm s). unfold catch. destruct (m s) as [[a|e] s']; [done|]. apply Hh.
Qed.
Lemma lawful_except {S} (m : M S app_envelope) h :
  lawful m → (∀ e, lawful (h e)) → lawful (except m h).
Proof.
  intros. unfold except. apply lawful_catch; [done|]. intros e. destruct (is_exception e); [auto|].
  apply lawful_throw.
Qed.
Lemma lawful_checked {S A} r (k : A → M S app_envelope) : (∀ a, lawful (k a)) → lawful (checked r k).
Proof. intros. destruct r as [[]|]; simpl; [apply lawful_fail|auto]. Qed.
#[export] Hint Resolve lawful_success lawful_fail lawful_throw lawful_bind lawful_if lawful_catch
  lawful_except lawful_checked : lawful.
#[export] Hint Extern 1 (lawful internal_error) => apply lawful_fail : lawful.
#[export] Hint Extern 1 (lawful (invalid _ _)) => apply lawful_fail : lawful.
#[export] Hint Extern 4 (lawful (match ?x with _ => _ end)) => destruct x : lawful.

Lemma lawful_wrap {S} (m : M S app_envelope) : lawful m → lawful (wrap_handler m).
Proof. unfold wrap_handler. eauto with lawful. Qed.

(** A wrapped handler answers, unless the process goes down. *)
Lemma wrapped_answers {S} (m : M S app_envelope) s e :
  (wrap_handler m s).1 = Raise e → e = SystemExit.
Proof.
  unfold wrap_handler, except, catch. destruct (m s) as [[a|x] s'] eqn:E; [done|].
  destruct x; simpl; try done; by intros [= <-].
Qed.

Definition GATE_CODES : list string := ["host_only"; "app_session_required"; "app_session_expired"].

(** The gate changes nothing and never raises: it refuses, or the request comes from the
    host with the token of a live session. *)
Lemma wp_gate ps p (Q : outcome (app_envelope + AppSession) → app → Prop) s :
  (∀ code, code ∈ GATE_CODES → Q (Ok (inl (Failure code []))) s) →
  (∀ token session, is_host_peer p = true → param ps "app_session_token" = Some (JStr token) →
     sessions s !! token = Some session → Q (Ok (inr session)) s) →
  wp (gate_session_required ps p) Q s.
Proof.
  intros H1 H2.
  assert (Hf : ∀ code, code ∈ GATE_CODES →
    wp (e ← fail code []; mret (inl e) : M app (app_envelope + AppSession)) Q s).
  { intros code Hc. pose proof (H1 code Hc). unfold GATE_CODES in Hc.
    by repeat (apply elem_of_cons in Hc as [->|Hc]; [done|]); apply elem_of_nil in Hc. }
  unfold gate_session_required. destruct (is_host_peer p) eqn:Ep; [|apply (Hf "host_only"); set_solver].
  change (negb true) with false. cbv iota.
  destruct (param ps _) as [[]|] eqn:Et; try by apply (Hf "app_session_required"); set_solver.
  case_bool_decide; [by apply (Hf "app_session_required"); set_solver|].
  change (get ≫= ?k) with (λ s : app, k s s). unfold wp. cbv beta.
  destruct (sessions s !! s0) eqn:Es; [by eapply H2|]. apply (Hf "app_session_expired"). set_solver.
Qed.

(** ** The replay store is a bounded recency list *)

Inductive store_op :=
| OpLookup (key : string)
| OpRecord (key message_id : string) (response : app_envelope) (at_ms : Z).

Definition store_step (n : nat) (d : idempotency_store) (op : store_op) : idempotency_store :=
  match op with
  | OpLookup k => (store_lookup k d).2
  | OpRecord k m r t => store_record n k m r t d
  end.
Definition store_run (n : nat) (ops : list store_op) : idempotency_store := foldl (store_step n) [] ops.

(** The [n] most recent entries. *)
Definition newest {A} (n : nat) (l : list A) : list A := drop (length l - n)%nat l.

(** The reference: every key ever recorded, the least recently used first, never forgotten;
    only the [n] newest may be found. *)
Definition recency_step (n : nat) (u : idempotency_store) (op : store_op) : idempotency_store :=
  match op with
  | OpLookup k => match od_get k (newest n u) with Some e => od_pop k u ++ [(k, e)] | None => u end
  | OpRecord k m r t => od_pop k u ++ [(k, mkEntry k m r t)]
  end.
Definition recency (n : nat) (ops : list store_op) : idempotency_store := foldl (recency_step n) [] ops.

Section Recency.
Context {V : Type}.
Implicit Types (d u : list (string * V)) (k : string).

Lemma od_get_None k d : od_get k d = None ↔ k ∉ d.*1.
Proof.
  unfold od_get. rewrite fmap_None, list_find_None, Forall_forall, list_elem_of_fmap. split.
  - intros H (x & -> & Hx). by apply (H x).
  - intros H x Hx Hk. apply H. eauto.
Qed.
Lemma od_get_Some k d v : od_get k d = Some v → (k, v) ∈ d.
Proof.
  unfold od_get. rewrite fmap_Some. intros (x & Hx & ->). destruct x as [i [k' v']].
  apply list_find_Some in Hx as (Hl & Hk & _). simpl in *. subst. by eapply list_elem_of_lookup_2.
Qed.
Lemma od_get_elem k d v : NoDup d.*1 → (k, v) ∈ d → od_get k d = Some v.
Proof.
  intros Hn Hv. destruct (od_get k d) as [w|] eqn:E.
  - apply od_get_Some in E. apply (elem_of_list_to_map_1 (M := gmap string) d) in Hv, E; [congruence|done..].
  - apply od_get_None in E. destruct E. apply list_elem_of_fmap. by exists (k, v).
Qed.
Lemma od_pop_absent k d : k ∉ d.*1 → od_pop k d = d.
Proof.
  intros H. unfold od_pop. induction d as [|[k' v] d IH]; [done|]. rewrite filter_cons. simpl in *.
  apply not_elem_of_cons in H as [H1 H2]. rewrite decide_True by congruence. by rewrite IH.
Qed.
Lemma od_pop_keys k d : (od_pop k d).*1 = filter (λ k', k' ≠ k) d.*1.
Proof.
  unfold od_pop. induction d as [|[k' v] d IH]; [done|]. rewrite fmap_cons, !filter_cons. simpl.
  case_decide; [|done]. rewrite fmap_cons. simpl. by f_equal.
Qed.
Lemma od_pop_length k d : NoDup d.*1 → k ∈ d.*1 → length d = S (length (od_pop k d)).
Proof.
  unfold od_pop. induction d as [|[k' v] d IH]; [by intros _ ?%elem_of_nil|]. intros Hn Hk.
  inversion Hn; subst. rewrite filter_cons. simpl. case_decide as E; simpl.
  - f_equal. apply IH; [done|]. apply elem_of_cons in Hk as [->|?]; done.
  - destruct (decide (k' = k)) as [->|]; [|done]. f_equal. symmetry. f_equal. by apply od_pop_absent.
Qed.
Lemma od_pop_app k d u : od_pop k (u ++ d) = od_pop k u ++ od_pop k d.
Proof. apply filter_app. Qed.
Lemma od_pop_not_in k d : k ∉ (od_pop k d).*1.
Proof. rewrite od_pop_keys, list_elem_of_filter. tauto. Qed.
Lemma put_after k v w d : k ∉ d.*1 → Json.put k v (d ++ [(k, w)]) = d ++ [(k, v)].
Proof.
  induction d as [|[k' x] d IH]; simpl; intros H.
  - by rewrite decide_True.
  - apply not_elem_of_cons in H as [H1 H2]. rewrite decide_False by done. by rewrite IH.
Qed.
Lemma put_absent k v d : k ∉ d.*1 → Json.put k v d = d ++ [(k, v)].
Proof.
  induction d as [|[k' x] d IH]; simpl; intros H; [done|].
  apply not_elem_of_cons in H as [H1 H2]. rewrite decide_False by done. by rewrite IH.
Qed.

(** [d] holds the [n] newest of [u]. *)
Definition keeps_newest (n : nat) d u : Prop :=
  NoDup u.*1 ∧ ∃ old, u = old ++ d ∧ (length d = n ∨ old = [] ∧ (length d ≤ n)%nat).

Lemma keeps_newest_eq n d u : keeps_newest n d u → d = newest n u.
Proof.
  intros [_ (old & -> & [H|[-> H]])]; unfold newest; rewrite length_app.
  - replace (length old + length d - n)%nat with (length old) by lia. by rewrite drop_app_length.
  - simpl. replace (length d - n)%nat with 0%nat by lia. done.
Qed.

(** Using an entry that is held. *)
Lemma keeps_touch n d u k v w :
  keeps_newest n d u → od_get k d = Some w →
  keeps_newest n (od_pop k d ++ [(k, v)]) (od_pop k u ++ [(k, v)]).
Proof.
  intros [Hn (old & -> & Hl)] Hg.
  assert (Hk : k ∈ d.*1). { apply od_get_Some in Hg. apply list_elem_of_fmap. by exists (k, w). }
  rewrite fmap_app in Hn. apply NoDup_app in Hn as (Hn1 & Hd & Hn2).
  assert (Ho : k ∉ old.*1) by (intros ?; by eapply Hd).
  pose proof (od_pop_length k d Hn2 Hk) as Hlen. split.
  - rewrite fmap_app, od_pop_keys. apply NoDup_app. split; [|split; [|apply NoDup_singleton]].
    + apply NoDup_filter. rewrite fmap_app. by apply NoDup_app.
    + intros x Hx ?%list_elem_of_singleton. simpl in *. subst. apply list_elem_of_filter in Hx. tauto.
  - exists old. rewrite od_pop_app, (od_pop_absent k old Ho), app_assoc. split; [done|].
    rewrite length_app. simpl. destruct Hl as [Hl|[-> Hl]]; [left|right; split; [done|]]; lia.
Qed.

(** Adding an entry that is not held. *)
Lemma keeps_add n d u k v :
  keeps_newest n d u → od_get k d = None →
  keeps_newest n (if (n <? length (d ++ [(k, v)]))%nat then tail (d ++ [(k, v)]) else d ++ [(k, v)])
    (od_pop k u ++ [(k, v)]).
Proof.
  intros [Hn (old & -> & Hl)] Hg. apply od_get_None in Hg. split.
  - rewrite fmap_app, od_pop_keys. apply NoDup_app. split; [|split; [|apply NoDup_singleton]].
    + by apply NoDup_filter.
    + intros x Hx ?%list_elem_of_singleton. simpl in *. subst. apply list_elem_of_filter in Hx. tauto.
  - rewrite od_pop_app, (od_pop_absent k d Hg), length_app. simpl.
    destruct (Nat.ltb_spec n (length d + 1)).
    + assert (length d = n) as E by (destruct Hl as [?|[_ ?]]; lia).
      destruct d as [|x d]; simpl in *.
      * exists (od_pop k old ++ [(k, v)]). rewrite !app_nil_r. split; [done|]. by left.
      * exists (od_pop k old ++ [x]). rewrite <-!app_assoc. simpl. split; [done|]. left.
        rewrite length_app. simpl. lia.
    + destruct Hl as [Hl|[-> Hl]]; [lia|]. exists []. split; [done|]. right. split; [done|].
      rewrite length_app. simpl. lia.
Qed.
End Recency.

Lemma keeps_step n d u op : keeps_newest n d u → keeps_newest n (store_step n d op) (recency_step n u op).
Proof.
  intros H. pose proof (keeps_newest_eq _ _ _ H) as E. destruct op as [k|k m r t]; simpl.
  - unfold store_lookup. rewrite <-E. destruct (od_get k d) as [e|] eqn:Hg; [|done].
    simpl. unfold od_move_to_end. rewrite Hg. by eapply keeps_touch.
  - unfold store_record. destruct (od_get k d) as [e|] eqn:Hg.
    + unfold od_move_to_end. rewrite Hg, put_after by apply od_pop_not_in. by eapply keeps_touch.
    + rewrite put_absent by (by apply od_get_None). by apply keeps_add.
Qed.

Lemma keeps_run n ops : keeps_newest n (store_run n ops) (recency n ops).
Proof.
  unfold store_run, recency.
  assert (H : keeps_newest n (V := IdempotencyEntry) [] []).
  { split; [constructor|]. exists []. split; [done|]. right. split; [done|]. simpl. lia. }
  revert H. generalize (@nil (string * IdempotencyEntry)) at 1 3.
  generalize (@nil (string * IdempotencyEntry)). induction ops as [|op ops IH]; [done|].
  intros u d H. simpl. apply IH. by apply keeps_step.
Qed.

(** What the last record of a key stored. *)
Definition op_record (k : string) (op : store_op) : option IdempotencyEntry :=
  match op with
  | OpRecord k' m r t => if bool_decide (k' = k) then Some (mkEntry k m r t) else None
  | OpLookup _ => None
  end.
Definition latest (k : string) (ops : list store_op) : option IdempotencyEntry :=
  last (omap (op_record k) ops).

Lemma newest_elem {A} n (l : list A) x : x ∈ newest n l → x ∈ l.
Proof.
  unfold newest. generalize (length l - n)%nat as i. intros i Hx.
  rewrite <-(take_drop i l), elem_of_app. by right.
Qed.

Lemma recency_latest n ops k e : (k, e) ∈ recency n ops → latest k ops = Some e.
Proof.
  unfold recency, latest. revert k e. induction ops as [|op ops IH] using rev_ind; [by intros ?? ?%elem_of_nil|].
  intros k e. rewrite foldl_app, omap_app, last_app. simpl.
  assert (Hold : ∀ k', (k', e) ∈ foldl (recency_step n) [] ops → last (omap (op_record k') ops) = Some e)
    by auto.
  destruct op as [k'|k' m r t]; simpl; last case_bool_decide as E; simpl.
  - destruct (od_get k' _) as [e'|] eqn:Eg; [|auto]. rewrite elem_of_app. unfold od_pop.
    intros [[_ ?]%list_elem_of_filter|[= -> ->]%list_elem_of_singleton]; [auto|]. apply Hold.
    by apply od_get_Some, newest_elem in Eg.
  - subst k'. rewrite elem_of_app. unfold od_pop. intros [[Hk _]%list_elem_of_filter|H%list_elem_of_singleton]; [done|].
    congruence.
  - rewrite elem_of_app. unfold od_pop.
    intros [[_ ?]%list_elem_of_filter|H%list_elem_of_singleton]; [auto|congruence].
Qed.

(** [k] is held with [e] and at most [r] entries are more recent. *)
Definition held (k : string) (e : IdempotencyEntry) (r : nat) (d : idempotency_store) : Prop :=
  NoDup d.*1 ∧ ∃ pre post, d = pre ++ (k, e) :: post ∧ (length post ≤ r)%nat.

Lemma held_get k e r d : held k e r d → od_get k d = Some e.
Proof. intros [Hn (pre & post & -> & _)]. apply od_get_elem; [done|]. set_solver. Qed.

Lemma od_pop_NoDup {V} k (d : list (string * V)) v :
  NoDup d.*1 → NoDup (od_pop k d ++ [(k, v)]).*1.
Proof.
  intros Hn. rewrite fmap_app, od_pop_keys. apply NoDup_app.
  split; [by apply NoDup_filter|split; [|apply NoDup_singleton]].
  intros x Hx ?%list_elem_of_singleton. simpl in *. subst. apply list_elem_of_filter in Hx. tauto.
Qed.

Lemma held_mono k e r r' d : (r ≤ r')%nat → held k e r d → held k e r' d.
Proof. intros ? [? (pre & post & ? & ?)]. split; [done|]. exists pre, post. split; [done|lia]. Qed.

Lemma od_pop_le {V} k (d : list (string * V)) : (length (od_pop k d) ≤ length d)%nat.
Proof. apply length_filter. Qed.

(** Using another key makes [k] at most one step older. *)
Lemma held_after k e r d k' v :
  k' ≠ k → held k e r d → held k e (S r) (od_pop k' d ++ [(k', v)]).
Proof.
  intros Hk [Hn (pre & post & -> & Hr)]. split; [by apply od_pop_NoDup|].
  exists (od_pop k' pre), (od_pop k' post ++ [(k', v)]). split.
  - rewrite od_pop_app. unfold od_pop at 2. rewrite filter_cons, decide_True by (simpl; congruence).
    by rewrite <-app_assoc.
  - rewrite length_app. simpl. pose proof (od_pop_le k' post). lia.
Qed.

Lemma held_step n k e r d op :
  (S r < n)%nat → op_record k op = None → held k e r d → held k e (S r) (store_step n d op).
Proof.
  intros Hn Hop H. pose proof (held_get _ _ _ _ H) as Hg. destruct op as [k'|k' m rs t]; simpl in *.
  - unfold store_lookup. destruct (od_get k' d) as [e'|] eqn:E; [|by eapply held_mono; [|done]; lia].
    simpl. unfold od_move_to_end. rewrite E. destruct (decide (k' = k)) as [->|].
    + rewrite Hg in E. injection E as <-. destruct H as [HN _]. split; [by apply od_pop_NoDup|].
      exists (od_pop k d), []. split; [done|]. simpl. lia.
    + by apply held_after.
  - case_bool_decide as Ek; [done|]. unfold store_record. destruct (od_get k' d) as [e'|] eqn:E.
    + unfold od_move_to_end. rewrite E, put_after by apply od_pop_not_in. by apply held_after.
    + rewrite put_absent by (by apply od_get_None).
      pose proof (held_after k e r d k' (mkEntry k' m rs t) Ek H) as H'.
      rewrite od_pop_absent in H' by (by apply od_get_None). destruct (Nat.ltb_spec n (length (d ++ [(k', mkEntry k' m rs t)]))); [|done].
      destruct H' as [HN (pre & post & Hd & Hl)]. rewrite Hd in *. destruct pre as [|x pre]; simpl in *; [lia|].
      split; [by apply NoDup_cons in HN as []|]. by exists pre, post.
Qed.

Lemma held_run n k e ops r d :
  (r + length ops < n)%nat → Forall (λ op, op_record k op = None) ops → held k e r d →
  held k e (r + length ops) (foldl (store_step n) d ops).
Proof.
  revert r d. induction ops as [|op ops IH]; simpl; intros r d Hn Hf H.
  - by rewrite Nat.add_0_r.
  - inversion Hf; subst. replace (r + S (length ops))%nat with (S r + length ops)%nat by lia.
    apply IH; [lia|done|]. apply held_step; [lia|done|done].
Qed.

Lemma held_new n k m rs t d :
  (0 < n)%nat → NoDup d.*1 → held k (mkEntry k m rs t) 0 (store_record n k m rs t d).
Proof.
  intros Hn HN. unfold store_record. destruct (od_get k d) as [e|] eqn:E.
  - unfold od_move_to_end. rewrite E, put_after by apply od_pop_not_in.
    split; [by apply od_pop_NoDup|]. by exists (od_pop k d), [].
  - rewrite put_absent by (by apply od_get_None).
    assert (NoDup (d ++ [(k, mkEntry k m rs t)]).*1).
    { rewrite <-(od_pop_absent k d) by (by apply od_get_None). by apply od_pop_NoDup. }
    destruct (Nat.ltb_spec n (length (d ++ [(k, mkEntry k m rs t)]))) as [Hl|_]; [|split; [done|by exists d, []]].
    destruct d as [|x d]; [rewrite length_app in Hl; simpl in Hl; lia|]. simpl in *.
    split; [by apply NoDup_cons in H as []|]. by exists d, [].
Qed.

(** C21: the replay store of a session holds exactly the [n] most recently used keys, each with
    the response its last record stored, and a response survives any [n - 1] further uses of
    the store that do not record its key again. *)
Theorem replay_store_is_lru n ops :
  store_run n ops = newest n (recency n ops) ∧
  NoDup (store_run n ops).*1 ∧ (length (store_run n ops) ≤ n)%nat ∧
  (∀ k e, od_get k (store_run n ops) = Some e → latest k ops = Some e) ∧
  (∀ k m r t more, (length more < n)%nat → Forall (λ op, op_record k op = None) more →
     od_get k (store_run n (ops ++ OpRecord k m r t :: more)) = Some (mkEntry k m r t)).
Proof.
  pose proof (keeps_run n ops) as H. pose proof (keeps_newest_eq _ _ _ H) as E.
  assert (HN : NoDup (store_run n ops).*1).
  { destruct H as [HN (old & Ho & _)]. rewrite Ho, fmap_app in HN. by apply NoDup_app in HN as (_ & _ & ?). }
  split; [done|]. split; [done|]. split; [destruct H as [_ (? & _ & [?|[_ ?]])]; lia|]. split.
  - intros k e Hg%od_get_Some. apply (recency_latest n). rewrite E in Hg. by apply newest_elem in Hg.
  - intros k m r t more Hl Hf. unfold store_run. rewrite foldl_app. simpl. eapply held_get.
    apply (held_run n k _ more 0); [lia|done|]. apply held_new; [lia|done].
Qed.

Lemma replay_store_is_lru_witness :
  let e k := Success [("message_id", JStr k)]%string in
  let ops := [OpRecord "a" "m1" (e "m1") 1; OpRecord "b" "m2" (e "m2") 2; OpLookup "a";
              OpRecord "c" "m3" (e "m3") 3; OpLookup "b"]%string in
  (store_run 2 ops).*1 = ["a"; "c"]%string ∧
  od_get "a" (store_run 2 ops) = Some (mkEntry "a" "m1" (e "m1") 1)%string ∧
  latest "a" ops = Some (mkEntry "a" "m1" (e "m1") 1)%string.
Proof.
  cbv zeta. split; [reflexivity|]. split; [reflexivity|].
  apply (proj1 (proj2 (proj2 (proj2 (replay_store_is_lru 2 _))))). reflexivity.
Defined.

(** ** Sessions *)

Record sessions_ok (s : app) : Prop := mkSessionsOk {
  so_cap : (size (sessions s) ≤ MAX_SESSIONS)%nat;
  so_counter : 0 ≤ session_id_counter s;
  so_token t x : sessions s !! t = Some x → app_session_token x = t;
  so_id t x : sessions s !! t = Some x → 1 ≤ app_session_id x ≤ session_id_counter s;
  so_major t x : sessions s !! t = Some x → client_app_contract_major x = APP_CONTRACT_MAJOR;
  so_distinct t t' x x' : sessions s !! t = Some x → sessions s !! t' = Some x' →
    app_session_id x = app_session_id x' → t = t'
}.

(** What an [app.hello] may do: nothing, or issue one session. *)
Definition hello_post (p : peer) (s : app) (o : outcome app_envelope) (s' : app) : Prop :=
  match o with
  | Ok (Success r) =>
      is_host_peer p = true ∧ (size (sessions s) < MAX_SESSIONS)%nat ∧
      ∃ x, sessions s' = <[app_session_token x := x]> (sessions s) ∧
        app_session_token x = uuid_str (default "00000000000000000000000000000000"%string (head (app_uuids s))) ∧
        session_id_counter s' = app_session_id x ∧ app_session_id x = session_id_counter s + 1 ∧
        client_app_contract_major x = APP_CONTRACT_MAJOR ∧
        json_get "app_session_token" r = Some (JStr (app_session_token x)) ∧
        json_get "app_session_id" r = Some (JInt (app_session_id x)) ∧
        idempotency_stores s' = idempotency_stores s ∧ scans s' = scans s ∧
        app_uuids s' = tail (app_uuids s)
  | Ok (Failure _ _) => s' = s
  | Raise _ => False
  end.

Lemma wp_fail {S} code details e (Q : outcome app_envelope → S → Prop) s :
  failure code details = Ok e → Q (Ok e) s → wp (fail code details) Q s.
Proof. intros E H. unfold wp, fail. by rewrite E. Qed.

Lemma wp_invalid {S} field reason (Q : outcome app_envelope → S → Prop) s :
  Q (Ok (Failure "validation_failed" [("field", JStr field); ("reason", JStr reason)]%string)) s →
  wp (invalid field reason) Q s.
Proof. by apply wp_fail. Qed.

Lemma wp_checked {S A} (r : (string * string) + A) k (Q : outcome app_envelope → S → Prop) s :
  (∀ field reason, r = inl (field, reason) →
     Q (Ok (Failure "validation_failed" [("field", JStr field); ("reason", JStr reason)]%string)) s) →
  (∀ a, r = inr a → wp (k a) Q s) →
  wp (checked r k) Q s.
Proof. intros H1 H2. destruct r as [[f x]|a]; simpl; [apply wp_invalid; auto|auto]. Qed.

(** The session [create] adds, if there is room. *)
Lemma wp_create client version major uid (Q : outcome AppSession → app → Prop) s :
  ((MAX_SESSIONS ≤ size (sessions s))%nat → Q (Raise SessionCapExceeded) s) →
  ((size (sessions s) < MAX_SESSIONS)%nat → ∀ x s',
     sessions s' = <[app_session_token x := x]> (sessions s) ∧
     app_session_token x = uuid_str (default "00000000000000000000000000000000"%string (head (app_uuids s))) ∧
     session_id_counter s' = app_session_id x ∧ app_session_id x = session_id_counter s + 1 ∧
     client_app_contract_major x = major ∧
     idempotency_stores s' = idempotency_stores s ∧ scans s' = scans s ∧
     app_uuids s' = tail (app_uuids s) → Q (Ok x) s') →
  wp (create_session client version major uid) Q s.
Proof.
  intros H1 H2. unfold create_session. change (get ≫= ?k) with (λ s : app, k s s). unfold wp. cbv beta.
  case_bool_decide as Hs; [by apply H1|].
  destruct s as [ss cnt st sc us [t [|t' ts]]]; apply H2; simpl in *; (lia || done).
Qed.

Lemma wp_hello ctx ps p s : wp (app_hello ctx ps p) (hello_post p s) s.
Proof.
  unfold app_hello. destruct (is_host_peer p) eqn:Ep; [|by eapply wp_fail].
  change (negb true) with false. cbv iota.
  apply wp_checked; [done|]. intros client _. apply wp_checked; [done|]. intros version _.
  apply wp_checked; [done|]. intros major Hm.
  destruct (is_major_compatible major) eqn:Ec; [|by eapply wp_fail].
  apply wp_catch, wp_bind, wp_create; [intros _; by apply wp_invalid|].
  intros Hs x s' (H1 & H2 & H3 & H4 & H5 & H6 & H7 & H8). apply Z.eqb_eq in Ec. subst.
  split; [done|split; [done|]]. exists x. repeat split; done || (by rewrite H5).
Qed.

Lemma hello_sessions_ok p s o s' :
  sessions s !! uuid_str (default "00000000000000000000000000000000"%string (head (app_uuids s))) = None →
  sessions_ok s → hello_post p s o s' → sessions_ok s'.
Proof.
  intros Hf H. destruct o as [[r|? ?]|]; simpl; [|by intros ->|done].
  intros (_ & Hs & x & E & Et & En & Ei & Em & _). rewrite <-Et in Hf. destruct H as [H1 H0 H2 H3 H4 H5].
  split; rewrite ?E, ?En.
  - rewrite map_size_insert_None by done. unfold MAX_SESSIONS in *. lia.
  - lia.
  - intros t y [[<- <-]|[? Hy]]%lookup_insert_Some; [done|eauto].
  - intros t y [[<- <-]|[? Hy]]%lookup_insert_Some; [|apply H3 in Hy; lia].
    lia.
  - intros t y [[<- <-]|[? Hy]]%lookup_insert_Some; [done|eauto].
  - intros t t' y y' [[<- <-]|[? Hy]]%lookup_insert_Some [[<- <-]|[? Hy']]%lookup_insert_Some He; [done| | |eauto].
    + apply H3 in Hy'. lia.
    + apply H3 in Hy. lia.
Qed.
