(* ===== verification/AppCursor.v ===== *)
(** The opaque cursors of the application's listings
    (src/src/agenttower/app_contract/reads.py): a JSON object with sorted keys, in URL-safe
    base64, bound to the ordering and the filters it was issued under.

    [json.dumps] with its default escapes, [base64.urlsafe_b64encode] and
    [base64.urlsafe_b64decode] are modelled byte by byte, the decoder with the leniency of
    [binascii.a2b_base64]: characters outside the alphabet are skipped, and nothing is read
    after the padding that completes a group. *)

From S2P Require Import Prelude Errors Agents Permissions Store Utf8 KillSwitch Json Validation JsonParse AppContract.
From Stdlib Require Import Ascii.

Local Open Scope N_scope.

(** ** [json.dumps] with [ensure_ascii=True] *)

(** A backslash, [u] and four hexadecimal digits. *)
Definition u_escape (n : N) (rest : string) : string :=
  String backslash (String "u"%char
    (String (hex_char (n / 4096)) (String (hex_char (n / 256 mod 16))
       (String (hex_char (n / 16 mod 16)) (String (hex_char (n mod 16)) rest))))).

Definition escape_cp (cp : N) (rest : string) : string :=
  if cp <? 127 then escape_char (ascii_of_N cp) rest
  else if cp <? 0x10000 then u_escape cp rest
  else u_escape (0xD800 + (cp - 0x10000) / 0x400) (u_escape (0xDC00 + (cp - 0x10000) mod 0x400) rest).

(** On the bytes of a text; what it gives for other bytes does not matter. *)
Fixpoint escape_ascii (s : string) : string :=
  match s with
  | EmptyString => EmptyString
  | String c1 s1 =>
      let b1 := code c1 in
      if b1 <? 0xC0 then escape_cp b1 (escape_ascii s1)
      else if b1 <? 0xE0 then
        match s1 with
        | String c2 s2 => escape_cp ((b1 - 0xC0) * 64 + (code c2 - 0x80)) (escape_ascii s2)
        | _ => String c1 EmptyString
        end
      else if b1 <? 0xF0 then
        match s1 with
        | String c2 (String c3 s3) =>
            escape_cp (((b1 - 0xE0) * 64 + (code c2 - 0x80)) * 64 + (code c3 - 0x80)) (escape_ascii s3)
        | _ => String c1 s1
        end
      else
        match s1 with
        | String c2 (String c3 (String c4 s4)) =>
            escape_cp ((((b1 - 0xF0) * 64 + (code c2 - 0x80)) * 64 + (code c3 - 0x80)) * 64 + (code c4 - 0x80))
              (escape_ascii s4)
        | _ => String c1 s1
        end
  end.

(** [sort_keys=True] *)
Definition key_order (x y : string * json) : Prop := String.le x.1 y.1.
#[export] Instance key_order_dec : RelDecision key_order.
Proof. intros x y. unfold key_order. apply _. Defined.
Fixpoint sort_keys (v : json) : json :=
  match v with
  | JArr l => JArr (List.map sort_keys l)
  | JObj o => JObj (merge_sort key_order
                      (List.map (λ kv : string * json, let (k, x) := kv in (k, sort_keys x)) o))
  | _ => v
  end.

(** [json.dumps(v, separators=(",", ":"), sort_keys=True)] *)
Definition dumps_sorted (v : json) : string := dumps_with escape_ascii (sort_keys v).

(** ** Base64 *)

Definition b64_char (n : N) : ascii :=
  if n <? 26 then ascii_of_N (65 + n)
  else if n <? 52 then ascii_of_N (71 + n)
  else if n <? 62 then ascii_of_N (n - 4)
  else if n =? 62 then "-"%char else "_"%char.

Definition pad : ascii := "="%char.

(** [base64.urlsafe_b64encode] *)
Fixpoint b64_encode (s : string) : string :=
  match s with
  | EmptyString => EmptyString
  | String a EmptyString =>
      let x := code a in
      String (b64_char (x / 4)) (String (b64_char (x mod 4 * 16)) (String pad (String pad EmptyString)))
  | String a (String b EmptyString) =>
      let x := code a in let y := code b in
      String (b64_char (x / 4)) (String (b64_char (x mod 4 * 16 + y / 16))
        (String (b64_char (y mod 16 * 4)) (String pad EmptyString)))
  | String a (String b (String c rest)) =>
      let x := code a in let y := code b in let z := code c in
      String (b64_char (x / 4)) (String (b64_char (x mod 4 * 16 + y / 16))
        (String (b64_char (y mod 16 * 4 + z / 64)) (String (b64_char (z mod 64)) (b64_encode rest))))
  end.

(** The value of a character of either alphabet: the decoder translates [-_] to [+/]. *)
Definition b64_value (c : ascii) : option N :=
  let n := code c in
  if within 65 90 n then Some (n - 65)
  else if within 97 122 n then Some (n - 71)
  else if within 48 57 n then Some (n + 4)
  else if bool_decide (c ∈ ["-"; "+"]%char) then Some 62
  else if bool_decide (c ∈ ["_"; "/"]%char) then Some 63
  else None.

Definition BinasciiError : exn := PyError "Error".

(** [binascii.a2b_base64]: the position in the group of four, the bits left over, and the
    pads seen since the last character. *)
Fixpoint a2b_base64 (quad : nat) (left pads : N) (s : string) : outcome string :=
  match s with
  | EmptyString => match quad with O => Ok EmptyString | _ => Raise BinasciiError end
  | String c rest =>
      if bool_decide (c = pad) then
        match quad with
        | O | 1%nat => a2b_base64 quad left pads rest
        | _ => if 4 <=? N.of_nat quad + (pads + 1) then Ok EmptyString
               else a2b_base64 quad left (pads + 1) rest
        end
      else
        match b64_value c with
        | None => a2b_base64 quad left pads rest
        | Some v =>
            match quad with
            | O => a2b_base64 1 v 0 rest
            | 1%nat => obind (a2b_base64 2 (v mod 16) 0 rest)
                         (λ r, Ok (String (byte (left * 4 + v / 16)) r))
            | 2%nat => obind (a2b_base64 3 (v mod 4) 0 rest)
                         (λ r, Ok (String (byte (left * 16 + v / 4)) r))
            | _ => obind (a2b_base64 0 0 0 rest) (λ r, Ok (String (byte (left * 64 + v)) r))
            end
        end
  end.

(** [base64.urlsafe_b64decode(raw.encode("ascii"))] *)
Definition b64_decode (s : string) : outcome string :=
  if Text.all (λ c, code c <? 128) s then a2b_base64 0 0 0 s else Raise (PyError "UnicodeEncodeError").

(** ** Cursors *)

Local Open Scope Z_scope.

Definition MAX_CURSOR_BYTES : nat := Z.to_nat 512.

(** [_encode_cursor]; [None] when the token would be too long. *)
Definition encode_list_cursor (offset : Z) (order_by : string) (filters : params) : option string :=
  let payload := dumps_sorted (JObj [("offset", JInt offset); ("order_by", JStr order_by);
                                     ("filters", JObj filters)]%string) in
  let encoded := b64_encode payload in
  if bool_decide (MAX_CURSOR_BYTES < String.length encoded)%nat then None else Some encoded.

Section Decode.
Variable to_float : string → string * option Z.
Variable num_eq : json → json → bool.    (* [==] of two numbers when one is a float *)

(** [==] of decoded values: booleans are integers, dictionaries have no order. *)
Fixpoint py_eq (v w : json) : bool :=
  match v, w with
  | JNull, JNull => true
  | JStr s, JStr t => bool_decide (s = t)
  | JBool b, JBool c => bool_decide (b = c)
  | JBool b, JInt z | JInt z, JBool b => (if b then 1 else 0) =? z
  | JInt z, JInt z' => z =? z'
  | JFloat _ _, (JFloat _ _ | JInt _ | JBool _) | (JInt _ | JBool _), JFloat _ _ => num_eq v w
  | JArr l, JArr l' =>
      (fix go l l' := match l, l' with
                      | [], [] => true
                      | x :: l, y :: l' => py_eq x y && go l l'
                      | _, _ => false
                      end) l l'
  | JObj o, JObj o' =>
      (length o =? length o')%nat &&
      (fix go o := match o with
                   | [] => true
                   | (k, x) :: o => match json_get k o' with Some y => py_eq x y | None => false end && go o
                   end) o
  | _, _ => false
  end.

(** [_decode_cursor]: the offset, or the field and reason of the refusal. *)
Definition decode_list_cursor (raw : option json) (expected_order_by : string) (expected_filters : params)
  : (string * string) + Z :=
  let refuse reason := inl ("cursor_next"%string, reason) in
  match raw with
  | None | Some JNull => inr 0
  | Some (JStr token) =>
      if bool_decide (MAX_CURSOR_BYTES < char_count token)%nat then refuse "too long"%string
      else
        match obind (b64_decode token) (λ b,
              match decode b with Some _ => loads to_float b | None => Raise (PyError "UnicodeDecodeError") end) with
        | Raise _ => refuse "malformed"%string
        | Ok (JObj body) =>
            if negb (py_eq (default JNull (json_get "order_by" body)) (JStr expected_order_by))
            then refuse "order_by changed mid-pagination"%string
            else if negb (py_eq (default JNull (json_get "filters" body)) (JObj expected_filters))
            then refuse "filters changed mid-pagination"%string
            else match json_get "offset" body with
                 | Some (JInt z) => if z <? 0 then refuse "bad offset"%string else inr z
                 | Some (JBool b) => inr (if b then 1 else 0)
                 | _ => refuse "bad offset"%string
                 end
        | Ok _ => refuse "malformed"%string
        end
  | Some _ => refuse "wrong type"%string
  end.
End Decode.

Example cursor_demo :
  encode_list_cursor 50 "name:asc" [("state", JStr "active")]%string =
    Some "eyJmaWx0ZXJzIjp7InN0YXRlIjoiYWN0aXZlIn0sIm9mZnNldCI6NTAsIm9yZGVyX2J5IjoibmFtZTphc2MifQ=="%string ∧
  decode_list_cursor (λ t, (t, None)) (λ _ _, false)
    (Some (JStr "eyJmaWx0ZXJzIjp7InN0YXRlIjoiYWN0aXZlIn0sIm9mZnNldCI6NTAsIm9yZGVyX2J5IjoibmFtZTphc2MifQ=="))
    "name:asc" [("state", JStr "active")]%string = inr 50.
Proof. by vm_compute. Qed.

(** ** Base64 reads back *)

Local Open Scope N_scope.

(** A property of numbers below [n] that a computation checks. *)
Lemma below_check (P : N → bool) (n : nat) :
  forallb (λ i, P (N.of_nat i)) (seq 0 n) = true → ∀ x, x < N.of_nat n → P x = true.
Proof.
  intros H x Hx. rewrite forallb_forall in H. specialize (H (N.to_nat x)). rewrite N2Nat.id in H.
  apply H, in_seq. lia.
Qed.

Lemma b64_char_value n : n < 64 → b64_value (b64_char n) = Some n ∧ b64_char n ≠ pad ∧ code (b64_char n) < 128.
Proof.
  intros H.
  pose proof (below_check (λ n, bool_decide (b64_value (b64_char n) = Some n) && negb (bool_decide (b64_char n = pad)) &&
                                (code (b64_char n) <? 128)) 64 eq_refl n H) as Hb.
  apply andb_true_iff in Hb as [[H1%bool_decide_eq_true H2]%andb_true_iff H3%N.ltb_lt].
  apply negb_true_iff, bool_decide_eq_false in H2. done.
Qed.

Lemma a2b_char quad left pads n rest :
  n < 64 →
  a2b_base64 quad left pads (String (b64_char n) rest) =
    match quad with
    | O => a2b_base64 1 n 0 rest
    | 1%nat => obind (a2b_base64 2 (n mod 16) 0 rest) (λ r, Ok (String (byte (left * 4 + n / 16)) r))
    | 2%nat => obind (a2b_base64 3 (n mod 4) 0 rest) (λ r, Ok (String (byte (left * 16 + n / 4)) r))
    | _ => obind (a2b_base64 0 0 0 rest) (λ r, Ok (String (byte (left * 64 + n)) r))
    end.
Proof.
  intros Hn. destruct (b64_char_value n Hn) as (H1 & H2 & _). cbn [a2b_base64].
  rewrite bool_decide_eq_false_2 by done. by rewrite H1.
Qed.

Lemma join_bits a b k : b < k → (a * k + b) / k = a ∧ (a * k + b) mod k = b.
Proof.
  intros H. split.
  - rewrite N.div_add_l by lia. rewrite N.div_small by done. lia.
  - rewrite N.add_comm, N.Div0.mod_add. by apply N.mod_small.
Qed.

(** The arithmetic of a group. *)
Lemma group_bits x y z :
  x < 256 → y < 256 → z < 256 →
  x / 4 < 64 ∧ x mod 4 * 16 + y / 16 < 64 ∧ y mod 16 * 4 + z / 64 < 64 ∧ z mod 64 < 64 ∧
  x / 4 * 4 + (x mod 4 * 16 + y / 16) / 16 = x ∧
  (x mod 4 * 16 + y / 16) mod 16 * 16 + (y mod 16 * 4 + z / 64) / 4 = y ∧
  (y mod 16 * 4 + z / 64) mod 4 * 64 + z mod 64 = z.
Proof.
  intros Hx Hy Hz.
  pose proof (N.div_mod' x 4) as E1. pose proof (N.mod_lt x 4 ltac:(done)) as L1.
  pose proof (N.div_mod' y 16) as E2. pose proof (N.mod_lt y 16 ltac:(done)) as L2.
  pose proof (N.div_mod' z 64) as E3. pose proof (N.mod_lt z 64 ltac:(done)) as L3.
  assert (B1 : x / 4 < 64) by by apply N.Div0.div_lt_upper_bound.
  assert (B2 : y / 16 < 16) by by apply N.Div0.div_lt_upper_bound.
  assert (B3 : z / 64 < 4) by by apply N.Div0.div_lt_upper_bound.
  destruct (join_bits (x mod 4) (y / 16) 16 B2) as [-> ->].
  destruct (join_bits (y mod 16) (z / 64) 4 B3) as [-> ->].
  revert E1 L1 E2 L2 E3 L3 B1 B2 B3. generalize (x / 4), (x mod 4), (y / 16), (y mod 16), (z / 64), (z mod 64).
  intros. repeat split; lia.
Qed.

Lemma string_induction3 (P : string → Prop) :
  P EmptyString → (∀ a, P (String a EmptyString)) → (∀ a b, P (String a (String b EmptyString))) →
  (∀ a b c r, P r → P (String a (String b (String c r)))) → ∀ s, P s.
Proof.
  intros H0 H1 H2 H3 s.
  assert (H : ∀ n s, (String.length s < n)%nat → P s); [|apply (H (S (String.length s))); lia].
  clear s. induction n as [|n IH]; intros s Hs; [lia|].
  destruct s as [|a [|b [|c r]]]; auto. apply H3, IH. simpl in Hs. lia.
Qed.

Lemma b64_roundtrip s : a2b_base64 0 0 0 (b64_encode s) = Ok s.
Proof.
  induction s as [|a|a b|a b c r IH] using string_induction3; cbn [b64_encode].
  - done.
  - destruct (group_bits (code a) 0 0) as (A1 & A2 & A3 & A4 & A5 & A6 & A7); [apply code_bound|lia..|].
    change (0 / 16) with 0 in *. rewrite !N.add_0_r in *. rewrite !a2b_char by done.
    cbn. by rewrite (byte_is _ a).
  - destruct (group_bits (code a) (code b) 0) as (A1 & A2 & A3 & A4 & A5 & A6 & A7); [apply code_bound..|lia|].
    change (0 / 64) with 0 in *. rewrite !N.add_0_r in *. rewrite !a2b_char by done.
    change (a2b_base64 3 ?l 0 (String pad EmptyString)) with (Ok (A := string) EmptyString).
    cbn [obind]. by rewrite (byte_is _ a), (byte_is _ b).
  - destruct (group_bits (code a) (code b) (code c)) as (A1 & A2 & A3 & A4 & A5 & A6 & A7); [apply code_bound..|].
    rewrite !a2b_char by done. rewrite IH. cbn [obind]. by rewrite (byte_is _ a), (byte_is _ b), (byte_is _ c).
Qed.

Abbreviation all_ascii := (Text.all (λ c, code c <? 128)).

Lemma b64_encode_ascii s : all_ascii (b64_encode s) = true.
Proof.
  assert (Hc : ∀ n r, n < 64 → all_ascii (String (b64_char n) r) = all_ascii r).
  { intros n r Hn. cbn. destruct (b64_char_value n Hn) as (_ & _ & H). by rewrite (proj2 (N.ltb_lt _ _) H). }
  induction s as [|a|a b|a b c r IH] using string_induction3; cbn [b64_encode].
  - done.
  - destruct (group_bits (code a) 0 0) as (A1 & A2 & _); [apply code_bound|lia..|].
    change (0 / 16) with 0 in A2. rewrite N.add_0_r in A2. by rewrite !Hc.
  - destruct (group_bits (code a) (code b) 0) as (A1 & A2 & A3 & _); [apply code_bound..|lia|].
    change (0 / 64) with 0 in A3. rewrite N.add_0_r in A3. by rewrite !Hc.
  - destruct (group_bits (code a) (code b) (code c)) as (A1 & A2 & A3 & A4 & _); [apply code_bound..|].
    by rewrite !Hc.
Qed.

Lemma b64_decode_encode s : b64_decode (b64_encode s) = Ok s.
Proof. unfold b64_decode. by rewrite b64_encode_ascii, b64_roundtrip. Qed.

Lemma ascii_char_count s : all_ascii s = true → char_count s = String.length s.
Proof.
  induction s as [|c s IH]; [done|]. cbn. intros [Hc Hs]%andb_true_iff. rewrite IH by done.
  apply N.ltb_lt in Hc. unfold leads, code in *.
  replace (128 <=? nat_of_ascii c)%nat with false; [done|]. symmetry. apply Nat.leb_gt.
  unfold nat_of_ascii. lia.
Qed.

Lemma ascii_decodes s : all_ascii s = true → is_Some (decode s).
Proof.
  induction s as [|c s IH]; [by eexists|]. cbn. intros [Hc Hs]%andb_true_iff. rewrite Hc.
  destruct (IH Hs) as [t ->]. by eexists.
Qed.

(** ** JSON in ASCII reads back *)

Lemma hex_char_digit n : n < 16 → hex_digit (hex_char n) = Some n ∧ code (hex_char n) < 128.
Proof.
  intros H. pose proof (below_check (λ n, bool_decide (hex_digit (hex_char n) = Some n) && (code (hex_char n) <? 128)) 16 eq_refl n H) as Hb.
  apply andb_true_iff in Hb as [H1%bool_decide_eq_true H2%N.ltb_lt]. done.
Qed.

Lemma hex4_digits n :
  n < 0x10000 →
  hex4 (hex_char (n / 4096)) (hex_char (n / 256 mod 16)) (hex_char (n / 16 mod 16)) (hex_char (n mod 16)) = Some n.
Proof.
  intros Hn. assert (B : n / 4096 < 16) by by apply N.Div0.div_lt_upper_bound.
  unfold hex4. rewrite (proj1 (hex_char_digit (n / 4096) B)).
  rewrite !(λ m, proj1 (hex_char_digit (m mod 16) (N.mod_lt m 16 ltac:(done)))). cbn [mbind option_bind]. f_equal.
  pose proof (N.div_mod' n 16). pose proof (N.div_mod' (n / 16) 16). pose proof (N.div_mod' (n / 16 / 16) 16).
  rewrite !N.Div0.div_div in *. change (16 * 16) with 256 in *. change (256 * 16) with 4096 in *.
  revert H H0 H1. generalize (n / 4096), (n / 256), (n / 16). intros.
  generalize dependent (n mod 16). generalize dependent (n2 mod 16). generalize dependent (n1 mod 16). intros. lia.
Qed.

Lemma scan_u_escape n r :
  n < 0x10000 → within 0xD800 0xDBFF n = false →
  scan_string (u_escape n r) = after (encode_cp n) (scan_string r).
Proof.
  intros Hn Hs. unfold u_escape. cbn [scan_string].
  rewrite bool_decide_eq_false_2, bool_decide_eq_true_2, bool_decide_eq_true_2 by done.
  by rewrite hex4_digits, Hs by done.
Qed.

Lemma scan_pair hi lo r :
  hi < 0x10000 → within 0xD800 0xDBFF hi = true → lo < 0x10000 → within 0xDC00 0xDFFF lo = true →
  scan_string (u_escape hi (u_escape lo r)) = after (encode_cp (surrogates hi lo)) (scan_string r).
Proof.
  intros H1 H2 H3 H4. unfold u_escape at 1. cbn [scan_string].
  rewrite bool_decide_eq_false_2, bool_decide_eq_true_2, bool_decide_eq_true_2 by done.
  rewrite hex4_digits, H2 by done. unfold u_escape. rewrite bool_decide_eq_true_2 by done.
  rewrite bool_decide_eq_true_2 by done. cbn [andb]. by rewrite hex4_digits, H4.
Qed.

Lemma scan_escape_cp cp r :
  scalar cp = true → scan_string (escape_cp cp r) = after (encode_cp cp) (scan_string r).
Proof.
  intros Hs%scalar_iff. unfold escape_cp. destruct (N.ltb_spec cp 127) as [H|H].
  - rewrite scan_escape_char. f_equal. unfold encode_cp. by rewrite (proj2 (N.ltb_lt cp 0x80)) by lia.
  - destruct (N.ltb_spec cp 0x10000) as [H'|H'].
    + apply scan_u_escape; [done|]. apply within_not. lia.
    + pose proof (N.div_mod' (cp - 0x10000) 0x400) as E. pose proof (N.mod_lt (cp - 0x10000) 0x400 ltac:(done)) as L.
      assert (B : (cp - 0x10000) / 0x400 < 0x400) by (apply N.Div0.div_lt_upper_bound; lia).
      revert E L B. generalize ((cp - 0x10000) / 0x400), ((cp - 0x10000) mod 0x400). intros q m E L B.
      rewrite scan_pair; [|lia|apply within_iff; lia|lia|apply within_iff; lia]. do 2 f_equal.
      unfold surrogates. lia.
Qed.

Lemma u_escape_app n r u : u_escape n r +:+ u = u_escape n (r +:+ u).
Proof. done. Qed.
Lemma escape_cp_app cp r u : escape_cp cp r +:+ u = escape_cp cp (r +:+ u).
Proof. unfold escape_cp. by repeat case_match; rewrite ?escape_char_app. Qed.

Lemma escape_ascii_cp cp s : scalar cp = true → escape_ascii (encode_cp cp s) = escape_cp cp (escape_ascii s).
Proof.
  intros Hs%scalar_iff. unfold encode_cp. destruct (N.ltb_spec cp 0x80); [|destruct (N.ltb_spec cp 0x800); [|destruct (N.ltb_spec cp 0x10000)]].
  - cbn [escape_ascii]. rewrite code_byte by lia. by rewrite (proj2 (N.ltb_lt cp 0xC0)) by lia.
  - pose proof (N.div_mod' cp 64) as E. pose proof (N.mod_lt cp 64 ltac:(done)) as L.
    assert (B : cp / 64 < 32) by (apply N.Div0.div_lt_upper_bound; lia).
    revert E L B. generalize (cp / 64), (cp mod 64). intros q m E L B. cbn [escape_ascii].
    rewrite !code_byte by lia. rewrite (proj2 (N.ltb_ge _ _)), (proj2 (N.ltb_lt _ _)) by lia.
    f_equal. lia.
  - pose proof (N.div_mod' cp 64) as E. pose proof (N.mod_lt cp 64 ltac:(done)) as L.
    pose proof (N.div_mod' (cp / 64) 64) as E'. pose proof (N.mod_lt (cp / 64) 64 ltac:(done)) as L'.
    assert (B : cp / 64 < 1024) by (apply N.Div0.div_lt_upper_bound; lia).
    assert (B' : cp / 64 / 64 < 16) by (apply N.Div0.div_lt_upper_bound; lia).
    revert E L E' L' B B'. generalize (cp / 64), (cp mod 64). intros q m.
    generalize (q / 64), (q mod 64). intros q' m' E L E' L' B B'. cbn [escape_ascii].
    rewrite !code_byte by lia. rewrite !(proj2 (N.ltb_ge _ _)), (proj2 (N.ltb_lt _ _)) by lia.
    f_equal. lia.
  - pose proof (N.div_mod' cp 64) as E. pose proof (N.mod_lt cp 64 ltac:(done)) as L.
    pose proof (N.div_mod' (cp / 64) 64) as E'. pose proof (N.mod_lt (cp / 64) 64 ltac:(done)) as L'.
    pose proof (N.div_mod' (cp / 64 / 64) 64) as E2. pose proof (N.mod_lt (cp / 64 / 64) 64 ltac:(done)) as L2.
    assert (B : cp / 64 < 0x4400) by (apply N.Div0.div_lt_upper_bound; lia).
    assert (B' : cp / 64 / 64 < 0x110) by (apply N.Div0.div_lt_upper_bound; lia).
    assert (B2 : cp / 64 / 64 / 64 < 5) by (apply N.Div0.div_lt_upper_bound; lia).
    revert E L E' L' E2 L2 B B' B2. generalize (cp / 64), (cp mod 64). intros q m.
    generalize (q / 64), (q mod 64). intros q' m'. generalize (q' / 64), (q' mod 64).
    intros q2 m2 E L E' L' E2 L2 B B' B2. cbn [escape_ascii].
    rewrite !code_byte by lia. rewrite !(proj2 (N.ltb_ge _ _)) by lia.
    f_equal. lia.
Qed.

(** A Python text, as its UTF-8 bytes. *)
Definition is_text (s : string) : Prop := is_Some (decode s).

Lemma scan_escape_ascii s rest :
  is_text s → scan_string (escape_ascii s +:+ String quote_mark rest) = Some (s, rest).
Proof.
  intros [t [<- Ht]%encode_decode]. induction t as [|cp t IH]; [done|].
  simpl in Ht. apply andb_true_iff in Ht as [Hc Ht]. cbn [encode foldr].
  rewrite escape_ascii_cp, escape_cp_app, scan_escape_cp by done. fold (encode t). by rewrite IH.
Qed.

(** ** What is printed is ASCII without control characters *)

Definition visible (c : ascii) : bool := (32 <=? code c) && (code c <? 128).
Abbreviation all_visible := (Text.all visible).

Lemma visible_ascii s : all_visible s = true → all_ascii s = true.
Proof.
  induction s as [|c s IH]; [done|]. cbn. intros [[_ ->]%andb_true_iff Hs]%andb_true_iff. by apply IH.
Qed.

Lemma hex_visible m : m < 16 → visible (hex_char m) = true.
Proof. apply (below_check (λ m, visible (hex_char m)) 16 eq_refl). Qed.

Lemma all_visible_app s t : all_visible (s +:+ t) = all_visible s && all_visible t.
Proof. apply text_all_app. Qed.

Lemma u_escape_visible n r : n < 0x10000 → all_visible r = true → all_visible (u_escape n r) = true.
Proof.
  intros Hn Hr. unfold u_escape. assert (B : n / 4096 < 16) by by apply N.Div0.div_lt_upper_bound.
  assert (Hh : ∀ m x, m < 16 → all_visible (String (hex_char m) x) = all_visible x).
  { intros m x Hm. cbn. by rewrite hex_visible. }
  change (all_visible (String backslash (String "u"%char ?x))) with (all_visible x).
  by rewrite !Hh by (done || by apply N.mod_lt).
Qed.

Lemma escape_char_visible c r : code c < 127 → all_visible r = true → all_visible (escape_char c r) = true.
Proof.
  intros Hc Hr. unfold escape_char. cbv zeta. unfold code in Hc.
  repeat case_match; cbn; rewrite ?Hr; try done.
  - rewrite andb_true_r. unfold visible, code. rewrite H1. apply N.ltb_lt. lia.
  - apply N.leb_gt in H1.
    rewrite !hex_visible; [done|by apply N.mod_lt|by apply N.Div0.div_lt_upper_bound; lia].
Qed.

Lemma escape_cp_visible cp r : scalar cp = true → all_visible r = true → all_visible (escape_cp cp r) = true.
Proof.
  intros Hs%scalar_iff Hr. unfold escape_cp. destruct (N.ltb_spec cp 127) as [H|H].
  - apply escape_char_visible; [|done]. unfold code. rewrite N_ascii_embedding; lia.
  - destruct (N.ltb_spec cp 0x10000) as [H'|H']; [by apply u_escape_visible|].
    assert (B : (cp - 0x10000) / 0x400 < 0x400) by (apply N.Div0.div_lt_upper_bound; lia).
    pose proof (N.mod_lt (cp - 0x10000) 0x400 ltac:(done)) as L.
    apply u_escape_visible; [lia|]. apply u_escape_visible; [lia|done].
Qed.

Lemma escape_ascii_visible s : is_text s → all_visible (escape_ascii s) = true.
Proof.
  intros [t [<- Ht]%encode_decode]. induction t as [|cp t IH]; [done|].
  simpl in Ht. apply andb_true_iff in Ht as [Hc Ht]. cbn [encode foldr].
  rewrite escape_ascii_cp by done. apply escape_cp_visible; [done|]. by apply IH.
Qed.

Lemma print_int_visible z : all_visible (print_int z) = true.
Proof.
  assert (Hn : ∀ n, all_visible (print_nat n) = true).
  { intros n. destruct (print_nat_spec n) as (Hd & _). revert Hd. generalize (print_nat n). intros s.
    induction s as [|c s IH]; [done|]. cbn. intros [Hc Hs]%andb_true_iff. rewrite IH, andb_true_r by done.
    revert Hc. by destruct c as [[] [] [] [] [] [] [] []]. }
  destruct z; cbn [print_int]; [done|apply Hn|]. cbn. apply Hn.
Qed.

Lemma join_visible sep l :
  all_visible sep = true → Forall (λ s, all_visible s = true) l → all_visible (join_with sep l) = true.
Proof.
  intros Hsep. induction 1 as [|s l Hs Hl IH]; [done|]. cbn [join_with]. destruct l; [done|].
  by rewrite !all_visible_app, Hs, Hsep, IH.
Qed.

Abbreviation plain_text := (plain is_text).

Lemma plain_arr l : plain_text (JArr l) ↔ Forall plain_text l.
Proof. cbn [plain]. induction l; simpl; [by rewrite Forall_nil|]. rewrite Forall_cons. naive_solver. Qed.
Lemma plain_obj o : plain_text (JObj o) ↔ NoDup o.*1 ∧ Forall (λ kx, is_text kx.1 ∧ plain_text kx.2) o.
Proof.
  cbn [plain]. apply and_iff_compat_l. induction o; simpl; [by rewrite Forall_nil|]. rewrite Forall_cons. naive_solver.
Qed.

Lemma dumps_visible sp v : all_visible sp = true → plain_text v → all_visible (dumps_sep escape_ascii sp v) = true.
Proof.
  intros Hsp.
  assert (Hq : ∀ s, is_text s → all_visible (print_string escape_ascii s) = true).
  { intros s Hs. unfold print_string. change (all_visible (String quote_mark ?x)) with (all_visible x).
    by rewrite all_visible_app, escape_ascii_visible. }
  induction v as [|b|z|r t|t|l Hl|o Ho] using json_induction; intros Hp; cbn [dumps_sep].
  - done.
  - by destruct b.
  - apply print_int_visible.
  - done.
  - by apply Hq.
  - apply plain_arr in Hp. rewrite !all_visible_app, join_visible; [done|done|]. apply Forall_forall.
    intros s Hs. apply list_elem_of_In, in_map_iff in Hs as (v & <- & Hv). rewrite Forall_forall in Hl, Hp.
    apply list_elem_of_In in Hv. auto.
  - apply plain_obj in Hp as [_ Hp]. rewrite !all_visible_app, join_visible; [done|done|]. apply Forall_forall.
    intros s Hs. apply list_elem_of_In, in_map_iff in Hs as ([k v] & <- & Hv). rewrite Forall_forall in Ho, Hp.
    apply list_elem_of_In in Hv. destruct (Hp _ Hv) as [Hk Hx]. rewrite !all_visible_app, Hq, Hsp by done. by apply (Ho (k, v)).
Qed.

(** ** Sorting keys *)

Definition sort_member (kv : string * json) : string * json := let (k, x) := kv in (k, sort_keys x).

Lemma sort_members_keys o : (List.map sort_member o).*1 = o.*1.
Proof. induction o as [|[k v] o IH]; [done|]. cbn. by f_equal. Qed.

Lemma sort_keys_plain v : plain_text v → plain_text (sort_keys v).
Proof.
  induction v as [|b|z|r t|t|l Hl|o Ho] using json_induction; intros Hp; cbn [sort_keys]; try done.
  - apply plain_arr in Hp. apply plain_arr. rewrite Forall_forall in *. intros x Hx.
    apply list_elem_of_In, in_map_iff in Hx as (v & <- & Hv). apply list_elem_of_In in Hv. auto.
  - change (List.map _ o) with (List.map sort_member o). apply plain_obj in Hp as [Hn Hp]. apply plain_obj. split.
    + rewrite merge_sort_Permutation. by rewrite sort_members_keys.
    + rewrite merge_sort_Permutation. rewrite Forall_forall in *. intros x Hx.
      apply list_elem_of_In, in_map_iff in Hx as ([k v] & <- & Hv). apply list_elem_of_In in Hv.
      destruct (Hp _ Hv) as [H1 H2]. split; [done|]. by apply (Ho _ Hv).
Qed.

Lemma json_get_elem k v (o : params) : NoDup o.*1 → (k, v) ∈ o → json_get k o = Some v.
Proof.
  intros Hn Hv. unfold json_get. induction o as [|[k' v'] o IH]; [by apply elem_of_nil in Hv|].
  inversion Hn as [|?? Hk Hn']; subst. rewrite filter_cons. simpl. apply elem_of_cons in Hv as [[= <- <-]|Hv].
  - rewrite decide_True by done. rewrite filter_nil_Forall; [done|]. apply Forall_forall. intros [a b] Hab. simpl. intros ->.
    apply Hk, list_elem_of_fmap. by exists (k, b).
  - rewrite decide_False; [by apply IH|]. intros ->. apply Hk, list_elem_of_fmap. by exists (k, v).
Qed.

Section Equal.
Variable num_eq : json → json → bool.

(** A plain value equals itself with its keys sorted. *)
Lemma py_eq_sorted v : plain_text v → py_eq num_eq (sort_keys v) v = true.
Proof.
  induction v as [|b|z|r t|t|l Hl|o Ho] using json_induction; intros Hp; cbn [sort_keys py_eq]; try done.
  - by apply bool_decide_eq_true.
  - by apply Z.eqb_eq.
  - by apply bool_decide_eq_true.
  - apply plain_arr in Hp. induction l as [|x l IH]; [done|]. inversion Hl; inversion Hp; subst. cbn [List.map].
    apply andb_true_iff. auto.
  - change (List.map _ o) with (List.map sort_member o). apply plain_obj in Hp as [Hn Hp].
    set (o' := merge_sort _ _). assert (Hperm : o' ≡ₚ List.map sort_member o) by apply merge_sort_Permutation.
    apply andb_true_iff. split; [by rewrite Hperm, length_map, Nat.eqb_refl|].
    assert (Hall : ∀ kx, kx ∈ o' → ∃ x, (kx.1, x) ∈ o ∧ kx.2 = sort_keys x ∧ py_eq num_eq (sort_keys x) x = true).
    { intros kx Hkx. rewrite Hperm in Hkx. apply list_elem_of_In, in_map_iff in Hkx as ([k v] & <- & Hv).
      apply list_elem_of_In in Hv. exists v. split; [done|]. split; [done|]. rewrite Forall_forall in Ho, Hp.
      apply (Ho _ Hv). by apply Hp. }
    clearbody o'. clear Hperm. induction o' as [|[k x'] o' IH]; [done|].
    destruct (Hall (k, x')) as (x & Hx & E & He); [set_solver|]. simpl in Hx, E. subst x'.
    rewrite (json_get_elem k x) by done. rewrite He. apply IH. intros kx Hkx. apply Hall. set_solver.
Qed.
End Equal.

(** The keys of a cursor in order. *)
Lemma cursor_body offset order_by filters :
  sort_keys (JObj [("offset", JInt offset); ("order_by", JStr order_by); ("filters", JObj filters)]%string) =
  JObj [("filters", sort_keys (JObj filters)); ("offset", JInt offset); ("order_by", JStr order_by)]%string.
Proof. reflexivity. Qed.

Lemma b64_length s : (String.length s ≤ String.length (b64_encode s))%nat.
Proof. induction s using string_induction3; simpl in *; lia. Qed.

(** A number that fits in a cursor has few digits. *)
Lemma cursor_digits z order_by filters :
  (String.length (b64_encode (dumps_sorted
     (JObj [("offset", JInt z); ("order_by", JStr order_by); ("filters", JObj filters)]%string))) ≤ MAX_CURSOR_BYTES)%nat →
  (String.length (print_nat (Z.abs_N z)) ≤ MAX_STR_DIGITS)%nat.
Proof.
  intros H. pose proof (b64_length (dumps_sorted
     (JObj [("offset", JInt z); ("order_by", JStr order_by); ("filters", JObj filters)]%string))) as H'.
  pose proof (Nat.le_trans _ _ _ H' H) as Hl. clear H H'. unfold dumps_sorted in Hl. rewrite cursor_body in Hl.
  revert Hl. generalize (sort_keys (JObj filters)). intros f Hl.
  unfold dumps_with in Hl; cbn [dumps_sep List.map join_with] in Hl. rewrite !text_length_app in Hl.
  assert (String.length (print_nat (Z.abs_N z)) ≤ String.length (print_int z))%nat by (destruct z; simpl; lia).
  unfold MAX_CURSOR_BYTES, MAX_STR_DIGITS in *. lia.
Qed.

Local Open Scope Z_scope.

(** A cursor the daemon issued is read back as the offset it was issued for, when it comes
    with the same ordering and filters, whatever the texts in the filters. *)
Theorem cursor_round_trip to_float num_eq offset order_by filters token :
  0 ≤ offset → is_text order_by → plain_text (JObj filters) →
  encode_list_cursor offset order_by filters = Some token →
  decode_list_cursor to_float num_eq (Some (JStr token)) order_by filters = inr offset.
Proof.
  intros Hz Ho Hf. unfold encode_list_cursor. cbv zeta. case_bool_decide as Hl; [done|].
  apply Nat.nlt_ge in Hl. rename Hl into Hd. set (body := JObj (_ :: _)) in *.
  intros E%(f_equal (default EmptyString)). change (b64_encode (dumps_sorted body) = token) in E. subst token.
  pose proof (cursor_digits _ _ _ Hd) as Hdigits.
  assert (Hp : plain_text (sort_keys body)).
  { unfold body. rewrite cursor_body. apply plain_obj. split.
    - repeat constructor; set_solver.
    - pose proof (sort_keys_plain (JObj filters) Hf) as Hs. revert Hs. generalize (sort_keys (JObj filters)).
      intros f Hs. by repeat (apply Forall_cons; split); [split; [by eexists|]..|]. }
  unfold decode_list_cursor. rewrite ascii_char_count by apply b64_encode_ascii.
  rewrite bool_decide_eq_false_2 by (by apply Nat.nlt_ge). rewrite b64_decode_encode. cbn [obind].
  destruct (ascii_decodes (dumps_sorted body)) as [t ->]; [by apply visible_ascii, dumps_visible|].
  unfold dumps_sorted, dumps_with. rewrite (loads_dumps_sep to_float escape_ascii EmptyString is_text eq_refl scan_escape_ascii) by done.
  unfold body at 1. rewrite cursor_body. pose proof (py_eq_sorted num_eq (JObj filters) Hf) as He.
  revert He. generalize (sort_keys (JObj filters)). intros f He.
  change (json_get "order_by" _) with (Some (JStr order_by)). change (json_get "filters" _) with (Some f).
  change (json_get "offset" _) with (Some (JInt offset)). change (default JNull (Some ?x)) with x. rewrite He.
  cbn [py_eq]. rewrite bool_decide_eq_true_2 by done. cbn [negb]. by rewrite (proj2 (Z.ltb_ge offset 0)) by done.
Qed.

Lemma cursor_round_trip_witness :
  let filters := [("until", JStr "2026"); ("since", JStr (String "195"%char (String "169"%char EmptyString)))]%string in
  plain_text (JObj filters) ∧ is_text "event_id:desc" ∧
  ∀ token, encode_list_cursor 200 "event_id:desc" filters = Some token →
    decode_list_cursor (λ t, (t, None)) (λ _ _, false) (Some (JStr token)) "event_id:desc" filters = inr 200.
Proof.
  cbv zeta. set (filters := [_; _]).
  assert (H1 : plain_text (JObj filters)).
  { apply plain_obj. split; [eapply bool_decide_eq_true_1; by vm_compute|].
    repeat (apply Forall_cons; split); try split; try (by eexists; vm_compute); by apply Forall_nil. }
  assert (H2 : is_text "event_id:desc") by (eexists; by vm_compute).
  split; [exact H1|]. split; [exact H2|]. intros token.
  apply (cursor_round_trip (λ t, (t, None)) (λ _ _, false) 200 "event_id:desc" filters token); [lia|exact H2|exact H1].
Defined.

(** The longest token is 512 characters: with a long filter there is none, for any offset. *)
Example long_filter_has_no_cursor :
  encode_list_cursor 50 "event_id:desc"
    [("since"%string, JStr (String.concat EmptyString (repeat "0123456789"%string 40)))] = None.
Proof. by vm_compute. Qed.
