(* ===== verification/AppScans.v ===== *)
(** Scans on behalf of the desktop application: the registry of scan records with its caps,
    coalescing and eviction (src/src/agenttower/app_contract/scans.py), and the three scan
    handlers with the threads they start (scan_handlers.py).

    The scan itself runs on a worker thread, whose end is [run_scan_in_background], and a
    handler that waits leaves its own thread blocked on the record's event.  A scan request
    is therefore modelled in two parts: [scan_dispatch] until the worker is started, then
    [after_wait] when the wait is over, at any later time and with the event set or not, or
    [report_scan] when it does not wait.  [scan_history] interleaves these parts in any
    order. *)

From S2P Require Import Prelude Errors Agents Permissions Store KillSwitch Json Validation AppContract.

Local Open Scope Z_scope.

Definition MAX_RECORDS : nat := 100.
Definition MAX_IN_FLIGHT : nat := 4.
Definition VALID_KINDS : list string := ["containers"; "panes"].
Definition ScanCapExceeded : exn := PyError "ScanCapExceeded".

(** ** The registry *)

Definition scan_object (r : ScanRegistry) (i : nat) : option ScanRecord := scan_objects r !! i.

Definition is_running (o : ScanRecord) : bool := bool_decide (scan_state o = SRunning).

(** Whether the record of an entry satisfies [p]. *)
Definition entry_sat (p : ScanRecord → bool) (r : ScanRegistry) (x : string * nat) : bool :=
  match scan_object r x.2 with Some o => p o | None => false end.

Definition set_done (o : ScanRecord) : ScanRecord :=
  mkScan (scan_id o) (scan_kind o) (scan_state o) (started_at_ms o) (issued_by_app_session_id o)
    (completed_at_ms o) (scan_result o) true.

Definition finish_record (st : ScanState) (t : Z) (result : params) (o : ScanRecord) : ScanRecord :=
  mkScan (scan_id o) (scan_kind o) st (started_at_ms o) (issued_by_app_session_id o) (Some t)
    (Some result) true.

Definition alter_object (f : ScanRecord → ScanRecord) (i : nat) (r : ScanRegistry) : ScanRegistry :=
  mkScans (scan_records r) (alter f i (scan_objects r)).

(** [_evict_if_over_cap]: the oldest terminal record goes first; every turn removes one. *)
Fixpoint evict_loop (fuel max_records : nat) (r : ScanRegistry) : ScanRegistry :=
  match fuel with
  | O => r
  | S f =>
      if (max_records <? length (scan_records r))%nat then
        match list_find (λ x, entry_sat (λ o, negb (is_running o)) r x = true) (scan_records r) with
        | Some (_, x) => evict_loop f max_records (mkScans (od_pop x.1 (scan_records r)) (scan_objects r))
        | None =>
            match scan_records r with
            | [] => r
            | (_, i) :: rest =>
                evict_loop f max_records (alter_object set_done i (mkScans rest (scan_objects r)))
            end
        end
      else r
  end.
Definition evict_if_over_cap (r : ScanRegistry) : ScanRegistry :=
  evict_loop (length (scan_records r)) MAX_RECORDS r.

Definition in_flight_count (r : ScanRegistry) : nat :=
  length (filter (λ x, entry_sat is_running r x = true) (scan_records r)).

(** [ScanRegistry.start]: the record, and whether it was already running. *)
Definition start_scan (kind : string) (session : Z) : M app (nat * bool) :=
  if bool_decide (kind ∉ VALID_KINDS) then throw (PyError "ValueError")
  else
    s ← get;
    let r := scans s in
    match list_find (λ x, entry_sat (λ o, bool_decide (scan_kind o = kind) && is_running o) r x = true)
            (scan_records r) with
    | Some (_, x) => mret (x.2, true)
    | None =>
        if (MAX_IN_FLIGHT <=? in_flight_count r)%nat then throw ScanCapExceeded
        else
          h ← uuid4_hex;
          t ← now_ms;
          let i := length (scan_objects r) in
          let o := mkScan h kind SRunning t session None None false in
          _ ← modify (λ s, set_scans (evict_if_over_cap
                 (mkScans (Json.put h i (scan_records r)) (scan_objects r ++ [o]))) s);
          mret (i, false)
    end.

(** [ScanRegistry.complete] and [ScanRegistry.fail] *)
Definition finish_scan (st : ScanState) (id : string) (result : params) : M app (option nat) :=
  s ← get;
  match od_get id (scan_records (scans s)) with
  | None => mret None
  | Some i =>
      t ← now_ms;
      _ ← modify (λ s, set_scans (alter_object (finish_record st t result) i (scans s)) s);
      mret (Some i)
  end.
Definition complete_scan := finish_scan SCompleted.
Definition fail_scan := finish_scan SFailed.

(** [ScanRegistry.lookup] *)
Definition lookup_scan (id : string) : M app (option ScanRecord) :=
  s ← get; mret (od_get id (scan_records (scans s)) ≫= scan_object (scans s)).

(** ** Results *)

(** The Python values a scan returns; the last kind is any other object, by its [str()]. *)
Inductive pyobj :=
| PyNone | PyBool (b : bool) | PyInt (z : Z) | PyFloat (repr : string) (trunc : option Z) | PyStr (s : string)
| PyDict (d : list (string * pyobj)) | PyList (l : list pyobj) | PyTuple (l : list pyobj)
| PyDataclass (fields : list (string * pyobj)) | PyOther (text : string).

(** [_coerce_to_jsonable]; [asdict] only turns nested dataclasses into dictionaries. *)
Fixpoint coerce_to_jsonable (v : pyobj) : json :=
  match v with
  | PyNone => JNull
  | PyBool b => JBool b
  | PyInt z => JInt z
  | PyFloat r t => JFloat r t
  | PyStr s => JStr s
  | PyDict d | PyDataclass d =>
      JObj (List.map (λ kv : string * pyobj, let (k, x) := kv in (k, coerce_to_jsonable x)) d)
  | PyList l | PyTuple l => JArr (List.map coerce_to_jsonable l)
  | PyOther t => JStr t
  end.

(** [_result_to_dict]; [scrape] reads the public attributes of an object of no known kind. *)
Definition result_to_dict (scrape : pyobj → list (string * pyobj)) (v : pyobj) : params :=
  let fields d := match coerce_to_jsonable (PyDict d) with JObj o => o | _ => [] end in
  match v with
  | PyNone => []
  | PyDataclass d | PyDict d => fields d
  | _ => fields (scrape v)
  end.

Section Handlers.
Variable scrape : pyobj → list (string * pyobj).

(** [_run_scan_in_background], once the scan returned a value or raised an exception of the
    class named. *)
Definition run_scan_in_background (i : nat) (res : string + pyobj) : M app unit :=
  s ← get;
  match scan_object (scans s) i with
  | None => mret tt
  | Some o =>
      _ ← match res with
          | inl cls => fail_scan (scan_id o) [("error"%string, JStr cls)]
          | inr v => complete_scan (scan_id o) (result_to_dict scrape v)
          end;
      mret tt
  end.

(** ** Handlers *)

(** Where the first part of a scan request ends: with an answer, waiting on a record, or
    about to report it; and the worker it started, if any. *)
Inductive scan_begun := Answered (e : app_envelope) | Waiting (i : nat) | Reporting (i : nat).

Definition scan_dispatch (kind : string) (wired : bool) (ps : json) (p : peer)
  : M app (scan_begun * option nat) :=
  let answer (m : M app app_envelope) (w : option nat) : M app (scan_begun * option nat) :=
    e ← m; mret (Answered e, w) in
  g ← gate_session_required ps p;
  match g with
  | inl e => mret (Answered e, None)
  | inr session =>
      match default (JBool true) (param ps "wait") with
      | JBool wait =>
          if negb wired then answer internal_error None
          else
            st ← catch (x ← start_scan kind (app_session_id session); mret (Some x))
                   (λ e, if bool_decide (e = ScanCapExceeded) then mret None else throw e);
            match st with
            | None => answer (invalid "scan_kind" "too_many_scans_in_flight") None
            | Some (i, coalesced) =>
                let worker := if (coalesced : bool) then None else Some i in
                mret (if wait then Waiting i else Reporting i, worker)
            end
      | _ => answer (invalid "wait" "wrong type") None
      end
  end.

(** The rest of a request that does not wait. *)
Definition report_scan (i : nat) : M app app_envelope :=
  s ← get;
  match scan_object (scans s) i with
  | None => throw (PyError "AttributeError")
  | Some o => success [("scan_id", JStr (scan_id o)); ("state", JStr (scan_state_text (scan_state o)))]%string
  end.

(** The rest of a request that waits, when [record.done.wait] returned. *)
Definition after_wait (i : nat) : M app app_envelope :=
  s ← get;
  match scan_object (scans s) i with
  | None => throw (PyError "AttributeError")
  | Some o =>
      if negb (done o) then fail "scan_timeout" [("scan_id"%string, JStr (scan_id o))]
      else
        final ← lookup_scan (scan_id o);
        match final with
        | None => internal_error
        | Some f =>
            success [("scan_id", JStr (scan_id f)); ("state", JStr (scan_state_text (scan_state f)));
                     ("result", JObj (default [] (scan_result f)))]%string
        end
  end.

Definition app_scan_containers := scan_dispatch "containers".
Definition app_scan_panes := scan_dispatch "panes".

Definition app_scan_status (ps : json) (p : peer) : M app app_envelope :=
  gated (λ A m, m) ps p (λ _,
    match param ps "scan_id" with
    | Some (JStr id) =>
        if bool_decide (id = EmptyString) then invalid "scan_id" "missing or wrong type"
        else
          r ← lookup_scan id;
          match r with
          | None => fail "scan_not_found" [("scan_id"%string, JStr id)]
          | Some o =>
              success [("state", JStr (scan_state_text (scan_state o))); ("scan_kind", JStr (scan_kind o));
                       ("started_at", JInt (started_at_ms o));
                       ("completed_at", match completed_at_ms o with Some t => JInt t | None => JNull end);
                       ("result", match scan_result o with Some d => JObj d | None => JNull end)]%string
          end
    | _ => invalid "scan_id" "missing or wrong type"
    end).

(** ** Interleavings *)

Inductive scan_event :=
| Ev_scan (kind : string) (wired : bool) (ps : json) (p : peer)
| Ev_finish (worker : nat) (res : string + pyobj)   (* the worker of that record ends *)
| Ev_report (i : nat)
| Ev_resume (i : nat)
| Ev_status (ps : json) (p : peer)
| Ev_hello (ctx : app_ctx) (ps : json) (p : peer).

(** The state, and the records whose workers are still running. *)
Record scan_config := mkScanConfig { sc_app : app; sc_workers : list nat }.

Definition kind_handler (kind : string) : bool := bool_decide (kind ∈ VALID_KINDS).

Definition scan_step (c : scan_config) (ev : scan_event) : scan_config :=
  match ev with
  | Ev_scan kind wired ps p =>
      if kind_handler kind then
        let (o, s') := scan_dispatch kind wired ps p (sc_app c) in
        mkScanConfig s' (match o with Ok (_, Some i) => i :: sc_workers c | _ => sc_workers c end)
      else c
  | Ev_finish i res =>
      if bool_decide (i ∈ sc_workers c)
      then mkScanConfig (run_scan_in_background i res (sc_app c)).2 (filter (λ j, j ≠ i) (sc_workers c))
      else c
  | Ev_report i => mkScanConfig (report_scan i (sc_app c)).2 (sc_workers c)
  | Ev_resume i => mkScanConfig (after_wait i (sc_app c)).2 (sc_workers c)
  | Ev_status ps p => mkScanConfig (app_scan_status ps p (sc_app c)).2 (sc_workers c)
  | Ev_hello ctx ps p => mkScanConfig (app_hello ctx ps p (sc_app c)).2 (sc_workers c)
  end.
Definition scan_history (evs : list scan_event) (c : scan_config) : scan_config := foldl scan_step c evs.

End Handlers.

(** ** The invariant *)

(** Scan ids to come and those of the records are all different, as [uuid.uuid4] makes them. *)
Definition uuids_distinct (s : app) : Prop :=
  NoDup (app_uuids s ++ (scan_id <$> scan_objects (scans s))).

Record scan_inv_upto (n : nat) (r : ScanRegistry) (ws : list nat) : Prop := mkScanInv {
  si_cap : (length (scan_records r) ≤ n)%nat;
  si_ids : NoDup (scan_id <$> scan_objects r);
  si_keys : NoDup (scan_records r).*1;
  si_entry id i : (id, i) ∈ scan_records r → ∃ o, scan_objects r !! i = Some o ∧ scan_id o = id;
  si_running i o : scan_objects r !! i = Some o → scan_state o = SRunning →
    (scan_id o, i) ∈ scan_records r ∧ i ∈ ws;
  si_workers i : i ∈ ws → ∃ o, scan_objects r !! i = Some o ∧ scan_state o = SRunning;
  si_one i j o o' : scan_objects r !! i = Some o → scan_objects r !! j = Some o' →
    scan_state o = SRunning → scan_state o' = SRunning → scan_kind o = scan_kind o' → i = j;
  si_kind i o : scan_objects r !! i = Some o → scan_kind o ∈ VALID_KINDS;
  si_done i o : scan_objects r !! i = Some o → done o = negb (is_running o)
}.

Abbreviation scan_inv := (scan_inv_upto MAX_RECORDS).

Lemma alter_ids f i (l : list ScanRecord) :
  (∀ o, scan_id (f o) = scan_id o) → scan_id <$> alter f i l = scan_id <$> l.
Proof.
  intros Hf. apply list_eq. intros j. rewrite !list_lookup_fmap, list_lookup_alter.
  case_decide; [subst i|done]. destruct (l !! j) as [o|]; simpl; [|done]. f_equal. apply Hf.
Qed.

Section Invariant.
Context (n : nat) (r : ScanRegistry) (ws : list nat) (H : scan_inv_upto n r ws).

Lemma running_entry x o :
  x ∈ scan_records r → scan_objects r !! x.2 = Some o → scan_id o = x.1.
Proof. intros Hx Ho. destruct x as [id i]. apply (si_entry _ _ _ H) in Hx as (o' & ? & ?). simpl in *. congruence. Qed.

(** At most one running record per kind is in the table. *)
Lemma in_flight_two : (in_flight_count r ≤ 2)%nat.
Proof.
  unfold in_flight_count. set (l := filter _ (scan_records r)).
  set (kinds := (λ x : string * nat, match scan_object r x.2 with Some o => scan_kind o | None => EmptyString end) <$> l).
  assert (Hl : ∀ x, x ∈ l → x ∈ scan_records r ∧ ∃ o, scan_objects r !! x.2 = Some o ∧ scan_state o = SRunning).
  { intros x [Hs Hx]%list_elem_of_filter. split; [done|]. unfold entry_sat, scan_object in Hs.
    destruct (scan_objects r !! x.2) as [o|]; [|done]. exists o. split; [done|]. by apply bool_decide_eq_true in Hs. }
  assert (Hsub : kinds ⊆+ VALID_KINDS).
  { apply NoDup_submseteq.
    - subst kinds. apply (NoDup_fmap_2_strong _ l).
      + intros x y [Hx (o & Ho & Hr)]%Hl [Hy (o' & Ho' & Hr')]%Hl. unfold scan_object. rewrite Ho, Ho'. intros Hk.
        pose proof (si_one _ _ _ H _ _ _ _ Ho Ho' Hr Hr' Hk) as E.
        pose proof (running_entry _ _ Hx Ho). pose proof (running_entry _ _ Hy Ho').
        destruct x, y; simpl in *; subst; congruence.
      + apply NoDup_filter, (NoDup_fmap_1 fst). apply (si_keys _ _ _ H).
    - intros k (x & -> & [Hx (o & Ho & _)]%Hl)%list_elem_of_fmap. unfold scan_object. rewrite Ho.
      by eapply si_kind. }
  apply submseteq_length in Hsub. subst kinds. by rewrite length_fmap in Hsub.
Qed.

Lemma alter_lookup f i j o :
  alter f i (scan_objects r) !! j = Some o →
  ∃ o0, scan_objects r !! j = Some o0 ∧ o = (if decide (i = j) then f o0 else o0).
Proof.
  destruct (decide (i = j)) as [->|].
  - rewrite list_lookup_alter_eq. intros (o0 & ? & ?)%fmap_Some. eauto.
  - rewrite list_lookup_alter_ne by done. eauto.
Qed.

(** A worker reports: its record becomes terminal. *)
Lemma finish_inv st t result i :
  st ≠ SRunning → i ∈ ws →
  scan_inv_upto n (alter_object (finish_record st t result) i r) (filter (λ j, j ≠ i) ws).
Proof.
  intros Hst Hi.
  assert (Hrun : ∀ j o, alter (finish_record st t result) i (scan_objects r) !! j = Some o →
    scan_state o = SRunning → j ≠ i ∧ scan_objects r !! j = Some o).
  { intros j o (o0 & Ho & ->)%alter_lookup. case_decide; [by intros ?|]. done. }
  destruct H as [H1 H2 H3 H4 H5 H6 H7 H8 H9]. split; simpl; try done.
  - by rewrite alter_ids.
  - intros id j (o & Ho & Hid)%H4. destruct (decide (i = j)) as [->|].
    + rewrite list_lookup_alter_eq, Ho. eexists. by split.
    + rewrite list_lookup_alter_ne by done. eauto.
  - intros j o Ho Hr. destruct (Hrun _ _ Ho Hr) as [Hj Ho']. destruct (H5 _ _ Ho' Hr). split; [done|].
    by apply list_elem_of_filter.
  - intros j [Hj Hw]%list_elem_of_filter. apply H6 in Hw as (o & Ho & Hr). exists o.
    by rewrite list_lookup_alter_ne.
  - intros j k o o' Ho Ho' Hr Hr'. destruct (Hrun _ _ Ho Hr), (Hrun _ _ Ho' Hr'). by apply H7.
  - intros j o (o0 & Ho & ->)%alter_lookup. apply H8 in Ho. by case_decide.
  - intros j o (o0 & Ho & ->)%alter_lookup. case_decide; [|by eapply H9]. unfold is_running. simpl.
    by rewrite bool_decide_false.
Qed.

(** A new record of a kind that is not running, under a fresh id. *)
Lemma start_inv h kind t session :
  h ∉ scan_id <$> scan_objects r → kind ∈ VALID_KINDS →
  (∀ i o, scan_objects r !! i = Some o → scan_state o = SRunning → scan_kind o ≠ kind) →
  scan_inv_upto (S n)
    (mkScans (Json.put h (length (scan_objects r)) (scan_records r))
       (scan_objects r ++ [mkScan h kind SRunning t session None None false]))
    (length (scan_objects r) :: ws).
Proof.
  intros Hh Hk Hno. set (o := mkScan _ _ _ _ _ _ _ _). set (i := length (scan_objects r)).
  destruct H as [H1 H2 H3 H4 H5 H6 H7 H8 H9].
  assert (Hr : h ∉ (scan_records r).*1).
  { intros ([id j] & -> & (o' & Ho & <-)%H4)%list_elem_of_fmap. destruct Hh. simpl. apply list_elem_of_fmap.
    exists o'. split; [done|]. by eapply list_elem_of_lookup_2. }
  assert (Hobj : ∀ j o', (scan_objects r ++ [o]) !! j = Some o' →
    scan_objects r !! j = Some o' ∨ j = i ∧ o' = o).
  { intros j o' [?|[? Hj]]%lookup_app_Some; [by left|right]. destruct (j - _)%nat eqn:E; [|done].
    injection Hj as <-. split; [unfold i; lia|done]. }
  assert (Hold : ∀ j o', scan_objects r !! j = Some o' → (scan_objects r ++ [o]) !! j = Some o').
  { intros. by apply lookup_app_l_Some. }
  assert (Hnew : (scan_objects r ++ [o]) !! i = Some o) by (unfold i; by rewrite list_lookup_middle).
  rewrite put_absent by done. split; simpl; try rewrite !fmap_app.
  - rewrite length_app. simpl. lia.
  - apply NoDup_app. split; [done|split; [|apply NoDup_singleton]]. by intros x Hx ->%list_elem_of_singleton.
  - apply NoDup_app. split; [done|split; [|apply NoDup_singleton]]. by intros x Hx ->%list_elem_of_singleton.
  - intros id j [(o' & ? & ?)%H4|[= -> ->]%list_elem_of_singleton]%elem_of_app; eauto.
  - intros j o' [Ho|[-> ->]]%Hobj Hrun; [|set_solver]. destruct (H5 _ _ Ho Hrun). set_solver.
  - intros j [->|(o' & ? & ?)%H6]%elem_of_cons; eauto.
  - intros j k o1 o2 [Ho1|[-> ->]]%Hobj [Ho2|[-> ->]]%Hobj Hr1 Hr2 Hkk; [eauto| | |done].
    + by destruct (Hno _ _ Ho1 Hr1).
    + by destruct (Hno _ _ Ho2 Hr2).
  - intros j o' [?|[-> ->]]%Hobj; eauto.
  - intros j o' [?|[-> ->]]%Hobj; [eauto|done].
Qed.

(** Dropping a record that has ended. *)
Lemma pop_inv x o :
  x ∈ scan_records r → scan_objects r !! x.2 = Some o → scan_state o ≠ SRunning →
  scan_inv_upto (Nat.pred n) (mkScans (od_pop x.1 (scan_records r)) (scan_objects r)) ws.
Proof.
  intros Hx Ho Hst. pose proof (running_entry _ _ Hx Ho) as Hid.
  destruct H as [H1 H2 H3 H4 H5 H6 H7 H8 H9]. split; simpl; try done.
  - enough (length (scan_records r) = S (length (od_pop x.1 (scan_records r)))) by lia.
    apply od_pop_length; [done|]. apply list_elem_of_fmap. by exists x.
  - rewrite od_pop_keys. by apply NoDup_filter.
  - intros id i [_ ?]%list_elem_of_filter. by apply H4.
  - intros i o' Ho' Hr. destruct (H5 _ _ Ho' Hr) as [Hin Hw]. split; [|done].
    apply list_elem_of_filter. split; [|done]. simpl. intros E. destruct Hst.
    assert (i = x.2) as ->; [|congruence]. apply (elem_of_list_to_map_1 (M := gmap string)) in Hin; [|done].
    destruct x as [id j]. simpl in *. apply (elem_of_list_to_map_1 (M := gmap string)) in Hx; [|done]. congruence.
Qed.

(** Some record has ended once there are more than two. *)
Lemma some_ended :
  (2 < length (scan_records r))%nat →
  ∃ k x, list_find (λ x, entry_sat (λ o, negb (is_running o)) r x = true) (scan_records r) = Some (k, x) ∧
    x ∈ scan_records r ∧ ∃ o, scan_objects r !! x.2 = Some o ∧ scan_state o ≠ SRunning.
Proof.
  intros Hl. destruct (list_find _ _) as [[k x]|] eqn:E.
  - exists k, x. split; [done|]. apply list_find_Some in E as (Hx & Hs & _).
    split; [by eapply list_elem_of_lookup_2|]. unfold entry_sat, scan_object in Hs.
    destruct (scan_objects r !! x.2) as [o|]; [|done]. exists o. split; [done|].
    unfold is_running in Hs. by apply negb_true_iff, bool_decide_eq_false in Hs.
  - exfalso. apply list_find_None in E. pose proof in_flight_two as H2. unfold in_flight_count in H2.
    replace (filter _ (scan_records r)) with (scan_records r) in H2; [lia|]. symmetry.
    apply filter_id_Forall, Forall_forall. intros x Hx. rewrite Forall_forall in E. specialize (E x Hx).
    unfold entry_sat, scan_object in *. destruct x as [id i]. destruct (si_entry _ _ _ H _ _ Hx) as (o & Ho & _).
    simpl in *. rewrite Ho in *. by destruct (is_running o).
Qed.
End Invariant.

Lemma evict_small fuel n r : (length (scan_records r) ≤ n)%nat → evict_loop fuel n r = r.
Proof. intros. destruct fuel; [done|]. simpl. by destruct (Nat.ltb_spec n (length (scan_records r))); [lia|]. Qed.

Lemma evict_inv r ws :
  scan_inv_upto (S MAX_RECORDS) r ws →
  scan_inv (evict_if_over_cap r) ws ∧ scan_objects (evict_if_over_cap r) = scan_objects r.
Proof.
  intros H. unfold evict_if_over_cap. destruct (Nat.le_gt_cases (length (scan_records r)) MAX_RECORDS) as [Hl|Hl].
  - rewrite evict_small by done. split; [|done]. destruct H. by split.
  - destruct (length (scan_records r)) as [|f] eqn:El; [lia|].
    edestruct some_ended as (k & x & Ef & Hx & o & Ho & Hst); [done|rewrite El; unfold MAX_RECORDS in Hl; lia|].
    simpl. rewrite El. replace (MAX_RECORDS <? S f)%nat with true by (symmetry; apply Nat.ltb_lt; lia).
    rewrite Ef. pose proof (pop_inv _ _ _ H _ _ Hx Ho Hst) as Hp. simpl in Hp.
    rewrite evict_small by apply (si_cap _ _ _ Hp). by split.
Qed.

(** ** Every interleaving keeps it *)

(** A record that has ended never changes. *)
Definition settled_stay (r r' : ScanRegistry) : Prop :=
  ∀ i o, scan_objects r !! i = Some o → ∃ o', scan_objects r' !! i = Some o' ∧
    scan_id o' = scan_id o ∧ scan_kind o' = scan_kind o ∧ (scan_state o ≠ SRunning → o' = o).

#[export] Instance settled_stay_preorder : PreOrder settled_stay.
Proof.
  split.
  - intros r i o Ho. by exists o.
  - intros r1 r2 r3 H12 H23 i o Ho. destruct (H12 _ _ Ho) as (o2 & Ho2 & E1 & E2 & E3).
    destruct (H23 _ _ Ho2) as (o3 & Ho3 & F1 & F2 & F3). exists o3.
    split; [done|split; [congruence|split; [congruence|]]]. intros Hst. rewrite F3; [auto|].
    by rewrite E3.
Qed.

Lemma wp_get {S A} (k : S → M S A) Q s : wp (k s) Q s → wp (s ← get; k s) Q s.
Proof. done. Qed.

Lemma wp_uuid4 {A} (k : string → M app A) Q s :
  wp (k (default "00000000000000000000000000000000"%string (head (app_uuids s)))) Q (set_uuids (tail (app_uuids s)) s) →
  wp (h ← uuid4_hex; k h) Q s.
Proof. done. Qed.

Lemma wp_now_ms {A} (k : Z → M app A) Q s :
  (∀ t c, wp (k t) Q (set_app_clock c s)) → wp (t ← now_ms; k t) Q s.
Proof.
  intros H. destruct s as [x1 x2 x3 x4 x5 [t [|t' ts]]]; unfold wp, mbind, M_bind, now_ms; simpl.
  - apply (H t (t, [])).
  - apply (H t (t', ts)).
Qed.

(** [s'] differs from [s] in its scans, its clock and at most one used uuid. *)
Record scans_only (s s' : app) : Prop := mkScansOnly {
  sn_sessions : sessions s' = sessions s;
  sn_counter : session_id_counter s' = session_id_counter s;
  sn_stores : idempotency_stores s' = idempotency_stores s;
  sn_uuids : app_uuids s' = app_uuids s ∨ app_uuids s' = tail (app_uuids s)
}.

Lemma scans_only_refl s : scans_only s s.
Proof. split; auto. Qed.

(** [start]: either the running record of that kind, or a new one; the cap on scans in
    flight is never reached. *)
Lemma wp_start kind session (Q : outcome (nat * bool) → app → Prop) s ws :
  kind ∈ VALID_KINDS → app_uuids s ≠ [] → uuids_distinct s → scan_inv (scans s) ws →
  (∀ i o, scan_objects (scans s) !! i = Some o → scan_state o = SRunning → scan_kind o = kind → i ∈ ws →
     Q (Ok (i, true)) s) →
  (∀ s', scans_only s s' → uuids_distinct s' → (∃ o, scan_objects (scans s') = scan_objects (scans s) ++ [o] ∧
       scan_state o = SRunning ∧ scan_kind o = kind) →
     scan_inv (scans s') (length (scan_objects (scans s)) :: ws) →
     Q (Ok (length (scan_objects (scans s)), false)) s') →
  wp (start_scan kind session) Q s.
Proof.
  intros Hk Hu Hd H Hold Hnew. unfold start_scan. rewrite bool_decide_false by (by intros ?). apply wp_get.
  cbv zeta. destruct (list_find _ _) as [[n x]|] eqn:E.
  - apply wp_ret. apply list_find_Some in E as (Hx & Hs & _). apply list_elem_of_lookup_2 in Hx.
    unfold entry_sat, scan_object in Hs. destruct (scan_objects (scans s) !! x.2) as [o|] eqn:Ho; [|done].
    apply andb_true_iff in Hs as [Hs1%bool_decide_eq_true Hs2%bool_decide_eq_true].
    eapply Hold; [done..|]. by eapply si_running.
  - rewrite (proj2 (Nat.leb_gt MAX_IN_FLIGHT (in_flight_count (scans s))))
      by (pose proof (in_flight_two _ _ _ H); unfold MAX_IN_FLIGHT; lia).
    apply wp_uuid4. apply wp_now_ms. intros t c. apply wp_bind, wp_modify, wp_ret.
    destruct (app_uuids s) as [|h us] eqn:Eu; [done|]. unfold uuids_distinct in Hd. rewrite Eu in Hd. simpl in Hd.
    apply NoDup_cons in Hd as [Hh Hd].
    assert (Hno : ∀ i o, scan_objects (scans s) !! i = Some o → scan_state o = SRunning → scan_kind o ≠ kind).
    { intros i o' Ho' Hr Hkk. destruct (si_running _ _ _ H _ _ Ho' Hr) as [Hin _].
      apply list_find_None in E. rewrite Forall_forall in E. apply (E _ Hin).
      unfold entry_sat, scan_object, is_running. simpl. rewrite Ho', Hkk, Hr. by rewrite !bool_decide_true. }
    assert (Hfresh : h ∉ scan_id <$> scan_objects (scans s)) by (intros ?; apply Hh, elem_of_app; by right).
    destruct (evict_inv _ _ (start_inv _ _ _ H h kind t session Hfresh Hk Hno)) as [Hev Hob].
    apply Hnew.
    + split; try done. right. simpl. by rewrite Eu.
    + change (NoDup (us ++ (scan_id <$> scan_objects (evict_if_over_cap
        (mkScans (Json.put h (length (scan_objects (scans s))) (scan_records (scans s)))
           (scan_objects (scans s) ++ [mkScan h kind SRunning t session None None false])))))).
      rewrite Hob. simpl. rewrite fmap_app, app_assoc. apply NoDup_app.
      split; [done|split; [|apply NoDup_singleton]]. by intros y Hy ->%list_elem_of_singleton.
    + exists (mkScan h kind SRunning t session None None false). split; [exact Hob|done].
    + exact Hev.
Qed.

Section Histories.
Variable scrape : pyobj → list (string * pyobj).

(** The worker of [i] ends: its record is found, ended with the worker's result, and its
    waiters are woken. *)
Definition finished_with (res : string + pyobj) : ScanState * params :=
  match res with
  | inl cls => (SFailed, [("error"%string, JStr cls)])
  | inr v => (SCompleted, result_to_dict scrape v)
  end.

Lemma wp_finish i res s ws (Q : outcome unit → app → Prop) :
  scan_inv (scans s) ws → i ∈ ws →
  (∀ t s', scans_only s s' → app_uuids s' = app_uuids s →
     scans s' = alter_object (finish_record (finished_with res).1 t (finished_with res).2) i (scans s) →
     Q (Ok tt) s') →
  wp (run_scan_in_background scrape i res) Q s.
Proof.
  intros H Hi HQ. destruct (si_workers _ _ _ H i Hi) as (o & Ho & Hr).
  destruct (si_running _ _ _ H _ _ Ho Hr) as [Hin _].
  assert (Hg : od_get (scan_id o) (scan_records (scans s)) = Some i)
    by (apply od_get_elem; [apply (si_keys _ _ _ H)|done]).
  unfold run_scan_in_background. apply wp_get. unfold scan_object. rewrite Ho. apply wp_bind.
  assert (Hf : ∀ st d, (st, d) = finished_with res → wp (finish_scan st (scan_id o) d)
    (λ o s', match o with Ok _ => Q (Ok tt) s' | Raise e => Q (Raise e) s' end) s).
  { intros st d E. unfold finish_scan. apply wp_get. rewrite Hg. apply wp_now_ms. intros t c.
    apply wp_bind, wp_modify, wp_ret. apply (HQ t); [split; auto|done|]. by rewrite <-E. }
  destruct res; (eapply wp_mono; [|by apply Hf]); by intros [x|e] s'.
Qed.

(** Programs that change nothing. *)
Lemma report_still i s : (report_scan i s).2 = s.
Proof. unfold report_scan, mbind, M_bind, get. cbv beta iota. by destruct (scan_object _ _). Qed.

Lemma fail_still {S} code d (s : S) : (fail code d s).2 = s.
Proof. done. Qed.

Lemma after_wait_still i s : (after_wait i s).2 = s.
Proof.
  unfold after_wait, lookup_scan, mbind, M_bind, get. cbv beta iota. destruct (scan_object _ _) as [o|]; [|done].
  destruct (negb (done o)); [done|]. simpl. by case_match.
Qed.

Lemma gated_still ps p (body : AppSession → M app app_envelope) s :
  (∀ x, (body x s).2 = s) → (gated (λ A m, m) ps p body s).2 = s.
Proof.
  intros Hb. apply (wp_bind (gate_session_required ps p) _ (λ _ s', s' = s) s).
  apply wp_gate; [done|]. intros token x _ _ _. apply Hb.
Qed.

Lemma status_still ps p s : (app_scan_status ps p s).2 = s.
Proof.
  apply gated_still. intros x. destruct (param ps "scan_id") as [[]|]; try done. case_bool_decide; [done|].
  unfold lookup_scan, mbind, M_bind, get. cbv beta iota. simpl. by case_match.
Qed.

(** What one event keeps. *)
Definition conf_ok (c : scan_config) : Prop :=
  scan_inv (scans (sc_app c)) (sc_workers c) ∧ uuids_distinct (sc_app c).

Record scan_stepped (c c' : scan_config) : Prop := mkStepped {
  ss_ok : conf_ok c';
  ss_stay : settled_stay (scans (sc_app c)) (scans (sc_app c'));
  ss_uuids : app_uuids (sc_app c') = app_uuids (sc_app c) ∨ app_uuids (sc_app c') = tail (app_uuids (sc_app c))
}.

Lemma stepped_refl c : conf_ok c → scan_stepped c c.
Proof. by split; [|done|left]. Qed.

Lemma dispatch_stepped kind wired ps p c :
  kind ∈ VALID_KINDS → app_uuids (sc_app c) ≠ [] → conf_ok c →
  wp (scan_dispatch kind wired ps p)
    (λ o s', scan_stepped c (mkScanConfig s' match o with Ok (_, Some i) => i :: sc_workers c | _ => sc_workers c end) ∧
             o ≠ Raise ScanCapExceeded ∧ ∀ w d, o ≠ Ok (Answered (Failure "validation_failed" (("field"%string, JStr "scan_kind") :: d)), w))
    (sc_app c).
Proof.
  intros Hk Hu Hc. pose proof (stepped_refl c Hc) as Hr. destruct c as [s ws], Hc as [H Hd]. simpl in *.
  unfold scan_dispatch. apply wp_bind, wp_gate.
  - intros code Hcode. apply wp_ret. by split.
  - intros token x _ _ _.
  destruct (default (JBool true) (param ps "wait")); try (apply wp_bind; by apply wp_invalid, wp_ret).
  destruct wired; simpl negb; cbv iota; [|apply wp_bind; by eapply wp_fail].
  apply wp_bind, wp_catch, wp_bind. apply (wp_start _ _ _ _ ws); try done.
  + intros i o Ho Hrun Hkk Hi. apply wp_ret. by destruct b.
  + intros s' [S1 S2 S3 S4] Hd' (o & Ho & _) Hi. apply wp_ret.
    assert (Hst : settled_stay (scans s) (scans s')).
    { intros j oj Hj. exists oj. rewrite Ho. split; [by apply lookup_app_l_Some|done]. }
    by destruct b; (split; [split|]).
Qed.

Lemma step_stepped c ev : app_uuids (sc_app c) ≠ [] → conf_ok c → scan_stepped c (scan_step scrape c ev).
Proof.
  intros Hu Hc. destruct ev as [kind wired ps p|i res|i|i|ps p|ctx ps p]; simpl.
  - unfold kind_handler. case_bool_decide as Hk; [|by apply stepped_refl].
    pose proof (dispatch_stepped kind wired ps p c Hk Hu Hc) as Hs. unfold wp in Hs.
    destruct (scan_dispatch _ _ _ _ _) as [o s']. apply Hs.
  - case_bool_decide as Hi; [|by apply stepped_refl]. destruct c as [s ws], Hc as [H Hd]. simpl in *.
    apply (wp_finish i res s ws (λ _ s', scan_stepped _ (mkScanConfig s' _)) H Hi).
    intros t s' S1 Eu Es. assert (Hst : (finished_with res).1 ≠ SRunning) by by destruct res.
    split; [split| |by left]; simpl; try rewrite Es.
    + by apply finish_inv.
    + unfold uuids_distinct. rewrite Eu, Es. simpl. by rewrite alter_ids.
    + intros j o Ho. simpl. destruct (decide (i = j)) as [->|]; [|exists o; by rewrite list_lookup_alter_ne].
      rewrite list_lookup_alter_eq, Ho. eexists. split; [done|]. split; [done|split; [done|]].
      destruct (si_workers _ _ _ H j Hi) as (o' & Ho' & Hr'). intros []. congruence.
  - rewrite report_still. destruct c. by apply stepped_refl.
  - rewrite after_wait_still. destruct c. by apply stepped_refl.
  - rewrite status_still. destruct c. by apply stepped_refl.
  - pose proof (wp_hello ctx ps p (sc_app c)) as Hh. unfold wp in Hh.
    destruct (app_hello ctx ps p (sc_app c)) as [[[r|? ?]|e] s'] eqn:E; simpl in *; [|subst|done].
    + destruct c as [s ws], Hc as [H Hd]. simpl in *.
      destruct Hh as (_ & _ & x & _ & _ & _ & _ & _ & _ & _ & _ & Es & Eu). split; [split| |by right]; simpl; rewrite ?Es; try done.
      unfold uuids_distinct in *. rewrite Es, Eu. destruct (app_uuids s); [done|]. by apply NoDup_cons in Hd as [].
    + destruct c. by apply stepped_refl.
Qed.

Lemma history_stepped evs c :
  (length evs ≤ length (app_uuids (sc_app c)))%nat → conf_ok c →
  conf_ok (scan_history scrape evs c) ∧
  settled_stay (scans (sc_app c)) (scans (sc_app (scan_history scrape evs c))) ∧
  (length (app_uuids (sc_app c)) - length evs ≤ length (app_uuids (sc_app (scan_history scrape evs c))))%nat.
Proof.
  revert c. induction evs as [|ev evs IH]; intros c Hl Hc.
  - split; [done|]. split; [done|]. simpl. lia.
  - simpl in Hl. destruct (step_stepped c ev) as [H1 H2 H3]; [by destruct (app_uuids (sc_app c)); [simpl in Hl; lia|]|done|].
    assert (Hlen : (length (app_uuids (sc_app c)) ≤ S (length (app_uuids (sc_app (scan_step scrape c ev)))))%nat).
    { destruct H3 as [->| ->]; [lia|]. destruct (app_uuids (sc_app c)); simpl; lia. }
    destruct (IH (scan_step scrape c ev)) as (K1 & K2 & K3); [lia|done|].
    simpl. split; [done|]. split; [by etrans|]. lia.
Qed.
End Histories.

(** ** Claims *)

Definition no_scans (uuids : list string) : scan_config :=
  mkScanConfig (mkApp ∅ 0 ∅ (mkScans [] []) uuids (0, [])) [].

Lemma no_scans_ok uuids : NoDup uuids → conf_ok (no_scans uuids).
Proof.
  intros Hn. split; [|unfold uuids_distinct; simpl; by rewrite app_nil_r].
  split; simpl; try (intros; exfalso; set_solver); try (intros ? ?; by rewrite lookup_nil);
    try (intros ? ? ? ?; by rewrite lookup_nil); try constructor. unfold MAX_RECORDS. lia.
Qed.


(** A caller that waits for a scan, the one that started it or one that joined it, is told
    [scan_timeout] with the scan's id as long as the worker runs, and once the worker has
    ended is given its result, or the class of the exception it died of. *)
Theorem waiters_get_the_result scrape uuids evs i res :
  NoDup uuids → (length evs < length uuids)%nat →
  let c := scan_history scrape evs (no_scans uuids) in
  let c' := scan_step scrape c (Ev_finish i res) in
  i ∈ sc_workers c →
  ∃ o, scan_objects (scans (sc_app c)) !! i = Some o ∧
    (after_wait i (sc_app c)).1 = Ok (Failure "scan_timeout" [("scan_id"%string, JStr (scan_id o))]) ∧
    (after_wait i (sc_app c')).1 =
      Ok (Success [("scan_id", JStr (scan_id o));
                   ("state", JStr (scan_state_text (finished_with scrape res).1));
                   ("result", JObj (finished_with scrape res).2)]%string).
Proof.
  intros Hn Hl c c' Hi. destruct (history_stepped scrape evs (no_scans uuids)) as ([H _] & _ & _);
    [simpl; lia|by apply no_scans_ok|]. fold c in H. clearbody c. destruct (si_workers _ _ _ H i Hi) as (o & Ho & Hr).
  exists o. split; [done|]. destruct (si_running _ _ _ H _ _ Ho Hr) as [Hin _]. split.
  - unfold after_wait, mbind, M_bind, get. cbv beta iota. unfold scan_object. rewrite Ho, (si_done _ _ _ H _ _ Ho).
    unfold is_running. by rewrite bool_decide_true.
  - subst c'. unfold scan_step. rewrite bool_decide_true by done.
    apply (wp_finish scrape i res (sc_app c) (sc_workers c)
      (λ _ s', (after_wait i s').1 = Ok (Success [("scan_id", JStr (scan_id o));
                   ("state", JStr (scan_state_text (finished_with scrape res).1));
                   ("result", JObj (finished_with scrape res).2)]%string)) H Hi).
    intros t s' _ _ Es. unfold after_wait, lookup_scan, mbind, M_bind, get. cbv beta iota. unfold scan_object.
    rewrite !Es. simpl. rewrite list_lookup_alter_eq, Ho. simpl. rewrite !Es. simpl.
    rewrite (od_get_elem _ _ i); [|apply (si_keys _ _ _ H)|done]. simpl. unfold scan_object. simpl.
    by rewrite list_lookup_alter_eq, Ho.
Qed.

(** ** Examples *)

Definition demo_uuids : list string :=
  ["0123456789abcdef0123456789abcdef"; "1123456789abcdef0123456789abcdef";
   "2123456789abcdef0123456789abcdef"; "3123456789abcdef0123456789abcdef";
   "4123456789abcdef0123456789abcdef"; "5123456789abcdef0123456789abcdef"].
Definition demo_host_peer : peer := mkPeer 1000 true.
Definition demo_ctx : app_ctx := mkAppCtx "0.1.0" (Some 9) (Some false) 1000.
Definition demo_token : json := JObj [("app_session_token", JStr "01234567-89ab-cdef-0123-456789abcdef")]%string.
Definition demo_events : list scan_event :=
  [Ev_hello demo_ctx (JObj []) demo_host_peer; Ev_scan "panes" true demo_token demo_host_peer;
   Ev_scan "panes" true demo_token demo_host_peer; Ev_scan "containers" true demo_token demo_host_peer].
Definition demo_scrape (v : pyobj) : list (string * pyobj) := [].

Example demo_scans :
  let c := scan_history demo_scrape demo_events (no_scans demo_uuids) in
  sc_workers c = [1%nat; 0%nat] ∧ in_flight_count (scans (sc_app c)) = 2%nat ∧
  (after_wait 0 (sc_app (scan_step demo_scrape c
     (Ev_finish 0 (inr (PyDataclass [("panes_seen", PyInt 3); ("errors", PyTuple [])])))))).1 =
  Ok (Success [("scan_id", JStr "1123456789abcdef0123456789abcdef"); ("state", JStr "completed");
               ("result", JObj [("panes_seen", JInt 3); ("errors", JArr [])])]%string).
Proof. vm_compute. auto. Qed.


Lemma waiters_get_the_result_witness :
  NoDup demo_uuids ∧ (length demo_events < length demo_uuids)%nat ∧
  let c := scan_history demo_scrape demo_events (no_scans demo_uuids) in
  0%nat ∈ sc_workers c ∧
  ∃ o, scan_objects (scans (sc_app c)) !! 0%nat = Some o ∧
    (after_wait 0 (sc_app c)).1 = Ok (Failure "scan_timeout" [("scan_id"%string, JStr (scan_id o))]).
Proof.
  assert (H1 : NoDup demo_uuids) by (eapply bool_decide_eq_true_1; by vm_compute).
  assert (H2 : (length demo_events < length demo_uuids)%nat) by (simpl; lia).
  assert (H3 : 0%nat ∈ sc_workers (scan_history demo_scrape demo_events (no_scans demo_uuids)))
    by (eapply bool_decide_eq_true_1; by vm_compute).
  split; [exact H1|]. split; [exact H2|]. split; [exact H3|].
  destruct (waiters_get_the_result demo_scrape demo_uuids demo_events 0 (inl "DockerError"%string) H1 H2 H3)
    as (o & Ho & Hw & _).
  exists o. split; assumption.
Defined.
