(* ===== verification/AppDaemon.v ===== *)
(** The daemon behind the application's requests: the contract's own memory, the desk of the
    agent and log services, the router of the queue and route services, and the audit lines
    of the application (src/src/agenttower/app_contract/audit.py); and the view models the
    answers are made of (app_contract/view_models.py). *)

From S2P Require Import Prelude Errors Agents Permissions Store AuditWriter KillSwitch Routes Json Session Tables LogDao Tower Validation Desk AppContract.

Local Open Scope Z_scope.

(** ** State *)

(** A line of [events.jsonl] written by [emit_app_mutation]. *)
Record app_line := mkAppLine {
  al_event_type : string; al_app_session_id : Z; al_payload : params
}.

Record daemon := mkDaemon {
  dm_app : app;
  dm_desk : desk;
  dm_router : router;
  dm_lines : list app_line;
  dm_io : list (option io_fault);
  dm_last_warn_ms : option Z;            (* [None]: never warned *)
  dm_monotonic_ms : Z * list Z;
  dm_warnings : nat                      (* lines on stderr about the audit *)
}.

Definition set_dm_app a d := mkDaemon a (dm_desk d) (dm_router d) (dm_lines d) (dm_io d)
  (dm_last_warn_ms d) (dm_monotonic_ms d) (dm_warnings d).
Definition set_dm_desk x d := mkDaemon (dm_app d) x (dm_router d) (dm_lines d) (dm_io d)
  (dm_last_warn_ms d) (dm_monotonic_ms d) (dm_warnings d).
Definition set_dm_router x d := mkDaemon (dm_app d) (dm_desk d) x (dm_lines d) (dm_io d)
  (dm_last_warn_ms d) (dm_monotonic_ms d) (dm_warnings d).
Definition set_dm_lines l io d := mkDaemon (dm_app d) (dm_desk d) (dm_router d) l io
  (dm_last_warn_ms d) (dm_monotonic_ms d) (dm_warnings d).
Definition set_dm_warned t c n d := mkDaemon (dm_app d) (dm_desk d) (dm_router d) (dm_lines d) (dm_io d)
  t c n.

Definition on_app {A} (m : M app A) : M daemon A := zoom dm_app set_dm_app m.
Definition on_desk {A} (m : M desk A) : M daemon A := zoom dm_desk set_dm_desk m.
Definition on_router {A} (m : M router A) : M daemon A := zoom dm_router set_dm_router m.
Definition on_queue {A} (m : M world A) : M daemon A := on_router (on_tower m).

(** ** Audit *)

Definition OUTAGE_WARN_INTERVAL_MS : Z := 60000.

(** [_maybe_warn_outage] *)
Definition maybe_warn_outage : M daemon unit := λ d,
  let now := (dm_monotonic_ms d).1 in
  let c := match dm_monotonic_ms d with (t, []) => (t, []) | (_, t' :: ts) => (t', ts) end in
  let quiet := match dm_last_warn_ms d with Some t => now - t <? OUTAGE_WARN_INTERVAL_MS | None => false end in
  if quiet then (Ok tt, set_dm_warned (dm_last_warn_ms d) c (dm_warnings d) d)
  else (Ok tt, set_dm_warned (Some now) c (S (dm_warnings d)) d).

Definition PROTECTED_KEYS : list string := ["event_type"; "origin"; "app_session_id"; "app_session_token"].

(** [events.writer.append_event] of an application's line. *)
Definition append_app_line (l : app_line) : M daemon unit := λ d,
  let file (written : bool) := if written then dm_lines d ++ [l] else dm_lines d in
  match dm_io d with
  | Some (IO_error n written) :: rest => (Raise (PyError n), set_dm_lines (file written) rest d)
  | Some (IO_kill written) :: rest => (Raise SystemExit, set_dm_lines (file written) rest d)
  | None :: rest => (Ok tt, set_dm_lines (file true) rest d)
  | [] => (Ok tt, set_dm_lines (file true) [] d)
  end.

(** [emit_app_mutation] with an audit file configured. *)
Definition emit_app_mutation (event_type : string) (payload : params) (session : AppSession) : M daemon bool :=
  if existsb (λ k, has_key k payload) PROTECTED_KEYS then throw (PyError "ValueError")
  else except (_ ← append_app_line (mkAppLine event_type (app_session_id session) payload); mret true)
         (λ _, _ ← maybe_warn_outage; mret false).

(** ** View models *)

(** [_get] on a row given as a dictionary: a stored [None] is no value. *)
Definition get_or (row : params) (name : string) (dflt : json) : json :=
  match json_get name row with None | Some JNull => dflt | Some v => v end.

(** [bool(v)] *)
Definition truthy (v : json) : bool :=
  match v with
  | JNull => false
  | JBool b => b
  | JInt z => negb (z =? 0)
  | JFloat repr _ => negb (bool_decide (repr ∈ ["0.0"; "-0.0"]))%string
  | JStr s => negb (bool_decide (s = EmptyString))
  | JArr l => match l with [] => false | _ => true end
  | JObj o => match o with [] => false | _ => true end
  end.

Definition opt_str (o : option string) : json := match o with Some s => JStr s | None => JNull end.

(** [_coerce_int] *)
Definition coerce_int (v : json) : outcome Z :=
  match v with
  | JNull => Ok 0
  | _ => match py_int v with
         | Raise (PyError n) => if bool_decide (n ∈ ["TypeError"; "ValueError"]%string) then Ok 0 else Raise (PyError n)
         | o => o
         end
  end.

(** The text of a column that holds text. *)
Definition as_text (v : json) : string := match v with JStr s => s | _ => EmptyString end.

Definition priority_of (table : list (string * Z)) (v : json) : json :=
  JInt (default 99 (match v with JStr s => table_get table s | _ => None end)).

Definition container_view (row : params) (pane_count registered_agent_count : option Z)
    (derived_state : option string) : params :=
  [("container_id", get_or row "container_id" JNull);
   ("name", get_or row "name" (JStr EmptyString));
   ("state", match derived_state with Some s => JStr s | None => get_or row "state" (JStr EmptyString) end);
   ("image", get_or row "image" (JStr EmptyString));
   ("first_seen_at", get_or row "first_seen_at" JNull);
   ("last_scanned_at", get_or row "last_scanned_at" JNull);
   ("pane_count", match pane_count with Some n => JInt n | None => get_or row "pane_count" (JInt 0) end);
   ("registered_agent_count", match registered_agent_count with
                              | Some n => JInt n
                              | None => get_or row "registered_agent_count" (JInt 0)
                              end)]%string.

Definition pane_view (row : params) (linked_agent_id container_name : option string) : params :=
  [("pane_id", get_or row "pane_id" JNull);
   ("container_id", get_or row "container_id" JNull);
   ("container_name", match container_name with
                      | Some n => JStr n
                      | None => get_or row "container_name" (JStr EmptyString)
                      end);
   ("tmux_socket", get_or row "tmux_socket" (JStr EmptyString));
   ("session_name", get_or row "session_name" (JStr EmptyString));
   ("window_index", get_or row "window_index" (JInt 0));
   ("pane_index", get_or row "pane_index" (JInt 0));
   ("registered", JBool (bool_decide (is_Some linked_agent_id)));
   ("agent_id", opt_str linked_agent_id);
   ("discovered_at", get_or row "discovered_at" JNull);
   ("last_seen_at", get_or row "last_seen_at" JNull)]%string.

Definition agent_view (row : params) (log_attached pane_active : option bool) : params :=
  let r := get_or row "role" (JStr "unknown") in
  [("agent_id", get_or row "agent_id" JNull);
   ("role", r);
   ("role_priority", priority_of ROLE_PRIORITY r);
   ("capability", get_or row "capability" (JStr EmptyString));
   ("label", get_or row "label" (JStr EmptyString));
   ("project_path", get_or row "project_path" JNull);
   ("parent_agent_id", get_or row "parent_agent_id" JNull);
   ("container_id", get_or row "container_id" JNull);
   ("pane_id", get_or row "pane_id" JNull);
   ("registered_at", get_or row "registered_at" JNull);
   ("log_attached", JBool (default (truthy (get_or row "log_attached" (JBool false))) log_attached));
   ("pane_active", JBool (default (truthy (get_or row "pane_active" (JBool false))) pane_active))]%string.

Definition log_attachment_view (row : params) : params :=
  [("attachment_id", get_or row "attachment_id" JNull);
   ("agent_id", get_or row "agent_id" JNull);
   ("container_id", get_or row "container_id" JNull);
   ("log_path", get_or row "log_path" (JStr EmptyString));
   ("status", get_or row "status" (JStr EmptyString));
   ("source", get_or row "source" (JStr EmptyString));
   ("attached_at", get_or row "attached_at" JNull);
   ("last_status_at", get_or row "last_status_at" JNull)]%string.

(** [_summarize_event], [_summarize_queue], [_summarize_route] *)
Definition summarize_event (row : params) : string :=
  let event_type := as_text (get_or row "event_type" (JStr EmptyString)) in
  let agent := get_or row "agent_id" JNull in
  if truthy agent then take_chars 256 (event_type +:+ " from " +:+ as_text agent)
  else if bool_decide (event_type = EmptyString) then "(event)"%string else take_chars 256 event_type.

Definition right_arrow : string :=
  String (Ascii.ascii_of_nat 226) (String (Ascii.ascii_of_nat 134) (String (Ascii.ascii_of_nat 146) EmptyString)).
Definition summarize_queue (row : params) : string :=
  take_chars 256 (as_text (get_or row "state" (JStr EmptyString)) +:+ " " +:+ right_arrow +:+ " " +:+
                  as_text (get_or row "target_agent_id" (JStr EmptyString))).
Definition summarize_route (row : params) : string :=
  take_chars 256 ("route " +:+ as_text (get_or row "route_id" (JStr EmptyString)) +:+ " (" +:+
                  (if truthy (get_or row "enabled" (JBool false)) then "enabled" else "disabled") +:+ ")").

Definition event_view (row : params) : params :=
  [("event_id", get_or row "event_id" JNull);
   ("event_type", get_or row "event_type" (JStr EmptyString));
   ("agent_id", get_or row "agent_id" JNull);
   ("observed_at", get_or row "observed_at" JNull);
   ("excerpt", get_or row "excerpt" (JStr EmptyString));
   ("classifier_rule_id", get_or row "classifier_rule_id" (JStr EmptyString));
   ("summary", JStr (summarize_event row))]%string.

Definition queue_view (row : params) : params :=
  let state := get_or row "state" (JStr EmptyString) in
  [("message_id", get_or row "message_id" JNull);
   ("state", state);
   ("state_priority", priority_of STATE_PRIORITY state);
   ("block_reason", get_or row "block_reason" JNull);
   ("failure_reason", get_or row "failure_reason" JNull);
   ("sender_agent_id", get_or row "sender_agent_id" JNull);
   ("target_agent_id", get_or row "target_agent_id" JNull);
   ("payload_preview", get_or row "payload_preview" (JStr EmptyString));
   ("enqueued_at", get_or row "enqueued_at" JNull);
   ("last_updated_at", get_or row "last_updated_at" JNull)]%string.

Definition route_view (row : params) : outcome params :=
  obind (coerce_int (get_or row "last_consumed_event_id" (JInt 0))) (λ consumed,
  Ok [("route_id", get_or row "route_id" JNull);
      ("enabled", JBool (truthy (get_or row "enabled" (JBool false))));
      ("event_type", get_or row "event_type" (JStr EmptyString));
      ("source_scope", JObj [("kind", get_or row "source_scope_kind" (JStr EmptyString));
                             ("value", get_or row "source_scope_value" JNull)]);
      ("target", JObj [("rule", get_or row "target_rule" (JStr EmptyString));
                       ("value", get_or row "target_value" JNull)]);
      ("master", JObj [("rule", get_or row "master_rule" (JStr EmptyString));
                       ("value", get_or row "master_value" JNull)]);
      ("template", get_or row "template" (JStr EmptyString));
      ("last_consumed_event_id", JInt consumed);
      ("created_at", get_or row "created_at" JNull);
      ("updated_at", get_or row "updated_at" JNull)]%string).

Definition compact_event (row : params) : params :=
  [("id", get_or row "event_id" JNull); ("timestamp", get_or row "created_at" JNull);
   ("type", get_or row "event_type" (JStr EmptyString)); ("origin", get_or row "origin" (JStr EmptyString));
   ("agent_id", get_or row "agent_id" JNull); ("summary", JStr (summarize_event row))]%string.

Definition compact_queue (row : params) : params :=
  let state := get_or row "state" (JStr EmptyString) in
  [("id", get_or row "message_id" JNull); ("timestamp", get_or row "created_at" JNull);
   ("type", get_or row "origin" (JStr "direct")); ("state", state);
   ("state_priority", priority_of STATE_PRIORITY state);
   ("target_agent_id", get_or row "target_agent_id" JNull); ("summary", JStr (summarize_queue row))]%string.

Definition compact_route (row : params) : params :=
  [("id", get_or row "route_id" JNull); ("timestamp", get_or row "created_at" JNull); ("type", JStr "route");
   ("enabled", JBool (truthy (get_or row "enabled" (JBool false)))); ("summary", JStr (summarize_route row))]%string.

(** ** Rows of the tables, as the handlers hand them to the builders *)

Definition agent_columns (a : AgentRecord) : params :=
  [("agent_id", JStr (agent_id a)); ("role", JStr (role a)); ("capability", JStr (capability a));
   ("label", JStr (label a)); ("project_path", JStr (project_path a));
   ("parent_agent_id", opt_str (parent_agent_id a)); ("container_id", JStr (container_id a));
   ("pane_id", JStr (tmux_pane_id a)); ("registered_at", JStr (created_at a))]%string.

Definition qstate_text (s : QState) : string :=
  match s with
  | queued => "queued" | blocked => "blocked" | delivered => "delivered" | canceled => "canceled" | failed => "failed"
  end.

(** [_queue_view_from_row] of mutations.py and [_row_to_queue] of reads.py *)
Definition queue_view_from_row (r : QueueRow) : params :=
  queue_view
    [("message_id", JStr (message_id r)); ("state", JStr (qstate_text (state r)));
     ("block_reason", opt_str (block_reason_code <$> block_reason r));
     ("failure_reason", opt_str (failure_reason r)); ("sender_agent_id", JStr (sender_agent_id r));
     ("target_agent_id", JStr (target_agent_id r)); ("payload_preview", JStr EmptyString);
     ("enqueued_at", JStr (enqueued_at r)); ("last_updated_at", JStr (last_updated_at r))]%string.

(** [_route_view_from_row] of mutations.py and [_row_to_route] of reads.py *)
Definition route_view_from_row (r : RouteRow) : outcome params :=
  route_view
    [("route_id", JStr (route_id r)); ("enabled", JBool (enabled r)); ("event_type", JStr (route_event_type r));
     ("source_scope_kind", JStr (source_scope_kind r)); ("source_scope_value", opt_str (source_scope_value r));
     ("target_rule", JStr (target_rule r)); ("target_value", opt_str (target_value r));
     ("master_rule", JStr (master_rule r)); ("master_value", opt_str (master_value r));
     ("template", JStr (template r)); ("last_consumed_event_id", JInt (last_consumed_event_id r));
     ("created_at", JStr (route_created_at r)); ("updated_at", JStr (route_updated_at r))]%string.
