(* ===== verification/AppMutations.v ===== *)
(** The application's mutations (src/src/agenttower/app_contract/mutations.py): adopting a
    pane, updating an agent, attaching and detaching logs, sending input with replay of
    repeated requests, the queue actions, and route administration.

    Each handler is a front to a service modelled elsewhere; what it adds is validation, the
    mapping of the service's errors to the closed set, the view of the result and the
    application's own audit line. *)

From S2P Require Import Prelude Errors Agents Permissions Store QueueDao Utf8 Envelope AuditWriter Lookups KillSwitch QueueService Routes RoutesService Json Session Tables LogDao Tower RegistryDao Validation JsonParse Desk AgentsService LogService AppContract AppCursor AppDaemon.
From Stdlib Require Import Ascii.

Local Open Scope Z_scope.

(** ** Errors of the services *)

(** [try: a = m; except <known>: return <mapped>; except Exception: return internal_error], then
    [k a]. *)
Definition trying {A} (m : M daemon A) (known : exn → option (M daemon app_envelope))
    (k : A → M daemon app_envelope) : M daemon app_envelope :=
  r ← catch (a ← m; mret (inr a))
        (λ e, match known e with
              | Some answer => mret (inl answer)
              | None => if is_exception e then mret (inl internal_error) else throw e
              end);
  match r with inl answer => answer | inr a => k a end.

Definition on_registration_error (answer : string → M daemon app_envelope) (e : exn)
  : option (M daemon app_envelope) :=
  match e with RegistrationError code => Some (answer code) | _ => None end.

(** [_map_registration_error]; [named] is the agent id found in the message of
    [pane_already_registered]. *)
Definition map_registration_error (named code container : string) (parent : option string)
  : M daemon app_envelope :=
  if bool_decide (code = "pane_already_registered"%string)
  then fail "pane_already_registered" [("agent_id"%string, JStr named)]
  else if bool_decide (code ∈ ["parent_not_found"; "parent_inactive"]%string)
  then fail "agent_not_found" [("agent_id"%string, JStr (default EmptyString parent))]
  else if bool_decide (code = "master_via_register_self_rejected"%string)
  then invalid "role" "master via register_self refused"
  else if bool_decide (code ∈ ["swarm_parent_required"; "parent_role_mismatch"; "parent_immutable"]%string)
  then invalid "parent_agent_id" code
  else if bool_decide (code ∈ ["container_inactive"; "target_container_inactive"]%string)
  then fail "container_inactive" [("container_id"%string, JStr container)]
  else if bool_decide (code ∈ ["value_out_of_set"; "field_too_long"; "project_path_invalid"; "bad_request"]%string)
  then invalid "params" code
  else internal_error.

(** [_map_registration_error_generic] *)
Definition map_registration_error_generic (id code : string) : M daemon app_envelope :=
  if bool_decide (code ∈ ["agent_not_found"; "agent_inactive"]%string)
  then fail "agent_not_found" [("agent_id"%string, JStr id)]
  else if bool_decide (code ∈ ["container_inactive"; "target_container_inactive"]%string)
  then fail "container_inactive" [("container_id"%string, JStr EmptyString)]
  else if bool_decide (code ∈ ["tmux_unavailable"; "log_path_in_use"; "pipe_pane_failed"]%string)
  then fail "log_attach_blocked" [("agent_id", JStr id); ("reason", JStr code)]%string
  else if bool_decide (code ∈ ["value_out_of_set"; "field_too_long"; "project_path_invalid"; "bad_request";
                               "swarm_role_via_set_role_rejected"; "master_confirm_required"]%string)
  then invalid "params" code
  else internal_error.

(** [_map_queue_action_error] *)
Definition map_queue_action_error (mid code : string) : M daemon app_envelope :=
  if bool_decide (code = "message_id_not_found"%string)
  then fail "queue_message_not_found" [("message_id"%string, JStr mid)]
  else if bool_decide (code ∈ ["terminal_state_cannot_change"; "approval_not_applicable";
                               "delay_not_applicable"; "delivery_in_progress"]%string)
  then fail "stale_object" []
  else if bool_decide (code = "routing_disabled"%string) then fail "routing_disabled" []
  else internal_error.

(** ** Validation *)

(** [_validate_label] *)
Definition app_validate_label (v : option json) : (string * string) + string :=
  match v with
  | None | Some JNull => inr EmptyString
  | Some (JStr s) =>
      let trimmed := strip s in
      if negb (Text.all (λ c, negb (bool_decide (c ∈ ["010"; "013"]%char))) trimmed)
      then inl ("label", "embedded newline")%string
      else if bool_decide (256 < char_count trimmed)%nat then inl ("label", "too long")%string
      else inr trimmed
  | Some _ => inl ("label", "wrong type")%string
  end.

Record PaneIdentity := mkIdentity {
  id_container : string; id_socket : string; id_session : string; id_window : Z; id_pane_index : Z;
  id_pane : string
}.

Definition REQUIRED_IDENTITY_FIELDS : list string :=
  ["container_id"; "tmux_socket"; "session_name"; "window_index"; "pane_index"; "pane_id"].

Definition nonempty_text (v : option json) : option string :=
  match v with
  | Some (JStr s) => if bool_decide (s = EmptyString) then None else Some s
  | _ => None
  end.
Definition non_negative (v : option json) : option Z :=
  match v with Some (JInt z) => if z <? 0 then None else Some z | _ => None end.

(** [_validate_identity]: what is missing first, then texts, then indices. *)
Definition validate_identity (ps : params) : (string * string) + PaneIdentity :=
  let text field k := match nonempty_text (json_get field ps) with
                      | Some s => k s | None => inl (field, "wrong type or empty"%string) end in
  let index field k := match non_negative (json_get field ps) with
                       | Some z => k z | None => inl (field, "wrong type"%string) end in
  match list_find (λ f, has_key f ps = false) REQUIRED_IDENTITY_FIELDS with
  | Some (_, field) => inl (field, "missing"%string)
  | None =>
      text "container_id"%string (λ c, text "tmux_socket"%string (λ s, text "session_name"%string (λ n,
      text "pane_id"%string (λ p, index "window_index"%string (λ w, index "pane_index"%string (λ i,
        inr (mkIdentity c s n w i p)))))))
  end.

(** ** Looking panes up *)

(** The order of [_LIST_ORDER_BY]; ties, which the statement leaves open, by pane id. *)
Definition pane_sort_key (p : PaneRec) : Z * (string * (string * (string * (Z * (Z * string))))) :=
  (if pr_active p then 0 else 1,
   (pr_container_id p, (pr_tmux_socket_path p, (pr_tmux_session_name p,
      (pr_tmux_window_index p, (pr_tmux_pane_index p, pr_tmux_pane_id p)))))).
Definition lex {A B} (eqA : A → A → bool) (leA : A → A → bool) (leB : B → B → bool) (x y : A * B) : bool :=
  if eqA x.1 y.1 then leB x.2 y.2 else leA x.1 y.1.
Definition str_leb (s t : string) : bool := bool_decide (String.le s t).
Definition str_eqb (s t : string) : bool := bool_decide (s = t).
Definition pane_order (p q : PaneRec) : Prop :=
  lex Z.eqb Z.leb (lex str_eqb str_leb (lex str_eqb str_leb (lex str_eqb str_leb
    (lex Z.eqb Z.leb (lex Z.eqb Z.leb str_leb))))) (pane_sort_key p) (pane_sort_key q) = true.
#[export] Instance pane_order_dec : RelDecision pane_order.
Proof. intros p q. unfold pane_order. apply _. Defined.

(** [select_panes_for_listing] *)
Definition select_panes_listing (active_only : bool) (filter_ : option string) : dao (list PaneRec) :=
  Sql.read (λ d,
    let known p := bool_decide (is_Some (containers d !! pr_container_id p)) in
    let in_filter p := match filter_ with
                       | None => true
                       | Some f =>
                           if looks_like_container_id f then bool_decide (pr_container_id p = f)
                           else match containers d !! pr_container_id p with
                                | Some c => bool_decide (cr_name c = f)
                                | None => false
                                end
                       end in
    merge_sort pane_order
      (filter (λ p, known p && (negb active_only || pr_active p) && in_filter p = true)
         (map_to_list (panes d)).*2)).

(** The first field on which a pane and an identity differ. *)
Definition first_mismatch (i : PaneIdentity) (p : PaneRec) : option string :=
  if negb (bool_decide (pr_container_id p = id_container i)) then Some "container_id"%string
  else if negb (bool_decide (pr_tmux_socket_path p = id_socket i)) then Some "tmux_socket"%string
  else if negb (bool_decide (pr_tmux_session_name p = id_session i)) then Some "session_name"%string
  else if negb (pr_tmux_window_index p =? id_window i) then Some "window_index"%string
  else if negb (pr_tmux_pane_index p =? id_pane_index i) then Some "pane_index"%string
  else if negb (bool_decide (pr_tmux_pane_id p = id_pane i)) then Some "pane_id"%string
  else None.

(** [_find_pane_with_full_identity_match]: [None] when one matches, else the field to report. *)
Definition find_pane_with_full_identity_match (i : PaneIdentity) : dao (option string) :=
  all ← select_panes_listing false None;
  let by_pane_id := filter (λ p, pr_tmux_pane_id p = id_pane i) all in
  match by_pane_id with
  | [] => mret (Some "pane_id"%string)
  | p :: _ =>
      if existsb (λ p, bool_decide (first_mismatch i p = None)) by_pane_id then mret None
      else mret (Some (default "pane_id"%string (first_mismatch i p)))
  end.

(** [except sqlite3.OperationalError: return dflt] *)
Definition on_operational {A} (m : dao A) (dflt : A) : dao A :=
  catch m (λ e, match e with OperationalError _ => mret dflt | _ => throw e end).

(** [_container_is_active], [_parent_agent_exists] *)
Definition app_container_is_active (id : string) : dao bool :=
  on_operational (Sql.read (λ d, default false (container_active id d))) false.
Definition parent_agent_exists (id : string) : dao bool :=
  on_operational (Sql.read (λ d, match find_agent id d with Some a => active a | None => false end)) false.

(** [_agent_view_from_db] *)
Definition has_active_attachment (id : string) (d : tower_db) : bool :=
  existsb (λ r, bool_decide (la_agent_id r = id) && bool_decide (la_status r = "active"%string)) (log_attachments d).
Definition agent_view_from_db (id : string) : M desk (option params) :=
  with_conn (at_sql (
    a ← select_agent id;
    match a with
    | None => mret None
    | Some a =>
        attached ← on_operational (Sql.read (has_active_attachment id)) false;
        mret (Some (agent_view (agent_columns a) (Some attached) (Some true)))
    end)).

(** Which services the daemon was started with. *)
Record wiring := mkWiring {
  has_agent_service : bool; has_log_service : bool; has_queue_service : bool; has_routes_service : bool;
  has_state_db : bool
}.

(** [json.dumps(v, sort_keys=True)], with the default separators. *)
Definition dumps_spaced : json → string := dumps_spaced_with escape_ascii.
Definition SEND_INPUT_PAYLOAD_MAX_BYTES : Z := 16384.

(** [_host_operator_sender] *)
Definition host_operator_sender : AgentRecord :=
  mkAgent HOST_OPERATOR_SENTINEL EmptyString EmptyString EmptyString 0 0 EmptyString "master" EmptyString
    "host-operator" EmptyString None "{}" EmptyString EmptyString None true.

(** [BEGIN IMMEDIATE; UPDATE agents SET project_path = ?; COMMIT] of [app_agent_update] *)
Definition update_project_path (id path : string) : dao unit :=
  _ ← Sql.begin_immediate;
  _ ← update_agents (is_agent id) (λ a,
        with_fields (role a) (capability a) (label a) path (effective_permissions a)
          (last_registered_at a) (last_seen_at a) (active a) a);
  Sql.commit.

Section Handlers.
Context `{L : AgentsLookup} `{CP : ContainerPaneLookup}.
Variable sha256_hex : string → string.
Variable redactor : text → option text.
Variable envelope_max_bytes : Z.
Variable default_wait : Z.
Variable repr_of : json → string.
Variable schema_version : Z.
Variable daemon_home : string.
Variable log_attacher_ : option LogAttacher.
(** What [add_route] makes of a rule or value that is neither text nor null. *)
Variable add_route_untyped : M router RouteRow.
(** The 32 hexadecimal digits found in an error message, if any. *)
Variable agent_named : string.
Variable to_float : string → string * option Z.
Variable w : wiring.

(** [gate_session_required]; the parameters of a request that passes are an object. *)
Definition handler (ps : json) (p : peer) (body : AppSession → params → M daemon app_envelope)
  : M daemon app_envelope :=
  gated (@on_app) ps p (λ session, body session (match ps with JObj o => o | _ => [] end)).

(** The emitted line, whose failure does not matter. *)
Definition emit (event_type : string) (payload : params) (session : AppSession) : M daemon unit :=
  _ ← emit_app_mutation event_type payload session; mret tt.

(** ** app.agent.register_from_pane *)

(** What [register_agent] answers, as a dictionary. *)
Definition opt_int (o : option Z) : json := match o with Some z => JInt z | None => JNull end.
Definition register_payload (r : RegisterOutcome) : params :=
  let f := ro_agent r in let a := fr_agent f in
  [("agent_id", JStr (agent_id a)); ("container_id", JStr (container_id a));
   ("container_name", opt_str (fr_container_name f)); ("container_user", opt_str (fr_container_user f));
   ("tmux_socket_path", JStr (tmux_socket_path a)); ("tmux_session_name", JStr (tmux_session_name a));
   ("tmux_window_index", JInt (tmux_window_index a)); ("tmux_pane_index", JInt (tmux_pane_index a));
   ("tmux_pane_id", JStr (tmux_pane_id a)); ("pane_pid", opt_int (fr_pane_pid f)); ("cwd", opt_str (fr_cwd f));
   ("role", JStr (role a)); ("capability", JStr (capability a)); ("label", JStr (label a));
   ("project_path", JStr (project_path a)); ("parent_agent_id", opt_str (parent_agent_id a));
   ("effective_permissions", match loads to_float (effective_permissions a) with Ok j => j | Raise _ => JNull end);
   ("created_at", JStr (created_at a)); ("last_registered_at", JStr (last_registered_at a));
   ("last_seen_at", opt_str (last_seen_at a)); ("active", JBool (active a));
   ("created_or_reactivated", JStr (ro_created_or_reactivated r))]%string.

Definition given (k : string) (v : option json) : params :=
  match v with None | Some JNull => [] | Some j => [(k, j)] end.

Definition register_params (i : PaneIdentity) (label : string) (ps : params) (parent : option string) : params :=
  [("container_id", JStr (id_container i));
   ("pane_composite_key",
    JObj [("container_id", JStr (id_container i)); ("tmux_socket_path", JStr (id_socket i));
          ("tmux_session_name", JStr (id_session i)); ("tmux_window_index", JInt (id_window i));
          ("tmux_pane_index", JInt (id_pane_index i)); ("tmux_pane_id", JStr (id_pane i))])]%string ++
  given "role" (json_get "role" ps) ++ given "capability" (json_get "capability" ps) ++
  [("label"%string, JStr label)] ++ given "project_path" (json_get "project_path" ps) ++
  match parent with Some p => [("parent_agent_id"%string, JStr p)] | None => [] end.

(** The checks against the state database before the service is called. *)
Definition adopt_preflight (i : PaneIdentity) (attach : bool) (parent : option string)
  : M desk (option (string * params)) :=
  with_conn (at_sql (
    mismatch ← find_pane_with_full_identity_match i;
    match mismatch with
    | Some field => mret (Some ("pane_not_found"%string,
                      [("pane_id", JStr (id_pane i)); ("mismatch_field", JStr field)]%string))
    | None =>
        up ← (if attach then app_container_is_active (id_container i) else mret true : dao bool);
        if negb (up : bool) then mret (Some ("container_inactive"%string, [("container_id"%string, JStr (id_container i))]))
        else
          match parent with
          | None | Some EmptyString => mret None
          | Some parent =>
              there ← parent_agent_exists parent;
              mret (if (there : bool) then None
                    else Some ("agent_not_found"%string, [("agent_id"%string, JStr parent)]))
          end
    end)).

Definition app_agent_register_from_pane (ps : json) (p : peer) : M daemon app_envelope :=
  handler ps p (λ session o,
    checked (validate_identity o) (λ i,
    checked (app_validate_label (json_get "label" o)) (λ label,
    let attach := truthy (default (JBool false) (json_get "attach_log" o)) in
    checked (match json_get "parent_agent_id" o with
             | None | Some JNull => inr None
             | Some (JStr s) => inr (Some s)
             | Some _ => inl ("parent_agent_id", "wrong type")%string
             end) (λ parent,
    if negb (has_agent_service w) then internal_error
    else if negb (has_state_db w) then internal_error
    else
      refused ← on_desk (adopt_preflight i attach parent);
      match refused with
      | Some (code, details) => fail code details
      | None =>
          trying (on_desk (register_agent repr_of schema_version log_attacher_
                             (register_params i label o parent) (peer_uid p)))
            (on_registration_error (λ code, map_registration_error agent_named code (id_container i) parent))
            (λ outcome,
               let id := agent_id (fr_agent (ro_agent outcome)) in
               record ← on_desk (with_conn (at_sql (select_agent id)));
               let view := match record with
                           | Some a => agent_view (agent_columns a) (Some false) (Some true)
                           | None => register_payload outcome
                           end in
               _ ← emit "agent_registered"
                     [("agent_id", get_or view "agent_id" JNull); ("container_id", get_or view "container_id" JNull);
                      ("pane_id", get_or view "pane_id" JNull); ("role", get_or view "role" JNull);
                      ("via", JStr "app.agent.register_from_pane")]%string session;
               success [("row"%string, JObj view)])
      end)))).

(** ** app.agent.update *)

Definition APP_VALID_ROLES : list string := ["master"; "slave"; "swarm"; "test-runner"; "shell"; "unknown"].

(** The fields of an update that are present, checked before anything is changed. *)
Record AgentUpdate := mkUpdate {
  up_role : option string; up_capability : option string; up_label : option string;
  up_project : option string
}.
Definition validate_update (o : params) : (string * string) + AgentUpdate :=
  let role := match json_get "role" o with
              | None => inr None
              | Some (JStr r) =>
                  if bool_decide (r = EmptyString)
                  then inl ("role", "field is not clearable; provide a valid value from the role closed set")%string
                  else if bool_decide (r ∈ APP_VALID_ROLES) then inr (Some r)
                  else inl ("role", "not in role closed set")%string
              | Some _ => inl ("role", "wrong type")%string
              end in
  let capability := match json_get "capability" o with
              | None => inr None
              | Some (JStr c) =>
                  if bool_decide (c = EmptyString)
                  then inl ("capability", "field is not clearable; provide a non-empty value")%string
                  else inr (Some c)
              | Some _ => inl ("capability", "wrong type")%string
              end in
  let label := match json_get "label" o with
               | None => inr None
               | v => match app_validate_label v with inl e => inl e | inr l => inr (Some l) end
               end in
  let project := match json_get "project_path" o with
                 | None => inr None
                 | Some JNull => inr (Some EmptyString)
                 | Some (JStr s) => inr (Some s)
                 | Some _ => inl ("project_path", "wrong type")%string
                 end in
  match role, capability, label, project with
  | inl e, _, _, _ | inr _, inl e, _, _ | inr _, inr _, inl e, _ | inr _, inr _, inr _, inl e => inl e
  | inr r, inr c, inr l, inr pp => inr (mkUpdate r c l pp)
  end.

(** [set_role], [set_capability], [set_label] for the fields that are present, in that order. *)
Definition apply_update (id : string) (u : AgentUpdate) (uid : Z) : M desk unit :=
  let aid := ("agent_id"%string, JStr id) in
  _ ← match up_role u with
      | Some r => _ ← set_role schema_version [aid; ("role", JStr r); ("confirm", JBool true)]%string uid; mret tt
      | None => mret tt
      end;
  _ ← match up_capability u with
      | Some c => _ ← set_capability schema_version [aid; ("capability"%string, JStr c)]; mret tt
      | None => mret tt
      end;
  match up_label u with
  | Some l => _ ← set_label schema_version [aid; ("label"%string, JStr l)]; mret tt
  | None => mret tt
  end.

(** The direct write of [project_path]: [Some code] when the call ends here. *)
Definition apply_project (id path : string) : M desk (option string) :=
  with_conn (at_sql (
    catch
      (existing ← select_agent id;
       match existing with
       | None => mret (Some "agent_not_found"%string)
       | Some _ => _ ← update_project_path id path; mret None
       end)
      (λ e, if is_sqlite_error e
            then _ ← catch Sql.rollback (λ e', if is_sqlite_error e' then mret tt else throw e');
                 mret (Some "internal_error"%string)
            else throw e))).

Definition updated_fields (u : AgentUpdate) : list json :=
  let name {A} (k : string) (v : option A) := match v with Some _ => [JStr k] | None => [] end in
  name "role"%string (up_role u) ++ name "capability"%string (up_capability u) ++
  name "label"%string (up_label u) ++ name "project_path"%string (up_project u).

Definition agent_missing (id : string) : M daemon app_envelope :=
  fail "agent_not_found" [("agent_id"%string, JStr id)].

(** The post-state view, then the line, then the answer. *)
Definition answer_agent (id : string) (line : option (string * params)) (session : AppSession)
  : M daemon app_envelope :=
  v ← on_desk (agent_view_from_db id);
  match v with
  | None => agent_missing id
  | Some view =>
      _ ← match line with Some (t, payload) => emit t payload session | None => mret tt end;
      success [("row"%string, JObj view)]
  end.

Definition app_agent_update (ps : json) (p : peer) : M daemon app_envelope :=
  handler ps p (λ session o,
    match nonempty_text (json_get "agent_id" o) with
    | None => invalid "agent_id" "missing or wrong type"
    | Some id =>
        if negb (has_agent_service w) then internal_error
        else if negb (has_state_db w) then internal_error
        else
          checked (validate_update o) (λ u,
          trying (on_desk (apply_update id u (peer_uid p)))
            (on_registration_error (map_registration_error_generic id)) (λ _,
            r ← match up_project u with
                | None => mret None
                | Some path => on_desk (apply_project id path)
                end;
            match r with
            | Some code => if bool_decide (code = "agent_not_found"%string) then agent_missing id else internal_error
            | None =>
                answer_agent id
                  (match updated_fields u with
                   | [] => None
                   | fields => Some ("agent_updated"%string,
                       [("agent_id", JStr id); ("via", JStr "app.agent.update"); ("fields", JArr fields)]%string)
                   end) session
            end))
    end).

(** ** app.log.attach, app.log.detach *)

Definition log_handler (ps : json) (p : peer) (body : AppSession → string → M daemon app_envelope)
  : M daemon app_envelope :=
  handler ps p (λ session o,
    match nonempty_text (json_get "agent_id" o) with
    | None => invalid "agent_id" "missing or wrong type"
    | Some id =>
        if negb (has_log_service w) then internal_error
        else if negb (has_state_db w) then internal_error
        else body session id
    end).

Definition log_line (id new_status via : string) : string * params :=
  ("log_attachment_changed", [("agent_id", JStr id); ("new_status", JStr new_status); ("via", JStr via)])%string.

Definition app_log_attach (ps : json) (p : peer) : M daemon app_envelope :=
  log_handler ps p (λ session id,
    trying (on_desk (attach_log schema_version daemon_home [("agent_id"%string, JStr id)] (peer_uid p) "explicit" false))
      (on_registration_error (map_registration_error_generic id))
      (λ _, answer_agent id (Some (log_line id "active" "app.log.attach")) session)).

Definition app_log_detach (ps : json) (p : peer) : M daemon app_envelope :=
  log_handler ps p (λ session id,
    trying
      (catch (_ ← on_desk (detach_log schema_version [("agent_id"%string, JStr id)] (peer_uid p)); mret true)
         (λ e, if bool_decide (e = RegistrationError "attachment_not_found") then mret false else throw e))
      (on_registration_error (map_registration_error_generic id))
      (λ detached, answer_agent id
         (if (detached : bool) then Some (log_line id "detached" "app.log.detach") else None) session)).

(** ** app.send_input *)

(** A replayed answer. *)
Definition replay (recorded : app_envelope) : app_envelope :=
  match recorded with
  | Success result => Success (Json.put "deduplicated"%string (JBool true) result)
  | Failure code details => Success [("deduplicated"%string, JBool true)]
  end.

Definition on_resolve_error (target : string) (e : exn) : option (M daemon app_envelope) :=
  match e with
  | QueueServiceError TargetResolve _ => Some (fail "agent_not_found" [("agent_id"%string, JStr target)])
  | _ => None
  end.

Definition on_send_error (target : string) (e : exn) : option (M daemon app_envelope) :=
  match e with
  | QueueServiceError _ code =>
      if bool_decide (code = "routing_disabled"%string) then Some (fail "routing_disabled" [])
      else if bool_decide (code ∈ ["sender_role_not_permitted"; "target_not_active"]%string)
      then Some (fail "permission_denied" [("reason"%string, JStr "feat009_permission_gate")])
      else if bool_decide (code ∈ ["agent_not_found"; "target_label_ambiguous"]%string)
      then Some (fail "agent_not_found" [("agent_id"%string, JStr target)])
      else None
  | _ => None
  end.

(** [queue_service.send_input(sender, target, body, wait=False)], which draws the message id. *)
Definition send_from_host (target body : string) : M daemon SendInputResult :=
  h ← on_app uuid4_hex;
  on_queue (send_input sha256_hex redactor envelope_max_bytes default_wait host_operator_sender target body
              (uuid_str h) no_wait direct None None).

(** The answer to a row that was stored. *)
Definition answer_sent (session : AppSession) (key : option string) (target_resolved : string)
    (row : QueueRow) : M daemon app_envelope :=
  if bool_decide (state row = blocked) && bool_decide (block_reason row = Some kill_switch_off)
  then fail "routing_disabled" []
  else if bool_decide (state row = blocked) && bool_decide (block_reason row = Some sender_role_not_permitted)
  then fail "permission_denied" [("reason"%string, JStr "feat009_permission_gate")]
  else
    let env := Success [("message_id", JStr (message_id row)); ("state", JStr (qstate_text (state row)));
                        ("deduplicated", JBool false)]%string in
    _ ← emit "queue_message_enqueued"
          [("message_id", JStr (message_id row)); ("target_agent_id", JStr target_resolved);
           ("state", JStr (qstate_text (state row))); ("via", JStr "app.send_input")]%string session;
    _ ← match key with
        | Some k => t ← on_app now_ms; on_app (record_replay (app_session_id session) k (message_id row) env t)
        | None => mret tt
        end;
    mret env.

(** The checks of a request: target, payload, key. *)
Definition validate_send (o : params) : (string * string) + (string * params * option string) :=
  match nonempty_text (json_get "target_agent_id" o) with
  | None => inl ("target_agent_id", "missing or wrong type")%string
  | Some target =>
      match json_get "payload" o with
      | Some (JObj payload) =>
          match json_get "idempotency_key" o with
          | None | Some JNull => inr (target, payload, None)
          | Some (JStr k) =>
              if bool_decide (MAX_KEY_LENGTH < char_count k)%nat then inl ("idempotency_key", "too long")%string
              else inr (target, payload, Some k)
          | Some _ => inl ("idempotency_key", "wrong type")%string
          end
      | _ => inl ("payload", "missing or wrong type")%string
      end
  end.

Definition send_new (session : AppSession) (key : option string) (target : string) (payload : params)
  : M daemon app_envelope :=
  trying (ofail (resolve_target_agent_id target)) (on_resolve_error target) (λ resolved,
    let body := dumps_spaced (sort_keys (JObj payload)) in
    if SEND_INPUT_PAYLOAD_MAX_BYTES <? Z.of_nat (String.length body) then invalid "payload" "too large"
    else trying (send_from_host target body) (on_send_error target) (λ res,
           answer_sent session key resolved (sent_row res))).

Definition app_send_input (ps : json) (p : peer) : M daemon app_envelope :=
  handler ps p (λ session o,
    checked (validate_send o) (λ '(target, payload, key),
    if negb (has_queue_service w) then internal_error
    else
      _ ← on_app (store_for_session (app_session_id session));
      hit ← match key with
            | Some k => on_app (lookup_replay (app_session_id session) k)
            | None => mret None
            end;
      match hit with
      | Some e => mret (replay (deduplicated_response e))
      | None => send_new session key target payload
      end)).

(** ** app.queue.approve, app.queue.delay, app.queue.cancel *)

Definition queue_action (action audit_event_type : string) (run : string → string → M world QueueRow)
    (ps : json) (p : peer) : M daemon app_envelope :=
  handler ps p (λ session o,
    match nonempty_text (json_get "message_id" o) with
    | None => invalid "message_id" "missing or wrong type"
    | Some mid =>
        if bool_decide (action = "delay"%string) && negb (is_set (non_negative (json_get "delay_ms" o)))
        then invalid "delay_ms" "missing or wrong type"
        else if negb (has_queue_service w) then internal_error
        else
          trying (on_queue (run mid HOST_OPERATOR_SENTINEL))
            (λ e, match e with QueueServiceError _ code => Some (map_queue_action_error mid code) | _ => None end)
            (λ row,
               let view := queue_view_from_row row in
               _ ← emit audit_event_type
                     [("message_id", JStr mid); ("state", get_or view "state" JNull);
                      ("via", JStr ("app.queue." +:+ action))]%string session;
               success [("row"%string, JObj view)])
    end).

Definition app_queue_approve := queue_action "approve" "queue_message_approved" approve.
Definition app_queue_delay := queue_action "delay" "queue_message_delayed" delay.
Definition app_queue_cancel := queue_action "cancel" "queue_message_canceled" cancel.

(** ** app.route.add, app.route.remove, app.route.update *)

Definition on_route_error (e : exn) : option (M daemon app_envelope) :=
  match e with RouteError code => Some (invalid "params" code) | _ => None end.
Definition route_missing (rid : string) : M daemon app_envelope :=
  fail "route_not_found" [("route_id"%string, JStr rid)].
Definition on_route_id_error (rid : string) (e : exn) : option (M daemon app_envelope) :=
  if bool_decide (e = RouteError "route_id_not_found") then Some (route_missing rid) else on_route_error e.

(** [params.get(k) or {}], which must be an object. *)
Definition sub_object (k : string) (o : params) : (string * string) + params :=
  match json_get k o with
  | None => inr []
  | Some (JObj d) => inr d
  | Some v => if truthy v then inl (k, "wrong type"%string) else inr []
  end.

(** Text, or null read as absent; [None] for anything else. *)
Definition rule_text (v : option json) (dflt : string) : option string :=
  match v with None => Some dflt | Some (JStr s) => Some s | Some JNull => Some EmptyString | Some _ => None end.
Definition value_text (v : option json) : option (option string) :=
  match v with None | Some JNull => Some None | Some (JStr s) => Some (Some s) | Some _ => None end.

Definition route_request (event_type template_ : string) (scope target master : params) : option RouteRequest :=
  sk ← rule_text (json_get "kind" scope) "any"; sv ← value_text (json_get "value" scope);
  tr ← rule_text (json_get "rule" target) EmptyString; tv ← value_text (json_get "value" target);
  mr ← rule_text (json_get "rule" master) "auto"; mv ← value_text (json_get "value" master);
  Some (mkRequest event_type sk sv tr tv mr mv template_ None).

Definition app_route_add (ps : json) (p : peer) : M daemon app_envelope :=
  handler ps p (λ session o,
    match nonempty_text (json_get "event_type" o) with
    | None => invalid "event_type" "missing or wrong type"
    | Some event_type =>
        match json_get "template" o with
        | Some (JStr template_) =>
            checked (sub_object "source_scope" o) (λ scope,
            checked (sub_object "target" o) (λ target,
            checked (sub_object "master" o) (λ master,
            if negb (has_routes_service w) then internal_error
            else
              trying (on_router (match route_request event_type template_ scope target master with
                                 | Some q => add_route q
                                 | None => add_route_untyped
                                 end))
                on_route_error
                (λ row,
                   view ← ofail (route_view_from_row row);
                   _ ← emit "route_created" [("route_id", get_or view "route_id" JNull);
                                             ("via", JStr "app.route.add")]%string session;
                   success [("row"%string, JObj view)]))))
        | _ => invalid "template" "missing or wrong type"
        end
    end).

Definition app_route_remove (ps : json) (p : peer) : M daemon app_envelope :=
  handler ps p (λ session o,
    match nonempty_text (json_get "route_id" o) with
    | None => invalid "route_id" "missing or wrong type"
    | Some rid =>
        if negb (has_routes_service w) then internal_error
        else
          pre ← catch (x ← on_router (show_route rid); mret (Some (Some (fst x))))
                  (λ e, if bool_decide (e = RouteError "route_id_not_found") then mret None
                        else if is_exception e then mret (Some None) else throw e);
          match pre with
          | None => route_missing rid
          | Some pre_row =>
              trying (on_router (remove_route rid None)) (on_route_id_error rid) (λ _,
                view ← match pre_row with
                       | Some r => ofail (route_view_from_row r)
                       | None => mret [("route_id"%string, JStr rid)]
                       end;
                _ ← emit "route_deleted" [("route_id", JStr rid); ("via", JStr "app.route.remove")]%string session;
                success [("row"%string, JObj view)])
          end
    end).

(** The smallest key that is not accepted. *)
Definition extra_field (o : params) : option string :=
  head (merge_sort String.le (filter (λ k, k ∉ ["route_id"; "enabled"; "app_session_token"]%string) o.*1)).

Definition app_route_update (ps : json) (p : peer) : M daemon app_envelope :=
  handler ps p (λ session o,
    match nonempty_text (json_get "route_id" o) with
    | None => invalid "route_id" "missing or wrong type"
    | Some rid =>
        match json_get "enabled" o with
        | Some (JBool on) =>
            match extra_field o with
            | Some offender => invalid offender "field not accepted"
            | None =>
                if negb (has_routes_service w) then internal_error
                else
                  trying (on_router (if on then enable_route rid None else disable_route rid None))
                    (on_route_id_error rid) (λ _,
                  trying (on_router (show_route rid))
                    (λ e, if bool_decide (e = RouteError "route_id_not_found") then Some (route_missing rid) else None)
                    (λ shown,
                       view ← ofail (route_view_from_row (fst shown));
                       _ ← emit "route_updated" [("route_id", JStr rid); ("enabled", JBool on);
                                                 ("via", JStr "app.route.update")]%string session;
                       success [("row"%string, JObj view)]))
            end
        | _ => invalid "enabled" "missing or wrong type"
        end
    end).
End Handlers.
