(* ===== verification/AppReads.v ===== *)
(** The application's listings and details (src/src/agenttower/app_contract/reads.py): limits,
    orderings, filters and cursors are checked, the rows of a table are projected through
    their view model, sorted and cut into pages.

    A table scan without [ORDER BY] gives its rows in the fixed order of the map; SQLite's is
    as fixed as long as the table is not written.  Rows are compared on columns of one type,
    text or integers. *)

From S2P Require Import Prelude Errors Agents Permissions Store QueueDao Lookups KillSwitch Routes RoutingWorker Json Session Tables LogDao Tower RegistryDao Validation Desk AppContract AppCursor AppDaemon AppMutations.
From Stdlib Require Import Ascii.

Local Open Scope Z_scope.

Definition DEFAULT_LIMIT : Z := 50.
Definition MAX_LIMIT : Z := 200.

(** ** Parameters *)

(** [_validate_limit] *)
Definition validate_limit (o : params) : (string * string) + Z :=
  match default (JInt DEFAULT_LIMIT) (json_get "limit" o) with
  | JInt z => if (z <? 1) || (MAX_LIMIT <? z) then inl ("limit", "out of bounds [1, 200]")%string else inr z
  | _ => inl ("limit", "must be an integer")%string
  end.

(** [raw.partition(":")], when there is a colon. *)
Fixpoint partition_colon (s : string) : option (string * string) :=
  match s with
  | EmptyString => None
  | String c r =>
      if bool_decide (c = ":"%char) then Some (EmptyString, r)
      else match partition_colon r with Some (a, b) => Some (String c a, b) | None => None end
  end.

Definition canonical_order (fd : string * string) : string := fd.1 +:+ ":" +:+ fd.2.

(** [_validate_order_by]: the field and the direction. *)
Definition validate_order_by (raw : option json) (field_set : list string) (dflt : string * string)
  : (string * string) + (string * string) :=
  match raw with
  | None | Some JNull => inr dflt
  | Some (JStr EmptyString) => inl ("order_by", "wrong type")%string
  | Some (JStr s) =>
      let '(field, direction) := default (s, dflt.2) (partition_colon s) in
      if bool_decide (field ∉ field_set) then inl ("order_by", "unknown field")%string
      else if bool_decide (direction ∉ ["asc"; "desc"]%string) then inl ("order_by", "bad direction suffix")%string
      else inr (field, direction)
  | Some _ => inl ("order_by", "wrong type")%string
  end.

(** The filters of the pane and agent listings: an object without unknown keys. *)
Definition known_filters (o : params) (allowed : list string) : (string * string) + params :=
  match sub_object "filters" o with
  | inl e => inl e
  | inr f => match list_find (λ kv, kv.1 ∉ allowed) f with
             | Some (_, (k, _)) => inl (k, "unknown filter"%string)
             | None => inr f
             end
  end.

(** [s.split()] *)
Fixpoint words_from (word : string) (s : string) : list string :=
  let push (rest : list string) := if bool_decide (word = EmptyString) then rest else word :: rest in
  match s with
  | EmptyString => push []
  | String c r => if py_space c then push (words_from EmptyString r) else words_from (word +:+ String c EmptyString) r
  end.

Section Filters.
Variable str_lower : string → string.                  (* [str.lower] *)
Variable py_gt_other : json → json → outcome bool.      (* [>] on values other than texts and integers *)
Variable float_text : string → string.                 (* a float as SQLite turns it to text *)

(** [_filter_value_operator] *)
Definition filter_value_operator (v : json) : bool :=
  match v with
  | JStr s =>
      negb (Text.all (λ c, negb (bool_decide (c ∈ ["<"; ">"; "~"; "*"; "%"]%char))) s) ||
      bool_decide ("like"%string ∈ words_from EmptyString (str_lower s))
  | _ => false
  end.

(** [_validate_filters_object] *)
Definition validate_filters_object (o : params) (allowed : list string) : (string * string) + params :=
  match known_filters o allowed with
  | inl e => inl e
  | inr f => match list_find (λ kv, filter_value_operator kv.2 = true) f with
             | Some (_, (k, _)) => inl (k, "operator syntax not supported"%string)
             | None => inr f
             end
  end.

(** A filter that must be text, or a boolean, when it is given. *)
Definition text_filter (f : params) (k : string) : (string * string) + option string :=
  match json_get k f with
  | None | Some JNull => inr None
  | Some (JStr s) => inr (Some s)
  | Some _ => inl (k, "wrong type"%string)
  end.
Definition bool_filter (f : params) (k : string) : (string * string) + option bool :=
  match json_get k f with
  | None | Some JNull => inr None
  | Some (JBool b) => inr (Some b)
  | Some _ => inl (k, "wrong type"%string)
  end.

(** A value that is not null. *)
Definition non_null (v : option json) : option json := match v with Some JNull => None | _ => v end.

(** [since > until] *)
Definition int_of (v : json) : option Z :=
  match v with JInt z => Some z | JBool b => Some (if b then 1 else 0) | _ => None end.
Definition py_gt (v u : json) : outcome bool :=
  match v, u with
  | JStr s, JStr t => Ok (negb (str_leb s t))
  | _, _ => match int_of v, int_of u with
            | Some a, Some b => Ok (b <? a)
            | _, _ => py_gt_other v u
            end
  end.

(** A bound of a time range, compared with a text column. *)
Definition sql_text (v : json) : outcome string :=
  match v with
  | JStr s => Ok s
  | JInt z => if (- 2 ^ 63 <=? z) && (z <? 2 ^ 63) then Ok (print_int z) else Raise (PyError "OverflowError")
  | JBool b => Ok (if b then "1" else "0")%string
  | JFloat repr _ => Ok (float_text repr)
  | JNull | JArr _ | JObj _ => Raise (PyError "ProgrammingError")
  end.

(** [since] and [until], when given, as the statement compares them. *)
Definition range_bound (v : option json) : outcome (option string) :=
  match v with None => Ok None | Some v => obind (sql_text v) (λ s, Ok (Some s)) end.
Definition in_range (since until : option string) (t : string) : bool :=
  match since with Some s => str_leb s t | None => true end &&
  match until with Some u => str_leb t u | None => true end.

(** ** Sorting *)

(** The order of two values of a column. *)
Definition value_cmp (v w : json) : comparison :=
  match v, w with
  | JStr s, JStr t => String.compare s t
  | _, _ => match int_of v, int_of w with Some a, Some b => a ?= b | _, _ => Eq end
  end.
Definition component_cmp (v w : option json) : comparison :=
  match non_null v, non_null w with
  | None, None => Eq
  | None, Some _ => Gt
  | Some _, None => Lt
  | Some a, Some b => value_cmp a b
  end.
Fixpoint keys_cmp (keys : list string) (r r' : params) : comparison :=
  match keys with
  | [] => Eq
  | k :: rest => match component_cmp (json_get k r) (json_get k r') with
                 | Eq => keys_cmp rest r r'
                 | c => c
                 end
  end.

(** Python's sort is stable: a row moves past those that are smaller. *)
Fixpoint insert_sorted (before : params → params → bool) (r : params) (l : list params) : list params :=
  match l with
  | [] => [r]
  | x :: rest => if before x r then x :: insert_sorted before r rest else r :: l
  end.
Definition stable_sort (before : params → params → bool) (l : list params) : list params :=
  foldr (insert_sorted before) [] l.

Definition strictly_before (keys : list string) (reverse : bool) (x r : params) : bool :=
  match keys_cmp keys x r with Lt => negb reverse | Gt => reverse | Eq => false end.

(** [_sort_rows] *)
Definition sort_rows (rows : list params) (fd : string * string) (default_keys : list string) : list params :=
  stable_sort (strictly_before (if bool_decide (fd.1 = "default"%string) then default_keys else [fd.1])
                 (bool_decide (fd.2 = "desc"%string))) rows.

(** ** Pages *)

(** [_paginate] *)
Definition paginate (rows : list params) (offset limit : Z) (order : string) (filters : params) : app_envelope :=
  let total := Z.of_nat (length rows) in
  let page := take (Z.to_nat limit) (drop (Z.to_nat offset) rows) in
  let next_offset := offset + Z.of_nat (length page) in
  let cursor_next := if next_offset <? total then encode_list_cursor next_offset order filters else None in
  Success [("rows", JArr (JObj <$> page)); ("total", JInt total); ("total_estimate", JNull);
           ("cursor_next", opt_str cursor_next); ("ordering", JStr order)]%string.

(** [except sqlite3.Error: return internal_error] around a query. *)
Definition querying {A} (m : M daemon A) (k : A → M daemon app_envelope) : M daemon app_envelope :=
  r ← catch (a ← m; mret (Some a)) (λ e, if is_sqlite_error e then mret None else throw e);
  match r with None => internal_error | Some a => k a end.

Definition query {A} (m : dao A) : M daemon A := on_desk (with_conn (at_sql m)).

Section Handlers.
Variable to_float : string → string * option Z.
Variable num_eq : json → json → bool.
Variable w : wiring.

(** What every listing starts with: limit, ordering, filters, cursor; then the page of the
    rows the body finds. *)
Definition listing {F} (ps : json) (p : peer) (fields : list string) (dflt : string * string)
    (parse_filters : params → (string * string) + (params * F))
    (rows : F → (string * string) → (list params → M daemon app_envelope) → M daemon app_envelope)
  : M daemon app_envelope :=
  handler ps p (λ _ o,
    checked (validate_limit o) (λ limit,
    checked (validate_order_by (json_get "order_by" o) fields dflt) (λ fd,
    checked (parse_filters o) (λ '(raw, f),
    checked (decode_list_cursor to_float num_eq (json_get "cursor_next" o) (canonical_order fd) raw) (λ offset,
    if negb (has_state_db w) then internal_error
    else rows f fd (λ l, mret (paginate l offset limit (canonical_order fd) raw))))))).

(** [match check with inl e => inl e | inr x => k x end] *)
Definition also {A B} (r : (string * string) + A) (k : A → (string * string) + B) : (string * string) + B :=
  match r with inl e => inl e | inr a => k a end.

(** A detail by a non-empty id. *)
Definition detail (field : string) (ps : json) (p : peer) (body : string → M daemon app_envelope)
  : M daemon app_envelope :=
  handler ps p (λ _ o,
    match nonempty_text (json_get field o) with
    | None => invalid field "missing or wrong type"
    | Some id => if negb (has_state_db w) then internal_error else body id
    end).

(** ** Panes *)

(** [_fetch_pane_agent_lookup]: the last active agent of a pane. *)
Definition fetch_pane_agent_lookup : dao (list (pane_key * string)) :=
  Sql.read (λ d, (λ a, (agent_composite_key a, agent_id a)) <$> filter (λ a, active a = true) (agents d)).
Definition linked_agent (lookup : list (pane_key * string)) (p : PaneRec) : option string :=
  snd <$> last (filter (λ x, x.1 = pane_composite_key p) lookup).

Definition project_pane (lookup : list (pane_key * string)) (p : PaneRec) : params :=
  pane_view
    [("pane_id", JStr (pr_tmux_pane_id p)); ("container_id", JStr (pr_container_id p));
     ("tmux_socket", JStr (pr_tmux_socket_path p)); ("session_name", JStr (pr_tmux_session_name p));
     ("window_index", JInt (pr_tmux_window_index p)); ("pane_index", JInt (pr_tmux_pane_index p));
     ("discovered_at", JStr (pr_first_seen_at p)); ("last_seen_at", JStr (pr_last_scanned_at p))]%string
    (linked_agent lookup p) (Some (pr_container_name p)).

Definition app_pane_list (ps : json) (p : peer) : M daemon app_envelope :=
  listing ps p ["default"; "discovered_at"; "last_seen_at"] ("default", "asc")%string
    (λ o, also (known_filters o ["container_id"; "registered"]) (λ f,
          also (text_filter f "container_id") (λ c,
          also (bool_filter f "registered") (λ r, inr (f, (c, r))))))
    (λ '(c, r) fd k,
       querying (query (all ← select_panes_listing false c; lookup ← fetch_pane_agent_lookup; mret (all, lookup)))
         (λ '(all, lookup),
            let keep p := match r with
                          | Some b => Bool.eqb (bool_decide (is_Some (linked_agent lookup p))) b
                          | None => true
                          end in
            k (sort_rows (project_pane lookup <$> filter (λ p, keep p = true) all) fd
                 ["container_name"; "session_name"; "window_index"; "pane_index"]))).

Definition app_pane_detail (ps : json) (p : peer) : M daemon app_envelope :=
  detail "pane_id" ps p (λ id,
    r ← query (all ← select_panes_listing false None; lookup ← fetch_pane_agent_lookup; mret (all, lookup));
    let '(all, lookup) := r in
    match list_find (λ p, pr_tmux_pane_id p = id) all with
    | Some (_, p) => success [("row"%string, JObj (project_pane lookup p))]
    | None => fail "pane_not_found" [("pane_id"%string, JStr id)]
    end).

(** ** Agents *)

(** [_fetch_log_attached_set], [_fetch_active_pane_keys] *)
Definition fetch_log_attached_set : dao (list string) :=
  on_operational (Sql.read (λ d, la_agent_id <$> filter (λ r, la_status r = "active"%string) (log_attachments d))) [].
Definition fetch_active_pane_keys : dao (list pane_key) :=
  on_operational (Sql.read (λ d, (map_to_list (filter (λ kp, pr_active kp.2 = true) (panes d))).*1)) [].

Definition project_agent (attached : list string) (keys : list pane_key) (a : AgentRecord) : params :=
  agent_view (agent_columns a) (Some (bool_decide (agent_id a ∈ attached)))
    (Some (bool_decide (agent_composite_key a ∈ keys))).

(** The sort of the agent listing, only for the default ordering. *)
Definition sort_agents (fd : string * string) (rows : list params) : list params :=
  if bool_decide (fd.1 = "default"%string)
  then stable_sort (strictly_before ["role_priority"; "registered_at"]%string (bool_decide (fd.2 = "desc"%string))) rows
  else rows.

Definition app_agent_list (ps : json) (p : peer) : M daemon app_envelope :=
  listing ps p ["default"; "registered_at"; "role"] ("default", "asc")%string
    (λ o, also (known_filters o ["role"; "capability"; "container_id"; "log_attached"]) (λ f,
          also (text_filter f "role") (λ r,
          also (text_filter f "capability") (λ cap,
          also (text_filter f "container_id") (λ c,
          also (bool_filter f "log_attached") (λ att, inr (f, (r, cap, c, att))))))))
    (λ '(r, cap, c, att) fd k,
       querying (query (
         listed ← Sql.read (λ d, list_agents (agents d)
                     (match r with Some EmptyString | None => [] | Some r => [r] end) c false None);
         all ← ofail listed;
         attached ← fetch_log_attached_set;
         keys ← fetch_active_pane_keys;
         mret (all, attached, keys)))
         (λ '(all, attached, keys),
            let keep a := match cap with Some x => bool_decide (capability a = x) | None => true end &&
                          match att with Some b => Bool.eqb (bool_decide (agent_id a ∈ attached)) b | None => true end in
            k (sort_agents fd (project_agent attached keys <$> filter (λ a, keep a = true) all)))).

Definition app_agent_detail (ps : json) (p : peer) : M daemon app_envelope :=
  detail "agent_id" ps p (λ id,
    querying (query (
      a ← select_agent id;
      match a with
      | None => mret None
      | Some a =>
          attached ← fetch_log_attached_set; keys ← fetch_active_pane_keys;
          mret (Some (project_agent attached keys a))
      end))
      (λ r, match r with
            | None => fail "agent_not_found" [("agent_id"%string, JStr id)]
            | Some view => success [("row"%string, JObj view)]
            end)).

(** ** Containers *)

(** [ORDER BY active DESC, last_scanned_at DESC, container_id ASC] *)
Definition container_order (a b : ContainerRec) : Prop :=
  (if Bool.eqb (cr_active a) (cr_active b)
   then if str_eqb (cr_last_scanned_at a) (cr_last_scanned_at b)
        then str_leb (cr_container_id a) (cr_container_id b)
        else str_leb (cr_last_scanned_at b) (cr_last_scanned_at a)
   else cr_active a) = true.
#[export] Instance container_order_dec : RelDecision container_order.
Proof. intros a b. unfold container_order. apply _. Defined.
Definition containers_listing : dao (list ContainerRec) :=
  Sql.read (λ d, merge_sort container_order (map_to_list (containers d)).*2).

(** [_project_container], with [_derive_container_state]. *)
Definition project_container (c : ContainerRec) : params :=
  container_view
    [("container_id", JStr (cr_container_id c)); ("name", JStr (cr_name c)); ("image", JStr (cr_image c));
     ("first_seen_at", JStr (cr_first_seen_at c)); ("last_scanned_at", JStr (cr_last_scanned_at c))]%string
    None None (Some (if cr_active c then "active" else "inactive")%string).

Definition app_container_list (ps : json) (p : peer) : M daemon app_envelope :=
  listing ps p ["name"; "first_seen_at"; "last_scanned_at"] ("name", "asc")%string
    (λ o, also (validate_filters_object o ["state"]) (λ f,
          also (text_filter f "state") (λ st,
          match st with
          | Some s => if bool_decide (s ∈ CONTAINER_STATES) then inr (f, st) else inl ("state", "unknown value")%string
          | None => inr (f, st)
          end)))
    (λ st fd k,
       querying (query containers_listing) (λ all,
         let keep v := match st with
                       | Some s => bool_decide (as_text (get_or v "state" JNull) = s)
                       | None => true
                       end in
         k (sort_rows (filter (λ v, keep v = true) (project_container <$> all)) fd ["name"%string]))).

Definition app_container_detail (ps : json) (p : peer) : M daemon app_envelope :=
  detail "container_id" ps p (λ id,
    querying (query containers_listing) (λ all,
      match list_find (λ c, cr_container_id c = id) all with
      | Some (_, c) => success [("row"%string, JObj (project_container c))]
      | None => fail "not_found" []
      end)).

(** ** Log attachments *)

(** [_row_to_log_attachment] *)
Definition row_to_log_attachment (r : LogAttachmentRecord) : params :=
  log_attachment_view
    [("attachment_id", JStr (la_attachment_id r)); ("agent_id", JStr (la_agent_id r));
     ("container_id", JStr (la_container_id r)); ("log_path", JStr (la_log_path r));
     ("status", JStr (la_status r)); ("source", JStr (la_source r)); ("attached_at", JStr (la_attached_at r));
     ("last_status_at", JStr (la_last_status_at r))]%string.

Definition equals_filter (f : option string) (v : string) : bool :=
  match f with Some s => bool_decide (v = s) | None => true end.

Definition app_log_attachment_list (ps : json) (p : peer) : M daemon app_envelope :=
  listing ps p ["attached_at"; "last_status_at"; "status"] ("last_status_at", "desc")%string
    (λ o, also (validate_filters_object o ["agent_id"; "status"]) (λ f,
          also (text_filter f "agent_id") (λ a, also (text_filter f "status") (λ st, inr (f, (a, st))))))
    (λ '(a, st) fd k,
       querying (query (Sql.read (λ d, filter (λ r, equals_filter a (la_agent_id r) && equals_filter st (la_status r) = true)
                                         (log_attachments d))))
         (λ all, k (sort_rows (row_to_log_attachment <$> all) fd ["last_status_at"%string]))).

Definition app_log_attachment_detail (ps : json) (p : peer) : M daemon app_envelope :=
  detail "attachment_id" ps p (λ id,
    querying (query (Sql.read (λ d, list_find (λ r, la_attachment_id r = id) (log_attachments d))))
      (λ r, match r with
            | Some (_, r) => success [("row"%string, JObj (row_to_log_attachment r))]
            | None => fail "not_found" []
            end)).

(** ** Events *)

(** [_row_to_event] *)
Definition row_to_event (e : DurableEvent) : params :=
  event_view
    [("event_id", JInt (de_event_id e)); ("event_type", JStr (de_event_type e)); ("agent_id", JStr (de_agent_id e));
     ("observed_at", JStr (de_observed_at e)); ("excerpt", JStr (de_excerpt e));
     ("classifier_rule_id", opt_str (de_classifier_rule_id e))]%string.

(** [since > until] refuses the request; values that cannot be compared end it. *)
Definition range_checked (f : params) : outcome ((string * string) + (option json * option json)) :=
  let since := non_null (json_get "since" f) in let until := non_null (json_get "until" f) in
  match since, until with
  | Some s, Some u => obind (py_gt s u) (λ b, Ok (if b then inl ("since", "after until")%string else inr (since, until)))
  | _, _ => Ok (inr (since, until))
  end.

(** As [listing], for the two listings with a time range, whose check may raise. *)
Definition ranged_listing {F} (ps : json) (p : peer) (fields : list string) (dflt : string * string)
    (parse_filters : params → (string * string) + (params * F))
    (rows : F → option json * option json → (string * string) → (list params → M daemon app_envelope) →
            M daemon app_envelope)
  : M daemon app_envelope :=
  handler ps p (λ _ o,
    checked (validate_limit o) (λ limit,
    checked (validate_order_by (json_get "order_by" o) fields dflt) (λ fd,
    checked (parse_filters o) (λ '(raw, f),
    rc ← ofail (range_checked raw);
    checked rc (λ range,
    checked (decode_list_cursor to_float num_eq (json_get "cursor_next" o) (canonical_order fd) raw) (λ offset,
    if negb (has_state_db w) then internal_error
    else rows f range fd (λ l, mret (paginate l offset limit (canonical_order fd) raw)))))))).

Definition bounds_of (range : option json * option json) : outcome (option string * option string) :=
  obind (range_bound range.1) (λ s, obind (range_bound range.2) (λ u, Ok (s, u))).

Definition app_event_list (ps : json) (p : peer) : M daemon app_envelope :=
  ranged_listing ps p ["event_id"; "observed_at"] ("event_id", "desc")%string
    (λ o, also (validate_filters_object o ["event_type"; "agent_id"; "since"; "until"]) (λ f,
          also (text_filter f "event_type") (λ t, also (text_filter f "agent_id") (λ a, inr (f, (t, a))))))
    (λ '(t, a) range fd k,
       querying (b ← ofail (bounds_of range);
                 query (Sql.read (λ d, filter (λ e, equals_filter t (de_event_type e) && equals_filter a (de_agent_id e) &&
                                                    in_range b.1 b.2 (de_observed_at e) = true) (durable d))))
         (λ all, k (sort_rows (row_to_event <$> all) fd ["event_id"%string]))).

(** The id of an event: an integer, or text that [int()] reads. *)
Definition event_id_of (v : option json) : option Z :=
  match v with
  | Some (JInt z) => Some z
  | Some (JStr s) => if bool_decide (s = EmptyString) then None else int_of_text s
  | _ => None
  end.

Definition app_event_detail (ps : json) (p : peer) : M daemon app_envelope :=
  handler ps p (λ _ o,
    match event_id_of (json_get "event_id" o) with
    | None => invalid "event_id" "missing or wrong type"
    | Some id =>
        if negb (has_state_db w) then internal_error
        else
          querying (_ ← ofail (sql_text (JInt id));
                    query (Sql.read (λ d, list_find (λ e, de_event_id e = id) (durable d))))
            (λ r, match r with
                  | Some (_, e) => success [("row"%string, JObj (row_to_event e))]
                  | None => fail "not_found" []
                  end)
    end).

(** ** Queue *)

Definition app_queue_list (ps : json) (p : peer) : M daemon app_envelope :=
  ranged_listing ps p ["default"; "enqueued_at"; "last_updated_at"] ("default", "asc")%string
    (λ o, also (validate_filters_object o ["state"; "sender_agent_id"; "target_agent_id"; "since"; "until"]) (λ f,
          also (text_filter f "state") (λ st, also (text_filter f "sender_agent_id") (λ s,
          also (text_filter f "target_agent_id") (λ t, inr (f, (st, s, t)))))))
    (λ '(st, s, t) range fd k,
       querying (b ← ofail (bounds_of range);
                 on_router (with_connection (sql_read (λ d,
                   filter (λ r, equals_filter st (qstate_text (state r)) && equals_filter s (sender_agent_id r) &&
                                equals_filter t (target_agent_id r) && in_range b.1 b.2 (enqueued_at r) = true)
                     (map_to_list (queue d)).*2))))
         (λ all, k (sort_rows (queue_view_from_row <$> all) fd ["state_priority"; "enqueued_at"]%string))).

Definition app_queue_detail (ps : json) (p : peer) : M daemon app_envelope :=
  detail "message_id" ps p (λ id,
    querying (on_router (with_connection (sql_read (λ d, queue d !! id))))
      (λ r, match r with
            | Some row => success [("row"%string, JObj (queue_view_from_row row))]
            | None => fail "queue_message_not_found" [("message_id"%string, JStr id)]
            end)).

(** ** Routes *)

Definition app_route_list (ps : json) (p : peer) : M daemon app_envelope :=
  listing ps p ["default"; "created_at"; "updated_at"] ("default", "asc")%string
    (λ o, also (validate_filters_object o ["enabled"]) (λ f, also (bool_filter f "enabled") (λ e, inr (f, e))))
    (λ e fd k,
       querying (on_router (with_connection (sql_read (λ d,
                   filter (λ r, match e with Some b => Bool.eqb (enabled r) b | None => true end = true)
                     (map_to_list (routes d)).*2))))
         (λ all, views ← ofail (foldr (λ r acc, obind (route_view_from_row r) (λ v, obind acc (λ l, Ok (v :: l)))) (Ok []) all);
                 k (sort_rows views fd ["created_at"; "route_id"]%string))).

Definition app_route_detail (ps : json) (p : peer) : M daemon app_envelope :=
  detail "route_id" ps p (λ id,
    querying (on_router (with_connection (sql_read (λ d, routes d !! id))))
      (λ r, match r with
            | Some row => view ← ofail (route_view_from_row row); success [("row"%string, JObj view)]
            | None => fail "route_not_found" [("route_id"%string, JStr id)]
            end)).
End Handlers.
End Filters.

(** ** Orderings *)

Lemma insert_sorted_perm before r l : insert_sorted before r l ≡ₚ r :: l.
Proof. induction l as [|x l IH]; [done|]. simpl. destruct (before x r); [|done]. rewrite IH. constructor. Qed.

Lemma stable_sort_perm before l : stable_sort before l ≡ₚ l.
Proof. induction l as [|r l IH]; [done|]. simpl. by rewrite insert_sorted_perm, IH. Qed.

Section Sorted.
Variable before : params → params → bool.
Hypothesis before_asym : ∀ x y, before x y = true → before y x = false.

(** Neighbours are in order. *)
Definition in_order (a b : params) : Prop := before b a = false.

Lemma insert_row_sorted r l : LocallySorted in_order l → LocallySorted in_order (insert_sorted before r l).
Proof.
  induction 1 as [|x|x y l Hl IH Hxy]; simpl.
  - constructor.
  - destruct (before x r) eqn:E; repeat constructor; [by apply before_asym|done].
  - destruct (before x r) eqn:E; [|by repeat constructor]. simpl in IH.
    destruct (before y r) eqn:E'; constructor; try done. by apply before_asym.
Qed.

Lemma stable_sort_sorted l : LocallySorted in_order (stable_sort before l).
Proof. induction l as [|r l IH]; [constructor|]. by apply insert_row_sorted. Qed.
End Sorted.

Lemma value_cmp_antisym v w : value_cmp v w = CompOpp (value_cmp w v).
Proof.
  unfold value_cmp. destruct v, w; simpl; try done; try apply String.compare_antisym; by rewrite Z.compare_antisym.
Qed.
Lemma component_cmp_antisym v w : component_cmp v w = CompOpp (component_cmp w v).
Proof. unfold component_cmp. destruct (non_null v), (non_null w); try done. apply value_cmp_antisym. Qed.
Lemma keys_cmp_antisym keys r r' : keys_cmp keys r r' = CompOpp (keys_cmp keys r' r).
Proof.
  induction keys as [|k keys IH]; [done|]. simpl. rewrite component_cmp_antisym.
  destruct (component_cmp (json_get k r') (json_get k r)); simpl; done.
Qed.
Lemma strictly_before_asym keys rev x y :
  strictly_before keys rev x y = true → strictly_before keys rev y x = false.
Proof.
  unfold strictly_before. rewrite keys_cmp_antisym. destruct (keys_cmp keys y x), rev; simpl; done.
Qed.

(** ** Pages *)

Section Pages.
Variable to_float : string → string * option Z.
Variable num_eq : json → json → bool.
Context (rows : list params) (limit : Z) (order : string) (filters : params).

(** A listing over rows that stay as they are, as its client sees it. *)
Definition serve_page (cursor : option json) : app_envelope :=
  match decode_list_cursor to_float num_eq cursor order filters with
  | inl (field, reason) => Failure "validation_failed" [("field", JStr field); ("reason", JStr reason)]%string
  | inr offset => paginate rows offset limit order filters
  end.

(** A client that follows [cursor_next] until it is null; [None] when it is refused or has not
    finished. *)
Fixpoint read_all (fuel : nat) (cursor : option json) : option (list json) :=
  match fuel with
  | O => None
  | S f =>
      match serve_page cursor with
      | Failure _ _ => None
      | Success r =>
          match json_get "rows" r, json_get "cursor_next" r with
          | Some (JArr page), Some JNull => Some page
          | Some (JArr page), Some c => rest ← read_all f (Some c); Some (page ++ rest)
          | _, _ => None
          end
      end
  end.

Hypothesis limit_ok : 1 ≤ limit.
Hypothesis order_ok : is_text order.
Hypothesis filters_ok : plain_text (JObj filters).
Hypothesis cursors_fit : ∀ offset, 0 ≤ offset < Z.of_nat (length rows) → encode_list_cursor offset order filters ≠ None.

Lemma read_all_from fuel cursor offset :
  decode_list_cursor to_float num_eq cursor order filters = inr offset →
  0 ≤ offset ≤ Z.of_nat (length rows) → (length rows < fuel + Z.to_nat offset)%nat →
  read_all fuel cursor = Some (JObj <$> drop (Z.to_nat offset) rows).
Proof.
  revert cursor offset. induction fuel as [|f IH]; intros cursor offset Hd Ho Hf.
  - exfalso. lia.
  - cbn [read_all]. unfold serve_page. rewrite Hd. unfold paginate. cbv zeta.
    set (page := take (Z.to_nat limit) (drop (Z.to_nat offset) rows)).
    change (json_get "rows" _) with (Some (JArr (JObj <$> page))).
    assert (Hlen : length page = min (Z.to_nat limit) (length rows - Z.to_nat offset))
      by (unfold page; by rewrite length_take, length_drop).
    destruct (Z.ltb_spec (offset + Z.of_nat (length page)) (Z.of_nat (length rows))) as [Hm|Hm].
    + destruct (encode_list_cursor (offset + Z.of_nat (length page)) order filters) as [c|] eqn:Ec;
        [|exfalso; apply (cursors_fit (offset + Z.of_nat (length page))); [lia|done]].
      change (json_get "cursor_next" _) with (Some (JStr c)). cbv iota.
      rewrite (IH (Some (JStr c)) (offset + Z.of_nat (length page))).
      * change (Some ?a ≫= ?k) with (k a). cbv beta. f_equal. rewrite <-fmap_app. f_equal.
        replace (Z.to_nat (offset + Z.of_nat (length page))) with (Z.to_nat offset + length page)%nat by lia.
        assert (Hfull : length page = Z.to_nat limit) by lia.
        rewrite <-drop_drop, Hfull. unfold page. apply take_drop.
      * apply cursor_round_trip; [lia|done..].
      * lia.
      * lia.
    + change (json_get "cursor_next" _) with (Some JNull). cbv iota. do 2 f_equal. unfold page.
      rewrite take_ge; [done|]. rewrite length_drop. lia.
Qed.
End Pages.


Definition demo_rows : list params :=
  [[("name"%string, JStr "c")]; [("name"%string, JStr "a")]; [("name"%string, JStr "b")]].


(** With a filter too long for a cursor the listing ends after its first page, though more
    rows match. *)
Theorem long_filter_ends_listing to_float num_eq rows limit order filters :
  1 ≤ limit < Z.of_nat (length rows) → encode_list_cursor limit order filters = None →
  read_all to_float num_eq rows limit order filters 1 None = Some (JObj <$> take (Z.to_nat limit) rows).
Proof.
  intros Hl He. cbn [read_all]. unfold serve_page, decode_list_cursor, paginate. cbv zeta.
  change (drop (Z.to_nat 0) rows) with rows. change (json_get "rows" _) with (Some (JArr (JObj <$> take (Z.to_nat limit) rows))).
  replace (0 + Z.of_nat (length (take (Z.to_nat limit) rows))) with limit by (rewrite length_take; lia).
  rewrite He. rewrite (proj2 (Z.ltb_lt _ _)) by lia. done.
Qed.

Lemma long_filter_ends_listing_witness :
  let since := [("since"%string, JStr (String.concat EmptyString (repeat "0123456789"%string 40)))] in
  encode_list_cursor 1 "event_id:desc" since = None ∧
  read_all (λ t, (t, None)) (λ _ _, false) demo_rows 1 "event_id:desc" since 1 None = Some [JObj [("name"%string, JStr "c")]].
Proof.
  cbv zeta. set (since := [_]).
  assert (H : encode_list_cursor 1 "event_id:desc" since = None) by by vm_compute.
  split; [exact H|].
  exact (long_filter_ends_listing (λ t, (t, None)) (λ _ _, false) demo_rows 1 "event_id:desc" since
           ltac:(simpl; lia) H).
Defined.
