(* ===== verification/AppDashboard.v ===== *)
(** The state of the whole daemon as the application shows it: the readiness probes and hints
    (src/src/agenttower/app_contract/readiness.py), the recommended next action
    (recommendations.py), and the dashboard's counts, buckets and recent rows (dashboard.py).

    Every figure is one statement on the shared connection and every failure of one is
    swallowed where the code swallows it. *)

From S2P Require Import Prelude Errors Agents Store AuditWriter KillSwitch Routes Json Session Tables LogDao Tower Validation Desk AgentsService ContainerDiscovery AgentsClaims RoutingClaims AppContract AppScans AppDaemon AppMutations.
From Stdlib Require Import Ascii.

Local Open Scope Z_scope.

(** ** Readings of the process and its files *)

(** What the operating system says of the audit file; any of the calls may raise. *)
Record events_probe := mkEventsProbe {
  ep_path : string; ep_parent : string;
  ep_parent_exists : outcome bool; ep_parent_writable : outcome bool;
  ep_exists : outcome bool; ep_stat : outcome unit; ep_writable : outcome bool
}.

(** The parts of [DaemonContext] the probes look at. *)
Record probe_env := mkProbeEnv {
  pe_discovery_service : bool; pe_pane_service : bool; pe_state_conn : bool; pe_log_service : bool;
  pe_events_file : option events_probe;
  pe_delivery_worker : option (option bool);    (* its thread, if it has one: alive? *)
  pe_routing_shared_state : bool;
  pe_forced_degraded : string                   (* AGENTTOWER_TEST_FORCE_DEGRADED_SUBSYSTEMS *)
}.

(** ** Statements on [ctx.state_conn] *)

Definition state_read {A} (f : tower_db → A) : M daemon A := on_desk (at_sql (Sql.read f)).
Definition queue_read {A} (f : db → A) : M daemon A := on_queue (on_db (sql_read f)).

(** [try: m except Exception: dflt] *)
Definition soft {A} (dflt : A) (m : M daemon A) : M daemon A := except m (λ _, mret dflt).

(** As [soft], noting that the database failed. *)
Definition soft_noted {A} (dflt : A) (m : M daemon A) : M daemon (A * bool) :=
  except (a ← m; mret (a, false)) (λ _, mret (dflt, true)).

Definition count {A} (P : A → bool) (l : list A) : Z := Z.of_nat (length (filter (λ x, P x = true) l)).

Definition all_containers (d : tower_db) : list ContainerRec := (map_to_list (containers d)).*2.
Definition all_panes (d : tower_db) : list PaneRec := (map_to_list (panes d)).*2.
Definition all_messages (d : db) : list QueueRow := (map_to_list (queue d)).*2.
Definition all_routes (d : db) : list RouteRow := (map_to_list (routes d)).*2.

(** ** Probes *)

Record SubsystemRow := mkSubsystem { ss_name : string; ss_status : string; ss_reason : string }.

Section Probes.
Variable env : probe_env.

Definition unwired (name reason : string) : SubsystemRow := mkSubsystem name "unavailable" reason.
Definition healthy (name : string) : SubsystemRow := mkSubsystem name "ok" EmptyString.

Definition probe_docker : M daemon SubsystemRow :=
  if negb (pe_discovery_service env) then mret (unwired "docker" "container discovery service not wired")
  else except (_ ← on_desk (list_containers false); mret (healthy "docker"))
         (λ e, mret (mkSubsystem "docker" "unavailable" ("docker unavailable: " +:+ exn_name e))).

Definition probe_tmux_discovery : SubsystemRow :=
  if pe_pane_service env then healthy "tmux_discovery"
  else unwired "tmux_discovery" "pane discovery service not wired".

Definition probe_sqlite : M daemon SubsystemRow :=
  if negb (pe_state_conn env) then mret (unwired "sqlite" "state connection not wired")
  else except (_ ← state_read (λ _, 1); mret (healthy "sqlite"))
         (λ e, mret (mkSubsystem "sqlite" "degraded" ("sqlite probe failed: " +:+ exn_name e))).

(** The body of the [try]. *)
Definition jsonl_checks (p : events_probe) : outcome SubsystemRow :=
  obind (ep_parent_exists p) (λ there,
  if negb there
  then Ok (mkSubsystem "jsonl" "unavailable" ("events_file parent " +:+ ep_parent p +:+ " does not exist"))
  else
    obind (ep_parent_writable p) (λ parent_ok,
    if negb parent_ok
    then Ok (mkSubsystem "jsonl" "degraded" ("events_file parent " +:+ ep_parent p +:+ " is not writable"))
    else
      obind (ep_exists p) (λ exists_,
      if negb exists_ then Ok (healthy "jsonl")
      else
        obind (ep_stat p) (λ _,
        obind (ep_writable p) (λ ok,
        Ok (if ok then healthy "jsonl"
            else mkSubsystem "jsonl" "degraded" ("events_file " +:+ ep_path p +:+ " is not writable"))))))).

Definition probe_jsonl : M daemon SubsystemRow :=
  match pe_events_file env with
  | None => mret (unwired "jsonl" "events_file not wired")
  | Some p =>
      except (ofail (jsonl_checks p))
        (λ e, mret (mkSubsystem "jsonl" "degraded" ("jsonl probe failed: " +:+ exn_name e)))
  end.

Definition probe_routing_worker : SubsystemRow :=
  match pe_delivery_worker env with
  | None => unwired "routing_worker" "delivery worker not wired"
  | Some (Some false) => mkSubsystem "routing_worker" "degraded" "delivery worker thread is not alive"
  | Some _ => healthy "routing_worker"
  end.

Definition probe_log_attachment_workers : SubsystemRow :=
  if pe_log_service env then healthy "log_attachment_workers"
  else unwired "log_attachment_workers" "log service not wired".

(** All six, in the order of [SUBSYSTEM_NAMES]. *)
Definition probe_all : M daemon (list SubsystemRow) :=
  docker ← probe_docker;
  sqlite ← probe_sqlite;
  jsonl ← probe_jsonl;
  mret [docker; probe_tmux_discovery; sqlite; jsonl; probe_routing_worker; probe_log_attachment_workers].

(** [aggregate_state] on the set of the statuses. *)
Definition aggregate_state (rows : list SubsystemRow) : string :=
  let statuses := list_to_set (C := gset string) (ss_status <$> rows) in
  if bool_decide (statuses = {["ok"%string]}) then "ready"
  else if bool_decide (statuses = {["unavailable"%string]}) then "unavailable"
  else "degraded".

(** ** Hints *)

Record Hint := mkHint { hint_code : string; hint_severity : string; hint_message : string }.
Definition hint_to_dict (h : Hint) : json :=
  JObj [("code", JStr (hint_code h)); ("severity", JStr (hint_severity h)); ("message", JStr (hint_message h))]%string.

Definition status_of (name : string) (rows : list SubsystemRow) : option string :=
  ss_status <$> last (filter (λ r, ss_name r = name) rows).

Definition emit_hints (rows : list SubsystemRow)
    (container_count pane_count agent_count route_count_enabled log_attachment_count : Z) : list Hint :=
  let docker := status_of "docker" rows in
  let when (b : bool) h : list Hint := if b then [h] else [] in
  when (bool_decide (docker = Some "unavailable"%string))
    (mkHint "docker_unavailable_hint" "action_required"
       "Docker is not reachable from the daemon — start the docker service or check permissions.") ++
  when ((container_count =? 0) && bool_decide (docker = None ∨ docker = Some "ok"%string))
    (mkHint "start_bench_container" "action_required" "No bench containers discovered — start one to begin.") ++
  when ((0 <? container_count) && (0 <? pane_count) && (agent_count =? 0))
    (mkHint "register_first_agent" "info"
       "Panes discovered but no agents registered yet — adopt a pane to start.") ++
  when ((0 <? agent_count) && (log_attachment_count =? 0))
    (mkHint "attach_logs" "info" "No log attachments — attach a log to capture pane output for audit.") ++
  when ((0 <? agent_count) && (route_count_enabled =? 0))
    (mkHint "enable_first_route" "info" "No routes enabled — add a route to forward events between agents.").

(** ** app.readiness *)

Record summary := mkSummary {
  sum_containers : Z; sum_panes : Z; sum_agents : Z; sum_routes_enabled : Z; sum_log_attachments : Z
}.

Definition attachment_is (status : string) (r : LogAttachmentRecord) : bool := bool_decide (la_status r = status).

(** [_summary_counts] *)
Definition summary_counts : M daemon summary :=
  if negb (pe_state_conn env) then mret (mkSummary 0 0 0 0 0)
  else
    c ← soft 0 (state_read (λ d, count cr_active (all_containers d)));
    p ← soft 0 (state_read (λ d, Z.of_nat (size (panes d))));
    a ← soft 0 (state_read (λ d, Z.of_nat (length (agents d))));
    r ← soft 0 (queue_read (λ d, count enabled (all_routes d)));
    l ← soft 0 (state_read (λ d, count (attachment_is "active") (log_attachments d)));
    mret (mkSummary c p a r l).

Definition subsystem_to_dict (r : SubsystemRow) : json :=
  JObj [("name", JStr (ss_name r)); ("status", JStr (ss_status r)); ("reason", JStr (ss_reason r));
        ("hint", JNull)]%string.

Definition app_readiness (ps : json) (p : peer) : M daemon app_envelope :=
  gated (@on_app) ps p (λ _,
    rows ← probe_all;
    counts ← summary_counts;
    let hints := emit_hints rows (sum_containers counts) (sum_panes counts) (sum_agents counts)
                   (sum_routes_enabled counts) (sum_log_attachments counts) in
    success [("state", JStr (aggregate_state rows)); ("subsystems", JArr (subsystem_to_dict <$> rows));
             ("hints", JArr (hint_to_dict <$> hints))]%string).
End Probes.

(** ** The recommended next action *)

Definition PROBE_ORDER : list string := SUBSYSTEM_NAMES.

Record RecommendationState := mkRecState {
  degraded_subsystems : list string;
  container_count : Z; first_active_container_id : option string;
  pane_count : Z; first_unadopted_pane_id : option string; unadopted_pane_count : Z;
  oldest_blocked_message_id : option string; blocked_queue_count : Z;
  route_count : Z
}.

Record RecommendedNextAction := mkRecommended {
  rec_code : string; rec_title : string; rec_detail : option string;
  rec_target : option (string * string)         (* kind, id *)
}.

Definition compute_recommendation (st : RecommendationState) : RecommendedNextAction :=
  match degraded_subsystems st with
  | _ :: _ =>
      match head (filter (λ probe, probe ∈ degraded_subsystems st) PROBE_ORDER) with
      | None =>
          mkRecommended "subsystem_degraded" "Subsystem health degraded"
            (Some ("One or more readiness subsystems are reporting degraded health, but the " +:+
                   "specific subsystem could not be attributed. Inspect daemon readiness " +:+
                   "before relying on other dashboard signals.")) None
      | Some probe =>
          mkRecommended "subsystem_degraded" ("Subsystem degraded: " +:+ probe)
            (Some ("The " +:+ probe +:+ " subsystem is reporting degraded health. " +:+
                   "Inspect daemon readiness or the relevant subsystem before " +:+
                   "relying on other dashboard signals.")) (Some ("subsystem"%string, probe))
      end
  | [] =>
      if container_count st =? 0 then
        mkRecommended "no_containers" "No bench containers"
          (Some ("The daemon does not see any bench containers. Start a container " +:+
                 "(or check Docker connectivity).")) None
      else if pane_count st =? 0 then
        mkRecommended "no_panes_discovered" "No panes discovered"
          (Some ("Containers exist but no tmux panes were discovered. Check tmux " +:+
                 "discovery health and the container's bench user."))
          (pair "container"%string <$> first_active_container_id st)
      else if (0 <? unadopted_pane_count st) || is_set (first_unadopted_pane_id st) then
        let n := if 0 <? unadopted_pane_count st then unadopted_pane_count st else 1 in
        mkRecommended "unadopted_panes_present" "Unadopted panes need attention"
          (Some (print_int n +:+ " pane(s) are discovered but not yet registered with an agent. " +:+
                 "Adopt them to enable routing."))
          (pair "pane"%string <$> first_unadopted_pane_id st)
      else if (0 <? blocked_queue_count st) || is_set (oldest_blocked_message_id st) then
        let n := if 0 <? blocked_queue_count st then blocked_queue_count st else 1 in
        mkRecommended "blocked_queue_drain" "Blocked queue rows"
          (Some (print_int n +:+ " queue row(s) are blocked and need operator action " +:+
                 "(approve, delay, or cancel)."))
          (pair "message"%string <$> oldest_blocked_message_id st)
      else if route_count st =? 0 then
        mkRecommended "no_routes_configured" "No routes configured"
          (Some ("The route catalog is empty. Configure at least one route to enable " +:+ "arbitration.")) None
      else mkRecommended "all_clear" "All clear" None None
  end.

Definition recommendation_to_dict (r : RecommendedNextAction) : json :=
  JObj [("code", JStr (rec_code r)); ("title", JStr (rec_title r)); ("detail", opt_str (rec_detail r));
        ("target", match rec_target r with
                   | Some (kind, id) => JObj [("kind", JStr kind); ("id", JStr id)]
                   | None => JNull
                   end)]%string.

(** ** Counts *)

(** [GROUP BY key] with [COUNT] of each group, in the order of the keys. *)
Definition group_counts {A} (key : A → string) (l : list A) : list (string * Z) :=
  (λ k, (k, count (λ x, bool_decide (key x = k)) l)) <$> merge_sort String.le (remove_dups (key <$> l)).

Definition AGENT_ROLES : list string := ["master"; "slave"; "swarm"; "test-runner"; "shell"; "unknown"].
Definition QUEUE_STATES : list string := ["queued"; "blocked"; "delivered"; "canceled"; "failed"].
Abbreviation tally := (list (string * Z)).
Definition zeros (keys : list string) : tally := (λ k, (k, 0)) <$> keys.
Definition tally_get (k : string) (t : tally) : Z := default 0 (od_get k t).
Definition tally_to_dict (t : tally) : params := (λ kv, (kv.1, JInt kv.2)) <$> t.

(** An agent bound to the pane's id in the pane's container. *)
Definition agent_on (p : PaneRec) (a : AgentRecord) : bool :=
  active a && bool_decide (container_id a = pr_container_id p) && bool_decide (tmux_pane_id a = pr_tmux_pane_id p).
Definition has_agent (d : tower_db) (p : PaneRec) : bool := existsb (agent_on p) (agents d).

(** The join with [containers]: [None] when the pane has no row to join with. *)
Definition host_active (d : tower_db) (container : string) : option bool := cr_active <$> containers d !! container.

(** [_agent_counts] on the groups of the query. *)
Definition add_role (acc : tally * Z) (g : string * Z) : tally * Z :=
  let role := if bool_decide (g.1 = EmptyString) then "unknown"%string else g.1 in
  let role := if bool_decide (role ∈ acc.1.*1) then role else "unknown"%string in
  (Json.put role (tally_get role acc.1 + g.2) acc.1, acc.2 + g.2).
Definition agents_by_role (groups : list (string * Z)) : tally * Z := foldl add_role (zeros AGENT_ROLES, 0) groups.

(** [_queue_counts] on the groups of the query. *)
Definition add_state (acc : tally) (g : string * Z) : tally :=
  if bool_decide (g.1 ∈ acc.*1) then Json.put g.1 g.2 acc else acc.
Definition queue_by_state (groups : list (string * Z)) : tally := foldl add_state (zeros QUEUE_STATES) groups.

(** The queries of the two bucket aggregators. *)
Definition stale_panes (d : tower_db) : Z :=
  count (λ p, match host_active d (pr_container_id p) with Some up => negb up || negb (pr_active p) | None => false end)
    (all_panes d).
Definition managed_panes (d : tower_db) : Z :=
  count (λ p, bool_decide (host_active d (pr_container_id p) = Some true) && pr_active p && has_agent d p) (all_panes d).
Definition registered_panes (d : tower_db) : Z := count (has_agent d) (all_panes d).
Definition total_panes (d : tower_db) : Z := Z.of_nat (size (panes d)).

Definition partly_configured (a : AgentRecord) : bool :=
  bool_decide (role a = "unknown"%string) || bool_decide (capability a = "unknown"%string) ||
  bool_decide (label a = EmptyString) || bool_decide (label a = "unknown"%string).
Definition partial_agents (d : tower_db) : Z := count partly_configured (agents d).
Definition active_agents (d : tower_db) : Z :=
  count (λ a, bool_decide (host_active d (container_id a) = Some true) && active a && negb (partly_configured a)) (agents d).
Definition attached_agents (d : tower_db) : Z := count (λ a, has_active_attachment (agent_id a) d) (agents d).
Definition total_agents (d : tower_db) : Z := Z.of_nat (length (agents d)).

Definition PANE_STATE_KEYS : list string :=
  ["discovered-and-unmanaged"; "discovered-and-registered"; "inactive-or-stale"; "discovery-degraded"].
Definition AGENT_STATE_KEYS : list string :=
  ["active"; "inactive"; "partially_configured"; "log-attached"; "log-detached"].

Definition pane_buckets (ios dar total : Z) : tally :=
  [("discovered-and-unmanaged", Z.max (total - ios - dar) 0); ("discovered-and-registered", dar);
   ("inactive-or-stale", ios); ("discovery-degraded", 0)]%string.
Definition agent_buckets (total partial up attached : Z) : tally :=
  [("active", up); ("inactive", Z.max (total - up - partial) 0); ("partially_configured", partial);
   ("log-attached", attached); ("log-detached", Z.max (total - attached) 0)]%string.

Section Dashboard.
Variable env : probe_env.

(** [if conn is None: return dflt] *)
Definition if_wired {A} (dflt : A) (m : M daemon A) : M daemon A := if pe_state_conn env then m else mret dflt.

Definition container_counts : M daemon (Z * Z) :=
  if_wired (0, 0) (soft (0, 0) (state_read (λ d,
    (count cr_active (all_containers d), count (λ c, negb (cr_active c)) (all_containers d))))).

Definition pane_counts : M daemon (Z * Z * Z) :=
  if_wired (0, 0, 0) (
    total ← soft 0 (state_read total_panes);
    registered ← soft 0 (state_read registered_panes);
    mret (total, registered, Z.max (total - registered) 0)).

Definition agent_counts : M daemon (tally * Z) :=
  if_wired (zeros AGENT_ROLES, 0) (soft (zeros AGENT_ROLES, 0)
    (groups ← state_read (λ d, group_counts role (agents d)); mret (agents_by_role groups))).

Definition log_attachment_counts : M daemon (Z * Z * Z) :=
  if_wired (0, 0, 0) (
    up ← soft 0 (state_read (λ d, count (attachment_is "active") (log_attachments d)));
    stale ← soft 0 (state_read (λ d, count (attachment_is "stale") (log_attachments d)));
    total ← soft 0 (state_read total_agents);
    mret (up, stale, Z.max (total - up - stale) 0)).

Definition event_count : M daemon Z := if_wired 0 (soft 0 (state_read (λ d, Z.of_nat (length (durable d))))).

Definition queue_counts : M daemon tally :=
  if_wired (zeros QUEUE_STATES) (soft (zeros QUEUE_STATES)
    (groups ← queue_read (λ d, group_counts (λ r, qstate_text (state r)) (all_messages d));
     mret (queue_by_state groups))).

(** The counts, and whether the database failed. *)
Definition route_counts : M daemon (Z * Z * bool) :=
  if_wired (0, 0, false) (soft_noted (0, 0) (
    on ← queue_read (λ d, count enabled (all_routes d));
    off ← queue_read (λ d, count (λ r, negb (enabled r)) (all_routes d));
    mret (on, off))).

(** ** First ids *)

Definition first_active_container : M daemon (option string) :=
  if_wired None (soft None (state_read (λ d,
    head (merge_sort String.le (cr_container_id <$> filter (λ c, cr_active c = true) (all_containers d)))))).

Definition adoptable (d : tower_db) (p : PaneRec) : bool :=
  bool_decide (host_active d (pr_container_id p) = Some true) && pr_active p && negb (has_agent d p).
(** All of them are active, so [pane_order] is the order of the composite key. *)
Definition first_unadopted_pane : M daemon (option string) :=
  if_wired None (soft None (state_read (λ d,
    pr_tmux_pane_id <$> head (merge_sort pane_order (filter (λ p, adoptable d p = true) (all_panes d)))))).

Definition older (r r' : QueueRow) : Prop :=
  (if str_eqb (enqueued_at r) (enqueued_at r') then str_leb (message_id r) (message_id r')
   else str_leb (enqueued_at r) (enqueued_at r')) = true.
#[export] Instance older_dec : RelDecision older.
Proof. intros r r'. unfold older. apply _. Defined.
Definition oldest_blocked_message : M daemon (option string) :=
  if_wired None (soft None (queue_read (λ d,
    message_id <$> head (merge_sort older (filter (λ r, state r = blocked) (all_messages d)))))).

(** ** Buckets *)

Definition pane_state_buckets : M daemon (tally * bool) :=
  if_wired (zeros PANE_STATE_KEYS, false) (soft_noted (zeros PANE_STATE_KEYS) (
    ios ← state_read stale_panes;
    dar ← state_read managed_panes;
    total ← state_read total_panes;
    mret (pane_buckets ios dar total))).

Definition agent_state_buckets : M daemon (tally * bool) :=
  if_wired (zeros AGENT_STATE_KEYS, false) (soft_noted (zeros AGENT_STATE_KEYS) (
    total ← state_read total_agents;
    partial ← state_read partial_agents;
    up ← state_read active_agents;
    attached ← state_read attached_agents;
    mret (agent_buckets total partial up attached))).

(** ** Recent rows *)

(** Events are kept in the order of their ids. *)
Definition recent_events (limit : Z) : M daemon (list json) :=
  if_wired [] (soft [] (
    rows ← state_read (λ d, take (Z.to_nat limit) (reverse (durable d)));
    mret ((λ e, JObj (compact_event
            [("event_id", JInt (de_event_id e)); ("event_type", JStr (de_event_type e)); ("origin", JStr EmptyString);
             ("agent_id", JStr (de_agent_id e)); ("created_at", JStr (de_observed_at e))]%string)) <$> rows))).

(** Ties, which the statement leaves open, by message id. *)
Definition newer (r r' : QueueRow) : Prop :=
  (if str_eqb (enqueued_at r) (enqueued_at r') then str_leb (message_id r) (message_id r')
   else str_leb (enqueued_at r') (enqueued_at r)) = true.
#[export] Instance newer_dec : RelDecision newer.
Proof. intros r r'. unfold newer. apply _. Defined.
Definition recent_queue (limit : Z) : M daemon (list json) :=
  if_wired [] (soft [] (
    rows ← queue_read (λ d, take (Z.to_nat limit) (merge_sort newer (all_messages d)));
    mret ((λ r, JObj (compact_queue
            [("message_id", JStr (message_id r)); ("state", JStr (qstate_text (state r))); ("origin", JStr EmptyString);
             ("target_agent_id", JStr (target_agent_id r)); ("created_at", JStr (enqueued_at r))]%string)) <$> rows))).

Definition route_newer (r r' : RouteRow) : Prop :=
  (if str_eqb (route_created_at r) (route_created_at r') then str_leb (route_id r') (route_id r)
   else str_leb (route_created_at r') (route_created_at r)) = true.
#[export] Instance route_newer_dec : RelDecision route_newer.
Proof. intros r r'. unfold route_newer. apply _. Defined.
Definition recent_routes (limit : Z) : M daemon (list json) :=
  if_wired [] (soft [] (
    rows ← queue_read (λ d, take (Z.to_nat limit) (merge_sort route_newer (all_routes d)));
    mret ((λ r, JObj (compact_route
            [("route_id", JStr (route_id r)); ("enabled", JBool (enabled r));
             ("created_at", JStr (route_created_at r))]%string)) <$> rows))).

(** ** app.dashboard *)

(** [_coerce_recent_limit] *)
Definition coerce_recent_limit (v : option json) : (string * string) + Z :=
  match v with
  | None | Some JNull => inr 10
  | Some (JInt z) =>
      if (z <? 1) || (50 <? z) then inl ("recent_limit", "out of bounds [1,50]")%string else inr z
  | Some _ => inl ("recent_limit", "must be an integer")%string
  end.

(** [_test_only_forced_degraded_subsystems] *)
Definition forced_degraded : list string :=
  filter (λ n, n ≠ EmptyString) (strip <$> Text.split ","%char (pe_forced_degraded env)).
Definition force_degraded (rows : list SubsystemRow) : list SubsystemRow :=
  (λ r, if bool_decide (ss_name r ∈ forced_degraded) then mkSubsystem (ss_name r) "degraded" "test-only forced degraded"
        else r) <$> rows.

(** The reading of the monotonic clock that closes the window of recent skips. *)
Definition recently_skipped : M daemon Z :=
  on_router (lift (λ x, match monotonic_ms x with
                        | [] => (Ok (Z.of_nat (count_in_window 0 (skip_entries x))), x)
                        | t :: rest => (Ok (Z.of_nat (count_in_window t (skip_entries x))),
                                        set_readings (shutdown_signals x) (uuids x) rest x)
                        end)).

Definition dict (fields : list (string * Z)) : json := JObj (tally_to_dict fields).

(** The subsystems that count as degraded, in the order of the probes. *)
Definition degraded_names (rows : list SubsystemRow) (database_failed worker_degraded : bool) : list string :=
  filter (λ n, (n ∈ ss_name <$> filter (λ r, ss_status r ≠ "ok"%string) rows) ∨
               (n = "sqlite"%string ∧ database_failed = true) ∨
               (n = "routing_worker"%string ∧ worker_degraded = true)) PROBE_ORDER.

Definition app_dashboard_body (ps : json) : M daemon app_envelope :=
  checked (coerce_recent_limit (param ps "recent_limit")) (λ limit,
  cc ← container_counts;
  pc ← pane_counts;
  ac ← agent_counts;
  lc ← log_attachment_counts;
  qc ← queue_counts;
  rc ← route_counts;
  events ← event_count;
  pb ← pane_state_buckets;
  ab ← agent_state_buckets;
  probed ← probe_all env;
  let rows := force_degraded probed in
  let containers_ := cc.1 + cc.2 in
  let hints := emit_hints rows containers_ pc.1.1 ac.2 rc.1.1 lc.1.1 in
  worker_degraded ← on_router (x ← get; mret (pe_routing_shared_state env && routing_worker_degraded (shared x)));
  first_container ← first_active_container;
  first_pane ← first_unadopted_pane;
  oldest ← oldest_blocked_message;
  let st := mkRecState (degraded_names rows (rc.2 || pb.2 || ab.2) worker_degraded) containers_ first_container
              pc.1.1 first_pane pc.2 oldest (tally_get "blocked" qc) (rc.1.1 + rc.1.2) in
  rec ← except (t ← on_queue now_iso; mret (recommendation_to_dict (compute_recommendation st), JStr t))
          (λ _, mret (JNull, JNull));
  ev ← recent_events limit; qu ← recent_queue limit; ro ← recent_routes limit;
  skipped ← recently_skipped;
  success
    [("recommended_next_action", rec.1); ("recommended_next_action_refreshed_at", rec.2);
     ("counts", JObj
       [("containers", dict [("active", cc.1); ("inactive", cc.2); ("degraded_scan", 0)]);
        ("panes", JObj (tally_to_dict [("total", pc.1.1); ("registered", pc.1.2); ("unregistered", pc.2)] ++
                        [("by_state", dict pb.1)]));
        ("agents", JObj [("total", JInt ac.2); ("by_role", dict ac.1); ("by_state", dict ab.1)]);
        ("log_attachments", dict [("active", lc.1.1); ("degraded", lc.1.2); ("none", lc.2)]);
        ("events", dict [("total", events)]);
        ("queue", dict qc);
        ("routes", dict [("enabled", rc.1.1); ("disabled", rc.1.2); ("recently_skipped_count", skipped);
                         ("recently_skipped_window_ms", WINDOW_MS)])]);
     ("recent", JObj [("events", JArr ev); ("queue", JArr qu); ("routes", JArr ro)]);
     ("hints", JArr (hint_to_dict <$> hints))]%string).

Definition app_dashboard (ps : json) (p : peer) : M daemon app_envelope :=
  gated (@on_app) ps p (λ _, app_dashboard_body ps).
End Dashboard.

(** ** Counting *)

Section Counting.
Context {A : Type}.
Implicit Types (P Q : A → bool) (l : list A).

Lemma count_nil P : count P [] = 0.
Proof. done. Qed.
Lemma count_cons P x l : count P (x :: l) = (if P x then 1 else 0) + count P l.
Proof. unfold count. rewrite filter_cons. destruct (P x); simpl; lia. Qed.
Lemma count_bounds P l : 0 ≤ count P l ≤ Z.of_nat (length l).
Proof. unfold count. pose proof (length_filter (λ x, P x = true) l). lia. Qed.
Lemma count_mono P Q l : (∀ x, P x = true → Q x = true) → count P l ≤ count Q l.
Proof.
  intros H. induction l as [|x l IH]; [done|]. rewrite !count_cons. specialize (H x).
  destruct (P x), (Q x); (lia || by discriminate (H eq_refl)).
Qed.
Lemma count_ext P Q l : (∀ x, x ∈ l → P x = Q x) → count P l = count Q l.
Proof.
  induction l as [|x l IH]; intros H; [done|]. rewrite !count_cons, IH by set_solver.
  by rewrite (H x) by set_solver.
Qed.
(** Two kinds that exclude each other, and the rest. *)
Lemma count_three P Q l :
  (∀ x, P x = true → Q x = false) →
  count P l + count Q l + count (λ x, negb (P x) && negb (Q x)) l = Z.of_nat (length l).
Proof.
  intros H. induction l as [|x l IH]; [done|]. rewrite !count_cons. specialize (H x). simpl length.
  destruct (P x), (Q x); simpl; (lia || by discriminate (H eq_refl)).
Qed.
End Counting.

(** The sum of a tally. *)
Definition tally_sum (t : tally) : Z := foldr (λ kv n, kv.2 + n) 0 t.

Lemma tally_sum_app t u : tally_sum (t ++ u) = tally_sum t + tally_sum u.
Proof. induction t as [|[k n] t IH]; simpl; lia. Qed.
Lemma tally_sum_cons x t : tally_sum (x :: t) = x.2 + tally_sum t.
Proof. done. Qed.
Lemma tally_sum_perm t u : t ≡ₚ u → tally_sum t = tally_sum u.
Proof. unfold tally_sum. induction 1; simpl; lia. Qed.

Lemma od_get_cons {V} k k' (v : V) d : od_get k ((k', v) :: d) = if decide (k' = k) then Some v else od_get k d.
Proof.
  unfold od_get. simpl. case_decide; [done|]. by destruct (list_find _ d) as [[]|].
Qed.
Lemma tally_get_cons k k' n t : tally_get k ((k', n) :: t) = if decide (k' = k) then n else tally_get k t.
Proof. unfold tally_get. rewrite od_get_cons. by case_decide. Qed.
Lemma tally_put_keys {V} (k : string) (v : V) d : k ∈ d.*1 → (Json.put k v d).*1 = d.*1.
Proof.
  induction d as [|[k' w] d IH]; simpl; [by intros ?%elem_of_nil|]. intros Hk. case_decide; [by subst|].
  simpl. f_equal. apply IH. set_solver.
Qed.
Lemma tally_get_put_ne k k' n t : k ≠ k' → tally_get k (Json.put k' n t) = tally_get k t.
Proof.
  intros Hk. induction t as [|[k2 m] t IH]; simpl.
  - rewrite tally_get_cons, decide_False by done. done.
  - case_decide as E; rewrite !tally_get_cons; [subst k2; by rewrite !decide_False|]. by rewrite IH.
Qed.
Lemma put_sum k n t : tally_sum (Json.put k (tally_get k t + n) t) = tally_sum t + n.
Proof.
  induction t as [|[k' m] t IH]; [unfold tally_get; simpl; lia|]. rewrite tally_get_cons. simpl.
  destruct (decide (k' = k)) as [->|Hk]; [rewrite decide_True by done; simpl; lia|].
  rewrite decide_False by done. simpl. rewrite IH. lia.
Qed.

Lemma by_role_sum groups acc :
  (foldl add_role acc groups).2 = acc.2 + tally_sum groups ∧
  tally_sum (foldl add_role acc groups).1 = tally_sum acc.1 + tally_sum groups.
Proof.
  revert acc. induction groups as [|g groups IH]; intros acc; simpl; [lia|].
  destruct (IH (add_role acc g)) as [-> ->]. unfold add_role. simpl. rewrite put_sum. lia.
Qed.

Lemma by_state_sum groups t :
  NoDup groups.*1 → Forall (λ k, k ∈ t.*1 ∧ tally_get k t = 0) groups.*1 →
  tally_sum (foldl add_state t groups) = tally_sum t + tally_sum groups.
Proof.
  revert t. induction groups as [|[k n] groups IH]; intros t Hn Hf; simpl; [lia|].
  simpl in Hn, Hf. apply NoDup_cons in Hn as [Hk Hn]. apply Forall_cons in Hf as [[Hin H0] Hf].
  assert (E : add_state t (k, n) = Json.put k (tally_get k t + n) t).
  { unfold add_state. simpl. rewrite bool_decide_true by done. f_equal. lia. }
  rewrite E, IH; [rewrite put_sum; lia|done|]. apply Forall_forall. intros k' Hk'.
  rewrite Forall_forall in Hf. destruct (Hf k' Hk') as [? ?].
  rewrite tally_put_keys, tally_get_put_ne by set_solver. done.
Qed.

Lemma groups_keys {A} (key : A → string) l : (group_counts key l).*1 ≡ₚ remove_dups (key <$> l).
Proof.
  unfold group_counts. rewrite <-list_fmap_compose.
  rewrite (list_fmap_ext (fst ∘ _) id) by done. rewrite list_fmap_id. apply merge_sort_Permutation.
Qed.

(** Every row is in exactly one group. *)
Lemma groups_sum {A} (key : A → string) l : tally_sum (group_counts key l) = Z.of_nat (length l).
Proof.
  unfold group_counts. set (g := λ k, (k, count _ l)).
  rewrite (tally_sum_perm _ (g <$> remove_dups (key <$> l))) by (by rewrite merge_sort_Permutation). subst g.
  assert (Hn : NoDup (remove_dups (key <$> l))) by apply NoDup_remove_dups.
  assert (Hin : ∀ x, x ∈ l → key x ∈ remove_dups (key <$> l)).
  { intros x Hx. apply elem_of_remove_dups, list_elem_of_fmap. eauto. }
  revert Hn Hin. generalize (remove_dups (key <$> l)) as ks. intros ks Hn.
  induction l as [|x l IH]; intros Hin; [clear; induction ks as [|k ks IHk]; [done|exact IHk]|].
  assert (Hone : ∀ (f : string → Z) ks, NoDup ks → 
            tally_sum ((λ k, (k, (if bool_decide (key x = k) then 1 else 0) + f k)) <$> ks) =
            (if bool_decide (key x ∈ ks) then 1 else 0) + tally_sum ((λ k, (k, f k)) <$> ks)).
  { clear. intros f ks. induction 1 as [|k ks Hk Hn IH]; [done|].
    rewrite !fmap_cons, !tally_sum_cons, IH. cbn [snd].
    destruct (decide (key x = k)) as [<-|Hne].
    - rewrite (bool_decide_true (key x = key x)) by done. rewrite (bool_decide_false (key x ∈ ks)) by done.
      rewrite bool_decide_true by set_solver. lia.
    - rewrite (bool_decide_false (key x = k)) by done.
      rewrite (bool_decide_ext (key x ∈ k :: ks) (key x ∈ ks)) by set_solver. lia. }
  rewrite (list_fmap_ext _ (λ k, (k, (if bool_decide (key x = k) then 1 else 0) + count (λ y, bool_decide (key y = k)) l)))
    by (intros ? k _; by rewrite count_cons).
  rewrite Hone, bool_decide_true, IH by set_solver. simpl length. lia.
Qed.

Lemma all_panes_length d : Z.of_nat (length (all_panes d)) = total_panes d.
Proof. unfold all_panes, total_panes. by rewrite length_fmap, length_map_to_list. Qed.

Lemma stale_not_managed d p :
  (match host_active d (pr_container_id p) with Some up => negb up || negb (pr_active p) | None => false end) = true →
  bool_decide (host_active d (pr_container_id p) = Some true) && pr_active p && has_agent d p = false.
Proof.
  destruct (host_active d (pr_container_id p)) as [[]|]; simpl; [|done..]. destruct (pr_active p); done.
Qed.

Lemma zeros_get k keys : tally_get k (zeros keys) = 0.
Proof.
  unfold zeros. induction keys as [|k' keys IH]; [done|]. rewrite fmap_cons, tally_get_cons. by case_decide.
Qed.
Lemma zeros_keys keys : (zeros keys).*1 = keys.
Proof. unfold zeros. rewrite <-list_fmap_compose. apply list_fmap_id. Qed.
Lemma zeros_sum keys : tally_sum (zeros keys) = 0.
Proof. by induction keys. Qed.

Lemma queue_state_known s : qstate_text s ∈ QUEUE_STATES.
Proof. destruct s; eapply bool_decide_eq_true_1; by vm_compute. Qed.

(** The buckets the dashboard counts in one state of the database are partitions: every pane
    is in exactly one of the four, a pane shown as registered is one the older count has too,
    every agent is in exactly one of the three configuration buckets and in one of the two
    log buckets, no bucket is cut off at zero, and the tallies by role and by queue state add
    up to the tables. *)
Theorem buckets_are_partitions (d : tower_db) (q : db) :
  let pb := pane_buckets (stale_panes d) (managed_panes d) (total_panes d) in
  let ab := agent_buckets (total_agents d) (partial_agents d) (active_agents d) (attached_agents d) in
  tally_sum pb = total_panes d ∧ pb.*1 = PANE_STATE_KEYS ∧
  tally_get "discovered-and-registered" pb ≤ registered_panes d ∧
  tally_get "active" ab + tally_get "inactive" ab + tally_get "partially_configured" ab = total_agents d ∧
  tally_get "log-attached" ab + tally_get "log-detached" ab = total_agents d ∧ ab.*1 = AGENT_STATE_KEYS ∧
  tally_sum (agents_by_role (group_counts role (agents d))).1 = total_agents d ∧
  (agents_by_role (group_counts role (agents d))).2 = total_agents d ∧
  tally_sum (queue_by_state (group_counts (λ r, qstate_text (state r)) (all_messages q))) = Z.of_nat (size (queue q)).
Proof.
  cbv zeta.
  pose proof (count_three _ _ (all_panes d) (stale_not_managed d)) as Hp. rewrite all_panes_length in Hp.
  fold (stale_panes d) (managed_panes d) in Hp.
  match type of Hp with _ + _ + ?c = _ => assert (0 ≤ c) by apply count_bounds end.
  assert (Ha : ∀ a, bool_decide (host_active d (container_id a) = Some true) && active a && negb (partly_configured a) = true →
                    partly_configured a = false).
  { intros a. destruct (partly_configured a); [|done]. by rewrite andb_false_r. }
  pose proof (count_three _ _ (agents d) Ha) as Hc. fold (active_agents d) (partial_agents d) (total_agents d) in Hc. cbv beta in Hc.
  match type of Hc with _ + _ + ?c = _ => assert (0 ≤ c) by apply count_bounds end.
  pose proof (count_bounds (λ a, has_active_attachment (agent_id a) d) (agents d)) as Hl.
  fold (attached_agents d) (total_agents d) in Hl.
  destruct (by_role_sum (group_counts role (agents d)) (zeros AGENT_ROLES, 0)) as [Hr1 Hr2].
  rewrite groups_sum in Hr1, Hr2. fold (total_agents d) in Hr1, Hr2.
  split; [unfold pane_buckets; rewrite !tally_sum_cons; cbn [snd]; change (tally_sum []) with 0; lia|].
  split; [reflexivity|]. split.
  { change (tally_get _ _) with (managed_panes d). apply count_mono. intros p. by intros [_ ?]%andb_prop. }
  split; [change (active_agents d + Z.max (total_agents d - active_agents d - partial_agents d) 0 + partial_agents d = total_agents d); lia|].
  split; [change (attached_agents d + Z.max (total_agents d - attached_agents d) 0 = total_agents d); lia|].
  split; [reflexivity|]. split; [exact Hr2|]. split; [exact Hr1|].
  unfold queue_by_state. rewrite by_state_sum, zeros_sum, groups_sum.
  - unfold all_messages. by rewrite length_fmap, length_map_to_list.
  - rewrite groups_keys. apply NoDup_remove_dups.
  - rewrite groups_keys. apply Forall_forall. intros k Hk.
    apply elem_of_remove_dups, list_elem_of_fmap in Hk as (r & -> & _).
    rewrite zeros_keys, zeros_get. split; [apply queue_state_known|done].
Qed.

(** ** The recommendation *)

(** A value inside nested objects. *)
Fixpoint at_path (path : list string) (j : json) : option json :=
  match path with
  | [] => Some j
  | k :: rest => match j with JObj o => json_get k o ≫= at_path rest | _ => None end
  end.
Definition int_at (path : list string) (j : json) : Z :=
  match at_path path j with Some (JInt z) => z | _ => -1 end.

Definition RECOMMENDATION_CODES : list string :=
  ["subsystem_degraded"; "no_containers"; "no_panes_discovered"; "unadopted_panes_present"; "blocked_queue_drain";
   "no_routes_configured"; "all_clear"].

(** Which codes apply to a state; the one given is the first of them. *)
Definition applies (st : RecommendationState) (code : string) : bool :=
  if bool_decide (code = "subsystem_degraded"%string) then bool_decide (degraded_subsystems st ≠ [])
  else if bool_decide (code = "no_containers"%string) then container_count st =? 0
  else if bool_decide (code = "no_panes_discovered"%string) then pane_count st =? 0
  else if bool_decide (code = "unadopted_panes_present"%string)
  then (0 <? unadopted_pane_count st) || is_set (first_unadopted_pane_id st)
  else if bool_decide (code = "blocked_queue_drain"%string)
  then (0 <? blocked_queue_count st) || is_set (oldest_blocked_message_id st)
  else if bool_decide (code = "no_routes_configured"%string) then route_count st =? 0
  else true.

Lemma recommendation_first st :
  Some (rec_code (compute_recommendation st)) = head (filter (λ c, applies st c = true) RECOMMENDATION_CODES).
Proof.
  unfold compute_recommendation, RECOMMENDATION_CODES. rewrite !filter_cons.
  change (applies st "subsystem_degraded") with (bool_decide (degraded_subsystems st ≠ [])).
  change (applies st "no_containers") with (container_count st =? 0).
  change (applies st "no_panes_discovered") with (pane_count st =? 0).
  change (applies st "unadopted_panes_present") with ((0 <? unadopted_pane_count st) || is_set (first_unadopted_pane_id st)).
  change (applies st "blocked_queue_drain") with ((0 <? blocked_queue_count st) || is_set (oldest_blocked_message_id st)).
  change (applies st "no_routes_configured") with (route_count st =? 0). change (applies st "all_clear") with true.
  destruct (degraded_subsystems st) as [|n l] eqn:Ed.
  - rewrite bool_decide_false by (intros H; by apply H).
    repeat (match goal with |- context [if decide (?b = true) then _ else _] => destruct b; [done|] end;
            rewrite decide_False by done); done.
  - rewrite bool_decide_true by done. rewrite decide_True by done. by destruct (head _).
Qed.

Lemma bind_ok {S A B} (m : M S A) (k : A → M S B) s b s' :
  (m ≫= k) s = (Ok b, s') → ∃ a s1, m s = (Ok a, s1) ∧ k a s1 = (Ok b, s').
Proof. unfold mbind, M_bind. destruct (m s) as [[a|e] s1]; [eauto|done]. Qed.

Lemma by_state_keys groups t : (foldl add_state t groups).*1 = t.*1.
Proof.
  revert t. induction groups as [|g groups IH]; intros t; simpl; [done|]. rewrite IH. unfold add_state.
  case_bool_decide; [by apply tally_put_keys|done].
Qed.
Lemma except_ok {S A} (m : M S A) (h : exn → M S A) s a s' :
  except m h s = (Ok a, s') → m s = (Ok a, s') ∨ ∃ e s1, m s = (Raise e, s1) ∧ h e s1 = (Ok a, s').
Proof.
  unfold except, catch. destruct (m s) as [[b|e] s1]; [by left|]. destruct (is_exception e); [|done]. right. eauto.
Qed.
Lemma queue_counts_keys env d qc d' : queue_counts env d = (Ok qc, d') → qc.*1 = QUEUE_STATES.
Proof.
  unfold queue_counts, if_wired, soft. destruct (pe_state_conn env); [|by intros [= <- _]].
  intros [E|(e & d1 & _ & [= <- _])]%except_ok; [|done].
  apply bind_ok in E as (g & d2 & _ & [= <- _]). unfold queue_by_state. by rewrite by_state_keys.
Qed.

(** The parts of an answer of the dashboard: its counts and the state the recommendation was
    computed from agree. *)
Lemma dashboard_answer env ps d r d' :
  app_dashboard_body env ps d = (Ok (Success r), d') →
  ∃ st : RecommendationState, 
    let counted path := int_at ("counts"%string :: path) (JObj r) in
    at_path ["recommended_next_action"; "code"]%string (JObj r) ∈
      [Some (JStr (rec_code (compute_recommendation st))); None] ∧
    container_count st = counted ["containers"; "active"]%string + counted ["containers"; "inactive"]%string ∧
    pane_count st = counted ["panes"; "total"]%string ∧
    unadopted_pane_count st = counted ["panes"; "unregistered"]%string ∧
    blocked_queue_count st = counted ["queue"; "blocked"]%string ∧
    route_count st = counted ["routes"; "enabled"]%string + counted ["routes"; "disabled"]%string.
Proof.
  intros H. unfold app_dashboard_body, checked in H. destruct (coerce_recent_limit _) as [[f x]|limit].
  { vm_compute in H. congruence. }
  apply bind_ok in H as (cc & d1 & _ & H). apply bind_ok in H as (pc & d2 & _ & H).
  apply bind_ok in H as (ac & d3 & _ & H). apply bind_ok in H as (lc & d4 & _ & H).
  apply bind_ok in H as (qc & d5 & Hq & H). apply bind_ok in H as (rc & d6 & _ & H).
  apply bind_ok in H as (events & d7 & _ & H). apply bind_ok in H as (pb & d8 & _ & H).
  apply bind_ok in H as (ab & d9 & _ & H). apply bind_ok in H as (probed & d10 & _ & H). cbv zeta in H.
  apply bind_ok in H as (wd & d11 & _ & H). apply bind_ok in H as (fc & d12 & _ & H).
  apply bind_ok in H as (fp & d13 & _ & H). apply bind_ok in H as (ob & d14 & _ & H).
  match type of H with context [compute_recommendation ?x] => set (st := x) in * end.
  apply bind_ok in H as (rec & d15 & Hrec & H). apply bind_ok in H as (ev & d16 & _ & H).
  apply bind_ok in H as (qu & d17 & _ & H). apply bind_ok in H as (ro & d18 & _ & H).
  apply bind_ok in H as (sk & d19 & _ & H).
  exists st. cbv zeta.
  injection H as <- _. split.
  { apply except_ok in Hrec as [E|(e & d20 & _ & [= <- _])].
    - apply bind_ok in E as (t' & d21 & _ & [= <- _]). apply elem_of_cons. left. reflexivity.
    - apply elem_of_cons. right. by apply list_elem_of_singleton. }
  apply queue_counts_keys in Hq.
  destruct qc as [|[k1 n1] [|[k2 n2] [|[k3 n3] [|[k4 n4] [|[k5 n5] [|? ?]]]]]]; try discriminate Hq.
  injection Hq as -> -> -> -> ->. repeat split; reflexivity.
Qed.

Lemma recommendation_known st : rec_code (compute_recommendation st) ∈ RECOMMENDATION_CODES.
Proof.
  pose proof (recommendation_first st) as H. symmetry in H. apply head_Some in H as (l & H).
  assert (Hin : rec_code (compute_recommendation st) ∈ filter (λ c, applies st c = true) RECOMMENDATION_CODES)
    by (rewrite H; apply elem_of_cons; by left).
  by apply list_elem_of_filter in Hin as [_ ?].
Qed.

(** Implications from a code that is known. *)
Ltac literal_codes :=
  cbn [rec_code orb]; repeat match goal with |- _ ∧ _ => split end; intros Hlit; first
    [lia | exfalso; match type of Hlit with ?P => refine (bool_decide_eq_false_1 P _ Hlit); by vm_compute end].

(** What the dashboard recommends is true of the counts in the same answer: it says all is
    clear only when there are containers, panes and routes and neither an unregistered pane
    nor a blocked message, and it speaks of another matter only when the matters before it in
    the order of precedence are settled. *)
Theorem recommendation_is_honest env ps p d r d' code :
  app_dashboard env ps p d = (Ok (Success r), d') →
  at_path ["recommended_next_action"; "code"]%string (JObj r) = Some (JStr code) →
  let counted path := int_at ("counts"%string :: path) (JObj r) in
  let containers_ := counted ["containers"; "active"]%string + counted ["containers"; "inactive"]%string in
  let routes_ := counted ["routes"; "enabled"]%string + counted ["routes"; "disabled"]%string in
  code ∈ RECOMMENDATION_CODES ∧
  (code = "no_containers"%string → containers_ = 0) ∧
  (code = "no_panes_discovered"%string → containers_ ≠ 0 ∧ counted ["panes"; "total"]%string = 0) ∧
  (code ∈ ["unadopted_panes_present"; "blocked_queue_drain"; "no_routes_configured"; "all_clear"]%string →
     containers_ ≠ 0 ∧ counted ["panes"; "total"]%string ≠ 0) ∧
  (code ∈ ["blocked_queue_drain"; "no_routes_configured"; "all_clear"]%string →
     counted ["panes"; "unregistered"]%string ≤ 0) ∧
  (code ∈ ["no_routes_configured"; "all_clear"]%string → counted ["queue"; "blocked"]%string ≤ 0) ∧
  (code = "no_routes_configured"%string → routes_ = 0) ∧
  (code = "all_clear"%string → routes_ ≠ 0).
Proof.
  intros H Hc. cbv zeta. unfold app_dashboard, gated in H. apply bind_ok in H as (g & d1 & Hg & H).
  destruct g as [e|session].
  { injection H as -> _. exfalso.
    pose proof (wp_gate ps p (λ o _, match o with Ok (inl (Success _)) => False | _ => True end) (dm_app d)
                  (λ _ _, I) (λ _ _ _ _ _, I)) as W.
    unfold on_app, zoom, wp in *. destruct (gate_session_required ps p (dm_app d)) as [[[[]|]|] ?]; try done; congruence. }
  apply dashboard_answer in H as (st & Hst & <- & <- & <- & <- & <-).
  rewrite Hc in Hst.
  assert (Hcode : code = rec_code (compute_recommendation st)).
  { apply elem_of_cons in Hst as [[= ->]|Hst]; [done|]. apply list_elem_of_singleton in Hst. done. }
  clear Hst Hc. subst code. unfold compute_recommendation. split; [apply recommendation_known|].
  destruct (degraded_subsystems st); [|by destruct (head _); literal_codes].
  destruct (Z.eqb_spec (container_count st) 0); [literal_codes|].
  destruct (Z.eqb_spec (pane_count st) 0); [literal_codes|].
  destruct (Z.ltb_spec 0 (unadopted_pane_count st)); [literal_codes|].
  destruct (is_set (first_unadopted_pane_id st)); [literal_codes|].
  destruct (Z.ltb_spec 0 (blocked_queue_count st)); [literal_codes|].
  destruct (is_set (oldest_blocked_message_id st)); [literal_codes|].
  destruct (Z.eqb_spec (route_count st) 0); literal_codes.
Qed.

(** ** A small daemon *)

Definition demo_env : probe_env :=
  mkProbeEnv true true true true
    (Some (mkEventsProbe "/s/events.jsonl" "/s" (Ok true) (Ok true) (Ok true) (Ok tt) (Ok true)))
    (Some (Some true)) true EmptyString.

(** The installation and the router of the earlier examples, and one session. *)
Definition demo_daemon (faults : list (option sql_fault)) : daemon :=
  mkDaemon (app_hello demo_ctx (JObj []) demo_host_peer (sc_app (no_scans demo_uuids))).2
    (demo_desk faults []) (demo_router []) [] [] None (0, []) 0.

(** Two panes that no agent has adopted. *)
Lemma recommendation_is_honest_witness :
  let o := app_dashboard demo_env demo_token demo_host_peer (demo_daemon []) in
  let r := match o.1 with Ok (Success r) => r | _ => [] end in
  at_path ["recommended_next_action"; "code"]%string (JObj r) = Some (JStr "unadopted_panes_present") ∧
  int_at ["counts"; "panes"; "total"]%string (JObj r) ≠ 0.
Proof.
  intros o r.
  assert (H1 : app_dashboard demo_env demo_token demo_host_peer (demo_daemon []) = (Ok (Success r), o.2)).
  { change (o = (Ok (Success r), o.2)). rewrite (surjective_pairing o) at 1. by f_equal. }
  assert (H2 : at_path ["recommended_next_action"; "code"]%string (JObj r) = Some (JStr "unadopted_panes_present"))
    by by vm_compute.
  split; [exact H2|].
  refine (proj2 (proj1 (proj2 (proj2 (proj2 (recommendation_is_honest demo_env demo_token demo_host_peer (demo_daemon [])
    r o.2 "unadopted_panes_present" H1 H2)))) _)).
  apply elem_of_cons. by left.
Defined.

(** A failure of the statements about routes is reported as such, not as an empty catalog. *)
Example failed_routes_read :
  let d := set_dm_router (demo_router [None; locked]) (demo_daemon []) in
  let r := match (app_dashboard demo_env demo_token demo_host_peer d).1 with Ok (Success r) => r | _ => [] end in
  at_path ["recommended_next_action"; "target"; "id"]%string (JObj r) = Some (JStr "sqlite") ∧
  int_at ["counts"; "routes"; "enabled"]%string (JObj r) = 0.
Proof. by vm_compute. Qed.

(** The figure [none] of the log attachments is not the number of agents without an active
    attachment: an agent whose only attachment is stale is not counted. *)
Definition demo_stale_attachment (id : string) : LogAttachmentRecord :=
  mkAttachment "att1" id "c1" "/tmp/tmux" "main" 0 0 "%0" "/log" "stale" "explicit" EmptyString None "t0" "t0" None None "t0".
Definition demo_stale_desk : desk :=
  let a := mkAgent "agt_1" "c1" "/tmp/tmux" "main" 0 0 "%0" "slave" "coder" "one" EmptyString None "{}" "t0" "t0" None true in
  let d := set_log_attachments [demo_stale_attachment "agt_1"] (set_agents [a] demo_registry) in
  set_dk_tower (set_sess (mkSession d None [] []) (dk_tower (demo_desk [] []))) (demo_desk [] []).
Example stale_is_not_none :
  let d := set_dm_desk demo_stale_desk (demo_daemon []) in
  let r := match (app_dashboard demo_env demo_token demo_host_peer d).1 with Ok (Success r) => r | _ => [] end in
  int_at ["counts"; "log_attachments"; "none"]%string (JObj r) = 0 ∧
  int_at ["counts"; "agents"; "by_state"; "log-detached"]%string (JObj r) = 1.
Proof. by vm_compute. Qed.
