(* ===== verification/AppClaims.v ===== *)
(** The application's requests together: the dispatch table
    (src/src/agenttower/app_contract/dispatcher.py) over every handler, and what holds of any
    history of requests: answers are well formed, sessions are never given up, and a repeated
    request is answered from the replay store. *)

From S2P Require Import Prelude Errors Agents Permissions Store QueueDao Utf8 Envelope AuditWriter Lookups KillSwitch QueueService Routes RoutesService Json Session Tables LogDao Tower Validation Desk AgentsService LogService AuditSpec AgentsClaims RoutingClaims AppContract AppCursor AppScans AppDaemon AppMutations AppReads AppDashboard.

Local Open Scope Z_scope.

(** ** The table *)

Section Dispatch.
Context `{L : AgentsLookup} `{CP : ContainerPaneLookup}.
Variable sha256_hex : string → string.
Variable redactor : text → option text.
Variable envelope_max_bytes : Z.
Variable default_wait : Z.
Variable repr_of : json → string.
Variable schema_version : Z.
Variable daemon_home : string.
Variable log_attacher_ : option LogAttacher.
Variable add_route_untyped : M router RouteRow.
Variable agent_named : string.
Variable to_float : string → string * option Z.
Variable num_eq : json → json → bool.
Variable str_lower : string → string.
Variable py_gt_other : json → json → outcome bool.
Variable float_text : string → string.
Variable scrape : pyobj → list (string * pyobj).
Variable ctx : app_ctx.
Variable env : probe_env.
Variable w : wiring.

Abbreviation app_handler := (json → peer → M daemon app_envelope).

(** [_build_app_dispatch] before the handlers are wrapped, less the two scans, whose requests
    wait for a worker. *)
Definition app_handlers : list (string * app_handler) :=
  [("app.preflight", λ _ p, on_app (app_preflight ctx p));
   ("app.hello", λ ps p, on_app (app_hello ctx ps p));
   ("app.readiness", app_readiness env);
   ("app.dashboard", app_dashboard env);
   ("app.scan.status", λ ps p, on_app (app_scan_status ps p));
   ("app.pane.list", app_pane_list to_float num_eq w);
   ("app.pane.detail", app_pane_detail w);
   ("app.agent.list", app_agent_list to_float num_eq w);
   ("app.agent.detail", app_agent_detail w);
   ("app.agent.register_from_pane", app_agent_register_from_pane repr_of schema_version log_attacher_ agent_named to_float w);
   ("app.container.list", app_container_list str_lower to_float num_eq w);
   ("app.container.detail", app_container_detail w);
   ("app.log_attachment.list", app_log_attachment_list str_lower to_float num_eq w);
   ("app.log_attachment.detail", app_log_attachment_detail w);
   ("app.event.list", app_event_list str_lower py_gt_other float_text to_float num_eq w);
   ("app.event.detail", app_event_detail float_text w);
   ("app.queue.list", app_queue_list str_lower py_gt_other float_text to_float num_eq w);
   ("app.queue.detail", app_queue_detail w);
   ("app.route.list", app_route_list str_lower to_float num_eq w);
   ("app.route.detail", app_route_detail w);
   ("app.agent.update", app_agent_update schema_version w);
   ("app.log.attach", app_log_attach schema_version daemon_home w);
   ("app.log.detach", app_log_detach schema_version w);
   ("app.send_input", app_send_input sha256_hex redactor envelope_max_bytes default_wait w);
   ("app.queue.approve", app_queue_approve w);
   ("app.queue.delay", app_queue_delay w);
   ("app.queue.cancel", app_queue_cancel w);
   ("app.route.add", app_route_add add_route_untyped w);
   ("app.route.remove", app_route_remove w);
   ("app.route.update", app_route_update w)]%string.

(** [APP_DISPATCH[method](ctx, params, peer)], and the answer to a method that is not there. *)
Definition dispatch (method : string) (ps : json) (p : peer) : M daemon app_envelope :=
  match od_get method app_handlers with
  | Some h => wrap_handler (h ps p)
  | None => make_unknown_method_envelope
  end.

(** ** Histories *)

Inductive app_event :=
| Ev_request (method : string) (ps : json) (p : peer)
| Ev_part (ev : scan_event).         (* a part of a scan request, or its worker *)

Record app_config := mkAppConfig { ac_daemon : daemon; ac_workers : list nat }.

Definition app_step (c : app_config) (ev : app_event) : app_config :=
  match ev with
  | Ev_request method ps p => mkAppConfig (dispatch method ps p (ac_daemon c)).2 (ac_workers c)
  | Ev_part ev =>
      let c' := scan_step scrape (mkScanConfig (dm_app (ac_daemon c)) (ac_workers c)) ev in
      mkAppConfig (set_dm_app (sc_app c') (ac_daemon c)) (sc_workers c')
  end.
Definition app_history (evs : list app_event) (c : app_config) : app_config := foldl app_step c evs.

(** A daemon whose contract has just been loaded. *)
Definition started (c : app_config) : Prop :=
  sessions (dm_app (ac_daemon c)) = ∅ ∧ session_id_counter (dm_app (ac_daemon c)) = 0 ∧
  idempotency_stores (dm_app (ac_daemon c)) = ∅.
End Dispatch.

(** ** What a request leaves alone *)

(** A part of the daemon that the services do not touch. *)
Class Frame {T} (f : daemon → T) := {
  frame_desk x d : f (set_dm_desk x d) = f d;
  frame_router x d : f (set_dm_router x d) = f d
}.
#[export] Instance frame_app : Frame dm_app.
Proof. done. Qed.
(** What the application can see of its own: sessions, replays, scans; and the audit lines. *)
Definition traces (d : daemon) : app * list app_line * list (option io_fault) := (dm_app d, dm_lines d, dm_io d).
#[export] Instance frame_traces : Frame traces.
Proof. done. Qed.

Definition leaves {T A} (f : daemon → T) (m : M daemon A) : Prop := ∀ d, f (m d).2 = f d.

Section Leaves.
Context {T} (f : daemon → T) `{!Frame f}.

Lemma leaves_ret {A} (a : A) : leaves f (mret a).
Proof. done. Qed.
Lemma leaves_throw {A} e : leaves f (throw (A := A) e).
Proof. done. Qed.
Lemma leaves_then {A B} (m : M daemon A) (k : A → M daemon B) :
  leaves f m → (∀ a, leaves f (k a)) → leaves f (m ≫= k).
Proof.
  intros Hm Hk d. specialize (Hm d). unfold mbind, M_bind. destruct (m d) as [[a|e] d'] eqn:E; [|done].
  rewrite Hk. done.
Qed.
Lemma leaves_catch {A} (m : M daemon A) h : leaves f m → (∀ e, leaves f (h e)) → leaves f (catch m h).
Proof.
  intros Hm Hh d. specialize (Hm d). unfold catch. destruct (m d) as [[a|e] d'] eqn:E; [done|]. by rewrite Hh.
Qed.
Lemma leaves_except {A} (m : M daemon A) h : leaves f m → (∀ e, leaves f (h e)) → leaves f (except m h).
Proof.
  intros Hm Hh. apply leaves_catch; [done|]. intros e. destruct (is_exception e); [apply Hh|apply leaves_throw].
Qed.
Lemma leaves_if {A} (b : bool) (m n : M daemon A) : leaves f m → leaves f n → leaves f (if b then m else n).
Proof. by destruct b. Qed.
Lemma leaves_on_desk {A} (m : M desk A) : leaves f (on_desk m).
Proof. intros d. unfold on_desk, zoom. destruct (m (dm_desk d)). apply frame_desk. Qed.
Lemma leaves_on_router {A} (m : M router A) : leaves f (on_router m).
Proof. intros d. unfold on_router, zoom. destruct (m (dm_router d)). apply frame_router. Qed.
Lemma leaves_fail code details : leaves f (fail code details).
Proof. intros d. unfold fail. by destruct (failure code details). Qed.
Lemma leaves_success r : leaves f (success r).
Proof. done. Qed.
Lemma leaves_ofail {A} (o : outcome A) : leaves f (ofail o).
Proof. intros d. by destruct o. Qed.
Lemma leaves_checked {A} r (k : A → M daemon app_envelope) : (∀ a, leaves f (k a)) → leaves f (checked r k).
Proof. intros H. destruct r as [[]|a]; [apply leaves_fail|apply H]. Qed.
Lemma leaves_trying {A} (m : M daemon A) known k :
  leaves f m → (∀ e a, known e = Some a → leaves f a) → (∀ a, leaves f (k a)) → leaves f (trying m known k).
Proof.
  intros Hm He Hk d. specialize (Hm d). unfold trying, mbind, M_bind, catch.
  destruct (m d) as [[a|e] d'] eqn:E; simpl in *; [by rewrite Hk|].
  destruct (known e) as [a|] eqn:Ea; simpl; [by rewrite (He e a)|].
  by destruct (is_exception e).
Qed.
(** The gate only looks. *)
Lemma leaves_gate ps p : leaves f (on_app (gate_session_required ps p)).
Proof.
  intros d. unfold on_app, zoom.
  pose proof (wp_gate ps p (λ _ a, a = dm_app d) (dm_app d) (λ _ _, eq_refl) (λ _ _ _ _ _, eq_refl)) as W.
  unfold wp in W. destruct (gate_session_required ps p (dm_app d)) as [o a].
  simpl in W. rewrite W. by destruct d.
Qed.
Lemma leaves_gated ps p body : (∀ s, leaves f (body s)) → leaves f (gated (@on_app) ps p body).
Proof. intros H. apply leaves_then; [apply leaves_gate|]. intros [e|s]; [apply leaves_ret|apply H]. Qed.
Lemma leaves_querying {A} (m : M daemon A) k : leaves f m → (∀ a, leaves f (k a)) → leaves f (querying m k).
Proof.
  intros. apply leaves_then; [apply leaves_catch; [apply leaves_then; [done|intros; apply leaves_ret]|]|].
  - intros e. destruct (is_sqlite_error e); [apply leaves_ret|apply leaves_throw].
  - intros [a|]; [done|apply leaves_fail].
Qed.
Lemma leaves_wrap m : leaves f m → leaves f (wrap_handler m).
Proof. intros H. apply leaves_except; [done|]. intros e. apply leaves_fail. Qed.
End Leaves.

(** Emitting a line leaves the memory of the contract alone. *)
Lemma leaves_emit t payload session : leaves dm_app (emit t payload session).
Proof.
  unfold emit, emit_app_mutation. apply leaves_then; [|intros; apply leaves_ret].
  apply leaves_if; [apply leaves_throw|]. apply leaves_except.
  - apply leaves_then; [|intros; apply leaves_ret]. intros d. unfold append_app_line.
    destruct (dm_io d) as [|[[]|] ?]; done.
  - intros e. apply leaves_then; [|intros; apply leaves_ret]. intros d. unfold maybe_warn_outage. by case_match.
Qed.

(** ** Lawful answers *)

Lemma lawful_answer r : lawful (S := daemon) (mret (Success r)).
Proof. by intros d. Qed.
Lemma lawful_trying {A} (m : M daemon A) known k :
  (∀ e a, known e = Some a → lawful a) → (∀ a, lawful (k a)) → lawful (trying m known k).
Proof.
  intros He Hk d. unfold trying, mbind, M_bind, catch. destruct (m d) as [[a|e] d'] eqn:E; simpl in *; [apply Hk|].
  destruct (known e) as [a|] eqn:Ea; [by apply (He e a)|].
  destruct (is_exception e); [|done]. exact (lawful_fail "internal_error" [] d').
Qed.
Lemma gate_well_formed ps p a :
  match (gate_session_required ps p a).1 with Ok (inl e) => well_formed e | _ => True end.
Proof.
  apply (wp_gate ps p (λ o _, match o with Ok (inl e) => well_formed e | _ => True end) a); [|done].
  intros code Hc. unfold GATE_CODES in Hc.
  by repeat (apply elem_of_cons in Hc as [->|Hc];
    [split; [eapply bool_decide_eq_true_1; by vm_compute|by vm_compute]|]); apply elem_of_nil in Hc.
Qed.
Lemma lawful_gated ps p body : (∀ s, lawful (body s)) → lawful (gated (@on_app) ps p body).
Proof.
  intros H d. unfold gated, mbind, M_bind, on_app, zoom. pose proof (gate_well_formed ps p (dm_app d)) as W.
  destruct (gate_session_required ps p (dm_app d)) as [[[e|s]|e] a]; [done|apply H|done].
Qed.
Lemma lawful_app_gated ps p body : (∀ s, lawful (body s)) → lawful (gated (λ A m, m) ps p body).
Proof.
  intros H a. unfold gated, mbind, M_bind. pose proof (gate_well_formed ps p a) as W.
  destruct (gate_session_required ps p a) as [[[e|s]|e] b]; [done|apply H|done].
Qed.
Lemma lawful_querying {A} (m : M daemon A) k : (∀ a, lawful (k a)) → lawful (querying m k).
Proof. intros. apply lawful_bind. intros [a|]; [done|apply lawful_fail]. Qed.
Lemma lawful_on_app m : lawful m → lawful (on_app m).
Proof. intros H d. specialize (H (dm_app d)). unfold on_app, zoom. by destruct (m (dm_app d)) as [[]]. Qed.

(** One step through a handler, for either property. *)
Ltac walk_step :=
  match goal with
  | |- Frame _ => typeclasses eauto
  | |- ∀ _, _ => intro
  | |- leaves _ (mret _) => apply leaves_ret
  | |- leaves _ (throw _) => apply leaves_throw
  | |- leaves _ (on_desk _) => apply leaves_on_desk
  | |- leaves _ (query _) => apply leaves_on_desk
  | |- leaves _ (state_read _) => apply leaves_on_desk
  | |- leaves _ (on_router _) => apply leaves_on_router
  | |- leaves _ (on_queue _) => apply leaves_on_router
  | |- leaves _ (queue_read _) => apply leaves_on_router
  | |- leaves _ (fail _ _) => apply leaves_fail
  | |- leaves _ (invalid _ _) => apply leaves_fail
  | |- leaves _ internal_error => apply leaves_fail
  | |- leaves _ (success _) => apply leaves_success
  | |- leaves _ (ofail _) => apply leaves_ofail
  | |- leaves dm_app (emit _ _ _) => apply leaves_emit
  | |- leaves _ (gated _ _ _ _) => apply leaves_gated
  | |- leaves _ (checked _ _) => apply leaves_checked
  | |- leaves _ (trying _ _ _) => apply leaves_trying
  | |- leaves _ (querying _ _) => apply leaves_querying
  | |- leaves _ (except _ _) => apply leaves_except
  | |- leaves _ (catch _ _) => apply leaves_catch
  | |- leaves _ (_ ≫= _) => apply leaves_then
  | |- leaves _ (match ?x with _ => _ end) => destruct x
  | |- leaves _ ((match ?x with _ => _ end) _ _) => destruct x
  | |- leaves _ ((match ?x with _ => _ end) _ _ _) => destruct x
  | |- lawful ((match ?x with _ => _ end) _ _) => destruct x
  | |- lawful ((match ?x with _ => _ end) _ _ _) => destruct x
  | |- lawful (mret (Success _)) => apply lawful_answer
  | |- lawful (mret (paginate _ _ _ _ _)) => apply lawful_answer
  | |- lawful (throw _) => apply lawful_throw
  | |- lawful (fail _ _) => apply lawful_fail
  | |- lawful (invalid _ _) => apply lawful_fail
  | |- lawful internal_error => apply lawful_fail
  | |- lawful (success _) => apply lawful_success
  | |- lawful (gated (@on_app) _ _ _) => apply lawful_gated
  | |- lawful (gated _ _ _ _) => apply lawful_app_gated
  | |- lawful (on_app _) => apply lawful_on_app
  | |- lawful (checked _ _) => apply lawful_checked
  | |- lawful (trying _ _ _) => apply lawful_trying
  | |- lawful (querying _ _) => apply lawful_querying
  | |- lawful (except _ _) => apply lawful_except
  | |- lawful (catch _ _) => apply lawful_catch
  | |- lawful (_ ≫= _) => apply lawful_bind
  | |- lawful (match ?x with _ => _ end) => destruct x
  | H : on_registration_error _ _ = Some _ |- _ => unfold on_registration_error in H
  | H : (if ?b then _ else _) = Some _ |- _ => destruct b eqn:?
  | H : (match ?e with _ => _ end) = Some _ |- _ => destruct e
  | H : Some _ = Some _ |- _ => injection H as <-
  | H : None = Some _ |- _ => discriminate H
  end.
Ltac walk := repeat (cbv beta; walk_step).

Section Reads.
Context {T} (f : daemon → T) `{!Frame f}.

Definition good (m : M daemon app_envelope) : Prop := leaves f m ∧ lawful m.

Lemma good_readiness env ps p : good (app_readiness env ps p).
Proof. split; unfold app_readiness, probe_all, probe_docker, probe_sqlite, probe_jsonl, summary_counts, soft; walk. Qed.
Lemma good_dashboard env ps p : good (app_dashboard env ps p).
Proof.
  split; unfold app_dashboard, app_dashboard_body; [|walk].
  unfold container_counts, pane_counts, agent_counts, log_attachment_counts, queue_counts, route_counts, event_count,
    pane_state_buckets, agent_state_buckets, probe_all, probe_docker, probe_sqlite, probe_jsonl, first_active_container,
    first_unadopted_pane, oldest_blocked_message, recent_events, recent_queue, recent_routes, recently_skipped,
    if_wired, soft, soft_noted; walk.
Qed.
Lemma good_pane_list tf ne w ps p : good (app_pane_list tf ne w ps p).
Proof. split; unfold app_pane_list, listing, handler; walk. Qed.
Lemma good_pane_detail w ps p : good (app_pane_detail w ps p).
Proof. split; unfold app_pane_detail, detail, handler; walk. Qed.
Lemma good_agent_list tf ne w ps p : good (app_agent_list tf ne w ps p).
Proof. split; unfold app_agent_list, listing, handler; walk. Qed.
Lemma good_agent_detail w ps p : good (app_agent_detail w ps p).
Proof. split; unfold app_agent_detail, detail, handler; walk. Qed.
Lemma good_container_list lo tf ne w ps p : good (app_container_list lo tf ne w ps p).
Proof. split; unfold app_container_list, listing, handler; walk. Qed.
Lemma good_container_detail w ps p : good (app_container_detail w ps p).
Proof. split; unfold app_container_detail, detail, handler; walk. Qed.
Lemma good_log_attachment_list lo tf ne w ps p : good (app_log_attachment_list lo tf ne w ps p).
Proof. split; unfold app_log_attachment_list, listing, handler; walk. Qed.
Lemma good_log_attachment_detail w ps p : good (app_log_attachment_detail w ps p).
Proof. split; unfold app_log_attachment_detail, detail, handler; walk. Qed.
Lemma good_event_list lo gt ft tf ne w ps p : good (app_event_list lo gt ft tf ne w ps p).
Proof. split; unfold app_event_list, ranged_listing, handler; walk. Qed.
Lemma good_event_detail ft w ps p : good (app_event_detail ft w ps p).
Proof. split; unfold app_event_detail, handler; walk. Qed.
Lemma good_queue_list lo gt ft tf ne w ps p : good (app_queue_list lo gt ft tf ne w ps p).
Proof. split; unfold app_queue_list, ranged_listing, handler; walk. Qed.
Lemma good_queue_detail w ps p : good (app_queue_detail w ps p).
Proof. split; unfold app_queue_detail, detail, handler; walk. Qed.
Lemma good_route_list lo tf ne w ps p : good (app_route_list lo tf ne w ps p).
Proof. split; unfold app_route_list, listing, handler; walk. Qed.
Lemma good_route_detail w ps p : good (app_route_detail w ps p).
Proof. split; unfold app_route_detail, detail, handler; walk. Qed.
End Reads.

Section Mutations.
Abbreviation good_app := (good dm_app).

Lemma good_register rep sv att named tf w ps p : good_app (app_agent_register_from_pane rep sv att named tf w ps p).
Proof. split; unfold app_agent_register_from_pane, handler, map_registration_error; walk. Qed.
Lemma good_update sv w ps p : good_app (app_agent_update sv w ps p).
Proof. split; unfold app_agent_update, handler, map_registration_error_generic, answer_agent, agent_missing; walk. Qed.
Lemma good_log_attach sv home w ps p : good_app (app_log_attach sv home w ps p).
Proof.
  split; unfold app_log_attach, log_handler, handler, map_registration_error_generic, answer_agent, agent_missing; walk.
Qed.
Lemma good_log_detach sv w ps p : good_app (app_log_detach sv w ps p).
Proof.
  split; unfold app_log_detach, log_handler, handler, map_registration_error_generic, answer_agent, agent_missing; walk.
Qed.
Lemma good_queue_action action ty run w ps p : good_app (queue_action w action ty run ps p).
Proof. split; unfold queue_action, handler, map_queue_action_error; walk. Qed.
Lemma good_route_add other w ps p : good_app (app_route_add other w ps p).
Proof. split; unfold app_route_add, handler, on_route_error; walk. Qed.
Lemma good_route_remove w ps p : good_app (app_route_remove w ps p).
Proof. split; unfold app_route_remove, handler, on_route_id_error, on_route_error, route_missing; walk. Qed.
Lemma good_route_update w ps p : good_app (app_route_update w ps p).
Proof. split; unfold app_route_update, handler, on_route_id_error, on_route_error, route_missing; walk. Qed.
End Mutations.

(** ** Sending *)

(** The store of a session, which is created on first use. *)
Definition store_of (n : Z) (a : app) : idempotency_store := default [] (idempotency_stores a !! n).

(** Everything but the stores and the clock stays; random numbers may be used up. *)
Definition drifts (a b : app) : Prop :=
  sessions b = sessions a ∧ session_id_counter b = session_id_counter a ∧ scans b = scans a ∧
  suffix (app_uuids b) (app_uuids a).

#[export] Instance drifts_preorder : PreOrder drifts.
Proof.
  split; [done|]. intros a b c (? & ? & ? & ?) (? & ? & ? & ?). repeat split; (congruence || by etrans).
Qed.

(** How a request to send ends for the store of its session. *)
Inductive send_case (n : Z) (key : option string) (a : app) : outcome app_envelope → gmap Z idempotency_store → Prop :=
| Sent_untouched o :
    (∀ k r, key = Some k → o ≠ Ok (Success r)) → send_case n key a o (<[n := store_of n a]> (idempotency_stores a))
| Sent_before k e :
    key = Some k → od_get k (store_of n a) = Some e →
    send_case n key a (Ok (replay (deduplicated_response e)))
      (<[n := od_move_to_end k (store_of n a)]> (idempotency_stores a))
| Sent_now k m env t :
    key = Some k → od_get k (store_of n a) = None →
    send_case n key a (Ok env) (<[n := store_record MAX_ENTRIES k m env t (store_of n a)]> (idempotency_stores a)).

Lemma wp_leaves {A} (m : M daemon A) (Q : outcome A → daemon → Prop) d :
  leaves dm_app m → (∀ o d', dm_app d' = dm_app d → Q o d') → wp m Q d.
Proof. intros Hm HQ. specialize (Hm d). unfold wp. destruct (m d) as [o d']. by apply HQ. Qed.

Lemma wp_on_app {A} (m : M app A) (Q : outcome A → daemon → Prop) d :
  wp m (λ o a, Q o (set_dm_app a d)) (dm_app d) → wp (on_app m) Q d.
Proof. unfold wp, on_app, zoom. by destruct (m (dm_app d)). Qed.

Lemma wp_trying {A} (m : M daemon A) known k (Q : outcome app_envelope → daemon → Prop) d :
  wp m (λ o d', match o with
                | Ok a => wp (k a) Q d'
                | Raise e => match known e with
                             | Some a => wp a Q d'
                             | None => if is_exception e then wp internal_error Q d' else Q (Raise e) d'
                             end
                end) d →
  wp (trying m known k) Q d.
Proof.
  unfold wp, trying, mbind, M_bind, catch. destruct (m d) as [[a|e] d']; simpl; [done|].
  destruct (known e); [done|]. by destruct (is_exception e).
Qed.

Section Send.
Context `{L : AgentsLookup} `{CP : ContainerPaneLookup}.
Variable sha256_hex : string → string.
Variable redactor : text → option text.
Variable envelope_max_bytes : Z.
Variable default_wait : Z.
Variable w : wiring.

Abbreviation app_send := (app_send_input sha256_hex redactor envelope_max_bytes default_wait w).

Lemma lawful_send ps p : lawful (app_send ps p).
Proof.
  unfold app_send_input, handler, send_new, answer_sent, on_resolve_error, on_send_error. cbv zeta. walk.
  intros d. unfold replay. by destruct (deduplicated_response i).
Qed.

Definition refusal (o : outcome app_envelope) : Prop := ∀ r, o ≠ Ok (Success r).

Lemma wp_refusal code details (Q : outcome app_envelope → daemon → Prop) d :
  (∀ o, refusal o → Q o d) → wp (fail code details) Q d.
Proof.
  intros H. unfold wp, fail. destruct (failure code details) as [e|x] eqn:E; apply H; intros r; [|done].
  unfold failure in E. destruct (validate_details code details) as [u|]; [|done]. by injection E as <-.
Qed.

(** The end of a request that found nothing to replay. *)
Definition ends_new (session : AppSession) (key : option string) (a : app) (o : outcome app_envelope) (d : daemon) : Prop :=
  drifts a (dm_app d) ∧ send_case (app_session_id session) key a o (idempotency_stores (dm_app d)).

Section New.
Context (session : AppSession) (key : option string) (a : app).
Hypothesis absent : ∀ k, key = Some k → od_get k (store_of (app_session_id session) a) = None.

Definition opened (d : daemon) : Prop :=
  drifts a (dm_app d) ∧
  idempotency_stores (dm_app d) = <[app_session_id session := store_of (app_session_id session) a]> (idempotency_stores a).

Lemma opened_refused o d : opened d → refusal o → ends_new session key a o d.
Proof. intros [Hd Hs] Ho. split; [done|]. rewrite Hs. constructor. intros k r _. apply Ho. Qed.
Lemma opened_app d d' : dm_app d' = dm_app d → opened d → opened d'.
Proof. unfold opened. by intros ->. Qed.

Lemma wp_answer_sent resolved row d :
  opened d → wp (answer_sent session key resolved row) (ends_new session key a) d.
Proof.
  intros Ho. unfold answer_sent.
  case_match; [apply wp_refusal; intros; by apply opened_refused|].
  case_match; [apply wp_refusal; intros; by apply opened_refused|]. cbv zeta. apply wp_bind.
  apply wp_leaves; [apply leaves_emit|]. intros o1 d1 E1. apply (opened_app _ _ E1) in Ho.
  destruct o1 as [[]|e]; [|by apply opened_refused]. apply wp_bind. destruct key as [k|] eqn:Ek.
  - apply wp_bind, wp_on_app. unfold wp at 1, now_ms.
    assert (Hrec : ∀ c t, drifts a c → idempotency_stores c = idempotency_stores (dm_app d1) →
      wp (on_app (record_replay (app_session_id session) k (message_id row)
            (Success [("message_id", JStr (message_id row)); ("state", JStr (qstate_text (state row)));
                      ("deduplicated", JBool false)]%string) t))
        (λ o d', match o with
                 | Ok a0 => wp (mret (Success [("message_id", JStr (message_id row)); ("state", JStr (qstate_text (state row)));
                      ("deduplicated", JBool false)]%string)) (ends_new session (Some k) a) d'
                 | Raise e => ends_new session (Some k) a (Raise e) d'
                 end) (set_dm_app c d1)).
    { intros c t Hc Es. destruct Ho as [_ Hs]. apply wp_on_app. unfold record_replay, store_for_session, wp, mbind, M_bind, get, modify.
      simpl. rewrite Es, Hs, lookup_insert_eq. simpl. rewrite Es, Hs, insert_insert_eq. split; [done|]. simpl.
      econstructor; [done|by apply absent]. }
    destruct Ho as [Hd Hs]. destruct (app_clock (dm_app d1)) as [t [|t' ts]]; apply Hrec; try done.
  - destruct Ho as [Hd Hs]. split; [done|]. simpl. rewrite Hs. by constructor.
Qed.

Lemma opened_internal d : opened d → wp internal_error (ends_new session key a) d.
Proof. intros H. apply wp_refusal. intros. by apply opened_refused. Qed.

Lemma wp_send_new target payload d :
  opened d →
  wp (send_new sha256_hex redactor envelope_max_bytes default_wait session key target payload) (ends_new session key a) d.
Proof.
  intros Ho. unfold send_new. apply wp_trying. apply wp_leaves; [apply leaves_ofail|]. intros o d1 E1.
  apply (opened_app _ _ E1) in Ho. destruct o as [resolved|e].
  2:{ destruct (on_resolve_error target e) as [x|] eqn:Ex; unfold on_resolve_error in Ex.
      - destruct e as [[] ?| | | | | | | | | |]; try discriminate Ex. injection Ex as <-.
        apply wp_refusal. intros. by apply opened_refused.
      - destruct (is_exception e); [by apply opened_internal|by apply opened_refused]. }
  cbv zeta. destruct (_ <? _); [apply wp_refusal; intros; by apply opened_refused|]. apply wp_trying.
  unfold send_from_host. apply wp_bind, wp_on_app. unfold wp at 1, uuid4_hex.
  set (d2 := set_dm_app _ d1).
  assert (Ho2 : opened d2).
  { destruct Ho as [Hd Hs]. split; [|done]. etrans; [done|]. repeat split; try done. simpl.
    destruct (app_uuids (dm_app d1)); [done|]. by eexists [_]. }
  apply wp_leaves; [apply leaves_on_router; apply _|]. intros o d3 E3. apply (opened_app _ _ E3) in Ho2.
  destruct o as [res|e]; [by apply wp_answer_sent|].
  destruct (on_send_error target e) as [x|] eqn:Ex; unfold on_send_error in Ex.
  - destruct e; try discriminate Ex.
    repeat case_match; simplify_eq; (apply wp_refusal; intros; by apply opened_refused).
  - destruct (is_exception e); [by apply opened_internal|by apply opened_refused].
Qed.
End New.

(** A request to send is refused and changes nothing, or it passed the gate and ended in one
    of the ways of [send_case]. *)
Definition send_post (ps : json) (p : peer) (a : app) (o : outcome app_envelope) (b : app) : Prop :=
  (b = a ∧ refusal o) ∨
  ∃ token session fields target payload key,
    is_host_peer p = true ∧ has_queue_service w = true ∧ ps = JObj fields ∧ json_get "app_session_token" fields = Some (JStr token) ∧
    sessions a !! token = Some session ∧ validate_send fields = inr (target, payload, key) ∧
    drifts a b ∧ send_case (app_session_id session) key a o (idempotency_stores b).

Lemma wp_send ps p d : wp (app_send ps p) (λ o d', send_post ps p (dm_app d) o (dm_app d')) d.
Proof.
  unfold app_send_input, handler, gated. apply wp_bind, wp_on_app, wp_gate.
  { intros code _. left. split; [done|]. by intros r. }
  intros token session Hp Ht Hs.
  replace (set_dm_app (dm_app d) d) with d by (by destruct d).
  destruct ps as [| | | | | |fields]; try discriminate Ht. change (json_get "app_session_token" fields = Some (JStr token)) in Ht.
  cbv zeta. unfold checked. destruct (validate_send fields) as [[f x]|[[target payload] key]] eqn:Ev;
    [apply wp_refusal; intros; by left|].
  destruct (has_queue_service w) eqn:Ew; change (negb true) with false; [|apply wp_refusal; intros; by left].
  set (a := dm_app d) in *. set (n := app_session_id session) in *.
  assert (Hpost : ∀ o d', ends_new session key a o d' → send_post (JObj fields) p a o (dm_app d')).
  { intros o d' [H1 H2]. right. exists token, session, fields, target, payload, key. by rewrite Ew. }
  apply wp_bind, wp_on_app.
  assert (Hopen : wp (store_for_session n) (λ o b, o = Ok (store_of n a) ∧ opened session a (set_dm_app b d)) (dm_app d)).
  { unfold store_for_session, wp, mbind, M_bind, get, store_of. fold a. destruct (idempotency_stores a !! n) as [st|] eqn:E; simpl.
    - split; [done|]. split; [done|]. simpl. unfold store_of. fold n. rewrite E. simpl. by rewrite insert_id.
    - split; [done|]. split; [done|]. simpl. unfold store_of. fold n. by rewrite E. }
  revert Hopen. unfold wp at 1 2. destruct (store_for_session n (dm_app d)) as [o1 b1]. cbn [fst snd]. intros [-> Ho].
  generalize dependent (set_dm_app b1 d). clear b1. intros d1 Ho. apply wp_bind. destruct key as [k|].
  - apply wp_on_app. destruct Ho as [Hd Hst]. fold n in Hst.
    unfold wp at 1, lookup_replay, store_for_session, mbind, M_bind, get, modify. rewrite Hst, lookup_insert_eq.
    cbv beta iota. unfold mret, M_ret. cbv beta iota. unfold store_lookup.
    destruct (od_get k (store_of n a)) as [e|] eqn:Ek; cbv beta iota.
    + apply Hpost. split; [done|]. simpl. rewrite Hst, insert_insert_eq. by econstructor.
    + rewrite Hst, insert_insert_eq. eapply wp_mono; [|apply (wp_send_new session (Some k) a)].
      * intros o d' H. by apply Hpost.
      * intros k' [= <-]. done.
      * split; [done|]. done.
  - apply wp_ret. eapply wp_mono; [|apply (wp_send_new session None a)]; [|done|done]. intros o d' H. by apply Hpost.
Qed.
End Send.

(** ** One step of a history *)

(** What scans do to the rest of the contract's memory: nothing but using random numbers. *)
Definition settled (a b : app) : Prop :=
  sessions b = sessions a ∧ session_id_counter b = session_id_counter a ∧
  idempotency_stores b = idempotency_stores a ∧ suffix (app_uuids b) (app_uuids a).
#[export] Instance settled_preorder : PreOrder settled.
Proof.
  split; [done|]. intros a b c (? & ? & ? & ?) (? & ? & ? & ?). repeat split; (congruence || by etrans).
Qed.
Definition settles {A} (m : M app A) : Prop := ∀ a, settled a (m a).2.

Lemma settles_ret {A} (x : A) : settles (mret x).
Proof. done. Qed.
Lemma settles_throw {A} e : settles (throw (A := A) e).
Proof. done. Qed.
Lemma settles_get : settles get.
Proof. done. Qed.
Lemma settles_bind {A B} (m : M app A) (k : A → M app B) : settles m → (∀ x, settles (k x)) → settles (m ≫= k).
Proof.
  intros Hm Hk a. specialize (Hm a). unfold mbind, M_bind. destruct (m a) as [[x|e] b]; [|done]. by etrans; [|apply Hk].
Qed.
Lemma settles_catch {A} (m : M app A) h : settles m → (∀ e, settles (h e)) → settles (catch m h).
Proof.
  intros Hm Hh a. specialize (Hm a). unfold catch. destruct (m a) as [[x|e] b]; [done|]. by etrans; [|apply Hh].
Qed.
Lemma settles_scans f : settles (modify (λ s, set_scans (f s) s)).
Proof. done. Qed.
Lemma settles_uuid : settles uuid4_hex.
Proof. intros a. repeat split. simpl. destruct (app_uuids a); [done|]. by eexists [_]. Qed.
Lemma settles_now : settles now_ms.
Proof. intros a. unfold now_ms. by destruct (app_clock a) as [? []]. Qed.
Lemma settles_fail code details : settles (fail code details).
Proof. done. Qed.
Lemma settles_gate ps p : settles (gate_session_required ps p).
Proof.
  intros a. pose proof (wp_gate ps p (λ _ b, b = a) a (λ _ _, eq_refl) (λ _ _ _ _ _, eq_refl)) as W.
  unfold wp in W. by rewrite W.
Qed.

Ltac settle := repeat (cbv beta zeta; match goal with
  | |- ∀ _, _ => intro
  | |- settles (mret _) => apply settles_ret
  | |- settles (throw _) => apply settles_throw
  | |- settles get => apply settles_get
  | |- settles (fail _ _) => apply settles_fail
  | |- settles (invalid _ _) => apply settles_fail
  | |- settles internal_error => apply settles_fail
  | |- settles (success _) => apply settles_ret
  | |- settles uuid4_hex => apply settles_uuid
  | |- settles now_ms => apply settles_now
  | |- settles (gate_session_required _ _) => apply settles_gate
  | |- settles (modify _) => apply settles_scans
  | |- settles (catch _ _) => apply settles_catch
  | |- settles (_ ≫= _) => apply settles_bind
  | |- settles (match ?x with _ => _ end) => destruct x
  end).

Lemma settles_scan_dispatch kind wired ps p : settles (scan_dispatch kind wired ps p).
Proof. unfold scan_dispatch, start_scan. settle. Qed.
Lemma settles_background scrape i res : settles (run_scan_in_background scrape i res).
Proof. unfold run_scan_in_background, fail_scan, complete_scan, finish_scan. settle. Qed.
Lemma settles_report i : settles (report_scan i).
Proof. unfold report_scan. settle. Qed.
Lemma settles_after_wait i : settles (after_wait i).
Proof. unfold after_wait, lookup_scan. settle. Qed.
Lemma settles_status ps p : settles (app_scan_status ps p).
Proof. unfold app_scan_status, gated, lookup_scan. settle. Qed.
Lemma settles_preflight ctx p : settles (app_preflight ctx p).
Proof. unfold app_preflight. settle. Qed.

(** No random number to come makes the token [t]. *)
Definition avoids (t : string) (a : app) : Prop :=
  ∀ h, h ∈ "00000000000000000000000000000000"%string :: app_uuids a → uuid_str h ≠ t.
Definition stores_ok (a : app) : Prop := ∀ n, NoDup (store_of n a).*1.

(** What one step of any kind may do to sessions and stores. *)
Record ages (a b : app) : Prop := mkAges {
  ag_session t x : sessions a !! t = Some x → avoids t a → sessions b !! t = Some x;
  ag_avoids t : avoids t a → avoids t b;
  ag_cap : (size (sessions a) ≤ MAX_SESSIONS)%nat → (size (sessions b) ≤ MAX_SESSIONS)%nat;
  ag_full : size (sessions a) = MAX_SESSIONS → sessions b = sessions a;
  ag_stores : stores_ok a → stores_ok b;
  ag_held n k e r : (S r < MAX_ENTRIES)%nat → held k e r (store_of n a) → held k e (S r) (store_of n b)
}.

Lemma avoids_suffix t a b : suffix (app_uuids b) (app_uuids a) → avoids t a → avoids t b.
Proof.
  intros [l E] H h [->|Hh]%elem_of_cons; apply H, elem_of_cons; [by left|right]. rewrite E. apply elem_of_app. by right.
Qed.

Lemma settled_ages a b : settled a b → ages a b.
Proof.
  intros (Es & Ec & Et & Hu). split; rewrite ?Es; try done.
  - intros t. by apply avoids_suffix.
  - intros H n. unfold store_of. rewrite Et. apply H.
  - intros n k e r _. unfold store_of. rewrite Et. apply held_mono. lia.
Qed.

Lemma hello_ages p a o b : hello_post p a o b → ages a b.
Proof.
  destruct o as [[r|c ds]|e]; simpl; [|by intros ->; apply settled_ages|done].
  intros (_ & Hs & x & E & Et & _ & _ & _ & _ & _ & Est & _ & Eu). split; rewrite ?E.
  - intros t y Hy Ha. rewrite lookup_insert_ne; [done|]. rewrite Et. apply Ha.
    apply elem_of_cons. destruct (app_uuids a) as [|h l]; [by left|right]. apply elem_of_cons. by left.
  - intros t. apply avoids_suffix. rewrite Eu. destruct (app_uuids a); [done|]. by eexists [_].
  - intros _. rewrite map_size_insert. unfold MAX_SESSIONS in *. destruct (sessions a !! _); simpl; lia.
  - intros Hf. exfalso. lia.
  - intros H n. unfold store_of. rewrite Est. apply H.
  - intros n k e i _. unfold store_of. rewrite Est. apply held_mono. lia.
Qed.

Lemma od_move_NoDup {V} k (d : list (string * V)) : NoDup d.*1 → NoDup (od_move_to_end k d).*1.
Proof. intros H. unfold od_move_to_end. destruct (od_get k d); [by apply od_pop_NoDup|done]. Qed.

(** The store after a request, whichever way it ended. *)
Lemma send_case_store n key a o stores :
  send_case n key a o stores → ∃ st, stores = <[n := st]> (idempotency_stores a) ∧
    (NoDup (store_of n a).*1 → NoDup st.*1) ∧
    (∀ k e r, (S r < MAX_ENTRIES)%nat → held k e r (store_of n a) → held k e (S r) st).
Proof.
  intros [o' _|k e Hk Hg|k m env t Hk Hg]; eexists; (split; [reflexivity|]); split.
  - done.
  - intros k e r _. apply held_mono. lia.
  - apply od_move_NoDup.
  - intros k' e' r Hr Hh.
    replace (od_move_to_end k (store_of n a)) with (store_step MAX_ENTRIES (store_of n a) (OpLookup k))
      by (simpl; unfold store_lookup; by rewrite Hg). by apply held_step.
  - intros HN. destruct (held_new MAX_ENTRIES k m env t (store_of n a) ltac:(unfold MAX_ENTRIES; lia) HN) as [? _]. done.
  - intros k' e' r Hr Hh. change (held k' e' (S r) (store_step MAX_ENTRIES (store_of n a) (OpRecord k m env t))).
    apply held_step; [done| |done]. simpl. case_bool_decide as E; [|done]. subst k'.
    apply held_get in Hh. congruence.
Qed.

Lemma send_ages w ps p a o b : send_post w ps p a o b → ages a b.
Proof.
  intros [[-> _]|(token & session & fields & target & payload & key & _ & _ & _ & _ & _ & _ & Hd & Hc)];
    [by apply settled_ages|].
  destruct Hd as (Es & Ec & _ & Hu). apply send_case_store in Hc as (st & Est & HN & Hh).
  set (n := app_session_id session) in *.
  assert (Hst : ∀ m, store_of m b = if decide (n = m) then st else store_of m a).
  { intros m. unfold store_of at 1. rewrite Est. case_decide as E; [subst m; by rewrite lookup_insert_eq|].
    by rewrite lookup_insert_ne. }
  split; rewrite ?Es; try done.
  - intros t. by apply avoids_suffix.
  - intros H m. rewrite Hst. case_decide as E; [apply HN, H|apply H].
  - intros m k e r Hr. rewrite Hst. case_decide as E; [subst m; by apply Hh|]. apply held_mono. lia.
Qed.

(** ** Every handler *)

Create HintDb good.
#[export] Hint Resolve good_readiness good_dashboard good_pane_list good_pane_detail good_agent_list good_agent_detail
  good_container_list good_container_detail good_log_attachment_list good_log_attachment_detail good_event_list
  good_event_detail good_queue_list good_queue_detail good_route_list good_route_detail good_register good_update
  good_log_attach good_log_detach good_queue_action good_route_add good_route_remove good_route_update : good.
#[export] Hint Unfold app_queue_approve app_queue_delay app_queue_cancel : good.
#[export] Hint Extern 1 (Frame _) => typeclasses eauto : good.

Section History.
Context `{L : AgentsLookup} `{CP : ContainerPaneLookup}.
Variable sha256_hex : string → string.
Variable redactor : text → option text.
Variable envelope_max_bytes : Z.
Variable default_wait : Z.
Variable repr_of : json → string.
Variable schema_version : Z.
Variable daemon_home : string.
Variable log_attacher_ : option LogAttacher.
Variable add_route_untyped : M router RouteRow.
Variable agent_named : string.
Variable to_float : string → string * option Z.
Variable num_eq : json → json → bool.
Variable str_lower : string → string.
Variable py_gt_other : json → json → outcome bool.
Variable float_text : string → string.
Variable scrape : pyobj → list (string * pyobj).
Variable ctx : app_ctx.
Variable env : probe_env.
Variable w : wiring.

Abbreviation handlers := (app_handlers sha256_hex redactor envelope_max_bytes default_wait repr_of schema_version daemon_home
  log_attacher_ add_route_untyped agent_named to_float num_eq str_lower py_gt_other float_text ctx env w).
Abbreviation call := (dispatch sha256_hex redactor envelope_max_bytes default_wait repr_of schema_version daemon_home
  log_attacher_ add_route_untyped agent_named to_float num_eq str_lower py_gt_other float_text ctx env w).
Abbreviation run := (app_history sha256_hex redactor envelope_max_bytes default_wait repr_of schema_version daemon_home
  log_attacher_ add_route_untyped agent_named to_float num_eq str_lower py_gt_other float_text scrape ctx env w).
Abbreviation step := (app_step sha256_hex redactor envelope_max_bytes default_wait repr_of schema_version daemon_home
  log_attacher_ add_route_untyped agent_named to_float num_eq str_lower py_gt_other float_text scrape ctx env w).

Definition behaves (h : json → peer → M daemon app_envelope) : Prop :=
  ∀ ps p, lawful (h ps p) ∧ ∀ d, ages (dm_app d) (dm_app (h ps p d).2).

Lemma good_behaves h : (∀ ps p, good dm_app (h ps p)) → behaves h.
Proof.
  intros H ps p. destruct (H ps p) as [Hl Hw]. split; [done|]. intros d. rewrite Hl. by apply settled_ages.
Qed.
Lemma app_behaves h : (∀ ps p, lawful (h ps p) ∧ ∀ a, ages a (h ps p a).2) → behaves (λ ps p, on_app (h ps p)).
Proof.
  intros H ps p. destruct (H ps p) as [Hl Ha]. split; [by apply lawful_on_app|]. intros d. specialize (Ha (dm_app d)).
  unfold on_app, zoom. by destruct (h ps p (dm_app d)).
Qed.

Lemma preflight_behaves : behaves (λ _ p, on_app (app_preflight ctx p)).
Proof.
  apply (app_behaves (λ _ p, app_preflight ctx p)). intros ps p. split; [unfold app_preflight; walk|].
  intros a. apply settled_ages, settles_preflight.
Qed.
Lemma hello_behaves : behaves (λ ps p, on_app (app_hello ctx ps p)).
Proof.
  apply (app_behaves (app_hello ctx)). intros ps p. split; [unfold app_hello; walk|].
  intros a. eapply hello_ages, (wp_hello ctx ps p a).
Qed.
Lemma status_behaves : behaves (λ ps p, on_app (app_scan_status ps p)).
Proof.
  apply (app_behaves app_scan_status). intros ps p. split; [unfold app_scan_status; walk|].
  intros a. apply settled_ages, settles_status.
Qed.
Lemma send_behaves : behaves (app_send_input sha256_hex redactor envelope_max_bytes default_wait w).
Proof. intros ps p. split; [apply lawful_send|]. intros d. eapply send_ages, wp_send. Qed.

Lemma handlers_behave : Forall (λ mh, behaves mh.2) handlers.
Proof.
  unfold app_handlers.
  repeat (apply Forall_cons; split; [cbn [snd]|]);
    first [by apply Forall_nil|apply preflight_behaves|apply hello_behaves|apply status_behaves|apply send_behaves
          |apply good_behaves; autounfold with good; auto with good].
Qed.

Lemma handler_behaves method h : od_get method handlers = Some h → behaves h.
Proof.
  intros Hh%od_get_Some. pose proof handlers_behave as H. rewrite Forall_forall in H. by apply (H (method, h)).
Qed.

(** ** Histories *)

Lemma wrap_state {S} (m : M S app_envelope) s : (wrap_handler m s).2 = (m s).2.
Proof. unfold wrap_handler, except, catch. destruct (m s) as [[a|e] s']; [done|]. by destruct (is_exception e). Qed.

Lemma step_ages c ev : ages (dm_app (ac_daemon c)) (dm_app (ac_daemon (step c ev))).
Proof.
  destruct ev as [method ps p|ev]; simpl.
  - unfold dispatch. destruct (od_get method handlers) as [h|] eqn:Eh; [|by apply settled_ages].
    rewrite wrap_state. by apply handler_behaves in Eh as H; apply H.
  - destruct ev as [kind wired ps p|i res|i|i|ps p|ctx' ps p]; simpl.
    + destruct (kind_handler kind); [|by apply settled_ages].
      pose proof (settles_scan_dispatch kind wired ps p (dm_app (ac_daemon c))) as H.
      destruct (scan_dispatch _ _ _ _ _). by apply settled_ages.
    + case_bool_decide; [apply settled_ages, settles_background|by apply settled_ages].
    + apply settled_ages, settles_report.
    + apply settled_ages, settles_after_wait.
    + apply settled_ages, settles_status.
    + eapply hello_ages, (wp_hello ctx' ps p (dm_app (ac_daemon c))).
Qed.

Abbreviation memory c := (dm_app (ac_daemon c)).

Lemma run_sessions evs c :
  (size (sessions (memory c)) ≤ MAX_SESSIONS)%nat →
  (size (sessions (memory (run evs c))) ≤ MAX_SESSIONS)%nat ∧
  (size (sessions (memory c)) = MAX_SESSIONS → sessions (memory (run evs c)) = sessions (memory c)).
Proof.
  revert c. induction evs as [|ev evs IH]; intros c Hc; [done|]. simpl. pose proof (step_ages c ev) as H.
  destruct (IH (step c ev) (ag_cap _ _ H Hc)) as [H1 H2]. split; [done|]. intros Hf.
  rewrite H2; [by apply (ag_full _ _ H)|]. by rewrite (ag_full _ _ H Hf).
Qed.
Lemma run_stores evs c : stores_ok (memory c) → stores_ok (memory (run evs c)).
Proof. revert c. induction evs as [|ev evs IH]; intros c Hc; [done|]. simpl. by apply IH, (ag_stores _ _ (step_ages c ev)). Qed.
Lemma run_session evs c t x :
  sessions (memory c) !! t = Some x → avoids t (memory c) → sessions (memory (run evs c)) !! t = Some x.
Proof.
  revert c. induction evs as [|ev evs IH]; intros c Hx Ha; [done|]. simpl. pose proof (step_ages c ev) as H.
  apply IH; [by apply (ag_session _ _ H)|by apply (ag_avoids _ _ H)].
Qed.
Lemma run_held evs c n k e r :
  (r + length evs < MAX_ENTRIES)%nat → held k e r (store_of n (memory c)) →
  held k e (r + length evs) (store_of n (memory (run evs c))).
Proof.
  revert c r. induction evs as [|ev evs IH]; intros c r Hr Hh; simpl in *; [by rewrite Nat.add_0_r|].
  replace (r + S (length evs))%nat with (S r + length evs)%nat by lia. apply IH; [lia|].
  apply (ag_held _ _ (step_ages c ev)); [lia|done].
Qed.
Lemma started_stores c : started c → stores_ok (memory c).
Proof. intros (_ & _ & E) n. unfold store_of. rewrite E, lookup_empty. constructor. Qed.

(** Every answer to a request in the application's name space is well formed: its code is in
    the closed set and its details are those the code requires. Only the end of the process
    leaves a request without an answer. *)
Theorem answers_are_well_formed method ps p d :
  match (call method ps p d).1 with Ok e => well_formed e | Raise x => x = SystemExit end.
Proof.
  unfold dispatch. destruct (od_get method handlers) as [h|] eqn:Eh.
  - apply handler_behaves in Eh. destruct (Eh ps p) as [Hl _]. pose proof (lawful_wrap _ Hl d) as H.
    destruct (wrap_handler (h ps p) d).1 as [e|x] eqn:E; [done|]. by eapply wrapped_answers.
  - exact (lawful_fail "unknown_method" [] d).
Qed.

(** The methods that only show something. *)
Definition READ_METHODS : list string :=
  ["app.preflight"; "app.readiness"; "app.dashboard"; "app.scan.status"; "app.pane.list"; "app.pane.detail";
   "app.agent.list"; "app.agent.detail"; "app.container.list"; "app.container.detail"; "app.log_attachment.list";
   "app.log_attachment.detail"; "app.event.list"; "app.event.detail"; "app.queue.list"; "app.queue.detail";
   "app.route.list"; "app.route.detail"].

Lemma leaves_app_read {A} (m : M app A) : (∀ a, (m a).2 = a) → leaves traces (on_app m).
Proof.
  intros H d. specialize (H (dm_app d)). unfold on_app, zoom. destruct (m (dm_app d)) as [o a]. simpl in *. subst a.
  by destruct d.
Qed.
Lemma status_reads ps p a : (app_scan_status ps p a).2 = a.
Proof.
  unfold app_scan_status, gated, mbind, M_bind.
  pose proof (wp_gate ps p (λ _ b, b = a) a (λ _ _, eq_refl) (λ _ _ _ _ _, eq_refl)) as W. unfold wp in W.
  destruct (gate_session_required ps p a) as [[[e|s]|e] b]; simpl in W; subst b; try done.
  destruct (param ps "scan_id") as [[]|]; try done. case_bool_decide; [done|].
  assert (∃ x, lookup_scan s0 a = (Ok x, a)) as [x Ex] by (by eexists). rewrite Ex. by destruct x.
Qed.

Lemma preflight_reads p a : (app_preflight ctx p a).2 = a.
Proof. unfold app_preflight. by repeat case_match. Qed.

(** Looking leaves no trace: the requests that show something change neither a session, a
    replay store nor a scan, and write no audit line of the application. *)
Theorem reads_leave_no_trace method ps p d :
  method ∈ READ_METHODS → traces (call method ps p d).2 = traces d.
Proof.
  intros Hm. unfold dispatch. destruct (od_get method handlers) as [h|] eqn:Eh; [|done]. rewrite wrap_state.
  assert (H : Forall (λ mh, mh.1 ∈ READ_METHODS → ∀ ps p, leaves traces (mh.2 ps p)) handlers).
  { unfold app_handlers. repeat (apply Forall_cons; split; [cbn [fst snd]|]);
      first [ by apply Forall_nil
            | intros _ ? ?; apply leaves_app_read; intros; first [apply preflight_reads|apply status_reads]
            | intros _ ? ?; by refine (proj1 (_ : good traces _)); auto with good
            | intros Hno; exfalso;
              match type of Hno with ?P => refine (bool_decide_eq_false_1 P _ Hno); by vm_compute end ]. }
  rewrite Forall_forall in H. apply (H (method, h)); [by apply od_get_Some|done].
Qed.

(** ** Retries *)

Lemma find_send : od_get "app.send_input" handlers = Some (app_send_input sha256_hex redactor envelope_max_bytes default_wait w).
Proof. reflexivity. Qed.
Lemma find_hello : od_get "app.hello" handlers = Some (λ ps p, on_app (app_hello ctx ps p)).
Proof. reflexivity. Qed.

Lemma wrap_success {S} (m : M S app_envelope) s r s' :
  wrap_handler m s = (Ok (Success r), s') → m s = (Ok (Success r), s').
Proof.
  unfold wrap_handler, except, catch. destruct (m s) as [[a|e] s1]; [done|]. destruct (is_exception e); [|done].
  unfold internal_error, fail. by vm_compute.
Qed.

Lemma put_twice {V} (k : string) (v : V) l : Json.put k v (Json.put k v l) = Json.put k v l.
Proof.
  induction l as [|[k' x] l IH]; simpl; [by rewrite decide_True|]. case_decide as E; simpl.
  - by rewrite decide_True.
  - rewrite decide_False by done. by rewrite IH.
Qed.

(** A keyed request that succeeded is at the fresh end of its session's store. *)
Lemma sent_is_held n k a r b :
  NoDup (store_of n a).*1 → send_case n (Some k) a (Ok (Success r)) (idempotency_stores b) →
  ∃ e, held k e 0 (store_of n b) ∧
       replay (deduplicated_response e) = Success (Json.put "deduplicated"%string (JBool true) r).
Proof.
  intros HN Hc. remember (Ok (Success r)) as o eqn:Eo. unfold store_of at 1.
  remember (idempotency_stores b) as stores eqn:Es. destruct Hc as [o' Ho|k' e Hk Hg|k' m env' t Hk Hg].
  - subst o'. by destruct (Ho k r).
  - injection Hk as <-. exists e. rewrite lookup_insert_eq. simpl. split.
    + unfold od_move_to_end. rewrite Hg. split; [by apply od_pop_NoDup|]. by exists (od_pop k (store_of n a)), [].
    + injection Eo as Eo. rewrite Eo. f_equal. unfold replay in Eo. destruct (deduplicated_response e); injection Eo as <-;
        [by rewrite put_twice|done].
  - injection Hk as <-. injection Eo as ->. exists (mkEntry k m (Success r) t). rewrite lookup_insert_eq. simpl. split; [|done].
    apply held_new; [unfold MAX_ENTRIES; lia|done].
Qed.

Lemma bind_run {S A B} (m : M S A) (k : A → M S B) s x s1 : m s = (Ok x, s1) → (m ≫= k) s = k x s1.
Proof. unfold mbind, M_bind. by intros ->. Qed.
Lemma on_app_run {A} (m : M app A) d x a : m (dm_app d) = (Ok x, a) → on_app m d = (Ok x, set_dm_app a d).
Proof. unfold on_app, zoom. by intros ->. Qed.

Lemma gate_passes fields p a token session :
  is_host_peer p = true → json_get "app_session_token" fields = Some (JStr token) → token ≠ EmptyString →
  sessions a !! token = Some session → gate_session_required (JObj fields) p a = (Ok (inr session), a).
Proof.
  intros Hp Ht Hne Hs. unfold gate_session_required. rewrite Hp. change (negb true) with false. cbv iota. unfold param.
  rewrite Ht, bool_decide_false by done. cbv iota. rewrite (bind_run get _ a a a) by done. by rewrite Hs.
Qed.
Lemma gate_refuses_empty fields p a :
  json_get "app_session_token" fields = Some (JStr EmptyString) →
  ∃ code, gate_session_required (JObj fields) p a = (Ok (inl (Failure code [])), a).
Proof.
  intros Ht. unfold gate_session_required. destruct (is_host_peer p); change (negb true) with false; cbv iota; [|by eexists].
  unfold param. rewrite Ht. by eexists.
Qed.

Lemma store_opens n a :
  ∃ b, store_for_session n a = (Ok (store_of n a), b) ∧
       idempotency_stores b !! n = Some (store_of n a).
Proof.
  unfold store_for_session, store_of. rewrite (bind_run get _ a a a) by done.
  destruct (idempotency_stores a !! n) as [st|] eqn:E; eexists; (split; [reflexivity|]); [done|apply lookup_insert_eq].
Qed.

(** A request that finds its key in the store. *)
Lemma replayed p d token session fields target payload k e :
  is_host_peer p = true → json_get "app_session_token" fields = Some (JStr token) →
  token ≠ EmptyString → sessions (dm_app d) !! token = Some session → validate_send fields = inr (target, payload, Some k) →
  has_queue_service w = true → od_get k (store_of (app_session_id session) (dm_app d)) = Some e →
  ∃ b, app_send_input sha256_hex redactor envelope_max_bytes default_wait w (JObj fields) p d =
         (Ok (replay (deduplicated_response e)), set_dm_app b d).
Proof.
  intros Hp Ht Hne Hs Hv Hw He. unfold app_send_input, handler, gated.
  rewrite (bind_run _ _ _ _ _ (on_app_run _ _ _ _ (gate_passes _ _ _ _ _ Hp Ht Hne Hs))).
  replace (set_dm_app (dm_app d) d) with d by (by destruct d).
  cbv zeta. unfold checked. rewrite Hv, Hw. change (negb true) with false. cbv iota beta.
  destruct (store_opens (app_session_id session) (dm_app d)) as (b & Eb & Hb).
  rewrite (bind_run _ _ _ _ _ (on_app_run _ _ _ _ Eb)).
  set (d1 := set_dm_app b d).
  assert (El : ∃ c, lookup_replay (app_session_id session) k (dm_app d1) = (Ok (Some e), c)).
  { unfold lookup_replay.
    assert (Es : store_for_session (app_session_id session) b = (Ok (store_of (app_session_id session) (dm_app d)), b)).
    { unfold store_for_session. rewrite (bind_run get _ b b b) by done. by rewrite Hb. }
    rewrite (bind_run _ _ _ _ _ Es). unfold store_lookup. rewrite He. by eexists. }
  destruct El as [c El].
  rewrite (bind_run _ _ _ _ _ (on_app_run _ _ _ _ El)). by exists c.
Qed.


(** Sessions are handed out until there are eight and are kept for good: whatever requests
    follow, the eight stay and every further [app.hello] is refused. *)
Theorem sessions_are_never_given_up c0 before after ps p :
  started c0 →
  let c := run before c0 in
  let c' := run after c in
  (size (sessions (memory c)) ≤ MAX_SESSIONS)%nat ∧
  (size (sessions (memory c)) = MAX_SESSIONS →
     sessions (memory c') = sessions (memory c) ∧
     ∀ r, (call "app.hello" ps p (ac_daemon c')).1 ≠ Ok (Success r)).
Proof.
  intros (Hs & _) c c'.
  assert (H0 : (size (sessions (memory c0)) ≤ MAX_SESSIONS)%nat) by (rewrite Hs, map_size_empty; unfold MAX_SESSIONS; lia).
  destruct (run_sessions before c0 H0) as [H1 _]. fold c in H1. split; [done|]. intros Hf.
  destruct (run_sessions after c H1) as [_ H2]. specialize (H2 Hf). fold c' in H2. split; [done|]. intros r Hr.
  unfold dispatch in Hr. rewrite find_hello in Hr.
  destruct (wrap_handler (on_app (app_hello ctx ps p)) (ac_daemon c')) as [o d] eqn:E. simpl in Hr. subst o.
  apply wrap_success in E. unfold on_app, zoom in E. pose proof (wp_hello ctx ps p (memory c')) as W. unfold wp in W.
  destruct (app_hello ctx ps p (memory c')) as [o b]. injection E as -> _. destruct W as (_ & W & _).
  rewrite H2, Hf in W. lia.
Qed.
End History.

(** ** Examples *)

Definition demo_wiring : wiring := mkWiring true true true true true.
Definition demo_dispatch : string → json → peer → M daemon app_envelope :=
  dispatch (L := RegistryAgentsLookup [demo_master; demo_slave]) (CP := demo_lookup) (λ b, b) (λ t, Some t) 65536 10000
    (λ _, EmptyString) 1 "/home" None (throw (PyError "TypeError")) EmptyString (λ t, (t, None)) (λ _ _, false) (λ s, s)
    (λ _ _, Raise (PyError "TypeError")) (λ s, s) demo_ctx demo_env demo_wiring.
Definition demo_run : list app_event → app_config → app_config :=
  app_history (L := RegistryAgentsLookup [demo_master; demo_slave]) (CP := demo_lookup) (λ b, b) (λ t, Some t) 65536 10000
    (λ _, EmptyString) 1 "/home" None (throw (PyError "TypeError")) EmptyString (λ t, (t, None)) (λ _ _, false) (λ s, s)
    (λ _ _, Raise (PyError "TypeError")) (λ s, s) demo_scrape demo_ctx demo_env demo_wiring.

(** A request of the one session. *)
Definition request (method : string) (fields : params) : app_event :=
  Ev_request method (JObj (("app_session_token"%string, JStr "01234567-89ab-cdef-0123-456789abcdef") :: fields)) demo_host_peer.
Definition answer (ev : app_event) (d : daemon) : outcome app_envelope :=
  match ev with Ev_request m ps p => (demo_dispatch m ps p d).1 | Ev_part _ => Raise SystemExit end.
Definition after_all (evs : list app_event) (d : daemon) : daemon := ac_daemon (demo_run evs (mkAppConfig d [])).

Definition demo_new_daemon : daemon := set_dm_app (sc_app (no_scans demo_uuids)) (demo_daemon []).
Definition hello : app_event := Ev_request "app.hello" (JObj []) demo_host_peer.
Definition send_hi : app_event :=
  request "app.send_input" [("target_agent_id", JStr "coder"); ("payload", JObj [("text", JStr "hi")]);
                            ("idempotency_key", JStr "k1")]%string.

Example sent_once :
  answer send_hi (after_all [hello] demo_new_daemon) =
    Ok (Success [("message_id", JStr "11234567-89ab-cdef-0123-456789abcdef"); ("state", JStr "queued");
                 ("deduplicated", JBool false)]%string) ∧
  answer send_hi (after_all [hello; send_hi; request "app.agent.list" []] demo_new_daemon) =
    Ok (Success [("message_id", JStr "11234567-89ab-cdef-0123-456789abcdef"); ("state", JStr "queued");
                 ("deduplicated", JBool true)]%string).
Proof. by vm_compute. Qed.

Definition demo_config : app_config := mkAppConfig demo_new_daemon [].
Definition send_fields : params :=
  [("app_session_token", JStr "01234567-89ab-cdef-0123-456789abcdef"); ("target_agent_id", JStr "coder");
   ("payload", JObj [("text", JStr "hi")]); ("idempotency_key", JStr "k1")]%string.


Lemma reads_leave_no_trace_witness :
  "app.dashboard"%string ∈ READ_METHODS ∧
  traces (demo_dispatch "app.dashboard" demo_token demo_host_peer (demo_daemon [])).2 = traces (demo_daemon []).
Proof.
  assert (H : "app.dashboard"%string ∈ READ_METHODS) by (eapply bool_decide_eq_true_1; by vm_compute).
  split; [exact H|].
  exact (reads_leave_no_trace (L := RegistryAgentsLookup [demo_master; demo_slave]) (CP := demo_lookup) _ _ _ _ _ _ _ _ _ _ _ _ _ _
           _ _ _ _ "app.dashboard" demo_token demo_host_peer (demo_daemon []) H).
Defined.

Definition demo_config8 : app_config :=
  mkAppConfig (set_dm_app (sc_app (no_scans
    (demo_uuids ++ ["6123456789abcdef0123456789abcdef"; "7123456789abcdef0123456789abcdef"]))) demo_new_daemon) [].
Lemma sessions_are_never_given_up_witness :
  let c := demo_run (replicate 8 hello) demo_config8 in
  size (sessions (dm_app (ac_daemon c))) = MAX_SESSIONS ∧
  (∀ r, (demo_dispatch "app.hello" (JObj []) demo_host_peer
           (ac_daemon (demo_run [request "app.agent.list" []; hello] c))).1 ≠ Ok (Success r)).
Proof.
  intros c. assert (H : size (sessions (dm_app (ac_daemon c))) = MAX_SESSIONS) by (by vm_compute).
  split; [exact H|]. unfold c, demo_run in H.
  exact (proj2 (proj2 (sessions_are_never_given_up (L := RegistryAgentsLookup [demo_master; demo_slave]) (CP := demo_lookup)
           _ _ _ _ _ _ _ _ _ _ _ _ _ _ _ demo_scrape _ _ _ demo_config8 (replicate 8 hello) [request "app.agent.list" []; hello]
           (JObj []) demo_host_peer (conj eq_refl (conj eq_refl eq_refl))) H)).
Defined.

(** Adopting a pane that has an agent is not refused: the agent is registered again and its
    label is replaced. *)
Definition adopt (label : string) : app_event :=
  request "app.agent.register_from_pane"
    [("container_id", JStr "c1"); ("tmux_socket", JStr "/tmp/tmux"); ("session_name", JStr "main");
     ("window_index", JInt 0); ("pane_index", JInt 0); ("pane_id", JStr "%0"); ("role", JStr "slave");
     ("capability", JStr "codex"); ("label", JStr label)]%string.
Definition row_at (path : list string) (o : outcome app_envelope) : option json :=
  match o with Ok (Success r) => at_path ("row"%string :: path) (JObj r) | _ => None end.

Example adopted_pane_is_adopted_again :
  let first := answer (adopt "one") (after_all [hello] demo_new_daemon) in
  let again := answer (adopt "two") (after_all [hello; adopt "one"] demo_new_daemon) in
  row_at ["agent_id"%string] first = Some (JStr "agt_aaaaaaaaaaaa") ∧
  row_at ["agent_id"%string] again = Some (JStr "agt_aaaaaaaaaaaa") ∧
  row_at ["label"%string] first = Some (JStr "one") ∧ row_at ["label"%string] again = Some (JStr "two").
Proof. by vm_compute. Qed.

(** With routing disabled the request is refused, but the message is stored, once for every
    repetition. *)
Definition routing_off : daemon :=
  set_dm_router (set_tower (mkWorld (mkConn (mkDb ∅ (Some (mkFlag "disabled" "t0" "host-operator")) [] 0 ∅) None [] [] [] [])
                              demo_host) (demo_router [])) demo_new_daemon.
Example refused_but_stored :
  answer send_hi (after_all [hello] routing_off) = Ok (Failure "routing_disabled" []) ∧
  size (queue (committed (db_conn (Routes.tower (dm_router (after_all [hello; send_hi] routing_off)))))) = 1%nat ∧
  size (queue (committed (db_conn (Routes.tower (dm_router (after_all [hello; send_hi; send_hi] routing_off)))))) = 2%nat.
Proof. by vm_compute. Qed.

(** An update that fails on its second field keeps the first, and writes no line. *)
Definition bad_update : app_event :=
  request "app.agent.update" [("agent_id", JStr "agt_aaaaaaaaaaaa"); ("role", JStr "shell"); ("capability", JStr "none such")]%string.
Example update_is_partial :
  let d := after_all [hello; adopt "one"] demo_new_daemon in
  answer bad_update d = Ok (Failure "validation_failed" [("field", JStr "params"); ("reason", JStr "value_out_of_set")]%string) ∧
  row_at ["role"%string] (answer (request "app.agent.detail" [("agent_id"%string, JStr "agt_aaaaaaaaaaaa")])
                            (after_all [bad_update] d)) = Some (JStr "shell") ∧
  length (dm_lines (after_all [bad_update] d)) = length (dm_lines d).
Proof. by vm_compute. Qed.

(** How long a message is to be delayed makes no difference. *)
Definition delay_by (ms : Z) : app_event :=
  request "app.queue.delay" [("message_id", JStr "11234567-89ab-cdef-0123-456789abcdef"); ("delay_ms", JInt ms)]%string.
Example delay_ms_is_ignored :
  let d := after_all [hello; send_hi] demo_new_daemon in
  row_at ["state"%string] (answer (delay_by 1) d) = Some (JStr "blocked") ∧
  answer (delay_by 1) d = answer (delay_by 3600000) d.
Proof. by vm_compute. Qed.

(** The listing of agents accepts an ordering by role and does not sort by it. *)
Definition adopt_second : app_event :=
  request "app.agent.register_from_pane"
    [("container_id", JStr "c1"); ("tmux_socket", JStr "/tmp/tmux"); ("session_name", JStr "main");
     ("window_index", JInt 0); ("pane_index", JInt 1); ("pane_id", JStr "%1"); ("role", JStr "shell");
     ("capability", JStr "codex"); ("label", JStr "two")]%string.
Definition listed_roles (o : outcome app_envelope) : list (option json) :=
  match o with
  | Ok (Success r) => match json_get "rows" r with Some (JArr l) => at_path ["role"%string] <$> l | _ => [] end
  | _ => []
  end.
Definition list_agents_by (order : string) : app_event := request "app.agent.list" [("order_by"%string, JStr order)].
Example role_order_is_ignored :
  let d := after_all [hello; adopt "one"; adopt_second] demo_new_daemon in
  listed_roles (answer (list_agents_by "role:asc") d) = listed_roles (answer (list_agents_by "role:desc") d) ∧
  listed_roles (answer (list_agents_by "role:asc") d) = [Some (JStr "slave"); Some (JStr "shell")].
Proof. by vm_compute. Qed.
