(* ===== verification/SocketMethods.v ===== *)
(** The methods of the control socket outside the application's namespace
    (src/src/agenttower/socket_api/methods.py, errors.py): each is a front to a service
    modelled elsewhere, with its own checks, its mapping of errors to the closed set of codes,
    and the shape of its answer.

    [control] is the daemon of AppDaemon.v with the follow sessions, the shutdown event and the
    clocks the methods read.  A method that waits consumes one entry of [ct_waits], [ct_polls] or
    [ct_scan_waits]: the readings of the clock at its wake-ups, and what other threads do to the
    sessions or scans meanwhile.  Error messages are left out.

    [fromisoformat] reads a timestamp as [datetime.fromisoformat] does; [ticks] turns a number of
    seconds into the unit of the monotonic clock. *)

From S2P Require Import Prelude Errors Agents Permissions Store QueueDao Utf8 Envelope Timestamps AuditWriter Lookups KillSwitch QueueService Routes RoutingWorker RoutesService Json Session Tables LogDao Classifier EventsDao FollowSessions EventsReader Tower RegistryDao Validation JsonParse Desk AgentsService LogService TmuxAdapter PaneReconcile PaneService DockerAdapter ContainerDiscovery AppContract AppCursor AppDaemon AppMutations.
From Stdlib Require Import Ascii.

Local Open Scope Z_scope.

(** ** Envelopes *)

Definition CLOSED_CODE_SET : list string :=
  ["bad_json"; "bad_request"; "unknown_method"; "request_too_large"; "internal_error"; "config_invalid";
   "docker_unavailable"; "docker_permission_denied"; "docker_timeout"; "docker_failed"; "docker_malformed";
   "tmux_unavailable"; "tmux_no_server"; "socket_dir_missing"; "socket_unreadable"; "docker_exec_failed";
   "docker_exec_timeout"; "output_malformed"; "bench_user_unresolved"; "host_context_unsupported";
   "container_unresolved"; "not_in_tmux"; "tmux_pane_malformed"; "pane_unknown_to_daemon"; "agent_not_found";
   "agent_inactive"; "parent_not_found"; "parent_inactive"; "parent_role_invalid"; "parent_role_mismatch";
   "parent_immutable"; "swarm_parent_required"; "swarm_role_via_set_role_rejected";
   "master_via_register_self_rejected"; "master_confirm_required"; "value_out_of_set"; "field_too_long";
   "project_path_invalid"; "unknown_filter"; "schema_version_newer"; "log_path_invalid";
   "log_path_not_host_visible"; "log_path_in_use"; "pipe_pane_failed"; "attachment_not_found";
   "log_file_missing"; "events_session_unknown"; "events_session_expired"; "events_invalid_cursor";
   "events_filter_invalid"; "approval_not_applicable"; "body_empty"; "body_invalid_chars";
   "body_invalid_encoding"; "body_too_large"; "daemon_shutting_down"; "daemon_unavailable";
   "delay_not_applicable"; "delivery_in_progress"; "delivery_wait_timeout"; "kill_switch_off";
   "message_id_not_found"; "operator_pane_inactive"; "routing_disabled"; "routing_toggle_host_only";
   "sender_not_in_pane"; "sender_role_not_permitted"; "since_invalid_format"; "target_container_inactive";
   "target_label_ambiguous"; "target_not_active"; "target_pane_missing"; "target_role_not_permitted";
   "terminal_state_cannot_change"; "queue_origin_invalid"; "route_creation_failed";
   "route_event_type_invalid"; "route_id_not_found"; "route_master_rule_invalid";
   "route_source_scope_invalid"; "route_target_rule_invalid"; "route_template_invalid"].

Abbreviation envelope := (response params).

(** [errors.make_ok] *)
Definition ok_result {S} (result : params) : M S envelope := mret (make_ok result).

(** [errors.make_error]: an unknown code is a [ValueError]. *)
Definition error_of {S} (code : string) : M S envelope :=
  if bool_decide (code ∈ CLOSED_CODE_SET) then mret (make_error code) else throw (PyError "ValueError").

(** [try: a = m; except Exception as exc: return answer(exc)], then [k a]. *)
Definition attempt {S A} (m : M S A) (answer : exn → M S envelope) (k : A → M S envelope) : M S envelope :=
  r ← catch (a ← m; mret (inr a)) (λ e, if is_exception e then mret (inl e) else throw e);
  match r with inl e => answer e | inr a => k a end.

(** [except <class> as exc: code if in the closed set; except Exception: internal_error]. *)
Definition closed_or_internal {S} (code : option string) : M S envelope :=
  match code with
  | Some c => if bool_decide (c ∈ CLOSED_CODE_SET) then error_of c else error_of "internal_error"
  | None => error_of "internal_error"
  end.

(** ** State and context *)

Definition poll : Type := Z * (FollowSessionRegistry → FollowSessionRegistry).

Record control := mkControl {
  ct_daemon : daemon;
  ct_follow : FollowSessionRegistry;
  ct_shutdown : option bool;        (* [shutdown_requested], if the daemon has the event *)
  ct_monotonic : Z * list Z;
  ct_wall_us : Z * list Z;
  ct_waits : list (Z * list Z);     (* for a sender: its first reading and those at wake-ups *)
  ct_polls : list (list poll);
  ct_scan_waits : list (app → app)  (* for a scan request that waits *)
}.

Definition set_ct_daemon x c := mkControl x (ct_follow c) (ct_shutdown c) (ct_monotonic c) (ct_wall_us c)
  (ct_waits c) (ct_polls c) (ct_scan_waits c).
Definition set_ct_follow x c := mkControl (ct_daemon c) x (ct_shutdown c) (ct_monotonic c) (ct_wall_us c)
  (ct_waits c) (ct_polls c) (ct_scan_waits c).
Definition set_ct_shutdown x c := mkControl (ct_daemon c) (ct_follow c) x (ct_monotonic c) (ct_wall_us c)
  (ct_waits c) (ct_polls c) (ct_scan_waits c).
Definition set_ct_clocks m u c := mkControl (ct_daemon c) (ct_follow c) (ct_shutdown c) m u
  (ct_waits c) (ct_polls c) (ct_scan_waits c).
Definition set_ct_pauses ws ps ss c := mkControl (ct_daemon c) (ct_follow c) (ct_shutdown c) (ct_monotonic c)
  (ct_wall_us c) ws ps ss.

Definition on_daemon {A} (m : M daemon A) : M control A := zoom ct_daemon set_ct_daemon m.
Definition by_desk {A} (m : M desk A) : M control A := on_daemon (on_desk m).
Definition by_router {A} (m : M router A) : M control A := on_daemon (on_router m).
Definition by_queue {A} (m : M world A) : M control A := on_daemon (on_queue m).
Definition on_follow {A} (f : FollowSessionRegistry → A * FollowSessionRegistry) : M control A := λ c,
  let (a, r) := f (ct_follow c) in (Ok a, set_ct_follow r c).

Definition next_reading (c : Z * list Z) : Z * (Z * list Z) :=
  match c with (t, []) => (t, c) | (t, t' :: rest) => (t, (t', rest)) end.
(** [time.monotonic()] *)
Definition monotonic : M control Z := λ c,
  let (t, m) := next_reading (ct_monotonic c) in (Ok t, set_ct_clocks m (ct_wall_us c) c).
(** [datetime.now(timezone.utc)], in microseconds *)
Definition wall_clock : M control Z := λ c,
  let (t, u) := next_reading (ct_wall_us c) in (Ok t, set_ct_clocks (ct_monotonic c) u c).
Definition next_wait : M control (Z * list Z) := λ c,
  (Ok (default (0, []) (head (ct_waits c))), set_ct_pauses (tail (ct_waits c)) (ct_polls c) (ct_scan_waits c) c).
Definition next_scan_wait : M control (app → app) := λ c,
  (Ok (default id (head (ct_scan_waits c))), set_ct_pauses (ct_waits c) (ct_polls c) (tail (ct_scan_waits c)) c).
Definition next_polls : M control (list poll) := λ c,
  (Ok (default [] (head (ct_polls c))), set_ct_pauses (ct_waits c) (tail (ct_polls c)) (ct_scan_waits c) c).

Record EventsConfig := mkEventsConfig {
  ec_default_page_size : Z; ec_max_page_size : Z;
  ec_follow_session_idle_timeout : Z; ec_follow_long_poll_max : Z   (* in ticks *)
}.

Record ReaderStatusSnapshot := mkReaderStatus {
  rs_running : bool; rs_last_cycle_started_at : option string; rs_last_cycle_duration_ms : option Z;
  rs_active_attachments : Z; rs_attachments_in_failure : json; rs_degraded_sqlite : json;
  rs_degraded_jsonl : json
}.

(** [DaemonContext]; services the application shares are in [sx_wiring]. *)
Record DaemonContext := mkDaemonContext {
  sx_pid : Z; sx_start_time_utc : string; sx_started_us : Z; sx_socket_path : string;
  sx_state_path : string; sx_daemon_version : string; sx_schema_version : option Z;
  sx_wiring : wiring;
  sx_has_discovery_service : bool; sx_has_pane_service : bool; sx_has_follow_registry : bool;
  sx_has_routing_flag_service : bool; sx_has_audit_writer : bool; sx_has_routing_state : bool;
  sx_has_state_conn : bool; sx_has_lifecycle_logger : bool;
  sx_events_reader : option ReaderStatusSnapshot;
  sx_events_config : option EventsConfig;
  sx_daemon_uid : Z
}.

(** [_events_config_value] for the four values the methods read, in seconds scaled by [second]. *)
Definition events_config (second : Z) (ctx : DaemonContext) : EventsConfig :=
  default (mkEventsConfig 50 50 (300 * second) (30 * second)) (sx_events_config ctx).

(** ** Who calls *)

Definition CGROUP_PREFIXES : list string := ["docker/"; "containerd/"; "kubepods/"; "lxc/"].

(** What [/proc/<pid>] shows; [None] is an [OSError]. *)
Record proc_entry := mkProc {
  proc_dockerenv : option bool; proc_containerenv : option bool; proc_cgroup : option (list string)
}.

(** [_peer_is_host_process]; [forced] is the seam of the tests. *)
Definition peer_is_host (forced : bool) (peer_pid : Z) (proc : proc_entry) : bool :=
  if peer_pid <=? 0 then false
  else if forced then true
  else
    match proc_dockerenv proc with
    | None | Some true => false
    | Some false =>
        match proc_containerenv proc with
        | None | Some true => false
        | Some false =>
            match proc_cgroup proc with
            | None => false
            | Some lines =>
                forallb (λ line, negb (existsb (λ prefix, Text.contains prefix line) CGROUP_PREFIXES)) lines
            end
        end
    end.

(** [_parse_caller_pane] *)
Definition parse_caller_pane (ps : params) : string + option params :=
  match json_get "caller_pane" ps with
  | None | Some JNull => inr None
  | Some (JObj o) => inr (Some o)
  | Some _ => inl "bad_request"%string
  end.
Definition pane_kind (ps : params) : caller_pane :=
  match parse_caller_pane ps with inl _ => bad_pane | inr None => no_pane | inr (Some _) => pane_object end.

Definition CALLER_PANE_FIELDS : list string :=
  ["container_id"; "tmux_socket_path"; "tmux_session_name"; "tmux_window_index"; "tmux_pane_index";
   "tmux_pane_id"].

Definition is_type_or_value_error (e : exn) : bool :=
  match e with PyError n => bool_decide (n ∈ ["TypeError"; "ValueError"]%string) | _ => false end.

(** ** Numbers of a request *)

(** [v <= 0], [v < 0], [v > n] for a finite float, known by its text and the integer it
    truncates to. *)
Definition float_negative (repr : string) (t : Z) : bool :=
  (t <? 0) || ((t =? 0) && Text.startswith "-" repr && negb (bool_decide (repr = "-0.0"%string))).
Definition float_zero (repr : string) : bool := bool_decide (repr ∈ ["0.0"; "-0.0"]%string).
Definition float_above (n : Z) (repr : string) (t : Z) : bool :=
  (n <? t) || ((t =? n) && negb (bool_decide (repr = print_int n +:+ ".0"))).

(** [isinstance(v, (int, float)) and 0 <= v <= 300], where a comparison with NaN is false. *)
Definition wait_timeout_ok (v : json) : bool :=
  match v with
  | JBool _ => true
  | JInt z => negb ((z <? 0) || (300 <? z))
  | JFloat repr (Some t) => negb (float_negative repr t || float_above 300 repr t)
  | JFloat repr None => bool_decide (repr = "nan"%string)
  | _ => false
  end.

(** [float(v)] of an integer beyond the largest double is an [OverflowError]. *)
Definition float_overflows (z : Z) : bool := 2 ^ 1024 - 2 ^ 970 <=? Z.abs z.

(** The checks of [max_wait_seconds]: [inl code], or the value to wait. *)
Definition max_wait_of (v : option json) : outcome (string + option json) :=
  let refused : outcome (string + option json) := Ok (inl "events_filter_invalid"%string) in
  match v with
  | None | Some JNull => Ok (inr None)
  | Some (JInt z) =>
      if float_overflows z then Raise (PyError "OverflowError")
      else if z <=? 0 then refused else Ok (inr v)
  | Some (JFloat repr (Some t)) =>
      if float_negative repr t || float_zero repr then refused else Ok (inr v)
  | Some _ => refused
  end.

(** [base64.b64decode(s, validate=True)]: groups of four characters of the standard alphabet,
    the last one padded to four. *)
Definition std_value (c : ascii) : option N :=
  if bool_decide (c = "+"%char) then Some 62%N
  else if bool_decide (c = "/"%char) then Some 63%N
  else if bool_decide (c ∈ ["-"; "_"]%char) then None
  else b64_value c.
Fixpoint b64decode_strict (s : string) : option string :=
  match s with
  | EmptyString => Some EmptyString
  | String a (String b (String c (String d rest))) =>
      x ← std_value a; y ← std_value b;
      let first := byte (x * 4 + y / 16)%N in
      if bool_decide (c = pad) then
        if bool_decide (d = pad) && bool_decide (rest = EmptyString) then Some (String first EmptyString) else None
      else
        z ← std_value c;
        let second := byte (y mod 16 * 16 + z / 4)%N in
        if bool_decide (d = pad) then
          if bool_decide (rest = EmptyString) then Some (String first (String second EmptyString)) else None
        else
          u ← std_value d;
          String first ∘ String second ∘ String (byte (z mod 4 * 64 + u)%N) <$> b64decode_strict rest
  | _ => None
  end.

(** [value.replace("Z", "+00:00")] *)
Fixpoint replace_z (s : string) : string :=
  match s with
  | EmptyString => EmptyString
  | String c s' => if bool_decide (c = "Z"%char) then "+00:00" +:+ replace_z s' else String c (replace_z s')
  end.

(** ** The shape of answers *)

Definition nat_json (n : nat) : json := JInt (Z.of_nat n).
Definition opt_json {A} (f : A → json) (o : option A) : json := match o with Some a => f a | None => JNull end.

(** [_scan_result_to_payload] *)
Definition scan_result_to_payload (r : ScanResult) : params :=
  let row := sr_row r in
  [("scan_id", JStr (cs_scan_id row)); ("started_at", JStr (cs_started_at row));
   ("completed_at", JStr (cs_completed_at row)); ("status", JStr (cs_status row));
   ("matched_count", nat_json (cs_matched_count row));
   ("inactive_reconciled_count", nat_json (cs_inactive_reconciled_count row));
   ("ignored_count", nat_json (cs_ignored_count row)); ("error_code", opt_str (cs_error_code row));
   ("error_message", opt_str (cs_error_message row));
   ("error_details", JArr ((λ e, JObj [("container_id", JStr (pc_container_id e)); ("error_code", JStr (pc_code e));
                                       ("error_message", JStr (pc_message e))]) <$> sr_details r))]%string.

Definition mount_json (m : Mount) : json :=
  JObj [("source", JStr (mt_source m)); ("target", JStr (mt_target m)); ("type", JStr (mt_type m));
        ("mode", JStr (mt_mode m)); ("rw", JBool (mt_rw m))]%string.

Definition container_json (c : ContainerRec) : json :=
  JObj [("id", JStr (cr_container_id c)); ("name", JStr (cr_name c)); ("image", JStr (cr_image c));
        ("status", JStr (cr_status c)); ("labels", JObj ((λ kv, (kv.1, JStr kv.2)) <$> cr_labels c));
        ("mounts", JArr (mount_json <$> cr_mounts c)); ("active", JBool (cr_active c));
        ("first_seen_at", JStr (cr_first_seen_at c)); ("last_scanned_at", JStr (cr_last_scanned_at c));
        ("config_user", opt_str (cr_config_user c)); ("working_dir", opt_str (cr_working_dir c))]%string.

(** [_pane_scope_error_to_dict] *)
Definition pane_scope_error_to_dict (e : PerScopeError) : json :=
  JObj ([("container_id", JStr (pe_container_id e)); ("error_code", JStr (pe_error_code e));
         ("error_message", JStr (pe_error_message e))]%string ++
        match pe_tmux_socket_path e with Some s => [("tmux_socket_path"%string, JStr s)] | None => [] end ++
        match pe_truncations e with
        | [] => []
        | notes => [("pane_truncations"%string, JArr ((λ n : truncation_note, let '(_, _, pane, field, len) := n in
            JObj [("tmux_pane_id", JStr pane); ("field", JStr field); ("original_len", nat_json len)]%string) <$> notes))]
        end).

(** [_pane_scan_to_payload] *)
Definition pane_scan_to_payload (r : PaneScanResult) : params :=
  let row := psr_row r in
  [("scan_id", JStr (ps_scan_id row)); ("started_at", JStr (ps_started_at row));
   ("completed_at", JStr (ps_completed_at row)); ("status", JStr (ps_status row));
   ("containers_scanned", nat_json (ps_containers_scanned row));
   ("sockets_scanned", nat_json (ps_sockets_scanned row)); ("panes_seen", nat_json (ps_panes_seen row));
   ("panes_newly_active", nat_json (ps_panes_newly_active row));
   ("panes_reconciled_to_inactive", nat_json (ps_panes_reconciled_inactive row));
   ("containers_skipped_inactive", nat_json (ps_containers_skipped_inactive row));
   ("containers_tmux_unavailable", nat_json (ps_containers_tmux_unavailable row));
   ("error_code", opt_str (ps_error_code row)); ("error_message", opt_str (ps_error_message row));
   ("error_details", JArr (pane_scope_error_to_dict <$> psr_details r))]%string.

(** [_pane_row_to_dict] *)
Definition pane_row_to_dict (p : PaneRec) : json :=
  JObj [("container_id", JStr (pr_container_id p)); ("container_name", JStr (pr_container_name p));
        ("container_user", JStr (pr_container_user p)); ("tmux_socket_path", JStr (pr_tmux_socket_path p));
        ("tmux_session_name", JStr (pr_tmux_session_name p)); ("tmux_window_index", JInt (pr_tmux_window_index p));
        ("tmux_pane_index", JInt (pr_tmux_pane_index p)); ("tmux_pane_id", JStr (pr_tmux_pane_id p));
        ("pane_pid", JInt (pr_pane_pid p)); ("pane_tty", JStr (pr_pane_tty p));
        ("pane_current_command", JStr (pr_pane_current_command p));
        ("pane_current_path", JStr (pr_pane_current_path p)); ("pane_title", JStr (pr_pane_title p));
        ("pane_active", JBool (pr_pane_active p)); ("active", JBool (pr_active p));
        ("first_seen_at", JStr (pr_first_seen_at p)); ("last_scanned_at", JStr (pr_last_scanned_at p))]%string.

Definition action_text (a : OperatorAction) : string :=
  match a with act_approved => "approved" | act_delayed => "delayed" | act_canceled => "canceled" end.

(** [_queue_row_to_payload] *)
Definition queue_row_to_payload (r : QueueRow) (excerpt : string) : params :=
  [("message_id", JStr (message_id r)); ("state", JStr (qstate_text (state r)));
   ("block_reason", opt_str (block_reason_code <$> block_reason r)); ("failure_reason", opt_str (failure_reason r));
   ("sender", JObj [("agent_id", JStr (sender_agent_id r)); ("label", JStr (sender_label r));
                    ("role", JStr (sender_role r)); ("capability", opt_str (sender_capability r))]);
   ("target", JObj [("agent_id", JStr (target_agent_id r)); ("label", JStr (target_label r));
                    ("role", JStr (target_role r)); ("capability", opt_str (target_capability r))]);
   ("envelope_size_bytes", JInt (envelope_size_bytes r)); ("envelope_body_sha256", JStr (envelope_body_sha256 r));
   ("enqueued_at", JStr (enqueued_at r)); ("delivery_attempt_started_at", opt_str (delivery_attempt_started_at r));
   ("delivered_at", opt_str (delivered_at r)); ("failed_at", opt_str (failed_at r));
   ("canceled_at", opt_str (canceled_at r)); ("last_updated_at", JStr (last_updated_at r));
   ("operator_action", opt_str (action_text <$> operator_action r));
   ("operator_action_at", opt_str (operator_action_at r)); ("operator_action_by", opt_str (operator_action_by r));
   ("origin", JStr (origin_text (origin r))); ("route_id", opt_str (row_route_id r));
   ("event_id", opt_int (row_event_id r)); ("excerpt", JStr excerpt)]%string.

(** [_route_row_to_payload] *)
Definition route_row_to_payload (r : RouteRow) : params :=
  [("route_id", JStr (route_id r)); ("event_type", JStr (route_event_type r));
   ("source_scope", JObj [("kind", JStr (source_scope_kind r)); ("value", opt_str (source_scope_value r))]);
   ("target_rule", JStr (target_rule r)); ("target_value", opt_str (target_value r));
   ("master_rule", JStr (master_rule r)); ("master_value", opt_str (master_value r));
   ("template", JStr (template r)); ("enabled", JBool (enabled r));
   ("last_consumed_event_id", JInt (last_consumed_event_id r)); ("created_at", JStr (route_created_at r));
   ("updated_at", JStr (route_updated_at r)); ("created_by_agent_id", opt_str (created_by_agent_id r))]%string.

(** [_event_row_to_payload] *)
Definition event_row_to_payload (e : DurableEvent) : json :=
  JObj [("event_id", JInt (de_event_id e)); ("event_type", JStr (de_event_type e)); ("agent_id", JStr (de_agent_id e));
        ("attachment_id", opt_str (de_attachment_id e)); ("log_path", opt_str (de_log_path e));
        ("byte_range_start", opt_int (de_byte_range_start e)); ("byte_range_end", opt_int (de_byte_range_end e));
        ("line_offset_start", opt_int (de_line_offset_start e)); ("line_offset_end", opt_int (de_line_offset_end e));
        ("observed_at", JStr (de_observed_at e)); ("record_at", opt_str (de_record_at e));
        ("excerpt", JStr (de_excerpt e)); ("classifier_rule_id", opt_str (de_classifier_rule_id e));
        ("debounce", JObj [("window_id", opt_str (de_window_id e)); ("collapsed_count", JInt (de_collapsed_count e));
                           ("window_started_at", opt_str (de_window_started_at e));
                           ("window_ended_at", opt_str (de_window_ended_at e))]);
        ("schema_version", JInt (de_schema_version e))]%string.

(** The answers of the agents service as dictionaries; [_agent_full_record_to_dict] is
    [register_payload] less its last key. *)
Definition attach_payload (r : AttachResult) : params :=
  [("agent_id", JStr (ar_agent_id r)); ("attachment_id", JStr (ar_attachment_id r));
   ("log_path", JStr (ar_log_path r)); ("source", JStr (ar_source r)); ("status", JStr "active");
   ("byte_offset", JInt (ar_byte_offset r)); ("line_offset", JInt (ar_line_offset r));
   ("attached_at", JStr (ar_attached_at r)); ("last_status_at", JStr (ar_last_status_at r));
   ("is_new", JBool (ar_is_new r)); ("prior_status", opt_str (ar_prior_status r))]%string.

Section Payloads.
Variable to_float : string → string * option Z.

Definition stored_json (s : string) : json := match loads to_float s with Ok j => j | Raise _ => JNull end.

Definition agent_record_to_dict (f : AgentFullRecord) : params :=
  removelast (register_payload to_float (mkRegistered f EmptyString None)).

Definition registered_payload (r : RegisterOutcome) : params :=
  register_payload to_float r ++
  match ro_attach_log r with Some a => [("attach_log"%string, JObj (attach_payload a))] | None => [] end.

Definition listing_payload (x : AgentFilter * list AgentFullRecord) : params :=
  let f := x.1 in
  [("filter", JObj [("role", opt_json (λ l, JArr (JStr <$> l)) (af_roles f));
                    ("container_id", opt_str (af_container_id f)); ("active_only", JBool (af_active_only f));
                    ("parent_agent_id", opt_str (af_parent f))]);
   ("agents", JArr ((λ r, JObj (agent_record_to_dict r)) <$> x.2))]%string.

Definition set_payload (r : SetResult) : params :=
  [("agent_id", JStr (sr_agent_id r)); ("field", JStr (sr_field r)); ("prior_value", JStr (sr_prior_value r));
   ("new_value", JStr (sr_new_value r))]%string ++
  match sr_effective_permissions r with
  | Some p => [("effective_permissions"%string, stored_json p)] | None => [] end ++
  [("audit_appended"%string, JBool (sr_audit_appended r))].
End Payloads.

(** The answers of the log service. *)
Definition detach_payload (r : DetachResult) : params :=
  [("agent_id", JStr (dr_agent_id r)); ("attachment_id", JStr (dr_attachment_id r));
   ("log_path", JStr (dr_log_path r)); ("status", JStr "detached"); ("byte_offset", JInt (dr_byte_offset r));
   ("line_offset", JInt (dr_line_offset r)); ("last_status_at", JStr (dr_last_status_at r))]%string.

Definition status_payload (x : string * option (LogAttachmentRecord * option LogOffsetRecord)) : params :=
  let attachment a :=
    JObj [("attachment_id", JStr (la_attachment_id a)); ("log_path", JStr (la_log_path a));
          ("status", JStr (la_status a)); ("source", JStr (la_source a)); ("attached_at", JStr (la_attached_at a));
          ("last_status_at", JStr (la_last_status_at a)); ("superseded_at", opt_str (la_superseded_at a));
          ("superseded_by", opt_str (la_superseded_by a))]%string in
  let offset o :=
    JObj [("byte_offset", JInt (lo_byte_offset o)); ("line_offset", JInt (lo_line_offset o));
          ("last_event_offset", JInt (lo_last_event_offset o)); ("last_output_at", opt_str (lo_last_output_at o));
          ("file_inode", opt_str (lo_file_inode o)); ("file_size_seen", JInt (lo_file_size_seen o))]%string in
  [("agent_id", JStr x.1); ("attachment", opt_json (λ ao, attachment ao.1) x.2);
   ("offset", opt_json offset (x.2 ≫= snd))]%string.

Definition preview_payload (r : PreviewResult) : params :=
  [("agent_id", JStr (pv_agent_id r)); ("attachment_id", JStr (pv_attachment_id r));
   ("log_path", JStr (pv_log_path r)); ("lines", JArr ((λ l, JStr (encode l)) <$> pv_lines r))]%string.

(** How [datetime.fromisoformat] reads a text: not at all, without an offset, as an instant in
    microseconds, or as one that UTC cannot express. *)
Inductive iso_reading := IsoMalformed | IsoNaive | IsoAt (us : Z) | IsoOverflow.

Definition EVENTS_VALID_TYPES : list string :=
  ["activity"; "waiting_for_input"; "completed"; "error"; "test_failed"; "test_passed";
   "manual_review_needed"; "long_running"; "pane_exited"; "swarm_member_reported"].
(** [tuple(sorted(_EVENTS_VALID_TYPES))] *)
Definition EVENTS_DEFAULT_TYPES : list string :=
  ["activity"; "completed"; "error"; "long_running"; "manual_review_needed"; "pane_exited";
   "swarm_member_reported"; "test_failed"; "test_passed"; "waiting_for_input"].

(** [params.get(k) or []] *)
Definition or_empty (k : string) (ps : params) : json :=
  match json_get k ps with Some v => if truthy v then v else JArr [] | None => JArr [] end.
(** [tuple(params.get("types") or _EVENTS_DEFAULT_TYPES)] of checked parameters. *)
Definition types_of (ps : params) : list string :=
  match or_empty "types" ps with
  | JArr (x :: l) => as_text <$> x :: l
  | _ => EVENTS_DEFAULT_TYPES
  end.
Definition text_param (k : string) (ps : params) : option string :=
  match json_get k ps with Some (JStr s) => Some s | _ => None end.

Definition QUEUE_STATES : list (string * QState) :=
  [("queued", queued); ("blocked", blocked); ("delivered", delivered); ("canceled", canceled);
   ("failed", failed)]%string.

(** A route id given as any JSON value, as SQLite binds it: text as it is, a number through its
    text, null to match nothing, and anything else not at all. *)
Definition bound_id (v : option json) : outcome string :=
  match v with
  | None => Ok EmptyString
  | Some (JStr s) => Ok s
  | Some (JInt z) =>
      if (- 2 ^ 63 <=? z) && (z <? 2 ^ 63) then Ok (print_int z) else Raise (PyError "OverflowError")
  | Some (JBool b) => Ok (if b then "1" else "0")%string
  | Some (JFloat repr (Some _)) => Ok repr
  | Some (JFloat repr None) =>
      if bool_decide (repr = "nan"%string) then Raise (RouteError "route_id_not_found") else Ok repr
  | Some JNull => Raise (RouteError "route_id_not_found")
  | Some (JArr _) | Some (JObj _) => Raise (PyError "ProgrammingError")
  end.
Definition given_id (v : option json) : json := default (JStr EmptyString) v.

Section Methods.
Context `{L : AgentsLookup} `{CP : ContainerPaneLookup}.
Variable sha256_hex : string → string.
Variable redactor : text → option text.
Variable envelope_max_bytes : Z.
Variable default_wait : Z.
Variable repr_of : json → string.
Variable schema_version : Z.
Variable daemon_home : string.
Variable log_attacher_ : option LogAttacher.
Variable add_route_untyped : M router RouteRow.
Variable to_float : string → string * option Z.
Variable docker : DockerAdapter.
Variable casefold : string → string.
Variable rule_provider : M desk (MatchingRule + string).
Variable tmux_adapter : TmuxAdapter.
Variable env_user login : option string.
Variable dump_token : params → string.
Variable load_token : string → option json.
Variable fromisoformat : string → iso_reading.
Variable unicode_word unicode_digit : N → bool.
Variable digit_of_unicode : N → option N.
Variable ticks : json → Z.
Variable second_ticks bad_lookup_window : Z.
Variable ctx : DaemonContext.

Abbreviation w := (sx_wiring ctx).
Abbreviation config := (events_config second_ticks ctx).

(** A service that is not there. *)
Definition needing (wired : bool) (m : M control envelope) : M control envelope :=
  if wired then m else error_of "internal_error".

(** ** ping, status, shutdown *)

Definition on_ping (ps : params) (p : peer) : M control envelope := ok_result [].

(** [_extend_routing_block_with_feat010] *)
Definition routing_figures : M control params :=
  if negb (sx_has_routing_state ctx && has_routes_service w)
  then mret [("routes_total", JInt 0); ("routes_enabled", JInt 0); ("routes_disabled", JInt 0);
             ("last_routing_cycle_at", JNull); ("events_consumed_total", JInt 0); ("skips_by_reason", JObj []);
             ("most_stalled_route", JNull); ("routing_worker_degraded", JBool false);
             ("degraded_routing_audit_persistence", JBool false)]%string
  else
    before ← by_router get;
    figures ← by_router (with_connection (n ← compute_route_counts; s ← compute_most_stalled; mret (n, s)));
    after ← by_router get;
    let '(total, on, off, stalled) := (figures : nat * nat * nat * option (string * nat)) in
    let s := shared before in
    mret [("routes_total", nat_json total); ("routes_enabled", nat_json on); ("routes_disabled", nat_json off);
          ("last_routing_cycle_at", opt_str (last_routing_cycle_at s));
          ("events_consumed_total", JInt (events_consumed_total s));
          ("skips_by_reason", JObj ((λ kv, (kv.1, JInt kv.2)) <$> map_to_list (skips_by_reason s)));
          ("most_stalled_route", opt_json (λ rl : string * nat,
             JObj [("route_id", JStr rl.1); ("lag", nat_json rl.2)]%string) stalled);
          ("routing_worker_degraded", JBool (routing_worker_degraded s));
          ("degraded_routing_audit_persistence", JBool (has_pending after))]%string.

Definition reader_block : params * params :=
  match sx_events_reader ctx with
  | None => ([("running", JBool false); ("last_cycle_started_at", JNull); ("last_cycle_duration_ms", JNull);
              ("active_attachments", JInt 0); ("attachments_in_failure", JArr [])]%string,
             [("degraded_sqlite", JNull); ("degraded_jsonl", JNull)]%string)
  | Some r => ([("running", JBool (rs_running r)); ("last_cycle_started_at", opt_str (rs_last_cycle_started_at r));
                ("last_cycle_duration_ms", opt_int (rs_last_cycle_duration_ms r));
                ("active_attachments", JInt (rs_active_attachments r));
                ("attachments_in_failure", rs_attachments_in_failure r)]%string,
               [("degraded_sqlite", rs_degraded_sqlite r); ("degraded_jsonl", rs_degraded_jsonl r)]%string)
  end.

Definition flag_block (f : option (string * string * string)) : params :=
  [("value", opt_json (λ f : string * string * string, JStr f.1.1) f);
   ("last_updated_at", opt_json (λ f : string * string * string, JStr f.1.2) f);
   ("last_updated_by", opt_json (λ f : string * string * string, JStr f.2) f)]%string.

Definition queue_audit_block (h : host) : params :=
  if sx_has_audit_writer ctx
  then [("degraded", JBool (degraded h)); ("pending_rows", nat_json (length (pending h)));
        ("last_failure_exc_class", opt_str (degraded_exc h))]%string
  else [("degraded", JBool false); ("pending_rows", JInt 0); ("last_failure_exc_class", JNull)]%string.

Definition on_status (ps : params) (p : peer) : M control envelope :=
  now ← wall_clock;
  flag ← (if sx_has_routing_flag_service ctx
          then by_queue (except (r ← read_full; mret (Some r)) (λ _, mret None))
          else mret None : M control (option (string * string * string)));
  host_ ← by_queue (x ← get; mret (hst x));
  figures ← routing_figures;
  ok_result [("alive", JBool true); ("pid", JInt (sx_pid ctx)); ("start_time_utc", JStr (sx_start_time_utc ctx));
    ("uptime_seconds", JInt (Z.max 0 (Z.quot (now - sx_started_us ctx) 1000000)));
    ("socket_path", JStr (sx_socket_path ctx)); ("state_path", JStr (sx_state_path ctx));
    ("schema_version", opt_int (sx_schema_version ctx)); ("daemon_version", JStr (sx_daemon_version ctx));
    ("events_reader", JObj reader_block.1); ("events_persistence", JObj reader_block.2);
    ("routing", JObj (flag_block flag ++ figures)); ("queue_audit", JObj (queue_audit_block host_))]%string.

Definition on_shutdown (ps : params) (p : peer) : M control envelope :=
  _ ← modify (λ c, match ct_shutdown c with Some _ => set_ct_shutdown (Some true) c | None => c end);
  ok_result [("shutting_down"%string, JBool true)].

(** ** Containers and panes *)

Definition adapter_code (e : exn) : option string := match e with AdapterError code _ => Some code | _ => None end.

Definition on_scan_containers (ps : params) (p : peer) : M control envelope :=
  needing (sx_has_discovery_service ctx)
    (attempt (by_desk (ContainerDiscovery.scan docker casefold rule_provider)) (closed_or_internal ∘ adapter_code)
       (λ r, ok_result (scan_result_to_payload r))).

(** [params.get(k, False)], which must be a boolean. *)
Definition bool_param (k : string) (dflt : bool) (ps : params) (k' : bool → M control envelope) : M control envelope :=
  match json_get k ps with
  | None => k' dflt
  | Some (JBool b) => k' b
  | Some _ => error_of "bad_request"
  end.
(** [params.get(k)], text or null. *)
Definition text_or_null (k : string) (ps : params) (k' : option string → M control envelope) : M control envelope :=
  match json_get k ps with
  | None | Some JNull => k' None
  | Some (JStr s) => k' (Some s)
  | Some _ => error_of "bad_request"
  end.
Definition filter_name (active_only : bool) : json := JStr (if active_only then "active_only" else "all").

Definition on_list_containers (ps : params) (p : peer) : M control envelope :=
  needing (sx_has_discovery_service ctx)
    (bool_param "active_only" false ps (λ active_only,
       rows ← by_desk (list_containers active_only);
       ok_result [("filter", filter_name active_only); ("containers", JArr (container_json <$> rows))]%string)).

Definition on_scan_panes (ps : params) (p : peer) : M control envelope :=
  needing (sx_has_pane_service ctx)
    (text_or_null "container" ps (λ container,
       attempt (by_desk (scan_for_container tmux_adapter env_user login (sx_daemon_uid ctx) container))
         (closed_or_internal ∘ adapter_code) (λ r, ok_result (pane_scan_to_payload r)))).

Definition on_list_panes (ps : params) (p : peer) : M control envelope :=
  needing (sx_has_pane_service ctx)
    (bool_param "active_only" false ps (λ active_only,
     text_or_null "container" ps (λ container,
       rows ← by_desk (with_conn (at_sql (select_panes_listing active_only container)));
       ok_result [("filter", filter_name active_only); ("container_filter", opt_str container);
                  ("panes", JArr (pane_row_to_dict <$> rows))]%string))).

(** ** Agents and logs *)

Definition registration_code (e : exn) : option string :=
  match e with RegistrationError code => Some code | _ => None end.

(** [_dispatch_agent_method], [_dispatch_log_method] *)
Definition dispatch_service {A} (wired : bool) (m : M desk A) (payload : A → params) : M control envelope :=
  needing wired
    (attempt (by_desk m) (closed_or_internal ∘ registration_code) (λ a, ok_result (payload a))).

Definition on_register_agent (ps : params) (p : peer) : M control envelope :=
  dispatch_service (has_agent_service w)
    (register_agent repr_of schema_version log_attacher_ ps (peer_uid p)) (registered_payload to_float).
Definition on_list_agents (ps : params) (p : peer) : M control envelope :=
  dispatch_service (has_agent_service w) (service_list_agents schema_version ps) (listing_payload to_float).
Definition on_set_role (ps : params) (p : peer) : M control envelope :=
  dispatch_service (has_agent_service w) (set_role schema_version ps (peer_uid p)) (set_payload to_float).
Definition on_set_label (ps : params) (p : peer) : M control envelope :=
  dispatch_service (has_agent_service w) (set_label schema_version ps) (set_payload to_float).
Definition on_set_capability (ps : params) (p : peer) : M control envelope :=
  dispatch_service (has_agent_service w) (set_capability schema_version ps) (set_payload to_float).

Definition on_attach_log (ps : params) (p : peer) : M control envelope :=
  dispatch_service (has_log_service w)
    (attach_log schema_version daemon_home ps (peer_uid p) "explicit" false) (λ r, attach_payload r.1).
Definition on_detach_log (ps : params) (p : peer) : M control envelope :=
  dispatch_service (has_log_service w) (detach_log schema_version ps (peer_uid p)) detach_payload.
Definition on_attach_log_status (ps : params) (p : peer) : M control envelope :=
  dispatch_service (has_log_service w) (attach_log_status schema_version ps) status_payload.
Definition on_attach_log_preview (ps : params) (p : peer) : M control envelope :=
  dispatch_service (has_log_service w) (attach_log_preview schema_version ps) preview_payload.

(** ** events.* *)

(** [_events_parse_iso_with_offset] *)
Definition parse_iso_with_offset (value : string) : outcome (string + Z) :=
  match fromisoformat (replace_z value) with
  | IsoMalformed | IsoNaive => Ok (inl "events_filter_invalid"%string)
  | IsoAt us => Ok (inr us)
  | IsoOverflow => Raise (PyError "OverflowError")
  end.

(** [since] or [until]: absent, refused, or an instant. *)
Definition instant_param (k : string) (ps : params) : outcome (string + option Z) :=
  match json_get k ps with
  | None | Some JNull => Ok (inr None)
  | Some (JStr s) => obind (parse_iso_with_offset s) (λ r,
      Ok (match r with inl code => inl code | inr us => inr (Some us) end))
  | Some _ => Ok (inl "events_filter_invalid"%string)
  end.

Definition text_or_absent (k : string) (ps : params) : bool :=
  match json_get k ps with None | Some JNull | Some (JStr _) => true | Some _ => false end.

(** [_events_validate_filter]: [Some code] refuses. *)
Definition events_validate_filter (ps : params) : outcome (option string) :=
  let refused : outcome (option string) := Ok (Some "events_filter_invalid"%string) in
  match or_empty "types" ps with
  | JArr types =>
      if negb (forallb (λ t, match t with JStr s => bool_decide (s ∈ EVENTS_VALID_TYPES) | _ => false end) types)
      then refused
      else if negb (text_or_absent "since" ps) then refused
      else if negb (text_or_absent "until" ps) then refused
      else
        obind (instant_param "since" ps) (λ since,
        match since with
        | inl code => Ok (Some code)
        | inr since =>
        obind (instant_param "until" ps) (λ until,
        match until with
        | inl code => Ok (Some code)
        | inr until =>
            if match since, until with Some s, Some u => u <? s | _, _ => false end then refused
            else if match json_get "reverse" ps with None | Some (JBool _) => false | Some _ => true end
            then refused
            else match json_get "limit" ps with
                 | None | Some JNull => Ok None
                 | Some (JInt z) => if z <=? 0 then refused else Ok None
                 | Some _ => refused
                 end
        end)
        end)
  | _ => refused
  end.

(** [_events_resolve_target]: [Some code] refuses. *)
Definition events_resolve_target (target : option string) : M control (option string) :=
  match target with
  | None => mret None
  | Some t =>
      if negb (has_agent_service w) then mret (Some "internal_error"%string)
      else
        rows ← catch
          (x ← by_desk (service_list_agents schema_version
                 [("schema_version"%string, opt_int (sx_schema_version ctx))]); mret (Some (snd x)))
          (λ e, if is_exception e then mret None else throw e);
        mret match rows with
             | None => Some "internal_error"%string
             | Some rows =>
                 if existsb (λ r, bool_decide (agent_id (fr_agent r) = t)) rows then None
                 else Some "agent_not_found"%string
             end
  end.

(** What [events.list] and [events.follow_open] check first. *)
Definition events_checked (ps : params) (k : option string → M control envelope) : M control envelope :=
  if negb (text_or_absent "target" ps) then error_of "events_filter_invalid"
  else
    let target := text_param "target" ps in
    refused ← ofail (events_validate_filter ps);
    match (refused : option string) with
    | Some code => error_of code
    | None =>
        missing ← events_resolve_target target;
        match (missing : option string) with
        | Some code => error_of code
        | None => k target
        end
    end.

Abbreviation select := (select_events dump_token load_token).

Definition page_limit (ps : params) : Z :=
  Z.min (match json_get "limit" ps with Some (JInt z) => z | _ => ec_default_page_size config end)
        (ec_max_page_size config).
(** A cursor that is not text is refused like the empty one. *)
Definition cursor_param (ps : params) : option string :=
  match json_get "cursor" ps with
  | None | Some JNull => None
  | Some (JStr s) => Some s
  | Some _ => Some EmptyString
  end.
Definition reverse_param (ps : params) : bool := match json_get "reverse" ps with Some (JBool b) => b | _ => false end.

Definition on_events_list (ps : params) (p : peer) : M control envelope :=
  events_checked ps (λ target,
    page ← catch
      (x ← by_desk (with_conn (at_sql (select
             (EventsDao.mkFilter target (types_of ps) (text_param "since" ps) (text_param "until" ps))
             (cursor_param ps) (page_limit ps) (reverse_param ps))));
       mret (Some x))
      (λ e, if bool_decide (e = PyError "CursorError") then mret None else throw e);
    match (page : option (list DurableEvent * option string)) with
    | None => error_of "events_invalid_cursor"
    | Some (rows, next) =>
        ok_result [("events", JArr (event_row_to_payload <$> rows)); ("next_cursor", opt_str next)]%string
    end).

Definition on_events_classifier_rules (ps : params) (p : peer) : M control envelope :=
  ok_result [("rules", JArr ((λ r, JObj [("rule_id", JStr (rule_id r)); ("event_type", JStr (rule_event_type r));
                                        ("priority", nat_json (priority r))]) <$> RULES unicode_word unicode_digit));
             ("synthetic_rule_ids", JArr [JStr PANE_EXITED_SYNTH_RULE_ID; JStr LONG_RUNNING_SYNTH_RULE_ID])]%string.

(** [SELECT COALESCE(MAX(event_id), 0) FROM events] *)
Definition max_event_id (d : tower_db) : Z := foldr Z.max 0 (de_event_id <$> durable d).

(** The starting point of a session, and the first page of what came before it. *)
Definition open_reading (target : option string) (types : list string) (since : option string)
  : M desk (Z * list DurableEvent) :=
  with_conn
    (live_starting ← at_sql (Sql.read max_event_id);
     backlog ← match since with
               | None => mret []
               | Some s =>
                   x ← at_sql (select (EventsDao.mkFilter target types (Some s) None) None
                                 (ec_default_page_size config) false);
                   mret (fst x)
               end;
     mret (live_starting, backlog)).

Definition on_events_follow_open (ps : params) (p : peer) : M control envelope :=
  events_checked ps (λ target,
    needing (sx_has_follow_registry ctx)
      (let types := types_of ps in
       let since := text_param "since" ps in
       x ← by_desk (open_reading target types since);
       now ← monotonic;
       session ← on_follow (open_session target types since x.1 (now + ec_follow_session_idle_timeout config));
       ok_result [("session_id", JStr (fs_session_id session));
                  ("backlog_events", JArr (event_row_to_payload <$> x.2));
                  ("live_starting_event_id", JInt x.1)]%string)).

(** The id of the last event a session was given, or where it starts. *)
Definition lower_bound (s : FollowSession) : Z :=
  Z.max (fs_last_emitted_event_id s) (fs_live_starting_event_id s).

(** One look at the table. *)
Definition follow_select (s : FollowSession) : M desk (list DurableEvent) :=
  with_conn
    (cursor ← (if 0 <? lower_bound s
               then c ← ofail (encode_cursor dump_token (lower_bound s) false None None); mret (Some c)
               else mret None);
     x ← at_sql (select
           (EventsDao.mkFilter (fs_target_agent_id s)
              (match fs_type_filter s with [] => EVENTS_DEFAULT_TYPES | l => l end) None None)
           cursor (ec_default_page_size config) false);
     mret (fst x)).

(** [session.last_emitted_event_id = id] on the object in the table. *)
Definition set_last_emitted (session_id : string) (id : Z) (r : FollowSessionRegistry) : FollowSessionRegistry :=
  FollowSessions.set_sessions
    ((λ x, if bool_decide (fs_session_id x = session_id)
           then mkFollow (fs_session_id x) (fs_target_agent_id x) (fs_type_filter x) (fs_since_iso x) id
                  (fs_live_starting_event_id x) (fs_expires_at_monotonic x)
           else x) <$> fr_sessions r) r.

Definition refresh (session_id : string) : M control unit :=
  now ← monotonic;
  _ ← on_follow (refresh_expiration session_id (now + ec_follow_session_idle_timeout config));
  mret tt.

Definition follow_answer (rows : list DurableEvent) (open : bool) : M control envelope :=
  ok_result [("events", JArr (event_row_to_payload <$> rows)); ("session_open", JBool open)]%string.

(** The loop; a turn without events reads the clock, waits, and looks whether the session is
    still there.  It ends when the deadline has passed, at the latest with the readings. *)
Fixpoint follow_loop (session_id : string) (deadline : Z) (polls : list poll) (s : FollowSession)
  : M control envelope :=
  let timed_out := (_ ← refresh session_id; follow_answer [] true) in
  rows ← by_desk (follow_select s);
  match last rows with
  | Some e =>
      _ ← on_follow (λ r, (tt, set_last_emitted session_id (de_event_id e) r));
      _ ← refresh session_id;
      follow_answer rows true
  | None =>
      match polls with
      | [] => timed_out
      | (now, meanwhile) :: rest =>
          if deadline - now <=? 0 then timed_out
          else
            _ ← on_follow (λ r, (tt, meanwhile r));
            c ← get;
            match get_session session_id (ct_follow c) with
            | None => follow_answer [] false
            | Some s' => follow_loop session_id deadline rest s'
            end
      end
  end.

Definition session_param (ps : params) (k : string → M control envelope) : M control envelope :=
  match nonempty_text (json_get "session_id" ps) with
  | None => error_of "events_session_unknown"
  | Some id => needing (sx_has_follow_registry ctx) (k id)
  end.

Definition unknown_session : M control envelope :=
  now ← monotonic;
  _ ← on_follow (is_rate_limited bad_lookup_window now);
  error_of "events_session_unknown".

Definition on_events_follow_next (ps : params) (p : peer) : M control envelope :=
  session_param ps (λ id,
    c ← get;
    match get_session id (ct_follow c) with
    | None => unknown_session
    | Some s =>
        now ← monotonic;
        if fs_expires_at_monotonic s <? now
        then _ ← on_follow (close_session id); error_of "events_session_expired"
        else
          wait ← ofail (max_wait_of (json_get "max_wait_seconds" ps));
          match (wait : string + option json) with
          | inl code => error_of code
          | inr v =>
              let limit := ec_follow_long_poll_max config in
              let max_wait := match v with Some j => ticks j | None => limit end in
              if negb (is_set v) && (limit <=? 0) then error_of "events_filter_invalid"
              else
                polls ← next_polls;
                follow_loop id (now + Z.min max_wait limit) polls s
          end
    end).

Definition on_events_follow_close (ps : params) (p : peer) : M control envelope :=
  session_param ps (λ id,
    closed ← on_follow (close_session id);
    if (closed : bool) then ok_result [] else unknown_session).

(** ** queue.* *)

Definition queue_wired : bool := has_queue_service w && sx_has_routing_flag_service ctx.

(** [_coerce_caller_pane_key] *)
Definition coerce_caller_pane_key (pane : params) : outcome (string + pane_key) :=
  let refused : outcome (string + pane_key) := Ok (inl "bad_request"%string) in
  match json_get "pane_composite_key" pane with
  | Some (JObj raw) =>
      let given k := match json_get k raw with None | Some JNull | Some (JStr EmptyString) => false | Some _ => true end in
      if negb (forallb given CALLER_PANE_FIELDS) then refused
      else
        let field k := default JNull (json_get k raw) in
        let text k := py_str repr_of (field k) in
        match obind (py_int (field "tmux_window_index"%string)) (λ wi,
              obind (py_int (field "tmux_pane_index"%string)) (λ pi,
                Ok (PaneCompositeKey (text "container_id"%string) (text "tmux_socket_path"%string)
                      (text "tmux_session_name"%string) wi pi (text "tmux_pane_id"%string)))) with
        | Ok key => Ok (inr key)
        | Raise e => if is_type_or_value_error e then refused else Raise e
        end
  | _ => refused
  end.

(** The agent bound to a pane: from the state database, or without one from the connection of
    the context. *)
Definition agent_of_pane (key : pane_key) : M control (string + option AgentRecord) :=
  if has_state_db w then r ← by_desk (with_conn (at_sql (select_agent_by_pane_key key))); mret (inr r)
  else if sx_has_state_conn ctx then r ← by_desk (at_sql (select_agent_by_pane_key key)); mret (inr r)
  else mret (inl "internal_error"%string).

(** [_resolve_caller_agent] *)
Definition resolve_caller_agent (pane : params) : M control (string + AgentRecord) :=
  key ← ofail (coerce_caller_pane_key pane);
  match (key : string + pane_key) with
  | inl code => mret (inl code)
  | inr key =>
      found ← agent_of_pane key;
      match (found : string + option AgentRecord) with
      | inl code => mret (inl code)
      | inr record =>
          let claim_ok := match json_get "agent_id" pane with
                          | None | Some JNull => true
                          | Some (JStr id) => bool_decide (agent_id <$> record = Some id)
                          | Some _ => false
                          end in
          if negb claim_ok then mret (inl "bad_request"%string)
          else match record with
               | Some a => if active a then mret (inr a) else mret (inl "operator_pane_inactive"%string)
               | None => mret (inl "operator_pane_inactive"%string)
               end
      end
  end.

(** [_queue_error_to_envelope] *)
Definition queue_error_code (e : exn) : option string :=
  match e with QueueServiceError _ code => Some code | _ => None end.
Definition queue_error_to_envelope (e : exn) : M control envelope := closed_or_internal (queue_error_code e).

(** The parameters of a message: target, body, whether and how long to wait. *)
Definition validate_message (ps : params) : option (string * string * bool * option json) :=
  target ← nonempty_text (json_get "target" ps);
  body ← match json_get "body_bytes" ps with Some (JStr s) => b64decode_strict s | _ => None end;
  wait ← match json_get "wait" ps with None => Some true | Some (JBool b) => Some b | Some _ => None end;
  match json_get "wait_timeout_seconds" ps with
  | None | Some JNull => Some (target, body, wait, None)
  | Some v => if wait_timeout_ok v then Some (target, body, wait, Some v) else None
  end.

Definition send_from_pane (sender : AgentRecord) (target body : string) (wait : bool) (timeout : option json)
  : M control SendInputResult :=
  h ← on_daemon (on_app uuid4_hex);
  mode ← (if wait then r ← next_wait; mret (wait_for (ticks <$> timeout) r.1 r.2) else mret no_wait);
  by_queue (send_input sha256_hex redactor envelope_max_bytes default_wait sender target body
              (uuid_str h) mode direct None None).

Definition on_queue_send_input (ps : params) (p : peer) : M control envelope :=
  needing queue_wired
    match parse_caller_pane ps with
    | inl code => error_of code
    | inr None => error_of "sender_not_in_pane"
    | inr (Some pane) =>
        who ← resolve_caller_agent pane;
        match (who : string + AgentRecord) with
        | inl code => error_of (if bool_decide (code = "operator_pane_inactive"%string)
                                then "sender_role_not_permitted"%string else code)
        | inr sender =>
            match validate_message ps with
            | None => error_of "bad_request"
            | Some (target, body, wait, timeout) =>
                attempt (send_from_pane sender target body wait timeout) queue_error_to_envelope (λ res,
                  ok_result (queue_row_to_payload (sent_row res) (excerpt_of redactor body) ++
                             [("waited_to_terminal"%string, JBool (waited_to_terminal res))]))
            end
        end
    end.

(** [params.target] or [params.sender] of a listing, resolved. *)
Definition resolve_filter (k : string) (ps : params) (k' : option string → M control envelope) : M control envelope :=
  match json_get k ps with
  | None | Some JNull => k' None
  | v =>
      match nonempty_text v with
      | None => error_of "bad_request"
      | Some t =>
          match resolve_target_agent_id t with
          | Ok id => k' (Some id)
          | Raise (QueueServiceError TargetResolve code) =>
              queue_error_to_envelope (QueueServiceError TargetResolve code)
          | Raise e => throw e
          end
      end
  end.

(** [state]: absent, or one of the five. *)
Definition state_param (ps : params) : option (option QState) :=
  match json_get "state" ps with
  | None | Some JNull => Some None
  | Some (JStr s) => Some <$> table_get QUEUE_STATES s
  | Some _ => None
  end.
(** [limit]: booleans count as integers here. *)
Definition limit_param (ps : params) : option Z :=
  match json_get "limit" ps with
  | None | Some JNull => Some 100
  | Some (JInt z) => if (z <? 1) || (1000 <? z) then None else Some z
  | Some (JBool true) => Some 1
  | Some _ => None
  end.
(** [since], rewritten in the canonical form; [inl code] refuses. *)
Definition since_param (ps : params) : string + option string :=
  match json_get "since" ps with
  | None | Some JNull => inr None
  | Some (JStr s) =>
      match decode s with
      | Some t => match parse_since digit_of_unicode t with
                  | Ok dt => inr (Some (encode (format_iso_ms_utc dt)))
                  | Raise _ => inl "since_invalid_format"%string
                  end
      | None => inl "since_invalid_format"%string
      end
  | Some _ => inl "bad_request"%string
  end.
Definition origin_param (ps : params) : option (option string) :=
  match json_get "origin" ps with
  | None | Some JNull => Some None
  | Some (JStr s) => if bool_decide (s ∈ ["direct"; "route"]%string) then Some (Some s) else None
  | Some _ => None
  end.

(** The excerpt of every row, each from the stored body. *)
Fixpoint with_excerpts (rows : list QueueRow) : M control (list json) :=
  match rows with
  | [] => mret []
  | r :: rest =>
      x ← by_queue (read_envelope_excerpt redactor (message_id r));
      l ← with_excerpts rest;
      mret (JObj (queue_row_to_payload r x) :: l)
  end.

Definition on_queue_list (ps : params) (p : peer) : M control envelope :=
  needing queue_wired
    match state_param ps, limit_param ps with
    | Some st, Some limit =>
        resolve_filter "target" ps (λ target,
        resolve_filter "sender" ps (λ sender,
        match since_param ps with
        | inl code => error_of code
        | inr since =>
            match origin_param ps with
            | None => error_of "queue_origin_invalid"
            | Some org =>
                attempt (by_queue (on_db (list_rows (QueueDao.mkFilter st target sender since (Some limit) org))))
                  queue_error_to_envelope (λ rows,
                  l ← with_excerpts rows;
                  ok_result [("rows", JArr l); ("next_cursor", JNull)]%string)
            end
        end))
    | _, _ => error_of "bad_request"
    end.

(** [_resolve_operator_identity] *)
Definition resolve_operator_identity (ps : params) (p : peer) : M control (string + string) :=
  match parse_caller_pane ps with
  | inl code => mret (inl code)
  | inr None =>
      if peer_is_host_process p then mret (inr HOST_OPERATOR_SENTINEL) else mret (inl "bad_request"%string)
  | inr (Some pane) =>
      who ← resolve_caller_agent pane;
      mret match (who : string + AgentRecord) with inl code => inl code | inr a => inr (agent_id a) end
  end.

(** [_queue_operator_action] *)
Definition queue_operator_action (run : string → string → M world QueueRow) (ps : params) (p : peer)
  : M control envelope :=
  needing queue_wired
    match nonempty_text (json_get "message_id" ps) with
    | None => error_of "bad_request"
    | Some mid =>
        who ← resolve_operator_identity ps p;
        match (who : string + string) with
        | inl code => error_of code
        | inr operator =>
            attempt (by_queue (run mid operator)) queue_error_to_envelope (λ row,
              x ← by_queue (read_envelope_excerpt redactor (message_id row));
              ok_result (queue_row_to_payload row x))
        end
    end.

Definition on_queue_approve := queue_operator_action approve.
Definition on_queue_delay := queue_operator_action delay.
Definition on_queue_cancel := queue_operator_action cancel.

(** ** routing.* *)

Definition toggle_payload (t : ToggleResult) : params :=
  [("previous_value", JStr (previous_value t)); ("current_value", JStr (current_value t));
   ("changed", JBool (changed t)); ("last_updated_at", JStr (last_updated_at_ t));
   ("last_updated_by", JStr (last_updated_by_ t))]%string.

Definition on_routing_toggle (value : string) (ps : params) (p : peer) : M control envelope :=
  needing queue_wired
    (r ← by_queue (routing_toggle (sx_daemon_uid ctx) (pane_kind ps) p value);
     match (r : response ToggleResult) with
     | make_ok t => ok_result (toggle_payload t)
     | make_error code => error_of code
     end).
Definition on_routing_enable := on_routing_toggle "enabled".
Definition on_routing_disable := on_routing_toggle "disabled".

Definition on_routing_status (ps : params) (p : peer) : M control envelope :=
  needing queue_wired
    (r ← by_queue routing_status;
     match (r : response (string * string * string)) with
     | make_ok f => ok_result (flag_block (Some f))
     | make_error code => error_of code
     end).

(** ** routes.* *)

(** [_map_route_error] *)
Definition map_route_error (e : exn) : M control envelope :=
  match e with RouteError code => error_of code | _ => error_of "internal_error" end.

Definition routes_needed (m : M control envelope) : M control envelope :=
  if has_routes_service w then m else error_of "daemon_unavailable".

(** The request of [routes.add], when every field is of the type the service takes. *)
Definition route_request_of (ps : params) : option RouteRequest :=
  et ← rule_text (json_get "event_type" ps) EmptyString;
  sk ← rule_text (json_get "source_scope_kind" ps) "any"; sv ← value_text (json_get "source_scope_value" ps);
  tr ← rule_text (json_get "target_rule" ps) EmptyString; tv ← value_text (json_get "target_value" ps);
  mr ← rule_text (json_get "master_rule" ps) "auto"; mv ← value_text (json_get "master_value" ps);
  tmpl ← match json_get "template" ps with None => Some EmptyString | Some (JStr s) => Some s | Some _ => None end;
  Some (mkRequest et sk sv tr tv mr mv tmpl (Some HOST_OPERATOR_SENTINEL)).

Definition on_routes_add (ps : params) (p : peer) : M control envelope :=
  routes_needed
    (attempt (by_router (match route_request_of ps with Some q => add_route q | None => add_route_untyped end))
       map_route_error (λ row, ok_result (route_row_to_payload row))).

Definition on_routes_list (ps : params) (p : peer) : M control envelope :=
  routes_needed
    (attempt (by_router (service_list_routes (truthy (default (JBool false) (json_get "enabled_only" ps)))))
       map_route_error (λ rows,
         ok_result [("routes"%string, JArr ((λ r, JObj (route_row_to_payload r)) <$> rows))])).

Definition on_routes_show (ps : params) (p : peer) : M control envelope :=
  routes_needed
    (attempt (id ← ofail (bound_id (json_get "route_id" ps)); by_router (show_route id)) map_route_error (λ x,
       let rt := snd x in
       ok_result (route_row_to_payload (fst x) ++
         [("runtime"%string,
           JObj [("last_routing_cycle_at", opt_str (rt_last_routing_cycle_at rt));
                 ("events_consumed", JInt (rt_events_consumed rt));
                 ("last_skip_reason", opt_str (rt_last_skip_reason rt));
                 ("last_skip_at", opt_str (rt_last_skip_at rt))]%string)]))).

(** The three changes of a route, and their answer. *)
Definition route_change {A} (operation : string) (run : string → M router A) (ps : params) : M control envelope :=
  routes_needed
    (attempt (id ← ofail (bound_id (json_get "route_id" ps)); by_router (run id)) map_route_error (λ _,
       at_ ← by_queue now_iso;
       ok_result [("route_id", given_id (json_get "route_id" ps)); ("operation", JStr operation);
                  ("at", JStr at_)]%string)).

Definition on_routes_remove (ps : params) (p : peer) : M control envelope :=
  route_change "removed" (λ id, remove_route id (Some HOST_OPERATOR_SENTINEL)) ps.
Definition on_routes_enable (ps : params) (p : peer) : M control envelope :=
  route_change "enabled" (λ id, enable_route id (Some HOST_OPERATOR_SENTINEL)) ps.
Definition on_routes_disable (ps : params) (p : peer) : M control envelope :=
  route_change "disabled" (λ id, disable_route id (Some HOST_OPERATOR_SENTINEL)) ps.

(** ** The table *)

Definition legacy_handlers : list (string * (params → peer → M control envelope)) :=
  [("ping", on_ping); ("status", on_status); ("shutdown", on_shutdown);
   ("scan_containers", on_scan_containers); ("list_containers", on_list_containers);
   ("scan_panes", on_scan_panes); ("list_panes", on_list_panes);
   ("register_agent", on_register_agent); ("list_agents", on_list_agents); ("set_role", on_set_role);
   ("set_label", on_set_label); ("set_capability", on_set_capability);
   ("attach_log", on_attach_log); ("detach_log", on_detach_log);
   ("attach_log_status", on_attach_log_status); ("attach_log_preview", on_attach_log_preview);
   ("events.list", on_events_list); ("events.follow_open", on_events_follow_open);
   ("events.follow_next", on_events_follow_next); ("events.follow_close", on_events_follow_close);
   ("events.classifier_rules", on_events_classifier_rules);
   ("queue.send_input", on_queue_send_input); ("queue.list", on_queue_list);
   ("queue.approve", on_queue_approve); ("queue.delay", on_queue_delay); ("queue.cancel", on_queue_cancel);
   ("routing.enable", on_routing_enable); ("routing.disable", on_routing_disable);
   ("routing.status", on_routing_status);
   ("routes.add", on_routes_add); ("routes.list", on_routes_list); ("routes.show", on_routes_show);
   ("routes.remove", on_routes_remove); ("routes.enable", on_routes_enable);
   ("routes.disable", on_routes_disable)]%string.
End Methods.
