(* ===== verification/SocketServer.v ===== *)
(** The control socket (src/src/agenttower/socket_api/server.py) and its client (client.py): one
    request line, one answer, for each connection.

    A connection is the bytes the peer sends before it stops, and what the kernel says about the
    peer.  Text is UTF-8, and so is JSON.  [decode_message] is the message of a [JSONDecodeError].
    The prose of error messages is left out; [response_line] takes it as an argument. *)

From S2P Require Import Prelude Errors Agents Permissions Store Utf8 Envelope KillSwitch Lookups Routes Json Session Tower Validation JsonParse Desk TmuxAdapter DockerAdapter AppContract AppCursor AppScans AppDaemon AppMutations AppReads AppDashboard AppClaims SocketMethods.
From Stdlib Require Import Ascii.

Local Open Scope Z_scope.

(** ** Framing *)

Definition MAX_REQUEST_BYTES : Z := 65536.

(** At most [n] bytes, up to and with the first newline. *)
Fixpoint take_line (n : nat) (s : string) : string :=
  match n, s with
  | S n', String c s' => if bool_decide (c = newline) then String c EmptyString else String c (take_line n' s')
  | _, _ => EmptyString
  end.

(** [rfile.readline(MAX_REQUEST_BYTES + 1)] *)
Definition read_line (stream : string) : string := take_line (Z.to_nat (MAX_REQUEST_BYTES + 1)) stream.

Definition quoted (s : string) : string := String quote_mark (s +:+ String quote_mark EmptyString).
Definition in_quotes (s : string) : string := String quote_mark s.

(** [_line_looks_like_app_method] *)
Definition line_looks_like_app_method (line : string) : bool :=
  let head := String.substring 0 2048 line in
  Text.contains (quoted "method" +:+ ":" +:+ in_quotes "app.") head ||
  Text.contains (quoted "method" +:+ ": " +:+ in_quotes "app.") head.

Inductive reply := Legacy (e : response params) | App (e : app_envelope).

Definition legacy_error (code : string) : reply := Legacy (make_error code).
(** [_make_malformed_request_envelope], [_make_payload_too_large_envelope],
    [_make_host_only_envelope], [_make_unknown_app_method_envelope] *)
Definition malformed_request (reason : string) : reply := App (Failure "malformed_request" [("reason"%string, JStr reason)]).
Definition payload_too_large (observed : Z) : reply :=
  App (Failure "payload_too_large" [("size_limit_bytes", JInt MAX_REQUEST_BYTES); ("actual_size_bytes", JInt observed)]%string).
Definition host_only : reply := App (Failure "host_only" []).
Definition unknown_app_method : reply := App (Failure "unknown_method" []).

Definition has_byte (c : ascii) (s : string) : bool := negb (Text.all (λ x, negb (bool_decide (x = c))) s).

Fixpoint drop_spaces (t : text) : text :=
  match t with cp :: t' => if is_space cp then drop_spaces t' else t | [] => [] end.

Section Framing.
Variable to_float : string → string * option Z.
Variable decode_message : string → string.

(** The answer to a line that is not a request, or the method and its parameters. *)
Definition request_of (request : json) (rest : string) : reply + (string * params) :=
  let trailing := match decode rest with Some t => negb (forallb is_space t) | None => true end in
  let method := match request with JObj o => json_get "method" o | _ => None end in
  if trailing then
    inl match method with
        | Some (JStr m) => if is_app_method m then malformed_request "trailing content" else legacy_error "bad_request"
        | _ => legacy_error "bad_request"
        end
  else
    match request with
    | JObj o =>
        match nonempty_text method with
        | None => inl (legacy_error "bad_request")
        | Some m =>
            match default (JObj []) (json_get "params" o) with
            | JObj ps => inr (m, ps)
            | _ => inl (legacy_error "bad_request")
            end
        end
    | _ => inl (legacy_error "bad_request")
    end.

(** [_read_and_dispatch] up to the dispatch; an error of the decoder that is not a
    [JSONDecodeError] leaves it. *)
Definition parse_request (line : string) : outcome (reply + (string * params)) :=
  let by_kind reason code : outcome (reply + (string * params)) :=
    Ok (inl (if line_looks_like_app_method line then malformed_request reason else legacy_error code)) in
  let size := Z.of_nat (String.length line) in
  if size =? 0 then Ok (inl (legacy_error "bad_json"))
  else if MAX_REQUEST_BYTES <? size then
    Ok (inl (if line_looks_like_app_method line then payload_too_large size else legacy_error "request_too_large"))
  else
    let body := String.substring 0 (String.length line - 1) line in
    if negb (bool_decide (line = body +:+ String newline EmptyString))
    then by_kind "missing newline terminator"%string "bad_request"%string
    else if bool_decide (body = EmptyString) then Ok (inl (malformed_request "empty line"))
    else if has_byte "013"%char body then Ok (inl (malformed_request "stray CR"))
    else if has_byte "000"%char body then Ok (inl (malformed_request "embedded NUL"))
    else
      match decode line with
      | None => by_kind "invalid utf-8"%string "bad_json"%string
      | Some t =>
          let text_stripped := encode (drop_spaces t) in
          match parse_value to_float (2 * String.length text_stripped + 2) text_stripped with
          | Ok (request, rest) => Ok (request_of request rest)
          | Raise e =>
              if bool_decide (e = JSONDecodeError)
              then by_kind ("json decode error: " +:+ decode_message text_stripped) "bad_json"%string
              else Raise e
          end
      end.
End Framing.

(** ** What the daemon is given *)

(** Everything outside the repository that the methods use, and the settings of the services. *)
Record externals := mkExternals {
  x_agents : AgentsLookup; x_panes : ContainerPaneLookup;
  x_sha256_hex : string → string; x_redactor : text → option text;
  x_envelope_max_bytes : Z; x_default_wait : Z; x_repr_of : json → string; x_schema_version : Z;
  x_daemon_home : string; x_log_attacher : option LogAttacher; x_add_route_untyped : M router RouteRow;
  x_agent_named : string; x_to_float : string → string * option Z; x_num_eq : json → json → bool;
  x_str_lower : string → string; x_py_gt_other : json → json → outcome bool; x_float_text : string → string;
  x_probe_env : probe_env;
  x_docker : DockerAdapter; x_casefold : string → string; x_rule_provider : M desk (MatchingRule + string);
  x_tmux : TmuxAdapter; x_env_user : option string; x_login : option string;
  x_dump_token : params → string; x_load_token : string → option json;
  x_fromisoformat : string → iso_reading; x_unicode_word : N → bool; x_unicode_digit : N → bool;
  x_digit_of_unicode : N → option N; x_ticks : json → Z; x_second : Z; x_bad_lookup_window : Z;
  x_decode_message : string → string
}.

(** ** Dispatch *)

(** The methods of methods.py and the handlers of the application, as the table binds them. *)
Definition legacy_table (X : externals) (ctx : DaemonContext) : list (string * (params → peer → M control envelope)) :=
  legacy_handlers (L := x_agents X) (CP := x_panes X) (x_sha256_hex X) (x_redactor X) (x_envelope_max_bytes X)
    (x_default_wait X) (x_repr_of X) (x_schema_version X) (x_daemon_home X) (x_log_attacher X) (x_add_route_untyped X)
    (x_to_float X) (x_docker X) (x_casefold X) (x_rule_provider X) (x_tmux X) (x_env_user X) (x_login X)
    (x_dump_token X) (x_load_token X) (x_fromisoformat X) (x_unicode_word X) (x_unicode_digit X)
    (x_digit_of_unicode X) (x_ticks X) (x_second X) (x_bad_lookup_window X) ctx.

Definition app_table (X : externals) (ctx : DaemonContext) (actx : app_ctx)
  : list (string * (json → peer → M daemon app_envelope)) :=
  app_handlers (L := x_agents X) (CP := x_panes X) (x_sha256_hex X) (x_redactor X) (x_envelope_max_bytes X)
    (x_default_wait X) (x_repr_of X) (x_schema_version X) (x_daemon_home X) (x_log_attacher X) (x_add_route_untyped X)
    (x_agent_named X) (x_to_float X) (x_num_eq X) (x_str_lower X) (x_py_gt_other X) (x_float_text X) actx
    (x_probe_env X) (sx_wiring ctx).

Section Server.
Variable X : externals.
Variable ctx : DaemonContext.

Definition app_context (c : control) : app_ctx :=
  mkAppCtx (sx_daemon_version ctx) (sx_schema_version ctx) (ct_shutdown c) (sx_daemon_uid ctx).

(** A scan of the application: until its worker is started, then the wait, then the answer. *)
Definition app_scan (kind : string) (wired : bool) (ps : json) (p : peer) : M control app_envelope :=
  begun ← on_daemon (on_app (scan_dispatch kind wired ps p));
  match (begun : scan_begun * option nat).1 with
  | Answered e => mret e
  | Reporting i => on_daemon (on_app (report_scan i))
  | Waiting i =>
      meanwhile ← next_scan_wait;
      _ ← on_daemon (on_app (modify meanwhile));
      on_daemon (on_app (after_wait i))
  end.

Definition app_method (method : string) (ps : json) (p : peer) (c : control) : option (M control app_envelope) :=
  if bool_decide (method = "app.scan.containers"%string)
  then Some (app_scan "containers" (sx_has_discovery_service ctx) ps p)
  else if bool_decide (method = "app.scan.panes"%string)
  then Some (app_scan "panes" (sx_has_pane_service ctx) ps p)
  else (λ h, on_daemon (h ps p)) <$> od_get method (app_table X ctx (app_context c)).

(** [DISPATCH.get(method)] and the call, or the answer to an unknown name. *)
Definition dispatch_method (method : string) (ps : params) (p : peer) : M control reply :=
  match od_get method (legacy_table X ctx) with
  | Some h => except (e ← h ps p; mret (Legacy e)) (λ _, mret (legacy_error "internal_error"))
  | None =>
      c ← get;
      match app_method method (JObj ps) p c with
      | Some h => e ← wrap_handler h; mret (App e)
      | None =>
          mret (if is_app_method method
                then if is_host_peer p then unknown_app_method else host_only
                else legacy_error "unknown_method")
      end
  end.

(** ** One connection *)

(** [cn_stream] is [None] when reading fails; the credentials are those of [SO_PEERCRED], [-1]
    when there are none. *)
Record connection := mkConnection {
  cn_stream : option string; cn_pid : Z; cn_uid : Z; cn_proc : proc_entry; cn_forced : bool
}.
Definition peer_of (cn : connection) : peer :=
  mkPeer (cn_uid cn) (peer_is_host (cn_forced cn) (cn_pid cn) (cn_proc cn)).

Definition read_and_dispatch (cn : connection) : M control reply :=
  match cn_stream cn with
  | None => mret (legacy_error "internal_error")
  | Some stream =>
      parsed ← ofail (parse_request (x_to_float X) (x_decode_message X) (read_line stream));
      match (parsed : reply + (string * params)) with
      | inl r => mret r
      | inr (method, ps) => dispatch_method method ps (peer_of cn)
      end
  end.

(** [handle]: the peer must run as the daemon's user. *)
Definition uid_mismatch (cn : connection) : bool :=
  negb (cn_uid cn =? NO_PEER_UID) && (0 <=? sx_daemon_uid ctx) && negb (cn_uid cn =? sx_daemon_uid ctx).

Definition handle (cn : connection) : M control reply :=
  if uid_mismatch cn then
    _ ← (if sx_has_lifecycle_logger ctx
         then except (by_desk (at_tower (emit_socket_peer_uid_mismatch (cn_uid cn) (sx_daemon_uid ctx)))) (λ _, mret tt)
         else mret tt);
    mret (legacy_error "internal_error")
  else read_and_dispatch cn.
End Server.

(** ** What goes over the wire *)

(** The object of an answer, with the prose of an error. *)
Definition reply_json (message : string) (r : reply) : json :=
  match r with
  | Legacy (make_ok result) => JObj [("ok", JBool true); ("result", JObj result)]%string
  | Legacy (make_error code) =>
      JObj [("ok", JBool false); ("error", JObj [("code", JStr code); ("message", JStr message)])]%string
  | App e => wire message e
  end.

(** [_write_response] *)
Definition response_line (message : string) (r : reply) : string :=
  dumps_spaced (reply_json message r) +:+ String newline EmptyString.

(** The request of [send_request]. *)
Definition request_object (method : string) (ps : option params) : params :=
  ("method"%string, JStr method) :: match ps with Some o => [("params"%string, JObj o)] | None => [] end.
Definition request_line (method : string) (ps : option params) : string :=
  dumps_spaced (JObj (request_object method ps)) +:+ String newline EmptyString.

(** [_recv_line]: [sizes] are the sizes of the chunks that [recv] returns, at least one byte each
    until the stream ends. *)
Definition RECV_CHUNK : nat := Z.to_nat 4096.
Definition MAX_RESPONSE_BYTES : nat := Z.to_nat 65536.
Fixpoint recv_loop (fuel : nat) (sizes : list nat) (buf stream : string) : string :=
  match fuel with
  | O => buf
  | S f =>
      let most := Nat.min RECV_CHUNK (MAX_RESPONSE_BYTES - String.length buf + 1) in
      let n := Nat.max 1 (Nat.min (default most (head sizes)) most) in
      let chunk := String.substring 0 n stream in
      if bool_decide (chunk = EmptyString) then buf
      else
        let buf' := buf +:+ chunk in
        if has_byte newline buf' then take_line (String.length buf') buf'
        else if bool_decide (MAX_RESPONSE_BYTES < String.length buf')%nat then buf'
        else recv_loop f (tail sizes) buf' (Text.drop n stream)
  end.
Definition recv_line (sizes : list nat) (stream : string) : string :=
  recv_loop (S (S MAX_RESPONSE_BYTES)) sizes EmptyString stream.

(** What [send_request] makes of the answer. *)
Inductive client_result :=
| Result (result : params)
| DaemonError (code : string)
| DaemonUnavailable (kind : string).

Section Client.
Variable to_float : string → string * option Z.
Variable repr_of : json → string.

(** [_parse_envelope] and the rest; an error of the decoder that is not caught leaves it. *)
Definition client_answer (data : string) : outcome client_result :=
  let protocol_error : outcome client_result := Ok (DaemonUnavailable "protocol_error") in
  match decode data with
  | None => protocol_error
  | Some _ =>
      if bool_decide (data = EmptyString) then protocol_error
      else
        match loads to_float data with
        | Raise e => if bool_decide (e = JSONDecodeError) then protocol_error else Raise e
        | Ok (JObj env) =>
            match json_get "ok" env with
            | None => protocol_error
            | Some (JBool true) =>
                match default (JObj []) (json_get "result" env) with
                | JObj r => Ok (Result r)
                | _ => protocol_error
                end
            | Some _ =>
                match default (JObj []) (json_get "error" env) with
                | JObj err => Ok (DaemonError (py_str repr_of (default (JStr EmptyString) (json_get "code" err))))
                | _ => Raise (PyError "AttributeError")
                end
            end
        | Ok _ => protocol_error
        end
  end.

(** [_do_connect] and [_do_send_and_recv]: what the kernel says to the connect, and then either an
    [OSError] of the exchange (a timeout among them) or the bytes of the daemon. *)
Inductive transport :=
| FileNotFound | ConnectionRefused | ConnectOSError (errno : Z)
| ExchangeOSError
| Exchanged (sizes : list nat) (stream : string).
Definition EACCES : Z := 13.

Definition send_request (t : transport) : outcome client_result :=
  let unavailable kind : outcome client_result := Ok (DaemonUnavailable kind) in
  match t with
  | FileNotFound => unavailable "socket_missing"%string
  | ConnectionRefused => unavailable "connection_refused"%string
  | ConnectOSError errno =>
      unavailable (if errno =? EACCES then "permission_denied"%string else "connect_timeout"%string)
  | ExchangeOSError => unavailable "connect_timeout"%string
  | Exchanged sizes stream => client_answer (recv_line sizes stream)
  end.
End Client.
