(* ===== verification/SocketClaims.v ===== *)
(** What the control socket guarantees: requests and answers survive the wire, every line gets
    one answer of the closed set, callers from containers are told apart, and followers. *)

From S2P Require Import Prelude Errors Agents Permissions Store Utf8 Envelope AuditWriter LogDao KillSwitch QueueService Lookups Routes RoutingWorker Json Session Tables EventsDao FollowSessions Tower RegistryDao Validation JsonParse Desk AgentsService InTx AgentsClaims LogService LogServiceSpec TmuxAdapter DockerAdapter AppContract AppCursor AppScans AppDaemon AppMutations AppReads AppDashboard AppClaims SocketMethods SocketServer.
From Stdlib Require Import Ascii.

Local Open Scope Z_scope.

(** ** Lines *)

Lemma take_line_app n s t :
  has_byte newline s = false → (String.length s ≤ n)%nat →
  take_line n (s +:+ t) = s +:+ take_line (n - String.length s) t.
Proof.
  revert n. induction s as [|c s IH]; intros n Hs Hn; [by rewrite Nat.sub_0_r|].
  destruct n as [|n]; [cbn in Hn; lia|]. unfold has_byte in Hs. apply negb_false_iff in Hs. cbn in Hs.
  apply andb_true_iff in Hs as [Hc Hs]. apply negb_true_iff in Hc.
  change (String c s +:+ t) with (String c (s +:+ t)). cbn [take_line String.length Nat.sub]. rewrite Hc.
  rewrite IH; [done| |cbn in Hn; lia]. unfold has_byte. by rewrite Hs.
Qed.

Lemma take_line_found n s t :
  has_byte newline s = true → (String.length s ≤ n)%nat →
  take_line n (s +:+ t) = take_line (String.length s) s.
Proof.
  revert n. induction s as [|c s IH]; intros n Hs Hn; [done|].
  destruct n as [|n]; [cbn in Hn; lia|]. change (String c s +:+ t) with (String c (s +:+ t)).
  cbn [take_line String.length]. case_bool_decide as Hc; [done|]. f_equal. apply IH; [|cbn in Hn; lia].
  unfold has_byte in *. cbn in Hs. by rewrite bool_decide_false in Hs by done.
Qed.

Lemma visible_bytes s c : Text.all visible s = true → visible c = false → has_byte c s = false.
Proof.
  intros Hs Hc. unfold has_byte. apply negb_false_iff. revert Hs. induction s as [|x s IH]; [done|]. cbn.
  intros [Hx Hs]%andb_true_iff. rewrite IH, andb_true_r by done. apply negb_true_iff, bool_decide_eq_false. congruence.
Qed.

Lemma substring_len n s : String.length (String.substring 0 n s) = Nat.min n (String.length s).
Proof. revert s. induction n as [|n IH]; intros [|c s]; try done. cbn. by rewrite IH. Qed.

Lemma recv_chunk_pos : (1 ≤ RECV_CHUNK)%nat.
Proof. by apply Nat.leb_le. Qed.

(** Reading in chunks of any sizes gives the line, or as much of it as the client takes. *)
Lemma recv_loop_spec fuel sizes buf stream :
  has_byte newline buf = false → (String.length buf ≤ MAX_RESPONSE_BYTES)%nat →
  (MAX_RESPONSE_BYTES - String.length buf < fuel)%nat →
  recv_loop fuel sizes buf stream = take_line (S MAX_RESPONSE_BYTES) (buf +:+ stream).
Proof.
  revert sizes buf stream. induction fuel as [|fuel IH]; intros sizes buf stream Hb Hl Hf; [lia|].
  cbn [recv_loop]. cbv zeta. set (most := Nat.min RECV_CHUNK _). set (n := Nat.max 1 _).
  assert (Hn : (1 ≤ n ≤ S MAX_RESPONSE_BYTES - String.length buf)%nat).
  { unfold n, most. pose proof recv_chunk_pos. lia. }
  clearbody n. clear most.
  pose proof (substring_drop n stream) as Hs. pose proof (substring_len n stream) as Hsl.
  set (chunk := String.substring 0 n stream) in *. set (rest := Text.drop n stream) in *. clearbody chunk rest.
  case_bool_decide as Hc.
  { subst chunk. cbn in Hsl. assert (stream = EmptyString) as -> by (destruct stream; cbn in Hsl; [done|lia]).
    rewrite (take_line_app _ _ _ Hb) by lia. destruct (S _ - _)%nat; cbn; by rewrite Text.app_empty_r. }
  rewrite <- Hs, <- text_app_assoc. assert (Hlen : (String.length (buf +:+ chunk) ≤ S MAX_RESPONSE_BYTES)%nat).
  { rewrite text_length_app, Hsl. lia. }
  destruct (has_byte newline (buf +:+ chunk)) eqn:Hh; [symmetry; by apply take_line_found|].
  case_bool_decide as Hm.
  - rewrite (take_line_app _ _ _ Hh) by done. replace (S _ - _)%nat with O by lia. cbn. by rewrite Text.app_empty_r.
  - assert (1 ≤ String.length chunk)%nat by (destruct chunk; [done|cbn; lia]).
    apply IH; [done|lia|]. rewrite text_length_app. rewrite text_length_app in Hm. lia.
Qed.

(** However the kernel cuts the answer into chunks, the client reads its first line, up to
    one byte more than the 65536 it accepts. *)
Lemma recv_line_is_line sizes stream : recv_line sizes stream = take_line (S MAX_RESPONSE_BYTES) stream.
Proof. apply recv_loop_spec; [done|cbn; lia|cbn [String.length]; lia]. Qed.

(** ** Requests and answers over the wire *)

(** A printed value and the newline after it. *)
Lemma spaced_visible v : plain is_text v → Text.all visible (dumps_spaced v) = true.
Proof. by apply (dumps_visible " "). Qed.

Lemma spaced_opens v : plain is_text v → ∃ c r, dumps_spaced v = String c r ∧ opens c.
Proof. apply (dumps_opens escape_ascii " "). Qed.

Lemma spaced_decodes v :
  plain is_text v → ∃ t, decode (dumps_spaced v +:+ String newline EmptyString) = Some t.
Proof.
  intros Hp. apply ascii_decodes. rewrite text_all_app. by rewrite (visible_ascii _ (spaced_visible v Hp)).
Qed.

Lemma spaced_reads to_float v rest fuel :
  plain is_text v → (String.length (dumps_spaced v) ≤ fuel)%nat → stops rest = true →
  parse_value to_float fuel (dumps_spaced v +:+ rest) = Ok (v, rest).
Proof. intros. by apply (reads_back_all to_float escape_ascii " " is_text eq_refl scan_escape_ascii v). Qed.

(** The text of a line does not begin with a space. *)
Lemma spaced_unpadded v t :
  plain is_text v → decode (dumps_spaced v +:+ String newline EmptyString) = Some t →
  encode (drop_spaces t) = dumps_spaced v +:+ String newline EmptyString.
Proof.
  intros Hp Ht. pose proof (encode_decode _ _ Ht) as [He _]. rewrite <- He. f_equal.
  destruct (spaced_opens v Hp) as (c & r & E & Hc & _). pose proof (spaced_visible v Hp) as Hv. rewrite E in Hv, Ht.
  cbn in Hv. apply andb_true_iff in Hv as [Hv _]. unfold visible in Hv. apply andb_true_iff in Hv as [H1 H2].
  change (String c r +:+ ?x) with (String c (r +:+ x)) in Ht. cbn [decode] in Ht. cbv zeta in Ht. rewrite H2 in Ht.
  destruct (decode (r +:+ _)) as [t'|]; [|done]. injection Ht as <-. cbn [drop_spaces].
  assert (is_space (code c) = false) as ->; [|done].
  revert Hc H1 H2. clear. by destruct c as [[] [] [] [] [] [] [] []].
Qed.

Lemma parse_line to_float dm v :
  plain is_text v →
  let line := dumps_spaced v +:+ String newline EmptyString in
  Z.of_nat (String.length line) ≤ MAX_REQUEST_BYTES →
  parse_request to_float dm line = Ok (request_of v (String newline EmptyString)).
Proof.
  intros Hp line Hl. destruct (spaced_opens v Hp) as (c & r & E & _). pose proof (spaced_visible v Hp) as Hv.
  assert (Hlen : String.length line = S (String.length (dumps_spaced v))).
  { unfold line. rewrite text_length_app. cbn. lia. }
  unfold parse_request. cbv zeta. rewrite (proj2 (Z.eqb_neq _ _)) by lia. rewrite (proj2 (Z.ltb_ge _ _)) by done.
  assert (String.substring 0 (String.length line - 1) line = dumps_spaced v) as ->.
  { rewrite Hlen. replace (S _ - 1)%nat with (String.length (dumps_spaced v)) by lia. apply substring_app. }
  rewrite bool_decide_eq_true_2 by done. cbn [negb]. rewrite bool_decide_eq_false_2 by (by rewrite E).
  rewrite !(visible_bytes _ _ Hv) by done. destruct (spaced_decodes v Hp) as [t Ht]. unfold line at 1. rewrite Ht.
  rewrite (spaced_unpadded v t Hp Ht). rewrite spaced_reads; [done|done| |done]. rewrite text_length_app. cbn. lia.
Qed.

(** A request the client sends reaches the dispatcher as it was meant, whatever follows it on
    the connection, as long as its line fits in 64 KiB. *)
Lemma requests_arrive to_float dm method ps more :
  method ≠ EmptyString → plain is_text (JObj (request_object method ps)) →
  Z.of_nat (String.length (request_line method ps)) ≤ MAX_REQUEST_BYTES →
  parse_request to_float dm (read_line (request_line method ps +:+ more)) = Ok (inr (method, default [] ps)).
Proof.
  intros Hm Hp Hl. set (body := dumps_spaced (JObj (request_object method ps))).
  assert (Hb : has_byte newline body = false) by (apply visible_bytes; [by apply spaced_visible|done]).
  assert (Hlen : String.length (request_line method ps) = S (String.length body)).
  { unfold request_line. rewrite text_length_app. cbn. unfold body. lia. }
  assert (read_line (request_line method ps +:+ more) = request_line method ps) as ->.
  { unfold read_line, request_line. fold body. rewrite text_app_assoc. unfold MAX_REQUEST_BYTES in *.
    rewrite take_line_app by (done || lia). f_equal.
    destruct (Z.to_nat (65536 + 1) - String.length body)%nat eqn:En; [lia|]. done. }
  unfold request_line in *. rewrite parse_line by done. f_equal. unfold request_of.
  change (decode (String newline EmptyString)) with (Some [10%N]). change (negb (forallb is_space [10%N])) with false.
  cbv iota. assert (json_get "method" (request_object method ps) = Some (JStr method)) as ->.
  { by destruct ps. }
  cbn [nonempty_text]. rewrite bool_decide_eq_false_2 by done. by destruct ps as [o|].
Qed.

(** What the caller of [send_request] gets from an answer. *)
Definition meant (r : reply) : client_result :=
  match r with
  | Legacy (make_ok result) | App (Success result) => Result result
  | Legacy (make_error code) | App (Failure code _) => DaemonError code
  end.

(** An answer the server writes reaches the caller as it was meant, however the kernel cuts
    it, as long as its line fits in 64 KiB. *)
Lemma answers_arrive to_float repr_of message r sizes more :
  plain is_text (reply_json message r) →
  (String.length (response_line message r) ≤ S MAX_RESPONSE_BYTES)%nat →
  send_request to_float repr_of (Exchanged sizes (response_line message r +:+ more)) = Ok (meant r).
Proof.
  intros Hp Hl. set (body := dumps_spaced (reply_json message r)).
  assert (Hb : has_byte newline body = false) by (apply visible_bytes; [by apply spaced_visible|done]).
  assert (Hlen : String.length (response_line message r) = S (String.length body)).
  { unfold response_line. rewrite text_length_app. cbn. unfold body. lia. }
  unfold send_request. assert (recv_line sizes (response_line message r +:+ more) = response_line message r) as ->.
  { rewrite recv_line_is_line. unfold response_line. fold body. rewrite text_app_assoc.
    rewrite take_line_app by (done || lia). f_equal. by destruct (S MAX_RESPONSE_BYTES - String.length body)%nat eqn:En; [lia|]. }
  unfold client_answer. cbv zeta. destruct (spaced_decodes _ Hp) as [t Ht]. unfold response_line. rewrite Ht.
  destruct (spaced_opens _ Hp) as (c & x & E & Hc & _).
  rewrite bool_decide_eq_false_2 by (by rewrite E).
  assert (loads to_float (dumps_spaced (reply_json message r) +:+ String newline EmptyString) = Ok (reply_json message r)) as ->.
  { unfold loads. rewrite E. change (String c x +:+ ?y) with (String c (x +:+ y)).
    pose proof (spaced_visible _ Hp) as Hv. rewrite E in Hv. cbn in Hv. apply andb_true_iff in Hv as [Hv _].
    rewrite literal_not; [|intros Hb2; cbn in Hb2; subst c; by vm_compute in Hv]. rewrite skip_char by done.
    change (String c (x +:+ ?y)) with (String c x +:+ y). rewrite <- E.
    rewrite spaced_reads; [done|done| |done]. rewrite text_length_app. cbn. lia. }
  destruct r as [[result|code]|[result|code details]]; reflexivity.
Qed.

(** The server does not bound its answers, and the client stops after 64 KiB: what a longer
    answer said is lost. *)
Fixpoint letters (n : nat) : string := match n with O => EmptyString | S n' => String "a"%char (letters n') end.

Lemma letters_length n : String.length (letters n) = n.
Proof. induction n; cbn; congruence. Qed.
Lemma letters_scan n : scan_string (letters n) = None.
Proof.
  induction n as [|n IH]; [done|]. cbn [letters scan_string].
  rewrite !bool_decide_eq_false_2 by done. change (N_of_ascii "a" <? 32)%N with false. cbv iota. by rewrite IH.
Qed.
Lemma letters_take k n t : (k ≤ n)%nat → take_line k (letters n +:+ t) = letters k.
Proof.
  revert n. induction k as [|k IH]; intros [|n] Hk; try done; [lia|].
  change (letters (S n) +:+ t) with (String "a"%char (letters n +:+ t)). cbn [take_line letters].
  rewrite bool_decide_eq_false_2 by done. f_equal. apply IH. lia.
Qed.
Lemma letters_text n : is_text (letters n).
Proof. apply ascii_decodes. induction n; [done|]. cbn. done. Qed.
Lemma letters_escape n : escape_ascii (letters n) = letters n.
Proof. induction n as [|n IH]; [done|]. cbn [letters escape_ascii]. cbv zeta. rewrite IH. done. Qed.

(** A member whose value does not parse. *)
Lemma members_raise to_float f k text e :
  is_text k → parse_value to_float f (skip_ws text) = Raise e →
  parse_members to_float (S f) (print_string escape_ascii k +:+ ":" +:+ text) = Raise e.
Proof.
  intros Hk Hv. unfold print_string. change (String quote_mark ?r +:+ ?u) with (String quote_mark (r +:+ u)).
  cbn [parse_members]. rewrite bool_decide_eq_true_2 by done. rewrite text_app_assoc.
  change (String quote_mark EmptyString +:+ ?u) with (String quote_mark u). rewrite scan_escape_ascii by done.
  change (":" +:+ ?u) with (String ":"%char u). rewrite skip_char by done. rewrite bool_decide_eq_true_2 by done.
  by rewrite Hv.
Qed.

Lemma cut_object to_float f k v rest e :
  is_text k → plain is_text v → (String.length (dumps_spaced v) ≤ f)%nat →
  parse_members to_float f rest = Raise e → skip_ws rest = rest →
  parse_value to_float (S (S f)) ("{" +:+ print_string escape_ascii k +:+ ": " +:+ dumps_spaced v +:+ ", " +:+ rest) = Raise e.
Proof.
  intros Hk Hp Hf Hr Hs. change ("{" +:+ ?x) with (String "{"%char x). cbn [parse_value].
  rewrite bool_decide_eq_false_2, bool_decide_eq_true_2 by done.
  unfold print_string at 1. change (String quote_mark ?r +:+ ?u) with (String quote_mark (r +:+ u)).
  rewrite skip_char by done. rewrite bool_decide_eq_false_2 by done.
  change (String quote_mark (?r +:+ ?u)) with (String quote_mark r +:+ u). fold (print_string escape_ascii k).
  pose proof (member_step to_float escape_ascii " " is_text eq_refl scan_escape_ascii f k v (", " +:+ rest)
    (reads_back_all to_float escape_ascii " " is_text eq_refl scan_escape_ascii v) Hk Hp Hf eq_refl) as Hm.
  cbn [dump_member] in Hm. rewrite !text_app_assoc in Hm.
  change (": " +:+ ?x) with (":" +:+ " " +:+ x). unfold dumps_spaced, dumps_spaced_with. rewrite Hm.
  change (", " +:+ rest) with (String ","%char (String " "%char rest)). rewrite skip_char by done.
  rewrite bool_decide_eq_false_2, bool_decide_eq_true_2 by done.
  change (skip_ws (String " "%char rest)) with (skip_ws rest). rewrite Hs, Hr. done.
Qed.

(** The beginning of an answer with one long text. *)
Definition long_head : string :=
  "{" +:+ quoted "ok" +:+ ": " +:+ "true" +:+ ", " +:+ quoted "result" +:+ ": {" +:+ quoted "lines" +:+ ": " +:+
  String quote_mark EmptyString.
Definition long_answer (n : nat) : reply := Legacy (make_ok [("lines"%string, JStr (letters n))]).

Lemma long_line n : ∃ t, response_line EmptyString (long_answer n) = long_head +:+ letters n +:+ t.
Proof.
  exists (String quote_mark (String "}" (String "}" (String newline EmptyString)))).
  unfold response_line, dumps_spaced, dumps_spaced_with, long_head, long_answer.
  cbn [reply_json dumps_sep List.map join_with]. unfold print_string. rewrite letters_escape, !text_app_assoc.
  change (String quote_mark (letters n +:+ ?a) +:+ ?b) with (String quote_mark ((letters n +:+ a) +:+ b)).
  by rewrite text_app_assoc.
Qed.

Lemma long_cut to_float k f :
  parse_value to_float (S (S (S (S (S (S (S (S f)))))))) (long_head +:+ letters k) = Raise JSONDecodeError.
Proof.
  rewrite (cut_object to_float _ "ok" (JBool true) (quoted "result" +:+ ": {" +:+ quoted "lines" +:+ ": " +:+
    String quote_mark (letters k)) JSONDecodeError); [done|by eexists|done|cbn; lia| |done].
  apply (members_raise to_float _ "result" (" {" +:+ quoted "lines" +:+ ": " +:+ String quote_mark (letters k))); [by eexists|].
  change (skip_ws (" {" +:+ ?x)) with (String "{"%char x). cbn [parse_value].
  rewrite bool_decide_eq_false_2, bool_decide_eq_true_2 by done.
  change (skip_ws (quoted "lines" +:+ ?y)) with (print_string escape_ascii "lines" +:+ y).
  pose proof (members_raise to_float (S (S (S f))) "lines" (" " +:+ String quote_mark (letters k)) JSONDecodeError) as Hl.
  destruct (print_string escape_ascii "lines" +:+ ": " +:+ String quote_mark (letters k)) as [|c r] eqn:Ec; [done|].
  assert (c ≠ "}"%char) by (injection Ec as <- _; done). rewrite bool_decide_eq_false_2 by done.
  change (":" +:+ " " +:+ ?y) with (": " +:+ y) in Hl. rewrite Ec in Hl. rewrite Hl; [done|by eexists|].
  change (skip_ws (" " +:+ String quote_mark (letters k))) with (String quote_mark (letters k)). cbn [parse_value].
  rewrite bool_decide_eq_true_2 by done. by rewrite letters_scan.
Qed.

Lemma long_unreadable to_float repr_of k :
  client_answer to_float repr_of (long_head +:+ letters k) = Ok (DaemonUnavailable "protocol_error").
Proof.
  assert (Ha : all_ascii (long_head +:+ letters k) = true).
  { rewrite text_all_app. change (all_ascii long_head) with true. simpl. clear. induction k; [done|]. cbn. done. }
  unfold client_answer. cbv zeta. destruct (ascii_decodes _ Ha) as [x ->].
  rewrite bool_decide_eq_false_2 by done.
  assert (loads to_float (long_head +:+ letters k) = Raise JSONDecodeError) as ->; [|done].
  unfold loads. change (Text.startswith BOM (long_head +:+ letters k)) with false.
  change (skip_ws (long_head +:+ letters k)) with (long_head +:+ letters k). cbv iota.
  replace (2 * String.length (long_head +:+ letters k) + 2)%nat
    with (S (S (S (S (S (S (S (S (62 + 2 * k)))))))))%nat; [by rewrite long_cut|].
  rewrite text_length_app, letters_length. change (String.length long_head) with 34%nat. lia.
Qed.

Example long_answers_are_lost to_float repr_of sizes n :
  (MAX_RESPONSE_BYTES ≤ n)%nat →
  send_request to_float repr_of (Exchanged sizes (response_line EmptyString (long_answer n))) =
    Ok (DaemonUnavailable "protocol_error").
Proof.
  intros Hn. unfold send_request. rewrite recv_line_is_line. destruct (long_line n) as [t ->].
  assert (H34 : String.length long_head = 34%nat) by done.
  rewrite take_line_app; [|done|rewrite H34; unfold MAX_RESPONSE_BYTES; lia].
  rewrite letters_take by lia. apply long_unreadable.
Qed.

(** ** Codes *)

(** Every error of [m] has a code of the closed set. *)
Definition closed {S} (m : M S envelope) : Prop :=
  ∀ s, match (m s).1 with Ok (make_error code) => code ∈ CLOSED_CODE_SET | _ => True end.

Lemma closed_ok {S} r : closed (S := S) (ok_result r).
Proof. by intros s. Qed.
Lemma closed_error {S} code : closed (S := S) (error_of code).
Proof. intros s. unfold error_of. by case_bool_decide. Qed.
Lemma closed_throw {S} e : closed (S := S) (throw e).
Proof. by intros s. Qed.
Lemma closed_bind {S A} (m : M S A) k : (∀ a, closed (k a)) → closed (m ≫= k).
Proof. intros H s. unfold mbind, M_bind. destruct (m s) as [[a|e] s']; [apply H|done]. Qed.
Lemma closed_attempt {S A} (m : M S A) answer k :
  (∀ e, closed (answer e)) → (∀ a, closed (k a)) → closed (attempt m answer k).
Proof. intros Ha Hk. unfold attempt. apply closed_bind. intros [e|a]; auto. Qed.
Lemma closed_or_internal_closed {S} code : closed (S := S) (closed_or_internal code).
Proof. unfold closed_or_internal. destruct code; [case_bool_decide|]; apply closed_error. Qed.
Lemma closed_needing wired m : closed m → closed (needing wired m).
Proof. destruct wired; [done|]. intros _. apply closed_error. Qed.

Ltac close_step :=
  match goal with
  | |- closed (ok_result _) => apply closed_ok
  | |- closed (error_of _) => apply closed_error
  | |- closed (throw _) => apply closed_throw
  | |- closed (needing _ _) => apply closed_needing
  | |- closed (routes_needed _ _) => unfold routes_needed
  | |- closed (attempt _ _ _) => apply closed_attempt; intros ?
  | |- closed (closed_or_internal _) => apply closed_or_internal_closed
  | |- closed ((_ ∘ _) _) => apply closed_or_internal_closed
  | |- closed (queue_error_to_envelope _) => apply closed_or_internal_closed
  | |- closed (mbind _ _) => apply closed_bind; intros ?
  | |- closed (let _ := _ in _) => cbv zeta
  | |- closed (match ?x with _ => _ end) => destruct x
  | |- closed (dispatch_service _ _ _) => unfold dispatch_service
  | |- closed (bool_param _ _ _ _) => unfold bool_param
  | |- closed (text_or_null _ _ _) => unfold text_or_null
  | |- closed (events_checked _ _ _ _ _) => unfold events_checked
  | |- closed (resolve_filter _ _ _) => unfold resolve_filter
  | |- closed (session_param _ _ _) => unfold session_param
  | |- closed (unknown_session _) => unfold unknown_session
  | |- closed (follow_answer _ _) => unfold follow_answer
  | |- closed (map_route_error _) => unfold map_route_error
  | |- closed (route_change _ _ _ _) => unfold route_change
  | |- closed (queue_operator_action _ _ _ _ _ _) => unfold queue_operator_action
  end.
Ltac close := repeat (cbv beta; close_step).

Section Codes.
Variable X : externals.
Variable ctx : DaemonContext.

Lemma closed_follow_loop dump load second id deadline polls s :
  closed (follow_loop dump load second ctx id deadline polls s).
Proof.
  revert s. induction polls as [|[now meanwhile] polls IH]; intros s; cbn [follow_loop]; close. apply IH.
Qed.

Lemma table_closed : Forall (λ mh, ∀ ps p, closed (mh.2 ps p)) (legacy_table X ctx).
Proof.
  unfold legacy_table, legacy_handlers. repeat constructor; cbn [snd]; intros ps p.
  all: match goal with |- closed (?h _ _) => let g := get_head h in unfold g end.
  all: try unfold on_routing_toggle.
  all: close.
  all: try apply closed_follow_loop.
Qed.

(** ** Answers *)

Definition DECODER_ERRORS : list exn := [JSONDecodeError; PyError "ValueError"].

Lemma literal_errors tf s e : scan_literal tf s = Raise e → e ∈ DECODER_ERRORS.
Proof.
  unfold scan_literal. cbv zeta. unfold number_at, scan_number. intros H. repeat case_match; simplify_eq/=; set_solver.
Qed.

Lemma decoder_errors tf fuel :
  (∀ s e, parse_value tf fuel s = Raise e → e ∈ DECODER_ERRORS) ∧
  (∀ s e, parse_elements tf fuel s = Raise e → e ∈ DECODER_ERRORS) ∧
  (∀ s e, parse_members tf fuel s = Raise e → e ∈ DECODER_ERRORS).
Proof.
  induction fuel as [|fuel (IHv & IHe & IHm)]; [split_and!; intros s e [= <-]; set_solver|].
  split_and!; intros s e; cbn [parse_value parse_elements parse_members]; unfold obind.
  - repeat case_match; intros; simplify_eq/=; try set_solver; eauto using literal_errors.
  - repeat case_match; intros; simplify_eq/=; try set_solver; eauto.
  - repeat case_match; intros; simplify_eq/=; try set_solver; eauto.
Qed.

Definition proper (r : reply) : Prop :=
  match r with
  | Legacy (make_ok _) => True
  | Legacy (make_error code) => code ∈ CLOSED_CODE_SET
  | App e => well_formed e
  end.

Lemma legacy_proper code : bool_decide (code ∈ CLOSED_CODE_SET) = true → proper (legacy_error code).
Proof. apply bool_decide_eq_true_1. Qed.
Lemma app_proper code details e : failure code details = Ok e → proper (App e).
Proof. apply failure_well_formed. Qed.
Lemma malformed_proper reason : proper (malformed_request reason).
Proof. by apply (app_proper "malformed_request" [("reason"%string, JStr reason)]). Qed.

Lemma request_of_proper v rest : match request_of v rest with inl r => proper r | inr _ => True end.
Proof.
  assert (Hb : proper (legacy_error "bad_request")) by by apply legacy_proper.
  unfold request_of. destruct (match decode rest with Some t => _ | None => true end).
  - destruct v as [| | | | | |o]; try exact Hb. destruct (json_get "method" o) as [[| | | |m| |]|]; try exact Hb.
    destruct (is_app_method m); [apply malformed_proper|exact Hb].
  - destruct v as [| | | | | |o]; try exact Hb. destruct (nonempty_text _) as [m|]; [|exact Hb].
    destruct (default _ _); try exact Hb. exact I.
Qed.

Lemma parse_request_proper tf dm line :
  match parse_request tf dm line with
  | Ok (inl r) => proper r
  | Ok (inr _) => True
  | Raise e => e = PyError "ValueError"
  end.
Proof.
  assert (Hl : ∀ code, bool_decide (code ∈ CLOSED_CODE_SET) = true → proper (legacy_error code)) by apply legacy_proper.
  assert (Hk : ∀ b reason code, bool_decide (code ∈ CLOSED_CODE_SET) = true →
    proper (if b : bool then malformed_request reason else legacy_error code)).
  { intros [] **; [apply malformed_proper|by apply Hl]. }
  unfold parse_request. cbv zeta.
  destruct (Z.of_nat (String.length line) =? 0); [by apply Hl|].
  destruct (MAX_REQUEST_BYTES <? _).
  { destruct (line_looks_like_app_method line); [|by apply Hl].
    by apply (app_proper "payload_too_large" [("size_limit_bytes"%string, JInt MAX_REQUEST_BYTES);
      ("actual_size_bytes"%string, JInt (Z.of_nat (String.length line)))]). }
  destruct (negb _); [by apply Hk|]. destruct (bool_decide _); [apply malformed_proper|].
  destruct (has_byte _ _); [apply malformed_proper|]. destruct (has_byte _ _); [apply malformed_proper|].
  destruct (decode line) as [t|]; [|by apply Hk].
  destruct (parse_value tf _ _) as [[v rest]|e] eqn:E.
  - apply request_of_proper.
  - apply (proj1 (decoder_errors tf _)) in E. case_bool_decide as Hj; [by apply Hk|].
    unfold DECODER_ERRORS in E. rewrite !elem_of_cons in E. destruct E as [->|[->|E]]; [done|done|by apply elem_of_nil in E].
Qed.

(** *** The application's methods *)

Lemma app_entry_lawful actx method h ps p :
  od_get method (app_table X ctx actx) = Some h → lawful (h ps p).
Proof. intros H. by apply (handler_behaves _ _ _ _ _ _ _ _ _ _ _ _ _ _ _ _ _ _ method h) in H; apply H. Qed.

Lemma lawful_on_daemon m : lawful m → lawful (on_daemon m).
Proof. intros H c. unfold on_daemon, zoom. specialize (H (ct_daemon c)). by destruct (m (ct_daemon c)) as [[e|e] d]. Qed.
Lemma lawful_within m : lawful m → lawful (on_daemon (on_app m)).
Proof. intros H. by apply lawful_on_daemon, lawful_on_app. Qed.

Definition begun_lawful (m : M app (scan_begun * option nat)) : Prop :=
  ∀ a, match (m a).1 with Ok (Answered e, _) => well_formed e | _ => True end.

Lemma begun_answer m w : lawful m → begun_lawful (e ← m; mret (Answered e, w)).
Proof. intros H a. specialize (H a). unfold mbind, M_bind. by destruct (m a) as [[e|e] b]. Qed.
Lemma begun_bind {A} (m : M app A) k : (∀ a, begun_lawful (k a)) → begun_lawful (m ≫= k).
Proof. intros H a. unfold mbind, M_bind. destruct (m a) as [[x|e] b]; [apply H|done]. Qed.

Lemma dispatch_answers_lawful kind wired ps p : begun_lawful (scan_dispatch kind wired ps p).
Proof.
  assert (Hi : ∀ f r, begun_lawful (e ← invalid f r; mret (Answered e, None))).
  { intros. apply begun_answer, lawful_fail. }
  assert (Hn : begun_lawful (e ← internal_error; mret (Answered e, None))).
  { apply begun_answer, lawful_fail. }
  intros a. unfold scan_dispatch. cbv zeta. unfold mbind at 1, M_bind at 1.
  pose proof (gate_well_formed ps p a) as Hg.
  destruct (gate_session_required ps p a) as [[[e|s]|e] b]; [done| |done].
  destruct (default _ _) as [| wait | | | | |]; [exact (Hi "wait"%string "wrong type"%string b)| |
    exact (Hi "wait"%string "wrong type"%string b)..].
  destruct (negb wired); [exact (Hn b)|].
  revert b Hg. cut (∀ m, begun_lawful (st ← m; match st : option (nat * bool) with
    | None => e ← invalid "scan_kind" "too_many_scans_in_flight"; mret (Answered e, None)
    | Some (i, co) => mret (if wait then Waiting i else Reporting i, if co then None else Some i)
    end)); [intros H b _; apply H|].
  intros m. apply begun_bind. intros [[i co]|]; [by destruct wait|apply Hi].
Qed.

Lemma app_scan_lawful kind wired ps p : lawful (app_scan kind wired ps p).
Proof.
  intros c. unfold app_scan, mbind, M_bind. unfold on_daemon at 1, on_app at 1, zoom.
  pose proof (dispatch_answers_lawful kind wired ps p (dm_app (ct_daemon c))) as Ha.
  destruct (scan_dispatch kind wired ps p (dm_app (ct_daemon c))) as [[[b ow]|e] a]; [|done].
  cbn [fst snd] in *. destruct b as [e|i|i]; [done| |].
  - apply (lawful_bind next_scan_wait); intros f. apply lawful_bind; intros _. apply lawful_within.
    unfold after_wait. apply lawful_bind; intros s. destruct (scan_object _ _); [|apply lawful_throw].
    apply lawful_if; [apply lawful_fail|]. apply lawful_bind; intros [|]; [apply lawful_success|apply lawful_fail].
  - apply lawful_within. unfold report_scan. apply lawful_bind; intros s.
    destruct (scan_object _ _); [apply lawful_success|apply lawful_throw].
Qed.

Lemma dispatch_method_proper method ps p c :
  match (dispatch_method X ctx method ps p c).1 with Ok r => proper r | Raise e => e = SystemExit end.
Proof.
  unfold dispatch_method. destruct (od_get method (legacy_table X ctx)) as [h|] eqn:Eh.
  - pose proof table_closed as Ht. rewrite Forall_forall in Ht. specialize (Ht _ (od_get_Some _ _ _ Eh) ps p c).
    cbn [snd] in Ht. unfold except, catch, mbind, M_bind. destruct (h ps p c) as [[e|e] c']; [by destruct e|].
    destruct e; try done; by apply legacy_proper.
  - unfold mbind at 1, M_bind, get. cbv beta iota. destruct (app_method X ctx method (JObj ps) p c) as [h|] eqn:Ea.
    + assert (Hl : lawful h).
      { unfold app_method in Ea. case_bool_decide; [injection Ea as <-; apply app_scan_lawful|].
        case_bool_decide; [injection Ea as <-; apply app_scan_lawful|].
        destruct (od_get method (app_table X ctx _)) as [g|] eqn:Eg; [|done]. injection Ea as <-.
        by eapply lawful_on_daemon, app_entry_lawful. }
      pose proof (lawful_wrap h Hl c) as Hw. pose proof (wrapped_answers h c) as Hr. unfold mbind, M_bind.
      destruct (wrap_handler h c) as [[e|e] c']; [done|]. by apply Hr.
    + simpl. destruct (is_app_method method); [destruct (is_host_peer p)|].
      * by apply (app_proper "unknown_method" []).
      * by apply (app_proper "host_only" []).
      * by apply legacy_proper.
Qed.


(** ** Callers from containers *)

(** [m] answers [host_only] and changes nothing. *)
Definition refuses {S} (m : M S app_envelope) : Prop := ∀ s, m s = (Ok (Failure "host_only" []), s).

Lemma gate_refuses ps p a :
  is_host_peer p = false → gate_session_required ps p a = (Ok (inl (Failure "host_only" [])), a).
Proof. intros Hp. unfold gate_session_required. by rewrite Hp. Qed.

Lemma refuses_on_app m : refuses m → refuses (on_app m).
Proof. intros H d. unfold on_app, zoom. rewrite H. by destruct d. Qed.
Lemma refuses_on_daemon m : refuses m → refuses (on_daemon m).
Proof. intros H c. unfold on_daemon, zoom. rewrite H. by destruct c. Qed.
Lemma refuses_gated ps p body : is_host_peer p = false → refuses (gated (@on_app) ps p body).
Proof.
  intros Hp d. unfold gated, mbind, M_bind, on_app, zoom. rewrite gate_refuses by done. by destruct d.
Qed.
Lemma refuses_app_gated ps p body : is_host_peer p = false → refuses (gated (λ A m, m) ps p body).
Proof. intros Hp a. unfold gated, mbind, M_bind. by rewrite gate_refuses. Qed.

Ltac refuse_step :=
  match goal with
  | |- refuses (gated (@on_app) _ _ _) => by apply refuses_gated
  | |- refuses (gated _ _ _ _) => by apply refuses_app_gated
  | |- refuses (on_app _) => apply refuses_on_app
  | H : is_host_peer ?p = false |- refuses (app_preflight _ _) => intros ?; unfold app_preflight; by rewrite H
  | H : is_host_peer ?p = false |- refuses (app_hello _ _ _) => intros ?; unfold app_hello; by rewrite H
  | |- refuses (?h ?a) => let g := get_head h in unfold g; cbv zeta
  end.

Lemma app_table_refuses actx :
  Forall (λ mh, ∀ ps p, is_host_peer p = false → refuses (mh.2 ps p)) (app_table X ctx actx).
Proof.
  unfold app_table, app_handlers. repeat constructor; cbn [snd]; intros ps p Hp; repeat refuse_step.
Qed.

Lemma app_scan_refuses kind wired ps p : is_host_peer p = false → refuses (app_scan kind wired ps p).
Proof.
  intros Hp c. unfold app_scan, mbind, M_bind. unfold on_daemon at 1, on_app at 1, zoom.
  unfold scan_dispatch, mbind, M_bind. rewrite gate_refuses by done. destruct c as [d]. by destruct d.
Qed.

Lemma legacy_names : Forall (λ mh, is_app_method mh.1 = false) (legacy_table X ctx).
Proof. unfold legacy_table, legacy_handlers. by repeat constructor. Qed.

(** C11: a caller that is not a host process learns nothing of the application's methods: whatever
    name it tries under [app.], known or not, and whatever its parameters, it is told [host_only],
    and nothing changes. *)
Theorem containers_learn_nothing method ps p c :
  is_app_method method = true → is_host_peer p = false →
  dispatch_method X ctx method ps p c = (Ok host_only, c).
Proof.
  intros Hm Hp. unfold dispatch_method. destruct (od_get method (legacy_table X ctx)) as [h|] eqn:Eh.
  { apply od_get_Some in Eh. pose proof legacy_names as Hn. rewrite Forall_forall in Hn.
    apply Hn in Eh. simpl fst in Eh. by rewrite Hm in Eh. }
  unfold mbind at 1, M_bind, get. cbv beta iota.
  destruct (app_method X ctx method (JObj ps) p c) as [m|] eqn:Ea.
  - assert (Hr : refuses m).
    { unfold app_method in Ea. case_bool_decide; [injection Ea as <-; by apply app_scan_refuses|].
      case_bool_decide; [injection Ea as <-; by apply app_scan_refuses|].
      destruct (od_get method (app_table X ctx _)) as [g|] eqn:Eg; [|done]. injection Ea as <-.
      apply od_get_Some in Eg. pose proof (app_table_refuses (app_context ctx c)) as Ht.
      rewrite Forall_forall in Ht. apply refuses_on_daemon. by apply (Ht _ Eg). }
    unfold mbind, M_bind, wrap_handler, except, catch. by rewrite Hr.
  - by rewrite Hm, Hp.
Qed.
End Codes.

(** ** Who is behind a request of the queue *)

Section Identity.
Variable X : externals.
Variable ctx : DaemonContext.
Variable R : relation tower_db.
Context `{!PreOrder R}.

(** The active agent that the registry binds to the pane of the request. *)
Definition bound_agent (pane : params) (d0 : tower_db) (a : AgentRecord) : Prop :=
  ∃ key d, coerce_caller_pane_key (x_repr_of X) pane = Ok (inr key) ∧ R d0 d ∧
    find_agent_by_pane key d = Some a ∧ active a = true.

(** The operator of a request: someone on the host, or the agent of the pane. *)
Definition operator (ps : params) (p : peer) (d0 : tower_db) (who : string) : Prop :=
  (parse_caller_pane ps = inr None ∧ peer_is_host_process p = true ∧ who = HOST_OPERATOR_SENTINEL) ∨
  (∃ pane a, parse_caller_pane ps = inr (Some pane) ∧ bound_agent pane d0 a ∧ who = agent_id a).

Abbreviation registry c := (dk_db (dm_desk (ct_daemon c))).
Abbreviation routed c := (dm_router (ct_daemon c)).

(** [m] leaves the queue alone and answers [V]. *)
Definition finds {A} (m : M control A) (V : tower_db → A → Prop) : Prop := ∀ c,
  resting R (dm_desk (ct_daemon c)) →
  wp m (λ o c', routed c' = routed c ∧ ∀ x, o = Ok x → V (registry c) x) c.

Lemma finds_read {B} (f : tower_db → B) : finds (by_desk (at_sql (Sql.read f))) (λ d0 b, ∃ d, R d0 d ∧ b = f d).
Proof.
  intros c [Ht Hx]. apply wp_zoom, wp_zoom, wp_at_sql, (wp_read R); [done|..].
  - intros x [Q1 Q2 Q3 Q4]. split; [done|]. intros b [= <-]. exists (Sql.view x). split; [|done].
    unfold Sql.view. rewrite Q3, Hx. done.
  - by intros e x _.
Qed.
Lemma finds_lookup {B} (f : tower_db → B) :
  finds (by_desk (with_conn (at_sql (Sql.read f)))) (λ d0 b, ∃ d, R d0 d ∧ b = f d).
Proof.
  intros c Hc. apply wp_zoom, wp_zoom. eapply wp_mono; [|by apply (asks_lookup R f)].
  intros o s [_ H]. by split.
Qed.
Lemma finds_ret {A} (a : A) (V : tower_db → A → Prop) : (∀ d, V d a) → finds (mret a) V.
Proof. intros H c _. split; [done|]. by intros x [= <-]. Qed.
Lemma finds_map {A B} (m : M control A) (f : A → B) V (V' : tower_db → B → Prop) :
  finds m V → (∀ d a, V d a → V' d (f a)) → finds (a ← m; mret (f a)) V'.
Proof.
  intros Hm HV c Hc. apply wp_bind. eapply wp_mono; [|by apply Hm].
  intros [a|e] c' [H1 H2]; [|by split]. split; [done|]. intros x [= <-]. by apply HV, H2.
Qed.

Lemma finds_agent key : finds (agent_of_pane ctx key) (λ d0 r, ∀ a, r = inr (Some a) →
  ∃ d, R d0 d ∧ find_agent_by_pane key d = Some a).
Proof.
  unfold agent_of_pane. destruct (has_state_db _); [|destruct (sx_has_state_conn ctx)].
  - eapply finds_map; [apply finds_lookup|]. intros d0 r (d & Hd & ->) a [= E]. by exists d.
  - eapply finds_map; [apply finds_read|]. intros d0 r (d & Hd & ->) a [= E]. by exists d.
  - by apply finds_ret.
Qed.

Lemma finds_caller pane :
  finds (resolve_caller_agent (x_repr_of X) ctx pane) (λ d0 r, ∀ a, r = inr a → bound_agent pane d0 a).
Proof.
  intros c Hc. unfold resolve_caller_agent. apply wp_bind.
  destruct (coerce_caller_pane_key _ pane) as [[code|key]|e] eqn:Ek;
    [by split; [done|intros x [= <-]]| |by split].
  change (wp (ofail (Ok (inr key))) ?Q c) with (Q (Ok (inr key) : outcome (string + pane_key)) c). cbv beta iota. apply wp_bind. eapply wp_mono; [|by apply finds_agent].
  intros [r|e] c' [H1 H2]; [|by split]. specialize (H2 r eq_refl).
  destruct r as [code|[a|]].
  - split; [done|]. by intros x [= <-].
  - cbv zeta. destruct (negb _); [split; [done|]; by intros x [= <-]|].
    destruct (active a) eqn:Ea; split; [done| |done|]; intros x [= <-]; [|done].
    intros a' [= <-]. destruct (H2 a eq_refl) as (d & Hd & Hf). by exists key, d.
  - cbv zeta. destruct (negb _); split; [done| |done|]; by intros x [= <-].
Qed.

Lemma finds_operator ps p :
  finds (resolve_operator_identity (x_repr_of X) ctx ps p) (λ d0 r, ∀ who, r = inr who → operator ps p d0 who).
Proof.
  unfold resolve_operator_identity. destruct (parse_caller_pane ps) as [code|[pane|]] eqn:Ep.
  - by apply finds_ret.
  - eapply finds_map; [apply finds_caller|]. intros d [code|a] H who [= <-]. right. by exists pane, a; auto.
  - destruct (peer_is_host_process p) eqn:Eh; apply finds_ret; [|done]. intros d who [= <-]. by left.
Qed.
(** What a request may do to the queue: nothing, or what [P] allows. *)
Definition only {A} (c : control) (P : router → Prop) : outcome A → control → Prop :=
  λ _ c', routed c' = routed c ∨ P (routed c').

Lemma only_error (c c' : control) (P : router → Prop) code :
  routed c' = routed c → wp (error_of code) (only c P) c'.
Proof. intros H. unfold wp, error_of. case_bool_decide; by left. Qed.
Lemma only_closed (c c' : control) (P : router → Prop) code :
  P (routed c') → wp (closed_or_internal code) (only c P) c'.
Proof.
  intros H. unfold wp, closed_or_internal, error_of. destruct code; repeat case_bool_decide; by right.
Qed.
Lemma routed_by_queue {A} (m : M world A) c : routed (by_queue m c).2 = (on_tower m (routed c)).2.
Proof. unfold by_queue, on_daemon, on_queue, on_router, zoom. by destruct (on_tower m _). Qed.

Lemma wp_answering {A} (m : M control A) answer k Q c :
  wp m (λ o c', match o with
                | Ok a => wp (k a) Q c'
                | Raise e => if is_exception e then wp (answer e) Q c' else Q (Raise e) c'
                end) c → wp (attempt m answer k) Q c.
Proof.
  unfold wp, attempt, mbind, M_bind, catch. destruct (m c) as [[a|e] c']; [done|].
  cbn [fst snd]. by destruct (is_exception e) eqn:E.
Qed.

(** The queue after [run], or after the excerpt of its row was read too. *)
Definition left_by (run : M world QueueRow) (r r' : router) : Prop :=
  let ran := (on_tower run r).2 in
  r' = ran ∨ ∃ id, r' = (on_tower (read_envelope_excerpt (x_redactor X) id) ran).2.

Lemma operator_acts run ps p c :
  resting R (dm_desk (ct_daemon c)) →
  wp (queue_operator_action (x_redactor X) (x_repr_of X) ctx run ps p) (only c (λ r, ∃ mid who,
        json_get "message_id" ps = Some (JStr mid) ∧ operator ps p (registry c) who ∧
        left_by (run mid who) (routed c) r)) c.
Proof.
  intros Hc. unfold queue_operator_action, needing. destruct (queue_wired ctx); [|by apply only_error].
  destruct (nonempty_text (json_get "message_id" ps)) as [mid|] eqn:Em; [|by apply only_error].
  assert (Hm : json_get "message_id" ps = Some (JStr mid)).
  { unfold nonempty_text in Em. destruct (json_get _ ps) as [[| | | |t| |]|]; try done.
    destruct (bool_decide (t = EmptyString)); by simplify_eq. }
  apply wp_bind. eapply wp_mono; [|by apply finds_operator]. intros [r|e] c' [Hr Ho]; [|by left].
  specialize (Ho r eq_refl). destruct r as [code|who]; [by apply only_error|]. specialize (Ho who eq_refl).
  rewrite <- Hr. set (P := λ r, ∃ mid who, _). set (after := (on_tower (run mid who) (routed c')).2).
  assert (Hw : routed (by_queue (run mid who) c').2 = after) by apply routed_by_queue.
  assert (Hp : P after) by (exists mid, who; split_and!; [done..|by left]).
  apply wp_answering. unfold wp at 1. destruct (by_queue (run mid who) c') as [[row|e] c2]; cbn [fst snd] in *.
  - apply wp_bind. unfold wp at 1. pose proof (routed_by_queue (read_envelope_excerpt (x_redactor X) (message_id row)) c2) as He.
    destruct (by_queue _ c2) as [[x|e] c3]; cbn [fst snd] in *; right; change (P (routed c3)); rewrite He, Hw;
      exists mid, who; (split_and!; [done..|right; by eexists]).
  - rewrite <- Hw in Hp. destruct (is_exception e); [by apply only_closed|by right].
Qed.

End Identity.

(** ** Followers *)

Section Following.
Variable X : externals.
Variable ctx : DaemonContext.
Abbreviation config := (events_config (x_second X) ctx).
Abbreviation page := (ec_default_page_size config).
Hypothesis page_positive : 0 < page.
Hypothesis idle_not_negative : 0 ≤ ec_follow_session_idle_timeout config.
Hypothesis polling : 0 < ec_follow_long_poll_max config.
(** base64url and JSON read back a cursor that names an id, and one that names a place. *)
Definition id_object (e : Z) : params := [("e"%string, JInt e); ("r"%string, JBool false)].
Hypothesis id_roundtrip : ∀ e, x_load_token X (x_dump_token X (id_object e)) = Some (JObj (id_object e)).
Hypothesis id_nonempty : ∀ e, x_dump_token X (id_object e) ≠ EmptyString.

(** The events the reader recorded in the order of the listing, which a cursor can name. *)
Definition recorded (D : list DurableEvent) : Prop :=
  StronglySorted (λ e1 e2, listed_before e1 e2 ∧ de_event_id e1 < de_event_id e2) D ∧ Forall addressable D.

Definition session_filter (s : FollowSession) : EventFilter :=
  EventsDao.mkFilter (fs_target_agent_id s) (match fs_type_filter s with [] => EVENTS_DEFAULT_TYPES | l => l end) None None.

(** What a session has not been given yet. *)
Definition pending (s : FollowSession) (D : list DurableEvent) : list DurableEvent :=
  filter (λ e, (matches_event_filter (session_filter s) e && (lower_bound s <? de_event_id e)) = true) D.

(** The events table when a call looks at it. *)
Definition with_table (D : list DurableEvent) (c : control) : control :=
  let desk := dm_desk (ct_daemon c) in
  let d := set_durable D (foldr Z.max 0 (de_event_id <$> D)) (dk_db desk) in
  set_ct_daemon (set_dm_desk (set_dk_tower (set_sess (still d) (dk_tower desk)) desk) (ct_daemon c)) c.

(** *** One look at the table *)

Lemma sorted_filter {A} (R : relation A) (P : A → Prop) `{!∀ x, Decision (P x)} l :
  StronglySorted R l → StronglySorted R (filter P l).
Proof.
  induction 1 as [|x l Hl IH Hx]; [constructor|]. rewrite filter_cons. case_decide; [|done]. constructor; [done|].
  apply Forall_forall. intros y [_ Hy]%list_elem_of_filter. by apply (proj1 (Forall_forall _ _) Hx).
Qed.

Lemma filter_agree {A} (P Q : A → Prop) `{!∀ x, Decision (P x)} `{!∀ x, Decision (Q x)} (l : list A) :
  (∀ x, x ∈ l → P x ↔ Q x) → filter P l = filter Q l.
Proof.
  induction l as [|x l IH]; intros Hl; [done|]. rewrite !filter_cons, IH by (intros y Hy; apply Hl; by right).
  specialize (Hl x (list_elem_of_here _ _)). repeat case_decide; tauto || done.
Qed.

Lemma sorted_comparable {A} (R : relation A) l x y :
  StronglySorted R l → x ∈ l → y ∈ l → x = y ∨ R x y ∨ R y x.
Proof.
  induction 1 as [|z l _ IH Hz]; [by intros ?%elem_of_nil|]. rewrite Forall_forall in Hz. rewrite !elem_of_cons.
  intros [->|Hx] [->|Hy]; eauto.
Qed.

Lemma recorded_filter (P : DurableEvent → Prop) `{!∀ x, Decision (P x)} D :
  recorded D → recorded (filter P D).
Proof.
  intros [H1 H2]. split; [by apply sorted_filter|]. apply Forall_forall.
  intros e [_ He]%list_elem_of_filter. by apply (proj1 (Forall_forall _ _) H2).
Qed.

Lemma recorded_sorted D : recorded D → merge_sort (listing_order false) D = D.
Proof.
  intros [Hs _]. eapply (StronglySorted_unique_strong (listing_order false)).
  - intros e1 e2 H1 H2 L1 L2. rewrite merge_sort_Permutation in H1.
    destruct (sorted_comparable _ _ _ _ Hs H1 H2) as [|[[Hb _]|[Hb _]]]; [done|by destruct L2|by destruct L1].
  - apply (StronglySorted_merge_sort _).
  - clear -Hs. induction Hs as [|e D Hs IH He]; constructor; [done|].
    eapply Forall_impl; [exact He|]. intros e' [Hb _]. by apply listed_before_asym.
  - apply merge_sort_Permutation.
Qed.

(** The cursor of a look, and the page it selects. *)
Definition id_cursor (bound : Z) : outcome (option string) :=
  if 0 <? bound then obind (encode_cursor (x_dump_token X) bound false None None) (λ t, Ok (Some t)) else Ok None.

Lemma page_past D :
  recorded D → ∃ x, page_of (x_dump_token X) page false D = Ok x ∧ fst x = take (Z.to_nat page) D.
Proof.
  intros [_ HD]. unfold page_of. case_bool_decide as Hl; [exists (D, None); split; [done|]; symmetry; by apply take_ge|].
  destruct (last (take _ D)) as [e|] eqn:El; [|by eexists].
  assert (addressable e) as ([H1 H2] & H3 & H4).
  { apply (proj1 (Forall_forall _ _) HD). apply last_Some_elem_of in El. rewrite <- (take_drop (Z.to_nat page) D).
    set_solver. }
  unfold encode_cursor. rewrite (proj2 (Z.leb_gt _ _)), (proj2 (Z.ltb_ge _ _)) by lia.
  rewrite bool_decide_eq_false_2 by done. rewrite (proj2 (Z.ltb_ge _ _)) by lia. by eexists.
Qed.

Lemma id_cursor_reads bound :
  0 ≤ bound ≤ MAX_SAFE_CURSOR_EVENT_ID → ∃ c, id_cursor bound = Ok c ∧
  match c with
  | None => bound = 0
  | Some t => decode_cursor_details (x_load_token X) t = Ok (bound, false, None)
  end.
Proof.
  intros Hb. unfold id_cursor. destruct (Z.ltb_spec 0 bound); [|exists None; split; [done|lia]].
  unfold encode_cursor. rewrite (proj2 (Z.leb_gt _ _)), (proj2 (Z.ltb_ge _ _)) by lia.
  eexists. split; [done|]. fold (id_object bound). unfold decode_cursor_details, decode_cursor_payload.
  rewrite bool_decide_eq_false_2 by done. rewrite id_roundtrip. cbn [obind].
  unfold decode_cursor_base. change (json_get "e" (id_object bound)) with (Some (JInt bound)).
  change (json_get "r" (id_object bound)) with (Some (JBool false)). cbv iota beta.
  by rewrite (proj2 (Z.leb_gt _ _)), (proj2 (Z.ltb_ge _ _)) by lia.
Qed.

Lemma select_past s d :
  recorded (durable d) → 0 ≤ lower_bound s ≤ MAX_SAFE_CURSOR_EVENT_ID → ∃ c x,
  id_cursor (lower_bound s) = Ok c ∧
  select_events (x_dump_token X) (x_load_token X) (session_filter s) c page false (still d) = (Ok x, still d) ∧
  fst x = take (Z.to_nat page) (pending s (durable d)).
Proof.
  intros HD Hb. destruct (id_cursor_reads _ Hb) as (c & Hc & Hr).
  assert (HL : recorded (pending s (durable d))) by by apply recorded_filter.
  destruct (page_past _ HL) as (x & Hx & Hp). exists c, x. split_and!; [done| |done]. rewrite <- Hx.
  destruct c as [t|].
  - apply (select_rest _ _ _ _ _ _ page_positive (Some t) (past_cursor false (lower_bound s) None));
      [by exists (lower_bound s), None|]. by apply recorded_sorted.
  - apply (select_rest _ _ _ _ _ _ page_positive None (λ _, true)); [done|].
    rewrite <- (recorded_sorted _ HL) at 1. f_equal. apply filter_agree. intros e He.
    rewrite andb_true_r, andb_true_iff, Z.ltb_lt. destruct HD as [_ HD].
    pose proof (proj1 (Forall_forall _ _) HD e He) as [? _]. split; [|tauto]. split; [done|lia].
Qed.

(** *** One call *)

Lemma desk_still s d : dk_sess s = still d → set_dk_tower (set_sess (still d) (dk_tower s)) s = s.
Proof. destruct s as [[]]. by intros <-. Qed.

Lemma at_sql_still {A} (m : dao A) s d o :
  dk_sess s = still d → m (still d) = (o, still d) → at_sql m s = (o, s).
Proof.
  intros Hs Hm. unfold at_sql, at_tower, on_sql, zoom. change (sess (dk_tower s)) with (dk_sess s).
  rewrite Hs, Hm. by rewrite desk_still.
Qed.

Lemma with_conn_still {A} (m : M desk A) s d o :
  dk_sess s = still d → m s = (o, s) → with_conn m s = (o, s).
Proof.
  intros Hs Hm. unfold with_conn, mbind, M_bind. rewrite (at_sql_still _ s d (Ok tt)) by done.
  unfold lift. rewrite Hm. by rewrite (at_sql_still _ s d (Ok tt)).
Qed.

Definition follow_page (s : FollowSession) (D : list DurableEvent) : list DurableEvent :=
  take (Z.to_nat page) (pending s D).

Lemma look s d k :
  dk_sess k = still d → recorded (durable d) → 0 ≤ lower_bound s ≤ MAX_SAFE_CURSOR_EVENT_ID →
  follow_select (x_dump_token X) (x_load_token X) (x_second X) ctx s k = (Ok (follow_page s (durable d)), k).
Proof.
  intros Hk HD Hb. destruct (select_past s d HD Hb) as (c & x & Hc & Hx & Hp). unfold follow_page. rewrite <- Hp.
  unfold follow_select. apply (with_conn_still _ _ d); [done|].
  assert (E : (if 0 <? lower_bound s
               then t ← ofail (encode_cursor (x_dump_token X) (lower_bound s) false None None); mret (Some t)
               else mret None) k = (Ok c, k)).
  { unfold id_cursor in Hc. destruct (0 <? lower_bound s); [|by injection Hc as <-].
    unfold mbind, M_bind, ofail. destruct (encode_cursor _ _ _ _ _); simpl in Hc; by simplify_eq. }
  unfold mbind at 1, M_bind at 1. rewrite E. unfold mbind at 1, M_bind at 1.
  fold (session_filter s). by rewrite (at_sql_still _ k d (Ok x) Hk Hx).
Qed.

(** *** The session *)

Definition advanced (rows : list DurableEvent) (t : Z) (s : FollowSession) : FollowSession :=
  mkFollow (fs_session_id s) (fs_target_agent_id s) (fs_type_filter s) (fs_since_iso s)
    (match last rows with Some e => de_event_id e | None => fs_last_emitted_event_id s end)
    (fs_live_starting_event_id s) t.

Lemma get_updated id f r s :
  (∀ x, fs_session_id (f x) = fs_session_id x) → get_session id r = Some s →
  get_session id (FollowSessions.set_sessions
    ((λ x, if bool_decide (fs_session_id x = id) then f x else x) <$> fr_sessions r) r) = Some (f s).
Proof.
  intros Hf. unfold get_session. cbn [FollowSessions.set_sessions fr_sessions].
  induction (fr_sessions r) as [|x l IH]; [done|]. cbn [fmap list_fmap list_find].
  destruct (decide (fs_session_id x = id)) as [E|E].
  - rewrite bool_decide_eq_true_2 by done. intros [= ->]. by rewrite decide_True by (by rewrite Hf).
  - rewrite bool_decide_eq_false_2 by done. rewrite decide_False by done. intros H.
    destruct (list_find _ l) as [[i y]|] eqn:El; [|done]. simpl in H. injection H as ->.
    specialize (IH eq_refl). by destruct (list_find _ (_ <$> l)) as [[]|].
Qed.
Lemma get_session_id id r s : get_session id r = Some s → fs_session_id s = id.
Proof. unfold get_session. intros H. destruct (list_find _ _) as [[i x]|] eqn:E; [|done].
  injection H as <-. by apply list_find_Some in E as (_ & ? & _). Qed.

(** The session is open, the clock stands still and no wait is woken. *)
Definition quiet (id : string) (t : Z) (s : FollowSession) (c : control) : Prop :=
  get_session id (ct_follow c) = Some s ∧ t ≤ fs_expires_at_monotonic s ∧ ct_monotonic c = (t, []) ∧ ct_polls c = [].

Lemma refreshed id t s c :
  quiet id t s c → ∃ c', refresh (x_second X) ctx id c = (Ok tt, c') ∧ ct_daemon c' = ct_daemon c ∧
    quiet id t (advanced [] (t + ec_follow_session_idle_timeout config) s) c'.
Proof.
  intros (Hs & He & Hm & Hp). unfold refresh, mbind, M_bind, monotonic. rewrite Hm. cbn [next_reading].
  unfold on_follow, refresh_expiration. change (ct_follow (set_ct_clocks _ _ c)) with (ct_follow c). rewrite Hs.
  eexists. split; [reflexivity|]. split; [done|]. split_and!; [|cbn; lia|done|done].
  cbn [ct_follow set_ct_follow set_ct_clocks]. unfold advanced. cbn [last].
  by apply (get_updated id (λ x, mkFollow (fs_session_id x) (fs_target_agent_id x) (fs_type_filter x) (fs_since_iso x)
    (fs_last_emitted_event_id x) (fs_live_starting_event_id x) (t + ec_follow_session_idle_timeout config))).
Qed.

Definition page_answer (rows : list DurableEvent) : envelope :=
  make_ok [("events", JArr (event_row_to_payload <$> rows)); ("session_open", JBool true)]%string.

Lemma one_turn id t s c d deadline :
  quiet id t s c → dk_sess (dm_desk (ct_daemon c)) = still d → recorded (durable d) →
  0 ≤ lower_bound s ≤ MAX_SAFE_CURSOR_EVENT_ID →
  let rows := follow_page s (durable d) in
  ∃ c', follow_loop (x_dump_token X) (x_load_token X) (x_second X) ctx id deadline [] s c =
      (Ok (page_answer rows), c') ∧ ct_daemon c' = ct_daemon c ∧
    quiet id t (advanced rows (t + ec_follow_session_idle_timeout config) s) c'.
Proof.
  intros Hq Hd HD Hb rows. cbn [follow_loop]. unfold mbind at 1, M_bind at 1.
  assert (El : by_desk (follow_select (x_dump_token X) (x_load_token X) (x_second X) ctx s) c = (Ok rows, c)).
  { unfold by_desk, on_daemon, on_desk, zoom. rewrite (look s d) by done. destruct c as [[] ? ? ? ? ? ? ?]. done. }
  rewrite El. destruct (last rows) as [e|] eqn:Er.
  - unfold mbind, M_bind, on_follow at 1. set (c1 := set_ct_follow _ c).
    assert (Hq1 : quiet id t (advanced rows (fs_expires_at_monotonic s) s) c1).
    { destruct Hq as (Hs & He & Hm & Hp). split_and!; [|done|done|done]. unfold advanced. rewrite Er.
      by apply (get_updated id (λ x, mkFollow (fs_session_id x) (fs_target_agent_id x) (fs_type_filter x) (fs_since_iso x)
        (de_event_id e) (fs_live_starting_event_id x) (fs_expires_at_monotonic x))). }
    destruct (refreshed id t _ c1 Hq1) as (c' & -> & Hc & Hq'). exists c'. split; [done|]. split; [done|].
    unfold advanced in *. by rewrite Er in Hq' |- *.
  - assert (rows = []) as -> by (by destruct rows as [|x l] using rev_ind; [|rewrite last_snoc in Er]).
    destruct (refreshed id t s c Hq) as (c' & E & Hc & Hq'). exists c'. unfold mbind, M_bind. by rewrite E.
Qed.

Lemma one_call id t s c d ps p wait :
  quiet id t s c → dk_sess (dm_desk (ct_daemon c)) = still d → recorded (durable d) →
  0 ≤ lower_bound s ≤ MAX_SAFE_CURSOR_EVENT_ID → sx_has_follow_registry ctx = true →
  nonempty_text (json_get "session_id" ps) = Some id → max_wait_of (json_get "max_wait_seconds" ps) = Ok (inr wait) →
  let rows := follow_page s (durable d) in
  ∃ c', on_events_follow_next (x_dump_token X) (x_load_token X) (x_ticks X) (x_second X) (x_bad_lookup_window X) ctx ps p c =
      (Ok (page_answer rows), c') ∧ ct_daemon c' = ct_daemon c ∧
    quiet id t (advanced rows (t + ec_follow_session_idle_timeout config) s) c'.
Proof.
  intros Hq Hd HD Hb Hr Hi Hw rows. pose proof Hq as (Hs & He & Hm & Hp).
  unfold on_events_follow_next, session_param. rewrite Hi. unfold needing. rewrite Hr.
  unfold mbind at 1, M_bind at 1, get at 1. rewrite Hs. unfold mbind at 1, M_bind at 1, monotonic at 1. rewrite Hm.
  cbn [next_reading]. rewrite (proj2 (Z.ltb_ge _ _)) by lia. unfold mbind at 1, M_bind at 1, ofail. rewrite Hw.
  unfold mret, M_ret. cbv iota beta zeta. replace (negb (is_set wait) && (ec_follow_long_poll_max config <=? 0)) with false.
  2:{ symmetry. apply andb_false_iff. right. lia. }
  unfold mbind at 1, M_bind at 1, next_polls. cbv iota beta zeta.
  change (ct_polls (set_ct_clocks _ _ c)) with (ct_polls c). rewrite Hp.
  set (c2 := set_ct_pauses _ _ _ _). change (ct_daemon c) with (ct_daemon c2). apply one_turn; [by split_and!|done..].
Qed.

(** *** Call after call *)

Lemma sorted_past L1 e L2 :
  StronglySorted (λ e1 e2, listed_before e1 e2 ∧ de_event_id e1 < de_event_id e2) (L1 ++ e :: L2) →
  filter (λ x, (de_event_id e <? de_event_id x) = true) (L1 ++ e :: L2) = L2.
Proof.
  intros (H1 & _ & H2)%StronglySorted_app. apply StronglySorted_cons in H2 as [He H2].
  rewrite filter_app, filter_cons_False by (rewrite Z.ltb_irrefl; done).
  rewrite (filter_nil_Forall _ L1), filter_id_Forall; [done|..].
  - eapply Forall_impl; [exact He|]. intros x [_ ?]. by apply Z.ltb_lt.
  - apply Forall_forall. intros x Hx Hl%Z.ltb_lt. destruct (H1 x e Hx (list_elem_of_here _ _)) as [_ ?]. lia.
Qed.

Lemma pending_step s d D t :
  recorded D → d `prefix_of` D → fs_live_starting_event_id s ≤ lower_bound s →
  let rows := follow_page s d in
  rows ++ pending (advanced rows t s) D = pending s D.
Proof.
  intros HD [g ->] Hl rows.
  assert (Hp : recorded (pending s (d ++ g))) by by apply recorded_filter.
  assert (E : ∃ rest, pending s (d ++ g) = rows ++ rest).
  { exists (drop (Z.to_nat page) (pending s d) ++ pending s g). unfold rows, follow_page.
    rewrite app_assoc, take_drop. apply filter_app. }
  destruct E as [rest E]. destruct rows as [|e l _] eqn:Er using rev_ind.
  { done. }
  assert (He : e ∈ pending s (d ++ g)) by (rewrite E; set_solver).
  apply list_elem_of_filter in He as [[_ He%Z.ltb_lt]%andb_true_iff _].
  assert (Hb : lower_bound (advanced (l ++ [e]) t s) = de_event_id e).
  { unfold lower_bound at 1, advanced. rewrite last_snoc. cbn. unfold lower_bound in He. lia. }
  rewrite E. f_equal. rewrite <- app_assoc in E. change ([e] ++ rest) with (e :: rest) in E.
  transitivity (filter (λ x, (de_event_id e <? de_event_id x) = true) (pending s (d ++ g))).
  - unfold pending. rewrite list_filter_filter, Hb. apply list_filter_iff. intros x. change (session_filter (advanced _ t s)) with (session_filter s).
    rewrite !andb_true_iff, !Z.ltb_lt. split; [intros [? ?]; split_and!; [done|done|lia]|tauto].
  - rewrite E. apply sorted_past. rewrite <- E. apply Hp.
Qed.

Variables (id : string) (ps : params) (p : peer) (wait : option json).
Hypothesis wired : sx_has_follow_registry ctx = true.
Hypothesis session_named : nonempty_text (json_get "session_id" ps) = Some id.
Hypothesis wait_valid : max_wait_of (json_get "max_wait_seconds" ps) = Ok (inr wait).

Definition events_of (o : outcome envelope) : list json :=
  match o with
  | Ok (make_ok r) => match json_get "events" r with Some (JArr l) => l | _ => [] end
  | _ => []
  end.

(** What the calls give, each finding the table as it is by then. *)
Fixpoint following (tables : list (list DurableEvent)) (c : control) : list json * control :=
  match tables with
  | [] => ([], c)
  | D :: rest =>
      let (o, c1) := on_events_follow_next (x_dump_token X) (x_load_token X) (x_ticks X) (x_second X)
                       (x_bad_lookup_window X) ctx ps p (with_table D c) in
      let (l, c2) := following rest c1 in (events_of o ++ l, c2)
  end.


End Following.

(** ** Examples *)

(** A token format for ids: the bits of a number. *)
Definition id_dump (o : params) : string := match o with (_, JInt e) :: _ => bits (stdpp.countable.encode e) | _ => "e"%string end.
Definition id_load (token : string) : option json :=
  q ← unbits token; e ← stdpp.countable.decode (A := Z) q; Some (JObj (id_object e)).

Lemma id_load_dump e : id_load (id_dump (id_object e)) = Some (JObj (id_object e)).
Proof.
  unfold id_load. change (id_dump (id_object e)) with (bits (stdpp.countable.encode e)). rewrite unbits_bits. cbn [mbind option_bind].
  by rewrite stdpp.countable.decode_encode.
Qed.

Definition demo_externals : externals :=
  mkExternals (RegistryAgentsLookup [demo_master; demo_slave]) demo_lookup (λ b, b) (λ t, Some t) 65536 10000
    (λ _, EmptyString) 1 "/home" None (throw (PyError "TypeError")) EmptyString (λ t, (t, None)) (λ _ _, false) (λ s, s)
    (λ _ _, Raise (PyError "TypeError")) (λ s, s) demo_env
    (mkDockerAdapter (mret []) (λ _, mret ([], []))) (λ s, s) (mret (inr "no rule"%string))
    (mkTmuxAdapter (λ _ _, throw (PyError "OSError")) (λ _ _ _, throw (PyError "OSError")) (λ _ _ _, throw (PyError "OSError")))
    None None id_dump id_load (λ _, IsoMalformed) (λ _, false) (λ _, false) (λ _, None) (λ _, 0) 1 60 (λ s, s).
Definition demo_context : DaemonContext :=
  mkDaemonContext 1 "2026-01-01T00:00:00Z" 0 "/run/sock" "/state" "0.1" (Some 1) demo_wiring
    true true true true true true true true None None 1000.
Definition demo_control : control :=
  mkControl (demo_daemon []) (mkRegistry [] 0 0 ["f1"] []) (Some false) (0, []) (0, []) [] [] [].
Definition container_peer : peer := mkPeer 1000 false.

Definition demo_connection (line : string) : connection :=
  mkConnection (Some line) 7 1000 (mkProc (Some false) (Some false) (Some [])) false.
Definition demo_call : option params := Some [("message_id"%string, JStr "m1"); ("n"%string, JInt (-3))].


Lemma containers_learn_nothing_witness :
  is_app_method "app.dashboard" = true ∧ is_host_peer container_peer = false ∧
  dispatch_method demo_externals demo_context "app.dashboard" [] container_peer demo_control = (Ok host_only, demo_control).
Proof. split; [done|]. split; [done|]. by apply containers_learn_nothing. Defined.


Definition demo_follow : FollowSession := mkFollow "f" None ["activity"%string] None 0 0 100.
Definition following_control : control := set_ct_follow (mkRegistry [demo_follow] 0 0 [] []) demo_control.
Definition next_call : params := [("session_id"%string, JStr "f")].


(** Two events of one cycle, recorded in the order of their logs and not of the listing, reach a
    follower more than once. *)
Example a_follower_is_told_twice :
  let e1 := sample_event 1 "t1" (Some 5) in
  let e2 := sample_event 2 "t1" (Some 0) in
  (following demo_externals demo_context next_call demo_host_peer [[e1; e2]; [e1; e2]] following_control).1 =
  event_row_to_payload <$> [e2; e1; e2].
Proof. by vm_compute. Qed.

(** One recorded late, with a page that was full, never reaches it. *)
Definition one_per_page : DaemonContext :=
  mkDaemonContext 1 "2026-01-01T00:00:00Z" 0 "/run/sock" "/state" "0.1" (Some 1) demo_wiring
    true true true true true true true true None (Some (mkEventsConfig 1 50 300 30)) 1000.
Example a_follower_is_never_told :
  let e1 := sample_event 1 "t1" (Some 5) in
  let e2 := sample_event 2 "t1" (Some 0) in
  (following demo_externals one_per_page next_call demo_host_peer (replicate 3 [e1; e2]) following_control).1 =
  event_row_to_payload <$> [e2].
Proof. by vm_compute. Qed.

(** [queue.list] takes [true] for a limit, [queue.send_input] takes NaN for a timeout. *)
Example a_limit_of_true : limit_param [("limit"%string, JBool true)] = Some 1.
Proof. by vm_compute. Qed.
Example a_timeout_of_nan : wait_timeout_ok (JFloat "nan" None) = true.
Proof. by vm_compute. Qed.

(** [since] with the offset of another zone is compared as text: seven o'clock in UTC, written
    as noon elsewhere, keeps out an event of eight o'clock. *)
Example since_is_compared_as_text :
  matches_event_filter (EventsDao.mkFilter None [] (Some "2026-01-01T12:00:00+05:00"%string) None)
    (sample_event 1 "2026-01-01T08:00:00.000000+00:00" None) = false.
Proof. by vm_compute. Qed.
