(* ===== verification/DaemonProcess.v ===== *)
(** The daemon as a process (src/src/agenttower/daemon.py, socket_api/lifecycle.py, and the
    binding of the socket in socket_api/server.py): the lock, the stale files of a predecessor,
    start-up, serving and the clean-up.

    Several daemons may be started for one state directory, so a process is a program of system
    calls: [Act] is one call on the host, and the system runs the calls of all processes in any
    order, kills processes between any two of them, and lets any call fail.  The host keeps what
    the processes share: paths, inodes with the [flock] and the listening process, and the log.
    The threads of the services are described where they are modelled; here a service is started
    and stopped. *)

From S2P Require Import Prelude Errors Utf8 Agents Store Json.
From Stdlib Require Import Ascii.

Local Open Scope Z_scope.

(** ** The host *)

Inductive file_kind := Regular | Directory | Socket | Symlink | Fifo | Device | OtherKind.
#[export] Instance file_kind_eq_dec : EqDecision file_kind.
Proof. solve_decision. Defined.

Record inode := mkInode {
  i_kind : file_kind; i_mode : Z; i_uid : Z;
  i_text : string;                 (* the content; of a symbolic link its target *)
  i_lock : option Z;               (* the process with [LOCK_EX] *)
  i_server : option Z              (* of a socket: the process that listens on it *)
}.

(** What a call may run into besides what the host itself says. *)
Definition fault := exn.

Inductive service := Discovery | Panes | Reader | DeliveryWorker | RoutingWorker | Heartbeat.
Inductive trace_event := Started (s : service) | Recovered | Stopped (s : service).

Record host := mkHost {
  h_paths : gmap string nat;
  h_inodes : gmap nat inode;
  h_next : nat;                                        (* the next inode *)
  h_log : list (Z * string * list (string * string));  (* process, event, fields *)
  h_trace : list (Z * trace_event);
  h_schema_version : option Z;
  h_faults : list (option fault)
}.

Definition set_paths x h := mkHost x (h_inodes h) (h_next h) (h_log h) (h_trace h) (h_schema_version h) (h_faults h).
Definition set_inodes x h := mkHost (h_paths h) x (h_next h) (h_log h) (h_trace h) (h_schema_version h) (h_faults h).
Definition set_log x h := mkHost (h_paths h) (h_inodes h) (h_next h) x (h_trace h) (h_schema_version h) (h_faults h).
Definition set_trace x h := mkHost (h_paths h) (h_inodes h) (h_next h) (h_log h) x (h_schema_version h) (h_faults h).
Definition set_host_faults x h := mkHost (h_paths h) (h_inodes h) (h_next h) (h_log h) (h_trace h) (h_schema_version h) x.

(** A new inode under a path. *)
Definition create (path : string) (i : inode) (h : host) : host :=
  mkHost (<[path := h_next h]> (h_paths h)) (<[h_next h := i]> (h_inodes h)) (S (h_next h))
    (h_log h) (h_trace h) (h_schema_version h) (h_faults h).
Definition update_inode (ino : nat) (f : inode → inode) (h : host) : host := set_inodes (alter f ino (h_inodes h)) h.
Definition unlink_path (path : string) (h : host) : host := set_paths (delete path (h_paths h)) h.

Definition stat_at (path : string) (h : host) : option inode := ino ← h_paths h !! path; h_inodes h !! ino.
Definition with_lock (o : option Z) (i : inode) := mkInode (i_kind i) (i_mode i) (i_uid i) (i_text i) o (i_server i).
Definition with_server (o : option Z) (i : inode) := mkInode (i_kind i) (i_mode i) (i_uid i) (i_text i) (i_lock i) o.
Definition with_mode (m : Z) (i : inode) := mkInode (i_kind i) m (i_uid i) (i_text i) (i_lock i) (i_server i).
Definition with_text (t : string) (i : inode) := mkInode (i_kind i) (i_mode i) (i_uid i) t (i_lock i) (i_server i).

(** The path a symbolic link leads to; too many links are an error. *)
Fixpoint follow_links (fuel : nat) (path : string) (h : host) : option string :=
  match stat_at path h with
  | Some i =>
      if bool_decide (i_kind i = Symlink)
      then match fuel with O => None | S f => follow_links f (i_text i) h end
      else Some path
  | None => Some path
  end.
Definition MAXSYMLINKS : nat := 40.

(** The process is gone: the kernel closes what it had open. *)
Definition kernel_exit (pid : Z) (h : host) : host :=
  set_inodes ((λ i, with_server (if bool_decide (i_server i = Some pid) then None else i_server i)
                      (with_lock (if bool_decide (i_lock i = Some pid) then None else i_lock i) i)) <$> h_inodes h) h.

(** ** Programs *)

Inductive prog (A : Type) :=
| Ret (a : A)
| Act (f : host → prog A * host).
Arguments Ret {A} a.
Arguments Act {A} f.

Fixpoint pbind {A B} (p : prog A) (k : A → prog B) : prog B :=
  match p with
  | Ret a => k a
  | Act f => Act (λ h, let (p', h') := f h in (pbind p' k, h'))
  end.

(** Induction over the calls of a program. *)
Fixpoint prog_calls {A} (P : prog A → Prop) (HR : ∀ a, P (Ret a)) (HA : ∀ f, (∀ h, P (f h).1) → P (Act f)) (p : prog A) : P p :=
  match p with
  | Ret a => HR a
  | Act f => HA f (λ h, match f h as r return P r.1 with (p', h') => prog_calls P HR HA p' end)
  end.

(** The local variables of [_run] that its [finally] blocks look at. *)
Record locals := mkLocals {
  l_logger : bool; l_server : option nat;
  l_scan_conn : bool; l_pane_conn : bool; l_worker_conn : bool;
  l_routing_worker : bool; l_heartbeat : bool; l_delivery_worker : bool
}.
Definition no_locals : locals := mkLocals false None false false false false false false.

Definition proc (A : Type) : Type := locals → prog (outcome A * locals).

#[export] Instance proc_ret : MRet proc := λ A a l, Ret (Ok a, l).
#[export] Instance proc_bind : MBind proc := λ A B k m l,
  pbind (m l) (λ r, match r.1 with Ok a => k a r.2 | Raise e => Ret (Raise e, r.2) end).
Definition raise {A} (e : exn) : proc A := λ l, Ret (Raise e, l).
(** [try: m; except: h] *)
Definition rescue {A} (m : proc A) (h : exn → proc A) : proc A := λ l,
  pbind (m l) (λ r, match r.1 with Ok a => Ret (Ok a, r.2) | Raise e => h e r.2 end).
(** [try: m; finally: cleanup]; an exception of the clean-up replaces what came before. *)
Definition finally {A} (m : proc A) (cleanup : proc unit) : proc A := λ l,
  pbind (m l) (λ r, pbind (cleanup r.2) (λ r', match r'.1 with Ok _ => Ret (r.1, r'.2) | Raise e => Ret (Raise e, r'.2) end)).
Definition set_locals (f : locals → locals) : proc unit := λ l, Ret (Ok tt, f l).
Definition get_locals : proc locals := λ l, Ret (Ok l, l).

(** One call, which may fail for reasons of its own. *)
Definition sys {A} (f : host → outcome A * host) : proc A := λ l, Act (λ h,
  match h_faults h with
  | Some e :: rest => (Ret (Raise e, l), set_host_faults rest h)
  | None :: rest => let (o, h') := f (set_host_faults rest h) in (Ret (o, l), h')
  | [] => let (o, h') := f h in (Ret (o, l), h')
  end).
(** A call that cannot fail. *)
Definition sure {A} (f : host → A * host) : proc A := λ l, Act (λ h, let (a, h') := f h in (Ret (Ok a, l), h')).

Definition FileNotFoundError : exn := PyError "FileNotFoundError".
Definition OSERRORS : list exn :=
  [PyError "OSError"; FileNotFoundError; PyError "PermissionError"; PyError "BlockingIOError"; PyError "FileExistsError"].
Definition is_oserror (e : exn) : bool := bool_decide (e ∈ OSERRORS).

(** ** socket_api/lifecycle.py *)

Section Process.
Variable euid : Z.
(** The files of the state directory. *)
Variables state_dir logs_dir state_db lock_path pid_path log_path socket_path : string.
Variable pid : Z.

Definition MODE_FILE : Z := 384.   (* 0o600 *)
Definition MODE_DIR : Z := 448.    (* 0o700 *)

(** [os.open(path, ... | O_CREAT, 0o600)]: the inode, created when there is none; with
    [O_TRUNC] emptied. *)
Definition os_open (trunc : bool) (path : string) : proc nat := sys (λ h,
  match follow_links MAXSYMLINKS path h with
  | None => (Raise (PyError "OSError"), h)
  | Some p =>
      match h_paths h !! p with
      | Some ino =>
          if bool_decide (i_kind <$> h_inodes h !! ino = Some Regular)
          then (Ok ino, if trunc then update_inode ino (with_text EmptyString) h else h)
          else (Raise (PyError "OSError"), h)
      | None => (Ok (h_next h), create p (mkInode Regular MODE_FILE euid EmptyString None None) h)
      end
  end).

Definition os_fstat (fd : nat) : proc inode := sys (λ h,
  (match h_inodes h !! fd with Some i => Ok i | None => Raise (PyError "OSError") end, h)).
Definition lstat (path : string) : proc inode := sys (λ h,
  (match stat_at path h with Some i => Ok i | None => Raise FileNotFoundError end, h)).
(** [path.exists()] *)
Definition exists_ (path : string) : proc bool := sys (λ h,
  (Ok match follow_links MAXSYMLINKS path h with Some p => bool_decide (is_Some (h_paths h !! p)) | None => false end, h)).
(** [path.unlink()] *)
Definition unlink (path : string) : proc unit := sys (λ h,
  match stat_at path h with
  | None => (Raise FileNotFoundError, h)
  | Some i =>
      if bool_decide (i_kind i = Directory) then (Raise (PyError "PermissionError"), h)
      else (Ok tt, unlink_path path h)
  end).

(** [fcntl.flock(fd, LOCK_EX | LOCK_NB)] *)
Definition flock (fd : nat) : proc unit := sys (λ h,
  match h_inodes h !! fd with
  | Some i =>
      if bool_decide (i_lock i = None ∨ i_lock i = Some pid)
      then (Ok tt, update_inode fd (with_lock (Some pid)) h)
      else (Raise (PyError "BlockingIOError"), h)
  | None => (Raise (PyError "OSError"), h)
  end).
(** [os.close(fd)] of the descriptor with the lock. *)
Definition os_close (fd : nat) : proc unit := sure (λ h,
  (tt, update_inode fd (λ i, if bool_decide (i_lock i = Some pid) then with_lock None i else i) h)).

Definition LockHeldError : exn := PyError "LockHeldError".

Definition acquire_exclusive_lock : proc nat :=
  fd ← os_open false lock_path;
  rescue
    (st ← os_fstat fd;
     if bool_decide (i_mode st ≠ MODE_FILE ∨ i_uid st ≠ euid) then raise (PyError "PermissionError")
     else _ ← flock fd; mret fd)
    (λ e, if is_oserror e
          then _ ← os_close fd; raise (if bool_decide (e = PyError "BlockingIOError") then LockHeldError else e)
          else raise e).

Definition release_lock (fd : nat) : proc unit := os_close fd.

Definition UnsafePathError : exn := PyError "UnsafePathError".

Definition kind_name (k : file_kind) : string :=
  match k with Directory => "dir" | Regular => "file" | Socket => "socket" | _ => "other" end.

Definition check_mode_and_owner (path : string) (expected_mode : Z) (kind : string) : proc unit :=
  st ← rescue (lstat path) (λ e, raise (if bool_decide (e = FileNotFoundError) then UnsafePathError else e));
  if bool_decide (kind_name (i_kind st) ≠ kind) then raise UnsafePathError
  else if bool_decide (i_mode st ≠ expected_mode) then raise UnsafePathError
  else if bool_decide (i_uid st ≠ euid) then raise UnsafePathError
  else mret tt.

Definition check_if_there (path : string) : proc unit :=
  there ← exists_ path;
  if (there : bool) then check_mode_and_owner path MODE_FILE "file" else mret tt.

Definition assert_paths_safe : proc unit :=
  _ ← check_mode_and_owner state_dir MODE_DIR "dir";
  _ ← check_mode_and_owner logs_dir MODE_DIR "dir";
  _ ← check_if_there lock_path;
  _ ← check_if_there pid_path;
  check_if_there log_path.

(** [os.chmod(path, 0o600)] *)
Definition chmod (path : string) : proc unit := sys (λ h,
  match follow_links MAXSYMLINKS path h ≫= λ p, h_paths h !! p with
  | Some ino => (Ok tt, update_inode ino (with_mode MODE_FILE) h)
  | None => (Raise FileNotFoundError, h)
  end).

Definition write_pid_file : proc unit :=
  fd ← os_open true pid_path;
  _ ← sys (λ h, (Ok tt, update_inode fd (with_text (print_int pid +:+ String "010"%char EmptyString)) h));
  chmod pid_path.

Definition remove_pid_file : proc unit :=
  rescue (unlink pid_path) (λ e, if bool_decide (e = FileNotFoundError) then mret tt else raise e).

Definition LIFECYCLE_EVENTS : list string :=
  ["daemon_starting"; "daemon_ready"; "daemon_recovering"; "daemon_shutdown"; "daemon_exited"; "error_fatal";
   "scan_started"; "scan_completed"; "scan_jsonl_failed";
   "pane_scan_started"; "pane_scan_completed"; "pane_scan_jsonl_failed";
   "log_rotation_detected"; "log_file_missing"; "log_file_returned"; "log_attachment_orphan_detected";
   "mounts_json_oversized"; "socket_peer_uid_mismatch"; "audit_append_failed";
   "host_peer_check_bypassed"; "dashboard_test_latency_injected"; "dashboard_test_degraded_forced"].

(** [LifecycleLogger.__init__] and [emit]; the level goes with the event. *)
Definition open_logger : proc unit :=
  _ ← sys (λ h, (Ok tt, h));   (* [mkdir(exist_ok=True)] *)
  fd ← os_open false log_path;
  _ ← rescue (st ← os_fstat fd; if bool_decide (i_mode st ≠ MODE_FILE) then chmod log_path else mret tt)
        (λ e, if is_oserror e then mret tt else raise e);
  set_locals (λ l, mkLocals true (l_server l) (l_scan_conn l) (l_pane_conn l) (l_worker_conn l)
                     (l_routing_worker l) (l_heartbeat l) (l_delivery_worker l)).
Definition emit (event : string) (fields : list (string * string)) : proc unit :=
  if bool_decide (event ∉ LIFECYCLE_EVENTS) then raise (PyError "ValueError")
  else sys (λ h, (Ok tt, set_log (h_log h ++ [(pid, event, fields)]) h)).

(** [_format_kv], the fields of a line. *)
Fixpoint flat_value (s : string) : string :=
  match s with
  | String c t =>
      String (if bool_decide (c = "009"%char ∨ c = "010"%char) then " "%char else c) (flat_value t)
  | EmptyString => EmptyString
  end.
Definition format_kv (fields : list (string * string)) : string :=
  join_with (String "009"%char EmptyString) ((λ kv : string * string, kv.1 +:+ "=" +:+ flat_value kv.2) <$> fields).
Definition line_of (ts level event : string) (fields : list (string * string)) : string :=
  let tab := String "009"%char EmptyString in
  let head := ts +:+ tab +:+ "level=" +:+ level +:+ tab +:+ "event=" +:+ event in
  let tail := format_kv fields in
  (if bool_decide (tail = EmptyString) then head else head +:+ tab +:+ tail) +:+ String "010"%char EmptyString.

(** [classify_socket_path] *)
Definition classify_socket_path : proc string :=
  rescue (st ← lstat socket_path; mret (if bool_decide (i_kind st = Socket) then "stale_socket" else "refuse")%string)
    (λ e, if bool_decide (e = FileNotFoundError) then mret "missing"%string else raise e).

Definition kind_label (i : inode) : string :=
  match i_kind i with
  | Symlink => "symlink" | Directory => "directory" | Regular => "regular file" | Fifo => "fifo"
  | Device => "device" | Socket => "socket" | OtherKind => "other"
  end.
(** [_kind_label]; [StaleArtifactRefused] carries it. *)
Definition refuse_artifact : proc unit :=
  _ ← rescue (st ← lstat socket_path; mret (kind_label st))
        (λ e, if bool_decide (e = FileNotFoundError) then mret "missing"%string else raise e);
  raise (PyError "StaleArtifactRefused").

Definition remove_stale_socket (cls : string) : proc unit :=
  if bool_decide (cls = "stale_socket"%string)
  then _ ← unlink socket_path; emit "daemon_recovering" [("unlinked", socket_path); ("reason", "stale_socket")]%string
  else mret tt.
Definition remove_stale_pid : proc unit :=
  there ← exists_ pid_path;
  if (there : bool)
  then _ ← unlink pid_path; emit "daemon_recovering" [("unlinked", pid_path); ("reason", "stale_pid")]%string
  else mret tt.
Definition recover_stale_artifacts : proc unit :=
  cls ← classify_socket_path;
  _ ← (if bool_decide (cls = "refuse"%string) then refuse_artifact else mret tt);
  _ ← remove_stale_socket cls;
  remove_stale_pid.

(** ** daemon.py *)

Definition environ : Type := gmap string string.
Variable env : environ.

Definition SEAMS : list string := ["AGENTTOWER_TEST_EVENTS_CLOCK_FAKE"; "AGENTTOWER_TEST_READER_TICK"].

Definition guard_feat008_test_seams_unset : proc unit :=
  let leaked := filter (λ k, is_Some (env !! k)) SEAMS in
  if bool_decide (leaked = []) then mret tt
  else if existsb (λ k, Text.startswith "AGENTTOWER_TEST_" k && negb (bool_decide (k ∈ leaked))) (map_to_list env).*1
  then mret tt
  else raise SystemExit.

Definition is_sqlite_error (e : exn) : bool :=
  match e with OperationalError _ | IntegrityError => true | _ => false end.

Definition verify_feat001_initialized : proc unit :=
  there ← exists_ state_db;
  if negb there then raise SystemExit
  else
    _ ← rescue (sys (λ h, (Ok tt, h)))   (* [open_registry] *)
          (λ e, raise (if is_sqlite_error e then SystemExit else e));
    row ← sys (λ h, (Ok (h_schema_version h), h));
    match (row : option Z) with None => raise SystemExit | Some _ => mret tt end.

Definition note (ev : trace_event) : proc unit := sys (λ h, (Ok tt, set_trace (h_trace h ++ [(pid, ev)]) h)).

(** [ControlServer(...)]: the socket exists under its path and the process listens on it; a
    server that is not returned is closed when it is freed. *)
Definition bind_socket : proc nat := sys (λ h,
  match h_paths h !! socket_path with
  | Some _ => (Raise (PyError "OSError"), h)
  | None => (Ok (h_next h), create socket_path (mkInode Socket MODE_FILE euid EmptyString None (Some pid)) h)
  end).
Definition server_close (ino : nat) : proc unit := sure (λ h,
  (tt, update_inode ino (λ i, if bool_decide (i_server i = Some pid) then with_server None i else i) h)).
Definition unlink_missing_ok (path : string) : proc unit :=
  rescue (unlink path) (λ e, if bool_decide (e = FileNotFoundError) then mret tt else raise e).
Definition unbind_and_raise (ino : nat) : proc unit :=
  _ ← rescue (_ ← server_close ino; unlink_missing_ok socket_path) (λ e, if is_oserror e then mret tt else raise e);
  raise (PyError "PermissionError").
Definition verify_socket_safe (ino : nat) : proc unit :=
  st ← lstat socket_path;
  if bool_decide (i_kind st ≠ Socket) then raise (PyError "PermissionError")
  else if bool_decide (i_mode st ≠ MODE_FILE) then unbind_and_raise ino
  else if bool_decide (i_uid st ≠ euid) then unbind_and_raise ino
  else mret tt.
Definition ControlServer : proc nat :=
  ino ← bind_socket;
  rescue (_ ← verify_socket_safe ino; mret ino) (λ e, _ ← server_close ino; raise e).

Definition bind_control_server : proc (option nat) :=
  rescue (ino ← ControlServer; mret (Some ino))
    (λ e, if is_oserror e then _ ← emit "error_fatal" [("reason", "bind failed")]%string; mret None else raise e).

(** [_assert_runtime_paths_safe] and [_recover_stale_artifacts]: [false] is an error that was
    reported. *)
Definition assert_runtime_paths_safe : proc bool :=
  rescue (_ ← assert_paths_safe; mret true) (λ e, if bool_decide (e = UnsafePathError) then mret false else raise e).
Definition recovered_stale_artifacts : proc bool :=
  rescue (_ ← recover_stale_artifacts; mret true)
    (λ e, if bool_decide (e = PyError "StaleArtifactRefused")
          then _ ← emit "error_fatal" [("reason", "refuse stale")]%string; mret false
          else raise e).

(** The loop of [_serve_until_shutdown] ends when the system lets its call return. *)
Definition serve_until_shutdown : proc unit :=
  _ ← sure (λ h, (tt, h));   (* [shutdown_event.wait] *)
  _ ← emit "daemon_shutdown" [("trigger", "api_or_signal")]%string;
  sure (λ h, (tt, h)).       (* [server.shutdown], [join] *)

(** The warnings about test settings that are left on; their explanations are left out. *)
Definition warn_if (key event : string) (on : string → bool) (fields : string → list (string * string)) : proc unit :=
  match env !! key with
  | Some v => if on v then emit event (("pid", print_int pid)%string :: fields v) else mret tt
  | None => mret tt
  end.
Definition warn_about_test_seams : proc unit :=
  _ ← warn_if "AGENTTOWER_TEST_FORCE_HOST_PEER" "host_peer_check_bypassed" (λ v, bool_decide (v = "1"%string)) (λ _, []);
  _ ← warn_if "AGENTTOWER_TEST_INJECT_LATENCY_MS" "dashboard_test_latency_injected"
        (λ v, negb (bool_decide (v = EmptyString))) (λ v, [("inject_ms", v)]%string);
  warn_if "AGENTTOWER_TEST_FORCE_DEGRADED_SUBSYSTEMS" "dashboard_test_degraded_forced"
    (λ v, negb (bool_decide (v = EmptyString))) (λ v, [("forced_subsystems", v)]%string).

Definition set_server (o : option nat) (l : locals) : locals :=
  mkLocals (l_logger l) o (l_scan_conn l) (l_pane_conn l) (l_worker_conn l) (l_routing_worker l) (l_heartbeat l)
    (l_delivery_worker l).
Definition set_conns (scan pane : bool) (l : locals) : locals :=
  mkLocals (l_logger l) (l_server l) scan pane (l_worker_conn l) (l_routing_worker l) (l_heartbeat l) (l_delivery_worker l).
Definition set_delivery (l : locals) : locals :=
  mkLocals (l_logger l) (l_server l) (l_scan_conn l) (l_pane_conn l) true (l_routing_worker l) (l_heartbeat l) true.
Definition set_routing (l : locals) : locals :=
  mkLocals (l_logger l) (l_server l) (l_scan_conn l) (l_pane_conn l) (l_worker_conn l) true true (l_delivery_worker l).

(** [_build_feat009_services]: recovery before the worker starts; [_build_feat010_services]. *)
Definition build_feat009_services : proc unit :=
  _ ← note Recovered; _ ← note (Started DeliveryWorker); set_locals set_delivery.
Definition build_feat010_services : proc unit :=
  _ ← note (Started RoutingWorker); _ ← note (Started Heartbeat); set_locals set_routing.

(** [try: x.stop() except Exception: pass], when it is there. *)
Definition stop_quietly (there : bool) (s : service) : proc unit :=
  if there then rescue (note (Stopped s)) (λ e, if is_exception e then mret tt else raise e) else mret tt.

Definition stop_services : proc unit :=
  l ← get_locals;
  _ ← stop_quietly (l_routing_worker l) RoutingWorker;
  _ ← stop_quietly (l_heartbeat l) Heartbeat;
  _ ← stop_quietly (l_delivery_worker l) DeliveryWorker;
  note (Stopped Reader).

Definition cleanup_run (lock_fd : nat) (exit_code : Z) : proc unit :=
  l ← get_locals;
  _ ← match l_server l with
      | None => mret tt
      | Some ino => _ ← server_close ino; unlink_missing_ok socket_path
      end;
  _ ← remove_pid_file;
  _ ← (if l_logger l then emit "daemon_exited" [("exit_code", print_int exit_code)]%string else mret tt);
  release_lock lock_fd.

(** The two [try] blocks of [_run]; the value is that of [return], or [exit_code]. *)
Definition serve_with_services (exit_code : Z) : proc Z :=
  finally
    (_ ← build_feat009_services;
     _ ← build_feat010_services;
     server ← bind_control_server;
     _ ← set_locals (set_server server);
     match (server : option nat) with
     | None => mret 1
     | Some ino =>
         _ ← write_pid_file;
         _ ← emit "daemon_ready" [("socket", socket_path); ("pid", print_int pid)]%string;
         _ ← serve_until_shutdown;
         mret exit_code
     end)
    stop_services.

Definition run_locked (exit_code : Z) : proc Z :=
  safe ← assert_runtime_paths_safe;
  if negb safe then mret 1
  else
    _ ← open_logger;
    _ ← emit "daemon_starting" [("pid", print_int pid); ("state_dir", state_dir)]%string;
    _ ← warn_about_test_seams;
    recovered ← recovered_stale_artifacts;
    if negb recovered then mret 1
    else
      _ ← note (Started Discovery); _ ← set_locals (set_conns true false);
      _ ← note (Started Panes); _ ← set_locals (set_conns true true);
      _ ← rescue (sys (λ h, (Ok tt, h))) (λ e, if is_exception e then mret tt else raise e);   (* [detect_orphans] *)
      _ ← note (Started Reader);
      serve_with_services exit_code.

Definition run : proc Z :=
  _ ← guard_feat008_test_seams_unset;
  _ ← verify_feat001_initialized;
  lock ← rescue (fd ← acquire_exclusive_lock; mret (inr fd))
           (λ e, if bool_decide (e = LockHeldError) then mret (inl 2)
                 else if is_oserror e then mret (inl 1) else raise e);
  match (lock : Z + nat) with
  | inl code => mret code
  | inr lock_fd => let exit_code := 0 in finally (run_locked exit_code) (cleanup_run lock_fd exit_code)
  end.
End Process.

(** ** Many daemons *)

Section System.
Variable euid : Z.
Variables state_dir logs_dir state_db lock_path pid_path log_path socket_path : string.

Definition program (pid : Z) (env : environ) : prog (outcome Z) :=
  pbind (run euid state_dir logs_dir state_db lock_path pid_path log_path socket_path pid env no_locals) (λ r, Ret r.1).

Record system := mkSystem { sys_host : host; sys_procs : gmap Z (prog (outcome Z)) }.

(** A process is started, does its next call, or ends: at the end of its program, or killed. *)
Inductive sys_step : system → system → Prop :=
| step_spawn s pid env :
    sys_procs s !! pid = None →
    sys_step s (mkSystem (sys_host s) (<[pid := program pid env]> (sys_procs s)))
| step_call s pid f :
    sys_procs s !! pid = Some (Act f) →
    sys_step s (mkSystem (f (sys_host s)).2 (<[pid := (f (sys_host s)).1]> (sys_procs s)))
| step_end s pid p :
    sys_procs s !! pid = Some p →
    sys_step s (mkSystem (kernel_exit pid (sys_host s)) (delete pid (sys_procs s))).

(** *** What holds between calls *)

Hypothesis lock_is_not_socket : lock_path ≠ socket_path.
Hypothesis lock_is_not_pid : lock_path ≠ pid_path.

Definition holds (p : Z) (h : host) : Prop :=
  ∃ li l, h_paths h !! lock_path = Some li ∧ h_inodes h !! li = Some l ∧ i_lock l = Some p.

Record inv (h : host) : Prop := mkInv {
  inv_paths : ∀ path ino, h_paths h !! path = Some ino → is_Some (h_inodes h !! ino);
  inv_fresh : ∀ ino, is_Some (h_inodes h !! ino) → (ino < h_next h)%nat;
  inv_plain : ∀ i, stat_at lock_path h = Some i → i_kind i ≠ Symlink;
  inv_lock : ∀ ino i p, h_inodes h !! ino = Some i → i_lock i = Some p → h_paths h !! lock_path = Some ino;
  inv_served : ∀ ino i p, h_inodes h !! ino = Some i → i_server i = Some p →
    h_paths h !! socket_path = Some ino ∧ i_kind i = Socket ∧ holds p h
}.

(** What a call of [pid] leaves to the others. *)
Record guar (pid : Z) (h h' : host) : Prop := mkGuar {
  g_lock : ∀ li, h_paths h !! lock_path = Some li → h_paths h' !! lock_path = Some li;
  g_socket : ∀ p, p ≠ pid → holds p h → h_paths h' !! socket_path = h_paths h !! socket_path;
  g_inodes : ∀ ino i, h_inodes h !! ino = Some i → ∃ i', h_inodes h' !! ino = Some i' ∧ i_kind i' = i_kind i ∧
    (∀ p, p ≠ pid → i_lock i = Some p → i_lock i' = Some p) ∧
    (∀ p, p ≠ pid → i_server i = Some p → i_server i' = Some p);
  g_server : ∀ ino i' p, p ≠ pid → h_inodes h' !! ino = Some i' → i_server i' = Some p →
    ∃ i, h_inodes h !! ino = Some i ∧ i_server i = Some p;
  g_locked : ∀ ino i' p, p ≠ pid → h_inodes h' !! ino = Some i' → i_lock i' = Some p →
    ∃ i, h_inodes h !! ino = Some i ∧ i_lock i = Some p;
  g_files : ∀ path ino i, h_paths h !! path = Some ino → h_inodes h !! ino = Some i → path ≠ pid_path →
    (path = socket_path → i_kind i ≠ Socket) → h_paths h' !! path = Some ino
}.

(** Where a process is: without the lock, with its file open, with the lock ([known]: what is at
    the socket path is a socket), or listening. *)
Inductive phase := Free | Opened (li : nat) | Locked (li : nat) (known : bool) | Listening (li si : nat).

Definition not_serving (p : Z) (h : host) : Prop := ∀ ino i, h_inodes h !! ino = Some i → i_server i ≠ Some p.
Definition has_lock (p : Z) (li : nat) (h : host) : Prop :=
  h_paths h !! lock_path = Some li ∧ ∃ l, h_inodes h !! li = Some l ∧ i_lock l = Some p.
Definition socket_known (h : host) : Prop :=
  ∀ ino i, h_paths h !! socket_path = Some ino → h_inodes h !! ino = Some i → i_kind i = Socket.

Definition at_ (p : Z) (φ : phase) (h : host) : Prop :=
  match φ with
  | Free => not_serving p h
  | Opened li => h_paths h !! lock_path = Some li ∧ not_serving p h
  | Locked li known => has_lock p li h ∧ not_serving p h ∧ (known = true → socket_known h)
  | Listening li si => has_lock p li h ∧ h_paths h !! socket_path = Some si ∧ ∃ i, h_inodes h !! si = Some i ∧ i_server i = Some p
  end.

Lemma has_lock_holds p li h : has_lock p li h → holds p h.
Proof. intros (H1 & l & H2 & H3). by exists li, l. Qed.
Lemma holds_unique p q h : holds p h → holds q h → p = q.
Proof. intros (li & l & H1 & H2 & H3) (li' & l' & H1' & H2' & H3'). congruence. Qed.

Lemma has_lock_stable p q li h h' : p ≠ q → guar q h h' → has_lock p li h → has_lock p li h'.
Proof.
  intros Hn G (H1 & l & H2 & H3). split; [by apply (g_lock _ _ _ G)|].
  destruct (g_inodes _ _ _ G _ _ H2) as (l' & E & _ & Hl & _). exists l'. split; [done|by apply Hl].
Qed.
Lemma not_serving_stable p q h h' : p ≠ q → guar q h h' → not_serving p h → not_serving p h'.
Proof.
  intros Hn G H ino i E Hs. destruct (g_server _ _ _ G ino i p Hn E Hs) as (i0 & E0 & Hs0). by apply (H ino i0).
Qed.

(** What a process knows survives the calls of the others. *)
Lemma at_stable p q φ h h' : p ≠ q → inv h → guar q h h' → at_ p φ h → at_ p φ h'.
Proof.
  intros Hn I G. destruct φ as [|li|li known|li si]; cbn.
  - by apply (not_serving_stable p q).
  - intros [H1 H2]. split; [by apply (g_lock _ _ _ G)|by apply (not_serving_stable p q h)].
  - intros (H1 & H2 & H3). split; [by apply (has_lock_stable p q li h)|]. split; [by apply (not_serving_stable p q h)|].
    intros Hk ino i' E E'. rewrite (g_socket _ _ _ G p Hn (has_lock_holds _ _ _ H1)) in E.
    destruct (inv_paths _ I _ _ E) as [i Ei]. destruct (g_inodes _ _ _ G _ _ Ei) as (i2 & E2 & Hkind & _).
    rewrite E' in E2. injection E2 as <-. rewrite Hkind. by apply (H3 Hk ino).
  - intros (H1 & H2 & i & E & Hs). split; [by apply (has_lock_stable p q li h)|].
    split; [by rewrite (g_socket _ _ _ G p Hn (has_lock_holds _ _ _ H1))|].
    destruct (g_inodes _ _ _ G _ _ E) as (i' & E' & _ & _ & Hs'). exists i'. split; [done|by apply Hs'].
Qed.

(** *** Safe programs *)

Fixpoint safe {A} (pid : Z) (Q : A → phase → Prop) (p : prog A) (φ : phase) : Prop :=
  match p with
  | Ret a => ∃ φ', (∀ h, inv h → at_ pid φ h → at_ pid φ' h) ∧ Q a φ'
  | Act f => ∀ h, inv h → at_ pid φ h →
      match f h with
      | (p', h') => inv h' ∧ guar pid h h' ∧ ∃ φ', at_ pid φ' h' ∧ safe pid Q p' φ'
      end
  end.

Lemma safe_ret {A} pid (Q : A → phase → Prop) a φ : Q a φ → safe pid Q (Ret a) φ.
Proof. intros H. by exists φ. Qed.

Lemma safe_weaken {A} pid (Q : A → phase → Prop) p φ φ' :
  (∀ h, inv h → at_ pid φ h → at_ pid φ' h) → safe pid Q p φ' → safe pid Q p φ.
Proof.
  intros Hw. destruct p as [a|f]; cbn; [|by intros H h Hi Ha; apply H; auto].
  intros (φ2 & H1 & H2). exists φ2. split; [|done]. intros h Hi Ha. by apply H1; [|apply Hw].
Qed.

Lemma safe_bind {A B} pid (Q : B → phase → Prop) (k : A → prog B) p φ :
  safe pid (λ a φ', safe pid Q (k a) φ') p φ → safe pid Q (pbind p k) φ.
Proof.
  revert φ. induction p as [a|f IH] using prog_calls; intros φ; cbn.
  - intros (φ' & H1 & H2). by eapply safe_weaken.
  - intros H h Hi Ha. specialize (H h Hi Ha). specialize (IH h). destruct (f h) as [p' h']. cbn in IH.
    destruct H as (H1 & H2 & φ' & H3 & H4). split_and!; [done..|]. exists φ'. split; [done|]. by apply IH.
Qed.
Definition triple {A} (pid : Z) (m : proc A) (l : locals) (φ : phase) (Q : outcome A → locals → phase → Prop) : Prop :=
  safe pid (λ r φ', Q r.1 r.2 φ') (m l) φ.

Lemma safe_mono {A} pid (Q Q' : A → phase → Prop) p φ : (∀ a φ, Q a φ → Q' a φ) → safe pid Q p φ → safe pid Q' p φ.
Proof.
  intros HQ. revert φ. induction p as [a|f IH] using prog_calls; intros φ; cbn.
  - intros (φ' & H1 & H2). exists φ'. auto.
  - intros H h Hi Ha. specialize (H h Hi Ha). specialize (IH h). destruct (f h) as [p' h']. cbn in IH.
    destruct H as (H1 & H2 & φ' & H3 & H4). split_and!; [done..|]. exists φ'. split; [done|]. by apply IH.
Qed.
Lemma triple_mono {A} pid (m : proc A) l φ (Q Q' : outcome A → locals → phase → Prop) :
  triple pid m l φ Q → (∀ o l' φ', Q o l' φ' → Q' o l' φ') → triple pid m l φ Q'.
Proof. intros H HQ. eapply safe_mono; [|exact H]. intros r φ'. apply HQ. Qed.
Lemma triple_ret {A} pid (o : outcome A) l φ (Q : outcome A → locals → phase → Prop) :
  Q o l φ → triple pid (λ l, Ret (o, l)) l φ Q.
Proof. intros H. by apply safe_ret. Qed.
Lemma triple_bind {A B} pid (m : proc A) (k : A → proc B) l φ Q :
  triple pid m l φ (λ o l' φ', match o with Ok a => triple pid (k a) l' φ' Q | Raise e => Q (Raise e) l' φ' end) →
  triple pid (m ≫= k) l φ Q.
Proof.
  intros H. apply safe_bind. eapply safe_mono; [|exact H]. intros [[a|e] l'] φ' Hr; [done|by apply safe_ret].
Qed.
Lemma triple_rescue {A} pid (m : proc A) h l φ Q :
  triple pid m l φ (λ o l' φ', match o with Ok a => Q (Ok a) l' φ' | Raise e => triple pid (h e) l' φ' Q end) →
  triple pid (rescue m h) l φ Q.
Proof.
  intros H. apply safe_bind. eapply safe_mono; [|exact H]. intros [[a|e] l'] φ' Hr; [by apply safe_ret|done].
Qed.
Lemma triple_finally {A} pid (m : proc A) cleanup l φ Q :
  triple pid m l φ (λ o l' φ', triple pid cleanup l' φ' (λ o' l'' φ'',
    match o' with Ok _ => Q o l'' φ'' | Raise e => Q (Raise e) l'' φ'' end)) →
  triple pid (finally m cleanup) l φ Q.
Proof.
  intros H. apply safe_bind. eapply safe_mono; [|exact H]. intros [o l'] φ' Hr. apply safe_bind.
  eapply safe_mono; [|exact Hr]. intros [[[]|e] l''] φ'' Hr'; by apply safe_ret.
Qed.
Lemma triple_sys {A} pid (f : host → outcome A * host) l φ Q :
  (∀ e, Q (Raise e) l φ) →
  (∀ h, inv h → at_ pid φ h → inv (f h).2 ∧ guar pid h (f h).2 ∧ ∃ φ', at_ pid φ' (f h).2 ∧ Q (f h).1 l φ') →
  triple pid (sys f) l φ Q.
Proof.
  intros He Hf h Hi Ha.
  assert (Hg : ∀ r, guar pid h (set_host_faults r h)).
  { intros r. constructor; cbn; try done; [intros ino i Ei; by exists i|intros ino i p _ Ei Hs; by exists i..]. }
  destruct (h_faults h) as [|[e|] rest].
  - destruct (Hf h Hi Ha) as (H1 & H2 & φ' & H3 & H4). destruct (f h) as [o h']. split_and!; [done..|].
    exists φ'. split; [done|]. by apply safe_ret.
  - split_and!; [by destruct Hi; constructor|done|]. exists φ. split; [done|]. apply safe_ret, He.
  - assert (Hi' : inv (set_host_faults rest h)) by (by destruct Hi; constructor).
    destruct (Hf (set_host_faults rest h) Hi' Ha) as (H1 & H2 & φ' & H3 & H4). destruct (f _) as [o h'].
    split_and!; [done|by destruct H2; constructor|]. exists φ'. split; [done|]. by apply safe_ret.
Qed.
Lemma triple_sure {A} pid (f : host → A * host) l φ Q :
  (∀ h, inv h → at_ pid φ h → inv (f h).2 ∧ guar pid h (f h).2 ∧ ∃ φ', at_ pid φ' (f h).2 ∧ Q (Ok (f h).1) l φ') →
  triple pid (sure f) l φ Q.
Proof.
  intros Hf h Hi Ha. destruct (Hf h Hi Ha) as (H1 & H2 & φ' & H3 & H4). destruct (f h) as [o h']. split_and!; [done..|].
  exists φ'. split; [done|]. by apply safe_ret.
Qed.

(** *** Calls that change nothing the others look at *)

Definition same (h h' : host) : Prop :=
  h_paths h' = h_paths h ∧ h_next h' = h_next h ∧
  ∀ ino, match h_inodes h !! ino, h_inodes h' !! ino with
         | Some i, Some i' => i_kind i' = i_kind i ∧ i_lock i' = i_lock i ∧ i_server i' = i_server i
         | None, None => True
         | _, _ => False
         end.

Lemma same_refl h : same h h.
Proof. split_and!; [done..|]. intros ino. by destruct (h_inodes h !! ino). Qed.
Lemma same_fw h h' ino i : same h h' → h_inodes h !! ino = Some i →
  ∃ i', h_inodes h' !! ino = Some i' ∧ i_kind i' = i_kind i ∧ i_lock i' = i_lock i ∧ i_server i' = i_server i.
Proof. intros (_ & _ & H) E. specialize (H ino). rewrite E in H. destruct (h_inodes h' !! ino) as [i'|]; [by exists i'|done]. Qed.
Lemma same_bw h h' ino i' : same h h' → h_inodes h' !! ino = Some i' →
  ∃ i, h_inodes h !! ino = Some i ∧ i_kind i' = i_kind i ∧ i_lock i' = i_lock i ∧ i_server i' = i_server i.
Proof. intros (_ & _ & H) E. specialize (H ino). rewrite E in H. destruct (h_inodes h !! ino) as [i|]; [by exists i|done]. Qed.
Lemma same_update ino f h :
  (∀ i, i_kind (f i) = i_kind i ∧ i_lock (f i) = i_lock i ∧ i_server (f i) = i_server i) → same h (update_inode ino f h).
Proof.
  intros Hf. split_and!; [done..|]. intros n. cbn. destruct (decide (n = ino)) as [->|Hn].
  - rewrite lookup_alter_eq. destruct (h_inodes h !! ino); [apply Hf|done].
  - rewrite lookup_alter_ne by done. by destruct (h_inodes h !! n).
Qed.

Lemma same_holds p h h' : same h h' → holds p h → holds p h'.
Proof.
  intros S (li & l & H1 & H2 & H3). pose proof S as (Hp & _). destruct (same_fw _ _ _ _ S H2) as (l' & E & _ & El & _).
  exists li, l'. rewrite Hp. split_and!; congruence.
Qed.
Lemma same_inv h h' : same h h' → inv h → inv h'.
Proof.
  intros S I. pose proof S as (Hp & Hn & _). constructor.
  - rewrite Hp. intros path ino E. destruct (inv_paths _ I _ _ E) as [i Ei].
    destruct (same_fw _ _ _ _ S Ei) as (i' & Ei' & _). by exists i'.
  - intros ino [i' E]. rewrite Hn. destruct (same_bw _ _ _ _ S E) as (i & Ei & _). apply (inv_fresh _ I). by exists i.
  - unfold stat_at. rewrite Hp. intros i' E. destruct (h_paths h !! lock_path) as [ino|] eqn:El; [|done]. cbn in E.
    destruct (same_bw _ _ _ _ S E) as (i & Ei & -> & _). apply (inv_plain _ I). unfold stat_at. by rewrite El.
  - rewrite Hp. intros ino i' p E Hl. destruct (same_bw _ _ _ _ S E) as (i & Ei & _ & Hl' & _).
    apply (inv_lock _ I ino i p); congruence.
  - rewrite Hp. intros ino i' p E Hs. destruct (same_bw _ _ _ _ S E) as (i & Ei & Hk & _ & Hs').
    destruct (inv_served _ I ino i p Ei) as (H1 & H2 & H3); [congruence|]. split_and!; [done|congruence|by apply (same_holds p h)].
Qed.
Lemma same_guar pid h h' : same h h' → guar pid h h'.
Proof.
  intros S. pose proof S as (Hp & _). constructor; rewrite ?Hp; try done.
  - intros ino i E. destruct (same_fw _ _ _ _ S E) as (i' & E' & Hk & Hl & Hs). exists i'. rewrite Hl, Hs. by split_and!.
  - intros ino i' p _ E Hs. destruct (same_bw _ _ _ _ S E) as (i & Ei & _ & _ & Hs'). exists i. split; congruence.
  - intros ino i' p _ E Hs. destruct (same_bw _ _ _ _ S E) as (i & Ei & _ & Hs' & _). exists i. split; congruence.
Qed.
Lemma same_at p φ h h' : same h h' → at_ p φ h → at_ p φ h'.
Proof.
  intros S. pose proof S as (Hp & _).
  assert (Hl : ∀ li, has_lock p li h → has_lock p li h').
  { intros li (H1 & l & H2 & H3). destruct (same_fw _ _ _ _ S H2) as (l' & E & _ & El & _). split; [by rewrite Hp|].
    exists l'. split; congruence. }
  assert (Hn : not_serving p h → not_serving p h').
  { intros H ino i' E. destruct (same_bw _ _ _ _ S E) as (i & Ei & _ & _ & ->). by apply (H ino). }
  destruct φ as [|li|li known|li si]; cbn; rewrite ?Hp.
  - done.
  - intros [H1 H2]. auto.
  - intros (H1 & H2 & H3). split_and!; [auto..|]. intros Hk ino i' E E'. rewrite Hp in E.
    destruct (same_bw _ _ _ _ S E') as (i & Ei & -> & _). by apply (H3 Hk ino).
  - intros (H1 & H2 & i & E & Hs). split_and!; [auto|done|]. destruct (same_fw _ _ _ _ S E) as (i' & E' & _ & _ & Hs').
    exists i'. split; congruence.
Qed.

Lemma triple_look {A} pid (f : host → outcome A * host) l φ Q :
  (∀ h, same h (f h).2) → (∀ o, Q o l φ) → triple pid (sys f) l φ Q.
Proof.
  intros Hs HQ. apply triple_sys; [done|]. intros h Hi Ha. split; [by eapply same_inv|]. split; [by apply same_guar|].
  exists φ. split; [by eapply same_at|done].
Qed.
(** *** Calls that create, remove, lock and listen *)

Lemma next_free h : inv h → h_inodes h !! h_next h = None.
Proof.
  intros I. destruct (h_inodes h !! h_next h) eqn:E; [|done]. pose proof (inv_fresh _ I (h_next h)) as H.
  rewrite E in H. specialize (H (ex_intro _ _ eq_refl)). lia.
Qed.
Lemma follow_plain fuel path h : (∀ i, stat_at path h = Some i → i_kind i ≠ Symlink) → follow_links fuel path h = Some path.
Proof.
  intros H. destruct fuel; cbn; destruct (stat_at path h) as [i|]; try done; by rewrite bool_decide_eq_false_2 by (by apply H).
Qed.
Lemma create_old p i h ino j : inv h → h_inodes h !! ino = Some j → h_inodes (create p i h) !! ino = Some j.
Proof.
  intros I E. cbn. rewrite lookup_insert_ne; [done|]. intros <-. by rewrite next_free in E.
Qed.
Lemma create_path p i h path ino :
  h_paths h !! p = None → h_paths h !! path = Some ino → h_paths (create p i h) !! path = Some ino.
Proof. intros Hp E. cbn. rewrite lookup_insert_ne; [done|]. intros ->. congruence. Qed.
Lemma create_inode p i h ino j :
  h_inodes (create p i h) !! ino = Some j → (ino = h_next h ∧ j = i) ∨ h_inodes h !! ino = Some j.
Proof. cbn. intros [[<- ->]|[_ ?]]%lookup_insert_Some; auto. Qed.
Lemma create_holds p i h q : inv h → h_paths h !! p = None → holds q h → holds q (create p i h).
Proof.
  intros I Hp (li & l & H1 & H2 & H3). exists li, l. split_and!; [by apply create_path|by apply create_old|done].
Qed.

(** A process with the lock, or the first to make the lock file, adds a file or its socket. *)
Lemma create_inv pid p i h :
  inv h → h_paths h !! p = None → i_lock i = None → i_kind i ≠ Symlink →
  (i_server i = None ∨ p = socket_path ∧ i_kind i = Socket ∧ i_server i = Some pid ∧ holds pid h) →
  inv (create p i h).
Proof.
  intros I Hp Hl Hk Hs. constructor.
  - intros path ino. cbn [create h_paths]. intros [[<- <-]|[Hn E]]%lookup_insert_Some.
    + cbn. rewrite lookup_insert_eq. by eexists.
    + destruct (inv_paths _ I _ _ E) as [j Ej]. rewrite (create_old _ _ _ _ _ I Ej). by eexists.
  - intros ino [j [[-> _]|E]%create_inode]; cbn; [lia|]. pose proof (inv_fresh _ I ino (ex_intro _ _ E)). lia.
  - intros j. unfold stat_at. cbn [create h_paths]. destruct (decide (p = lock_path)) as [->|Hn].
    + rewrite lookup_insert_eq. cbn. rewrite lookup_insert_eq. by intros [= <-].
    + rewrite lookup_insert_ne by done. destruct (h_paths h !! lock_path) as [ino|] eqn:E; [|done].
      destruct (inv_paths _ I _ _ E) as [k Ek]. simpl. rewrite lookup_insert_ne by (intros <-; by rewrite next_free in Ek).
      intros E2. apply (inv_plain _ I). unfold stat_at. by rewrite E.
  - intros ino j q [[-> ->]|E]%create_inode Hq; [congruence|]. apply create_path; [done|]. by apply (inv_lock _ I ino j q).
  - intros ino j q [[-> ->]|E]%create_inode Hq.
    + destruct Hs as [Hs|(-> & Hk2 & Hs & Hh)]; [congruence|]. rewrite Hs in Hq. injection Hq as <-.
      split_and!; [cbn; by rewrite lookup_insert_eq|done|by apply create_holds].
    + destruct (inv_served _ I ino j q E Hq) as (H1 & H2 & H3).
      split_and!; [by apply create_path|done|by apply create_holds].
Qed.
Lemma create_guar pid p i h :
  inv h → h_paths h !! p = None → (i_server i = None ∨ i_server i = Some pid) → i_lock i = None →
  (∀ q, q ≠ pid → holds q h → p ≠ socket_path) → guar pid h (create p i h).
Proof.
  intros I Hp Hs Hl Ho. constructor.
  - intros li. by apply create_path.
  - intros q Hq Hh. cbn. by rewrite lookup_insert_ne by (by eapply Ho).
  - intros ino j E. exists j. split_and!; [by apply create_old|done..].
  - intros ino j q Hq [[-> ->]|E]%create_inode Hj; [destruct Hs; congruence|by exists j].
  - intros ino j q Hq [[-> ->]|E]%create_inode Hj; [congruence|by exists j].
  - intros path ino j E _ _ _. by apply create_path.
Qed.
Lemma create_at pid p i h li known :
  inv h → h_paths h !! p = None → i_server i = None → at_ pid (Locked li known) h →
  (p = socket_path → i_kind i = Socket) → at_ pid (Locked li known) (create p i h).
Proof.
  intros I Hp Hs ((H1 & l & H2 & H3) & Hn & Hk) Hsk. split_and!.
  - split; [by apply create_path|]. exists l. split; [by apply create_old|done].
  - intros ino j [[-> ->]|E]%create_inode; [by rewrite Hs|by apply (Hn ino)].
  - intros Ht ino j E1 [[-> ->]|E]%create_inode; cbn in E1.
    + destruct (decide (p = socket_path)) as [Hpp|Hpp]; [auto|]. rewrite lookup_insert_ne in E1 by done.
      destruct (inv_paths _ I _ _ E1) as [x Ex]. by rewrite next_free in Ex.
    + destruct (decide (p = socket_path)) as [->|Hpp].
      * rewrite lookup_insert_eq in E1. injection E1 as <-. by rewrite next_free in E.
      * rewrite lookup_insert_ne in E1 by done. by apply (Hk Ht ino).
Qed.

(** With the lock, what happens at the socket path is nobody else's business. *)
Lemma alone pid q li h : has_lock pid li h → holds q h → q = pid.
Proof. intros H. by intros ?%(holds_unique q pid h); [|eapply has_lock_holds]. Qed.
Lemma nobody_serves pid li h :
  inv h → has_lock pid li h → not_serving pid h → ∀ ino i q, h_inodes h !! ino = Some i → i_server i ≠ Some q.
Proof.
  intros I Hl Hn ino i q E Hs. destruct (inv_served _ I ino i q E Hs) as (_ & _ & Hh).
  rewrite (alone _ _ _ _ Hl Hh) in Hs. by apply (Hn ino i).
Qed.

Lemma unlink_safe pid path li h known i :
  inv h → at_ pid (Locked li known) h → path ≠ lock_path → stat_at path h = Some i →
  (path = pid_path ∨ path = socket_path ∧ i_kind i = Socket) →
  inv (unlink_path path h) ∧ guar pid h (unlink_path path h) ∧ at_ pid (Locked li known) (unlink_path path h).
Proof.
  intros I (Hl & Hn & Hk) Hp Hi Hw. pose proof (nobody_serves _ _ _ I Hl Hn) as Hnone.
  assert (Hlk : h_paths (unlink_path path h) !! lock_path = h_paths h !! lock_path) by (cbn; by rewrite lookup_delete_ne).
  split_and!.
  - constructor.
    + intros p ino. cbn. intros [_ E]%lookup_delete_Some. by apply (inv_paths _ I p).
    + apply (inv_fresh _ I).
    + intros j. unfold stat_at. rewrite Hlk. apply (inv_plain _ I).
    + intros ino j q E Hq. rewrite Hlk. by apply (inv_lock _ I ino j q).
    + intros ino j q E Hs. by destruct (Hnone ino j q E).
  - constructor.
    + intros x. by rewrite Hlk.
    + intros q Hq Hh. by destruct Hq; apply (alone pid q li h).
    + intros ino j E. by exists j.
    + intros ino j q _ E Hs. by exists j.
    + intros ino j q _ E Hs. by exists j.
    + intros p ino j E Ej Hpp Hs. cbn. rewrite lookup_delete_ne; [done|]. intros <-.
      destruct Hw as [->|[-> Hkind]]; [done|]. apply Hs; [done|]. unfold stat_at in Hi. rewrite E in Hi. cbn in Hi. congruence.
  - destruct Hl as (H1 & l & H2 & H3). split; [split; [by rewrite Hlk|by exists l]|]. split; [done|].
    intros Ht ino j. cbn. intros [_ E]%lookup_delete_Some. by apply (Hk Ht ino).
Qed.
Lemma triple_open_lock pid l :
  triple pid (os_open euid false lock_path) l Free (λ o l' φ', l' = l ∧
    match o with Ok li => φ' = Opened li | Raise _ => φ' = Free end).
Proof.
  apply triple_sys; [done|]. intros h I Hn. rewrite (follow_plain _ _ _ (inv_plain _ I)).
  assert (S := same_refl h). destruct (h_paths h !! lock_path) as [ino|] eqn:E.
  - destruct (bool_decide _); (split; [done|]); (split; [by apply same_guar|]).
    + exists (Opened ino). by split_and!.
    + exists Free. by split_and!.
  - cbn [fst snd]. split; [apply (create_inv pid); auto|]. split; [apply create_guar; auto; by intros q _ _|].
    exists (Opened (h_next h)). split; [|done]. split; [cbn; by rewrite lookup_insert_eq|].
    intros ino i [[-> ->]|Ei]%create_inode; [done|by apply (Hn ino)].
Qed.

Lemma update_lookup ino f h n :
  h_inodes (update_inode ino f h) !! n = if decide (n = ino) then f <$> h_inodes h !! n else h_inodes h !! n.
Proof.
  cbn. destruct (decide (n = ino)) as [->|Hn]; [apply lookup_alter_eq|by apply lookup_alter_ne].
Qed.

Lemma triple_flock pid li l :
  triple pid (flock pid li) l (Opened li) (λ o l' φ', l' = l ∧
    match o with Ok _ => φ' = Locked li false | Raise _ => φ' = Opened li end).
Proof.
  apply triple_sys; [done|]. intros h I [Hp Hn]. assert (S := same_refl h).
  destruct (h_inodes h !! li) as [i|] eqn:E; [|split; [done|]; split; [by apply same_guar|]; by exists (Opened li)].
  case_bool_decide as Hl; [|split; [done|]; split; [by apply same_guar|]; by exists (Opened li)].
  cbn [fst snd]. set (h' := update_inode li (with_lock (Some pid)) h).
  assert (Ho : ∀ q, holds q h → q = pid).
  { intros q (li' & l' & H1 & H2 & H3). rewrite Hp in H1. injection H1 as <-. rewrite E in H2. injection H2 as <-.
    destruct Hl; congruence. }
  assert (Hh : has_lock pid li h').
  { split; [done|]. exists (with_lock (Some pid) i). split; [|done]. unfold h'. rewrite update_lookup, decide_True by done.
    by rewrite E. }
  assert (Hb : ∀ n j, h_inodes h' !! n = Some j → ∃ j0, h_inodes h !! n = Some j0 ∧ i_kind j = i_kind j0 ∧ i_server j = i_server j0 ∧
             (n ≠ li → j = j0)).
  { intros n j. unfold h'. rewrite update_lookup. case_decide as Hn2; [|intros ?; by exists j].
    destruct (h_inodes h !! n) as [j0|]; [|done]. cbn. intros [= <-]. by exists j0. }
  split_and!.
  - constructor.
    + intros path ino Ep. destruct (inv_paths _ I _ _ Ep) as [j Ej]. unfold h'. rewrite update_lookup, Ej.
      case_decide; by eexists.
    + intros ino [j Ej]. destruct (Hb _ _ Ej) as (j0 & E0 & _). apply (inv_fresh _ I). by exists j0.
    + intros j. unfold stat_at. change (h_paths h') with (h_paths h). rewrite Hp. cbn. intros Ej.
      destruct (Hb _ _ Ej) as (j0 & E0 & -> & _). apply (inv_plain _ I). unfold stat_at. by rewrite Hp.
    + intros ino j q Ej Hq. destruct (decide (ino = li)) as [->|Hne]; [done|].
      destruct (Hb _ _ Ej) as (j0 & E0 & _ & _ & Hj). rewrite Hj in Hq by done. by apply (inv_lock _ I ino j0 q).
    + intros ino j q Ej Hq. destruct (Hb _ _ Ej) as (j0 & E0 & -> & Hsv & _). rewrite Hsv in Hq.
      destruct (inv_served _ I ino j0 q E0 Hq) as (H1 & H2 & H3). split_and!; [done|done|]. rewrite (Ho q H3).
      by apply (has_lock_holds _ li).
  - constructor; try done.
    + intros ino j Ej. unfold h'. rewrite update_lookup, Ej. case_decide as Hn2; [|by exists j].
      subst ino. rewrite E in Ej. injection Ej as <-. exists (with_lock (Some pid) i). split_and!; try done.
      intros q Hq Hlk. exfalso. destruct Hl; congruence.
    + intros ino j q Hq Ej Hs. destruct (Hb _ _ Ej) as (j0 & E0 & _ & Hsv & _). exists j0. split; congruence.
    + intros ino j q Hq. unfold h'. rewrite update_lookup. case_decide as Hn2; [|by exists j].
      destruct (h_inodes h !! ino); [|done]. cbn. intros [= <-] [= <-]. done.
  - exists (Locked li false). split; [|done]. split_and!; [done| |done].
    intros ino j Ej. destruct (Hb _ _ Ej) as (j0 & E0 & _ & -> & _). by apply (Hn ino).
Qed.
(** A process drops what is its own: an inode changes only in the lock or server of [pid]. *)
Definition drops (pid : Z) (f : inode → inode) : Prop := ∀ i,
  i_kind (f i) = i_kind i ∧
  (i_lock (f i) = i_lock i ∨ i_lock i = Some pid ∧ i_lock (f i) = None) ∧
  (i_server (f i) = i_server i ∨ i_server i = Some pid ∧ i_server (f i) = None).

Lemma drop_bw pid f ino h n j : drops pid f → h_inodes (update_inode ino f h) !! n = Some j →
  ∃ i, h_inodes h !! n = Some i ∧ i_kind j = i_kind i ∧
    (∀ q, i_lock j = Some q → i_lock i = Some q) ∧ (∀ q, i_server j = Some q → i_server i = Some q).
Proof.
  intros Hf. rewrite update_lookup. case_decide as Hn; [|intros E; by exists j].
  destruct (h_inodes h !! n) as [i|]; [|done]. cbn. intros [= <-]. exists i.
  destruct (Hf i) as (H1 & H2 & H3). split_and!; [done|done| |]; intros q.
  - destruct H2 as [->|[_ ->]]; [done|by intros [=]].
  - destruct H3 as [->|[_ ->]]; [done|by intros [=]].
Qed.
Lemma drop_fw pid f ino h n i : drops pid f → h_inodes h !! n = Some i →
  ∃ j, h_inodes (update_inode ino f h) !! n = Some j ∧ i_kind j = i_kind i ∧
    (∀ q, q ≠ pid → i_lock i = Some q → i_lock j = Some q) ∧ (∀ q, q ≠ pid → i_server i = Some q → i_server j = Some q).
Proof.
  intros Hf E. rewrite update_lookup, E. case_decide as Hn; [|by exists i]. exists (f i).
  destruct (Hf i) as (H1 & H2 & H3). split_and!; [done|done| |]; intros q Hq Hx.
  - destruct H2 as [->|[E2 _]]; [done|congruence].
  - destruct H3 as [->|[E3 _]]; [done|congruence].
Qed.
Lemma drop_guar pid f ino h : drops pid f → guar pid h (update_inode ino f h).
Proof.
  intros Hf. constructor; try done; [intros n i E; by apply drop_fw|..];
    intros n j q Hq E Hs; destruct (drop_bw _ _ _ _ _ _ Hf E) as (i & Ei & _ & H1 & H2); exists i; auto.
Qed.
Lemma drop_inv pid f ino h :
  drops pid f → inv h → (∀ n j, h_inodes (update_inode ino f h) !! n = Some j → i_server j = Some pid →
    holds pid (update_inode ino f h)) → inv (update_inode ino f h).
Proof.
  intros Hf I Hown. set (h' := update_inode ino f h) in *. constructor.
  - intros path n E. destruct (inv_paths _ I _ _ E) as [i Ei]. destruct (drop_fw pid f ino h n i Hf Ei) as (j & Ej & _).
    by exists j.
  - intros n [j Ej]. destruct (drop_bw _ _ _ _ _ _ Hf Ej) as (i & Ei & _). apply (inv_fresh _ I). by exists i.
  - intros j. unfold stat_at. change (h_paths h') with (h_paths h).
    destruct (h_paths h !! lock_path) as [n|] eqn:E; [|done]. cbn. intros Ej.
    destruct (drop_bw _ _ _ _ _ _ Hf Ej) as (i & Ei & -> & _). apply (inv_plain _ I). unfold stat_at. by rewrite E.
  - intros n j q Ej Hq. destruct (drop_bw _ _ _ _ _ _ Hf Ej) as (i & Ei & _ & Hl & _). apply (inv_lock _ I n i q); auto.
  - intros n j q Ej Hq. destruct (drop_bw _ _ _ _ _ _ Hf Ej) as (i & Ei & -> & _ & Hs).
    destruct (inv_served _ I n i q Ei (Hs q Hq)) as (H1 & H2 & (li & x & L1 & L2 & L3)). split_and!; [done|done|].
    destruct (decide (q = pid)) as [->|Hne]; [by eapply Hown|].
    destruct (drop_fw pid f ino h li x Hf L2) as (x' & Ex & _ & Hlk & _). exists li, x'. split_and!; [done|done|by apply Hlk].
Qed.

Lemma triple_close pid li φ l :
  φ = Opened li ∨ (∃ k, φ = Locked li k) →
  triple pid (os_close pid li) l φ (λ o l' φ', l' = l ∧ o = Ok tt ∧ φ' = Free).
Proof.
  intros Hφ. apply triple_sure. intros h I Ha. cbn [fst snd].
  assert (Hn : not_serving pid h) by (destruct Hφ as [->|[k ->]]; apply Ha).
  set (f := λ i, if bool_decide (i_lock i = Some pid) then with_lock None i else i).
  assert (Hf : drops pid f).
  { intros i. unfold f. case_bool_decide; cbn; split_and!; auto. }
  assert (Hn' : not_serving pid (update_inode li f h)).
  { intros n j Ej Hs. destruct (drop_bw _ _ _ _ _ _ Hf Ej) as (i & Ei & _ & _ & Hs'). by apply (Hn n i Ei), Hs'. }
  split; [apply (drop_inv pid); [done|done|]|split; [by apply drop_guar|by exists Free]].
  intros n j Ej Hs. by destruct (Hn' n j Ej).
Qed.

Lemma triple_server_close pid li si l :
  triple pid (server_close pid si) l (Listening li si) (λ o l' φ', l' = l ∧ o = Ok tt ∧ φ' = Locked li true).
Proof.
  apply triple_sure. intros h I (Hl & Hp & i & Ei & Hs). cbn [fst snd].
  set (f := λ i, if bool_decide (i_server i = Some pid) then with_server None i else i).
  assert (Hf : drops pid f).
  { intros j. unfold f. case_bool_decide; cbn; split_and!; auto. }
  set (h' := update_inode si f h).
  assert (Hn : not_serving pid h').
  { intros n j Ej Hj. destruct (drop_bw _ _ _ _ _ _ Hf Ej) as (j0 & E0 & _ & _ & Hj0).
    destruct (inv_served _ I n j0 pid E0 (Hj0 _ Hj)) as (Hpn & _). rewrite Hp in Hpn. injection Hpn as <-.
    unfold h' in Ej. rewrite update_lookup, decide_True, E0 in Ej by done. cbn in Ej. injection Ej as <-.
    unfold f in Hj. by case_bool_decide. }
  split; [|split; [by apply drop_guar|]].
  - apply (drop_inv pid); [done|done|]. intros n j Ej Hj. by destruct (Hn n j Ej).
  - exists (Locked li true). split; [|done]. split_and!; [|done|].
    + destruct Hl as (H1 & x & H2 & H3). split; [done|]. unfold h'. rewrite update_lookup.
      case_decide; [|by exists x]. rewrite H2. exists (f x). split; [done|]. unfold f. by case_bool_decide.
    + intros _ n j En Ej. change (h_paths h') with (h_paths h) in En. rewrite Hp in En. injection En as <-.
      destruct (drop_bw _ _ _ _ _ _ Hf Ej) as (j0 & E0 & -> & _). rewrite Ei in E0. injection E0 as <-.
      by destruct (inv_served _ I si i pid Ei Hs) as (_ & ? & _).
Qed.

Lemma triple_bind_socket pid li k l :
  triple pid (bind_socket euid socket_path pid) l (Locked li k) (λ o l' φ', l' = l ∧
    match o with Ok si => φ' = Listening li si | Raise _ => φ' = Locked li k end).
Proof.
  apply triple_sys; [done|]. intros h I Ha. pose proof Ha as (Hl & Hn & Hk).
  destruct (h_paths h !! socket_path) as [x|] eqn:E.
  - split; [done|]. split; [apply same_guar, same_refl|]. by exists (Locked li k).
  - cbn [fst snd]. set (i := mkInode Socket MODE_FILE euid EmptyString None (Some pid)).
    split; [apply (create_inv pid); auto; right; split_and!; [done..|by eapply has_lock_holds]|].
    split; [apply create_guar; auto; intros q Hq Hh; by destruct Hq; apply (alone pid q li h)|].
    exists (Listening li (h_next h)). split; [|done]. destruct Hl as (H1 & x & H2 & H3). split_and!.
    + split; [by apply create_path|]. exists x. split; [by apply create_old|done].
    + cbn. by rewrite lookup_insert_eq.
    + exists i. split; [cbn; by rewrite lookup_insert_eq|done].
Qed.

Lemma triple_unlink pid path li k l :
  path = pid_path ∨ path = socket_path ∧ k = true →
  triple pid (unlink path) l (Locked li k) (λ o l' φ', l' = l ∧ φ' = Locked li k).
Proof.
  intros Hw. apply triple_sys; [done|]. intros h I Ha. assert (S := same_refl h).
  destruct (stat_at path h) as [i|] eqn:E; [|split; [done|]; split; [by apply same_guar|]; by exists (Locked li k)].
  case_bool_decide; [split; [done|]; split; [by apply same_guar|]; by exists (Locked li k)|]. cbn [fst snd].
  destruct (unlink_safe pid path li h k i) as (H1 & H2 & H3); [done|done|naive_solver|done| |].
  - destruct Hw as [->|[-> ->]]; [by left|]. right. split; [done|]. destruct Ha as (_ & _ & Hk).
    unfold stat_at in E. destruct (h_paths h !! socket_path) as [ino|] eqn:Ep; [|done]. by apply (Hk eq_refl ino).
  - split_and!; [done..|]. by exists (Locked li k).
Qed.

Lemma triple_open pid trunc path li φ l :
  φ = Locked li false ∨ (∃ si, φ = Listening li si) →
  triple pid (os_open euid trunc path) l φ (λ o l' φ', l' = l ∧ φ' = φ).
Proof.
  intros Hφ. apply triple_sys; [done|]. intros h I Ha.
  assert (Hno : ∀ o, same h o → inv o ∧ guar pid h o ∧ ∃ φ', at_ pid φ' o ∧ l = l ∧ φ' = φ).
  { intros o S. split; [by eapply same_inv|]. split; [by apply same_guar|]. exists φ. split; [by eapply same_at|done]. }
  destruct (follow_links _ path h) as [p|]; [|apply Hno, same_refl].
  destruct (h_paths h !! p) as [ino|] eqn:E.
  { destruct (bool_decide _); [|apply Hno, same_refl]. destruct trunc; [|apply Hno, same_refl]. by apply Hno, same_update. }
  cbn [fst snd]. set (i := mkInode Regular MODE_FILE euid EmptyString None None).
  assert (Hl : has_lock pid li h) by (destruct Hφ as [->|[si ->]]; apply Ha).
  split; [apply (create_inv pid); auto|].
  split; [apply create_guar; auto; intros q Hq Hh; by destruct Hq; apply (alone pid q li h)|].
  exists φ. split; [|done]. destruct Hφ as [->|[si ->]].
  - destruct Ha as ((H1 & x & H2 & H3) & Hn & _). split_and!; [|by intros n j [[-> ->]|Ej]%create_inode; [|apply (Hn n)]|done].
    split; [by apply create_path|]. exists x. split; [by apply create_old|done].
  - destruct Ha as ((H1 & x & H2 & H3) & Hp & j & Ej & Hj). split_and!.
    + split; [by apply create_path|]. exists x. split; [by apply create_old|done].
    + by apply create_path.
    + exists j. split; [by apply create_old|done].
Qed.

(** *** The parts of a daemon *)

(** A part that neither changes what the process knows nor the variable [server]. *)
Definition keeps {A} (pid : Z) (φ : phase) (m : proc A) : Prop :=
  ∀ l, triple pid m l φ (λ _ l' φ', φ' = φ ∧ l_server l' = l_server l).

Lemma steady_ret {A} pid φ (a : A) : keeps pid φ (mret a).
Proof. intros l. by apply triple_ret. Qed.
Lemma steady_raise {A} pid φ e : keeps pid φ (raise (A:=A) e).
Proof. intros l. by apply triple_ret. Qed.
Lemma steady_bind {A B} pid φ (m : proc A) (k : A → proc B) :
  keeps pid φ m → (∀ a, keeps pid φ (k a)) → keeps pid φ (m ≫= k).
Proof.
  intros Hm Hk l. apply triple_bind. eapply triple_mono; [apply Hm|]. intros [a|e] l' φ' [-> Hl]; [|done].
  rewrite <- Hl. apply Hk.
Qed.
Lemma steady_rescue {A} pid φ (m : proc A) h :
  keeps pid φ m → (∀ e, keeps pid φ (h e)) → keeps pid φ (rescue m h).
Proof.
  intros Hm Hk l. apply triple_rescue. eapply triple_mono; [apply Hm|]. intros [a|e] l' φ' [-> Hl]; [done|].
  rewrite <- Hl. apply Hk.
Qed.
Lemma steady_look {A} pid φ (f : host → outcome A * host) : (∀ h, same h (f h).2) → keeps pid φ (sys f).
Proof. intros Hf l. by apply triple_look. Qed.
Lemma steady_sure pid φ : keeps pid φ (sure (λ h, (tt, h))).
Proof. intros l. apply triple_sure. intros h Hi Ha. split; [done|]. split; [apply same_guar, same_refl|]. by exists φ. Qed.
Lemma steady_set pid φ f : (∀ l, l_server (f l) = l_server l) → keeps pid φ (set_locals f).
Proof. intros Hf l. by apply triple_ret. Qed.
Lemma steady_get pid φ : keeps pid φ get_locals.
Proof. intros l. by apply triple_ret. Qed.
Lemma steady_update {A} pid φ (a : A) ino f :
  (∀ i, i_kind (f i) = i_kind i ∧ i_lock (f i) = i_lock i ∧ i_server (f i) = i_server i) →
  keeps pid φ (sys (λ h, (Ok a, update_inode ino f h))).
Proof. intros Hf. apply steady_look. intros h. by apply same_update. Qed.

Create HintDb steady.
Ltac steady :=
  repeat match goal with
  | |- keeps _ _ (mret _) => apply steady_ret
  | |- keeps _ _ (raise _) => apply steady_raise
  | |- keeps _ _ (_ ≫= _) => apply steady_bind; [|intros ?]
  | |- keeps _ _ (rescue _ _) => apply steady_rescue; [|intros ?]
  | |- keeps _ _ (sure _) => apply steady_sure
  | |- keeps _ _ (set_locals _) => apply steady_set; by intros ?
  | |- keeps _ _ get_locals => apply steady_get
  | |- keeps _ _ (match ?x with _ => _ end) => destruct x
  | |- keeps _ _ _ => solve [eauto with steady]
  end.

Lemma steady_fstat pid φ fd : keeps pid φ (os_fstat fd).
Proof. apply steady_look. intros h. apply same_refl. Qed.
Lemma steady_lstat pid φ path : keeps pid φ (lstat path).
Proof. apply steady_look. intros h. apply same_refl. Qed.
Lemma steady_exists pid φ path : keeps pid φ (exists_ path).
Proof. apply steady_look. intros h. apply same_refl. Qed.
Lemma steady_read {A} pid φ (a : host → A) : keeps pid φ (sys (λ h, (Ok (a h), h))).
Proof. apply steady_look. intros h. apply same_refl. Qed.
Lemma steady_chmod pid φ path : keeps pid φ (chmod path).
Proof.
  apply steady_look. intros h. destruct (_ ≫= _); [by apply same_update|apply same_refl].
Qed.
Lemma steady_note pid φ ev : keeps pid φ (note pid ev).
Proof. apply steady_look. intros h. apply (same_refl h). Qed.
Hint Resolve steady_fstat steady_lstat steady_exists steady_read steady_chmod steady_note : steady.
Lemma steady_emit pid φ event fields : keeps pid φ (emit pid event fields).
Proof. unfold emit. steady. apply steady_look. intros h. apply (same_refl h). Qed.
Hint Resolve steady_emit : steady.

Lemma steady_check pid φ path mode kind : keeps pid φ (check_mode_and_owner euid path mode kind).
Proof. unfold check_mode_and_owner. steady. Qed.
Hint Resolve steady_check : steady.
Lemma steady_check_if pid φ path : keeps pid φ (check_if_there euid path).
Proof. unfold check_if_there. steady. Qed.
Hint Resolve steady_check_if : steady.
Lemma steady_assert_runtime pid φ :
  keeps pid φ (assert_runtime_paths_safe euid state_dir logs_dir lock_path pid_path log_path).
Proof. unfold assert_runtime_paths_safe, assert_paths_safe. steady. Qed.
Lemma steady_guard pid φ env : keeps pid φ (guard_feat008_test_seams_unset env).
Proof. unfold guard_feat008_test_seams_unset. steady. Qed.
Lemma steady_verify pid φ : keeps pid φ (verify_feat001_initialized state_db).
Proof. unfold verify_feat001_initialized. steady. Qed.
Lemma steady_warn pid φ env : keeps pid φ (warn_about_test_seams pid env).
Proof. unfold warn_about_test_seams, warn_if. steady. Qed.
Lemma steady_serve pid φ : keeps pid φ (serve_until_shutdown pid).
Proof. unfold serve_until_shutdown. steady. Qed.
Lemma steady_feat009 pid φ : keeps pid φ (build_feat009_services pid).
Proof. unfold build_feat009_services. steady. Qed.
Lemma steady_feat010 pid φ : keeps pid φ (build_feat010_services pid).
Proof. unfold build_feat010_services. steady. Qed.
Lemma steady_stop pid φ : keeps pid φ (stop_services pid).
Proof. unfold stop_services, stop_quietly. steady. Qed.
Lemma steady_refuse pid φ : keeps pid φ (refuse_artifact socket_path).
Proof. unfold refuse_artifact. steady. Qed.
Lemma steady_classify pid φ : keeps pid φ (classify_socket_path socket_path).
Proof. unfold classify_socket_path. steady. Qed.
Hint Resolve steady_assert_runtime steady_guard steady_verify steady_warn steady_serve steady_feat009 steady_feat010 steady_stop
  steady_refuse steady_classify : steady.

(** With the lock. *)
Definition held (li : nat) (φ : phase) : Prop := φ = Locked li false ∨ ∃ si, φ = Listening li si.

Lemma steady_open pid trunc path li φ : held li φ → keeps pid φ (os_open euid trunc path).
Proof. intros Hφ l. eapply triple_mono; [by apply (triple_open _ _ _ li)|]. by intros o l' φ' [-> ->]. Qed.
Lemma steady_logger pid li φ : held li φ → keeps pid φ (open_logger euid log_path).
Proof. intros Hφ. unfold open_logger. pose proof (steady_open pid false log_path li φ Hφ). steady. Qed.
Lemma steady_write_pid pid li φ : held li φ → keeps pid φ (write_pid_file euid pid_path pid).
Proof.
  intros Hφ. unfold write_pid_file. pose proof (steady_open pid true pid_path li φ Hφ). steady.
  by apply steady_update.
Qed.
Lemma steady_unlink pid path li k : path = pid_path ∨ path = socket_path ∧ k = true → keeps pid (Locked li k) (unlink path).
Proof. intros Hw l. eapply triple_mono; [by apply triple_unlink|]. by intros o l' φ' [-> ->]. Qed.
Lemma steady_remove_pid pid li k : keeps pid (Locked li k) (remove_pid_file pid_path).
Proof. unfold remove_pid_file. pose proof (steady_unlink pid pid_path li k (or_introl eq_refl)). steady. Qed.
Lemma steady_unlink_missing_ok pid li : keeps pid (Locked li true) (unlink_missing_ok socket_path).
Proof. unfold unlink_missing_ok. pose proof (steady_unlink pid socket_path li true (or_intror (conj eq_refl eq_refl))). steady. Qed.

(** What is known of the socket path may be forgotten. *)
Lemma triple_forget {A} pid (m : proc A) l li k Q : triple pid m l (Locked li false) Q → triple pid m l (Locked li k) Q.
Proof. apply safe_weaken. by intros h _ (H1 & H2 & _). Qed.
Lemma triple_ret_forget {A} pid (o : outcome A) l li k (Q : outcome A → locals → phase → Prop) :
  Q o l (Locked li false) → triple pid (λ l, Ret (o, l)) l (Locked li k) Q.
Proof. intros H. by apply (triple_forget pid (λ l, Ret (o, l))), triple_ret. Qed.

Lemma triple_acquire pid l :
  triple pid (acquire_exclusive_lock euid lock_path pid) l Free (λ o l' φ', l_server l' = l_server l ∧
    match o with Ok li => φ' = Locked li false | Raise _ => True end).
Proof.
  unfold acquire_exclusive_lock. apply triple_bind. eapply triple_mono; [apply triple_open_lock|].
  intros [li|e] l' φ' [-> ->]; [|done]. apply triple_rescue.
  match goal with |- triple _ _ _ _ ?Q => set (Q0 := Q) end.
  assert (Hc : ∀ e l1, l_server l1 = l_server l → Q0 (Raise e) l1 (Opened li)).
  { intros e l1 Hl1. unfold Q0. destruct (is_oserror _); [|by apply triple_ret]. apply triple_bind.
    eapply triple_mono; [by apply triple_close; left|]. intros o l2 φ2 (-> & -> & ->). by apply triple_ret. }
  apply triple_bind. eapply triple_mono; [apply steady_fstat|]. intros [st|e] l1 φ1 [-> Hl1]; [|by apply Hc].
  case_bool_decide; [by apply triple_ret, Hc|]. apply triple_bind. eapply triple_mono; [apply triple_flock|].
  intros [[]|e] l2 φ2 [-> ->]; [by apply triple_ret|by apply Hc].
Qed.

Lemma triple_lstat_socket pid li l :
  triple pid (lstat socket_path) l (Locked li false) (λ o l' φ', l' = l ∧
    match o with
    | Ok st => if bool_decide (i_kind st = Socket) then φ' = Locked li true else φ' = Locked li false
    | Raise _ => φ' = Locked li false
    end).
Proof.
  apply triple_sys; [done|]. intros h I Ha. split; [done|]. split; [apply same_guar, same_refl|]. cbn [fst snd].
  destruct (stat_at socket_path h) as [st|] eqn:E; [|by exists (Locked li false)].
  case_bool_decide as Hk; [|by exists (Locked li false)]. exists (Locked li true). split; [|done].
  destruct Ha as (H1 & H2 & _). split_and!; [done..|]. intros _ ino i Ei Ej. unfold stat_at in E. rewrite Ei in E. cbn in E.
  congruence.
Qed.
Lemma triple_classify pid li l :
  triple pid (classify_socket_path socket_path) l (Locked li false) (λ o l' φ', l_server l' = l_server l ∧
    φ' = Locked li match o with Ok cls => bool_decide (cls = "stale_socket"%string) | Raise _ => false end).
Proof.
  unfold classify_socket_path. apply triple_rescue, triple_bind. eapply triple_mono; [apply triple_lstat_socket|].
  intros [st|e] l' φ' [-> Hφ].
  - apply triple_ret. split; [done|]. by case_bool_decide.
  - subst φ'. case_bool_decide; by apply triple_ret.
Qed.
Lemma steady_refuse_if pid φ cls :
  keeps pid φ (if bool_decide (cls = "refuse"%string) then refuse_artifact socket_path else mret tt).
Proof. steady. Qed.
Lemma steady_stale_socket pid li cls :
  keeps pid (Locked li (bool_decide (cls = "stale_socket"%string))) (remove_stale_socket socket_path pid cls).
Proof.
  unfold remove_stale_socket. case_bool_decide; [|steady].
  pose proof (steady_unlink pid socket_path li true (or_intror (conj eq_refl eq_refl))). steady.
Qed.
Lemma steady_stale_pid pid li k : keeps pid (Locked li k) (remove_stale_pid pid_path pid).
Proof. unfold remove_stale_pid. pose proof (steady_unlink pid pid_path li k (or_introl eq_refl)). steady. Qed.
Lemma steady_recover_rest pid li cls :
  keeps pid (Locked li (bool_decide (cls = "stale_socket"%string)))
    (_ ← (if bool_decide (cls = "refuse"%string) then refuse_artifact socket_path else mret tt);
     _ ← remove_stale_socket socket_path pid cls; remove_stale_pid pid_path pid).
Proof.
  apply steady_bind; [apply steady_refuse_if|intros _]. apply steady_bind; [apply steady_stale_socket|intros _].
  apply steady_stale_pid.
Qed.
Lemma triple_recover pid li l :
  triple pid (recover_stale_artifacts pid_path socket_path pid) l (Locked li false)
    (λ o l' φ', l_server l' = l_server l ∧ ∃ k, φ' = Locked li k).
Proof.
  unfold recover_stale_artifacts. apply triple_bind. eapply triple_mono; [apply triple_classify|].
  intros [cls|e] l1 φ1 [Hl1 ->]; [|split; [done|by eexists]].
  eapply triple_mono; [apply steady_recover_rest|]. intros o l2 φ2 [-> Hl2]. split; [congruence|by eexists].
Qed.
Lemma triple_recovered pid li l :
  triple pid (recovered_stale_artifacts pid_path socket_path pid) l (Locked li false)
    (λ o l' φ', l_server l' = l_server l ∧ ∃ k, φ' = Locked li k).
Proof.
  unfold recovered_stale_artifacts. apply triple_rescue, triple_bind. eapply triple_mono; [apply triple_recover|].
  intros [[]|e] l1 φ1 [Hl1 [k ->]]; [by apply triple_ret; eauto|].
  eapply (triple_mono _ _ _ _ (λ _ l' φ', φ' = Locked li k ∧ l_server l' = l_server l1)).
  - assert (H : keeps pid (Locked li k) (if bool_decide (e = PyError "StaleArtifactRefused")
      then _ ← emit pid "error_fatal" [("reason", "refuse stale")]%string; mret false else raise e)) by steady. apply H.
  - intros o l2 φ2 [-> Hl2]. split; [congruence|by eexists].
Qed.

(** The server is closed, listening or not. *)
Lemma triple_reclose pid li si φ l :
  φ = Listening li si ∨ (∃ k, φ = Locked li k) →
  triple pid (server_close pid si) l φ (λ o l' φ', l' = l ∧ o = Ok tt ∧ ∃ k, φ' = Locked li k).
Proof.
  intros [->|[k ->]].
  - eapply triple_mono; [apply triple_server_close|]. intros o l' φ' (-> & -> & ->). split_and!; [done..|by eexists].
  - apply triple_sure. intros h I Ha. cbn [fst snd].
    assert (S : same h (update_inode si (λ i, if bool_decide (i_server i = Some pid) then with_server None i else i) h)).
    { split_and!; [done..|]. intros n. rewrite update_lookup. destruct (h_inodes h !! n) as [j|] eqn:E; [|by case_decide].
      case_decide; [|done]. cbn. rewrite bool_decide_eq_false_2; [done|]. destruct Ha as (_ & Hn & _). by apply (Hn n). }
    split; [by eapply same_inv|]. split; [by apply same_guar|]. exists (Locked li k). split; [by eapply same_at|by eauto].
Qed.

Lemma triple_unbind pid li si l :
  triple pid (unbind_and_raise socket_path pid si) l (Listening li si)
    (λ o l' φ', l_server l' = l_server l ∧ match o with Ok _ => False | Raise _ => ∃ k, φ' = Locked li k end).
Proof.
  unfold unbind_and_raise. apply triple_bind, triple_rescue, triple_bind.
  eapply triple_mono; [apply triple_server_close|]. intros o l1 φ1 (-> & -> & ->).
  eapply triple_mono; [apply steady_unlink_missing_ok|]. intros [[]|e] l2 φ2 [-> Hl2].
  - apply triple_ret. eauto.
  - destruct (is_oserror e); apply triple_ret; [apply triple_ret|]; eauto.
Qed.
Lemma triple_verify_socket pid li si l :
  triple pid (verify_socket_safe euid socket_path pid si) l (Listening li si) (λ o l' φ', l_server l' = l_server l ∧
    match o with Ok _ => φ' = Listening li si | Raise _ => φ' = Listening li si ∨ ∃ k, φ' = Locked li k end).
Proof.
  unfold verify_socket_safe. apply triple_bind. eapply triple_mono; [apply steady_lstat|].
  intros [st|e] l1 φ1 [-> Hl1]; [|eauto].
  assert (Hu : triple pid (unbind_and_raise socket_path pid si) l1 (Listening li si) (λ o l' φ', l_server l' = l_server l ∧
    match o with Ok _ => φ' = Listening li si | Raise _ => φ' = Listening li si ∨ ∃ k, φ' = Locked li k end)).
  { eapply triple_mono; [apply triple_unbind|]. intros [[]|e] l2 φ2 [H1 H2]; [done|]. split; [congruence|by right]. }
  repeat case_bool_decide; first [done|apply triple_ret; eauto].
Qed.
Lemma triple_ControlServer pid li l :
  triple pid (ControlServer euid socket_path pid) l (Locked li false) (λ o l' φ', l_server l' = l_server l ∧
    match o with Ok si => φ' = Listening li si | Raise _ => ∃ k, φ' = Locked li k end).
Proof.
  unfold ControlServer. apply triple_bind. eapply triple_mono; [apply triple_bind_socket|].
  intros [si|e] l1 φ1 [-> ->]; [|eauto]. apply triple_rescue, triple_bind.
  eapply triple_mono; [apply triple_verify_socket|]. intros [[]|e] l1 φ1 [Hl1 Hφ]; [subst φ1; by apply triple_ret|].
  apply triple_bind. eapply triple_mono; [by apply triple_reclose|]. intros o l2 φ2 (-> & -> & Hk). by apply triple_ret.
Qed.
Lemma triple_bind_control pid li l :
  triple pid (bind_control_server euid socket_path pid) l (Locked li false) (λ o l' φ', l_server l' = l_server l ∧
    match o with Ok (Some si) => φ' = Listening li si | _ => ∃ k, φ' = Locked li k end).
Proof.
  unfold bind_control_server. apply triple_rescue, triple_bind. eapply triple_mono; [apply triple_ControlServer|].
  intros [si|e] l1 φ1 [Hl1 Hφ]; [subst φ1; by apply triple_ret|]. destruct Hφ as [k ->].
  destruct (is_oserror e); [|apply triple_ret; eauto]. apply triple_bind. eapply triple_mono; [apply steady_emit|].
  intros [[]|e'] l2 φ2 [-> Hl2]; [apply triple_ret|]; (split; [congruence|eauto]).
Qed.

(** The variable [server] says whether the process listens. *)
Definition tied (li : nat) (l : locals) (φ : phase) : Prop :=
  match l_server l with Some si => φ = Listening li si | None => ∃ k, φ = Locked li k end.

Lemma tied_keeps {A} pid li (m : proc A) l φ :
  tied li l φ → keeps pid φ m → triple pid m l φ (λ _ l' φ', tied li l' φ').
Proof. intros Ht Hm. eapply triple_mono; [apply Hm|]. intros o l' φ' [-> E]. unfold tied. by rewrite E. Qed.
Lemma steady_then {A B} pid φ (m : proc A) (k : A → proc B) l (Q : outcome B → locals → phase → Prop) :
  keeps pid φ m → (∀ a l', l_server l' = l_server l → triple pid (k a) l' φ Q) →
  (∀ e l', l_server l' = l_server l → Q (Raise e) l' φ) → triple pid (m ≫= k) l φ Q.
Proof.
  intros Hm Hk He. apply triple_bind. eapply triple_mono; [apply Hm|]. intros [a|e] l' φ' [-> E]; [by apply Hk|by apply He].
Qed.

Lemma tied_none li l φ k : l_server l = None → φ = Locked li k → tied li l φ.
Proof. intros H ->. unfold tied. rewrite H. by eexists. Qed.
Lemma tied_some li l φ si : l_server l = Some si → φ = Listening li si → tied li l φ.
Proof. intros H ->. unfold tied. by rewrite H. Qed.
Hint Resolve tied_none tied_some : steady.

(** A step before the socket is bound. *)
Lemma quiet_then {A B} pid li kn (m : proc A) (k : A → proc B) l (Q : outcome B → locals → phase → Prop) :
  l_server l = None → keeps pid (Locked li kn) m → (∀ o l' φ', tied li l' φ' → Q o l' φ') →
  (∀ a l', l_server l' = None → triple pid (k a) l' (Locked li kn) Q) → triple pid (m ≫= k) l (Locked li kn) Q.
Proof.
  intros E Hm HQ Hk. apply steady_then; [done|intros a l' E'; apply Hk; congruence|]. intros e l' E'. apply HQ.
  eapply tied_none; [congruence|done].
Qed.

Lemma triple_serve pid li l code :
  l_server l = None →
  triple pid (serve_with_services euid pid_path socket_path pid code) l (Locked li false) (λ _ l' φ', tied li l' φ').
Proof.
  intros Hl. apply triple_finally. match goal with |- triple _ _ _ _ ?Q => set (Q0 := Q) end.
  assert (Hs : ∀ o l' φ', tied li l' φ' → Q0 o l' φ').
  { intros o l' φ' Ht. eapply triple_mono; [apply (tied_keeps pid li _ l' φ' Ht); eauto with steady|]. by intros [] l'' φ''. }
  apply (quiet_then pid li); [done|eauto with steady|done|intros _ l1 E1].
  apply (quiet_then pid li); [done|eauto with steady|done|intros _ l2 E2].
  apply triple_bind. eapply triple_mono; [apply triple_bind_control|]. intros [[si|]|e] l3 φ3 [E3 Hφ].
  - subst φ3. apply triple_bind, triple_ret.
    assert (Hheld : held li (Listening li si)) by (right; by eexists).
    assert (H4 : l_server (set_server (Some si) l3) = Some si) by done. revert H4. generalize (set_server (Some si) l3).
    intros l4 H4. eapply triple_mono; [|exact Hs].
    apply (tied_keeps pid li _ l4); [by eapply tied_some|]. pose proof (steady_write_pid pid li _ Hheld). steady.
  - destruct Hφ as [k ->]. apply triple_bind, triple_ret, triple_ret, Hs. by eapply tied_none.
  - destruct Hφ as [k ->]. apply Hs. eapply tied_none; [congruence|done].
Qed.
Lemma triple_run_locked pid env li l code :
  l_server l = None →
  triple pid (run_locked euid state_dir logs_dir lock_path pid_path log_path socket_path pid env code) l (Locked li false)
    (λ _ l' φ', tied li l' φ').
Proof.
  intros Hl. assert (Hheld : held li (Locked li false)) by by left. unfold run_locked.
  apply (quiet_then pid li); [done|eauto with steady|done|intros ok l1 E1].
  destruct (negb ok); [apply triple_ret; by eapply tied_none|].
  apply (quiet_then pid li); [done|by eapply steady_logger|done|intros _ l2 E2].
  apply (quiet_then pid li); [done|eauto with steady|done|intros _ l3 E3].
  apply (quiet_then pid li); [done|eauto with steady|done|intros _ l4 E4].
  apply triple_bind. eapply triple_mono; [apply triple_recovered|]. intros [ok2|e] l5 φ5 [E5 [k ->]].
  2:{ eapply tied_none; [congruence|done]. }
  apply triple_forget. rewrite E4 in E5. destruct (negb ok2); [apply triple_ret; by eapply tied_none|]. revert E5.
  do 6 (intros E; apply (quiet_then pid li); [done|steady|done|intros _ ?; clear E]). apply triple_serve.
Qed.
Lemma triple_cleanup pid li l φ code :
  tied li l φ → triple pid (cleanup_run pid_path socket_path pid li code) l φ (λ _ _ _, True).
Proof.
  intros Ht. unfold cleanup_run. apply triple_bind, triple_ret.
  assert (Hrest : ∀ l' k b, triple pid (_ ← remove_pid_file pid_path;
      _ ← (if (b : bool) then emit pid "daemon_exited" [("exit_code", print_int code)]%string else mret tt);
      release_lock pid li) l' (Locked li k) (λ _ _ _, True)).
  { intros l' k b. apply steady_then; [apply steady_remove_pid|intros _ l1 E1|done].
    apply steady_then; [steady|intros _ l2 E2|done]. eapply triple_mono; [apply triple_close; right; by eexists|done]. }
  apply triple_bind. unfold tied in Ht. destruct (l_server l) as [si|].
  - subst φ. apply triple_bind. eapply triple_mono; [apply triple_server_close|]. intros o l1 φ1 (-> & -> & ->).
    eapply triple_mono; [apply steady_unlink_missing_ok|]. intros [[]|e] l2 φ2 [-> E2]; [apply Hrest|done].
  - destruct Ht as [k ->]. apply triple_ret, Hrest.
Qed.
Lemma program_safe pid env : safe pid (λ _ _, True) (program pid env) Free.
Proof.
  apply safe_bind. eapply (safe_mono _ (λ r φ', True)); [by intros a φ _; exists φ|].
  assert (Ht : triple pid (run euid state_dir logs_dir state_db lock_path pid_path log_path socket_path pid env) no_locals Free
    (λ _ _ _, True)); [|exact Ht].
  unfold run. apply steady_then; [eauto with steady|intros _ l1 E1|done].
  apply steady_then; [eauto with steady|intros _ l2 E2|done].
  apply triple_bind, triple_rescue, triple_bind. eapply triple_mono; [apply triple_acquire|].
  intros [li|e] l3 φ3 [E3 Hφ].
  - subst φ3. apply triple_ret, triple_finally. eapply triple_mono; [apply triple_run_locked; by rewrite E3, E2, E1|].
    intros o l4 φ4 Ht. eapply triple_mono; [by apply triple_cleanup|]. by intros [].
  - case_bool_decide; [by apply triple_ret, triple_ret|]. by destruct (is_oserror e); [apply triple_ret, triple_ret|apply triple_ret].
Qed.

(** *** The system *)

Lemma exit_lookup pid h ino :
  h_inodes (kernel_exit pid h) !! ino =
  (λ i, with_server (if bool_decide (i_server i = Some pid) then None else i_server i)
          (with_lock (if bool_decide (i_lock i = Some pid) then None else i_lock i) i)) <$> h_inodes h !! ino.
Proof. apply lookup_fmap. Qed.
Lemma exit_bw pid h ino j : h_inodes (kernel_exit pid h) !! ino = Some j →
  ∃ i, h_inodes h !! ino = Some i ∧ i_kind j = i_kind i ∧
    (∀ q, i_lock j = Some q → q ≠ pid ∧ i_lock i = Some q) ∧ (∀ q, i_server j = Some q → q ≠ pid ∧ i_server i = Some q).
Proof.
  rewrite exit_lookup. destruct (h_inodes h !! ino) as [i|]; [|done]. cbn. intros [= <-]. exists i. cbn.
  split_and!; [done|done| |]; intros q; case_bool_decide as H; try done; intros E; (split; [congruence|done]).
Qed.
Lemma exit_fw pid h ino i : h_inodes h !! ino = Some i →
  ∃ j, h_inodes (kernel_exit pid h) !! ino = Some j ∧ i_kind j = i_kind i ∧
    (∀ q, q ≠ pid → i_lock i = Some q → i_lock j = Some q) ∧ (∀ q, q ≠ pid → i_server i = Some q → i_server j = Some q).
Proof.
  intros E. rewrite exit_lookup, E. eexists. split; [done|]. cbn.
  split_and!; [done| |]; intros q Hq Hx; rewrite bool_decide_eq_false_2; congruence.
Qed.
Lemma exit_guar pid h : guar pid h (kernel_exit pid h).
Proof.
  constructor; try done; [intros ino i; apply exit_fw|..]; intros ino j q Hq E Hs;
    destruct (exit_bw _ _ _ _ E) as (i & Ei & _ & H1 & H2); exists i; (split; [done|]); [by apply H2|by apply H1].
Qed.
Lemma exit_inv pid h : inv h → inv (kernel_exit pid h).
Proof.
  intros I. constructor.
  - intros path n E. destruct (inv_paths _ I _ _ E) as [i Ei]. destruct (exit_fw pid h n i Ei) as (j & Ej & _). by exists j.
  - intros n [j Ej]. destruct (exit_bw _ _ _ _ Ej) as (i & Ei & _). apply (inv_fresh _ I). by exists i.
  - intros j. unfold stat_at. change (h_paths (kernel_exit pid h)) with (h_paths h).
    destruct (h_paths h !! lock_path) as [n|] eqn:E; [|done]. cbn. intros Ej.
    destruct (exit_bw _ _ _ _ Ej) as (i & Ei & -> & _). apply (inv_plain _ I). unfold stat_at. by rewrite E.
  - intros n j q Ej Hq. destruct (exit_bw _ _ _ _ Ej) as (i & Ei & _ & Hl & _). apply (inv_lock _ I n i q); [done|by apply Hl].
  - intros n j q Ej Hq. destruct (exit_bw _ _ _ _ Ej) as (i & Ei & -> & _ & Hs). destruct (Hs q Hq) as [Hne Hs'].
    destruct (inv_served _ I n i q Ei Hs') as (H1 & H2 & (li & x & L1 & L2 & L3)). split_and!; [done|done|].
    destruct (exit_fw pid h li x L2) as (x' & Ex & _ & Hlk & _). exists li, x'. split_and!; [done|done|by apply Hlk].
Qed.

Definition belongs (ino : nat) (pid : Z) (h : host) : Prop :=
  ∃ i, h_inodes h !! ino = Some i ∧ (i_server i = Some pid ∨ i_lock i = Some pid).
Lemma belongs_back pid q ino h h' : guar pid h h' → q ≠ pid → belongs ino q h' → belongs ino q h.
Proof.
  intros G Hq (i & E & [Hs|Hl]).
  - destruct (g_server _ _ _ G ino i q Hq E Hs) as (i0 & E0 & H0). exists i0. auto.
  - destruct (g_locked _ _ _ G ino i q Hq E Hl) as (i0 & E0 & H0). exists i0. auto.
Qed.

Record sound (s : system) : Prop := mkSound {
  sound_inv : inv (sys_host s);
  sound_procs : ∀ pid p, sys_procs s !! pid = Some p → ∃ φ, at_ pid φ (sys_host s) ∧ safe pid (λ _ _, True) p φ;
  sound_alive : ∀ ino pid, belongs ino pid (sys_host s) → is_Some (sys_procs s !! pid)
}.

(** A call of one process leaves the others where they were. *)
Lemma sound_others pid h h' (procs : gmap Z (prog (outcome Z))) :
  inv h → guar pid h h' →
  (∀ q p, procs !! q = Some p → ∃ φ, at_ q φ h ∧ safe q (λ _ _, True) p φ) →
  ∀ q p, q ≠ pid → procs !! q = Some p → ∃ φ, at_ q φ h' ∧ safe q (λ _ _, True) p φ.
Proof.
  intros I G Hp q p Hq E. destruct (Hp q p E) as (φ & Ha & Hs). exists φ. split; [by apply (at_stable q pid φ h)|done].
Qed.
Lemma sound_step s s' : sys_step s s' → sound s → sound s'.
Proof.
  intros Hst [I Hp Ha]. destruct Hst as [s pid env Hn|s pid f Hf|s pid p Hd]; cbn in *.
  - constructor; cbn; [done| |].
    + intros q p [[<- <-]|[Hq E]]%lookup_insert_Some; [|by apply Hp]. exists Free. split; [|apply program_safe].
      intros ino i E Hs. destruct (Ha ino pid) as [? ?]; [exists i; auto|congruence].
    + intros ino q [p Eq]%Ha. destruct (decide (q = pid)) as [->|Hq]; [congruence|]. exists p. by rewrite lookup_insert_ne.
  - destruct (Hp pid _ Hf) as (φ & Hat & Hsafe). specialize (Hsafe _ I Hat). destruct (f (sys_host s)) as [p' h'].
    destruct Hsafe as (I' & G & φ' & Hat' & Hsafe'). constructor; cbn; [done| |].
    + intros q p [[<- <-]|[Hq E]]%lookup_insert_Some; [by exists φ'|]. by apply (sound_others pid (sys_host s) h' (sys_procs s)).
    + intros ino q Hb. destruct (decide (q = pid)) as [->|Hq]; [rewrite lookup_insert_eq; by eexists|].
      rewrite lookup_insert_ne by done. by apply (Ha ino), (belongs_back pid q ino _ h').
  - constructor; cbn; [by apply exit_inv| |].
    + intros q p' [Hq E]%lookup_delete_Some. eapply (sound_others pid); [done|apply exit_guar|done|done|done].
    + intros ino q Hb. assert (Hq : q ≠ pid).
      { destruct Hb as (i & E & Hi). destruct (exit_bw _ _ _ _ E) as (i0 & _ & _ & H1 & H2).
        destruct Hi as [Hi|Hi]; [apply H2, Hi|apply H1, Hi]. }
      rewrite lookup_delete_ne by done. by apply (Ha ino), (belongs_back pid q ino _ (kernel_exit pid (sys_host s))); [apply exit_guar|..].
Qed.

(** A host on which no daemon runs; the lock file is not a symbolic link. *)
Record resting (h : host) : Prop := mkResting {
  rest_paths : ∀ path ino, h_paths h !! path = Some ino → is_Some (h_inodes h !! ino);
  rest_fresh : ∀ ino, is_Some (h_inodes h !! ino) → (ino < h_next h)%nat;
  rest_plain : ∀ i, stat_at lock_path h = Some i → i_kind i ≠ Symlink;
  rest_free : ∀ ino i, h_inodes h !! ino = Some i → i_lock i = None ∧ i_server i = None
}.
Definition reachable (h : host) (s : system) : Prop := rtc sys_step (mkSystem h ∅) s.

Lemma sound_reachable h s : resting h → reachable h s → sound s.
Proof.
  intros [H1 H2 H3 H4] Hr. refine (rtc_ind_r (R:=sys_step) sound (mkSystem h ∅) _ (λ s1 s2 _ Hst Hs, sound_step s1 s2 Hst Hs) s Hr).
  constructor; cbn; [|done|].
  - constructor; [done..| |]; intros ino i q E Hq; destruct (H4 ino i E); congruence.
  - intros ino q (i & E & Hq). destruct (H4 ino i E), Hq; congruence.
Qed.

(** What every call and every end of a process leaves alone. *)
Lemma step_files s s' path ino i :
  sys_step s s' → sound s → path ≠ pid_path → (path = socket_path → i_kind i ≠ Socket) →
  h_paths (sys_host s) !! path = Some ino → h_inodes (sys_host s) !! ino = Some i →
  h_paths (sys_host s') !! path = Some ino ∧ ∃ i', h_inodes (sys_host s') !! ino = Some i' ∧ i_kind i' = i_kind i.
Proof.
  intros Hst [I Hp _] Hn Hs E Ei.
  assert (HG : ∀ pid h', guar pid (sys_host s) h' →
    h_paths h' !! path = Some ino ∧ ∃ i', h_inodes h' !! ino = Some i' ∧ i_kind i' = i_kind i).
  { intros pid h' G. split; [by apply (g_files _ _ _ G path ino i)|].
    destruct (g_inodes _ _ _ G ino i Ei) as (i' & Ei' & Hk & _). by exists i'. }
  destruct Hst as [s pid env _|s pid f Hf|s pid p Hd]; cbn in *; [by eauto| |by apply (HG pid (kernel_exit pid (sys_host s))), exit_guar].
  destruct (Hp pid _ Hf) as (φ & Hat & Hsafe). specialize (Hsafe _ I Hat). destruct (f (sys_host s)) as [p' h'].
  destruct Hsafe as (_ & G & _). by apply (HG pid).
Qed.
End System.
