(* ===== verification/DaemonClaims.v ===== *)
(** What the daemon process guarantees (DaemonProcess.v): at most one daemon listens, the files
    of others are left alone, a second daemon is refused, and a daemon comes up after any history
    of crashes. *)

From S2P Require Import Prelude Errors Utf8 Agents Store Json DaemonProcess.

Local Open Scope Z_scope.

(** ** A process on its own *)

(** The program runs to its end, with no other process in between. *)
Fixpoint runs {A} (p : prog A) (h : host) (Q : A → host → Prop) : Prop :=
  match p with
  | Ret a => Q a h
  | Act f => match f h with (p', h') => runs p' h' Q end
  end.
(** The program comes to a host where [Q] holds. *)
Fixpoint reaches {A} (p : prog A) (h : host) (Q : host → Prop) : Prop :=
  Q h ∨ match p with Ret _ => False | Act f => match f h with (p', h') => reaches p' h' Q end end.

Lemma runs_bind {A B} (p : prog A) (k : A → prog B) h (Q : B → host → Prop) :
  runs p h (λ a h', runs (k a) h' Q) → runs (pbind p k) h Q.
Proof.
  revert h. induction p as [a|f IH] using prog_calls; intros h; cbn; [done|]. specialize (IH h).
  destruct (f h) as [p' h']. apply IH.
Qed.
Lemma runs_mono {A} (p : prog A) h (Q Q' : A → host → Prop) : (∀ a h, Q a h → Q' a h) → runs p h Q → runs p h Q'.
Proof.
  intros HQ. revert h. induction p as [a|f IH] using prog_calls; intros h; cbn; [apply HQ|]. specialize (IH h).
  destruct (f h) as [p' h']. apply IH.
Qed.
Lemma reaches_bind {A B} (p : prog A) (k : A → prog B) h Q :
  runs p h (λ a h', reaches (k a) h' Q) → reaches (pbind p k) h Q.
Proof.
  revert h. induction p as [a|f IH] using prog_calls; intros h; cbn; [done|]. specialize (IH h).
  destruct (f h) as [p' h']. right. by apply IH.
Qed.
Lemma reaches_prefix {A B} (p : prog A) (k : A → prog B) h Q : reaches p h Q → reaches (pbind p k) h Q.
Proof.
  revert h. induction p as [a|f IH] using prog_calls; intros h; cbn.
  - intros [H|[]]. destruct (k a); cbn; by left.
  - intros [H|H]; [by left|right]. specialize (IH h). destruct (f h) as [p' h']. by apply IH.
Qed.

(** ** A state directory that is in order *)

Create HintDb tidy.

Section Order.
Variable euid : Z.
Variables state_dir logs_dir state_db lock_path pid_path log_path socket_path : string.
Hypothesis apart : NoDup [state_dir; logs_dir; state_db; lock_path; pid_path; log_path; socket_path].

Definition dir_ok (path : string) (h : host) : Prop :=
  ∃ i, stat_at path h = Some i ∧ i_kind i = Directory ∧ i_mode i = MODE_DIR ∧ i_uid i = euid.
Definition file_ok (path : string) (h : host) : Prop :=
  ∀ i, stat_at path h = Some i → i_kind i = Regular ∧ i_mode i = MODE_FILE ∧ i_uid i = euid.

Record prepared (h : host) : Prop := mkPrepared {
  p_paths : ∀ path ino, h_paths h !! path = Some ino → is_Some (h_inodes h !! ino);
  p_fresh : ∀ ino, is_Some (h_inodes h !! ino) → (ino < h_next h)%nat;
  p_state : dir_ok state_dir h;
  p_logs : dir_ok logs_dir h;
  p_db : ∃ i, stat_at state_db h = Some i ∧ i_kind i = Regular;
  p_lock : file_ok lock_path h;
  p_pid : file_ok pid_path h;
  p_log : file_ok log_path h;
  p_socket : ∀ i, stat_at socket_path h = Some i → i_kind i = Socket;
  p_schema : is_Some (h_schema_version h)
}.

(** Kinds and owners stay; a mode stays, or becomes that of a file on a file. *)
Definition alike (i i' : inode) : Prop :=
  i_kind i' = i_kind i ∧ i_uid i' = i_uid i ∧ (i_mode i' = i_mode i ∨ i_kind i = Regular ∧ i_mode i' = MODE_FILE).

Lemma prepared_touch h h' :
  h_paths h' = h_paths h → h_next h' = h_next h → h_schema_version h' = h_schema_version h →
  (∀ n, option_relation alike (λ _, False) (λ _, False) (h_inodes h !! n) (h_inodes h' !! n)) →
  prepared h → prepared h'.
Proof.
  intros Ep En Es Hi P.
  assert (Hst : ∀ path, option_relation alike (λ _, False) (λ _, False) (stat_at path h) (stat_at path h')).
  { intros path. unfold stat_at. rewrite Ep. destruct (h_paths h !! path) as [n|]; [apply Hi|done]. }
  assert (Hd : ∀ path, dir_ok path h → dir_ok path h').
  { intros path (i & E & H1 & H2 & H3). specialize (Hst path). rewrite E in Hst.
    destruct (stat_at path h') as [i'|] eqn:E'; [|done]. destruct Hst as (K & U & [M|[M _]]); [|congruence].
    exists i'. split_and!; congruence. }
  assert (Hf : ∀ path, file_ok path h → file_ok path h').
  { intros path F i' E'. specialize (Hst path). rewrite E' in Hst. destruct (stat_at path h) as [i|] eqn:E; [|done].
    destruct (F i E) as (H1 & H2 & H3), Hst as (K & U & M). split_and!; [congruence| |congruence]. destruct M as [M|[_ M]]; congruence. }
  destruct P. constructor; auto.
  - intros path ino. rewrite Ep. intros [i E]%p_paths0. specialize (Hi ino). rewrite E in Hi.
    destruct (h_inodes h' !! ino); [by eexists|done].
  - intros ino [i' E']. rewrite En. apply p_fresh0. specialize (Hi ino). rewrite E' in Hi.
    destruct (h_inodes h !! ino); [by eexists|done].
  - destruct p_db0 as (i & E & K). specialize (Hst state_db). rewrite E in Hst.
    destruct (stat_at state_db h') as [i'|]; [|done]. exists i'. destruct Hst as (K' & _). split; congruence.
  - intros i' E'. specialize (Hst socket_path). rewrite E' in Hst. destruct (stat_at socket_path h) as [i|] eqn:E; [|done].
    destruct Hst as (-> & _). by apply p_socket0.
  - by rewrite Es.
Qed.
Lemma prepared_update ino f h :
  (∀ i, h_inodes h !! ino = Some i → alike i (f i)) → prepared h → prepared (update_inode ino f h).
Proof.
  intros Hf. apply prepared_touch; try done. intros n. rewrite update_lookup.
  destruct (h_inodes h !! n) as [i|] eqn:E; case_decide; subst; cbn; try done; [by apply Hf|].
  split_and!; auto.
Qed.
Lemma prepared_exit pid h : prepared h → prepared (kernel_exit pid h).
Proof.
  apply prepared_touch; try done. intros n. rewrite exit_lookup. destruct (h_inodes h !! n) as [i|]; [|done].
  cbn. split_and!; auto.
Qed.

Lemma stat_create p i h q :
  prepared h → stat_at q (create p i h) = if decide (q = p) then Some i else stat_at q h.
Proof.
  intros P. unfold stat_at. cbn. case_decide as Hq; [subst; rewrite lookup_insert_eq; cbn; by rewrite lookup_insert_eq|].
  rewrite lookup_insert_ne by done. destruct (h_paths h !! q) as [n|] eqn:E; [|done]. cbn.
  rewrite lookup_insert_ne; [done|]. intros <-. pose proof (p_fresh _ P _ (p_paths _ P _ _ E)). lia.
Qed.
Lemma stat_unlink p h q : stat_at q (unlink_path p h) = if decide (q = p) then None else stat_at q h.
Proof.
  unfold stat_at. cbn. case_decide; [subst; by rewrite lookup_delete_eq|by rewrite lookup_delete_ne].
Qed.
Lemma prepared_reshape h h' p o :
  (∀ path ino, h_paths h' !! path = Some ino → is_Some (h_inodes h' !! ino)) →
  (∀ ino, is_Some (h_inodes h' !! ino) → (ino < h_next h')%nat) →
  (∀ q, stat_at q h' = if decide (q = p) then o else stat_at q h) → h_schema_version h' = h_schema_version h →
  (p ∈ [lock_path; pid_path; log_path] ∧ (∀ i, o = Some i → i_kind i = Regular ∧ i_mode i = MODE_FILE ∧ i_uid i = euid) ∨
   p = socket_path ∧ (∀ i, o = Some i → i_kind i = Socket)) →
  prepared h → prepared h'.
Proof.
  intros H1 H2 Hst Hv Ho P.
  assert (Hp : p ≠ state_dir ∧ p ≠ logs_dir ∧ p ≠ state_db ∧ (p = socket_path → p ∉ [lock_path; pid_path; log_path])).
  { clear -Ho apart. rewrite !NoDup_cons in apart. set_solver. }
  destruct Hp as (N1 & N2 & N3 & N4).
  assert (Hf : ∀ q, q ∈ [lock_path; pid_path; log_path] → file_ok q h → file_ok q h').
  { intros q Hq F i. rewrite Hst. case_decide as E; [|apply F]. subst q. destruct Ho as [[_ Ho]|[-> _]]; [apply Ho|].
    by destruct (N4 eq_refl). }
  unfold dir_ok in *. destruct P. constructor; auto; unfold dir_ok.
  - by rewrite Hst, decide_False.
  - by rewrite Hst, decide_False.
  - by rewrite Hst, decide_False.
  - apply Hf; [set_solver|done].
  - apply Hf; [set_solver|done].
  - apply Hf; [set_solver|done].
  - intros i. rewrite Hst. case_decide as E; [|apply p_socket0]. subst p. destruct Ho as [[Hin _]|[_ Ho]]; [|apply Ho].
    by destruct (N4 eq_refl).
  - by rewrite Hv.
Qed.
Lemma prepared_create p i h :
  (p ∈ [lock_path; pid_path; log_path] ∧ i_kind i = Regular ∧ i_mode i = MODE_FILE ∧ i_uid i = euid ∨
   p = socket_path ∧ i_kind i = Socket) →
  prepared h → prepared (create p i h).
Proof.
  intros Hi P. apply (prepared_reshape h _ p (Some i)); [..|naive_solver|done].
  - intros path ino. cbn. intros [[<- <-]|[_ E]]%lookup_insert_Some; [rewrite lookup_insert_eq; by eexists|].
    destruct (p_paths _ P _ _ E) as [j Ej]. apply lookup_insert_is_Some. destruct (decide (h_next h = ino)); eauto.
  - intros ino [j Hj]. cbn in Hj |- *. apply lookup_insert_Some in Hj as [[<- _]|[_ E]]; [lia|]. pose proof (p_fresh _ P ino (ex_intro _ _ E)). lia.
  - intros q. by apply stat_create.
  - done.
Qed.
Lemma prepared_unlink p h : p = pid_path ∨ p = socket_path → prepared h → prepared (unlink_path p h).
Proof.
  intros Hp P. apply (prepared_reshape h _ p None); [..|naive_solver set_solver|done].
  - intros path ino. cbn. intros [_ E]%lookup_delete_Some. by apply (p_paths _ P path).
  - apply (p_fresh _ P).
  - intros q. apply stat_unlink.
  - done.
Qed.

(** Every call of a program leaves the directory in order, whoever else runs. *)
Fixpoint orderly {A} (p : prog A) : Prop :=
  match p with
  | Ret _ => True
  | Act f => ∀ h, prepared h → match f h with (p', h') => prepared h' ∧ orderly p' end
  end.
Definition tidy {A} (m : proc A) : Prop := ∀ l, orderly (m l).

Lemma orderly_bind {A B} (p : prog A) (k : A → prog B) : orderly p → (∀ a, orderly (k a)) → orderly (pbind p k).
Proof.
  intros Hp Hk. induction p as [a|f IH] using prog_calls; [apply Hk|]. intros h P. specialize (Hp h P). specialize (IH h).
  destruct (f h) as [p' h']. destruct Hp. auto.
Qed.
Lemma tidy_bind {A B} (m : proc A) (k : A → proc B) : tidy m → (∀ a, tidy (k a)) → tidy (m ≫= k).
Proof. intros Hm Hk l. apply orderly_bind; [apply Hm|]. intros [[a|e] l']; [apply Hk|done]. Qed.
Lemma tidy_rescue {A} (m : proc A) h : tidy m → (∀ e, tidy (h e)) → tidy (rescue m h).
Proof. intros Hm Hk l. apply orderly_bind; [apply Hm|]. intros [[a|e] l']; [done|apply Hk]. Qed.
Lemma tidy_finally {A} (m : proc A) c : tidy m → tidy c → tidy (finally m c).
Proof.
  intros Hm Hc l. apply orderly_bind; [apply Hm|]. intros [o l']. apply orderly_bind; [apply Hc|]. by intros [[] ?].
Qed.
Lemma tidy_sys {A} (f : host → outcome A * host) : (∀ h, prepared h → prepared (f h).2) → tidy (sys f).
Proof.
  intros Hf l h P. assert (Hr : ∀ r, prepared (set_host_faults r h)) by (intros r; by destruct P).
  destruct (h_faults h) as [|[e|] rest]; [|by auto|].
  - specialize (Hf h P). by destruct (f h).
  - specialize (Hf _ (Hr rest)). by destruct (f _).
Qed.
Lemma tidy_sure {A} (f : host → A * host) : (∀ h, prepared h → prepared (f h).2) → tidy (sure f).
Proof. intros Hf l h P. specialize (Hf h P). by destruct (f h). Qed.

Ltac tidying :=
  repeat match goal with
  | |- tidy (mret _) => by intros l
  | |- tidy (raise _) => by intros l
  | |- tidy (set_locals _) => by intros l
  | |- tidy get_locals => by intros l
  | |- tidy (_ ≫= _) => apply tidy_bind; [|intros ?]
  | |- tidy (rescue _ _) => apply tidy_rescue; [|intros ?]
  | |- tidy (finally _ _) => apply tidy_finally
  | |- tidy (match ?x with _ => _ end) => destruct x
  | |- tidy (sys (λ h, (_, h))) => by apply tidy_sys
  | |- tidy (sure (λ h, (_, h))) => by apply tidy_sure
  | |- tidy _ => solve [eauto with tidy]
  end.

Lemma follow_file path h : file_ok path h → follow_links MAXSYMLINKS path h = Some path.
Proof. intros F. apply follow_plain. intros i E. destruct (F i E) as (-> & _). done. Qed.
Lemma file_ok_of path h : path ∈ [lock_path; pid_path; log_path] → prepared h → file_ok path h.
Proof. intros Hp []. set_solver. Qed.
Lemma alike_refl i : alike i i.
Proof. split_and!; auto. Qed.
Hint Resolve alike_refl : tidy.

Lemma tidy_open trunc path : path ∈ [lock_path; pid_path; log_path] → tidy (os_open euid trunc path).
Proof.
  intros Hp. apply tidy_sys. intros h P. rewrite (follow_file _ _ (file_ok_of _ _ Hp P)).
  destruct (h_paths h !! path) as [ino|]; [|apply prepared_create; [left; by split_and!|done]].
  destruct (bool_decide _), trunc; try done. apply prepared_update; [|done]. intros i _. by split_and!; auto.
Qed.
Lemma tidy_chmod path : path ∈ [lock_path; pid_path; log_path] → tidy (chmod path).
Proof.
  intros Hp. apply tidy_sys. intros h P. pose proof (file_ok_of _ _ Hp P) as F. rewrite (follow_file _ _ F). cbn.
  destruct (h_paths h !! path) as [ino|] eqn:E; [|done]. apply prepared_update; [|done]. intros i Ei. split_and!; try done.
  right. split; [|done]. apply F. unfold stat_at. by rewrite E.
Qed.
Lemma tidy_unlink path : path = pid_path ∨ path = socket_path → tidy (unlink path).
Proof.
  intros Hp. apply tidy_sys. intros h P. destruct (stat_at path h) as [i|]; [|done]. case_bool_decide; [done|].
  by apply prepared_unlink.
Qed.

Lemma tidy_update {A} (a : A) ino f : (∀ i, alike i (f i)) → tidy (sys (λ h, (Ok a, update_inode ino f h))).
Proof. intros Hf. apply tidy_sys. intros h. by apply prepared_update. Qed.
Lemma tidy_drop ino f : (∀ i, alike i (f i)) → tidy (sure (λ h, (tt, update_inode ino f h))).
Proof. intros Hf. apply tidy_sure. intros h. by apply prepared_update. Qed.
Lemma tidy_note pid ev : tidy (note pid ev).
Proof. apply tidy_sys. intros h P. by destruct P. Qed.
Lemma tidy_emit pid event fields : tidy (emit pid event fields).
Proof. unfold emit. tidying. apply tidy_sys. intros h P. by destruct P. Qed.
Lemma tidy_flock pid fd : tidy (flock pid fd).
Proof.
  apply tidy_sys. intros h P. destruct (h_inodes h !! fd); [|done]. case_bool_decide; [|done].
  apply prepared_update; [|done]. intros i0 _. by split_and!; auto.
Qed.
Lemma tidy_close pid fd : tidy (os_close pid fd).
Proof. apply tidy_drop. intros i. case_bool_decide; by split_and!; auto. Qed.
Lemma tidy_server_close pid ino : tidy (server_close pid ino).
Proof. apply tidy_drop. intros i. case_bool_decide; by split_and!; auto. Qed.
Lemma tidy_bind_socket pid : tidy (bind_socket euid socket_path pid).
Proof.
  apply tidy_sys. intros h P. destruct (h_paths h !! socket_path); [done|]. apply prepared_create; [by right|done].
Qed.
Lemma tidy_exists path : tidy (exists_ path).
Proof. by apply tidy_sys. Qed.
Lemma tidy_lstat path : tidy (lstat path).
Proof. by apply tidy_sys. Qed.
Lemma tidy_fstat fd : tidy (os_fstat fd).
Proof. by apply tidy_sys. Qed.
Lemma file_lock : lock_path ∈ [lock_path; pid_path; log_path].
Proof. set_solver. Qed.
Lemma file_pid : pid_path ∈ [lock_path; pid_path; log_path].
Proof. set_solver. Qed.
Lemma file_log : log_path ∈ [lock_path; pid_path; log_path].
Proof. set_solver. Qed.
Hint Resolve tidy_open tidy_chmod tidy_unlink tidy_note tidy_emit tidy_flock tidy_close tidy_server_close tidy_bind_socket
  tidy_exists tidy_lstat tidy_fstat file_lock file_pid file_log : tidy.

Lemma tidy_check path : tidy (check_if_there euid path).
Proof. unfold check_if_there, check_mode_and_owner. tidying. Qed.
Lemma tidy_assert : tidy (assert_runtime_paths_safe euid state_dir logs_dir lock_path pid_path log_path).
Proof.
  pose proof tidy_check. unfold assert_runtime_paths_safe, assert_paths_safe, check_mode_and_owner. tidying.
Qed.
Lemma tidy_unlink_missing_ok path : path = pid_path ∨ path = socket_path → tidy (unlink_missing_ok path).
Proof. intros Hp. unfold unlink_missing_ok. tidying. Qed.
Lemma tidy_write_pid pid : tidy (write_pid_file euid pid_path pid).
Proof. unfold write_pid_file. tidying. apply tidy_update. intros i. by split_and!; auto. Qed.
Lemma tidy_logger : tidy (open_logger euid log_path).
Proof. unfold open_logger. tidying. Qed.
Lemma tidy_recover pid : tidy (recovered_stale_artifacts pid_path socket_path pid).
Proof.
  unfold recovered_stale_artifacts, recover_stale_artifacts, classify_socket_path, refuse_artifact, remove_stale_socket,
    remove_stale_pid. tidying.
Qed.
Lemma tidy_warn pid env : tidy (warn_about_test_seams pid env).
Proof. unfold warn_about_test_seams, warn_if. tidying. Qed.
Lemma tidy_stop pid : tidy (stop_services pid).
Proof. unfold stop_services, stop_quietly. tidying. Qed.
Hint Resolve tidy_assert tidy_unlink_missing_ok tidy_write_pid tidy_logger tidy_recover tidy_warn tidy_stop : tidy.
Lemma tidy_bind_control pid : tidy (bind_control_server euid socket_path pid).
Proof. unfold bind_control_server, ControlServer, verify_socket_safe, unbind_and_raise. tidying. Qed.
Hint Resolve tidy_bind_control : tidy.
Lemma tidy_serve pid code : tidy (serve_with_services euid pid_path socket_path pid code).
Proof.
  unfold serve_with_services, build_feat009_services, build_feat010_services, serve_until_shutdown. tidying.
Qed.
Lemma tidy_cleanup pid fd code : tidy (cleanup_run pid_path socket_path pid fd code).
Proof. unfold cleanup_run, remove_pid_file, release_lock. tidying. Qed.
Hint Resolve tidy_serve tidy_cleanup : tidy.
Lemma tidy_run_locked pid env code :
  tidy (run_locked euid state_dir logs_dir lock_path pid_path log_path socket_path pid env code).
Proof. unfold run_locked. tidying. Qed.
Hint Resolve tidy_run_locked : tidy.
Lemma tidy_run pid env : tidy (run euid state_dir logs_dir state_db lock_path pid_path log_path socket_path pid env).
Proof.
  unfold run, guard_feat008_test_seams_unset, verify_feat001_initialized, acquire_exclusive_lock. tidying.
Qed.

(** The directory is in order in every state that is reached. *)
Lemma prepared_step s s' :
  sys_step euid state_dir logs_dir state_db lock_path pid_path log_path socket_path s s' →
  prepared (sys_host s) ∧ map_Forall (λ _, orderly) (sys_procs s) →
  prepared (sys_host s') ∧ map_Forall (λ _, orderly) (sys_procs s').
Proof.
  intros Hst [P Ho]. destruct Hst as [s pid env Hn|s pid f Hf|s pid p Hd]; cbn.
  - split; [done|]. apply map_Forall_insert_2; [|done]. apply orderly_bind; [apply tidy_run|done].
  - pose proof (Ho pid _ Hf _ P) as H. destruct (f (sys_host s)). destruct H. split; [done|]. by apply map_Forall_insert_2.
  - split; [by apply prepared_exit|by apply map_Forall_delete].
Qed.
Lemma prepared_reachable h s :
  prepared h → reachable euid state_dir logs_dir state_db lock_path pid_path log_path socket_path h s → prepared (sys_host s).
Proof.
  intros P Hr. cut (prepared (sys_host s) ∧ map_Forall (λ _, orderly) (sys_procs s)); [by intros []|]. revert s Hr.
  refine (rtc_ind_r (λ s, prepared (sys_host s) ∧ map_Forall (λ _, orderly) (sys_procs s)) (mkSystem h ∅) _ _).
  - split; [done|apply map_Forall_empty].
  - intros s1 s2 _. apply prepared_step.
Qed.

(** *** Starting alone *)

Definition does {A} (m : proc A) (l : locals) (h : host) (Q : outcome A → locals → host → Prop) : Prop :=
  runs (m l) h (λ r h', Q r.1 r.2 h').
Definition gets {A} (m : proc A) (l : locals) (h : host) (Q : host → Prop) : Prop := reaches (m l) h Q.

Lemma does_mono {A} (m : proc A) l h (Q Q' : outcome A → locals → host → Prop) :
  does m l h Q → (∀ o l' h', Q o l' h' → Q' o l' h') → does m l h Q'.
Proof. intros H HQ. eapply runs_mono; [|exact H]. intros [o l'] h'. apply HQ. Qed.
Lemma does_bind {A B} (m : proc A) (k : A → proc B) l h Q :
  does m l h (λ o l' h', match o with Ok a => does (k a) l' h' Q | Raise e => Q (Raise e) l' h' end) →
  does (m ≫= k) l h Q.
Proof. intros H. apply runs_bind. eapply runs_mono; [|exact H]. by intros [[a|e] l'] h'. Qed.
Lemma does_rescue {A} (m : proc A) c l h Q :
  does m l h (λ o l' h', match o with Ok a => Q (Ok a) l' h' | Raise e => does (c e) l' h' Q end) →
  does (rescue m c) l h Q.
Proof. intros H. apply runs_bind. eapply runs_mono; [|exact H]. by intros [[a|e] l'] h'. Qed.
Lemma does_sys {A} (f : host → outcome A * host) l h (Q : outcome A → locals → host → Prop) :
  h_faults h = [] → Q (f h).1 l (f h).2 → does (sys f) l h Q.
Proof. intros Hf H. unfold does, sys. cbn. rewrite Hf. by destruct (f h). Qed.
Lemma does_sure {A} (f : host → A * host) l h (Q : outcome A → locals → host → Prop) :
  Q (Ok (f h).1) l (f h).2 → does (sure f) l h Q.
Proof. intros H. unfold does, sure. cbn. by destruct (f h). Qed.
Lemma gets_bind {A B} (m : proc A) (k : A → proc B) l h Q :
  does m l h (λ o l' h', match o with Ok a => gets (k a) l' h' Q | Raise _ => False end) → gets (m ≫= k) l h Q.
Proof. intros H. apply reaches_bind. eapply runs_mono; [|exact H]. by intros [[a|e] l'] h'. Qed.
Lemma gets_finally {A} (m : proc A) c l h Q : gets m l h Q → gets (finally m c) l h Q.
Proof. apply reaches_prefix. Qed.
Lemma gets_now {A} (m : proc A) l h (Q : host → Prop) : Q h → gets m l h Q.
Proof. unfold gets. destruct (m l); by left. Qed.

Section Alone.
Variable pid : Z.

Definition listens (h : host) : Prop :=
  ∃ si i, h_paths h !! socket_path = Some si ∧ h_inodes h !! si = Some i ∧ i_server i = Some pid.
(** In order, and no call fails for reasons of its own. *)
Definition calm (h : host) : Prop := prepared h ∧ h_faults h = [].
(** A part that succeeds and leaves the socket as it is. *)
Definition succeeds {A} (m : proc A) (P : A → Prop) : Prop := ∀ l h, calm h →
  does m l h (λ o l' h', ∃ a, o = Ok a ∧ P a ∧ calm h' ∧ h_paths h' !! socket_path = h_paths h !! socket_path ∧
    (listens h → listens h')).

Lemma succeeds_ret {A} (a : A) (P : A → Prop) : P a → succeeds (mret a) P.
Proof. intros Ha l h C. exists a. by split_and!. Qed.
Lemma succeeds_set f : succeeds (set_locals f) (λ _, True).
Proof. intros l h C. exists tt. by split_and!. Qed.
Lemma succeeds_bind {A B} (m : proc A) (k : A → proc B) P Q :
  succeeds m P → (∀ a, P a → succeeds (k a) Q) → succeeds (m ≫= k) Q.
Proof.
  intros Hm Hk l h C. apply does_bind. eapply does_mono; [by apply Hm|]. intros o l' h' (a & -> & Ha & C' & Es & Hl).
  eapply does_mono; [by apply (Hk a Ha)|]. intros o' l'' h'' (b & -> & Hb & C'' & Es' & Hl').
  exists b. split_and!; [done..|congruence|auto].
Qed.
Lemma succeeds_rescue {A} (m : proc A) c P : succeeds m P → succeeds (rescue m c) P.
Proof.
  intros Hm l h C. apply does_rescue. eapply does_mono; [by apply Hm|]. intros o l' h' (a & -> & H). by exists a.
Qed.
Lemma succeeds_read {A} (g : host → outcome A) (P : A → Prop) :
  (∀ h, calm h → ∃ a, g h = Ok a ∧ P a) → succeeds (sys (λ h, (g h, h))) P.
Proof. intros Hg l h C. apply does_sys; [apply C|]. cbn. destruct (Hg h C) as (a & -> & Ha). exists a. by split_and!. Qed.
Lemma succeeds_note ev : succeeds (note pid ev) (λ _, True).
Proof.
  intros l h C. apply does_sys; [apply C|]. cbn. exists tt. split_and!; try done. destruct C as [[] E]. done.
Qed.
Lemma succeeds_emit event fields : event ∈ LIFECYCLE_EVENTS → succeeds (emit pid event fields) (λ _, True).
Proof.
  intros He l h C. unfold emit. rewrite bool_decide_eq_false_2 by (intros H; by apply H). apply does_sys; [apply C|]. cbn.
  exists tt. split_and!; try done. destruct C as [[] E]. done.
Qed.

Lemma listens_update ino f h : (∀ i, i_server (f i) = i_server i) → listens h → listens (update_inode ino f h).
Proof.
  intros Hf (si & i & H1 & H2 & H3). exists si. rewrite update_lookup, H2. case_decide; cbn; [|by exists i].
  exists (f i). by rewrite Hf.
Qed.
Lemma calm_update ino f h : (∀ i, h_inodes h !! ino = Some i → alike i (f i)) → calm h → calm (update_inode ino f h).
Proof. intros Hf [P E]. split; [by apply prepared_update|done]. Qed.
Lemma succeeds_update ino f :
  (∀ i, alike i (f i)) → (∀ i, i_server (f i) = i_server i) →
  succeeds (sys (λ h, (Ok tt, update_inode ino f h))) (λ _, True).
Proof.
  intros Hf Hs l h C. apply does_sys; [apply C|]. exists tt. split_and!; try done; [by apply calm_update|by apply listens_update].
Qed.

Lemma does_open trunc path l h :
  path ∈ [lock_path; pid_path; log_path] → calm h →
  does (os_open euid trunc path) l h (λ o l' h', ∃ fd i, o = Ok fd ∧ calm h' ∧
    h_paths h' !! path = Some fd ∧ h_inodes h' !! fd = Some i ∧
    (h_paths h !! path = None ∧ i_lock i = None ∨ h_inodes h !! fd = Some i ∨ trunc = true) ∧
    h_paths h' !! socket_path = h_paths h !! socket_path ∧ (listens h → listens h') ∧
    (trunc = false → ∀ n, h_paths h !! path = Some n → fd = n ∧ h' = h)).
Proof.
  intros Hp C. apply does_sys; [apply C|]. destruct C as [P E].
  rewrite (follow_file _ _ (file_ok_of _ _ Hp P)).
  assert (Hs : path ≠ socket_path) by (clear -Hp apart; rewrite !NoDup_cons in apart; set_solver).
  destruct (h_paths h !! path) as [fd|] eqn:Ep.
  - destruct (p_paths _ P _ _ Ep) as [i Ei]. assert (Hk : i_kind i = Regular).
    { apply (file_ok_of _ _ Hp P). unfold stat_at. by rewrite Ep. }
    rewrite Ei. cbn [fmap option_fmap option_map]. rewrite Hk, bool_decide_eq_true_2 by done. cbn [fst snd]. destruct trunc.
    + exists fd, (with_text EmptyString i). split_and!; auto.
      * apply calm_update; [|done]. intros j _. by split_and!; auto.
      * rewrite update_lookup, decide_True by done. by rewrite Ei.
      * by apply listens_update.
      * done.
    + exists fd, i. split_and!; auto; [by split|]. by intros _ n [= <-].
  - exists (h_next h), (mkInode Regular MODE_FILE euid EmptyString None None). cbn [fst snd]. split_and!; auto.
    + split; [|done]. apply prepared_create; [left; by split_and!|done].
    + cbn. by rewrite lookup_insert_eq.
    + cbn. by rewrite lookup_insert_eq.
    + cbn. by rewrite lookup_insert_ne.
    + intros (si & i & H1 & H2 & H3). exists si, i. cbn. rewrite lookup_insert_ne by done. split_and!; [done| |done].
      rewrite lookup_insert_ne; [done|]. intros <-. pose proof (p_fresh _ P _ (ex_intro _ _ H2)). lia.
    + done.
Qed.
Lemma succeeds_chmod_there path l h fd :
  path ∈ [lock_path; pid_path; log_path] → calm h → h_paths h !! path = Some fd →
  does (chmod path) l h (λ o l' h', o = Ok tt ∧ calm h' ∧ h_paths h' !! socket_path = h_paths h !! socket_path ∧
    (listens h → listens h')).
Proof.
  intros Hp C E. apply does_sys; [apply C|]. destruct C as [P Ef]. pose proof (file_ok_of _ _ Hp P) as F.
  rewrite (follow_file _ _ F). cbn [mbind option_bind]. rewrite E. cbn [fst snd]. split_and!; try done.
  - apply calm_update; [|done]. intros i Ei. split_and!; try done. right. split; [|done]. apply F. unfold stat_at. by rewrite E.
  - by apply listens_update.
Qed.

Lemma succeeds_write_pid : succeeds (write_pid_file euid pid_path pid) (λ _, True).
Proof.
  intros l h C. unfold write_pid_file. apply does_bind. eapply does_mono; [apply does_open; [set_solver|done]|].
  intros o l1 h1 (fd & i & -> & C1 & Ep & Ei & _ & Es & Hl & _). apply does_bind, does_sys; [apply C1|]. cbn [fst snd].
  eapply does_mono; [eapply (succeeds_chmod_there pid_path _ _ fd); [set_solver| |done]|].
  - apply calm_update; [|done]. intros j _. by split_and!; auto.
  - intros o l2 h2 (-> & C2 & Es2 & Hl2). exists tt. split_and!; try done; [by rewrite Es2|].
    intros H. apply Hl2, listens_update; [done|auto].
Qed.
Lemma succeeds_logger : succeeds (open_logger euid log_path) (λ _, True).
Proof.
  intros l h C. unfold open_logger. apply does_bind, does_sys; [apply C|]. cbn [fst snd]. apply does_bind.
  eapply does_mono; [apply does_open; [set_solver|done]|].
  intros o l1 h1 (fd & i & -> & C1 & Ep & Ei & _ & Es & Hl & _). apply does_bind, does_rescue, does_bind, does_sys; [apply C1|].
  cbn [fst snd]. rewrite Ei. assert (Hm : i_mode i = MODE_FILE).
  { assert (F : file_ok log_path h1) by apply C1. apply F. unfold stat_at. by rewrite Ep. }
  rewrite bool_decide_eq_false_2 by (intros H; by apply H). exists tt. by split_and!.
Qed.
Lemma succeeds_check_file path : path ∈ [lock_path; pid_path; log_path] → succeeds (check_if_there euid path) (λ _, True).
Proof.
  intros Hp l h C. pose proof (file_ok_of _ _ Hp (proj1 C)) as F. unfold check_if_there.
  apply does_bind, does_sys; [apply C|]. cbn [fst snd]. rewrite (follow_file _ _ F).
  destruct (h_paths h !! path) as [ino|] eqn:E; [|rewrite bool_decide_eq_false_2 by (by intros []); by apply succeeds_ret].
  rewrite bool_decide_eq_true_2 by by eexists. destruct (p_paths _ (proj1 C) _ _ E) as [i Ei].
  assert (Es : stat_at path h = Some i) by (unfold stat_at; by rewrite E). destruct (F i Es) as (Hk & Hm & Hu).
  unfold check_mode_and_owner. apply does_bind, does_rescue, does_sys; [apply C|]. cbn [fst snd]. rewrite Es.
  rewrite !bool_decide_eq_false_2 by (rewrite ?Hk, ?Hm, ?Hu; intros Hn; by apply Hn). by apply succeeds_ret.
Qed.
Lemma succeeds_dir path : (∀ h, prepared h → dir_ok path h) → succeeds (check_mode_and_owner euid path MODE_DIR "dir") (λ _, True).
Proof.
  intros H l h C. destruct (H h (proj1 C)) as (i & Ei & Hk & Hm & Hu). unfold check_mode_and_owner.
  apply does_bind, does_rescue, does_sys; [apply C|]. cbn [fst snd]. rewrite Ei.
  rewrite !bool_decide_eq_false_2 by (rewrite ?Hk, ?Hm, ?Hu; intros Hn; by apply Hn). by apply succeeds_ret.
Qed.
Lemma succeeds_assert :
  succeeds (assert_runtime_paths_safe euid state_dir logs_dir lock_path pid_path log_path) (λ b, b = true).
Proof.
  apply succeeds_rescue. eapply succeeds_bind; [|intros [] _; by apply succeeds_ret].
  unfold assert_paths_safe. do 2 (eapply succeeds_bind; [apply succeeds_dir; by intros h []|intros [] _]).
  do 2 (eapply succeeds_bind; [apply succeeds_check_file; set_solver|intros [] _]). apply succeeds_check_file. set_solver.
Qed.
Lemma succeeds_warn env : succeeds (warn_about_test_seams pid env) (λ _, True).
Proof.
  assert (Hw : ∀ key event on fields, event ∈ LIFECYCLE_EVENTS → succeeds (warn_if pid env key event on fields) (λ _, True)).
  { intros key event on fields He. unfold warn_if. destruct (env !! key) as [v|]; [|by apply succeeds_ret].
    destruct (on v); [by apply succeeds_emit|by apply succeeds_ret]. }
  unfold warn_about_test_seams. eapply succeeds_bind; [apply Hw|intros [] _; eapply succeeds_bind; [apply Hw|intros [] _; apply Hw]];
    apply (bool_decide_eq_true_1 _); by vm_compute.
Qed.

Lemma stat_none path h : prepared h → stat_at path h = None → h_paths h !! path = None.
Proof.
  intros P. unfold stat_at. destruct (h_paths h !! path) as [ino|] eqn:E; [|done]. destruct (p_paths _ P _ _ E) as [i Ei].
  cbn. congruence.
Qed.
Lemma calm_unlink p h : p = pid_path ∨ p = socket_path → calm h → calm (unlink_path p h).
Proof. intros Hp [P E]. split; [by apply prepared_unlink|done]. Qed.
Lemma does_unlink p l h i :
  p = pid_path ∨ p = socket_path → calm h → stat_at p h = Some i → i_kind i ≠ Directory →
  does (unlink p) l h (λ o l' h', o = Ok tt ∧ calm h' ∧ h' = unlink_path p h).
Proof.
  intros Hp C E Hk. apply does_sys; [apply C|]. rewrite E, bool_decide_eq_false_2 by done. cbn [fst snd].
  split_and!; [done|by apply calm_unlink|done].
Qed.
Lemma known_event event : bool_decide (event ∈ LIFECYCLE_EVENTS) = true → event ∈ LIFECYCLE_EVENTS.
Proof. apply bool_decide_eq_true_1. Qed.

Definition vacant (h : host) : Prop := calm h ∧ h_paths h !! socket_path = None.

Lemma does_stale_pid l h : vacant h → does (remove_stale_pid pid_path pid) l h (λ o l' h', o = Ok tt ∧ vacant h').
Proof.
  intros [C E]. pose proof C as [P _]. pose proof (p_pid _ P) as F. unfold remove_stale_pid.
  apply does_bind, does_sys; [apply C|]. cbn [fst snd]. rewrite (follow_file _ _ F).
  destruct (h_paths h !! pid_path) as [ino|] eqn:Ep; [|rewrite bool_decide_eq_false_2 by (by intros []); done].
  rewrite bool_decide_eq_true_2 by by eexists. destruct (p_paths _ P _ _ Ep) as [i Ei].
  assert (Es : stat_at pid_path h = Some i) by (unfold stat_at; by rewrite Ep).
  apply does_bind. eapply does_mono; [apply (does_unlink pid_path _ _ i); [by left|done|done|by rewrite (proj1 (F i Es))]|].
  intros o l1 h1 (-> & C1 & ->). eapply does_mono; [apply succeeds_emit; [by apply known_event; vm_compute|done]|].
  intros o l2 h2 ([] & -> & _ & C2 & Es2 & _). split; [done|]. split; [done|]. rewrite Es2. cbn.
  destruct (decide (socket_path = pid_path)) as [->|Hn]; [apply lookup_delete_eq|by rewrite lookup_delete_ne].
Qed.
Lemma does_stale_socket l h :
  calm h → does (recover_stale_artifacts pid_path socket_path pid) l h (λ o l' h', o = Ok tt ∧ vacant h').
Proof.
  intros C. pose proof C as [P _]. unfold recover_stale_artifacts. apply does_bind, does_rescue, does_bind, does_sys; [apply C|].
  cbn [fst snd]. destruct (stat_at socket_path h) as [i|] eqn:E.
  - rewrite (p_socket _ P i E). cbn [bool_decide]. rewrite bool_decide_eq_true_2 by done. cbn.
    apply does_bind. rewrite bool_decide_eq_false_2 by done. cbn. apply does_bind. unfold remove_stale_socket.
    rewrite bool_decide_eq_true_2 by done. apply does_bind.
    eapply does_mono; [apply (does_unlink socket_path _ _ i); [by right|done|done|by rewrite (p_socket _ P i E)]|].
    intros o l1 h1 (-> & C1 & ->). eapply does_mono; [apply succeeds_emit; [by apply known_event; vm_compute|done]|].
    intros o l2 h2 ([] & -> & _ & C2 & Es2 & _). apply does_stale_pid. split; [done|]. rewrite Es2. cbn. apply lookup_delete_eq.
  - rewrite bool_decide_eq_true_2 by done. cbn. apply does_bind. rewrite bool_decide_eq_false_2 by done. cbn.
    apply does_bind. unfold remove_stale_socket. rewrite bool_decide_eq_false_2 by done. cbn.
    apply does_stale_pid. split; [done|by apply stat_none].
Qed.
Lemma does_recovered l h :
  calm h → does (recovered_stale_artifacts pid_path socket_path pid) l h (λ o l' h', o = Ok true ∧ vacant h').
Proof.
  intros C. unfold recovered_stale_artifacts. apply does_rescue, does_bind. eapply does_mono; [by apply does_stale_socket|].
  intros o l' h' (-> & V). done.
Qed.

Lemma does_bind_control l h :
  vacant h → does (bind_control_server euid socket_path pid) l h (λ o l' h', ∃ si, o = Ok (Some si) ∧ calm h' ∧ listens h').
Proof.
  intros [C E]. pose proof C as [P Ef]. unfold bind_control_server, ControlServer.
  apply does_rescue, does_bind, does_bind, does_sys; [done|]. rewrite E. cbn [fst snd].
  set (i := mkInode Socket MODE_FILE euid EmptyString None (Some pid)).
  assert (C' : calm (create socket_path i h)) by (split; [apply prepared_create; [by right|done]|done]).
  unfold verify_socket_safe. apply does_rescue, does_bind, does_bind, does_sys; [done|]. cbn [fst snd].
  rewrite (stat_create _ _ _ _ P), decide_True by done. cbn [i i_kind i_mode i_uid].
  rewrite !bool_decide_eq_false_2 by (intros H; by apply H). exists (h_next h). split_and!; try done.
  exists (h_next h), i. cbn. by rewrite !lookup_insert_eq.
Qed.

Lemma does_acquire_free l h :
  calm h → (∀ ino i, h_inodes h !! ino = Some i → i_lock i = None) →
  does (acquire_exclusive_lock euid lock_path pid) l h (λ o l' h', ∃ fd, o = Ok fd ∧ calm h').
Proof.
  intros C Hfree. unfold acquire_exclusive_lock. apply does_bind. eapply does_mono; [apply does_open; [set_solver|done]|].
  intros o l1 h1 (fd & i & -> & C1 & Ep & Ei & Hi & _).
  assert (Hl : i_lock i = None) by (destruct Hi as [[_ Hi]|[Hi|Hi]]; [done|by eapply Hfree|done]).
  assert (F : file_ok lock_path h1) by apply C1. destruct (F i) as (Hk & Hm & Hu); [unfold stat_at; by rewrite Ep|].
  apply does_rescue, does_bind, does_sys; [apply C1|]. cbn [fst snd]. rewrite Ei.
  rewrite bool_decide_eq_false_2 by (rewrite Hm, Hu; intros [H|H]; by apply H). apply does_bind, does_sys; [apply C1|].
  rewrite Ei, bool_decide_eq_true_2 by by left. cbn [fst snd]. exists fd. split; [done|]. apply calm_update; [|done].
  intros j _. by split_and!; auto.
Qed.
Lemma does_acquire_held q l h :
  calm h → holds lock_path q h → q ≠ pid →
  does (acquire_exclusive_lock euid lock_path pid) l h (λ o l' h', o = Raise LockHeldError ∧ h' = h).
Proof.
  intros C (li & x & Hp & Ex & Hq) Hne. unfold acquire_exclusive_lock. apply does_bind.
  eapply does_mono; [apply does_open; [set_solver|done]|]. intros o l1 h1 (fd & i & -> & _ & _ & _ & _ & _ & _ & Hsame).
  destruct (Hsame eq_refl li Hp) as [-> ->]. assert (F : file_ok lock_path h) by apply C.
  destruct (F x) as (Hk & Hm & Hu); [unfold stat_at; by rewrite Hp|].
  apply does_rescue, does_bind, does_sys; [apply C|]. cbn [fst snd]. rewrite Ex.
  rewrite bool_decide_eq_false_2 by (rewrite Hm, Hu; intros [H|H]; by apply H). apply does_bind, does_sys; [apply C|].
  rewrite Ex, bool_decide_eq_false_2 by (rewrite Hq; intros [H|H]; congruence). cbn [fst snd].
  replace (is_oserror (PyError "BlockingIOError")) with true by (by vm_compute). apply does_bind, does_sure. cbn [fst snd].
  rewrite bool_decide_eq_true_2 by done. split; [done|]. destruct h as [ps ns nx lg tr sv fs]. cbn in *. unfold update_inode, set_inodes.
  cbn. f_equal. apply map_eq. intros n. destruct (decide (n = li)) as [->|Hn]; [|by rewrite lookup_alter_ne].
  rewrite lookup_alter_eq, Ex. cbn. rewrite bool_decide_eq_false_2; [done|]. congruence.
Qed.

Lemma does_guard env l h : (∀ k, k ∈ SEAMS → env !! k = None) → does (guard_feat008_test_seams_unset env) l h (λ o l' h', o = Ok tt ∧ h' = h).
Proof.
  intros He. unfold guard_feat008_test_seams_unset. rewrite bool_decide_eq_true_2; [done|].
  apply elem_of_nil_inv. intros k [[v Hk] Hin]%list_elem_of_filter. rewrite He in Hk; done.
Qed.
Lemma does_verify l h : calm h → does (verify_feat001_initialized state_db) l h (λ o l' h', o = Ok tt ∧ h' = h).
Proof.
  intros [P E]. unfold verify_feat001_initialized. apply does_bind, does_sys; [done|]. cbn [fst snd].
  destruct (p_db _ P) as (i & Ei & Hk). rewrite follow_plain by (intros j Hj; congruence).
  rewrite bool_decide_eq_true_2.
  2:{ unfold stat_at in Ei. destruct (h_paths h !! state_db); [by eexists|done]. }
  cbn [negb]. apply does_bind, does_rescue, does_sys; [done|]. apply does_bind, does_sys; [done|]. cbn [fst snd].
  by destruct (p_schema _ P) as [v ->].
Qed.

(** The daemon listens, and its last line says so. *)
Definition ready (h : host) : Prop := listens h ∧ ∃ fields, last (h_log h) = Some (pid, "daemon_ready"%string, fields).

Lemma vacant_succeeds {A B} (m : proc A) (k : A → proc B) P l h Q :
  vacant h → succeeds m P → (∀ a l' h', P a → vacant h' → gets (k a) l' h' Q) → gets (m ≫= k) l h Q.
Proof.
  intros [C E] Hm Hk. apply gets_bind. eapply does_mono; [by apply Hm|]. intros o l' h' (a & -> & Ha & C' & Es & _).
  apply Hk; [done|]. split; [done|congruence].
Qed.
Lemma calm_succeeds {A B} (m : proc A) (k : A → proc B) P l h Q :
  calm h → succeeds m P → (∀ a l' h', P a → calm h' → gets (k a) l' h' Q) → gets (m ≫= k) l h Q.
Proof.
  intros C Hm Hk. apply gets_bind. eapply does_mono; [by apply Hm|]. intros o l' h' (a & -> & Ha & C' & _). by apply Hk.
Qed.
Lemma gets_ready code l h : vacant h → gets (serve_with_services euid pid_path socket_path pid code) l h ready.
Proof.
  intros V. apply gets_finally.
  eapply vacant_succeeds; [done| |intros _ l1 h1 _ V1].
  { eapply (succeeds_bind _ _ (λ _, True)); [apply succeeds_note|intros _ _].
    eapply (succeeds_bind _ _ (λ _, True)); [apply succeeds_note|intros _ _]. apply succeeds_set. }
  eapply vacant_succeeds; [done| |intros _ l2 h2 _ V2].
  { eapply (succeeds_bind _ _ (λ _, True)); [apply succeeds_note|intros _ _].
    eapply (succeeds_bind _ _ (λ _, True)); [apply succeeds_note|intros _ _]. apply succeeds_set. }
  apply gets_bind. eapply does_mono; [by apply does_bind_control|]. intros o l3 h3 (si & -> & C3 & L3).
  apply gets_bind. cbn. apply gets_bind. eapply does_mono; [by apply succeeds_write_pid|].
  intros o l4 h4 ([] & -> & _ & C4 & _ & HL). apply gets_bind. unfold emit.
  rewrite bool_decide_eq_false_2 by (intros H; apply H, known_event; by vm_compute).
  apply does_sys; [apply C4|]. apply gets_now. split; [by apply HL|]. cbn. rewrite last_snoc. by eexists.
Qed.
Lemma starts env h :
  calm h → (∀ ino i, h_inodes h !! ino = Some i → i_lock i = None) → (∀ k, k ∈ SEAMS → env !! k = None) →
  reaches (program euid state_dir logs_dir state_db lock_path pid_path log_path socket_path pid env) h ready.
Proof.
  intros C Hf He. unfold program. apply reaches_prefix. fold (gets (run euid state_dir logs_dir state_db lock_path pid_path log_path
    socket_path pid env) no_locals h ready).
  unfold run. apply gets_bind. eapply does_mono; [by apply does_guard|]. intros o l0 h0 (-> & ->).
  apply gets_bind. eapply does_mono; [by apply does_verify|]. intros o l1 h1 (-> & ->).
  apply gets_bind, does_rescue, does_bind. eapply does_mono; [by apply does_acquire_free|].
  intros o l2 h2 (fd & -> & C2). cbn. apply gets_finally. unfold run_locked.
  eapply calm_succeeds; [done|apply succeeds_assert|intros b l3 h3 -> C3]. cbn [negb].
  eapply calm_succeeds; [done|apply succeeds_logger|intros _ l4 h4 _ C4].
  eapply calm_succeeds; [done|apply succeeds_emit, known_event; by vm_compute|intros _ l5 h5 _ C5].
  eapply calm_succeeds; [done|apply succeeds_warn|intros _ l6 h6 _ C6].
  apply gets_bind. eapply does_mono; [by apply does_recovered|]. intros o l7 h7 (-> & V). cbn [negb]. revert l7 h7 V.
  assert (Hn : ∀ A (m : proc A) (k : A → proc Z), succeeds m (λ _, True) →
    (∀ a l h, vacant h → gets (k a) l h ready) → ∀ l h, vacant h → gets (m ≫= k) l h ready).
  { intros A m k Hm Hk l' h' V. eapply vacant_succeeds; [done|done|]. auto. }
  do 6 (apply Hn; [first [apply succeeds_note|apply succeeds_set|apply succeeds_rescue, succeeds_read; by eauto]|intros _]).
  apply gets_ready.
Qed.
Lemma refused_alone env h q :
  calm h → holds lock_path q h → q ≠ pid → (∀ k, k ∈ SEAMS → env !! k = None) →
  runs (program euid state_dir logs_dir state_db lock_path pid_path log_path socket_path pid env) h (λ o h', o = Ok 2 ∧ h' = h).
Proof.
  intros C Hq Hne He. apply runs_bind. eapply (runs_mono _ _ (λ r h', r.1 = Ok 2 ∧ h' = h)); [done|].
  fold (does (run euid state_dir logs_dir state_db lock_path pid_path log_path socket_path pid env) no_locals h
    (λ o _ h', o = Ok 2 ∧ h' = h)).
  unfold run. apply does_bind. eapply does_mono; [by apply does_guard|]. intros o l0 h0 (-> & ->).
  apply does_bind. eapply does_mono; [by apply does_verify|]. intros o l1 h1 (-> & ->).
  apply does_bind, does_rescue, does_bind. eapply does_mono; [by apply (does_acquire_held q)|]. intros o l2 h2 (-> & ->).
  rewrite bool_decide_eq_true_2 by done. done.
Qed.
End Alone.
End Order.

(** ** Runs that can be computed *)

Inductive happening := Spawn (pid : Z) (env : environ) | Call (pid : Z) | End_ (pid : Z).

Section Exec.
Variable euid : Z.
Variables state_dir logs_dir state_db lock_path pid_path log_path socket_path : string.

Definition happen (e : happening) (s : system) : option system :=
  match e with
  | Spawn pid env =>
      match sys_procs s !! pid with
      | None => Some (mkSystem (sys_host s) (<[pid := program euid state_dir logs_dir state_db lock_path pid_path log_path socket_path
                                                        pid env]> (sys_procs s)))
      | Some _ => None
      end
  | Call pid =>
      match sys_procs s !! pid with
      | Some (Act f) => Some (mkSystem (f (sys_host s)).2 (<[pid := (f (sys_host s)).1]> (sys_procs s)))
      | _ => None
      end
  | End_ pid =>
      match sys_procs s !! pid with
      | Some _ => Some (mkSystem (kernel_exit pid (sys_host s)) (delete pid (sys_procs s)))
      | None => None
      end
  end.
(** A happening that is not possible is left out. *)
Definition history (es : list happening) (h : host) : system :=
  foldl (λ s e, default s (happen e s)) (mkSystem h ∅) es.

Lemma history_reachable es h :
  reachable euid state_dir logs_dir state_db lock_path pid_path log_path socket_path h (history es h).
Proof.
  unfold history. induction es as [|e es IH] using rev_ind; [apply rtc_refl|]. rewrite foldl_app. cbn.
  set (s := foldl _ _ es) in *. destruct (happen e s) as [s'|] eqn:E; [|exact IH]. eapply rtc_r; [exact IH|]. clear IH.
  destruct e as [pid env|pid|pid]; cbn in E; destruct (sys_procs s !! pid) as [p|] eqn:Ep; try done.
  - injection E as <-. by constructor.
  - destruct p as [a|f]; [done|]. injection E as <-. by apply step_call.
  - injection E as <-. by apply (step_end _ _ _ _ _ _ _ _ _ _ p).
Qed.
End Exec.

(** A state directory with its database, and what [socket] puts at the socket path. *)
Definition demo_inode (k : file_kind) (mode : Z) : inode := mkInode k mode 1000 EmptyString None None.
Definition demo_host (socket : list (string * nat)) (faults : list (option fault)) : host :=
  mkHost (list_to_map ([("/s", 0%nat); ("/s/logs", 1%nat); ("/s/db", 2%nat)]%string ++ socket))
    (list_to_map [(0%nat, demo_inode Directory MODE_DIR); (1%nat, demo_inode Directory MODE_DIR); (2%nat, demo_inode Regular MODE_FILE);
                  (3%nat, demo_inode Socket MODE_FILE); (4%nat, demo_inode Regular MODE_FILE)])
    5 [] [] (Some 7) faults.
Definition demo_history : list happening → host → system :=
  history 1000 "/s" "/s/logs" "/s/db" "/s/lock" "/s/pid" "/s/logs/log" "/s/sock".
Definition calls (n : nat) (pid : Z) : list happening := replicate n (Call pid).

Lemma demo_host_resting socket faults :
  bool_decide (map_Forall (λ _ ino, is_Some (h_inodes (demo_host socket faults) !! ino)) (h_paths (demo_host socket faults))) = true →
  bool_decide (h_paths (demo_host socket faults) !! "/s/lock"%string = None) = true →
  resting "/s/lock" (demo_host socket faults).
Proof.
  intros H1%bool_decide_eq_true_1 H2%bool_decide_eq_true_1.
  assert (H3 : map_Forall (λ ino i, (ino < 5)%nat ∧ i_lock i = None ∧ i_server i = None) (h_inodes (demo_host socket faults))).
  { apply (bool_decide_eq_true_1 _). by vm_compute. }
  constructor.
  - intros path ino E. by apply (H1 path ino).
  - intros ino [i Ei]. by apply (H3 ino i).
  - intros i. unfold stat_at. by rewrite H2.
  - intros ino i Ei. by apply (H3 ino i).
Qed.
Lemma demo_prepared faults : prepared 1000 "/s" "/s/logs" "/s/db" "/s/lock" "/s/pid" "/s/logs/log" "/s/sock" (demo_host [("/s/sock", 3%nat)]%string faults).
Proof.
  assert (R := demo_host_resting [("/s/sock", 3%nat)]%string faults). destruct R as [H1 H2 H3 H4]; [by vm_compute..|].
  constructor; [done|done|by eexists|by eexists|by eexists|..]; try (by intros i [=]).
  - intros i [= <-]. done.
  - by eexists.
Qed.

(** * The claims *)

(** C5: However daemons of one state directory are started, interleaved, failed and killed, at
    most one listens at any time: the one that has the lock, on the socket the path leads to. *)
Theorem one_daemon_listens euid state_dir logs_dir state_db lock_path pid_path log_path socket_path h s :
  lock_path ≠ socket_path → lock_path ≠ pid_path → resting lock_path h →
  reachable euid state_dir logs_dir state_db lock_path pid_path log_path socket_path h s →
  ∀ ino i pid, h_inodes (sys_host s) !! ino = Some i → i_server i = Some pid →
  is_Some (sys_procs s !! pid) ∧ holds lock_path pid (sys_host s) ∧ h_paths (sys_host s) !! socket_path = Some ino ∧
  (∀ ino' i' pid', h_inodes (sys_host s) !! ino' = Some i' → i_server i' = Some pid' → ino' = ino ∧ pid' = pid).
Proof.
  intros H1 H2 Hrest Hr ino i pid E Hs.
  destruct (sound_reachable _ _ _ _ _ _ _ _ H1 H2 h s Hrest Hr) as [I _ Ha].
  destruct (inv_served _ _ _ I ino i pid E Hs) as (Hp & _ & Hh).
  split_and!; [apply (Ha ino); exists i; auto|done|done|]. intros ino' i' pid' E' Hs'.
  destruct (inv_served _ _ _ I ino' i' pid' E' Hs') as (Hp' & _ & Hh'). split; [congruence|].
  by apply (holds_unique lock_path pid' pid (sys_host s)).
Qed.

(** C25: Whatever the daemons do, they remove nothing but the pid file and sockets at the socket
    path: any other file, one that sits at the socket path included, stays where it is. *)
Theorem foreign_files_survive euid state_dir logs_dir state_db lock_path pid_path log_path socket_path h s path ino i :
  lock_path ≠ socket_path → lock_path ≠ pid_path → resting lock_path h →
  reachable euid state_dir logs_dir state_db lock_path pid_path log_path socket_path h s →
  h_paths h !! path = Some ino → h_inodes h !! ino = Some i → path ≠ pid_path → (path = socket_path → i_kind i ≠ Socket) →
  h_paths (sys_host s) !! path = Some ino ∧ ∃ i', h_inodes (sys_host s) !! ino = Some i' ∧ i_kind i' = i_kind i.
Proof.
  intros H1 H2 Hrest Hr E Ei Hn Hs. revert s Hr.
  refine (rtc_ind_r (λ s, h_paths (sys_host s) !! path = Some ino ∧ ∃ i', h_inodes (sys_host s) !! ino = Some i' ∧ i_kind i' = i_kind i)
    (mkSystem h ∅) _ _); [by eauto|].
  intros s1 s2 Hr Hst (Ep & i1 & E1 & Hk). rewrite <- Hk in Hs |- *.
  pose proof (sound_reachable _ _ _ _ _ _ _ _ H1 H2 h s1 Hrest Hr) as Hsound. by eapply step_files.
Qed.

(** The first daemon listens; a second one waits to be refused. *)
Definition demo_two : system := demo_history (Spawn 1 ∅ :: calls 34 1 ++ Spawn 2 ∅ :: calls 5 2) (demo_host [("/s/sock", 3%nat)]%string []).

Lemma one_daemon_listens_witness :
  ∃ ino i, h_inodes (sys_host demo_two) !! ino = Some i ∧ i_server i = Some 1 ∧
  h_paths (sys_host demo_two) !! "/s/sock"%string = Some ino ∧
  (∀ ino' i' pid', h_inodes (sys_host demo_two) !! ino' = Some i' → i_server i' = Some pid' → ino' = ino ∧ pid' = 1).
Proof.
  exists 7%nat, (mkInode Socket MODE_FILE 1000 EmptyString None (Some 1)).
  assert (H1 : h_inodes (sys_host demo_two) !! 7%nat = Some (mkInode Socket MODE_FILE 1000 EmptyString None (Some 1))) by by vm_compute.
  destruct (one_daemon_listens 1000 "/s" "/s/logs" "/s/db" "/s/lock" "/s/pid" "/s/logs/log" "/s/sock"
    (demo_host [("/s/sock", 3%nat)]%string []) demo_two) with (ino := 7%nat) (i := mkInode Socket MODE_FILE 1000 EmptyString None (Some 1)) (pid := 1)
    as (_ & _ & Hp & Hu); [done|done|by apply demo_host_resting; vm_compute|apply history_reachable|exact H1|done|].
  split; [exact H1|]. split; [done|]. split; [exact Hp|exact Hu].
Defined.

Lemma foreign_files_survive_witness :
  h_paths (sys_host (demo_history (Spawn 1 ∅ :: calls 60 1) (demo_host [("/s/sock", 4%nat)]%string []))) !! "/s/sock"%string = Some 4%nat.
Proof.
  destruct (foreign_files_survive 1000 "/s" "/s/logs" "/s/db" "/s/lock" "/s/pid" "/s/logs/log" "/s/sock"
    (demo_host [("/s/sock", 4%nat)]%string []) (demo_history (Spawn 1 ∅ :: calls 60 1) (demo_host [("/s/sock", 4%nat)]%string []))
    "/s/sock" 4 (demo_inode Regular MODE_FILE)) as [H _];
    [done|done|by apply demo_host_resting; vm_compute|apply history_reachable|done|done|done|done|exact H].
Defined.

(** C6: After any history of starts, failures and crashes, when no daemon is left, the next one
    that is started, and whose calls do not fail, comes up: it takes the lock, clears what its
    predecessors left behind, listens on the socket and reports that it is ready. *)
Theorem a_daemon_comes_up euid state_dir logs_dir state_db lock_path pid_path log_path socket_path h s pid env :
  NoDup [state_dir; logs_dir; state_db; lock_path; pid_path; log_path; socket_path] →
  resting lock_path h → prepared euid state_dir logs_dir state_db lock_path pid_path log_path socket_path h →
  reachable euid state_dir logs_dir state_db lock_path pid_path log_path socket_path h s →
  sys_procs s = ∅ → h_faults (sys_host s) = [] → (∀ k, k ∈ SEAMS → env !! k = None) →
  reaches (program euid state_dir logs_dir state_db lock_path pid_path log_path socket_path pid env) (sys_host s)
    (ready socket_path pid).
Proof.
  intros Hd Hrest P Hr Hp Hf He. apply starts; [done|split; [by eapply prepared_reachable|done]| |done].
  intros ino i E. destruct (i_lock i) as [q|] eqn:El; [|done]. exfalso.
  destruct (sound_reachable euid state_dir logs_dir state_db lock_path pid_path log_path socket_path) with (h := h) (s := s) as [_ _ Ha];
    [clear -Hd; rewrite !NoDup_cons in Hd; set_solver..|done|done|].
  destruct (Ha ino q) as [p Ep]; [exists i; auto|]. by rewrite Hp in Ep.
Qed.

(** Killed when it had bound the socket. *)
Definition demo_crashed : system := demo_history (Spawn 1 ∅ :: calls 30 1 ++ [End_ 1]) (demo_host [("/s/sock", 3%nat)]%string []).
Lemma a_daemon_comes_up_witness :
  h_paths (sys_host demo_crashed) !! "/s/sock"%string = Some 7%nat ∧
  reaches (program 1000 "/s" "/s/logs" "/s/db" "/s/lock" "/s/pid" "/s/logs/log" "/s/sock" 2 ∅) (sys_host demo_crashed) (ready "/s/sock" 2).
Proof.
  split; [by vm_compute|].
  apply (a_daemon_comes_up 1000 "/s" "/s/logs" "/s/db" "/s/lock" "/s/pid" "/s/logs/log" "/s/sock"
    (demo_host [("/s/sock", 3%nat)]%string []) demo_crashed 2 ∅);
    [apply (bool_decide_eq_true_1 _); by vm_compute|by apply demo_host_resting; vm_compute|apply demo_prepared|apply history_reachable|
     by vm_compute|by vm_compute|done].
Defined.

Definition demo_one : system := demo_history (Spawn 1 ∅ :: calls 34 1) (demo_host [("/s/sock", 3%nat)]%string []).

(** The daemon refuses a file at the socket path and returns 1; its log says [exit_code=0]. *)
Example exit_code_is_always_zero :
  let s := demo_history (Spawn 1 ∅ :: calls 60 1) (demo_host [("/s/sock", 4%nat)]%string []) in
  sys_procs s !! 1 = Some (Ret (Ok 1)) ∧
  last (h_log (sys_host s)) = Some (1, "daemon_exited", [("exit_code", "0")])%string.
Proof. by vm_compute. Qed.
