(* ===== verification/ConfigDoctor.v ===== *)
(** [agenttower config doctor] (src/src/agenttower/config_doctor/): the six checks a client makes
    of its own surroundings and of the daemon, their verdict, and the report.

    The doctor only reads: the environment, a few files, and the answers of the daemon to
    [status], [list_containers] and [list_panes].  [machine] is what it finds there; a file is
    text as Python's text layer gives it.  [repr_of] is [str()] of a nested value. *)

From S2P Require Import Prelude Errors Utf8 Agents Store Json Validation JsonParse AppCursor PipePane LogPaths Orphans DaemonProcess.
From Stdlib Require Import Ascii.

(** ** sanitize.py *)

Definition ENV_VALUE_CAP : nat := 4096.
Definition FILE_CONTENT_CAP : nat := 4096.
Definition DETAILS_CAP : nat := 2048.
Definition ACTIONABLE_CAP : nat := 2048.
Definition TRUNCATION_MARKER : string := "…".

(** [sanitize_text], with [max_length] at least 1 as every caller passes it. *)
Definition sanitize_marked (value : string) (max_length : nat) : string * bool :=
  let cleaned := clean_controls value in
  if (char_count cleaned <=? max_length)%nat then (cleaned, false)
  else (take_chars (max_length - 1) cleaned +:+ TRUNCATION_MARKER, true).
Definition sanitized (value : string) (max_length : nat) : string := (sanitize_marked value max_length).1.

(** ** What the client finds *)

(** What the daemon answers a request: [Refused] is a [DaemonError]. *)
Inductive reply := Answer (result : params) | Refused (code message : string) | Unavailable (kind : string).

Record machine := mkMachine {
  m_environ : gmap string string;              (* [os.environ] *)
  m_lstat : string → outcome file_kind;
  m_readlink : string → outcome string;
  m_exists : string → outcome bool;
  m_text : string → outcome string;            (* the text of a file *)
  m_ask : string → outcome reply               (* one request on the resolved socket *)
}.

(** [Path.is_symlink]: a path that cannot exist is no link; other errors are raised. *)
Definition ignorable (e : exn) : bool := bool_decide (e = FileNotFoundError ∨ e = PyError "NotADirectoryError").
Definition is_symlink (m : machine) (path : string) : outcome bool :=
  match m_lstat m path with
  | Ok k => Ok (bool_decide (k = Symlink))
  | Raise e => if ignorable e then Ok false else Raise e
  end.
(** [path.parent] of an absolute path. *)
Definition parent (path : string) : string := path_str ("/" +:+ join_with "/" (removelast (segments path))).
(** [os.readlink], made absolute. *)
Definition link_target (m : machine) (path : string) : outcome string :=
  match m_readlink m path with
  | Ok target => Ok (if Text.startswith "/" target then path_str target else path_join (parent path) target)
  | Raise e => Raise e
  end.

(** ** runtime_detect.py *)

Definition CGROUP_TOKENS : list string := ["docker/"; "containerd/"; "kubepods/"; "lxc/"].
Inductive RuntimeContext := HostContext | ContainerContext (detection_signals : list string).

Definition resolve_proc_root (m : machine) (proc_root : option string) : string :=
  match proc_root with
  | Some root => root
  | None => default "/"%string (m_environ m !! "AGENTTOWER_TEST_PROC_ROOT"%string)
  end.
Definition path_exists (m : machine) (root relative : string) : bool :=
  match m_exists m (path_join root (lstrip_char "/" relative)) with Ok b => b | Raise _ => false end.
(** The lines a text file is iterated over, without their ends. *)
Definition lines_of (text : string) : list string :=
  let l := Text.split "010"%char text in
  match last l with Some EmptyString => removelast l | _ => l end.
Definition cgroup_lines (m : machine) (root : string) : list string :=
  match m_text m (path_join root "proc/self/cgroup") with Ok text => lines_of text | Raise _ => [] end.
Definition scan_cgroup (m : machine) (root : string) : bool :=
  existsb (λ line, existsb (λ token, Text.contains token line) CGROUP_TOKENS) (cgroup_lines m root).

Definition detect (m : machine) (proc_root : option string) : RuntimeContext :=
  let root := resolve_proc_root m proc_root in
  let fired :=
    (if path_exists m root "/.dockerenv" then ["dockerenv"] else []) ++
    (if path_exists m root "/run/.containerenv" then ["containerenv"] else []) ++
    (if scan_cgroup m root then ["cgroup"] else []) in
  match fired with [] => HostContext | _ => ContainerContext fired end%string.

(** ** socket_resolve.py *)

Definition MOUNTED_DEFAULT_PATH : string := "/run/agenttower/agenttowerd.sock".
Definition REASON_EMPTY : string := "value is empty".
Definition REASON_NOT_ABSOLUTE : string := "value is not absolute".
Definition REASON_NUL_BYTE : string := "value contains NUL byte".
Definition REASON_DOES_NOT_EXIST : string := "value does not exist".
Definition REASON_NOT_UNIX_SOCKET : string := "value is not a Unix socket".
Definition REASONS : list string :=
  [REASON_EMPTY; REASON_NOT_ABSOLUTE; REASON_NUL_BYTE; REASON_DOES_NOT_EXIST; REASON_NOT_UNIX_SOCKET].

Record ResolvedSocket := mkResolved { rs_path : string; rs_source : string }.

(** What one step along a link gives: the target to look at, or the reason it is refused. *)
Definition follow_once (m : machine) (candidate : string) : string + string :=
  match is_symlink m candidate with
  | Raise _ => inl REASON_DOES_NOT_EXIST
  | Ok false => inr candidate
  | Ok true =>
      match link_target m candidate with
      | Raise _ => inl REASON_DOES_NOT_EXIST
      | Ok target =>
          match is_symlink m target with
          | Raise _ => inl REASON_DOES_NOT_EXIST
          | Ok true => inl REASON_NOT_UNIX_SOCKET
          | Ok false => inr target
          end
      end
  end.
(** [_validate_env_override]: the reason of a [SocketPathInvalid], or the path. *)
Definition validate_env_override (m : machine) (value : string) : string + string :=
  let stripped := strip value in
  if bool_decide (stripped = EmptyString) then inl REASON_EMPTY
  else if Text.contains (String "000"%char EmptyString) stripped then inl REASON_NUL_BYTE
  else if negb (Text.startswith "/" stripped) then inl REASON_NOT_ABSOLUTE
  else
    let candidate := path_str stripped in
    match follow_once m candidate with
    | inl reason => inl reason
    | inr target =>
        match m_lstat m target with
        | Raise _ => inl REASON_DOES_NOT_EXIST
        | Ok Socket => inr candidate
        | Ok _ => inl REASON_NOT_UNIX_SOCKET
        end
    end.
Definition mounted_default_is_reachable (m : machine) : bool :=
  match follow_once m MOUNTED_DEFAULT_PATH with
  | inl _ => false
  | inr target => match m_lstat m target with Ok Socket => true | _ => false end
  end.
Definition resolve_socket_path (m : machine) (env : gmap string string) (host_socket : string) (ctx : RuntimeContext) :
  string + ResolvedSocket :=
  match env !! "AGENTTOWER_SOCKET"%string with
  | Some value =>
      match validate_env_override m value with
      | inl reason => inl reason
      | inr path => inr (mkResolved path "env_override")
      end
  | None =>
      match ctx with
      | ContainerContext _ =>
          if mounted_default_is_reachable m then inr (mkResolved MOUNTED_DEFAULT_PATH "mounted_default")
          else inr (mkResolved host_socket "host_default")
      | HostContext => inr (mkResolved host_socket "host_default")
      end
  end.

(** ** identity.py *)

Inductive DetectResult :=
| NoCandidate
| IdentityCandidate (candidate signal : string)
| CgroupMultiCandidate (candidates : list string).

Definition read_text (m : machine) (path : string) (max_chars : nat) : string :=
  match m_text m path with
  | Ok text => sanitized (take_chars (max_chars + 1024) text) max_chars
  | Raise _ => EmptyString
  end.

Definition id_start (c : ascii) : bool :=
  let n := nat_of_ascii c in
  ((48 <=? n) && (n <=? 57) || (65 <=? n) && (n <=? 90) || (97 <=? n) && (n <=? 122))%nat.
Definition id_char (c : ascii) : bool := id_start c || bool_decide (c = "_"%char ∨ c = "-"%char).
Fixpoint take_while (p : ascii → bool) (s : string) : string :=
  match s with
  | String c s' => if p c then String c (take_while p s') else EmptyString
  | EmptyString => EmptyString
  end.
(** What the pattern of an identifier matches at the start: a letter or digit, then letters, digits, [_] and [-]. *)
Definition id_match (s : string) : string :=
  match s with String c s' => if id_start c then String c (take_while id_char s') else EmptyString | EmptyString => EmptyString end.

(** [prefix[:-1] + "-"] *)
Definition mangled (token : string) : string := String.substring 0 (String.length token - 1) token +:+ "-".
Definition id_after (token line : string) : option string :=
  match after_word token line with Some a => Some a | None => after_word (mangled token) line end.
Fixpoint trailing_id (tokens : list string) (line : string) : option string :=
  match tokens with
  | [] => None
  | token :: rest =>
      match id_after token line with
      | Some after =>
          let candidate := id_match after in
          if (8 <=? String.length candidate)%nat then Some candidate else trailing_id rest line
      | None => trailing_id rest line
      end
  end.
Definition trailing_id_from_cgroup_path : string → option string := trailing_id CGROUP_TOKENS.

Definition add_candidate (seen : list string) (line : string) : list string :=
  match trailing_id_from_cgroup_path line with
  | None => seen
  | Some identifier =>
      let s := sanitized identifier FILE_CONTENT_CAP in
      if bool_decide (s ≠ EmptyString ∧ s ∉ seen) then seen ++ [s] else seen
  end.
Definition scan_cgroup_for_candidates (m : machine) (root : string) : list string :=
  foldl add_candidate [] (cgroup_lines m root).

(** The four sources, the first that gives anything. *)
Definition env_candidate (env : gmap string string) : option string :=
  match env !! "AGENTTOWER_CONTAINER_ID"%string with
  | Some v => let s := sanitized v ENV_VALUE_CAP in if bool_decide (s = EmptyString) then None else Some s
  | None => None
  end.
Definition hostname_env (env : gmap string string) : option string :=
  match env !! "HOSTNAME"%string with
  | Some v =>
      let s := sanitized (strip v) ENV_VALUE_CAP in
      if bool_decide (v = EmptyString ∨ s = EmptyString) then None else Some s
  | None => None
  end.
Definition detect_candidate (m : machine) (env : gmap string string) (proc_root : option string) : DetectResult :=
  match env_candidate env with
  | Some s => IdentityCandidate s "env"
  | None =>
      let root := resolve_proc_root m proc_root in
      match scan_cgroup_for_candidates m root with
      | [id] => IdentityCandidate id "cgroup"
      | _ :: _ as ids => CgroupMultiCandidate ids
      | [] =>
          let hostname := strip (read_text m (path_join root "etc/hostname") FILE_CONTENT_CAP) in
          if bool_decide (hostname ≠ EmptyString) then IdentityCandidate hostname "hostname"
          else match hostname_env env with
               | Some s => IdentityCandidate s "hostname_env"
               | None => NoCandidate
               end
      end
  end.

(** ** tmux_identity.py *)

Record ParsedTmuxEnv := mkTmuxEnv {
  in_tmux : bool; pt_socket_path : option string; pt_server_pid : option string; pt_session_id : option string;
  pt_pane_id : option string; pane_id_valid : bool; malformed_reason : option string
}.

(** [s.split(",", 2)] *)
Fixpoint split_first (sep : ascii) (s : string) : string * option string :=
  match s with
  | EmptyString => (EmptyString, None)
  | String c s' => if bool_decide (c = sep) then (EmptyString, Some s') else let (a, b) := split_first sep s' in (String c a, b)
  end.
Definition split_three (s : string) : option (string * string * string) :=
  match split_first "," s with
  | (a, Some rest) => match split_first "," rest with (b, Some c) => Some (a, b, c) | _ => None end
  | _ => None
  end.
Definition or_none (s : string) : option string := if bool_decide (s = EmptyString) then None else Some s.
Definition ascii_digit (c : ascii) : bool := let n := nat_of_ascii c in ((48 <=? n) && (n <=? 57))%nat.
(** A percent sign and ASCII digits, on text without newlines. *)
Definition tmux_pane_re (s : string) : bool :=
  match s with
  | String "%"%char rest => bool_decide (rest ≠ EmptyString) && Text.all ascii_digit rest
  | _ => false
  end.

Definition parse_tmux_env (env : gmap string string) : ParsedTmuxEnv :=
  match or_none (default EmptyString (env !! "TMUX"%string)) with
  | None => mkTmuxEnv false None None None None false None
  | Some raw_tmux =>
      match split_three (sanitized raw_tmux ENV_VALUE_CAP) with
      | None => mkTmuxEnv true None None None None false (Some "$TMUX is set but does not have three comma-separated fields"%string)
      | Some (socket_path, server_pid, session_id) =>
          if bool_decide (socket_path = EmptyString ∨ server_pid = EmptyString ∨ session_id = EmptyString)
          then mkTmuxEnv true (or_none socket_path) (or_none server_pid) (or_none session_id) None false
                 (Some "$TMUX has an empty field"%string)
          else
            match or_none (default EmptyString (env !! "TMUX_PANE"%string)) with
            | None => mkTmuxEnv true (Some socket_path) (Some server_pid) (Some session_id) None false
                        (Some "$TMUX is set but $TMUX_PANE is unset"%string)
            | Some raw_pane =>
                let pane := sanitized raw_pane ENV_VALUE_CAP in
                let ok := tmux_pane_re pane in
                mkTmuxEnv true (Some socket_path) (Some server_pid) (Some session_id) (Some pane) ok
                  (if ok then None else Some "$TMUX_PANE does not match the %N shape"%string)
            end
      end
  end.

(** ** checks.py *)

Record CheckResult := mkCheck {
  ck_code : string; ck_status : string; ck_source : option string; ck_details : string;
  ck_actionable : option string; ck_sub_code : option string;
  cgroup_candidates : option (list string); daemon_container_set_empty : option bool
}.
Definition bound_details (text : string) : string := sanitized text DETAILS_CAP.
Definition bound_actionable (text : string) : string := sanitized text ACTIONABLE_CAP.

(** A row; its texts go through the bounds. *)
Definition row (code status : string) (source : option string) (details : string) (actionable sub_code : option string) : CheckResult :=
  mkCheck code status source (bound_details details) (bound_actionable <$> actionable) sub_code None None.
Definition with_candidates (l : list string) (r : CheckResult) : CheckResult :=
  mkCheck (ck_code r) (ck_status r) (ck_source r) (ck_details r) (ck_actionable r) (ck_sub_code r) (Some l)
    (daemon_container_set_empty r).
Definition with_set_empty (b : bool) (r : CheckResult) : CheckResult :=
  mkCheck (ck_code r) (ck_status r) (ck_source r) (ck_details r) (ck_actionable r) (ck_sub_code r) (cgroup_candidates r)
    (if b then Some true else None).

Section Checks.
Variable repr_of : json → string.

(** [d.get(k, "")], as text. *)
Definition text_at (k : string) (d : params) : string := py_str repr_of (default (JStr EmptyString) (json_get k d)).

Definition MAX_SUPPORTED_SCHEMA_VERSION : Z := 8.

Definition check_socket_resolved (r : ResolvedSocket) : CheckResult :=
  row "socket_resolved" "pass" (Some (rs_source r)) (rs_path r +:+ " (" +:+ rs_source r +:+ ")") None None.

Definition path_is_socket (m : machine) (path : string) : bool * bool :=
  match is_symlink m path with
  | Raise _ => (false, false)
  | Ok linked =>
      let target : string + bool :=
        if linked : bool
        then match link_target m path with
             | Raise _ => inr false
             | Ok t => match is_symlink m t with Raise _ => inr false | Ok true => inr true | Ok false => inl t end
             end
        else inl path in
      match target with
      | inr there => (there, false)
      | inl t => match m_lstat m t with Raise _ => (false, false) | Ok k => (true, bool_decide (k = Socket)) end
      end
  end.

Definition actionable_for_kind (kind path : string) : string :=
  if bool_decide (kind = "socket_missing"%string)
  then "socket file does not exist at " +:+ path +:+ "; try `agenttower ensure-daemon` from the host"
  else if bool_decide (kind = "socket_not_unix"%string)
  then "path " +:+ path +:+ " exists but is not a Unix socket"
  else if bool_decide (kind = "connection_refused"%string)
  then "daemon refused connection at " +:+ path +:+ "; the daemon may be shutting down or reaping; try `agenttower ensure-daemon`"
  else if bool_decide (kind = "permission_denied"%string)
  then "permission denied opening " +:+ path +:+ "; the in-container uid must match the host daemon uid (FEAT-005 R-001)"
  else if bool_decide (kind = "connect_timeout"%string)
  then "daemon at " +:+ path +:+ " did not respond within the timeout"
  else "daemon transport error".

(** [check_socket_reachable]: the row and the payload of [status]. *)
Definition ask_status (m : machine) (path : string) : outcome (CheckResult * option params) :=
  match m_ask m "status" with
  | Raise e => Raise e
  | Ok (Unavailable kind) =>
      Ok (row "socket_reachable" "fail" (Some "round_trip"%string) (kind +:+ ": " +:+ path)
            (Some (actionable_for_kind kind path)) (Some kind), None)
  | Ok (Refused code message) =>
      Ok (row "socket_reachable" "pass" (Some "round_trip"%string) "transport_ok (daemon returned an error envelope)" None None,
          Some [("_daemon_error_code", JStr code); ("_daemon_error_message", JStr (bound_actionable message))]%string)
  | Ok (Answer result) =>
      Ok (row "socket_reachable" "pass" (Some "round_trip"%string)
            ("daemon_version=" +:+ text_at "daemon_version" result +:+ " schema_version=" +:+ text_at "schema_version" result)
            None None, Some result)
  end.
Definition check_socket_reachable (m : machine) (r : ResolvedSocket) : outcome (CheckResult * option params) :=
  let path := rs_path r in
  if bool_decide (path_is_socket m path = (true, false))
  then Ok (row "socket_reachable" "fail" (Some "round_trip"%string) ("socket_not_unix: " +:+ path)
             (Some ("resolved path exists but is not a Unix socket: " +:+ path)) (Some "socket_not_unix"%string), None)
  else ask_status m path.

(** [isinstance(v, int)]; booleans are integers. *)
Definition int_like (v : option json) : option Z :=
  match v with Some (JInt z) => Some z | Some (JBool b) => Some (if b then 1 else 0)%Z | _ => None end.

Definition daemon_unavailable (code actionable : string) : CheckResult :=
  row code "info" None "daemon_unavailable" (Some actionable) (Some "daemon_unavailable"%string).

Definition check_daemon_status (payload : option params) (reachable : bool) : outcome CheckResult :=
  if negb reachable then Ok (daemon_unavailable "daemon_status" "skipped because socket_reachable is fail")
  else
    match payload with
    | None => Raise (PyError "AssertionError")
    | Some p =>
        if has_key "_daemon_error_code" p
        then
          let message := text_at "_daemon_error_message" p in
          Ok (row "daemon_status" "fail" (Some "daemon_error"%string) ("daemon_error: " +:+ text_at "_daemon_error_code" p)
                (Some (if bool_decide (message = EmptyString) then "daemon returned an error"%string else message))
                (Some "daemon_error"%string))
        else
          match int_like (json_get "schema_version" p) with
          | None =>
              Ok (row "daemon_status" "fail" (Some "schema_check"%string) "daemon did not report a numeric schema_version"
                    (Some "upgrade the daemon"%string) (Some "daemon_error"%string))
          | Some v =>
              let shown := text_at "schema_version" p in
              if (MAX_SUPPORTED_SCHEMA_VERSION <? v)%Z
              then Ok (row "daemon_status" "fail" (Some "schema_check"%string) ("schema_version=" +:+ shown +:+ " > cli supports 8")
                         (Some ("upgrade the agenttower CLI (cli supports schema 8; daemon advertises " +:+ shown +:+ ")"))
                         (Some "schema_version_newer"%string))
              else if (v <? MAX_SUPPORTED_SCHEMA_VERSION)%Z
              then Ok (row "daemon_status" "warn" (Some "schema_check"%string) ("schema_version=" +:+ shown +:+ " < cli supports 8")
                         (Some "daemon is older than the CLI; upgrade the daemon when convenient"%string)
                         (Some "schema_version_older"%string))
              else Ok (row "daemon_status" "pass" (Some "schema_check"%string)
                         ("schema_version=" +:+ shown +:+ " (cli supports 8); daemon_version=" +:+ text_at "daemon_version" p)
                         None None)
          end
    end.

(** The rows of a listing: what [list(payload.get(k, []))] iterates over.  The elements of a
    text or of an object are texts, which have no [get]. *)
Definition listed (k : string) (payload : option params) : outcome (list json) :=
  match payload with
  | None => Ok []
  | Some p =>
      match default (JArr []) (json_get k p) with
      | JArr l => Ok l
      | JObj o => Ok ((λ kv, JStr kv.1) <$> o)
      | JStr s => Ok (replicate (char_count s) (JStr s))
      | _ => Raise (PyError "TypeError")
      end
  end.
Fixpoint as_dicts (l : list json) : outcome (list params) :=
  match l with
  | [] => Ok []
  | JObj o :: rest => match as_dicts rest with Ok r => Ok (o :: r) | Raise e => Raise e end
  | _ :: _ => Raise (PyError "AttributeError")
  end.

Definition ACTIONABLE_SCAN : string := "run `agenttower scan --containers` from the host".
Definition host_context_row : CheckResult := row "container_identity" "info" None "host_context" None (Some "host_context"%string).
Definition unique_match (sig : string) (r : params) : CheckResult :=
  row "container_identity" "pass" (Some sig) ("unique_match: " +:+ text_at "id" r +:+ " (" +:+ text_at "name" r +:+ ")") None
    (Some "unique_match"%string).
Definition identity_fail (source : option string) (details actionable sub_code : string) : CheckResult :=
  row "container_identity" "fail" source details (Some actionable) (Some sub_code).

(** The two ways a container matches: its id, or the first twelve characters of the candidate. *)
Definition full_match (cand : string) (r : params) : bool := bool_decide (text_at "id" r = cand).
Definition short_prefix (cand : string) : string := if (12 <=? char_count cand)%nat then take_chars 12 cand else cand.
Definition short_match (cand : string) (r : params) : bool :=
  Text.startswith (short_prefix cand) (text_at "id" r) && bool_decide (char_count (short_prefix cand) = 12%nat).
Definition the_ids (rs : list params) : string := join_with ", " (text_at "id" <$> rs).

Definition classify_candidate (cand sig : string) (rows : list params) (set_empty : bool) : CheckResult :=
  match filter (λ r, full_match cand r = true) rows with
  | [r] => unique_match sig r
  | _ :: _ as rs =>
      identity_fail (Some sig) ("multi_match: " +:+ the_ids rs) "more than one container row matches the candidate full id" "multi_match"
  | [] =>
      match filter (λ r, short_match cand r = true) rows with
      | [r] => unique_match sig r
      | _ :: _ as rs =>
          identity_fail (Some sig) ("multi_match: " +:+ the_ids rs +:+ " (candidate prefix=" +:+ short_prefix cand +:+ ")")
            "two or more container rows share the candidate's 12-char prefix; the doctor will not pick one" "multi_match"
      | [] => with_set_empty set_empty (identity_fail (Some sig) ("no_match: " +:+ cand +:+ " (" +:+ sig +:+ ")") ACTIONABLE_SCAN "no_match")
      end
  end.
Definition classify_identity_to_check_result (candidate : DetectResult) (ctx : RuntimeContext) (rows : list json) (set_empty : bool) :
  outcome CheckResult :=
  match candidate with
  | CgroupMultiCandidate cs =>
      Ok (with_candidates cs (identity_fail (Some "cgroup"%string)
            ("multi_match: distinct cgroup ids in /proc/self/cgroup: " +:+ join_with ", " cs)
            "the cgroup file contains multiple matching lines with different container ids; the doctor will not pick one" "multi_match"))
  | NoCandidate =>
      match ctx with
      | HostContext => Ok host_context_row
      | ContainerContext _ =>
          Ok (with_set_empty set_empty (identity_fail None "no_candidate: every detection signal returned empty"
                ("no in-container signal fired; " +:+ ACTIONABLE_SCAN) "no_candidate"))
      end
  | IdentityCandidate cand sig =>
      match as_dicts rows with Ok ds => Ok (classify_candidate cand sig ds set_empty) | Raise e => Raise e end
  end.

Definition check_container_identity (m : machine) (env : gmap string string) (ctx : RuntimeContext) (payload : option params)
  (reachable : bool) : outcome CheckResult :=
  if negb reachable
  then Ok (daemon_unavailable "container_identity"
             "skipped because socket_reachable is fail; run `agenttower ensure-daemon` from the host")
  else
    let classified :=
      match listed "containers" payload with
      | Raise e => Raise e
      | Ok rows => classify_identity_to_check_result (detect_candidate m env None) ctx rows (bool_decide (rows = []))
      end in
    match ctx, env !! "AGENTTOWER_CONTAINER_ID"%string with
    | HostContext, None => Ok host_context_row
    | _, _ => classified
    end.

(** [f"{x}"] of an optional text. *)
Definition shown (o : option string) : string := default "None"%string o.

Definition check_tmux_present (env : gmap string string) : CheckResult * ParsedTmuxEnv :=
  let parsed := parse_tmux_env env in
  (if negb (in_tmux parsed) then row "tmux_present" "info" None "not_in_tmux" None (Some "not_in_tmux"%string)
   else match malformed_reason parsed with
        | Some reason =>
            row "tmux_present" "fail" (Some "env"%string) ("output_malformed: " +:+ reason)
              (Some "$TMUX or $TMUX_PANE is malformed; check your tmux config"%string) (Some "output_malformed"%string)
        | None =>
            row "tmux_present" "pass" (Some "env"%string)
              ("socket=" +:+ shown (pt_socket_path parsed) +:+ " session=" +:+ shown (pt_session_id parsed) +:+
               " pane=" +:+ shown (pt_pane_id parsed)) None None
        end, parsed).

Definition pane_matches (parsed : ParsedTmuxEnv) (r : params) : bool :=
  bool_decide (Some (text_at "tmux_socket_path" r) = pt_socket_path parsed ∧ Some (text_at "tmux_pane_id" r) = pt_pane_id parsed).
Definition classify_pane (parsed : ParsedTmuxEnv) (rows : list params) : CheckResult :=
  let here := shown (pt_socket_path parsed) +:+ ":" +:+ shown (pt_pane_id parsed) in
  match filter (λ r, pane_matches parsed r = true) rows with
  | [r] =>
      row "tmux_pane_match" "pass" (Some "list_panes"%string)
        ("pane_match: " +:+ text_at "tmux_pane_id" r +:+ " in " +:+ text_at "container_id" r +:+ ":" +:+ text_at "tmux_session_name" r)
        None (Some "pane_match"%string)
  | _ :: _ as rs =>
      row "tmux_pane_match" "fail" (Some "list_panes"%string)
        ("pane_ambiguous: " +:+ print_int (Z.of_nat (length rs)) +:+ " panes match " +:+ here)
        (Some "more than one pane row matches; the doctor will not pick one"%string) (Some "pane_ambiguous"%string)
  | [] =>
      row "tmux_pane_match" "fail" (Some "list_panes"%string) ("pane_unknown_to_daemon: " +:+ here)
        (Some "no pane row matches; run `agenttower scan --panes` from the host"%string) (Some "pane_unknown_to_daemon"%string)
  end.
Definition check_tmux_pane_match (parsed : ParsedTmuxEnv) (payload : option params) (reachable : bool) : outcome CheckResult :=
  if negb reachable then Ok (daemon_unavailable "tmux_pane_match" "skipped because socket_reachable is fail")
  else if negb (in_tmux parsed) then Ok (row "tmux_pane_match" "info" None "not_in_tmux" None (Some "not_in_tmux"%string))
  else match malformed_reason parsed with
       | Some _ => Ok (row "tmux_pane_match" "info" None "skipped: tmux env malformed" None (Some "not_in_tmux"%string))
       | None =>
           match listed "panes" payload with
           | Raise e => Raise e
           | Ok l => match as_dicts l with Ok rows => Ok (classify_pane parsed rows) | Raise e => Raise e end
           end
       end.

(** ** runner.py *)

Definition CHECK_ORDER : list string :=
  ["socket_resolved"; "socket_reachable"; "daemon_status"; "container_identity"; "tmux_present"; "tmux_pane_match"].
Definition REQUIRED_CHECKS : list string := ["socket_resolved"; "socket_reachable"; "daemon_status"].

Record DoctorReport := mkReport { checks : list CheckResult; exit_code : Z }.

Definition is_fail (r : CheckResult) : bool := bool_decide (ck_status r = "fail"%string).
Definition row_of (code : string) (rows : list CheckResult) : option CheckResult := last (filter (λ r, ck_code r = code) rows).
Definition fails (code : string) (rows : list CheckResult) : bool :=
  match row_of code rows with Some r => is_fail r | None => false end.
Definition compute_exit_code (rows : list CheckResult) : Z :=
  if fails "socket_reachable" rows then 2
  else if fails "daemon_status" rows then 3
  else if existsb is_fail (filter (λ r, ck_code r ∉ REQUIRED_CHECKS) rows) then 5
  else 0.

(** [_safe_call] *)
Definition safe_call (m : machine) (method : string) : outcome (option params) :=
  match m_ask m method with
  | Ok (Answer r) => Ok (Some r)
  | Ok _ => Ok None
  | Raise e => Raise e
  end.
Definition call_if (b : bool) (m : machine) (method : string) : outcome (option params) :=
  if b then safe_call m method else Ok None.

(** [run_doctor]: a [SocketPathInvalid] with its reason, or the report. *)
Definition run_doctor (m : machine) (env : gmap string string) (host_socket : string) : outcome (string + DoctorReport) :=
  let ctx := detect m (env !! "AGENTTOWER_TEST_PROC_ROOT"%string) in
  match resolve_socket_path m env host_socket ctx with
  | inl reason => Ok (inl reason)
  | inr resolved =>
      match check_socket_reachable m resolved with
      | Raise e => Raise e
      | Ok (reachable, payload) =>
          let reachable_ok := bool_decide (ck_status reachable = "pass"%string) in
          match check_daemon_status payload reachable_ok with
          | Raise e => Raise e
          | Ok status =>
              let ok := reachable_ok && bool_decide (ck_status status = "pass"%string ∨ ck_status status = "warn"%string) in
              match call_if ok m "list_containers" with
              | Raise e => Raise e
              | Ok containers =>
                  match check_container_identity m env ctx containers ok with
                  | Raise e => Raise e
                  | Ok ident =>
                      let (present, parsed) := check_tmux_present env in
                      match call_if (ok && bool_decide (ck_status present = "pass"%string)) m "list_panes" with
                      | Raise e => Raise e
                      | Ok panes =>
                          match check_tmux_pane_match parsed panes ok with
                          | Raise e => Raise e
                          | Ok pane =>
                              let rows := [check_socket_resolved resolved; reachable; status; ident; present; pane] in
                              Ok (inr (mkReport rows (compute_exit_code rows)))
                          end
                      end
                  end
              end
          end
      end
  end.
End Checks.

(** ** render.py *)

Definition TAB : string := String "009"%char EmptyString.
Definition LF : string := String "010"%char EmptyString.
Definition count_status (s : string) (rows : list CheckResult) : Z :=
  Z.of_nat (length (filter (λ r, ck_status r = s) rows)).
Definition row_lines (r : CheckResult) : list string :=
  (ck_code r +:+ TAB +:+ ck_status r +:+ TAB +:+ ck_details r) ::
  match ck_actionable r with
  | Some a => if bool_decide (a = EmptyString) then [] else ["    " +:+ a]
  | None => []
  end.
Definition summary_line (report : DoctorReport) : string :=
  "summary" +:+ TAB +:+ print_int (exit_code report) +:+ TAB +:+
  print_int (count_status "pass" (checks report)) +:+ "/" +:+ print_int (Z.of_nat (length (checks report))) +:+ " checks passed".
Definition render_tsv (report : DoctorReport) : string :=
  join_with LF (concat (row_lines <$> checks report) ++ [summary_line report]) +:+ LF.

Definition summarize (report : DoctorReport) : json :=
  JObj [("exit_code", JInt (exit_code report)); ("total", JInt (Z.of_nat (length (checks report))));
        ("passed", JInt (count_status "pass" (checks report))); ("warned", JInt (count_status "warn" (checks report)));
        ("failed", JInt (count_status "fail" (checks report))); ("info", JInt (count_status "info" (checks report)))]%string.
Definition optional (k : string) (o : option json) : list (string * json) :=
  match o with Some v => [(k, v)] | None => [] end.
Definition check_obj (r : CheckResult) : json :=
  JObj ([("status", JStr (ck_status r)); ("details", JStr (ck_details r))]%string ++
        optional "source" (JStr <$> ck_source r) ++ optional "sub_code" (JStr <$> ck_sub_code r) ++
        optional "actionable_message" (JStr <$> ck_actionable r) ++
        optional "cgroup_candidates" ((λ l, JArr (JStr <$> l)) <$> cgroup_candidates r) ++
        optional "daemon_container_set_empty" (JBool <$> daemon_container_set_empty r)).
Definition render_json (report : DoctorReport) : string :=
  dumps_spaced_with escape
    (JObj [("summary", summarize report);
           ("checks", JObj (foldl (λ o r, put (ck_code r) (check_obj r) o) [] (checks report)))]%string).

(** * Properties *)

(** ** Bounded text *)

Definition single_line (s : string) : bool := Text.all (λ c, negb (tab_or_newline c)) s.

Lemma all_impl p q s : (∀ c, p c = true → q c = true) → Text.all p s = true → Text.all q s = true.
Proof. intros H. induction s as [|c s IH]; cbn; [done|]. rewrite !andb_true_iff. intros [H1 H2]. auto. Qed.
Lemma printable_single s : Text.all printable s = true → single_line s = true.
Proof. apply all_impl. intros c. by destruct c as [[] [] [] [] [] [] [] []]. Qed.
Lemma single_line_app s t : single_line (s +:+ t) = single_line s && single_line t.
Proof. apply text_all_app. Qed.
Lemma clean_printable s : Text.all printable (clean_controls s) = true.
Proof.
  induction s as [|c s IH]; cbn [clean_controls]; [done|]. destruct (tab_or_newline c); [done|].
  destruct (printable c) eqn:E; [|done]. cbn [Text.all]. by rewrite E.
Qed.
Lemma take_chars_all p n s : Text.all p s = true → Text.all p (take_chars n s) = true.
Proof.
  revert n. induction s as [|c s IH]; intros n; cbn; [done|]. intros [H1 H2]%andb_true_iff.
  destruct (leads c); [destruct n; [done|]|]; cbn; by rewrite H1, IH.
Qed.
Lemma take_chars_count n s : (char_count (take_chars n s) ≤ n)%nat.
Proof.
  revert n. induction s as [|c s IH]; intros n; cbn; [lia|]. destruct (leads c) eqn:E.
  - destruct n as [|n]; cbn; [lia|]. rewrite E. specialize (IH n). lia.
  - cbn. rewrite E. apply (IH n).
Qed.
Lemma char_count_app s t : char_count (s +:+ t) = (char_count s + char_count t)%nat.
Proof.
  induction s as [|c s IH]; [done|]. change (String c s +:+ t) with (String c (s +:+ t)). cbn. rewrite IH. lia.
Qed.
Lemma sanitized_printable s n : Text.all printable (sanitized s n) = true.
Proof.
  unfold sanitized, sanitize_marked. destruct (_ <=? _)%nat; cbn [fst]; [apply clean_printable|].
  rewrite text_all_app, take_chars_all by apply clean_printable. done.
Qed.
Lemma sanitized_bound s n : (1 ≤ n)%nat → (char_count (sanitized s n) ≤ n)%nat.
Proof.
  intros Hn. unfold sanitized, sanitize_marked. destruct (_ <=? _)%nat eqn:E; cbn [fst]; [by apply Nat.leb_le|].
  rewrite char_count_app. pose proof (take_chars_count (n - 1) (clean_controls s)).
  replace (char_count TRUNCATION_MARKER) with 1%nat by (by vm_compute). lia.
Qed.

(** ** Rows *)

Definition STATUSES : list string := ["pass"; "warn"; "fail"; "info"].
(** A row of the check [code]: its texts are printable, without tabs and newlines, and bounded. *)
Record proper (code : string) (r : CheckResult) : Prop := mkProper {
  pr_code : ck_code r = code;
  pr_status : ck_status r ∈ STATUSES;
  pr_details : Text.all printable (ck_details r) = true ∧ (char_count (ck_details r) ≤ DETAILS_CAP)%nat;
  pr_actionable : ∀ a, ck_actionable r = Some a → Text.all printable a = true ∧ (char_count a ≤ ACTIONABLE_CAP)%nat
}.

Lemma cap_positive : (1 ≤ DETAILS_CAP)%nat.
Proof. unfold DETAILS_CAP. lia. Qed.
Lemma proper_row code status source details actionable sub_code :
  status ∈ STATUSES → proper code (row code status source details actionable sub_code).
Proof.
  intros Hs. constructor; [done|done|split; [apply sanitized_printable|apply sanitized_bound, cap_positive]|].
  intros a. cbn. destruct actionable as [t|]; cbn; [|done]. intros [= <-].
  split; [apply sanitized_printable|apply sanitized_bound, cap_positive].
Qed.
Lemma proper_candidates code l r : proper code r → proper code (with_candidates l r).
Proof. by intros []. Qed.
Lemma proper_set_empty code b r : proper code r → proper code (with_set_empty b r).
Proof. by intros []. Qed.
Create HintDb doctor.
Lemma st_pass : "pass"%string ∈ STATUSES.
Proof. unfold STATUSES. set_solver. Qed.
Lemma st_warn : "warn"%string ∈ STATUSES.
Proof. unfold STATUSES. set_solver. Qed.
Lemma st_fail : "fail"%string ∈ STATUSES.
Proof. unfold STATUSES. set_solver. Qed.
Lemma st_info : "info"%string ∈ STATUSES.
Proof. unfold STATUSES. set_solver. Qed.
#[export] Hint Resolve proper_row proper_candidates proper_set_empty st_pass st_warn st_fail st_info : doctor.

Section Rows.
Variable repr_of : json → string.

Lemma reachable_proper m r x p :
  check_socket_reachable repr_of m r = Ok (x, p) → proper "socket_reachable" x.
Proof.
  unfold check_socket_reachable, ask_status. case_bool_decide; [intros [= <- <-]; eauto with doctor|].
  destruct (m_ask m "status") as [[result|code message|kind]|e]; [..|done]; intros [= <- <-]; eauto with doctor.
Qed.
Lemma status_proper p b x : check_daemon_status repr_of p b = Ok x → proper "daemon_status" x.
Proof.
  unfold check_daemon_status, daemon_unavailable. destruct b; cbn [negb]; [|intros [= <-]; eauto with doctor].
  destruct p as [p|]; [|done]. destruct (has_key _ p); [intros [= <-]; eauto with doctor|].
  destruct (int_like _) as [v|]; [|intros [= <-]; eauto with doctor].
  destruct (_ <? v)%Z; [intros [= <-]; eauto with doctor|]. destruct (v <? _)%Z; intros [= <-]; eauto with doctor.
Qed.
Lemma candidate_proper cand sig rows e : proper "container_identity" (classify_candidate repr_of cand sig rows e).
Proof.
  unfold classify_candidate, unique_match, identity_fail.
  destruct (filter _ rows) as [|r [|r' rs]]; [|eauto with doctor..].
  destruct (filter _ rows) as [|r [|r' rs]]; eauto with doctor.
Qed.
Lemma identity_proper m env ctx p b x : check_container_identity repr_of m env ctx p b = Ok x → proper "container_identity" x.
Proof.
  unfold check_container_identity, daemon_unavailable, host_context_row. destruct b; cbn [negb]; [|intros [= <-]; eauto with doctor].
  assert (Hc : match listed "containers" p with Raise e => Raise e
    | Ok rows => classify_identity_to_check_result repr_of (detect_candidate m env None) ctx rows (bool_decide (rows = [])) end = Ok x →
    proper "container_identity" x).
  { destruct (listed _ p) as [rows|e]; [|done]. unfold classify_identity_to_check_result, host_context_row, identity_fail.
    destruct (detect_candidate m env None) as [|cand sig|cs].
    - destruct ctx; intros [= <-]; eauto with doctor.
    - destruct (as_dicts rows); [|done]. intros [= <-]. apply candidate_proper.
    - intros [= <-]. eauto with doctor. }
  destruct ctx; [|exact Hc]. destruct (env !! _); [exact Hc|]. intros [= <-]. eauto with doctor.
Qed.
Lemma present_proper env : proper "tmux_present" (check_tmux_present env).1.
Proof.
  unfold check_tmux_present. cbn [fst]. destruct (negb _); [eauto with doctor|]. destruct (malformed_reason _); eauto with doctor.
Qed.
Lemma pane_proper parsed p b x : check_tmux_pane_match repr_of parsed p b = Ok x → proper "tmux_pane_match" x.
Proof.
  unfold check_tmux_pane_match, daemon_unavailable. destruct (negb b); [intros [= <-]; eauto with doctor|].
  destruct (negb (in_tmux parsed)); [intros [= <-]; eauto with doctor|].
  destruct (malformed_reason parsed); [intros [= <-]; eauto with doctor|]. destruct (listed _ p); [|done].
  destruct (as_dicts _) as [rows|]; [|done]. intros [= <-]. unfold classify_pane.
  destruct (filter _ rows) as [|r [|r' rs]]; eauto with doctor.
Qed.

(** What a report is made of. *)
Lemma report_parts m env hs report :
  run_doctor repr_of m env hs = Ok (inr report) →
  ∃ resolved reachable payload status containers ident panes pane,
    resolve_socket_path m env hs (detect m (env !! "AGENTTOWER_TEST_PROC_ROOT"%string)) = inr resolved ∧
    check_socket_reachable repr_of m resolved = Ok (reachable, payload) ∧
    let ok1 := bool_decide (ck_status reachable = "pass"%string) in
    check_daemon_status repr_of payload ok1 = Ok status ∧
    let ok := ok1 && bool_decide (ck_status status = "pass"%string ∨ ck_status status = "warn"%string) in
    check_container_identity repr_of m env (detect m (env !! "AGENTTOWER_TEST_PROC_ROOT"%string)) containers ok = Ok ident ∧
    check_tmux_pane_match repr_of (check_tmux_present env).2 panes ok = Ok pane ∧
    checks report = [check_socket_resolved resolved; reachable; status; ident; (check_tmux_present env).1; pane] ∧
    exit_code report = compute_exit_code (checks report).
Proof.
  unfold run_doctor. destruct (resolve_socket_path _ _ _ _) as [|resolved]; [done|].
  destruct (check_socket_reachable _ m resolved) as [[reachable payload]|e] eqn:E1; [|done].
  destruct (check_daemon_status _ payload _) as [status|e] eqn:E2; [|done].
  destruct (call_if _ m "list_containers") as [containers|e]; [|done].
  destruct (check_container_identity _ m env _ containers _) as [ident|e] eqn:E3; [|done].
  destruct (check_tmux_present env) as [present parsed] eqn:E4.
  destruct (call_if _ m "list_panes") as [panes|e]; [|done].
  destruct (check_tmux_pane_match _ parsed panes _) as [pane|e] eqn:E5; [|done]. intros [= <-].
  exists resolved, reachable, payload, status, containers, ident, panes, pane. cbn [fst snd]. auto 10.
Qed.
End Rows.

(** ** The report *)

Lemma single_no_newline s : single_line s = true → Text.all (λ c, negb (bool_decide (c = "010"%char))) s = true.
Proof. apply all_impl. intros c. by destruct c as [[] [] [] [] [] [] [] []]. Qed.
Lemma single_no_tab s : single_line s = true → Text.all (λ c, negb (bool_decide (c = "009"%char))) s = true.
Proof. apply all_impl. intros c. by destruct c as [[] [] [] [] [] [] [] []]. Qed.

(** Lines joined by newlines are read back. *)
Definition no_newline (s : string) : bool := Text.all (λ c, negb (bool_decide (c = "010"%char))) s.
Lemma split_joined l : Forall (λ s, no_newline s = true) l → l ≠ [] →
  Text.split "010"%char (join_with LF l +:+ LF) = l ++ [EmptyString].
Proof.
  induction l as [|x [|y l] IH]; intros Hl Hn; [done|..].
  - change (join_with LF [x]) with x. unfold LF. rewrite Text.split_app by (by inversion Hl). done.
  - apply Forall_cons in Hl as [Hx Hl]. change (join_with LF (x :: y :: l)) with (x +:+ LF +:+ join_with LF (y :: l)).
    rewrite !text_app_assoc. change (LF +:+ ?r) with (String "010"%char r). rewrite Text.split_app by done.
    rewrite IH; [done|done|done].
Qed.
Lemma no_newline_app s t : no_newline (s +:+ t) = no_newline s && no_newline t.
Proof. apply text_all_app. Qed.
Lemma print_int_no_newline z : no_newline (print_int z) = true.
Proof. eapply all_impl, print_int_visible. intros c. by destruct c as [[] [] [] [] [] [] [] []]. Qed.

Lemma order_plain code : code ∈ CHECK_ORDER → single_line code = true.
Proof. intros H. repeat (apply elem_of_cons in H as [->|H]; [done|]). by apply elem_of_nil in H. Qed.
Lemma status_plain st : st ∈ STATUSES → single_line st = true.
Proof. intros H. repeat (apply elem_of_cons in H as [->|H]; [done|]). by apply elem_of_nil in H. Qed.

Lemma row_lines_plain code r : proper code r → code ∈ CHECK_ORDER → Forall (λ s, no_newline s = true) (row_lines r).
Proof.
  intros [Hc Hs [Hd _] Ha] Ho. apply Forall_cons. split.
  - rewrite !no_newline_app, Hc. cbn [TAB]. rewrite !andb_true_iff. split_and!; try done.
    + by apply single_no_newline, order_plain.
    + by apply single_no_newline, status_plain.
    + by apply single_no_newline, printable_single.
  - destruct (ck_actionable r) as [a|]; [|by constructor]. case_bool_decide; [by constructor|]. apply Forall_singleton.
    rewrite no_newline_app. apply andb_true_iff. split; [done|]. by apply single_no_newline, printable_single, Ha.
Qed.
Lemma row_cells code r : proper code r → code ∈ CHECK_ORDER →
  Text.split "009"%char (ck_code r +:+ TAB +:+ ck_status r +:+ TAB +:+ ck_details r) = [ck_code r; ck_status r; ck_details r].
Proof.
  intros [Hc Hs [Hd _] Ha] Ho. assert (Ht : ∀ x, TAB +:+ x = String "009"%char x) by done. rewrite !Ht.
  rewrite Text.split_app by (rewrite Hc; by apply single_no_tab, order_plain).
  rewrite Text.split_app by (by apply single_no_tab, status_plain).
  by rewrite Text.split_none by (by apply single_no_tab, printable_single).
Qed.

Lemma report_proper repr_of m env hs report :
  run_doctor repr_of m env hs = Ok (inr report) → Forall2 proper CHECK_ORDER (checks report).
Proof.
  intros (resolved & reachable & payload & status & containers & ident & panes & pane & _ & H1 & H2 & H3 & H4 & -> & _)%report_parts.
  constructor; [unfold check_socket_resolved; eauto with doctor|]. constructor; [by apply (reachable_proper _ _ _ _ _ H1)|].
  constructor; [by apply (status_proper _ _ _ _ H2)|]. constructor; [by apply (identity_proper _ _ _ _ _ _ _ H3)|].
  constructor; [apply present_proper|]. constructor; [by apply (pane_proper _ _ _ _ _ H4)|]. constructor.
Qed.

(** C40: Whatever the environment, the files and the daemon contain, the report is six rows in a
    fixed order, each on one line of three cells with a status of the closed set and details of
    at most 2048 printable characters, with an indented line of advice at most; nothing in the
    texts can add a line or a cell. *)
Theorem reports_cannot_be_forged repr_of m env hs report :
  run_doctor repr_of m env hs = Ok (inr report) →
  Text.split "010"%char (render_tsv report) = concat (row_lines <$> checks report) ++ [summary_line report; EmptyString] ∧
  ck_code <$> checks report = CHECK_ORDER ∧
  Forall (λ r, Text.split "009"%char (ck_code r +:+ TAB +:+ ck_status r +:+ TAB +:+ ck_details r) = [ck_code r; ck_status r; ck_details r] ∧
               ck_status r ∈ STATUSES ∧ Text.all printable (ck_details r) = true ∧ (char_count (ck_details r) ≤ DETAILS_CAP)%nat)
    (checks report).
Proof.
  intros H%report_proper. split_and!.
  - unfold render_tsv. rewrite split_joined; [by rewrite <- app_assoc| |by destruct (concat _)].
    apply Forall_app. split.
    + apply Forall_concat, Forall_fmap. eapply Forall2_Forall_r; [exact H|]. apply Forall_forall. intros code Hc r Hr.
      by apply (row_lines_plain code).
    + apply Forall_singleton. unfold summary_line. rewrite !no_newline_app, !print_int_no_newline. done.
  - assert (Hg : ∀ l rs, Forall2 proper l rs → ck_code <$> rs = l); [|by apply Hg].
    induction 1 as [|code r l rs Hr _ IH]; [done|]. cbn. f_equal; [apply Hr|exact IH].
  - eapply Forall2_Forall_r; [exact H|]. apply Forall_forall. intros code Hc r Hr. destruct (Hr) as [_ Hs [Hd Hb] _].
    split_and!; [by apply (row_cells code)|done..].
Qed.

(** ** The verdict *)

(** What the client can tell of the daemon at a path. *)
Inductive standing := Silent | Broken | Running.
Definition schema_standing (p : params) : standing :=
  match int_like (json_get "schema_version" p) with
  | Some v => if (v <=? MAX_SUPPORTED_SCHEMA_VERSION)%Z then Running else Broken
  | None => Broken
  end.
Definition standing_of (m : machine) (path : string) : standing :=
  if bool_decide (path_is_socket m path = (true, false)) then Silent
  else match m_ask m "status" with
       | Ok (Answer p) => if has_key "_daemon_error_code" p then Broken else schema_standing p
       | Ok (Refused _ _) => Broken
       | Ok (Unavailable _) | Raise _ => Silent
       end.

(** What the rows of the connection and of the status say. *)
Definition says (st : standing) (x s : CheckResult) : Prop :=
  match st with
  | Silent => ck_status x = "fail"%string ∧ ck_status s = "info"%string
  | Broken => ck_status x = "pass"%string ∧ ck_status s = "fail"%string
  | Running => ck_status x = "pass"%string ∧ (ck_status s = "pass"%string ∨ ck_status s = "warn"%string)
  end.
Lemma status_of_schema repr_of p s x :
  ck_status x = "pass"%string → has_key "_daemon_error_code" p = false →
  check_daemon_status repr_of (Some p) true = Ok s → says (schema_standing p) x s.
Proof.
  intros Hx Hk. unfold check_daemon_status, schema_standing. cbn [negb]. rewrite Hk.
  destruct (int_like _) as [v|]; [|by intros [= <-]].
  destruct (MAX_SUPPORTED_SCHEMA_VERSION <? v)%Z eqn:E1.
  - replace (v <=? MAX_SUPPORTED_SCHEMA_VERSION)%Z with false by lia. by intros [= <-].
  - replace (v <=? MAX_SUPPORTED_SCHEMA_VERSION)%Z with true by lia. destruct (v <? _)%Z; intros [= <-]; split; auto.
Qed.
Lemma standing_rows repr_of m r x p s :
  check_socket_reachable repr_of m r = Ok (x, p) →
  check_daemon_status repr_of p (bool_decide (ck_status x = "pass"%string)) = Ok s → says (standing_of m (rs_path r)) x s.
Proof.
  unfold check_socket_reachable, standing_of, ask_status.
  case_bool_decide; [intros [= <- <-]; by intros [= <-]|].
  destruct (m_ask m "status") as [[result|code message|kind]|e]; [..|done]; intros [= <- <-].
  - change (bool_decide (ck_status (row _ "pass" _ _ _ _) = "pass"%string)) with true. destruct (has_key _ result) eqn:Hk.
    + unfold check_daemon_status. cbn [negb]. rewrite Hk. by intros [= <-].
    + by apply status_of_schema.
  - by intros [= <-].
  - by intros [= <-].
Qed.

Lemma the_rows a x s i t p :
  Forall2 proper CHECK_ORDER [a; x; s; i; t; p] →
  row_of "socket_reachable" [a; x; s; i; t; p] = Some x ∧ row_of "daemon_status" [a; x; s; i; t; p] = Some s.
Proof.
  unfold CHECK_ORDER. intros H. repeat match goal with H : Forall2 proper (_ :: _) (_ :: _) |- _ => apply Forall2_cons in H as [[? _ _ _] H] end.
  destruct a, x, s, i, t, p. cbn in *. subst. split; reflexivity.
Qed.
Lemma unavailable_rows repr_of m env ctx c i parsed ps pn a x s t ok :
  ok = false → Forall2 proper CHECK_ORDER [a; x; s; i; t; pn] →
  check_container_identity repr_of m env ctx c ok = Ok i → check_tmux_pane_match repr_of parsed ps ok = Ok pn →
  Forall (λ r, ck_code r ∈ ["container_identity"; "tmux_pane_match"]%string → ck_sub_code r = Some "daemon_unavailable"%string)
     [a; x; s; i; t; pn].
Proof.
  unfold CHECK_ORDER. intros -> H [= Hi] [= Hp].
  assert (Hn : ∀ code r, proper code r → code ∉ ["container_identity"; "tmux_pane_match"]%string →
    ck_code r ∈ ["container_identity"; "tmux_pane_match"]%string → ck_sub_code r = Some "daemon_unavailable"%string).
  { intros code r Hr Hc. rewrite (pr_code _ _ Hr). by intros ?%Hc. }
  repeat match goal with H : Forall2 proper (_ :: _) (_ :: _) |- _ => apply Forall2_cons in H as [? H] end.
  repeat constructor; try (by subst); eapply Hn; try done; set_solver.
Qed.

(** The exit code: 2 when no daemon answers at the path, 3 when one answers that cannot be used,
    and otherwise 5 or 0, by whether one of the remaining checks failed; and what only the daemon
    knows is not judged without it. *)
Theorem doctor_exit_code repr_of m env hs resolved report :
  run_doctor repr_of m env hs = Ok (inr report) →
  resolve_socket_path m env hs (detect m (env !! "AGENTTOWER_TEST_PROC_ROOT"%string)) = inr resolved →
  exit_code report =
    (match standing_of m (rs_path resolved) with
     | Silent => 2
     | Broken => 3
     | Running => if existsb is_fail (filter (λ r, ck_code r ∉ REQUIRED_CHECKS) (checks report)) then 5 else 0
     end)%Z ∧
  (standing_of m (rs_path resolved) ≠ Running →
   Forall (λ r, ck_code r ∈ ["container_identity"; "tmux_pane_match"]%string → ck_sub_code r = Some "daemon_unavailable"%string)
     (checks report)).
Proof.
  intros Hrun Hres. pose proof (report_proper _ _ _ _ _ Hrun) as Hp.
  destruct (report_parts _ _ _ _ _ Hrun) as (r & x & p & s & c & i & ps & pn & Hr & H1 & H2 & H3 & H4 & Hc & He).
  rewrite Hr in Hres. injection Hres as <-. pose proof (standing_rows _ _ _ _ _ _ H1 H2) as Hs.
  rewrite Hc in Hp. destruct (the_rows _ _ _ _ _ _ Hp) as [Rx Rs]. split.
  - rewrite He. unfold compute_exit_code, fails. rewrite Hc, Rx, Rs. unfold is_fail at 1 2.
    destruct (standing_of m (rs_path r)); destruct Hs as [Hx Hs]; rewrite Hx; cbn [bool_decide].
    + by rewrite bool_decide_eq_true_2.
    + rewrite Hs. by rewrite bool_decide_eq_false_2, bool_decide_eq_true_2.
    + by destruct Hs as [-> | ->].
  - intros Hn. rewrite Hc. apply (unavailable_rows repr_of m env _ c i _ ps pn _ x s _ _) with (2 := Hp) (3 := H3) (4 := H4).
    destruct (standing_of m (rs_path r)); destruct Hs as [Hx Hs]; [by rewrite Hx|by rewrite Hx, Hs|done].
Qed.

(** A container is reported only when exactly one of the daemon's containers has the id found, or
    none has it and exactly one starts with its first twelve characters. *)
Theorem identity_is_not_guessed repr_of m env ctx p b x :
  check_container_identity repr_of m env ctx p b = Ok x → ck_status x = "pass"%string →
  ∃ cand sig l rows, detect_candidate m env None = IdentityCandidate cand sig ∧ listed "containers" p = Ok l ∧ as_dicts l = Ok rows ∧
    (length (filter (λ r, full_match repr_of cand r = true) rows) = 1%nat ∨
     filter (λ r, full_match repr_of cand r = true) rows = [] ∧ length (filter (λ r, short_match repr_of cand r = true) rows) = 1%nat).
Proof.
  unfold check_container_identity. destruct b; cbn [negb]; [|by intros [= <-]].
  intros H Hs. assert (Hc : match listed "containers" p with Raise e => Raise e
    | Ok rows => classify_identity_to_check_result repr_of (detect_candidate m env None) ctx rows (bool_decide (rows = [])) end = Ok x).
  { destruct ctx; [|exact H]. destruct (env !! _); [exact H|]. by injection H as <-. }
  clear H. destruct (listed "containers" p) as [l|e] eqn:El; [|done]. unfold classify_identity_to_check_result in Hc.
  destruct (detect_candidate m env None) as [|cand sig|cs] eqn:Ed; [by destruct ctx; injection Hc as <-| |by injection Hc as <-].
  destruct (as_dicts l) as [rows|e] eqn:Ea; [|done]. injection Hc as <-. exists cand, sig, l, rows. split_and!; [done..|].
  unfold classify_candidate in Hs. destruct (filter _ rows) as [|r [|r' rs]] eqn:E; [|by left|done]. right. split; [done|].
  by destruct (filter (λ r, short_match repr_of cand r = true) rows) as [|r [|r' rs]].
Qed.

(** ** A machine *)

Definition demo_machine (cgroup : string) (status : reply) : machine :=
  mkMachine ∅ (λ _, Ok Socket) (λ _, Raise FileNotFoundError) (λ _, Ok false)
    (λ path, if bool_decide (path = "/proc/self/cgroup"%string) then Ok cgroup else Raise FileNotFoundError)
    (λ method, Ok (if bool_decide (method = "status"%string) then status else Answer [])).
Definition forging : string := "8" +:+ LF +:+ "tmux_present" +:+ TAB +:+ "pass" +:+ TAB +:+ "all is well".
Definition demo_reply : reply := Answer [("schema_version", JInt 8); ("daemon_version", JStr forging)]%string.
Definition demo_report : DoctorReport :=
  match run_doctor (λ _, EmptyString) (demo_machine EmptyString demo_reply) ∅ "/s/sock" with
  | Ok (inr r) => r
  | _ => mkReport [] 0
  end.

Lemma reports_cannot_be_forged_witness :
  run_doctor (λ _, EmptyString) (demo_machine EmptyString demo_reply) ∅ "/s/sock" = Ok (inr demo_report) ∧
  length (Text.split "010"%char (render_tsv demo_report)) = 8%nat ∧
  ck_code <$> checks demo_report = CHECK_ORDER.
Proof.
  assert (H : run_doctor (λ _, EmptyString) (demo_machine EmptyString demo_reply) ∅ "/s/sock" = Ok (inr demo_report)) by by vm_compute.
  destruct (reports_cannot_be_forged (λ _, EmptyString) (demo_machine EmptyString demo_reply) ∅ "/s/sock" demo_report H) as (H1 & H2 & _).
  split; [exact H|]. split; [rewrite H1; by vm_compute|exact H2].
Defined.

(** The identifier of a Kubernetes container is taken to be the class of service that comes
    first in its path. *)
Example kubernetes_id_is_the_class :
  detect_candidate (demo_machine ("0::/kubepods/burstable/pod-uuid/abc123def456" +:+ LF) demo_reply) ∅ None =
  IdentityCandidate "burstable" "cgroup".
Proof. by vm_compute. Qed.
(** The path of a containerd service, and the systemd form of a docker path, do not count as
    containers, though the latter gives an identifier. *)
Example systemd_paths_are_not_containers :
  detect (demo_machine ("0::/system.slice/containerd.service" +:+ LF) demo_reply) None = HostContext ∧
  detect (demo_machine ("0::/system.slice/docker-0123456789abcdef.scope" +:+ LF) demo_reply) None = HostContext ∧
  detect_candidate (demo_machine ("0::/system.slice/docker-0123456789abcdef.scope" +:+ LF) demo_reply) ∅ None =
    IdentityCandidate "0123456789abcdef" "cgroup".
Proof. by vm_compute. Qed.
